(* ===== verification/_CoqProject ===== *)
-Q . S2P
Prelude.v
Bits.v
HuffmanConsts.v
Huffman.v
H2Error.v
HpackInteger.v
HpackTable.v
Headers.v
Parts.v
HpackRepr.v
HpackReprDecoder.v
HpackReprEncoder.v
Hpack.v
HpackRoundtrip.v
H2Frame.v
H2FrameDecoder.v
H2FrameSegments.v
H2FrameValid.v
H2FrameEncoder.v
H2FrameWriter.v
H2FrameRoundtrip.v
H2HeadersRoundtrip.v
Buffers.v
PullEncoder.v
H2FrameDrain.v
ChunkBody.v
ChunkDecoder.v
Uri.v
PercentEncoding.v
Message.v
H1Request.v
H1Response.v
H2Window.v
H2Streams.v
H2Lifecycle.v
RateLimit.v
H2Conn.v
H2ConnNeutral.v
H2ConnSafety.v
H2ConnLoops.v
H2ConnQueues.v
H2Io.v
H2IoSend.v
H2IoRecv.v
H3Error.v
H3Octets.v
H3Frame.v
H3FrameDecoder.v
H3DecoderSafety.v
H3FrameSegments.v
H3FrameEncoder.v
H3FrameRoundtrip.v
H3SettingsRoundtrip.v
QpackTable.v
QpackFormat.v
QpackDecoder.v
QpackEncoder.v
QpackRoundtrip.v
H3HeadersRoundtrip.v
QpackProgress.v
TextBody.v
Multipart.v
MimeType.v
Mime.v
MimeDecoder.v
MimeRoundtrip.v
H1Pool.v
Base64.v
HttpBody.v
Normalizer.v
Proxy.v
AltSvc.v
Redirect.v
HttpBodySafety.v
ChunkDelivery.v
H1Conn.v
H2Exchange.v
H2Body.v
