(* ===== verification/Prelude.v ===== *)
(** * Verification of ylong_http: HTTP/2, HTTP/3, HTTP/1 and the client's connections

    The repository is an HTTP library in two crates: [ylong_http], the protocol
    components, and [ylong_http_client], the clients built on them.  This
    development verifies, of the first, what an HTTP/2 connection rests on (HPACK
    with its Huffman code, and the binary framing), the same of HTTP/3 (frames, QPACK),
    the HTTP/1 codecs with the chunked body, and URIs; of the second, the task that runs
    an HTTP/2 connection with its streams and flow control, and what a request over HTTP/1
    goes through: normalization, redirects, the pool of connections, the exchange and the
    body of the response.

    ** The program's parts and the files that model them

    - [Prelude]: results with errors and panics ([res]), the state monad [M] over
      them in which methods with [&mut self] are written, byte buffers
      ([upto], [from], [slice], [at_]), machine widths, shared lemmas, tactics
      and the hint database [rust].
    - [Bits]: byte strings as bit strings, most significant bit first.
    - [HuffmanConsts], [Huffman]: [ylong_http/src/huffman/].  The two tables, the
      64-bit accumulator of [huffman_encode], the nibble automaton of
      [huffman_decode_inner], the incremental [HuffmanDecoder].
    - [H2Error]: [h2/error.rs], error codes and their conversions.
    - [HpackInteger]: [h2/hpack/integer.rs], prefixed integers, one byte at a
      time, with the checked arithmetic of [usize].
    - [HpackTable]: [h2/hpack/table.rs], the static table (its [match] arms as
      they stand), the dynamic table with eviction, the searcher over both.
    - [Headers]: [headers.rs] and [util/header_bytes.rs], header names, values and
      the map of a message's fields.
    - [Parts]: [pseudo.rs] and [h2/parts.rs].
    - [HpackRepr]: [h2/hpack/representation/mod.rs].
    - [HpackReprDecoder]: [h2/hpack/representation/decoder.rs], the resumable
      state diagram that reads representations.
    - [HpackReprEncoder]: [h2/hpack/representation/encoder.rs], the resumable
      writers.  The class [SegWriter] is what the parts of a representation
      promise to the encoder that chains them: what is pending, and that a call
      writes as much of it as fits.
    - [Hpack]: [h2/hpack/decoder.rs] ([HpackDecoder] with its [Updater]) and
      [h2/hpack/encoder.rs].
    - [HpackRoundtrip]: the two ends of a header block together.
    - [H2Frame]: [h2/frame.rs], frames, flags, settings.
    - [H2FrameDecoder]: [h2/decoder.rs], the two-stage frame decoder with all ten
      payload decoders; [H2FrameSegments] and [H2FrameValid] prove its
      properties.
    - [H2FrameEncoder]: [h2/encoder.rs], the frame encoder's state machine, every
      method; [H2FrameWriter] proves what it writes.
    - [H2FrameRoundtrip]: the decoder on the encoder's output, for frames without
      header blocks; [H2HeadersRoundtrip]: the same for HEADERS with CONTINUATION
      frames, on top of the HPACK round trip.
    - [Buffers], [PullEncoder]: lemmas on buffers consumed in pieces, loops with
      fuel and without ([loop], [runs]), and the class of encoders that are called
      with one output buffer after the other.
    - [ChunkBody], [ChunkDecoder]: [body/chunk.rs], the chunked body over slices and
      readers, its decoder and its trailers.
    - [Uri], [PercentEncoding]: [request/uri/], the parser, builder and printer of
      URIs and the percent encoder.
    - [Message]: [request/method.rs], [version.rs], [response/status.rs], and the
      parts of requests and responses.
    - [H1Request]: [h1/request/encoder.rs]; [H1Response]: [h1/response/decoder.rs].
    - [H2Window]: [util/h2/buffer/] of the client, flow-control windows at [i32].
    - [H2Streams]: [util/h2/streams.rs], the streams of a connection, their states
      and the queues they wait in; [H2Lifecycle] is the state diagram of RFC 9113
      ([edge], with a label for each kind of frame) and the refinement.
    - [H2Conn]: [util/h2/manager.rs] with the [StreamController] of
      [util/dispatcher.rs], the task that owns a connection.  [H2ConnNeutral] shows
      once what most handlers leave alone; [H2ConnSafety], [H2ConnQueues] and
      [H2ConnLoops] prove its properties over runs ([run]) of events: polls,
      messages, requests, closed channels.
    - [H2Io]: [util/h2/input.rs] and [util/h2/output.rs], the tasks that write and read the
      socket of a connection; [H2IoSend], on top of [H2FrameDrain] (what the frame encoder
      writes through any buffers), and [H2IoRecv] prove what goes over the wire.
    - [RateLimit]: [util/progress/rate_limit.rs], limits on the speed of a transfer, with
      instants in nanoseconds.
    - [H2Exchange]: [async_impl/conn/http2.rs], the HEADERS of a request, the head of a
      response and the transport of its body; [H2Body] proves that it is a transport as
      [HttpBody] takes it, and that it keeps to the limits.
    - [H3Error], [H3Octets], [H3Frame]: [h3/error.rs], [h3/octets.rs] (variable-length
      integers, readers and writers of buffers), [h3/frame.rs], [h3/parts.rs],
      [h3/stream.rs].
    - [H3FrameDecoder]: [h3/decoder.rs], the decoder of HTTP/3 streams, over any QPACK
      decoder (class [QpackDecoderOps]); [H3DecoderSafety], [H3FrameSegments] prove its
      properties.
    - [H3FrameEncoder]: [h3/encoder.rs], over any QPACK encoder (class
      [QpackEncoderOps]); [H3FrameRoundtrip], [H3SettingsRoundtrip] have both ends.
    - [QpackTable], [QpackFormat]: [h3/qpack/table.rs], [h3/qpack/mod.rs],
      [h3/qpack/integer.rs], [h3/qpack/format/decoder.rs].
    - [QpackDecoder]: [h3/qpack/decoder.rs]; [QpackEncoder]: [h3/qpack/encoder.rs] and
      [h3/qpack/format/encoder.rs].  Each gives the instance ([qpack_decoder_ops],
      [qpack_encoder_ops]) that the frame layer asks for.  [QpackProgress] proves
      termination, [QpackRoundtrip] the round trip, and [H3HeadersRoundtrip] composes
      it with the frame layer.

    - [TextBody]: [body/text.rs], bodies sent as they are.
    - [Multipart]: [body/mime/simple.rs], forms that are uploaded, and their boundaries.
    - [MimeType]: [body/mime/mimetype.rs], media types and the table of file extensions.
    - [Mime], [MimeDecoder]: [body/mime/common], [body/mime/encode], [body/mime/decode],
      multiparts nested to any depth, their encoders and their decoders; [MimeRoundtrip]
      has both ends.
    - [HttpBody]: [async_impl/http_body.rs] of the client, the body of a response over a
      transport that answers as it likes; [HttpBodySafety] and [ChunkDelivery] prove what
      is delivered.
    - [Normalizer]: [util/normalizer.rs], formatting of requests and the length of a
      response body; [Redirect]: [util/redirect.rs] and the loop of
      [async_impl/client.rs] that follows redirects; [Base64]: [util/base64.rs].
    - [Proxy]: [util/proxy.rs], [util/pool.rs] and the tunnel of [async_impl/proxy.rs];
      [AltSvc]: [util/alt_svc.rs].
    - [H1Pool]: [async_impl/pool.rs] with [mod http1] of [util/dispatcher.rs], the
      connections of HTTP/1 that the tasks of the client share, as interleaved atomic
      steps, down to the order in which the fields of a handle are dropped.
    - [H1Conn]: [async_impl/conn/http1.rs], an exchange from the encoder of the request,
      its interceptors and its flush to the body of the response, and when the connection is
      marked as shut down; it composes [H1Request], [H1Response], [TextBody] and
      [HttpBody], and takes the body of a request through the class [BodySource].

    A frame decoder holds an HPACK decoder and hands it the fragments of HEADERS,
    PUSH_PROMISE and CONTINUATION frames; the HPACK decoder runs the
    representation decoder, which holds integer and Huffman decoders across
    calls, and applies each representation to its dynamic table and to the
    header lines.  The encoders mirror this.  In the client, the tasks that read
    and write the socket run the frame codecs; the manager in between takes frames
    and requests from channels, steps the streams, and queues frames to be written.
    Only well-formed frames reach it: the runs of [H2ConnSafety] assume [frame_wf], and
    [decoded_frames_valid] proves it and more ([frame_valid]) of the decoder.

    ** How code becomes definitions

    Each method is a definition of the same name in a module of the type's name,
    with the record of the type's fields.  A [u8] is a [Z] in [[0, 256)]
    ([is_u8]), a [usize] a [Z] below [2 ^ 64], and casts, shifts and masks are
    written out.  [&mut self] is state passing through [M]: the state survives an
    error, as it does in Rust.  Indexing out of bounds, slicing out of bounds,
    [unwrap] on an error, and arithmetic of which a peer can make the result leave its type
    (a difference below zero, a sum with a number from the wire) are [Panic] (the
    behaviour of a build with overflow checks); sums of lengths of what is in memory are
    not bounded.  A method that writes into
    [buf: &mut [u8]] takes the buffer and returns it with the number of bytes
    written.  Strings are their bytes.  A [HashMap] of fields is a [gmap]; the
    order in which [into_iter] lists it is a parameter ([into_iter]) of what
    depends on it, with the hypothesis that it lists every field once.

    Loops that are not over a list take fuel: [HpackDecoder.decode_fuel] is two
    more than the input's length, since every turn but the first and the last
    consumes a byte; [FrameDecoder.decode_fuel] is three more than twice the
    input's length, since a header takes nine bytes and a payload is followed by
    a header; [FrameEncoder.encode_fuel] allows two turns for a byte.
    [hpack_decode_terminates] and [frame_decode_terminates] prove the decoders'
    fuel enough; for the encoder, the theorems of [H2FrameWriter] state the result
    itself, so that running out of fuel is excluded by them.  The loops of the chunk
    codecs, of the request encoder and of the response decoder take fuel from the
    length of their input or of what is left to write, and their theorems state the
    result too.  The loops of the HTTP/3 and QPACK decoders take one turn for a byte and a
    few more; [h3_decoder_total] and [qpack_decoder_terminates] prove that enough.  The
    loops of the connection manager are written with [loop];
    [manager_loops_return] shows that each agrees with the loop that has no fuel.

    Channels are the lists of what was sent into them; whether a bounded channel has
    room is a script, the order in which a [HashMap] is walked and what polling a
    request's body returns are parameters.  A transport is the script of what its reads
    and writes give, of any lengths and with any pauses and errors.  The loops of
    [HttpBody] take fuel from that script; those of [H1Conn] and [Redirect] take it as an
    argument, and [h1_response_delivered] and [redirects_bounded] state how much is enough.

    ** What the theorems show

    - Huffman: the decoder accepts exactly the codes of its output padded with up
      to seven ones; the encoder writes them; any segmentation decodes alike.
    - Integers: round trip for every [usize], agreement with RFC 7541 in unbounded
      arithmetic, no overflow and no panic.
    - Tables: eviction keeps the newest entries that fit and exact accounting; the
      searcher's answers are sound, but for the arm that
      [table_search_name_only] is about.
    - HPACK: segmentation independence of the decoder (down to the middle of a
      Huffman code) and of the encoder; effect of every representation; invariant,
      size limit and termination; and [hpack_roundtrip]: header lists cross
      unchanged and both dynamic tables stay equal, outside of the case of
      [table_search_name_only].
    - Frames: every frame handed out is valid, but for the one of a stray CONTINUATION; no
      panic outside header blocks; segmentation independence of what succeeds and of the
      error of what fails; wire images are written and read back exactly;
      [frame_roundtrip] composes the two, and [headers_roundtrip] does so for a
      header list of any size, leaving the two ends ready for the next one.
    - HTTP/3: variable-length integers; the stream decoder is total on any bytes,
      up to a panic of the QPACK decoder on what it is given ([h3_decoder_total]), and delivers DATA complete and in order in any segmentation;
      DATA, SETTINGS and HEADERS round trips ([h3_data_roundtrip],
      [h3_settings_roundtrip], [h3_headers_roundtrip]).
    - QPACK: the dynamic table's accounting; termination of the decoder in every
      reachable state; round trip of header lists over the static table, which is as far
      as the code's two ends agree: the lemmas at the end of [QpackRoundtrip] show what
      becomes of the other representations.
    - Bodies: what the chunked encoder writes, for reads and buffers it handles; the decoder reads
      every body of the grammar in any segmentation; [chunk_roundtrip]; a form is read as
      its message, again after each [reuse] ([form_read_again]), and its length is the one
      announced ([total_bytes_exact]).
    - Multiparts: what the encoders write through any buffers ([mime_encode_message]) and
      that the decoder reads it back ([mime_roundtrip]).
    - URIs: a parsed URI is a normal form of printing, holds visible bytes only, and
      the parser takes what the percent encoder writes.
    - HTTP/1: the request encoder refines the message of RFC 9112, whatever the
      buffers; the response decoder reads every head of the grammar, in any segments.
    - Connections: the client never sends more DATA than the peer granted
      ([conn_never_oversends]); no stream with something to send is outside the
      queues ([no_stream_forgotten]); requests get fresh streams
      ([request_opens_stream]); streams follow the diagram of the RFC, but
      for a reset of an idle one ([streams_follow_rfc]); the
      manager's loops return.  The task behind it writes the frames it queues, whatever
      the transport does ([h2_frames_sent]), and the one before it tells it what the wire
      says ([h2_frames_received]).  The HEADERS of a request are as the RFC has them
      ([h2_request_headers]); a body is read as from any transport ([h2_body_read]), and no
      faster than its limit ([h2_body_paced]).
    - Responses: a body with a length is delivered exactly, and a connection goes back to
      the pool only behind a complete body or an interceptor's error ([content_length_exact]); so is a body in chunks
      ([chunked_delivered]); a response sent in any pieces is received as its parts and its
      body ([h1_response_delivered]), and a request is sent exactly, however the writes are
      cut ([h1_request_sent]).
    - Requests: a formatted URI is complete and keeps what was given ([uri_formatted]);
      a [Content-Length] is read without overflow ([content_length_value]); redirects are
      bounded and carry no credentials to another origin ([redirects_bounded],
      [redirects_keep_credentials]); base64 can be read back.
    - Routes: which hosts a rule keeps from the proxy ([contains_domain_spec]); requests
      share connections only for the same origin and proxy ([pool_key_origin],
      [pool_key_proxy]); a tunnel is opened by every answer the code can judge
      ([tunnel_opened]); alternative services are read and kept ([alternative_read],
      [alt_svcs_kept]).
    - The pool: over all interleavings, one handle for a connection and never more
      permits out than allowed, nor more sockets but for those in the middle of their drop
      ([h1_pool_safe]).
    - Defects the modelling showed are theorems too: [table_search_name_only],
      [hpack_malformed_field_panics], [priority_cut_rejected],
      [padded_empty_headers_panics], [stray_continuation_accepted],
      [data_split_repeats_payload], [control_frames_cut_wrong],
      [chunk_bytes_never_ends], [chunk_size_cut_repeats], [chunk_empty_body],
      [trailer_cut_refused], [crcr_accepted_in_segments],
      [large_conn_window_overflows], [second_headers_refused],
      [reset_of_waiting_stream_underflows], [goaway_size_short],
      [frame_after_settings_misread], [unknown_stream_reread], [literal_name_misread],
      [literal_sent_as_instruction], [can_evict_counts_front], [cut_between_lines],
      [bad_reference_panics], [base_overflow_panics], [value_not_utf8_refused] and others of
      [QpackRoundtrip]; [frames_lost_with_error], [out_of_step_behind_error],
      [query_without_path], [connect_has_path], [intercepted_body_released]; [shutdown_race],
      [redirected_body_unframed], [options_have_case], [limit_counts_requests],
      [off_still_checks_location], [relative_location_lost], [reuse_failure_empties], [released_with_rest],
      [nested_cut_refused], [preamble_drops_segment], [blank_segment_panics],
      [empty_multipart_gets_part], [pending_loses_part], [pending_loses_headers],
      [zero_writes_spin], [complete_response_waits], [zero_rate_panics],
      [short_alternative_panics], [spaced_alternative_dropped], [suffix_of_rule_bypasses],
      [no_proxy_path_panics], [tunnel_cut_refused], [empty_subtype_accepted].

    ** What is not modelled, and the plan

    The HTTP/3 connection of the client drives a QUIC library that is not in the repository,
    and the HTTP/2 and HTTP/3 branches of its pool, its configuration, DNS and connectors are
    around sockets, timers and tasks: they are not modelled, nor are the synchronous client,
    which repeats the asynchronous one without its polls, and the TLS bindings.  Still worth
    doing: termination of the frame encoder's loop from any state, and the two tasks of
    [H2Io] connected by a wire. *)
From Stdlib Require Export ZArith Lia.
From stdpp Require Export base numbers list list_numbers option strings gmap decidable.

Declare Scope rust_scope.
Delimit Scope rust_scope with rust.
#[export] Set Default Goal Selector "!".
#[global] Open Scope Z_scope.
#[global] Open Scope rust_scope.

(** * Outcomes of Rust code *)

(** What a Rust function returning [Result<A, E>] can do: return [Ok], return
    [Err], or panic (a failed [unwrap], an index out of bounds, an arithmetic
    overflow). *)
Inductive res (E A : Type) : Type :=
| Ok (a : A)
| Err (e : E)
| Panic.
Arguments Ok {E A} a.
Arguments Err {E A} e.
Arguments Panic {E A}.

(** A method with [&mut self]: the state survives an [Err] and a panic. *)
Definition M (S E A : Type) : Type := S → res E A * S.

#[export] Instance M_ret {S E} : MRet (M S E) := λ A a s, (Ok a, s).
#[export] Instance M_bind {S E} : MBind (M S E) := λ A B k m s,
  match m s with
  | (Ok a, s') => k a s'
  | (Err e, s') => (Err e, s')
  | (Panic, s') => (Panic, s')
  end.
#[export] Instance res_ret {E} : MRet (res E) := λ A a, Ok a.
#[export] Instance res_bind {E} : MBind (res E) := λ A B k m,
  match m with Ok a => k a | Err e => Err e | Panic => Panic end.
#[export] Instance res_fmap {E} : FMap (res E) := λ A B f m,
  match m with Ok a => Ok (f a) | Err e => Err e | Panic => Panic end.

Definition mget {S E} : M S E S := λ s, (Ok s, s).
Definition mgets {S E A} (f : S → A) : M S E A := λ s, (Ok (f s), s).
Definition mmodify {S E} (f : S → S) : M S E () := λ s, (Ok (), f s).
Definition mfail {S E A} (e : E) : M S E A := λ s, (Err e, s).
Definition mpanic {S E A} : M S E A := λ s, (Panic, s).
Definition mlift {S E A} (r : res E A) : M S E A := λ s, (r, s).

(** What a computation that succeeds went through. *)
Lemma res_bind_ok {E A B} (x : res E A) (k : A → res E B) b : (x ≫= k) = Ok b → ∃ a, x = Ok a ∧ k a = Ok b.
Proof. destruct x as [a|e|]; [|done..]. intros Hk. by exists a. Qed.
Ltac inv_bind H := let a := fresh "a" in let Ha := fresh "Ha" in apply res_bind_ok in H as (a & Ha & H); cbv beta in H.

Lemma M_bind_eq {S E A B} (m : M S E A) (k : A → M S E B) s :
  (m ≫= k) s =
    match m s with
    | (Ok a, s') => k a s'
    | (Err e, s') => (Err e, s')
    | (Panic, s') => (Panic, s')
    end.
Proof. done. Qed.

(** [opt.ok_or(e)] *)
Definition ok_or {E A} (o : option A) (e : E) : res E A :=
  match o with Some a => Ok a | None => Err e end.
(** [opt.unwrap()] *)
Definition unwrap {E A} (o : option A) : res E A :=
  match o with Some a => Ok a | None => Panic end.

(** * Buffers *)

(** [u8], [u16], [u32], [u64] and [usize] values are [Z]s kept in range. *)
Abbreviation bytes := (list Z).

Definition u8_max : Z := 255.
Definition usize_bits : Z := 64.
Definition usize_max : Z := 2 ^ usize_bits - 1.
Definition is_u8 (z : Z) : Prop := 0 ≤ z < 256.
Definition is_u32 (z : Z) : Prop := 0 ≤ z < 2 ^ 32.
Definition is_usize (z : Z) : Prop := 0 ≤ z < 2 ^ 64.
Abbreviation bytes_ok := (Forall is_u8).

(** [z as u8] and the like: truncation. *)
Definition as_u8 (z : Z) : Z := z mod 2 ^ 8.
Definition as_u32 (z : Z) : Z := z mod 2 ^ 32.
Definition as_u64 (z : Z) : Z := z mod 2 ^ 64.

Definition len {A} (l : list A) : Z := Z.of_nat (length l).
(** [l[i]], [l[..n]], [l[n..]] and [l[a..b]] where they do not panic. *)
Definition at_ (l : bytes) (i : Z) : Z := default 0 (l !! Z.to_nat i).
Definition upto {A} (n : Z) (l : list A) : list A := take (Z.to_nat n) l.
Definition from {A} (n : Z) (l : list A) : list A := drop (Z.to_nat n) l.
Definition slice {A} (a b : Z) (l : list A) : list A := from a (upto b l).

(** String literals are their UTF-8 bytes. *)
Definition str (s : string) : bytes :=
  (λ c, Z.of_N (Ascii.N_of_ascii c)) <$> String.list_ascii_of_string s.

Definition is_u8b (z : Z) : bool := (0 <=? z) && (z <? 256).

#[export] Instance is_u8_dec z : Decision (is_u8 z).
Proof. unfold is_u8. apply _. Defined.
#[export] Instance is_u32_dec z : Decision (is_u32 z).
Proof. unfold is_u32. apply _. Defined.
#[export] Instance is_usize_dec z : Decision (is_usize z).
Proof. unfold is_usize. apply _. Defined.

(** * Tactics and hint databases *)

Create HintDb rust discriminated.
#[export] Hint Constants Opaque : rust.
#[export] Hint Variables Opaque : rust.
Create Rewrite HintDb len.

(** Case analysis on the first [match], [if] or [let] of the goal or of a
    hypothesis, keeping the equation. *)
Ltac case_in H :=
  match type of H with
  | context [match ?x with _ => _ end] =>
      lazymatch x with context [match _ with _ => _ end] => fail | _ => destruct x eqn:? end
  end.
Ltac case_goal :=
  match goal with
  | |- context [match ?x with _ => _ end] =>
      lazymatch x with context [match _ with _ => _ end] => fail | _ => destruct x eqn:? end
  end.
(** Turn the boolean comparisons of [Z] in the context into propositions. *)
Ltac zbool :=
  repeat match goal with
  | H : (_ && _)%bool = true |- _ => apply andb_true_iff in H as [? ?]
  | H : (_ || _)%bool = false |- _ => apply orb_false_iff in H as [? ?]
  | H : negb _ = true |- _ => apply negb_true_iff in H
  | H : negb _ = false |- _ => apply negb_false_iff in H
  | H : (_ <? _) = true |- _ => apply Z.ltb_lt in H
  | H : (_ <? _) = false |- _ => apply Z.ltb_ge in H
  | H : (_ <=? _) = true |- _ => apply Z.leb_le in H
  | H : (_ <=? _) = false |- _ => apply Z.leb_gt in H
  | H : (_ =? _) = true |- _ => apply Z.eqb_eq in H
  | H : (_ =? _) = false |- _ => apply Z.eqb_neq in H
  end.

(** * Lengths and slices *)

Lemma len_nonneg {A} (l : list A) : 0 ≤ len l.
Proof. unfold len. lia. Qed.
Lemma len_nil {A} : len (@nil A) = 0.
Proof. done. Qed.
Lemma len_cons {A} (x : A) l : len (x :: l) = len l + 1.
Proof. unfold len. simpl. lia. Qed.
Lemma len_app {A} (l k : list A) : len (l ++ k) = len l + len k.
Proof. unfold len. rewrite length_app. lia. Qed.
Lemma len_upto {A} n (l : list A) : 0 ≤ n → len (upto n l) = Z.min n (len l).
Proof. intros. unfold len, upto. rewrite length_take. lia. Qed.
Lemma len_from {A} n (l : list A) : 0 ≤ n → len (from n l) = Z.max 0 (len l - n).
Proof. intros. unfold len, from. rewrite length_drop. lia. Qed.
#[export] Hint Rewrite @len_nil @len_cons @len_app : len.
#[export] Hint Rewrite @len_upto @len_from using lia : len.
#[export] Hint Resolve len_nonneg : rust.

Lemma len_0_nil {A} (l : list A) : len l = 0 → l = [].
Proof. destruct l; [done|]. rewrite len_cons. pose proof (len_nonneg l). lia. Qed.
Lemma upto_from {A} n (l : list A) : upto n l ++ from n l = l.
Proof. apply take_drop. Qed.
Lemma upto_all {A} n (l : list A) : len l ≤ n → upto n l = l.
Proof. unfold len, upto. intros. apply take_ge. lia. Qed.
Lemma from_all {A} n (l : list A) : len l ≤ n → from n l = [].
Proof. unfold len, from. intros. apply drop_ge. lia. Qed.
Lemma upto_app_le {A} n (l k : list A) : n ≤ len l → upto n (l ++ k) = upto n l.
Proof. unfold len, upto. intros. apply take_app_le. lia. Qed.
Lemma from_app_le {A} n (l k : list A) : n ≤ len l → from n (l ++ k) = from n l ++ k.
Proof. unfold len, from. intros. apply drop_app_le. lia. Qed.
Lemma upto_app_ge {A} n (l k : list A) :
  len l ≤ n → upto n (l ++ k) = l ++ upto (n - len l) k.
Proof.
  unfold len, upto. intros. rewrite take_app_ge by lia. do 2 f_equal. lia.
Qed.
Lemma from_app_ge {A} n (l k : list A) :
  len l ≤ n → from n (l ++ k) = from (n - len l) k.
Proof. unfold len, from. intros. rewrite drop_app_ge by lia. f_equal. lia. Qed.
Lemma upto_0 {A} n (l : list A) : n ≤ 0 → upto n l = [].
Proof. unfold upto. intros. replace (Z.to_nat n) with 0%nat by lia. apply take_0. Qed.
Lemma from_0 {A} n (l : list A) : n ≤ 0 → from n l = l.
Proof. unfold from. intros. replace (Z.to_nat n) with 0%nat by lia. apply drop_0. Qed.
Lemma upto_app_exact {A} n (l k : list A) : n = len l → upto n (l ++ k) = l.
Proof. intros. rewrite upto_app_le, upto_all; [done|lia|lia]. Qed.
Lemma from_app_exact {A} n (l k : list A) : n = len l → from n (l ++ k) = k.
Proof. intros. rewrite from_app_ge, from_0; [done|lia|lia]. Qed.

Lemma Forall_upto {A} (P : A → Prop) n l : Forall P l → Forall P (upto n l).
Proof. apply Forall_take. Qed.
Lemma Forall_from {A} (P : A → Prop) n l : Forall P l → Forall P (from n l).
Proof. apply Forall_drop. Qed.
#[export] Hint Resolve Forall_upto Forall_from : rust.

Lemma as_u8_range z : is_u8 (as_u8 z).
Proof. apply (Z.mod_pos_bound z (2 ^ 8)). lia. Qed.
Lemma as_u8_small z : is_u8 z → as_u8 z = z.
Proof. intros [? ?]. apply Z.mod_small. lia. Qed.
#[export] Hint Resolve as_u8_range : rust.

Lemma lor_u8 a b : is_u8 a → is_u8 b → is_u8 (Z.lor a b).
Proof.
  unfold is_u8. intros Ha Hb.
  assert (H : Z.land (Z.lor a b) (Z.ones 8) = Z.lor a b).
  { rewrite Z.land_lor_distr_l, !Z.land_ones, !Z.mod_small by lia. done. }
  rewrite <- H, Z.land_ones by lia. apply Z.mod_pos_bound. lia.
Qed.

Lemma at_ok (l : bytes) i : bytes_ok l → is_u8 (at_ l i).
Proof.
  intros Hl. unfold at_. destruct (l !! Z.to_nat i) as [x|] eqn:Hx; simpl.
  - by apply (Forall_lookup_1 _ _ _ _ Hl Hx).
  - unfold is_u8. lia.
Qed.
#[export] Hint Resolve at_ok : rust.

(** * Properties of octets by enumeration *)

Definition octets : list Z := Z.of_nat <$> seq 0 256.

Lemma octets_elem b : is_u8 b → b ∈ octets.
Proof.
  intros [? ?]. apply list_elem_of_fmap. exists (Z.to_nat b).
  split; [lia|]. apply elem_of_seq. lia.
Qed.

Lemma forall_octets (P : Z → bool) b : forallb P octets = true → is_u8 b → P b = true.
Proof.
  intros H Hb. apply octets_elem in Hb. rewrite forallb_forall in H.
  by apply H, list_elem_of_In.
Qed.
