(* ===== verification/Bits.v ===== *)
(** Big-endian bit strings: the view of octet sequences in which the Huffman
    code and the wire formats are specified.  [bits_be n z] lists the [n] low
    bits of [z], most significant first; [bytes_bits] the bits of a byte string;
    [be_bytes n z] is [to_be_bytes] of an [n]-byte integer. *)
From S2P Require Import Prelude.

Fixpoint bits_be (n : nat) (z : Z) : list bool :=
  match n with
  | O => []
  | S n => Z.testbit z (Z.of_nat n) :: bits_be n z
  end.

Definition bytes_bits (l : bytes) : list bool := l ≫= bits_be 8.

Fixpoint be_bytes (n : nat) (z : Z) : bytes :=
  match n with
  | O => []
  | S n => as_u8 (Z.shiftr z (8 * Z.of_nat n)) :: be_bytes n z
  end.

Create Rewrite HintDb bits.
#[export] Hint Rewrite Z.lor_spec Z.land_spec Z.lxor_spec : bits.
#[export] Hint Rewrite Z.shiftr_spec Z.shiftl_spec Z.testbit_neg_r using lia : bits.

Lemma length_bits_be n z : length (bits_be n z) = n.
Proof. induction n; simpl; auto. Qed.

Lemma bits_be_ext n z z' :
  (∀ i, 0 ≤ i < Z.of_nat n → Z.testbit z i = Z.testbit z' i) → bits_be n z = bits_be n z'.
Proof.
  induction n as [|n IH]; intros H; simpl; [done|]. f_equal; [apply H; lia|].
  apply IH. intros i Hi. apply H. lia.
Qed.

Lemma bits_be_inj n z z' :
  bits_be n z = bits_be n z' → ∀ i, 0 ≤ i < Z.of_nat n → Z.testbit z i = Z.testbit z' i.
Proof.
  induction n as [|n IH]; simpl; intros H i Hi; [lia|]. injection H as H1 H2.
  destruct (decide (i = Z.of_nat n)) as [->|]; [done|]. apply IH; [done|lia].
Qed.

Lemma bits_be_app n m z :
  bits_be (n + m) z = bits_be n (Z.shiftr z (Z.of_nat m)) ++ bits_be m z.
Proof.
  induction n as [|n IH]; simpl; [done|]. rewrite IH. f_equal.
  autorewrite with bits. f_equal. lia.
Qed.

Lemma testbit_small n z i : 0 ≤ z < 2 ^ n → n ≤ i → Z.testbit z i = false.
Proof.
  intros [H0 H1] Hi. destruct (Z.lt_ge_cases n 0) as [Hn|Hn].
  - rewrite Z.pow_neg_r in H1 by lia. lia.
  - rewrite <- (Z.mod_small z (2 ^ n)) by lia. apply Z.mod_pow2_bits_high. lia.
Qed.

Lemma testbit_ones n i : 0 ≤ i < n → Z.testbit (2 ^ n - 1) i = true.
Proof.
  intros. replace (2 ^ n - 1) with (Z.ones n) by (rewrite Z.ones_equiv; lia).
  apply Z.ones_spec_low. lia.
Qed.

Lemma testbit_ones_high n i : 0 ≤ n ≤ i → Z.testbit (2 ^ n - 1) i = false.
Proof.
  intros. replace (2 ^ n - 1) with (Z.ones n) by (rewrite Z.ones_equiv; lia).
  apply Z.ones_spec_high. lia.
Qed.

Lemma bits_be_const n b z :
  (∀ i, 0 ≤ i < Z.of_nat n → Z.testbit z i = b) → bits_be n z = replicate n b.
Proof.
  induction n as [|n IH]; intros H; simpl; [done|]. f_equal; [apply H; lia|].
  apply IH. intros. apply H. lia.
Qed.

Lemma u8_eq_bits a b : is_u8 a → is_u8 b → bits_be 8 a = bits_be 8 b → a = b.
Proof.
  intros Ha Hb H. apply Z.bits_inj'. intros i Hi.
  destruct (Z.lt_ge_cases i 8) as [|Hge]; [by apply (bits_be_inj 8)|].
  rewrite !(testbit_small 8); [done|unfold is_u8 in *; lia..].
Qed.

Lemma bytes_bits_app l k : bytes_bits (l ++ k) = bytes_bits l ++ bytes_bits k.
Proof. apply bind_app. Qed.

Lemma length_bytes_bits l : length (bytes_bits l) = (8 * length l)%nat.
Proof.
  induction l as [|x l IH]; [done|].
  change (bytes_bits (x :: l)) with (bits_be 8 x ++ bytes_bits l).
  rewrite length_app, length_bits_be, IH. simpl. lia.
Qed.

Lemma bytes_bits_inj l k :
  bytes_ok l → bytes_ok k → bytes_bits l = bytes_bits k → l = k.
Proof.
  intros Hl. revert k. induction Hl as [|x l Hx Hl IH]; intros k Hk Heq.
  - destruct k as [|y k]; [done|]. by apply (f_equal length) in Heq.
  - destruct k as [|y k]; [by apply (f_equal length) in Heq|].
    inversion_clear Hk as [|? ? Hy Hk'].
    change (bits_be 8 x ++ bytes_bits l = bits_be 8 y ++ bytes_bits k) in Heq.
    apply app_inj_1 in Heq as [H1 H2]; [|by rewrite !length_bits_be].
    f_equal; [by apply u8_eq_bits|by apply IH].
Qed.

Lemma bits_be_as_u8 z : bits_be 8 (as_u8 z) = bits_be 8 z.
Proof.
  apply bits_be_ext. intros i Hi. unfold as_u8. apply Z.mod_pow2_bits_low. lia.
Qed.

Lemma length_be_bytes n z : length (be_bytes n z) = n.
Proof. induction n; simpl; auto. Qed.

Lemma be_bytes_ok n z : bytes_ok (be_bytes n z).
Proof. induction n; constructor; auto with rust. Qed.
#[export] Hint Resolve be_bytes_ok : rust.

Lemma bytes_bits_be_bytes n z : bytes_bits (be_bytes n z) = bits_be (8 * n) z.
Proof.
  induction n as [|n IH]; [done|]. replace (8 * S n)%nat with (8 + 8 * n)%nat by lia.
  rewrite bits_be_app, <- IH.
  change (bytes_bits (be_bytes (S n) z)) with
    (bits_be 8 (as_u8 (Z.shiftr z (8 * Z.of_nat n))) ++ bytes_bits (be_bytes n z)).
  rewrite bits_be_as_u8. do 3 f_equal. lia.
Qed.

#[global] Arguments bits_be : simpl never.
#[global] Arguments be_bytes : simpl never.
