(* ===== verification/Huffman.v ===== *)
(** Huffman coding ([ylong_http/src/huffman/mod.rs]).

    [huffman_encode] is the 64-bit accumulator loop of the encoder,
    [huffman_decode_inner] the nibble-driven automaton over [HUFFMAN_DECODE], and
    [HuffmanDecoder] the incremental decoder the HPACK and QPACK string decoders
    hold.  The reference is the code of RFC 7541 as a prefix code over bits:
    [encode_bits] concatenates the codes of the symbols.  The theorems relate
    the two: the encoder emits the code bits padded with ones, the decoder
    accepts exactly such bit strings, and hence decoding inverts encoding. *)
From S2P Require Import Prelude Bits HuffmanConsts.

Definition U64_MAX : Z := 2 ^ 64 - 1.

(** [x.rotate_right(n)] for [u64] and [0 < n < 64]. *)
Definition rotate_right64 (x n : Z) : Z :=
  Z.lor (Z.shiftr x n) (as_u64 (Z.shiftl x (64 - n))).

(** The locals of the encoding loop. *)
Record EncState := mkEnc { enc_state : Z; enc_unfilled : Z; enc_dst : bytes }.

Definition encode_entry (byte : Z) : Z * Z := default (0, 0) (HUFFMAN_ENCODE !! Z.to_nat byte).

(** One iteration of [for byte in src.iter()]. *)
Definition encode_step (s : EncState) (byte : Z) : EncState :=
  let '(mkEnc state unfilled dst) := s in
  let '(nbits, code) := encode_entry byte in
  match unfilled ?= nbits with
  | Gt => mkEnc (Z.lor state (as_u64 (Z.shiftl code (unfilled - nbits)))) (unfilled - nbits) dst
  | Eq => mkEnc 0 64 (dst ++ be_bytes 8 (Z.lor state code))
  | Lt =>
      let rotate := rotate_right64 code (nbits - unfilled) in
      let mask := Z.shiftr U64_MAX (64 - unfilled) in
      mkEnc (Z.land rotate (Z.lxor U64_MAX mask)) (64 - (nbits - unfilled))
        (dst ++ be_bytes 8 (Z.lor state (Z.land rotate mask)))
  end.

(** The tail of the function: pad the last octet with ones. *)
Definition encode_finish (s : EncState) : bytes :=
  let '(mkEnc state unfilled dst) := s in
  if negb (unfilled =? 64) then
    let state := Z.lor state (Z.shiftr U64_MAX (64 - unfilled)) in
    dst ++ upto (8 - Z.shiftr unfilled 3) (be_bytes 8 state)
  else dst.

Definition huffman_encode (src dst : bytes) : bytes :=
  encode_finish (foldl encode_step (mkEnc 0 64 dst) src).

Inductive HuffmanDecodeError := InvalidHuffmanCode.

Definition decode_entry (state nibble : Z) : Z * Z * Z :=
  default (0, 0, 0) (default [] (HUFFMAN_DECODE !! Z.to_nat state) !! Z.to_nat nibble).

(** One table lookup of the loop body with the two tests on the flags. *)
Definition decode_nibble (dst : bytes) (state nibble : Z)
    : res HuffmanDecodeError (Z * Z * bytes) :=
  let '(state, result, flags) := decode_entry state nibble in
  if Z.land flags 0x4 =? 0x4 then Err InvalidHuffmanCode
  else Ok (state, flags, if Z.land flags 0x2 =? 0x2 then dst ++ [result] else dst).

Fixpoint huffman_decode_inner (src dst : bytes) (state flags : Z)
    : res HuffmanDecodeError (Z * Z * bytes) :=
  match src with
  | [] => Ok (state, flags, dst)
  | byte :: src =>
      '(state, _, dst) ← decode_nibble dst state (Z.shiftr byte 4);
      '(state, flags, dst) ← decode_nibble dst state (Z.land byte 0xf);
      huffman_decode_inner src dst state flags
  end.

Definition huffman_decode (src dst : bytes) : res HuffmanDecodeError bytes :=
  '(state, flags, dst) ← huffman_decode_inner src dst 0 0;
  if negb (state =? 0) && (Z.land flags 0x1 =? 0) then Err InvalidHuffmanCode else Ok dst.

Module HuffmanDecoder.
Record t := mk { state : Z; flags : Z; vec : bytes }.

Definition new : t := mk 0 0 [].

Definition decode (src : bytes) (d : t) : res HuffmanDecodeError t :=
  '(st, fl, v) ← huffman_decode_inner src (vec d) (state d) (flags d);
  Ok (mk st fl v).

Definition finish (d : t) : res HuffmanDecodeError bytes :=
  if negb (state d =? 0) && (Z.land (flags d) 0x1 =? 0) then Err InvalidHuffmanCode
  else Ok (vec d).
End HuffmanDecoder.

(** * Reference: the prefix code *)

Definition sym_bits (s : Z) : list bool :=
  let '(nbits, code) := encode_entry s in bits_be (Z.to_nat nbits) code.

Definition encode_bits (src : bytes) : list bool := src ≫= sym_bits.

Lemma encode_bits_app s t : encode_bits (s ++ t) = encode_bits s ++ encode_bits t.
Proof. apply bind_app. Qed.

(** * The encoder *)

Definition code_ok (b : Z) : bool :=
  let '(nbits, code) := encode_entry b in
  (5 <=? nbits) && (nbits <=? 30) && (0 <=? code) && (code <? 2 ^ nbits).

Lemma encode_entry_ok b :
  is_u8 b → let '(n, c) := encode_entry b in 5 ≤ n ≤ 30 ∧ 0 ≤ c < 2 ^ n.
Proof.
  intros Hb. pose proof (forall_octets code_ok b ltac:(vm_compute; reflexivity) Hb) as H.
  unfold code_ok in H. destruct (encode_entry b). zbool. lia.
Qed.

(** The bits of the accumulator that are filled. *)
Definition pending (s : EncState) : list bool :=
  bits_be (Z.to_nat (64 - enc_unfilled s)) (Z.shiftr (enc_state s) (enc_unfilled s)).

Definition enc_out (s : EncState) : list bool := bytes_bits (enc_dst s) ++ pending s.

Definition enc_inv (s : EncState) : Prop :=
  1 ≤ enc_unfilled s ≤ 64 ∧
  (∀ i, 0 ≤ i < enc_unfilled s → Z.testbit (enc_state s) i = false).

Lemma as_u64_testbit z i : 0 ≤ i < 64 → Z.testbit (as_u64 z) i = Z.testbit z i.
Proof. intros. unfold as_u64. apply Z.mod_pow2_bits_low. lia. Qed.
Lemma as_u64_testbit_high z i : 64 ≤ i → Z.testbit (as_u64 z) i = false.
Proof. intros. unfold as_u64. apply Z.mod_pow2_bits_high. lia. Qed.

Lemma U64_MAX_testbit i : 0 ≤ i < 64 → Z.testbit U64_MAX i = true.
Proof. apply testbit_ones. Qed.
Lemma mask_testbit u i : 0 ≤ u ≤ 64 → 0 ≤ i →
  Z.testbit (Z.shiftr U64_MAX (64 - u)) i = (i <? u).
Proof.
  intros. rewrite Z.shiftr_spec by lia. destruct (Z.ltb_spec i u).
  - apply U64_MAX_testbit. lia.
  - apply testbit_ones_high. lia.
Qed.

Lemma rotate_testbit x r i :
  0 < r < 64 → 0 ≤ x < 2 ^ 64 → 0 ≤ i < 64 →
  Z.testbit (rotate_right64 x r) i =
    if i <? 64 - r then Z.testbit x (i + r) else Z.testbit x (i - (64 - r)).
Proof.
  intros Hr Hx Hi. unfold rotate_right64.
  rewrite Z.lor_spec, Z.shiftr_spec, as_u64_testbit, Z.shiftl_spec by lia.
  destruct (Z.ltb_spec i (64 - r)).
  - rewrite (Z.testbit_neg_r _ (i - (64 - r))) by lia. apply orb_false_r.
  - rewrite (testbit_small 64 x (i + r)) by lia. done.
Qed.

Lemma bits_be_split3 (a b c : nat) z :
  bits_be (a + b + c) z =
    bits_be a (Z.shiftr z (Z.of_nat (b + c))) ++ bits_be b (Z.shiftr z (Z.of_nat c)) ++
    bits_be c z.
Proof. by rewrite <- Nat.add_assoc, bits_be_app, bits_be_app. Qed.

(** Two bit lists cut at the same places agree when their bits do. *)
Ltac bits_eq := apply bits_be_ext; intros i Hi; autorewrite with bits.

Section encode_step.
Variables (st u n c : Z) (dst : bytes).
Hypothesis Hu : 1 ≤ u ≤ 64.
Hypothesis Hn : 5 ≤ n ≤ 30.
Hypothesis Hlow : ∀ i, 0 ≤ i < u → Z.testbit st i = false.
Hypothesis Hhigh : ∀ i, n ≤ i → Z.testbit c i = false.

Lemma step_fits :
  n < u →
  let s' := mkEnc (Z.lor st (as_u64 (Z.shiftl c (u - n)))) (u - n) dst in
  enc_inv s' ∧ enc_out s' = enc_out (mkEnc st u dst) ++ bits_be (Z.to_nat n) c.
Proof using Hu Hn Hlow Hhigh.
  intros Hlt. unfold enc_inv, enc_out, pending; simpl. split; [split; [lia|]|].
  - intros i Hi. rewrite Z.lor_spec, as_u64_testbit, Z.shiftl_spec, Hlow by lia.
    rewrite Z.testbit_neg_r by lia. done.
  - rewrite <- app_assoc. f_equal.
    replace (Z.to_nat (64 - (u - n))) with (Z.to_nat (64 - u) + Z.to_nat n)%nat by lia.
    rewrite bits_be_app. f_equal; bits_eq.
    + rewrite as_u64_testbit, Z.shiftl_spec by lia. rewrite Hhigh by lia.
      rewrite orb_false_r. f_equal. lia.
    + rewrite as_u64_testbit, Z.shiftl_spec, Hlow by lia. simpl. f_equal. lia.
Qed.

Lemma step_fills :
  u = n →
  bytes_bits (be_bytes 8 (Z.lor st c)) = pending (mkEnc st u dst) ++ bits_be (Z.to_nat n) c.
Proof using Hu Hn Hlow Hhigh.
  intros ->. unfold pending; simpl enc_state; simpl enc_unfilled.
  rewrite bytes_bits_be_bytes.
  replace (8 * 8)%nat with (Z.to_nat (64 - n) + Z.to_nat n)%nat by lia.
  rewrite bits_be_app. f_equal; bits_eq.
  - rewrite Hhigh by lia. rewrite orb_false_r. f_equal. lia.
  - by rewrite Hlow by lia.
Qed.

Lemma step_spills :
  u < n → 0 ≤ c < 2 ^ 64 →
  let rotate := rotate_right64 c (n - u) in
  let mask := Z.shiftr U64_MAX (64 - u) in
  let s' := mkEnc (Z.land rotate (Z.lxor U64_MAX mask)) (64 - (n - u))
              (dst ++ be_bytes 8 (Z.lor st (Z.land rotate mask))) in
  enc_inv s' ∧ enc_out s' = enc_out (mkEnc st u dst) ++ bits_be (Z.to_nat n) c.
Proof using Hu Hn Hlow Hhigh.
  intros Hlt Hc rotate mask. unfold enc_inv, enc_out, pending; simpl.
  assert (Hmask : ∀ i, 0 ≤ i → Z.testbit mask i = (i <? u))
    by (intros; apply mask_testbit; lia).
  assert (Hnot : ∀ i, 0 ≤ i < 64 → Z.testbit (Z.lxor U64_MAX mask) i = negb (i <? u)).
  { intros i Hi. rewrite Z.lxor_spec, U64_MAX_testbit, Hmask by lia. done. }
  assert (Hrot : ∀ i, 0 ≤ i < 64 → Z.testbit rotate i =
      if i <? 64 - (n - u) then Z.testbit c (i + (n - u))
      else Z.testbit c (i - (64 - (n - u)))) by (intros; apply rotate_testbit; lia).
  split; [split; [lia|]|].
  - intros i Hi. rewrite Z.land_spec, Hnot, Hrot by lia.
    destruct (Z.ltb_spec i (64 - (n - u))); [|lia].
    destruct (Z.ltb_spec i u); [apply andb_false_r|]. rewrite Hhigh by lia. done.
  - rewrite bytes_bits_app, <- !app_assoc. f_equal. rewrite bytes_bits_be_bytes.
    replace (8 * 8)%nat with (Z.to_nat (64 - u) + Z.to_nat u)%nat by lia.
    replace (Z.to_nat n) with (Z.to_nat u + Z.to_nat (n - u))%nat by lia.
    rewrite !bits_be_app, <- !app_assoc. f_equal; [bits_eq|f_equal; [bits_eq|]].
    + rewrite Hmask by lia. destruct (Z.ltb_spec (i + Z.of_nat (Z.to_nat u)) u); [lia|].
      rewrite andb_false_r, orb_false_r. f_equal. lia.
    + rewrite Hlow, Hmask, Hrot by lia. destruct (Z.ltb_spec i u); [|lia].
      destruct (Z.ltb_spec i (64 - (n - u))); [|lia]. rewrite andb_true_r.
      simpl. f_equal. lia.
    + replace (Z.to_nat (64 - (64 - (n - u)))) with (Z.to_nat (n - u)) by lia.
      apply bits_be_ext. intros i Hi.
      rewrite Z.shiftr_spec, Z.land_spec, Hrot, Hnot by lia.
      destruct (Z.ltb_spec (i + (64 - (n - u))) (64 - (n - u))); [lia|].
      destruct (Z.ltb_spec (i + (64 - (n - u))) u); [lia|].
      rewrite andb_true_r. f_equal. lia.
Qed.
End encode_step.

Lemma encode_step_ok s b :
  enc_inv s → is_u8 b →
  enc_inv (encode_step s b) ∧ enc_out (encode_step s b) = enc_out s ++ sym_bits b.
Proof.
  destruct s as [st u dst]. intros [Hu Hz] Hb. unfold sym_bits, encode_step.
  pose proof (encode_entry_ok b Hb) as Hc. destruct (encode_entry b) as [n c].
  destruct Hc as [Hn Hc]. simpl in *.
  assert (Hc64 : c < 2 ^ 64).
  { apply Z.lt_le_trans with (2 ^ n); [lia|]. apply Z.pow_le_mono_r; lia. }
  assert (Hhigh : ∀ i, n ≤ i → Z.testbit c i = false) by (intros; by apply (testbit_small n)).
  destruct (Z.compare_spec u n) as [->|Hlt|Hgt].
  - split; [split; simpl; [lia|intros; apply Z.testbit_0_l]|].
    unfold enc_out at 1. simpl.
    rewrite bytes_bits_app, (step_fills st n n c dst) by auto. unfold enc_out.
    unfold pending at 2. simpl. by rewrite app_nil_r, app_assoc.
  - apply step_spills; auto with lia.
  - apply step_fits; auto.
Qed.

Lemma encode_loop_ok src s :
  enc_inv s → bytes_ok src →
  enc_inv (foldl encode_step s src) ∧
  enc_out (foldl encode_step s src) = enc_out s ++ encode_bits src.
Proof.
  intros Hs Hsrc. revert s Hs. induction Hsrc as [|b src Hb Hsrc IH]; intros s Hs; simpl.
  - by rewrite app_nil_r.
  - destruct (encode_step_ok s b Hs Hb) as [Hi Ho]. destruct (IH _ Hi) as [Hi' Ho'].
    split; [done|]. rewrite Ho', Ho, <- app_assoc. done.
Qed.

Definition pad_len (n : nat) : nat := ((8 - n mod 8) mod 8)%nat.

Lemma pad_len_unique n p k : (8 * k = n + p → p < 8 → p = pad_len n)%nat.
Proof.
  intros Hk Hp. unfold pad_len. pose proof (Nat.div_mod_eq n 8) as Hn.
  pose proof (Nat.mod_upper_bound n 8 ltac:(lia)) as Hb. set (r := (n mod 8)%nat) in *.
  destruct (decide (r = 0%nat)) as [->|]; [simpl; lia|].
  rewrite Nat.mod_small by lia. lia.
Qed.

Lemma take_bytes_bits n l : (n ≤ length l)%nat →
  bytes_bits (take n l) = take (8 * n) (bytes_bits l).
Proof.
  intros Hn. rewrite <- (take_drop n l) at 2. rewrite bytes_bits_app.
  rewrite take_app_length'; [done|]. rewrite length_bytes_bits, length_take. lia.
Qed.

Lemma encode_finish_ok s :
  enc_inv s →
  bytes_bits (encode_finish s) =
    enc_out s ++ replicate (Z.to_nat (enc_unfilled s mod 8)) true.
Proof.
  destruct s as [st u dst]. intros [Hu Hz]. unfold enc_out, pending; simpl in *.
  destruct (Z.eqb_spec u 64) as [->|Hne]; simpl.
  { unfold pending. simpl. by rewrite !app_nil_r. }
  rewrite bytes_bits_app, <- app_assoc. f_equal. unfold upto.
  pose proof (Z.div_mod u 8 ltac:(lia)). pose proof (Z.mod_pos_bound u 8 ltac:(lia)).
  rewrite Z.shiftr_div_pow2 by lia. change (2 ^ 3) with 8.
  rewrite take_bytes_bits by (rewrite length_be_bytes; lia).
  rewrite bytes_bits_be_bytes.
  replace (8 * 8)%nat with
    (Z.to_nat (64 - u) + Z.to_nat (u mod 8) + Z.to_nat (u - u mod 8))%nat by lia.
  rewrite bits_be_split3, app_assoc, take_app_length'.
  2:{ rewrite length_app, !length_bits_be. lia. }
  f_equal; [apply bits_be_ext|apply bits_be_const]; intros i Hi;
    rewrite Z.shiftr_spec, Z.lor_spec, mask_testbit by lia.
  - destruct (Z.ltb_spec (i + Z.of_nat (Z.to_nat (u mod 8) + Z.to_nat (u - u mod 8))) u); [lia|].
    rewrite orb_false_r, Z.shiftr_spec by lia. f_equal. lia.
  - destruct (Z.ltb_spec (i + Z.of_nat (Z.to_nat (u - u mod 8))) u); [|lia].
    apply orb_true_r.
Qed.

Lemma huffman_encode_bits src dst :
  bytes_ok src →
  bytes_bits (huffman_encode src dst) =
    bytes_bits dst ++ encode_bits src ++ replicate (pad_len (length (encode_bits src))) true.
Proof.
  intros Hsrc. unfold huffman_encode.
  destruct (encode_loop_ok src (mkEnc 0 64 dst)) as [Hi Ho]; [|done|].
  { split; simpl; [lia|intros; apply Z.testbit_0_l]. }
  assert (Hfin := encode_finish_ok _ Hi). rewrite Hfin, Ho. unfold enc_out at 1, pending. simpl.
  rewrite app_nil_r, <- app_assoc. do 3 f_equal.
  apply (f_equal length) in Hfin. rewrite Ho in Hfin. unfold enc_out, pending in Hfin.
  rewrite !length_app, !length_bytes_bits, length_replicate, length_bits_be in Hfin.
  apply (pad_len_unique _ _ (length (encode_finish (foldl encode_step (mkEnc 0 64 dst) src))
    - length dst)).
  - simpl Z.to_nat in Hfin. simpl enc_dst in Hfin. lia.
  - pose proof (Z.mod_pos_bound (enc_unfilled (foldl encode_step (mkEnc 0 64 dst) src)) 8
      ltac:(lia)). lia.
Qed.

(** * The decoder *)

(** Bit-at-a-time decoding: [p] is the part of a code read so far. *)
Definition code_table : list (list bool * Z) :=
  (λ s, (sym_bits s, s)) <$> (Z.of_nat <$> seq 0 257).

Fixpoint path_eqb (p q : list bool) : bool :=
  match p, q with
  | [], [] => true
  | a :: p, b :: q => if Bool.eqb a b then path_eqb p q else false
  | _, _ => false
  end.

Lemma path_eqb_eq p q : path_eqb p q = true ↔ p = q.
Proof.
  revert q. induction p as [|a p IH]; intros [|b q]; simpl; try done.
  destruct (Bool.eqb_spec a b) as [->|Hne]; [rewrite IH|].
  - split; [by intros ->|by intros [= ->]].
  - split; [done|congruence].
Qed.

Fixpoint find_code (p : list bool) (l : list (list bool * Z)) : option Z :=
  match l with
  | [] => None
  | (q, s) :: l => if path_eqb p q then Some s else find_code p l
  end.

Definition EOS : Z := 256.

Definition bit_step (p : list bool) (b : bool) : option (list bool * list Z) :=
  let q := p ++ [b] in
  match find_code q code_table with
  | Some s => if s =? EOS then None else Some ([], [s])
  | None => Some (q, [])
  end.

Fixpoint run_bits (p bits : list bool) : option (list bool * list Z) :=
  match bits with
  | [] => Some (p, [])
  | b :: bits =>
      '(p', o) ← bit_step p b;
      '(p'', o') ← run_bits p' bits;
      Some (p'', o ++ o')
  end.

Lemma run_bits_app p b1 b2 :
  run_bits p (b1 ++ b2) =
    ('(p1, o1) ← run_bits p b1; '(p2, o2) ← run_bits p1 b2; Some (p2, o1 ++ o2)).
Proof.
  revert p. induction b1 as [|b b1 IH]; intros p; simpl.
  - by destruct (run_bits p b2) as [[]|].
  - destruct (bit_step p b) as [[p1 o1]|]; simpl; [|done]. rewrite IH.
    destruct (run_bits p1 b1) as [[p2 o2]|]; simpl; [|done].
    destruct (run_bits p2 b2) as [[p3 o3]|]; simpl; [|done]. by rewrite app_assoc.
Qed.

Lemma find_code_sound p l s : find_code p l = Some s → (p, s) ∈ l.
Proof.
  induction l as [|[q s'] l IH]; simpl; [done|].
  destruct (path_eqb p q) eqn:Hpq.
  - intros [= ->]. apply path_eqb_eq in Hpq. subst. left.
  - intros H. right. auto.
Qed.

Lemma find_code_sym p s :
  find_code p code_table = Some s → p = sym_bits s ∧ 0 ≤ s ≤ 256.
Proof.
  intros H%find_code_sound. unfold code_table in H.
  apply list_elem_of_fmap in H as (s' & [= -> ->] & Hs).
  apply list_elem_of_fmap in Hs as (k & -> & Hk). apply elem_of_seq in Hk.
  split; [done|lia].
Qed.

(** What bit-at-a-time decoding returns are the symbols whose codes, followed
    by the unread part, make up the input. *)
Lemma run_bits_sound p bits p' out :
  run_bits p bits = Some (p', out) → bytes_ok out ∧ p ++ bits = encode_bits out ++ p'.
Proof.
  revert p p' out. induction bits as [|b bits IH]; intros p p' out; simpl.
  - intros [= <- <-]. split; [done|]. by rewrite app_nil_r.
  - unfold bit_step. destruct (find_code (p ++ [b]) code_table) as [s|] eqn:Hs; simpl.
    + destruct (Z.eqb_spec s EOS) as [|Hne]; simpl; [done|].
      destruct (run_bits [] bits) as [[p1 o1]|] eqn:Hr; simpl; [|done].
      intros [= <- <-]. apply find_code_sym in Hs as [Hs Hr1].
      destruct (IH _ _ _ Hr) as [Ho Heq]. simpl in Heq. split.
      * constructor; [|done]. unfold is_u8, EOS in *. lia.
      * change (encode_bits (s :: o1)) with (sym_bits s ++ encode_bits o1).
        rewrite <- Hs, <- app_assoc, <- Heq, <- app_assoc. done.
    + destruct (run_bits (p ++ [b]) bits) as [[p1 o1]|] eqn:Hr; simpl; [|done].
      intros [= <- <-]. destruct (IH _ _ _ Hr) as [Ho Heq]. split; [done|].
      rewrite <- Heq, <- app_assoc. done.
Qed.

Definition is_run_sym (s : Z) : bool := bool_decide (run_bits [] (sym_bits s) = Some ([], [s])).

Lemma run_bits_sym s : is_u8 s → run_bits [] (sym_bits s) = Some ([], [s]).
Proof.
  intros Hs. pose proof (forall_octets is_run_sym s ltac:(vm_compute; reflexivity) Hs) as H.
  by apply bool_decide_eq_true in H.
Qed.

Lemma run_bits_encode out rest :
  bytes_ok out →
  run_bits [] (encode_bits out ++ rest) =
    ('(p, o) ← run_bits [] rest; Some (p, out ++ o)).
Proof.
  induction 1 as [|s out Hs Hout IH]; simpl.
  - by destruct (run_bits [] rest) as [[]|].
  - change (encode_bits (s :: out)) with (sym_bits s ++ encode_bits out).
    rewrite <- app_assoc, run_bits_app, (run_bits_sym s Hs). simpl. rewrite IH.
    by destruct (run_bits [] rest) as [[]|].
Qed.

Lemma run_bits_ones k :
  (k ≤ 7)%nat → run_bits [] (replicate k true) = Some (replicate k true, []).
Proof. intros Hk. do 8 (destruct k as [|k]; [vm_compute; reflexivity|]). lia. Qed.

(** The path in the code tree that each state of the automaton stands for,
    computed by propagating along the transitions. *)
Fixpoint propagate (fuel : nat) (todo : list (Z * list bool)) (m : gmap Z (list bool))
    : gmap Z (list bool) :=
  match fuel, todo with
  | S fuel, (s, p) :: todo =>
      match m !! s with
      | Some _ => propagate fuel todo m
      | None =>
          let next := (Z.of_nat <$> seq 0 16) ≫= λ n,
            let '(s', _, f) := decode_entry s n in
            match run_bits p (bits_be 4 n) with
            | Some (p', _) => if Z.land f 4 =? 4 then [] else [(s', p')]
            | None => []
            end in
          propagate fuel (next ++ todo) (<[s := p]> m)
      end
  | _, _ => m
  end.

Definition state_paths : list (list bool) :=
  Eval vm_compute in
    let m := propagate 4200 [(0, [])] ∅ in (λ s, default [] (m !! s)) <$> octets.

Definition path (s : Z) : list bool := default [] (state_paths !! Z.to_nat s).

(** The padding that may end a string: at most seven ones. *)
Definition is_padding (p : list bool) : bool :=
  bool_decide (p = replicate (length p) true) && bool_decide (length p ≤ 7)%nat.

Definition flags_ok (s f : Z) : bool :=
  (s =? 0) || Bool.eqb (negb (Z.land f 1 =? 0)) (is_padding (path s)).

Definition entry_ok (s n : Z) : bool :=
  let '(s', r, f) := decode_entry s n in
  match run_bits (path s) (bits_be 4 n) with
  | None => Z.land f 4 =? 4
  | Some (p', out) =>
      negb (Z.land f 4 =? 4) && bool_decide (path s' = p') && is_u8b s' &&
      bool_decide (out = if Z.land f 2 =? 2 then [r] else []) &&
      Bool.eqb (s' =? 0) (bool_decide (p' = [])) && flags_ok s' f
  end.

Definition nibbles : list Z := Z.of_nat <$> seq 0 16.

Lemma table_ok : forallb (λ s, forallb (entry_ok s) nibbles) octets = true.
Proof. vm_compute. reflexivity. Qed.

Lemma nibbles_elem n : 0 ≤ n < 16 → n ∈ nibbles.
Proof.
  intros. apply list_elem_of_fmap. exists (Z.to_nat n). split; [lia|]. apply elem_of_seq. lia.
Qed.

Lemma entry_ok_true s n : is_u8 s → 0 ≤ n < 16 → entry_ok s n = true.
Proof.
  intros Hs Hn. pose proof (forall_octets _ s table_ok Hs) as H. cbv beta in H.
  rewrite forallb_forall in H. by apply H, list_elem_of_In, nibbles_elem.
Qed.

#[local] Arguments decode_nibble : simpl never.
#[local] Arguments path : simpl never.
#[local] Arguments run_bits : simpl never.
#[local] Opaque bits_be.

(** A state of the automaton with flags that describe it. *)
Definition dec_inv (s f : Z) : Prop :=
  is_u8 s ∧ (s = 0 ↔ path s = []) ∧ flags_ok s f = true.

Lemma is_u8b_true z : is_u8b z = true → is_u8 z.
Proof. unfold is_u8b, is_u8. intros. zbool. lia. Qed.

(** One table lookup does the four bit steps. *)
Lemma decode_nibble_ok dst s n :
  is_u8 s → 0 ≤ n < 16 →
  match run_bits (path s) (bits_be 4 n) with
  | None => decode_nibble dst s n = Err InvalidHuffmanCode
  | Some (p', out) =>
      ∃ s' f', decode_nibble dst s n = Ok (s', f', dst ++ out) ∧ path s' = p' ∧ dec_inv s' f'
  end.
Proof.
  intros Hs Hn. pose proof (entry_ok_true s n Hs Hn) as H. unfold entry_ok in H.
  unfold decode_nibble. destruct (decode_entry s n) as [[s' r] f].
  destruct (run_bits (path s) (bits_be 4 n)) as [[p' out]|].
  - apply andb_true_iff in H as [H Hf]. apply andb_true_iff in H as [H Hz].
    apply andb_true_iff in H as [H Ho]. apply andb_true_iff in H as [H Hs'].
    apply andb_true_iff in H as [H Hp]. apply negb_true_iff in H. rewrite H.
    apply bool_decide_eq_true in Hp, Ho. apply is_u8b_true in Hs'. apply eqb_prop in Hz.
    exists s', f. subst. split; [by destruct (Z.land f 2 =? 2); rewrite ?app_nil_r|].
    split; [done|]. split; [done|split; [|done]].
    by rewrite <- Z.eqb_eq, Hz, bool_decide_eq_true.
  - by rewrite H.
Qed.

Lemma byte_nibbles b : is_u8 b →
  bits_be 8 b = bits_be 4 (Z.shiftr b 4) ++ bits_be 4 (Z.land b 15) ∧
  0 ≤ Z.shiftr b 4 < 16 ∧ 0 ≤ Z.land b 15 < 16.
Proof.
  intros [? ?]. change 8%nat with (4 + 4)%nat. rewrite (bits_be_app 4 4 b). change 15 with (Z.ones 4).
  assert (Hs : Z.shiftr b 4 = b / 16) by by rewrite Z.shiftr_div_pow2.
  rewrite Z.land_ones, Hs by lia. change (2 ^ 4) with 16. repeat split.
  - f_equal; [by rewrite <- Hs|].
    apply bits_be_ext. intros i Hi. symmetry. apply (Z.mod_pow2_bits_low b 4). lia.
  - apply Z.div_pos; lia.
  - apply Z.div_lt_upper_bound; lia.
  - apply Z.mod_pos_bound. lia.
  - apply Z.mod_pos_bound. lia.
Qed.

Lemma bytes_bits_cons b l : bytes_bits (b :: l) = bits_be 8 b ++ bytes_bits l.
Proof. done. Qed.

(** The nibble automaton computes bit-at-a-time decoding. *)
Lemma decode_inner_ok src dst s f :
  bytes_ok src → dec_inv s f →
  match run_bits (path s) (bytes_bits src) with
  | None => huffman_decode_inner src dst s f = Err InvalidHuffmanCode
  | Some (p', out) =>
      ∃ s' f', huffman_decode_inner src dst s f = Ok (s', f', dst ++ out) ∧ path s' = p' ∧
        dec_inv s' f'
  end.
Proof.
  intros Hsrc. revert dst s f. induction Hsrc as [|b src Hb Hsrc IH]; intros dst s f Hinv.
  { change (run_bits (path s) (bytes_bits [])) with (Some (path s, @nil Z)).
    exists s, f. by rewrite app_nil_r. }
  destruct (byte_nibbles b Hb) as (Hbits & Hhi & Hlo).
  rewrite bytes_bits_cons, Hbits, <- app_assoc, run_bits_app. simpl.
  pose proof (decode_nibble_ok dst s _ (proj1 Hinv) Hhi) as H1.
  destruct (run_bits (path s) (bits_be 4 (Z.shiftr b 4))) as [[p1 o1]|]; simpl.
  2:{ by rewrite H1. }
  destruct H1 as (s1 & f1 & -> & Hp1 & Hi1). rewrite run_bits_app, <- Hp1. simpl.
  pose proof (decode_nibble_ok (dst ++ o1) s1 _ (proj1 Hi1) Hlo) as H2.
  destruct (run_bits (path s1) (bits_be 4 (Z.land b 15))) as [[p2 o2]|]; simpl.
  2:{ by rewrite H2. }
  destruct H2 as (s2 & f2 & -> & Hp2 & Hi2). rewrite <- Hp2. simpl.
  specialize (IH ((dst ++ o1) ++ o2) s2 f2 Hi2).
  destruct (run_bits (path s2) (bytes_bits src)) as [[p3 o3]|]; simpl; [|done].
  destruct IH as (s3 & f3 & -> & Hp3 & Hi3). exists s3, f3.
  by rewrite !app_assoc.
Qed.

Lemma dec_inv_init : dec_inv 0 0.
Proof. by repeat split. Qed.

(** The acceptance test at the end of a string. *)
Lemma final_test s f :
  dec_inv s f → (negb (s =? 0) && (Z.land f 0x1 =? 0))%bool = negb (is_padding (path s)).
Proof.
  intros (Hs & Hz & Hf). unfold flags_ok in Hf. destruct (Z.eqb_spec s 0) as [->|Hne]; simpl in *.
  - done.
  - apply eqb_prop in Hf. rewrite <- Hf. by rewrite negb_involutive.
Qed.

Lemma is_padding_ones p : is_padding p = true ↔ ∃ k, (k ≤ 7)%nat ∧ p = replicate k true.
Proof.
  unfold is_padding. rewrite andb_true_iff, !bool_decide_eq_true. split.
  - intros [H1 H2]. eauto.
  - intros (k & Hk & ->). by rewrite length_replicate.
Qed.

Lemma huffman_decode_run src dst :
  bytes_ok src →
  huffman_decode src dst =
    match run_bits [] (bytes_bits src) with
    | Some (p, out) => if is_padding p then Ok (dst ++ out) else Err InvalidHuffmanCode
    | None => Err InvalidHuffmanCode
    end.
Proof.
  intros Hsrc. unfold huffman_decode.
  pose proof (decode_inner_ok src dst 0 0 Hsrc dec_inv_init) as H. change (path 0) with (@nil bool) in H.
  destruct (run_bits [] (bytes_bits src)) as [[p out]|]; simpl; [|by rewrite H].
  destruct H as (s & f & -> & <- & Hi). simpl. rewrite (final_test s f Hi).
  by destruct (is_padding (path s)).
Qed.

Lemma huffman_decode_iff src out :
  bytes_ok src →
  huffman_decode src [] = Ok out ↔
    bytes_ok out ∧ ∃ k, (k ≤ 7)%nat ∧ bytes_bits src = encode_bits out ++ replicate k true.
Proof.
  intros Hsrc. rewrite huffman_decode_run by done. split.
  - destruct (run_bits [] (bytes_bits src)) as [[p o]|] eqn:Hr; [|done].
    destruct (is_padding p) eqn:Hp; [|done]. intros [= <-].
    apply run_bits_sound in Hr as [Ho Heq]. apply is_padding_ones in Hp as (k & Hk & ->).
    eauto.
  - intros (Ho & k & Hk & Heq). rewrite Heq, run_bits_encode, run_bits_ones by done. simpl.
    rewrite (proj2 (is_padding_ones (replicate k true))) by eauto. by rewrite app_nil_r.
Qed.

Lemma encode_step_bytes s b : bytes_ok (enc_dst s) → bytes_ok (enc_dst (encode_step s b)).
Proof.
  destruct s as [st u dst]. simpl. intros. destruct (encode_entry b) as [n c].
  destruct (u ?= n); simpl; auto; apply Forall_app; auto with rust.
Qed.

Lemma huffman_encode_bytes src dst : bytes_ok dst → bytes_ok (huffman_encode src dst).
Proof.
  intros Hd. unfold huffman_encode.
  assert (H : ∀ s, bytes_ok (enc_dst s) → bytes_ok (enc_dst (foldl encode_step s src))).
  { induction src as [|b src IH]; intros s Hs; simpl; [done|]. apply IH, encode_step_bytes, Hs. }
  specialize (H (mkEnc 0 64 dst) Hd). destruct (foldl _ _ src) as [st u d]. simpl in *.
  destruct (negb (u =? 64)); [|done]. apply Forall_app. auto with rust.
Qed.

Lemma pad_len_le n : (pad_len n ≤ 7)%nat.
Proof. unfold pad_len. pose proof (Nat.mod_upper_bound (8 - n mod 8) 8 ltac:(lia)). lia. Qed.

Lemma huffman_roundtrip src :
  bytes_ok src → huffman_decode (huffman_encode src []) [] = Ok src.
Proof.
  intros Hsrc. apply huffman_decode_iff; [by apply huffman_encode_bytes|].
  split; [done|]. exists (pad_len (length (encode_bits src))). split; [apply pad_len_le|].
  by rewrite huffman_encode_bits.
Qed.

(** Feeding a string in two pieces is feeding it at once. *)
Lemma decode_inner_app a b dst s f :
  huffman_decode_inner (a ++ b) dst s f =
    ('(s', f', dst') ← huffman_decode_inner a dst s f; huffman_decode_inner b dst' s' f').
Proof.
  revert dst s f. induction a as [|x a IH]; intros dst s f; simpl; [done|].
  destruct (decode_nibble dst s _) as [[[s1 f1] d1]| |]; simpl; [|done..].
  destruct (decode_nibble d1 s1 _) as [[[s2 f2] d2]| |]; simpl; [|done..]. apply IH.
Qed.

Lemma decoder_app a b d :
  HuffmanDecoder.decode (a ++ b) d =
    (d' ← HuffmanDecoder.decode a d; HuffmanDecoder.decode b d').
Proof.
  unfold HuffmanDecoder.decode. rewrite decode_inner_app.
  by destruct (huffman_decode_inner a _ _ _) as [[[s1 f1] d1]| |].
Qed.

(** The incremental decoder agrees with [huffman_decode]. *)
Lemma decoder_decode_finish src :
  (d ← HuffmanDecoder.decode src HuffmanDecoder.new; HuffmanDecoder.finish d) =
    huffman_decode src [].
Proof.
  unfold HuffmanDecoder.decode, huffman_decode. simpl.
  by destruct (huffman_decode_inner src [] 0 0) as [[[s1 f1] d1]| |].
Qed.

(** * Theorems *)

(** Decoding accepts exactly the canonical encodings: [huffman_decode]
    succeeds with [out] if and only if the bits of the input are the codes of
    [out] followed by at most seven one bits, the start of the EOS code. *)
Theorem huffman_decode_accepts src out :
  bytes_ok src →
  huffman_decode src [] = Ok out ↔
    bytes_ok out ∧ ∃ k, (k ≤ 7)%nat ∧ bytes_bits src = encode_bits out ++ replicate k true.
Proof. apply huffman_decode_iff. Qed.

Lemma huffman_decode_accepts_witness : huffman_decode [0x1f] [] = Ok [97].
Proof.
  apply (huffman_decode_accepts [0x1f] [97]).
  - repeat constructor; done.
  - split; [repeat constructor; done|]. exists 3%nat. split; [lia|reflexivity].
Defined.

(** [huffman_encode] appends to its destination the codes of the source
    octets, one after the other, and ones up to the next octet boundary, whatever
    the 64-bit window it packs them through; decoding gives the source back. *)
Theorem huffman_encode_decode src dst :
  bytes_ok src →
  bytes_bits (huffman_encode src dst) =
    bytes_bits dst ++ encode_bits src ++ replicate (pad_len (length (encode_bits src))) true ∧
  huffman_decode (huffman_encode src []) [] = Ok src.
Proof. intros Hs. split; [by apply huffman_encode_bits|by apply huffman_roundtrip]. Qed.

Lemma huffman_encode_decode_witness :
  huffman_decode (huffman_encode [119; 119; 119] []) [] = Ok [119; 119; 119].
Proof. apply (huffman_encode_decode [119; 119; 119] []). repeat constructor; done. Defined.

(** Successive calls of [HuffmanDecoder::decode]. *)
Fixpoint decode_pieces (pieces : list bytes) (d : HuffmanDecoder.t)
    : res HuffmanDecodeError HuffmanDecoder.t :=
  match pieces with
  | [] => Ok d
  | p :: pieces => d ← HuffmanDecoder.decode p d; decode_pieces pieces d
  end.

Lemma decode_pieces_concat pieces d :
  decode_pieces pieces d =
    match pieces with [] => Ok d | _ => HuffmanDecoder.decode (concat pieces) d end.
Proof.
  revert d. induction pieces as [|p pieces IH]; intros d; [done|]. simpl. rewrite decoder_app.
  destruct (HuffmanDecoder.decode p d) as [d1|e|]; simpl; [|done..]. rewrite IH.
  destruct pieces; [|done]. by destruct d1.
Qed.

(** The incremental decoder, fed a string in any pieces, gives what
    [huffman_decode] gives on the whole string, errors included. *)
Theorem huffman_incremental pieces :
  (d ← decode_pieces pieces HuffmanDecoder.new; HuffmanDecoder.finish d) =
    huffman_decode (concat pieces) [].
Proof. rewrite decode_pieces_concat, <- decoder_decode_finish. by destruct pieces. Qed.
