(* ===== verification/H2Error.v ===== *)
(** Error codes and errors of HTTP/2 ([ylong_http/src/h2/error.rs]). *)
From S2P Require Import Prelude.

Abbreviation StreamId := Z (only parsing).

Inductive ErrorCode :=
| NoError | ProtocolError | IntervalError | FlowControlError | SettingsTimeout
| StreamClosed | FrameSizeError | RefusedStream | Cancel | CompressionError
| ConnectError | EnhanceYourCalm | InadequateSecurity | Http1_1Required.

Inductive H2Error :=
| StreamError (id : StreamId) (code : ErrorCode)
| ConnectionError (code : ErrorCode).

#[export] Instance ErrorCode_eq_dec : EqDecision ErrorCode.
Proof. solve_decision. Defined.
#[export] Instance H2Error_eq_dec : EqDecision H2Error.
Proof. solve_decision. Defined.

(** [ErrorCode::into_code]: the discriminants of the enum. *)
Definition into_code (e : ErrorCode) : Z :=
  match e with
  | NoError => 0x00 | ProtocolError => 0x01 | IntervalError => 0x02
  | FlowControlError => 0x03 | SettingsTimeout => 0x04 | StreamClosed => 0x05
  | FrameSizeError => 0x06 | RefusedStream => 0x07 | Cancel => 0x08
  | CompressionError => 0x09 | ConnectError => 0x0a | EnhanceYourCalm => 0x0b
  | InadequateSecurity => 0x0c | Http1_1Required => 0x0d
  end.

(** [ErrorCode::try_from]. *)
Definition error_code_try_from (value : Z) : res H2Error ErrorCode :=
  match value with
  | 0x00 => Ok NoError
  | 0x01 => Ok ProtocolError
  | 0x02 => Ok IntervalError
  | 0x03 => Ok FlowControlError
  | 0x04 => Ok SettingsTimeout
  | 0x05 => Ok StreamClosed
  | 0x06 => Ok FrameSizeError
  | 0x07 => Ok RefusedStream
  | 0x08 => Ok Cancel
  | 0x09 => Ok CompressionError
  | 0x0a => Ok ConnectError
  | 0x0b => Ok EnhanceYourCalm
  | 0x0c => Ok InadequateSecurity
  | 0x0d => Ok Http1_1Required
  | _ => Err (ConnectionError ProtocolError)
  end.

Lemma error_code_roundtrip_codes e : error_code_try_from (into_code e) = Ok e.
Proof. by destruct e. Qed.

Lemma error_code_try_from_inv z e : error_code_try_from z = Ok e → z = into_code e.
Proof.
  destruct z as [|p|p]; simpl; [by intros [= <-]| |done].
  do 4 (destruct p as [p|p|]; simpl; try done; try by intros [= <-]).
Qed.

(** An octet sequence's error code is accepted exactly when it is the code of
    one of the fourteen errors, and it is then that error; every other code is a
    connection error of type PROTOCOL_ERROR. *)
Theorem error_code_codec z :
  match error_code_try_from z with
  | Ok e => z = into_code e
  | Err e => e = ConnectionError ProtocolError ∧ ∀ c, z ≠ into_code c
  | Panic => False
  end.
Proof.
  destruct (error_code_try_from z) as [e|e|] eqn:Hz.
  - by apply error_code_try_from_inv.
  - split.
    + destruct z as [|p|p]; simpl in Hz; try congruence.
      do 4 (destruct p as [p|p|]; simpl in Hz; try congruence).
    + intros c ->. by rewrite error_code_roundtrip_codes in Hz.
  - destruct z as [|p|p]; simpl in Hz; try done.
    do 4 (destruct p as [p|p|]; simpl in Hz; try done).
Qed.
