(* ===== verification/HpackInteger.v ===== *)
(** HPACK integers ([ylong_http/src/h2/hpack/integer.rs], RFC 7541 section 5.1):
    the resumable [IntegerDecoder], fed one byte at a time, and the resumable
    [IntegerEncoder], asked for one byte at a time.  The theorems show that the
    decoder inverts the encoder on the whole [usize] range, that the encoder
    always finishes, and that a decoder fed any bytes either reports the value
    that RFC 7541 gives them or the overflow of [usize] as a connection error. *)
From S2P Require Import Prelude H2Error.

(** [checked_shl], [checked_mul] and [checked_add] of [usize]. *)
Definition checked_shl (x s : Z) : option Z :=
  if s <? usize_bits then Some ((x * 2 ^ s) mod 2 ^ usize_bits) else None.
Definition checked_mul (x y : Z) : option Z :=
  if x * y <=? usize_max then Some (x * y) else None.
Definition checked_add (x y : Z) : option Z :=
  if x + y <=? usize_max then Some (x + y) else None.

Module IntegerDecoder.
Record t := mk { index : Z; shift : Z }.

(** [Ok idx] when the prefix holds the integer, [Err decoder] otherwise. *)
Definition first_byte (byte mask : Z) : Z + t :=
  let index := Z.land byte mask in
  match index ?= mask with
  | Lt => inl index
  | _ => inr (mk index 1)
  end.

Definition next_byte (d : t) (byte : Z) : res H2Error (option Z) * t :=
  match
    res ← checked_shl 1 (shift d - 1);
    res ← checked_mul res (Z.land byte 0x7f);
    checked_add res (index d)
  with
  | None => (Err (ConnectionError CompressionError), d)
  | Some index =>
      let d := mk index (shift d + 7) in
      (Ok (if Z.land byte 0x80 =? 0x00 then Some index else None), d)
  end.
End IntegerDecoder.

Module IntegerEncoder.
Inductive IntegerEncodeState := First | Other | Finish.

#[global] Instance IntegerEncodeState_eq_dec : EqDecision IntegerEncodeState.
Proof. solve_decision. Defined.

Record t := mk { i : Z; mask : Z; pre : Z; state : IntegerEncodeState }.

Definition new (i mask pre : Z) : t := mk i mask pre First.

Definition next_byte (e : t) : option Z * t :=
  let '(mk i mask pre state) := e in
  match state with
  | First =>
      if i <? mask then (Some (Z.lor pre (as_u8 i)), mk i mask pre Finish)
      else (Some (Z.lor pre mask), mk (i - mask) mask pre Other)
  | Other =>
      if 128 <=? i then
        (Some (Z.lor (as_u8 (Z.land i 0x7f)) 0x80), mk (Z.shiftr i 7) mask pre Other)
      else (Some (as_u8 (Z.land i 0x7f)), mk i mask pre Finish)
  | Finish => (None, e)
  end.

Definition is_finish (e : t) : bool := bool_decide (state e = Finish).
End IntegerEncoder.

(** * The byte string an encoder produces *)

(** The continuation bytes of RFC 7541: seven bits each, least significant
    group first.  A [usize] needs at most ten. *)
Fixpoint cont_bytes (fuel : nat) (i : Z) : bytes :=
  match fuel with
  | O => []
  | S fuel => if 128 <=? i then (i mod 128 + 128) :: cont_bytes fuel (i / 128) else [i]
  end.

Definition cont_fuel : nat := 10.

Definition int_bytes (i mask pre : Z) : bytes :=
  if i <? mask then [Z.lor pre i] else Z.lor pre mask :: cont_bytes cont_fuel (i - mask).

(** What remains to be written by an encoder. *)
Definition remaining (e : IntegerEncoder.t) : bytes :=
  match IntegerEncoder.state e with
  | IntegerEncoder.First => int_bytes (IntegerEncoder.i e) (IntegerEncoder.mask e) (IntegerEncoder.pre e)
  | IntegerEncoder.Other => cont_bytes cont_fuel (IntegerEncoder.i e)
  | IntegerEncoder.Finish => []
  end.

(** The masks and prefixes in use: an N-bit mask and a prefix above it. *)
Definition mask_ok (mask pre : Z) : Prop :=
  ∃ n, 1 ≤ n ≤ 8 ∧ mask = 2 ^ n - 1 ∧ 0 ≤ pre < 256 ∧ Z.land pre mask = 0.

Definition enc_ok (e : IntegerEncoder.t) : Prop :=
  is_usize (IntegerEncoder.i e) ∧ mask_ok (IntegerEncoder.mask e) (IntegerEncoder.pre e).

Lemma cont_bytes_S n i :
  cont_bytes (S n) i = if 128 <=? i then (i mod 128 + 128) :: cont_bytes n (i / 128) else [i].
Proof. done. Qed.
#[local] Arguments cont_bytes : simpl never.

Lemma cont_bytes_fuel n m i :
  0 ≤ i < 128 ^ Z.of_nat n → (0 < n ≤ m)%nat → cont_bytes m i = cont_bytes n i.
Proof.
  revert m i. induction n as [|n IH]; intros m i Hi Hn; [lia|].
  destruct m as [|m]; [lia|]. rewrite !cont_bytes_S.
  destruct (Z.leb_spec 128 i) as [Hge|]; [|done].
  f_equal. rewrite Nat2Z.inj_succ, Z.pow_succ_r in Hi by lia.
  destruct n as [|n]; [simpl in Hi; lia|]. apply IH; [|lia].
  split; [apply Z.div_pos; lia|]. apply Z.div_lt_upper_bound; lia.
Qed.

Lemma cont_fuel_ok : 2 ^ 64 ≤ 128 ^ Z.of_nat cont_fuel.
Proof. done. Qed.

Lemma cont_bytes_step i :
  is_usize i →
  cont_bytes cont_fuel i =
    if 128 <=? i then (i mod 128 + 128) :: cont_bytes cont_fuel (i / 128) else [i].
Proof.
  intros [Hi Hi2]. change cont_fuel with (S 9) at 1. rewrite cont_bytes_S.
  destruct (Z.leb_spec 128 i); [|done].
  f_equal. symmetry. apply (cont_bytes_fuel 9); [|unfold cont_fuel; lia].
  split; [apply Z.div_pos; lia|]. apply Z.div_lt_upper_bound; [lia|].
  change (128 * 128 ^ Z.of_nat 9) with (2 ^ 70).
  apply Z.lt_trans with (2 ^ 64); [done|]. reflexivity.
Qed.

Lemma land_7f z : 0 ≤ z → Z.land z 0x7f = z mod 128.
Proof. intros. apply (Z.land_ones z 7). lia. Qed.

Lemma lor_80 z : 0 ≤ z < 128 → Z.lor z 0x80 = z + 128.
Proof.
  intros. rewrite <- Z.lxor_lor, <- Z.add_nocarry_lxor; [done|..];
  rewrite <- (Z.mod_small z (2 ^ 7)), <- Z.land_ones by lia;
  rewrite <- Z.land_assoc; apply Z.land_0_r.
Qed.

(** Asking for the next byte writes the head of what remains. *)
Lemma enc_next_byte e :
  enc_ok e →
  let '(o, e') := IntegerEncoder.next_byte e in
  enc_ok e' ∧ remaining e = option_list o ++ remaining e' ∧
  (IntegerEncoder.state e ≠ IntegerEncoder.Finish → is_Some o).
Proof.
  destruct e as [i mask pre st]. intros [Hi Hm]. simpl in Hi, Hm.
  destruct Hm as (n & Hn & -> & Hp & Hl).
  assert (Hmask : mask_ok (2 ^ n - 1) pre) by (exists n; auto).
  assert (0 < 2 ^ n ≤ 256).
  { split; [apply Z.pow_pos_nonneg; lia|]. change 256 with (2 ^ 8). apply Z.pow_le_mono_r; lia. }
  assert (Hok : ∀ j st', 0 ≤ j ≤ i → enc_ok (IntegerEncoder.mk j (2 ^ n - 1) pre st')).
  { intros. split; [unfold is_usize in *; simpl; lia|done]. }
  destruct Hi as [Hi1 Hi2]. destruct st; simpl.
  - unfold remaining at 1, int_bytes; simpl. destruct (Z.ltb_spec i (2 ^ n - 1)).
    + rewrite as_u8_small by (unfold is_u8; lia). simpl; split; [apply Hok; lia|by split; [|eexists]].
    + simpl; split; [apply Hok; lia|by split; [|eexists]].
  - unfold remaining at 1; simpl. rewrite cont_bytes_step by done. rewrite land_7f by lia.
    pose proof (Z.mod_pos_bound i 128 ltac:(lia)).
    rewrite as_u8_small by (unfold is_u8; lia).
    destruct (Z.leb_spec 128 i); simpl.
    + rewrite lor_80 by lia. rewrite Z.shiftr_div_pow2 by lia. change (2 ^ 7) with 128.
      simpl; split; [apply Hok|by split; [|eexists]]. split; [apply Z.div_pos; lia|].
      apply Z.div_le_upper_bound; lia.
    + rewrite Z.mod_small by lia. simpl; split; [apply Hok; lia|by split; [|eexists]].
  - split; [apply Hok; lia|]. split; done.
Qed.

(** Ask for bytes until [is_finish], as the writers do. *)
Fixpoint emit (fuel : nat) (e : IntegerEncoder.t) : bytes * IntegerEncoder.t :=
  match fuel with
  | O => ([], e)
  | S fuel =>
      if IntegerEncoder.is_finish e then ([], e)
      else
        let '(o, e) := IntegerEncoder.next_byte e in
        let '(l, e) := emit fuel e in (option_list o ++ l, e)
  end.

Lemma emit_spec fuel e :
  enc_ok e → (length (remaining e) ≤ fuel)%nat →
  ∃ e', emit fuel e = (remaining e, e') ∧ IntegerEncoder.is_finish e' = true.
Proof.
  revert e. induction fuel as [|fuel IH]; intros e Hok Hl; simpl;
    pose proof (enc_next_byte e Hok) as Hn; destruct (IntegerEncoder.next_byte e) as [o e1];
    destruct Hn as (Hok1 & Hr & Ho);
    unfold IntegerEncoder.is_finish at 1; destruct (decide (IntegerEncoder.state e = IntegerEncoder.Finish)) as [Hf|Hf].
  - exists e. unfold remaining. rewrite Hf. split; [done|]. unfold IntegerEncoder.is_finish.
    by rewrite bool_decide_true.
  - destruct (Ho Hf) as [b ->]. rewrite Hr in Hl. simpl in Hl. lia.
  - rewrite bool_decide_true by done. exists e. unfold remaining. rewrite Hf.
    split; [done|]. unfold IntegerEncoder.is_finish. by rewrite bool_decide_true.
  - rewrite bool_decide_false by done. destruct (Ho Hf) as [b ->]. rewrite Hr in Hl |- *.
    destruct (IH e1 Hok1) as (e' & -> & He'); [simpl in Hl; lia|]. by exists e'.
Qed.

(** * The decoder *)

(** Feed bytes to a decoder until it reports the integer; [None] when the
    bytes run out. *)
Fixpoint feed (d : IntegerDecoder.t) (l : bytes) : res H2Error (option Z * bytes) :=
  match l with
  | [] => Ok (None, [])
  | b :: l =>
      let '(r, d) := IntegerDecoder.next_byte d b in
      o ← r;
      match o with Some i => Ok (Some i, l) | None => feed d l end
  end.

(** RFC 7541 section 5.1: decode an integer from a byte string, in unbounded
    arithmetic: [v] the value so far and [m] the weight of the next group. *)
Fixpoint rfc_int (v m : Z) (l : bytes) : option (Z * bytes) :=
  match l with
  | [] => None
  | b :: l =>
      let v := v + (b mod 128) * 2 ^ m in
      if b <? 128 then Some (v, l) else rfc_int v (m + 7) l
  end.

Lemma land_80 b : is_u8 b → (Z.land b 0x80 =? 0) = (b <? 128).
Proof.
  intros [? ?]. replace (Z.land b 0x80) with (Z.land (Z.shiftr b 7) 1 * 128).
  - change 1 with (Z.ones 1). rewrite Z.land_ones, Z.shiftr_div_pow2 by lia.
    change (2 ^ 7) with 128. change (2 ^ 1) with 2.
    destruct (Z.ltb_spec b 128).
    + rewrite Z.div_small by lia. done.
    + replace (b / 128) with 1; [done|]. apply (Z.div_unique b 128 1 (b - 128)); lia.
  - apply Z.bits_inj'. intros k Hk. change 128 with (2 ^ 7).
    rewrite <- Z.shiftl_mul_pow2, Z.shiftl_spec by lia.
    destruct (Z.lt_ge_cases k 7).
    + rewrite Z.testbit_neg_r, Z.land_spec, Z.pow2_bits_false by lia. by rewrite andb_false_r.
    + rewrite !Z.land_spec, Z.shiftr_spec by lia. rewrite Z.sub_add. f_equal.
      destruct (decide (k = 7)) as [->|]; [done|].
      rewrite Z.pow2_bits_false by lia. apply Z.bits_above_log2; simpl; lia.
Qed.

Lemma next_byte_spec d b :
  is_u8 b → 0 ≤ IntegerDecoder.index d → 1 ≤ IntegerDecoder.shift d →
  let v := IntegerDecoder.index d + (b mod 128) * 2 ^ (IntegerDecoder.shift d - 1) in
  IntegerDecoder.next_byte d b =
    if (IntegerDecoder.shift d - 1 <? 64) && (v <=? usize_max) then
      (Ok (if b <? 128 then Some v else None), IntegerDecoder.mk v (IntegerDecoder.shift d + 7))
    else (Err (ConnectionError CompressionError), d).
Proof.
  intros Hb Hi Hs v. unfold IntegerDecoder.next_byte, checked_shl.
  rewrite land_80, land_7f by (unfold is_u8 in *; lia || done).
  change usize_bits with 64. pose proof (Z.mod_pos_bound b 128 ltac:(lia)).
  destruct (Z.ltb_spec (IntegerDecoder.shift d - 1) 64) as [Hlt|]; cbn [andb mbind option_bind]; [|done].
  pose proof (Z.pow_pos_nonneg 2 (IntegerDecoder.shift d - 1) ltac:(lia) ltac:(lia)).
  assert (2 ^ (IntegerDecoder.shift d - 1) < 2 ^ 64) by (apply Z.pow_lt_mono_r; lia).
  rewrite Z.mul_1_l, Z.mod_small by lia. unfold checked_mul, checked_add.
  assert (Hv : 2 ^ (IntegerDecoder.shift d - 1) * (b mod 128) + IntegerDecoder.index d = v)
    by (subst v; lia).
  destruct (Z.leb_spec (2 ^ (IntegerDecoder.shift d - 1) * (b mod 128)) usize_max);
    cbn [mbind option_bind].
  - rewrite Hv. by destruct (v <=? usize_max).
  - destruct (Z.leb_spec v usize_max); [lia|done].
Qed.

(** The value of a decoder that reports one fits a [usize]. *)
Lemma feed_range l d i rest :
  bytes_ok l → 0 ≤ IntegerDecoder.index d → 1 ≤ IntegerDecoder.shift d →
  feed d l = Ok (Some i, rest) → is_usize i.
Proof.
  intros Hl. revert d. induction Hl as [|b l Hb Hl IH]; intros d Hi Hs; simpl; [done|].
  rewrite next_byte_spec by done.
  pose proof (Z.mod_pos_bound b 128 ltac:(lia)).
  pose proof (Z.pow_nonneg 2 (IntegerDecoder.shift d - 1) ltac:(lia)).
  destruct (Z.ltb_spec (IntegerDecoder.shift d - 1) 64); simpl; [|done].
  set (v := IntegerDecoder.index d + _).
  destruct (Z.leb_spec v usize_max) as [Hv|]; simpl; [|done]. unfold usize_max, usize_bits in Hv.
  assert (0 ≤ v) by (subst v; nia).
  destruct (b <? 128).
  - intros [= <- <-]. split; lia.
  - apply IH; simpl; lia.
Qed.

Lemma rfc_int_ge v m l w rest : 0 ≤ m → bytes_ok l → rfc_int v m l = Some (w, rest) →
  v ≤ w ∧ len rest < len l.
Proof.
  intros Hm Hl. revert v m Hm. induction Hl as [|b l Hb Hl IH]; intros v m Hm; simpl; [done|].
  pose proof (Z.mod_pos_bound b 128 ltac:(lia)). pose proof (Z.pow_nonneg 2 m ltac:(lia)).
  rewrite len_cons. destruct (b <? 128).
  - intros [= <- <-]. split; [nia|lia].
  - intros Hr%IH; [|lia]. nia.
Qed.

(** A decoder reports a value exactly when RFC 7541 gives it that value, the
    value fits a [usize], and the shift stays below the width. *)
Lemma feed_rfc l d v rest :
  bytes_ok l → 0 ≤ IntegerDecoder.index d → 1 ≤ IntegerDecoder.shift d →
  feed d l = Ok (Some v, rest) ↔
    rfc_int (IntegerDecoder.index d) (IntegerDecoder.shift d - 1) l = Some (v, rest) ∧
    v ≤ usize_max ∧ IntegerDecoder.shift d - 1 + 7 * (len l - len rest - 1) < 64.
Proof.
  intros Hl. revert d. induction Hl as [|b l Hb Hl IH]; intros d Hi Hs; simpl.
  { split; [done|]. by intros [? _]. }
  rewrite next_byte_spec by done. pose proof (Z.mod_pos_bound b 128 ltac:(lia)).
  pose proof (Z.pow_nonneg 2 (IntegerDecoder.shift d - 1) ltac:(lia)).
  set (v1 := IntegerDecoder.index d + _). assert (0 ≤ v1) by (subst v1; nia).
  rewrite len_cons. destruct (b <? 128).
  - destruct (_ && _)%bool eqn:Hc; simpl; zbool.
    + split; [intros [= <- <-]; repeat split; lia|by intros ([= <- <-] & _)].
    + split; [done|]. intros ([= <- <-] & ? & ?). apply andb_false_iff in Hc as [?|?]; zbool; lia.
  - assert (Hnext : feed (IntegerDecoder.mk v1 (IntegerDecoder.shift d + 7)) l = Ok (Some v, rest) ↔
      rfc_int v1 (IntegerDecoder.shift d - 1 + 7) l = Some (v, rest) ∧ v ≤ usize_max ∧
      IntegerDecoder.shift d - 1 + 7 * (len l + 1 - len rest - 1) < 64).
    { rewrite IH by (simpl; lia). simpl.
      replace (IntegerDecoder.shift d + 7 - 1) with (IntegerDecoder.shift d - 1 + 7) by lia.
      split; intros (? & ? & ?); repeat split; auto; lia. }
    destruct (_ && _)%bool eqn:Hc; simpl; zbool; [done|]. split; [done|].
    intros (Hr & Hv & Hl'). apply rfc_int_ge in Hr; [|lia|done].
    apply andb_false_iff in Hc as [?|?]; zbool; lia.
Qed.

Lemma feed_no_panic l d : feed d l ≠ Panic.
Proof.
  revert d. induction l as [|b l IH]; intros d; simpl; [done|].
  unfold IntegerDecoder.next_byte.
  destruct (checked_shl _ _ ≫= _); simpl; [|done].
  destruct (Z.land b 0x80 =? 0); [done|apply IH].
Qed.

(** * Round trip *)

Lemma rfc_int_cont n i v m rest :
  0 ≤ i < 128 ^ Z.of_nat n → (0 < n)%nat → 0 ≤ m →
  rfc_int v m (cont_bytes n i ++ rest) = Some (v + i * 2 ^ m, rest).
Proof.
  revert i v m. induction n as [|n IH]; intros i v m Hi Hn Hm; [lia|].
  rewrite cont_bytes_S. rewrite Nat2Z.inj_succ, Z.pow_succ_r in Hi by lia.
  pose proof (Z.mod_pos_bound i 128 ltac:(lia)). pose proof (Z.div_mod i 128 ltac:(lia)).
  destruct (Z.leb_spec 128 i); simpl.
  - destruct (Z.ltb_spec (i mod 128 + 128) 128); [lia|].
    replace (i mod 128 + 128) with (i mod 128 + 1 * 128) by lia.
    rewrite Z.mod_add, Z.mod_mod by lia. destruct n as [|n]; [simpl in Hi; lia|].
    rewrite IH; [|split; [apply Z.div_pos|apply Z.div_lt_upper_bound]; lia|lia|lia].
    rewrite Z.pow_add_r by lia. change (2 ^ 7) with 128. do 2 f_equal. nia.
  - destruct (Z.ltb_spec i 128); [|lia]. rewrite Z.mod_small by lia. done.
Qed.

Lemma length_cont_bytes n i : (length (cont_bytes n i) ≤ n)%nat.
Proof.
  revert i. induction n as [|n IH]; intros i; [done|]. rewrite cont_bytes_S.
  destruct (128 <=? i); simpl; [specialize (IH (i / 128))|]; lia.
Qed.

Lemma cont_bytes_ok n i : 0 ≤ i → bytes_ok (cont_bytes n i).
Proof.
  revert i. induction n as [|n IH]; intros i Hi; [constructor|]. rewrite cont_bytes_S.
  pose proof (Z.mod_pos_bound i 128 ltac:(lia)).
  destruct (Z.leb_spec 128 i); constructor; unfold is_u8; try lia; [|constructor].
  apply IH. apply Z.div_pos; lia.
Qed.

(** Decode a whole integer: its first byte, then the continuation bytes. *)
Definition decode_int (mask : Z) (l : bytes) : res H2Error (option Z * bytes) :=
  match l with
  | [] => Ok (None, [])
  | b :: l =>
      match IntegerDecoder.first_byte b mask with
      | inl i => Ok (Some i, l)
      | inr d => feed d l
      end
  end.

Lemma land_lor_mask pre i mask :
  mask_ok mask pre → 0 ≤ i ≤ mask → Z.land (Z.lor pre i) mask = i.
Proof.
  intros (n & Hn & -> & Hp & Hl) Hi. rewrite Z.land_lor_distr_l, Hl, Z.lor_0_l.
  replace (2 ^ n - 1) with (Z.ones n) in * by (rewrite Z.ones_equiv; lia).
  rewrite Z.land_ones by lia. apply Z.mod_small. rewrite Z.ones_equiv in Hi. lia.
Qed.

Lemma feed_int_bytes mask pre i rest :
  mask_ok mask pre → is_usize i → bytes_ok rest → mask ≤ i →
  feed (IntegerDecoder.mk mask 1) (cont_bytes cont_fuel (i - mask) ++ rest) = Ok (Some i, rest).
Proof.
  intros (n & Hn & -> & _) [Hi Hi'] Hr Hge.
  pose proof (Z.pow_pos_nonneg 2 n ltac:(lia) ltac:(lia)).
  apply feed_rfc; simpl; [apply Forall_app; split; [apply cont_bytes_ok; lia|done]|lia|lia|].
  split; [|split].
  - rewrite rfc_int_cont; [do 2 f_equal; lia| |unfold cont_fuel; lia|lia].
    pose proof cont_fuel_ok. lia.
  - unfold usize_max, usize_bits. lia.
  - rewrite len_app. unfold len. pose proof (length_cont_bytes cont_fuel (i - (2 ^ n - 1))).
    unfold cont_fuel in *. lia.
Qed.

Lemma int_roundtrip mask pre i rest :
  mask_ok mask pre → is_usize i → bytes_ok rest →
  decode_int mask (int_bytes i mask pre ++ rest) = Ok (Some i, rest).
Proof.
  intros Hm Hi Hr. unfold int_bytes. destruct (Z.ltb_spec i mask) as [Hlt|Hge]; simpl.
  - unfold IntegerDecoder.first_byte. rewrite land_lor_mask by (done || destruct Hi; lia).
    by apply Z.compare_lt_iff in Hlt as ->.
  - unfold IntegerDecoder.first_byte.
    assert (0 ≤ mask).
    { destruct Hm as (n & Hn & -> & _). pose proof (Z.pow_pos_nonneg 2 n). lia. }
    rewrite land_lor_mask, Z.compare_refl by (done || lia). by eapply feed_int_bytes.
Qed.

Lemma length_int_bytes i mask pre : (length (int_bytes i mask pre) ≤ 11)%nat.
Proof.
  unfold int_bytes. destruct (i <? mask); simpl; [lia|].
  pose proof (length_cont_bytes cont_fuel (i - mask)). unfold cont_fuel in *. lia.
Qed.

(** * Theorems *)

(** An integer encoder with an N-bit prefix writes any [usize] in at most
    eleven bytes and finishes, and the decoder reads them back as that integer,
    leaving what follows untouched. *)
Theorem integer_roundtrip mask pre i rest :
  mask_ok mask pre → is_usize i → bytes_ok rest →
  ∃ l e', emit 11 (IntegerEncoder.new i mask pre) = (l, e') ∧
    IntegerEncoder.is_finish e' = true ∧ decode_int mask (l ++ rest) = Ok (Some i, rest).
Proof.
  intros Hm Hi Hr.
  destruct (emit_spec 11 (IntegerEncoder.new i mask pre)) as (e' & He & Hf).
  - by split.
  - apply length_int_bytes.
  - exists (int_bytes i mask pre), e'. split; [exact He|]. split; [done|]. by apply int_roundtrip.
Qed.

Lemma integer_roundtrip_witness :
  ∃ l e', emit 11 (IntegerEncoder.new 1337 0x1f 0) = (l, e') ∧
    IntegerEncoder.is_finish e' = true ∧ decode_int 0x1f (l ++ [7]) = Ok (Some 1337, [7]).
Proof.
  apply (integer_roundtrip 0x1f 0 1337 [7]).
  - exists 5. repeat split; lia || done.
  - split; [lia|done].
  - constructor; [unfold is_u8; lia|constructor].
Defined.

(** Ten groups of zeros in front of the last one: the value is that of the prefix, and the
    decoder refuses it. *)
Lemma overlong_refused :
  rfc_int 31 0 (replicate 10 0x80 ++ [0]) = Some (31, []) ∧
  feed (IntegerDecoder.mk 31 1) (replicate 10 0x80 ++ [0]) = Err (ConnectionError CompressionError).
Proof. by vm_compute. Qed.

(** C38: Fed one byte at a time, the integer decoder never panics, and reports a
    value exactly when three things hold: RFC 7541, 5.1 gives the bytes that value in
    unbounded arithmetic, the value fits a [usize], and the last group is shifted by fewer
    than 64 bits.  An encoding with more groups than that is refused also when its value
    fits, because its last groups are zero ([overlong_refused]). *)
Theorem integer_decode_rfc l d v rest :
  bytes_ok l → 0 ≤ IntegerDecoder.index d → 1 ≤ IntegerDecoder.shift d →
  feed d l ≠ Panic ∧
  (feed d l = Ok (Some v, rest) ↔
    rfc_int (IntegerDecoder.index d) (IntegerDecoder.shift d - 1) l = Some (v, rest) ∧
    v ≤ usize_max ∧ IntegerDecoder.shift d - 1 + 7 * (len l - len rest - 1) < 64).
Proof. intros Hl Hi Hs. split; [apply feed_no_panic|by apply feed_rfc]. Qed.

Lemma integer_decode_rfc_witness :
  feed (IntegerDecoder.mk 31 1) [154; 10; 5] = Ok (Some 1337, [5]).
Proof.
  apply (integer_decode_rfc [154; 10; 5] (IntegerDecoder.mk 31 1) 1337 [5]).
  - repeat constructor; unfold is_u8; lia.
  - simpl. lia.
  - simpl. lia.
  - repeat split; done.
Defined.
