(* ===== verification/HpackTable.v ===== *)
(** The HPACK static and dynamic tables ([ylong_http/src/h2/hpack/table.rs]).

    [DynamicTable] is the bounded FIFO of RFC 7541 section 2.3.2 as the code has
    it: a queue whose front is the newest entry, the running size and the limit,
    with the eviction loop [fit_size].  [StaticTable] is the predefined list in
    the three forms the code gives it (by index, by name index and by content),
    and [TableSearcher] joins the two index spaces.  The theorems: the size
    accounting is exact and bounded by the limit, eviction keeps the longest
    prefix that fits, lookups by content return the entry they name, and the two
    directions of the static table agree. *)
From S2P Require Import Prelude.

#[global] Arguments str : simpl never.

Module Header.
(** Possible header types in the tables. *)
Inductive t := Authority | Method | Path | Scheme | Status | Other (s : bytes).

#[global] Instance header_eq_dec : EqDecision t.
Proof. solve_decision. Defined.

(** The name of [Header::len]. *)
Definition hlen (h : t) : Z :=
  match h with
  | Authority => 10 | Method => 7 | Path => 5 | Scheme => 7 | Status => 7
  | Other s => len s
  end.

Definition into_string (h : t) : bytes :=
  match h with
  | Authority => str ":authority"
  | Method => str ":method"
  | Path => str ":path"
  | Scheme => str ":scheme"
  | Status => str ":status"
  | Other s => s
  end.
End Header.

Module TableIndex.
Inductive t := Header (i : Z) | HeaderName (i : Z).
End TableIndex.

Module DynamicTable.
Record t := mk { queue : list (Header.t * bytes); curr_size : Z; max_size : Z }.

Definition with_max_size (max_size : Z) : t := mk [] 0 max_size.

Definition header_name (d : t) (index : Z) : option Header.t :=
  fst <$> queue d !! Z.to_nat index.

Definition header (d : t) (index : Z) : option (Header.t * bytes) :=
  queue d !! Z.to_nat index.

(** The [while] loop of [fit_size]; each turn pops an entry, so the length of
    the queue bounds the turns. *)
Fixpoint fit_loop (fuel : nat) (d : t) : t :=
  match fuel with
  | O => d
  | S fuel =>
      if max_size d <? curr_size d then
        match list.last (queue d) with
        | Some (key, string) =>
            fit_loop fuel (mk (removelast (queue d))
              (curr_size d - (Header.hlen key + len string + 32)) (max_size d))
        | None => d
        end
      else d
  end.

Definition fit_size (d : t) : t := fit_loop (length (queue d)) d.

Definition update (d : t) (header : Header.t) (value : bytes) : t :=
  fit_size (mk ((header, value) :: queue d)
    (curr_size d + (Header.hlen header + len value + 32)) (max_size d)).

Definition update_size (d : t) (max_size : Z) : t :=
  fit_size (mk (queue d) (curr_size d) max_size).

(** The loop of [index], [n] the position and [acc] the variable [index]. *)
Fixpoint index_loop (header : Header.t) (value : bytes) (n : Z)
    (acc : option TableIndex.t) (q : list (Header.t * bytes)) : option TableIndex.t :=
  match q with
  | [] => acc
  | (h, v) :: q =>
      match bool_decide (header = h), bool_decide (value = v), acc with
      | true, true, _ => Some (TableIndex.Header n)
      | true, false, None =>
          index_loop header value (n + 1) (Some (TableIndex.HeaderName n)) q
      | _, _, _ => index_loop header value (n + 1) acc q
      end
  end.

Definition index (d : t) (header : Header.t) (value : bytes) : option TableIndex.t :=
  index_loop header value 0 None (queue d).
End DynamicTable.

Module StaticTable.
Definition header_name (index : Z) : option Header.t :=
  match index with
  | 1 => Some Header.Authority
  | 2 | 3 => Some Header.Method
  | 4 | 5 => Some Header.Path
  | 6 | 7 => Some Header.Scheme
  | 8 | 9 | 10 | 11 | 12 | 13 | 14 => Some Header.Status
  | 15 => Some (Header.Other (str "accept-charset"))
  | 16 => Some (Header.Other (str "accept-encoding"))
  | 17 => Some (Header.Other (str "accept-language"))
  | 18 => Some (Header.Other (str "accept-ranges"))
  | 19 => Some (Header.Other (str "accept"))
  | 20 => Some (Header.Other (str "access-control-allow-origin"))
  | 21 => Some (Header.Other (str "age"))
  | 22 => Some (Header.Other (str "allow"))
  | 23 => Some (Header.Other (str "authorization"))
  | 24 => Some (Header.Other (str "cache-control"))
  | 25 => Some (Header.Other (str "content-disposition"))
  | 26 => Some (Header.Other (str "content-encoding"))
  | 27 => Some (Header.Other (str "content-language"))
  | 28 => Some (Header.Other (str "content-length"))
  | 29 => Some (Header.Other (str "content-location"))
  | 30 => Some (Header.Other (str "content-range"))
  | 31 => Some (Header.Other (str "content-type"))
  | 32 => Some (Header.Other (str "cookie"))
  | 33 => Some (Header.Other (str "date"))
  | 34 => Some (Header.Other (str "etag"))
  | 35 => Some (Header.Other (str "expect"))
  | 36 => Some (Header.Other (str "expires"))
  | 37 => Some (Header.Other (str "from"))
  | 38 => Some (Header.Other (str "host"))
  | 39 => Some (Header.Other (str "if-match"))
  | 40 => Some (Header.Other (str "if-modified-since"))
  | 41 => Some (Header.Other (str "if-none-match"))
  | 42 => Some (Header.Other (str "if-range"))
  | 43 => Some (Header.Other (str "if-unmodified-since"))
  | 44 => Some (Header.Other (str "last-modified"))
  | 45 => Some (Header.Other (str "link"))
  | 46 => Some (Header.Other (str "location"))
  | 47 => Some (Header.Other (str "max-forwards"))
  | 48 => Some (Header.Other (str "proxy-authenticate"))
  | 49 => Some (Header.Other (str "proxy-authorization"))
  | 50 => Some (Header.Other (str "range"))
  | 51 => Some (Header.Other (str "referer"))
  | 52 => Some (Header.Other (str "refresh"))
  | 53 => Some (Header.Other (str "retry-after"))
  | 54 => Some (Header.Other (str "server"))
  | 55 => Some (Header.Other (str "set-cookie"))
  | 56 => Some (Header.Other (str "strict-transport-security"))
  | 57 => Some (Header.Other (str "transfer-encoding"))
  | 58 => Some (Header.Other (str "user-agent"))
  | 59 => Some (Header.Other (str "vary"))
  | 60 => Some (Header.Other (str "via"))
  | 61 => Some (Header.Other (str "www-authenticate"))
  | _ => None
  end.

Definition header (index : Z) : option (Header.t * bytes) :=
  match index with
  | 1 => Some (Header.Authority, str "")
  | 2 => Some (Header.Method, str "GET")
  | 3 => Some (Header.Method, str "POST")
  | 4 => Some (Header.Path, str "/")
  | 5 => Some (Header.Path, str "/index.html")
  | 6 => Some (Header.Scheme, str "http")
  | 7 => Some (Header.Scheme, str "https")
  | 8 => Some (Header.Status, str "200")
  | 9 => Some (Header.Status, str "204")
  | 10 => Some (Header.Status, str "206")
  | 11 => Some (Header.Status, str "304")
  | 12 => Some (Header.Status, str "400")
  | 13 => Some (Header.Status, str "404")
  | 14 => Some (Header.Status, str "500")
  | 15 => Some (Header.Other (str "accept-charset"), str "")
  | 16 => Some (Header.Other (str "accept-encoding"), str "gzip, deflate")
  | 17 => Some (Header.Other (str "accept-language"), str "")
  | 18 => Some (Header.Other (str "accept-ranges"), str "")
  | 19 => Some (Header.Other (str "accept"), str "")
  | 20 => Some (Header.Other (str "access-control-allow-origin"), str "")
  | 21 => Some (Header.Other (str "age"), str "")
  | 22 => Some (Header.Other (str "allow"), str "")
  | 23 => Some (Header.Other (str "authorization"), str "")
  | 24 => Some (Header.Other (str "cache-control"), str "")
  | 25 => Some (Header.Other (str "content-disposition"), str "")
  | 26 => Some (Header.Other (str "content-encoding"), str "")
  | 27 => Some (Header.Other (str "content-language"), str "")
  | 28 => Some (Header.Other (str "content-length"), str "")
  | 29 => Some (Header.Other (str "content-location"), str "")
  | 30 => Some (Header.Other (str "content-range"), str "")
  | 31 => Some (Header.Other (str "content-type"), str "")
  | 32 => Some (Header.Other (str "cookie"), str "")
  | 33 => Some (Header.Other (str "date"), str "")
  | 34 => Some (Header.Other (str "etag"), str "")
  | 35 => Some (Header.Other (str "expect"), str "")
  | 36 => Some (Header.Other (str "expires"), str "")
  | 37 => Some (Header.Other (str "from"), str "")
  | 38 => Some (Header.Other (str "host"), str "")
  | 39 => Some (Header.Other (str "if-match"), str "")
  | 40 => Some (Header.Other (str "if-modified-since"), str "")
  | 41 => Some (Header.Other (str "if-none-match"), str "")
  | 42 => Some (Header.Other (str "if-range"), str "")
  | 43 => Some (Header.Other (str "if-unmodified-since"), str "")
  | 44 => Some (Header.Other (str "last-modified"), str "")
  | 45 => Some (Header.Other (str "link"), str "")
  | 46 => Some (Header.Other (str "location"), str "")
  | 47 => Some (Header.Other (str "max-forwards"), str "")
  | 48 => Some (Header.Other (str "proxy-authenticate"), str "")
  | 49 => Some (Header.Other (str "proxy-authorization"), str "")
  | 50 => Some (Header.Other (str "range"), str "")
  | 51 => Some (Header.Other (str "referer"), str "")
  | 52 => Some (Header.Other (str "refresh"), str "")
  | 53 => Some (Header.Other (str "retry-after"), str "")
  | 54 => Some (Header.Other (str "server"), str "")
  | 55 => Some (Header.Other (str "set-cookie"), str "")
  | 56 => Some (Header.Other (str "strict-transport-security"), str "")
  | 57 => Some (Header.Other (str "transfer-encoding"), str "")
  | 58 => Some (Header.Other (str "user-agent"), str "")
  | 59 => Some (Header.Other (str "vary"), str "")
  | 60 => Some (Header.Other (str "via"), str "")
  | 61 => Some (Header.Other (str "www-authenticate"), str "")
  | _ => None
  end.

(** The arms of the [match] of [index], in order; [None] is the pattern [_]. *)
Definition index_arms : list (Header.t * option bytes * TableIndex.t) := [
  (Header.Authority, None, TableIndex.HeaderName 1);
  (Header.Method, Some (str "GET"), TableIndex.Header 2);
  (Header.Method, Some (str "POST"), TableIndex.Header 3);
  (Header.Method, None, TableIndex.HeaderName 2);
  (Header.Path, Some (str "/"), TableIndex.Header 4);
  (Header.Path, Some (str "/index.html"), TableIndex.Header 5);
  (Header.Path, None, TableIndex.HeaderName 4);
  (Header.Scheme, Some (str "http"), TableIndex.Header 6);
  (Header.Scheme, Some (str "https"), TableIndex.Header 7);
  (Header.Scheme, None, TableIndex.HeaderName 6);
  (Header.Status, Some (str "200"), TableIndex.Header 8);
  (Header.Status, Some (str "204"), TableIndex.Header 9);
  (Header.Status, Some (str "206"), TableIndex.Header 10);
  (Header.Status, Some (str "304"), TableIndex.Header 11);
  (Header.Status, Some (str "400"), TableIndex.Header 12);
  (Header.Status, Some (str "404"), TableIndex.Header 13);
  (Header.Status, Some (str "500"), TableIndex.Header 14);
  (Header.Status, None, TableIndex.HeaderName 8)].

(** The arms of [index_headers]. *)
Definition index_headers_arms : list (bytes * option bytes * TableIndex.t) := [
  (str "accept-charset", None, TableIndex.HeaderName 15);
  (str "accept-encoding", Some (str "gzip, deflate"), TableIndex.Header 16);
  (str "accept-encoding", None, TableIndex.HeaderName 16);
  (str "accept-language", None, TableIndex.HeaderName 17);
  (str "accept-ranges", None, TableIndex.HeaderName 18);
  (str "accept", None, TableIndex.HeaderName 19);
  (str "access-control-allow-origin", None, TableIndex.HeaderName 20);
  (str "age", None, TableIndex.HeaderName 21);
  (str "allow", None, TableIndex.HeaderName 22);
  (str "authorization", None, TableIndex.HeaderName 23);
  (str "cache-control", None, TableIndex.HeaderName 24);
  (str "content-disposition", None, TableIndex.HeaderName 25);
  (str "content-encoding", None, TableIndex.HeaderName 26);
  (str "content-language", None, TableIndex.HeaderName 27);
  (str "content-length", None, TableIndex.HeaderName 28);
  (str "content-location", None, TableIndex.HeaderName 29);
  (str "content-range", None, TableIndex.HeaderName 30);
  (str "content-type", None, TableIndex.HeaderName 31);
  (str "cookie", None, TableIndex.HeaderName 32);
  (str "date", None, TableIndex.HeaderName 33);
  (str "etag", None, TableIndex.HeaderName 34);
  (str "expect", None, TableIndex.HeaderName 35);
  (str "expires", None, TableIndex.HeaderName 36);
  (str "from", None, TableIndex.HeaderName 37);
  (str "host", None, TableIndex.HeaderName 38);
  (str "if-match", None, TableIndex.HeaderName 39);
  (str "if-modified-since", None, TableIndex.HeaderName 40);
  (str "if-none-match", None, TableIndex.HeaderName 41);
  (str "if-range", None, TableIndex.HeaderName 42);
  (str "if-unmodified-since", None, TableIndex.HeaderName 43);
  (str "last-modified", None, TableIndex.HeaderName 44);
  (str "link", None, TableIndex.HeaderName 45);
  (str "location", None, TableIndex.HeaderName 46);
  (str "max-forwards", None, TableIndex.HeaderName 47);
  (str "proxy-authenticate", None, TableIndex.HeaderName 48);
  (str "proxy-authorization", None, TableIndex.HeaderName 49);
  (str "range", None, TableIndex.HeaderName 50);
  (str "referer", None, TableIndex.HeaderName 51);
  (str "refresh", None, TableIndex.HeaderName 52);
  (str "retry-after", None, TableIndex.HeaderName 53);
  (str "server", None, TableIndex.HeaderName 54);
  (str "set-cookie", None, TableIndex.HeaderName 55);
  (str "strict-transport-security", None, TableIndex.HeaderName 56);
  (str "transfer-encoding", None, TableIndex.HeaderName 57);
  (str "user-agent", None, TableIndex.HeaderName 58);
  (str "vary", None, TableIndex.HeaderName 59);
  (str "via", None, TableIndex.HeaderName 60);
  (str "www-authenticate", None, TableIndex.HeaderName 61)].

(** The first arm that matches. *)
Fixpoint first_arm {K} `{EqDecision K} (key : K) (value : bytes)
    (arms : list (K * option bytes * TableIndex.t)) : option TableIndex.t :=
  match arms with
  | [] => None
  | (k, pat, i) :: arms =>
      if bool_decide (key = k) && match pat with
                                  | Some v => bool_decide (value = v)
                                  | None => true
                                  end
      then Some i else first_arm key value arms
  end.

Definition index_headers (key value : bytes) : option TableIndex.t :=
  first_arm key value index_headers_arms.

Definition index (header : Header.t) (value : bytes) : option TableIndex.t :=
  match header with
  | Header.Other s => index_headers s value
  | _ => first_arm header value index_arms
  end.
End StaticTable.

Module TableSearcher.
Definition search_header_name (dynamic : DynamicTable.t) (index : Z) : option Header.t :=
  if index <=? 61 then StaticTable.header_name index
  else DynamicTable.header_name dynamic (index - 62).

Definition search_header (dynamic : DynamicTable.t) (index : Z) : option (Header.t * bytes) :=
  if index <=? 61 then StaticTable.header index
  else DynamicTable.header dynamic (index - 62).

Definition index (dynamic : DynamicTable.t) (header : Header.t) (value : bytes)
    : option TableIndex.t :=
  match StaticTable.index header value, DynamicTable.index dynamic header value with
  | Some (TableIndex.Header i), _ => Some (TableIndex.Header i)
  | _, Some (TableIndex.Header i) => Some (TableIndex.Header (i + 62))
  | Some (TableIndex.HeaderName i), _ => Some (TableIndex.HeaderName i)
  | _, Some (TableIndex.HeaderName i) => Some (TableIndex.Header (i + 62))
  | _, _ => None
  end.
End TableSearcher.

(** * The dynamic table *)

Definition entry_size (e : Header.t * bytes) : Z := Header.hlen e.1 + len e.2 + 32.

Fixpoint queue_size (q : list (Header.t * bytes)) : Z :=
  match q with [] => 0 | e :: q => entry_size e + queue_size q end.

(** Eviction as RFC 7541 section 4.4 describes it: the newest entries whose
    sizes add up to at most [max]. *)
Fixpoint fit_prefix (max : Z) (q : list (Header.t * bytes)) : list (Header.t * bytes) :=
  match q with
  | [] => []
  | e :: q => if entry_size e <=? max then e :: fit_prefix (max - entry_size e) q else []
  end.

Definition table_ok (d : DynamicTable.t) : Prop :=
  DynamicTable.curr_size d = queue_size (DynamicTable.queue d) ∧
  DynamicTable.curr_size d ≤ DynamicTable.max_size d.

Lemma hlen_nonneg h : 0 ≤ Header.hlen h.
Proof. destruct h; simpl; try lia. apply len_nonneg. Qed.

Lemma hlen_into_string h : Header.hlen h = len (Header.into_string h).
Proof. by destruct h. Qed.

Lemma entry_size_pos e : 32 ≤ entry_size e.
Proof.
  unfold entry_size. pose proof (hlen_nonneg e.1). pose proof (len_nonneg e.2). lia.
Qed.

Lemma queue_size_nonneg q : 0 ≤ queue_size q.
Proof. induction q as [|e q IH]; simpl; [lia|]. pose proof (entry_size_pos e). lia. Qed.

Lemma queue_size_snoc q e : queue_size (q ++ [e]) = queue_size q + entry_size e.
Proof. induction q as [|e' q IH]; simpl; [|rewrite IH]; lia. Qed.

Lemma fit_prefix_all max q : queue_size q ≤ max → fit_prefix max q = q.
Proof.
  revert max. induction q as [|e q IH]; intros max Hq; simpl in *; [done|].
  pose proof (queue_size_nonneg q). destruct (Z.leb_spec (entry_size e) max); [|lia].
  f_equal. apply IH. lia.
Qed.

Lemma fit_prefix_snoc max q e :
  max < queue_size (q ++ [e]) → fit_prefix max (q ++ [e]) = fit_prefix max q.
Proof.
  revert max. induction q as [|e' q IH]; intros max Hq; simpl in *.
  - destruct (Z.leb_spec (entry_size e) max); [lia|done].
  - destruct (Z.leb_spec (entry_size e') max); [|done]. f_equal. apply IH. lia.
Qed.

Lemma fit_prefix_size max q : 0 ≤ max → queue_size (fit_prefix max q) ≤ max.
Proof.
  revert max. induction q as [|e q IH]; intros max Hm; simpl; [lia|].
  destruct (Z.leb_spec (entry_size e) max); simpl; [|lia].
  specialize (IH (max - entry_size e) ltac:(lia)). lia.
Qed.

Lemma fit_prefix_idem m1 m2 q :
  m1 ≤ m2 → fit_prefix m1 (fit_prefix m2 q) = fit_prefix m1 q.
Proof.
  revert m1 m2. induction q as [|e q IH]; intros m1 m2 Hm; simpl; [done|].
  destruct (Z.leb_spec (entry_size e) m2); simpl.
  - destruct (Z.leb_spec (entry_size e) m1); [|done]. f_equal. apply IH. lia.
  - destruct (Z.leb_spec (entry_size e) m1); [lia|done].
Qed.

(** The eviction loop computes [fit_prefix] and keeps the accounting exact. *)
Lemma fit_loop_spec n q c m :
  c = queue_size q → 0 ≤ m → (length q ≤ n)%nat →
  DynamicTable.fit_loop n (DynamicTable.mk q c m) =
    DynamicTable.mk (fit_prefix m q) (queue_size (fit_prefix m q)) m.
Proof.
  revert q c. induction n as [|n IH]; intros q c -> Hm Hn; simpl.
  - destruct q; [done|simpl in Hn; lia].
  - destruct (Z.ltb_spec m (queue_size q)) as [Hlt|Hge]; [|by rewrite fit_prefix_all].
    destruct q as [|[k v] q' _] using rev_ind; [simpl in Hlt; lia|].
    rewrite last_snoc, removelast_last, fit_prefix_snoc by done. apply IH; [|done|].
    + rewrite queue_size_snoc. unfold entry_size. simpl. lia.
    + rewrite length_app in Hn. simpl in Hn. lia.
Qed.

Lemma fit_size_spec q m :
  0 ≤ m →
  DynamicTable.fit_size (DynamicTable.mk q (queue_size q) m) =
    DynamicTable.mk (fit_prefix m q) (queue_size (fit_prefix m q)) m.
Proof. intros. unfold DynamicTable.fit_size. by apply fit_loop_spec. Qed.

Lemma table_ok_max d : table_ok d → 0 ≤ DynamicTable.max_size d.
Proof. intros [Hc Hm]. pose proof (queue_size_nonneg (DynamicTable.queue d)). lia. Qed.

Lemma update_spec d h v :
  table_ok d →
  DynamicTable.update d h v =
    let q := fit_prefix (DynamicTable.max_size d) ((h, v) :: DynamicTable.queue d) in
    DynamicTable.mk q (queue_size q) (DynamicTable.max_size d).
Proof.
  intros Hok. pose proof (table_ok_max d Hok) as Hm. destruct d as [q c m].
  destruct Hok as [Hc _]. simpl in Hc, Hm. subst c.
  unfold DynamicTable.update. cbv zeta.
  cbn [DynamicTable.queue DynamicTable.curr_size DynamicTable.max_size].
  rewrite <- fit_size_spec by done. do 2 f_equal. simpl. unfold entry_size. simpl. lia.
Qed.

Lemma update_size_spec d m :
  table_ok d → 0 ≤ m →
  DynamicTable.update_size d m =
    let q := fit_prefix m (DynamicTable.queue d) in DynamicTable.mk q (queue_size q) m.
Proof.
  intros Hok Hm. destruct d as [q c m']. destruct Hok as [Hc _]. simpl in *. subst c.
  by apply fit_size_spec.
Qed.

Lemma with_max_size_ok m : 0 ≤ m → table_ok (DynamicTable.with_max_size m).
Proof. intros. by split. Qed.

Lemma update_ok d h v : table_ok d → table_ok (DynamicTable.update d h v).
Proof.
  intros Hok. rewrite update_spec by done. split; [done|].
  apply fit_prefix_size. exact (table_ok_max d Hok).
Qed.

Lemma update_size_ok d m : table_ok d → 0 ≤ m → table_ok (DynamicTable.update_size d m).
Proof.
  intros Hok Hm. rewrite update_size_spec by done. split; [done|].
  by apply fit_prefix_size.
Qed.
#[export] Hint Resolve with_max_size_ok update_ok update_size_ok : rust.

Lemma update_max_size d h v :
  table_ok d → DynamicTable.max_size (DynamicTable.update d h v) = DynamicTable.max_size d.
Proof. intros. by rewrite update_spec. Qed.

Lemma fit_prefix_app_idem m1 m2 a b :
  m1 ≤ m2 → fit_prefix m1 (a ++ fit_prefix m2 b) = fit_prefix m1 (a ++ b).
Proof.
  revert m1. induction a as [|e a IH]; intros m1 Hm; simpl; [by apply fit_prefix_idem|].
  destruct (Z.leb_spec (entry_size e) m1); [|done]. f_equal. apply IH.
  pose proof (entry_size_pos e). lia.
Qed.

(** Inserting a list of fields leaves the newest of them and of the old entries
    that fit the limit. *)
Lemma updates_queue l d :
  table_ok d →
  DynamicTable.queue (foldl (λ d e, DynamicTable.update d e.1 e.2) d l) =
    fit_prefix (DynamicTable.max_size d) (rev l ++ DynamicTable.queue d).
Proof.
  revert d. induction l as [|[h v] l IH]; intros d Hok; simpl.
  - symmetry. apply fit_prefix_all. destruct Hok as [<- ?]. done.
  - rewrite IH, update_max_size by auto with rust. rewrite update_spec by done.
    cbv zeta. cbn [DynamicTable.queue]. rewrite fit_prefix_app_idem by done.
    by rewrite <- app_assoc.
Qed.

(** * Searching the dynamic table *)

Definition names (q : list (Header.t * bytes)) : list Header.t := q.*1.

Lemma index_loop_name h v n i q :
  DynamicTable.index_loop h v n (Some i) q =
    match DynamicTable.index_loop h v n None q with
    | Some (TableIndex.Header k) => Some (TableIndex.Header k)
    | _ => Some i
    end.
Proof.
  revert n i. induction q as [|[h' v'] q IH]; intros n i; simpl; [done|].
  case_bool_decide; [|apply IH]. case_bool_decide; [done|]. rewrite !IH.
  by destruct (DynamicTable.index_loop h v (n + 1) None q) as [[]|].
Qed.

(** What a search answers: the first entry equal to the field, or else the
    first entry with its name, or else nothing. *)
Definition search_spec (h : Header.t) (v : bytes) (n : Z) (q : list (Header.t * bytes))
    (r : option TableIndex.t) : Prop :=
  match r with
  | Some (TableIndex.Header k) =>
      ∃ i, k = n + Z.of_nat i ∧ q !! i = Some (h, v) ∧ (h, v) ∉ take i q
  | Some (TableIndex.HeaderName k) =>
      ∃ i, k = n + Z.of_nat i ∧ names q !! i = Some h ∧ (h ∉ names (take i q)) ∧
        ((h, v) ∉ q)
  | None => h ∉ names q
  end.

Lemma index_loop_spec h v n q : search_spec h v n q (DynamicTable.index_loop h v n None q).
Proof.
  revert n. induction q as [|[h' v'] q IH]; intros n; simpl; [apply not_elem_of_nil|].
  case_bool_decide as Hh; [case_bool_decide as Hv|].
  - subst. exists 0%nat. split; [lia|]. split; [done|]. apply not_elem_of_nil.
  - subst. rewrite index_loop_name. specialize (IH (n + 1)).
    destruct (DynamicTable.index_loop h' v (n + 1) None q) as [[k|k]|]; simpl in *.
    + destruct IH as (i & -> & Hi & Hf). exists (S i). split; [lia|]. split; [done|].
      simpl. rewrite not_elem_of_cons. split; [congruence|done].
    + destruct IH as (i & -> & Hi & Hf & Hq). exists 0%nat. split; [lia|]. split; [done|].
      split; [apply not_elem_of_nil|]. rewrite not_elem_of_cons. split; [congruence|done].
    + exists 0%nat. split; [lia|]. split; [done|]. split; [apply not_elem_of_nil|].
      rewrite not_elem_of_cons. split; [congruence|]. intros Hin. apply IH.
      apply list_elem_of_fmap. by exists (h', v).
  - specialize (IH (n + 1)).
    destruct (DynamicTable.index_loop h v (n + 1) None q) as [[k|k]|]; simpl in *.
    + destruct IH as (i & -> & Hi & Hf). exists (S i). split; [lia|]. split; [done|].
      simpl. rewrite not_elem_of_cons. split; [congruence|done].
    + destruct IH as (i & -> & Hi & Hf & Hq). exists (S i). split; [lia|]. split; [done|].
      simpl. rewrite !not_elem_of_cons. repeat split; [congruence|done|congruence|done].
    + rewrite not_elem_of_cons. done.
Qed.

Lemma dynamic_index_spec d h v :
  search_spec h v 0 (DynamicTable.queue d) (DynamicTable.index d h v).
Proof. apply index_loop_spec. Qed.

(** * The static table *)

Definition arm_ok (a : Header.t * option bytes * TableIndex.t) : bool :=
  match a with
  | (h, Some v, TableIndex.Header i) =>
      (1 <=? i) && (i <=? 61) && bool_decide (StaticTable.header i = Some (h, v))
  | (h, _, TableIndex.HeaderName i) =>
      (1 <=? i) && (i <=? 61) && bool_decide (StaticTable.header_name i = Some h)
  | _ => false
  end.

Lemma static_arms_ok :
  forallb arm_ok (StaticTable.index_arms ++
    ((λ '(k, p, i), (Header.Other k, p, i)) <$> StaticTable.index_headers_arms)) = true.
Proof. vm_compute. reflexivity. Qed.

Lemma first_arm_elem {K} `{EqDecision K} (key : K) v arms i :
  StaticTable.first_arm key v arms = Some i →
  ∃ p, (key, p, i) ∈ arms ∧ (∀ v', p = Some v' → v = v').
Proof.
  induction arms as [|[[k p] j] arms IH]; simpl; [done|].
  destruct (_ && _)%bool eqn:Hm.
  - intros [= <-]. apply andb_true_iff in Hm as [Hk Hp]. apply bool_decide_eq_true in Hk as ->.
    exists p. split; [left|]. intros v' ->. by apply bool_decide_eq_true in Hp.
  - intros (p' & Hin & Hp)%IH. exists p'. split; [by right|done].
Qed.

Lemma static_index_arm h v i :
  StaticTable.index h v = Some i →
  ∃ p, arm_ok (h, p, i) = true ∧ (∀ v', p = Some v' → v = v').
Proof.
  intros H. pose proof static_arms_ok as Hall. rewrite forallb_forall in Hall.
  assert (Hin : ∃ p, (h, p, i) ∈ StaticTable.index_arms ++
    ((λ '(k, p, i), (Header.Other k, p, i)) <$> StaticTable.index_headers_arms) ∧
    (∀ v', p = Some v' → v = v')).
  { destruct h as [| | | | |s]; unfold StaticTable.index, StaticTable.index_headers in H;
      apply first_arm_elem in H as (p & Hin & Hp); exists p; (split; [|done]);
      apply elem_of_app; [by left..|right].
    apply list_elem_of_fmap. by exists (s, p, i). }
  destruct Hin as (p & Hin & Hp). exists p. split; [|done]. by apply Hall, list_elem_of_In.
Qed.

Lemma static_index_header h v i :
  StaticTable.index h v = Some (TableIndex.Header i) →
  1 ≤ i ≤ 61 ∧ StaticTable.header i = Some (h, v).
Proof.
  intros (p & Ha & Hp)%static_index_arm. destruct p as [v'|]; simpl in Ha; [|done].
  rewrite (Hp v' eq_refl). apply andb_true_iff in Ha as [Ha Hb].
  apply bool_decide_eq_true in Hb. zbool. done.
Qed.

Lemma static_index_name h v i :
  StaticTable.index h v = Some (TableIndex.HeaderName i) →
  1 ≤ i ≤ 61 ∧ StaticTable.header_name i = Some h.
Proof.
  intros (p & Ha & Hp)%static_index_arm.
  assert (Ha' : ((1 <=? i) && (i <=? 61) &&
    bool_decide (StaticTable.header_name i = Some h))%bool = true) by by destruct p.
  apply andb_true_iff in Ha' as [Ha' Hb]. apply bool_decide_eq_true in Hb. zbool. done.
Qed.

(** * The combined index space *)

(** The field is not in the static table and only its name is in the dynamic
    table. *)
Definition dynamic_name_only (d : DynamicTable.t) (h : Header.t) (v : bytes) : bool :=
  match StaticTable.index h v, DynamicTable.index d h v with
  | None, Some (TableIndex.HeaderName _) => true
  | _, _ => false
  end.

Lemma search_header_dynamic d i :
  TableSearcher.search_header d (Z.of_nat i + 62) = DynamicTable.queue d !! i.
Proof.
  unfold TableSearcher.search_header, DynamicTable.header.
  destruct (Z.leb_spec (Z.of_nat i + 62) 61); [lia|]. f_equal. lia.
Qed.

Lemma search_header_static d i :
  1 ≤ i ≤ 61 → TableSearcher.search_header d i = StaticTable.header i.
Proof. intros. unfold TableSearcher.search_header. by destruct (Z.leb_spec i 61); [|lia]. Qed.

Lemma search_name_static d i :
  1 ≤ i ≤ 61 → TableSearcher.search_header_name d i = StaticTable.header_name i.
Proof. intros. unfold TableSearcher.search_header_name. by destruct (Z.leb_spec i 61); [|lia]. Qed.

Lemma searcher_header_sound d h v i :
  TableSearcher.index d h v = Some (TableIndex.Header i) →
  dynamic_name_only d h v = false →
  1 ≤ i ∧ TableSearcher.search_header d i = Some (h, v).
Proof.
  unfold TableSearcher.index, dynamic_name_only. pose proof (dynamic_index_spec d h v) as Hd.
  destruct (StaticTable.index h v) as [[j|j]|] eqn:Hs;
    destruct (DynamicTable.index d h v) as [[k|k]|]; simpl in Hd; try done; intros [= <-] _;
    try (apply static_index_header in Hs as [? Hs]; rewrite search_header_static by done; auto with lia);
    destruct Hd as (n & -> & Hn & _); rewrite Z.add_0_l, search_header_dynamic; auto with lia.
Qed.

Lemma searcher_name_sound d h v i :
  TableSearcher.index d h v = Some (TableIndex.HeaderName i) →
  1 ≤ i ∧ TableSearcher.search_header_name d i = Some h.
Proof.
  unfold TableSearcher.index.
  destruct (StaticTable.index h v) as [[j|j]|] eqn:Hs;
    destruct (DynamicTable.index d h v) as [[k|k]|]; try done; intros [= <-];
    apply static_index_name in Hs as [? Hs]; rewrite search_name_static by done; auto with lia.
Qed.

(** The last arm of [TableSearcher::index] answers a whole-field index for a
    name match: it names an entry with the right name and another value. *)
Lemma searcher_name_only d h v :
  dynamic_name_only d h v = true →
  ∃ i v', TableSearcher.index d h v = Some (TableIndex.Header i) ∧
    TableSearcher.search_header d i = Some (h, v') ∧ v' ≠ v.
Proof.
  unfold TableSearcher.index, dynamic_name_only. pose proof (dynamic_index_spec d h v) as Hd.
  destruct (StaticTable.index h v) as [[j|j]|]; [done..|].
  destruct (DynamicTable.index d h v) as [[k|k]|]; simpl in Hd; [done| |done]. intros _.
  destruct Hd as (n & -> & Hn & _ & Hq). unfold names in Hn.
  rewrite list_lookup_fmap in Hn. apply fmap_Some in Hn as ([h' v'] & Hn & ->).
  exists (0 + Z.of_nat n + 62), v'. split; [done|]. rewrite Z.add_0_l, search_header_dynamic.
  split; [done|]. intros ->. apply Hq. by apply list_elem_of_lookup_2 with n.
Qed.

Lemma searcher_none d h v : TableSearcher.index d h v = None →
  StaticTable.index h v = None ∧ h ∉ names (DynamicTable.queue d).
Proof.
  unfold TableSearcher.index. pose proof (dynamic_index_spec d h v) as Hd.
  destruct (StaticTable.index h v) as [[j|j]|];
    destruct (DynamicTable.index d h v) as [[k|k]|]; done.
Qed.

(** * Theorems *)

(** Inserting fields one after the other leaves in the dynamic table the
    newest fields and old entries that fit the limit, the newest first, and
    keeps the size accounting exact: evicted entries are a suffix. *)
Theorem dynamic_table_insert d l :
  table_ok d →
  let d' := foldl (λ d e, DynamicTable.update d e.1 e.2) d l in
  table_ok d' ∧ DynamicTable.max_size d' = DynamicTable.max_size d ∧
  DynamicTable.queue d' = fit_prefix (DynamicTable.max_size d) (rev l ++ DynamicTable.queue d).
Proof.
  intros Hd d'. split; [|split; [|by apply updates_queue]].
  - subst d'. revert d Hd. induction l as [|e l IH]; intros d Hd; [done|]. apply IH.
    by apply update_ok.
  - subst d'. revert d Hd. induction l as [|e l IH]; intros d Hd; [done|]. simpl.
    rewrite IH by by apply update_ok. by apply update_max_size.
Qed.

Lemma dynamic_table_insert_witness :
  DynamicTable.queue
    (foldl (λ d e, DynamicTable.update d e.1 e.2) (DynamicTable.with_max_size 80)
      [(Header.Path, str "/a"); (Header.Method, str "PUT"); (Header.Other (str "x"), str "y")]) =
    [(Header.Other (str "x"), str "y"); (Header.Method, str "PUT")].
Proof.
  apply (dynamic_table_insert (DynamicTable.with_max_size 80)
    [(Header.Path, str "/a"); (Header.Method, str "PUT"); (Header.Other (str "x"), str "y")]).
  apply with_max_size_ok. lia.
Defined.

(** A size update keeps the entries, newest first, that fit the new limit,
    and the size accounting exact. *)
Theorem dynamic_table_resize d m :
  table_ok d → 0 ≤ m →
  table_ok (DynamicTable.update_size d m) ∧
  DynamicTable.max_size (DynamicTable.update_size d m) = m ∧
  DynamicTable.queue (DynamicTable.update_size d m) = fit_prefix m (DynamicTable.queue d).
Proof. intros Hd Hm. split; [by apply update_size_ok|]. by rewrite update_size_spec. Qed.

Lemma dynamic_table_resize_witness :
  DynamicTable.queue (DynamicTable.update_size
    (DynamicTable.mk [(Header.Path, str "/a"); (Header.Method, str "PUT")] 81 100) 40) =
    [(Header.Path, str "/a")].
Proof.
  apply (dynamic_table_resize
    (DynamicTable.mk [(Header.Path, str "/a"); (Header.Method, str "PUT")] 81 100) 40).
  - by split.
  - lia.
Defined.

(** The searcher's answers are right: a whole-field index names the field
    itself (unless the last arm of [index] answered), a name index names an
    entry with that name, and no answer means that no table has the name. *)
Theorem table_search_sound d h v :
  match TableSearcher.index d h v with
  | Some (TableIndex.Header i) =>
      dynamic_name_only d h v = false → 1 ≤ i ∧ TableSearcher.search_header d i = Some (h, v)
  | Some (TableIndex.HeaderName i) => 1 ≤ i ∧ TableSearcher.search_header_name d i = Some h
  | None => StaticTable.index h v = None ∧ h ∉ names (DynamicTable.queue d)
  end.
Proof.
  destruct (TableSearcher.index d h v) as [[i|i]|] eqn:Hi.
  - by apply searcher_header_sound.
  - by eapply searcher_name_sound.
  - by apply searcher_none.
Qed.

Lemma table_search_sound_witness :
  1 ≤ 2 ∧ TableSearcher.search_header (DynamicTable.with_max_size 0) 2 =
    Some (Header.Method, str "GET").
Proof.
  apply (table_search_sound (DynamicTable.with_max_size 0) Header.Method (str "GET")). reflexivity.
Defined.

(** The last arm of [TableSearcher::index] answers a whole-field index for a
    field whose name alone is in the dynamic table: the index names an entry
    with the same name and another value, which is what the peer will read. *)
Theorem table_search_name_only d h v :
  dynamic_name_only d h v = true →
  ∃ i v', TableSearcher.index d h v = Some (TableIndex.Header i) ∧
    TableSearcher.search_header d i = Some (h, v') ∧ v' ≠ v.
Proof. apply searcher_name_only. Qed.

Lemma table_search_name_only_witness :
  ∃ i v', TableSearcher.index
      (DynamicTable.update (DynamicTable.with_max_size 100) (Header.Other (str "x-id")) (str "1"))
      (Header.Other (str "x-id")) (str "2") = Some (TableIndex.Header i) ∧
    TableSearcher.search_header
      (DynamicTable.update (DynamicTable.with_max_size 100) (Header.Other (str "x-id")) (str "1")) i =
      Some (Header.Other (str "x-id"), v') ∧ v' ≠ str "2".
Proof. apply table_search_name_only. vm_compute. reflexivity. Defined.
