(* ===== verification/Headers.v ===== *)
(** HTTP header fields ([ylong_http/src/headers.rs] and
    [ylong_http/src/util/header_bytes.rs]): the normalisation of names through
    [HEADER_CHARS], field values as lists of sub-values, and the [Headers] map.
    The [HashMap] is a [gmap] from normalised names.  The theorems: a lookup is
    case-insensitive and sees what was inserted or appended, values join with
    commas, and what the two character tables accept. *)
From S2P Require Import Prelude.

Inductive HttpError := InvalidInput.

Definition HEADER_CHARS : list Z := [
  0; 0; 0; 0; 0; 0; 0; 0; 0; 0; 0; 0; 0; 0; 0; 0;
  0; 0; 0; 0; 0; 0; 0; 0; 0; 0; 0; 0; 0; 0; 0; 0;
  32; 33; 34; 35; 36; 37; 38; 39; 0; 0; 42; 43; 44; 45; 46; 47;
  48; 49; 50; 51; 52; 53; 54; 55; 56; 57; 0; 0; 0; 0; 0; 0;
  0; 97; 98; 99; 100; 101; 102; 103; 104; 105; 106; 107; 108; 109; 110; 111;
  112; 113; 114; 115; 116; 117; 118; 119; 120; 121; 122; 0; 0; 0; 94; 95;
  96; 97; 98; 99; 100; 101; 102; 103; 104; 105; 106; 107; 108; 109; 110; 111;
  112; 113; 114; 115; 116; 117; 118; 119; 120; 121; 122; 0; 124; 0; 126; 0;
  0; 0; 0; 0; 0; 0; 0; 0; 0; 0; 0; 0; 0; 0; 0; 0;
  0; 0; 0; 0; 0; 0; 0; 0; 0; 0; 0; 0; 0; 0; 0; 0;
  0; 0; 0; 0; 0; 0; 0; 0; 0; 0; 0; 0; 0; 0; 0; 0;
  0; 0; 0; 0; 0; 0; 0; 0; 0; 0; 0; 0; 0; 0; 0; 0;
  0; 0; 0; 0; 0; 0; 0; 0; 0; 0; 0; 0; 0; 0; 0; 0;
  0; 0; 0; 0; 0; 0; 0; 0; 0; 0; 0; 0; 0; 0; 0; 0;
  0; 0; 0; 0; 0; 0; 0; 0; 0; 0; 0; 0; 0; 0; 0; 0;
  0; 0; 0; 0; 0; 0; 0; 0; 0; 0; 0; 0; 0; 0; 0; 0].

Definition HEADER_NAME_BYTES : list bool :=
  let __ := false in let TT := true in [
  __; __; __; __; __; __; __; __; __; __; __; __; __; __; __; __;
  __; __; __; __; __; __; __; __; __; __; __; __; __; __; __; __;
  __; TT; __; TT; TT; TT; TT; TT; __; __; TT; TT; __; TT; TT; __;
  TT; TT; TT; TT; TT; TT; TT; TT; TT; TT; __; __; __; __; __; __;
  __; TT; TT; TT; TT; TT; TT; TT; TT; TT; TT; TT; TT; TT; TT; TT;
  TT; TT; TT; TT; TT; TT; TT; TT; TT; TT; TT; __; __; __; TT; TT;
  TT; TT; TT; TT; TT; TT; TT; TT; TT; TT; TT; TT; TT; TT; TT; TT;
  TT; TT; TT; TT; TT; TT; TT; TT; TT; TT; TT; __; TT; __; TT; __;
  __; __; __; __; __; __; __; __; __; __; __; __; __; __; __; __;
  __; __; __; __; __; __; __; __; __; __; __; __; __; __; __; __;
  __; __; __; __; __; __; __; __; __; __; __; __; __; __; __; __;
  __; __; __; __; __; __; __; __; __; __; __; __; __; __; __; __;
  __; __; __; __; __; __; __; __; __; __; __; __; __; __; __; __;
  __; __; __; __; __; __; __; __; __; __; __; __; __; __; __; __;
  __; __; __; __; __; __; __; __; __; __; __; __; __; __; __; __;
  __; __; __; __; __; __; __; __; __; __; __; __; __; __; __; __].

Definition HEADER_VALUE_BYTES : list bool :=
  let __ := false in let TT := true in [
  __; __; __; __; __; __; __; __; __; TT; __; __; __; __; __; __;
  __; __; __; __; __; __; __; __; __; __; __; __; __; __; __; __;
  TT; TT; TT; TT; TT; TT; TT; TT; TT; TT; TT; TT; TT; TT; TT; TT;
  TT; TT; TT; TT; TT; TT; TT; TT; TT; TT; TT; TT; TT; TT; TT; TT;
  TT; TT; TT; TT; TT; TT; TT; TT; TT; TT; TT; TT; TT; TT; TT; TT;
  TT; TT; TT; TT; TT; TT; TT; TT; TT; TT; TT; TT; TT; TT; TT; TT;
  TT; TT; TT; TT; TT; TT; TT; TT; TT; TT; TT; TT; TT; TT; TT; TT;
  TT; TT; TT; TT; TT; TT; TT; TT; TT; TT; TT; TT; TT; TT; TT; __;
  TT; TT; TT; TT; TT; TT; TT; TT; TT; TT; TT; TT; TT; TT; TT; TT;
  TT; TT; TT; TT; TT; TT; TT; TT; TT; TT; TT; TT; TT; TT; TT; TT;
  TT; TT; TT; TT; TT; TT; TT; TT; TT; TT; TT; TT; TT; TT; TT; TT;
  TT; TT; TT; TT; TT; TT; TT; TT; TT; TT; TT; TT; TT; TT; TT; TT;
  TT; TT; TT; TT; TT; TT; TT; TT; TT; TT; TT; TT; TT; TT; TT; TT;
  TT; TT; TT; TT; TT; TT; TT; TT; TT; TT; TT; TT; TT; TT; TT; TT;
  TT; TT; TT; TT; TT; TT; TT; TT; TT; TT; TT; TT; TT; TT; TT; TT;
  TT; TT; TT; TT; TT; TT; TT; TT; TT; TT; TT; TT; TT; TT; TT; TT].

Module HeaderName.
(** [struct HeaderName { name: String }]. *)
Abbreviation t := bytes.

Definition normalize_byte (b : Z) : Z := default 0 (HEADER_CHARS !! Z.to_nat b).

(** The loop of [normalize]; [dst] is the output so far. *)
Fixpoint normalize_loop (input dst : bytes) : res HttpError bytes :=
  match input with
  | [] => Ok dst
  | b :: input =>
      let b := normalize_byte b in
      if b =? 0 then Err InvalidInput else normalize_loop input (dst ++ [b])
  end.

Definition normalize (input : bytes) : res HttpError bytes := normalize_loop input [].

Definition from_bytes (b : bytes) : res HttpError t := normalize b.

(** [u8::make_ascii_lowercase]. *)
Definition to_ascii_lowercase (b : Z) : Z := if (65 <=? b) && (b <=? 90) then b + 32 else b.

Definition from_validated_h1_name (b : bytes) : t := to_ascii_lowercase <$> b.
End HeaderName.

Module HeaderValue.
Record t := mk { inner : list bytes; is_sensitive : bool }.

Definition is_valid (b : Z) : bool := (32 <=? b) && negb (b =? 127) || (b =? 9).

Definition from_bytes (b : bytes) : res HttpError t :=
  if negb (forallb is_valid b) then Err InvalidInput else Ok (mk [b] false).

Definition append (v other : t) : t := mk (inner v ++ inner other) (is_sensitive v).

Definition append_bytes (v : t) (b : bytes) : res HttpError t :=
  if negb (forallb is_valid b) then Err InvalidInput
  else Ok (mk (inner v ++ [b]) (is_sensitive v)).

(** The loop shared by [to_string] and [to_vec], [n] the position. *)
Fixpoint join_loop (n : Z) (content : bytes) (l : list bytes) : bytes :=
  match l with
  | [] => content
  | i :: l =>
      let content := if negb (n =? 0) then content ++ str ", " else content in
      join_loop (n + 1) (content ++ i) l
  end.

Definition to_string (v : t) : res HttpError bytes := Ok (join_loop 0 [] (inner v)).
Definition to_vec (v : t) : bytes := join_loop 0 [] (inner v).

Definition from_validated_h1_value (b : bytes) : t := mk [b] false.

Definition set_sensitive (v : t) (b : bool) : t := mk (inner v) b.
End HeaderValue.

Module Headers.
(** [struct Headers { map: HashMap<HeaderName, HeaderValue> }]. *)
Record t := mk { map : gmap bytes HeaderValue.t }.

Definition new : t := mk ∅.
Definition hlen (h : t) : Z := Z.of_nat (size (map h)).
Definition is_empty (h : t) : bool := bool_decide (map h = ∅).

Definition get (h : t) (name : bytes) : option HeaderValue.t :=
  match HeaderName.from_bytes name with
  | Ok name => map h !! name
  | _ => None
  end.

Definition get_lowercase (h : t) (name : bytes) : option HeaderValue.t := map h !! name.

Definition insert (h : t) (name value : bytes) : res HttpError (option HeaderValue.t * t) :=
  name ← HeaderName.from_bytes name;
  value ← HeaderValue.from_bytes value;
  Ok (map h !! name, mk (<[name := value]> (map h))).

(** The [match self.map.entry(name)] of the two append operations. *)
Definition append_entry (h : t) (name : bytes) (value : HeaderValue.t) : t :=
  match map h !! name with
  | Some o => mk (<[name := HeaderValue.append o value]> (map h))
  | None => mk (<[name := value]> (map h))
  end.

Definition append (h : t) (name value : bytes) : res HttpError t :=
  name ← HeaderName.from_bytes name;
  value ← HeaderValue.from_bytes value;
  Ok (append_entry h name value).

Definition append_validated_h1 (h : t) (name value : bytes) : t :=
  append_entry h (HeaderName.from_validated_h1_name name)
    (HeaderValue.from_validated_h1_value value).

Definition remove (h : t) (name : bytes) : option HeaderValue.t * t :=
  match HeaderName.from_bytes name with
  | Ok name => (map h !! name, mk (delete name (map h)))
  | _ => (None, h)
  end.
End Headers.

(** * Names *)

Definition name_ok (b : bytes) : Prop := Forall (λ x, HeaderName.normalize_byte x ≠ 0) b.

Lemma normalize_loop_ok b dst :
  name_ok b → HeaderName.normalize_loop b dst = Ok (dst ++ (HeaderName.normalize_byte <$> b)).
Proof.
  intros Hb. revert dst. induction Hb as [|x b Hx Hb IH]; intros dst; simpl.
  - by rewrite app_nil_r.
  - destruct (Z.eqb_spec (HeaderName.normalize_byte x) 0); [done|]. rewrite IH.
    by rewrite <- app_assoc.
Qed.

Lemma normalize_loop_err b dst :
  ¬ name_ok b → HeaderName.normalize_loop b dst = Err InvalidInput.
Proof.
  unfold name_ok. revert dst. induction b as [|x b IH]; intros dst Hb; simpl.
  - destruct Hb. constructor.
  - destruct (Z.eqb_spec (HeaderName.normalize_byte x) 0); [done|]. apply IH.
    intros H. apply Hb. by constructor.
Qed.

#[export] Instance name_ok_dec b : Decision (name_ok b).
Proof. unfold name_ok. apply _. Defined.

Lemma from_bytes_spec b :
  HeaderName.from_bytes b =
    if decide (name_ok b) then Ok (HeaderName.normalize_byte <$> b) else Err InvalidInput.
Proof.
  unfold HeaderName.from_bytes, HeaderName.normalize. case_decide.
  - by rewrite normalize_loop_ok.
  - by apply normalize_loop_err.
Qed.

Definition byte_case_ok (b : Z) : bool :=
  let n := HeaderName.normalize_byte b in
  (n =? 0) || ((n =? HeaderName.to_ascii_lowercase b) && (HeaderName.normalize_byte n =? n)
    && (n <? 128) && is_u8b n).

Lemma normalize_byte_ok b : is_u8 b → HeaderName.normalize_byte b ≠ 0 →
  HeaderName.normalize_byte b = HeaderName.to_ascii_lowercase b ∧
  HeaderName.normalize_byte (HeaderName.normalize_byte b) = HeaderName.normalize_byte b.
Proof.
  intros Hb Hn. pose proof (forall_octets byte_case_ok b ltac:(vm_compute; reflexivity) Hb) as H.
  unfold byte_case_ok in H. apply orb_true_iff in H as [H|H]; zbool; [done|]. auto.
Qed.

Definition byte_lower_ok (b : Z) : bool :=
  HeaderName.normalize_byte (HeaderName.to_ascii_lowercase b) =? HeaderName.normalize_byte b.

Lemma normalize_byte_lower b : is_u8 b →
  HeaderName.normalize_byte (HeaderName.to_ascii_lowercase b) = HeaderName.normalize_byte b.
Proof.
  intros Hb. pose proof (forall_octets byte_lower_ok b ltac:(vm_compute; reflexivity) Hb) as H.
  unfold byte_lower_ok in H. by zbool.
Qed.

(** Two spellings of a name that differ in case only. *)
Definition same_name (a b : bytes) : Prop :=
  HeaderName.to_ascii_lowercase <$> a = HeaderName.to_ascii_lowercase <$> b.

Lemma same_name_normalize a b :
  bytes_ok a → bytes_ok b → same_name a b →
  HeaderName.normalize_byte <$> a = HeaderName.normalize_byte <$> b.
Proof.
  unfold same_name. intros Ha. revert b. induction Ha as [|x a Hx Ha IH]; intros [|y b] Hb Heq;
    simplify_eq/=; [done|]. inversion_clear Hb as [|? ? Hy Hb']. f_equal; [|auto].
  rewrite <- (normalize_byte_lower x), <- (normalize_byte_lower y) by done. congruence.
Qed.

Lemma name_ok_normalize a : name_ok a ↔ Forall (λ x, x ≠ 0) (HeaderName.normalize_byte <$> a).
Proof. unfold name_ok. by rewrite Forall_fmap. Qed.

Lemma same_name_from_bytes a b :
  bytes_ok a → bytes_ok b → same_name a b →
  HeaderName.from_bytes a = HeaderName.from_bytes b.
Proof.
  intros Ha Hb Hs%same_name_normalize; [|done..]. rewrite !from_bytes_spec.
  destruct (decide (name_ok a)) as [H1|H1], (decide (name_ok b)) as [H2|H2];
    rewrite name_ok_normalize in H1, H2; rewrite Hs in *; done.
Qed.

Lemma normalized_lower a : bytes_ok a → name_ok a →
  HeaderName.normalize_byte <$> a = HeaderName.to_ascii_lowercase <$> a.
Proof.
  intros Ha Hn. apply list_fmap_ext. intros i x Hx.
  rewrite Forall_lookup in Ha. unfold name_ok in Hn. rewrite Forall_lookup in Hn.
  by apply normalize_byte_ok; eauto.
Qed.

(** * Values *)

Lemma join_loop_pos n c l :
  0 < n → HeaderValue.join_loop n c l = c ++ (l ≫= λ i, str ", " ++ i).
Proof.
  revert n c. induction l as [|i l IH]; intros n c Hn; simpl; [by rewrite app_nil_r|].
  destruct (Z.eqb_spec n 0); [lia|]. simpl. rewrite IH by lia. by rewrite <- !app_assoc.
Qed.

Lemma to_vec_spec v :
  HeaderValue.to_vec v =
    match HeaderValue.inner v with
    | [] => []
    | i :: l => i ++ (l ≫= λ i, str ", " ++ i)
    end.
Proof.
  unfold HeaderValue.to_vec. destruct (HeaderValue.inner v) as [|i l]; [done|]. simpl.
  by rewrite join_loop_pos by lia.
Qed.

Lemma to_vec_append v w :
  HeaderValue.inner v ≠ [] → HeaderValue.inner w ≠ [] →
  HeaderValue.to_vec (HeaderValue.append v w) =
    HeaderValue.to_vec v ++ str ", " ++ HeaderValue.to_vec w.
Proof.
  intros Hv Hw. rewrite !to_vec_spec. simpl.
  destruct (HeaderValue.inner v) as [|i l]; [done|].
  destruct (HeaderValue.inner w) as [|j k]; [done|]. simpl.
  rewrite bind_app. simpl. by rewrite <- !app_assoc.
Qed.

Definition value_ok (v : bytes) : Prop := Forall (λ b, HeaderValue.is_valid b = true) v.

Lemma value_from_bytes_spec v :
  HeaderValue.from_bytes v =
    if decide (value_ok v) then Ok (HeaderValue.mk [v] false) else Err InvalidInput.
Proof.
  unfold HeaderValue.from_bytes, value_ok. case_decide as H.
  - rewrite (proj2 (forallb_forall _ v)); [done|]. by apply List.Forall_forall.
  - destruct (forallb HeaderValue.is_valid v) eqn:Hv; [|done]. destruct H.
    by apply List.Forall_forall, forallb_forall.
Qed.

(** * The map *)

Lemma append_entry_lookup h n v :
  Headers.map (Headers.append_entry h n v) !! n =
    Some (match Headers.map h !! n with Some o => HeaderValue.append o v | None => v end).
Proof.
  unfold Headers.append_entry. destruct (Headers.map h !! n); simpl; apply lookup_insert_eq.
Qed.

Lemma append_entry_lookup_ne h n n' v :
  n ≠ n' → Headers.map (Headers.append_entry h n v) !! n' = Headers.map h !! n'.
Proof.
  intros. unfold Headers.append_entry.
  destruct (Headers.map h !! n); simpl; by apply lookup_insert_ne.
Qed.

Lemma append_spec h n v :
  Headers.append h n v =
    if decide (name_ok n ∧ value_ok v) then
      Ok (Headers.append_entry h (HeaderName.normalize_byte <$> n) (HeaderValue.mk [v] false))
    else Err InvalidInput.
Proof.
  unfold Headers.append. rewrite from_bytes_spec, value_from_bytes_spec.
  destruct (decide (name_ok n)); simpl.
  - destruct (decide (value_ok v)); simpl;
      destruct (decide (name_ok n ∧ value_ok v)); tauto.
  - destruct (decide (name_ok n ∧ value_ok v)); tauto.
Qed.

Lemma from_bytes_same_name a b n :
  bytes_ok a → bytes_ok b → HeaderName.from_bytes a = Ok n → HeaderName.from_bytes b = Ok n →
  same_name a b.
Proof.
  rewrite !from_bytes_spec. intros Ha Hb.
  destruct (decide (name_ok a)); [|done]. destruct (decide (name_ok b)); [|done].
  intros Hn Hm. unfold same_name. rewrite <- !normalized_lower by done. congruence.
Qed.

(** * Theorems *)

(** A field appended under a name is found under every spelling of that
    name, after the values it already had; other names keep their values; a
    malformed name or value is refused. *)
Theorem headers_append_get h n v :
  bytes_ok n →
  match Headers.append h n v with
  | Ok h' =>
      name_ok n ∧ value_ok v ∧
      ∀ m, bytes_ok m →
        (same_name n m → Headers.get h' m = Some
          (match Headers.get h n with
           | Some o => HeaderValue.append o (HeaderValue.mk [v] false)
           | None => HeaderValue.mk [v] false
           end)) ∧
        (¬ same_name n m → Headers.get h' m = Headers.get h m)
  | Err _ => ¬ (name_ok n ∧ value_ok v)
  | Panic => False
  end.
Proof.
  intros Hn. rewrite append_spec. destruct (decide (name_ok n ∧ value_ok v)) as [[H1 H2]|]; [|done].
  split; [done|]. split; [done|]. intros m Hm. unfold Headers.get.
  assert (Hnn : HeaderName.from_bytes n = Ok (HeaderName.normalize_byte <$> n))
    by by rewrite from_bytes_spec, decide_True. rewrite Hnn. split.
  - intros Hs. rewrite <- (same_name_from_bytes n m), Hnn by done. by rewrite append_entry_lookup.
  - intros Hs. destruct (HeaderName.from_bytes m) as [x|x|] eqn:Hx; [|done..].
    apply append_entry_lookup_ne. intros <-. apply Hs. by eapply from_bytes_same_name.
Qed.

Lemma headers_append_get_witness :
  Headers.get (Headers.mk {[ str "accept" := HeaderValue.mk [str "a"; str "b"] false ]}) (str "ACCEPT") =
    Some (HeaderValue.mk [str "a"; str "b"] false).
Proof.
  assert (Hn : bytes_ok (str "Accept")) by (repeat constructor; done).
  pose proof (headers_append_get (Headers.mk {[ str "accept" := HeaderValue.mk [str "a"] false ]})
    (str "Accept") (str "b") Hn) as H.
  vm_compute in H. destruct H as (_ & _ & H). apply (H (str "ACCEPT")); [|reflexivity].
  repeat constructor; done.
Defined.

(** The octets [HEADER_CHARS] accepts in a name. *)
Definition name_byte_ok (b : Z) : bool := negb (HeaderName.normalize_byte b =? 0).
Definition tchar (b : Z) : bool := default false (HEADER_NAME_BYTES !! Z.to_nat b).
Definition extra_name_bytes : list Z := [32; 34; 44; 47].

(** The octets [HeaderName::from_bytes] accepts are the token characters of
    [HEADER_NAME_BYTES] and four more: space, double quote, comma and slash. *)
Theorem header_name_octets b :
  is_u8 b →
  name_byte_ok b = true ↔ tchar b = true ∨ b ∈ extra_name_bytes.
Proof.
  intros Hb. assert (Hall : forallb (λ b, bool_decide
    (name_byte_ok b = tchar b || bool_decide (b ∈ extra_name_bytes))) octets = true)
    by (vm_compute; reflexivity).
  pose proof (forall_octets _ b Hall Hb) as H. apply bool_decide_eq_true in H. rewrite H.
  by rewrite orb_true_iff, bool_decide_eq_true.
Qed.

Lemma header_name_octets_witness : name_byte_ok 32 = true.
Proof.
  apply (header_name_octets 32); [unfold is_u8; lia|]. right. left.
Defined.
