(* ===== verification/Parts.v ===== *)
(** Pseudo headers ([ylong_http/src/pseudo.rs]) and the contents of a HEADERS
    payload ([ylong_http/src/h2/parts.rs]). *)
From S2P Require Import Prelude Headers HpackTable.

Module PseudoHeaders.
Record t := mk {
  authority : option bytes;
  method : option bytes;
  path : option bytes;
  scheme : option bytes;
  status : option bytes;
}.

#[global] Instance pseudo_eq_dec : EqDecision t.
Proof. solve_decision. Defined.

Definition new : t := mk None None None None None.

Definition is_none {A} (o : option A) : bool := match o with None => true | Some _ => false end.

Definition is_empty (p : t) : bool :=
  is_none (authority p) && is_none (method p) && is_none (path p) && is_none (scheme p)
  && is_none (status p).

Definition set_authority (p : t) (v : option bytes) : t :=
  mk v (method p) (path p) (scheme p) (status p).
Definition set_method (p : t) (v : option bytes) : t :=
  mk (authority p) v (path p) (scheme p) (status p).
Definition set_path (p : t) (v : option bytes) : t :=
  mk (authority p) (method p) v (scheme p) (status p).
Definition set_scheme (p : t) (v : option bytes) : t :=
  mk (authority p) (method p) (path p) v (status p).
Definition set_status (p : t) (v : option bytes) : t :=
  mk (authority p) (method p) (path p) (scheme p) v.

Definition take_authority (p : t) : option bytes * t := (authority p, set_authority p None).
Definition take_method (p : t) : option bytes * t := (method p, set_method p None).
Definition take_path (p : t) : option bytes * t := (path p, set_path p None).
Definition take_scheme (p : t) : option bytes * t := (scheme p, set_scheme p None).
Definition take_status (p : t) : option bytes * t := (status p, set_status p None).
End PseudoHeaders.

Module Parts.
Record t := mk { pseudo : PseudoHeaders.t; map : Headers.t }.

Definition new : t := mk PseudoHeaders.new Headers.new.

Definition set_pseudo (p : t) (ps : PseudoHeaders.t) : t := mk ps (map p).
Definition set_header_lines (p : t) (h : Headers.t) : t := mk (pseudo p) h.
Definition is_empty (p : t) : bool :=
  PseudoHeaders.is_empty (pseudo p) && Headers.is_empty (map p).

(** [Parts::update]; the [unwrap] on [Headers::append] panics on a field that
    is not well formed. *)
Definition update {E} (p : t) (h : Header.t) (value : bytes) : res E t :=
  match h with
  | Header.Authority => Ok (set_pseudo p (PseudoHeaders.set_authority (pseudo p) (Some value)))
  | Header.Method => Ok (set_pseudo p (PseudoHeaders.set_method (pseudo p) (Some value)))
  | Header.Path => Ok (set_pseudo p (PseudoHeaders.set_path (pseudo p) (Some value)))
  | Header.Scheme => Ok (set_pseudo p (PseudoHeaders.set_scheme (pseudo p) (Some value)))
  | Header.Status => Ok (set_pseudo p (PseudoHeaders.set_status (pseudo p) (Some value)))
  | Header.Other header =>
      match Headers.append (map p) header value with
      | Ok m => Ok (mk (pseudo p) m)
      | _ => Panic
      end
  end.
End Parts.

(** The fields [update] accepts. *)
Definition field_ok (f : Header.t * bytes) : Prop :=
  match f.1 with
  | Header.Other n => name_ok n ∧ value_ok f.2
  | _ => True
  end.

#[export] Instance field_ok_dec f : Decision (field_ok f).
Proof. unfold field_ok, value_ok. destruct f.1; apply _. Defined.

Lemma parts_update_ok {E} p f : field_ok f → ∃ p', Parts.update (E := E) p f.1 f.2 = Ok p'.
Proof.
  destruct f as [[| | | | |n] v]; simpl; intros Hf; try by eexists.
  rewrite append_spec. destruct (decide (name_ok n ∧ value_ok v)); [by eexists|done].
Qed.

Lemma parts_update_panic {E} p f : ¬ field_ok f → Parts.update (E := E) p f.1 f.2 = Panic.
Proof.
  destruct f as [[| | | | |n] v]; unfold field_ok; simpl; intros Hf; try tauto.
  rewrite append_spec. destruct (decide (name_ok n ∧ value_ok v)); tauto.
Qed.

(** [update] for each field of a list, as the HPACK decoder does. *)
Fixpoint updates {E} (p : Parts.t) (l : list (Header.t * bytes)) : res E Parts.t :=
  match l with
  | [] => Ok p
  | f :: l => p ← Parts.update p f.1 f.2; updates p l
  end.

Lemma updates_ok {E} p l : Forall field_ok l → ∃ p', updates (E := E) p l = Ok p'.
Proof.
  intros Hl. revert p. induction Hl as [|f l Hf Hl IH]; intros p; simpl; [by eexists|].
  destruct (parts_update_ok (E := E) p f Hf) as [p' ->]. apply IH.
Qed.
