(* ===== verification/HpackRepr.v ===== *)
(** HPACK representations: the data of
    [ylong_http/src/h2/hpack/representation/mod.rs]. *)
From S2P Require Import Prelude.

(** [Name]: a reference to a table entry or the octets of the name. *)
Inductive Name := Index (i : Z) | Literal (octets : bytes).

Inductive Representation :=
| Indexed (index : Z)
| LiteralWithIndexing (name : Name) (value : bytes)
| LiteralWithoutIndexing (name : Name) (value : bytes)
| LiteralNeverIndexed (name : Name) (value : bytes)
| SizeUpdate (max_size : Z).

#[export] Instance Name_eq_dec : EqDecision Name.
Proof. solve_decision. Defined.
#[export] Instance Representation_eq_dec : EqDecision Representation.
Proof. solve_decision. Defined.

(** [struct PrefixIndexMask(u8)] and its constants. *)
Module PrefixIndexMask.
Abbreviation t := Z (only parsing).
Definition INDEXED : t := 0x7f.
Definition LITERAL_WITH_INDEXING : t := 0x3f.
Definition SIZE_UPDATE : t := 0x1f.
Definition LITERAL_NEVER_INDEXED : t := 0x0f.
Definition LITERAL_WITHOUT_INDEXING : t := 0x0f.
End PrefixIndexMask.

(** [struct PrefixBit(u8)], its constants and operations. *)
Module PrefixBit.
Abbreviation t := Z (only parsing).
Definition INDEXED : t := 0x80.
Definition LITERAL_WITH_INDEXING : t := 0x40.
Definition SIZE_UPDATE : t := 0x20.
Definition LITERAL_NEVER_INDEXED : t := 0x10.
Definition LITERAL_WITHOUT_INDEXING : t := 0x00.

Definition from_u8 (byte : Z) : t :=
  if 0x80 <=? byte then INDEXED
  else if 0x40 <=? byte then LITERAL_WITH_INDEXING
  else if 0x20 <=? byte then SIZE_UPDATE
  else if 0x10 <=? byte then LITERAL_NEVER_INDEXED
  else LITERAL_WITHOUT_INDEXING.

Definition prefix_index_mask (b : t) : PrefixIndexMask.t :=
  match b with
  | 0x80 => PrefixIndexMask.INDEXED
  | 0x40 => PrefixIndexMask.LITERAL_WITH_INDEXING
  | 0x20 => PrefixIndexMask.SIZE_UPDATE
  | 0x10 => PrefixIndexMask.LITERAL_NEVER_INDEXED
  | _ => PrefixIndexMask.LITERAL_WITHOUT_INDEXING
  end.
End PrefixBit.

Module Repr.
Definition prefix_bit (r : Representation) : PrefixBit.t :=
  match r with
  | Indexed _ => PrefixBit.INDEXED
  | LiteralWithIndexing _ _ => PrefixBit.LITERAL_WITH_INDEXING
  | SizeUpdate _ => PrefixBit.SIZE_UPDATE
  | LiteralNeverIndexed _ _ => PrefixBit.LITERAL_NEVER_INDEXED
  | LiteralWithoutIndexing _ _ => PrefixBit.LITERAL_WITHOUT_INDEXING
  end.

Definition prefix_index_mask (r : Representation) : PrefixIndexMask.t :=
  match r with
  | Indexed _ => PrefixIndexMask.INDEXED
  | LiteralWithIndexing _ _ => PrefixIndexMask.LITERAL_WITH_INDEXING
  | SizeUpdate _ => PrefixIndexMask.SIZE_UPDATE
  | LiteralNeverIndexed _ _ => PrefixIndexMask.LITERAL_NEVER_INDEXED
  | LiteralWithoutIndexing _ _ => PrefixIndexMask.LITERAL_WITHOUT_INDEXING
  end.
End Repr.
