(* ===== verification/HpackReprDecoder.v ===== *)
(** The resumable decoder of HPACK representations
    ([ylong_http/src/h2/hpack/representation/decoder.rs]).

    Every state of the state diagram is a constructor and every [decode] method
    a function that takes the buffer and returns the result with the buffer it
    leaves ([buf: &mut &[u8]]).  [resumable] says that a decoder that ran out of
    input continues from the state it returned as if the input had come in one
    piece; it holds of every state of the diagram. *)
From S2P Require Import Prelude H2Error Huffman HpackInteger HpackRepr.

(** [DecResult<D, S>]. *)
Inductive DecResult (D S : Type) :=
| Decoded (d : D)
| NeedMore (s : S)
| DecError (e : H2Error).
Arguments Decoded {D S} d.
Arguments NeedMore {D S} s.
Arguments DecError {D S} e.

(** A [decode] method: the result and the rest of the buffer. *)
Abbreviation dec D S := (DecResult D S * bytes)%type.

Definition compression_error : H2Error := ConnectionError CompressionError.

(** [LiteralString] and its four states. *)
Inductive LiteralString :=
| LengthFirstByte
| LengthTrailingBytes (is_huffman : bool) (length : IntegerDecoder.t)
| AsciiStringBytes (octets : bytes) (length : Z)
| HuffmanStringBytes (huffman : HuffmanDecoder.t) (read length : Z).

Definition ascii_decode (octets : bytes) (length : Z) (buf : bytes) : dec bytes LiteralString :=
  match len buf + len octets ?= length with
  | Lt => (NeedMore (AsciiStringBytes (octets ++ buf) length), from (len buf) buf)
  | _ =>
      let pos := length - len octets in
      (Decoded (octets ++ upto pos buf), from pos buf)
  end.

Definition huffman_string_decode (huffman : HuffmanDecoder.t) (read length : Z) (buf : bytes)
    : dec bytes LiteralString :=
  match len buf + read ?= length with
  | Lt =>
      match HuffmanDecoder.decode buf huffman with
      | Ok huffman =>
          (NeedMore (HuffmanStringBytes huffman (read + len buf) length), from (len buf) buf)
      | _ => (DecError compression_error, buf)
      end
  | _ =>
      let pos := length - read in
      match HuffmanDecoder.decode (upto pos buf) huffman with
      | Ok huffman =>
          match HuffmanDecoder.finish huffman with
          | Ok vec => (Decoded vec, from pos buf)
          | _ => (DecError compression_error, from pos buf)
          end
      | _ => (DecError compression_error, buf)
      end
  end.

(** [HuffmanStringBytes::new(len).decode(buf)] or the ASCII one. *)
Definition string_start (is_huffman : bool) (length : Z) (buf : bytes) : dec bytes LiteralString :=
  if is_huffman then huffman_string_decode HuffmanDecoder.new 0 length buf
  else ascii_decode [] length buf.

(** The [loop] of [LengthTrailingBytes::decode]. *)
Fixpoint length_trailing_decode (is_huffman : bool) (length : IntegerDecoder.t) (buf : bytes)
    : dec bytes LiteralString :=
  match buf with
  | [] => (NeedMore (LengthTrailingBytes is_huffman length), buf)
  | byte :: buf =>
      match IntegerDecoder.next_byte length byte with
      | (Ok None, length) => length_trailing_decode is_huffman length buf
      | (Ok (Some length), _) => string_start is_huffman length buf
      | (Err e, _) => (DecError e, buf)
      | (Panic, _) => (DecError compression_error, buf)
      end
  end.

Definition length_first_decode (buf : bytes) : dec bytes LiteralString :=
  match buf with
  | [] => (NeedMore LengthFirstByte, buf)
  | byte :: buf =>
      let huffman := Z.land byte 0x80 =? 0x80 in
      match IntegerDecoder.first_byte byte 0x7f with
      | inl len => string_start huffman len buf
      | inr int => length_trailing_decode huffman int buf
      end
  end.

Definition literal_decode (s : LiteralString) (buf : bytes) : dec bytes LiteralString :=
  match s with
  | LengthFirstByte => length_first_decode buf
  | LengthTrailingBytes h l => length_trailing_decode h l buf
  | AsciiStringBytes o l => ascii_decode o l buf
  | HuffmanStringBytes h r l => huffman_string_decode h r l buf
  end.

(** [IndexInner] and its two states. *)
Inductive IndexInner :=
| FirstByte
| TrailingBytes (repr : PrefixBit.t) (index : IntegerDecoder.t).

Fixpoint trailing_decode (repr : PrefixBit.t) (index : IntegerDecoder.t) (buf : bytes)
    : dec (PrefixBit.t * Z) IndexInner :=
  match buf with
  | [] => (NeedMore (TrailingBytes repr index), buf)
  | byte :: buf =>
      match IntegerDecoder.next_byte index byte with
      | (Ok None, index) => trailing_decode repr index buf
      | (Ok (Some index), _) => (Decoded (repr, index), buf)
      | (Err e, _) => (DecError e, buf)
      | (Panic, _) => (DecError compression_error, buf)
      end
  end.

Definition first_byte_decode (buf : bytes) : dec (PrefixBit.t * Z) IndexInner :=
  match buf with
  | [] => (NeedMore FirstByte, buf)
  | byte :: buf =>
      let repr := PrefixBit.from_u8 byte in
      let mask := PrefixBit.prefix_index_mask repr in
      match IntegerDecoder.first_byte byte mask with
      | inl idx => (Decoded (repr, idx), buf)
      | inr int => trailing_decode repr int buf
      end
  end.

Definition index_inner_decode (s : IndexInner) (buf : bytes) : dec (PrefixBit.t * Z) IndexInner :=
  match s with
  | FirstByte => first_byte_decode buf
  | TrailingBytes r i => trailing_decode r i buf
  end.

(** [ReprDecodeState]. *)
Inductive ReprDecodeState :=
| IndexState (inner : IndexInner)
| NameString (repr : PrefixBit.t) (inner : LiteralString)
| ValueString (repr : PrefixBit.t) (name : Name) (inner : LiteralString).

Definition value_string_decode (repr : PrefixBit.t) (name : Name) (inner : LiteralString)
    (buf : bytes) : dec Representation ReprDecodeState :=
  match literal_decode inner buf with
  | (Decoded value, buf) =>
      (Decoded
         (if repr =? PrefixBit.LITERAL_WITH_INDEXING then LiteralWithIndexing name value
          else if repr =? PrefixBit.LITERAL_WITHOUT_INDEXING then LiteralWithoutIndexing name value
          else LiteralNeverIndexed name value), buf)
  | (NeedMore inner, buf) => (NeedMore (ValueString repr name inner), buf)
  | (DecError e, buf) => (DecError e, buf)
  end.

Definition name_string_decode (repr : PrefixBit.t) (inner : LiteralString) (buf : bytes)
    : dec Representation ReprDecodeState :=
  match literal_decode inner buf with
  | (Decoded octets, buf) => value_string_decode repr (Literal octets) LengthFirstByte buf
  | (NeedMore inner, buf) => (NeedMore (NameString repr inner), buf)
  | (DecError e, buf) => (DecError e, buf)
  end.

(** The arms of [Index::decode] for a decoded prefix and index. *)
Definition index_arms (d : PrefixBit.t * Z) (buf : bytes) : dec Representation ReprDecodeState :=
  let '(repr, index) := d in
  if (repr =? PrefixBit.INDEXED) && (index =? 0) then (DecError compression_error, buf)
  else if repr =? PrefixBit.INDEXED then (Decoded (Indexed index), buf)
  else if repr =? PrefixBit.SIZE_UPDATE then (Decoded (SizeUpdate index), buf)
  else if index =? 0 then name_string_decode repr LengthFirstByte buf
  else value_string_decode repr (Index index) LengthFirstByte buf.

Definition index_decode (inner : IndexInner) (buf : bytes) : dec Representation ReprDecodeState :=
  match index_inner_decode inner buf with
  | (Decoded d, buf) => index_arms d buf
  | (NeedMore inner, buf) => (NeedMore (IndexState inner), buf)
  | (DecError e, buf) => (DecError e, buf)
  end.

Definition state_decode (s : ReprDecodeState) (buf : bytes) : dec Representation ReprDecodeState :=
  match s with
  | IndexState inner => index_decode inner buf
  | NameString r inner => name_string_decode r inner buf
  | ValueString r n inner => value_string_decode r n inner buf
  end.

(** [ReprDecoder]: the buffer and the state left by the last [decode]. *)
Module ReprDecoder.
Record t := mk { buf : bytes; state : option ReprDecodeState }.

Definition new (buf : bytes) : t := mk buf None.

Definition load (d : t) (holder : option ReprDecodeState) : t * option ReprDecodeState :=
  (mk (buf d) holder, None).

Definition decode (d : t) : res H2Error (option Representation) * t :=
  match buf d with
  | [] => (Ok None, d)
  | _ =>
      match state_decode (default (IndexState FirstByte) (state d)) (buf d) with
      | (NeedMore s, b) => (Ok None, mk b (Some s))
      | (Decoded repr, b) => (Ok (Some repr), mk b None)
      | (DecError e, b) => (Err e, mk b None)
      end
  end.

Definition save (d : t) : option ReprDecodeState := state d.
End ReprDecoder.

(** * Resuming *)

(** After an error the rest of the buffer is not used: [norm] forgets it. *)
Definition norm {D S} (x : dec D S) : dec D S :=
  match x with
  | (DecError e, _) => (DecError e, [])
  | _ => x
  end.

Definition resumes {D S} (g : bytes → dec D S) (f : S → bytes → dec D S) (b1 b2 : bytes) : Prop :=
  match g b1 with
  | (Decoded d, r) => g (b1 ++ b2) = (Decoded d, r ++ b2)
  | (NeedMore s', r) => r = [] ∧ norm (g (b1 ++ b2)) = norm (f s' b2)
  | (DecError e, r) => norm (g (b1 ++ b2)) = (DecError e, [])
  end.

Definition resumable {D S} (f : S → bytes → dec D S) (s : S) : Prop :=
  ∀ b1 b2, resumes (f s) f b1 b2.

Lemma ascii_resumable o l : resumable literal_decode (AsciiStringBytes o l).
Proof.
  intros b1 b2. unfold resumes. simpl. unfold ascii_decode. pose proof (len_nonneg b2).
  rewrite len_app.
  destruct (Z.compare_spec (len b1 + len o) l) as [He|Hl|Hg].
  1,3: destruct (Z.compare_spec (len b1 + len b2 + len o) l); try lia;
       by rewrite upto_app_le, from_app_le by lia.
  split; [by rewrite from_all|]. simpl. unfold ascii_decode. rewrite !len_app.
  replace (len b1 + len b2 + len o) with (len b2 + (len o + len b1)) by lia.
  destruct (Z.compare_spec (len b2 + (len o + len b1)) l) as [He|Hl'|Hg].
  2: by rewrite !from_all, app_assoc by (rewrite ?len_app; lia).
  all: rewrite upto_app_ge, from_app_ge, app_assoc by lia;
    by replace (l - len o - len b1) with (l - (len o + len b1)) by lia.
Qed.

Lemma huffman_resumable h r l : resumable literal_decode (HuffmanStringBytes h r l).
Proof.
  intros b1 b2. unfold resumes. simpl. unfold huffman_string_decode. pose proof (len_nonneg b2).
  rewrite len_app.
  destruct (Z.compare_spec (len b1 + r) l) as [He|Hl|Hg].
  1,3: destruct (Z.compare_spec (len b1 + len b2 + r) l); try lia;
       rewrite upto_app_le, from_app_le by lia;
       destruct (HuffmanDecoder.decode _ h) as [h'| |]; try done;
       by destruct (HuffmanDecoder.finish h').
  assert (Happ : ∀ b, HuffmanDecoder.decode (b1 ++ b) h =
    (d ← HuffmanDecoder.decode b1 h; HuffmanDecoder.decode b d)) by (intros; apply decoder_app).
  destruct (HuffmanDecoder.decode b1 h) as [h'|e|] eqn:Hd; simpl in Happ.
  2,3: destruct (Z.compare_spec (len b1 + len b2 + r) l);
       rewrite ?upto_app_ge, Happ by lia; done.
  split; [by rewrite from_all|]. simpl. unfold huffman_string_decode.
  replace (len b1 + len b2 + r) with (len b2 + (r + len b1)) by lia.
  destruct (Z.compare_spec (len b2 + (r + len b1)) l).
  2: rewrite Happ, !from_all by (rewrite ?len_app; lia);
     replace (r + len b1 + len b2) with (r + (len b1 + len b2)) by lia;
     by destruct (HuffmanDecoder.decode b2 h').
  all: rewrite upto_app_ge, from_app_ge, Happ by lia;
    replace (l - r - len b1) with (l - (r + len b1)) by lia;
    destruct (HuffmanDecoder.decode _ h') as [h''| |]; try done;
    by destruct (HuffmanDecoder.finish h'').
Qed.

Lemma string_start_resumable h l b1 b2 : resumes (string_start h l) literal_decode b1 b2.
Proof.
  destruct h.
  - apply (huffman_resumable HuffmanDecoder.new 0 l b1 b2).
  - apply (ascii_resumable [] l b1 b2).
Qed.

Lemma length_trailing_resumable h d : resumable literal_decode (LengthTrailingBytes h d).
Proof.
  intros b1 b2. unfold resumes. simpl. revert d.
  induction b1 as [|x b1 IH]; intros d; simpl; [done|].
  destruct (IntegerDecoder.next_byte d x) as [[[i|]| |] d']; [|apply IH|done..].
  apply string_start_resumable.
Qed.

Lemma literal_resumable s : resumable literal_decode s.
Proof.
  destruct s as [|h d|o l|h r l]; [|apply length_trailing_resumable|apply ascii_resumable|
    apply huffman_resumable].
  intros [|x b1] b2; unfold resumes; simpl; [done|].
  destruct (IntegerDecoder.first_byte x 0x7f) as [i|d].
  - apply string_start_resumable.
  - apply (length_trailing_resumable _ d b1 b2).
Qed.

Lemma trailing_resumable r d : resumable index_inner_decode (TrailingBytes r d).
Proof.
  intros b1 b2. unfold resumes. simpl. revert d.
  induction b1 as [|x b1 IH]; intros d; simpl; [done|].
  destruct (IntegerDecoder.next_byte d x) as [[[i|]| |] d']; [done|apply IH|done..].
Qed.

Lemma index_inner_resumable s : resumable index_inner_decode s.
Proof.
  destruct s as [|r d]; [|apply trailing_resumable].
  intros [|x b1] b2; unfold resumes; simpl; [done|].
  destruct (IntegerDecoder.first_byte x _) as [i|d]; [done|].
  apply (trailing_resumable _ d b1 b2).
Qed.

(** A [decode] that runs an inner one and continues with what it decoded:
    the shape of the last three states of the diagram. *)
Definition then_decode {D S D' S'} (x : dec D S) (up : S → S') (k : D → bytes → dec D' S')
    : dec D' S' :=
  match x with
  | (Decoded d, b) => k d b
  | (NeedMore s, b) => (NeedMore (up s), b)
  | (DecError e, b) => (DecError e, b)
  end.

Lemma norm_then {D S D' S'} (x y : dec D S) (up : S → S') (k : D → bytes → dec D' S') :
  norm x = norm y → norm (then_decode x up k) = norm (then_decode y up k).
Proof. by destruct x as [[] ?], y as [[] ?]; intros; simplify_eq/=. Qed.

Lemma then_resumes {D S D' S'} (g f : S → bytes → dec D S) (h : S' → bytes → dec D' S')
    s (up : S → S') (k : D → bytes → dec D' S') b1 b2 :
  resumes (g s) f b1 b2 →
  (∀ s b, h (up s) b = then_decode (f s b) up k) →
  (∀ d b, resumes (k d) h b b2) →
  resumes (λ b, then_decode (g s b) up k) h b1 b2.
Proof.
  unfold resumes. intros H Hup Hk. destruct (g s b1) as [[d|s'|e] b]; simpl.
  - rewrite H. apply Hk.
  - destruct H as [-> H]. split; [done|]. rewrite Hup. by apply norm_then.
  - destruct (g s (b1 ++ b2)) as [[] ?]; simplify_eq/=. done.
Qed.

Lemma value_resumable r n s : resumable state_decode (ValueString r n s).
Proof.
  intros b1 b2. eapply (then_resumes literal_decode literal_decode state_decode s (ValueString r n)
    (λ v b, (Decoded _, b))); [apply literal_resumable|done|done].
Qed.

Lemma name_resumable r s : resumable state_decode (NameString r s).
Proof.
  intros b1 b2. apply (then_resumes literal_decode literal_decode state_decode s (NameString r)
    (λ v, value_string_decode r (Literal v) LengthFirstByte)); [apply literal_resumable|done|].
  intros v b. apply (value_resumable r (Literal v) LengthFirstByte b b2).
Qed.

Lemma index_resumable s : resumable state_decode (IndexState s).
Proof.
  intros b1 b2.
  apply (then_resumes index_inner_decode index_inner_decode state_decode s IndexState index_arms);
    [apply index_inner_resumable|done|].
  intros [r i] b. unfold resumes, index_arms.
  destruct ((r =? PrefixBit.INDEXED) && (i =? 0)); [done|].
  destruct (r =? PrefixBit.INDEXED); [done|].
  destruct (r =? PrefixBit.SIZE_UPDATE); [done|]. destruct (i =? 0).
  - apply (name_resumable r LengthFirstByte b b2).
  - apply (value_resumable r (Index i) LengthFirstByte b b2).
Qed.

Lemma state_resumable s : resumable state_decode s.
Proof. destruct s; [apply index_resumable|apply name_resumable|apply value_resumable]. Qed.

(** * Progress *)

(** Every [decode] leaves a suffix of its buffer. *)
Lemma from_suffix {A} n (l : list A) : from n l `suffix_of` l.
Proof. exists (upto n l). by rewrite upto_from. Qed.
#[local] Hint Resolve from_suffix suffix_nil : rust.

Lemma suffix_cons_step {A} (x : A) r l : r `suffix_of` l → r `suffix_of` x :: l.
Proof. intros [p ->]. by exists (x :: p). Qed.

Lemma ascii_suffix o l b : (ascii_decode o l b).2 `suffix_of` b.
Proof. unfold ascii_decode. destruct (_ ?= _); simpl; auto with rust. Qed.

Lemma huffman_suffix h r l b : (huffman_string_decode h r l b).2 `suffix_of` b.
Proof.
  unfold huffman_string_decode.
  destruct (_ ?= _); destruct (HuffmanDecoder.decode _ h); simpl; auto with rust;
    case_match; simpl; auto with rust.
Qed.

Lemma string_start_suffix h l b : (string_start h l b).2 `suffix_of` b.
Proof. destruct h; [apply huffman_suffix|apply ascii_suffix]. Qed.

Lemma length_trailing_suffix h d b : (length_trailing_decode h d b).2 `suffix_of` b.
Proof.
  revert d. induction b as [|x b IH]; intros d; simpl; [done|]. apply suffix_cons_step.
  destruct (IntegerDecoder.next_byte d x) as [[[i|]| |] d']; [|apply IH|done..].
  apply string_start_suffix.
Qed.

Lemma literal_suffix s b : (literal_decode s b).2 `suffix_of` b.
Proof.
  destruct s as [|h d|o l|h r l];
    [|apply length_trailing_suffix|apply ascii_suffix|apply huffman_suffix].
  destruct b as [|x b]; simpl; [done|]. apply suffix_cons_step.
  destruct (IntegerDecoder.first_byte x 0x7f);
    [apply string_start_suffix|apply length_trailing_suffix].
Qed.

Lemma trailing_suffix r d b : (trailing_decode r d b).2 `suffix_of` b.
Proof.
  revert d. induction b as [|x b IH]; intros d; simpl; [done|]. apply suffix_cons_step.
  destruct (IntegerDecoder.next_byte d x) as [[[i|]| |] d']; [done|apply IH|done..].
Qed.

Lemma first_byte_suffix x b : (first_byte_decode (x :: b)).2 `suffix_of` b.
Proof.
  simpl. destruct (IntegerDecoder.first_byte x _); [done|apply trailing_suffix].
Qed.

Lemma then_suffix {D S D' S'} (x : dec D S) (up : S → S') (k : D → bytes → dec D' S') b :
  x.2 `suffix_of` b → (∀ d b, (k d b).2 `suffix_of` b) → (then_decode x up k).2 `suffix_of` b.
Proof. destruct x as [[] ?]; simpl; intros; [etrans; eauto|done..]. Qed.

Lemma value_suffix r n s b : (value_string_decode r n s b).2 `suffix_of` b.
Proof.
  by apply (then_suffix _ (ValueString r n) (λ v b, (Decoded _, b))); [apply literal_suffix|].
Qed.

Lemma name_suffix r s b : (name_string_decode r s b).2 `suffix_of` b.
Proof.
  apply (then_suffix _ (NameString r) (λ v, value_string_decode r (Literal v) LengthFirstByte)).
  - apply literal_suffix.
  - intros. apply value_suffix.
Qed.

Lemma index_arms_suffix d b : (index_arms d b).2 `suffix_of` b.
Proof.
  destruct d as [r i]. unfold index_arms.
  repeat case_match; try done; [apply name_suffix|apply value_suffix].
Qed.

Lemma state_suffix s b : (state_decode s b).2 `suffix_of` b.
Proof.
  destruct s as [s|r s|r n s]; [|apply name_suffix|apply value_suffix].
  apply (then_suffix _ IndexState index_arms); [|apply index_arms_suffix].
  destruct s; [|apply trailing_suffix].
  destruct b; [done|apply suffix_cons_step, first_byte_suffix].
Qed.

(** A fresh [decode] reads at least one byte. *)
Lemma fresh_suffix x b : (state_decode (IndexState FirstByte) (x :: b)).2 `suffix_of` b.
Proof.
  apply (then_suffix _ IndexState index_arms); [apply first_byte_suffix|apply index_arms_suffix].
Qed.

(** * Indices stay in the [usize] range *)

Definition int_wf (d : IntegerDecoder.t) : Prop :=
  is_usize (IntegerDecoder.index d) ∧ 1 ≤ IntegerDecoder.shift d.

Definition inner_wf (s : IndexInner) : Prop :=
  match s with FirstByte => True | TrailingBytes _ d => int_wf d end.

Definition state_wf (s : ReprDecodeState) : Prop :=
  match s with
  | IndexState inner => inner_wf inner
  | NameString _ _ => True
  | ValueString _ (Index i) _ => is_usize i
  | ValueString _ (Literal _) _ => True
  end.

Definition name_wf (n : Name) : Prop := match n with Index i => is_usize i | Literal _ => True end.

Definition repr_wf (r : Representation) : Prop :=
  match r with
  | Indexed i | SizeUpdate i => is_usize i
  | LiteralWithIndexing n _ | LiteralWithoutIndexing n _ | LiteralNeverIndexed n _ => name_wf n
  end.

Definition dec_wf {D S} (P : D → Prop) (Q : S → Prop) (x : dec D S) : Prop :=
  match x.1 with Decoded d => P d | NeedMore s => Q s | DecError _ => True end.

Lemma next_byte_wf d b :
  int_wf d → is_u8 b →
  match IntegerDecoder.next_byte d b with
  | (Ok (Some i), _) => is_usize i
  | (Ok None, d') => int_wf d'
  | _ => True
  end.
Proof.
  intros [Hi Hs] Hb. rewrite next_byte_spec by (destruct Hi; done || lia).
  pose proof (Z.mod_pos_bound b 128 ltac:(lia)).
  pose proof (Z.pow_nonneg 2 (IntegerDecoder.shift d - 1) ltac:(lia)).
  set (v := IntegerDecoder.index d + _).
  destruct (_ && _)%bool eqn:Hc; [|done]. zbool. destruct Hi.
  assert (is_usize v).
  { unfold usize_max, usize_bits in *. split; [subst v; nia|lia]. }
  destruct (b <? 128); [done|]. split; simpl; [done|lia].
Qed.

Lemma trailing_wf r d b :
  int_wf d → bytes_ok b →
  dec_wf (λ x, is_usize x.2) inner_wf (trailing_decode r d b).
Proof.
  intros Hd Hb. revert d Hd. induction Hb as [|x b Hx Hb IH]; intros d Hd; simpl; [done|].
  pose proof (next_byte_wf d x Hd Hx) as Hn.
  destruct (IntegerDecoder.next_byte d x) as [[[i|]| |] d']; [done|by apply IH|done..].
Qed.

Lemma prefix_mask_range b :
  ∃ n, 0 < n < 8 ∧ PrefixBit.prefix_index_mask (PrefixBit.from_u8 b) = Z.ones n.
Proof.
  unfold PrefixBit.from_u8. repeat case_match;
    [exists 7|exists 6|exists 5|exists 4|exists 4]; done.
Qed.

Lemma first_byte_wf b : bytes_ok b →
  dec_wf (λ x, is_usize x.2) inner_wf (first_byte_decode b).
Proof.
  intros Hb. destruct Hb as [|x b Hx Hb]; simpl; [done|].
  set (mask := PrefixBit.prefix_index_mask _).
  assert (Hi : is_usize (Z.land x mask)).
  { destruct (prefix_mask_range x) as (n & Hn & Hm). unfold mask. rewrite Hm, Z.land_ones by lia.
    assert (2 ^ n ≤ 2 ^ 8) by (apply Z.pow_le_mono_r; lia).
    pose proof (Z.mod_pos_bound x (2 ^ n) ltac:(apply Z.pow_pos_nonneg; lia)).
    unfold is_usize. lia. }
  unfold IntegerDecoder.first_byte. destruct (_ ?= _); try done;
    (apply trailing_wf; [split; simpl; [done|lia]|done]).
Qed.

Lemma value_wf r n s b : name_wf n → dec_wf repr_wf state_wf (value_string_decode r n s b).
Proof.
  intros Hn. unfold value_string_decode. destruct (literal_decode s b) as [[v|s'|e] b'];
    unfold dec_wf; simpl; [|by destruct n|done]. by repeat case_match.
Qed.

Lemma name_string_wf r s b : dec_wf repr_wf state_wf (name_string_decode r s b).
Proof.
  unfold name_string_decode. destruct (literal_decode s b) as [[v|s'|e] b']; try done.
  by apply value_wf.
Qed.

Lemma state_decode_wf s b : state_wf s → bytes_ok b → dec_wf repr_wf state_wf (state_decode s b).
Proof.
  intros Hs Hb. destruct s as [s|r s|r n s]; simpl;
    [|apply name_string_wf|apply value_wf; by destruct n].
  unfold index_decode.
  assert (Hi : dec_wf (λ x, is_usize x.2) inner_wf (index_inner_decode s b)).
  { destruct s; [by apply first_byte_wf|by apply trailing_wf]. }
  destruct (index_inner_decode s b) as [[[r i]|s'|e] b']; unfold dec_wf in Hi; simpl in Hi;
    [|done..]. unfold index_arms.
  destruct (_ && _); [done|]. destruct (r =? PrefixBit.INDEXED); [done|].
  destruct (r =? PrefixBit.SIZE_UPDATE); [done|]. destruct (i =? 0).
  - apply name_string_wf.
  - by apply value_wf.
Qed.

(** * Theorems *)

(** Every state of the representation decoder is resumable: given the input
    in two parts it decodes what it decodes from the whole, with the same rest,
    asks for more only after it has used the part up, and fails alike. *)
Theorem representation_resumable s b1 b2 :
  match state_decode s b1 with
  | (Decoded r, rest) => state_decode s (b1 ++ b2) = (Decoded r, rest ++ b2)
  | (NeedMore s', rest) =>
      rest = [] ∧ norm (state_decode s (b1 ++ b2)) = norm (state_decode s' b2)
  | (DecError e, _) => norm (state_decode s (b1 ++ b2)) = (DecError e, [])
  end.
Proof. apply (state_resumable s b1 b2). Qed.
