(* ===== verification/HpackReprEncoder.v ===== *)
(** The resumable encoder of HPACK representations
    ([ylong_http/src/h2/hpack/representation/encoder.rs]).

    An [encode] method that writes to [dst: &mut [u8]] is a function of the
    length of [dst]; it returns the bytes it wrote at the front of [dst] and
    [Ok size], or [Err state] when [dst] was too short.  The interface
    [SegWriter] says what such a method promises: it writes the bytes that are
    pending, as many as fit, and the state it returns has the others pending.
    [ReprEncoder] is proved against that interface. *)
From S2P Require Import Prelude Huffman HpackInteger HpackTable Headers Parts HpackRepr.

(** The outcome of [encode(self, dst) -> Result<usize, S>]. *)
Abbreviation enc S := (bytes * res S Z)%type.

Definition map_err {S S'} (f : S → S') (x : enc S) : enc S' :=
  match x with
  | (w, Ok n) => (w, Ok n)
  | (w, Err s) => (w, Err (f s))
  | (w, Panic) => (w, Panic)
  end.

(** What an [encode] method promises. *)
Class SegWriter (S : Type) := {
  w_encode : S → Z → enc S;
  w_ok : S → Prop;
  pending : S → bytes;
  w_spec : ∀ s dst_len, w_ok s → 0 ≤ dst_len →
    match w_encode s dst_len with
    | (w, Ok n) => w = pending s ∧ n = len w ∧ n ≤ dst_len
    | (w, Err s') =>
        w_ok s' ∧ pending s = w ++ pending s' ∧ len w = dst_len ∧ pending s' ≠ []
    | (w, Panic) => False
    end
}.

Definition pre_mask (is_huffman : bool) : Z := if is_huffman then 0x80 else 0.

Module Integer.
Record t := mk { int : IntegerEncoder.t }.

Definition index (index mask pre : Z) : t := mk (IntegerEncoder.new index mask pre).
Definition length (length : Z) (is_huffman : bool) : t :=
  mk (IntegerEncoder.new length 0x7f (pre_mask is_huffman)).

(** The [while] loop; [room] is what [dst[cur..]] still holds. *)
Fixpoint encode_loop (room : nat) (cur : Z) (i : t) : enc t :=
  if IntegerEncoder.is_finish (int i) then ([], Ok cur)
  else
    match room with
    | O => ([], Err i)
    | S room =>
        match IntegerEncoder.next_byte (int i) with
        | (Some b, int) =>
            let '(w, r) := encode_loop room (cur + 1) (mk int) in (b :: w, r)
        | (None, int) => ([], Panic)
        end
    end.

Definition encode (i : t) (dst_len : Z) : enc t := encode_loop (Z.to_nat dst_len) 0 i.
End Integer.

Module Octets.
Record t := mk { src : bytes; idx : Z }.

Definition new (src : bytes) (is_huffman : bool) : t :=
  if is_huffman then mk (huffman_encode src []) 0 else mk src 0.

Definition olen (o : t) : Z := len (src o).

Definition encode (o : t) (dst_len : Z) : enc t :=
  let input_len := len (src o) - idx o in
  let output_len := dst_len in
  if input_len =? 0 then ([], Ok 0)
  else
    match output_len ?= input_len with
    | Lt => (slice (idx o) (idx o + output_len) (src o), Err (mk (src o) (idx o + output_len)))
    | _ => (from (idx o) (src o), Ok input_len)
    end.
End Octets.

(** [check_and_encode!(item, &mut dst[cur..], cur, self)] followed by the rest
    of the method, [k]; [put] stores the item back into [self]. *)
Definition check_and_encode {A S} (f : A → Z → enc A) (item : option A) (dst_len cur : Z)
    (put : option A → S) (k : Z → enc S) : enc S :=
  match item with
  | None => k cur
  | Some i =>
      match f i (dst_len - cur) with
      | (w, Ok n) => let '(w', r) := k (cur + n) in (w ++ w', r)
      | (w, Err e) => (w, Err (put (Some e)))
      | (w, Panic) => (w, Panic)
      end
  end.

Module IndexAndValue.
Record t := mk {
  index : option Integer.t;
  value_length : option Integer.t;
  value_octets : option Octets.t;
}.

Definition new : t := mk None None None.

Definition set_index (s : t) (index mask pre : Z) : t :=
  mk (Some (Integer.index index mask pre)) (value_length s) (value_octets s).

Definition set_value (s : t) (value : bytes) (is_huffman : bool) : t :=
  let octets := Octets.new value is_huffman in
  mk (index s) (Some (Integer.length (Octets.olen octets) is_huffman)) (Some octets).

Definition encode (s : t) (dst_len : Z) : enc t :=
  let cur := 0 in
  check_and_encode Integer.encode (index s) dst_len cur
    (λ i, mk i (value_length s) (value_octets s)) (λ cur,
  check_and_encode Integer.encode (value_length s) dst_len cur
    (λ i, mk None i (value_octets s)) (λ cur,
  check_and_encode Octets.encode (value_octets s) dst_len cur
    (λ i, mk None None i) (λ cur,
  ([], Ok cur)))).
End IndexAndValue.

Module NameAndValue.
Record t := mk {
  index : option Integer.t;
  name_length : option Integer.t;
  name_octets : option Octets.t;
  value_length : option Integer.t;
  value_octets : option Octets.t;
}.

Definition new : t := mk None None None None None.

Definition set_index (s : t) (mask pre : Z) : t :=
  mk (Some (Integer.index 0 mask pre)) (name_length s) (name_octets s) (value_length s)
    (value_octets s).

Definition set_name_and_value (s : t) (name value : bytes) (is_huffman : bool) : t :=
  let name_octets := Octets.new name is_huffman in
  let value_octets := Octets.new value is_huffman in
  mk (index s)
    (Some (Integer.length (Octets.olen name_octets) is_huffman)) (Some name_octets)
    (Some (Integer.length (Octets.olen value_octets) is_huffman)) (Some value_octets).

Definition encode (s : t) (dst_len : Z) : enc t :=
  let cur := 0 in
  check_and_encode Integer.encode (index s) dst_len cur
    (λ i, mk i (name_length s) (name_octets s) (value_length s) (value_octets s)) (λ cur,
  check_and_encode Integer.encode (name_length s) dst_len cur
    (λ i, mk None i (name_octets s) (value_length s) (value_octets s)) (λ cur,
  check_and_encode Octets.encode (name_octets s) dst_len cur
    (λ i, mk None None i (value_length s) (value_octets s)) (λ cur,
  check_and_encode Integer.encode (value_length s) dst_len cur
    (λ i, mk None None None i (value_octets s)) (λ cur,
  check_and_encode Octets.encode (value_octets s) dst_len cur
    (λ i, mk None None None None i) (λ cur,
  ([], Ok cur)))))).
End NameAndValue.

(** [ReprEncodeState]; each variant is a struct around one of the encoders. *)
Module ReprEncodeState.
Inductive t :=
| Indexed (index : Integer.t)
| Indexing (inner : IndexAndValue.t)
| IndexingWithName (inner : NameAndValue.t)
| WithoutIndexing (inner : IndexAndValue.t)
| WithoutIndexingWithName (inner : NameAndValue.t)
| NeverIndexed (inner : IndexAndValue.t)
| NeverIndexedWithName (inner : NameAndValue.t).

Definition indexed_new (index : Z) : t :=
  Indexed (Integer.index index PrefixIndexMask.INDEXED 0x80).

Definition indexing_new (index : Z) (value : bytes) (is_huffman : bool) : t :=
  Indexing (IndexAndValue.set_value
    (IndexAndValue.set_index IndexAndValue.new index PrefixIndexMask.LITERAL_WITH_INDEXING 0x40)
    value is_huffman).

Definition indexing_with_name_new (name value : bytes) (is_huffman : bool) : t :=
  IndexingWithName (NameAndValue.set_name_and_value
    (NameAndValue.set_index NameAndValue.new PrefixIndexMask.LITERAL_WITH_INDEXING 0x40)
    name value is_huffman).

Definition without_indexing_new (index : Z) (value : bytes) (is_huffman : bool) : t :=
  WithoutIndexing (IndexAndValue.set_value
    (IndexAndValue.set_index IndexAndValue.new index PrefixIndexMask.LITERAL_WITHOUT_INDEXING 0x00)
    value is_huffman).

Definition without_indexing_with_name_new (name value : bytes) (is_huffman : bool) : t :=
  WithoutIndexingWithName (NameAndValue.set_name_and_value
    (NameAndValue.set_index NameAndValue.new PrefixIndexMask.LITERAL_WITHOUT_INDEXING 0x00)
    name value is_huffman).

Definition never_indexed_new (index : Z) (value : bytes) (is_huffman : bool) : t :=
  NeverIndexed (IndexAndValue.set_value
    (IndexAndValue.set_index IndexAndValue.new index PrefixIndexMask.LITERAL_NEVER_INDEXED 0x10)
    value is_huffman).

Definition never_indexed_with_name_new (name value : bytes) (is_huffman : bool) : t :=
  NeverIndexedWithName (NameAndValue.set_name_and_value
    (NameAndValue.set_index NameAndValue.new PrefixIndexMask.LITERAL_NEVER_INDEXED 0x10)
    name value is_huffman).

Definition encode (s : t) (dst_len : Z) : enc t :=
  match s with
  | Indexed s => map_err Indexed (Integer.encode s dst_len)
  | Indexing s => map_err Indexing (IndexAndValue.encode s dst_len)
  | IndexingWithName s => map_err IndexingWithName (NameAndValue.encode s dst_len)
  | WithoutIndexing s => map_err WithoutIndexing (IndexAndValue.encode s dst_len)
  | WithoutIndexingWithName s => map_err WithoutIndexingWithName (NameAndValue.encode s dst_len)
  | NeverIndexed s => map_err NeverIndexed (IndexAndValue.encode s dst_len)
  | NeverIndexedWithName s => map_err NeverIndexedWithName (NameAndValue.encode s dst_len)
  end.
End ReprEncodeState.

(** [PartsIter]: the pseudo headers in a fixed order, then the header lines in
    the order in which the hash map yields them ([map]). *)
Module PartsIter.
Inductive PartsIterDirection := Authority | Method | Path | Scheme | Status | Other.

Record t := mk {
  pseudo : PseudoHeaders.t;
  map : list (HeaderName.t * HeaderValue.t);
  next_type : PartsIterDirection;
}.

(** [into_iter] yields the entries of a hash map in some order. *)
Definition new (into_iter : Headers.t → list (HeaderName.t * HeaderValue.t)) (p : Parts.t) : t :=
  mk (Parts.pseudo p) (into_iter (Parts.map p)) Method.

(** One arm of the [loop] per direction; an arm that finds nothing sets
    [next_type] and goes round again.  [to_string] never fails, so the
    [unwrap] on it does not panic. *)
Definition next_other (i : t) : option (Header.t * bytes) * t :=
  match map i with
  | [] => (None, i)
  | (h, v) :: m =>
      (match HeaderValue.to_string v with
       | Ok s => Some (Header.Other h, s)
       | _ => None
       end, mk (pseudo i) m (next_type i))
  end.

Definition next_authority (i : t) : option (Header.t * bytes) * t :=
  match PseudoHeaders.take_authority (pseudo i) with
  | (Some value, p) => (Some (Header.Authority, value), mk p (map i) (next_type i))
  | (None, p) => next_other (mk p (map i) Other)
  end.

Definition next_path (i : t) : option (Header.t * bytes) * t :=
  match PseudoHeaders.take_path (pseudo i) with
  | (Some value, p) => (Some (Header.Path, value), mk p (map i) (next_type i))
  | (None, p) => next_authority (mk p (map i) Authority)
  end.

Definition next_scheme (i : t) : option (Header.t * bytes) * t :=
  match PseudoHeaders.take_scheme (pseudo i) with
  | (Some value, p) => (Some (Header.Scheme, value), mk p (map i) (next_type i))
  | (None, p) => next_path (mk p (map i) Path)
  end.

Definition next_status (i : t) : option (Header.t * bytes) * t :=
  match PseudoHeaders.take_status (pseudo i) with
  | (Some value, p) => (Some (Header.Status, value), mk p (map i) (next_type i))
  | (None, p) => next_scheme (mk p (map i) Scheme)
  end.

Definition next_method (i : t) : option (Header.t * bytes) * t :=
  match PseudoHeaders.take_method (pseudo i) with
  | (Some value, p) => (Some (Header.Method, value), mk p (map i) (next_type i))
  | (None, p) => next_status (mk p (map i) Status)
  end.

Definition next (i : t) : option (Header.t * bytes) * t :=
  match next_type i with
  | Method => next_method i
  | Status => next_status i
  | Scheme => next_scheme i
  | Path => next_path i
  | Authority => next_authority i
  | Other => next_other i
  end.
End PartsIter.

Module ReprEncoder.
Record t := mk {
  table : DynamicTable.t;
  iter : option PartsIter.t;
  state : option ReprEncodeState.t;
}.

(** The body of the [while let]: the state that encodes a field, after the
    dynamic table took the field in where it must. *)
Definition start (table : DynamicTable.t) (h : Header.t) (v : bytes) (use_huffman : bool)
    : DynamicTable.t * ReprEncodeState.t :=
  match TableSearcher.index table h v with
  | Some (TableIndex.Header index) => (table, ReprEncodeState.indexed_new index)
  | Some (TableIndex.HeaderName index) =>
      (DynamicTable.update table h v, ReprEncodeState.indexing_new index v use_huffman)
  | None =>
      (DynamicTable.update table h v,
       ReprEncodeState.indexing_with_name_new (Header.into_string h) v use_huffman)
  end.

(** The [while let] loop; [cur] is the write position. *)
Fixpoint encode_loop (fuel : nat) (table : DynamicTable.t) (iter : PartsIter.t)
    (dst_len cur : Z) (use_huffman : bool) : bytes * res Empty_set Z * t :=
  match fuel with
  | O => ([], Ok cur, mk table (Some iter) None)
  | S fuel =>
      match PartsIter.next iter with
      | (None, _) => ([], Ok cur, mk table None None)
      | (Some (h, v), iter) =>
          let '(table, state) := start table h v use_huffman in
          match ReprEncodeState.encode state (dst_len - cur) with
          | (w, Ok size) =>
              let '(w', r, e) := encode_loop fuel table iter dst_len (cur + size) use_huffman in
              (w ++ w', r, e)
          | (w, Err state) => (w, Ok dst_len, mk table (Some iter) (Some state))
          | (w, Panic) => (w, Panic, mk table (Some iter) None)
          end
      end
  end.

(** More turns than the iterator has items. *)
Definition loop_fuel (i : PartsIter.t) : nat := 6 + length (PartsIter.map i).

Definition encode_iter (table : DynamicTable.t) (iter : option PartsIter.t) (dst_len cur : Z)
    (use_huffman : bool) : bytes * res Empty_set Z * t :=
  match iter with
  | None => ([], Ok cur, mk table None None)
  | Some iter => encode_loop (loop_fuel iter) table iter dst_len cur use_huffman
  end.

Definition encode (e : t) (dst_len : Z) (use_huffman : bool) : bytes * res Empty_set Z * t :=
  if dst_len =? 0 then ([], Ok 0, e)
  else
    match state e with
    | None => encode_iter (table e) (iter e) dst_len 0 use_huffman
    | Some state =>
        match ReprEncodeState.encode state dst_len with
        | (w, Ok size) =>
            let '(w', r, e) := encode_iter (table e) (iter e) dst_len size use_huffman in
            (w ++ w', r, e)
        | (w, Err state) => (w, Ok dst_len, mk (table e) (iter e) (Some state))
        | (w, Panic) => (w, Panic, mk (table e) (iter e) None)
        end
    end.
End ReprEncoder.

(** [ReprEncStateHolder]. *)
Module ReprEncStateHolder.
Record t := mk { iter : option PartsIter.t; state : option ReprEncodeState.t }.

Definition new : t := mk None None.
Definition set_parts (into_iter : Headers.t → list (HeaderName.t * HeaderValue.t))
    (h : t) (parts : Parts.t) : t := mk (Some (PartsIter.new into_iter parts)) (state h).
Definition is_empty (h : t) : bool :=
  match iter h, state h with None, None => true | _, _ => false end.
End ReprEncStateHolder.

(** * The writers *)

Lemma room_step (room : nat) n : Z.of_nat (S room) = n → Z.of_nat room = n - 1.
Proof. lia. Qed.

Lemma integer_loop_spec room cur i :
  enc_ok (Integer.int i) →
  match Integer.encode_loop room cur i with
  | (w, Ok n) => w = remaining (Integer.int i) ∧ n = cur + len w ∧ len w ≤ Z.of_nat room
  | (w, Err i') => enc_ok (Integer.int i') ∧ remaining (Integer.int i) = w ++ remaining (Integer.int i') ∧
      len w = Z.of_nat room ∧ remaining (Integer.int i') ≠ []
  | (w, Panic) => False
  end.
Proof.
  revert cur i. induction room as [|room IH]; intros cur i Hok; simpl;
    unfold IntegerEncoder.is_finish; case_bool_decide as Hf.
  - unfold remaining. rewrite Hf. rewrite len_nil. auto with lia.
  - pose proof (enc_next_byte (Integer.int i) Hok) as H.
    destruct (IntegerEncoder.next_byte (Integer.int i)) as [o e'].
    destruct H as (_ & Hr & [b ->]); [done|]. rewrite Hr. by rewrite len_nil.
  - unfold remaining. rewrite Hf. rewrite len_nil. auto with lia.
  - pose proof (enc_next_byte (Integer.int i) Hok) as H.
    destruct (IntegerEncoder.next_byte (Integer.int i)) as [o e'].
    destruct H as (Hok' & Hr & [b ->]); [done|]. rewrite Hr. simpl.
    specialize (IH (cur + 1) (Integer.mk e') Hok'). cbn [Integer.int] in IH.
    destruct (Integer.encode_loop room (cur + 1) (Integer.mk e')) as [w [n|i'|]]; simpl in *.
    + destruct IH as (-> & -> & ?). rewrite !len_cons. auto with lia.
    + destruct IH as (? & -> & ? & ?). rewrite !len_cons. auto with lia.
    + done.
Qed.

#[export] Program Instance integer_writer : SegWriter Integer.t := {|
  w_encode := Integer.encode;
  w_ok i := enc_ok (Integer.int i);
  pending i := remaining (Integer.int i);
|}.
Next Obligation.
  intros i dst_len Hok Hl. pose proof (integer_loop_spec (Z.to_nat dst_len) 0 i Hok) as H.
  unfold Integer.encode. rewrite Z2Nat.id in H by done.
  destruct (Integer.encode_loop _ 0 i) as [w [n|i'|]]; simpl in *; intuition lia.
Qed.

#[export] Program Instance octets_writer : SegWriter Octets.t := {|
  w_encode := Octets.encode;
  w_ok o := 0 ≤ Octets.idx o ≤ len (Octets.src o);
  pending o := from (Octets.idx o) (Octets.src o);
|}.
Next Obligation.
  intros [src idx] dst_len Hok Hl. unfold Octets.encode. simpl in *.
  assert (Hlen : len (from idx src) = len src - idx) by (rewrite len_from; lia).
  destruct (Z.eqb_spec (len src - idx) 0) as [Hz|Hz].
  { rewrite (len_0_nil (from idx src)) by lia. auto. }
  destruct (Z.compare_spec dst_len (len src - idx)) as [->|Hc|Hc]; simpl.
  - auto with lia.
  - assert (Hs : slice idx (idx + dst_len) src = upto dst_len (from idx src)).
    { unfold slice, upto, from. rewrite take_drop_commute. do 2 f_equal. lia. }
    assert (Hp : from (idx + dst_len) src = from dst_len (from idx src)).
    { unfold from. rewrite drop_drop. f_equal. lia. }
    rewrite Hs, Hp, upto_from. split; [lia|]. split; [done|]. rewrite len_upto by lia.
    split; [lia|]. intros H. apply (f_equal len) in H. rewrite len_from in H by lia. change (len []) with 0 in H. lia.
  - auto with lia.
Qed.

(** ** Chains of writers *)

Section chain.
Context {S : Type} (ok : S → Prop) (pend : S → bytes).

(** A method that starts at position [cur] and still has [total] to write. *)
Definition chain_spec (x : enc S) (total : bytes) (dst_len cur : Z) : Prop :=
  match x with
  | (w, Ok n) => w = total ∧ n = cur + len w ∧ n ≤ dst_len
  | (w, Err s) => ok s ∧ total = w ++ pend s ∧ cur + len w = dst_len ∧ pend s ≠ []
  | (w, Panic) => False
  end.

Definition opt_pending `{SegWriter A} (o : option A) : bytes :=
  match o with None => [] | Some i => pending i end.
Definition opt_ok `{SegWriter A} (o : option A) : Prop :=
  match o with None => True | Some i => w_ok i end.

Lemma chain_done dst_len cur : cur ≤ dst_len → chain_spec ([], Ok cur) [] dst_len cur.
Proof. intros. unfold chain_spec. rewrite len_nil. auto with lia. Qed.

Lemma check_and_encode_spec `{SegWriter A} item dst_len cur put k rest :
  opt_ok item → 0 ≤ cur ≤ dst_len →
  (∀ i, w_ok i → ok (put (Some i)) ∧ pend (put (Some i)) = pending i ++ rest) →
  (∀ cur, 0 ≤ cur ≤ dst_len → chain_spec (k cur) rest dst_len cur) →
  chain_spec (check_and_encode w_encode item dst_len cur put k) (opt_pending item ++ rest)
    dst_len cur.
Proof.
  intros Hi Hc Hput Hk. destruct item as [i|]; simpl; [|by apply Hk].
  pose proof (w_spec i (dst_len - cur) Hi ltac:(lia)) as Hs.
  destruct (w_encode i (dst_len - cur)) as [w [n|e|]]; [|..|done].
  - destruct Hs as (-> & -> & ?). pose proof (len_nonneg (pending i)).
    assert (Hn : 0 ≤ cur + len (pending i) ≤ dst_len) by lia. specialize (Hk _ Hn).
    destruct (k (cur + len (pending i))) as [w' [n|s|]]; simpl in *; [|..|done].
    + destruct Hk as (-> & -> & ?). rewrite len_app. auto with lia.
    + destruct Hk as (? & -> & ? & ?). rewrite <- app_assoc, len_app. auto with lia.
  - destruct Hs as (He & -> & ? & Hne). destruct (Hput e He) as [? Hp]. simpl.
    rewrite Hp, app_assoc. split; [done|]. split; [done|]. split; [lia|].
    by destruct (pending e).
Qed.
End chain.

Definition iv_ok (s : IndexAndValue.t) : Prop :=
  opt_ok (IndexAndValue.index s) ∧ opt_ok (IndexAndValue.value_length s) ∧
  opt_ok (IndexAndValue.value_octets s).
Definition iv_pending (s : IndexAndValue.t) : bytes :=
  opt_pending (IndexAndValue.index s) ++ opt_pending (IndexAndValue.value_length s) ++
  opt_pending (IndexAndValue.value_octets s) ++ [].

Definition nv_ok (s : NameAndValue.t) : Prop :=
  opt_ok (NameAndValue.index s) ∧ opt_ok (NameAndValue.name_length s) ∧
  opt_ok (NameAndValue.name_octets s) ∧ opt_ok (NameAndValue.value_length s) ∧
  opt_ok (NameAndValue.value_octets s).
Definition nv_pending (s : NameAndValue.t) : bytes :=
  opt_pending (NameAndValue.index s) ++
  opt_pending (NameAndValue.name_length s) ++ opt_pending (NameAndValue.name_octets s) ++
  opt_pending (NameAndValue.value_length s) ++ opt_pending (NameAndValue.value_octets s) ++ [].

(** A result in the form of [w_spec] from its chain form. *)
Lemma chain_writer {S} (ok : S → Prop) (pend : S → bytes) x total d :
  chain_spec ok pend x total d 0 →
  match x with
  | (w, Ok n) => w = total ∧ n = len w ∧ n ≤ d
  | (w, Err s) => ok s ∧ total = w ++ pend s ∧ len w = d ∧ pend s ≠ []
  | (w, Panic) => False
  end.
Proof. by destruct x as [w [n|s|]]. Qed.

#[export] Program Instance index_and_value_writer : SegWriter IndexAndValue.t := {|
  w_encode := IndexAndValue.encode;
  w_ok := iv_ok;
  pending := iv_pending;
|}.
Next Obligation.
  intros s d (Hi & Hl & Ho) Hd. apply chain_writer.
  unfold IndexAndValue.encode, iv_pending at 2. cbv zeta.
  change Integer.encode with (w_encode (S := Integer.t)).
  change Octets.encode with (w_encode (S := Octets.t)).
  do 3 (apply check_and_encode_spec; [done|lia|done|intros ? ?]).
  apply chain_done. lia.
Qed.

#[export] Program Instance name_and_value_writer : SegWriter NameAndValue.t := {|
  w_encode := NameAndValue.encode;
  w_ok := nv_ok;
  pending := nv_pending;
|}.
Next Obligation.
  intros s d (Hi & Hnl & Hn & Hl & Ho) Hd. apply chain_writer.
  unfold NameAndValue.encode, nv_pending at 2. cbv zeta.
  change Integer.encode with (w_encode (S := Integer.t)).
  change Octets.encode with (w_encode (S := Octets.t)).
  do 5 (apply check_and_encode_spec; [done|lia|done|intros ? ?]).
  apply chain_done. lia.
Qed.

Lemma map_err_spec {S S'} (ok : S → Prop) (ok' : S' → Prop) pend pend' (f : S → S') x total d :
  (∀ s, ok s → ok' (f s)) → (∀ s, pend' (f s) = pend s) →
  chain_spec ok pend x total d 0 → chain_spec ok' pend' (map_err f x) total d 0.
Proof.
  intros Hok Hp. destruct x as [w [n|s|]]; simpl; [done| |done].
  rewrite Hp. intros (? & ? & ? & ?). auto.
Qed.

Lemma writer_chain {S : Type} `{SegWriter S} (s : S) d :
  w_ok s → 0 ≤ d → chain_spec w_ok pending (w_encode s d) (pending s) d 0.
Proof.
  intros Hok Hd. pose proof (w_spec s d Hok Hd) as Hs.
  by destruct (w_encode s d) as [w [n|s'|]].
Qed.

Definition repr_ok (s : ReprEncodeState.t) : Prop :=
  match s with
  | ReprEncodeState.Indexed s => w_ok s
  | ReprEncodeState.Indexing s | ReprEncodeState.WithoutIndexing s
  | ReprEncodeState.NeverIndexed s => w_ok s
  | ReprEncodeState.IndexingWithName s | ReprEncodeState.WithoutIndexingWithName s
  | ReprEncodeState.NeverIndexedWithName s => w_ok s
  end.

Definition repr_pending (s : ReprEncodeState.t) : bytes :=
  match s with
  | ReprEncodeState.Indexed s => pending s
  | ReprEncodeState.Indexing s | ReprEncodeState.WithoutIndexing s
  | ReprEncodeState.NeverIndexed s => pending s
  | ReprEncodeState.IndexingWithName s | ReprEncodeState.WithoutIndexingWithName s
  | ReprEncodeState.NeverIndexedWithName s => pending s
  end.

#[export] Program Instance repr_writer : SegWriter ReprEncodeState.t := {|
  w_encode := ReprEncodeState.encode;
  w_ok := repr_ok;
  pending := repr_pending;
|}.
Next Obligation.
  intros s d Hok Hd. apply chain_writer. destruct s as [s|s|s|s|s|s|s];
    (apply (map_err_spec w_ok _ pending); [done|done|exact (writer_chain s d Hok Hd)]).
Qed.

(** * The iterator *)

Definition opt_item (h : Header.t) (o : option bytes) : list (Header.t * bytes) :=
  match o with Some v => [(h, v)] | None => [] end.

(** The header lines the hash map still holds. *)
Definition line_items (m : list (HeaderName.t * HeaderValue.t)) : list (Header.t * bytes) :=
  (λ '(h, v), (Header.Other h, HeaderValue.to_vec v)) <$> m.

(** What an iterator has still to yield. *)
Definition items (i : PartsIter.t) : list (Header.t * bytes) :=
  let p := PartsIter.pseudo i in
  let other := line_items (PartsIter.map i) in
  let authority := opt_item Header.Authority (PseudoHeaders.authority p) ++ other in
  let path := opt_item Header.Path (PseudoHeaders.path p) ++ authority in
  let scheme := opt_item Header.Scheme (PseudoHeaders.scheme p) ++ path in
  let status := opt_item Header.Status (PseudoHeaders.status p) ++ scheme in
  match PartsIter.next_type i with
  | PartsIter.Method => opt_item Header.Method (PseudoHeaders.method p) ++ status
  | PartsIter.Status => status
  | PartsIter.Scheme => scheme
  | PartsIter.Path => path
  | PartsIter.Authority => authority
  | PartsIter.Other => other
  end.

Lemma next_items i :
  match items i with
  | [] => (PartsIter.next i).1 = None
  | x :: l => (PartsIter.next i).1 = Some x ∧ items (PartsIter.next i).2 = l
  end.
Proof.
  destruct i as [[au me pa sc st] m ty].
  destruct ty; destruct me, st, sc, pa, au; try done; by destruct m as [|[h v] m].
Qed.

Lemma items_fuel i : (length (items i) < ReprEncoder.loop_fuel i)%nat.
Proof.
  destruct i as [[au me pa sc st] m ty]. unfold ReprEncoder.loop_fuel, items, line_items.
  destruct ty; destruct me, st, sc, pa, au; simpl; rewrite length_fmap; lia.
Qed.

Lemma items_new into_iter p :
  items (PartsIter.new into_iter p) =
    opt_item Header.Method (PseudoHeaders.method (Parts.pseudo p)) ++
    opt_item Header.Status (PseudoHeaders.status (Parts.pseudo p)) ++
    opt_item Header.Scheme (PseudoHeaders.scheme (Parts.pseudo p)) ++
    opt_item Header.Path (PseudoHeaders.path (Parts.pseudo p)) ++
    opt_item Header.Authority (PseudoHeaders.authority (Parts.pseudo p)) ++
    line_items (into_iter (Parts.map p)).
Proof. done. Qed.

(** * The encoder of a list of fields *)

Section fields.
Context (huff : bool).

Definition start_table (d : DynamicTable.t) (f : Header.t * bytes) : DynamicTable.t :=
  (ReprEncoder.start d f.1 f.2 huff).1.
Definition start_bytes (d : DynamicTable.t) (f : Header.t * bytes) : bytes :=
  repr_pending (ReprEncoder.start d f.1 f.2 huff).2.

(** The bytes of a list of fields, and the table after them. *)
Fixpoint fields_bytes (d : DynamicTable.t) (l : list (Header.t * bytes)) : bytes :=
  match l with
  | [] => []
  | f :: l => start_bytes d f ++ fields_bytes (start_table d f) l
  end.
Fixpoint fields_table (d : DynamicTable.t) (l : list (Header.t * bytes)) : DynamicTable.t :=
  match l with
  | [] => d
  | f :: l => fields_table (start_table d f) l
  end.

(** The octets of a name or value have a length that is a [usize]. *)
Definition octets_fit (v : bytes) : Prop := is_usize (Octets.olen (Octets.new v huff)).
Definition field_fits (f : Header.t * bytes) : Prop :=
  octets_fit (Header.into_string f.1) ∧ octets_fit f.2.

(** A table whose limit is a [usize]. *)
Definition dyn_ok (d : DynamicTable.t) : Prop :=
  table_ok d ∧ DynamicTable.max_size d < 2 ^ 64.

Lemma queue_length_bound d :
  dyn_ok d → 32 * Z.of_nat (length (DynamicTable.queue d)) < 2 ^ 64.
Proof.
  intros [[Hc Hm] Hu].
  assert (∀ q, 32 * Z.of_nat (length q) ≤ queue_size q) as Hq.
  { induction q as [|e q IH]; simpl; [lia|]. pose proof (entry_size_pos e). lia. }
  specialize (Hq (DynamicTable.queue d)). lia.
Qed.

Lemma update_dyn_ok d h v : dyn_ok d → dyn_ok (DynamicTable.update d h v).
Proof. intros [Hd Hm]. split; [by apply update_ok|]. by rewrite update_max_size. Qed.

Lemma searcher_index_bound d h v i :
  dyn_ok d → TableSearcher.index d h v = Some i →
  match i with TableIndex.Header i | TableIndex.HeaderName i => is_usize i end.
Proof.
  intros Hd%queue_length_bound. unfold TableSearcher.index.
  pose proof (dynamic_index_spec d h v) as Hs.
  destruct (StaticTable.index h v) as [[j|j]|] eqn:Hst;
    [apply static_index_header in Hst as [? _]|apply static_index_name in Hst as [? _]|];
    destruct (DynamicTable.index d h v) as [[k|k]|]; simpl in Hs; try done; intros [= <-];
    try (unfold is_usize; lia).
  all: destruct Hs as (n & -> & Hn & _); apply lookup_lt_Some in Hn;
    unfold names in Hn; rewrite ?length_fmap in Hn; unfold is_usize; lia.
Qed.

Lemma mask_ok_all :
  mask_ok PrefixIndexMask.INDEXED 0x80 ∧ mask_ok PrefixIndexMask.LITERAL_WITH_INDEXING 0x40 ∧
  mask_ok PrefixIndexMask.LITERAL_WITHOUT_INDEXING 0 ∧
  mask_ok PrefixIndexMask.LITERAL_NEVER_INDEXED 0x10 ∧ mask_ok 0x7f (pre_mask huff).
Proof.
  repeat split; [exists 7|exists 6|exists 4|exists 4|exists 7]; destruct huff; done.
Qed.

Lemma octets_new_ok v : w_ok (Octets.new v huff).
Proof. simpl. destruct huff; simpl; pose proof (len_nonneg v); split; try lia; apply len_nonneg. Qed.

Lemma start_ok d f : dyn_ok d → field_fits f →
  repr_ok (ReprEncoder.start d f.1 f.2 huff).2 ∧ dyn_ok (start_table d f).
Proof.
  intros Hd [Hn Hv]. destruct mask_ok_all as (H1 & H2 & H3 & H4 & H5).
  pose proof (octets_new_ok f.2). pose proof (octets_new_ok (Header.into_string f.1)).
  unfold start_table, ReprEncoder.start.
  destruct (TableSearcher.index d f.1 f.2) as [[i|i]|] eqn:Hi;
    [apply searcher_index_bound in Hi; [|done]..|]; simpl.
  - split; [by split|done].
  - split; [|by apply update_dyn_ok]. split; [by split|]. by split.
  - split; [|by apply update_dyn_ok]. split; [by split|]. split; [by split|]. split; [done|].
    split; [by split|done].
Qed.
End fields.

(** * [ReprEncoder] *)

Section encoder.
Context (huff : bool).

Definition iter_items (o : option PartsIter.t) : list (Header.t * bytes) :=
  match o with Some i => items i | None => [] end.

(** What an encoder has still to write, and the table it will end with. *)
Definition e_pending (e : ReprEncoder.t) : bytes :=
  opt_pending (ReprEncoder.state e) ++
  fields_bytes huff (ReprEncoder.table e) (iter_items (ReprEncoder.iter e)).
Definition e_table (e : ReprEncoder.t) : DynamicTable.t :=
  fields_table huff (ReprEncoder.table e) (iter_items (ReprEncoder.iter e)).
Definition e_ok (e : ReprEncoder.t) : Prop :=
  dyn_ok (ReprEncoder.table e) ∧ opt_ok (ReprEncoder.state e) ∧
  Forall (field_fits huff) (iter_items (ReprEncoder.iter e)).

(** An outcome of [encode] that had [total] to write and started at [cur]. *)
Definition encoded (x : bytes * res Empty_set Z * ReprEncoder.t) (total : bytes)
    (table : DynamicTable.t) (dst_len cur : Z) : Prop :=
  let '(w, r, e) := x in
  total = w ++ e_pending e ∧ e_table e = table ∧ e_ok e ∧ r = Ok (cur + len w) ∧
  cur + len w ≤ dst_len ∧
  (if cur + len total <=? dst_len then ReprEncoder.iter e = None ∧ ReprEncoder.state e = None
   else cur + len w = dst_len).

Lemma encoded_app w total x table dst_len cur :
  encoded x total table dst_len (cur + len w) →
  encoded (let '(w', r, e) := x in (w ++ w', r, e)) (w ++ total) table dst_len cur.
Proof.
  destruct x as [[w' r] e]. unfold encoded. intros (-> & Ht & Hok & Hr & Hl & Hc).
  rewrite !len_app, <- app_assoc in *. rewrite !Z.add_assoc in *. auto 10.
Qed.

Lemma encode_loop_spec fuel table iter dst_len cur :
  (length (items iter) < fuel)%nat → dyn_ok table → Forall (field_fits huff) (items iter) →
  0 ≤ cur ≤ dst_len →
  encoded (ReprEncoder.encode_loop fuel table iter dst_len cur huff)
    (fields_bytes huff table (items iter)) (fields_table huff table (items iter)) dst_len cur.
Proof.
  revert table iter cur. induction fuel as [|fuel IH]; intros table iter cur Hf Ht Hi Hc; [lia|].
  pose proof (next_items iter) as Hn. simpl.
  destruct (PartsIter.next iter) as [o iter']. destruct (items iter) as [|f l]; simpl in Hn.
  { subst o. simpl. unfold encoded, e_pending, e_table, e_ok. simpl. rewrite len_nil, Z.add_0_r.
    destruct (Z.leb_spec cur dst_len); auto 10 with lia. }
  destruct Hn as [-> <-]. inversion_clear Hi as [|? ? Hff Hl].
  destruct (start_ok huff table f Ht Hff) as [Hst Htb].
  destruct f as [h v]. simpl fields_bytes. simpl fields_table.
  unfold start_table, start_bytes in *. cbn [fst snd] in *.
  destruct (ReprEncoder.start table h v huff) as [table' state]. cbn [fst snd] in *.
  pose proof (w_spec state (dst_len - cur) Hst ltac:(lia)) as Hw. cbn [w_encode repr_writer] in Hw.
  destruct (ReprEncodeState.encode state (dst_len - cur)) as [w [n|s'|]]; [| |done].
  - destruct Hw as (-> & -> & Hle). cbn [pending repr_writer] in *. apply encoded_app, IH;
      [simpl in Hf; lia|done|done|]. pose proof (len_nonneg (repr_pending state)). lia.
  - destruct Hw as (Hs' & Hp & Hlen & Hne). cbn [pending repr_writer w_ok] in *.
    unfold encoded, e_pending, e_table, e_ok. simpl. rewrite Hp, <- app_assoc, !len_app.
    split; [done|]. split; [done|]. split; [done|]. replace (cur + len w) with dst_len by lia.
    split; [done|]. split; [done|].
    destruct (Z.leb_spec (cur + (len w + (len (repr_pending s') +
      len (fields_bytes huff table' (items iter'))))) dst_len) as [Hbad|]; [|done].
    pose proof (len_nonneg (fields_bytes huff table' (items iter'))).
    pose proof (len_nonneg (repr_pending s')). destruct Hne. apply len_0_nil. lia.
Qed.

Lemma encode_iter_spec table iter dst_len cur :
  dyn_ok table → Forall (field_fits huff) (iter_items iter) → 0 ≤ cur ≤ dst_len →
  encoded (ReprEncoder.encode_iter table iter dst_len cur huff)
    (fields_bytes huff table (iter_items iter)) (fields_table huff table (iter_items iter))
    dst_len cur.
Proof.
  intros Ht Hi Hc. destruct iter as [i|].
  - exact (encode_loop_spec _ table i dst_len cur (items_fuel i) Ht Hi Hc).
  - unfold encoded, e_pending, e_table, e_ok. simpl. rewrite len_nil, Z.add_0_r.
    destruct (Z.leb_spec cur dst_len); auto 10 with lia.
Qed.

(** [encode] writes what is pending, as much of it as fits. *)
Lemma encode_spec e dst_len :
  e_ok e → 0 < dst_len →
  encoded (ReprEncoder.encode e dst_len huff) (e_pending e) (e_table e) dst_len 0.
Proof.
  intros (Ht & Hs & Hi) Hd. unfold ReprEncoder.encode, e_pending, e_table.
  destruct (Z.eqb_spec dst_len 0); [lia|].
  destruct (ReprEncoder.state e) as [s|]; [|by apply encode_iter_spec; [..|lia]].
  pose proof (w_spec s dst_len Hs ltac:(lia)) as Hw. cbn [w_encode repr_writer] in Hw. simpl.
  destruct (ReprEncodeState.encode s dst_len) as [w [sz|s'|]]; [| |done].
  - destruct Hw as (-> & -> & Hle). cbn [pending repr_writer] in *.
    pose proof (len_nonneg (repr_pending s)). apply encoded_app, encode_iter_spec; [done|done|lia].
  - destruct Hw as (Hs' & Hp & Hlen & Hne). cbn [pending repr_writer w_ok] in *.
    unfold encoded, e_pending, e_table, e_ok. simpl. rewrite Hp, <- app_assoc, !len_app.
    split; [done|]. split; [done|]. split; [done|]. rewrite Hlen.
    split; [done|]. split; [done|]. set (fb := fields_bytes _ _ _).
    destruct (Z.leb_spec (0 + (dst_len + (len (repr_pending s') + len fb))) dst_len); [|done].
    pose proof (len_nonneg fb). pose proof (len_nonneg (repr_pending s')).
    destruct Hne. apply len_0_nil. lia.
Qed.
End encoder.
