(* ===== verification/Hpack.v ===== *)
(** The HPACK codec ([ylong_http/src/h2/hpack/decoder.rs] and [encoder.rs]).

    [HpackDecoder] feeds a header block, in segments, to the representation
    decoder and applies every representation to the dynamic table and to the
    header lines; [HpackEncoder] writes header lines, in segments.  The
    theorems show that neither depends on how the block is cut into segments,
    that the decoding loop ends, and that the tables keep their invariant. *)
From S2P Require Import Prelude H2Error Huffman HpackInteger HpackTable Headers Parts HpackRepr.
From S2P Require Import HpackReprDecoder HpackReprEncoder.

Definition header_line_length (key_size value_size : Z) : Z := key_size + value_size + 32.

Module HpackDecoder.
(** [lines: HeaderLines] is the pair [parts], [header_size]. *)
Record t := mk {
  header_list_size : Z;
  table : DynamicTable.t;
  parts : Parts.t;
  header_size : Z;
  holder : option ReprDecodeState;
}.

Definition with_max_size (header_table_size max_header_list_size : Z) : t :=
  mk max_header_list_size (DynamicTable.with_max_size header_table_size) Parts.new 0 None.

Definition set_table (d : t) (x : DynamicTable.t) : t :=
  mk (header_list_size d) x (parts d) (header_size d) (holder d).
Definition set_parts (d : t) (x : Parts.t) : t :=
  mk (header_list_size d) (table d) x (header_size d) (holder d).
Definition set_header_size (d : t) (x : Z) : t :=
  mk (header_list_size d) (table d) (parts d) x (holder d).
Definition set_holder (d : t) (x : option ReprDecodeState) : t :=
  mk (header_list_size d) (table d) (parts d) (header_size d) x.

Definition update_header_list_size (d : t) (size : Z) : t :=
  mk size (table d) (parts d) (header_size d) (holder d).

(** ** [Updater], which borrows the table, the lines and the limit *)

Definition dec A := M t H2Error A.

Definition update_size (addition : Z) : dec () :=
  mmodify (λ d, set_header_size d (header_size d + addition)).

Definition check_header_list_size (key : Header.t) (value : bytes) : dec () :=
  let line_size := header_line_length (Header.hlen key) (len value) in
  _ ← update_size line_size;
  d ← mget;
  if header_list_size d <? header_size d then mfail (ConnectionError ConnectError)
  else mret ().

Definition get_header_by_name_and_value (name : Name) (value : bytes) : dec (Header.t * bytes) :=
  d ← mget;
  h ← match name with
      | Index index =>
          mlift (ok_or (TableSearcher.search_header_name (table d) index)
                   (ConnectionError CompressionError))
      | Literal octets => mret (Header.Other octets)
      end;
  mret (h, value).

(** [self.lines.parts.update(h, v)] *)
Definition parts_update (h : Header.t) (v : bytes) : dec () :=
  d ← mget;
  p ← mlift (Parts.update (parts d) h v);
  mmodify (λ d, set_parts d p).

Definition table_update (h : Header.t) (v : bytes) : dec () :=
  mmodify (λ d, set_table d (DynamicTable.update (table d) h v)).

Definition update_indexed (index : Z) : dec () :=
  d ← mget;
  '(h, v) ← mlift (ok_or (TableSearcher.search_header (table d) index)
                     (ConnectionError CompressionError));
  _ ← check_header_list_size h v;
  parts_update h v.

Definition update_literal_with_indexing (name : Name) (value : bytes) : dec () :=
  '(h, v) ← get_header_by_name_and_value name value;
  _ ← check_header_list_size h v;
  _ ← table_update h v;
  parts_update h v.

Definition update_literal_without_indexing (name : Name) (value : bytes) : dec () :=
  '(h, v) ← get_header_by_name_and_value name value;
  _ ← check_header_list_size h v;
  parts_update h v.

Definition update_literal_never_indexing (name : Name) (value : bytes) : dec () :=
  update_literal_without_indexing name value.

Definition update (repr : Representation) : dec () :=
  match repr with
  | Indexed index => update_indexed index
  | LiteralWithIndexing n v => update_literal_with_indexing n v
  | LiteralWithoutIndexing n v => update_literal_without_indexing n v
  | LiteralNeverIndexed n v => update_literal_never_indexing n v
  | SizeUpdate max_size =>
      mmodify (λ d, set_table d (DynamicTable.update_size (table d) max_size))
  end.

(** ** The decoder *)

(** The [loop] of [decode]; [None] when the fuel runs out. *)
Fixpoint decode_loop (fuel : nat) (decoder : ReprDecoder.t) (d : t)
    : option (res H2Error () * t) :=
  match fuel with
  | O => None
  | S fuel =>
      match ReprDecoder.decode decoder with
      | (Ok (Some repr), decoder) =>
          match update repr d with
          | (Ok _, d) => decode_loop fuel decoder d
          | (Err e, d) => Some (Err e, d)
          | (Panic, d) => Some (Panic, d)
          end
      | (Ok None, decoder) => Some (Ok (), set_holder d (ReprDecoder.save decoder))
      | (Err e, _) => Some (Err e, d)
      | (Panic, _) => Some (Panic, d)
      end
  end.

(** Each turn but the first and the last consumes a byte. *)
Definition decode_fuel (buf : bytes) : nat := 2 + length buf.

Definition decode (buf : bytes) : dec () := λ d,
  let '(decoder, holder) := ReprDecoder.load (ReprDecoder.new buf) (holder d) in
  default (Panic, d) (decode_loop (decode_fuel buf) decoder (set_holder d holder)).

Definition finish : dec Parts.t := λ d,
  match holder d with
  | Some _ => (Err (ConnectionError CompressionError), d)
  | None => (Ok (parts d), set_parts (set_header_size d 0) Parts.new)
  end.
End HpackDecoder.

Module HpackEncoder.
Record t := mk {
  table : DynamicTable.t;
  holder : ReprEncStateHolder.t;
  use_huffman : bool;
}.

Definition new (max_size : Z) (use_huffman : bool) : t :=
  mk (DynamicTable.with_max_size max_size) ReprEncStateHolder.new use_huffman.

(** [update_max_dynamic_table_size] has an empty body. *)
Definition update_max_dynamic_table_size (e : t) (max_size : Z) : t := e.

Definition set_parts (into_iter : Headers.t → list (HeaderName.t * HeaderValue.t))
    (e : t) (parts : Parts.t) : t :=
  mk (table e) (ReprEncStateHolder.set_parts into_iter (holder e) parts) (use_huffman e).

(** [load] empties the holder; [save] fills it again only when [dst] is full. *)
Definition encode (e : t) (dst_len : Z) : bytes * res Empty_set Z * t :=
  let encoder := ReprEncoder.mk (table e) (ReprEncStateHolder.iter (holder e))
                   (ReprEncStateHolder.state (holder e)) in
  let '(w, r, encoder) := ReprEncoder.encode encoder dst_len (use_huffman e) in
  match r with
  | Ok size =>
      let holder :=
        if size =? dst_len then
          ReprEncStateHolder.mk (ReprEncoder.iter encoder) (ReprEncoder.state encoder)
        else ReprEncStateHolder.new in
      (w, Ok size, mk (ReprEncoder.table encoder) holder (use_huffman e))
  | Err x => (w, Err x, mk (ReprEncoder.table encoder) ReprEncStateHolder.new (use_huffman e))
  | Panic => (w, Panic, mk (ReprEncoder.table encoder) ReprEncStateHolder.new (use_huffman e))
  end.

Definition is_finished (e : t) : bool := ReprEncStateHolder.is_empty (holder e).
End HpackEncoder.

(** * The decoding loop ends *)

Module D := HpackDecoder.

(** A turn that decodes a representation from a fresh state consumes input. *)
Lemma repr_decode_shrinks buf st repr rd :
  ReprDecoder.decode (ReprDecoder.mk buf st) = (Ok (Some repr), rd) →
  ReprDecoder.state rd = None ∧ (length (ReprDecoder.buf rd) ≤ length buf)%nat ∧
  (st = None → length (ReprDecoder.buf rd) < length buf)%nat.
Proof.
  unfold ReprDecoder.decode. simpl. destruct buf as [|x buf]; [done|].
  pose proof (state_suffix (default (IndexState FirstByte) st) (x :: buf)) as Hs.
  pose proof (fresh_suffix x buf) as Hf.
  destruct (state_decode _ _) as [[r|s|e] b] eqn:Hd; [|done..]. intros [= <- <-]. simpl.
  split; [done|]. split; [by apply suffix_length in Hs|].
  intros ->. simpl default in Hd. rewrite Hd in Hf. apply suffix_length in Hf. simpl in *. lia.
Qed.

Lemma decode_loop_total fuel rd d :
  (length (ReprDecoder.buf rd) + (if ReprDecoder.state rd is Some _ then 1 else 0) < fuel)%nat →
  is_Some (D.decode_loop fuel rd d).
Proof.
  revert rd d. induction fuel as [|fuel IH]; intros rd d Hf; [lia|]. simpl.
  destruct rd as [buf st].
  destruct (ReprDecoder.decode (ReprDecoder.mk buf st)) as [[[repr|]|e|] rd] eqn:Hd; [|by eexists..].
  apply repr_decode_shrinks in Hd as (Hst & Hle & Hlt).
  destruct (D.update repr d) as [[[]|e|] d']; [|by eexists..]. apply IH.
  rewrite Hst. simpl in Hf. destruct st; [lia|]. specialize (Hlt eq_refl). lia.
Qed.

Lemma decode_loop_mono n m rd d x :
  (n ≤ m)%nat → D.decode_loop n rd d = Some x → D.decode_loop m rd d = Some x.
Proof.
  revert m rd d. induction n as [|n IH]; intros m rd d Hm; [done|].
  destruct m as [|m]; [lia|]. simpl.
  destruct (ReprDecoder.decode rd) as [[[repr|]|e|] rd']; try done.
  destruct (D.update repr d) as [[[]|e|] d']; try done. apply IH. lia.
Qed.

(** [decode] is the loop run to its end. *)
Lemma decode_eq buf d n x :
  D.decode_loop n (ReprDecoder.mk buf (D.holder d)) (D.set_holder d None) = Some x →
  D.decode buf d = x.
Proof.
  intros Hn. unfold D.decode, ReprDecoder.load, ReprDecoder.new. simpl ReprDecoder.buf.
  destruct (decode_loop_total (D.decode_fuel buf) (ReprDecoder.mk buf (D.holder d))
    (D.set_holder d None)) as [y Hy].
  { unfold D.decode_fuel. simpl. destruct (D.holder d); lia. }
  rewrite Hy. simpl. apply (decode_loop_mono _ (n + D.decode_fuel buf)) in Hn, Hy; [|lia..].
  congruence.
Qed.

Lemma decode_loop_decode buf d :
  D.decode_loop (D.decode_fuel buf) (ReprDecoder.mk buf (D.holder d)) (D.set_holder d None) =
    Some (D.decode buf d).
Proof.
  destruct (decode_loop_total (D.decode_fuel buf) (ReprDecoder.mk buf (D.holder d))
    (D.set_holder d None)) as [y Hy].
  { unfold D.decode_fuel. simpl. destruct (D.holder d); lia. }
  by rewrite (decode_eq buf d _ _ Hy).
Qed.

(** * Segments *)

(** A turn on a longer buffer: what was decoded stays decoded. *)
Lemma repr_decode_app buf st b2 :
  match ReprDecoder.decode (ReprDecoder.mk buf st) with
  | (Ok (Some repr), rd) =>
      ReprDecoder.decode (ReprDecoder.mk (buf ++ b2) st) =
        (Ok (Some repr), ReprDecoder.mk (ReprDecoder.buf rd ++ b2) (ReprDecoder.state rd))
  | (Ok None, rd) =>
      b2 ≠ [] → ∃ rd',
      ReprDecoder.decode (ReprDecoder.mk (buf ++ b2) st) =
        ((ReprDecoder.decode (ReprDecoder.mk b2 (ReprDecoder.state rd))).1, rd') ∧
      ((∀ e, (ReprDecoder.decode (ReprDecoder.mk b2 (ReprDecoder.state rd))).1 ≠ Err e) →
       rd' = (ReprDecoder.decode (ReprDecoder.mk b2 (ReprDecoder.state rd))).2)
  | (Err e, _) => (ReprDecoder.decode (ReprDecoder.mk (buf ++ b2) st)).1 = Err e
  | (Panic, _) => False
  end.
Proof.
  unfold ReprDecoder.decode. simpl. destruct buf as [|x buf].
  { intros Hb. simpl. destruct b2 as [|y b2]; [done|].
    destruct (state_decode _ _) as [[]]; eauto. }
  rewrite <- app_comm_cons. set (s := default (IndexState FirstByte) st).
  pose proof (state_resumable s (x :: buf) b2) as H. unfold resumes in H.
  rewrite <- app_comm_cons in H.
  destruct (state_decode s (x :: buf)) as [[r|s'|e] b].
  - by rewrite H.
  - destruct H as [-> H]. intros Hb. simpl. destruct b2 as [|y b2]; [done|].
    destruct (state_decode s (x :: buf ++ y :: b2)) as [[]];
      destruct (state_decode s' (y :: b2)) as [[]]; simplify_eq/=; eauto.
    eexists. split; [done|]. intros Hne. by destruct (Hne e0).
  - by destruct (state_decode s (x :: buf ++ b2)) as [[]]; simplify_eq/=.
Qed.

(** The field a representation stands for, and whether the table takes it in. *)
Definition denotes (d : DynamicTable.t) (r : Representation) : option (Header.t * bytes) :=
  let named n v :=
    match n with
    | Index i => (λ h, (h, v)) <$> TableSearcher.search_header_name d i
    | Literal o => Some (Header.Other o, v)
    end in
  match r with
  | Indexed i => TableSearcher.search_header d i
  | LiteralWithIndexing n v | LiteralWithoutIndexing n v | LiteralNeverIndexed n v => named n v
  | SizeUpdate _ => None
  end.

Definition indexes (r : Representation) : bool :=
  match r with LiteralWithIndexing _ _ => true | _ => false end.

(** What a field does to the decoder once it is known. *)
Definition take_field (index : bool) (f : Header.t * bytes) (d : D.t) : res H2Error () * D.t :=
  let d := D.set_header_size d (D.header_size d + entry_size f) in
  if D.header_list_size d <? D.header_size d then (Err (ConnectionError ConnectError), d)
  else
    let d := if index then D.set_table d (DynamicTable.update (D.table d) f.1 f.2) else d in
    match Parts.update (E := H2Error) (D.parts d) f.1 f.2 with
    | Ok p => (Ok (), D.set_parts d p)
    | Err e => (Err e, d)
    | Panic => (Panic, d)
    end.

#[local] Arguments Parts.update : simpl never.

Lemma hpack_update_spec r d :
  D.update r d =
    match r with
    | SizeUpdate m => (Ok (), D.set_table d (DynamicTable.update_size (D.table d) m))
    | _ =>
        match denotes (D.table d) r with
        | None => (Err (ConnectionError CompressionError), d)
        | Some f => take_field (indexes r) f d
        end
    end.
Proof.
  destruct d as [ls tb ps hs ho].
  destruct r as [i|n v|n v|n v|m]; try destruct n as [i|o]; [..|done];
    unfold D.update, D.update_indexed, D.update_literal_with_indexing,
      D.update_literal_never_indexing, D.update_literal_without_indexing,
      D.get_header_by_name_and_value, D.check_header_list_size, D.update_size, D.parts_update,
      D.table_update, take_field, denotes, mmodify, mget, mlift, ok_or, mfail, mret, M_ret,
      mbind, M_bind; cbn;
    try match goal with
    | |- context [TableSearcher.search_header tb ?i] =>
        destruct (TableSearcher.search_header tb i) as [[h w]|]; [|done]
    | |- context [TableSearcher.search_header_name tb ?i] =>
        destruct (TableSearcher.search_header_name tb i) as [h|]; [|done]
    end; cbn;
    unfold header_line_length, entry_size; cbn;
    match goal with |- context [ls <? ?x] => destruct (ls <? x); [done|] end; cbn;
    match goal with |- context [Parts.update ps ?h ?v] => by destruct (Parts.update ps h v) end.
Qed.

(** What [update] leaves alone, whatever its outcome. *)
Definition same_frame (d d' : D.t) : Prop :=
  D.holder d' = D.holder d ∧ D.header_list_size d' = D.header_list_size d.

Lemma update_frame r d : same_frame d (D.update r d).2.
Proof.
  rewrite hpack_update_spec. unfold same_frame, take_field.
  destruct r; try done; (destruct (denotes _ _) as [f|]; [|done]); destruct (_ <? _); try done;
    by destruct (Parts.update _ _ _).
Qed.

Lemma set_holder_None d s : D.holder d = None → D.set_holder (D.set_holder d s) None = d.
Proof. destruct d; simpl. by intros ->. Qed.

(** The loop on two segments, one after the other. *)
Lemma decode_loop_app n rd d b2 :
  D.holder d = None →
  match D.decode_loop n rd d with
  | Some (Ok _, d1) =>
      ∀ m x, D.decode_loop m (ReprDecoder.mk b2 (D.holder d1)) (D.set_holder d1 None) = Some x →
      D.decode_loop (n + m) (ReprDecoder.mk (ReprDecoder.buf rd ++ b2) (ReprDecoder.state rd)) d
        = Some x
  | Some x =>
      D.decode_loop n (ReprDecoder.mk (ReprDecoder.buf rd ++ b2) (ReprDecoder.state rd)) d = Some x
  | None => True
  end.
Proof.
  revert rd d. induction n as [|n IH]; intros [buf st] d Hh; [done|]. simpl.
  pose proof (repr_decode_app buf st b2) as Happ.
  destruct (ReprDecoder.decode (ReprDecoder.mk buf st)) as [[[repr|]|e|] rd] eqn:Hd; [| | |done].
  - rewrite Happ. pose proof (update_frame repr d) as [Hh' _].
    destruct (D.update repr d) as [[[]|e|] d'] eqn:Hu; [|done..].
    apply IH. simpl in Hh'. congruence.
  - intros m x. rewrite set_holder_None by done. simpl D.holder. unfold ReprDecoder.save.
    destruct b2 as [|y b2].
    + destruct m as [|m]; [done|]. rewrite app_nil_r, Hd. simpl.
      unfold ReprDecoder.decode. simpl. intros [= <-]. done.
    + destruct (Happ ltac:(done)) as (rd' & Heq & Hrd). rewrite Heq.
      destruct m as [|m]; [done|]. simpl.
      destruct (ReprDecoder.decode (ReprDecoder.mk (y :: b2) (ReprDecoder.state rd)))
        as [[[repr|]|e|] rd2]; simpl in *; rewrite ?Hrd by done; try done.
      destruct (D.update repr d) as [[[]|e|] d']; try done.
      intros Hx. apply (decode_loop_mono m); [lia|done].
  - destruct (ReprDecoder.decode (ReprDecoder.mk (buf ++ b2) st)) as [r rd']. simpl in Happ.
    by subst r.
Qed.

(** Cutting the input of [decode] does not change what it does; an error in
    the first segment is the error of the whole. *)
Lemma hpack_decode_app b1 b2 d :
  D.decode (b1 ++ b2) d = (_ ← D.decode b1; D.decode b2) d.
Proof.
  pose proof (decode_loop_app (D.decode_fuel b1) (ReprDecoder.mk b1 (D.holder d))
    (D.set_holder d None) b2 eq_refl) as H. rewrite decode_loop_decode in H.
  unfold mbind, M_bind. destruct (D.decode b1 d) as [[[]|e|] d1].
  - eapply decode_eq, H, decode_loop_decode.
  - by eapply decode_eq.
  - by eapply decode_eq.
Qed.

(** * Invariants of the decoder *)

Definition opt_wf (o : option ReprDecodeState) : Prop :=
  match o with Some s => state_wf s | None => True end.

(** What holds of a decoder between calls. *)
Definition hd_ok (d : D.t) : Prop := dyn_ok (D.table d) ∧ opt_wf (D.holder d).

Lemma bytes_ok_suffix (r l : bytes) : r `suffix_of` l → bytes_ok l → bytes_ok r.
Proof. intros [p ->]. rewrite Forall_app. tauto. Qed.

Lemma repr_decode_wf buf st :
  bytes_ok buf → opt_wf st →
  let '(r, rd) := ReprDecoder.decode (ReprDecoder.mk buf st) in
  bytes_ok (ReprDecoder.buf rd) ∧ opt_wf (ReprDecoder.state rd) ∧
  (∀ repr, r = Ok (Some repr) → repr_wf repr).
Proof.
  intros Hb Hs. unfold ReprDecoder.decode. simpl. destruct buf as [|x buf]; [done|].
  set (s := default (IndexState FirstByte) st).
  assert (Hws : state_wf s) by by destruct st.
  pose proof (state_decode_wf s (x :: buf) Hws Hb) as Hw.
  pose proof (bytes_ok_suffix _ _ (state_suffix s (x :: buf)) Hb) as Hr.
  destruct (state_decode s (x :: buf)) as [[r|s'|e] b]; unfold dec_wf in Hw; simpl in *.
  - split; [done|]. split; [done|]. by intros ? [= <-].
  - by split.
  - by split.
Qed.

(** A property that every [update] keeps is kept by the loop. *)
Lemma decode_loop_inv (P : D.t → Prop) n rd d x d' :
  (∀ r d, repr_wf r → P d → P (D.update r d).2) →
  (∀ d s, P d → opt_wf s → P (D.set_holder d s)) →
  P d → bytes_ok (ReprDecoder.buf rd) → opt_wf (ReprDecoder.state rd) →
  D.decode_loop n rd d = Some (x, d') → P d'.
Proof.
  intros Hu Hh. revert rd d. induction n as [|n IH]; intros [buf st] d Hd Hb Hs; [done|]. simpl.
  pose proof (repr_decode_wf buf st Hb Hs) as Hw.
  destruct (ReprDecoder.decode (ReprDecoder.mk buf st)) as [[[repr|]|e|] rd];
    destruct Hw as (Hb' & Hs' & Hr).
  - specialize (Hu repr d (Hr _ eq_refl) Hd).
    destruct (D.update repr d) as [[[]|e|] d1]; [by apply IH|by intros [= <- <-]..].
  - intros [= <- <-]. by apply Hh.
  - by intros [= <- <-].
  - by intros [= <- <-].
Qed.

Lemma hpack_decode_inv (P : D.t → Prop) buf d :
  (∀ r d, repr_wf r → P d → P (D.update r d).2) →
  (∀ d s, P d → opt_wf s → P (D.set_holder d s)) →
  P d → bytes_ok buf → opt_wf (D.holder d) → P (D.decode buf d).2.
Proof.
  intros Hu Hh Hd Hb Hs. pose proof (decode_loop_decode buf d) as Hl.
  destruct (D.decode buf d) as [x d']. eapply decode_loop_inv in Hl; eauto. by apply Hh.
Qed.

Lemma update_hd_ok r d : repr_wf r → hd_ok d → hd_ok (D.update r d).2.
Proof.
  intros Hr [[Ht Hm] Hh]. rewrite hpack_update_spec. destruct r as [i|n v|n v|n v|m].
  1-4: destruct (denotes _ _) as [f|]; [|done]; unfold take_field, hd_ok;
    destruct (_ <? _); [done|]; destruct (Parts.update _ _ _); simpl;
    (split; [|done]); first [done|by apply update_dyn_ok].
  destruct Hr. split; [|done]. split; [by apply update_size_ok|].
  cbn [snd D.table D.set_table]. by rewrite update_size_spec.
Qed.

Lemma decode_hd_ok buf d : hd_ok d → bytes_ok buf → hd_ok (D.decode buf d).2.
Proof.
  intros Hd Hb. apply hpack_decode_inv; auto using update_hd_ok.
  - intros d' s [? _] ?. by split.
  - apply Hd.
Qed.

Lemma finish_hd_ok d : hd_ok d → hd_ok (D.finish d).2.
Proof.
  intros Hd. unfold D.finish. destruct (D.holder d) eqn:Hh; [done|].
  split; [apply Hd|]. simpl. by rewrite Hh.
Qed.

(** The header list never grows past the limit without an error. *)
Definition within_limit (x : res H2Error () * D.t) : Prop :=
  x.1 = Ok () → D.header_size x.2 ≤ D.header_list_size x.2.

Lemma update_limit r d :
  D.header_size d ≤ D.header_list_size d → within_limit (D.update r d).
Proof.
  intros Hd. rewrite hpack_update_spec. unfold within_limit, take_field.
  destruct r as [i|n v|n v|n v|m]; [..|done];
    (destruct (denotes _ _) as [f|]; [|done]); destruct (Z.ltb_spec (D.header_list_size
      (D.set_header_size d (D.header_size d + entry_size f)))
      (D.header_size (D.set_header_size d (D.header_size d + entry_size f)))); simpl in *; try done;
    destruct (Parts.update _ _ _); simpl; done.
Qed.

Lemma decode_loop_limit n rd d x :
  D.header_size d ≤ D.header_list_size d → D.decode_loop n rd d = Some x → within_limit x.
Proof.
  revert rd d. induction n as [|n IH]; intros rd d Hd; [done|]. simpl.
  destruct (ReprDecoder.decode rd) as [[[repr|]|e|] rd']; try by intros [= <-].
  2: { intros [= <-] _. exact Hd. }
  pose proof (update_limit repr d Hd) as Hu. unfold within_limit in Hu.
  destruct (D.update repr d) as [[[]|e|] d1]; try by intros [= <-]. apply IH. by apply Hu.
Qed.

Lemma decode_limit buf d :
  D.header_size d ≤ D.header_list_size d → within_limit (D.decode buf d).
Proof. intros Hd. eapply decode_loop_limit, decode_loop_decode. by destruct d. Qed.

(** * The encoder *)

Module E := HpackEncoder.

(** The [ReprEncoder] that [encode] loads. *)
Definition loaded (e : E.t) : ReprEncoder.t :=
  ReprEncoder.mk (E.table e) (ReprEncStateHolder.iter (E.holder e))
    (ReprEncStateHolder.state (E.holder e)).

(** What an encoder has still to write, the table it ends with, and what holds
    of it between calls. *)
Definition he_pending (e : E.t) : bytes := e_pending (E.use_huffman e) (loaded e).
Definition he_table (e : E.t) : DynamicTable.t := e_table (E.use_huffman e) (loaded e).
Definition he_ok (e : E.t) : Prop := e_ok (E.use_huffman e) (loaded e).

Lemma hpack_encode_spec e dst_len :
  he_ok e → 0 < dst_len →
  let '(w, r, e') := E.encode e dst_len in
  he_pending e = w ++ he_pending e' ∧ r = Ok (len w) ∧ len w ≤ dst_len ∧
  he_table e' = he_table e ∧ he_ok e' ∧ E.use_huffman e' = E.use_huffman e ∧
  (if len (he_pending e) <=? dst_len then E.is_finished e' = true else len w = dst_len).
Proof.
  intros Hok Hd. unfold E.encode. pose proof (encode_spec _ (loaded e) dst_len Hok Hd) as H.
  fold (loaded e). destruct (ReprEncoder.encode (loaded e) dst_len (E.use_huffman e)) as [[w r] e'].
  destruct H as (Hp & Ht & Hok' & -> & Hl & Hc). rewrite !Z.add_0_l in *.
  unfold he_pending, he_table, he_ok, loaded, E.is_finished, ReprEncStateHolder.is_empty in *.
  simpl in *. destruct e' as [tb it st].
  destruct (Z.eqb_spec (len w) dst_len) as [He|Hne]; simpl.
  - repeat (split; [done|]). destruct (_ <=? _); [|done]. simpl in Hc. by destruct Hc as [-> ->].
  - destruct (len _ <=? dst_len); [|done]. simpl in Hc. destruct Hc as [-> ->].
    repeat (split; [done|]). done.
Qed.

(** Calls of [encode] with buffers of the given lengths. *)
Fixpoint encode_calls (e : E.t) (lens : list Z) : bytes * E.t :=
  match lens with
  | [] => ([], e)
  | n :: lens =>
      let '(w, _, e) := E.encode e n in
      let '(w', e) := encode_calls e lens in (w ++ w', e)
  end.

Fixpoint sum (l : list Z) : Z := match l with [] => 0 | x :: l => x + sum l end.

Lemma sum_nonneg l : Forall (λ n, 0 < n) l → 0 ≤ sum l.
Proof. induction 1; simpl; lia. Qed.

(** However the output is cut, the concatenation is the header block. *)
Lemma encode_calls_spec e lens :
  he_ok e → Forall (λ n, 0 < n) lens →
  (encode_calls e lens).1 = upto (sum lens) (he_pending e) ∧
  he_pending (encode_calls e lens).2 = from (sum lens) (he_pending e) ∧
  he_table (encode_calls e lens).2 = he_table e ∧ he_ok (encode_calls e lens).2.
Proof.
  intros Hok Hl. revert e Hok. induction Hl as [|n l Hn Hl IH]; intros e Hok; simpl.
  { by rewrite upto_0, from_0. }
  pose proof (hpack_encode_spec e n Hok Hn) as H.
  destruct (E.encode e n) as [[w r] e1]. destruct H as (Hp & _ & Hle & Ht & Hok1 & _ & Hc).
  specialize (IH e1 Hok1). destruct (encode_calls e1 l) as [w' e2]. simpl in *.
  destruct IH as (-> & Hp2 & Ht2 & Hok2). rewrite Ht2, Hp2. split; [|split; [|done]].
  all: pose proof (sum_nonneg l Hl); rewrite Hp, len_app in *;
    destruct (Z.leb_spec (len w + len (he_pending e1)) n) as [Hfin|Hmore].
  - assert (he_pending e1 = []) as ->.
    { unfold E.is_finished, ReprEncStateHolder.is_empty in Hc. destruct e1 as [tb [it st] u].
      by destruct it, st. }
    rewrite app_nil_r, !upto_all; rewrite ?len_nil; rewrite ?len_nil in Hfin; auto using app_nil_r; lia.
  - rewrite upto_app_ge by lia. do 2 f_equal. lia.
  - assert (he_pending e1 = []) as ->.
    { unfold E.is_finished, ReprEncStateHolder.is_empty in Hc. destruct e1 as [tb [it st] u].
      by destruct it, st. }
    rewrite app_nil_r, !from_all; rewrite ?len_nil; rewrite ?len_nil in Hfin; auto; lia.
  - rewrite from_app_ge by lia. f_equal. lia.
Qed.

(** Setting the parts of an idle encoder makes their fields pending. *)
Lemma set_parts_spec into_iter e p :
  E.is_finished e = true → dyn_ok (E.table e) →
  let items := items (PartsIter.new into_iter p) in
  Forall (field_fits (E.use_huffman e)) items →
  let e' := E.set_parts into_iter e p in
  he_ok e' ∧ he_pending e' = fields_bytes (E.use_huffman e) (E.table e) items ∧
  he_table e' = fields_table (E.use_huffman e) (E.table e) items.
Proof.
  intros Hf Hd items Hi e'. destruct e as [tb [it st] u].
  unfold E.is_finished, ReprEncStateHolder.is_empty in Hf. simpl in Hf.
  destruct it, st; try done.
Qed.

(** * Theorems *)

(** The decoding loop ends on every input, in every state: the fuel [decode]
    gives it is enough, and more fuel gives the same result. *)
Theorem hpack_decode_terminates buf d fuel :
  (D.decode_fuel buf ≤ fuel)%nat →
  D.decode_loop fuel (ReprDecoder.mk buf (D.holder d)) (D.set_holder d None) =
    Some (D.decode buf d).
Proof. intros Hf. eapply decode_loop_mono; [exact Hf|]. apply decode_loop_decode. Qed.

Lemma hpack_decode_terminates_witness :
  D.decode_loop 5 (ReprDecoder.mk [0x82] None) (D.with_max_size 4096 100) =
    Some (D.decode [0x82] (D.with_max_size 4096 100)).
Proof.
  apply (hpack_decode_terminates [0x82] (D.with_max_size 4096 100) 5).
  unfold D.decode_fuel. simpl. lia.
Defined.

(** What a decoded representation does, on every branch: an indexed field and
    a literal with an indexed name are looked up, an unknown index is a
    COMPRESSION_ERROR; the field's size is charged against the limit before
    anything else; only a literal with incremental indexing enters the dynamic
    table, and it does so before the header lines are updated; a size update
    resizes the table. *)
Theorem hpack_representation_effect r d :
  D.update r d =
    match r with
    | SizeUpdate m => (Ok (), D.set_table d (DynamicTable.update_size (D.table d) m))
    | _ =>
        match denotes (D.table d) r with
        | None => (Err (ConnectionError CompressionError), d)
        | Some f => take_field (indexes r) f d
        end
    end.
Proof. apply hpack_update_spec. Qed.

(** The decoder's invariant (exact size accounting of the dynamic table, a
    well-formed suspended state) holds initially and after every [decode] and
    [finish], whatever the input, errors and panics included. *)
Theorem hpack_decoder_invariant buf d :
  hd_ok d → bytes_ok buf → hd_ok (D.decode buf d).2 ∧ hd_ok (D.finish d).2.
Proof. intros Hd Hb. split; [by apply decode_hd_ok|by apply finish_hd_ok]. Qed.

Lemma hpack_decoder_invariant_witness :
  hd_ok (D.decode [0x40; 0x01; 0x61; 0x01; 0x62] (D.with_max_size 4096 1000)).2.
Proof.
  apply (hpack_decoder_invariant [0x40; 0x01; 0x61; 0x01; 0x62] (D.with_max_size 4096 1000)).
  - split; [|done]. split; [|done]. by apply with_max_size_ok.
  - repeat constructor; done.
Defined.

(** The header list never exceeds the limit: after a [decode] that succeeds,
    the sizes of the fields accepted since the last [finish] add up to at most
    [header_list_size]. *)
Theorem hpack_header_list_limit buf d :
  D.header_size d ≤ D.header_list_size d →
  (D.decode buf d).1 = Ok () →
  D.header_size (D.decode buf d).2 ≤ D.header_list_size (D.decode buf d).2.
Proof. intros Hd. by apply decode_limit. Qed.

Lemma hpack_header_list_limit_witness :
  D.header_size (D.decode [0x82] (D.with_max_size 4096 42)).2 ≤
    D.header_list_size (D.decode [0x82] (D.with_max_size 4096 42)).2.
Proof.
  apply (hpack_header_list_limit [0x82] (D.with_max_size 4096 42)).
  - simpl. lia.
  - vm_compute. reflexivity.
Defined.

(** An idle encoder given header lines writes their representations in the
    order of the iterator, however the output is cut into buffers: the calls
    write the block's prefix of the buffers' total length, and what is not
    written stays pending. *)
Theorem hpack_encode_segments into_iter e p lens :
  E.is_finished e = true → dyn_ok (E.table e) →
  let fields := items (PartsIter.new into_iter p) in
  Forall (field_fits (E.use_huffman e)) fields → Forall (λ n, 0 < n) lens →
  let block := fields_bytes (E.use_huffman e) (E.table e) fields in
  let '(out, e') := encode_calls (E.set_parts into_iter e p) lens in
  out = upto (sum lens) block ∧ he_pending e' = from (sum lens) block.
Proof.
  intros Hf Hd fields Hi Hl block.
  destruct (set_parts_spec into_iter e p Hf Hd Hi) as (Hok & Hp & _).
  destruct (encode_calls_spec _ lens Hok Hl) as (Hw & Hr & _).
  destruct (encode_calls _ lens) as [out e']. simpl in *. rewrite Hw, Hr, Hp. done.
Qed.

Lemma hpack_encode_segments_witness :
  (encode_calls (E.set_parts (λ h, map_to_list (Headers.map h)) (E.new 4096 false)
    (Parts.mk (PseudoHeaders.set_method PseudoHeaders.new (Some (str "PUT"))) Headers.new))
    [2; 2]).1 = [0x42; 0x03; 0x50; 0x55].
Proof.
  apply (hpack_encode_segments (λ h, map_to_list (Headers.map h)) (E.new 4096 false)
    (Parts.mk (PseudoHeaders.set_method PseudoHeaders.new (Some (str "PUT"))) Headers.new) [2; 2]).
  - reflexivity.
  - split; [|done]. by apply with_max_size_ok.
  - constructor; [|constructor]. repeat split; vm_compute; done.
  - repeat constructor; done.
Defined.

(** A literal field whose name or value [Headers::append] refuses, such as a
    literal pseudo header name or a control character in a value, does not
    become an error of the decoder: [Parts::update] unwraps the result, and the
    decoder panics. *)
Theorem hpack_malformed_field_panics n v d :
  ¬ (name_ok n ∧ value_ok v) →
  D.header_size d + entry_size (Header.Other n, v) ≤ D.header_list_size d →
  (D.update (LiteralWithoutIndexing (Literal n) v) d).1 = Panic.
Proof.
  intros Hf Hs. rewrite hpack_update_spec. simpl. unfold take_field. simpl.
  destruct (Z.ltb_spec (D.header_list_size d) (D.header_size d + entry_size (Header.Other n, v)));
    [lia|].
  pose proof (parts_update_panic (E := H2Error) (D.parts d) (Header.Other n, v) Hf) as Hp.
  simpl in Hp. by rewrite Hp.
Qed.

Lemma hpack_malformed_field_panics_witness :
  (D.update (LiteralWithoutIndexing (Literal (str ":status")) (str "200"))
    (D.with_max_size 4096 1000)).1 = Panic ∧
  (D.decode ([0x00; 0x07] ++ str ":status" ++ [0x03] ++ str "200") (D.with_max_size 4096 1000)).1 = Panic.
Proof.
  split.
  - apply (hpack_malformed_field_panics (str ":status") (str "200") (D.with_max_size 4096 1000)).
    + intros [Hn _]. inversion Hn as [|? ? Hc]. by vm_compute in Hc.
    + vm_compute. done.
  - vm_compute. reflexivity.
Defined.
