(* ===== verification/HpackRoundtrip.v ===== *)
(** What the HPACK encoder writes, the HPACK decoder reads back: for
    representations, for fields, and for whole header lists in any segmentation.
    The one exception is a field whose name, but not value, is found in the
    dynamic table ([dynamic_name_only]). *)
From S2P Require Import Prelude H2Error Huffman HpackInteger HpackTable Headers Parts HpackRepr.
From S2P Require Import HpackReprDecoder HpackReprEncoder Hpack.

(** * Integers and strings *)

Lemma trailing_feed r d l i rest :
  feed d l = Ok (Some i, rest) → trailing_decode r d l = (Decoded (r, i), rest).
Proof.
  revert d. induction l as [|b l IH]; intros d; simpl; [done|].
  destruct (IntegerDecoder.next_byte d b) as [[[j|]|e|] d']; simpl; [|apply IH|done..].
  by intros [= <- <-].
Qed.

Lemma length_feed h d l i rest :
  feed d l = Ok (Some i, rest) → length_trailing_decode h d l = string_start h i rest.
Proof.
  revert d. induction l as [|b l IH]; intros d; simpl; [done|].
  destruct (IntegerDecoder.next_byte d b) as [[[j|]|e|] d']; simpl; [|apply IH|done..].
  by intros [= <- <-].
Qed.

(** The first byte of an encoded integer carries its prefix. *)
Definition prefix_of (r : PrefixBit.t) (pre : Z) : Prop :=
  ∀ x, 0 ≤ x ≤ PrefixBit.prefix_index_mask r → PrefixBit.from_u8 (Z.lor pre x) = r.

Definition prefix_check (r pre : Z) : bool :=
  forallb (λ x, (PrefixBit.prefix_index_mask r <? x) || (PrefixBit.from_u8 (Z.lor pre x) =? r)) octets.

Lemma prefix_of_check r pre :
  prefix_check r pre = true → PrefixBit.prefix_index_mask r < 256 → prefix_of r pre.
Proof.
  intros H Hm x Hx. pose proof (forall_octets _ x H ltac:(unfold is_u8; lia)) as Hc.
  apply orb_true_iff in Hc as [Hc|Hc]; zbool; [lia|done].
Qed.

Lemma int_bytes_cons i mask pre :
  ∃ b l, int_bytes i mask pre = b :: l ∧ b = Z.lor pre (Z.min i mask).
Proof.
  unfold int_bytes. destruct (Z.ltb_spec i mask); eexists _, _; (split; [done|]); f_equal; lia.
Qed.

Lemma decode_int_first mask b l i rest :
  decode_int mask (b :: l) = Ok (Some i, rest) →
  (IntegerDecoder.first_byte b mask = inl i ∧ rest = l) ∨
  (∃ d, IntegerDecoder.first_byte b mask = inr d ∧ feed d l = Ok (Some i, rest)).
Proof.
  simpl. destruct (IntegerDecoder.first_byte b mask) as [j|d]; [|by eauto].
  intros [= <- <-]. by left.
Qed.

(** An index behind its prefix. *)
Lemma index_bytes_decode r pre i rest :
  prefix_of r pre → mask_ok (PrefixBit.prefix_index_mask r) pre →
  is_usize i → bytes_ok rest →
  first_byte_decode (int_bytes i (PrefixBit.prefix_index_mask r) pre ++ rest) =
    (Decoded (r, i), rest).
Proof.
  intros Hp Hm Hi Hr. pose proof (int_roundtrip _ _ i rest Hm Hi Hr) as Hd.
  destruct (int_bytes_cons i (PrefixBit.prefix_index_mask r) pre) as (b & l & Hb & ->).
  rewrite Hb in *. cbn [app first_byte_decode] in *.
  assert (0 ≤ PrefixBit.prefix_index_mask r).
  { destruct Hm as (n & ? & -> & _). pose proof (Z.pow_pos_nonneg 2 n). lia. }
  rewrite Hp by (destruct Hi; lia).
  apply decode_int_first in Hd as [[-> Hl]|(d & -> & Hf)]; [by rewrite <- Hl|].
  by apply trailing_feed.
Qed.

Lemma land_80_pre h x : 0 ≤ x ≤ 127 → (Z.land (Z.lor (pre_mask h) x) 0x80 =? 0x80) = h.
Proof.
  intros Hx.
  assert (Hc : forallb (λ x, (127 <? x) || Bool.eqb (Z.land (Z.lor (pre_mask h) x) 0x80 =? 0x80) h)
    octets = true) by by destruct h; vm_compute.
  pose proof (forall_octets _ x Hc ltac:(unfold is_u8; lia)) as H.
  apply orb_true_iff in H as [H|H]; zbool; [lia|]. by apply Bool.eqb_prop.
Qed.

(** The octets of a string, Huffman-coded or not. *)
Lemma octets_decode h v rest :
  bytes_ok v →
  let o := Octets.src (Octets.new v h) in
  string_start h (len o) (o ++ rest) = (Decoded v, rest).
Proof.
  intros Hv o. subst o. destruct h; simpl.
  - set (o := huffman_encode v []). unfold huffman_string_decode. rewrite len_app, Z.add_0_r, Z.sub_0_r.
    pose proof (len_nonneg rest).
    pose proof (decoder_decode_finish o) as Hd. rewrite (huffman_roundtrip v Hv : huffman_decode o [] = _) in Hd.
    rewrite upto_app_exact, from_app_exact by done.
    destruct (Z.compare_spec (len o + len rest) (len o)); [|lia|];
      destruct (HuffmanDecoder.decode o HuffmanDecoder.new) as [d| |]; try done; simpl in Hd;
      by rewrite Hd.
  - unfold ascii_decode. rewrite len_app, len_nil, Z.add_0_r, Z.sub_0_r. pose proof (len_nonneg rest).
    destruct (Z.compare_spec (len v + len rest) (len v)); [|lia|];
      by rewrite upto_app_exact, from_app_exact.
Qed.

Definition string_bytes (h : bool) (v : bytes) : bytes :=
  let o := Octets.src (Octets.new v h) in int_bytes (len o) 0x7f (pre_mask h) ++ o.

Lemma mask_len_ok h : mask_ok 0x7f (pre_mask h).
Proof. apply (mask_ok_all h). Qed.

Lemma octets_bytes_ok h v : bytes_ok v → bytes_ok (Octets.src (Octets.new v h)).
Proof. intros. destruct h; simpl; [by apply huffman_encode_bytes|done]. Qed.

Lemma string_decode h v rest :
  bytes_ok v → octets_fit h v → bytes_ok rest →
  literal_decode LengthFirstByte (string_bytes h v ++ rest) = (Decoded v, rest).
Proof.
  intros Hv Hf Hr. unfold string_bytes. set (o := Octets.src (Octets.new v h)).
  assert (Hor : bytes_ok (o ++ rest)) by (apply Forall_app; split; [by apply octets_bytes_ok|done]).
  rewrite <- app_assoc.
  pose proof (int_roundtrip 0x7f (pre_mask h) (len o) (o ++ rest) (mask_len_ok h) Hf Hor) as Hd.
  destruct (int_bytes_cons (len o) 0x7f (pre_mask h)) as (b & l & Hb & ->).
  rewrite Hb in *. cbn [app literal_decode length_first_decode] in *.
  pose proof (len_nonneg o). rewrite land_80_pre by lia.
  apply decode_int_first in Hd as [[-> Hl]|(d & -> & Hd)].
  - rewrite <- Hl. by apply octets_decode.
  - rewrite (length_feed _ _ _ _ _ Hd). by apply octets_decode.
Qed.

(** * Representations *)

(** The encoding state of a representation; the encoder has none for a size
    update. *)
Definition repr_state (h : bool) (r : Representation) : option ReprEncodeState.t :=
  match r with
  | Indexed i => Some (ReprEncodeState.indexed_new i)
  | LiteralWithIndexing (Index i) v => Some (ReprEncodeState.indexing_new i v h)
  | LiteralWithIndexing (Literal n) v => Some (ReprEncodeState.indexing_with_name_new n v h)
  | LiteralWithoutIndexing (Index i) v => Some (ReprEncodeState.without_indexing_new i v h)
  | LiteralWithoutIndexing (Literal n) v =>
      Some (ReprEncodeState.without_indexing_with_name_new n v h)
  | LiteralNeverIndexed (Index i) v => Some (ReprEncodeState.never_indexed_new i v h)
  | LiteralNeverIndexed (Literal n) v => Some (ReprEncodeState.never_indexed_with_name_new n v h)
  | SizeUpdate _ => None
  end.

Lemma iv_bytes i mask pre v h :
  iv_pending (IndexAndValue.set_value (IndexAndValue.set_index IndexAndValue.new i mask pre) v h) =
    int_bytes i mask pre ++ string_bytes h v.
Proof.
  unfold iv_pending, string_bytes. simpl. unfold remaining. simpl. rewrite app_nil_r, from_0.
  - by destruct h.
  - by destruct h.
Qed.

Lemma nv_bytes mask pre n v h :
  nv_pending (NameAndValue.set_name_and_value
    (NameAndValue.set_index NameAndValue.new mask pre) n v h) =
    int_bytes 0 mask pre ++ string_bytes h n ++ string_bytes h v.
Proof.
  unfold nv_pending, string_bytes. simpl. unfold remaining. simpl. rewrite app_nil_r, !from_0.
  - rewrite <- !app_assoc. by destruct h.
  - by destruct h.
  - by destruct h.
Qed.

(** A representation the encoder can be asked for. *)
Definition str_ok (h : bool) (v : bytes) : Prop := bytes_ok v ∧ octets_fit h v.
Definition sendable (h : bool) (r : Representation) : Prop :=
  let named n v :=
    str_ok h v ∧ match n with Index i => is_usize i ∧ i ≠ 0 | Literal o => str_ok h o end in
  match r with
  | Indexed i => is_usize i ∧ i ≠ 0
  | LiteralWithIndexing n v | LiteralWithoutIndexing n v | LiteralNeverIndexed n v => named n v
  | SizeUpdate _ => False
  end.

Lemma prefixes :
  prefix_of PrefixBit.INDEXED 0x80 ∧ prefix_of PrefixBit.LITERAL_WITH_INDEXING 0x40 ∧
  prefix_of PrefixBit.LITERAL_WITHOUT_INDEXING 0 ∧ prefix_of PrefixBit.LITERAL_NEVER_INDEXED 0x10.
Proof. repeat split; apply prefix_of_check; done. Qed.

Lemma value_string_ok r n h v rest :
  str_ok h v → bytes_ok rest →
  value_string_decode r n LengthFirstByte (string_bytes h v ++ rest) =
    (Decoded
       (if r =? PrefixBit.LITERAL_WITH_INDEXING then LiteralWithIndexing n v
        else if r =? PrefixBit.LITERAL_WITHOUT_INDEXING then LiteralWithoutIndexing n v
        else LiteralNeverIndexed n v), rest).
Proof. intros [Hv Hf] Hr. unfold value_string_decode. by rewrite string_decode. Qed.

Lemma int_bytes_ok i mask pre : mask_ok mask pre → is_usize i → bytes_ok (int_bytes i mask pre).
Proof.
  intros (n & Hn & -> & Hp & Hl) [Hi _]. unfold int_bytes.
  assert (Hlor : ∀ x, 0 ≤ x ≤ 2 ^ n - 1 → is_u8 (Z.lor pre x)).
  { intros x Hx. assert (2 ^ n ≤ 2 ^ 8) by (apply Z.pow_le_mono_r; lia).
    apply lor_u8; unfold is_u8; lia. }
  destruct (Z.ltb_spec i (2 ^ n - 1)).
  - constructor; [apply Hlor; lia|constructor].
  - constructor; [apply Hlor|apply cont_bytes_ok; lia].
    pose proof (Z.pow_pos_nonneg 2 n ltac:(lia) ltac:(lia)). lia.
Qed.

Lemma string_bytes_ok h v : str_ok h v → bytes_ok (string_bytes h v).
Proof.
  intros [Hv Hf]. unfold string_bytes. apply Forall_app. split.
  - by apply int_bytes_ok; [apply mask_len_ok|].
  - by apply octets_bytes_ok.
Qed.

(** A literal behind the prefix [r], with its name in a table or spelled out. *)
Lemma indexed_literal_decode r pre i h v rest :
  prefix_of r pre → mask_ok (PrefixBit.prefix_index_mask r) pre →
  (r =? PrefixBit.INDEXED) = false → (r =? PrefixBit.SIZE_UPDATE) = false →
  is_usize i → i ≠ 0 → str_ok h v → bytes_ok rest →
  state_decode (IndexState FirstByte)
    ((int_bytes i (PrefixBit.prefix_index_mask r) pre ++ string_bytes h v) ++ rest) =
    value_string_decode r (Index i) LengthFirstByte (string_bytes h v ++ rest).
Proof.
  intros Hp Hm Hr1 Hr2 Hi Hn Hv Hr. rewrite <- app_assoc. simpl. unfold index_decode.
  cbn [index_inner_decode]. rewrite index_bytes_decode; [|done..|].
  - unfold index_arms. rewrite Hr1, Hr2. destruct (Z.eqb_spec i 0); done.
  - apply Forall_app. split; [by apply string_bytes_ok|done].
Qed.

Lemma named_literal_decode r pre h n v rest :
  prefix_of r pre → mask_ok (PrefixBit.prefix_index_mask r) pre →
  (r =? PrefixBit.INDEXED) = false → (r =? PrefixBit.SIZE_UPDATE) = false →
  str_ok h n → str_ok h v → bytes_ok rest →
  state_decode (IndexState FirstByte)
    ((int_bytes 0 (PrefixBit.prefix_index_mask r) pre ++ string_bytes h n ++ string_bytes h v)
      ++ rest) =
    value_string_decode r (Literal n) LengthFirstByte (string_bytes h v ++ rest).
Proof.
  intros Hp Hm Hr1 Hr2 Hn Hv Hr. rewrite <- !app_assoc. simpl. unfold index_decode.
  assert (bytes_ok (string_bytes h v ++ rest)).
  { apply Forall_app. split; [by apply string_bytes_ok|done]. }
  cbn [index_inner_decode]. rewrite index_bytes_decode; [|done..|].
  - unfold index_arms. rewrite Hr1, Hr2. simpl. unfold name_string_decode.
    destruct Hn. by rewrite string_decode.
  - apply Forall_app. split; [by apply string_bytes_ok|done].
Qed.

(** Every representation the encoder writes is read back, whatever follows. *)
Lemma repr_roundtrip h r s rest :
  repr_state h r = Some s → sendable h r → bytes_ok rest →
  state_decode (IndexState FirstByte) (repr_pending s ++ rest) = (Decoded r, rest).
Proof.
  destruct prefixes as (P1 & P2 & P3 & P4). destruct (mask_ok_all h) as (M1 & M2 & M3 & M4 & _).
  destruct r as [i|n v|n v|n v|m]; [|destruct n as [i|n]..|done]; intros [= <-] Hs Hr;
    unfold sendable in Hs.
  { destruct Hs as [Hi Hn]. simpl. unfold index_decode, remaining. simpl.
    rewrite (index_bytes_decode PrefixBit.INDEXED) by done.
    simpl. by destruct (Z.eqb_spec i 0). }
  all: destruct Hs as [Hv Hn]; cbn [repr_pending pending index_and_value_writer
    name_and_value_writer ReprEncodeState.indexing_new ReprEncodeState.indexing_with_name_new
    ReprEncodeState.without_indexing_new ReprEncodeState.without_indexing_with_name_new
    ReprEncodeState.never_indexed_new ReprEncodeState.never_indexed_with_name_new];
    rewrite ?iv_bytes, ?nv_bytes.
  - rewrite (indexed_literal_decode PrefixBit.LITERAL_WITH_INDEXING) by (apply Hn || done).
    by rewrite value_string_ok.
  - rewrite (named_literal_decode PrefixBit.LITERAL_WITH_INDEXING) by done.
    by rewrite value_string_ok.
  - rewrite (indexed_literal_decode PrefixBit.LITERAL_WITHOUT_INDEXING) by (apply Hn || done).
    by rewrite value_string_ok.
  - rewrite (named_literal_decode PrefixBit.LITERAL_WITHOUT_INDEXING) by done.
    by rewrite value_string_ok.
  - rewrite (indexed_literal_decode PrefixBit.LITERAL_NEVER_INDEXED) by (apply Hn || done).
    by rewrite value_string_ok.
  - rewrite (named_literal_decode PrefixBit.LITERAL_NEVER_INDEXED) by done.
    by rewrite value_string_ok.
Qed.

(** * Fields *)

(** The representation the encoder chooses for a field. *)
Definition start_repr (d : DynamicTable.t) (f : Header.t * bytes) : Representation :=
  match TableSearcher.index d f.1 f.2 with
  | Some (TableIndex.Header i) => Indexed i
  | Some (TableIndex.HeaderName i) => LiteralWithIndexing (Index i) f.2
  | None => LiteralWithIndexing (Literal (Header.into_string f.1)) f.2
  end.

Lemma start_state h d f :
  repr_state h (start_repr d f) = Some (ReprEncoder.start d f.1 f.2 h).2.
Proof.
  unfold start_repr, ReprEncoder.start. by destruct (TableSearcher.index d f.1 f.2) as [[]|].
Qed.

Lemma start_table_indexes h d f :
  start_table h d f = if indexes (start_repr d f) then DynamicTable.update d f.1 f.2 else d.
Proof.
  unfold start_repr, start_table, ReprEncoder.start.
  by destruct (TableSearcher.index d f.1 f.2) as [[]|].
Qed.

(** Pseudo headers are all in the static table. *)
Lemma static_index_pseudo h v : StaticTable.index h v = None → ∃ n, h = Header.Other n.
Proof.
  destruct h as [| | | | |n]; [..|by eexists]; unfold StaticTable.index; simpl;
    repeat case_bool_decide; done.
Qed.

Lemma start_repr_denotes d f :
  dynamic_name_only d f.1 f.2 = false → denotes d (start_repr d f) = Some f.
Proof.
  destruct f as [h v]. unfold start_repr. simpl. intros Hn.
  destruct (TableSearcher.index d h v) as [[i|i]|] eqn:Hi; simpl.
  - by apply searcher_header_sound in Hi as [_ ?].
  - apply searcher_name_sound in Hi as [_ ->]. done.
  - apply searcher_none in Hi as [Hs _]. by apply static_index_pseudo in Hs as [n ->].
Qed.

(** A field that can be sent: octets and lengths in range. *)
Definition field_sendable (h : bool) (f : Header.t * bytes) : Prop :=
  str_ok h (Header.into_string f.1) ∧ str_ok h f.2.

Lemma sendable_fits h f : field_sendable h f → field_fits h f.
Proof. by intros [[] []]. Qed.

Lemma start_repr_sendable h d f :
  dyn_ok d → field_sendable h f → sendable h (start_repr d f).
Proof.
  intros Hd [Hn Hv]. unfold start_repr.
  destruct (TableSearcher.index d f.1 f.2) as [[i|i]|] eqn:Hi; simpl; [..|done].
  - split; [exact (searcher_index_bound _ _ _ _ Hd Hi)|]. intros ->.
    unfold TableSearcher.index in Hi. pose proof (dynamic_index_spec d f.1 f.2) as Hs.
    destruct (StaticTable.index f.1 f.2) as [[j|j]|] eqn:Hst;
      destruct (DynamicTable.index d f.1 f.2) as [[k|k]|]; simpl in Hs; simplify_eq/=;
      try (apply static_index_header in Hst as [? _]; lia);
      destruct Hs as (m & -> & _); lia.
  - split; [done|]. split; [exact (searcher_index_bound _ _ _ _ Hd Hi)|].
    apply searcher_name_sound in Hi as [? _]. lia.
Qed.

Lemma set_holder_id d : D.holder d = None → D.set_holder d None = d.
Proof. destruct d. simpl. by intros ->. Qed.

Lemma repr_decode_whole b r :
  state_decode (IndexState FirstByte) b = (Decoded r, []) →
  ReprDecoder.decode (ReprDecoder.mk b None) = (Ok (Some r), ReprDecoder.mk [] None).
Proof.
  intros Hb. unfold ReprDecoder.decode. cbn [ReprDecoder.buf ReprDecoder.state default].
  destruct b as [|x b]; [done|]. cbv [default]. by rewrite Hb.
Qed.

(** Decoding the bytes of one field is taking the field. *)
Lemma decode_field h d f :
  D.holder d = None → dyn_ok (D.table d) → field_sendable h f →
  dynamic_name_only (D.table d) f.1 f.2 = false →
  D.decode (start_bytes h (D.table d) f) d = take_field (indexes (start_repr (D.table d) f)) f d.
Proof.
  intros Hh Hd Hf Hn. set (r := start_repr (D.table d) f).
  pose proof (repr_roundtrip h r _ [] (start_state h (D.table d) f)
    (start_repr_sendable h _ f Hd Hf) ltac:(constructor)) as Hr.
  rewrite app_nil_r in Hr. fold (start_bytes h (D.table d) f) in Hr.
  assert (Hu : D.update r d = take_field (indexes r) f d).
  { rewrite hpack_update_spec. subst r. rewrite start_repr_denotes by done.
    unfold start_repr. by destruct (TableSearcher.index _ _ _) as [[]|]. }
  apply (decode_eq _ _ 2). rewrite Hh, (set_holder_id d) by done. cbn [D.decode_loop].
  rewrite (repr_decode_whole _ r Hr), Hu.
  pose proof (update_frame r d) as [Hh' _]. rewrite Hu in Hh'.
  destruct (take_field (indexes r) f d) as [[[]|e|] d']; simpl in *; [|done..].
  do 2 f_equal. apply set_holder_id. congruence.
Qed.

(** No field of the list hits the name-only case. *)
Fixpoint name_only_free (h : bool) (d : DynamicTable.t) (l : list (Header.t * bytes)) : bool :=
  match l with
  | [] => true
  | f :: l => negb (dynamic_name_only d f.1 f.2) && name_only_free h (start_table h d f) l
  end.

Lemma fields_decode h l d p' :
  D.holder d = None → dyn_ok (D.table d) → Forall (field_sendable h) l →
  name_only_free h (D.table d) l = true →
  D.header_size d + queue_size l ≤ D.header_list_size d →
  updates (E := H2Error) (D.parts d) l = Ok p' →
  D.decode (fields_bytes h (D.table d) l) d =
    (Ok (), D.mk (D.header_list_size d) (fields_table h (D.table d) l) p'
              (D.header_size d + queue_size l) None).
Proof.
  revert d. induction l as [|f l IH]; intros d Hh Hd Hl Hn Hs Hp; simpl in *.
  { injection Hp as <-. unfold D.decode. simpl. rewrite Hh, Z.add_0_r. done. }
  inversion_clear Hl as [|? ? Hf Hl']. zbool. rename H into Hno, H0 into Hnl.
  rewrite hpack_decode_app. unfold mbind, M_bind. rewrite decode_field by done.
  unfold take_field. pose proof (queue_size_nonneg l).
  destruct (Z.ltb_spec (D.header_list_size (D.set_header_size d (D.header_size d + entry_size f)))
    (D.header_size (D.set_header_size d (D.header_size d + entry_size f)))) as [Hbad|_];
    [simpl in Hbad; lia|].
  set (d1 := if indexes _ then _ else _).
  assert (Hd1 : D.table d1 = start_table h (D.table d) f ∧ D.parts d1 = D.parts d ∧
    D.holder d1 = None ∧ D.header_list_size d1 = D.header_list_size d ∧
    D.header_size d1 = D.header_size d + entry_size f).
  { rewrite start_table_indexes. subst d1. by destruct (indexes _). }
  destruct Hd1 as (Ht & Hpa & Hho & Hls & Hhs). rewrite Hpa.
  destruct (Parts.update (D.parts d) f.1 f.2) as [p1|e|]; simpl in Hp; [|done..].
  assert (Hd' : dyn_ok (start_table h (D.table d) f)).
  { rewrite start_table_indexes. destruct (indexes _); [by apply update_dyn_ok|done]. }
  rewrite <- Ht. specialize (IH (D.set_parts d1 p1)). simpl in IH.
  rewrite IH, Hls, Hhs; rewrite ?Ht, ?Hls, ?Hhs; try done; try lia.
  do 2 f_equal. lia.
Qed.

(** * Header lists *)

(** Header lines as [Headers] keeps them: names in normal form, values of
    legal bytes. *)
Definition lines_wf (h : Headers.t) : Prop :=
  ∀ n v, Headers.map h !! n = Some v →
    name_ok n ∧ HeaderName.normalize_byte <$> n = n ∧ Forall value_ok (HeaderValue.inner v).

(** The same header list, with multiple values joined or not. *)
Definition same_parts (p q : Parts.t) : Prop :=
  Parts.pseudo p = Parts.pseudo q ∧
  ∀ n, HeaderValue.to_vec <$> Headers.map (Parts.map p) !! n =
       HeaderValue.to_vec <$> Headers.map (Parts.map q) !! n.

#[export] Instance same_parts_equiv : Equivalence same_parts.
Proof.
  split.
  - by split.
  - intros p q [? H]. split; [done|]. intros n. by rewrite H.
  - intros p q r [? H1] [? H2]. split; [congruence|]. intros n. by rewrite H1.
Qed.

Lemma to_vec_value_ok v : Forall value_ok (HeaderValue.inner v) → value_ok (HeaderValue.to_vec v).
Proof.
  rewrite to_vec_spec. intros Hv. destruct Hv as [|i l Hi Hl]; [constructor|].
  apply Forall_app. split; [done|]. induction Hl as [|j l Hj Hl IH]; simpl; [constructor|].
  repeat constructor. apply Forall_app. by split.
Qed.

Lemma append_wf h n v h' :
  bytes_ok n → lines_wf h → Headers.append h n v = Ok h' → lines_wf h'.
Proof.
  intros Hb Hw. rewrite append_spec. destruct (decide _) as [[Hn Hv]|]; [|done]. intros [= <-].
  intros m w. destruct (decide (HeaderName.normalize_byte <$> n = m)) as [<-|Hne].
  - rewrite append_entry_lookup. intros [= <-].
    assert (Hnorm : HeaderName.normalize_byte <$> (HeaderName.normalize_byte <$> n) =
      HeaderName.normalize_byte <$> n).
    { rewrite <- list_fmap_compose. apply list_fmap_ext. intros i x Hx.
      apply normalize_byte_ok; [by eapply Forall_lookup_1|].
      exact (Forall_lookup_1 _ _ _ _ Hn Hx). }
    split; [|split; [done|]].
    + apply name_ok_normalize. rewrite Hnorm. by apply name_ok_normalize.
    + destruct (Headers.map h !! _) as [o|] eqn:Ho; simpl; [|by repeat constructor].
      apply Hw in Ho as (_ & _ & Ho). apply Forall_app. split; [done|by repeat constructor].
  - rewrite append_entry_lookup_ne by done. apply Hw.
Qed.

(** Updating fresh parts with the lines of a map gives each its joined value. *)
Lemma line_updates {E} m p :
  NoDup m.*1 → (∀ n v, (n, v) ∈ m → Headers.map (Parts.map p) !! n = None) →
  (∀ n v, (n, v) ∈ m → name_ok n ∧ HeaderName.normalize_byte <$> n = n ∧
    Forall value_ok (HeaderValue.inner v)) →
  ∃ p', updates (E := E) p (line_items m) = Ok p' ∧ Parts.pseudo p' = Parts.pseudo p ∧
    ∀ n, Headers.map (Parts.map p') !! n =
      match list_to_map (M := gmap bytes HeaderValue.t) m !! n with
      | Some v => Some (HeaderValue.mk [HeaderValue.to_vec v] false)
      | None => Headers.map (Parts.map p) !! n
      end.
Proof.
  revert p. induction m as [|[k w] m IH]; intros p Hnd Hfresh Hok; simpl.
  { exists p. split; [done|]. split; [done|]. intros n. by rewrite lookup_empty. }
  pose proof (NoDup_cons_1_1 _ _ Hnd) as Hk. apply NoDup_cons_1_2 in Hnd. simpl in Hk.
  destruct (Hok k w ltac:(left)) as (Hn & Hnorm & Hv). apply to_vec_value_ok in Hv.
  assert (Happ : Headers.append (Parts.map p) k (HeaderValue.to_vec w) =
    Ok (Headers.append_entry (Parts.map p) k (HeaderValue.mk [HeaderValue.to_vec w] false))).
  { rewrite append_spec, Hnorm. by destruct (decide _) as [|[]]. }
  rewrite Happ. simpl. set (p1 := Parts.mk _ _).
  destruct (IH p1 Hnd) as (p' & -> & Hps & Hlk); [..|exists p'; split; [done|]].
  - intros n v Hin. simpl. rewrite append_entry_lookup_ne; [by apply Hfresh with v; right|].
    intros ->. apply Hk. apply list_elem_of_fmap. by exists (n, v).
  - intros n v Hin. apply Hok. by right.
  - split; [done|]. intros n. rewrite Hlk. destruct (decide (k = n)) as [<-|Hne].
    + rewrite lookup_insert_eq, not_elem_of_list_to_map_1 by done. simpl.
      rewrite append_entry_lookup. by rewrite (Hfresh k w ltac:(left)).
    + rewrite lookup_insert_ne by done. simpl. by rewrite append_entry_lookup_ne.
Qed.

Lemma updates_app {E} p l k :
  updates (E := E) p (l ++ k) = (p ← updates p l; updates p k).
Proof.
  revert p. induction l as [|f l IH]; intros p; simpl; [done|].
  destruct (Parts.update p f.1 f.2); simpl; [apply IH|done..].
Qed.

(** Decoding the items of an iterator rebuilds the parts it came from. *)
Lemma updates_items {E} into_iter p :
  (∀ h, into_iter h ≡ₚ map_to_list (Headers.map h)) → lines_wf (Parts.map p) →
  ∃ p', updates (E := E) Parts.new (items (PartsIter.new into_iter p)) = Ok p' ∧ same_parts p' p.
Proof.
  intros Hperm Hwf. rewrite items_new. specialize (Hperm (Parts.map p)).
  destruct p as [ps m]. simpl in *. set (q := Parts.mk ps Headers.new).
  destruct (line_updates (E := E) (into_iter m) q) as (p' & Hp' & Hps & Hlk).
  - rewrite Hperm. apply NoDup_fst_map_to_list.
  - intros n v _. apply lookup_empty.
  - intros n v Hin. rewrite Hperm in Hin. by apply Hwf, elem_of_map_to_list.
  - exists p'. split.
    + rewrite !app_assoc, updates_app. rewrite <- Hp'. destruct ps as [au me pa sc st].
      by destruct au, me, pa, sc, st.
    + split; [done|]. intros n. simpl. rewrite Hlk.
      assert (Hnd : NoDup (into_iter m).*1) by (rewrite Hperm; apply NoDup_fst_map_to_list).
      rewrite (list_to_map_proper _ _ Hnd Hperm), list_to_map_to_list.
      destruct (Headers.map m !! n) as [v|]; simpl; [|done].
      done.
Qed.

(** * Both ends *)

(** Calls of [decode] with the given segments. *)
Fixpoint decode_calls (segments : list bytes) : D.dec () :=
  match segments with
  | [] => mret ()
  | s :: segments => _ ← D.decode s; decode_calls segments
  end.

Lemma decode_calls_concat segments d :
  decode_calls segments d = D.decode (concat segments) d.
Proof.
  revert d. induction segments as [|s l IH]; intros d; simpl.
  - unfold D.decode. simpl. by destruct d.
  - rewrite hpack_decode_app. unfold mbind, M_bind.
    destruct (D.decode s d) as [[[]|e|] d']; [apply IH|done..].
Qed.

Lemma encode_calls_finished e lens :
  he_ok e → Forall (λ n, 0 < n) lens → lens ≠ [] → len (he_pending e) ≤ sum lens →
  E.is_finished (encode_calls e lens).2 = true.
Proof.
  intros Hok Hl. revert e Hok. induction Hl as [|n l Hn Hl IH]; intros e Hok Hne Hs; [done|].
  simpl. pose proof (hpack_encode_spec e n Hok Hn) as H.
  destruct (E.encode e n) as [[w r] e1]. destruct H as (Hp & _ & Hle & Ht & Hok1 & _ & Hc).
  specialize (IH e1 Hok1). destruct (encode_calls e1 l) as [w' e2] eqn:He2. simpl in *.
  assert (Hcase : E.is_finished e1 = true ∧ l = [] ∨ l ≠ [] ∧ len (he_pending e1) ≤ sum l).
  { rewrite Hp, len_app in *. pose proof (len_nonneg (he_pending e1)). pose proof (sum_nonneg l Hl).
    destruct (Z.leb_spec (len w + len (he_pending e1)) n) as [Hfin|]; destruct l as [|n' l];
      [by left| |simpl in Hs; lia|right; split; [done|lia]].
    right. split; [done|].
    unfold E.is_finished, ReprEncStateHolder.is_empty in Hc. destruct e1 as [tb [it st] u].
    destruct it, st; try done. }
  destruct Hcase as [[Hf ->]|[Hne' Hs']]; [|by apply IH].
  simpl in He2. by injection He2 as _ <-.
Qed.

Lemma finished_table e : E.is_finished e = true → he_table e = E.table e.
Proof.
  unfold E.is_finished, ReprEncStateHolder.is_empty. destruct e as [tb [it st] u].
  by destruct it, st.
Qed.

(** C9: A header list, encoded by an idle encoder into non-empty buffers of any lengths
    that hold it, and fed in any segments to an idle decoder with the same dynamic
    table, comes out of [finish] as the same header list, and leaves both
    dynamic tables equal: the two ends stay synchronised for the next block.
    Conditions: the lines are well formed and their strings have lengths that fit a
    [usize]; the list is within the decoder's limit on its size; and no field is found in
    the dynamic table by its name alone ([name_only_free]), where the encoder sends the
    field of the entry instead ([table_search_name_only]). *)
Theorem hpack_roundtrip into_iter e p d lens segments :
  (∀ h, into_iter h ≡ₚ map_to_list (Headers.map h)) →
  lines_wf (Parts.map p) → E.is_finished e = true → dyn_ok (E.table e) →
  let fields := items (PartsIter.new into_iter p) in
  Forall (field_sendable (E.use_huffman e)) fields →
  name_only_free (E.use_huffman e) (E.table e) fields = true →
  D.table d = E.table e → D.holder d = None → D.parts d = Parts.new →
  D.header_size d + queue_size fields ≤ D.header_list_size d →
  Forall (λ n, 0 < n) lens → lens ≠ [] →
  len (he_pending (E.set_parts into_iter e p)) ≤ sum lens →
  concat segments = (encode_calls (E.set_parts into_iter e p) lens).1 →
  ∃ p' d', (_ ← decode_calls segments; D.finish) d = (Ok p', d') ∧ same_parts p' p ∧
    E.is_finished (encode_calls (E.set_parts into_iter e p) lens).2 = true ∧
    D.table d' = E.table (encode_calls (E.set_parts into_iter e p) lens).2 ∧
    D.holder d' = None ∧ D.parts d' = Parts.new ∧ D.header_size d' = 0.
Proof.
  intros Hit Hwf Hfin Hdyn fields Hsend Hfree Htab Hho Hpa Hsz Hlens Hne Hfit Hseg.
  destruct (updates_items (E := H2Error) into_iter p Hit Hwf) as (p' & Hup & Hsame).
  destruct (set_parts_spec into_iter e p Hfin Hdyn) as (Hok & Hpend & Hhet).
  { eapply Forall_impl; [apply sendable_fits|exact Hsend]. }
  fold fields in Hpend, Hhet, Hup.
  destruct (encode_calls_spec _ lens Hok Hlens) as (Hw & _ & Ht & _).
  pose proof (encode_calls_finished _ lens Hok Hlens Hne Hfit) as Hf.
  rewrite upto_all in Hw by done. rewrite Hw, Hpend in Hseg.
  exists p'. eexists. split; [|split; [done|split; [done|]]].
  - unfold mbind, M_bind. rewrite decode_calls_concat, Hseg, <- Htab.
    rewrite (fields_decode _ _ _ p'); [done|done|by rewrite Htab|done|by rewrite Htab|done|].
    by rewrite Hpa.
  - simpl. split; [|done]. rewrite <- finished_table, Ht, Hhet, Htab by done. done.
Qed.

Definition sample_parts : Parts.t :=
  Parts.mk (PseudoHeaders.set_path (PseudoHeaders.set_method PseudoHeaders.new (Some (str "GET")))
              (Some (str "/x")))
    (Headers.mk {[ str "accept" := HeaderValue.mk [str "a"; str "b"] false ]}).

Lemma sample_wf : lines_wf (Parts.map sample_parts).
Proof.
  intros n v Hn. unfold sample_parts in Hn. cbn [Parts.map Headers.map] in Hn.
  apply lookup_singleton_Some in Hn as [<- <-].
  split; [|split]; [repeat constructor; done|reflexivity|].
  constructor; [|constructor; [|constructor]]; repeat constructor; done.
Qed.

Lemma sample_sendable :
  Forall (field_sendable false) (items (PartsIter.new (λ h, map_to_list (Headers.map h)) sample_parts)).
Proof.
  assert (Hi : items (PartsIter.new (λ h, map_to_list (Headers.map h)) sample_parts) =
    [(Header.Method, str "GET"); (Header.Path, str "/x"); (Header.Other (str "accept"), str "a, b")])
    by (vm_compute; reflexivity). rewrite Hi.
  repeat first [apply Forall_nil_2 | apply Forall_cons_2];
    (split; (split; [repeat constructor; done|split; vm_compute; done])).
Qed.

Lemma hpack_roundtrip_witness :
  ∃ p' d', (_ ← decode_calls [[0x82; 0x44]; [0x02; 0x2f; 0x78; 0x53; 0x04]; [0x61; 0x2c; 0x20; 0x62]];
            D.finish) (D.with_max_size 4096 1000) = (Ok p', d') ∧ same_parts p' sample_parts.
Proof.
  destruct (hpack_roundtrip (λ h, map_to_list (Headers.map h)) (E.new 4096 false) sample_parts
    (D.with_max_size 4096 1000) [3; 100]
    [[0x82; 0x44]; [0x02; 0x2f; 0x78; 0x53; 0x04]; [0x61; 0x2c; 0x20; 0x62]]) as (p' & d' & H & Hs & _).
  - done.
  - apply sample_wf.
  - done.
  - split; [|done]. by apply with_max_size_ok.
  - apply sample_sendable.
  - vm_compute. reflexivity.
  - done.
  - done.
  - done.
  - vm_compute. done.
  - repeat constructor; done.
  - done.
  - vm_compute. done.
  - vm_compute. reflexivity.
  - by exists p', d'.
Defined.

(** Every representation the encoder can write, its seven kinds with or
    without Huffman coding, is read back by the decoder as that representation,
    whatever follows it. *)
Theorem representation_roundtrip h r s rest :
  repr_state h r = Some s → sendable h r → bytes_ok rest →
  state_decode (IndexState FirstByte) (repr_pending s ++ rest) = (Decoded r, rest).
Proof. apply repr_roundtrip. Qed.

Lemma representation_roundtrip_witness :
  state_decode (IndexState FirstByte)
    (repr_pending (ReprEncodeState.never_indexed_with_name_new (str "ab") (str "c") true) ++ [1]) =
    (Decoded (LiteralNeverIndexed (Literal (str "ab")) (str "c")), [1]).
Proof.
  apply (representation_roundtrip true (LiteralNeverIndexed (Literal (str "ab")) (str "c"))).
  - reflexivity.
  - split; (split; [repeat constructor; done|split; vm_compute; done]).
  - repeat constructor; done.
Defined.

(** However a header block is cut into any number of segments, the calls of
    [decode] do what one call on the whole block does: each continues where the
    one before stopped, in the middle of an integer, a string or a Huffman code,
    and the first error ends the block. *)
Theorem hpack_decode_any_segments segments d :
  decode_calls segments d = D.decode (concat segments) d.
Proof. apply decode_calls_concat. Qed.
