(* ===== verification/H2Frame.v ===== *)
(** HTTP/2 frames ([ylong_http/src/h2/frame.rs]): the data of every frame type,
    the flag byte and its setters, settings, and the small operations on them. *)
From S2P Require Import Prelude H2Error Headers Parts.

Abbreviation StreamId := Z (only parsing).

Definition END_STREAM_MASK : Z := 0x01.
Definition RST_STREAM_MASK : Z := 0x03.
Definition END_HEADERS_MASK : Z := 0x04.
Definition PADDED_MASK : Z := 0x08.
Definition HEADERS_PRIORITY_MASK : Z := 0x20.
Definition ACK_MASK : Z := 0x1.

Module FrameType.
Inductive t :=
| Data | Headers | Priority | RstStream | Settings | PushPromise | Ping | Goaway
| WindowUpdate | Continuation.

(** [frame_type as u8]: the discriminants. *)
Definition as_u8 (t : t) : Z :=
  match t with
  | Data => 0x0 | Headers => 0x1 | Priority => 0x2 | RstStream => 0x03 | Settings => 0x4
  | PushPromise => 0x5 | Ping => 0x6 | Goaway => 0x7 | WindowUpdate => 0x8 | Continuation => 0x9
  end.

#[global] Instance frame_type_eq_dec : EqDecision t.
Proof. solve_decision. Defined.
End FrameType.

Module Setting.
Inductive t :=
| HeaderTableSize (v : Z)
| EnablePush (b : bool)
| MaxConcurrentStreams (v : Z)
| InitialWindowSize (v : Z)
| MaxFrameSize (v : Z)
| MaxHeaderListSize (v : Z).

#[global] Instance setting_eq_dec : EqDecision t.
Proof. solve_decision. Defined.

Definition setting_identifier (s : t) : Z :=
  match s with
  | HeaderTableSize _ => 0x01
  | EnablePush _ => 0x02
  | MaxConcurrentStreams _ => 0x03
  | InitialWindowSize _ => 0x04
  | MaxFrameSize _ => 0x05
  | MaxHeaderListSize _ => 0x06
  end.
End Setting.

Module Settings.
(** [struct Settings { settings: Vec<Setting> }]. *)
Abbreviation t := (list Setting.t).

(** [iter_mut().find(..)] and the overwrite, or [push]. *)
Fixpoint update_setting (s : t) (setting : Setting.t) : t :=
  match s with
  | [] => [setting]
  | x :: s =>
      if Setting.setting_identifier x =? Setting.setting_identifier setting then setting :: s
      else x :: update_setting s setting
  end.

Definition encoded_len (s : t) : Z := len s * 6.
End Settings.

(** [Payload] and the structs of its variants. *)
Module Payload.
Inductive t :=
| Headers (parts : Parts.t)
| Data (data : bytes)
| Priority (exclusive : bool) (stream_dependency weight : Z)
| RstStream (error_code : Z)
| Ping (data : bytes)
| Settings (settings : Settings.t)
| Goaway (error_code last_stream_id : Z) (debug_data : bytes)
| WindowUpdate (window_size_increment : Z)
| PushPromise (promised_stream_id : Z) (parts : Parts.t).

Definition as_headers (p : t) : option Parts.t :=
  match p with Headers h => Some h | _ => None end.

Definition frame_type (p : t) : FrameType.t :=
  match p with
  | Headers _ => FrameType.Headers
  | Data _ => FrameType.Data
  | Priority _ _ _ => FrameType.Priority
  | Ping _ => FrameType.Ping
  | RstStream _ => FrameType.RstStream
  | Settings _ => FrameType.Settings
  | Goaway _ _ _ => FrameType.Goaway
  | WindowUpdate _ => FrameType.WindowUpdate
  | PushPromise _ _ => FrameType.PushPromise
  end.
End Payload.

(** [struct FrameFlags(u8)]. *)
Module FrameFlags.
Abbreviation t := Z (only parsing).

Definition empty : t := 0.
Definition is_end_stream (f : t) : bool := Z.land f END_STREAM_MASK =? END_STREAM_MASK.
Definition is_end_headers (f : t) : bool := Z.land f END_HEADERS_MASK =? END_HEADERS_MASK.
Definition is_padded (f : t) : bool := Z.land f PADDED_MASK =? PADDED_MASK.
Definition is_ack (f : t) : bool := Z.land f ACK_MASK =? ACK_MASK.

(** [self.0 |= mask] or [self.0 &= !mask], at eight bits. *)
Definition set_mask (mask : Z) (f : t) (b : bool) : t :=
  if b then Z.lor f mask else Z.land f (255 - mask).
Definition set_end_stream (f : t) (b : bool) : t := set_mask END_STREAM_MASK f b.
Definition set_end_headers (f : t) (b : bool) : t := set_mask END_HEADERS_MASK f b.
Definition set_padded (f : t) (b : bool) : t := set_mask PADDED_MASK f b.
End FrameFlags.

Module Frame.
Record t := mk { id : Z; flags : FrameFlags.t; payload : Payload.t }.

Definition settings_ack : t := mk 0 0x1 (Payload.Settings []).
Definition ping_ack (ping : bytes) : t := mk 0 0x1 (Payload.Ping ping).
End Frame.

(** [RstStream::error]. *)
Definition rst_stream_error (error_code id : Z) : res H2Error H2Error :=
  c ← error_code_try_from error_code; Ok (StreamError id c).

Definition rst_stream_is_no_error (error_code : Z) : bool := error_code =? 0.

Definition goaway_encoded_len (debug_data : bytes) : Z := 8 + len debug_data.
Definition window_update_encoded_len : Z := 4.

(** * Flags *)

(** The three flags the setters write, as the getters read them. *)
Definition flag_view (f : Z) : bool * bool * bool :=
  (FrameFlags.is_end_stream f, FrameFlags.is_end_headers f, FrameFlags.is_padded f).

Definition flags_check (b : bool) (f : Z) : bool :=
  let '(s, h, p) := flag_view f in
  bool_decide (flag_view (FrameFlags.set_end_stream f b) = (b, h, p)) &&
  bool_decide (flag_view (FrameFlags.set_end_headers f b) = (s, b, p)) &&
  bool_decide (flag_view (FrameFlags.set_padded f b) = (s, h, b)) &&
  is_u8b (FrameFlags.set_end_stream f b) && is_u8b (FrameFlags.set_end_headers f b) &&
  is_u8b (FrameFlags.set_padded f b).

Lemma flag_setters f b :
  is_u8 f →
  let '(s, h, p) := flag_view f in
  flag_view (FrameFlags.set_end_stream f b) = (b, h, p) ∧
  flag_view (FrameFlags.set_end_headers f b) = (s, b, p) ∧
  flag_view (FrameFlags.set_padded f b) = (s, h, b).
Proof.
  intros Hf.
  assert (Hall : forallb (flags_check b) octets = true) by by destruct b; vm_compute.
  pose proof (forall_octets _ f Hall Hf) as H. unfold flags_check in H.
  destruct (flag_view f) as [[s h] p].
  repeat (apply andb_true_iff in H as [H ?]).
  split; [|split]; by eapply bool_decide_eq_true_1.
Qed.

(** * Settings *)

Definition ids (s : Settings.t) : list Z := Setting.setting_identifier <$> s.

(** The value a settings list gives an identifier: its first occurrence. *)
Definition lookup_setting (s : Settings.t) (i : Z) : option Setting.t :=
  find (λ x, Setting.setting_identifier x =? i) s.

Lemma update_setting_lookup s x i :
  lookup_setting (Settings.update_setting s x) i =
    if i =? Setting.setting_identifier x then Some x else lookup_setting s i.
Proof.
  induction s as [|y s IH]; simpl.
  - rewrite Z.eqb_sym. done.
  - destruct (Z.eqb_spec (Setting.setting_identifier y) (Setting.setting_identifier x)) as [He|Hn];
      simpl.
    + destruct (Z.eqb_spec (Setting.setting_identifier x) i);
        destruct (Z.eqb_spec i (Setting.setting_identifier x)); try congruence.
      by destruct (Z.eqb_spec (Setting.setting_identifier y) i); [congruence|].
    + rewrite IH. destruct (Z.eqb_spec (Setting.setting_identifier y) i); [|done].
      destruct (Z.eqb_spec i (Setting.setting_identifier x)); [congruence|done].
Qed.

Lemma update_setting_ids s x :
  ids (Settings.update_setting s x) =
    if decide (Setting.setting_identifier x ∈ ids s) then ids s
    else ids s ++ [Setting.setting_identifier x].
Proof.
  induction s as [|y s IH]; simpl; [done|].
  destruct (Z.eqb_spec (Setting.setting_identifier y) (Setting.setting_identifier x)) as [He|Hn];
    simpl.
  - rewrite decide_True by (rewrite He; left). by rewrite He.
  - fold (ids (Settings.update_setting s x)) (ids s). rewrite IH.
    destruct (decide (Setting.setting_identifier x ∈ ids s)) as [Hin|Hout].
    + by rewrite decide_True by by right.
    + rewrite decide_False; [done|]. rewrite elem_of_cons. intros [|]; congruence.
Qed.

(** * Theorems *)

(** A flag setter writes the flag it names, in both directions, and leaves
    the other two as they were. *)
Theorem frame_flag_setters f b :
  is_u8 f →
  let '(s, h, p) := flag_view f in
  flag_view (FrameFlags.set_end_stream f b) = (b, h, p) ∧
  flag_view (FrameFlags.set_end_headers f b) = (s, b, p) ∧
  flag_view (FrameFlags.set_padded f b) = (s, h, b).
Proof. apply flag_setters. Qed.

Lemma frame_flag_setters_witness :
  flag_view (FrameFlags.set_end_stream 0x0d false) = (false, true, true).
Proof. apply (frame_flag_setters 0x0d false). unfold is_u8. lia. Defined.

(** Updating a settings list sets the value of the setting's identifier,
    keeps every other value, keeps the order and adds no duplicate. *)
Theorem settings_update s x :
  (∀ i, lookup_setting (Settings.update_setting s x) i =
    if i =? Setting.setting_identifier x then Some x else lookup_setting s i) ∧
  ids (Settings.update_setting s x) =
    if decide (Setting.setting_identifier x ∈ ids s) then ids s
    else ids s ++ [Setting.setting_identifier x].
Proof. split; [intros i; apply update_setting_lookup|apply update_setting_ids]. Qed.
