(* ===== verification/H2FrameDecoder.v ===== *)
(** The HTTP/2 frame decoder ([ylong_http/src/h2/decoder.rs]).

    [FrameDecoder] is a state machine with two stages, the nine-byte frame
    header and the payload, each of which keeps the bytes of an incomplete
    piece in [buffer].  Every [decode_*_payload] method is a computation in the
    monad [M] over the decoder's state: the state survives an error, and an
    index out of bounds or a [usize] underflow is a panic. *)
From S2P Require Import Prelude H2Error HpackTable Headers Parts Hpack H2Frame.

Definition FRAME_HEADER_LENGTH : Z := 9.
Definition DEFAULT_MAX_FRAME_SIZE : Z := 16384.
Definition MAX_ALLOWED_MAX_FRAME_SIZE : Z := 16777215.
Definition DEFAULT_HEADER_TABLE_SIZE : Z := 4096.
Definition DEFAULT_MAX_HEADER_LIST_SIZE : Z := 16777216.
Definition MAX_INITIAL_WINDOW_SIZE : Z := 2147483647.

Inductive FrameKind := Complete (f : Frame.t) | Partial.

Inductive Stage := StageHeader | StagePayload.

Module FrameHeader.
Record t := mk { stream_id : Z; flags : Z; frame_type : Z; payload_length : Z }.

Definition new : t := mk 0 0 0 0.
Definition is_end_stream (h : t) : bool := Z.land END_STREAM_MASK (flags h) =? END_STREAM_MASK.
Definition is_padded (h : t) : bool := Z.land PADDED_MASK (flags h) =? PADDED_MASK.
Definition is_end_headers (h : t) : bool := Z.land END_HEADERS_MASK (flags h) =? END_HEADERS_MASK.
Definition is_headers_priority (h : t) : bool :=
  Z.land HEADERS_PRIORITY_MASK (flags h) =? HEADERS_PRIORITY_MASK.
Definition is_ack (h : t) : bool := Z.land ACK_MASK (flags h) =? ACK_MASK.
End FrameHeader.

Module Continuations.
Record t := mk {
  flags : Z;
  is_end_stream : bool;
  stream_id : Z;
  is_end_headers : bool;
  promised_stream_id : Z;
}.

Definition new : t := mk 0 false 0 true 0.
End Continuations.

Definition is_connection_frame (id : Z) : bool := id =? 0.

(** Indexing and slicing, which panic out of bounds. *)
Definition index_ {E} (l : bytes) (i : Z) : res E Z := unwrap (l !! Z.to_nat i).
Definition slice_ {E} (a b : Z) (l : bytes) : res E bytes :=
  if (0 <=? a) && (a <=? b) && (b <=? len l) then Ok (slice a b l) else Panic.
(** [a - b] on [usize]. *)
Definition sub_ {E} (a b : Z) : res E Z := if b <=? a then Ok (a - b) else Panic.

Definition get_stream_id (token : bytes) : Z :=
  Z.lor (Z.lor (Z.lor (Z.shiftl (Z.land (at_ token 0) 0x7f) 24) (Z.shiftl (at_ token 1) 16))
    (Z.shiftl (at_ token 2) 8)) (at_ token 3).

Definition get_code_value (token : bytes) : Z :=
  Z.lor (Z.lor (Z.lor (Z.shiftl (at_ token 0) 24) (Z.shiftl (at_ token 1) 16))
    (Z.shiftl (at_ token 2) 8)) (at_ token 3).

Definition protocol_error : H2Error := ConnectionError ProtocolError.
Definition frame_size_error : H2Error := ConnectionError FrameSizeError.

Definition get_setting (id value : Z) : res H2Error (option Setting.t) :=
  match id with
  | 1 => Ok (Some (Setting.HeaderTableSize value))
  | 2 =>
      match value with
      | 0 => Ok (Some (Setting.EnablePush false))
      | 1 => Ok (Some (Setting.EnablePush true))
      | _ => Err protocol_error
      end
  | 3 => Ok (Some (Setting.MaxConcurrentStreams value))
  | 4 =>
      if MAX_INITIAL_WINDOW_SIZE <? value then Err (ConnectionError FlowControlError)
      else Ok (Some (Setting.InitialWindowSize value))
  | 5 =>
      if negb ((DEFAULT_MAX_FRAME_SIZE <=? value) && (value <=? MAX_ALLOWED_MAX_FRAME_SIZE))
      then Err protocol_error
      else Ok (Some (Setting.MaxFrameSize value))
  | 6 => Ok (Some (Setting.MaxHeaderListSize value))
  | _ => Ok None
  end.

(** A token shorter than six bytes panics. *)
Definition split_token_to_setting (token : bytes) : res H2Error (option Setting.t) :=
  t0 ← index_ token 0;
  t1 ← index_ token 1;
  let id := Z.lor (Z.shiftl t0 8) t1 in
  t ← slice_ 2 6 token;
  let value := get_code_value t in
  get_setting id value.

(** [buf.chunks(6)]: the last chunk may be shorter. *)
Fixpoint chunks_fuel (fuel : nat) (n : Z) (l : bytes) : list bytes :=
  match fuel, l with
  | S fuel, _ :: _ => upto n l :: chunks_fuel fuel n (from n l)
  | _, _ => []
  end.
Definition chunks (n : Z) (l : bytes) : list bytes := chunks_fuel (length l) n l.

(** The [for] loop of [decode_settings_payload]. *)
Fixpoint settings_loop (cs : list bytes) (settings : Settings.t) : res H2Error Settings.t :=
  match cs with
  | [] => Ok settings
  | chunk :: cs =>
      o ← split_token_to_setting chunk;
      settings_loop cs (match o with Some s => settings ++ [s] | None => settings end)
  end.

Module FrameDecoder.
Record t := mk {
  buffer : bytes;
  offset : Z;
  max_frame_size : Z;
  stage : Stage;
  header : FrameHeader.t;
  hpack : HpackDecoder.t;
  continuations : Continuations.t;
}.

Definition new : t :=
  mk [] 0 DEFAULT_MAX_FRAME_SIZE StageHeader FrameHeader.new
    (HpackDecoder.with_max_size DEFAULT_HEADER_TABLE_SIZE DEFAULT_MAX_HEADER_LIST_SIZE)
    Continuations.new.

Definition set_bo (d : t) (b : bytes) (o : Z) : t :=
  mk b o (max_frame_size d) (stage d) (header d) (hpack d) (continuations d).
Definition set_stage (d : t) (s : Stage) : t :=
  mk (buffer d) (offset d) (max_frame_size d) s (header d) (hpack d) (continuations d).
Definition set_header (d : t) (h : FrameHeader.t) : t :=
  mk (buffer d) (offset d) (max_frame_size d) (stage d) h (hpack d) (continuations d).
Definition set_hpack (d : t) (h : HpackDecoder.t) : t :=
  mk (buffer d) (offset d) (max_frame_size d) (stage d) (header d) h (continuations d).
Definition set_cont (d : t) (c : Continuations.t) : t :=
  mk (buffer d) (offset d) (max_frame_size d) (stage d) (header d) (hpack d) c.

Definition set_max_frame_size (size : Z) : M t H2Error () := λ d,
  if negb ((DEFAULT_MAX_FRAME_SIZE <=? size) && (size <=? MAX_ALLOWED_MAX_FRAME_SIZE)) then
    (Err protocol_error, d)
  else
    (Ok (), mk (buffer d) (offset d) size (stage d) (header d) (hpack d) (continuations d)).

Definition set_max_header_list_size (d : t) (size : Z) : t :=
  set_hpack d (HpackDecoder.update_header_list_size (hpack d) size).

Definition dec A := M t H2Error A.

(** [HpackDecoderLayer]. *)
Definition hpack_decode (buf : bytes) : dec () := λ d,
  let '(r, h) := HpackDecoder.decode buf (hpack d) in (r, set_hpack d h).
Definition hpack_finish : dec Parts.t := λ d,
  let '(r, h) := HpackDecoder.finish (hpack d) in (r, set_hpack d h).

(** [if self.offset != 0 { buffer.extend; offset += ..; buffer } else { buf }] *)
Definition merge (buf : bytes) : dec bytes := λ d,
  if negb (offset d =? 0) then
    (Ok (buffer d ++ buf), set_bo d (buffer d ++ buf) (offset d + len buf))
  else (Ok buf, d).

(** [Frame::new(self.header.stream_id, FrameFlags::new(self.header.flags), p)] *)
Definition complete (h : FrameHeader.t) (p : Payload.t) : dec FrameKind :=
  mret (Complete (Frame.mk (FrameHeader.stream_id h) (FrameHeader.flags h) p)).

Definition decode_ping_payload (buf : bytes) : dec FrameKind :=
  h ← mgets header;
  if negb (is_connection_frame (FrameHeader.stream_id h)) then mfail protocol_error
  else
    buf ← merge buf;
    if negb (FrameHeader.payload_length h =? 8) || negb (len buf =? 8) then mfail frame_size_error
    else complete h (Payload.Ping buf).

Definition decode_priority_payload (buf : bytes) : dec FrameKind :=
  let EXCLUSIVE_MASK := 0x80 in
  h ← mgets header;
  if is_connection_frame (FrameHeader.stream_id h) then mfail protocol_error
  else if negb (FrameHeader.payload_length h =? 5) || negb (len buf =? 5) then
    mfail (StreamError (FrameHeader.stream_id h) FrameSizeError)
  else
    buf ← merge buf;
    b0 ← mlift (index_ buf 0);
    let exclusive := Z.land b0 EXCLUSIVE_MASK =? EXCLUSIVE_MASK in
    t ← mlift (slice_ 0 4 buf);
    let stream_dependency := get_stream_id t in
    weight ← mlift (index_ buf 4);
    complete h (Payload.Priority exclusive stream_dependency weight).

Definition decode_goaway_payload (buf : bytes) : dec FrameKind :=
  h ← mgets header;
  if negb (is_connection_frame (FrameHeader.stream_id h)) then mfail protocol_error
  else
    buf ← merge buf;
    if (FrameHeader.payload_length h <? 8) || (len buf <? 8) then mfail frame_size_error
    else
      t ← mlift (slice_ 0 4 buf);
      let last_stream_id := get_stream_id t in
      c ← mlift (slice_ 4 8 buf);
      let error_code := get_code_value c in
      debug_data ← mlift (slice_ 8 (len buf) buf);
      complete h (Payload.Goaway error_code last_stream_id debug_data).

Definition decode_window_update_payload (buf : bytes) : dec FrameKind :=
  h ← mgets header;
  buf ← merge buf;
  if negb (FrameHeader.payload_length h =? 4) || negb (len buf =? 4) then mfail frame_size_error
  else
    let increment_size :=
      Z.lor (Z.lor (Z.lor (Z.shiftl (Z.land 0x7f (at_ buf 0)) 24) (Z.shiftl (at_ buf 1) 16))
        (Z.shiftl (at_ buf 2) 8)) (at_ buf 3) in
    if increment_size =? 0 then mfail (StreamError (FrameHeader.stream_id h) ProtocolError)
    else complete h (Payload.WindowUpdate increment_size).

Definition decode_reset_payload (buf : bytes) : dec FrameKind :=
  h ← mgets header;
  if is_connection_frame (FrameHeader.stream_id h) then mfail protocol_error
  else
    buf ← merge buf;
    if negb (FrameHeader.payload_length h =? 4) || negb (len buf =? 4) then mfail frame_size_error
    else
      t ← mlift (slice_ 0 4 buf);
      let code := get_code_value t in
      complete h (Payload.RstStream code).

Definition decode_settings_payload (buf : bytes) : dec FrameKind :=
  h ← mgets header;
  if negb (is_connection_frame (FrameHeader.stream_id h)) then mfail protocol_error
  else
    buf ← merge buf;
    if negb (FrameHeader.payload_length h mod 6 =? 0) then mfail frame_size_error
    else if FrameHeader.is_ack h then
      if negb (FrameHeader.payload_length h =? 0) || negb (len buf =? 0) then mfail frame_size_error
      else complete h (Payload.Settings [])
    else
      settings ← mlift (settings_loop (chunks 6 buf) []);
      complete h (Payload.Settings settings).

Definition decode_data_payload (buf : bytes) : dec FrameKind :=
  h ← mgets header;
  if is_connection_frame (FrameHeader.stream_id h) then mfail protocol_error
  else
    buf ← merge buf;
    if FrameHeader.payload_length h =? 0 then complete h (Payload.Data [])
    else
      data ←
        (if FrameHeader.is_padded h then
           padded_length ← mlift (index_ buf 0);
           if FrameHeader.payload_length h <=? padded_length then mfail protocol_error
           else
             let data_end_index := FrameHeader.payload_length h - padded_length in
             mlift (slice_ 1 data_end_index buf)
         else mlift (slice_ 0 (FrameHeader.payload_length h) buf));
      complete h (Payload.Data data).

Definition decode_continuation_payload (buf : bytes) : dec FrameKind :=
  h ← mgets header;
  if is_connection_frame (FrameHeader.stream_id h) then mfail protocol_error
  else
    buf ← merge buf;
    if FrameHeader.is_end_headers h then
      _ ← hpack_decode buf;
      headers ← hpack_finish;
      c ← mgets continuations;
      let payload :=
        if negb (Continuations.promised_stream_id c =? 0) then
          Payload.PushPromise (Continuations.promised_stream_id c) headers
        else Payload.Headers headers in
      let frame := Frame.mk (Continuations.stream_id c) (Continuations.flags c) payload in
      _ ← mmodify (λ d, set_cont d Continuations.new);
      mret (Complete frame)
    else
      _ ← hpack_decode buf;
      mret Partial.

(** The fragment of a header block between the padding length, the priority
    fields and the padding: [start] and [end] before [if padded]. *)
Definition fragment_bounds (h : FrameHeader.t) (start : Z) (buf : bytes) : dec (Z * Z) :=
  if FrameHeader.is_padded h then
    padded_length ← mlift (index_ buf 0);
    if FrameHeader.payload_length h <=? padded_length then mfail protocol_error
    else mret (start + 1, FrameHeader.payload_length h - padded_length)
  else mret (start, FrameHeader.payload_length h).

Definition decode_headers_payload (buf : bytes) : dec FrameKind :=
  h ← mgets header;
  if is_connection_frame (FrameHeader.stream_id h) then mfail protocol_error
  else
    buf ← merge buf;
    '(fragment_start_index, fragment_end_index) ← fragment_bounds h 0 buf;
    let fragment_start_index :=
      if FrameHeader.is_headers_priority h then fragment_start_index + 5
      else fragment_start_index in
    if fragment_end_index <? fragment_start_index then mfail protocol_error
    else if FrameHeader.is_end_headers h then
      fragment ← mlift (slice_ fragment_start_index fragment_end_index buf);
      _ ← hpack_decode fragment;
      headers ← hpack_finish;
      complete h (Payload.Headers headers)
    else
      _ ← mmodify (λ d, set_cont d
            (Continuations.mk (FrameHeader.flags h) (FrameHeader.is_end_stream h)
               (FrameHeader.stream_id h) false
               (Continuations.promised_stream_id (continuations d))));
      fragment ← mlift (slice_ fragment_start_index fragment_end_index buf);
      _ ← hpack_decode fragment;
      mret Partial.

Definition push_promise_framing (end_headers : bool) (promised_stream_id : Z) : dec FrameKind :=
  h ← mgets header;
  if end_headers then
    headers ← hpack_finish;
    complete h (Payload.PushPromise promised_stream_id headers)
  else
    _ ← mmodify (λ d, set_cont d
          (Continuations.mk (FrameHeader.flags h)
             (Continuations.is_end_stream (continuations d))
             (FrameHeader.stream_id h) false promised_stream_id));
    mret Partial.

(** The whole payload goes to [hpack_decode]. *)
Definition decode_push_promise_payload (buf : bytes) : dec FrameKind :=
  h ← mgets header;
  if is_connection_frame (FrameHeader.stream_id h) then mfail protocol_error
  else
    buf ← merge buf;
    '(fragment_start_index, fragment_end_index) ← fragment_bounds h 4 buf;
    if fragment_end_index <? fragment_start_index then mfail protocol_error
    else
      _ ← hpack_decode buf;
      t ← mlift (if FrameHeader.is_padded h then slice_ 1 5 buf else slice_ 0 4 buf);
      let promised_stream_id := get_stream_id t in
      if is_connection_frame promised_stream_id then mfail protocol_error
      else push_promise_framing (FrameHeader.is_end_headers h) promised_stream_id.

(** The [match self.header.frame_type]. *)
Definition decode_payload_by_type (frame_type : Z) (buf : bytes) : dec FrameKind :=
  match frame_type with
  | 0 => decode_data_payload buf
  | 1 => decode_headers_payload buf
  | 2 => decode_priority_payload buf
  | 3 => decode_reset_payload buf
  | 4 => decode_settings_payload buf
  | 5 => decode_push_promise_payload buf
  | 6 => decode_ping_payload buf
  | 7 => decode_goaway_payload buf
  | 8 => decode_window_update_payload buf
  | 9 => decode_continuation_payload buf
  | _ => mfail protocol_error
  end.

Definition decode_frame_payload (buf : bytes) : dec (option (bytes * FrameKind)) :=
  d ← mget;
  let h := header d in
  let c := continuations d in
  if negb (Continuations.is_end_headers c)
     && (negb (FrameHeader.stream_id h =? Continuations.stream_id c)
         || negb (FrameHeader.frame_type h =? 9))
  then mfail protocol_error
  else
    frame_end_index ← mlift (sub_ (FrameHeader.payload_length h) (offset d));
    if len buf <? frame_end_index then
      _ ← mmodify (λ d, set_bo d (buffer d ++ buf) (offset d + len buf));
      mret None
    else
      frame ← decode_payload_by_type (FrameHeader.frame_type h) (upto frame_end_index buf);
      _ ← mmodify (λ d, set_header d FrameHeader.new);
      _ ← mmodify (λ d, if negb (offset d =? 0) then set_bo d [] 0 else d);
      mret (Some (from frame_end_index buf, frame)).

Definition decode_frame_header (buf : bytes) : dec (option bytes) :=
  d ← mget;
  payload_pos ← mlift (sub_ FRAME_HEADER_LENGTH (offset d));
  if len buf <? payload_pos then
    _ ← mmodify (λ d, set_bo d (buffer d ++ buf) (offset d + len buf));
    mret None
  else
    header_buffer ←
      (if offset d =? 0 then mret buf
       else
         _ ← mmodify (λ d, set_bo d (buffer d ++ upto payload_pos buf) (offset d));
         mgets buffer);
    h0 ← mlift (index_ header_buffer 0);
    h1 ← mlift (index_ header_buffer 1);
    h2 ← mlift (index_ header_buffer 2);
    let payload_length := Z.shiftl h0 16 + Z.shiftl h1 8 + h2 in
    if max_frame_size d <? payload_length then mfail frame_size_error
    else
      frame_type ← mlift (index_ header_buffer 3);
      flags ← mlift (index_ header_buffer 4);
      t ← mlift (slice_ 5 9 header_buffer);
      let stream_id := get_stream_id t in
      _ ← mmodify (λ d, if negb (offset d =? 0) then set_bo d [] 0 else d);
      _ ← mmodify (λ d, set_header d (FrameHeader.mk stream_id flags frame_type payload_length));
      mret (Some (from payload_pos buf)).

(** One turn of the [loop] of [decode]: [None] to break, or the rest of the
    buffer with the frame that was completed. *)
Definition turn (buf : bytes) : dec (option (bytes * option FrameKind)) :=
  s ← mgets stage;
  match s with
  | StageHeader =>
      o ← decode_frame_header buf;
      match o with
      | Some remain =>
          _ ← mmodify (λ d, set_stage d StagePayload);
          mret (Some (remain, None))
      | None => mret None
      end
  | StagePayload =>
      o ← decode_frame_payload buf;
      match o with
      | Some (remain, frame) =>
          _ ← mmodify (λ d, set_stage d StageHeader);
          mret (Some (remain, Some frame))
      | None => mret None
      end
  end.

(** The loop; [None] when the fuel runs out. *)
Fixpoint decode_loop (fuel : nat) (buf : bytes) (frames : list FrameKind) (d : t)
    : option (res H2Error (list FrameKind) * t) :=
  match fuel with
  | O => None
  | S fuel =>
      match turn buf d with
      | (Ok None, d) => Some (Ok frames, d)
      | (Ok (Some (remain, o)), d) => decode_loop fuel remain (frames ++ option_list o) d
      | (Err e, d) => Some (Err e, d)
      | (Panic, d) => Some (Panic, d)
      end
  end.

(** A header takes at least a byte and a payload is followed by a header. *)
Definition decode_fuel (buf : bytes) : nat := 3 + 2 * length buf.

Definition decode (buf : bytes) : dec (list FrameKind) := λ d,
  default (Panic, d) (decode_loop (decode_fuel buf) buf [] d).
End FrameDecoder.

Module F := FrameDecoder.

(** * The two stages, unfolded *)

(** The check at the head of [decode_frame_payload]. *)
Definition out_of_order (d : F.t) : bool :=
  negb (Continuations.is_end_headers (F.continuations d))
  && (negb (FrameHeader.stream_id (F.header d) =? Continuations.stream_id (F.continuations d))
      || negb (FrameHeader.frame_type (F.header d) =? 9)).

Definition payload_length (d : F.t) : Z := FrameHeader.payload_length (F.header d).
Definition frame_type (d : F.t) : Z := FrameHeader.frame_type (F.header d).

(** [self.buffer] and [self.offset] forgotten. *)
Definition clear (d : F.t) : F.t := F.set_bo d [] 0.
Definition clear_if (d : F.t) : F.t := if negb (F.offset d =? 0) then clear d else d.

Lemma payload_unfold buf d :
  F.decode_frame_payload buf d =
    if out_of_order d then (Err protocol_error, d)
    else if negb (F.offset d <=? payload_length d) then (Panic, d)
    else
      let n := payload_length d - F.offset d in
      if len buf <? n then
        (Ok None, F.set_bo d (F.buffer d ++ buf) (F.offset d + len buf))
      else
        match F.decode_payload_by_type (frame_type d) (upto n buf) d with
        | (Ok frame, d') => (Ok (Some (from n buf, frame)), clear_if (F.set_header d' FrameHeader.new))
        | (Err e, d') => (Err e, d')
        | (Panic, d') => (Panic, d')
        end.
Proof.
  unfold F.decode_frame_payload. cbv [mget mbind M_bind]. fold (out_of_order d).
  destruct (out_of_order d); [done|]. fold (payload_length d) (frame_type d).
  unfold mlift, sub_. destruct (F.offset d <=? payload_length d); simpl; [|done].
  destruct (len buf <? payload_length d - F.offset d); [done|].
  destruct (F.decode_payload_by_type _ _ d) as [[f|e|] d']; [|done..].
  unfold mmodify, clear_if, clear. simpl. done.
Qed.

(** The frame header that nine bytes spell. *)
Definition header_of (l : bytes) : FrameHeader.t :=
  FrameHeader.mk (get_stream_id (slice 5 9 l)) (at_ l 4) (at_ l 3)
    (Z.shiftl (at_ l 0) 16 + Z.shiftl (at_ l 1) 8 + at_ l 2).

Lemma index_at {E} (l : bytes) i : 0 ≤ i < len l → index_ (E := E) l i = Ok (at_ l i).
Proof.
  intros Hi. unfold index_, at_, len in *.
  destruct (l !! Z.to_nat i) eqn:Hl; [done|]. apply lookup_ge_None in Hl. lia.
Qed.

Lemma slice_ok {E} a b (l : bytes) : 0 ≤ a ≤ b → b ≤ len l → slice_ (E := E) a b l = Ok (slice a b l).
Proof.
  intros Ha Hb. unfold slice_. destruct (Z.leb_spec 0 a); [|lia].
  destruct (Z.leb_spec a b); [|lia]. by destruct (Z.leb_spec b (len l)); [|lia].
Qed.

Lemma at_upto (l : bytes) n i : 0 ≤ i < n → at_ (upto n l) i = at_ l i.
Proof. intros Hi. unfold at_, upto. rewrite lookup_take_lt by lia. done. Qed.

Lemma upto_upto {A} n m (l : list A) : n ≤ m → upto n (upto m l) = upto n l.
Proof. intros. unfold upto. rewrite take_take. f_equal. lia. Qed.

Lemma header_of_upto l : header_of (upto 9 l) = header_of l.
Proof.
  unfold header_of, slice. rewrite !at_upto by lia. by rewrite upto_upto.
Qed.

(** Reading a header from at least nine bytes. *)
Lemma read_header (hb : bytes) (k : FrameHeader.t → F.dec (option bytes)) (d : F.t) mx :
  9 ≤ len hb →
  (h0 ← mlift (index_ hb 0);
   h1 ← mlift (index_ hb 1);
   h2 ← mlift (index_ hb 2);
   let payload_length := Z.shiftl h0 16 + Z.shiftl h1 8 + h2 in
   if mx <? payload_length then mfail frame_size_error
   else
     frame_type ← mlift (index_ hb 3);
     flags ← mlift (index_ hb 4);
     t ← mlift (slice_ 5 9 hb);
     k (FrameHeader.mk (get_stream_id t) flags frame_type payload_length)) d =
  if mx <? FrameHeader.payload_length (header_of hb) then (Err frame_size_error, d)
  else k (header_of hb) d.
Proof.
  intros Hl. cbv [mbind M_bind mlift]. rewrite !index_at, slice_ok by lia.
  cbn. by destruct (mx <? _).
Qed.

Lemma header_unfold buf d :
  F.offset d = len (F.buffer d) → F.offset d < 9 →
  F.decode_frame_header buf d =
    let n := 9 - F.offset d in
    if len buf <? n then (Ok None, F.set_bo d (F.buffer d ++ buf) (F.offset d + len buf))
    else
      let h := header_of (F.buffer d ++ buf) in
      if F.max_frame_size d <? FrameHeader.payload_length h then
        (Err frame_size_error,
         if F.offset d =? 0 then d else F.set_bo d (F.buffer d ++ upto n buf) (F.offset d))
      else (Ok (Some (from n buf)), F.set_header (clear d) h).
Proof.
  intros Ho Hlt. pose proof (len_nonneg (F.buffer d)).
  unfold F.decode_frame_header. rewrite M_bind_eq. unfold mget at 1. rewrite M_bind_eq.
  unfold mlift at 1, sub_. unfold FRAME_HEADER_LENGTH. destruct (Z.leb_spec (F.offset d) 9); [|lia].
  cbv zeta. destruct (Z.ltb_spec (len buf) (9 - F.offset d)) as [|Hge]; [done|].
  rewrite M_bind_eq. destruct (Z.eqb_spec (F.offset d) 0) as [Hz|Hz].
  - assert (F.buffer d = []) as Hb by (apply len_0_nil; lia). rewrite Hb.
    unfold mret at 1, M_ret at 1. rewrite app_nil_l.
    rewrite (read_header buf (λ h, _ ← mmodify (λ d, if negb (F.offset d =? 0) then F.set_bo d [] 0 else d);
      _ ← mmodify (λ d, F.set_header d h); mret (Some (from (9 - F.offset d) buf))) d) by lia.
    destruct (_ <? _); [done|]. cbv [mbind M_bind mmodify mret M_ret]. rewrite Hz.
    simpl. f_equal. unfold clear. destruct d. simpl in *. by subst.
  - set (hb := F.buffer d ++ upto (9 - F.offset d) buf).
    assert (Hhb : hb = upto 9 (F.buffer d ++ buf)).
    { subst hb. rewrite upto_app_ge by lia. by rewrite Ho. }
    rewrite M_bind_eq. unfold mmodify at 1, mgets at 1. cbv beta iota zeta.
    change (F.buffer (F.set_bo d (F.buffer d ++ upto (9 - F.offset d) buf) (F.offset d))) with hb.
    rewrite (read_header hb (λ h, _ ← mmodify (λ d, if negb (F.offset d =? 0) then F.set_bo d [] 0 else d);
      _ ← mmodify (λ d, F.set_header d h); mret (Some (from (9 - F.offset d) buf)))).
    2: { subst hb. rewrite len_app, len_upto by lia. lia. }
    replace (header_of hb) with (header_of (F.buffer d ++ buf)) by by rewrite Hhb, header_of_upto.
    destruct (_ <? _); [done|].
    cbv [mbind M_bind mmodify mret M_ret]. simpl. destruct (Z.eqb_spec (F.offset d) 0); [lia|]. done.
Qed.
