(* ===== verification/H2FrameSegments.v ===== *)
(** The frame decoder on segmented input: [decode] ends on every input, a
    decoder that holds the start of a piece behaves like one that is given the
    piece in full, and so what [decode] hands out when it succeeds, and the error
    when it does not, do not depend on how the input is cut.  The exceptions are
    the payload of a PRIORITY frame, and the frames in front of an error, which are
    handed out or not as the cuts are. *)
From S2P Require Import Prelude H2Error HpackTable Headers Parts Hpack H2Frame H2FrameDecoder.

(** * Computations that do not look at the buffer *)

Abbreviation fdec := (M F.t H2Error).

(** [m] neither reads nor writes [buffer] and [offset]. *)
Definition bo_indep {A} (m : fdec A) : Prop :=
  ∀ d b o, m (F.set_bo d b o) = let '(r, d') := m d in (r, F.set_bo d' b o).

Create HintDb indep discriminated.
#[export] Hint Constants Opaque : indep.

Lemma indep_bind {A B} (m : fdec A) (k : A → fdec B) :
  bo_indep m → (∀ a, bo_indep (k a)) → bo_indep (m ≫= k).
Proof.
  intros Hm Hk d b o. rewrite !M_bind_eq, Hm.
  destruct (m d) as [[a|e|] d']; [apply Hk|done..].
Qed.
Lemma indep_ret {A} (a : A) : bo_indep (mret a).
Proof. done. Qed.
Lemma indep_fail {A} e : bo_indep (mfail (A := A) e).
Proof. done. Qed.
Lemma indep_lift {A} (r : res H2Error A) : bo_indep (mlift r).
Proof. done. Qed.
Lemma indep_header : bo_indep (mgets F.header).
Proof. done. Qed.
Lemma indep_cont : bo_indep (mgets F.continuations).
Proof. done. Qed.
Lemma indep_hpack_decode buf : bo_indep (F.hpack_decode buf).
Proof. intros d b o. unfold F.hpack_decode. simpl. by destruct (HpackDecoder.decode buf _). Qed.
Lemma indep_hpack_finish : bo_indep F.hpack_finish.
Proof. intros d b o. unfold F.hpack_finish. simpl. by destruct (HpackDecoder.finish _). Qed.
Lemma indep_complete h p : bo_indep (F.complete h p).
Proof. done. Qed.
Lemma indep_if {A} (c : bool) (m n : fdec A) :
  bo_indep m → bo_indep n → bo_indep (if c then m else n).
Proof. by destruct c. Qed.
#[export] Hint Resolve indep_ret indep_fail indep_lift indep_header indep_cont
  indep_hpack_decode indep_hpack_finish indep_complete : indep.

Ltac indep :=
  repeat first
    [ solve [eauto with indep]
    | apply indep_bind; [|intros ?]
    | apply indep_if
    | (intros ? ? ?; reflexivity)
    | match goal with |- bo_indep (let '(_, _) := ?x in _) => destruct x end
    | match goal with |- bo_indep (match ?x with _ => _ end) => destruct x end ].

(** A payload method other than PRIORITY's: a check of the header, the merge
    of what was buffered, and a body that does not look at the buffer. *)
Definition merging (m : bytes → fdec FrameKind) : Prop :=
  ∃ (chk : FrameHeader.t → bool) (body : FrameHeader.t → bytes → fdec FrameKind),
    (∀ h b, bo_indep (body h b)) ∧
    ∀ buf d, m buf d =
      if chk (F.header d) then (Err protocol_error, d)
      else mbind (M := fdec) (body (F.header d)) (F.merge buf) d.

Lemma merging_intro m (chk : FrameHeader.t → bool) (body : FrameHeader.t → bytes → fdec FrameKind) :
  (∀ h b, bo_indep (body h b)) →
  (∀ buf d, m buf d = mbind (M := fdec) (λ h,
    if chk h then mfail protocol_error else mbind (M := fdec) (body h) (F.merge buf))
    (mgets F.header) d) →
  merging m.
Proof.
  intros Hb Hm. exists chk, body. split; [done|]. intros buf d. rewrite Hm, M_bind_eq.
  unfold mgets. by destruct (chk _).
Qed.

Ltac merging := eapply merging_intro; [|intros; reflexivity]; intros h b; simpl; indep.

Lemma indep_bounds h n b : bo_indep (F.fragment_bounds h n b).
Proof. unfold F.fragment_bounds. indep. Qed.
Lemma indep_framing e p : bo_indep (F.push_promise_framing e p).
Proof. unfold F.push_promise_framing. indep. Qed.
#[export] Hint Resolve indep_bounds indep_framing : indep.

Lemma ping_merging : merging F.decode_ping_payload.
Proof. merging. Qed.
Lemma goaway_merging : merging F.decode_goaway_payload.
Proof. merging. Qed.
Lemma window_update_merging : merging F.decode_window_update_payload.
Proof.
  eapply (merging_intro _ (λ _, false)); [|intros; reflexivity]; intros h b; simpl; indep.
Qed.
Lemma reset_merging : merging F.decode_reset_payload.
Proof. merging. Qed.
Lemma settings_merging : merging F.decode_settings_payload.
Proof. merging. Qed.
Lemma data_merging : merging F.decode_data_payload.
Proof. merging. Qed.
Lemma continuation_merging : merging F.decode_continuation_payload.
Proof. merging. Qed.
Lemma headers_merging : merging F.decode_headers_payload.
Proof. merging. Qed.
Lemma push_promise_merging : merging F.decode_push_promise_payload.
Proof. merging. Qed.

Lemma merging_by_type ft :
  ft ≠ 2 → merging (F.decode_payload_by_type ft) ∨
    (∀ buf d, F.decode_payload_by_type ft buf d = (Err protocol_error, d)).
Proof.
  intros Hft. destruct ft as [|p|p]; [left; exact data_merging| |by right].
  do 4 (try destruct p as [p|p|]); try done; try (right; done); left;
    first [exact headers_merging|exact reset_merging|exact settings_merging
          |exact push_promise_merging|exact ping_merging|exact goaway_merging
          |exact window_update_merging|exact continuation_merging].
Qed.

(** * A decoder with buffered bytes *)

(** Outcomes that agree, the state included when there is no error. *)
Definition same_out {A} (x y : res H2Error A * F.t) : Prop :=
  x.1 = y.1 ∧ match x.1 with Ok _ => x.2 = y.2 | _ => True end.

#[export] Instance same_out_equiv {A} : Equivalence (@same_out A).
Proof.
  unfold same_out. split.
  - intros [[] ?]; done.
  - intros [[] ?] [[] ?] [? ?]; simplify_eq/=; done.
  - intros [[] ?] [[] ?] [[] ?] [? ?] [? ?]; simplify_eq/=; done.
Qed.

(** Between calls: the buffer holds [offset] bytes of the current piece. *)
Definition fd_ok (d : F.t) : Prop :=
  F.offset d = len (F.buffer d) ∧ bytes_ok (F.buffer d) ∧
  match F.stage d with
  | StageHeader => F.offset d < 9
  | StagePayload => F.offset d ≤ payload_length d
  end.

(** The decoder is not in the middle of a PRIORITY payload. *)
Definition cut_ok (d : F.t) : Prop :=
  F.stage d = StagePayload → frame_type d = 2 → F.offset d = 0.

Lemma clear_set_bo d b o : clear (F.set_bo d b o) = clear d.
Proof. done. Qed.

Lemma payload_by_type_merge ft buf d :
  ft ≠ 2 → 0 < F.offset d →
  let y := F.decode_payload_by_type ft (F.buffer d ++ buf) (clear d) in
  ∃ b o, 0 < o ∧ F.decode_payload_by_type ft buf d = (y.1, F.set_bo y.2 b o) ∧ y.2 = clear y.2.
Proof.
  intros Hft Ho y. subst y. pose proof (len_nonneg buf).
  assert (Hself : d = F.set_bo (clear d) (F.buffer d) (F.offset d)) by by destruct d.
  destruct (merging_by_type ft Hft) as [(chk & body & Hbody & Heq)|Heq]; rewrite !Heq.
  2: { exists (F.buffer d), (F.offset d). simpl. by rewrite <- Hself. }
  change (F.header (clear d)) with (F.header d). destruct (chk (F.header d)).
  { exists (F.buffer d), (F.offset d). simpl. by rewrite <- Hself. }
  rewrite !M_bind_eq. unfold F.merge. destruct (Z.eqb_spec (F.offset d) 0); [lia|].
  change (F.offset (clear d) =? 0) with true. cbn [negb].
  exists (F.buffer d ++ buf), (F.offset d + len buf). split; [lia|].
  unfold clear. rewrite !Hbody. by destruct (body (F.header d) (F.buffer d ++ buf) d) as [r d'].
Qed.

(** Buffered bytes are as good as bytes at the front of the input. *)
Lemma payload_prepend buf d :
  fd_ok d → F.stage d = StagePayload → cut_ok d →
  same_out (F.decode_frame_payload buf d) (F.decode_frame_payload (F.buffer d ++ buf) (clear d)).
Proof.
  intros (Ho & _ & Hst) Hs Hcut. rewrite Hs in Hst. pose proof (len_nonneg (F.buffer d)).
  destruct (Z.eq_dec (F.offset d) 0) as [Hz|Hnz].
  { assert (F.buffer d = []) as Hb by (apply len_0_nil; lia). rewrite Hb. simpl.
    replace (clear d) with d; [done|]. destruct d. simpl in *. by subst. }
  assert (Hft : frame_type d ≠ 2) by (intros ?; by apply Hnz, Hcut).
  rewrite !payload_unfold. change (out_of_order (clear d)) with (out_of_order d).
  change (payload_length (clear d)) with (payload_length d).
  change (frame_type (clear d)) with (frame_type d). change (F.offset (clear d)) with 0.
  destruct (out_of_order d); [done|].
  destruct (Z.leb_spec (F.offset d) (payload_length d)); [|lia].
  destruct (Z.leb_spec 0 (payload_length d)); [|lia]. cbv zeta. rewrite Z.sub_0_r, len_app.
  replace (len (F.buffer d) + len buf <? payload_length d)
    with (len buf <? payload_length d - F.offset d).
  2: { rewrite Ho. destruct (Z.ltb_spec (len buf) (payload_length d - len (F.buffer d)));
       destruct (Z.ltb_spec (len (F.buffer d) + len buf) (payload_length d)); lia || done. }
  cbn [negb]. destruct (Z.ltb_spec (len buf) (payload_length d - F.offset d)).
  { split; [done|]. simpl. unfold F.set_bo, clear. simpl. f_equal. lia. }
  rewrite upto_app_ge, from_app_ge by lia. rewrite <- Ho.
  set (u := upto (payload_length d - F.offset d) buf).
  destruct (payload_by_type_merge (frame_type d) u d Hft ltac:(lia)) as (b & o & Hpos & -> & Hcl).
  destruct (F.decode_payload_by_type (frame_type d) (F.buffer d ++ u) (clear d)) as [[f|e|] d'];
    [|done..]. split; [done|]. simpl in *. unfold clear_if. simpl. rewrite Hcl. simpl.
  destruct (Z.eqb_spec o 0); [lia|]. done.
Qed.

Lemma header_prepend buf d :
  fd_ok d → F.stage d = StageHeader →
  same_out (F.decode_frame_header buf d) (F.decode_frame_header (F.buffer d ++ buf) (clear d)).
Proof.
  intros (Ho & _ & Hst) Hs. rewrite Hs in Hst. pose proof (len_nonneg (F.buffer d)).
  rewrite !header_unfold by (done || simpl; lia).
  change (F.offset (clear d)) with 0. change (F.buffer (clear d)) with (@nil Z).
  change (F.max_frame_size (clear d)) with (F.max_frame_size d). cbv zeta.
  rewrite Z.sub_0_r, len_app, app_nil_l.
  replace (len (F.buffer d) + len buf <? 9) with (len buf <? 9 - F.offset d).
  2: { rewrite Ho. destruct (Z.ltb_spec (len buf) (9 - len (F.buffer d)));
       destruct (Z.ltb_spec (len (F.buffer d) + len buf) 9); lia || done. }
  destruct (Z.ltb_spec (len buf) (9 - F.offset d)).
  { split; [done|]. simpl. unfold F.set_bo, clear. simpl. f_equal. lia. }
  destruct (_ <? _); [done|]. rewrite from_app_ge by lia. rewrite <- Ho. done.
Qed.

Lemma turn_prepend buf d :
  fd_ok d → cut_ok d → same_out (F.turn buf d) (F.turn (F.buffer d ++ buf) (clear d)).
Proof.
  intros Hok Hcut. unfold F.turn. rewrite !M_bind_eq. unfold mgets.
  change (F.stage (clear d)) with (F.stage d).
  destruct (F.stage d) eqn:Hs; rewrite !M_bind_eq.
  - destruct (header_prepend buf d Hok Hs) as [H1 H2].
    destruct (F.decode_frame_header buf d) as [[o|e|] d1];
      destruct (F.decode_frame_header (F.buffer d ++ buf) (clear d)) as [[o'|e'|] d2];
      simplify_eq/=; try done; by destruct o'.
  - destruct (payload_prepend buf d Hok Hs Hcut) as [H1 H2].
    destruct (F.decode_frame_payload buf d) as [[o|e|] d1];
      destruct (F.decode_frame_payload (F.buffer d ++ buf) (clear d)) as [[o'|e'|] d2];
      simplify_eq/=; try done; by destruct o' as [[]|].
Qed.

(** * What a payload method leaves alone *)

Definition keep (d d' : F.t) : Prop :=
  F.header d' = F.header d ∧ F.max_frame_size d' = F.max_frame_size d ∧
  F.stage d' = F.stage d ∧
  (F.offset d = len (F.buffer d) → F.offset d' = len (F.buffer d')).

#[export] Instance keep_preorder : PreOrder keep.
Proof.
  split; [done|]. intros d1 d2 d3 (? & ? & ? & ?) (? & ? & ? & ?).
  unfold keep. repeat split; try congruence. auto.
Qed.

Definition keeps {A} (m : fdec A) : Prop := ∀ d, keep d (m d).2.

Lemma keeps_bind {A B} (m : fdec A) (k : A → fdec B) :
  keeps m → (∀ a, keeps (k a)) → keeps (m ≫= k).
Proof.
  intros Hm Hk d. rewrite M_bind_eq. specialize (Hm d). destruct (m d) as [[a|e|] d']; try done.
  etrans; [exact Hm|apply Hk].
Qed.
Lemma keeps_id {A} (m : fdec A) : (∀ d, (m d).2 = d) → keeps m.
Proof. intros Hm d. by rewrite Hm. Qed.
Lemma keeps_merge buf : keeps (F.merge buf).
Proof.
  intros d. unfold F.merge. destruct (negb _); [|done]. split; [done|]. split; [done|].
  split; [done|]. simpl. rewrite len_app. lia.
Qed.
Lemma keeps_hpack_decode buf : keeps (F.hpack_decode buf).
Proof. intros d. unfold F.hpack_decode. by destruct (HpackDecoder.decode buf _). Qed.
Lemma keeps_hpack_finish : keeps F.hpack_finish.
Proof. intros d. unfold F.hpack_finish. by destruct (HpackDecoder.finish _). Qed.
Lemma keeps_if {A} (c : bool) (m n : fdec A) : keeps m → keeps n → keeps (if c then m else n).
Proof. by destruct c. Qed.
Create HintDb keeps discriminated.
#[export] Hint Constants Opaque : keeps.
#[export] Hint Resolve keeps_merge keeps_hpack_decode keeps_hpack_finish : keeps.

Ltac keeps :=
  repeat first
    [ solve [eauto with keeps]
    | apply keeps_bind; [|intros ?]
    | apply keeps_if
    | (apply keeps_id; intros ?; reflexivity)
    | (intros ?; split; [reflexivity|]; split; [reflexivity|]; split; [reflexivity|]; done)
    | match goal with |- keeps (let '(_, _) := ?x in _) => destruct x end
    | match goal with |- keeps (match ?x with _ => _ end) => destruct x end ].

Lemma keeps_bounds h n b : keeps (F.fragment_bounds h n b).
Proof. unfold F.fragment_bounds. keeps. Qed.
Lemma keeps_framing e p : keeps (F.push_promise_framing e p).
Proof. unfold F.push_promise_framing. keeps. Qed.
#[export] Hint Resolve keeps_bounds keeps_framing : keeps.

Lemma keeps_by_type ft buf : keeps (F.decode_payload_by_type ft buf).
Proof.
  unfold F.decode_payload_by_type.
  destruct ft as [|p|p]; [| |keeps]; [|do 4 (try destruct p as [p|p|])];
    try unfold F.decode_data_payload, F.decode_headers_payload, F.decode_priority_payload,
      F.decode_reset_payload, F.decode_settings_payload, F.decode_push_promise_payload,
      F.decode_ping_payload, F.decode_goaway_payload, F.decode_window_update_payload,
      F.decode_continuation_payload; keeps.
Qed.

(** * The invariant of the decoder *)

Lemma new_fd_ok : fd_ok F.new.
Proof. by repeat constructor. Qed.

Lemma header_of_length l : bytes_ok l → 0 ≤ FrameHeader.payload_length (header_of l) < 2 ^ 24.
Proof.
  intros Hl. pose proof (at_ok l 0 Hl). pose proof (at_ok l 1 Hl). pose proof (at_ok l 2 Hl).
  unfold is_u8 in *. simpl. rewrite !Z.shiftl_mul_pow2 by lia. lia.
Qed.

Lemma header_turn buf d :
  fd_ok d → F.stage d = StageHeader →
  F.turn buf d =
    match F.decode_frame_header buf d with
    | (Ok (Some r), d') => (Ok (Some (r, None)), F.set_stage d' StagePayload)
    | (Ok None, d') => (Ok None, d')
    | (Err e, d') => (Err e, d')
    | (Panic, d') => (Panic, d')
    end.
Proof.
  intros _ Hs. unfold F.turn. rewrite M_bind_eq. unfold mgets. rewrite Hs, M_bind_eq.
  by destruct (F.decode_frame_header buf d) as [[[]| |] ?].
Qed.

Lemma payload_turn buf d :
  F.stage d = StagePayload →
  F.turn buf d =
    match F.decode_frame_payload buf d with
    | (Ok (Some (r, f)), d') => (Ok (Some (r, Some f)), F.set_stage d' StageHeader)
    | (Ok None, d') => (Ok None, d')
    | (Err e, d') => (Err e, d')
    | (Panic, d') => (Panic, d')
    end.
Proof.
  intros Hs. unfold F.turn. rewrite M_bind_eq. unfold mgets. rewrite Hs, M_bind_eq.
  by destruct (F.decode_frame_payload buf d) as [[[[]|]| |] ?].
Qed.

Lemma turn_fd_ok buf d o d' :
  fd_ok d → bytes_ok buf → F.turn buf d = (Ok o, d') →
  fd_ok d' ∧
  match o with
  | None => True
  | Some (r, k) =>
      r `suffix_of` buf ∧
      match F.stage d with
      | StageHeader => (length r < length buf)%nat ∧ F.stage d' = StagePayload
      | StagePayload => F.stage d' = StageHeader
      end
  end.
Proof.
  intros Hok Hb. pose proof Hok as (Ho & Hbo & Hst). pose proof (len_nonneg (F.buffer d)).
  destruct (F.stage d) eqn:Hs.
  - rewrite header_turn, header_unfold by done. cbv zeta.
    destruct (Z.ltb_spec (len buf) (9 - F.offset d)).
    { intros [= <- <-]. split; [|done]. unfold fd_ok. simpl. rewrite Hs, len_app, Forall_app.
      repeat split; auto; lia. }
    destruct (_ <? _); [done|]. intros [= <- <-]. split; [split; [done|split; [constructor|]]|].
    + simpl. unfold payload_length. simpl.
      pose proof (header_of_length (F.buffer d ++ buf) ltac:(by apply Forall_app)) as [? _].
      simpl in *. lia.
    + split; [exists (upto (9 - F.offset d) buf); by rewrite upto_from|]. split; [|done].
      unfold from. rewrite length_drop. unfold len in *. lia.
  - rewrite payload_turn, payload_unfold by done. destruct (out_of_order d); [done|].
    destruct (Z.leb_spec (F.offset d) (payload_length d)); [|lia]. cbv zeta. cbn [negb].
    destruct (Z.ltb_spec (len buf) (payload_length d - F.offset d)).
    { intros [= <- <-]. split; [|done]. unfold fd_ok. simpl. rewrite Hs, len_app, Forall_app.
      unfold payload_length in *. simpl. repeat split; auto; lia. }
    pose proof (keeps_by_type (frame_type d) (upto (payload_length d - F.offset d) buf) d) as Hk.
    destruct (F.decode_payload_by_type _ _ d) as [[f|e|] d1]; [|done..].
    intros [= <- <-]. destruct Hk as (_ & _ & _ & Hk). specialize (Hk Ho).
    split; [|split; [exists (upto (payload_length d - F.offset d) buf); by rewrite upto_from|done]].
    unfold clear_if. simpl in *. destruct (Z.eqb_spec (F.offset d1) 0) as [Hz|]; simpl.
    + assert (F.buffer d1 = []) as Hb1 by (apply len_0_nil; lia).
      unfold fd_ok. simpl. rewrite Hz, Hb1. by repeat constructor.
    + by repeat constructor.
Qed.

(** * [decode] ends *)

Definition turns_left (s : Stage) (buf : bytes) : nat :=
  match s with StageHeader => 2 * length buf + 1 | StagePayload => 2 * length buf + 2 end.

Lemma frame_loop_total fuel buf fs d :
  fd_ok d → bytes_ok buf → (turns_left (F.stage d) buf ≤ fuel)%nat →
  is_Some (F.decode_loop fuel buf fs d).
Proof.
  revert buf fs d. induction fuel as [|fuel IH]; intros buf fs d Hok Hb Hf.
  { unfold turns_left in Hf. destruct (F.stage d); lia. }
  simpl. destruct (F.turn buf d) as [[[[r k]|]|e|] d'] eqn:Ht; [|by eexists..].
  apply turn_fd_ok in Ht as (Hok' & Hr & Hs); [|done..].
  apply IH; [done|by eapply bytes_ok_suffix|].
  apply suffix_length in Hr. unfold turns_left in *. destruct (F.stage d).
  - destruct Hs as [Hlt ->]. lia.
  - rewrite Hs. lia.
Qed.

Lemma frame_loop_mono n m buf fs d x :
  (n ≤ m)%nat → F.decode_loop n buf fs d = Some x → F.decode_loop m buf fs d = Some x.
Proof.
  revert m buf fs d. induction n as [|n IH]; intros m buf fs d Hm; [done|].
  destruct m as [|m]; [lia|]. simpl.
  destruct (F.turn buf d) as [[[[r k]|]|e|] d']; try done. apply IH. lia.
Qed.

Lemma frame_loop_decode buf d :
  fd_ok d → bytes_ok buf →
  F.decode_loop (F.decode_fuel buf) buf [] d = Some (F.decode buf d).
Proof.
  intros Hok Hb. unfold F.decode.
  destruct (frame_loop_total (F.decode_fuel buf) buf [] d Hok Hb) as [x Hx].
  - unfold F.decode_fuel, turns_left. destruct (F.stage d); lia.
  - by rewrite Hx.
Qed.

Lemma frame_decode_eq n buf d x :
  fd_ok d → bytes_ok buf → F.decode_loop n buf [] d = Some x → F.decode buf d = x.
Proof.
  intros Hok Hb Hx. pose proof (frame_loop_decode buf d Hok Hb) as Hy.
  apply (frame_loop_mono _ (n + F.decode_fuel buf)) in Hx, Hy; [|lia..]. congruence.
Qed.

(** * Segments *)

Lemma turn_none buf d d1 :
  fd_ok d → F.turn buf d = (Ok None, d1) →
  d1 = F.set_bo d (F.buffer d ++ buf) (F.offset d + len buf).
Proof.
  intros Hok. pose proof Hok as (Ho & _ & Hst). destruct (F.stage d) eqn:Hs.
  - rewrite header_turn, header_unfold by done. cbv zeta.
    destruct (_ <? _); [by intros [= <-]|]. by destruct (_ <? _).
  - rewrite payload_turn, payload_unfold by done. destruct (out_of_order d); [done|].
    destruct (negb _); [done|]. cbv zeta. destruct (_ <? _); [by intros [= <-]|].
    by destruct (F.decode_payload_by_type _ _ d) as [[] ?].
Qed.

(** A turn on a longer input. *)
Lemma turn_app b1 b2 d :
  fd_ok d →
  match F.turn b1 d with
  | (Ok (Some (r, k)), d') => F.turn (b1 ++ b2) d = (Ok (Some (r ++ b2, k)), d')
  | (Ok None, _) => True
  | (r, _) => (F.turn (b1 ++ b2) d).1 = r
  end.
Proof.
  intros Hok. pose proof Hok as (Ho & _ & Hst). pose proof (len_nonneg b2).
  pose proof (len_nonneg (F.buffer d)). destruct (F.stage d) eqn:Hs.
  - rewrite !header_turn, !header_unfold by done. cbv zeta.
    destruct (Z.ltb_spec (len b1) (9 - F.offset d)); [done|].
    destruct (Z.ltb_spec (len (b1 ++ b2)) (9 - F.offset d)) as [Hx|_]; [rewrite len_app in Hx; lia|].
    assert (Hh : header_of (F.buffer d ++ b1 ++ b2) = header_of (F.buffer d ++ b1)).
    { rewrite app_assoc, <- header_of_upto, upto_app_le, header_of_upto; [done|].
      rewrite len_app. lia. }
    rewrite Hh. destruct (_ <? _); [done|]. by rewrite from_app_le by lia.
  - rewrite !payload_turn, !payload_unfold by done. destruct (out_of_order d); [done|].
    destruct (negb _); [done|]. cbv zeta.
    destruct (Z.ltb_spec (len b1) (payload_length d - F.offset d)); [done|].
    destruct (Z.ltb_spec (len (b1 ++ b2)) (payload_length d - F.offset d)) as [Hx|_];
      [rewrite len_app in Hx; lia|].
    rewrite upto_app_le, from_app_le by lia.
    by destruct (F.decode_payload_by_type _ _ d) as [[] ?].
Qed.

Lemma turn_resume b1 b2 d d1 :
  fd_ok d → fd_ok d1 → cut_ok d1 → F.turn b1 d = (Ok None, d1) →
  same_out (F.turn (b1 ++ b2) d) (F.turn b2 d1).
Proof.
  intros Hok Hok1 Hcut Ht. pose proof (turn_none b1 d d1 Hok Ht) as Hd1.
  pose proof (len_nonneg (F.buffer d)). pose proof (len_nonneg b1). destruct Hok as (Ho & Hrest).
  etrans; [apply turn_prepend; [done|]|symmetry; etrans; [by apply turn_prepend|]].
  - intros Hs Hft. rewrite Hd1 in Hcut. specialize (Hcut Hs Hft). simpl in Hcut. lia.
  - rewrite Hd1. simpl. rewrite clear_set_bo, app_assoc. done.
Qed.

Lemma loop_prefix n buf fs gs d :
  F.decode_loop n buf (fs ++ gs) d =
    option_map (λ x, (res_fmap _ _ (app fs) x.1, x.2)) (F.decode_loop n buf gs d).
Proof.
  revert buf gs d. induction n as [|n IH]; intros buf gs d; simpl; [done|].
  destruct (F.turn buf d) as [[[[r k]|]|e|] d']; try done. rewrite <- app_assoc. apply IH.
Qed.

Lemma loop_app n b1 b2 fs d :
  fd_ok d → bytes_ok b1 →
  match F.decode_loop n b1 fs d with
  | Some (Ok fs1, d1) =>
      cut_ok d1 → ∀ m x, F.decode_loop m b2 fs1 d1 = Some x →
      ∃ x', F.decode_loop (n + m) (b1 ++ b2) fs d = Some x' ∧ same_out x' x
  | Some (r, _) => ∃ d2, F.decode_loop n (b1 ++ b2) fs d = Some (r, d2)
  | None => True
  end.
Proof.
  revert b1 fs d. induction n as [|n IH]; intros b1 fs d Hok Hb; [done|]. simpl.
  pose proof (turn_app b1 b2 d Hok) as Happ.
  destruct (F.turn b1 d) as [[[[r k]|]|e|] d'] eqn:Ht.
  - rewrite Happ. apply turn_fd_ok in Ht as (Hok' & Hr & _); [|done..].
    apply IH; [done|by eapply bytes_ok_suffix].
  - intros Hcut m x Hx. assert (fd_ok d') as Hok' by by eapply turn_fd_ok.
    pose proof (turn_resume b1 b2 d d' Hok Hok' Hcut Ht) as Hsame.
    destruct m as [|m]; [done|]. simpl in Hx.
    destruct (F.turn (b1 ++ b2) d) as [[[[r1 k1]|]|e1|] d1];
      destruct (F.turn b2 d') as [[[[r2 k2]|]|e2|] d2]; destruct Hsame as [H1 H2];
      simplify_eq/=; try (eexists; split; [reflexivity|by split]).
    exists x. split; [|done]. by apply (frame_loop_mono m); [lia|].
  - destruct (F.turn (b1 ++ b2) d) as [? ?]. simplify_eq/=. eauto.
  - destruct (F.turn (b1 ++ b2) d) as [? ?]. simplify_eq/=. eauto.
Qed.

Lemma loop_fd_ok n buf fs d fs' d' :
  fd_ok d → bytes_ok buf → F.decode_loop n buf fs d = Some (Ok fs', d') → fd_ok d'.
Proof.
  revert buf fs d. induction n as [|n IH]; intros buf fs d Hok Hb; [done|]. simpl.
  destruct (F.turn buf d) as [[[[r k]|]|e|] d1] eqn:Ht; try done.
  - apply turn_fd_ok in Ht as (Hok' & Hr & _); [|done..].
    apply IH; [done|by eapply bytes_ok_suffix].
  - intros [= <- <-]. by eapply turn_fd_ok.
Qed.

(** Two calls in a row; the frames of both. *)
Definition decode2 (b1 b2 : bytes) : fdec (list FrameKind) :=
  f1 ← (F.decode b1 : fdec _); f2 ← (F.decode b2 : fdec _); mret (f1 ++ f2).

Lemma frame_decode_app b1 b2 d :
  fd_ok d → bytes_ok b1 → bytes_ok b2 →
  (∀ f1 d1, F.decode b1 d = (Ok f1, d1) → cut_ok d1) →
  same_out (F.decode (b1 ++ b2) d) (decode2 b1 b2 d).
Proof.
  intros Hok Hb1 Hb2 Hcut. unfold decode2. rewrite M_bind_eq.
  assert (Hb : bytes_ok (b1 ++ b2)) by by apply Forall_app.
  pose proof (frame_loop_decode b1 d Hok Hb1) as Hl.
  pose proof (loop_app (F.decode_fuel b1) b1 b2 [] d Hok Hb1) as Happ. rewrite Hl in Happ.
  destruct (F.decode b1 d) as [[f1|e|] d1].
  - specialize (Happ (Hcut _ _ eq_refl)). cbv beta iota. rewrite M_bind_eq.
    pose proof (loop_fd_ok _ _ _ _ _ _ Hok Hb1 Hl) as Hok1.
    pose proof (frame_loop_decode b2 d1 Hok1 Hb2) as Hl2.
    pose proof (loop_prefix (F.decode_fuel b2) b2 f1 [] d1) as Hp.
    rewrite app_nil_r, Hl2 in Hp. cbn [option_map] in Hp.
    destruct (Happ _ _ Hp) as (x' & Hx' & Hsame). rewrite (frame_decode_eq _ _ _ _ Hok Hb Hx').
    etrans; [exact Hsame|]. by destruct (F.decode b2 d1) as [[] ?].
  - destruct Happ as [d2 Hd2]. by rewrite (frame_decode_eq _ _ _ _ Hok Hb Hd2).
  - destruct Happ as [d2 Hd2]. by rewrite (frame_decode_eq _ _ _ _ Hok Hb Hd2).
Qed.

Lemma frame_decode_fd_ok buf d f d' :
  fd_ok d → bytes_ok buf → F.decode buf d = (Ok f, d') → fd_ok d'.
Proof.
  intros Hok Hb Hd. pose proof (frame_loop_decode buf d Hok Hb) as Hl. rewrite Hd in Hl.
  by eapply loop_fd_ok.
Qed.

(** * Theorems *)

(** Calls of [decode] in a row, up to the first that fails: the frames handed out by
    then, the result of the last call and the state it leaves. *)
Fixpoint feed (segs : list bytes) (d : F.t) : list FrameKind * res H2Error unit * F.t :=
  match segs with
  | [] => ([], Ok (), d)
  | b :: segs =>
      match F.decode b d with
      | (Ok fs, d) => let '(gs, r, d) := feed segs d in (fs ++ gs, r, d)
      | (Err e, d) => ([], Err e, d)
      | (Panic, d) => ([], Panic, d)
      end
  end.
(** No cut falls inside the payload of a PRIORITY frame. *)
Fixpoint clean_cuts (segs : list bytes) (d : F.t) : Prop :=
  match segs with
  | b :: (_ :: _) as rest => ∀ fs d1, F.decode b d = (Ok fs, d1) → cut_ok d1 ∧ clean_cuts rest d1
  | _ => True
  end.

Lemma feed_cons b segs d :
  feed (b :: segs) d =
    match F.decode b d with
    | (Ok fs, d) => let '(gs, r, d) := feed segs d in (fs ++ gs, r, d)
    | (Err e, d) => ([], Err e, d)
    | (Panic, d) => ([], Panic, d)
    end.
Proof. done. Qed.

(** C36: Bytes given to the frame decoder in any pieces, none of which ends inside the
    payload of a PRIORITY frame: when one call with all the bytes succeeds, the calls with
    the pieces hand out the same frames in the same order and leave the decoder in the
    same state; when it fails, they fail with the same error.  Nothing is said of the
    state behind an error, and the one call hands out none of the frames in front of the
    bad one, of which the calls in pieces may have handed out some. *)
Theorem frame_decode_segments b segs d :
  fd_ok d → Forall bytes_ok (b :: segs) → clean_cuts (b :: segs) d →
  match F.decode (concat (b :: segs)) d with
  | (Ok fs, d') => feed (b :: segs) d = (fs, Ok (), d')
  | (Err e, _) => ∃ fs d', feed (b :: segs) d = (fs, Err e, d')
  | (Panic, _) => ∃ fs d', feed (b :: segs) d = (fs, Panic, d')
  end.
Proof.
  revert b d. induction segs as [|b' segs IH]; intros b d Hok Hb Hc.
  { cbn [concat feed]. rewrite app_nil_r. destruct (F.decode b d) as [[fs|e|] d']; [|by eauto..]. by rewrite app_nil_r. }
  inversion_clear Hb as [|? ? Hb1 Hb2]. change (concat (b :: b' :: segs)) with (b ++ concat (b' :: segs)).
  assert (Hbc : bytes_ok (concat (b' :: segs))) by by apply Forall_concat.
  destruct (frame_decode_app b (concat (b' :: segs)) d Hok Hb1 Hbc) as [H1 H2]; [intros f1 d1 Hd; by apply (Hc f1 d1)|].
  revert H1 H2. unfold decode2. rewrite M_bind_eq, (feed_cons b).
  destruct (F.decode b d) as [[f1|e|] d1] eqn:Hd; cbn [fst snd].
  - destruct (Hc f1 d1 Hd) as [_ Hc1]. specialize (IH b' d1 (frame_decode_fd_ok _ _ _ _ Hok Hb1 Hd) Hb2 Hc1).
    rewrite M_bind_eq.
    destruct (F.decode (concat (b' :: segs)) d1) as [[f2|e|] d2].
    + rewrite IH. destruct (F.decode (b ++ concat (b' :: segs)) d) as [[fs|e|] d'] eqn:Hx; cbn; intros; simplify_eq; done.
    + destruct IH as (fs & d' & ->). destruct (F.decode (b ++ concat (b' :: segs)) d) as [[|?|] ?]; cbn; intros; simplify_eq; eauto.
    + destruct IH as (fs & d' & ->). destruct (F.decode (b ++ concat (b' :: segs)) d) as [[|?|] ?]; cbn; intros; simplify_eq; eauto.
  - destruct (F.decode (b ++ concat (b' :: segs)) d) as [[|?|] ?]; cbn; intros; simplify_eq; eauto.
  - destruct (F.decode (b ++ concat (b' :: segs)) d) as [[|?|] ?]; cbn; intros; simplify_eq; eauto.
Qed.

Lemma frame_decode_segments_witness :
  feed [[0; 0; 8; 6; 0; 0; 0]; [0; 0; 1; 2; 3]; [4; 5; 6; 7; 8]] F.new =
    ([Complete (Frame.mk 0 0 (Payload.Ping [1; 2; 3; 4; 5; 6; 7; 8]))], Ok (), F.new).
Proof.
  pose proof (frame_decode_segments [0; 0; 8; 6; 0; 0; 0] [[0; 0; 1; 2; 3]; [4; 5; 6; 7; 8]] F.new new_fd_ok) as Hx.
  assert (Hb : Forall bytes_ok [[0; 0; 8; 6; 0; 0; 0]; [0; 0; 1; 2; 3]; [4; 5; 6; 7; 8]]) by (repeat constructor; done).
  assert (Hc : clean_cuts [[0; 0; 8; 6; 0; 0; 0]; [0; 0; 1; 2; 3]; [4; 5; 6; 7; 8]] F.new).
  { intros fs d1 Hd. vm_compute in Hd. injection Hd as _ <-. split; [by intros|].
    intros fs1 d2 Hd2. vm_compute in Hd2. injection Hd2 as _ <-. split; [by intros|done]. }
  specialize (Hx Hb Hc). revert Hx. set (y := F.decode (concat _) _). vm_compute in y. subst y. intros Hx. rewrite Hx. vm_compute.
  reflexivity.
Defined.

(** A PING and a WINDOW_UPDATE of 0 for stream 1, a stream error: in one call the PING is
    lost with the error, in two calls it is handed out. *)
Theorem frames_lost_with_error :
  let ping := [0; 0; 8; 6; 0; 0; 0; 0; 0; 1; 2; 3; 4; 5; 6; 7; 8] in
  let update := [0; 0; 4; 8; 0; 0; 0; 0; 1; 0; 0; 0; 0] in
  (F.decode (ping ++ update) F.new).1 = Err (StreamError 1 ProtocolError) ∧
  (feed [ping; update] F.new).1 =
    ([Complete (Frame.mk 0 0 (Payload.Ping [1; 2; 3; 4; 5; 6; 7; 8]))], Err (StreamError 1 ProtocolError)).
Proof. split; vm_compute; reflexivity. Qed.
(** The bytes behind a stream error in the same call are lost too, and the decoder still
    waits for the payload of the bad frame: the next PING is read as that payload. *)
Theorem out_of_step_behind_error :
  let update := [0; 0; 4; 8; 0; 0; 0; 0; 1; 0; 0; 0; 0] in
  let ping := [0; 0; 8; 6; 0; 0; 0; 0; 0; 1; 2; 3; 4; 5; 6; 7; 8] in
  let d := (F.decode update F.new).2 in
  F.stage d = StagePayload ∧ (F.decode ping d).1 ≠ Ok [Complete (Frame.mk 0 0 (Payload.Ping [1; 2; 3; 4; 5; 6; 7; 8]))].
Proof. split; [vm_compute; reflexivity|]. by vm_compute. Qed.

(** The exception is real: a PRIORITY frame that arrives whole is decoded,
    and one whose payload arrives in two parts is a stream error of type
    FRAME_SIZE_ERROR, since the length of the second part alone is checked. *)
Theorem priority_cut_rejected :
  let b1 := [0; 0; 5; 2; 0; 0; 0; 0; 3; 0; 0] in
  let b2 := [0; 1; 15] in
  (F.decode (b1 ++ b2) F.new).1 = Ok [Complete (Frame.mk 3 0 (Payload.Priority false 1 15))] ∧
  (decode2 b1 b2 F.new).1 = Err (StreamError 3 FrameSizeError).
Proof. split; vm_compute; reflexivity. Qed.

(** The decoding loop ends on every input and never runs out of the fuel
    [decode] gives it; the decoder's invariant (the buffered bytes are counted by
    [offset] and fall short of the piece being read) holds again after a call
    that succeeds. *)
Theorem frame_decode_terminates buf d :
  fd_ok d → bytes_ok buf →
  F.decode_loop (F.decode_fuel buf) buf [] d = Some (F.decode buf d) ∧
  ∀ f d', F.decode buf d = (Ok f, d') → fd_ok d'.
Proof.
  intros Hd Hb. split; [by apply frame_loop_decode|]. intros f d'. by apply frame_decode_fd_ok.
Qed.

Lemma frame_decode_terminates_witness :
  F.decode_loop (F.decode_fuel [0; 0; 8; 6]) [0; 0; 8; 6] [] F.new =
    Some (F.decode [0; 0; 8; 6] F.new).
Proof.
  apply (frame_decode_terminates [0; 0; 8; 6] F.new).
  - apply new_fd_ok.
  - repeat constructor; done.
Defined.
