(* ===== verification/H2FrameValid.v ===== *)
(** What the frame decoder hands out is well formed: identifiers, increments,
    error codes and settings are in range, payloads have the size RFC 9113
    gives them and none is longer than the frame size limit, but for the HEADERS
    that a stray CONTINUATION gives; and no input makes
    the methods for DATA, PRIORITY, RST_STREAM, SETTINGS, PING, GOAWAY and
    WINDOW_UPDATE panic. *)
From S2P Require Import Prelude H2Error HpackTable Headers Parts Hpack H2Frame H2FrameDecoder.
From S2P Require Import H2FrameSegments.

(** * Big-endian fields *)

Lemma lor_shiftl_add x y n : 0 ≤ n → 0 ≤ y < 2 ^ n → Z.lor (Z.shiftl x n) y = x * 2 ^ n + y.
Proof.
  intros Hn Hy. rewrite <- Z.shiftl_mul_pow2 by lia.
  assert (Hland : Z.land (Z.shiftl x n) y = 0).
  { rewrite <- (Z.mod_small y (2 ^ n)), <- Z.land_ones by lia.
    rewrite (Z.land_comm y), Z.land_assoc, Z.land_ones, Z.shiftl_mul_pow2, Z.mod_mul by lia.
    apply Z.land_0_l. }
  rewrite <- Z.lxor_lor by done. symmetry. by apply Z.add_nocarry_lxor.
Qed.

Lemma lor_be a b c d :
  is_u8 b → is_u8 c → is_u8 d →
  Z.lor (Z.lor (Z.lor (Z.shiftl a 24) (Z.shiftl b 16)) (Z.shiftl c 8)) d =
    a * 2 ^ 24 + b * 2 ^ 16 + c * 2 ^ 8 + d.
Proof.
  unfold is_u8. intros Hb Hc Hd.
  rewrite (lor_shiftl_add a), (Z.shiftl_mul_pow2 b) by (rewrite ?Z.shiftl_mul_pow2; lia).
  replace (a * 2 ^ 24 + b * 2 ^ 16) with (Z.shiftl (a * 2 ^ 8 + b) 16)
    by (rewrite Z.shiftl_mul_pow2; lia).
  rewrite (lor_shiftl_add _ (Z.shiftl c 8)), (Z.shiftl_mul_pow2 c)
    by (rewrite ?Z.shiftl_mul_pow2; lia).
  replace ((a * 2 ^ 8 + b) * 2 ^ 16 + c * 2 ^ 8) with (Z.shiftl ((a * 2 ^ 8 + b) * 2 ^ 8 + c) 8)
    by (rewrite Z.shiftl_mul_pow2; lia).
  rewrite (lor_shiftl_add _ d) by lia. rewrite ?Z.shiftl_mul_pow2 by lia. lia.
Qed.

Lemma code_value_eq l : bytes_ok l →
  get_code_value l = at_ l 0 * 2 ^ 24 + at_ l 1 * 2 ^ 16 + at_ l 2 * 2 ^ 8 + at_ l 3.
Proof. intros Hl. unfold get_code_value. by rewrite lor_be by by apply at_ok. Qed.

Lemma stream_id_eq l : bytes_ok l →
  get_stream_id l = (at_ l 0 mod 128) * 2 ^ 24 + at_ l 1 * 2 ^ 16 + at_ l 2 * 2 ^ 8 + at_ l 3.
Proof.
  intros Hl. unfold get_stream_id. rewrite lor_be by by apply at_ok.
  change 0x7f with (Z.ones 7). by rewrite Z.land_ones by lia.
Qed.

Lemma code_value_range l : bytes_ok l → is_u32 (get_code_value l).
Proof.
  intros Hl. rewrite code_value_eq by done. pose proof (at_ok l 0 Hl). pose proof (at_ok l 1 Hl).
  pose proof (at_ok l 2 Hl). pose proof (at_ok l 3 Hl). unfold is_u8, is_u32 in *. lia.
Qed.

Lemma stream_id_range l : bytes_ok l → 0 ≤ get_stream_id l < 2 ^ 31.
Proof.
  intros Hl. rewrite stream_id_eq by done. pose proof (at_ok l 1 Hl).
  pose proof (at_ok l 2 Hl). pose proof (at_ok l 3 Hl).
  pose proof (Z.mod_pos_bound (at_ l 0) 128 ltac:(lia)). unfold is_u8 in *. lia.
Qed.

(** * Settings *)

Definition setting_wf (s : Setting.t) : Prop :=
  match s with
  | Setting.HeaderTableSize v | Setting.MaxConcurrentStreams v | Setting.MaxHeaderListSize v =>
      is_u32 v
  | Setting.EnablePush _ => True
  | Setting.InitialWindowSize v => 0 ≤ v ≤ 2 ^ 31 - 1
  | Setting.MaxFrameSize v => 2 ^ 14 ≤ v ≤ 2 ^ 24 - 1
  end.

(** The identifier and value a setting is sent as. *)
Definition setting_value (s : Setting.t) : Z :=
  match s with
  | Setting.HeaderTableSize v | Setting.MaxConcurrentStreams v | Setting.MaxHeaderListSize v
  | Setting.InitialWindowSize v | Setting.MaxFrameSize v => v
  | Setting.EnablePush b => if b then 1 else 0
  end.

(** [get_setting] on every branch: the six settings of RFC 9113 with their
    ranges, the two error codes, and unknown identifiers ignored. *)
Lemma get_setting_spec id v :
  0 ≤ id → is_u32 v →
  match get_setting id v with
  | Ok (Some s) => setting_wf s ∧ Setting.setting_identifier s = id ∧ setting_value s = v
  | Ok None => id = 0 ∨ 6 < id
  | Err e =>
      (id = 2 ∧ 1 < v ∧ e = protocol_error) ∨
      (id = 4 ∧ 2 ^ 31 - 1 < v ∧ e = ConnectionError FlowControlError) ∨
      (id = 5 ∧ ¬ 2 ^ 14 ≤ v ≤ 2 ^ 24 - 1 ∧ e = protocol_error)
  | Panic => False
  end.
Proof.
  intros Hid Hv. unfold get_setting.
  destruct id as [|p|p]; [by left| |lia].
  do 3 (try destruct p as [p|p|]); simpl; try (right; lia); try (split; [exact Hv|done]);
    unfold is_u32 in *.
  - destruct (_ && _) eqn:Hc; simpl; zbool.
    + unfold DEFAULT_MAX_FRAME_SIZE, MAX_ALLOWED_MAX_FRAME_SIZE in *. by repeat split.
    + right. right. split; [done|]. split; [|done]. intros [H1 H2].
      apply andb_false_iff in Hc as [Hc|Hc]; zbool;
        unfold DEFAULT_MAX_FRAME_SIZE, MAX_ALLOWED_MAX_FRAME_SIZE in *; lia.
  - destruct (Z.ltb_spec MAX_INITIAL_WINDOW_SIZE v); unfold MAX_INITIAL_WINDOW_SIZE in *.
    + right. left. repeat split; lia.
    + repeat split; lia.
  - destruct v as [|[p|p|]|p]; try (by repeat split); left; repeat split; lia.
Qed.

(** * Frames *)

Definition frame_wf (max : Z) (f : Frame.t) : Prop :=
  match Frame.payload f with
  | Payload.Data data => Frame.id f ≠ 0 ∧ len data ≤ max
  | Payload.Priority _ dep weight => Frame.id f ≠ 0 ∧ 0 ≤ dep < 2 ^ 31 ∧ is_u8 weight
  | Payload.RstStream code => Frame.id f ≠ 0 ∧ is_u32 code
  | Payload.Settings s => Frame.id f = 0 ∧ Forall setting_wf s ∧ 6 * len s ≤ max
  | Payload.Ping data => Frame.id f = 0 ∧ len data = 8
  | Payload.Goaway code last debug =>
      Frame.id f = 0 ∧ is_u32 code ∧ 0 ≤ last < 2 ^ 31 ∧ 8 + len debug ≤ max
  | Payload.WindowUpdate inc => 1 ≤ inc < 2 ^ 31
  | Payload.Headers _ | Payload.PushPromise _ _ => True
  end.

Definition kind_wf (max : Z) (k : FrameKind) : Prop :=
  match k with Complete f => frame_wf max f | Partial => True end.

(** An outcome that is not a panic and hands out a well-formed frame. *)
Definition good (max : Z) (r : res H2Error FrameKind) : Prop :=
  match r with Ok k => kind_wf max k | Err _ => True | Panic => False end.
Definition good_ok (max : Z) (r : res H2Error FrameKind) : Prop :=
  match r with Ok k => kind_wf max k | _ => True end.

Lemma good_good_ok max r : good max r → good_ok max r.
Proof. by destruct r. Qed.

Lemma bytes_ok_slice a b (l : bytes) : bytes_ok l → bytes_ok (slice a b l).
Proof. intros. unfold slice. auto with rust. Qed.
#[local] Hint Resolve bytes_ok_slice : rust.

Lemma len_slice a b (l : bytes) : 0 ≤ a ≤ b → b ≤ len l → len (slice a b l) = b - a.
Proof. intros. unfold slice. rewrite len_from, len_upto by lia. lia. Qed.

Ltac exec := cbv [mbind M_bind mgets mlift mfail F.complete mret M_ret F.merge]; cbn.

Section valid.
Context (max : Z) (P : bytes) (d : F.t).
Context (Ho : F.offset d = 0) (HP : bytes_ok P).
Context (Hlen : len P = payload_length d) (Hmax : payload_length d ≤ max).
Let h := F.header d.

Lemma stream_check {A} (c : bool) (x y : res H2Error A * F.t) (Q : res H2Error A → Prop) :
  (c = true → Q x.1) → (c = false → Q y.1) → Q (if c then x else y).1.
Proof. destruct c; auto. Qed.

Lemma ping_good : good max (F.decode_ping_payload P d).1.
Proof.
  unfold F.decode_ping_payload. exec. unfold is_connection_frame.
  destruct (Z.eqb_spec (FrameHeader.stream_id (F.header d)) 0); [|done]. cbn. rewrite Ho. cbn.
  destruct (Z.eqb_spec (FrameHeader.payload_length (F.header d)) 8); [|done].
  destruct (Z.eqb_spec (len P) 8); [|done]. cbn. by split.
Qed.

Lemma data_good : good max (F.decode_data_payload P d).1.
Proof.
  unfold F.decode_data_payload. exec. unfold is_connection_frame.
  unfold payload_length in *.
  destruct (Z.eqb_spec (FrameHeader.stream_id (F.header d)) 0); [done|]. cbn. rewrite Ho. cbn.
  destruct (Z.eqb_spec (FrameHeader.payload_length (F.header d)) 0) as [Hz|Hz]; cbn.
  { split; [done|]. rewrite len_nil. lia. }
  pose proof (len_nonneg P). destruct (FrameHeader.is_padded (F.header d)).
  - rewrite index_at by lia. cbn. pose proof (at_ok P 0 HP) as [? ?].
    destruct (Z.leb_spec (FrameHeader.payload_length (F.header d)) (at_ P 0)); [done|].
    rewrite slice_ok by lia. cbn. split; [done|]. rewrite len_slice by lia. lia.
  - rewrite slice_ok by lia. cbn. split; [done|]. rewrite len_slice by lia. lia.
Qed.

Lemma priority_good : good max (F.decode_priority_payload P d).1.
Proof.
  unfold F.decode_priority_payload. exec. unfold is_connection_frame.
  destruct (Z.eqb_spec (FrameHeader.stream_id (F.header d)) 0); [done|].
  destruct (Z.eqb_spec (FrameHeader.payload_length (F.header d)) 5); [|done].
  destruct (Z.eqb_spec (len P) 5); [|done]. cbn. rewrite Ho. cbn.
  rewrite !index_at, slice_ok by lia. cbn. split; [done|].
  split; [apply stream_id_range; auto with rust|by apply at_ok].
Qed.

Lemma reset_good : good max (F.decode_reset_payload P d).1.
Proof.
  unfold F.decode_reset_payload. exec. unfold is_connection_frame.
  destruct (Z.eqb_spec (FrameHeader.stream_id (F.header d)) 0); [done|]. cbn. rewrite Ho. cbn.
  destruct (Z.eqb_spec (FrameHeader.payload_length (F.header d)) 4); [|done].
  destruct (Z.eqb_spec (len P) 4); [|done]. cbn.
  rewrite slice_ok by lia. cbn. split; [done|]. apply code_value_range. auto with rust.
Qed.

Lemma goaway_good : good max (F.decode_goaway_payload P d).1.
Proof.
  unfold F.decode_goaway_payload. exec. unfold is_connection_frame.
  destruct (Z.eqb_spec (FrameHeader.stream_id (F.header d)) 0); [|done]. cbn. rewrite Ho. cbn.
  destruct (Z.ltb_spec (FrameHeader.payload_length (F.header d)) 8); [done|].
  destruct (Z.ltb_spec (len P) 8); [done|]. cbn.
  rewrite !slice_ok by lia. cbn. split; [done|].
  split; [apply code_value_range; auto with rust|].
  split; [apply stream_id_range; auto with rust|]. rewrite len_slice by lia. lia.
Qed.

Lemma window_update_good : good max (F.decode_window_update_payload P d).1.
Proof.
  unfold F.decode_window_update_payload. exec. rewrite Ho. cbn.
  destruct (Z.eqb_spec (FrameHeader.payload_length (F.header d)) 4); [|done].
  destruct (Z.eqb_spec (len P) 4); [|done]. cbn.
  rewrite Z.land_comm. change (Z.lor _ (at_ P 3)) with (get_stream_id P).
  destruct (Z.eqb_spec (get_stream_id P) 0); [done|]. cbn.
  pose proof (stream_id_range P HP). lia.
Qed.
End valid.

(** ** SETTINGS *)

Lemma chunks_spec fuel l :
  len l mod 6 = 0 → (length l ≤ fuel)%nat → bytes_ok l →
  Forall (λ c, len c = 6 ∧ bytes_ok c) (chunks_fuel fuel 6 l) ∧
  6 * len (chunks_fuel fuel 6 l) = len l ∧ concat (chunks_fuel fuel 6 l) = l.
Proof.
  revert l. induction fuel as [|fuel IH]; intros l Hl Hf Hb.
  { destruct l; [by repeat constructor|simpl in Hf; lia]. }
  destruct l as [|x l]; [by repeat constructor|]. set (l' := x :: l) in *.
  change (chunks_fuel (S fuel) 6 l') with (upto 6 l' :: chunks_fuel fuel 6 (from 6 l')).
  assert (Hge : 6 ≤ len l').
  { pose proof (Z.div_mod (len l') 6 ltac:(lia)). subst l'. rewrite len_cons in *.
    pose proof (len_nonneg l). lia. }
  destruct (IH (from 6 l')) as (H1 & H2 & H3).
  - rewrite len_from by lia. replace (Z.max 0 (len l' - 6)) with (len l' + (-1) * 6) by lia.
    by rewrite Z.mod_add by lia.
  - unfold from. rewrite length_drop. unfold len in Hge. lia.
  - auto with rust.
  - split; [|split].
    + constructor; [|done]. split; [rewrite len_upto by lia; lia|auto with rust].
    + rewrite len_cons, Z.mul_add_distr_l, H2, len_from by lia. lia.
    + cbn [concat]. rewrite H3. apply upto_from.
Qed.

Lemma split_token_good c :
  len c = 6 → bytes_ok c →
  split_token_to_setting c =
    get_setting (Z.lor (Z.shiftl (at_ c 0) 8) (at_ c 1)) (get_code_value (slice 2 6 c)).
Proof.
  intros Hl Hb. unfold split_token_to_setting. rewrite !index_at, slice_ok by lia. done.
Qed.

Lemma settings_loop_good cs acc :
  Forall (λ c, len c = 6 ∧ bytes_ok c) cs → Forall setting_wf acc →
  match settings_loop cs acc with
  | Ok s => Forall setting_wf s ∧ len s ≤ len acc + len cs
  | Err _ => True
  | Panic => False
  end.
Proof.
  intros Hcs. revert acc. induction Hcs as [|c cs [Hl Hb] Hcs IH]; intros acc Ha; simpl.
  { rewrite len_nil. auto with lia. }
  rewrite split_token_good by done. pose proof (at_ok c 0 Hb). pose proof (at_ok c 1 Hb).
  pose proof (get_setting_spec (Z.lor (Z.shiftl (at_ c 0) 8) (at_ c 1))
    (get_code_value (slice 2 6 c))) as Hg. rewrite len_cons.
  unfold is_u8 in *. rewrite lor_shiftl_add in Hg by lia.
  specialize (Hg ltac:(lia) ltac:(apply code_value_range; auto with rust)).
  rewrite lor_shiftl_add by lia. destruct (get_setting _ _) as [[s|]|e|]; cbn [mbind res_bind]; try done.
  - specialize (IH (acc ++ [s])). destruct (settings_loop cs (acc ++ [s])) as [l|e|]; [|done|].
    + rewrite len_app, len_cons, len_nil in IH.
      destruct IH as [? ?]; [apply Forall_app; split; [done|by repeat constructor; apply Hg]|].
      split; [done|lia].
    + apply IH. apply Forall_app. split; [done|]. by repeat constructor; apply Hg.
  - specialize (IH acc Ha). destruct (settings_loop cs acc) as [l|e|]; [|done|done].
    destruct IH as [? ?]. split; [done|lia].
Qed.

Section settings.
Context (max : Z) (P : bytes) (d : F.t).
Context (Ho : F.offset d = 0) (HP : bytes_ok P).
Context (Hlen : len P = payload_length d) (Hmax : payload_length d ≤ max).

Lemma settings_good : good max (F.decode_settings_payload P d).1.
Proof.
  unfold F.decode_settings_payload. exec. unfold is_connection_frame.
  destruct (Z.eqb_spec (FrameHeader.stream_id (F.header d)) 0); [|done]. cbn. rewrite Ho. cbn.
  unfold payload_length in *. pose proof (len_nonneg P).
  destruct (Z.eqb_spec (FrameHeader.payload_length (F.header d) mod 6) 0) as [Hm|]; [|done].
  destruct (FrameHeader.is_ack (F.header d)).
  { destruct (Z.eqb_spec (FrameHeader.payload_length (F.header d)) 0); [|done].
    destruct (Z.eqb_spec (len P) 0); [|done]. cbn. split; [done|]. split; [constructor|change (6 * 0 ≤ max); lia]. }
  rewrite <- Hlen in *. destruct (chunks_spec (length P) P Hm ltac:(lia) HP) as (Hc1 & Hc2 & _).
  pose proof (settings_loop_good (chunks 6 P) [] Hc1 ltac:(constructor)) as Hs.
  destruct (settings_loop (chunks 6 P) []) as [s|e'|]; cbn; [|done|done].
  destruct Hs as [Hs Hl]. split; [done|]. split; [done|]. unfold chunks in *.
  rewrite len_nil in Hl. lia.
Qed.
End settings.

(** ** Header blocks hand out only HEADERS and PUSH_PROMISE frames *)

Definition is_block (k : FrameKind) : Prop :=
  match k with
  | Complete f => match Frame.payload f with
                  | Payload.Headers _ | Payload.PushPromise _ _ => True | _ => False end
  | Partial => True
  end.
Definition block_out (m : fdec FrameKind) : Prop :=
  ∀ d, match (m d).1 with Ok k => is_block k | _ => True end.

Lemma block_bind {A} (m : fdec A) (k : A → fdec FrameKind) :
  (∀ a, block_out (k a)) → block_out (m ≫= k).
Proof. intros Hk d. rewrite M_bind_eq. destruct (m d) as [[a|e|] d']; [apply Hk|done..]. Qed.
Lemma block_if (c : bool) m n : block_out m → block_out n → block_out (if c then m else n).
Proof. by destruct c. Qed.
Lemma block_ret k : is_block k → block_out (mret k).
Proof. by intros ? ?. Qed.
Lemma block_fail e : block_out (mfail e).
Proof. done. Qed.
Ltac block :=
  repeat first
    [ done
    | apply block_bind; intros ?
    | apply block_if
    | apply block_fail
    | apply block_ret; cbn
    | match goal with |- block_out (let '(_, _) := ?x in _) => destruct x end
    | match goal with |- match (if ?c then _ else _) with _ => _ end => destruct c end ].

Lemma headers_block P : block_out (F.decode_headers_payload P).
Proof. unfold F.decode_headers_payload. block. Qed.
Lemma continuation_block P : block_out (F.decode_continuation_payload P).
Proof. unfold F.decode_continuation_payload. block. Qed.
Lemma push_promise_block P : block_out (F.decode_push_promise_payload P).
Proof. unfold F.decode_push_promise_payload, F.push_promise_framing. block. Qed.

(** * The decoder *)

(** The types whose payload holds a header block. *)
Definition block_type (ft : Z) : bool := (ft =? 1) || (ft =? 5) || (ft =? 9).

Lemma block_good_ok max m d : block_out m → good_ok max (m d).1.
Proof.
  intros Hm. specialize (Hm d). destruct (m d) as [[[f|]|e|] d']; try done. simpl in *.
  unfold frame_wf. by destruct (Frame.payload f).
Qed.

Lemma by_type_good max P d :
  F.offset d = 0 → bytes_ok P → len P = payload_length d → payload_length d ≤ max →
  let r := (F.decode_payload_by_type (frame_type d) P d).1 in
  good_ok max r ∧ (block_type (frame_type d) = false → good max r).
Proof.
  intros Ho HP Hl Hm r.
  assert (Hg : good max r ∨ block_type (frame_type d) = true ∧ good_ok max r).
  { subst r. unfold F.decode_payload_by_type. generalize (frame_type d) as ft. intros ft.
    destruct ft as [|p|p]; [left; by apply data_good| |by left].
    do 4 (try destruct p as [p|p|]); try (by left);
      first [left; by apply priority_good|left; by apply reset_good|left; by apply settings_good
        |left; by apply ping_good|left; by apply goaway_good|left; by apply window_update_good|idtac];
      right; (split; [done|]); apply block_good_ok;
      first [apply headers_block|apply push_promise_block|apply continuation_block]. }
  destruct Hg as [Hg|[Hb Hg]]; [auto using good_good_ok|]. split; [done|]. by rewrite Hb.
Qed.

(** Between calls, with the limit on the frame being read. *)
Definition fm_ok (d : F.t) : Prop :=
  fd_ok d ∧ (F.stage d = StagePayload → payload_length d ≤ F.max_frame_size d).

Lemma new_fm_ok : fm_ok F.new.
Proof. split; [apply new_fd_ok|done]. Qed.

(** The payload stage hands out a well-formed frame, and panics only on a
    header block. *)
Lemma payload_stage_good buf d :
  fm_ok d → F.stage d = StagePayload → bytes_ok buf →
  match F.decode_frame_payload buf d with
  | (Ok (Some (_, k)), _) => kind_wf (F.max_frame_size d) k
  | (Panic, _) => block_type (frame_type d) = true
  | _ => True
  end.
Proof.
  intros [(Ho & Hbo & Hst) Hm] Hs Hb. rewrite Hs in Hst. specialize (Hm Hs).
  pose proof (len_nonneg (F.buffer d)).
  rewrite payload_unfold. destruct (out_of_order d); [done|].
  destruct (Z.leb_spec (F.offset d) (payload_length d)); [|lia]. cbn [negb]. cbv zeta.
  destruct (Z.ltb_spec (len buf) (payload_length d - F.offset d)); [done|].
  set (n := payload_length d - F.offset d) in *.
  assert (Hlu : len (upto n buf) = n) by (rewrite len_upto by lia; lia).
  assert (Hg : let r := (F.decode_payload_by_type (frame_type d) (upto n buf) d).1 in
    good_ok (F.max_frame_size d) r ∧ (block_type (frame_type d) = false → good (F.max_frame_size d) r)).
  { destruct (Z.eq_dec (F.offset d) 0) as [Hz|Hnz].
    { apply by_type_good; [done|auto with rust|lia|done]. }
    destruct (Z.eq_dec (frame_type d) 2) as [H2|H2].
    { rewrite H2. unfold F.decode_payload_by_type, F.decode_priority_payload. exec.
      destruct (is_connection_frame _); [done|]. rewrite Hlu.
      destruct (Z.eqb_spec (FrameHeader.payload_length (F.header d)) 5) as [H5|]; [|done].
      destruct (Z.eqb_spec n 5); [|done]. unfold payload_length in *. lia. }
    destruct (payload_by_type_merge (frame_type d) (upto n buf) d H2 ltac:(lia))
      as (b & o & _ & -> & _).
    apply (by_type_good _ _ (clear d)); [done|apply Forall_app; auto with rust| |done].
    rewrite len_app, Hlu. unfold n. change (payload_length (clear d)) with (payload_length d). lia. }
  destruct (F.decode_payload_by_type (frame_type d) (upto n buf) d) as [[k|e|] d']; simpl in *;
    [exact (proj1 Hg)|done|]. destruct Hg as [_ Hg]. destruct (block_type _); [done|]. by destruct Hg.
Qed.

Lemma turn_fm_ok buf d o d' :
  fm_ok d → bytes_ok buf → F.turn buf d = (Ok o, d') →
  fm_ok d' ∧ F.max_frame_size d' = F.max_frame_size d ∧
  match o with Some (r, Some k) => kind_wf (F.max_frame_size d) k | _ => True end.
Proof.
  intros Hfm Hb Ht. pose proof Hfm as [Hok Hm].
  destruct (turn_fd_ok buf d o d' Hok Hb Ht) as [Hok' _].
  pose proof Hok as (Ho & _ & Hst). destruct (F.stage d) eqn:Hs.
  - rewrite header_turn, header_unfold in Ht by done. cbv zeta in Ht.
    destruct (_ <? _) in Ht.
    { injection Ht as <- <-. split; [|done]. split; [done|]. simpl. by rewrite Hs. }
    destruct (Z.ltb_spec (F.max_frame_size d)
      (FrameHeader.payload_length (header_of (F.buffer d ++ buf)))); [done|].
    injection Ht as <- <-. split; [|done]. by split.
  - pose proof (payload_stage_good buf d Hfm Hs Hb) as Hg.
    rewrite payload_turn in Ht by done. rewrite payload_unfold in *.
    destruct (out_of_order d); [done|]. destruct (negb _); [done|]. cbv zeta in *.
    destruct (_ <? _) in Ht, Hg.
    { injection Ht as <- <-. split; [|done]. split; [done|]. intros _. by apply Hm. }
    pose proof (keeps_by_type (frame_type d) (upto (payload_length d - F.offset d) buf) d) as Hk.
    destruct (F.decode_payload_by_type _ _ d) as [[k|e|] d1]; [|done..].
    injection Ht as <- <-. destruct Hk as (_ & Hk & _). simpl in *.
    split; [split; [done|]|split; [|done]]; unfold clear_if; by destruct (negb _).
Qed.

Lemma loop_good n buf fs d fs' d' :
  fm_ok d → bytes_ok buf → Forall (kind_wf (F.max_frame_size d)) fs →
  F.decode_loop n buf fs d = Some (Ok fs', d') →
  fm_ok d' ∧ Forall (kind_wf (F.max_frame_size d)) fs'.
Proof.
  revert buf fs d. induction n as [|n IH]; intros buf fs d Hok Hb Hf; [done|]. simpl.
  destruct (F.turn buf d) as [[[[r k]|]|e|] d1] eqn:Ht; try done.
  - pose proof (turn_fd_ok buf d _ d1 (proj1 Hok) Hb Ht) as (_ & Hr & _).
    apply turn_fm_ok in Ht as (Hok' & Hmx & Hk); [|done..]. rewrite <- Hmx in *.
    apply IH; [done|by eapply bytes_ok_suffix|]. apply Forall_app. split; [done|].
    destruct k; by repeat constructor.
  - intros [= <- <-]. split; [by eapply turn_fm_ok|done].
Qed.

Lemma decode_good buf d fs d' :
  fm_ok d → bytes_ok buf → F.decode buf d = (Ok fs, d') →
  fm_ok d' ∧ Forall (kind_wf (F.max_frame_size d)) fs.
Proof.
  intros Hok Hb Hd. pose proof (frame_loop_decode buf d (proj1 Hok) Hb) as Hl. rewrite Hd in Hl.
  eapply loop_good; eauto.
Qed.

(** * Identifiers *)

(** The frame that is handed out for a CONTINUATION without a header block in front of it. *)
Definition stray (f : Frame.t) : Prop := Frame.id f = 0 ∧ Frame.flags f = 0.
(** A frame with a header block is on a stream, but for the stray one. *)
Definition block_wf (f : Frame.t) : Prop :=
  match Frame.payload f with
  | Payload.Headers _ => Frame.id f ≠ 0 ∨ stray f
  | Payload.PushPromise promised _ => Frame.id f ≠ 0 ∧ 0 < promised < 2 ^ 31
  | _ => True
  end.
Definition id_wf (f : Frame.t) : Prop := 0 ≤ Frame.id f < 2 ^ 31 ∧ block_wf f.
(** A frame RFC 9113 allows. *)
Definition frame_valid (max : Z) (f : Frame.t) : Prop := frame_wf max f ∧ id_wf f.
Definition kind_valid (max : Z) (k : FrameKind) : Prop :=
  match k with Complete f => frame_valid max f | Partial => True end.

(** The block that is being read: none, or one on a stream. *)
Definition cont_ok (c : Continuations.t) : Prop :=
  c = Continuations.new ∨ 0 < Continuations.stream_id c < 2 ^ 31 ∧ 0 ≤ Continuations.promised_stream_id c < 2 ^ 31.
Definition id_ok (d : F.t) : Prop :=
  0 ≤ FrameHeader.stream_id (F.header d) < 2 ^ 31 ∧ cont_ok (F.continuations d) ∧ bytes_ok (F.buffer d).
Definition ids_post (r : res H2Error FrameKind * F.t) : Prop :=
  match r with
  | (Ok k, d') => match k with Complete f => id_wf f | Partial => True end ∧ cont_ok (F.continuations d')
  | _ => True
  end.
(** [m], run behind the header [h], hands out frames with identifiers in order. *)
Definition ids (h : FrameHeader.t) (m : fdec FrameKind) : Prop :=
  ∀ d, F.header d = h → id_ok d → ids_post (m d).
(** [m] leaves the header and the block alone. *)
Definition still {A} (m : fdec A) : Prop :=
  ∀ d, F.header (m d).2 = F.header d ∧ F.continuations (m d).2 = F.continuations d ∧ F.buffer (m d).2 = F.buffer d.

Lemma ids_still {A} h (m : fdec A) (k : A → fdec FrameKind) : still m → (∀ a, ids h (k a)) → ids h (m ≫= k).
Proof.
  intros Hm Hk d Hh (Hs & Hc & Hb). rewrite M_bind_eq. specialize (Hm d). destruct (m d) as [[a|e|] d']; [|done..].
  destruct Hm as (H1 & H2 & H3). simpl in *. apply Hk; [congruence|]. unfold id_ok. by rewrite H1, H2, H3.
Qed.
Lemma ids_header h (k : FrameHeader.t → fdec FrameKind) : ids h (k h) → ids h (mgets F.header ≫= k).
Proof. intros Hk d Hh Hd. rewrite M_bind_eq. unfold mgets. rewrite Hh. by apply Hk. Qed.
Lemma ids_if h (c : bool) m n : (c = true → ids h m) → (c = false → ids h n) → ids h (if c then m else n).
Proof. destruct c; auto. Qed.
Lemma ids_fail h e : ids h (mfail e).
Proof. by intros ? ? ?. Qed.
Lemma ids_merge h buf k : bytes_ok buf → (∀ b, bytes_ok b → ids h (k b)) → ids h (F.merge buf ≫= k).
Proof.
  intros Hb Hk d Hh (Hs & Hc & Hd). rewrite M_bind_eq. unfold F.merge. destruct (negb _); [|by apply Hk].
  apply Hk; [by apply Forall_app|done|]. split; [done|]. split; [done|]. by apply Forall_app.
Qed.
Lemma ids_complete h p : block_wf (Frame.mk (FrameHeader.stream_id h) (FrameHeader.flags h) p) → ids h (F.complete h p).
Proof. intros Hp d <- (Hs & Hc & _). by split. Qed.
Lemma still_lift {A} (r : res H2Error A) : still (mlift r).
Proof. done. Qed.
Lemma still_hpack_decode buf : still (F.hpack_decode buf).
Proof. intros d. unfold F.hpack_decode. by destruct (HpackDecoder.decode buf _). Qed.
Lemma still_hpack_finish : still F.hpack_finish.
Proof. intros d. unfold F.hpack_finish. by destruct (HpackDecoder.finish _). Qed.
Lemma still_bounds h n b : still (F.fragment_bounds h n b).
Proof.
  intros d. unfold F.fragment_bounds. destruct (FrameHeader.is_padded h); [|done]. rewrite M_bind_eq. unfold mlift.
  destruct (index_ b 0); try done. by destruct (_ <=? _).
Qed.
Lemma still_padded {A} (c : bool) (m n : fdec A) : still m → still n → still (if c then m else n).
Proof. by destruct c. Qed.
Lemma still_bind {A B} (m : fdec A) (k : A → fdec B) : still m → (∀ a, still (k a)) → still (m ≫= k).
Proof.
  intros Hm Hk d. rewrite M_bind_eq. specialize (Hm d). destruct (m d) as [[a|e|] d']; try done.
  specialize (Hk a d'). simpl in *. destruct Hm as (? & ? & ?), Hk as (? & ? & ?). split_and!; congruence.
Qed.
Lemma still_fail {A} e : still (mfail (A := A) e).
Proof. done. Qed.
Create HintDb still discriminated.
#[export] Hint Constants Opaque : still.
#[export] Hint Resolve still_lift still_hpack_decode still_hpack_finish still_bounds still_padded still_bind still_fail : still.

Ltac ids :=
  repeat first
    [ apply ids_fail
    | apply ids_header
    | (apply ids_merge; [done|intros ? ?])
    | (apply ids_if; intros ?)
    | (apply ids_complete; cbn; unfold is_connection_frame in *; zbool; try done; try (left; lia))
    | (apply ids_still; [solve [eauto 6 with still]|intros ?])
    | match goal with |- ids _ (let '(_, _) := ?x in _) => destruct x end ].

(** The start of a block that does not end with its first frame. *)
Lemma ids_open h (f : F.t → Continuations.t) (r : res H2Error bytes) :
  (∀ d, F.header d = h → id_ok d → cont_ok (f d)) →
  ids h (_ ← mmodify (λ d, F.set_cont d (f d)); fragment ← mlift r; _ ← F.hpack_decode fragment; mret Partial).
Proof.
  intros Hf d Hh Hd. change F.dec with (M F.t H2Error). rewrite M_bind_eq. unfold mmodify. cbv beta iota. rewrite M_bind_eq. unfold mlift.
  destruct r as [fragment|e|]; [|done..]. rewrite M_bind_eq. pose proof (still_hpack_decode fragment (F.set_cont d (f d))) as Hm.
  destruct (F.hpack_decode _ _) as [[a|e|] d']; [|done..]. split; [done|]. destruct Hm as (_ & Hm & _). simpl in Hm. rewrite Hm. by apply Hf.
Qed.
Lemma headers_ids h buf : bytes_ok buf → ids h (F.decode_headers_payload buf).
Proof.
  intros Hb. unfold F.decode_headers_payload. ids. unfold is_connection_frame in *. zbool.
  apply (ids_open h (λ d, Continuations.mk (FrameHeader.flags h) (FrameHeader.is_end_stream h) (FrameHeader.stream_id h) false
    (Continuations.promised_stream_id (F.continuations d)))).
  intros d1 <- (? & [-> | [? ?]] & ?); right; simpl; lia.
Qed.
Lemma continuation_ids h buf : bytes_ok buf → ids h (F.decode_continuation_payload buf).
Proof.
  intros Hb. unfold F.decode_continuation_payload. ids; [|by intros ? ? (? & ? & ?)].
  intros d Hh (_ & Hc & _). change F.dec with (M F.t H2Error). rewrite M_bind_eq. unfold mgets. cbv beta iota. rewrite M_bind_eq. unfold mmodify. cbv beta iota.
  split; [|by left]. destruct Hc as [->|[Hs Hp]]; [by split; [done|right]|].
  destruct (Z.eqb_spec (Continuations.promised_stream_id (F.continuations d)) 0); split; simpl; first [lia|by left; simpl; lia|split; simpl; lia].
Qed.
Lemma framing_ids h e p : FrameHeader.stream_id h ≠ 0 → 0 < p < 2 ^ 31 → ids h (F.push_promise_framing e p).
Proof.
  intros Hh Hp. unfold F.push_promise_framing. ids.
  intros d <- (Hs & Hc & _). rewrite M_bind_eq. split; [done|]. right. simpl. lia.
Qed.
Lemma push_promise_ids h buf : bytes_ok buf → ids h (F.decode_push_promise_payload buf).
Proof.
  intros Hb. unfold F.decode_push_promise_payload. apply ids_header.
  apply ids_if; intros Hh0; [apply ids_fail|]. apply ids_merge; [done|intros b Hbb]. apply ids_still; [eauto with still|intros [i j]].
  apply ids_if; intros _; [apply ids_fail|]. apply ids_still; [eauto with still|intros []].
  intros d Hh Hd. change F.dec with (M F.t H2Error). rewrite M_bind_eq. unfold mlift. destruct (if FrameHeader.is_padded h then slice_ 1 5 _ else _) as [t|e|] eqn:Ht; [|done..].
  assert (Hbt : bytes_ok t).
  { destruct (FrameHeader.is_padded h); unfold slice_ in Ht; destruct (_ && _) in Ht; try done; injection Ht as <-; auto with rust. }
  pose proof (stream_id_range t Hbt) as Hr. unfold is_connection_frame in Hh0 |- *. zbool.
  destruct (Z.eqb_spec (get_stream_id t) 0); [done|]. apply (framing_ids h); [done|lia|done|done].
Qed.
Lemma by_type_ids h ft buf : bytes_ok buf → ids h (F.decode_payload_by_type ft buf).
Proof.
  intros Hb. unfold F.decode_payload_by_type.
  destruct ft as [|p|p]; [| |apply ids_fail]; [|do 4 (try destruct p as [p|p|])];
    first [apply ids_fail | by apply headers_ids | by apply continuation_ids | by apply push_promise_ids |
      unfold F.decode_data_payload, F.decode_priority_payload, F.decode_reset_payload, F.decode_settings_payload,
        F.decode_ping_payload, F.decode_goaway_payload, F.decode_window_update_payload; ids].
Qed.

(** * The decoder between calls *)

Definition fv_ok (d : F.t) : Prop :=
  fm_ok d ∧ 0 ≤ FrameHeader.stream_id (F.header d) < 2 ^ 31 ∧ cont_ok (F.continuations d).
Lemma new_fv_ok : fv_ok F.new.
Proof. split; [apply new_fm_ok|]. split; [done|by left]. Qed.

Lemma turn_fv_ok buf d o d' :
  fv_ok d → bytes_ok buf → F.turn buf d = (Ok o, d') →
  fv_ok d' ∧ F.max_frame_size d' = F.max_frame_size d ∧
  match o with Some (r, Some k) => kind_valid (F.max_frame_size d) k | _ => True end.
Proof.
  intros (Hfm & Hid & Hc) Hb Ht. destruct (turn_fm_ok buf d o d' Hfm Hb Ht) as (Hfm' & Hmx & Hk).
  pose proof (proj1 Hfm) as Hok. pose proof Hok as (Ho & Hbo & Hst). destruct (F.stage d) eqn:Hs.
  - rewrite header_turn, header_unfold in Ht by done. cbv zeta in Ht. destruct (_ <? _) in Ht; [by injection Ht as <- <-|].
    destruct (_ <? _) in Ht; [done|]. injection Ht as <- <-. split; [|done]. split; [done|]. split; [|done].
    apply stream_id_range, bytes_ok_slice. by apply Forall_app.
  - rewrite payload_turn, payload_unfold in Ht by done. destruct (out_of_order d); [done|]. destruct (negb _); [done|]. cbv zeta in Ht.
    destruct (_ <? _) in Ht; [by injection Ht as <- <-|].
    pose proof (by_type_ids (F.header d) (frame_type d) (upto (payload_length d - F.offset d) buf) ltac:(auto with rust) d eq_refl) as Hi.
    destruct (F.decode_payload_by_type _ _ d) as [[k|e|] d1]; [|done..]. injection Ht as <- <-. destruct Hi as [Hi Hc1]; [done|].
    split; [|split; [done|]]; [|by destruct k].
    split; [done|]. unfold clear_if. destruct (negb _); by split.
Qed.
Lemma loop_valid n buf fs d fs' d' :
  fv_ok d → bytes_ok buf → Forall (kind_valid (F.max_frame_size d)) fs →
  F.decode_loop n buf fs d = Some (Ok fs', d') →
  fv_ok d' ∧ Forall (kind_valid (F.max_frame_size d)) fs'.
Proof.
  revert buf fs d. induction n as [|n IH]; intros buf fs d Hok Hb Hf; [done|]. simpl.
  destruct (F.turn buf d) as [[[[r k]|]|e|] d1] eqn:Ht; try done.
  - pose proof (turn_fd_ok buf d _ d1 (proj1 (proj1 Hok)) Hb Ht) as (_ & Hr & _).
    apply turn_fv_ok in Ht as (Hok' & Hmx & Hk); [|done..]. rewrite <- Hmx in *.
    apply IH; [done|by eapply bytes_ok_suffix|]. apply Forall_app. split; [done|].
    destruct k; by repeat constructor.
  - intros [= <- <-]. split; [by eapply turn_fv_ok|done].
Qed.

(** * Theorems *)

(** C37: Every frame the decoder hands out is well formed: a stream identifier of 31 bits;
    DATA, PRIORITY and RST_STREAM on a stream, SETTINGS, PING and GOAWAY on the connection,
    settings in their ranges, eight octets of PING, a positive window increment, and for
    these types a payload no longer than the advertised [max_frame_size]; PUSH_PROMISE on a
    stream and with a promised identifier that is one; HEADERS on a stream, but for the one
    with identifier and flags 0 that a CONTINUATION without a block in front of it gives
    ([stray]).  The decoder is left in a state from which this holds again. *)
Theorem decoded_frames_valid buf d fs d' :
  fv_ok d → bytes_ok buf → F.decode buf d = (Ok fs, d') →
  Forall (kind_valid (F.max_frame_size d)) fs ∧ fv_ok d'.
Proof.
  intros Hok Hb Hd. pose proof (frame_loop_decode buf d (proj1 (proj1 Hok)) Hb) as Hl. rewrite Hd in Hl.
  destruct (loop_valid _ _ _ _ _ _ Hok Hb ltac:(constructor) Hl). done.
Qed.

Lemma decoded_frames_valid_witness :
  Forall (kind_valid 16384) [Complete (Frame.mk 5 0 (Payload.RstStream 8))].
Proof.
  pose proof (decoded_frames_valid [0; 0; 4; 3; 0; 0; 0; 0; 5; 0; 0; 0; 8] F.new
    [Complete (Frame.mk 5 0 (Payload.RstStream 8))]) as H.
  destruct (F.decode [0; 0; 4; 3; 0; 0; 0; 0; 5; 0; 0; 0; 8] F.new) as [r d'] eqn:Hr.
  apply (H d').
  - apply new_fv_ok.
  - repeat constructor; done.
  - f_equal. transitivity (F.decode [0; 0; 4; 3; 0; 0; 0; 0; 5; 0; 0; 0; 8] F.new).1.
    + by rewrite Hr.
    + vm_compute. reflexivity.
Defined.

(** The payload stage panics on no input but a payload that holds a header
    block: an unchecked index or subtraction cannot go wrong for DATA, PRIORITY,
    RST_STREAM, SETTINGS, PING, GOAWAY, WINDOW_UPDATE and unknown frame types. *)
Theorem frame_payload_no_panic buf d :
  fm_ok d → F.stage d = StagePayload → bytes_ok buf → block_type (frame_type d) = false →
  (F.decode_frame_payload buf d).1 ≠ Panic.
Proof.
  intros Hd Hs Hb Ht Hp. pose proof (payload_stage_good buf d Hd Hs Hb) as Hg.
  destruct (F.decode_frame_payload buf d) as [r d']. simpl in Hp. subst r. congruence.
Qed.

Lemma frame_payload_no_panic_witness :
  (F.decode_frame_payload [1; 2]
    (F.set_stage (F.set_header F.new (FrameHeader.mk 1 8 0 3)) StagePayload)).1 ≠ Panic.
Proof.
  apply (frame_payload_no_panic [1; 2]
    (F.set_stage (F.set_header F.new (FrameHeader.mk 1 8 0 3)) StagePayload)).
  - split; [split; [done|split; [constructor|vm_compute; done]]|]. intros _. vm_compute. done.
  - done.
  - repeat constructor; done.
  - done.
Defined.

(** The header-block types do panic: an empty HEADERS frame with the PADDED
    flag makes the decoder read the padding length from an empty payload. *)
Theorem padded_empty_headers_panics :
  (FrameDecoder.decode [0; 0; 0; 1; 0x0c; 0; 0; 0; 1] FrameDecoder.new).1 = Panic.
Proof. vm_compute. reflexivity. Qed.

(** A CONTINUATION frame with no header block open is not a protocol error:
    the decoder hands out a HEADERS frame on stream 0. *)
Theorem stray_continuation_accepted :
  (FrameDecoder.decode [0; 0; 1; 9; 4; 0; 0; 0; 1; 0x82] FrameDecoder.new).1 =
    Ok [Complete (Frame.mk 0 0 (Payload.Headers
      (Parts.mk (PseudoHeaders.set_method PseudoHeaders.new (Some (str "GET"))) Headers.new)))].
Proof. vm_compute. reflexivity. Qed.

(** [get_setting] on every branch: the six settings of RFC 9113 with their
    ranges, the error of each value out of range, and unknown identifiers
    ignored; it never panics. *)
Theorem setting_parsed id v :
  0 ≤ id → is_u32 v →
  match get_setting id v with
  | Ok (Some s) => setting_wf s ∧ Setting.setting_identifier s = id ∧ setting_value s = v
  | Ok None => id = 0 ∨ 6 < id
  | Err e =>
      (id = 2 ∧ 1 < v ∧ e = protocol_error) ∨
      (id = 4 ∧ 2 ^ 31 - 1 < v ∧ e = ConnectionError FlowControlError) ∨
      (id = 5 ∧ ¬ 2 ^ 14 ≤ v ≤ 2 ^ 24 - 1 ∧ e = protocol_error)
  | Panic => False
  end.
Proof. apply get_setting_spec. Qed.

Lemma setting_parsed_witness : setting_wf (Setting.MaxFrameSize 16384).
Proof. apply (setting_parsed 5 16384); [lia|]. unfold is_u32. lia. Defined.
