(* ===== verification/H2FrameEncoder.v ===== *)
(** The HTTP/2 frame encoder ([ylong_http/src/h2/encoder.rs]).

    [FrameEncoder] writes the frame it was given into the caller's buffers, a
    piece per call; [FrameEncoderState] says which piece comes next.  A method
    that takes [buf: &mut [u8]] is a computation in the monad [M] that takes
    the contents of [buf] and returns its new contents with the number of bytes
    written.  [header_payload_buffer] is the vector the header block is encoded
    into. *)
From S2P Require Import Prelude HpackTable Headers Parts HpackReprEncoder Hpack H2Frame.
From S2P Require Import H2FrameDecoder.

Definition ENC_DEFAULT_MAX_FRAME_SIZE : Z := 16384.
Definition ENC_DEFAULT_HEADER_TABLE_SIZE : Z := 4096.

Inductive FrameEncoderErr :=
| EncodingData | UnexpectedPayloadType | NoCurrentFrame | InternalError | HeadersNotEnd.

Inductive FrameEncoderState :=
| Idle
| EncodingHeadersFrame
| EncodingHeadersPayload
| EncodingHeadersPadding
| EncodingContinuationFrames
| HeadersComplete
| EncodingDataHeader
| EncodingDataPayload
| EncodingDataPadding
| EncodingSettingsFrame
| EncodingSettingsPayload
| EncodingGoawayFrame
| EncodingGoawayPayload
| EncodingWindowUpdateFrame
| EncodingWindowUpdatePayload
| EncodingPriorityFrame
| EncodingPriorityPayload
| EncodingRstStreamFrame
| EncodingRstStreamPayload
| EncodingPingFrame
| EncodingPingPayload
| DataComplete.

#[export] Instance FrameEncoderState_eq_dec : EqDecision FrameEncoderState.
Proof. solve_decision. Defined.

(** [for (buf_index, item) in buf.iter_mut().enumerate().take(len) { *item = g(buf_index) }] *)
Fixpoint fill {E} (g : Z → res E Z) (buf_index : Z) (len : nat) (buf : bytes) : res E bytes :=
  match len, buf with
  | S len, _ :: buf =>
      v ← g buf_index;
      r ← fill g (buf_index + 1) len buf;
      Ok (v :: r)
  | _, _ => Ok buf
  end.

(** [for buf_index in 0..len { buf[p] = v }] with [(p, v) = g(buf_index)]. *)
Fixpoint write_at {E} (g : Z → res E (Z * Z)) (buf_index : Z) (n : nat) (buf : bytes)
    : res E bytes :=
  match n with
  | O => Ok buf
  | S n =>
      '(p, v) ← g buf_index;
      if (0 <=? p) && (p <? len buf) then write_at g (buf_index + 1) n (<[Z.to_nat p := v]> buf)
      else Panic
  end.

(** [buf[..n].copy_from_slice(src)] *)
Definition copy_front (src buf : bytes) : bytes := src ++ from (len src) buf.

(** [(x >> k) as u8] *)
Definition byte_at (x k : Z) : Z := as_u8 (Z.shiftr x k).
(** [a.saturating_sub(b)] *)
Definition saturating_sub (a b : Z) : Z := Z.max 0 (a - b).

Definition in_range (a i b : Z) : bool := (a <=? i) && (i <=? b).

Module FrameEncoder.
Record t := mk {
  current_frame : option Frame.t;
  max_frame_size : Z;
  max_header_list_size : Z;
  hpack_encoder : HpackEncoder.t;
  state : FrameEncoderState;
  encoded_bytes : Z;
  data_offset : Z;
  remaining_header_payload : Z;
  remaining_payload_bytes : Z;
  is_end_stream : bool;
  is_end_headers : bool;
  header_payload_buffer : bytes;
  header_payload_index : Z;
}.

Definition new (max_frame_size : Z) (use_huffman : bool) : t := {|
  current_frame := None;
  max_frame_size := max_frame_size;
  max_header_list_size := usize_max;
  hpack_encoder := HpackEncoder.new ENC_DEFAULT_HEADER_TABLE_SIZE use_huffman;
  state := Idle;
  encoded_bytes := 0;
  data_offset := 0;
  remaining_header_payload := 0;
  remaining_payload_bytes := 0;
  is_end_stream := false;
  is_end_headers := false;
  header_payload_buffer := replicate (Z.to_nat ENC_DEFAULT_MAX_FRAME_SIZE) 0;
  header_payload_index := 0;
|}.

(** Assignments to the fields. *)
Definition set_frame_opt (e : t) x : t :=
  let 'mk _ b c d s eb o rh rp es eh pb pi := e in mk x b c d s eb o rh rp es eh pb pi.
Definition set_max (e : t) x : t :=
  let 'mk a _ c d s eb o rh rp es eh pb pi := e in mk a x c d s eb o rh rp es eh pb pi.
Definition set_max_list (e : t) x : t :=
  let 'mk a b _ d s eb o rh rp es eh pb pi := e in mk a b x d s eb o rh rp es eh pb pi.
Definition set_hpack (e : t) x : t :=
  let 'mk a b c _ s eb o rh rp es eh pb pi := e in mk a b c x s eb o rh rp es eh pb pi.
Definition set_state (e : t) x : t :=
  let 'mk a b c d _ eb o rh rp es eh pb pi := e in mk a b c d x eb o rh rp es eh pb pi.
Definition set_encoded (e : t) x : t :=
  let 'mk a b c d s _ o rh rp es eh pb pi := e in mk a b c d s x o rh rp es eh pb pi.
Definition set_offset (e : t) x : t :=
  let 'mk a b c d s eb _ rh rp es eh pb pi := e in mk a b c d s eb x rh rp es eh pb pi.
Definition set_rem_header (e : t) x : t :=
  let 'mk a b c d s eb o _ rp es eh pb pi := e in mk a b c d s eb o x rp es eh pb pi.
Definition set_rem_payload (e : t) x : t :=
  let 'mk a b c d s eb o rh _ es eh pb pi := e in mk a b c d s eb o rh x es eh pb pi.
Definition set_end_stream (e : t) x : t :=
  let 'mk a b c d s eb o rh rp _ eh pb pi := e in mk a b c d s eb o rh rp x eh pb pi.
Definition set_end_headers (e : t) x : t :=
  let 'mk a b c d s eb o rh rp es _ pb pi := e in mk a b c d s eb o rh rp es x pb pi.
Definition set_payload_buffer (e : t) x : t :=
  let 'mk a b c d s eb o rh rp es eh _ pi := e in mk a b c d s eb o rh rp es eh x pi.
Definition set_payload_index (e : t) x : t :=
  let 'mk a b c d s eb o rh rp es eh pb _ := e in mk a b c d s eb o rh rp es eh pb x.

Abbreviation enc := (M t FrameEncoderErr).
(** A method that writes into [buf]: the new contents and the bytes written. *)
Abbreviation writer := (bytes → enc (bytes * Z)).

(** [self.hpack_encoder.encode(&mut self.header_payload_buffer)] *)
Definition hpack_encode : enc Z := λ e,
  let '(w, r, h) := HpackEncoder.encode (hpack_encoder e) (len (header_payload_buffer e)) in
  let e := set_payload_buffer (set_hpack e h) (copy_front w (header_payload_buffer e)) in
  match r with
  | Ok size => (Ok size, e)
  | Err x => match x with end
  | Panic => (Panic, e)
  end.

Definition set_frame (into_iter : Headers.t → list (HeaderName.t * HeaderValue.t))
    (frame : Frame.t) : enc () :=
  _ ← mmodify (λ e, set_end_stream e (FrameFlags.is_end_stream (Frame.flags frame)));
  _ ← mmodify (λ e, set_end_headers e (FrameFlags.is_end_headers (Frame.flags frame)));
  _ ← mmodify (λ e, set_frame_opt e (Some frame));
  _ ← mmodify (λ e, set_encoded e 0);
  match Frame.payload frame with
  | Payload.Headers parts =>
      eh ← mgets is_end_headers;
      if negb eh then mfail HeadersNotEnd
      else
        _ ← mmodify (λ e, set_hpack e (HpackEncoder.set_parts into_iter (hpack_encoder e) parts));
        _ ← mmodify (λ e, set_payload_index e 0);
        payload_size ← hpack_encode;
        _ ← mmodify (λ e, set_rem_header e payload_size);
        mmodify (λ e, set_state e EncodingHeadersFrame)
  | Payload.Priority _ _ _ => mmodify (λ e, set_state e EncodingPriorityFrame)
  | Payload.RstStream _ => mmodify (λ e, set_state e EncodingRstStreamFrame)
  | Payload.Ping _ => mmodify (λ e, set_state e EncodingPingFrame)
  | Payload.Data data =>
      _ ← mmodify (λ e, set_offset e 0);
      _ ← mmodify (λ e, set_rem_payload e (len data));
      mmodify (λ e, set_state e EncodingDataHeader)
  | Payload.Settings _ => mmodify (λ e, set_state e EncodingSettingsFrame)
  | Payload.Goaway _ _ _ => mmodify (λ e, set_state e EncodingGoawayFrame)
  | Payload.WindowUpdate _ => mmodify (λ e, set_state e EncodingWindowUpdateFrame)
  | Payload.PushPromise _ _ => mret ()
  end.

Definition update_setting (e : t) (setting : Setting.t) : t :=
  match current_frame e with
  | Some (Frame.mk id flags (Payload.Settings s)) =>
      set_frame_opt e (Some (Frame.mk id flags
        (Payload.Settings (Settings.update_setting s setting))))
  | _ => e
  end.

Definition update_max_frame_size (e : t) (size : Z) : t := set_max e size.
Definition update_header_table_size (e : t) (size : Z) : t :=
  set_hpack e (HpackEncoder.update_max_dynamic_table_size (hpack_encoder e) size).
Definition update_max_header_list_size (e : t) (size : Z) : t := set_max_list e size.

Definition finish_current_frame (e : t) : t :=
  let e := set_payload_index e 0 in
  let e := set_end_stream e false in
  let e := set_frame_opt e None in
  let e := set_end_headers e false in
  let e := set_rem_header e 0 in
  set_encoded e 0.

Definition read_rest_payload : enc () :=
  _ ← mmodify (λ e, set_payload_index e 0);
  payload_size ← hpack_encode;
  mmodify (λ e, set_rem_header e payload_size).

Definition try_retrieve_current_frame : enc Frame.t := λ e,
  (ok_or (current_frame e) NoCurrentFrame, e).

(** [9 - encoded_bytes], and 0 once the header is out. *)
Definition remaining_header_bytes (encoded_bytes : Z) : Z :=
  if 9 <=? encoded_bytes then 0 else 9 - encoded_bytes.

Definition write_payload (buf : bytes) (payload_len : Z) : enc (bytes * Z) :=
  e ← mget;
  room ← mlift (sub_ payload_len (header_payload_index e));
  let bytes_to_write := Z.min (len buf) room in
  src ← mlift (slice_ (header_payload_index e) (header_payload_index e + bytes_to_write)
                 (header_payload_buffer e));
  _ ← mmodify (λ e, set_payload_index e (header_payload_index e + bytes_to_write));
  mret (copy_front src buf, bytes_to_write).

(** ** HEADERS and CONTINUATION *)

Definition headers_header_status : enc () :=
  e ← mget;
  if header_payload_index e <? remaining_header_payload e then
    mmodify (λ e, set_state e EncodingHeadersPayload)
  else if HpackEncoder.is_finished (hpack_encoder e) then
    mmodify (λ e, set_state (finish_current_frame e) HeadersComplete)
  else
    _ ← read_rest_payload;
    mmodify (λ e, set_state e EncodingContinuationFrames).

Definition headers_header_byte (e : t) (frame : Frame.t) (buf_index : Z) : res FrameEncoderErr Z :=
  let i := encoded_bytes e + buf_index in
  if in_range 0 i 2 then
    Ok (as_u8 (Z.land (Z.shiftr (remaining_header_payload e) (16 - 8 * i)) 0xFF))
  else if i =? 3 then Ok (FrameType.as_u8 FrameType.Headers)
  else if i =? 4 then
    if HpackEncoder.is_finished (hpack_encoder e) then Ok (Frame.flags frame)
    else Ok (Z.land (Frame.flags frame) 0xFB)
  else if in_range 5 i 8 then Ok (byte_at (Frame.id frame) (24 - 8 * (i - 5)))
  else Err InternalError.

Definition iterate_headers_header (frame : Frame.t) (buf : bytes) (len : Z) : enc bytes := λ e,
  (fill (headers_header_byte e frame) 0 (Z.to_nat len) buf, e).

Definition encode_headers_frame : writer := λ buf,
  frame ← try_retrieve_current_frame;
  match Frame.payload frame with
  | Payload.Headers _ =>
      eb ← mgets encoded_bytes;
      let bytes_to_write := Z.min (remaining_header_bytes eb) (len buf) in
      buf ← iterate_headers_header frame buf bytes_to_write;
      _ ← mmodify (λ e, set_encoded e (encoded_bytes e + bytes_to_write));
      let bytes_written := bytes_to_write in
      e ← mget;
      if 9 <=? encoded_bytes e then
        '(rest, payload_bytes_written) ←
          write_payload (from bytes_written buf) (remaining_header_payload e);
        _ ← mmodify (λ e, set_encoded e (encoded_bytes e + payload_bytes_written));
        _ ← headers_header_status;
        mret (upto bytes_written buf ++ rest, bytes_written + payload_bytes_written)
      else mret (buf, bytes_written)
  | _ => mfail UnexpectedPayloadType
  end.

Definition encode_headers_payload : writer := λ buf,
  frame ← try_retrieve_current_frame;
  match Frame.payload frame with
  | Payload.Headers _ =>
      if len buf =? 0 then mret (buf, 0)
      else
        e ← mget;
        '(buf, payload_bytes_written) ← write_payload buf (remaining_header_payload e);
        _ ← mmodify (λ e, set_encoded e (encoded_bytes e + payload_bytes_written));
        _ ← headers_header_status;
        mret (buf, payload_bytes_written)
  | _ => mfail UnexpectedPayloadType
  end.

(** The nine bytes of a CONTINUATION header. *)
Definition continuation_header (e : t) (frame : Frame.t) (continuation_frame_len : Z) : bytes :=
  let new_flags :=
    if (remaining_header_payload e <=? max_frame_size e)
       && HpackEncoder.is_finished (hpack_encoder e) && is_end_headers e
    then FrameFlags.set_end_headers FrameFlags.empty true else FrameFlags.empty in
  ((λ i, as_u8 (Z.land (Z.shiftr continuation_frame_len (16 - 8 * i)) 0xFF)) <$> [0; 1; 2])
  ++ [FrameType.as_u8 FrameType.Continuation; new_flags]
  ++ ((λ i, byte_at (Frame.id frame) (24 - 8 * i)) <$> [0; 1; 2; 3]).

Definition encode_continuation_frames : writer := λ buf,
  frame ← try_retrieve_current_frame;
  match Frame.payload frame with
  | Payload.Headers _ =>
      if len buf <? 9 then mret (buf, 0)
      else
        e ← mget;
        let continuation_frame_len := Z.min (remaining_header_payload e) (max_frame_size e) in
        let buf := copy_front (continuation_header e frame continuation_frame_len) buf in
        '(rest, payload_bytes_written) ← write_payload (from 9 buf) continuation_frame_len;
        _ ← mmodify (λ e, set_encoded e (encoded_bytes e + payload_bytes_written));
        _ ← headers_header_status;
        mret (upto 9 buf ++ rest, 9 + payload_bytes_written)
  | _ => mfail UnexpectedPayloadType
  end.

(** ** DATA *)

Definition data_header_byte (e : t) (frame : Frame.t) (payload_len buf_index : Z)
    : res FrameEncoderErr Z :=
  let i := encoded_bytes e + buf_index in
  if in_range 0 i 2 then Ok (as_u8 (Z.land (Z.shiftr payload_len (16 - 8 * i)) 0xFF))
  else if i =? 3 then Ok (FrameType.as_u8 (Payload.frame_type (Frame.payload frame)))
  else if i =? 4 then
    if remaining_payload_bytes e <=? max_frame_size e then Ok (Frame.flags frame)
    else Ok (Z.land (Frame.flags frame) 0xFE)
  else if in_range 5 i 8 then Ok (byte_at (Frame.id frame) (24 - 8 * (i - 5)))
  else Err InternalError.

Definition iterate_data_header (frame : Frame.t) (buf : bytes) (payload_len len : Z)
    : enc bytes := λ e, (fill (data_header_byte e frame payload_len) 0 (Z.to_nat len) buf, e).

Definition encode_data_header : writer := λ buf,
  frame ← try_retrieve_current_frame;
  match Frame.payload frame with
  | Payload.Data _ =>
      e ← mget;
      let bytes_to_write := Z.min (remaining_header_bytes (encoded_bytes e)) (len buf) in
      buf ← iterate_data_header frame buf
              (Z.min (remaining_payload_bytes e) (max_frame_size e)) bytes_to_write;
      _ ← mmodify (λ e, set_encoded e (encoded_bytes e + bytes_to_write));
      _ ← mmodify (λ e, if encoded_bytes e =? 9
                        then set_state (set_encoded e 0) EncodingDataPayload else e);
      mret (buf, bytes_to_write)
  | _ => mfail UnexpectedPayloadType
  end.

Definition encode_slice (buf data : bytes) : enc (bytes * Z) :=
  e ← mget;
  let start := data_offset e in
  room ← mlift (sub_ (max_frame_size e) start);
  let allow_to_write := Z.min room (remaining_payload_bytes e) in
  let bytes_to_write := Z.min allow_to_write (len buf) in
  src ← mlift (slice_ start (start + bytes_to_write) data);
  mret (copy_front src buf, bytes_to_write).

Definition encode_data_payload : writer := λ buf,
  frame ← try_retrieve_current_frame;
  match Frame.payload frame with
  | Payload.Data payload =>
      '(buf, writen_bytes) ← encode_slice buf payload;
      _ ← mmodify (λ e, set_offset e (data_offset e + writen_bytes));
      e ← mget;
      remaining ← mlift (sub_ (remaining_payload_bytes e) writen_bytes);
      _ ← mmodify (λ e, set_rem_payload e remaining);
      _ ← mmodify (λ e,
            if remaining_payload_bytes e =? 0 then set_state (set_offset e 0) DataComplete
            else if data_offset e =? max_frame_size e then
              set_state (set_offset e 0) EncodingDataHeader
            else set_state e EncodingDataPayload);
      mret (buf, writen_bytes)
  | _ => mfail UnexpectedPayloadType
  end.

Definition encode_padding : writer := λ buf,
  frame ← try_retrieve_current_frame;
  if FrameFlags.is_padded (Frame.flags frame) then
    match Frame.payload frame with
    | Payload.Data data =>
        let padding_len := len data in
        eb ← mgets encoded_bytes;
        remaining_padding_bytes ← mlift (sub_ padding_len eb);
        let bytes_to_write := Z.min remaining_padding_bytes (len buf) in
        buf ← mlift (fill (λ _, Ok 0) 0 (Z.to_nat bytes_to_write) buf);
        _ ← mmodify (λ e, set_encoded e (encoded_bytes e + bytes_to_write));
        _ ← mmodify (λ e, if encoded_bytes e =? padding_len then set_state e DataComplete else e);
        mret (buf, bytes_to_write)
    | _ => mfail UnexpectedPayloadType
    end
  else mret (buf, 0).

(** ** GOAWAY *)

(** The body of the header methods that count to nine and go on. *)
Definition goaway_header_byte (e : t) (frame : Frame.t) (buf_index : Z) : res FrameEncoderErr Z :=
  let i := encoded_bytes e + buf_index in
  if in_range 0 i 2 then
    match Frame.payload frame with
    | Payload.Goaway _ _ debug =>
        Ok (as_u8 (Z.land (Z.shiftr (goaway_encoded_len debug) (8 * (2 - i))) 0xFF))
    | _ => Err UnexpectedPayloadType
    end
  else if i =? 3 then Ok (FrameType.as_u8 FrameType.Goaway)
  else if i =? 4 then Ok (Frame.flags frame)
  else if in_range 5 i 8 then Ok (byte_at (Frame.id frame) (24 - 8 * (i - 5)))
  else Err InternalError.

Definition iterate_goaway_header (frame : Frame.t) (buf : bytes) (len : Z) : enc bytes := λ e,
  (fill (goaway_header_byte e frame) 0 (Z.to_nat len) buf, e).

Definition encode_goaway_frame : writer := λ buf,
  frame ← try_retrieve_current_frame;
  match Frame.payload frame with
  | Payload.Goaway _ _ _ =>
      eb ← mgets encoded_bytes;
      let bytes_to_write := Z.min (remaining_header_bytes eb) (len buf) in
      buf ← iterate_goaway_header frame buf bytes_to_write;
      _ ← mmodify (λ e, set_encoded e (encoded_bytes e + bytes_to_write));
      _ ← mmodify (λ e, if encoded_bytes e =? 9 then set_state e EncodingGoawayPayload else e);
      mret (buf, bytes_to_write)
  | _ => mfail UnexpectedPayloadType
  end.

Definition goaway_payload_byte (e : t) (error_code last_stream_id : Z) (debug_data : bytes)
    (buf_index : Z) : res FrameEncoderErr Z :=
  o ← sub_ (encoded_bytes e) 9;
  let i := o + buf_index in
  if in_range 0 i 3 then Ok (byte_at last_stream_id (24 - 8 * i))
  else if in_range 4 i 7 then Ok (byte_at error_code (24 - 8 * (i - 4)))
  else
    let debug_data_index := i - 8 in
    if debug_data_index <? len debug_data then index_ debug_data debug_data_index
    else Err InternalError.

Definition iterate_goaway_payload (error_code last_stream_id : Z) (debug_data buf : bytes)
    (len : Z) : enc bytes := λ e,
  (fill (goaway_payload_byte e error_code last_stream_id debug_data) 0 (Z.to_nat len) buf, e).

Definition encode_goaway_payload : writer := λ buf,
  frame ← try_retrieve_current_frame;
  match Frame.payload frame with
  | Payload.Goaway error_code last_stream_id debug_data =>
      let payload_size := goaway_encoded_len debug_data in
      eb ← mgets encoded_bytes;
      let remaining_payload_bytes := saturating_sub payload_size (saturating_sub eb 9) in
      let bytes_to_write := Z.min remaining_payload_bytes (len buf) in
      buf ← iterate_goaway_payload error_code last_stream_id debug_data buf bytes_to_write;
      _ ← mmodify (λ e, set_encoded e (encoded_bytes e + bytes_to_write));
      _ ← mmodify (λ e, if encoded_bytes e =? 9 + payload_size then set_state e DataComplete else e);
      mret (buf, bytes_to_write)
  | _ => mfail UnexpectedPayloadType
  end.

(** ** WINDOW_UPDATE *)

Definition window_update_header_byte (e : t) (frame : Frame.t) (buf_index : Z)
    : res FrameEncoderErr Z :=
  let i := encoded_bytes e + buf_index in
  if in_range 0 i 1 then Ok 0
  else if i =? 2 then Ok 4
  else if i =? 3 then Ok (FrameType.as_u8 FrameType.WindowUpdate)
  else if i =? 4 then Ok (Frame.flags frame)
  else if in_range 5 i 8 then Ok (byte_at (Frame.id frame) (24 - 8 * (i - 5)))
  else Err InternalError.

Definition iterate_window_update_header (frame : Frame.t) (buf : bytes) (len : Z)
    : enc bytes := λ e, (fill (window_update_header_byte e frame) 0 (Z.to_nat len) buf, e).

Definition encode_window_update_frame : writer := λ buf,
  frame ← try_retrieve_current_frame;
  match Frame.payload frame with
  | Payload.WindowUpdate _ =>
      eb ← mgets encoded_bytes;
      let bytes_to_write := Z.min (remaining_header_bytes eb) (len buf) in
      buf ← iterate_window_update_header frame buf bytes_to_write;
      _ ← mmodify (λ e, set_encoded e (encoded_bytes e + bytes_to_write));
      _ ← mmodify (λ e, if encoded_bytes e =? 9
                        then set_encoded (set_state e EncodingWindowUpdatePayload) 0 else e);
      mret (buf, bytes_to_write)
  | _ => mfail UnexpectedPayloadType
  end.

Definition window_update_payload_byte (e : t) (increment buf_index : Z) : res FrameEncoderErr Z :=
  let i := saturating_sub (encoded_bytes e) 9 + buf_index in
  shift ← sub_ 24 (8 * i);
  Ok (byte_at increment shift).

Definition encode_window_update_payload : writer := λ buf,
  frame ← try_retrieve_current_frame;
  match Frame.payload frame with
  | Payload.WindowUpdate increment =>
      let payload_size := 4 in
      e ← mget;
      let remaining_payload_bytes :=
        saturating_sub payload_size (saturating_sub (encoded_bytes e) 9) in
      let bytes_to_write := Z.min remaining_payload_bytes (len buf) in
      buf ← mlift (fill (window_update_payload_byte e increment) 0 (Z.to_nat bytes_to_write) buf);
      _ ← mmodify (λ e, set_encoded e (encoded_bytes e + bytes_to_write));
      _ ← mmodify (λ e, if encoded_bytes e =? payload_size then set_state e DataComplete else e);
      mret (buf, bytes_to_write)
  | _ => mfail UnexpectedPayloadType
  end.

(** ** SETTINGS *)

(** [buf[3]] and [buf[4]] are written by constant index. *)
Definition settings_header_write (e : t) (frame : Frame.t) (payload_len buf_index : Z)
    : res FrameEncoderErr (Z * Z) :=
  let i := encoded_bytes e + buf_index in
  if in_range 0 i 2 then
    Ok (buf_index, as_u8 (Z.land (Z.shiftr payload_len (16 - 8 * buf_index)) 0xFF))
  else if i =? 3 then Ok (3, FrameType.as_u8 FrameType.Settings)
  else if i =? 4 then Ok (4, Frame.flags frame)
  else if in_range 5 i 8 then Ok (buf_index, 0)
  else Err InternalError.

Definition iterate_settings_header (frame : Frame.t) (buf : bytes) (payload_len len : Z)
    : enc bytes := λ e,
  (write_at (settings_header_write e frame payload_len) 0 (Z.to_nat len) buf, e).

Definition encode_settings_frame : writer := λ buf,
  frame ← try_retrieve_current_frame;
  match Frame.payload frame with
  | Payload.Settings settings =>
      eb ← mgets encoded_bytes;
      let bytes_to_write := Z.min (remaining_header_bytes eb) (len buf) in
      buf ← iterate_settings_header frame buf (len settings * 6) bytes_to_write;
      _ ← mmodify (λ e, set_encoded e (encoded_bytes e + bytes_to_write));
      _ ← mmodify (λ e, if encoded_bytes e =? 9 then set_state e EncodingSettingsPayload else e);
      mret (buf, bytes_to_write)
  | _ => mfail UnexpectedPayloadType
  end.

(** The identifier and the value of a setting on the wire. *)
Definition setting_pair (s : Setting.t) : Z * Z :=
  match s with
  | Setting.HeaderTableSize v => (0x1, v)
  | Setting.EnablePush v => (0x2, if v then 1 else 0)
  | Setting.MaxConcurrentStreams v => (0x3, v)
  | Setting.InitialWindowSize v => (0x4, v)
  | Setting.MaxFrameSize v => (0x5, v)
  | Setting.MaxHeaderListSize v => (0x6, v)
  end.

Definition settings_payload_byte (e : t) (settings : Settings.t) (buf_index : Z)
    : res FrameEncoderErr Z :=
  o ← sub_ (encoded_bytes e) 9;
  let payload_byte_index := o + buf_index in
  let setting_index := payload_byte_index / 6 in
  let setting_byte_index := payload_byte_index mod 6 in
  match settings !! Z.to_nat setting_index with
  | Some setting =>
      let '(id, value) := setting_pair setting in
      if in_range 0 setting_byte_index 1 then
        Ok (as_u8 (Z.land (Z.shiftr id (8 * (1 - setting_byte_index))) 0xFF))
      else if in_range 2 setting_byte_index 5 then
        let shift_amount := 8 * (3 - (setting_byte_index - 2)) in
        Ok (as_u8 (Z.land (Z.shiftr value shift_amount) 0xFF))
      else Err InternalError
  | None => Err InternalError
  end.

Definition iterate_settings_payload (settings : Settings.t) (buf : bytes) (len : Z)
    : enc bytes := λ e, (fill (settings_payload_byte e settings) 0 (Z.to_nat len) buf, e).

Definition encode_settings_payload : writer := λ buf,
  frame ← try_retrieve_current_frame;
  match Frame.payload frame with
  | Payload.Settings settings =>
      let settings_len := len settings * 6 in
      eb ← mgets encoded_bytes;
      let remaining_payload_bytes := saturating_sub settings_len (saturating_sub eb 9) in
      let bytes_to_write := Z.min remaining_payload_bytes (len buf) in
      buf ← iterate_settings_payload settings buf bytes_to_write;
      _ ← mmodify (λ e, set_encoded e (encoded_bytes e + bytes_to_write));
      _ ← mmodify (λ e, if encoded_bytes e =? 9 + settings_len then set_state e DataComplete else e);
      mret (buf, bytes_to_write)
  | _ => mfail UnexpectedPayloadType
  end.

(** ** PRIORITY *)

Definition priority_header_byte (e : t) (frame : Frame.t) (buf_index : Z)
    : res FrameEncoderErr Z :=
  let i := encoded_bytes e + buf_index in
  if in_range 0 i 2 then Ok (as_u8 (Z.land (Z.shiftr 5 (16 - 8 * i)) 0xFF))
  else if i =? 3 then Ok (FrameType.as_u8 (Payload.frame_type (Frame.payload frame)))
  else if i =? 4 then Ok (Frame.flags frame)
  else if in_range 5 i 8 then Ok (byte_at (Frame.id frame) (24 - 8 * (i - 5)))
  else Err InternalError.

Definition iterate_priority_header (frame : Frame.t) (buf : bytes) (len : Z) : enc bytes := λ e,
  (fill (priority_header_byte e frame) 0 (Z.to_nat len) buf, e).

Definition encode_priority_frame : writer := λ buf,
  frame ← try_retrieve_current_frame;
  match Frame.payload frame with
  | Payload.Priority _ _ _ =>
      eb ← mgets encoded_bytes;
      let bytes_to_write := Z.min (remaining_header_bytes eb) (len buf) in
      buf ← iterate_priority_header frame buf bytes_to_write;
      _ ← mmodify (λ e, set_encoded e (encoded_bytes e + bytes_to_write));
      _ ← mmodify (λ e, if encoded_bytes e =? 9 then set_state e EncodingPriorityPayload else e);
      mret (buf, bytes_to_write)
  | _ => mfail UnexpectedPayloadType
  end.

Definition priority_payload_byte (e : t) (exclusive : bool) (stream_dependency weight : Z)
    (frame_header_size buf_index : Z) : res FrameEncoderErr Z :=
  let i := saturating_sub (encoded_bytes e) frame_header_size + buf_index in
  if i =? 0 then
    Ok (Z.lor (as_u8 (Z.shiftl (if exclusive then 1 else 0) 7))
          (as_u8 (Z.land (Z.shiftr stream_dependency 24) 0x7F)))
  else if in_range 1 i 3 then Ok (byte_at stream_dependency (16 - 8 * (i - 1)))
  else if i =? 4 then Ok weight
  else Err InternalError.

Definition iterate_priority_payload (exclusive : bool) (stream_dependency weight : Z)
    (buf : bytes) (frame_header_size len : Z) : enc bytes := λ e,
  (fill (priority_payload_byte e exclusive stream_dependency weight frame_header_size) 0
     (Z.to_nat len) buf, e).

Definition encode_priority_payload : writer := λ buf,
  frame ← try_retrieve_current_frame;
  match Frame.payload frame with
  | Payload.Priority exclusive stream_dependency weight =>
      let frame_header_size := 9 in
      eb ← mgets encoded_bytes;
      o ← mlift (sub_ eb frame_header_size);
      remaining_payload_bytes ← mlift (sub_ 5 o);
      let bytes_to_write := Z.min remaining_payload_bytes (len buf) in
      buf ← iterate_priority_payload exclusive stream_dependency weight buf frame_header_size
              bytes_to_write;
      _ ← mmodify (λ e, set_encoded e (encoded_bytes e + bytes_to_write));
      _ ← mmodify (λ e, if encoded_bytes e =? frame_header_size + 5
                        then set_state e DataComplete else e);
      mret (buf, bytes_to_write)
  | _ => mfail UnexpectedPayloadType
  end.

(** ** RST_STREAM *)

(** The length and identifier bytes are computed from [buf_index]. *)
Definition rst_stream_header_byte (e : t) (frame : Frame.t) (buf_index : Z)
    : res FrameEncoderErr Z :=
  let i := encoded_bytes e + buf_index in
  if in_range 0 i 2 then Ok (as_u8 (Z.land (Z.shiftr 4 (16 - 8 * buf_index)) 0xFF))
  else if i =? 3 then Ok (FrameType.as_u8 FrameType.RstStream)
  else if i =? 4 then Ok (Frame.flags frame)
  else if in_range 5 i 8 then
    k ← sub_ buf_index 5;
    Ok (as_u8 (Z.land (Z.shiftr (Frame.id frame) (24 - 8 * k)) 0xFF))
  else Err InternalError.

Definition encode_rst_stream_frame : writer := λ buf,
  frame ← try_retrieve_current_frame;
  e ← mget;
  if 9 <=? encoded_bytes e then mret (buf, 0)
  else
    let bytes_to_write := Z.min (9 - encoded_bytes e) (len buf) in
    buf ← mlift (fill (rst_stream_header_byte e frame) 0 (Z.to_nat bytes_to_write) buf);
    _ ← mmodify (λ e, set_encoded e (encoded_bytes e + bytes_to_write));
    _ ← mmodify (λ e, if encoded_bytes e =? 9 then set_state e EncodingRstStreamPayload else e);
    mret (buf, bytes_to_write).

Definition encode_rst_stream_payload : writer := λ buf,
  frame ← try_retrieve_current_frame;
  match Frame.payload frame with
  | Payload.RstStream error_code =>
      eb ← mgets encoded_bytes;
      if eb <? 9 then mret (buf, 0)
      else
        let payload_size := 4 in
        let encoded_payload_bytes := eb - 9 in
        if payload_size <=? encoded_payload_bytes then mret (buf, 0)
        else
          let bytes_to_write := Z.min (payload_size - encoded_payload_bytes) (len buf) in
          buf ← mlift (fill (λ buf_index,
                  let payload_byte_index := encoded_payload_bytes + buf_index in
                  Ok (as_u8 (Z.land (Z.shiftr error_code (24 - 8 * payload_byte_index)) 0xFF)))
                  0 (Z.to_nat bytes_to_write) buf);
          _ ← mmodify (λ e, set_encoded e (encoded_bytes e + bytes_to_write));
          _ ← mmodify (λ e, if encoded_bytes e =? 9 + payload_size
                            then set_state e DataComplete else e);
          mret (buf, bytes_to_write)
  | _ => mfail UnexpectedPayloadType
  end.

(** ** PING *)

Definition ping_header_write (e : t) (frame : Frame.t) (buf_index : Z)
    : res FrameEncoderErr (Z * Z) :=
  let i := encoded_bytes e + buf_index in
  if in_range 0 i 2 then
    Ok (buf_index, as_u8 (Z.land (Z.shiftr 8 (16 - 8 * buf_index)) 0xFF))
  else if i =? 3 then Ok (3, FrameType.as_u8 FrameType.Ping)
  else if i =? 4 then Ok (4, Frame.flags frame)
  else if in_range 5 i 8 then Ok (buf_index, 0)
  else Err InternalError.

Definition iterate_ping_header (frame : Frame.t) (buf : bytes) (len : Z) : enc bytes := λ e,
  (write_at (ping_header_write e frame) 0 (Z.to_nat len) buf, e).

Definition encode_ping_frame : writer := λ buf,
  frame ← try_retrieve_current_frame;
  match Frame.payload frame with
  | Payload.Ping _ =>
      eb ← mgets encoded_bytes;
      let bytes_to_write := Z.min (remaining_header_bytes eb) (len buf) in
      buf ← iterate_ping_header frame buf bytes_to_write;
      _ ← mmodify (λ e, set_encoded e (encoded_bytes e + bytes_to_write));
      _ ← mmodify (λ e, if encoded_bytes e =? 9 then set_state e EncodingPingPayload else e);
      mret (buf, bytes_to_write)
  | _ => mfail UnexpectedPayloadType
  end.

Definition encode_ping_payload : writer := λ buf,
  frame ← try_retrieve_current_frame;
  match Frame.payload frame with
  | Payload.Ping data =>
      let payload_size := 8 in
      e ← mget;
      let remaining_payload_bytes :=
        saturating_sub payload_size (saturating_sub (encoded_bytes e) 9) in
      let bytes_to_write := Z.min remaining_payload_bytes (len buf) in
      buf ← mlift (fill (λ buf_index,
              index_ data (saturating_sub (encoded_bytes e) 9 + buf_index))
              0 (Z.to_nat bytes_to_write) buf);
      _ ← mmodify (λ e, set_encoded e (encoded_bytes e + bytes_to_write));
      _ ← mmodify (λ e, if encoded_bytes e =? 9 + 8 then set_state e DataComplete else e);
      mret (buf, bytes_to_write)
  | _ => mfail UnexpectedPayloadType
  end.

(** ** The loop *)

(** The [match self.state] of [encode]: the method of the state, or [break]. *)
Definition part (s : FrameEncoderState) : option writer :=
  match s with
  | Idle | HeadersComplete | DataComplete => None
  | EncodingHeadersFrame => Some encode_headers_frame
  | EncodingHeadersPayload => Some encode_headers_payload
  | EncodingHeadersPadding => Some encode_padding
  | EncodingContinuationFrames => Some encode_continuation_frames
  | EncodingDataHeader => Some encode_data_header
  | EncodingDataPayload => Some encode_data_payload
  | EncodingDataPadding => Some encode_padding
  | EncodingSettingsFrame => Some encode_settings_frame
  | EncodingGoawayFrame => Some encode_goaway_frame
  | EncodingWindowUpdateFrame => Some encode_window_update_frame
  | EncodingSettingsPayload => Some encode_settings_payload
  | EncodingGoawayPayload => Some encode_goaway_payload
  | EncodingWindowUpdatePayload => Some encode_window_update_payload
  | EncodingPriorityFrame => Some encode_priority_frame
  | EncodingPriorityPayload => Some encode_priority_payload
  | EncodingRstStreamFrame => Some encode_rst_stream_frame
  | EncodingRstStreamPayload => Some encode_rst_stream_payload
  | EncodingPingFrame => Some encode_ping_frame
  | EncodingPingPayload => Some encode_ping_payload
  end.

(** [while written_bytes < buf.len()]; [None] when the fuel runs out. *)
Fixpoint encode_loop (fuel : nat) (buf : bytes) (written_bytes : Z) (e : t)
    : option (res FrameEncoderErr (bytes * Z) * t) :=
  match fuel with
  | O => None
  | S fuel =>
      if written_bytes <? len buf then
        match part (state e) with
        | None => Some (Ok (buf, written_bytes), e)
        | Some m =>
            match m (from written_bytes buf) e with
            | (Ok (rest, n), e') =>
                let buf := upto written_bytes buf ++ rest in
                let written_bytes := written_bytes + n in
                if bool_decide (state e' = state e) then Some (Ok (buf, written_bytes), e')
                else encode_loop fuel buf written_bytes e'
            | (Err x, e') => Some (Err x, e')
            | (Panic, e') => Some (Panic, e')
            end
        end
      else Some (Ok (buf, written_bytes), e)
  end.

(** Two turns in a row that go on write a byte between them. *)
Definition encode_fuel (buf : bytes) : nat := 4 + 2 * length buf.

Definition encode : writer := λ buf e,
  default (Panic, e) (encode_loop (encode_fuel buf) buf 0 e).
End FrameEncoder.
