(* ===== verification/H2FrameWriter.v ===== *)
(** What the frame encoder writes.

    [frame_bytes] is the wire image of a frame by RFC 9113.  [frame_pos] says
    how far the encoder has got with it; every frame that carries no header
    block is written as its wire image when the buffer holds it, and GOAWAY,
    PRIORITY and DATA frames in any segmentation. *)
From S2P Require Import Prelude H2Error HpackTable Headers Parts Hpack H2Frame H2FrameDecoder.
From S2P Require Import H2FrameSegments H2FrameValid H2FrameEncoder.

Module W := FrameEncoder.

(** * The wire image *)

Definition be32 (x : Z) : bytes := [byte_at x 24; byte_at x 16; byte_at x 8; byte_at x 0].

Definition frame_header_bytes (length ty flags id : Z) : bytes :=
  [byte_at length 16; byte_at length 8; byte_at length 0; ty; flags] ++ be32 id.

Definition setting_bytes (s : Setting.t) : bytes :=
  [0; Setting.setting_identifier s] ++ be32 (setting_value s).

(** The payload of a frame without a header block. *)
Definition payload_bytes (p : Payload.t) : option bytes :=
  match p with
  | Payload.Data data => Some data
  | Payload.Priority exclusive dep weight =>
      Some ([Z.lor (if exclusive then 128 else 0) (Z.land (Z.shiftr dep 24) 0x7f);
             byte_at dep 16; byte_at dep 8; byte_at dep 0; weight])
  | Payload.RstStream code => Some (be32 code)
  | Payload.Ping data => Some data
  | Payload.Settings s => Some (s ≫= setting_bytes)
  | Payload.Goaway code last debug => Some (be32 last ++ be32 code ++ debug)
  | Payload.WindowUpdate inc => Some (be32 inc)
  | Payload.Headers _ | Payload.PushPromise _ _ => None
  end.

Definition frame_bytes (f : Frame.t) : option bytes :=
  p ← payload_bytes (Frame.payload f);
  Some (frame_header_bytes (len p) (FrameType.as_u8 (Payload.frame_type (Frame.payload f)))
          (Frame.flags f) (Frame.id f) ++ p).

(** * Filling a buffer *)

Lemma slice_cons k n (T : bytes) :
  0 ≤ k < len T → 0 ≤ n → slice k (k + (n + 1)) T = at_ T k :: slice (k + 1) (k + 1 + n) T.
Proof.
  intros Hk Hn. unfold slice, from, upto, at_, len in *.
  replace (k + 1 + n) with (k + (n + 1)) by lia.
  destruct (T !! Z.to_nat k) as [x|] eqn:Hx; [|apply lookup_ge_None in Hx; lia].
  rewrite (drop_S _ x (Z.to_nat k)).
  - simpl. do 2 f_equal. lia.
  - rewrite lookup_take_lt by lia. done.
Qed.

Lemma slice_nil k (T : bytes) : slice k k T = [].
Proof. unfold slice, from, upto. apply drop_ge. rewrite length_take. lia. Qed.

Lemma fill_spec {E} (g : Z → res E Z) T (n : nat) j k buf :
  (∀ i, 0 ≤ i < Z.of_nat n → g (j + i) = Ok (at_ T (k + i))) →
  0 ≤ k → k + Z.of_nat n ≤ len T → Z.of_nat n ≤ len buf →
  fill g j n buf = Ok (slice k (k + Z.of_nat n) T ++ from (Z.of_nat n) buf).
Proof.
  revert j k buf. induction n as [|n IH]; intros j k buf Hg Hk HT Hb.
  { rewrite Z.add_0_r, slice_nil, from_0 by done. by destruct buf. }
  destruct buf as [|x buf]; [rewrite len_nil in Hb; lia|]. rewrite len_cons in Hb.
  rewrite Nat2Z.inj_succ in *. simpl. pose proof (Hg 0 ltac:(lia)) as H0.
  rewrite !Z.add_0_r in H0. rewrite H0. cbn [mbind res_bind].
  rewrite (IH (j + 1) (k + 1)); [|intros i Hi|lia|lia|lia].
  - cbn [mbind res_bind]. rewrite <- Z.add_1_r, slice_cons by lia. simpl. do 3 f_equal.
    unfold from. replace (Z.to_nat (Z.of_nat n + 1)) with (S (Z.to_nat (Z.of_nat n))) by lia. done.
  - rewrite <- !Z.add_assoc, !(Z.add_comm 1 i). apply Hg. lia.
Qed.

Lemma fill_front {E} (g : Z → res E Z) T k n buf :
  (∀ i, 0 ≤ i < n → g i = Ok (at_ T (k + i))) →
  0 ≤ k → 0 ≤ n → k + n ≤ len T → n ≤ len buf →
  fill g 0 (Z.to_nat n) buf = Ok (copy_front (slice k (k + n) T) buf).
Proof.
  intros Hg Hk Hn HT Hb. rewrite (fill_spec g T _ 0 k); rewrite ?Z2Nat.id by lia; try done.
  unfold copy_front. rewrite len_slice by lia. do 3 f_equal. lia.
Qed.

Lemma write_at_spec {E} (g : Z → res E (Z * Z)) T (n : nat) buf pre :
  (∀ i, 0 ≤ i < Z.of_nat n → g (len pre + i) = Ok (len pre + i, at_ T i)) →
  Z.of_nat n ≤ len T → Z.of_nat n ≤ len buf →
  write_at g (len pre) n (pre ++ buf) = Ok (pre ++ upto (Z.of_nat n) T ++ from (Z.of_nat n) buf).
Proof.
  revert T buf pre. induction n as [|n IH]; intros T buf pre Hg HT Hb.
  { rewrite upto_0, from_0 by done. done. }
  destruct buf as [|x buf]; [rewrite len_nil in Hb; lia|].
  destruct T as [|y T]; [rewrite len_nil in HT; lia|]. rewrite len_cons in *.
  rewrite Nat2Z.inj_succ in *. simpl. pose proof (Hg 0 ltac:(lia)) as H0.
  rewrite !Z.add_0_r in H0. rewrite H0. cbn [mbind res_bind].
  rewrite len_app, len_cons. pose proof (len_nonneg pre). pose proof (len_nonneg buf).
  destruct (Z.leb_spec 0 (len pre)); [|lia].
  destruct (Z.ltb_spec (len pre) (len pre + (len buf + 1))); [|lia]. cbn [andb].
  replace (<[Z.to_nat (len pre) := at_ (y :: T) 0]> (pre ++ x :: buf)) with ((pre ++ [y]) ++ buf).
  2: { unfold len. rewrite Nat2Z.id, insert_app_r_alt by lia. rewrite Nat.sub_diag. simpl.
       by rewrite <- app_assoc. }
  replace (len pre + 1) with (len (pre ++ [y])) by (rewrite len_app; done).
  rewrite (IH T); [|intros i Hi|lia|lia].
  - rewrite <- app_assoc. unfold upto, from.
    replace (Z.to_nat (Z.succ (Z.of_nat n))) with (S (Z.to_nat (Z.of_nat n))) by lia. done.
  - rewrite len_app, len_cons, len_nil. specialize (Hg (i + 1) ltac:(lia)).
    replace (len pre + (0 + 1) + i) with (len pre + (i + 1)) by lia. rewrite Hg.
    do 2 f_equal. unfold at_. by replace (Z.to_nat (i + 1)) with (S (Z.to_nat i)) by lia.
Qed.

Lemma land_ff x k : as_u8 (Z.land (Z.shiftr x k) 0xFF) = byte_at x k.
Proof.
  unfold byte_at, as_u8. change 0xFF with (Z.ones 8). rewrite Z.land_ones by lia.
  by rewrite Z.mod_mod by lia.
Qed.

(** * Headers *)

Lemma header_at l ty fl id p i :
  0 ≤ i ≤ 8 →
  at_ (frame_header_bytes l ty fl id ++ p) i =
    if in_range 0 i 2 then byte_at l (16 - 8 * i)
    else if i =? 3 then ty
    else if i =? 4 then fl
    else byte_at id (24 - 8 * (i - 5)).
Proof.
  intros Hi.
  assert (i = 0 ∨ i = 1 ∨ i = 2 ∨ i = 3 ∨ i = 4 ∨ i = 5 ∨ i = 6 ∨ i = 7 ∨ i = 8) as Hc by lia.
  destruct Hc as [->|[->|[->|[->|[->|[->|[->|[->| ->]]]]]]]]; done.
Qed.

Lemma frame_bytes_len f T p :
  frame_bytes f = Some T → payload_bytes (Frame.payload f) = Some p →
  T = frame_header_bytes (len p) (FrameType.as_u8 (Payload.frame_type (Frame.payload f)))
        (Frame.flags f) (Frame.id f) ++ p ∧ len T = 9 + len p.
Proof.
  unfold frame_bytes. intros HT Hp. rewrite Hp in HT. simpl in HT. injection HT as <-.
  split; [done|]. change (len (frame_header_bytes (len p)
    (FrameType.as_u8 (Payload.frame_type (Frame.payload f))) (Frame.flags f) (Frame.id f) ++ p)
    = 9 + len p). rewrite len_app. done.
Qed.

(** The bytes a header method writes at position [k]. *)
Ltac header_byte := 
  repeat match goal with
  | |- context [in_range 0 ?i 2] => destruct (in_range 0 i 2) eqn:?
  | |- context [?i =? 3] => destruct (Z.eqb_spec i 3)
  | |- context [?i =? 4] => destruct (Z.eqb_spec i 4)
  | |- context [in_range 5 ?i 8] => destruct (in_range 5 i 8) eqn:?
  end.

Section turns.
Context (e : W.t) (f : Frame.t) (T p : bytes).
Context (Hf : W.current_frame e = Some f) (HT : frame_bytes f = Some T).
Context (Hp : payload_bytes (Frame.payload f) = Some p).
Let k := W.encoded_bytes e.

Lemma in_range_spec a i b : in_range a i b = true ↔ a ≤ i ≤ b.
Proof.
  unfold in_range. rewrite andb_true_iff, !Z.leb_le. done.
Qed.

(** A header byte function that agrees with the wire image. *)
Definition header_ok (g : Z → res FrameEncoderErr Z) : Prop :=
  ∀ i, 0 ≤ k + i ≤ 8 → 0 ≤ k → 0 ≤ i → g i = Ok (at_ T (k + i)).

Lemma header_ok_intro g len' ty :
  len' = len p → ty = FrameType.as_u8 (Payload.frame_type (Frame.payload f)) →
  (∀ i, 0 ≤ k + i ≤ 8 → g i =
    let i := k + i in
    if in_range 0 i 2 then Ok (byte_at len' (16 - 8 * i))
    else if i =? 3 then Ok ty
    else if i =? 4 then Ok (Frame.flags f)
    else if in_range 5 i 8 then Ok (byte_at (Frame.id f) (24 - 8 * (i - 5)))
    else Err InternalError) →
  header_ok g.
Proof.
  intros -> -> Hg i Hi _ _. rewrite Hg by done. destruct (frame_bytes_len f T p HT Hp) as [-> _].
  rewrite header_at by done. cbv zeta. destruct (in_range 0 (k + i) 2) eqn:H2; [done|].
  destruct (Z.eqb_spec (k + i) 3); [done|]. destruct (Z.eqb_spec (k + i) 4); [done|].
  destruct (in_range 5 (k + i) 8) eqn:H5; [done|].
  assert (¬ 0 ≤ k + i ≤ 2) by (rewrite <- in_range_spec; congruence).
  assert (¬ 5 ≤ k + i ≤ 8) by (rewrite <- in_range_spec; congruence). lia.
Qed.

Lemma goaway_header_ok c l debug :
  Frame.payload f = Payload.Goaway c l debug → header_ok (W.goaway_header_byte e f).
Proof.
  intros Hpl. eapply (header_ok_intro _ (goaway_encoded_len debug)); [|reflexivity|].
  - rewrite Hpl in Hp. simpl in Hp. injection Hp as <-. unfold goaway_encoded_len.
    rewrite !len_cons. lia.
  - intros i Hi. unfold W.goaway_header_byte. fold k. rewrite Hpl. cbv zeta.
    replace (8 * (2 - (k + i))) with (16 - 8 * (k + i)) by lia. by rewrite land_ff.
Qed.

Lemma priority_header_ok ex dep w :
  Frame.payload f = Payload.Priority ex dep w → header_ok (W.priority_header_byte e f).
Proof.
  intros Hpl. eapply (header_ok_intro _ 5); [|reflexivity|].
  - rewrite Hpl in Hp. simpl in Hp. by injection Hp as <-.
  - intros i Hi. unfold W.priority_header_byte. fold k. cbv zeta. by rewrite land_ff.
Qed.

Lemma data_header_ok data n :
  Frame.payload f = Payload.Data data → n = len data →
  W.remaining_payload_bytes e <= W.max_frame_size e →
  header_ok (W.data_header_byte e f n).
Proof.
  intros Hpl -> Hr. eapply (header_ok_intro _ (len data)); [|reflexivity|].
  - rewrite Hpl in Hp. simpl in Hp. by injection Hp as <-.
  - intros i Hi. unfold W.data_header_byte. fold k. cbv zeta. rewrite land_ff.
    by destruct (Z.leb_spec (W.remaining_payload_bytes e) (W.max_frame_size e)); [|lia].
Qed.

Lemma window_update_header_ok inc :
  Frame.payload f = Payload.WindowUpdate inc → header_ok (W.window_update_header_byte e f).
Proof.
  intros Hpl. eapply (header_ok_intro _ 4); [|reflexivity|].
  - rewrite Hpl in Hp. simpl in Hp. by injection Hp as <-.
  - intros i Hi. unfold W.window_update_header_byte. fold k. cbv zeta. rewrite Hpl.
    destruct (in_range 0 (k + i) 1) eqn:H1.
    + apply in_range_spec in H1. assert (k + i = 0 ∨ k + i = 1) as [-> | ->] by lia; done.
    + destruct (Z.eqb_spec (k + i) 2) as [->|]; [done|].
      destruct (in_range 0 (k + i) 2) eqn:H2; [|done]. apply in_range_spec in H2.
      assert (¬ 0 ≤ k + i ≤ 1) by (rewrite <- in_range_spec; congruence). lia.
Qed.

Lemma rst_stream_header_ok code :
  Frame.payload f = Payload.RstStream code → k = 0 → header_ok (W.rst_stream_header_byte e f).
Proof.
  intros Hpl Hk. eapply (header_ok_intro _ 4); [|reflexivity|].
  - rewrite Hpl in Hp. simpl in Hp. by injection Hp as <-.
  - intros i Hi. unfold W.rst_stream_header_byte. fold k. cbv zeta. rewrite Hpl, Hk, Z.add_0_l, !land_ff.
    destruct (in_range 0 i 2); [done|]. destruct (i =? 3); [done|]. destruct (i =? 4); [done|].
    destruct (in_range 5 i 8) eqn:H5; [|done]. apply in_range_spec in H5.
    unfold sub_. destruct (Z.leb_spec 5 i); [|lia]. cbn [mbind res_bind]. by rewrite land_ff.
Qed.

(** The header bytes from [k] on, [n] of them. *)
Lemma header_fill g n buf :
  header_ok g → 0 ≤ k → 0 ≤ n → k + n ≤ 9 → n ≤ len buf →
  fill g 0 (Z.to_nat n) buf = Ok (copy_front (slice k (k + n) T) buf).
Proof.
  intros Hg Hk Hn H9 Hb. destruct (frame_bytes_len f T p HT Hp) as [_ Hl].
  pose proof (len_nonneg p). apply fill_front; try lia. intros i Hi. apply Hg; lia.
Qed.
End turns.

(** * The encoding loop *)

Lemma copy_front_nil buf : copy_front [] buf = buf.
Proof. unfold copy_front. rewrite len_nil, from_0 by done. done. Qed.

Lemma copy_front_len src buf : len src ≤ len buf → len (copy_front src buf) = len buf.
Proof. intros. pose proof (len_nonneg src). unfold copy_front. rewrite len_app, len_from by lia. lia. Qed.

Lemma slice_app k n m (T : bytes) :
  0 ≤ k → 0 ≤ n → 0 ≤ m → slice k (k + n) T ++ slice (k + n) (k + n + m) T = slice k (k + n + m) T.
Proof.
  intros. unfold slice, from, upto.
  replace (take (Z.to_nat (k + n)) T) with (take (Z.to_nat (k + n)) (take (Z.to_nat (k + n + m)) T))
    by (rewrite take_take; f_equal; lia).
  replace (Z.to_nat (k + n)) with (Z.to_nat k + Z.to_nat n)%nat by lia.
  rewrite <- drop_drop, <- take_drop_commute. by rewrite take_drop.
Qed.

(** Writing further into a buffer whose front is written. *)
Lemma copy_front_app (a b buf : bytes) :
  len a + len b ≤ len buf →
  upto (len a) (copy_front a buf) ++ copy_front b (from (len a) (copy_front a buf)) =
    copy_front (a ++ b) buf.
Proof.
  intros Hl. pose proof (len_nonneg a). pose proof (len_nonneg b). unfold copy_front.
  rewrite upto_app_exact, from_app_exact, len_app, <- app_assoc by done. do 2 f_equal.
  unfold from. rewrite drop_drop. f_equal. lia.
Qed.

Section loop.
(** [T]: what is to be written; [pos e k]: the encoder has written [k] bytes of
    it; [roomy]: the buffers hold more than what remains. *)
Context (T : bytes) (pos : W.t → Z → Prop) (roomy : bool).
Definition room (k n : Z) : Prop := if roomy then len T - k < n else True.

Context (turn : ∀ e k buf, pos e k → 0 ≤ k < len T → 0 < len buf → room k (len buf) →
  ∃ m n e', W.part (W.state e) = Some m ∧
    m buf e = (Ok (copy_front (slice k (k + n) T) buf, n), e') ∧ pos e' (k + n) ∧
    0 < n ≤ len buf ∧ k + n ≤ len T ∧ (W.state e' = W.state e → n = len buf)).
Context (stop : ∀ e, pos e (len T) → W.part (W.state e) = None ∨
  ∃ m e', W.part (W.state e) = Some m ∧ (∀ buf, 0 < len buf → m buf e = (Ok (buf, 0), e')) ∧
    pos e' (len T) ∧ W.part (W.state e') = None ∧ W.state e' ≠ W.state e).

Lemma encode_loop_pos fuel e k w buf :
  pos e (k + w) → 0 ≤ k → 0 ≤ w ≤ len buf → k + w ≤ len T → room k (len buf) →
  len buf - w + 1 < Z.of_nat fuel →
  ∃ e', let n := Z.min (len buf) (len T - k) in
    W.encode_loop fuel (copy_front (slice k (k + w) T) buf) w e =
      Some (Ok (copy_front (slice k (k + n) T) buf, n), e') ∧ pos e' (k + n) ∧
    (len T - k < len buf → W.part (W.state e') = None).
Proof.
  revert e w. induction fuel as [|fuel IH]; intros e w Hpos Hk Hw HT Hr Hf; [lia|].
  cbv zeta. simpl. pose proof (len_slice k (k + w) T ltac:(lia) ltac:(lia)) as Hsl.
  rewrite copy_front_len by lia.
  destruct (Z.ltb_spec w (len buf)) as [Hlt|Hge].
  2: { assert (Z.min (len buf) (len T - k) = w) as -> by lia. exists e. repeat split; [done|lia]. }
  destruct (Z.eq_dec (k + w) (len T)) as [He|Hne].
  { assert (Z.min (len buf) (len T - k) = w) as -> by lia. rewrite He in Hpos.
    destruct (stop e Hpos) as [Hnone|(m & e' & -> & Hm & Hpos' & Hp & Hs)].
    { rewrite Hnone. exists e. by rewrite He. }
    rewrite Hm. 2: { rewrite len_from, copy_front_len by lia. lia. }
    rewrite bool_decide_false by done. rewrite upto_from, Z.add_0_r.
    exists e'. split; [|by rewrite He]. destruct fuel as [|fuel]; [lia|]. simpl. rewrite copy_front_len by lia.
    destruct (w <? len buf); by rewrite ?Hp. }
  set (rest := from w (copy_front (slice k (k + w) T) buf)).
  assert (Hrl : len rest = len buf - w).
  { unfold rest. rewrite len_from, copy_front_len by lia. lia. }
  destruct (turn e (k + w) rest Hpos) as (m & n & e' & -> & -> & Hpos' & Hn & HnT & Hst); [lia|lia| |].
  { unfold room in *. destruct roomy; [lia|done]. }
  assert (Hbuf : upto w (copy_front (slice k (k + w) T) buf) ++
    copy_front (slice (k + w) (k + w + n) T) rest = copy_front (slice k (k + (w + n)) T) buf).
  { pose proof (copy_front_app (slice k (k + w) T) (slice (k + w) (k + w + n) T) buf) as Hc.
    rewrite !len_slice in Hc by lia. replace (k + w - k) with w in Hc by lia.
    unfold rest. rewrite Hc by lia. rewrite slice_app by lia. by rewrite Z.add_assoc. }
  rewrite Hbuf. rewrite <- Z.add_assoc in Hpos'. case_bool_decide as Hse.
  - specialize (Hst Hse). exists e'. assert (Z.min (len buf) (len T - k) = w + n) as -> by lia.
    split; [done|]. split; [done|]. intros. lia.
  - apply IH; [done|lia|lia|lia|done|lia].
Qed.

Lemma encode_pos e k buf :
  pos e k → 0 ≤ k ≤ len T → room k (len buf) →
  ∃ e', let n := Z.min (len buf) (len T - k) in
    W.encode buf e = (Ok (copy_front (slice k (k + n) T) buf, n), e') ∧ pos e' (k + n) ∧
    (len T - k < len buf → W.part (W.state e') = None).
Proof.
  intros Hpos Hk Hr. pose proof (len_nonneg buf).
  destruct (encode_loop_pos (W.encode_fuel buf) e k 0 buf) as (e' & He & Hpos' & Hd);
    rewrite ?Z.add_0_r; try done; try lia.
  { unfold W.encode_fuel, len. lia. }
  exists e'. cbv zeta. unfold W.encode. rewrite Z.add_0_r, slice_nil, copy_front_nil in He.
  by rewrite He.
Qed.
End loop.

(** * The methods, one turn each *)

Ltac wexec :=
  cbv [mbind M_bind mget mgets mlift mfail mmodify mret M_ret W.try_retrieve_current_frame ok_or];
  cbv beta iota zeta.

Lemma remaining_header_small k : k < 9 → W.remaining_header_bytes k = 9 - k.
Proof. intros. unfold W.remaining_header_bytes. by destruct (Z.leb_spec 9 k); [lia|]. Qed.

Lemma encoded_set e x : W.encoded_bytes (W.set_encoded e x) = x.
Proof. by destruct e. Qed.

Section goaway_priority.
Context (f : Frame.t) (T p : bytes).
Context (HT : frame_bytes f = Some T) (Hp : payload_bytes (Frame.payload f) = Some p).

(** What a header method leaves: the count, and the next state after nine. *)
Definition after_header (e : W.t) (n : Z) (next : FrameEncoderState) : W.t :=
  let e1 := W.set_encoded e (W.encoded_bytes e + n) in
  if W.encoded_bytes e + n =? 9 then W.set_state e1 next else e1.

Lemma goaway_header_turn c l debug e buf :
  Frame.payload f = Payload.Goaway c l debug → W.current_frame e = Some f →
  0 ≤ W.encoded_bytes e < 9 →
  let n := Z.min (9 - W.encoded_bytes e) (len buf) in
  W.encode_goaway_frame buf e =
    (Ok (copy_front (slice (W.encoded_bytes e) (W.encoded_bytes e + n) T) buf, n),
     after_header e n EncodingGoawayPayload).
Proof.
  intros Hpl Hf Hk n. pose proof (len_nonneg buf). unfold W.encode_goaway_frame. wexec.
  rewrite Hf. wexec. rewrite Hpl. wexec. unfold W.iterate_goaway_header. wexec.
  rewrite remaining_header_small by lia. fold n.
  rewrite (header_fill e f T p HT Hp); [|by eapply goaway_header_ok|lia..].
  wexec. rewrite encoded_set. done.
Qed.

Lemma priority_header_turn ex dep w e buf :
  Frame.payload f = Payload.Priority ex dep w → W.current_frame e = Some f →
  0 ≤ W.encoded_bytes e < 9 →
  let n := Z.min (9 - W.encoded_bytes e) (len buf) in
  W.encode_priority_frame buf e =
    (Ok (copy_front (slice (W.encoded_bytes e) (W.encoded_bytes e + n) T) buf, n),
     after_header e n EncodingPriorityPayload).
Proof.
  intros Hpl Hf Hk n. pose proof (len_nonneg buf). unfold W.encode_priority_frame. wexec.
  rewrite Hf. wexec. rewrite Hpl. wexec. unfold W.iterate_priority_header. wexec.
  rewrite remaining_header_small by lia. fold n.
  rewrite (header_fill e f T p HT Hp); [|by eapply priority_header_ok|lia..].
  wexec. rewrite encoded_set. done.
Qed.

(** What a payload method leaves. *)
Definition after_payload (e : W.t) (n : Z) : W.t :=
  let e1 := W.set_encoded e (W.encoded_bytes e + n) in
  if W.encoded_bytes e + n =? len T then W.set_state e1 DataComplete else e1.

Lemma payload_at i : 0 ≤ i → 9 ≤ len T → at_ T (9 + i) = at_ p i.
Proof.
  intros Hi _. destruct (frame_bytes_len f T p HT Hp) as [-> _]. unfold at_.
  rewrite lookup_app_r by (simpl; lia). do 2 f_equal. simpl. lia.
Qed.

Lemma at_be32 x i l : 0 ≤ i ≤ 3 → at_ (be32 x ++ l) i = byte_at x (24 - 8 * i).
Proof.
  intros Hi. assert (i = 0 ∨ i = 1 ∨ i = 2 ∨ i = 3) as Hc by lia.
  by destruct Hc as [->|[->|[->| ->]]].
Qed.
Lemma at_skip4 x i l : 4 ≤ i → at_ (be32 x ++ l) i = at_ l (i - 4).
Proof.
  intros Hi. unfold at_. rewrite lookup_app_r by (simpl; lia). do 2 f_equal. simpl. lia.
Qed.

Lemma goaway_payload_turn c l debug e buf :
  Frame.payload f = Payload.Goaway c l debug → W.current_frame e = Some f →
  9 ≤ W.encoded_bytes e ≤ len T →
  let n := Z.min (len T - W.encoded_bytes e) (len buf) in
  W.encode_goaway_payload buf e =
    (Ok (copy_front (slice (W.encoded_bytes e) (W.encoded_bytes e + n) T) buf, n),
     after_payload e n).
Proof.
  intros Hpl Hf Hk n. pose proof (len_nonneg buf). unfold W.encode_goaway_payload. wexec.
  destruct (frame_bytes_len f T p HT Hp) as [_ Hl].
  assert (Hpp : p = be32 l ++ be32 c ++ debug) by (rewrite Hpl in Hp; by injection Hp as <-).
  assert (Hge : goaway_encoded_len debug = len T - 9).
  { rewrite Hl, Hpp. unfold goaway_encoded_len. rewrite !len_app. change (len (be32 _)) with 4. lia. }
  rewrite Hf. wexec. rewrite Hpl. wexec. unfold W.iterate_goaway_payload. wexec. rewrite Hge.
  replace (Z.min (saturating_sub (len T - 9) (saturating_sub (W.encoded_bytes e) 9)) (len buf))
    with n by (unfold saturating_sub; lia).
  rewrite (fill_front _ T (W.encoded_bytes e)); [|intros i Hi|lia..].
  - wexec. rewrite encoded_set. replace (9 + (len T - 9)) with (len T) by lia. done.
  - unfold W.goaway_payload_byte, sub_. destruct (Z.leb_spec 9 (W.encoded_bytes e)); [|lia].
    cbn [mbind res_bind]. set (j := W.encoded_bytes e - 9 + i).
    replace (W.encoded_bytes e + i) with (9 + j) by lia. rewrite payload_at, Hpp by lia.
    destruct (in_range 0 j 3) eqn:H3; [apply in_range_spec in H3; by rewrite at_be32|].
    assert (¬ 0 ≤ j ≤ 3) by (rewrite <- in_range_spec; congruence).
    rewrite at_skip4 by lia.
    destruct (in_range 4 j 7) eqn:H7; [apply in_range_spec in H7; by rewrite at_be32 by lia|].
    assert (¬ 4 ≤ j ≤ 7) by (rewrite <- in_range_spec; congruence).
    rewrite at_skip4 by lia. unfold goaway_encoded_len in Hge.
    destruct (Z.ltb_spec (j - 8) (len debug)); [|lia]. rewrite index_at by lia.
    do 2 f_equal. lia.
Qed.

Lemma priority_payload_turn ex dep w e buf :
  Frame.payload f = Payload.Priority ex dep w → W.current_frame e = Some f →
  9 ≤ W.encoded_bytes e ≤ len T →
  let n := Z.min (len T - W.encoded_bytes e) (len buf) in
  W.encode_priority_payload buf e =
    (Ok (copy_front (slice (W.encoded_bytes e) (W.encoded_bytes e + n) T) buf, n),
     after_payload e n).
Proof.
  intros Hpl Hf Hk n. pose proof (len_nonneg buf). unfold W.encode_priority_payload. wexec.
  destruct (frame_bytes_len f T p HT Hp) as [_ Hl].
  pose proof Hp as Hp'. rewrite Hpl in Hp'. simpl in Hp'. injection Hp' as Hpp.
  assert (Hge : len T = 14) by (rewrite Hl, <- Hpp; done).
  rewrite Hf. wexec. rewrite Hpl. wexec. unfold sub_.
  destruct (Z.leb_spec 9 (W.encoded_bytes e)); [|lia]. cbv beta iota zeta.
  destruct (Z.leb_spec (W.encoded_bytes e - 9) 5); [|lia]. cbv beta iota zeta.
  unfold W.iterate_priority_payload. cbv beta iota zeta.
  replace (Z.min (5 - (W.encoded_bytes e - 9)) (len buf)) with n by lia.
  rewrite (fill_front _ T (W.encoded_bytes e)); [|intros i Hi|lia..].
  - wexec. rewrite encoded_set. unfold after_payload. rewrite Hge. done.
  - unfold W.priority_payload_byte.
    replace (saturating_sub (W.encoded_bytes e) 9 + i) with (W.encoded_bytes e - 9 + i)
      by (unfold saturating_sub; lia).
    set (j := W.encoded_bytes e - 9 + i). cbv zeta.
    replace (W.encoded_bytes e + i) with (9 + j) by lia. rewrite payload_at, <- Hpp by lia.
    assert (j = 0 ∨ j = 1 ∨ j = 2 ∨ j = 3 ∨ j = 4) as Hj by lia.
    destruct Hj as [->|[->|[->|[->| ->]]]]; try done. unfold at_. simpl. do 2 f_equal.
    + by destruct ex.
    + unfold as_u8. change 127 with (Z.ones 7). rewrite Z.land_ones by lia.
      apply Z.mod_small. pose proof (Z.mod_pos_bound (Z.shiftr dep 24) (2 ^ 7) ltac:(lia)). lia.
Qed.
End goaway_priority.

(** * Positions *)

(** Encoders whose count runs over header and payload. *)
Definition count_pos (f : Frame.t) (T : bytes) (H P : FrameEncoderState) (e : W.t) (k : Z) : Prop :=
  W.current_frame e = Some f ∧ W.encoded_bytes e = k ∧
  W.state e = if k <? 9 then H else if k <? len T then P else DataComplete.

Lemma after_header_proj e n s :
  W.current_frame (after_header e n s) = W.current_frame e ∧
  W.encoded_bytes (after_header e n s) = W.encoded_bytes e + n ∧
  W.state (after_header e n s) = if W.encoded_bytes e + n =? 9 then s else W.state e.
Proof. unfold after_header. destruct e; simpl. by destruct (_ =? 9). Qed.

Lemma after_payload_proj T e n :
  W.current_frame (after_payload T e n) = W.current_frame e ∧
  W.encoded_bytes (after_payload T e n) = W.encoded_bytes e + n ∧
  W.state (after_payload T e n) = if W.encoded_bytes e + n =? len T then DataComplete else W.state e.
Proof. unfold after_payload. destruct e; simpl. by destruct (_ =? len T). Qed.

Section count.
Context (f : Frame.t) (T : bytes) (H P : FrameEncoderState) (hm pm : W.writer).
Context (HH : W.part H = Some hm) (HP : W.part P = Some pm) (H9 : 9 < len T) (HPne : P ≠ H).
Context (Hh : ∀ e buf, W.current_frame e = Some f → 0 ≤ W.encoded_bytes e < 9 →
  let n := Z.min (9 - W.encoded_bytes e) (len buf) in
  hm buf e = (Ok (copy_front (slice (W.encoded_bytes e) (W.encoded_bytes e + n) T) buf, n),
              after_header e n P)).
Context (Hpm : ∀ e buf, W.current_frame e = Some f → 9 ≤ W.encoded_bytes e ≤ len T →
  let n := Z.min (len T - W.encoded_bytes e) (len buf) in
  pm buf e = (Ok (copy_front (slice (W.encoded_bytes e) (W.encoded_bytes e + n) T) buf, n),
              after_payload T e n)).

Lemma count_turn e k buf :
  count_pos f T H P e k → 0 ≤ k < len T → 0 < len buf → room T false k (len buf) →
  ∃ m n e', W.part (W.state e) = Some m ∧
    m buf e = (Ok (copy_front (slice k (k + n) T) buf, n), e') ∧ count_pos f T H P e' (k + n) ∧
    0 < n ≤ len buf ∧ k + n ≤ len T ∧ (W.state e' = W.state e → n = len buf).
Proof.
  intros (Hf & <- & Hs) Hk Hb _. destruct (Z.ltb_spec (W.encoded_bytes e) 9) as [Hlt|Hge].
  - exists hm, (Z.min (9 - W.encoded_bytes e) (len buf)). eexists. split; [by rewrite Hs|].
    split; [by apply Hh; [|lia]|].
    set (n := Z.min _ _). destruct (after_header_proj e n P) as (Hc & He & Hst).
    split; [|split; [lia|split; [lia|]]].
    + split; [by rewrite Hc|]. split; [done|]. rewrite Hst, Hs.
      destruct (Z.eqb_spec (W.encoded_bytes e + n) 9) as [->|].
      * destruct (Z.ltb_spec 9 9); [lia|]. by destruct (Z.ltb_spec 9 (len T)); [|lia].
      * by destruct (Z.ltb_spec (W.encoded_bytes e + n) 9); [|lia].
    + rewrite Hst, Hs. destruct (Z.eqb_spec (W.encoded_bytes e + n) 9); [|lia].
      intros Heq. by destruct HPne.
  - destruct (Z.ltb_spec (W.encoded_bytes e) (len T)); [|lia].
    exists pm, (Z.min (len T - W.encoded_bytes e) (len buf)). eexists. split; [by rewrite Hs|].
    split; [by apply Hpm; [|lia]|].
    set (n := Z.min _ _). destruct (after_payload_proj T e n) as (Hc & He & Hst).
    split; [|split; [lia|split; [lia|]]].
    + split; [by rewrite Hc|]. split; [done|]. rewrite Hst, Hs.
      destruct (Z.ltb_spec (W.encoded_bytes e + n) 9); [lia|].
      destruct (Z.eqb_spec (W.encoded_bytes e + n) (len T)) as [->|].
      * by destruct (Z.ltb_spec (len T) (len T)); [lia|].
      * by destruct (Z.ltb_spec (W.encoded_bytes e + n) (len T)); [|lia].
    + rewrite Hst, Hs. destruct (Z.eqb_spec (W.encoded_bytes e + n) (len T)); [|lia].
      intros Heq. rewrite <- Heq in HP. done.
Qed.
End count.

Lemma count_stop f T H P e :
  9 < len T → count_pos f T H P e (len T) → W.part (W.state e) = None ∨
  ∃ m e', W.part (W.state e) = Some m ∧ (∀ buf, 0 < len buf → m buf e = (Ok (buf, 0), e')) ∧
    count_pos f T H P e' (len T) ∧ W.part (W.state e') = None ∧ W.state e' ≠ W.state e.
Proof.
  intros H9 (_ & _ & ->). left. destruct (Z.ltb_spec (len T) 9); [lia|].
  by destruct (Z.ltb_spec (len T) (len T)); [lia|].
Qed.

(** Encoders that are right when the buffer holds the whole frame: [c] is the
    count after the header. *)
Definition whole_pos (f : Frame.t) (T : bytes) (H P : FrameEncoderState) (c : Z) (e : W.t) (k : Z)
    : Prop :=
  W.current_frame e = Some f ∧
  ((k = 0 ∧ W.state e = H ∧ W.encoded_bytes e = 0) ∨
   (k = 9 ∧ W.state e = P ∧ W.encoded_bytes e = c) ∨
   (k = len T ∧ W.state e = DataComplete)).

Section whole.
Context (f : Frame.t) (T : bytes) (H P : FrameEncoderState) (c : Z) (hm pm : W.writer).
Context (HH : W.part H = Some hm) (HP : W.part P = Some pm) (H9 : 9 ≤ len T) (HPne : P ≠ H).
Context (Hh : ∀ e buf, W.current_frame e = Some f → W.encoded_bytes e = 0 → W.state e = H →
  9 ≤ len buf → ∃ e', hm buf e = (Ok (copy_front (slice 0 9 T) buf, 9), e') ∧
    W.current_frame e' = Some f ∧ W.encoded_bytes e' = c ∧ W.state e' = P).
Context (Hpm : ∀ e, W.current_frame e = Some f → W.encoded_bytes e = c → W.state e = P →
  ∃ e', (∀ buf, len T - 9 ≤ len buf →
    pm buf e = (Ok (copy_front (slice 9 (len T) T) buf, len T - 9), e')) ∧
    W.current_frame e' = Some f ∧ W.state e' = DataComplete).

Lemma whole_turn e k buf :
  whole_pos f T H P c e k → 0 ≤ k < len T → 0 < len buf → room T true k (len buf) →
  ∃ m n e', W.part (W.state e) = Some m ∧
    m buf e = (Ok (copy_front (slice k (k + n) T) buf, n), e') ∧ whole_pos f T H P c e' (k + n) ∧
    0 < n ≤ len buf ∧ k + n ≤ len T ∧ (W.state e' = W.state e → n = len buf).
Proof.
  intros [Hf Hpos] Hk Hb Hr. simpl in Hr.
  destruct Hpos as [(-> & Hs & He)|[(-> & Hs & He)|(-> & _)]]; [| |lia].
  - destruct (Hh e buf Hf He Hs) as (e' & Hm & Hf' & He' & Hs'); [lia|].
    exists hm, 9, e'. rewrite Hs. split; [done|]. split; [exact Hm|].
    split; [split; [done|right; left; done]|]. split; [lia|]. split; [lia|].
    rewrite Hs'. intros ?. by destruct HPne.
  - destruct (Hpm e Hf He Hs) as (e' & Hm & Hf' & Hs').
    exists pm, (len T - 9), e'. rewrite Hs. split; [done|].
    replace (9 + (len T - 9)) with (len T) by lia. split; [apply Hm; lia|].
    split; [split; [done|by right; right]|]. split; [lia|]. split; [lia|].
    rewrite Hs'. intros <-. done.
Qed.

Lemma whole_stop e :
  whole_pos f T H P c e (len T) → W.part (W.state e) = None ∨
  ∃ m e', W.part (W.state e) = Some m ∧ (∀ buf, 0 < len buf → m buf e = (Ok (buf, 0), e')) ∧
    whole_pos f T H P c e' (len T) ∧ W.part (W.state e') = None ∧ W.state e' ≠ W.state e.
Proof.
  intros [Hf [(Hz & _)|[(H99 & Hs & He)|(_ & ->)]]]; [lia| |by left].
  right. destruct (Hpm e Hf He Hs) as (e' & Hm & Hf' & Hs').
  exists pm, e'. rewrite Hs, Hs'. split; [done|]. split.
  { intros buf Hb. rewrite Hm by lia. rewrite H99. by rewrite slice_nil, copy_front_nil. }
  split; [split; [done|by right; right]|]. split; [done|]. intros <-. done.
Qed.

Lemma whole_both :
  (∀ e k buf, whole_pos f T H P c e k → 0 ≤ k < len T → 0 < len buf → room T true k (len buf) →
    ∃ m n e', W.part (W.state e) = Some m ∧
      m buf e = (Ok (copy_front (slice k (k + n) T) buf, n), e') ∧ whole_pos f T H P c e' (k + n) ∧
      0 < n ≤ len buf ∧ k + n ≤ len T ∧ (W.state e' = W.state e → n = len buf)) ∧
  (∀ e, whole_pos f T H P c e (len T) → W.part (W.state e) = None ∨
    ∃ m e', W.part (W.state e) = Some m ∧ (∀ buf, 0 < len buf → m buf e = (Ok (buf, 0), e')) ∧
      whole_pos f T H P c e' (len T) ∧ W.part (W.state e') = None ∧ W.state e' ≠ W.state e).
Proof. split; [exact whole_turn|exact whole_stop]. Qed.
End whole.

(** * DATA *)

Section data.
Context (f : Frame.t) (T data : bytes) (mx : Z).
Context (HT : frame_bytes f = Some T) (Hpl : Frame.payload f = Payload.Data data).
Context (Hmx : len data ≤ mx).

Definition data_pos (e : W.t) (k : Z) : Prop :=
  W.current_frame e = Some f ∧ W.max_frame_size e = mx ∧
  ((0 ≤ k < 9 ∧ W.state e = EncodingDataHeader ∧ W.encoded_bytes e = k ∧ W.data_offset e = 0 ∧
    W.remaining_payload_bytes e = len data) ∨
   (9 ≤ k ∧ W.state e = EncodingDataPayload ∧ W.encoded_bytes e = 0 ∧ W.data_offset e = k - 9 ∧
    W.remaining_payload_bytes e = len T - k ∧ (k < len T ∨ k = 9)) ∨
   (k = len T ∧ W.state e = DataComplete)).

Lemma data_len : len T = 9 + len data.
Proof. by destruct (frame_bytes_len f T data HT ltac:(by rewrite Hpl)). Qed.

Lemma data_at (k n : Z) : 9 ≤ k → 0 ≤ n → slice (k - 9) (k - 9 + n) data = slice k (k + n) T.
Proof.
  intros Hk Hn. destruct (frame_bytes_len f T data HT ltac:(by rewrite Hpl)) as [-> _].
  unfold slice. rewrite upto_app_ge by (change (9 ≤ k + n); lia).
  rewrite from_app_ge by (change (9 ≤ k); lia). f_equal. f_equal. change (k - 9 + n = k + n - 9). lia.
Qed.

Lemma data_payload_turn e buf k :
  W.current_frame e = Some f → W.max_frame_size e = mx → 9 ≤ k ≤ len T →
  W.state e = EncodingDataPayload → W.data_offset e = k - 9 →
  W.remaining_payload_bytes e = len T - k →
  let n := Z.min (len T - k) (len buf) in
  W.encode_data_payload buf e =
    (Ok (copy_front (slice k (k + n) T) buf, n),
     let e1 := W.set_rem_payload (W.set_offset e (k + n - 9)) (len T - (k + n)) in
     if k + n =? len T then W.set_state (W.set_offset e1 0) DataComplete
     else if k + n - 9 =? mx then W.set_state (W.set_offset e1 0) EncodingDataHeader else e1).
Proof.
  intros Hf Hm Hk Hs Hof Hrem n. pose proof (len_nonneg buf). pose proof data_len as Hl.
  destruct e as [cf mf ml hp st eb dof rh rp es eh pb pi]. simpl in *. subst.
  unfold W.encode_data_payload, W.encode_slice. wexec. cbn [W.current_frame]. wexec. rewrite Hpl. wexec. simpl. unfold sub_.
  destruct (Z.leb_spec (k - 9) mx) as [|]; [|lia]. cbv beta iota zeta.
  replace (Z.min (Z.min (mx - (k - 9)) (len T - k)) (len buf)) with n by lia.
  rewrite slice_ok by lia. cbv beta iota zeta. simpl.
  destruct (Z.leb_spec n (len T - k)); [|lia]. cbv beta iota zeta. simpl.
  rewrite data_at by lia. replace (k - 9 + n) with (k + n - 9) by lia.
  replace (len T - k - n) with (len T - (k + n)) by lia.
  destruct (Z.eqb_spec (len T - (k + n)) 0); destruct (Z.eqb_spec (k + n) (len T)); try lia; [done|].
  by destruct (k + n - 9 =? mx).
Qed.

Lemma data_turn e k buf :
  data_pos e k → 0 ≤ k < len T → 0 < len buf → room T false k (len buf) →
  ∃ m n e', W.part (W.state e) = Some m ∧
    m buf e = (Ok (copy_front (slice k (k + n) T) buf, n), e') ∧ data_pos e' (k + n) ∧
    0 < n ≤ len buf ∧ k + n ≤ len T ∧ (W.state e' = W.state e → n = len buf).
Proof.
  intros (Hf & Hm & Hpos) Hk Hb _. pose proof data_len as Hl. pose proof (len_nonneg data).
  destruct Hpos as [(Hk9 & Hs & He & Hof & Hrem)|[(Hk9 & Hs & He & Hof & Hrem & _)|(-> & _)]]; [| |lia].
  - set (n := Z.min (9 - k) (len buf)). exists W.encode_data_header, n.
    eexists. split; [by rewrite Hs|]. split.
    + unfold W.encode_data_header, W.iterate_data_header. wexec. rewrite Hf. wexec. rewrite Hpl.
      wexec. rewrite He, remaining_header_small by lia. fold n.
      rewrite Hrem, Hm, Z.min_l by lia. rewrite <- He.
      rewrite (header_fill e f T data HT); [|by rewrite Hpl|eapply data_header_ok; eauto|lia..].
      * wexec. reflexivity.
      * by rewrite Hpl.
      * lia.
    + destruct e as [cf mf ml hp st eb dof rh rp es eh pb pi]. simpl in *. subst.
      destruct (Z.eqb_spec (k + n) 9) as [H9|H9]; simpl;
        (split; [|split; [lia|split; [lia|by try (intros; lia)]]]);
        (split; [done|split; [done|]]).
      * right. left. simpl. rewrite H9. repeat split; lia || auto.
      * left. simpl. repeat split; lia || auto.
  - set (n := Z.min (len T - k) (len buf)). exists W.encode_data_payload, n.
    eexists. split; [by rewrite Hs|]. split; [apply data_payload_turn; (done || lia)|].
    destruct e as [cf mf ml hp st eb dof rh rp es eh pb pi]. simpl in *. subst. fold n.
    split; [|split; [lia|split; [lia|]]].
    + destruct (Z.eqb_spec (k + n) (len T)) as [->|Hne]; simpl.
      * split; [done|]. split; [done|]. right. right. done.
      * destruct (Z.eqb_spec (k + n - 9) mx); [lia|]. split; [done|]. split; [done|].
        right. left. simpl. repeat split; lia || auto.
    + destruct (Z.eqb_spec (k + n) (len T)) as [->|Hne]; simpl; [done|]. intros _. lia.
Qed.

Lemma data_stop e :
  data_pos e (len T) → W.part (W.state e) = None ∨
  ∃ m e', W.part (W.state e) = Some m ∧ (∀ buf, 0 < len buf → m buf e = (Ok (buf, 0), e')) ∧
    data_pos e' (len T) ∧ W.part (W.state e') = None ∧ W.state e' ≠ W.state e.
Proof.
  intros (Hf & Hm & Hpos). pose proof data_len as Hl. pose proof (len_nonneg data).
  destruct Hpos as [(? & _)|[(Hk9 & Hs & He & Hof & Hrem & Hc)|(_ & ->)]]; [lia| |by left].
  right. exists W.encode_data_payload. eexists. split; [by rewrite Hs|]. split.
  { intros buf Hb. rewrite (data_payload_turn e buf (len T)) by (done || lia). cbv zeta.
    rewrite Z.sub_diag, Z.min_l, Z.add_0_r, slice_nil, copy_front_nil, Z.eqb_refl by lia. reflexivity. }
  destruct e as [cf mf ml hp st eb dof rh rp es eh pb pi]. simpl in *. subst.
  split; [|done]. split; [done|]. split; [done|]. by right; right.
Qed.
End data.

(** * WINDOW_UPDATE, RST_STREAM, PING and SETTINGS *)

Section whole_types.
Context (f : Frame.t) (T p : bytes).
Context (HT : frame_bytes f = Some T) (Hp : payload_bytes (Frame.payload f) = Some p).

Let Hlen : len T = 9 + len p.
Proof. by destruct (frame_bytes_len f T p HT Hp). Qed.

Lemma payload_slice : slice 9 (len T) T = p.
Proof.
  destruct (frame_bytes_len f T p HT Hp) as [Ht _]. unfold slice. rewrite upto_all by lia.
  rewrite Ht. by apply from_app_exact.
Qed.

(** A payload written whole by a byte function that agrees with it. *)
Lemma payload_fill {E} (g : Z → res E Z) buf :
  (∀ i, 0 ≤ i < len p → g i = Ok (at_ p i)) → len p ≤ len buf →
  fill g 0 (Z.to_nat (len p)) buf = Ok (copy_front (slice 9 (len T) T) buf).
Proof.
  intros Hg Hb. pose proof (len_nonneg p). rewrite Hlen.
  apply fill_front; try lia. intros i Hi. by rewrite (payload_at f T p HT Hp), Hg by lia.
Qed.

Lemma window_update_header inc e buf :
  Frame.payload f = Payload.WindowUpdate inc → W.current_frame e = Some f →
  W.encoded_bytes e = 0 → 9 ≤ len buf →
  W.encode_window_update_frame buf e =
    (Ok (copy_front (slice 0 9 T) buf, 9),
     W.set_encoded (W.set_state (W.set_encoded e 9) EncodingWindowUpdatePayload) 0).
Proof.
  intros Hpl Hf He Hb. unfold W.encode_window_update_frame, W.iterate_window_update_header. wexec.
  rewrite Hf. wexec. rewrite Hpl. wexec. rewrite remaining_header_small, He, Z.min_l by lia.
  rewrite (header_fill e f T p HT Hp); [|by eapply window_update_header_ok|lia..].
  wexec. rewrite He. destruct e. simpl in *. by subst.
Qed.

Lemma window_update_payload inc e buf :
  Frame.payload f = Payload.WindowUpdate inc → W.current_frame e = Some f →
  W.encoded_bytes e = 0 → len T - 9 ≤ len buf →
  W.encode_window_update_payload buf e =
    (Ok (copy_front (slice 9 (len T) T) buf, len T - 9), W.set_state (W.set_encoded e 4) DataComplete).
Proof.
  intros Hpl Hf He Hb. pose proof Hp as Hp'. rewrite Hpl in Hp'. injection Hp' as Hpp.
  assert (H4 : len p = 4) by by rewrite <- Hpp.
  unfold W.encode_window_update_payload. wexec. rewrite Hf. wexec. rewrite Hpl. wexec.
  rewrite He. change (saturating_sub 4 (saturating_sub 0 9)) with 4. rewrite Z.min_l by lia.
  replace 4 with (len p) at 1. rewrite payload_fill; [|intros i Hi|lia].
  - wexec. rewrite encoded_set, ?He. replace (len T - 9) with 4 by lia. done.
  - unfold W.window_update_payload_byte. rewrite He. change (saturating_sub 0 9) with 0.
    rewrite Z.add_0_l. unfold sub_. destruct (Z.leb_spec (8 * i) 24); [|lia]. cbn [mbind res_bind].
    rewrite <- Hpp. rewrite <- (app_nil_r (be32 inc)). rewrite at_be32 by lia. done.
Qed.

Lemma rst_stream_header code e buf :
  Frame.payload f = Payload.RstStream code → W.current_frame e = Some f →
  W.encoded_bytes e = 0 → 9 ≤ len buf →
  W.encode_rst_stream_frame buf e =
    (Ok (copy_front (slice 0 9 T) buf, 9),
     W.set_state (W.set_encoded e 9) EncodingRstStreamPayload).
Proof.
  intros Hpl Hf He Hb. unfold W.encode_rst_stream_frame. wexec.
  rewrite Hf. wexec. rewrite He. change (9 <=? 0) with false. cbv beta iota zeta.
  rewrite Z.min_l by lia. change (9 - 0) with 9.
  rewrite (header_fill e f T p HT Hp); [|by eapply rst_stream_header_ok|lia..].
  wexec. rewrite He. destruct e. simpl in *. by subst.
Qed.

Lemma rst_stream_payload code e buf :
  Frame.payload f = Payload.RstStream code → W.current_frame e = Some f →
  W.encoded_bytes e = 9 → len T - 9 ≤ len buf →
  W.encode_rst_stream_payload buf e =
    (Ok (copy_front (slice 9 (len T) T) buf, len T - 9), W.set_state (W.set_encoded e 13) DataComplete).
Proof.
  intros Hpl Hf He Hb. pose proof Hp as Hp'. rewrite Hpl in Hp'. injection Hp' as Hpp.
  assert (H4 : len p = 4) by by rewrite <- Hpp.
  unfold W.encode_rst_stream_payload. wexec. rewrite Hf. wexec. rewrite Hpl. wexec.
  rewrite He. change (9 <? 9) with false. change (4 <=? 9 - 9) with false. cbv beta iota zeta.
  change (4 - (9 - 9)) with 4. rewrite Z.min_l by lia.
  replace 4 with (len p) at 1. rewrite payload_fill; [|intros i Hi|lia].
  - wexec. rewrite encoded_set, ?He. replace (len T - 9) with 4 by lia. done.
  - cbv zeta. rewrite Z.add_0_l, land_ff, <- Hpp. rewrite <- (app_nil_r (be32 code)).
    by rewrite at_be32 by lia.
Qed.

(** PING and SETTINGS headers are written by index. *)
Lemma index_header g l ty id buf :
  T = frame_header_bytes l ty (Frame.flags f) id ++ p → id = 0 →
  (∀ i, g i =
    if in_range 0 i 2 then Ok (i, as_u8 (Z.land (Z.shiftr l (16 - 8 * i)) 0xFF))
    else if i =? 3 then Ok (3, ty)
    else if i =? 4 then Ok (4, Frame.flags f)
    else if in_range 5 i 8 then Ok (i, 0)
    else Err InternalError) →
  9 ≤ len buf →
  write_at g 0 (Z.to_nat 9) buf = Ok (copy_front (slice 0 9 T) buf).
Proof.
  intros Ht -> Hg Hb. pose proof (len_nonneg p).
  pose proof (write_at_spec g T 9 buf []) as Hw. change (len []) with 0 in Hw. cbn [app] in Hw.
  change (Z.to_nat 9) with 9%nat. rewrite Hw; [|intros i Hi|lia|lia].
  - unfold copy_front, slice. rewrite (from_0 0), len_upto by lia. by rewrite Z.min_l by lia.
  - rewrite Z.add_0_l, Hg, Ht. clear Hw Hg.
    assert (i = 0 ∨ i = 1 ∨ i = 2 ∨ i = 3 ∨ i = 4 ∨ i = 5 ∨ i = 6 ∨ i = 7 ∨ i = 8) as Hc by lia.
    destruct Hc as [->|[->|[->|[->|[->|[->|[->|[->| ->]]]]]]]]; try done;
      simpl; rewrite land_ff; done.
Qed.

Lemma ping_header data e buf :
  Frame.payload f = Payload.Ping data → len data = 8 → Frame.id f = 0 →
  W.current_frame e = Some f → W.encoded_bytes e = 0 → 9 ≤ len buf →
  W.encode_ping_frame buf e =
    (Ok (copy_front (slice 0 9 T) buf, 9), W.set_state (W.set_encoded e 9) EncodingPingPayload).
Proof.
  intros Hpl H8 Hid Hf He Hb. unfold W.encode_ping_frame, W.iterate_ping_header. wexec.
  rewrite Hf. wexec. rewrite Hpl. wexec. rewrite remaining_header_small, He, Z.min_l by lia.
  destruct (frame_bytes_len f T p HT Hp) as [Ht _]. rewrite Hpl, Hid in Ht.
  assert (p = data) as Hpd by (rewrite Hpl in Hp; by injection Hp). rewrite Hpd, H8 in Ht.
  rewrite <- Hpd in Ht. change (9 - 0) with 9. rewrite (index_header _ 8 6 0); [|done|done| |done].
  - wexec. destruct e. simpl in *. by subst.
  - intros i. unfold W.ping_header_write. by rewrite He, Z.add_0_l.
Qed.

Lemma ping_payload data e buf :
  Frame.payload f = Payload.Ping data → len data = 8 → W.current_frame e = Some f →
  W.encoded_bytes e = 9 → len T - 9 ≤ len buf →
  W.encode_ping_payload buf e =
    (Ok (copy_front (slice 9 (len T) T) buf, len T - 9), W.set_state (W.set_encoded e 17) DataComplete).
Proof.
  intros Hpl H8 Hf He Hb. pose proof Hp as Hp'. rewrite Hpl in Hp'. injection Hp' as Hpp.
  unfold W.encode_ping_payload. wexec. rewrite Hf. wexec. rewrite Hpl. wexec. rewrite He.
  change (saturating_sub 8 (saturating_sub 9 9)) with 8. rewrite Hpp in H8. rewrite Z.min_l by lia.
  replace 8 with (len p) at 1. rewrite payload_fill; [|intros i Hi|lia].
  - wexec. rewrite encoded_set, ?He. replace (len T - 9) with 8 by lia. done.
  - change (saturating_sub 9 9) with 0. rewrite Z.add_0_l, Hpp. by rewrite index_at by lia.
Qed.
End whole_types.

(** ** SETTINGS *)

Lemma len_settings s : len (s ≫= setting_bytes) = len s * 6.
Proof.
  induction s as [|x s IH]; [done|]. cbn [mbind list_bind]. rewrite len_app, len_cons, IH.
  change (len (setting_bytes x)) with 6. lia.
Qed.

Lemma settings_at s j :
  0 ≤ j < len s * 6 →
  ∃ x, s !! Z.to_nat (j / 6) = Some x ∧ at_ (s ≫= setting_bytes) j = at_ (setting_bytes x) (j mod 6).
Proof.
  revert j. induction s as [|x s IH]; intros j Hj; [unfold len in Hj; simpl in Hj; lia|].
  rewrite len_cons in Hj. cbn [mbind list_bind]. destruct (Z.lt_ge_cases j 6) as [Hlt|Hge].
  - exists x. rewrite Z.div_small, Z.mod_small by lia. split; [done|]. unfold at_.
    rewrite lookup_app_l; [done|]. change (length (setting_bytes x)) with 6%nat. lia.
  - destruct (IH (j - 6) ltac:(lia)) as (y & Hy & Ha). exists y.
    assert (Hd : j / 6 = (j - 6) / 6 + 1).
    { replace j with (j - 6 + 1 * 6) at 1 by lia. by rewrite Z.div_add by lia. }
    assert (Hm : j mod 6 = (j - 6) mod 6).
    { replace j with (j - 6 + 1 * 6) at 1 by lia. by rewrite Z.mod_add by lia. }
    pose proof (Z.div_pos (j - 6) 6 ltac:(lia) ltac:(lia)). rewrite Hm. split.
    + rewrite Hd. by replace (Z.to_nat ((j - 6) / 6 + 1)) with (S (Z.to_nat ((j - 6) / 6))) by lia.
    + rewrite <- Ha. unfold at_. rewrite lookup_app_r.
      * change (length (setting_bytes x)) with 6%nat. do 2 f_equal. lia.
      * change (length (setting_bytes x)) with 6%nat. lia.
Qed.

Lemma setting_pair_eq x : W.setting_pair x = (Setting.setting_identifier x, setting_value x).
Proof. by destruct x. Qed.

Section settings_type.
Context (f : Frame.t) (T : bytes) (s : Settings.t).
Context (HT : frame_bytes f = Some T) (Hpl : Frame.payload f = Payload.Settings s).

Let Hp : payload_bytes (Frame.payload f) = Some (s ≫= setting_bytes).
Proof. by rewrite Hpl. Qed.

Lemma settings_header e buf :
  Frame.id f = 0 → W.current_frame e = Some f → W.encoded_bytes e = 0 → 9 ≤ len buf →
  W.encode_settings_frame buf e =
    (Ok (copy_front (slice 0 9 T) buf, 9), W.set_state (W.set_encoded e 9) EncodingSettingsPayload).
Proof.
  intros Hid Hf He Hb. unfold W.encode_settings_frame, W.iterate_settings_header. wexec.
  rewrite Hf. wexec. rewrite Hpl. wexec. rewrite remaining_header_small, He, Z.min_l by lia.
  destruct (frame_bytes_len f T _ HT Hp) as [Ht _]. rewrite Hpl, Hid, len_settings in Ht.
  change (9 - 0) with 9.
  rewrite (index_header f T (s ≫= setting_bytes) HT Hp _ (len s * 6) 4 0); [|done|done| |done].
  - wexec. destruct e. simpl in *. by subst.
  - intros i. unfold W.settings_header_write. by rewrite He, Z.add_0_l.
Qed.

Lemma settings_payload e buf :
  W.current_frame e = Some f → W.encoded_bytes e = 9 → len T - 9 ≤ len buf →
  W.encode_settings_payload buf e =
    (Ok (copy_front (slice 9 (len T) T) buf, len T - 9),
     W.set_state (W.set_encoded e (len T)) DataComplete).
Proof.
  intros Hf He Hb. destruct (frame_bytes_len f T _ HT Hp) as [_ Hl]. rewrite len_settings in Hl.
  pose proof (len_nonneg s).
  unfold W.encode_settings_payload, W.iterate_settings_payload. wexec. rewrite Hf. wexec.
  rewrite Hpl. wexec. rewrite He.
  replace (saturating_sub (len s * 6) (saturating_sub 9 9)) with (len s * 6)
    by (unfold saturating_sub; lia).
  rewrite Z.min_l by lia. rewrite <- len_settings at 1.
  rewrite (payload_fill f T _ HT Hp); [|intros i Hi|rewrite len_settings; lia].
  - wexec. rewrite encoded_set, ?He. rewrite Hl. rewrite Z.eqb_refl. replace (9 + len s * 6 - 9) with (len s * 6) by lia. done.
  - rewrite len_settings in Hi. unfold W.settings_payload_byte, sub_. rewrite He.
    change (9 <=? 9) with true. cbn [mbind res_bind]. change (9 - 9) with 0. rewrite Z.add_0_l.
    destruct (settings_at s i Hi) as (x & -> & ->). rewrite setting_pair_eq, !land_ff.
    pose proof (Z.mod_pos_bound i 6 ltac:(lia)).
    assert (i mod 6 = 0 ∨ i mod 6 = 1 ∨ i mod 6 = 2 ∨ i mod 6 = 3 ∨ i mod 6 = 4 ∨ i mod 6 = 5)
      as Hc by lia.
    destruct Hc as [->|[->|[->|[->|[->| ->]]]]]; try done; by destruct x.
Qed.
End settings_type.

(** * All frame types without a header block *)

(** What the encoder needs of a frame to write it: DATA fits a frame, PING and
    SETTINGS are on stream 0 and PING carries eight octets. *)
Definition encodable (mx : Z) (f : Frame.t) : Prop :=
  match Frame.payload f with
  | Payload.Data data => len data ≤ mx
  | Payload.Ping data => len data = 8 ∧ Frame.id f = 0
  | Payload.Settings _ => Frame.id f = 0
  | Payload.Headers _ | Payload.PushPromise _ _ => False
  | _ => True
  end.

(** The types whose encoder resumes correctly in the middle of a frame. *)
Definition resumes_writing (p : Payload.t) : bool :=
  match p with
  | Payload.Data _ | Payload.Goaway _ _ _ | Payload.Priority _ _ _ => true
  | _ => false
  end.

Definition frame_pos (f : Frame.t) (T : bytes) (mx : Z) : W.t → Z → Prop :=
  match Frame.payload f with
  | Payload.Data data => data_pos f T data mx
  | Payload.Goaway _ _ _ => count_pos f T EncodingGoawayFrame EncodingGoawayPayload
  | Payload.Priority _ _ _ => count_pos f T EncodingPriorityFrame EncodingPriorityPayload
  | Payload.WindowUpdate _ => whole_pos f T EncodingWindowUpdateFrame EncodingWindowUpdatePayload 0
  | Payload.RstStream _ => whole_pos f T EncodingRstStreamFrame EncodingRstStreamPayload 9
  | Payload.Ping _ => whole_pos f T EncodingPingFrame EncodingPingPayload 9
  | Payload.Settings _ => whole_pos f T EncodingSettingsFrame EncodingSettingsPayload 9
  | _ => λ _ _, False
  end.

Lemma set_frame_pos into_iter f T e :
  frame_bytes f = Some T → encodable (W.max_frame_size e) f →
  ∃ e0, W.set_frame into_iter f e = (Ok (), e0) ∧ frame_pos f T (W.max_frame_size e) e0 0 ∧
    W.max_frame_size e0 = W.max_frame_size e.
Proof.
  intros HT Hen. unfold W.set_frame, encodable, frame_pos in *. wexec.
  destruct f as [id fl p]. cbn [Frame.payload] in *. destruct e as [cf mf ml hp st eb dof rh rp es eh pb pi].
  destruct p; try done; eexists; (split; [reflexivity|]); (split; [|done]); simpl.
  all: first [ by split | split; [done|]; by left
             | split; [done|]; split; [done|]; left; simpl; repeat split; lia ].
Qed.

Section all_types.
Context (f : Frame.t) (T : bytes) (mx : Z).
Context (HT : frame_bytes f = Some T) (Hen : encodable mx f).

Let no_payload_None : payload_bytes (Frame.payload f) ≠ None.
Proof. intros Hn. unfold frame_bytes in HT. by rewrite Hn in HT. Qed.

(** A type written whole, from the lemmas on its header and its payload method. *)
Ltac whole_case h p header payload :=
  apply whole_both with (hm := h) (pm := p); try done; [lia| |];
  [intros e' b ????; eexists; split; [by apply header|by destruct e']
  |intros e' ???; eexists; split; [intros b Hb; by apply payload|by destruct e']].

(** Type by type: the method pairs of [frame_pos] satisfy what the loop needs. *)
Lemma frame_turn_stop :
  let pos := frame_pos f T mx in
  let roomy := negb (resumes_writing (Frame.payload f)) in
  (∀ e k buf, pos e k → 0 ≤ k < len T → 0 < len buf → room T roomy k (len buf) →
    ∃ m n e', W.part (W.state e) = Some m ∧
      m buf e = (Ok (copy_front (slice k (k + n) T) buf, n), e') ∧ pos e' (k + n) ∧
      0 < n ≤ len buf ∧ k + n ≤ len T ∧ (W.state e' = W.state e → n = len buf)) ∧
  (∀ e, pos e (len T) → W.part (W.state e) = None ∨
    ∃ m e', W.part (W.state e) = Some m ∧ (∀ buf, 0 < len buf → m buf e = (Ok (buf, 0), e')) ∧
      pos e' (len T) ∧ W.part (W.state e') = None ∧ W.state e' ≠ W.state e).
Proof.
  cbv zeta. unfold frame_pos, encodable in *.
  destruct (payload_bytes (Frame.payload f)) as [p|] eqn:Hp; [|done]. pose proof Hp as Hp0.
  destruct (frame_bytes_len f T p HT Hp) as [_ Hl]. pose proof (len_nonneg p).
  destruct (Frame.payload f) as [|data|ex dep w|code|data|s|c l debug|inc|] eqn:Hpl; try done;
    cbn [resumes_writing negb].
  - split; intros *; [by apply data_turn|by apply data_stop].
  - assert (9 < len T) by (injection Hp as <-; rewrite Hl; done).
    split; intros *; [|by apply count_stop]. eapply count_turn; try done.
    + intros e' b. by apply (priority_header_turn f T p HT ltac:(by rewrite Hpl) ex dep w).
    + intros e' b. by apply (priority_payload_turn f T p HT ltac:(by rewrite Hpl) ex dep w).
  - whole_case W.encode_rst_stream_frame W.encode_rst_stream_payload
      (rst_stream_header f T p HT ltac:(by rewrite Hpl) code)
      (rst_stream_payload f T p HT ltac:(by rewrite Hpl) code).
  - destruct Hen as [H8 Hid]. whole_case W.encode_ping_frame W.encode_ping_payload
      (ping_header f T p HT ltac:(by rewrite Hpl) data)
      (ping_payload f T p HT ltac:(by rewrite Hpl) data).
  - whole_case W.encode_settings_frame W.encode_settings_payload
      (settings_header f T s HT Hpl) (settings_payload f T s HT Hpl).
  - assert (9 < len T).
    { injection Hp as <-. rewrite Hl, !len_cons. pose proof (len_nonneg debug). lia. }
    split; intros *; [|by apply count_stop]. eapply count_turn; try done.
    + intros e' b. by apply (goaway_header_turn f T p HT ltac:(by rewrite Hpl) c l debug).
    + intros e' b. by apply (goaway_payload_turn f T p HT ltac:(by rewrite Hpl) c l debug).
  - whole_case W.encode_window_update_frame W.encode_window_update_payload
      (window_update_header f T p HT ltac:(by rewrite Hpl) inc)
      (window_update_payload f T p HT ltac:(by rewrite Hpl) inc).
Qed.
End all_types.

(** One call of [encode], from any point of the frame. *)
Lemma frame_encode_step f T mx e k buf :
  frame_bytes f = Some T → encodable mx f → frame_pos f T mx e k → 0 ≤ k ≤ len T →
  (resumes_writing (Frame.payload f) = false → len T - k < len buf) →
  ∃ e', let n := Z.min (len buf) (len T - k) in
    W.encode buf e = (Ok (copy_front (slice k (k + n) T) buf, n), e') ∧ frame_pos f T mx e' (k + n) ∧
    (len T - k < len buf → W.part (W.state e') = None).
Proof.
  intros HT Hen Hpos Hk Hr. destruct (frame_turn_stop f T mx HT Hen) as [Ht Hs].
  eapply encode_pos; [exact Ht|exact Hs|done|done|]. unfold room.
  destruct (resumes_writing _); [done|]. by apply Hr.
Qed.

(** Successive calls of [encode], and the bytes they report as written. *)
Fixpoint encode_buffers (bufs : list bytes) (e : W.t) : res FrameEncoderErr bytes * W.t :=
  match bufs with
  | [] => (Ok [], e)
  | buf :: bufs =>
      match W.encode buf e with
      | (Ok (out, n), e) =>
          match encode_buffers bufs e with
          | (Ok rest, e) => (Ok (upto n out ++ rest), e)
          | (Err x, e) => (Err x, e)
          | (Panic, e) => (Panic, e)
          end
      | (Err x, e) => (Err x, e)
      | (Panic, e) => (Panic, e)
      end
  end.

Definition total_len (bufs : list bytes) : Z := foldr (λ b n, len b + n) 0 bufs.

Lemma total_len_nonneg bufs : 0 ≤ total_len bufs.
Proof. induction bufs as [|b bufs IH]; simpl; [lia|]. pose proof (len_nonneg b). lia. Qed.

Lemma upto_copy_front (a buf : bytes) : upto (len a) (copy_front a buf) = a.
Proof. unfold copy_front. by apply upto_app_exact. Qed.

Lemma encode_buffers_pos f T mx bufs e k :
  frame_bytes f = Some T → encodable mx f → resumes_writing (Frame.payload f) = true →
  frame_pos f T mx e k → 0 ≤ k ≤ len T →
  ∃ e', encode_buffers bufs e = (Ok (slice k (k + Z.min (total_len bufs) (len T - k)) T), e') ∧
    frame_pos f T mx e' (k + Z.min (total_len bufs) (len T - k)).
Proof.
  intros HT Hen Hr. revert e k. induction bufs as [|buf bufs IH]; intros e k Hpos Hk.
  { exists e. simpl. rewrite Z.min_l, Z.add_0_r, slice_nil by lia. done. }
  destruct (frame_encode_step f T mx e k buf) as (e1 & He & Hpos1 & _); try done.
  { by rewrite Hr. }
  simpl. rewrite He. set (n := Z.min (len buf) (len T - k)) in *. pose proof (len_nonneg buf).
  pose proof (total_len_nonneg bufs).
  destruct (IH e1 (k + n) Hpos1 ltac:(lia)) as (e2 & -> & Hpos2).
  exists e2. replace (k + Z.min (len buf + total_len bufs) (len T - k)) with
    (k + n + Z.min (total_len bufs) (len T - (k + n))) by lia.
  split; [|done]. do 2 f_equal.
  replace n with (len (slice k (k + n) T)) at 1 by (rewrite len_slice; lia).
  rewrite upto_copy_front. apply slice_app; lia.
Qed.

(** * The limit stays *)

(** No method but [update_max_frame_size] changes [max_frame_size]. *)
Definition keeps_max {A} (m : W.enc A) : Prop :=
  ∀ e, W.max_frame_size (m e).2 = W.max_frame_size e.

Lemma keeps_max_bind {A B} (m : W.enc A) (k : A → W.enc B) :
  keeps_max m → (∀ a, keeps_max (k a)) → keeps_max (m ≫= k).
Proof.
  intros Hm Hk e. rewrite M_bind_eq. specialize (Hm e).
  destruct (m e) as [[a|x|] e']; simpl in *; [|done..]. by rewrite (Hk a e').
Qed.
Lemma keeps_max_modify g : (∀ e, W.max_frame_size (g e) = W.max_frame_size e) → keeps_max (mmodify g).
Proof. intros Hg e. apply Hg. Qed.
Lemma keeps_max_if {A} (c : bool) (m n : W.enc A) :
  keeps_max m → keeps_max n → keeps_max (if c then m else n).
Proof. by destruct c. Qed.

Lemma keeps_max_hpack : keeps_max W.hpack_encode.
Proof.
  intros e. unfold W.hpack_encode. destruct (HpackEncoder.encode _ _) as [[w [n|[]|]] h];
    by destruct e.
Qed.

Ltac keeps_max :=
  repeat first
    [ exact keeps_max_hpack
    | intros ?; reflexivity
    | apply keeps_max_bind; [|intros ?]
    | apply keeps_max_if
    | apply keeps_max_modify; intros []; repeat (simpl; case_match); reflexivity
    | progress (intros; try match goal with |- keeps_max (match ?x with _ => _ end) => destruct x end) ].

Lemma part_keeps s m buf : W.part s = Some m → keeps_max (m buf).
Proof.
  destruct s; simpl; intros [= <-];
    unfold W.encode_headers_frame, W.encode_headers_payload, W.encode_padding,
      W.encode_continuation_frames, W.encode_data_header, W.encode_data_payload,
      W.encode_settings_frame, W.encode_goaway_frame, W.encode_window_update_frame,
      W.encode_settings_payload, W.encode_goaway_payload, W.encode_window_update_payload,
      W.encode_priority_frame, W.encode_priority_payload, W.encode_rst_stream_frame,
      W.encode_rst_stream_payload, W.encode_ping_frame, W.encode_ping_payload,
      W.headers_header_status, W.read_rest_payload, W.write_payload; keeps_max.
Qed.

Lemma encode_keeps buf : keeps_max (W.encode buf).
Proof.
  intros e. unfold W.encode.
  assert (H : ∀ fuel buf w e x, W.encode_loop fuel buf w e = Some x →
    W.max_frame_size x.2 = W.max_frame_size e).
  { clear. induction fuel as [|fuel IH]; intros buf w e x; [done|]. simpl.
    destruct (w <? len buf); [|by intros [= <-]].
    destruct (W.part (W.state e)) as [m|] eqn:Hm; [|by intros [= <-]].
    pose proof (part_keeps _ _ (from w buf) Hm e) as Hk.
    destruct (m (from w buf) e) as [[[r n]|y|] e']; simpl in Hk; [|by intros [= <-]..].
    case_bool_decide; [by intros [= <-]|]. intros Hx%IH. congruence. }
  destruct (W.encode_loop _ buf 0 e) as [x|] eqn:Hx; [|done]. by apply H in Hx.
Qed.

(** A frame set and written in one call. *)
Lemma encode_one into_iter f T e buf :
  frame_bytes f = Some T → encodable (W.max_frame_size e) f → len T < len buf →
  ∃ e0 e', W.set_frame into_iter f e = (Ok (), e0) ∧
    W.encode buf e0 = (Ok (copy_front T buf, len T), e') ∧ W.part (W.state e') = None ∧
    W.max_frame_size e' = W.max_frame_size e.
Proof.
  intros HT Hen Hb. destruct (set_frame_pos into_iter f T e HT Hen) as (e0 & Hs & Hpos & Hmx).
  pose proof (len_nonneg T).
  destruct (frame_encode_step f T _ e0 0 buf HT Hen Hpos) as (e' & He & _ & Hd); [lia|lia|].
  exists e0, e'. cbv zeta in He. rewrite Z.sub_0_r, Z.min_r in He by lia.
  unfold slice in He. rewrite upto_all, from_0 in He by lia.
  split; [done|]. split; [done|]. split; [apply Hd; lia|].
  pose proof (encode_keeps buf e0) as Hk. rewrite He in Hk. simpl in Hk. congruence.
Qed.

(** * Theorems *)

(** [set_frame] accepts every frame without a header block, and one call of
    [encode] with a buffer longer than the frame writes exactly the frame's wire
    image at the front of the buffer, reports its length, and is done. *)
Theorem frame_encode_whole into_iter f T e buf :
  frame_bytes f = Some T → encodable (W.max_frame_size e) f → len T < len buf →
  ∃ e0 e', W.set_frame into_iter f e = (Ok (), e0) ∧
    W.encode buf e0 = (Ok (copy_front T buf, len T), e') ∧ W.part (W.state e') = None.
Proof.
  intros HT Hen Hb. destruct (encode_one into_iter f T e buf HT Hen Hb) as (e0 & e' & ? & ? & ? & _).
  by exists e0, e'.
Qed.

Lemma frame_encode_whole_witness :
  ∃ e0 e', W.set_frame (λ h, map_to_list (Headers.map h))
      (Frame.mk 0 0 (Payload.Settings [Setting.MaxFrameSize 16384])) (W.new 16384 true) = (Ok (), e0) ∧
    W.encode (replicate 20 0) e0 =
      (Ok (copy_front [0; 0; 6; 4; 0; 0; 0; 0; 0; 0; 5; 0; 0; 64; 0] (replicate 20 0), 15), e') ∧
    W.part (W.state e') = None.
Proof. apply frame_encode_whole; reflexivity. Defined.

(** DATA frames within [max_frame_size], GOAWAY and PRIORITY frames may be
    written through any sequence of buffers, even of one byte: the bytes reported
    by the calls of [encode] are together the prefix of the wire image that the
    buffers hold. *)
Theorem frame_encode_segments into_iter f T e bufs :
  frame_bytes f = Some T → encodable (W.max_frame_size e) f →
  resumes_writing (Frame.payload f) = true →
  ∃ e0 e', W.set_frame into_iter f e = (Ok (), e0) ∧
    encode_buffers bufs e0 = (Ok (upto (total_len bufs) T), e').
Proof.
  intros HT Hen Hr. destruct (set_frame_pos into_iter f T e HT Hen) as (e0 & Hs & Hpos & _).
  pose proof (len_nonneg T). pose proof (total_len_nonneg bufs).
  destruct (encode_buffers_pos f T _ bufs e0 0 HT Hen Hr Hpos) as (e' & He & _); [lia|].
  exists e0, e'. split; [done|]. rewrite He. do 2 f_equal. unfold slice.
  rewrite from_0, Z.sub_0_r, Z.add_0_l by lia.
  destruct (Z.le_ge_cases (total_len bufs) (len T)).
  - by rewrite Z.min_l.
  - rewrite Z.min_r by lia. by rewrite !upto_all by lia.
Qed.

Lemma frame_encode_segments_witness :
  ∃ e0 e', W.set_frame (λ h, map_to_list (Headers.map h))
      (Frame.mk 0 0 (Payload.Goaway 8 5 [1; 2])) (W.new 16384 true) = (Ok (), e0) ∧
    encode_buffers [[0; 0; 0]; [0]; replicate 11 0; replicate 10 0] e0 =
      (Ok [0; 0; 10; 7; 0; 0; 0; 0; 0; 0; 0; 0; 5; 0; 0; 0; 8; 1; 2], e').
Proof.
  apply (frame_encode_segments (λ h, map_to_list (Headers.map h))
    (Frame.mk 0 0 (Payload.Goaway 8 5 [1; 2]))
    [0; 0; 10; 7; 0; 0; 0; 0; 0; 0; 0; 0; 5; 0; 0; 0; 8; 1; 2] (W.new 16384 true)
    [[0; 0; 0]; [0]; replicate 11 0; replicate 10 0]); done.
Defined.

(** What a fresh encoder reports for a frame written through [bufs]. *)
Definition written (mx : Z) (f : Frame.t) (bufs : list bytes) : res FrameEncoderErr bytes :=
  let '(r, e) := W.set_frame (λ h, map_to_list (Headers.map h)) f (W.new mx true) in
  match r with Ok _ => (encode_buffers bufs e).1 | Err x => Err x | Panic => Panic end.

(** A DATA payload longer than [max_frame_size] is split into frames, but
    every frame after the first carries the octets of the start of the payload
    again: [data_offset] is reset when a frame is full. *)
Theorem data_split_repeats_payload :
  let data := replicate (Z.to_nat 16384) 7 ++ [1; 2; 3] in
  written 16384 (Frame.mk 1 1 (Payload.Data data)) [replicate (Z.to_nat 17000) 0] =
    Ok (frame_header_bytes 16384 0 0 1 ++ replicate (Z.to_nat 16384) 7 ++
        frame_header_bytes 3 0 1 1 ++ [7; 7; 7]).
Proof. vm_compute. reflexivity. Qed.

(** WINDOW_UPDATE, PING, SETTINGS and RST_STREAM frames do not survive a cut
    by the end of a buffer: the payload of a WINDOW_UPDATE starts again in the
    second buffer; PING and SETTINGS lose the header bytes that fall into the
    second buffer, which are written at their index in the frame and not in the
    buffer; RST_STREAM computes the shift of the stream identifier from the index
    in the buffer and panics. *)
Theorem control_frames_cut_wrong :
  written 16384 (Frame.mk 1 0 (Payload.WindowUpdate 0x01020304)) [replicate 11 0; replicate 11 0] =
    Ok ([0; 0; 4; 8; 0; 0; 0; 0; 1] ++ [1; 2; 1; 2; 3; 4]) ∧
  written 16384 (Frame.mk 0 0 (Payload.Ping [1; 2; 3; 4; 5; 6; 7; 8])) [[0; 0]; replicate 20 0] =
    Ok ([0; 0; 0; 0; 0; 0; 0; 0; 0] ++ [1; 2; 3; 4; 5; 6; 7; 8]) ∧
  written 16384 (Frame.mk 0 0 (Payload.Settings [Setting.MaxFrameSize 16384])) [[0; 0]; replicate 20 0] =
    Ok ([0; 0; 0; 0; 0; 0; 0; 0; 0] ++ [0; 5; 0; 0; 64; 0]) ∧
  written 16384 (Frame.mk 3 0 (Payload.RstStream 8)) [[0; 0]; replicate 20 0] = Panic.
Proof. repeat split; vm_compute; reflexivity. Qed.
