(* ===== verification/H2FrameRoundtrip.v ===== *)
(** What the frame decoder makes of what the frame encoder writes.

    [readable] frames are those a decoder accepts; a stream of wire images is
    decoded into the frames it was made of and leaves the decoder idle, as it
    was. *)
From S2P Require Import Prelude H2Error HpackTable Headers Parts Hpack H2Frame H2FrameDecoder.
From S2P Require Import H2FrameSegments H2FrameValid H2FrameEncoder H2FrameWriter.

(** * Integers *)

Lemma byte_at_ok x k : is_u8 (byte_at x k).
Proof. apply as_u8_range. Qed.

Lemma be32_ok x : bytes_ok (be32 x).
Proof. repeat constructor; apply byte_at_ok. Qed.

Lemma byte_at_div x k : 0 ≤ k → byte_at x k = x / 2 ^ k mod 256.
Proof. intros. unfold byte_at, as_u8. by rewrite Z.shiftr_div_pow2. Qed.

(** Big-endian digits add up. *)
Lemma digits x :
  x = x / 2 ^ 24 * 2 ^ 24 + x / 2 ^ 16 mod 256 * 2 ^ 16 + x / 2 ^ 8 mod 256 * 2 ^ 8 + x / 1 mod 256.
Proof.
  change (2 ^ 24) with (2 ^ 8 * (2 ^ 8 * 2 ^ 8)). change (2 ^ 16) with (2 ^ 8 * 2 ^ 8).
  rewrite <- !Z.div_div, Z.div_1_r by lia. change (2 ^ 8) with 256.
  pose proof (Z.div_mod x 256). pose proof (Z.div_mod (x / 256) 256).
  pose proof (Z.div_mod (x / 256 / 256) 256). lia.
Qed.

Lemma top_digit x n : 0 ≤ n → 0 ≤ x < 2 ^ (24 + n) → 0 ≤ x / 2 ^ 24 < 2 ^ n.
Proof.
  intros Hn Hx. rewrite Z.pow_add_r in Hx by lia.
  split; [apply Z.div_pos; lia|apply Z.div_lt_upper_bound; lia].
Qed.

Lemma be32_code x : is_u32 x → get_code_value (be32 x) = x.
Proof.
  intros Hx. rewrite code_value_eq by apply be32_ok. unfold at_, be32, is_u32 in *. simpl.
  rewrite !byte_at_div by lia. pose proof (top_digit x 8 ltac:(lia) Hx).
  rewrite (Z.mod_small (x / 2 ^ 24)) by lia. symmetry. apply digits.
Qed.

Lemma be32_stream_id x : 0 ≤ x < 2 ^ 31 → get_stream_id (be32 x) = x.
Proof.
  intros Hx. rewrite stream_id_eq by apply be32_ok. unfold at_, be32 in *. simpl.
  rewrite !byte_at_div by lia. pose proof (top_digit x 7 ltac:(lia) Hx).
  rewrite (Z.mod_small (x / 2 ^ 24)) by lia. rewrite (Z.mod_small (x / 2 ^ 24)) by lia.
  symmetry. apply digits.
Qed.

(** The length field of a frame header. *)
Lemma length_field x :
  0 ≤ x < 2 ^ 24 → Z.shiftl (byte_at x 16) 16 + Z.shiftl (byte_at x 8) 8 + byte_at x 0 = x.
Proof.
  intros Hx. rewrite !Z.shiftl_mul_pow2, !byte_at_div by lia. pose proof (digits x) as Hd.
  rewrite (Z.div_small x (2 ^ 24)) in Hd by lia. symmetry. exact Hd.
Qed.

(** * Readable frames *)

(** A frame a decoder with limit [mx] accepts: well formed, the flags consistent
    with the payload (no padding; a SETTINGS acknowledgement is empty). *)
Definition readable (mx : Z) (f : Frame.t) : Prop :=
  frame_wf mx f ∧ is_u8 (Frame.flags f) ∧ 0 ≤ Frame.id f < 2 ^ 31 ∧
  match Frame.payload f with
  | Payload.Data data => bytes_ok data ∧ Z.land PADDED_MASK (Frame.flags f) = 0
  | Payload.Ping data => bytes_ok data
  | Payload.Goaway _ _ debug => bytes_ok debug
  | Payload.Settings s => Z.land ACK_MASK (Frame.flags f) = ACK_MASK → s = []
  | Payload.Headers _ | Payload.PushPromise _ _ => False
  | _ => True
  end.

(** The decoder between two frames, no header block open. *)
Definition idle (d : F.t) : Prop :=
  F.stage d = StageHeader ∧ F.buffer d = [] ∧ F.offset d = 0 ∧ F.header d = FrameHeader.new ∧
  Continuations.is_end_headers (F.continuations d) = true ∧
  DEFAULT_MAX_FRAME_SIZE ≤ F.max_frame_size d ≤ MAX_ALLOWED_MAX_FRAME_SIZE.

(** * Payloads *)

Lemma setting_value_range x : setting_wf x → is_u32 (setting_value x).
Proof. destruct x as [v|[]|v|v|v|v]; simpl; unfold is_u32; lia. Qed.

Lemma split_token_setting x : setting_wf x → split_token_to_setting (setting_bytes x) = Ok (Some x).
Proof.
  intros Hx. assert (Hv : get_code_value (be32 (setting_value x)) = setting_value x)
    by by apply be32_code, setting_value_range.
  change (get_setting (Z.lor (Z.shiftl 0 8) (Setting.setting_identifier x))
    (get_code_value (be32 (setting_value x))) = Ok (Some x)). rewrite Hv.
  destruct x as [v|[]|v|v|v|v]; try done; simpl in Hx |- *.
  - unfold MAX_INITIAL_WINDOW_SIZE. by destruct (Z.ltb_spec 2147483647 v); [lia|].
  - unfold DEFAULT_MAX_FRAME_SIZE, MAX_ALLOWED_MAX_FRAME_SIZE.
    destruct (Z.leb_spec 16384 v); [|lia]. by destruct (Z.leb_spec v 16777215); [|lia].
Qed.

Lemma chunks_settings fuel s :
  (6 * length s ≤ fuel)%nat → chunks_fuel fuel 6 (s ≫= setting_bytes) = setting_bytes <$> s.
Proof.
  revert fuel. induction s as [|x s IH]; intros fuel Hf; [by destruct fuel|].
  destruct fuel as [|fuel]; [simpl in Hf; lia|]. cbn [mbind list_bind fmap list_fmap].
  change (chunks_fuel (S fuel) 6 (setting_bytes x ++ (s ≫= setting_bytes))) with
    (setting_bytes x :: chunks_fuel fuel 6 (s ≫= setting_bytes)).
  rewrite IH; [done|simpl in Hf; lia].
Qed.

Lemma settings_loop_bytes s acc :
  Forall setting_wf s → settings_loop (setting_bytes <$> s) acc = Ok (acc ++ s).
Proof.
  revert acc. induction s as [|x s IH]; intros acc Hs; [by rewrite app_nil_r|].
  apply Forall_cons_1 in Hs as [Hx Hs]. cbn [fmap list_fmap settings_loop].
  rewrite split_token_setting by done. cbn [mbind res_bind].
  etransitivity; [apply IH; done|]. by rewrite <- app_assoc.
Qed.

Lemma decode_chunks s :
  Forall setting_wf s → settings_loop (chunks 6 (s ≫= setting_bytes)) [] = Ok s.
Proof.
  intros Hs. unfold chunks. rewrite chunks_settings; [by rewrite settings_loop_bytes|].
  pose proof (len_settings s) as Hl. unfold len in Hl. lia.
Qed.

(** What is left of [x] in a byte that carries a flag in its top bit. *)
Lemma exclusive_bits (b : bool) (x : Z) :
  0 ≤ x < 128 →
  Z.land (Z.lor (if b then 128 else 0) x) 0x80 = (if b then 0x80 else 0) ∧
  Z.land (Z.lor (if b then 128 else 0) x) 0x7f = x.
Proof.
  intros Hx. assert (Hs : forallb (λ x, if x <? 128 then
    (Z.land (Z.lor 128 x) 0x80 =? 0x80) && (Z.land (Z.lor 128 x) 0x7f =? x)
    && (Z.land x 0x80 =? 0) && (Z.land x 0x7f =? x) else true) octets = true) by reflexivity.
  pose proof (forall_octets _ x Hs) as Hc. cbv beta in Hc.
  destruct (Z.ltb_spec x 128); [|lia]. unfold is_u8 in Hc. specialize (Hc ltac:(lia)).
  rewrite !andb_true_iff, !Z.eqb_eq in Hc. destruct b; [tauto|]. rewrite Z.lor_0_l. tauto.
Qed.

Section read.
Context (mx : Z) (f : Frame.t) (p : bytes) (d : F.t).
Context (Hp : payload_bytes (Frame.payload f) = Some p) (Hf : readable mx f).
Context (Ho : F.offset d = 0).
Let ty := FrameType.as_u8 (Payload.frame_type (Frame.payload f)).
Context (Hh : F.header d = FrameHeader.mk (Frame.id f) (Frame.flags f) ty (len p)).

Ltac start Hpl :=
  pose proof Hf as Hr; unfold readable, frame_wf in Hr; rewrite Hpl in Hr;
  pose proof Hp as Hpp; rewrite Hpl in Hpp; injection Hpp as Hpp;
  unfold F.decode_payload_by_type, ty; rewrite Hpl;
  cbn [Payload.frame_type FrameType.as_u8];
  unfold F.decode_data_payload, F.decode_ping_payload, F.decode_goaway_payload,
    F.decode_priority_payload, F.decode_reset_payload, F.decode_window_update_payload,
    F.decode_settings_payload, is_connection_frame; exec; rewrite Hh; cbn; rewrite ?Ho; cbn.
Ltac same_frame := destruct f as [id fl q]; cbn in *; by subst.

Lemma read_data data :
  Frame.payload f = Payload.Data data → F.decode_payload_by_type ty p d = (Ok (Complete f), d).
Proof.
  intros Hpl. start Hpl. destruct Hr as ((Hid & Hm) & Hfl & Hi & Hb & Hpad). subst p.
  destruct (Z.eqb_spec (Frame.id f) 0); [done|]. cbn. rewrite ?Ho. cbn.
  destruct (Z.eqb_spec (len data) 0) as [Hz|Hz].
  { apply len_0_nil in Hz. subst. same_frame. }
  unfold FrameHeader.is_padded. cbn. rewrite Hpad. cbn.
  pose proof (len_nonneg data). rewrite slice_ok by lia.
  unfold slice. rewrite upto_all, from_0 by lia. same_frame.
Qed.

Lemma read_ping data :
  Frame.payload f = Payload.Ping data → F.decode_payload_by_type ty p d = (Ok (Complete f), d).
Proof.
  intros Hpl. start Hpl. destruct Hr as ((Hid & Hm) & Hfl & Hi & Hb). subst p.
  rewrite Hid. cbn. rewrite ?Ho. cbn. rewrite Hm. cbn. same_frame.
Qed.

Lemma read_settings s :
  Frame.payload f = Payload.Settings s → F.decode_payload_by_type ty p d = (Ok (Complete f), d).
Proof.
  intros Hpl. start Hpl. destruct Hr as ((Hid & Hs & Hm) & Hfl & Hi & Hack). subst p.
  rewrite Hid. cbn. rewrite ?Ho. cbn. rewrite len_settings, Z.mod_mul by lia. cbn.
  unfold FrameHeader.is_ack. cbn. destruct (Z.eqb_spec (Z.land ACK_MASK (Frame.flags f)) ACK_MASK) as [Ha|].
  - specialize (Hack Ha). subst s. cbn. same_frame.
  - rewrite decode_chunks by done. same_frame.
Qed.

Lemma slice_be32 (a : bytes) x b :
  slice (len a) (len a + 4) (a ++ be32 x ++ b) = be32 x.
Proof.
  unfold slice. rewrite upto_app_ge, from_app_ge by (rewrite ?len_app; lia).
  rewrite Z.sub_diag, from_0 by lia. replace (len a + 4 - len a) with (len (be32 x)) by (change (len (be32 x)) with 4; lia).
  by apply upto_app_exact.
Qed.

Lemma read_reset code :
  Frame.payload f = Payload.RstStream code → F.decode_payload_by_type ty p d = (Ok (Complete f), d).
Proof.
  intros Hpl. start Hpl. destruct Hr as ((Hid & Hc) & Hfl & Hi & _).
  assert (Hlp : len p = 4) by by rewrite <- Hpp. rewrite Hlp.
  destruct (Z.eqb_spec (Frame.id f) 0); [done|]. cbn. rewrite ?Ho. cbn. rewrite Hlp. cbn.
  rewrite slice_ok by lia. pose proof (slice_be32 [] code []) as Hs.
  rewrite app_nil_r in Hs. change (slice 0 4 (be32 code) = be32 code) in Hs.
  rewrite <- Hpp, Hs, be32_code by done. same_frame.
Qed.

Lemma read_window_update inc :
  Frame.payload f = Payload.WindowUpdate inc →
  F.decode_payload_by_type ty p d = (Ok (Complete f), d).
Proof.
  intros Hpl. start Hpl. destruct Hr as (Hc & Hfl & Hi & _).
  assert (Hlp : len p = 4) by by rewrite <- Hpp. rewrite Hlp. cbn.
  rewrite (Z.land_comm 127). change (Z.lor _ (at_ p 3)) with (get_stream_id p).
  rewrite <- Hpp, be32_stream_id by lia. destruct (Z.eqb_spec inc 0); [lia|]. same_frame.
Qed.

Lemma read_goaway code last debug :
  Frame.payload f = Payload.Goaway code last debug →
  F.decode_payload_by_type ty p d = (Ok (Complete f), d).
Proof.
  intros Hpl. pose proof (len_nonneg debug).
  assert (Hlp : len p = 8 + len debug).
  { pose proof Hp as Hq. rewrite Hpl in Hq. injection Hq as <-. rewrite !len_cons. lia. }
  start Hpl. destruct Hr as ((Hid & Hc & Hlast & Hm) & Hfl & Hi & Hb).
  rewrite Hid. cbn. rewrite ?Ho. cbn. rewrite Hlp. cbn.
  destruct (Z.ltb_spec (8 + len debug) 8); [lia|]. cbn. rewrite !slice_ok by lia. cbn.
  change (be32 last ++ be32 code ++ debug = p) in Hpp.
  assert (slice 0 4 p = be32 last) as ->
    by (rewrite <- Hpp; exact (slice_be32 [] last (be32 code ++ debug))).
  assert (slice 4 8 p = be32 code) as ->
    by (rewrite <- Hpp; exact (slice_be32 (be32 last) code debug)).
  assert (slice 8 (8 + len debug) p = debug) as ->.
  { unfold slice. rewrite <- Hlp, upto_all by lia. rewrite <- Hpp, app_assoc.
    by apply from_app_exact. }
  rewrite be32_code, be32_stream_id by done. same_frame.
Qed.

Lemma read_priority ex dep w :
  Frame.payload f = Payload.Priority ex dep w →
  F.decode_payload_by_type ty p d = (Ok (Complete f), d).
Proof.
  intros Hpl. assert (Hlp : len p = 5).
  { pose proof Hp as Hq. rewrite Hpl in Hq. by injection Hq as <-. }
  start Hpl. destruct Hr as ((Hid & Hdep & Hw) & Hfl & Hi & _).
  rewrite Hlp. destruct (Z.eqb_spec (Frame.id f) 0); [done|]. cbn. rewrite ?Ho. cbn.
  rewrite !index_at, slice_ok by lia. cbn.
  set (x := Z.land (dep ≫ 24) 127) in Hpp.
  assert (Hx : x = byte_at dep 24 ∧ 0 ≤ x < 128).
  { unfold x. change 127 with (Z.ones 7). rewrite Z.land_ones, byte_at_div, Z.shiftr_div_pow2 by lia.
    pose proof (top_digit dep 7 ltac:(lia) Hdep). rewrite !Z.mod_small; lia. }
  destruct Hx as [Hx Hxr]. destruct (exclusive_bits ex x Hxr) as [He Hl].
  assert (get_stream_id (slice 0 4 p) = dep) as ->.
  { transitivity (get_stream_id (be32 dep)); [|by apply be32_stream_id]. unfold get_stream_id. rewrite <- Hpp.
    unfold at_. cbn [slice from upto take drop Z.to_nat]. simpl. rewrite Hl, <- Hx.
    destruct (exclusive_bits false x Hxr) as [_ Hl']. rewrite Z.lor_0_l in Hl'. by rewrite Hl'. }
  assert ((Z.land (at_ p 0) 128 =? 128) = ex) as ->.
  { rewrite <- Hpp. unfold at_. simpl. rewrite He. by destruct ex. }
  assert (at_ p 4 = w) as -> by by rewrite <- Hpp. same_frame.
Qed.

Lemma read_payload : F.decode_payload_by_type ty p d = (Ok (Complete f), d).
Proof.
  assert (∃ q, Frame.payload f = q) as [q Hpl] by eauto.
  destruct q; eauto using read_data, read_priority, read_reset, read_ping, read_settings,
    read_goaway, read_window_update; destruct Hf as (_ & _ & _ & Hno); by rewrite Hpl in Hno.
Qed.
End read.

(** * Frames *)

(** Payloads are octets and fit the limit. *)
Lemma readable_payload mx f p :
  readable mx f → payload_bytes (Frame.payload f) = Some p → DEFAULT_MAX_FRAME_SIZE ≤ mx →
  bytes_ok p ∧ len p ≤ mx.
Proof.
  unfold readable, frame_wf, DEFAULT_MAX_FRAME_SIZE. intros (Hwf & _ & _ & Hb) Hp Hmx.
  destruct (Frame.payload f) as [|data|ex dep w|code|data|s|c l debug|inc|]; try done;
    injection Hp as <-.
  - tauto.
  - split; [|unfold len; simpl; lia]. repeat first [apply Forall_nil_2 | apply Forall_cons_2]; try apply byte_at_ok;
      [|tauto]. apply lor_u8; [by destruct ex|]. change 127 with (Z.ones 7). rewrite Z.land_ones by lia.
    pose proof (Z.mod_pos_bound (dep ≫ 24) (2 ^ 7) ltac:(lia)). unfold is_u8. lia.
  - split; [apply be32_ok|unfold len; simpl; lia].
  - split; [done|]. lia.
  - rewrite len_settings. split; [|lia]. clear. induction s as [|x s IH]; [constructor|].
    cbn [mbind list_bind]. apply Forall_app. split; [|done].
    apply Forall_app. split; [|apply be32_ok]. repeat constructor; by destruct x.
  - change (bytes_ok (be32 l ++ be32 c ++ debug) ∧ len (be32 l ++ be32 c ++ debug) ≤ mx).
    rewrite !len_app, !Forall_app. change (len (be32 _)) with 4.
    repeat split; try apply be32_ok; [done|lia].
  - split; [apply be32_ok|unfold len; simpl; lia].
Qed.

(** The wire header, read. *)
Lemma header_of_bytes l ty fl id rest :
  0 ≤ l < 2 ^ 24 → 0 ≤ id < 2 ^ 31 →
  header_of (frame_header_bytes l ty fl id ++ rest) = FrameHeader.mk id fl ty l.
Proof.
  intros Hl Hid. unfold header_of.
  change (slice 5 9 (frame_header_bytes l ty fl id ++ rest)) with (be32 id).
  unfold at_. simpl. by rewrite be32_stream_id, length_field.
Qed.

(** The two turns a frame takes, whatever its payload decoder does. *)
Lemma payload_turns d ty fl id p rest k d2 :
  F.stage d = StageHeader → F.buffer d = [] → F.offset d = 0 →
  F.max_frame_size d ≤ MAX_ALLOWED_MAX_FRAME_SIZE → len p ≤ F.max_frame_size d → 0 ≤ id < 2 ^ 31 →
  let d1 := F.set_stage (F.set_header d (FrameHeader.mk id fl ty (len p))) StagePayload in
  out_of_order d1 = false → F.decode_payload_by_type ty p d1 = (Ok k, d2) → F.offset d2 = 0 →
  F.turn (frame_header_bytes (len p) ty fl id ++ p ++ rest) d = (Ok (Some (p ++ rest, None)), d1) ∧
  F.turn (p ++ rest) d1 =
    (Ok (Some (rest, Some k)), F.set_stage (F.set_header d2 FrameHeader.new) StageHeader).
Proof.
  intros Hs Hb Ho Hmx Hpl Hid d1 Hoo Hd Ho2. unfold MAX_ALLOWED_MAX_FRAME_SIZE in Hmx.
  pose proof (len_nonneg p). pose proof (len_nonneg rest). split.
  - unfold F.turn. cbv [mbind M_bind mgets]. rewrite Hs. cbv [mmodify mret M_ret].
    rewrite header_unfold by (rewrite Ho, ?Hb; done). cbv zeta.
    rewrite Ho, Z.sub_0_r, Hb, app_nil_l, !len_app.
    change (len (frame_header_bytes (len p) ty fl id)) with 9.
    destruct (Z.ltb_spec (9 + (len p + len rest)) 9); [lia|].
    rewrite header_of_bytes by lia. cbn [FrameHeader.payload_length].
    destruct (Z.ltb_spec (F.max_frame_size d) (len p)); [lia|].
    replace (clear d) with d by (unfold clear; destruct d; simpl in *; by subst). done.
  - unfold F.turn. cbv [mbind M_bind mgets]. change (F.stage d1) with StagePayload. cbv beta iota.
    rewrite payload_unfold, Hoo. change (F.offset d1) with (F.offset d).
    change (payload_length d1) with (len p). rewrite Ho. destruct (Z.leb_spec 0 (len p)); [|lia].
    cbn [negb]. cbv zeta. rewrite Z.sub_0_r, len_app.
    destruct (Z.ltb_spec (len p + len rest) (len p)); [lia|].
    rewrite upto_app_exact by done. change (frame_type d1) with ty. rewrite Hd.
    rewrite from_app_exact by done. cbv [mmodify mret M_ret].
    unfold clear_if. change (F.offset (F.set_header d2 FrameHeader.new)) with (F.offset d2).
    by rewrite Ho2.
Qed.

Section frames.
Context (d : F.t) (Hidle : idle d).

Lemma idle_fd_ok : fd_ok d.
Proof. destruct Hidle as (Hs & Hb & Ho & _). unfold fd_ok. rewrite Hs, Hb, Ho. repeat split. constructor. Qed.

Lemma idle_clear : clear d = d.
Proof. destruct Hidle as (_ & Hb & Ho & _). destruct d. simpl in *. by subst. Qed.

(** The two turns a frame takes. *)
Lemma frame_turns f T p rest :
  readable (F.max_frame_size d) f → frame_bytes f = Some T →
  payload_bytes (Frame.payload f) = Some p →
  let h := FrameHeader.mk (Frame.id f) (Frame.flags f)
    (FrameType.as_u8 (Payload.frame_type (Frame.payload f))) (len p) in
  let d1 := F.set_stage (F.set_header d h) StagePayload in
  F.turn (T ++ rest) d = (Ok (Some (p ++ rest, None)), d1) ∧
  F.turn (p ++ rest) d1 = (Ok (Some (rest, Some (Complete f))), d).
Proof.
  intros Hr HT Hp h d1. pose proof Hidle as (Hs & Hb & Ho & Hhd & Hc & Hmx).
  destruct (readable_payload _ _ _ Hr Hp (proj1 Hmx)) as [_ Hpl].
  destruct (frame_bytes_len f T p HT Hp) as [-> _]. rewrite <- app_assoc.
  pose proof Hr as (_ & _ & Hid & _).
  assert (Hd : F.set_stage (F.set_header d1 FrameHeader.new) StageHeader = d).
  { unfold d1. destruct d. simpl in *. by subst. }
  rewrite <- Hd at 2. apply payload_turns; try done; [lia| |].
  - unfold out_of_order. simpl. by rewrite Hc.
  - by apply (read_payload (F.max_frame_size d)).
Qed.

(** At the end of the input the loop stops. *)
Lemma idle_end n acc : (0 < n)%nat → F.decode_loop n [] acc d = Some (Ok acc, d).
Proof.
  intros Hn. destruct n as [|n]; [lia|]. pose proof Hidle as (Hs & Hb & Ho & _). simpl. unfold F.turn.
  cbv [mbind M_bind mgets]. rewrite Hs, header_unfold by (rewrite Ho, ?Hb; done). cbv zeta.
  rewrite Ho. change (len [] <? 9 - 0) with true. cbv iota. rewrite Hb, app_nil_l.
  change (F.set_bo d [] (0 + len [])) with (clear d). cbv [mret M_ret]. by rewrite idle_clear.
Qed.

Lemma frames_loop fs Ts acc n :
  Forall2 (λ f T, readable (F.max_frame_size d) f ∧ frame_bytes f = Some T) fs Ts →
  (2 * length fs < n)%nat →
  F.decode_loop n (concat Ts) acc d = Some (Ok (acc ++ (Complete <$> fs)), d).
Proof.
  intros HF. revert acc n. induction HF as [|f T fs Ts [Hr HT] _ IH]; intros acc n Hn.
  - cbn [concat fmap list_fmap]. rewrite app_nil_r. apply idle_end. lia.
  - destruct n as [|[|n]]; [simpl in Hn; lia..|]. cbn [concat].
    destruct (payload_bytes (Frame.payload f)) as [p|] eqn:Hp.
    2: { unfold frame_bytes in HT. by rewrite Hp in HT. }
    destruct (frame_turns f T p (concat Ts) Hr HT Hp) as [H1 H2].
    cbn [F.decode_loop]. rewrite H1. cbn [F.decode_loop option_list]. rewrite H2.
    rewrite IH by (simpl in Hn; lia). cbn [option_list fmap list_fmap].
    by rewrite app_nil_r, <- app_assoc.
Qed.

Lemma frames_decode fs Ts :
  Forall2 (λ f T, readable (F.max_frame_size d) f ∧ frame_bytes f = Some T) fs Ts →
  F.decode (concat Ts) d = (Ok (Complete <$> fs), d).
Proof.
  intros HF. unfold F.decode. rewrite (frames_loop fs Ts [] _ HF); [done|].
  unfold F.decode_fuel.
  assert (length fs ≤ length (concat Ts))%nat; [|lia].
  induction HF as [|f T fs Ts [_ HT] _ IH]; [done|]. simpl. rewrite length_app.
  destruct (payload_bytes (Frame.payload f)) as [p|] eqn:Hp.
  - destruct (frame_bytes_len f T p HT Hp) as [_ Hl]. pose proof (len_nonneg p). unfold len in *. lia.
  - unfold frame_bytes in HT. by rewrite Hp in HT.
Qed.
End frames.

(** * The two ends *)

(** Frames sent one after the other, each through a buffer of its own. *)
Fixpoint send (into_iter : Headers.t → list (HeaderName.t * HeaderValue.t))
    (jobs : list (Frame.t * bytes)) : W.enc bytes :=
  match jobs with
  | [] => mret []
  | (f, buf) :: jobs =>
      _ ← W.set_frame into_iter f;
      '(out, n) ← W.encode buf;
      rest ← send into_iter jobs;
      mret (upto n out ++ rest)
  end.

(** A job both ends accept. *)
Definition transferable (enc_max dec_max : Z) (job : Frame.t * bytes) : Prop :=
  encodable enc_max job.1 ∧ readable dec_max job.1 ∧
  match frame_bytes job.1 with Some T => len T < len job.2 | None => False end.

Lemma send_bytes into_iter jobs e dec_max :
  Forall (transferable (W.max_frame_size e) dec_max) jobs →
  ∃ Ts e', send into_iter jobs e = (Ok (concat Ts), e') ∧
    Forall2 (λ f T, readable dec_max f ∧ frame_bytes f = Some T) jobs.*1 Ts.
Proof.
  intros HF. remember (W.max_frame_size e) as mx eqn:Hmx. revert e Hmx.
  induction HF as [|[f buf] jobs (Hen & Hre & Hb) _ IH]; intros e ->.
  { exists [], e. split; [done|constructor]. }
  simpl in Hen, Hre, Hb. destruct (frame_bytes f) as [T|] eqn:HT; [|done].
  destruct (encode_one into_iter f T e buf HT Hen Hb) as (e0 & e1 & Hs & He & _ & Hm).
  destruct (IH e1 (eq_sym Hm)) as (Ts & e2 & Hr & HF2).
  exists (T :: Ts), e2. split; [|by constructor].
  cbn [send]. rewrite M_bind_eq, Hs, M_bind_eq, He. cbv beta iota. rewrite M_bind_eq, Hr.
  by rewrite upto_copy_front.
Qed.

(** A decoder reads a stream of wire images as the frames it was made of, in
    order, and is left idle, exactly as it was. *)
Theorem frame_stream_decoded d fs Ts :
  idle d →
  Forall2 (λ f T, readable (F.max_frame_size d) f ∧ frame_bytes f = Some T) fs Ts →
  F.decode (concat Ts) d = (Ok (Complete <$> fs), d).
Proof. intros Hd HF. by apply frames_decode. Qed.

Lemma new_idle : idle F.new.
Proof. repeat split; done. Qed.

Lemma frame_stream_decoded_witness :
  F.decode (concat [[0; 0; 4; 8; 0; 0; 0; 0; 1; 0; 0; 1; 0]; [0; 0; 0; 4; 1; 0; 0; 0; 0]]) F.new =
    (Ok (Complete <$> [Frame.mk 1 0 (Payload.WindowUpdate 256); Frame.settings_ack]), F.new).
Proof.
  apply (frame_stream_decoded F.new).
  - apply new_idle.
  - constructor; [|constructor; [|constructor]]; (split; [|reflexivity]).
    + split; [unfold frame_wf; simpl; lia|]. split; [unfold is_u8; simpl; lia|]. split; [simpl; lia|done].
    + split; [|split; [unfold is_u8; simpl; lia|split; [simpl; lia|done]]].
      split; [done|]. split; [constructor|]. vm_compute. discriminate.
Defined.

(** C25: Well formed frames without header blocks survive the trip: sent one after the other
    by an encoder, each through one buffer that is longer than the frame, and decoded in one
    piece by an idle decoder, they arrive unchanged and in order, and the decoder is idle
    again.  DATA is not padded and fits the [max_frame_size] of both ends, SETTINGS with ACK
    have no settings.  The conditions on the sizes are needed: DATA beyond
    [max_frame_size] is split with its first bytes repeated
    ([data_split_repeats_payload]), and control frames cut by the end of a buffer are
    written wrongly ([control_frames_cut_wrong]). *)
Theorem frame_roundtrip into_iter jobs e d :
  idle d → Forall (transferable (W.max_frame_size e) (F.max_frame_size d)) jobs →
  ∃ out e', send into_iter jobs e = (Ok out, e') ∧
    F.decode out d = (Ok (Complete <$> jobs.*1), d).
Proof.
  intros Hd Hj. destruct (send_bytes into_iter jobs e _ Hj) as (Ts & e' & Hs & HF).
  exists (concat Ts), e'. split; [done|]. by apply frames_decode.
Qed.

Lemma frame_roundtrip_witness :
  ∃ out e', send (λ h, map_to_list (Headers.map h))
      [(Frame.mk 3 1 (Payload.Data [1; 2; 3]), replicate 30 0);
       (Frame.mk 0 0 (Payload.Ping [1; 2; 3; 4; 5; 6; 7; 8]), replicate 30 0)] (W.new 16384 true) =
      (Ok out, e') ∧
    F.decode out F.new =
      (Ok [Complete (Frame.mk 3 1 (Payload.Data [1; 2; 3]));
           Complete (Frame.mk 0 0 (Payload.Ping [1; 2; 3; 4; 5; 6; 7; 8]))], F.new).
Proof.
  apply (frame_roundtrip (λ h, map_to_list (Headers.map h))
      [(Frame.mk 3 1 (Payload.Data [1; 2; 3]), replicate 30 0);
       (Frame.mk 0 0 (Payload.Ping [1; 2; 3; 4; 5; 6; 7; 8]), replicate 30 0)] (W.new 16384 true) F.new).
  - apply new_idle.
  - constructor; [|constructor; [|constructor]].
    + split; [vm_compute; discriminate|]. split; [|vm_compute; reflexivity].
      split; [split; [done|vm_compute; discriminate]|]. split; [unfold is_u8; simpl; lia|].
      split; [simpl; lia|]. split; [repeat constructor; done|reflexivity].
    + split; [split; reflexivity|]. split; [|vm_compute; reflexivity].
      split; [split; reflexivity|]. split; [unfold is_u8; simpl; lia|].
      split; [simpl; lia|]. repeat constructor; done.
Defined.
