(* ===== verification/H2HeadersRoundtrip.v ===== *)
(** HEADERS frames from one end to the other.

    A header block that does not fit a frame is carried by a HEADERS frame and
    CONTINUATION frames.  [block_frames] is the sequence of frames RFC 9113
    prescribes for a block cut into pieces of the encoder's buffer size; the
    encoder writes it, the decoder reads it, and with the HPACK round trip the
    header list arrives as it was and both dynamic tables stay equal. *)
From S2P Require Import Prelude H2Error HpackTable Headers Parts HpackReprEncoder Hpack.
From S2P Require Import HpackRoundtrip H2Frame H2FrameDecoder H2FrameSegments H2FrameValid.
From S2P Require Import H2FrameEncoder H2FrameWriter H2FrameRoundtrip.

(** * The frames of a block *)

(** [n] octets of the block to a frame; [fuel] bounds the number of frames. *)
Fixpoint cont_frames (fuel : nat) (n id : Z) (B : bytes) : list bytes :=
  match fuel with
  | O => []
  | S fuel =>
      if len B <=? n then [frame_header_bytes (len B) 9 4 id ++ B]
      else (frame_header_bytes n 9 0 id ++ upto n B) :: cont_frames fuel n id (from n B)
  end.

Definition block_frames (n id flags : Z) (B : bytes) : list bytes :=
  if len B <=? n then [frame_header_bytes (len B) 1 flags id ++ B]
  else (frame_header_bytes n 1 (Z.land flags 0xFB) id ++ upto n B)
       :: cont_frames (length B) n id (from n B).

Lemma cont_frames_count fuel n id B :
  (length (cont_frames fuel n id B) ≤ length (concat (cont_frames fuel n id B)))%nat.
Proof.
  revert B. induction fuel as [|fuel IH]; intros B; [done|]. cbn [cont_frames].
  destruct (len B <=? n); simpl; [lia|]. rewrite length_app. specialize (IH (from n B)). lia.
Qed.

Lemma block_frames_count n id flags B :
  (length (block_frames n id flags B) ≤ length (concat (block_frames n id flags B)))%nat.
Proof.
  unfold block_frames. pose proof (cont_frames_count (length B) n id (from n B)).
  destruct (len B <=? n); simpl; [lia|]. rewrite length_app. lia.
Qed.

(** The flags the receiver sees. *)
Definition block_flags (n flags : Z) (B : bytes) : Z :=
  if len B <=? n then flags else Z.land flags 0xFB.

Lemma len_header_bytes l ty fl id : len (frame_header_bytes l ty fl id) = 9.
Proof. done. Qed.

(** * The encoder *)

(** One call of the HPACK encoder into the frame encoder's buffer. *)
Lemma hpack_fill e :
  let R := he_pending (W.hpack_encoder e) in
  let N := len (W.header_payload_buffer e) in
  he_ok (W.hpack_encoder e) → 0 < N →
  ∃ h, W.hpack_encode e =
      (Ok (Z.min (len R) N),
       W.set_payload_buffer (W.set_hpack e h) (copy_front (upto N R) (W.header_payload_buffer e))) ∧
    he_ok h ∧ he_pending h = from N R ∧ he_table h = he_table (W.hpack_encoder e) ∧
    HpackEncoder.is_finished h = (len R <=? N).
Proof.
  intros R N Hok HN. unfold W.hpack_encode.
  pose proof (hpack_encode_spec (W.hpack_encoder e) N Hok HN) as H. fold N.
  destruct (HpackEncoder.encode _ N) as [[w r] h].
  destruct H as (Hp & -> & Hle & Ht & Hok' & _ & Hc). fold R in Hp, Hc.
  assert (Hfin : HpackEncoder.is_finished h = true → he_pending h = []).
  { unfold HpackEncoder.is_finished, ReprEncStateHolder.is_empty. destruct h as [tb [it st] u].
    by destruct it, st. }
  pose proof (len_nonneg w). pose proof (len_nonneg (he_pending h)).
  assert (HlR : len R = len w + len (he_pending h)) by by rewrite Hp, len_app.
  exists h. destruct (Z.leb_spec (len R) N) as [Hs|Hs].
  - specialize (Hfin Hc). rewrite Hfin, app_nil_r in Hp. rewrite <- Hp, Z.min_l by lia.
    rewrite upto_all, from_all by lia. done.
  - rewrite Z.min_r, <- Hc by lia. rewrite Hp, upto_app_exact, from_app_exact by done.
    do 4 (split; [done|]). apply not_true_is_false. intros Hf. specialize (Hfin Hf).
    rewrite Hfin, len_nil in HlR. lia.
Qed.

Section encoder.
Context (f : Frame.t) (parts : Parts.t) (N mx : Z) (tb : DynamicTable.t).
Context (Hpl : Frame.payload f = Payload.Headers parts) (HN : 0 < N ≤ mx).

(** The encoder between two frames: what the buffer's size, the limit and the
    HPACK encoder are. *)
Definition steady (e : W.t) : Prop :=
  W.max_frame_size e = mx ∧ len (W.header_payload_buffer e) = N ∧
  he_ok (W.hpack_encoder e) ∧ he_table (W.hpack_encoder e) = tb.

(** The buffer holds the next piece of [R], [i] octets of which are written. *)
Definition holds (e : W.t) (i : Z) (R : bytes) : Prop :=
  steady e ∧ W.current_frame e = Some f ∧ W.is_end_headers e = true ∧
  W.header_payload_index e = i ∧ W.remaining_header_payload e = Z.min (len R) N ∧
  upto (Z.min (len R) N) (W.header_payload_buffer e) = upto N R ∧
  he_pending (W.hpack_encoder e) = from N R ∧
  HpackEncoder.is_finished (W.hpack_encoder e) = (len R <=? N).

(** What follows a frame that carried the first piece of [R]. *)
Definition follows (e : W.t) (R : bytes) : Prop :=
  if len R <=? N then
    W.state e = HeadersComplete ∧ steady e ∧ HpackEncoder.is_finished (W.hpack_encoder e) = true
  else W.state e = EncodingContinuationFrames ∧ holds e 0 (from N R).

Lemma status_follows e R :
  holds e (Z.min (len R) N) R →
  ∃ e', W.headers_header_status e = (Ok (), e') ∧ follows e' R.
Proof.
  intros ((Hm & Hb & Hok & Ht) & Hf & Heh & Hi & Hr & Hu & Hp & Hfin).
  unfold W.headers_header_status, follows. wexec. rewrite Hi, Hr, Z.ltb_irrefl, Hfin.
  destruct (Z.leb_spec (len R) N) as [Hle|Hgt].
  - eexists. split; [reflexivity|]. unfold steady. destruct e; by simpl in *.
  - unfold W.read_rest_payload. wexec.
    set (e1 := W.set_payload_index e 0).
    assert (He1 : W.hpack_encoder e1 = W.hpack_encoder e ∧
      W.header_payload_buffer e1 = W.header_payload_buffer e) by by destruct e.
    destruct He1 as [Hh1 Hb1].
    destruct (hpack_fill e1) as (h & -> & Hok' & Hp' & Ht' & Hfin'); [by rewrite Hh1|rewrite Hb1; lia|].
    rewrite Hh1, Hb1, Hp, Hb in *. wexec. eexists. split; [reflexivity|].
    assert (Hlf : len (from N R) = len R - N) by (rewrite len_from; lia).
    split; [by destruct e|]. unfold holds, steady. subst e1. destruct e; simpl in *.
    pose proof (len_nonneg (upto N (from N R))) as Hln. unfold copy_front.
    assert (Hlu : len (upto N (from N R)) = Z.min (len (from N R)) N) by (rewrite len_upto; lia).
    split_and!; try done.
    + rewrite len_app, len_from, Hlu by lia. lia.
    + congruence.
    + rewrite <- Hlu. by apply upto_app_exact.
Qed.

(** Writing the piece in the buffer. *)
Lemma write_piece e R buf :
  holds e 0 R → Z.min (len R) N ≤ len buf →
  W.write_payload buf (Z.min (len R) N) e =
    (Ok (copy_front (upto N R) buf, Z.min (len R) N), W.set_payload_index e (Z.min (len R) N)).
Proof.
  intros ((Hm & Hb & Hok & Ht) & Hf & Heh & Hi & Hr & Hu & Hp & Hfin) Hl.
  pose proof (len_nonneg R). unfold W.write_payload. wexec. rewrite Hi. unfold sub_.
  destruct (Z.leb_spec 0 (Z.min (len R) N)); [|lia]. cbv beta iota. rewrite Z.sub_0_r, Z.min_r by lia.
  rewrite slice_ok by lia. cbv beta iota. unfold slice. rewrite Z.add_0_l, from_0, Hu by lia.
  destruct e. simpl in *. by subst.
Qed.

Lemma holds_encoded e x i R : holds e i R → holds (W.set_encoded e x) i R.
Proof. unfold holds, steady. by destruct e. Qed.
Lemma holds_index e i R : holds e 0 R → holds (W.set_payload_index e i) i R.
Proof.
  unfold holds, steady. destruct e; simpl. tauto.
Qed.

(** The first frame of [R], a HEADERS or a CONTINUATION frame. *)
Definition piece (ty flags : Z) (R : bytes) : bytes :=
  frame_header_bytes (Z.min (len R) N) ty flags (Frame.id f) ++ upto N R.

Lemma len_piece ty flags R : len (piece ty flags R) = 9 + Z.min (len R) N.
Proof. unfold piece. rewrite len_app, len_header_bytes, len_upto by lia. lia. Qed.

Lemma piece_buffers ty flags R buf :
  len (piece ty flags R) ≤ len buf →
  let H := frame_header_bytes (Z.min (len R) N) ty flags (Frame.id f) in
  upto 9 (copy_front H buf) ++ copy_front (upto N R) (from 9 (copy_front H buf)) =
    copy_front (piece ty flags R) buf.
Proof.
  intros Hl H. rewrite len_piece in Hl. change 9 with (len H).
  rewrite copy_front_app; [done|]. rewrite len_upto by lia. change (len H) with 9. lia.
Qed.

Lemma rest_len l ty fl id buf :
  9 ≤ len buf → len (from 9 (copy_front (frame_header_bytes l ty fl id) buf)) = len buf - 9.
Proof.
  intros Hb. rewrite len_from by lia. rewrite copy_front_len by (rewrite len_header_bytes; lia). lia.
Qed.

Lemma head_turn e R buf :
  W.state e = EncodingHeadersFrame → W.encoded_bytes e = 0 → holds e 0 R →
  let fl := if len R <=? N then Frame.flags f else Z.land (Frame.flags f) 0xFB in
  let P := piece 1 fl R in
  len P ≤ len buf →
  ∃ e', W.encode_headers_frame buf e = (Ok (copy_front P buf, len P), e') ∧ follows e' R.
Proof.
  intros Hs He Hh fl P Hb. pose proof Hh as ((Hm & Hbl & Hok & Ht) & Hf & Heh & Hi & Hr & Hu & Hp & Hfin).
  pose proof (len_piece 1 fl R) as Hlp. fold P in Hlp. pose proof (len_nonneg R).
  unfold W.encode_headers_frame. wexec. rewrite Hf. wexec. rewrite Hpl. wexec.
  rewrite remaining_header_small, He, Z.min_l by lia. unfold W.iterate_headers_header.
  rewrite (fill_front _ P 0); [|intros i Hi9|lia..].
  2: { unfold W.headers_header_byte. rewrite He, !Z.add_0_l. unfold P, piece.
       rewrite header_at by lia. rewrite Hfin, Hr, land_ff. fold fl.
       destruct (in_range 0 i 2) eqn:H2; [done|]. destruct (Z.eqb_spec i 3); [done|].
       destruct (Z.eqb_spec i 4); [by unfold fl; destruct (len R <=? N)|].
       destruct (in_range 5 i 8) eqn:H5; [done|]. exfalso.
       assert (¬ 0 ≤ i ≤ 2) by (rewrite <- in_range_spec; congruence).
       assert (¬ 5 ≤ i ≤ 8) by (rewrite <- in_range_spec; congruence).
       lia. }
  wexec. change (slice 0 (0 + (9 - 0)) P) with
    (frame_header_bytes (Z.min (len R) N) 1 fl (Frame.id f)). change (9 - 0) with 9.
  set (e1 := W.set_encoded e (W.encoded_bytes e + 9)).
  assert (He1 : W.encoded_bytes e1 = 9 ∧ W.remaining_header_payload e1 = Z.min (len R) N).
  { subst e1. destruct e. simpl in *. subst. done. }
  destruct He1 as [He1 Hr1]. rewrite He1, Hr1. change (9 <=? 9) with true. cbv beta iota.
  assert (Hh1 : holds e1 0 R) by by apply holds_encoded.
  rewrite (write_piece e1 R) by (done || (rewrite rest_len; lia)).
  cbv beta iota.
  match goal with |- context [W.headers_header_status ?x] => 
    destruct (status_follows x R) as (e' & -> & Hfo) end.
  { apply holds_encoded, holds_index, Hh1. }
  exists e'. split; [|done]. rewrite piece_buffers by done. by rewrite Hlp.
Qed.

Lemma cont_turn e R buf :
  W.state e = EncodingContinuationFrames → holds e 0 R →
  let P := piece 9 (if len R <=? N then 4 else 0) R in
  len P ≤ len buf →
  ∃ e', W.encode_continuation_frames buf e = (Ok (copy_front P buf, len P), e') ∧ follows e' R.
Proof.
  intros Hs Hh P Hb. pose proof Hh as ((Hm & Hbl & Hok & Ht) & Hf & Heh & Hi & Hr & Hu & Hp & Hfin).
  pose proof (len_piece 9 (if len R <=? N then 4 else 0) R) as Hlp. fold P in Hlp.
  pose proof (len_nonneg R).
  unfold W.encode_continuation_frames. wexec. rewrite Hf. wexec. rewrite Hpl. wexec.
  destruct (Z.ltb_spec (len buf) 9); [lia|]. cbv beta iota. rewrite Hr, Hm.
  replace (Z.min (Z.min (len R) N) mx) with (Z.min (len R) N) by lia.
  assert (W.continuation_header e f (Z.min (len R) N) =
    frame_header_bytes (Z.min (len R) N) 9 (if len R <=? N then 4 else 0) (Frame.id f)) as ->.
  { unfold W.continuation_header. rewrite Hr, Hm, Hfin, Heh, andb_true_r.
    destruct (Z.leb_spec (Z.min (len R) N) mx); [|lia]. cbn [andb fmap list_fmap].
    rewrite !land_ff. by destruct (len R <=? N). }
  rewrite (write_piece e R) by (done || (rewrite rest_len; lia)).
  cbv beta iota.
  match goal with |- context [W.headers_header_status ?x] =>
    destruct (status_follows x R) as (e' & -> & Hfo) end.
  { apply holds_encoded, holds_index, Hh. }
  exists e'. split; [|done]. rewrite piece_buffers by done. by rewrite Hlp.
Qed.

(** The end of the loop once the block is out. *)
Lemma complete_loop fuel buf w e :
  W.state e = HeadersComplete → W.encode_loop (S fuel) buf w e = Some (Ok (buf, w), e).
Proof. intros Hs. simpl. destruct (w <? len buf); [|done]. by rewrite Hs. Qed.

(** A CONTINUATION frame ends a call: the block is out, or the state has not
    changed. *)
Lemma cont_loop fuel buf w e R :
  W.state e = EncodingContinuationFrames → holds e 0 R →
  let P := piece 9 (if len R <=? N then 4 else 0) R in
  0 ≤ w → len P ≤ len buf - w →
  ∃ e', W.encode_loop (S (S fuel)) buf w e =
      Some (Ok (upto w buf ++ copy_front P (from w buf), w + len P), e') ∧ follows e' R.
Proof.
  intros Hs Hh P Hw Hb. pose proof (len_piece 9 (if len R <=? N then 4 else 0) R) as Hlp. fold P in Hlp.
  pose proof (len_nonneg R).
  destruct (cont_turn e R (from w buf) Hs Hh) as (e' & He & Hfo).
  { fold P. rewrite len_from by lia. lia. }
  fold P in He. exists e'. split; [|done]. cbn [W.encode_loop].
  destruct (Z.ltb_spec w (len buf)); [|lia]. rewrite Hs. cbn [W.part]. rewrite He. cbv zeta.
  unfold follows in Hfo. destruct (len R <=? N).
  - destruct Hfo as (Hc & _). rewrite bool_decide_false by congruence. by apply complete_loop.
  - destruct Hfo as (Hc & _). by rewrite bool_decide_true.
Qed.

Lemma cont_call buf e R :
  W.state e = EncodingContinuationFrames → holds e 0 R →
  let P := piece 9 (if len R <=? N then 4 else 0) R in
  len P ≤ len buf →
  ∃ e', W.encode buf e = (Ok (copy_front P buf, len P), e') ∧ follows e' R.
Proof.
  intros Hs Hh P Hb.
  destruct (cont_loop (2 + 2 * length buf) buf 0 e R Hs Hh) as (e' & He & Hfo); [lia|fold P; lia|].
  exists e'. split; [|done]. unfold W.encode. change (W.encode_fuel buf) with (S (S (2 + 2 * length buf))).
  rewrite He. fold P. by rewrite from_0.
Qed.

(** A call that starts with the HEADERS frame writes the frame and, when the
    block goes on, the first CONTINUATION frame. *)
Lemma head_call buf e R :
  W.state e = EncodingHeadersFrame → W.encoded_bytes e = 0 → holds e 0 R → 2 * (9 + N) ≤ len buf →
  let fl := if len R <=? N then Frame.flags f else Z.land (Frame.flags f) 0xFB in
  ∃ e', if len R <=? N then
      W.encode buf e = (Ok (copy_front (piece 1 fl R) buf, len (piece 1 fl R)), e') ∧ follows e' R
    else
      let P := piece 1 fl R ++ piece 9 (if len (from N R) <=? N then 4 else 0) (from N R) in
      W.encode buf e = (Ok (copy_front P buf, len P), e') ∧ follows e' (from N R).
Proof.
  intros Hs Hz Hh Hb fl. set (P1 := piece 1 fl R). pose proof (len_piece 1 fl R) as Hl1. fold P1 in Hl1.
  pose proof (len_nonneg R).
  destruct (head_turn e R buf Hs Hz Hh) as (e1 & He & Hfo); [fold fl; fold P1; lia|].
  fold fl in He. fold P1 in He.
  assert (Hstep : ∀ fuel, W.encode_loop (S fuel) buf 0 e =
    (if bool_decide (W.state e1 = W.state e) then Some (Ok (copy_front P1 buf, len P1), e1)
     else W.encode_loop fuel (copy_front P1 buf) (len P1) e1)).
  { intros fuel. cbn [W.encode_loop]. destruct (Z.ltb_spec 0 (len buf)); [|lia].
    rewrite Hs. cbn [W.part]. rewrite from_0, He by lia. cbv zeta. by rewrite upto_0. }
  unfold W.encode. change (W.encode_fuel buf) with (S (S (S (1 + 2 * length buf)))).
  rewrite Hstep. unfold follows in Hfo. destruct (Z.leb_spec (len R) N) as [Hle|Hgt].
  - destruct Hfo as (Hc & Hrest). exists e1. rewrite bool_decide_false by congruence.
    rewrite complete_loop by done. split; [done|]. unfold follows.
    destruct (Z.leb_spec (len R) N); [done|lia].
  - destruct Hfo as (Hc & Hh1). rewrite bool_decide_false by congruence.
    set (P2 := piece 9 _ _). pose proof (len_piece 9 (if len (from N R) <=? N then 4 else 0) (from N R)) as Hl2.
    fold P2 in Hl2.
    assert (Hroom : len P1 + len P2 ≤ len buf) by lia.
    destruct (cont_loop (1 + 2 * length buf) (copy_front P1 buf) (len P1) e1 (from N R) Hc Hh1)
      as (e2 & -> & Hf2); [lia|fold P2; rewrite copy_front_len; lia|].
    exists e2. split; [|done]. fold P2. cbn [default]. rewrite copy_front_app by done.
    by rewrite len_app.
Qed.

Definition complete (e : W.t) : Prop :=
  W.state e = HeadersComplete ∧ steady e ∧ HpackEncoder.is_finished (W.hpack_encoder e) = true.

Lemma complete_calls bufs e : W.state e = HeadersComplete → encode_buffers bufs e = (Ok [], e).
Proof.
  intros Hs. induction bufs as [|buf bufs IH]; [done|]. simpl. unfold W.encode.
  change (W.encode_fuel buf) with (S (3 + 2 * length buf)). rewrite complete_loop by done.
  simpl. by rewrite IH.
Qed.

Lemma last_piece ty flags R :
  len R ≤ N → piece ty flags R = frame_header_bytes (len R) ty flags (Frame.id f) ++ R.
Proof. intros. unfold piece. by rewrite Z.min_l, upto_all by lia. Qed.
Lemma full_piece ty flags R :
  N < len R → piece ty flags R = frame_header_bytes N ty flags (Frame.id f) ++ upto N R.
Proof. intros. unfold piece. by rewrite Z.min_r by lia. Qed.

Lemma cont_calls fuel R bufs e :
  W.state e = EncodingContinuationFrames → holds e 0 R → (length R < fuel)%nat →
  Forall (λ b, 9 + N ≤ len b) bufs →
  (length (cont_frames fuel N (Frame.id f) R) ≤ length bufs)%nat →
  ∃ e', encode_buffers bufs e = (Ok (concat (cont_frames fuel N (Frame.id f) R)), e') ∧ complete e'.
Proof.
  revert R bufs e. induction fuel as [|fuel IH]; intros R bufs e Hs Hh Hf Hb Hn; [lia|].
  destruct Hb as [|buf bufs Hl Hb]; [cbn [cont_frames] in Hn; destruct (len R <=? N); simpl in Hn; lia|].
  pose proof (len_nonneg R).
  destruct (cont_call buf e R Hs Hh) as (e1 & He & Hfo); [rewrite len_piece; lia|].
  cbn [encode_buffers]. rewrite He. cbn [cont_frames] in Hn |- *. unfold follows in Hfo.
  destruct (Z.leb_spec (len R) N) as [Hle|Hgt].
  - destruct Hfo as (Hc & Hst & Hfin). rewrite complete_calls by done. exists e1. split; [|done].
    rewrite upto_copy_front, last_piece by lia. cbn [concat]. done.
  - destruct Hfo as (Hc & Hh1).
    destruct (IH (from N R) bufs e1 Hc Hh1) as (e2 & -> & Hdone); [|done|simpl in Hn; lia|].
    { unfold from, len in *. rewrite length_drop. lia. }
    exists e2. split; [|done]. rewrite upto_copy_front, full_piece by lia. done.
Qed.

Lemma block_calls R bufs e :
  W.state e = EncodingHeadersFrame → W.encoded_bytes e = 0 → holds e 0 R →
  Forall (λ b, 2 * (9 + N) ≤ len b) bufs →
  (length (block_frames N (Frame.id f) (Frame.flags f) R) ≤ length bufs)%nat →
  ∃ e', encode_buffers bufs e =
      (Ok (concat (block_frames N (Frame.id f) (Frame.flags f) R)), e') ∧ complete e'.
Proof.
  intros Hs Hz Hh Hb Hn. unfold block_frames in *.
  destruct Hb as [|buf bufs Hl Hb]; [destruct (len R <=? N); simpl in Hn; lia|]. pose proof (len_nonneg R).
  destruct (head_call buf e R Hs Hz Hh Hl) as (e1 & Hcall). cbn [encode_buffers].
  destruct (Z.leb_spec (len R) N) as [Hle|Hgt].
  - destruct Hcall as [-> Hfo]. unfold follows in Hfo.
    destruct (Z.leb_spec (len R) N); [|lia]. destruct Hfo as (Hc & Hst & Hfin).
    rewrite complete_calls by done. exists e1. split; [|done].
    rewrite upto_copy_front, last_piece by lia. done.
  - destruct Hcall as [-> Hfo]. cbv zeta. rewrite upto_copy_front.
    assert (Hlen : (0 < length R)%nat) by (unfold len in *; lia).
    destruct (length R) as [|fuel] eqn:HlR; [lia|]. cbn [cont_frames concat] in Hn |- *.
    assert (HlR' : (length (from N R) ≤ fuel)%nat).
    { unfold from, len in *. rewrite length_drop. lia. }
    unfold follows in Hfo. rewrite full_piece by lia.
    destruct (Z.leb_spec (len (from N R)) N) as [Hle2|Hgt2].
    + destruct Hfo as (Hc & Hst & Hfin). rewrite complete_calls by done. exists e1.
      split; [|done]. rewrite last_piece by lia. cbn [concat]. by rewrite <- !app_assoc, !app_nil_r.
    + destruct Hfo as (Hc & Hh1).
      destruct (cont_calls fuel (from N (from N R)) bufs e1 Hc Hh1) as (e2 & -> & Hd).
      * unfold from, len in *. rewrite length_drop. lia.
      * eapply Forall_impl; [|exact Hb]. simpl. lia.
      * simpl in Hn. lia.
      * exists e2. split; [|done]. rewrite full_piece by lia. cbn [concat].
        by rewrite <- !app_assoc.
Qed.
End encoder.

(** The fields of a header list, in the order the encoder takes them. *)
Abbreviation fields_of into_iter parts := (items (PartsIter.new into_iter parts)).

Lemma set_headers into_iter id fl parts e N :
  let h := W.hpack_encoder e in
  let f := Frame.mk id fl (Payload.Headers parts) in
  FrameFlags.is_end_headers fl = true → HpackEncoder.is_finished h = true →
  dyn_ok (HpackEncoder.table h) → len (W.header_payload_buffer e) = N → 0 < N →
  Forall (field_fits (HpackEncoder.use_huffman h)) (fields_of into_iter parts) →
  let B := fields_bytes (HpackEncoder.use_huffman h) (HpackEncoder.table h) (fields_of into_iter parts) in
  let tb := fields_table (HpackEncoder.use_huffman h) (HpackEncoder.table h) (fields_of into_iter parts) in
  ∃ e0, W.set_frame into_iter f e = (Ok (), e0) ∧ W.state e0 = EncodingHeadersFrame ∧
    W.encoded_bytes e0 = 0 ∧ holds f N (W.max_frame_size e) tb e0 0 B.
Proof.
  intros h f Heh Hfin Hdyn HbN HN Hfit B tb.
  destruct (set_parts_spec into_iter h parts Hfin Hdyn Hfit) as (Hok & Hp & Ht).
  fold B in Hp. fold tb in Ht. unfold W.set_frame. wexec. cbn [Frame.payload Frame.flags f].
  set (e1 := W.set_encoded _ 0).
  assert (He1 : W.is_end_headers e1 = true ∧ W.hpack_encoder e1 = h ∧ W.encoded_bytes e1 = 0 ∧
    W.header_payload_buffer e1 = W.header_payload_buffer e ∧ W.current_frame e1 = Some f ∧
    W.max_frame_size e1 = W.max_frame_size e) by (subst e1 h; destruct e; simpl in *; done).
  destruct He1 as (He1 & Hh1 & Hz1 & Hb1 & Hf1 & Hm1). rewrite He1. cbn [negb].
  cbv beta iota zeta. rewrite Hh1.
  set (e2 := W.set_payload_index (W.set_hpack e1 (HpackEncoder.set_parts into_iter h parts)) 0).
  assert (He2 : W.hpack_encoder e2 = HpackEncoder.set_parts into_iter h parts ∧
    W.header_payload_buffer e2 = W.header_payload_buffer e1) by (subst e2; by destruct e1).
  destruct He2 as [Hh2 Hb2].
  destruct (hpack_fill e2) as (h' & -> & Hok' & Hp' & Ht' & Hfin'); [by rewrite Hh2|rewrite Hb2, Hb1; lia|].
  rewrite Hh2, Hb2, Hb1, Hp, Ht, HbN in *. cbv beta iota zeta.
  eexists. split; [reflexivity|].
  assert (Hlu : len (upto N B) = Z.min (len B) N) by (rewrite len_upto by lia; lia).
  subst e2. clearbody e1. unfold holds, steady, copy_front. destruct e1; simpl in *.
  split_and!; try done.
  - rewrite len_app, len_from, Hlu by (rewrite Hlu; pose proof (len_nonneg B); lia). lia.
  - rewrite <- Hlu. by apply upto_app_exact.
Qed.

(** * The decoder *)

(** A decoder between frames, with its HPACK decoder and its open block. *)
Definition between (mx : Z) (hp : HpackDecoder.t) (c : Continuations.t) : F.t :=
  F.mk [] 0 mx StageHeader FrameHeader.new hp c.

(** The open block of a HEADERS frame without END_HEADERS. *)
Definition opened (id flags : Z) : Continuations.t :=
  Continuations.mk flags (Z.land END_STREAM_MASK flags =? END_STREAM_MASK) id false 0.

Lemma idle_between d :
  idle d → F.continuations d = Continuations.new →
  d = between (F.max_frame_size d) (F.hpack d) Continuations.new.
Proof.
  intros (Hs & Hb & Ho & Hh & _ & _) Hc. destruct d. simpl in *. by subst.
Qed.

Lemma between_idle mx hp :
  DEFAULT_MAX_FRAME_SIZE ≤ mx ≤ MAX_ALLOWED_MAX_FRAME_SIZE → idle (between mx hp Continuations.new).
Proof. intros [H1 H2]. by split_and!. Qed.

(** The decoder in the payload stage of a frame. *)
Definition reading (mx : Z) (hp : HpackDecoder.t) (c : Continuations.t) (h : FrameHeader.t) : F.t :=
  F.mk [] 0 mx StagePayload h hp c.

Section payloads.
Context (mx id fl : Z) (p : bytes) (hp hp1 : HpackDecoder.t) (c : Continuations.t).
Context (Hid : id ≠ 0) (Hdec : D.decode p hp = (Ok (), hp1)).

Lemma feed_hpack c' h : F.hpack_decode p (reading mx hp c' h) = (Ok (), reading mx hp1 c' h).
Proof. unfold F.hpack_decode. change (F.hpack (reading mx hp c' h)) with hp. by rewrite Hdec. Qed.

Lemma finish_hpack c' h parts hp2 :
  D.finish hp1 = (Ok parts, hp2) →
  F.hpack_finish (reading mx hp1 c' h) = (Ok parts, reading mx hp2 c' h).
Proof.
  intros Hf. unfold F.hpack_finish. change (F.hpack (reading mx hp1 c' h)) with hp1. by rewrite Hf.
Qed.

Ltac block_start :=
  unfold F.decode_payload_by_type, F.decode_headers_payload, F.decode_continuation_payload,
    is_connection_frame; exec; destruct (Z.eqb_spec id 0); [done|]; cbn;
  unfold F.fragment_bounds, FrameHeader.is_padded, FrameHeader.is_headers_priority,
    FrameHeader.is_end_headers, FrameHeader.is_end_stream; cbn.

Lemma read_cont_end parts hp2 flags :
  c = opened id flags → Z.land END_HEADERS_MASK fl = END_HEADERS_MASK →
  D.finish hp1 = (Ok parts, hp2) →
  F.decode_payload_by_type 9 p (reading mx hp c (FrameHeader.mk id fl 9 (len p))) =
    (Ok (Complete (Frame.mk id flags (Payload.Headers parts))),
     reading mx hp2 Continuations.new (FrameHeader.mk id fl 9 (len p))).
Proof.
  intros -> Heh Hfin. block_start. rewrite Heh. cbn. rewrite feed_hpack.
  by rewrite (finish_hpack _ _ _ _ Hfin).
Qed.

Lemma read_cont_open :
  Z.land END_HEADERS_MASK fl = 0 →
  F.decode_payload_by_type 9 p (reading mx hp c (FrameHeader.mk id fl 9 (len p))) =
    (Ok Partial, reading mx hp1 c (FrameHeader.mk id fl 9 (len p))).
Proof. intros Heh. block_start. rewrite Heh. cbn. by rewrite feed_hpack. Qed.

Context (Hpad : Z.land PADDED_MASK fl = 0) (Hpri : Z.land HEADERS_PRIORITY_MASK fl = 0).

Lemma read_headers_end parts hp2 :
  Z.land END_HEADERS_MASK fl = END_HEADERS_MASK → D.finish hp1 = (Ok parts, hp2) →
  F.decode_payload_by_type 1 p (reading mx hp c (FrameHeader.mk id fl 1 (len p))) =
    (Ok (Complete (Frame.mk id fl (Payload.Headers parts))),
     reading mx hp2 c (FrameHeader.mk id fl 1 (len p))).
Proof.
  intros Heh Hfin. pose proof (len_nonneg p). block_start. rewrite Hpad, Hpri, Heh. cbn.
  destruct (Z.ltb_spec (len p) 0); [lia|]. rewrite slice_ok by lia. cbn.
  unfold slice. rewrite upto_all, from_0 by lia. rewrite feed_hpack.
  by rewrite (finish_hpack _ _ _ _ Hfin).
Qed.

Lemma read_headers_open :
  c = Continuations.new → Z.land END_HEADERS_MASK fl = 0 →
  F.decode_payload_by_type 1 p (reading mx hp c (FrameHeader.mk id fl 1 (len p))) =
    (Ok Partial, reading mx hp1 (opened id fl) (FrameHeader.mk id fl 1 (len p))).
Proof.
  intros -> Heh. pose proof (len_nonneg p). block_start. rewrite Hpad, Hpri, Heh. cbn.
  destruct (Z.ltb_spec (len p) 0); [lia|]. rewrite slice_ok by lia. cbn.
  unfold slice. rewrite upto_all, from_0 by lia.
  change (F.set_cont _ _) with (reading mx hp (opened id fl) (FrameHeader.mk id fl 1 (len p))).
  by rewrite feed_hpack.
Qed.
End payloads.

Lemma split_block N B hp hpB :
  D.decode B hp = (Ok (), hpB) →
  ∃ hp1, D.decode (upto N B) hp = (Ok (), hp1) ∧ D.decode (from N B) hp1 = (Ok (), hpB).
Proof.
  intros H. rewrite <- (upto_from N B), hpack_decode_app in H. unfold mbind, M_bind in H.
  destruct (D.decode (upto N B) hp) as [[[]|e|] hp1]; [|done..]. by exists hp1.
Qed.

Section decoder.
Context (N mx id : Z) (HN : 0 < N ≤ mx) (Hid : 0 < id < 2 ^ 31).
Context (Hmx : DEFAULT_MAX_FRAME_SIZE ≤ mx ≤ MAX_ALLOWED_MAX_FRAME_SIZE).
Context (hpB hp' : HpackDecoder.t) (parts : Parts.t) (Hfin : D.finish hpB = (Ok parts, hp')).

(** One frame of a block, read by the loop. *)
Lemma loop_frame n ty fl p rest acc hp hp1 c c1 k :
  (ty = 9 ∧ Continuations.stream_id c = id ∨ Continuations.is_end_headers c = true) →
  len p ≤ mx →
  F.decode_payload_by_type ty p (reading mx hp c (FrameHeader.mk id fl ty (len p))) =
    (Ok k, reading mx hp1 c1 (FrameHeader.mk id fl ty (len p))) →
  F.decode_loop (S (S n)) ((frame_header_bytes (len p) ty fl id ++ p) ++ rest) acc (between mx hp c) =
    F.decode_loop n rest (acc ++ [k]) (between mx hp1 c1).
Proof.
  intros Hc Hl Hd. destruct Hmx as [_ Hmx'].
  destruct (payload_turns (between mx hp c) ty fl id p rest k
    (reading mx hp1 c1 (FrameHeader.mk id fl ty (len p)))) as [H1 H2]; try done; [lia| |].
  { unfold out_of_order. simpl. destruct Hc as [[-> ->]| ->]; [|done].
    rewrite Z.eqb_refl. by rewrite andb_false_r. }
  rewrite <- app_assoc. cbn [F.decode_loop]. rewrite H1. cbn [option_list]. rewrite H2.
  by rewrite app_nil_r.
Qed.

Lemma cont_decoded fuel flags R hp acc n :
  (length R < fuel)%nat → D.decode R hp = (Ok (), hpB) →
  let Fs := cont_frames fuel N id R in
  (2 * length Fs < n)%nat →
  F.decode_loop n (concat Fs) acc (between mx hp (opened id flags)) =
    Some (Ok (acc ++ replicate (length Fs - 1) Partial ++
                [Complete (Frame.mk id flags (Payload.Headers parts))]),
          between mx hp' Continuations.new).
Proof.
  revert R hp acc n. induction fuel as [|fuel IH]; intros R hp acc n Hf Hd Fs Hn; [lia|].
  subst Fs. cbn [cont_frames] in *. destruct n as [|[|n]]; [destruct (len R <=? N); simpl in Hn; lia..|].
  destruct (Z.leb_spec (len R) N) as [Hle|Hgt]; cbn [concat].
  - rewrite (loop_frame n 9 4 R [] acc hp hp' (opened id flags) Continuations.new
      (Complete (Frame.mk id flags (Payload.Headers parts)))).
    + apply idle_end; [by apply between_idle|simpl in Hn; lia].
    + by left.
    + lia.
    + apply (read_cont_end mx id 4 R hp hpB (opened id flags)); (done || lia).
  - destruct (split_block N R hp hpB Hd) as (hp1 & H1 & H2).
    assert (Hlu : len (upto N R) = N) by (rewrite len_upto by lia; lia). rewrite <- Hlu at 1.
    rewrite (loop_frame n 9 0 (upto N R) _ acc hp hp1 (opened id flags) (opened id flags) Partial).
    + rewrite (IH (from N R) hp1 (acc ++ [Partial])); [| |done|simpl in Hn; lia].
      * assert (Hne : (0 < length (cont_frames fuel N id (from N R)))%nat).
        { destruct fuel; [unfold len in *; lia|]. simpl. destruct (_ <=? N); simpl; lia. }
        cbn [length]. replace (S (length (cont_frames fuel N id (from N R))) - 1)%nat with
          (S (length (cont_frames fuel N id (from N R)) - 1)) by lia.
        cbn [replicate]. by rewrite <- app_assoc.
      * unfold from, len in *. rewrite length_drop. lia.
    + by left.
    + lia.
    + apply (read_cont_open mx id 0 (upto N R) hp hp1); (done || lia).
Qed.

Lemma block_decoded flags B hp :
  D.decode B hp = (Ok (), hpB) → Z.land END_HEADERS_MASK flags = END_HEADERS_MASK →
  Z.land PADDED_MASK flags = 0 → Z.land HEADERS_PRIORITY_MASK flags = 0 →
  let Fs := block_frames N id flags B in
  F.decode (concat Fs) (between mx hp Continuations.new) =
    (Ok (replicate (length Fs - 1) Partial ++
         [Complete (Frame.mk id (block_flags N flags B) (Payload.Headers parts))]),
     between mx hp' Continuations.new).
Proof.
  intros Hd Heh Hpad Hpri Fs. unfold F.decode, F.decode_fuel.
  pose proof (block_frames_count N id flags B) as Hcount. fold Fs in Hcount.
  assert (Hloop : ∀ n, (2 * length Fs < n)%nat →
    F.decode_loop n (concat Fs) [] (between mx hp Continuations.new) =
      Some (Ok (replicate (length Fs - 1) Partial ++
              [Complete (Frame.mk id (block_flags N flags B) (Payload.Headers parts))]),
            between mx hp' Continuations.new)); [|by rewrite Hloop by lia].
  clear Hcount. intros n Hn. subst Fs. unfold block_frames, block_flags in *.
  destruct n as [|[|n]]; [destruct (len B <=? N); simpl in Hn; lia..|].
  destruct (Z.leb_spec (len B) N) as [Hle|Hgt]; cbn [concat].
  - rewrite (loop_frame n 1 flags B [] [] hp hp' Continuations.new Continuations.new
      (Complete (Frame.mk id flags (Payload.Headers parts)))).
    + apply idle_end; [by apply between_idle|simpl in Hn; lia].
    + by right.
    + lia.
    + apply (read_headers_end mx id flags B hp hpB); (done || lia).
  - destruct (split_block N B hp hpB Hd) as (hp1 & H1 & H2).
    assert (Hmask : ∀ m, Z.land m (Z.land flags 0xFB) = Z.land (Z.land m 0xFB) flags).
    { intros m. by rewrite (Z.land_comm flags), Z.land_assoc. }
    assert (Hlu : len (upto N B) = N) by (rewrite len_upto by lia; lia). rewrite <- Hlu at 1.
    rewrite (loop_frame n 1 (Z.land flags 0xFB) (upto N B) _ [] hp hp1 Continuations.new
      (opened id (Z.land flags 0xFB)) Partial).
    + rewrite (cont_decoded (length B) _ (from N B) hp1); [| |done|simpl in Hn; lia].
      * assert (Hne : (0 < length (cont_frames (length B) N id (from N B)))%nat).
        { destruct (length B) eqn:HlB; [unfold len in *; lia|]. simpl.
          destruct (_ <=? N); simpl; lia. }
        cbn [length]. replace (S (length (cont_frames (length B) N id (from N B))) - 1)%nat with
          (S (length (cont_frames (length B) N id (from N B)) - 1)) by lia. done.
      * unfold from, len in *. rewrite length_drop. lia.
    + by right.
    + lia.
    + apply (read_headers_open mx id _ (upto N B) hp hp1); try done; try lia.
      * by rewrite Hmask.
      * by rewrite Hmask.
Qed.
End decoder.

(** * The two ends *)

(** An encoder and a decoder between frames whose HPACK contexts agree. *)
Definition synced (e : W.t) (d : F.t) : Prop :=
  idle d ∧ F.continuations d = Continuations.new ∧
  HpackEncoder.is_finished (W.hpack_encoder e) = true ∧
  dyn_ok (HpackEncoder.table (W.hpack_encoder e)) ∧
  D.table (F.hpack d) = HpackEncoder.table (W.hpack_encoder e) ∧
  D.holder (F.hpack d) = None ∧ D.parts (F.hpack d) = Parts.new ∧ D.header_size (F.hpack d) = 0 ∧
  0 < len (W.header_payload_buffer e) ≤ W.max_frame_size e ∧
  len (W.header_payload_buffer e) ≤ F.max_frame_size d.

(** A HEADERS frame the encoder sends and the decoder accepts. *)
Definition headers_ok (into_iter : Headers.t → list (HeaderName.t * HeaderValue.t)) (id flags : Z)
    (parts : Parts.t) (e : W.t) (d : F.t) : Prop :=
  let h := W.hpack_encoder e in
  let fields := fields_of into_iter parts in
  0 < id < 2 ^ 31 ∧ Z.land END_HEADERS_MASK flags = END_HEADERS_MASK ∧
  Z.land PADDED_MASK flags = 0 ∧ Z.land HEADERS_PRIORITY_MASK flags = 0 ∧
  lines_wf (Parts.map parts) ∧ Forall (field_sendable (HpackEncoder.use_huffman h)) fields ∧
  name_only_free (HpackEncoder.use_huffman h) (HpackEncoder.table h) fields = true ∧
  queue_size fields ≤ D.header_list_size (F.hpack d).

Definition header_block (into_iter : Headers.t → list (HeaderName.t * HeaderValue.t))
    (parts : Parts.t) (e : W.t) : bytes :=
  let h := W.hpack_encoder e in
  fields_bytes (HpackEncoder.use_huffman h) (HpackEncoder.table h) (fields_of into_iter parts).

(** C10: A HEADERS frame survives the trip between an encoder and an idle decoder with equal
    dynamic tables: the encoder writes it as a HEADERS frame and as many CONTINUATION frames
    as the header block needs; the decoder, given all of it in one piece, hands out a partial
    frame for all but the last and then the frame with the same header list; and the two
    ends are again between frames with equal dynamic tables, ready for the next block.
    Conditions: every buffer holds two full frames, [2 * (9 + N)] bytes for a payload buffer
    of [N]; END_HEADERS is set, PADDED and PRIORITY are not; the lines are well formed
    and the list is within the decoder's limit on its size; and no field is found in the
    dynamic table by its name alone, where the encoder sends another field
    ([table_search_name_only]). *)
Theorem headers_roundtrip into_iter id flags parts e d bufs :
  (∀ h, into_iter h ≡ₚ map_to_list (Headers.map h)) →
  synced e d → headers_ok into_iter id flags parts e d →
  let N := len (W.header_payload_buffer e) in
  let B := header_block into_iter parts e in
  let Fs := block_frames N id flags B in
  Forall (λ b, 2 * (9 + N) ≤ len b) bufs → (length Fs ≤ length bufs)%nat →
  ∃ e0 e' p' d',
    W.set_frame into_iter (Frame.mk id flags (Payload.Headers parts)) e = (Ok (), e0) ∧
    encode_buffers bufs e0 = (Ok (concat Fs), e') ∧ W.state e' = HeadersComplete ∧
    F.decode (concat Fs) d =
      (Ok (replicate (length Fs - 1) Partial ++
           [Complete (Frame.mk id (block_flags N flags B) (Payload.Headers p'))]), d') ∧
    same_parts p' parts ∧ synced e' d'.
Proof.
  intros Hit (Hidle & Hcont & Hfin & Hdyn & Htab & Hho & Hpa & Hhs & HN & HNd)
    (Hid & Heh & Hpad & Hpri & Hwf & Hsend & Hfree & Hsz) N B Fs Hb Hn.
  destruct (updates_items (E := H2Error) into_iter parts Hit Hwf) as (p' & Hup & Hsame).
  destruct (set_headers into_iter id flags parts e N) as (e0 & Hset & Hs0 & Hz0 & Hh0); try done.
  { unfold FrameFlags.is_end_headers. by rewrite Z.land_comm, Heh. }
  { lia. }
  { eapply Forall_impl; [apply sendable_fits|exact Hsend]. }
  destruct (block_calls (Frame.mk id flags (Payload.Headers parts)) parts N (W.max_frame_size e)
    _ eq_refl HN B bufs e0 Hs0 Hz0 Hh0 Hb Hn) as (e' & He' & Hs' & (Hm' & Hb' & Hok' & Ht') & Hf').
  cbn [Frame.id Frame.flags] in He'. fold Fs in He'.
  pose proof (fields_decode (HpackEncoder.use_huffman (W.hpack_encoder e))
    (fields_of into_iter parts) (F.hpack d) p' Hho) as Hdec.
  rewrite Htab, Hpa, Hhs, Z.add_0_l in Hdec.
  specialize (Hdec Hdyn Hsend Hfree Hsz Hup).
  match type of Hdec with _ = (_, ?x) => set (hpB := x) in Hdec end.
  exists e0, e', p', (between (F.max_frame_size d) (D.finish hpB).2 Continuations.new).
  pose proof Hidle as (_ & _ & _ & _ & _ & Hmx). split_and!; try done.
  - rewrite (idle_between d Hidle Hcont) at 1.
    by apply (block_decoded N (F.max_frame_size d) id ltac:(lia) Hid Hmx hpB (D.finish hpB).2 p').
  - rewrite (finished_table _ Hf') in Ht'. unfold synced.
    split_and!; try done; try lia; try apply Hmx; [apply Hok'|simpl; lia].
Qed.

Lemma new_synced : synced (W.new 16384 false) F.new.
Proof.
  unfold synced. split_and!; try done; try (vm_compute; done).
Qed.

Lemma headers_roundtrip_witness :
  ∃ e0 e' p' d',
    W.set_frame (λ h, map_to_list (Headers.map h)) (Frame.mk 1 5 (Payload.Headers sample_parts))
      (W.new 16384 false) = (Ok (), e0) ∧
    encode_buffers [replicate (Z.to_nat 32786) 0] e0 =
      (Ok [0; 0; 11; 1; 5; 0; 0; 0; 1;
           0x82; 0x44; 0x02; 0x2f; 0x78; 0x53; 0x04; 0x61; 0x2c; 0x20; 0x62], e') ∧
    W.state e' = HeadersComplete ∧
    F.decode [0; 0; 11; 1; 5; 0; 0; 0; 1;
              0x82; 0x44; 0x02; 0x2f; 0x78; 0x53; 0x04; 0x61; 0x2c; 0x20; 0x62] F.new =
      (Ok [Complete (Frame.mk 1 5 (Payload.Headers p'))], d') ∧
    same_parts p' sample_parts ∧ synced e' d'.
Proof.
  remember (W.new 16384 false) as e eqn:He.
  assert (HF : block_frames (len (W.header_payload_buffer e)) 1 5
    (header_block (λ h, map_to_list (Headers.map h)) sample_parts e) =
    [[0; 0; 11; 1; 5; 0; 0; 0; 1;
      0x82; 0x44; 0x02; 0x2f; 0x78; 0x53; 0x04; 0x61; 0x2c; 0x20; 0x62]])
    by (rewrite He; vm_compute; reflexivity).
  assert (Hfl : block_flags (len (W.header_payload_buffer e)) 5
    (header_block (λ h, map_to_list (Headers.map h)) sample_parts e) = 5)
    by (rewrite He; vm_compute; reflexivity).
  pose proof (headers_roundtrip (λ h, map_to_list (Headers.map h)) 1 5 sample_parts
    e F.new [replicate (Z.to_nat 32786) 0]) as H.
  cbv zeta in H. rewrite HF, Hfl in H. apply H; clear H HF Hfl; rewrite ?He.
  - done.
  - apply new_synced.
  - split; [lia|]. split; [reflexivity|]. split; [reflexivity|]. split; [reflexivity|].
    split; [apply sample_wf|]. split; [apply sample_sendable|].
    split; [vm_compute; reflexivity|]. vm_compute. discriminate.
  - constructor; [|constructor]. vm_compute. done.
  - simpl. lia.
Defined.
