(* ===== verification/Buffers.v ===== *)
(** Lemmas on buffers filled and consumed in pieces, shared by the bodies, the
    HTTP/1 codecs and the HTTP/3 octets. *)
From S2P Require Import Prelude.

(** A method written as a function of its state. *)
Definition mstate {S E A} (f : S → res E A * S) : M S E A := f.

(** [loop { ... }] whose turns return [Some] to leave it.  [loop] runs it with fuel and
    panics when that runs out; [runs] is the loop itself, without fuel. *)
Section Loop.
Context {S E A : Type} (turn : M S E (option A)).

Fixpoint loop (fuel : nat) : M S E A :=
  match fuel with
  | O => mpanic
  | Datatypes.S fuel => o ← turn; match o with Some a => mret a | None => loop fuel end
  end.

Inductive runs (s : S) : res E A * S → Prop :=
| runs_leave a s' : turn s = (Ok (Some a), s') → runs s (Ok a, s')
| runs_err e s' : turn s = (Err e, s') → runs s (Err e, s')
| runs_panic s' : turn s = (Panic, s') → runs s (Panic, s')
| runs_again s' r : turn s = (Ok None, s') → runs s' r → runs s r.

(** Enough fuel, when every turn that goes on lowers a measure. *)
Lemma loop_runs (size : S → nat) :
  (∀ s s', turn s = (Ok None, s') → (size s' < size s)%nat) →
  ∀ n s, (size s < n)%nat → runs s (loop n s).
Proof.
  intros Hd. induction n as [|n IH]; intros s Hn; [lia|]. cbn [loop]. rewrite M_bind_eq.
  destruct (turn s) as [[[a|]|e|] s'] eqn:Ht; [by constructor| |by constructor..].
  eapply runs_again; [exact Ht|]. apply IH. specialize (Hd _ _ Ht). lia.
Qed.
End Loop.

Definition zsum (ns : list Z) : Z := foldr Z.add 0 ns.

Lemma zsum_nonneg ns : Forall (λ n, 0 ≤ n) ns → 0 ≤ zsum ns.
Proof. induction 1; unfold zsum in *; simpl; lia. Qed.

Lemma len_pos_ne {A} (l : list A) : 0 < len l → l ≠ [].
Proof. by destruct l. Qed.
Lemma len_pos {A} (l : list A) : l ≠ [] → 0 < len l.
Proof. destruct l as [|x l]; [done|]. intros _. rewrite len_cons. pose proof (len_nonneg l). lia. Qed.

Lemma from_from {A} i n (l : list A) : 0 ≤ i → 0 ≤ n → from n (from i l) = from (i + n) l.
Proof. intros. unfold from. rewrite drop_drop. f_equal. lia. Qed.

Lemma from_split {A} i n (l : list A) :
  0 ≤ i → 0 ≤ n → from i l = upto n (from i l) ++ from (i + n) l.
Proof. intros. rewrite <- from_from by done. by rewrite upto_from. Qed.

Lemma slice_upto_from {A} a n (l : list A) :
  0 ≤ a → 0 ≤ n → slice a (a + n) l = upto n (from a l).
Proof.
  intros. unfold slice, upto, from. rewrite take_drop_commute. do 2 f_equal. lia.
Qed.

Lemma upto_add {A} a b (l : list A) :
  0 ≤ a → 0 ≤ b → upto (a + b) l = upto a l ++ upto b (from a l).
Proof.
  intros. unfold upto, from. rewrite Z2Nat.inj_add by done. symmetry. apply take_take_drop.
Qed.
