(* ===== verification/PullEncoder.v ===== *)
(** Encoders that are asked for bytes: the interface the HTTP/1 request encoder and
    the multipart encoder implement.  Each is a state from which a call takes as
    many of the pending bytes as the buffer holds; a client that calls it with
    buffers of any sizes gets the pending bytes cut at those sizes, all of them as
    soon as one call returns less than it asked for. *)
From S2P Require Import Prelude Buffers.

Class PullEncoder {S E : Type} (encode : Z → M S E bytes) := {
  pending : S → bytes;
  pull_ok : S → Prop;
  pull_law : ∀ n s, pull_ok s → 0 < n →
    ∃ s', encode n s = (Ok (upto n (pending s)), s') ∧ pull_ok s' ∧ pending s' = from n (pending s);
}.

(** Calls with buffers of the given sizes, and a message cut at these sizes. *)
Fixpoint calls {S E} (encode : Z → M S E bytes) (ns : list Z) : M S E (list bytes) :=
  match ns with
  | [] => mret []
  | n :: ns => out ← encode n; outs ← calls encode ns; mret (out :: outs)
  end.
Fixpoint cut (ns : list Z) (l : bytes) : list bytes :=
  match ns with
  | [] => []
  | n :: ns => upto n l :: cut ns (from n l)
  end.

Section Client.
Context {S E} (encode : Z → M S E bytes) `{!PullEncoder encode}.

Lemma calls_cut ns s :
  pull_ok s → Forall (λ n, 0 < n) ns →
  ∃ s', calls encode ns s = (Ok (cut ns (pending s)), s') ∧ pull_ok s' ∧ pending s' = from (zsum ns) (pending s).
Proof.
  intros Hs Hns. revert s Hs. induction Hns as [|n ns Hn Hns IH]; intros s Hs.
  - exists s. by rewrite from_0.
  - destruct (pull_law n s Hs Hn) as (s1 & He & Hs1 & Hp). destruct (IH s1 Hs1) as (s2 & Hc & Hs2 & Hp2).
    exists s2. cbn [calls cut]. rewrite !M_bind_eq, He, M_bind_eq, Hc, Hp. split_and!; [done..|].
    rewrite Hp2, Hp, from_from; [done|lia|]. apply zsum_nonneg.
    eapply Forall_impl; [|exact Hns]. simpl. lia.
Qed.

Lemma cut_concat ns (l : bytes) :
  Forall (λ n, 0 < n) ns → concat (cut ns l) = upto (zsum ns) l.
Proof.
  intros Hns. revert l. induction Hns as [|n ns Hn Hns IH]; intros l; simpl; [by rewrite upto_0|].
  rewrite IH, upto_add; [done|lia|]. apply zsum_nonneg. eapply Forall_impl; [|exact Hns]. simpl. lia.
Qed.
End Client.
