(* ===== verification/H2FrameDrain.v ===== *)
(** A frame written through one buffer that is filled again and again.

    The task that writes the socket calls [encode] with the same buffer until a call writes
    nothing.  [drains] is what such calls write; every frame is written as its wire image,
    header blocks as the frames of [block_frames]. *)
From S2P Require Import Prelude Buffers H2Error HpackTable Headers Parts HpackReprEncoder Hpack HpackRoundtrip.
From S2P Require Import H2Frame H2FrameDecoder H2FrameSegments H2FrameValid H2FrameEncoder H2FrameWriter H2HeadersRoundtrip.

(** * Header blocks *)

Section block.
Context (f : Frame.t) (parts : Parts.t) (N mx : Z) (tb : DynamicTable.t).
Context (Hpl : Frame.payload f = Payload.Headers parts) (HN : 0 < N ≤ mx).
#[local] Abbreviation holds := (holds f N mx tb).
#[local] Abbreviation follows := (follows f N mx tb).
#[local] Abbreviation piece := (piece f N).

(** The CONTINUATION frames for [R], and what follows the first piece of [R]. *)
Definition conts (R : bytes) : bytes := concat (cont_frames (S (length R)) N (Frame.id f) R).
Definition tail_of (R : bytes) : bytes := if len R <=? N then [] else conts (from N R).
Lemma cont_frames_fuel n m id R : (length R < n)%nat → (length R < m)%nat → cont_frames n N id R = cont_frames m N id R.
Proof.
  revert m R. induction n as [|n IH]; intros m R Hn Hm; [lia|]. destruct m as [|m]; [lia|]. cbn [cont_frames].
  destruct (Z.leb_spec (len R) N) as [?|Hgt]; [done|]. f_equal. assert (Hl : (length (from N R) < length R)%nat) by (unfold from, len in *; rewrite length_drop; lia). apply IH; lia.
Qed.
Lemma conts_eq R : conts R = piece 9 (if len R <=? N then 4 else 0) R ++ tail_of R.
Proof.
  unfold conts, tail_of. cbn [cont_frames]. destruct (Z.leb_spec (len R) N) as [Hle|Hgt]; cbn [concat].
  - by rewrite last_piece by lia.
  - rewrite full_piece by lia. f_equal. unfold conts. f_equal. apply cont_frames_fuel; [|lia]. unfold from, len in *. rewrite length_drop. lia.
Qed.

(** [block_pos e r]: the bytes [r] of the block are still to be written. *)
Inductive block_pos (e : W.t) : bytes → Prop :=
| pos_head R :
    W.state e = EncodingHeadersFrame → W.encoded_bytes e = 0 → holds e 0 R →
    block_pos e (piece 1 (block_flags N (Frame.flags f) R) R ++ tail_of R)
| pos_payload R i : W.state e = EncodingHeadersPayload → holds e i R → 0 ≤ i < Z.min (len R) N → block_pos e (from i (upto N R) ++ tail_of R)
| pos_cont R : W.state e = EncodingContinuationFrames → holds e 0 R → block_pos e (conts R)
| pos_done : complete N mx tb e → block_pos e [].

Lemma write_some e R i buf :
  holds e i R → 0 ≤ i ≤ Z.min (len R) N →
  let n := Z.min (len buf) (Z.min (len R) N - i) in
  W.write_payload buf (Z.min (len R) N) e = (Ok (copy_front (upto n (from i (upto N R))) buf, n), W.set_payload_index e (i + n)).
Proof.
  intros ((Hm & Hb & Hok & Ht) & Hf & Heh & Hi & Hr & Hu & Hp & Hfin) Hle n. pose proof (len_nonneg R). pose proof (len_nonneg buf). unfold W.write_payload. wexec. rewrite Hi. unfold sub_.
  destruct (Z.leb_spec i (Z.min (len R) N)); [|lia]. cbv beta iota. fold n. rewrite slice_ok by lia. cbv beta iota.
  assert (Hs : slice i (i + n) (W.header_payload_buffer e) = upto n (from i (upto N R))).
  { rewrite <- Hu. unfold slice, from, upto. rewrite !skipn_firstn_comm, firstn_firstn. f_equal. lia. }
  rewrite Hs. destruct e. simpl in *. by subst.
Qed.
(** The payload in the buffer goes on, or the frame is complete. *)
Lemma status_pos e R i :
  holds e i R → 0 ≤ i ≤ Z.min (len R) N → ∃ e', W.headers_header_status e = (Ok (), e') ∧ block_pos e' (from i (upto N R) ++ tail_of R) ∧
    W.state e' ≠ EncodingHeadersFrame.
Proof.
  intros Hh Hi. pose proof (len_nonneg R). destruct (Z.eq_dec i (Z.min (len R) N)) as [->|Hne].
  - destruct (status_follows f N mx tb HN e R Hh) as (e' & -> & Hf). exists e'. split; [done|].
    assert (Hnil : from (Z.min (len R) N) (upto N R) = []) by (apply from_all; rewrite len_upto by lia; lia). rewrite Hnil. unfold tail_of. unfold H2HeadersRoundtrip.follows in Hf. destruct (len R <=? N).
    + split; [by apply pos_done|]. by destruct Hf as [-> _].
    + destruct Hf as [Hs Hh']. split; [by apply pos_cont|]. by rewrite Hs.
  - assert (Hlt : i < Z.min (len R) N) by lia. pose proof Hh as (Hst & Hf & Heh & Hix & Hr & Hrest). unfold W.headers_header_status. wexec. rewrite Hix, Hr, (proj2 (Z.ltb_lt i _) Hlt).
    eexists. split; [reflexivity|]. split; [|by destruct e]. apply pos_payload; [by destruct e| |lia]. unfold H2HeadersRoundtrip.holds, steady in *. by destruct e.
Qed.

(** What a method that writes a part of the block does in front of the bytes [r]. *)
Definition turn_good (buf r : bytes) (e : W.t) (x : res FrameEncoderErr (bytes * Z) * W.t) : Prop :=
  ∃ n e', x = (Ok (copy_front (upto n r) buf, n), e') ∧ block_pos e' (from n r) ∧ 0 ≤ n ≤ len buf ∧ n ≤ len r ∧
    (0 < n ∨ len buf < 9 ∧ W.state e' = W.state e) ∧ W.state e' ≠ EncodingHeadersFrame.
(** The header of a frame and as much of its payload as fits. *)
Lemma drain_header_turn (e1 : W.t) R buf ty fl :
  let H := frame_header_bytes (Z.min (len R) N) ty fl (Frame.id f) in
  holds e1 0 R → 9 ≤ len buf →
  ∃ n e', (let buf := copy_front H buf in
    '(rest, payload_bytes_written) ← W.write_payload (from 9 buf) (Z.min (len R) N);
    _ ← mmodify (λ e, W.set_encoded e (W.encoded_bytes e + payload_bytes_written));
    _ ← W.headers_header_status;
    mret (upto 9 buf ++ rest, 9 + payload_bytes_written)) e1 = (Ok (copy_front (upto n (piece ty fl R ++ tail_of R)) buf, n), e') ∧
    block_pos e' (from n (piece ty fl R ++ tail_of R)) ∧ 9 ≤ n ≤ len buf ∧ n ≤ len (piece ty fl R ++ tail_of R) ∧
    W.state e' ≠ EncodingHeadersFrame.
Proof.
  intros H Hh Hb. cbv zeta. pose proof (len_nonneg R). assert (Hrl : len (from 9 (copy_front H buf)) = len buf - 9) by (by apply rest_len).
  wexec. rewrite (write_some e1 R 0) by (done || lia). cbv beta iota. rewrite Hrl. set (n := Z.min (len buf - 9) (Z.min (len R) N - 0)). rewrite Z.add_0_l, from_0 by lia.
  set (e2 := W.set_encoded _ _). assert (Hh2 : holds e2 n R) by (unfold e2; by apply holds_encoded, holds_index).
  destruct (status_pos e2 R n Hh2) as (e' & -> & Hpos & Hnh); [lia|]. exists (9 + n), e'.
  assert (Hlu : len (upto N R) = Z.min (len R) N) by (rewrite len_upto by lia; lia).
  assert (Hlp : len (piece ty fl R ++ tail_of R) = 9 + Z.min (len R) N + len (tail_of R)) by (by rewrite len_app, (len_piece f N mx HN)).
  pose proof (len_nonneg (tail_of R)). split; [|split; [|split; [lia|split; [lia|done]]]].
  - do 3 f_equal. unfold H2HeadersRoundtrip.piece. fold H. change 9 with (len H) at 1 2. rewrite copy_front_app by (rewrite len_upto, Hlu by lia; change (len H) with 9; lia).
    f_equal. rewrite <- (assoc_L (++)). change 9 with (len H). rewrite upto_app_ge by lia. replace (len H + n - len H) with n by lia. f_equal. by rewrite upto_app_le by lia.
  - unfold H2HeadersRoundtrip.piece. fold H. rewrite <- (assoc_L (++)). change 9 with (len H). rewrite from_app_ge by lia. replace (len H + n - len H) with n by lia. by rewrite from_app_le by lia.
Qed.

Lemma head_turn_any e R buf :
  W.state e = EncodingHeadersFrame → W.encoded_bytes e = 0 → holds e 0 R → 9 ≤ len buf →
  turn_good buf (piece 1 (block_flags N (Frame.flags f) R) R ++ tail_of R) e (W.encode_headers_frame buf e).
Proof.
  intros Hs He Hh Hb. pose proof Hh as ((Hm & Hbl & Hok & Ht) & Hf & Heh & Hi & Hr & Hu & Hp & Hfin). pose proof (len_nonneg R). set (fl := block_flags N (Frame.flags f) R). set (P := piece 1 fl R).
  pose proof (len_piece f N mx HN 1 fl R) as Hlp. fold P in Hlp. unfold W.encode_headers_frame. wexec. rewrite Hf. wexec. rewrite Hpl. wexec.
  rewrite remaining_header_small, He, Z.min_l by lia. unfold W.iterate_headers_header. rewrite (fill_front _ P 0); [|intros i Hi9|lia..].
  2: { unfold W.headers_header_byte. rewrite He, !Z.add_0_l. unfold P, H2HeadersRoundtrip.piece. rewrite header_at by lia. rewrite Hfin, Hr, land_ff.
       destruct (in_range 0 i 2) eqn:H2; [done|]. destruct (Z.eqb_spec i 3); [done|]. destruct (Z.eqb_spec i 4); [by unfold fl, block_flags; destruct (len R <=? N)|].
       destruct (in_range 5 i 8) eqn:H5; [done|]. exfalso. assert (¬ 0 ≤ i ≤ 2) by (rewrite <- in_range_spec; congruence). assert (¬ 5 ≤ i ≤ 8) by (rewrite <- in_range_spec; congruence). lia. }
  wexec. change (slice 0 (0 + (9 - 0)) P) with (frame_header_bytes (Z.min (len R) N) 1 fl (Frame.id f)). change (9 - 0) with 9.
  set (e1 := W.set_encoded e (W.encoded_bytes e + 9)). assert (He1 : W.encoded_bytes e1 = 9 ∧ W.remaining_header_payload e1 = Z.min (len R) N) by (subst e1; destruct e; simpl in *; subst; done).
  destruct He1 as [He1 Hr1]. rewrite He1, Hr1. change (9 <=? 9) with true. cbv iota. assert (Hh1 : holds e1 0 R) by by apply holds_encoded.
  destruct (drain_header_turn e1 R buf 1 fl Hh1 Hb) as (n & e' & Hx & Hpos & Hn & Hl & Hnh).  exists n, e'. split; [exact Hx|]. split; [done|]. split; [lia|]. split; [done|]. split; [left; lia|done].
Qed.
Lemma cont_turn_any e R buf : W.state e = EncodingContinuationFrames → holds e 0 R → turn_good buf (conts R) e (W.encode_continuation_frames buf e).
Proof.
  intros Hs Hh. pose proof Hh as ((Hm & Hbl & Hok & Ht) & Hf & Heh & Hi & Hr & Hu & Hp & Hfin). pose proof (len_nonneg R). pose proof (len_nonneg buf).
  unfold W.encode_continuation_frames. wexec. rewrite Hf. wexec. rewrite Hpl. wexec. destruct (Z.ltb_spec (len buf) 9) as [Hlt|Hge].
  { exists 0, e. rewrite upto_0, from_0 by lia. split; [done|]. split; [by apply pos_cont|]. split; [lia|]. split; [apply len_nonneg|]. split; [by right|congruence]. }
  cbv iota. rewrite Hr, Hm. replace (Z.min (Z.min (len R) N) mx) with (Z.min (len R) N) by lia.
  assert (W.continuation_header e f (Z.min (len R) N) = frame_header_bytes (Z.min (len R) N) 9 (if len R <=? N then 4 else 0) (Frame.id f)) as ->.
  { unfold W.continuation_header. rewrite Hr, Hm, Hfin, Heh, andb_true_r. destruct (Z.leb_spec (Z.min (len R) N) mx); [|lia]. cbn [andb fmap list_fmap]. rewrite !land_ff. by destruct (len R <=? N). }
  rewrite conts_eq. destruct (drain_header_turn e R buf 9 (if len R <=? N then 4 else 0) Hh Hge) as (n & e' & Hx & Hpos & Hn & Hl & Hnh).  exists n, e'. split; [exact Hx|]. split; [done|]. split; [lia|]. split; [done|]. split; [left; lia|done].
Qed.
Lemma payload_turn_any e R i buf :
  W.state e = EncodingHeadersPayload → holds e i R → 0 ≤ i < Z.min (len R) N → 0 < len buf → turn_good buf (from i (upto N R) ++ tail_of R) e (W.encode_headers_payload buf e).
Proof.
  intros Hs Hh Hi Hb. pose proof Hh as ((Hm & Hbl & Hok & Ht) & Hf & Heh & Hix & Hr & Hu & Hp & Hfin). pose proof (len_nonneg R).
  unfold W.encode_headers_payload. wexec. rewrite Hf. wexec. rewrite Hpl. wexec. destruct (Z.eqb_spec (len buf) 0) as [|_]; [lia|]. rewrite Hr, (write_some e R i) by (done || lia). cbv beta iota.
  set (n := Z.min (len buf) _). set (e2 := W.set_encoded _ _). assert (Hh2 : holds e2 (i + n) R) by (unfold e2; apply holds_encoded; unfold H2HeadersRoundtrip.holds, steady in *; by destruct e).
  destruct (status_pos e2 R (i + n) Hh2) as (e' & -> & Hpos & Hnh); [lia|]. assert (Hlu : len (upto N R) = Z.min (len R) N) by (rewrite len_upto by lia; lia).
  assert (Hlf : len (from i (upto N R)) = Z.min (len R) N - i) by (rewrite len_from, Hlu by lia; lia). pose proof (len_nonneg (tail_of R)).
  exists n, e'. rewrite upto_app_le, from_app_le, from_from, len_app by lia. split; [done|]. split; [done|]. split; [lia|]. split; [lia|]. split; [left; lia|done].
Qed.

Lemma block_turn e r buf :
  block_pos e r → 0 < len buf → (W.state e = EncodingHeadersFrame → 9 ≤ len buf) →
  r = [] ∧ W.part (W.state e) = None ∨ ∃ m, W.part (W.state e) = Some m ∧ turn_good buf r e (m buf e).
Proof.
  intros [R Hs He Hh|R i Hs Hh Hi|R Hs Hh|(Hs & _)] Hb H9; [right..|left; by rewrite Hs]; rewrite Hs; eexists; (split; [reflexivity|]).
  - apply head_turn_any; auto.
  - by apply payload_turn_any.
  - by apply cont_turn_any.
Qed.
Lemma block_loop fuel buf r0 e r w :
  block_pos e r → 0 ≤ w ≤ len buf → len r0 = w → (W.state e = EncodingHeadersFrame → w = 0 ∧ 9 ≤ len buf) → (Z.to_nat (len buf - w) < fuel)%nat →
  ∃ n e', W.encode_loop fuel (copy_front r0 buf) w e = Some (Ok (copy_front (r0 ++ upto n r) buf, w + n), e') ∧ block_pos e' (from n r) ∧
    0 ≤ n ≤ len buf - w ∧ n ≤ len r ∧ W.state e' ≠ EncodingHeadersFrame ∧ (r ≠ [] → 9 ≤ len buf - w → 0 < n).
Proof.
  revert r0 e r w. induction fuel as [|fuel IH]; intros r0 e r w Hpos Hw Hr0 H9 Hf; [lia|]. cbn [W.encode_loop].
  assert (HlB : len (copy_front r0 buf) = len buf) by (apply copy_front_len; lia). rewrite HlB. destruct (Z.ltb_spec w (len buf)) as [Hlt|Hge].
  2: { exists 0, e. rewrite upto_0, from_0, app_nil_r, Z.add_0_r by lia. split; [done|]. split; [done|]. split; [lia|]. split; [apply len_nonneg|]. split; [|lia]. intros Hh. specialize (H9 Hh). lia. }
  assert (Hlf : len (from w (copy_front r0 buf)) = len buf - w) by (rewrite len_from, HlB by lia; lia).
  destruct (block_turn e r (from w (copy_front r0 buf)) Hpos) as [[-> Hnone]|(m & -> & n & e' & Hm & Hpos' & Hn & Hle & Hpr & Hnh)]; [lia|intros Hh; specialize (H9 Hh); lia| |].
  - rewrite Hnone. exists 0, e. rewrite upto_0, from_0, app_nil_r, Z.add_0_r by lia. split; [done|]. split; [done|]. split; [lia|]. split; [done|]. split; [|done]. intros Hh. by rewrite Hh in Hnone.
  - rewrite Hm. cbv zeta. rewrite Hlf in *. assert (Hlu : len (upto n r) = n) by (rewrite len_upto by lia; lia).
    assert (Hcopy : upto w (copy_front r0 buf) ++ copy_front (upto n r) (from w (copy_front r0 buf)) = copy_front (r0 ++ upto n r) buf) by (rewrite <- Hr0; apply copy_front_app; lia).
    rewrite Hcopy. case_bool_decide as Hsame.
    + exists n, e'. split; [done|]. split; [done|]. split; [lia|]. split; [done|]. split; [done|]. intros _ ?. destruct Hpr as [?|[? _]]; lia.
    + destruct Hpr as [Hn0|[_ ?]]; [|done]. destruct (IH (r0 ++ upto n r) e' (from n r) (w + n)) as (n2 & e2 & Hl2 & Hpos2 & Hn2 & Hle2 & Hnh2 & _); [done|lia|rewrite len_app; lia|done|lia|].
      exists (n + n2), e2. rewrite len_from in Hle2 by lia. rewrite from_from in Hpos2 by lia. rewrite Hl2, <- (assoc_L (++)), upto_add by lia. split; [by rewrite Z.add_assoc|]. split; [done|]. split; [lia|]. split; [lia|]. split; [done|lia].
Qed.
Lemma block_call buf e r :
  block_pos e r → 9 ≤ len buf →
  ∃ n e', W.encode buf e = (Ok (copy_front (upto n r) buf, n), e') ∧ block_pos e' (from n r) ∧ 0 ≤ n ≤ len buf ∧ n ≤ len r ∧ (r ≠ [] → 0 < n).
Proof.
  intros Hpos Hb. destruct (block_loop (W.encode_fuel buf) buf [] e r 0) as (n & e' & Hl & Hpos' & Hn & Hle & _ & Hpr); [done|lia|done|by intros _|unfold W.encode_fuel, len in *; lia|].
  exists n, e'. unfold W.encode. change (copy_front [] buf) with buf in Hl. rewrite Hl. split; [done|]. split; [done|]. split; [lia|]. split; [done|]. intros Hr. apply Hpr; [done|lia].
Qed.
Lemma pos_complete e : block_pos e [] → complete N mx tb e.
Proof.
  remember [] as r eqn:Hr. assert (Hpiece : ∀ ty fl R r, piece ty fl R ++ r ≠ []) by done. intros Hpos. destruct Hpos as [R Hs He Hh|R i Hs Hh Hi|R Hs Hh|Hc]; [..|done]; exfalso.
  - by apply Hpiece in Hr.
  - apply app_eq_nil in Hr as [Hr _]. apply (f_equal len) in Hr. rewrite len_from, len_upto in Hr by (rewrite ?len_upto; lia). change (len []) with 0 in Hr. lia.
  - rewrite conts_eq in Hr. by apply Hpiece in Hr.
Qed.
End block.

(** * Frames without header blocks *)

(** Writing such a frame leaves the HPACK encoder and its buffer alone. *)
Definition hpack_of (e : W.t) : HpackEncoder.t * bytes := (W.hpack_encoder e, W.header_payload_buffer e).
Definition plain (f : Frame.t) : Prop := match Frame.payload f with Payload.Headers _ => False | _ => True end.
Definition plain_now (e : W.t) : Prop := match W.current_frame e with Some f => plain f | None => True end.
Definition keeps_hp {A} (m : W.enc A) : Prop := ∀ e, plain_now e → hpack_of (m e).2 = hpack_of e ∧ plain_now (m e).2.
Lemma keeps_hp_bind {A B} (m : W.enc A) (k : A → W.enc B) : keeps_hp m → (∀ a, keeps_hp (k a)) → keeps_hp (m ≫= k).
Proof.
  intros Hm Hk e He. rewrite M_bind_eq. destruct (Hm e He) as [H1 H2]. destruct (m e) as [[a|x|] e']; simpl in *; [|done..]. destruct (Hk a e' H2) as [H3 H4]. split; [congruence|done].
Qed.
Lemma keeps_hp_frame {B} (k : Frame.t → W.enc B) : (∀ f, plain f → keeps_hp (k f)) → keeps_hp (W.try_retrieve_current_frame ≫= k).
Proof.
  intros Hk e He. rewrite M_bind_eq. unfold W.try_retrieve_current_frame. destruct (W.current_frame e) as [f|] eqn:Hf; [|done]. cbn [ok_or]. apply Hk; [|done]. unfold plain_now in He. by rewrite Hf in He.
Qed.
Lemma keeps_hp_modify g : (∀ e, hpack_of (g e) = hpack_of e ∧ (plain_now e → plain_now (g e))) → keeps_hp (mmodify g).
Proof. intros Hg e He. destruct (Hg e) as [H1 H2]. split; [done|by apply H2]. Qed.
Lemma keeps_hp_if {A} (c : bool) (m n : W.enc A) : keeps_hp m → keeps_hp n → keeps_hp (if c then m else n).
Proof. by destruct c. Qed.
Ltac keeps_hp :=
  repeat first
    [ apply keeps_hp_frame; intros [? ? []]; [..]; try (intros []; fail); intros _; cbn [Frame.payload]
    | intros ?; split; reflexivity
    | intros ? ?; split; [reflexivity|assumption]
    | apply keeps_hp_bind; [|intros ?]
    | apply keeps_hp_if
    | apply keeps_hp_modify; intros []; repeat (simpl; case_match); (split; [reflexivity|done])
    | progress (intros; try match goal with |- keeps_hp (match ?x with _ => _ end) => destruct x end) ].
Lemma part_keeps_hp s m buf : W.part s = Some m → keeps_hp (m buf).
Proof.
  destruct s; simpl; intros [= <-];
    unfold W.encode_headers_frame, W.encode_headers_payload, W.encode_padding,
      W.encode_continuation_frames, W.encode_data_header, W.encode_data_payload,
      W.encode_settings_frame, W.encode_goaway_frame, W.encode_window_update_frame,
      W.encode_settings_payload, W.encode_goaway_payload, W.encode_window_update_payload,
      W.encode_priority_frame, W.encode_priority_payload, W.encode_rst_stream_frame,
      W.encode_rst_stream_payload, W.encode_ping_frame, W.encode_ping_payload.
  all: keeps_hp.
Qed.
Lemma encode_keeps_hp buf : keeps_hp (W.encode buf).
Proof.
  intros e He. unfold W.encode.
  assert (H : ∀ fuel buf w e x, plain_now e → W.encode_loop fuel buf w e = Some x → hpack_of x.2 = hpack_of e ∧ plain_now x.2).
  { clear. induction fuel as [|fuel IH]; intros buf w e x He; [done|]. simpl. destruct (w <? len buf); [|by intros [= <-]].
    destruct (W.part (W.state e)) as [m|] eqn:Hm; [|by intros [= <-]]. destruct (part_keeps_hp _ _ (from w buf) Hm e He) as [H1 H2].
    destruct (m (from w buf) e) as [[[r n]|y|] e']; simpl in H1, H2; [|by intros [= <-]..]. case_bool_decide; [by intros [= <-]|]. intros Hx. apply IH in Hx as [H3 H4]; [|done]. split; [congruence|done]. }
  destruct (W.encode_loop _ buf 0 e) as [x|] eqn:Hx; [|done]. by apply H in Hx.
Qed.
Lemma set_frame_keeps into_iter f e e0 : plain f → W.set_frame into_iter f e = (Ok (), e0) → hpack_of e0 = hpack_of e ∧ plain_now e0.
Proof.
  intros Hf. unfold W.set_frame. wexec. destruct f as [id fl p]. unfold plain in Hf. cbn [Frame.payload] in *. destruct p; try done; intros [= <-]; by destruct e.
Qed.

(** * Draining *)

(** Calls of [encode] with the same buffer until one writes nothing. *)
Inductive drains (buf : bytes) (e : W.t) : bytes → bytes → W.t → Prop :=
| drained buf' e' : W.encode buf e = (Ok (buf', 0), e') → drains buf e [] buf' e'
| drains_more buf1 n e1 w buf' e' :
    W.encode buf e = (Ok (buf1, n), e1) → len buf1 = len buf → 0 < n ≤ len buf → drains buf1 e1 w buf' e' → drains buf e (upto n buf1 ++ w) buf' e'.

Lemma frame_drains into_iter f T e buf :
  frame_bytes f = Some T → encodable (W.max_frame_size e) f → 0 < len buf → (resumes_writing (Frame.payload f) = false → len T < len buf) →
  ∃ e0 buf' e', W.set_frame into_iter f e = (Ok (), e0) ∧ drains buf e0 T buf' e' ∧ len buf' = len buf ∧ hpack_of e' = hpack_of e ∧ W.max_frame_size e' = W.max_frame_size e.
Proof.
  intros HT Hen Hb Hr. destruct (set_frame_pos into_iter f T e HT Hen) as (e0 & Hs & Hpos & Hmx). exists e0.
  assert (Hpl : plain f) by (unfold plain; unfold encodable in Hen; by destruct (Frame.payload f)). destruct (set_frame_keeps into_iter f e e0 Hpl Hs) as [Hhp Hpn]. pose proof (len_nonneg T).
  assert (Hgo : ∀ j buf e0 k, (Z.to_nat (len T - k) < j)%nat → frame_pos f T (W.max_frame_size e) e0 k → 0 ≤ k ≤ len T → 0 < len buf → (resumes_writing (Frame.payload f) = false → len T < len buf) → plain_now e0 →
    ∃ buf' e', drains buf e0 (from k T) buf' e' ∧ len buf' = len buf ∧ hpack_of e' = hpack_of e0 ∧ W.max_frame_size e' = W.max_frame_size e0).
  { clear - HT Hen. induction j as [|j IH]; intros buf e0 k Hj Hpos Hk Hb Hr Hpn; [lia|].
    destruct (frame_encode_step f T _ e0 k buf HT Hen Hpos Hk) as (e1 & He & Hpos1 & _); [intros H0; specialize (Hr H0); lia|].
    pose proof (encode_keeps_hp buf e0 Hpn) as [Hk1 Hk2]. pose proof (encode_keeps buf e0) as Hk3. rewrite He in Hk1, Hk2, Hk3. cbn [snd] in Hk1, Hk2, Hk3.
    set (n := Z.min (len buf) (len T - k)) in *. assert (Hls : len (slice k (k + n) T) = n) by (rewrite len_slice; lia).
    destruct (Z.eq_dec n 0) as [Hn0|Hn0].
    - exists (copy_front (slice k (k + n) T) buf), e1. rewrite from_all by lia. split; [apply drained; rewrite He; do 3 f_equal; exact Hn0|]. split; [apply copy_front_len; lia|done].
    - set (buf1 := copy_front (slice k (k + n) T) buf) in *. assert (Hl1 : len buf1 = len buf) by (apply copy_front_len; lia).
      destruct (IH buf1 e1 (k + n)) as (buf' & e' & Hd & Hl & Hh & Hm); [lia|done|lia|lia|by rewrite Hl1|done|]. exists buf', e'.
      assert (Hsplit : from k T = upto n buf1 ++ from (k + n) T).
      { unfold buf1. rewrite <- Hls at 1. rewrite upto_copy_front, <- from_from by lia. rewrite <- (upto_from n (from k T)) at 1. f_equal. unfold slice, upto, from. rewrite skipn_firstn_comm. f_equal. lia. }
      rewrite Hsplit. split; [eapply drains_more; [exact He|done|lia|exact Hd]|]. split; [lia|]. split; congruence. }
  destruct (Hgo (S (Z.to_nat (len T))) buf e0 0) as (buf' & e' & Hd & Hl & Hh & Hm); [lia|done|lia|done|done|done|]. rewrite from_0 in Hd by lia. exists buf', e'. split; [done|]. split; [done|]. split; [done|]. split; congruence.
Qed.

(** The choice of the Huffman code stays. *)
Definition huffman (e : W.t) : bool := HpackEncoder.use_huffman (W.hpack_encoder e).
Definition keeps_huff {A} (m : W.enc A) : Prop := ∀ e, huffman (m e).2 = huffman e.
Lemma keeps_huff_bind {A B} (m : W.enc A) (k : A → W.enc B) : keeps_huff m → (∀ a, keeps_huff (k a)) → keeps_huff (m ≫= k).
Proof. intros Hm Hk e. rewrite M_bind_eq. specialize (Hm e). destruct (m e) as [[a|x|] e']; simpl in *; [|done..]. by rewrite (Hk a e'). Qed.
Lemma keeps_huff_modify g : (∀ e, huffman (g e) = huffman e) → keeps_huff (mmodify g).
Proof. intros Hg e. apply Hg. Qed.
Lemma keeps_huff_hpack : keeps_huff W.hpack_encode.
Proof.
  intros e. unfold W.hpack_encode, HpackEncoder.encode. destruct (ReprEncoder.encode _ _ _) as [[w [n|x|]] h]; try destruct x; by destruct e.
Qed.
Ltac keeps_huff :=
  repeat first
    [ exact keeps_huff_hpack
    | intros ?; reflexivity
    | apply keeps_huff_bind; [|intros ?]
    | apply keeps_huff_modify; intros []; repeat (simpl; case_match); reflexivity
    | progress (intros; try match goal with |- keeps_huff (match ?x with _ => _ end) => destruct x end) ].
Lemma part_keeps_huff s m buf : W.part s = Some m → keeps_huff (m buf).
Proof.
  destruct s; simpl; intros [= <-];
    unfold W.encode_headers_frame, W.encode_headers_payload, W.encode_padding,
      W.encode_continuation_frames, W.encode_data_header, W.encode_data_payload,
      W.encode_settings_frame, W.encode_goaway_frame, W.encode_window_update_frame,
      W.encode_settings_payload, W.encode_goaway_payload, W.encode_window_update_payload,
      W.encode_priority_frame, W.encode_priority_payload, W.encode_rst_stream_frame,
      W.encode_rst_stream_payload, W.encode_ping_frame, W.encode_ping_payload,
      W.headers_header_status, W.read_rest_payload, W.write_payload; keeps_huff.
Qed.
Lemma encode_keeps_huff buf : keeps_huff (W.encode buf).
Proof.
  intros e. unfold W.encode. assert (H : ∀ fuel buf w e x, W.encode_loop fuel buf w e = Some x → huffman x.2 = huffman e).
  { clear. induction fuel as [|fuel IH]; intros buf w e x; [done|]. simpl. destruct (w <? len buf); [|by intros [= <-]].
    destruct (W.part (W.state e)) as [m|] eqn:Hm; [|by intros [= <-]]. pose proof (part_keeps_huff _ _ (from w buf) Hm e) as Hk.
    destruct (m (from w buf) e) as [[[r n]|y|] e']; simpl in Hk; [|by intros [= <-]..]. case_bool_decide; [by intros [= <-]|]. intros Hx%IH. congruence. }
  destruct (W.encode_loop _ buf 0 e) as [x|] eqn:Hx; [|done]. by apply H in Hx.
Qed.
Lemma set_frame_keeps_huff into_iter f : keeps_huff (W.set_frame into_iter f).
Proof. unfold W.set_frame. keeps_huff. Qed.
Lemma drains_keeps_huff buf e w buf' e' : drains buf e w buf' e' → huffman e' = huffman e.
Proof.
  induction 1 as [buf e buf' e' He|buf e buf1 n e1 w buf' e' He _ Hn _ IH]; [|rewrite IH]; pose proof (encode_keeps_huff buf e) as Hk; by rewrite He in Hk.
Qed.

Lemma block_frames_eq (f : Frame.t) N (B : bytes) :
  0 < N → concat (block_frames N (Frame.id f) (Frame.flags f) B) = piece f N 1 (block_flags N (Frame.flags f) B) B ++ tail_of f N B.
Proof.
  intros HN. unfold block_frames, block_flags, tail_of. destruct (Z.leb_spec (len B) N) as [Hle|Hgt]; cbn [concat]; [by rewrite last_piece by lia|].
  rewrite full_piece by lia. f_equal. unfold conts. f_equal. apply (cont_frames_fuel N N ltac:(lia)); unfold from, len in *; rewrite length_drop; lia.
Qed.
Lemma headers_drain into_iter id fl parts e buf :
  let h := W.hpack_encoder e in
  let N := len (W.header_payload_buffer e) in
  let fields := fields_of into_iter parts in
  FrameFlags.is_end_headers fl = true → HpackEncoder.is_finished h = true → dyn_ok (HpackEncoder.table h) → 0 < N ≤ W.max_frame_size e →
  Forall (field_fits (HpackEncoder.use_huffman h)) fields → 9 ≤ len buf →
  ∃ e0 buf' e', W.set_frame into_iter (Frame.mk id fl (Payload.Headers parts)) e = (Ok (), e0) ∧
    drains buf e0 (concat (block_frames N id fl (fields_bytes (HpackEncoder.use_huffman h) (HpackEncoder.table h) fields))) buf' e' ∧ len buf' = len buf ∧
    W.max_frame_size e' = W.max_frame_size e ∧ len (W.header_payload_buffer e') = N ∧ HpackEncoder.is_finished (W.hpack_encoder e') = true ∧
    HpackEncoder.table (W.hpack_encoder e') = fields_table (HpackEncoder.use_huffman h) (HpackEncoder.table h) fields ∧ dyn_ok (HpackEncoder.table (W.hpack_encoder e')) ∧
    HpackEncoder.use_huffman (W.hpack_encoder e') = HpackEncoder.use_huffman h.
Proof.
  intros h N fields Heh Hfin Hdyn HN Hfit Hb. set (f := Frame.mk id fl (Payload.Headers parts)).
  destruct (set_headers into_iter id fl parts e N Heh Hfin Hdyn eq_refl ltac:(lia) Hfit) as (e0 & Hset & Hs0 & Hz0 & Hh0). fold h fields in Hh0. set (B := fields_bytes _ _ fields) in *. set (tb := fields_table _ _ fields) in *.
  assert (Hpos : block_pos f N (W.max_frame_size e) tb e0 (concat (block_frames N id fl B))).
  { change id with (Frame.id f) at 1. change fl with (Frame.flags f) at 1. rewrite (block_frames_eq f) by lia. by apply pos_head. }
  assert (Hgo : ∀ j buf e0 r, (length r < j)%nat → 9 ≤ len buf → block_pos f N (W.max_frame_size e) tb e0 r → ∃ buf' e', drains buf e0 r buf' e' ∧ len buf' = len buf ∧ complete N (W.max_frame_size e) tb e').
  { clear - HN. induction j as [|j IH]; intros buf e0 r Hj Hb Hpos; [lia|]. destruct (block_call f parts N _ tb eq_refl HN buf e0 r Hpos Hb) as (n & e1 & He & Hpos1 & Hn & Hle & Hpr).
    assert (Hlu : len (upto n r) = n) by (rewrite len_upto by lia; lia). assert (Hl1 : len (copy_front (upto n r) buf) = len buf) by (apply copy_front_len; lia).
    destruct (decide (r = [])) as [->|Hne].
    - change (len []) with 0 in Hle. assert (n = 0) as -> by lia. eexists _, e1. split; [by apply drained|]. split; [done|]. rewrite from_0 in Hpos1 by lia. by apply (pos_complete f N _ tb HN).
    - specialize (Hpr Hne). destruct (IH (copy_front (upto n r) buf) e1 (from n r)) as (buf' & e' & Hd & Hl & Hc); [|lia|done|].
      { pose proof (len_from n r) as Hlf. unfold len in *. lia. }
      exists buf', e'. split; [|split; [lia|done]]. rewrite <- (upto_from n r). rewrite <- (upto_copy_front (upto n r) buf) at 1. rewrite Hlu. eapply drains_more; [exact He|done|lia|exact Hd]. }
  destruct (Hgo (S (length (concat (block_frames N id fl B)))) buf e0 _ (Nat.lt_succ_diag_r _) Hb Hpos) as (buf' & e' & Hd & Hl & Hc). exists e0, buf', e'. split; [done|]. split; [done|]. split; [done|].
  destruct Hc as (_ & (Hm & HbN & Hok & Ht) & Hf'). rewrite (finished_table _ Hf') in Ht. split; [done|]. split; [done|]. split; [done|]. split; [done|]. split; [apply Hok|].
  apply drains_keeps_huff in Hd. unfold huffman in Hd. rewrite Hd. pose proof (set_frame_keeps_huff into_iter f e) as Hk. unfold f in Hk. by rewrite Hset in Hk.
Qed.
