(* ===== verification/ChunkBody.v ===== *)
(** The chunked body encoder ([ylong_http/src/body/chunk.rs], first half, and the
    sources of [body/mod.rs]): [ChunkBody] over a byte slice, a blocking reader and
    an asynchronous reader, each a loop that fills the caller's buffer from the
    state machine [EncodeStatus].  A method that fills a buffer is given its length
    and returns the bytes it writes there, whose number is the [usize] the source
    returns.  The theorems: through buffers of any lengths the three bodies write
    the chunks of what the source delivers, the last chunk and the trailer; and
    what goes wrong for slices of 2048 bytes and more, and for buffers that end
    within the digits of a chunk size. *)
From S2P Require Import Prelude Buffers Headers.

Definition CHUNK_SIZE : Z := 1024.
Definition CRLF : bytes := [13; 10].

(** * Data *)

(** [Complete(n)] and [Partial(n)], with the [n] bytes written. *)
Inductive TokenStatus := Complete (w : bytes) | Partial (w : bytes).

Module DataState.
Inductive t := Partial | Complete | Finish.
#[global] Instance eq_dec : EqDecision t.
Proof. solve_decision. Defined.
End DataState.

Record StatusVar := mk_StatusVar { cnt : Z; var_status : DataState.t }.

Module ChunkState.
Inductive t := MetaSize | MetaExt | MetaCrlf | Data | DataCrlf | Finish.
#[global] Instance eq_dec : EqDecision t.
Proof. solve_decision. Defined.
End ChunkState.

(** [format!("{n:x}")]: digits are prepended to [acc]. *)
Definition hex_digit (d : Z) : Z := if d <? 10 then 48 + d else 87 + d.
Fixpoint hex_loop (fuel : nat) (n : Z) (acc : bytes) : bytes :=
  match fuel with
  | O => acc
  | S fuel =>
      let acc := hex_digit (n mod 16) :: acc in
      if n / 16 =? 0 then acc else hex_loop fuel (n / 16) acc
  end.
Definition to_hex (n : Z) : bytes := hex_loop 16 n [].

Section Errors.
Context {E : Type}.

(** [WriteData { src, src_idx, dst }.write()]: the status and the new [src_idx]. *)
Definition write (src : bytes) (src_idx : Z) (dst_len : Z) : res E (TokenStatus * Z) :=
  let input_len := len src - src_idx in
  if input_len <? 0 then Panic
  else
    let w := upto dst_len (from src_idx src) in
    if input_len <=? dst_len then Ok (Complete w, src_idx + len w)
    else Ok (Partial w, src_idx + len w).
End Errors.

Module EncodeHex.
Record t := mk { inner : bytes; src_idx : Z }.
Definition new (hex : bytes) : t := mk hex 0.
Definition encode {E} (h : t) (dst_len : Z) : res E (TokenStatus * t) :=
  '(st, i) ← write (inner h) (src_idx h) dst_len;
  Ok (st, mk (inner h) i).
Definition reset (h : t) : t := mk (inner h) 0.
End EncodeHex.

Module EncodeCrlf.
Record t := mk { src_idx : Z }.
Definition new : t := mk 0.
Definition encode {E} (c : t) (dst_len : Z) : res E (TokenStatus * t) :=
  '(st, i) ← write CRLF (src_idx c) dst_len;
  Ok (st, mk i).
End EncodeCrlf.

Module EncodeTrailer.
Record t := mk { src_idx : Z }.
Definition new : t := mk 0.
Definition encode {E} (c : t) (src : bytes) (dst_len : Z) : res E (TokenStatus * t) :=
  '(st, i) ← write src (src_idx c) dst_len;
  Ok (st, mk i).
End EncodeTrailer.

(** * The chunk state machine *)

Module EncodeStatus.
Record t := mk {
  chunk_size : Z;
  chunk_last : Z;
  chunk_idx : Z;
  read_flag : bool;
  src_idx : Z;
  chunk_status : ChunkState.t;
  meta_crlf : EncodeCrlf.t;
  data_crlf : EncodeCrlf.t;
  finish_crlf : EncodeCrlf.t;
  hex : EncodeHex.t;
  hex_last : EncodeHex.t;
}.

Definition new : t :=
  mk CHUNK_SIZE 0 0 false 0 ChunkState.MetaSize EncodeCrlf.new EncodeCrlf.new EncodeCrlf.new
    (EncodeHex.new (to_hex CHUNK_SIZE)) (EncodeHex.new []).

Definition get_flag (e : t) : bool := read_flag e.
Definition set_flag (e : t) (flag : bool) : t :=
  mk (chunk_size e) (chunk_last e) (chunk_idx e) flag (src_idx e) (chunk_status e)
    (meta_crlf e) (data_crlf e) (finish_crlf e) (hex e) (hex_last e).
Definition set_chunk_idx (e : t) (num : Z) : t :=
  mk (chunk_size e) (chunk_last e) num (read_flag e) (src_idx e) (chunk_status e)
    (meta_crlf e) (data_crlf e) (finish_crlf e) (hex e) (hex_last e).
Definition set_chunk_last (e : t) (n : Z) : t :=
  mk (chunk_size e) n (chunk_idx e) (read_flag e) (src_idx e) (chunk_status e)
    (meta_crlf e) (data_crlf e) (finish_crlf e) (hex e) (hex_last e).
Definition set_status (e : t) (s : ChunkState.t) : t :=
  mk (chunk_size e) (chunk_last e) (chunk_idx e) (read_flag e) (src_idx e) s
    (meta_crlf e) (data_crlf e) (finish_crlf e) (hex e) (hex_last e).
Definition set_meta_crlf (e : t) (c : EncodeCrlf.t) : t :=
  mk (chunk_size e) (chunk_last e) (chunk_idx e) (read_flag e) (src_idx e) (chunk_status e)
    c (data_crlf e) (finish_crlf e) (hex e) (hex_last e).
Definition set_data_crlf (e : t) (c : EncodeCrlf.t) : t :=
  mk (chunk_size e) (chunk_last e) (chunk_idx e) (read_flag e) (src_idx e) (chunk_status e)
    (meta_crlf e) c (finish_crlf e) (hex e) (hex_last e).
Definition set_finish_crlf (e : t) (c : EncodeCrlf.t) : t :=
  mk (chunk_size e) (chunk_last e) (chunk_idx e) (read_flag e) (src_idx e) (chunk_status e)
    (meta_crlf e) (data_crlf e) c (hex e) (hex_last e).
Definition set_hex (e : t) (h : EncodeHex.t) : t :=
  mk (chunk_size e) (chunk_last e) (chunk_idx e) (read_flag e) (src_idx e) (chunk_status e)
    (meta_crlf e) (data_crlf e) (finish_crlf e) h (hex_last e).
Definition set_hex_last (e : t) (h : EncodeHex.t) : t :=
  mk (chunk_size e) (chunk_last e) (chunk_idx e) (read_flag e) (src_idx e) (chunk_status e)
    (meta_crlf e) (data_crlf e) (finish_crlf e) (hex e) h.

Section Encode.
Context {E : Type}.

Definition meta_size_encode (e : t) (dst_len : Z) : res E (bytes * t) :=
  if chunk_last e =? CHUNK_SIZE then
    '(st, h) ← EncodeHex.encode (hex e) dst_len;
    match st with
    | Complete w => Ok (w, set_hex (set_status e ChunkState.MetaCrlf) (EncodeHex.reset h))
    | Partial w => Ok (w, set_hex e h)
    end
  else
    let e := set_hex_last e (EncodeHex.new (to_hex (chunk_last e))) in
    '(st, h) ← EncodeHex.encode (hex_last e) dst_len;
    match st with
    | Complete w => Ok (w, set_hex_last (set_status e ChunkState.MetaCrlf) (EncodeHex.reset h))
    | Partial w => Ok (w, set_hex_last e h)
    end.

Definition meta_crlf_encode (e : t) (dst_len : Z) : res E (bytes * t) :=
  '(st, c) ← EncodeCrlf.encode (meta_crlf e) dst_len;
  match st with
  | Complete w => Ok (w, set_meta_crlf (set_status e ChunkState.Data) (EncodeCrlf.mk 0))
  | Partial w => Ok (w, set_meta_crlf e c)
  end.

Definition data_crlf_encode (e : t) (dst_len : Z) : res E (bytes * t) :=
  '(st, c) ← EncodeCrlf.encode (data_crlf e) dst_len;
  match st with
  | Complete w => Ok (w, set_data_crlf (set_status e ChunkState.MetaSize) (EncodeCrlf.mk 0))
  | Partial w => Ok (w, set_data_crlf e c)
  end.

Definition finish_encode (e : t) (dst_len : Z) : res E (bytes * option StatusVar * t) :=
  '(st, c) ← EncodeCrlf.encode (finish_crlf e) dst_len;
  let e := set_finish_crlf e c in
  match st with
  | Complete w =>
      Ok (w, Some (mk_StatusVar 0 DataState.Complete), set_meta_crlf e (EncodeCrlf.mk 0))
  | Partial w => Ok (w, None, e)
  end.

Definition data_encode (e : t) (src : bytes) (dst_len : Z) : res E (bytes * option StatusVar * t) :=
  '(st, i) ← write src (chunk_idx e) dst_len;
  let e := set_chunk_idx e i in
  match st with
  | Complete w =>
      Ok (w, Some (mk_StatusVar 1 DataState.Partial),
        set_flag (set_status e ChunkState.DataCrlf) false)
  | Partial w => Ok (w, None, e)
  end.

Definition tail_encode (e : t) (src : bytes) (dst_len : Z) : res E (bytes * option StatusVar * t) :=
  '(st, i) ← write src (chunk_idx e) dst_len;
  let e := set_chunk_idx e i in
  match st with
  | Complete w =>
      Ok (w, Some (mk_StatusVar 0 DataState.Partial),
        set_flag (set_status e ChunkState.Finish) false)
  | Partial w => Ok (w, None, e)
  end.

Definition encode (e : t) (src : bytes) (dst_len : Z) : res E (bytes * option StatusVar * t) :=
  match chunk_status e with
  | ChunkState.MetaSize => '(w, e) ← meta_size_encode e dst_len; Ok (w, None, e)
  | ChunkState.MetaExt => Ok ([], None, e)
  | ChunkState.MetaCrlf => '(w, e) ← meta_crlf_encode e dst_len; Ok (w, None, e)
  | ChunkState.Data =>
      if negb (chunk_last e =? CHUNK_SIZE) then tail_encode e src dst_len
      else data_encode e src dst_len
  | ChunkState.DataCrlf => '(w, e) ← data_crlf_encode e dst_len; Ok (w, None, e)
  | ChunkState.Finish => finish_encode e dst_len
  end.
End Encode.
End EncodeStatus.

Module ChunkData.
Record t := mk { chunk_buf : bytes; chunk_count : Z; chunk_last : Z }.
Definition new (buf : bytes) : t := mk buf 0 0.
End ChunkData.

(** * The body *)

Module ChunkBody.
Record t (T : Type) := mk {
  source : T;
  trailer_value : bytes;
  chunk_data : ChunkData.t;
  data_status : DataState.t;
  encode_status : EncodeStatus.t;
  trailer : EncodeTrailer.t;
}.
Arguments mk {T}.
Arguments source {T}.
Arguments trailer_value {T}.
Arguments chunk_data {T}.
Arguments data_status {T}.
Arguments encode_status {T}.
Arguments trailer {T}.

Section Generic.
Context {T E : Type}.

Definition set_source (s : t T) (x : T) : t T :=
  mk x (trailer_value s) (chunk_data s) (data_status s) (encode_status s) (trailer s).
Definition set_chunk_data (s : t T) (c : ChunkData.t) : t T :=
  mk (source s) (trailer_value s) c (data_status s) (encode_status s) (trailer s).
Definition set_data_status (s : t T) (d : DataState.t) : t T :=
  mk (source s) (trailer_value s) (chunk_data s) d (encode_status s) (trailer s).
Definition set_encode_status (s : t T) (e : EncodeStatus.t) : t T :=
  mk (source s) (trailer_value s) (chunk_data s) (data_status s) e (trailer s).
Definition set_trailer_state (s : t T) (x : EncodeTrailer.t) : t T :=
  mk (source s) (trailer_value s) (chunk_data s) (data_status s) (encode_status s) x.

Definition new (from : T) (buf : bytes) : t T :=
  mk from [] (ChunkData.new buf) DataState.Partial EncodeStatus.new EncodeTrailer.new.

(** [set_trailer]; [fields] is [trailer_headers.into_iter()]. *)
Definition trailer_line (f : bytes * HeaderValue.t) : bytes :=
  f.1 ++ str ":" ++ HeaderValue.to_vec f.2 ++ CRLF.
Definition set_trailer (s : t T) (fields : list (bytes * HeaderValue.t)) : t T :=
  mk (source s) (fields ≫= trailer_line) (chunk_data s) (data_status s) (encode_status s) (trailer s).

(** [chunk_encode] and [chunk_encode_reader], which differ in [src]. *)
Definition chunk_encode (src : bytes) (dst_len : Z) : M (t T) E bytes := λ s,
  let e := EncodeStatus.set_chunk_last (encode_status s) (ChunkData.chunk_last (chunk_data s)) in
  match EncodeStatus.encode e src dst_len with
  | Ok (w, var, e) =>
      let s := set_encode_status s e in
      match var with
      | Some v =>
          (Ok w, set_data_status
            (set_chunk_data s (ChunkData.mk (ChunkData.chunk_buf (chunk_data s)) (cnt v)
              (ChunkData.chunk_last (chunk_data s)))) (var_status v))
      | None => (Ok w, s)
      end
  | Err e' => (Err e', set_encode_status s e)
  | Panic => (Panic, set_encode_status s e)
  end.

Definition chunk_encode_reader (dst_len : Z) : M (t T) E bytes := λ s,
  let c := chunk_data s in
  if len (ChunkData.chunk_buf c) <? ChunkData.chunk_last c then (Panic, s)
  else chunk_encode (upto (ChunkData.chunk_last c) (ChunkData.chunk_buf c)) dst_len s.

Definition trailer_src (s : t T) : bytes :=
  let src := str "0" ++ CRLF in
  match trailer_value s with
  | [] => src ++ CRLF
  | _ => src ++ trailer_value s ++ CRLF
  end.

Definition trailer_encode (dst_len : Z) : M (t T) E bytes := λ s,
  match EncodeTrailer.encode (trailer s) (trailer_src s) dst_len with
  | Ok (Complete w, x) => (Ok w, set_data_status (set_trailer_state s x) DataState.Finish)
  | Ok (Partial w, x) => (Ok w, set_trailer_state s x)
  | Err e => (Err e, s)
  | Panic => (Panic, s)
  end.

(** What every source does before a chunk: reset the flag and the position and
    note the chunk's length. *)
Definition begin_chunk (s : t T) (buf : bytes) (chunk_last : Z) : t T :=
  set_chunk_data
    (set_encode_status s
      (EncodeStatus.set_chunk_idx (EncodeStatus.set_flag (encode_status s) true) 0))
    (ChunkData.mk buf (ChunkData.chunk_count (chunk_data s)) chunk_last).

(** The loop of [data], [room] the length of [buf[count..]] and [out] what is in
    [buf[..count]]; [partial] is the arm of [DataState::Partial].  [None] when the
    fuel runs out. *)
Fixpoint data_loop (partial : Z → M (t T) E bytes) (fuel : nat) (room : Z) (out : bytes)
    (s : t T) : option (res E bytes * t T) :=
  if room =? 0 then Some (Ok out, s)
  else
    match fuel with
    | O => None
    | S fuel =>
        let arm :=
          match data_status s with
          | DataState.Partial => Some (partial room)
          | DataState.Complete => Some (trailer_encode room)
          | DataState.Finish => None
          end in
        match arm with
        | None => Some (Ok out, s)
        | Some arm =>
            match arm s with
            | (Ok w, s) => data_loop partial fuel (room - len w) (out ++ w) s
            | (Err e, s) => Some (Err e, s)
            | (Panic, s) => Some (Panic, s)
            end
        end
    end.

(** A turn that writes nothing changes the stage: see [data_returns]. *)
Definition data_fuel (buf_len : Z) : nat := 3 + 2 * Z.to_nat buf_len.
End Generic.

(** ** Over a byte slice: [ChunkBody<FromBytes>] *)

Section Bytes.
Context {E : Type}.

Definition from_bytes (b : bytes) : t bytes := new b [].

Definition bytes_encode (dst_len : Z) : M (t bytes) E bytes := λ s,
  let count := ChunkData.chunk_count (chunk_data s) in
  let data_left := len (source s) - count * CHUNK_SIZE in
  let loaded :=
    if negb (EncodeStatus.get_flag (encode_status s)) then
      if data_left <? 0 then None
      else Some (begin_chunk s (ChunkData.chunk_buf (chunk_data s))
        (if data_left <? CHUNK_SIZE then data_left else CHUNK_SIZE))
    else Some s in
  match loaded with
  | None => (Panic, s)
  | Some s =>
      let a := count * CHUNK_SIZE in
      let b := a + ChunkData.chunk_last (chunk_data s) in
      if len (source s) <? b then (Panic, s)
      else chunk_encode (slice a b (source s)) dst_len s
  end.

(** [sync_impl::Body::data]. *)
Definition bytes_data (buf_len : Z) (s : t bytes) : option (res E bytes * t bytes) :=
  data_loop bytes_encode (data_fuel buf_len) buf_len [] s.

(** [async_impl::Body::poll_data], whose arms are always [Poll::Ready]. *)
Definition bytes_poll_data (buf_len : Z) (s : t bytes) : option (option (res E bytes) * t bytes) :=
  match data_loop bytes_encode (data_fuel buf_len) buf_len [] s with
  | Some (x, s) => Some (Some x, s)
  | None => None
  end.
End Bytes.

(** ** Over a reader: [ChunkBody<FromReader<T>>] *)

Section Reader.
Context {R IoError E : Type}.
(** [T::read] for a buffer of the given length: the bytes put at its front. *)
Context (read : R → Z → res IoError bytes * R).

Definition from_reader (r : R) : t R := new r (replicate (Z.to_nat CHUNK_SIZE) 0).

Definition reader_encode (dst_len : Z) : M (t R) E bytes := λ s,
  if negb (EncodeStatus.get_flag (encode_status s)) then
    let buf := ChunkData.chunk_buf (chunk_data s) in
    match read (source s) (len buf) with
    | (Ok w, r) =>
        chunk_encode_reader dst_len
          (begin_chunk (set_source s r) (w ++ from (len w) buf) (len w))
    | (_, r) => (Panic, set_source s r)
    end
  else chunk_encode_reader dst_len s.

(** [sync_impl::Body::data]. *)
Definition reader_data (buf_len : Z) (s : t R) : option (res E bytes * t R) :=
  data_loop reader_encode (data_fuel buf_len) buf_len [] s.
End Reader.

(** ** Over an asynchronous reader: [ChunkBody<FromAsyncReader<T>>] *)

Section AsyncReader.
Context {R E : Type}.
(** [AsyncRead::poll_read]; [None] is [Poll::Pending]. *)
Context (poll_read : R → Z → option (res E bytes) * R).

Definition poll_partial (dst_len : Z) (s : t R) : option (res E bytes) * t R :=
  if negb (EncodeStatus.get_flag (encode_status s)) then
    let buf := ChunkData.chunk_buf (chunk_data s) in
    match poll_read (source s) (len buf) with
    | (Some (Ok w), r) =>
        let '(x, s) := chunk_encode_reader dst_len
          (begin_chunk (set_source s r) (w ++ from (len w) buf) (len w)) in (Some x, s)
    | (Some (Err e), r) => (Some (Err e), set_source s r)
    | (Some Panic, r) => (Some Panic, set_source s r)
    | (None, r) => (None, set_source s r)
    end
  else let '(x, s) := chunk_encode_reader dst_len s in (Some x, s).

(** The loop of [async_impl::Body::poll_data]; the inner [None] is
    [Poll::Pending]. *)
Fixpoint poll_data_loop (fuel : nat) (room : Z) (out : bytes) (s : t R) :
    option (option (res E bytes) * t R) :=
  if room =? 0 then Some (Some (Ok out), s)
  else
    match fuel with
    | O => None
    | S fuel =>
        let arm :=
          match data_status s with
          | DataState.Partial => Some (poll_partial room s)
          | DataState.Complete =>
              let '(x, s) := trailer_encode room s in Some (Some x, s)
          | DataState.Finish => None
          end in
        match arm with
        | None => Some (Some (Ok out), s)
        | Some (Some (Ok w), s) => poll_data_loop fuel (room - len w) (out ++ w) s
        | Some (Some (Err e), s) => Some (Some (Err e), s)
        | Some (Some Panic, s) => Some (Some Panic, s)
        | Some (None, s) =>
            match out with
            | [] => Some (None, s)
            | _ => Some (Some (Ok out), s)
            end
        end
    end.

Definition poll_data (buf_len : Z) (s : t R) : option (option (res E bytes) * t R) :=
  poll_data_loop (data_fuel buf_len) buf_len [] s.
End AsyncReader.
End ChunkBody.

(** * What is pending *)

Lemma write_spec {E} src i n :
  0 ≤ i ≤ len src → 0 ≤ n →
  @write E src i n =
    Ok (if len src - i <=? n then Complete (from i src) else Partial (upto n (from i src)),
        i + Z.min n (len src - i)).
Proof.
  intros Hi Hn. unfold write. destruct (Z.ltb_spec (len src - i) 0); [lia|].
  pose proof (len_from i src ltac:(lia)) as Hl. pose proof (len_upto n (from i src) Hn) as Hu.
  destruct (Z.leb_spec (len src - i) n).
  - rewrite upto_all in Hu by lia. rewrite upto_all by lia. do 2 f_equal. lia.
  - do 2 f_equal. lia.
Qed.

(** A [write] either empties the source or fills the buffer. *)
Lemma write_cases {E} src i n :
  0 ≤ i < len src → 0 < n →
  (@write E src i n = Ok (Complete (from i src), len src) ∧
    0 < len (from i src) ≤ n) ∨
  (∃ w, @write E src i n = Ok (Partial w, i + n) ∧ from i src = w ++ from (i + n) src ∧
    len w = n ∧ i + n < len src).
Proof.
  intros Hi Hn. rewrite write_spec by lia. pose proof (len_from i src ltac:(lia)).
  destruct (Z.leb_spec (len src - i) n).
  - left. split; [|lia]. do 2 f_equal. lia.
  - right. exists (upto n (from i src)). rewrite len_upto by lia.
    split_and!; [do 2 f_equal; lia|apply from_split; lia|lia..].
Qed.

Lemma hex_loop_len f n acc : len acc ≤ len (hex_loop f n acc).
Proof.
  revert n acc. induction f as [|f IH]; intros n acc; simpl; [lia|].
  case_goal; [rewrite len_cons; lia|]. etrans; [|apply IH]. rewrite len_cons. lia.
Qed.

Lemma hex_loop_pos f n acc : 0 < len (hex_loop (S f) n acc).
Proof.
  simpl. pose proof (len_nonneg acc). case_goal; [rewrite len_cons; lia|].
  pose proof (hex_loop_len f (n / 16) (hex_digit (n mod 16) :: acc)) as H1.
  rewrite len_cons in H1. lia.
Qed.

Lemma to_hex_pos n : 0 < len (to_hex n).
Proof. apply hex_loop_pos. Qed.

(** [size CRLF data CRLF]. *)
Definition chunk_wire (c : bytes) : bytes := to_hex (len c) ++ CRLF ++ c ++ CRLF.

(** The chunks a source delivers, up to the first that is not full. *)
Fixpoint wire (ws : list bytes) : bytes :=
  match ws with
  | [] => []
  | c :: ws => chunk_wire c ++ (if len c =? CHUNK_SIZE then wire ws else [])
  end.

(** Full chunks, then [lc], which is not full, then one more delivery. *)
Inductive deliveries (lc : bytes) : list bytes → Prop :=
| deliveries_last x : len lc < CHUNK_SIZE → deliveries lc [lc; x]
| deliveries_full c ws : len c = CHUNK_SIZE → deliveries lc ws → deliveries lc (c :: ws).

Section Pending.
Context {T E : Type}.
(** The arm of [DataState::Partial] and the source: [ready s ws] when the source
    will deliver [ws], [current s c ws] when it has delivered [c] and will
    deliver [ws]. *)
Context (partial : Z → M (ChunkBody.t T) E bytes).
Context (ready : T → ChunkData.t → list bytes → Prop).
Context (current : T → ChunkData.t → bytes → list bytes → Prop).

Definition flag (s : ChunkBody.t T) : bool :=
  EncodeStatus.read_flag (ChunkBody.encode_status s).
Definition ready_s (s : ChunkBody.t T) := ready (ChunkBody.source s) (ChunkBody.chunk_data s).
Definition current_s (s : ChunkBody.t T) := current (ChunkBody.source s) (ChunkBody.chunk_data s).

(** What a source promises to the loop. *)
Class ChunkSource := {
  source_load : ∀ s c ws n, flag s = false → ready_s s (c :: ws) →
    ∃ x d, partial n s = ChunkBody.chunk_encode c n
        (ChunkBody.set_chunk_data (ChunkBody.set_encode_status (ChunkBody.set_source s x)
          (EncodeStatus.set_chunk_idx (EncodeStatus.set_flag (ChunkBody.encode_status s) true) 0)) d) ∧
      current x d c ws;
  source_current : ∀ s c ws n, flag s = true → current_s s c ws →
    partial n s = ChunkBody.chunk_encode c n s;
  source_last : ∀ x d c ws, current x d c ws → ChunkData.chunk_last d = len c;
  source_full : ∀ x d c ws, current x d c ws → len c = CHUNK_SIZE →
    ready x (ChunkData.mk (ChunkData.chunk_buf d) 1 (ChunkData.chunk_last d)) ws;
  source_tail : ∀ x d c ws, current x d c ws → len c < CHUNK_SIZE →
    ready x (ChunkData.mk (ChunkData.chunk_buf d) 0 (ChunkData.chunk_last d)) ws;
}.

(** The indices of the state machine, [c] the current chunk. *)
Definition es_ok (e : EncodeStatus.t) (c : bytes) : Prop :=
  EncodeHex.inner (EncodeStatus.hex e) = to_hex CHUNK_SIZE ∧
  let hex := EncodeHex.src_idx (EncodeStatus.hex e) in
  let meta := EncodeCrlf.src_idx (EncodeStatus.meta_crlf e) in
  let data := EncodeCrlf.src_idx (EncodeStatus.data_crlf e) in
  let fin := EncodeCrlf.src_idx (EncodeStatus.finish_crlf e) in
  let idx := EncodeStatus.chunk_idx e in
  match EncodeStatus.chunk_status e with
  | ChunkState.MetaSize =>
      (0 ≤ hex < len (to_hex CHUNK_SIZE) ∧ (len c ≠ CHUNK_SIZE → hex = 0)) ∧ meta = 0 ∧ data = 0 ∧ fin = 0 ∧ idx = 0
  | ChunkState.MetaExt => False
  | ChunkState.MetaCrlf => hex = 0 ∧ 0 ≤ meta < 2 ∧ data = 0 ∧ fin = 0 ∧ idx = 0
  | ChunkState.Data =>
      hex = 0 ∧ meta = 0 ∧ data = 0 ∧ fin = 0 ∧ 0 ≤ idx ∧ (idx < len c ∨ c = [] ∧ idx = 0)
  | ChunkState.DataCrlf => hex = 0 ∧ meta = 0 ∧ 0 ≤ data < 2 ∧ fin = 0 ∧ idx = 0
  | ChunkState.Finish => hex = 0 ∧ meta = 0 ∧ data = 0 ∧ 0 ≤ fin < 2
  end.

(** What is left of the chunks with [c] loaded and [tail] behind it. *)
Definition es_pending (e : EncodeStatus.t) (c tail : bytes) : bytes :=
  match EncodeStatus.chunk_status e with
  | ChunkState.MetaSize =>
      from (if len c =? CHUNK_SIZE then EncodeHex.src_idx (EncodeStatus.hex e) else 0)
        (to_hex (len c)) ++ CRLF ++ c ++ CRLF ++ tail
  | ChunkState.MetaExt => []
  | ChunkState.MetaCrlf =>
      from (EncodeCrlf.src_idx (EncodeStatus.meta_crlf e)) CRLF ++ c ++ CRLF ++ tail
  | ChunkState.Data => from (EncodeStatus.chunk_idx e) c ++ CRLF ++ tail
  | ChunkState.DataCrlf =>
      from (EncodeCrlf.src_idx (EncodeStatus.data_crlf e)) CRLF ++ chunk_wire c ++ tail
  | ChunkState.Finish => from (EncodeCrlf.src_idx (EncodeStatus.finish_crlf e)) CRLF ++ tail
  end.

Definition chunk_tail (s : ChunkBody.t T) (c : bytes) (ws : list bytes) : bytes :=
  match EncodeStatus.chunk_status (ChunkBody.encode_status s) with
  | ChunkState.Finish => ChunkBody.trailer_src s
  | _ => (if len c =? CHUNK_SIZE then wire ws else []) ++ ChunkBody.trailer_src s
  end.

(** [lc] is the last chunk. *)
Definition chunk_follows (lc : bytes) (e : EncodeStatus.t) (c : bytes) (ws : list bytes) : Prop :=
  match EncodeStatus.chunk_status e with
  | ChunkState.Finish => True
  | _ => deliveries lc (c :: ws)
  end.

(** A body with the chunk [c] loaded, and [p] pending. *)
Record loaded (lc : bytes) (s : ChunkBody.t T) (c p : bytes) : Prop := {
  loaded_status : ChunkBody.data_status s = DataState.Partial;
  loaded_flag : flag s = true;
  loaded_trailer : EncodeTrailer.src_idx (ChunkBody.trailer s) = 0;
  loaded_es : es_ok (ChunkBody.encode_status s) c;
  loaded_ws : ∃ ws, current_s s c ws ∧ chunk_follows lc (ChunkBody.encode_status s) c ws ∧
    p = es_pending (ChunkBody.encode_status s) c (chunk_tail s c ws);
}.

Definition begun (e : EncodeStatus.t) : EncodeStatus.t :=
  EncodeStatus.set_chunk_idx (EncodeStatus.set_flag e true) 0.

(** A body about to load the chunk [c]. *)
Record unloaded (lc : bytes) (s : ChunkBody.t T) (c p : bytes) : Prop := {
  unloaded_status : ChunkBody.data_status s = DataState.Partial;
  unloaded_flag : flag s = false;
  unloaded_trailer : EncodeTrailer.src_idx (ChunkBody.trailer s) = 0;
  unloaded_es : es_ok (begun (ChunkBody.encode_status s)) c;
  unloaded_ws : ∃ ws, ready_s s (c :: ws) ∧ chunk_follows lc (ChunkBody.encode_status s) c ws ∧
    p = es_pending (begun (ChunkBody.encode_status s)) c (chunk_tail s c ws);
}.

(** The body [s] has [p] still to write. *)
Inductive pending_body (lc : bytes) (s : ChunkBody.t T) (p : bytes) : Prop :=
| pending_loaded c : loaded lc s c p → pending_body lc s p
| pending_unloaded c : unloaded lc s c p → pending_body lc s p
| pending_trailer :
    ChunkBody.data_status s = DataState.Complete →
    0 ≤ EncodeTrailer.src_idx (ChunkBody.trailer s) < len (ChunkBody.trailer_src s) →
    p = from (EncodeTrailer.src_idx (ChunkBody.trailer s)) (ChunkBody.trailer_src s) →
    pending_body lc s p
| pending_finish : ChunkBody.data_status s = DataState.Finish → p = [] → pending_body lc s p.

(** A buffer that leaves [d] bytes for later does not end within the digits of
    the last chunk's size. *)
Definition cut_ok (lc : bytes) (trailer : bytes) (d : Z) : Prop :=
  let after := 2 + len lc + 2 + len trailer in
  d ≤ after ∨ after + len (to_hex (len lc)) ≤ d.

(** One turn of the loop. *)
Definition turn_ok (lc : bytes) (n : Z) (s : ChunkBody.t T) (p : bytes)
    (r : res E bytes * ChunkBody.t T) : Prop :=
  ∃ w s' p', r = (Ok w, s') ∧ p = w ++ p' ∧ len w ≤ n ∧ pending_body lc s' p' ∧
    ChunkBody.trailer_src s' = ChunkBody.trailer_src s ∧
    (w = [] → EncodeStatus.chunk_status (ChunkBody.encode_status s) = ChunkState.Data ∧
              EncodeStatus.chunk_status (ChunkBody.encode_status s') ≠ ChunkState.Data).
End Pending.
Arguments source_load {T E partial ready current _}.
Arguments source_current {T E partial ready current _}.
Arguments source_last {T E partial ready current _}.
Arguments source_full {T E partial ready current _}.
Arguments source_tail {T E partial ready current _}.

Section Turns.
Context {T E : Type} {partial : Z → M (ChunkBody.t T) E bytes}.
Context {ready : T → ChunkData.t → list bytes → Prop}.
Context {current : T → ChunkData.t → bytes → list bytes → Prop}.
Context `{!ChunkSource partial ready current}.
Implicit Types (s : ChunkBody.t T) (c p lc : bytes).

Lemma deliveries_cons lc c ws :
  deliveries lc (c :: ws) →
  (c = lc ∧ len c < CHUNK_SIZE ∧ ∃ x, ws = [x]) ∨ (len c = CHUNK_SIZE ∧ deliveries lc ws).
Proof. inversion 1; subst; [left|right]; eauto. Qed.

Lemma chunk_encode_eq c n s :
  @ChunkBody.chunk_encode T E c n s =
    let e := EncodeStatus.set_chunk_last (ChunkBody.encode_status s)
               (ChunkData.chunk_last (ChunkBody.chunk_data s)) in
    match EncodeStatus.encode e c n with
    | Ok (w, var, e) =>
        let s := ChunkBody.set_encode_status s e in
        match var with
        | Some v =>
            (Ok w, ChunkBody.set_data_status
              (ChunkBody.set_chunk_data s (ChunkData.mk (ChunkData.chunk_buf (ChunkBody.chunk_data s))
                (cnt v) (ChunkData.chunk_last (ChunkBody.chunk_data s)))) (var_status v))
        | None => (Ok w, s)
        end
    | Err e' => (Err e', ChunkBody.set_encode_status s e)
    | Panic => (Panic, ChunkBody.set_encode_status s e)
    end.
Proof. done. Qed.

Lemma trailer_src_pos s : 0 < len (ChunkBody.trailer_src s).
Proof. unfold ChunkBody.trailer_src. by destruct (ChunkBody.trailer_value s). Qed.

Ltac open_body s H :=
  destruct s as [x tv [buf cc cl] ds [cs el ci rf si st [mc] [dc] [fc] [hi hx] hl] [ti]];
  destruct H as [Hst Hfl Htr [Hhex Hes] (ws & Hcur & Hfo & Hp)];
  unfold flag, current_s, chunk_follows, es_pending, chunk_tail in *; simpl in *; subst;
  pose proof (source_last _ _ _ _ Hcur) as Hlast; simpl in *; subst;
  rewrite chunk_encode_eq; cbn [ChunkBody.encode_status]; unfold EncodeStatus.encode; simpl.
(** The goal [turn_ok] with the result computed; [Hw] says what was written. *)
Ltac close_turn Hw :=
  eexists _, _, _; split_and!;
    [reflexivity|first [reflexivity|by rewrite Hw, <- app_assoc]|lia| |done|
     intros H0; exfalso; revert H0; apply len_pos_ne; lia].
Ltac still_loaded c ws :=
  eapply (pending_loaded _ _ _ _ _ c); split;
    [done|done|done|unfold es_ok; simpl; split_and!; try solve [done|lia|vm_compute; done]|
     simpl; exists ws].

Lemma loaded_meta_crlf lc s c p n :
  loaded current lc s c p → 0 < n →
  EncodeStatus.chunk_status (ChunkBody.encode_status s) = ChunkState.MetaCrlf →
  turn_ok (E := E) ready current lc n s p (ChunkBody.chunk_encode c n s).
Proof.
  intros H Hn Hs. open_body s H. destruct Hes as (-> & Hi & -> & -> & ->).
  unfold EncodeStatus.meta_crlf_encode, EncodeCrlf.encode. simpl.
  destruct (write_cases (E := E) CRLF mc n Hi Hn) as [[-> Hw]|(w & -> & Hw & Hl & Hi')]; simpl.
  - close_turn Hw. still_loaded c ws; [|done].
    destruct c; [by right|left]. rewrite len_cons. pose proof (len_nonneg c). lia.
  - close_turn Hw. change (len CRLF) with 2 in Hi'. by still_loaded c ws.
Qed.

Lemma loaded_meta_size lc s c p n :
  loaded current lc s c p → 0 < n → cut_ok lc (ChunkBody.trailer_src s) (len p - n) →
  EncodeStatus.chunk_status (ChunkBody.encode_status s) = ChunkState.MetaSize →
  turn_ok (E := E) ready current lc n s p (ChunkBody.chunk_encode c n s).
Proof.
  intros H Hn Hcut Hs. open_body s H. destruct Hes as ([Hi Hi0] & -> & -> & -> & ->).
  unfold EncodeStatus.meta_size_encode, EncodeHex.encode. simpl.
  destruct (Z.eqb_spec (len c) CHUNK_SIZE) as [Hc|Hc]; simpl.
  - rewrite Hc in *.
    destruct (write_cases (E := E) (to_hex CHUNK_SIZE) hx n Hi Hn) as [[-> Hw]|(w & -> & Hw & Hl & Hi')];
      simpl.
    + close_turn Hw. still_loaded c ws. unfold es_pending, chunk_tail; simpl. by rewrite Hc, Z.eqb_refl.
    + close_turn Hw. still_loaded c ws. unfold es_pending, chunk_tail; simpl. by rewrite Hc, Z.eqb_refl.
  - destruct (deliveries_cons _ _ _ Hfo) as [(-> & Hs & y & ->)|[? _]]; [|done].
    pose proof (to_hex_pos (len lc)) as Hpos.
    destruct (write_cases (E := E) (to_hex (len lc)) 0 n ltac:(lia) Hn)
      as [[-> Hw]|(w & -> & Hw & Hl & Hi')]; simpl.
    + specialize (Hi0 Hc) as ->. close_turn Hw. still_loaded lc [y]. unfold es_pending, chunk_tail; simpl. by rewrite (proj2 (Z.eqb_neq _ _) Hc).
    + exfalso. revert Hcut. unfold cut_ok. simpl. rewrite from_0 by lia.
      autorewrite with len. lia.
Qed.

Lemma loaded_data_crlf lc s c p n :
  loaded current lc s c p → 0 < n →
  EncodeStatus.chunk_status (ChunkBody.encode_status s) = ChunkState.DataCrlf →
  turn_ok (E := E) ready current lc n s p (ChunkBody.chunk_encode c n s).
Proof.
  intros H Hn Hs. open_body s H. destruct Hes as (-> & -> & Hi & -> & ->).
  unfold EncodeStatus.data_crlf_encode, EncodeCrlf.encode. simpl.
  destruct (write_cases (E := E) CRLF dc n Hi Hn) as [[-> Hw]|(w & -> & Hw & Hl & Hi')]; simpl.
  - close_turn Hw. still_loaded c ws. split_and!; [done..|].
    unfold chunk_wire, es_pending, chunk_tail. simpl.
    rewrite from_0 by (destruct (_ =? _); lia). rewrite <- !app_assoc. f_equal. simpl.
    by rewrite <- app_assoc.
  - close_turn Hw. change (len CRLF) with 2 in Hi'. by still_loaded c ws.
Qed.

Lemma loaded_finish lc s c p n :
  loaded current lc s c p → 0 < n →
  EncodeStatus.chunk_status (ChunkBody.encode_status s) = ChunkState.Finish →
  turn_ok (E := E) ready current lc n s p (ChunkBody.chunk_encode c n s).
Proof.
  intros H Hn Hs. open_body s H. destruct Hes as (-> & -> & -> & Hi).
  unfold EncodeStatus.finish_encode, EncodeCrlf.encode. simpl.
  destruct (write_cases (E := E) CRLF fc n Hi Hn) as [[-> Hw]|(w & -> & Hw & Hl & Hi')]; simpl.
  - close_turn Hw. apply pending_trailer; simpl; [done| |by rewrite from_0].
    split; [done|]. apply trailer_src_pos.
  - close_turn Hw. change (len CRLF) with 2 in Hi'. by still_loaded c ws.
Qed.

Lemma loaded_data lc s c p n :
  loaded current lc s c p → 0 < n →
  EncodeStatus.chunk_status (ChunkBody.encode_status s) = ChunkState.Data →
  turn_ok (E := E) ready current lc n s p (ChunkBody.chunk_encode c n s).
Proof.
  intros H Hn Hs. open_body s H. destruct Hes as (-> & -> & -> & -> & Hi0 & Hi).
  unfold EncodeStatus.data_encode, EncodeStatus.tail_encode. simpl.
  rewrite write_spec by (destruct Hi as [|[-> ->]]; [|change (len []) with 0]; lia).
  pose proof (len_from ci c ltac:(lia)) as Hlf. simpl.
  pose proof (len_upto n (from ci c) ltac:(lia)) as Hlu.
  destruct (Z.leb_spec (len c - ci) n) as [Hle|Hlt].
  - destruct (deliveries_cons _ _ _ Hfo) as [(-> & Hc & y & ->)|[Hc Hd]].
    + rewrite (proj2 (Z.eqb_neq (len lc) CHUNK_SIZE)) by lia. simpl.
      eexists _, _, _. split_and!; [reflexivity|reflexivity|lia| |done|done].
      eapply (pending_unloaded _ _ _ _ _ y). split; [done..| |]; simpl.
      * unfold es_ok. simpl. split_and!; try solve [done|lia|vm_compute; done].
      * exists []. split_and!; [|done..]. by apply (source_tail _ _ _ _ Hcur).
    + rewrite Hc. simpl. destruct ws as [|c' ws]; [inversion Hd|].
      eexists _, _, _. split_and!; [reflexivity|reflexivity|lia| |done|done].
      eapply (pending_unloaded _ _ _ _ _ c'). split; [done..| |]; simpl.
      * unfold es_ok. simpl. split_and!; try solve [done|lia|vm_compute; done].
      * exists ws. split_and!; [|done|].
        { rewrite <- Hc. by apply (source_full _ _ _ _ Hcur). }
        unfold es_pending, chunk_tail. simpl. by rewrite <- app_assoc.
  - assert (Hw : from ci c = upto n (from ci c) ++ from (ci + n) c) by (apply from_split; lia).
    revert Hw Hlu. generalize (upto n (from ci c)). intros w Hw Hlu.
    destruct (Z.eqb_spec (len c) CHUNK_SIZE) as [Hc|Hc]; simpl.
    + close_turn Hw. rewrite Z.min_l by lia. still_loaded c ws. split_and!; try done.
      unfold es_pending, chunk_tail. simpl. by rewrite Hc, Z.eqb_refl.
    + close_turn Hw. rewrite Z.min_l by lia. still_loaded c ws. split_and!; try done.
      unfold es_pending, chunk_tail. simpl. by rewrite (proj2 (Z.eqb_neq _ _) Hc).
Qed.

Lemma loaded_turn lc s c p n :
  loaded current lc s c p → 0 < n → cut_ok lc (ChunkBody.trailer_src s) (len p - n) →
  turn_ok (E := E) ready current lc n s p (ChunkBody.chunk_encode c n s).
Proof.
  intros H Hn Hcut. pose proof (loaded_es _ _ _ _ _ H) as [_ Hes].
  destruct (EncodeStatus.chunk_status _) eqn:Hs; [by apply loaded_meta_size|done|..].
  - by apply loaded_meta_crlf.
  - by apply loaded_data.
  - by apply loaded_data_crlf.
  - by apply loaded_finish.
Qed.

(** Loading a chunk changes nothing of what is pending. *)
Lemma unloaded_turn lc s c p n :
  unloaded ready lc s c p → 0 < n → cut_ok lc (ChunkBody.trailer_src s) (len p - n) →
  turn_ok (E := E) ready current lc n s p (partial n s).
Proof.
  intros [Hst Hfl Htr Hes (ws & Hr & Hfo & ->)] Hn Hcut.
  destruct (source_load s c ws n Hfl Hr) as (x & d & -> & Hcur).
  match goal with |- turn_ok _ _ _ _ _ ?p (ChunkBody.chunk_encode c n ?s') =>
    assert (Hl : loaded current lc s' c p) end.
  { split; [done..|]. simpl. by exists ws. }
  pose proof (loaded_turn _ _ _ _ n Hl Hn Hcut) as (w & s' & p' & Hw).
  exists w, s', p'. destruct Hw as (? & ? & ? & ? & ? & H). by split_and!.
Qed.

Definition arm (n : Z) (s : ChunkBody.t T) : M (ChunkBody.t T) E bytes :=
  match ChunkBody.data_status s with
  | DataState.Partial => partial n
  | _ => ChunkBody.trailer_encode n
  end.

Lemma trailer_turn lc s p n :
  ChunkBody.data_status s = DataState.Complete →
  0 ≤ EncodeTrailer.src_idx (ChunkBody.trailer s) < len (ChunkBody.trailer_src s) →
  p = from (EncodeTrailer.src_idx (ChunkBody.trailer s)) (ChunkBody.trailer_src s) →
  0 < n → turn_ok (E := E) ready current lc n s p (ChunkBody.trailer_encode n s).
Proof.
  intros Hst Hi -> Hn. unfold ChunkBody.trailer_encode, EncodeTrailer.encode.
  destruct (write_cases (E := E) _ _ n Hi Hn) as [[-> Hw]|(w & -> & Hw & Hl & Hi')]; simpl.
  - exists (from (EncodeTrailer.src_idx (ChunkBody.trailer s)) (ChunkBody.trailer_src s)).
    eexists _, []. split_and!; [reflexivity|by rewrite app_nil_r|lia| |done|].
    + by apply pending_finish.
    + intros H0. exfalso. by apply (len_pos_ne _ (proj1 Hw)).
  - eexists _, _, _. split_and!; [reflexivity|exact Hw|lia| |done|].
    + apply pending_trailer; simpl; [done| |done]. split; [lia|exact Hi'].
    + intros ->. change (len []) with 0 in Hl. lia.
Qed.

Lemma body_turn lc s p n :
  pending_body ready current lc s p → ChunkBody.data_status s ≠ DataState.Finish → 0 < n →
  cut_ok lc (ChunkBody.trailer_src s) (len p - n) →
  turn_ok (E := E) ready current lc n s p (arm n s s).
Proof.
  intros [c H|c H|Hst Hi Hp|Hst _] Hf Hn Hcut; unfold arm.
  - pose proof (loaded_ws _ _ _ _ _ H) as (ws & Hcur & _).
    rewrite (loaded_status _ _ _ _ _ H).
    rewrite (source_current _ _ _ _ (loaded_flag _ _ _ _ _ H) Hcur). by apply loaded_turn.
  - rewrite (unloaded_status _ _ _ _ _ H). by eapply unloaded_turn.
  - rewrite Hst. by eapply trailer_turn.
  - done.
Qed.

Definition in_data (s : ChunkBody.t T) : nat :=
  match EncodeStatus.chunk_status (ChunkBody.encode_status s) with ChunkState.Data => 1 | _ => 0 end.

Lemma data_loop_eq fuel n out s :
  n ≠ 0 → ChunkBody.data_status s ≠ DataState.Finish →
  ChunkBody.data_loop partial (S fuel) n out s =
    match arm n s s with
    | (Ok w, s) => ChunkBody.data_loop partial fuel (n - len w) (out ++ w) s
    | (Err e, s) => Some (Err e, s)
    | (Panic, s) => Some (Panic, s)
    end.
Proof.
  intros Hn Hs. simpl. rewrite (proj2 (Z.eqb_neq _ _) Hn). unfold arm.
  by destruct (ChunkBody.data_status s).
Qed.

(** The loop fills the buffer with what is pending, and takes at most two turns
    for a byte. *)
Lemma data_loop_spec lc fuel n out s p :
  pending_body ready current lc s p → 0 ≤ n → cut_ok lc (ChunkBody.trailer_src s) (len p - n) →
  (2 * Z.to_nat n + in_data s + 1 ≤ fuel)%nat →
  ∃ s', ChunkBody.data_loop partial fuel n out s = Some (Ok (out ++ upto n p), s') ∧
    pending_body ready current lc s' (from n p) ∧
    ChunkBody.trailer_src s' = ChunkBody.trailer_src s.
Proof.
  revert n out s p. induction fuel as [|fuel IH]; intros n out s p Hp Hn Hcut Hf; [lia|].
  destruct (decide (n = 0)) as [->|Hn0].
  { exists s. simpl. rewrite upto_0, from_0, app_nil_r by lia. done. }
  destruct (decide (ChunkBody.data_status s = DataState.Finish)) as [Hs|Hs].
  { exists s. destruct Hp as [? [H]|? [H]|H|_ ->]; [congruence..|].
    simpl. rewrite (proj2 (Z.eqb_neq _ _) Hn0), Hs. rewrite upto_all, from_all, app_nil_r by done.
    split_and!; [done| |done]. by apply pending_finish. }
  rewrite data_loop_eq by done.
  destruct (body_turn lc s p n Hp Hs ltac:(lia) Hcut) as (w & s' & p' & -> & -> & Hw & Hp' & Ht & H0).
  pose proof (len_nonneg w). rewrite len_app in Hcut. unfold in_data in *.
  destruct (IH (n - len w) (out ++ w) s' p' Hp') as (s2 & -> & Hp2 & Ht2); [lia| | |].
  - rewrite Ht. by replace (len p' - (n - len w)) with (len w + len p' - n) by lia.
  - destruct (decide (w = [])) as [->|Hne].
    + destruct H0 as [H1 H2]; [done|]. rewrite H1 in Hf. change (len []) with 0.
      rewrite Z.sub_0_r.
      destruct (EncodeStatus.chunk_status (ChunkBody.encode_status s')); solve [lia|done].
    + assert (0 < len w) by (destruct w; [done|]; rewrite len_cons; pose proof (len_nonneg w); lia).
      destruct (EncodeStatus.chunk_status _), (EncodeStatus.chunk_status _); lia.
  - exists s2. rewrite upto_app_ge, from_app_ge by lia. rewrite app_assoc.
    split_and!; [done..|congruence].
Qed.

End Turns.

(** * The sources *)

(** What a slice shorter than two full chunks delivers; the last delivery is the
    one made while the last CRLF is written, and is not used. *)
Definition cut (b : bytes) : list bytes :=
  if len b <? CHUNK_SIZE then [b; b] else [upto CHUNK_SIZE b; from CHUNK_SIZE b; upto CHUNK_SIZE b].

Definition bytes_ready (b : bytes) (d : ChunkData.t) (ws : list bytes) : Prop :=
  len b < 2 * CHUNK_SIZE ∧
  (ChunkData.chunk_count d = 0 ∧ ws `prefix_of` cut b ∨
   ChunkData.chunk_count d = 1 ∧ CHUNK_SIZE ≤ len b ∧ ws `prefix_of` tail (cut b)).

Definition bytes_current (b : bytes) (d : ChunkData.t) (c : bytes) (ws : list bytes) : Prop :=
  len b < 2 * CHUNK_SIZE ∧ ChunkData.chunk_last d = len c ∧
  (ChunkData.chunk_count d = 0 ∧ c = upto CHUNK_SIZE b ∧ ws `prefix_of` tail (cut b) ∨
   ChunkData.chunk_count d = 1 ∧ CHUNK_SIZE ≤ len b ∧ c = from CHUNK_SIZE b ∧
     ws `prefix_of` [upto CHUNK_SIZE b]).

Lemma cut_eq b : cut b = upto CHUNK_SIZE b :: tail (cut b).
Proof.
  unfold cut. destruct (Z.ltb_spec (len b) CHUNK_SIZE); [|done]. by rewrite upto_all by lia.
Qed.

(** The slice [bytes_encode] passes on, for the [k]-th chunk. *)
Lemma bytes_slice (b : bytes) k :
  0 ≤ k → k * CHUNK_SIZE ≤ len b →
  let c := upto CHUNK_SIZE (from (k * CHUNK_SIZE) b) in
  slice (k * CHUNK_SIZE) (k * CHUNK_SIZE + len c) b = c ∧ k * CHUNK_SIZE + len c ≤ len b ∧
  len c = (if len b - k * CHUNK_SIZE <? CHUNK_SIZE then len b - k * CHUNK_SIZE else CHUNK_SIZE).
Proof.
  intros Hk Hb c. unfold CHUNK_SIZE in *.
  pose proof (len_from (k * 1024) b ltac:(lia)) as Hf.
  pose proof (len_upto 1024 (from (k * 1024) b) ltac:(lia)) as Hu. fold c in Hu.
  split_and!; [|lia|destruct (Z.ltb_spec (len b - k * 1024) 1024); lia].
  rewrite slice_upto_from by (try lia; apply len_nonneg). subst c.
  destruct (Z.le_gt_cases 1024 (len (from (k * 1024) b))).
  - by rewrite Hu, Z.min_l by lia.
  - rewrite (upto_all 1024) by lia. by rewrite upto_all by lia.
Qed.

(** The chunk the slice [b] delivers when [chunk_count] is [k]. *)
Lemma bytes_load {E} s n :
  EncodeStatus.get_flag (ChunkBody.encode_status s) = false →
  let k := ChunkData.chunk_count (ChunkBody.chunk_data s) in
  let b := ChunkBody.source s in
  0 ≤ k → k * CHUNK_SIZE ≤ len b →
  let c := upto CHUNK_SIZE (from (k * CHUNK_SIZE) b) in
  @ChunkBody.bytes_encode E n s =
    ChunkBody.chunk_encode c n
      (ChunkBody.begin_chunk s (ChunkData.chunk_buf (ChunkBody.chunk_data s)) (len c)).
Proof.
  intros Hf k b Hk Hb c. destruct (bytes_slice b k Hk Hb) as (H1 & H2 & H3). fold c in H1, H2, H3.
  unfold ChunkBody.bytes_encode. rewrite Hf. cbn [negb]. fold k b. rewrite <- H3.
  rewrite (proj2 (Z.ltb_ge (len b - k * CHUNK_SIZE) 0)) by lia.
  cbn [ChunkBody.chunk_data ChunkBody.begin_chunk ChunkBody.set_chunk_data ChunkData.chunk_last
       ChunkBody.source ChunkBody.set_encode_status]. fold b.
  rewrite (proj2 (Z.ltb_ge (len b) (k * CHUNK_SIZE + len c))) by lia. by rewrite H1.
Qed.

Lemma bytes_same {E} s n c :
  EncodeStatus.get_flag (ChunkBody.encode_status s) = true →
  let k := ChunkData.chunk_count (ChunkBody.chunk_data s) in
  let b := ChunkBody.source s in
  0 ≤ k → k * CHUNK_SIZE ≤ len b → c = upto CHUNK_SIZE (from (k * CHUNK_SIZE) b) →
  ChunkData.chunk_last (ChunkBody.chunk_data s) = len c →
  @ChunkBody.bytes_encode E n s = ChunkBody.chunk_encode c n s.
Proof.
  intros Hf k b Hk Hb -> Hl. destruct (bytes_slice b k Hk Hb) as (H1 & H2 & H3).
  unfold ChunkBody.bytes_encode. rewrite Hf. cbn [negb]. rewrite Hl. fold k b.
  rewrite (proj2 (Z.ltb_ge (len b) _)) by lia. by rewrite H1.
Qed.

Lemma cut_tail b : CHUNK_SIZE ≤ len b → tail (cut b) = [from CHUNK_SIZE b; upto CHUNK_SIZE b].
Proof. intros. unfold cut. by rewrite (proj2 (Z.ltb_ge _ _)) by lia. Qed.

Lemma prefix_cons_l {A} (x y : A) l k : x :: l `prefix_of` y :: k → x = y ∧ l `prefix_of` k.
Proof. intros H. split; [by apply prefix_cons_inv_1 in H|by apply prefix_cons_inv_2 in H]. Qed.

(** The loaded chunk in terms of [chunk_count]. *)
Lemma bytes_chunk b k c ws :
  len b < 2 * CHUNK_SIZE →
  (k = 0 ∧ c = upto CHUNK_SIZE b ∧ ws `prefix_of` tail (cut b) ∨
   k = 1 ∧ CHUNK_SIZE ≤ len b ∧ c = from CHUNK_SIZE b ∧ ws `prefix_of` [upto CHUNK_SIZE b]) →
  0 ≤ k ∧ k * CHUNK_SIZE ≤ len b ∧ c = upto CHUNK_SIZE (from (k * CHUNK_SIZE) b).
Proof.
  intros Hb [(-> & -> & _)|(-> & Hl & -> & _)].
  - split_and!; [lia|rewrite Z.mul_0_l; apply len_nonneg|]. by rewrite Z.mul_0_l, from_0.
  - split_and!; [lia|lia|]. rewrite Z.mul_1_l. symmetry. apply upto_all.
    rewrite len_from by (unfold CHUNK_SIZE; lia). unfold CHUNK_SIZE in *. lia.
Qed.

Lemma bytes_ready_cons b d c ws :
  bytes_ready b d (c :: ws) →
  ∀ buf, bytes_current b (ChunkData.mk buf (ChunkData.chunk_count d) (len c)) c ws.
Proof.
  intros (Hb & H) buf. split; [done|]. split; [done|]. destruct H as [[-> H]|(-> & Hl & H)].
  - left. rewrite cut_eq in H. apply prefix_cons_l in H as [-> H]. done.
  - right. rewrite cut_tail in H by done. apply prefix_cons_l in H as [-> H]. done.
Qed.

Lemma bytes_source E : ChunkSource (E := E) ChunkBody.bytes_encode bytes_ready bytes_current.
Proof.
  split.
  - intros s c ws n Hf Hr.
    pose proof (bytes_ready_cons _ _ _ _ Hr (ChunkData.chunk_buf (ChunkBody.chunk_data s))) as Hc.
    destruct (bytes_chunk _ _ _ _ (proj1 Hc) (proj2 (proj2 Hc))) as (H1 & H2 & H3).
    rewrite bytes_load by done. simpl in H3. rewrite <- H3.
    exists (ChunkBody.source s), (ChunkData.mk (ChunkData.chunk_buf (ChunkBody.chunk_data s))
      (ChunkData.chunk_count (ChunkBody.chunk_data s)) (len c)). by destruct s.
  - intros s c ws n Hf (Hb & Hl & H). destruct (bytes_chunk _ _ _ _ Hb H) as (H1 & H2 & H3).
    by apply bytes_same.
  - by intros x d c ws (_ & -> & _).
  - intros x d c ws (Hb & Hl & H) Hc. split; [done|]. right.
    destruct H as [(_ & -> & H)|(_ & H1 & -> & _)].
    + split_and!; [done| |done]. rewrite len_upto in Hc by (unfold CHUNK_SIZE; lia). lia.
    + rewrite len_from in Hc by (unfold CHUNK_SIZE; lia). unfold CHUNK_SIZE in *. lia.
  - intros x d c ws (Hb & Hl & H) Hc. split; [done|]. left. split; [done|].
    destruct H as [(_ & -> & H)|(_ & H1 & -> & H)].
    + rewrite len_upto in Hc by (unfold CHUNK_SIZE; lia). unfold cut in *.
      rewrite (proj2 (Z.ltb_lt _ _)) in * by lia. simpl in H. etrans; [exact H|]. by exists [x].
    + etrans; [exact H|]. rewrite cut_eq. by exists (tail (cut x)).
Qed.

(** A reader whose next reads into a buffer of [CHUNK_SIZE] bytes return [ws]. *)
Section ReaderSource.
Context {R IoError : Type} (read : R → Z → res IoError bytes * R).

Fixpoint delivers (r : R) (ws : list bytes) : Prop :=
  match ws with
  | [] => True
  | w :: ws => len w ≤ CHUNK_SIZE ∧
      match read r CHUNK_SIZE with (Ok w', r') => w' = w ∧ delivers r' ws | _ => False end
  end.

Definition reader_ready (r : R) (d : ChunkData.t) (ws : list bytes) : Prop :=
  len (ChunkData.chunk_buf d) = CHUNK_SIZE ∧ delivers r ws.

Definition reader_current (r : R) (d : ChunkData.t) (c : bytes) (ws : list bytes) : Prop :=
  len (ChunkData.chunk_buf d) = CHUNK_SIZE ∧ ChunkData.chunk_last d = len c ∧
  len c ≤ CHUNK_SIZE ∧ upto (len c) (ChunkData.chunk_buf d) = c ∧ delivers r ws.

Lemma reader_same {E} s n c ws :
  reader_current (ChunkBody.source s) (ChunkBody.chunk_data s) c ws →
  @ChunkBody.chunk_encode_reader R E n s = ChunkBody.chunk_encode c n s.
Proof.
  intros (Hb & Hl & Hc & Hu & _). unfold ChunkBody.chunk_encode_reader.
  rewrite (proj2 (Z.ltb_ge _ _)) by lia. by rewrite Hl, Hu.
Qed.

Lemma reader_source E :
  ChunkSource (E := E) (ChunkBody.reader_encode read) reader_ready reader_current.
Proof.
  split.
  - intros s c ws n Hf [Hb [Hl Hd]]. unfold ChunkBody.reader_encode.
    unfold flag in Hf. unfold EncodeStatus.get_flag. rewrite Hf, Hb. simpl.
    destruct (read (ChunkBody.source s) CHUNK_SIZE) as [[w| |] r] eqn:Hr; [|done..].
    destruct Hd as [-> Hd].
    set (d := ChunkData.mk (c ++ from (len c) (ChunkData.chunk_buf (ChunkBody.chunk_data s)))
      (ChunkData.chunk_count (ChunkBody.chunk_data s)) (len c)).
    assert (Hcur : reader_current r d c ws).
    { split_and!; simpl; [|done|done| |done].
      - rewrite len_app, len_from by apply len_nonneg. lia.
      - by apply upto_app_exact. }
    exists r, d. split; [|done].
    rewrite (reader_same _ _ c ws); [by destruct s|by destruct s].
  - intros s c ws n Hf Hc. unfold ChunkBody.reader_encode, EncodeStatus.get_flag.
    unfold flag in Hf. rewrite Hf. by apply (reader_same _ _ _ ws).
  - by intros x d c ws (_ & -> & _).
  - by intros x d c ws (Hb & _ & _ & _ & Hd) _.
  - by intros x d c ws (Hb & _ & _ & _ & Hd) _.
Qed.
End ReaderSource.

(** * A whole body through a sequence of buffers *)

(** Calls of [data] with buffers of lengths [ns], each taking what was written. *)
Fixpoint data_calls {S E} (data : Z → S → option (res E bytes * S)) (ns : list Z) (s : S) :
    option (bytes * S) :=
  match ns with
  | [] => Some ([], s)
  | n :: ns =>
      match data n s with
      | Some (Ok w, s) =>
          match data_calls data ns s with Some (w', s) => Some (w ++ w', s) | None => None end
      | _ => None
      end
  end.

(** No buffer ends within the digits of the last chunk's size. *)
Fixpoint cuts_ok (lc trailer : bytes) (total : Z) (ns : list Z) : Prop :=
  match ns with
  | [] => True
  | n :: ns => cut_ok lc trailer (total - n) ∧ cuts_ok lc trailer (total - n) ns
  end.

Section Calls.
Context {T E : Type} {partial : Z → M (ChunkBody.t T) E bytes}.
Context {ready : T → ChunkData.t → list bytes → Prop}.
Context {current : T → ChunkData.t → bytes → list bytes → Prop}.
Context `{!ChunkSource partial ready current}.

Definition body_data (n : Z) (s : ChunkBody.t T) : option (res E bytes * ChunkBody.t T) :=
  ChunkBody.data_loop partial (ChunkBody.data_fuel n) n [] s.

Lemma cuts_ok_past lc tr d ns : d ≤ 0 → Forall (λ n, 0 ≤ n) ns → cuts_ok lc tr d ns.
Proof.
  intros Hd H. revert d Hd. induction H as [|n ns Hn _ IH]; intros d Hd; [done|].
  split; [|apply IH; lia]. left. pose proof (len_nonneg lc). pose proof (len_nonneg tr). lia.
Qed.

Lemma data_calls_spec lc ns s p :
  pending_body ready current lc s p → Forall (λ n, 0 ≤ n) ns →
  cuts_ok lc (ChunkBody.trailer_src s) (len p) ns →
  ∃ s', data_calls body_data ns s = Some (upto (zsum ns) p, s') ∧
    pending_body ready current lc s' (from (zsum ns) p).
Proof.
  intros Hp Hns. revert s p Hp. induction Hns as [|n ns Hn Hns IH]; intros s p Hp Hcut; simpl.
  { exists s. by rewrite upto_0, from_0 by done. }
  destruct Hcut as [Hc Hcs]. pose proof (zsum_nonneg _ Hns) as Hz.
  destruct (data_loop_spec lc (ChunkBody.data_fuel n) n [] s p Hp Hn Hc) as (s1 & H1 & Hp1 & Ht1).
  { unfold ChunkBody.data_fuel, in_data. destruct (EncodeStatus.chunk_status _); lia. }
  unfold body_data at 1. rewrite H1. simpl. destruct (IH s1 (from n p) Hp1) as (s2 & -> & Hp2).
  { rewrite Ht1, len_from by done. destruct (Z.le_ge_cases 0 (len p - n)).
    - by rewrite Z.max_r.
    - by apply cuts_ok_past; [lia|]. }
  exists s2. unfold zsum in *. simpl. rewrite upto_add, <- from_from by lia. done.
Qed.

(** When nothing is pending the body has finished. *)
Lemma pending_nil lc s : pending_body ready current lc s [] → ChunkBody.data_status s = DataState.Finish.
Proof.
  assert (Hne : ∀ e c (s' : ChunkBody.t T) ws, es_pending e c (chunk_tail s' c ws) = [] →
    EncodeStatus.chunk_status e = ChunkState.MetaExt).
  { intros e c s' ws H. pose proof (len_pos_ne _ (trailer_src_pos s')) as Ht.
    unfold es_pending, chunk_tail, chunk_wire in H.
    destruct (EncodeStatus.chunk_status e); [|done|..];
      destruct (EncodeStatus.chunk_status (ChunkBody.encode_status s'));
      repeat (apply app_eq_nil in H as [? H]); done. }
  intros [c [_ _ _ [_ Hes] (ws & _ & _ & Hp)]|c [_ _ _ [_ Hes] (ws & _ & _ & Hp)]|_ Hi Hp|]; [..|done].
  - by rewrite (Hne _ _ _ _ (eq_sym Hp)) in Hes.
  - by rewrite (Hne _ _ _ _ (eq_sym Hp)) in Hes.
  - exfalso. apply (f_equal len) in Hp. rewrite len_from in Hp by lia. change (len []) with 0 in Hp. lia.
Qed.

Lemma data_finished lc s n :
  0 ≤ n → pending_body ready current lc s [] → body_data n s = Some (Ok [], s).
Proof.
  intros Hn Hp%pending_nil. unfold body_data. simpl. destruct (n =? 0); [done|]. by rewrite Hp.
Qed.

(** A new body has everything pending. *)
Lemma new_pending lc x buf fields c ws :
  ready x (ChunkData.new buf) (c :: ws) → deliveries lc (c :: ws) →
  let s := ChunkBody.set_trailer (ChunkBody.new x buf) fields in
  pending_body ready current lc s (wire (c :: ws) ++ ChunkBody.trailer_src s).
Proof.
  intros Hr Hd s. apply (pending_unloaded _ _ _ _ _ c). split; [done..| |].
  - unfold es_ok. simpl. split_and!; try solve [done|vm_compute; done].
  - exists ws. split_and!; [done|done|]. unfold es_pending, chunk_tail, chunk_wire. simpl.
    rewrite from_0 by (destruct (_ =? _); done). unfold chunk_wire. rewrite <- !app_assoc. done.
Qed.
End Calls.

(** The trailer part: the last chunk [0 CRLF], the fields and a CRLF. *)
Definition trailer_wire (fields : list (bytes * HeaderValue.t)) : bytes :=
  str "0" ++ CRLF ++ (fields ≫= ChunkBody.trailer_line) ++ CRLF.

Lemma trailer_src_wire {T} (x : T) buf fields :
  ChunkBody.trailer_src (ChunkBody.set_trailer (ChunkBody.new x buf) fields) = trailer_wire fields.
Proof.
  unfold ChunkBody.trailer_src, ChunkBody.set_trailer, trailer_wire. cbn [ChunkBody.trailer_value].
  destruct (fields ≫= ChunkBody.trailer_line); by rewrite <- !app_assoc.
Qed.

Definition last_chunk (b : bytes) : bytes := if len b <? CHUNK_SIZE then b else from CHUNK_SIZE b.

Lemma cut_deliveries b : len b < 2 * CHUNK_SIZE → deliveries (last_chunk b) (cut b).
Proof.
  intros Hb. unfold last_chunk, cut. destruct (Z.ltb_spec (len b) CHUNK_SIZE).
  - by apply deliveries_last.
  - apply deliveries_full.
    + rewrite len_upto by (unfold CHUNK_SIZE; lia). lia.
    + apply deliveries_last. rewrite len_from by (unfold CHUNK_SIZE; lia). unfold CHUNK_SIZE in *. lia.
Qed.

(** The asynchronous body over a reader that is always ready does what the
    blocking body does. *)
Lemma poll_data_loop_ready {R E} (read : R → Z → res E bytes * R) fuel n out s w s' :
  ChunkBody.data_loop (E := E) (ChunkBody.reader_encode read) fuel n out s = Some (Ok w, s') →
  ChunkBody.poll_data_loop (λ r n, (Some (read r n).1, (read r n).2)) fuel n out s =
    Some (Some (Ok w), s').
Proof.
  revert n out s. induction fuel as [|fuel IH]; intros n out s; simpl.
  { destruct (n =? 0); [|done]. by intros [= -> ->]. }
  destruct (n =? 0); [by intros [= -> ->]|].
  destruct (ChunkBody.data_status s); [| |by intros [= -> ->]].
  - unfold ChunkBody.reader_encode, ChunkBody.poll_partial.
    destruct (negb (EncodeStatus.get_flag (ChunkBody.encode_status s))).
    + destruct (read (ChunkBody.source s) _) as [[x| |] r]; [|done..]. simpl.
      destruct (ChunkBody.chunk_encode_reader _ _) as [[y| |] s1]; [apply IH|done..].
    + destruct (ChunkBody.chunk_encode_reader _ _) as [[y| |] s1]; [apply IH|done..].
  - destruct (ChunkBody.trailer_encode n s) as [[y| |] s1]; [apply IH|done..].
Qed.

(** [poll_data] as [data], where it is not pending. *)
Definition ready_data {R E} (poll_read : R → Z → option (res E bytes) * R) (n : Z) (s : ChunkBody.t R) :
    option (res E bytes * ChunkBody.t R) :=
  match ChunkBody.poll_data poll_read n s with Some (Some r, s) => Some (r, s) | _ => None end.

Lemma data_calls_ready {R E} (read : R → Z → res E bytes * R) ns s l s' :
  data_calls (ChunkBody.reader_data (E := E) read) ns s = Some (l, s') →
  data_calls (ready_data (λ r n, (Some (read r n).1, (read r n).2))) ns s = Some (l, s').
Proof.
  revert s l s'. induction ns as [|n ns IH]; intros s l s'; [done|]. simpl.
  unfold ChunkBody.reader_data at 1, ready_data at 1, ChunkBody.poll_data at 1.
  destruct (ChunkBody.data_loop _ _ n [] s) as [[[w| |] s1]|] eqn:Hl; [|done..].
  rewrite (poll_data_loop_ready _ _ _ _ _ _ _ Hl).
  destruct (data_calls _ ns s1) as [[w' s2]|] eqn:Hc; [|done]. by rewrite (IH _ _ _ Hc).
Qed.

Lemma reader_encode_all {R E} (read : R → Z → res E bytes * R) r fulls lc x fields ns :
  let s := ChunkBody.set_trailer (ChunkBody.from_reader r) fields in
  let W := (fulls ≫= chunk_wire) ++ chunk_wire lc ++ trailer_wire fields in
  let poll_read r n := (Some (read r n).1, (read r n).2) in
  delivers read r (fulls ++ [lc; x]) → Forall (λ c, len c = CHUNK_SIZE) fulls →
  len lc < CHUNK_SIZE → Forall (λ n, 0 ≤ n) ns → cuts_ok lc (trailer_wire fields) (len W) ns →
  ∃ s', data_calls (ChunkBody.reader_data (E := E) read) ns s = Some (upto (zsum ns) W, s') ∧
    data_calls (ready_data (E := E) poll_read) ns s = Some (upto (zsum ns) W, s') ∧
    (len W ≤ zsum ns → ∀ n, 0 ≤ n → ChunkBody.reader_data (E := E) read n s' = Some (Ok [], s')).
Proof.
  intros s W poll_read Hd Hfull Hlc Hns Hcut. pose proof (reader_source read E) as Hsrc.
  assert (Hws : deliveries lc (fulls ++ [lc; x]) ∧
    wire (fulls ++ [lc; x]) = (fulls ≫= chunk_wire) ++ chunk_wire lc).
  { clear -Hfull Hlc. induction Hfull as [|c fulls Hc _ [IH1 IH2]]; simpl.
    - rewrite (proj2 (Z.eqb_neq _ _)), app_nil_r by lia. split; [by constructor|done].
    - rewrite Hc, Z.eqb_refl, IH2, app_assoc. split; [by constructor|done]. }
  assert (Hp : pending_body (reader_ready read) (reader_current read) lc s W).
  { subst W. rewrite app_assoc, <- (proj2 Hws), <- (trailer_src_wire r (replicate (Z.to_nat CHUNK_SIZE) 0)).
    destruct (fulls ++ [lc; x]) as [|c ws] eqn:Heq; [by destruct fulls|].
    apply new_pending; [done|apply Hws]. }
  assert (Hcut' : cuts_ok lc (ChunkBody.trailer_src s) (len W) ns)
    by (unfold s, ChunkBody.from_reader; by rewrite trailer_src_wire).
  destruct (data_calls_spec _ _ _ _ Hp Hns Hcut') as (s' & H1 & H2). exists s'.
  split; [exact H1|]. split.
  - by apply (data_calls_ready read).
  - intros Hz n Hn. rewrite from_all in H2 by done. by eapply data_finished.
Qed.

(** * Theorems *)

(** [ChunkBody] over a slice shorter than two full chunks writes, through
    buffers of any lengths, the chunks of the slice, the last chunk and the trailer
    fields, as long as no buffer ends within the digits of the last chunk's size;
    then it reports the end. *)
Theorem chunk_bytes_encode {E} b fields ns :
  let s := ChunkBody.set_trailer (ChunkBody.from_bytes b) fields in
  let W := wire (cut b) ++ trailer_wire fields in
  len b < 2 * CHUNK_SIZE → Forall (λ n, 0 ≤ n) ns →
  cuts_ok (last_chunk b) (trailer_wire fields) (len W) ns →
  ∃ s', data_calls (ChunkBody.bytes_data (E := E)) ns s = Some (upto (zsum ns) W, s') ∧
    (len W ≤ zsum ns → ∀ n, 0 ≤ n → ChunkBody.bytes_data (E := E) n s' = Some (Ok [], s')).
Proof.
  intros s W Hb Hns Hcut. pose proof (bytes_source E) as Hsrc.
  assert (Hp : pending_body bytes_ready bytes_current (last_chunk b) s W).
  { subst W. rewrite <- (trailer_src_wire b []). rewrite cut_eq. apply new_pending.
    - rewrite <- cut_eq. split; [done|]. left. done.
    - rewrite <- cut_eq. by apply cut_deliveries. }
  assert (Hcut' : cuts_ok (last_chunk b) (ChunkBody.trailer_src s) (len W) ns)
    by (unfold s, ChunkBody.from_bytes; by rewrite trailer_src_wire).
  destruct (data_calls_spec _ _ _ _ Hp Hns Hcut') as (s' & H1 & H2). exists s'. split; [exact H1|].
  intros Hz n Hn. rewrite from_all in H2 by done. by eapply data_finished.
Qed.

Lemma chunk_bytes_encode_witness :
  ∃ s', data_calls (ChunkBody.bytes_data (E := Empty_set)) [10; 10; 20]
      (ChunkBody.set_trailer (ChunkBody.from_bytes (str "aaaaa bbbbb ccccc ddddd")) []) =
    Some (str "17" ++ CRLF ++ str "aaaaa bbbbb ccccc ddddd" ++ CRLF ++ str "0" ++ CRLF ++ CRLF, s').
Proof.
  destruct (chunk_bytes_encode (E := Empty_set) (str "aaaaa bbbbb ccccc ddddd") [] [10; 10; 20])
    as (s' & H & _).
  - by vm_compute.
  - repeat constructor; lia.
  - unfold cuts_ok, cut_ok. vm_compute. split_and!; try done; left; done.
  - exists s'. exact H.
Defined.

(** [ChunkBody] over a reader, blocking or asynchronous and always ready,
    writes through buffers of any lengths the chunks the reader delivers up to the
    first read that does not fill a chunk, [lc], then the last chunk and the
    trailer fields; the body ends there whatever the reader still holds, after one
    more read whose data is dropped. *)
Theorem chunk_reader_encode {R E} (read : R → Z → res E bytes * R) r fulls lc x fields ns :
  let s := ChunkBody.set_trailer (ChunkBody.from_reader r) fields in
  let W := (fulls ≫= chunk_wire) ++ chunk_wire lc ++ trailer_wire fields in
  let poll_read r n := (Some (read r n).1, (read r n).2) in
  delivers read r (fulls ++ [lc; x]) → Forall (λ c, len c = CHUNK_SIZE) fulls →
  len lc < CHUNK_SIZE → Forall (λ n, 0 ≤ n) ns → cuts_ok lc (trailer_wire fields) (len W) ns →
  ∃ s', data_calls (ChunkBody.reader_data (E := E) read) ns s = Some (upto (zsum ns) W, s') ∧
    data_calls (ready_data (E := E) poll_read) ns s = Some (upto (zsum ns) W, s') ∧
    (len W ≤ zsum ns → ∀ n, 0 ≤ n → ChunkBody.reader_data (E := E) read n s' = Some (Ok [], s')).
Proof. apply reader_encode_all. Qed.

(** [Read for &[u8]]. *)
Definition slice_read (r : bytes) (n : Z) : res Empty_set bytes * bytes := (Ok (upto n r), from n r).

Lemma chunk_reader_encode_witness :
  ∃ s', data_calls (ChunkBody.reader_data (E := Empty_set) slice_read) [7; 10]
      (ChunkBody.set_trailer (ChunkBody.from_reader (str "hello")) []) =
    Some (str "5" ++ CRLF ++ str "hello" ++ CRLF ++ str "0" ++ CRLF ++ CRLF, s').
Proof.
  destruct (chunk_reader_encode slice_read (str "hello") [] (str "hello") [] [] [7; 10])
    as (s' & H & _).
  - by vm_compute.
  - constructor.
  - by vm_compute.
  - repeat constructor; lia.
  - unfold cuts_ok, cut_ok. vm_compute. split_and!; try done; left; done.
  - exists s'. exact H.
Defined.

(** ** Slices of two full chunks or more *)

(** [chunk_count] is set to 1, not incremented, so the second chunk repeats. *)
Record endless (s : ChunkBody.t bytes) (c : bytes) : Prop := {
  endless_len : 2 * CHUNK_SIZE ≤ len (ChunkBody.source s);
  endless_status : ChunkBody.data_status s = DataState.Partial;
  endless_count : 0 ≤ ChunkData.chunk_count (ChunkBody.chunk_data s) ≤ 1;
  endless_chunk : c = upto CHUNK_SIZE
    (from (ChunkData.chunk_count (ChunkBody.chunk_data s) * CHUNK_SIZE) (ChunkBody.source s));
  endless_es : es_ok (if flag s then ChunkBody.encode_status s else begun (ChunkBody.encode_status s)) c;
  endless_more : EncodeStatus.chunk_status (ChunkBody.encode_status s) ≠ ChunkState.Finish;
  endless_last : flag s = true → ChunkData.chunk_last (ChunkBody.chunk_data s) = CHUNK_SIZE;
}.

Lemma endless_len_chunk s c : endless s c → len c = CHUNK_SIZE.
Proof.
  intros H. rewrite (endless_chunk _ _ H). pose proof (endless_len _ _ H).
  pose proof (endless_count _ _ H). unfold CHUNK_SIZE in *.
  rewrite len_upto, len_from by lia. lia.
Qed.

Ltac endless_next c := exists c; split; simpl; try solve [done|lia|by intros].

Lemma endless_encode {E} s c n :
  endless s c → flag s = true → 0 < n →
  ∃ w s', @ChunkBody.chunk_encode _ E c n s = (Ok w, s') ∧ 0 < len w ≤ n ∧ ∃ c', endless s' c'.
Proof.
  intros H Hf Hn. pose proof (endless_len_chunk _ _ H) as Hc.
  destruct s as [x tv [buf cc cl] ds [cs el ci rf si st [mc] [dc] [fc] [hi hx] hl] [ti]].
  destruct H as [Hlen Hst Hcc Hch [Hhex Hes] Hm Hl].
  unfold flag in *. simpl in *. subst rf. simpl in *. subst hi ds. specialize (Hl eq_refl) as ->.
  rewrite chunk_encode_eq. cbn [ChunkBody.encode_status]. unfold EncodeStatus.encode. simpl.
  destruct st; try done; simpl.
  - destruct Hes as ([Hi _] & -> & -> & -> & ->).
    unfold EncodeStatus.meta_size_encode, EncodeHex.encode. simpl.
    destruct (write_cases (E := E) _ hx n Hi Hn) as [[-> Hw]|(w & -> & Hw & Hwl & Hi')]; simpl;
      eexists _, _; (split; [reflexivity|]); (split; [lia|]); endless_next c.
    unfold es_ok. simpl. split_and!; try solve [done|lia|by intros].
  - destruct Hes as (-> & Hi & -> & -> & ->).
    unfold EncodeStatus.meta_crlf_encode, EncodeCrlf.encode. simpl.
    destruct (write_cases (E := E) CRLF mc n Hi Hn) as [[-> Hw]|(w & -> & Hw & Hwl & Hi')]; simpl;
      eexists _, _; (split; [reflexivity|]); (split; [lia|]); endless_next c;
      unfold es_ok; simpl; split_and!; try solve [done|lia].
    left. rewrite Hc. done.
  - destruct Hes as (-> & -> & -> & -> & Hi0 & Hi).
    assert (Hi1 : 0 ≤ ci < len c) by (destruct Hi as [|[-> _]]; [lia|done]).
    unfold EncodeStatus.data_encode. simpl.
    destruct (write_cases (E := E) c ci n Hi1 Hn) as [[-> Hw]|(w & -> & Hw & Hwl & Hi')]; simpl;
      eexists _, _; (split; [reflexivity|]); (split; [lia|]).
    + endless_next (upto CHUNK_SIZE (from (1 * CHUNK_SIZE) x)).
    + endless_next c. unfold es_ok. simpl. split_and!; try solve [done|lia].
  - destruct Hes as (-> & -> & Hi & -> & ->).
    unfold EncodeStatus.data_crlf_encode, EncodeCrlf.encode. simpl.
    destruct (write_cases (E := E) CRLF dc n Hi Hn) as [[-> Hw]|(w & -> & Hw & Hwl & Hi')]; simpl;
      eexists _, _; (split; [reflexivity|]); (split; [lia|]); endless_next c.
    unfold es_ok. simpl. split_and!; try solve [done|lia].
Qed.

Lemma endless_turn {E} s c n :
  endless s c → 0 < n →
  ∃ w s', @ChunkBody.bytes_encode E n s = (Ok w, s') ∧ 0 < len w ≤ n ∧ ∃ c', endless s' c'.
Proof.
  intros H Hn. pose proof (endless_len_chunk _ _ H) as Hc.
  pose proof H as [Hlen Hst Hcc Hch Hes Hm Hl].
  destruct (flag s) eqn:Hf; unfold flag in Hf.
  - rewrite (bytes_same s n c); [by apply endless_encode|done|lia|unfold CHUNK_SIZE in *; lia|done|]. by rewrite Hl, Hc.
  - rewrite bytes_load; [|done|lia|unfold CHUNK_SIZE in *; lia]. rewrite <- Hch. apply endless_encode; [|done|done].
    split; simpl; try done.
Qed.

Lemma endless_loop {E} fuel n out s c :
  endless s c → 0 ≤ n → (Z.to_nat n < fuel)%nat →
  ∃ w s' c', ChunkBody.data_loop (E := E) ChunkBody.bytes_encode fuel n out s = Some (Ok (out ++ w), s') ∧
    len w = n ∧ endless s' c'.
Proof.
  revert n out s c. induction fuel as [|fuel IH]; intros n out s c H Hn Hf; [lia|].
  destruct (decide (n = 0)) as [->|Hn0].
  { exists [], s, c. by rewrite app_nil_r. }
  assert (Hs : ChunkBody.data_status s ≠ DataState.Finish) by (by rewrite (endless_status _ _ H)).
  rewrite data_loop_eq by done. unfold arm. rewrite (endless_status _ _ H).
  destruct (endless_turn (E := E) s c n H ltac:(lia)) as (w & s1 & -> & Hw & c1 & H1).
  destruct (IH (n - len w) (out ++ w) s1 c1 H1 ltac:(lia) ltac:(lia)) as (w2 & s2 & c2 & -> & Hw2 & H2).
  exists (w ++ w2), s2, c2. rewrite app_assoc, len_app. split_and!; [done|lia|done].
Qed.

(** C40: Over a slice of 2048 bytes or more the body never ends: whatever the
    buffers, every call of [data] fills its buffer. *)
Theorem chunk_bytes_never_ends {E} b fields ns :
  2 * CHUNK_SIZE ≤ len b → Forall (λ n, 0 ≤ n) ns →
  ∃ w s', data_calls (ChunkBody.bytes_data (E := E)) ns
      (ChunkBody.set_trailer (ChunkBody.from_bytes b) fields) = Some (w, s') ∧ len w = zsum ns.
Proof.
  intros Hb Hns.
  assert (He : endless (ChunkBody.set_trailer (ChunkBody.from_bytes b) fields) (upto CHUNK_SIZE b)).
  { by split. }
  revert He. generalize (ChunkBody.set_trailer (ChunkBody.from_bytes b) fields), (upto CHUNK_SIZE b).
  induction Hns as [|n ns Hn _ IH]; intros s c H; [by exists [], s|].
  destruct (endless_loop (E := E) (ChunkBody.data_fuel n) n [] s c H Hn) as (w & s1 & c1 & H1 & Hw & He).
  { unfold ChunkBody.data_fuel. lia. }
  destruct (IH s1 c1 He) as (w2 & s2 & H2 & Hw2). exists (w ++ w2), s2. simpl.
  unfold ChunkBody.bytes_data at 1. rewrite H1. simpl. rewrite H2. split; [done|].
  rewrite len_app, Hw, Hw2. done.
Qed.

Lemma chunk_bytes_never_ends_witness :
  ∃ w s', data_calls (ChunkBody.bytes_data (E := Empty_set)) [5000; 5000]
    (ChunkBody.set_trailer (ChunkBody.from_bytes (replicate 2048 65)) []) = Some (w, s') ∧ len w = 10000.
Proof.
  apply (chunk_bytes_never_ends (replicate 2048 65) [] [5000; 5000]).
  - by vm_compute.
  - repeat constructor; lia.
Defined.

(** A buffer that ends within the digits of the last chunk's size: the digits
    start again in the next one. *)
Lemma chunk_size_cut_repeats :
  option_map fst (data_calls (ChunkBody.bytes_data (E := Empty_set)) [1; 100]
    (ChunkBody.from_bytes (str "aaaaa bbbbb ccccc ddddd"))) =
  Some (str "117" ++ CRLF ++ str "aaaaa bbbbb ccccc ddddd" ++ CRLF ++ str "0" ++ CRLF ++ CRLF).
Proof. by vm_compute. Qed.

(** An empty body, and one that fills its last chunk, end with two last chunks. *)
Lemma chunk_empty_body :
  option_map fst (data_calls (ChunkBody.bytes_data (E := Empty_set)) [100] (ChunkBody.from_bytes [])) =
  Some (str "0" ++ CRLF ++ CRLF ++ str "0" ++ CRLF ++ CRLF).
Proof. by vm_compute. Qed.
