(* ===== verification/ChunkDecoder.v ===== *)
(** The chunked body decoder ([ylong_http/src/body/chunk.rs], second half):
    [ChunkBodyDecoder] with its stages, the chunks it hands out, and the trailer
    fields.  A slice of the input is its bytes; the scanning loops recurse on the
    input, so that [&buf[i..]] is what the recursion has left.  The decoder without
    trailers refines a machine that reads one byte at a time; from that follow that
    any segmentation of the input decodes alike, and that every chunked body of the
    grammar of RFC 9112 is read as its data. *)
From S2P Require Import Prelude Buffers Headers ChunkBody.

Module Stage.
Inductive t :=
  Size | Extension | SizeEnd | Data | DataEnd | TrailerCrlf | TrailerData | TrailerEndCrlf.
#[global] Instance eq_dec : EqDecision t.
Proof. solve_decision. Defined.
End Stage.

(** [struct Chunk]; [extension] is always the empty [ChunkExt]. *)
Module Chunk.
Record t := mk {
  id : Z;
  state : ChunkState.t;
  size : Z;
  data : bytes;
  trailer : option bytes;
}.
Definition set_id (c : t) (id : Z) : t := mk id (state c) (size c) (data c) (trailer c).
Definition is_complete (c : t) : bool := bool_decide (state c = ChunkState.Finish).
End Chunk.

Module ChunkBodyDecoder.
Record t := mk {
  chunk_num : Z;
  total_size : Z;
  rest_size : Z;
  hex_count : Z;
  trailer : bytes;
  cr_meet : bool;
  chunk_flag : bool;
  num_flag : bool;
  is_last_chunk : bool;
  is_chunk_trailer : bool;
  is_trailer : bool;
  is_trailer_crlf : bool;
  stage : Stage.t;
}.

Definition new : t := mk 0 0 0 0 [] false false false false false false false Stage.Size.

Definition set_chunk_num (d : t) x := mk x (total_size d) (rest_size d) (hex_count d) (trailer d) (cr_meet d) (chunk_flag d) (num_flag d) (is_last_chunk d) (is_chunk_trailer d) (is_trailer d) (is_trailer_crlf d) (stage d).
Definition set_total_size (d : t) x := mk (chunk_num d) x (rest_size d) (hex_count d) (trailer d) (cr_meet d) (chunk_flag d) (num_flag d) (is_last_chunk d) (is_chunk_trailer d) (is_trailer d) (is_trailer_crlf d) (stage d).
Definition set_rest_size (d : t) x := mk (chunk_num d) (total_size d) x (hex_count d) (trailer d) (cr_meet d) (chunk_flag d) (num_flag d) (is_last_chunk d) (is_chunk_trailer d) (is_trailer d) (is_trailer_crlf d) (stage d).
Definition set_hex_count (d : t) x := mk (chunk_num d) (total_size d) (rest_size d) x (trailer d) (cr_meet d) (chunk_flag d) (num_flag d) (is_last_chunk d) (is_chunk_trailer d) (is_trailer d) (is_trailer_crlf d) (stage d).
Definition set_trailer (d : t) x := mk (chunk_num d) (total_size d) (rest_size d) (hex_count d) x (cr_meet d) (chunk_flag d) (num_flag d) (is_last_chunk d) (is_chunk_trailer d) (is_trailer d) (is_trailer_crlf d) (stage d).
Definition set_cr_meet (d : t) x := mk (chunk_num d) (total_size d) (rest_size d) (hex_count d) (trailer d) x (chunk_flag d) (num_flag d) (is_last_chunk d) (is_chunk_trailer d) (is_trailer d) (is_trailer_crlf d) (stage d).
Definition set_chunk_flag (d : t) x := mk (chunk_num d) (total_size d) (rest_size d) (hex_count d) (trailer d) (cr_meet d) x (num_flag d) (is_last_chunk d) (is_chunk_trailer d) (is_trailer d) (is_trailer_crlf d) (stage d).
Definition set_num_flag (d : t) x := mk (chunk_num d) (total_size d) (rest_size d) (hex_count d) (trailer d) (cr_meet d) (chunk_flag d) x (is_last_chunk d) (is_chunk_trailer d) (is_trailer d) (is_trailer_crlf d) (stage d).
Definition set_is_last_chunk (d : t) x := mk (chunk_num d) (total_size d) (rest_size d) (hex_count d) (trailer d) (cr_meet d) (chunk_flag d) (num_flag d) x (is_chunk_trailer d) (is_trailer d) (is_trailer_crlf d) (stage d).
Definition set_is_chunk_trailer (d : t) x := mk (chunk_num d) (total_size d) (rest_size d) (hex_count d) (trailer d) (cr_meet d) (chunk_flag d) (num_flag d) (is_last_chunk d) x (is_trailer d) (is_trailer_crlf d) (stage d).
Definition set_is_trailer (d : t) x := mk (chunk_num d) (total_size d) (rest_size d) (hex_count d) (trailer d) (cr_meet d) (chunk_flag d) (num_flag d) (is_last_chunk d) (is_chunk_trailer d) x (is_trailer_crlf d) (stage d).
Definition set_is_trailer_crlf (d : t) x := mk (chunk_num d) (total_size d) (rest_size d) (hex_count d) (trailer d) (cr_meet d) (chunk_flag d) (num_flag d) (is_last_chunk d) (is_chunk_trailer d) (is_trailer d) x (stage d).
Definition set_stage (d : t) x := mk (chunk_num d) (total_size d) (rest_size d) (hex_count d) (trailer d) (cr_meet d) (chunk_flag d) (num_flag d) (is_last_chunk d) (is_chunk_trailer d) (is_trailer d) (is_trailer_crlf d) x.

Definition contains_trailer (d : t) (contain_trailer : bool) : t := set_is_trailer d contain_trailer.

Abbreviation dec := (M t HttpError).
(** The chunk and [rest] of the decoding methods. *)
Abbreviation step := (M t HttpError (Chunk.t * bytes)).

Definition sized_chunk (data : bytes) (trailer : option bytes) (size : Z) (state : ChunkState.t) :
    Chunk.t := Chunk.mk 0 state size data trailer.

Definition i64_max : Z := 2 ^ 63 - 1.

(** [count] is not negative, so only the upper bound of [i64] can be passed. *)
Definition hex_to_decimal (count num : Z) : res HttpError Z :=
  if i64_max <? count * 16 then Err InvalidInput
  else if i64_max <? count * 16 + num then Err InvalidInput
  else Ok (count * 16 + num).

Definition decode_cr : dec () := λ d,
  if cr_meet d then (Err InvalidInput, d) else (Ok (), set_cr_meet d true).
Definition decode_lf : dec () := λ d,
  if negb (cr_meet d) then (Err InvalidInput, d) else (Ok (), set_cr_meet d false).

(** The loop of [skip_last_crlf] on what is left of [buf]. *)
Fixpoint skip_last_crlf_loop (data buf : bytes) : step :=
  match buf with
  | [] => λ d, (Ok (sized_chunk data None (total_size d) ChunkState.DataCrlf, []), d)
  | b :: buf =>
      if b =? 13 then decode_cr;; skip_last_crlf_loop data buf
      else if b =? 10 then
        decode_lf;;
        mstate (λ d, (Ok (sized_chunk data None (total_size d) ChunkState.Finish, buf),
              set_total_size (set_stage d Stage.Size) 0))
      else mfail InvalidInput
  end.
Definition skip_last_crlf (data buf : bytes) : step :=
  mmodify (λ d, set_stage d Stage.DataEnd);; skip_last_crlf_loop data buf.

Fixpoint skip_trailer_last_crlf_loop (data buf : bytes) : step :=
  match buf with
  | [] => mret (sized_chunk [] (Some data) 0 ChunkState.DataCrlf, [])
  | b :: buf =>
      if b =? 13 then decode_cr;; skip_trailer_last_crlf_loop data buf
      else if b =? 10 then
        decode_lf;;
        mstate (λ d, if is_last_chunk d then
            (Ok (sized_chunk [] (Some []) 0 ChunkState.Finish, buf), set_stage d Stage.TrailerEndCrlf)
          else
            (Ok (sized_chunk [] (Some data) 0 ChunkState.DataCrlf, buf),
             set_stage (set_is_trailer_crlf (set_cr_meet d false) true) Stage.TrailerData))
      else mfail InvalidInput
  end.
Definition skip_trailer_last_crlf (data buf : bytes) : step :=
  mmodify (λ d, set_stage d Stage.TrailerEndCrlf);; skip_trailer_last_crlf_loop data buf.

Definition decode_data (buf : bytes) : step :=
  mmodify (λ d, set_stage d Stage.Data);;
  mstate (λ d,
    match buf with
    | [] => (Ok (sized_chunk [] None (total_size d) ChunkState.Data, []), d)
    | _ =>
        let rest := rest_size d in
        if rest <=? len buf then
          skip_last_crlf (upto rest buf) (from rest buf) (set_cr_meet (set_rest_size d 0) false)
        else
          (Ok (sized_chunk buf None (total_size d) ChunkState.Data, []),
           set_rest_size d (rest - len buf))
    end).

(** The loop of [decode_trailer_data]; [data] is [buf[..i]]. *)
Fixpoint decode_trailer_data_loop (data buf : bytes) : step :=
  match buf with
  | [] => λ d, (Ok (sized_chunk [] (Some data) 0 ChunkState.Data, []), set_is_trailer_crlf d false)
  | b :: rest =>
      if b =? 13 then decode_cr;; skip_trailer_last_crlf data rest
      else if b =? 10 then decode_lf;; skip_trailer_last_crlf data buf
      else decode_trailer_data_loop (data ++ [b]) rest
  end.
Definition decode_trailer_data (buf : bytes) : step :=
  mmodify (λ d, set_stage d Stage.TrailerData);;
  match buf with
  | [] => mret (sized_chunk [] (Some []) 0 ChunkState.Data, [])
  | b :: _ =>
      mmodify (λ d, if (b =? 13) && is_trailer_crlf d then set_is_last_chunk d true else d);;
      decode_trailer_data_loop [] buf
  end.

Fixpoint skip_trailer_crlf_loop (buf : bytes) : step :=
  match buf with
  | [] => λ d, (Ok (sized_chunk [] (Some []) (total_size d) ChunkState.MetaCrlf, []), d)
  | b :: buf =>
      if b =? 13 then decode_cr;; skip_trailer_crlf_loop buf
      else if b =? 10 then
        decode_lf;; mmodify (λ d, set_is_trailer_crlf d true);; decode_trailer_data buf
      else mfail InvalidInput
  end.
Definition skip_trailer_crlf (buf : bytes) : step :=
  mmodify (λ d, set_stage d Stage.TrailerCrlf);; skip_trailer_crlf_loop buf.

Fixpoint skip_crlf_loop (buf : bytes) : step :=
  match buf with
  | [] => λ d, (Ok (sized_chunk [] None (total_size d) ChunkState.MetaCrlf, []), d)
  | b :: buf =>
      if b =? 13 then decode_cr;; skip_crlf_loop buf
      else if b =? 10 then decode_lf;; decode_data buf
      else mfail InvalidInput
  end.
Definition skip_crlf (buf : bytes) : step :=
  mmodify (λ d, set_stage d Stage.SizeEnd);; skip_crlf_loop buf.

Fixpoint skip_chunk_ext (buf : bytes) : step :=
  match buf with
  | [] => λ d, (Ok (sized_chunk [] None (total_size d) ChunkState.MetaExt, []), d)
  | b :: rest =>
      if b =? 13 then decode_cr;; skip_crlf rest
      else if b =? 10 then decode_lf;; skip_crlf buf
      else skip_chunk_ext rest
  end.

Fixpoint skip_trailer_ext (buf : bytes) : step :=
  match buf with
  | [] => λ d, (Ok (sized_chunk [] (Some []) (total_size d) ChunkState.MetaExt, []), d)
  | b :: rest =>
      if b =? 13 then decode_cr;; skip_trailer_crlf rest
      else if b =? 10 then decode_lf;; skip_trailer_crlf buf
      else skip_trailer_ext rest
  end.

Definition skip_extension (buf : bytes) : step :=
  mmodify (λ d, set_stage d Stage.Extension);;
  mstate (λ d, if is_chunk_trailer d then skip_trailer_ext buf d else skip_chunk_ext buf d).

Definition decode_special_char (buf : bytes) : step := λ d,
  if is_chunk_trailer d then skip_trailer_crlf buf (set_num_flag d false)
  else
    let d := set_num_flag (set_hex_count (set_total_size d (hex_count d)) 0) false in
    if total_size d =? 0 then skip_extension buf (set_is_last_chunk d true)
    else skip_extension buf (set_rest_size d (total_size d)).

(** One digit: [chunk_flag] and [num_flag] are set by the digits but [0]. *)
Definition add_digit (num : Z) : dec () := λ d,
  match hex_to_decimal (hex_count d) num with
  | Ok n => (Ok (), set_hex_count d n)
  | Err e => (Err e, d)
  | Panic => (Panic, d)
  end.
Definition set_flags : dec () := mmodify (λ d, set_num_flag (set_chunk_flag d true) true).

Fixpoint decode_size_loop (buf : bytes) : step :=
  match buf with
  | [] => λ d, (Ok (sized_chunk [] None (total_size d) ChunkState.MetaSize, []), d)
  | b :: rest =>
      if b =? 48 then
        let plain :=
          match rest with
          | [] => true
          | b' :: _ => negb (b' =? 59) && negb (b' =? 32) && negb (b' =? 13)
          end in
        if plain then add_digit 0;; decode_size_loop rest
        else
          λ d,
            if is_trailer d && negb (chunk_flag d) && negb (num_flag d) then
              skip_extension buf (set_num_flag (set_is_chunk_trailer d true) false)
            else (add_digit 0;; decode_size_loop rest) d
      else if (49 <=? b) && (b <=? 57) then add_digit (b - 48);; set_flags;; decode_size_loop rest
      else if (97 <=? b) && (b <=? 102) then
        add_digit (b - 97 + 10);; set_flags;; decode_size_loop rest
      else if (65 <=? b) && (b <=? 70) then
        add_digit (b - 65 + 10);; set_flags;; decode_size_loop rest
      else if (b =? 32) || (b =? 9) || (b =? 59) || (b =? 13) || (b =? 10) then
        decode_special_char buf
      else mfail InvalidInput
  end.
Definition decode_size (buf : bytes) : step :=
  mmodify (λ d, set_stage d Stage.Size);;
  match buf with
  | [] => mstate (λ d, (Ok (sized_chunk [] None (total_size d) ChunkState.MetaSize, []), d))
  | _ => mmodify (λ d, set_chunk_flag d false);; decode_size_loop buf
  end.

(** [chunk.trailer().unwrap()] is not reached without a trailer. *)
Definition merge_trailer (chunk : Chunk.t) (trailer_part : bytes) (d : t) : t :=
  if bool_decide (Chunk.state chunk = ChunkState.Finish) || bool_decide (Chunk.state chunk = ChunkState.DataCrlf) then
    let tr := trailer d ++ trailer_part in
    set_trailer d (match tr with [] => tr | _ => tr ++ CRLF end)
  else set_trailer d (trailer d ++ trailer_part).

(** The arms of [match_decode_result]: whether to stop, and the new state; the
    chunk is pushed in every arm. *)
Definition match_decode_result (chunk : Chunk.t) (remains : bytes) (d : t) : bool * t :=
  let empty := match remains with [] => true | _ => false end in
  match Chunk.is_complete chunk, is_last_chunk d with
  | false, _ =>
      if is_chunk_trailer d &&
         (bool_decide (Chunk.state chunk = ChunkState.Data) || bool_decide (Chunk.state chunk = ChunkState.DataCrlf))
      then (empty, set_chunk_num d (chunk_num d + 1))
      else (true, d)
  | true, true => (true, set_chunk_num (set_is_last_chunk d false) 0)
  | true, false => (empty, set_chunk_num d (chunk_num d + 1))
  end.

Definition decode_stage (remains : bytes) : step := λ d,
  match stage d with
  | Stage.Size => decode_size remains d
  | Stage.Extension => skip_extension remains d
  | Stage.SizeEnd => skip_crlf remains d
  | Stage.Data => decode_data remains d
  | Stage.DataEnd => skip_last_crlf [] remains d
  | Stage.TrailerCrlf => skip_trailer_crlf remains d
  | Stage.TrailerData => decode_trailer_data remains d
  | Stage.TrailerEndCrlf => skip_trailer_last_crlf [] remains d
  end.

(** The loop; [None] when the fuel runs out. *)
Fixpoint decode_loop (fuel : nat) (results : list Chunk.t) (remains : bytes) (d : t) :
    option (res HttpError (list Chunk.t * bytes) * t) :=
  match fuel with
  | O => None
  | S fuel =>
      match decode_stage remains d with
      | (Ok (chunk, rest), d) =>
          let chunk := Chunk.set_id chunk (chunk_num d) in
          let d := match Chunk.trailer chunk with Some tr => merge_trailer chunk tr d | None => d end in
          let '(stop, d) := match_decode_result chunk rest d in
          let results := results ++ [chunk] in
          if stop then Some (Ok (results, rest), d) else decode_loop fuel results rest d
      | (Err e, d) => Some (Err e, d)
      | (Panic, d) => Some (Panic, d)
      end
  end.

(** Every turn but the last leaves input and consumes some. *)
Definition decode_fuel (buf : bytes) : nat := 1 + length buf.
Definition decode (buf : bytes) (d : t) : option (res HttpError (list Chunk.t * bytes) * t) :=
  decode_loop (decode_fuel buf) [] buf d.

(** [position] and [rposition] of the first and last byte that is neither space
    nor tab, and the slicing by them. *)
Definition is_blank (b : Z) : bool := (b =? 32) || (b =? 9).
Fixpoint trim_start (l : bytes) : option bytes :=
  match l with
  | [] => None
  | b :: l' => if is_blank b then trim_start l' else Some l
  end.
Definition trim_value (v : bytes) : bytes :=
  let v := default v (trim_start v) in
  default v (reverse <$> trim_start (reverse v)).

(** The loop of [get_trailer] over [(i, b)]; [tr] is [self.trailer] and [rest] is
    [tr[i..]]. *)
Fixpoint get_trailer_loop (tr : bytes) (i : Z) (rest : bytes) (colon lf : Z) (name : bytes)
    (headers : Headers.t) : res HttpError Headers.t :=
  match rest with
  | [] => Ok headers
  | b :: rest =>
      if b =? 32 then get_trailer_loop tr (i + 1) rest colon lf name headers
      else if (b =? 58) && (colon =? 0) then
        let colon := i in
        name ← HeaderName.from_bytes (if lf =? 0 then upto colon tr else slice (lf + 1) colon tr);
        get_trailer_loop tr (i + 1) rest colon lf name headers
      else if b =? 10 then
        if i <? 2 then Panic
        else if at_ tr (i - 2) =? 10 then Ok headers
        else
          let lf := i in
          if lf - 1 <? colon + 1 then Panic
          else
            value ← HeaderValue.from_bytes (trim_value (slice (colon + 1) (lf - 1) tr));
            get_trailer_loop tr (i + 1) rest 0 lf name
              (Headers.mk (<[name := value]> (Headers.map headers)))
      else get_trailer_loop tr (i + 1) rest colon lf name headers
  end.

Definition get_trailer (d : t) : res HttpError (option Headers.t) :=
  match trailer d with
  | [] => Ok None
  | tr =>
      name ← HeaderName.from_bytes [];
      Some <$> get_trailer_loop tr 0 tr 0 0 name Headers.new
  end.
End ChunkBodyDecoder.

Module D := ChunkBodyDecoder.

(** * The flag [chunk_flag]

    It is read only by a decoder that expects trailers; the others behave alike
    whatever it holds. *)

Definition deq (d d' : D.t) : Prop := D.set_chunk_flag d false = D.set_chunk_flag d' false.
#[export] Instance deq_equiv : Equivalence deq.
Proof. unfold deq. split; [by intros ?|by intros ???|]. intros ??? H1 H2. by rewrite H1. Qed.

Definition sim {A} (p q : res HttpError A * D.t) : Prop := p.1 = q.1 ∧ deq p.2 q.2.
#[export] Instance sim_equiv {A} : Equivalence (@sim A).
Proof.
  split; [by intros ?|by intros ?? []|]. intros p q r [H1 H2] [H3 H4]. split; [congruence|by etrans].
Qed.

(** The invariant of a decoder without trailers. *)
Definition plain (d : D.t) : Prop :=
  D.is_trailer d = false ∧ D.is_chunk_trailer d = false ∧ 0 ≤ D.rest_size d ∧ 0 ≤ D.hex_count d ∧
  match D.stage d with
  | Stage.TrailerCrlf | Stage.TrailerData | Stage.TrailerEndCrlf => False
  | _ => True
  end.

(** Methods that do the same on equal states, and stay without trailers. *)
Definition respects {A} (m : M D.t HttpError A) : Prop :=
  ∀ d d', plain d → deq d d' → sim (m d) (m d') ∧ plain (m d).2.

Lemma respects_bind {A B} (m : M D.t HttpError A) (k : A → M D.t HttpError B) :
  respects m → (∀ a, respects (k a)) → respects (m ≫= k).
Proof.
  intros Hm Hk d d' Hp Hd. rewrite !M_bind_eq. destruct (Hm d d' Hp Hd) as [[H1 H2] H3].
  destruct (m d) as [[a|e|] d1], (m d') as [[a'|e'|] d1']; simplify_eq/=;
    [by apply Hk|destruct e, e'|]; (split; [by split|done]).
Qed.

Lemma respects_modify f :
  (∀ d d', deq d d' → deq (f d) (f d')) → (∀ d, plain d → plain (f d)) →
  respects (mmodify f).
Proof. intros H1 H2 d d' Hp Hd. split; [split; [done|by apply H1]|by apply H2]. Qed.

Lemma respects_state {A} (f : D.t → res HttpError A * D.t) :
  (∀ d d', plain d → deq d d' → sim (f d) (f d') ∧ plain (f d).2) → respects (mstate f).
Proof. done. Qed.

Lemma respects_ite {A} (b : bool) (m n : M D.t HttpError A) :
  respects m → respects n → respects (if b then m else n).
Proof. by destruct b. Qed.

Lemma respects_fail {A} e : respects (@mfail D.t HttpError A e).
Proof. by intros d d' Hp Hd. Qed.

(** Fields of equal states agree. *)
Ltac deq_fields H :=
  match type of H with
  | deq ?d ?d' =>
      destruct d, d'; unfold deq, D.set_chunk_flag in H; simpl in H;
      injection H; clear H; intros; subst
  end.
Ltac respects_prim :=
  intros d d' Hp Hd; deq_fields Hd; destruct Hp as (? & ? & ? & ? & ?); simpl in *; simplify_eq;
  repeat case_match; simplify_eq/=; (split; [split|unfold plain; simpl; split_and!]; solve [done|lia]).

Lemma deq_plain d d' : deq d d' → plain d → plain d'.
Proof. intros Hd Hp. by deq_fields Hd. Qed.

Lemma decode_cr_respects : respects D.decode_cr.
Proof. unfold D.decode_cr. respects_prim. Qed.
Lemma decode_lf_respects : respects D.decode_lf.
Proof. unfold D.decode_lf. respects_prim. Qed.

Lemma skip_last_crlf_loop_respects data buf : respects (D.skip_last_crlf_loop data buf).
Proof.
  induction buf as [|b buf IH]; simpl; [respects_prim|].
  repeat apply respects_ite; [| |apply respects_fail].
  - apply respects_bind; [apply decode_cr_respects|done].
  - apply respects_bind; [apply decode_lf_respects|intros _]. unfold mstate. respects_prim.
Qed.
Lemma set_stage_respects st :
  match st with
  | Stage.TrailerCrlf | Stage.TrailerData | Stage.TrailerEndCrlf => False
  | _ => True
  end → respects (mmodify (λ d, D.set_stage d st)).
Proof. unfold mmodify. intros Hst. respects_prim. Qed.
Lemma skip_last_crlf_respects data buf : respects (D.skip_last_crlf data buf).
Proof.
  apply respects_bind; [by apply set_stage_respects|intros _]. apply skip_last_crlf_loop_respects.
Qed.

Lemma decode_data_respects buf : respects (D.decode_data buf).
Proof.
  apply respects_bind; [by apply set_stage_respects|intros _]. unfold mstate.
  destruct buf as [|b buf]; [respects_prim|]. intros d d' Hp Hd.
  assert (Hr : D.rest_size d = D.rest_size d') by by deq_fields Hd. rewrite <- Hr.
  destruct (Z.leb_spec (D.rest_size d) (len (b :: buf))).
  - apply skip_last_crlf_respects; [|by deq_fields Hd].
    destruct Hp as (? & ? & ? & ? & ?). by split_and!.
  - split; [split; [|by deq_fields Hd]|].
    + by deq_fields Hd.
    + destruct Hp as (? & ? & ? & ? & ?). split_and!; simpl; solve [done|lia].
Qed.

Lemma skip_crlf_loop_respects buf : respects (D.skip_crlf_loop buf).
Proof.
  induction buf as [|b buf IH]; simpl; [respects_prim|].
  repeat apply respects_ite; [| |apply respects_fail].
  - apply respects_bind; [apply decode_cr_respects|done].
  - apply respects_bind; [apply decode_lf_respects|intros _]. apply decode_data_respects.
Qed.
Lemma skip_crlf_respects buf : respects (D.skip_crlf buf).
Proof.
  apply respects_bind; [by apply set_stage_respects|intros _]. apply skip_crlf_loop_respects.
Qed.

Lemma skip_chunk_ext_respects buf : respects (D.skip_chunk_ext buf).
Proof.
  induction buf as [|b buf IH]; simpl; [respects_prim|]. repeat apply respects_ite; [| |done].
  - apply respects_bind; [apply decode_cr_respects|intros _]. apply skip_crlf_respects.
  - apply respects_bind; [apply decode_lf_respects|intros _]. apply skip_crlf_respects.
Qed.

Lemma skip_extension_respects buf : respects (D.skip_extension buf).
Proof.
  apply respects_bind; [by apply set_stage_respects|intros _]. unfold mstate. intros d d' Hp Hd.
  pose proof (deq_plain _ _ Hd Hp) as (_ & -> & _). pose proof Hp as (_ & -> & _).
  by apply skip_chunk_ext_respects.
Qed.

Lemma decode_special_char_respects buf : respects (D.decode_special_char buf).
Proof.
  intros d d' Hp Hd. unfold D.decode_special_char.
  pose proof (deq_plain _ _ Hd Hp) as (_ & -> & _). pose proof Hp as (_ & -> & _).
  assert (Hh : D.hex_count d = D.hex_count d') by by deq_fields Hd. simpl. rewrite <- Hh.
  destruct Hp as (? & ? & ? & ? & ?).
  destruct (_ =? 0); apply skip_extension_respects; try (split_and!; done); by deq_fields Hd.
Qed.

Lemma add_digit_respects n : 0 ≤ n → respects (D.add_digit n).
Proof. unfold D.add_digit, D.hex_to_decimal. intros Hn. respects_prim. Qed.
Lemma set_flags_respects : respects D.set_flags.
Proof. unfold D.set_flags, mmodify. respects_prim. Qed.

(** In the size, [chunk_flag] may differ. *)
Lemma decode_size_loop_respects buf : respects (D.decode_size_loop buf).
Proof.
  induction buf as [|b buf IH]; [respects_prim|]. cbn [D.decode_size_loop].
  assert (Hdigit : ∀ n, 0 ≤ n → respects (D.add_digit n;; D.set_flags;; D.decode_size_loop buf)).
  { intros n Hn. apply respects_bind; [by apply add_digit_respects|intros _].
    by apply respects_bind; [apply set_flags_respects|intros _]. }
  assert (Hzero : respects (D.add_digit 0;; D.decode_size_loop buf)).
  { by apply respects_bind; [by apply add_digit_respects|intros _]. }
  repeat case_match; zbool;
    try solve [done|apply decode_special_char_respects|apply respects_fail|apply Hdigit; lia].
  all: intros d d' Hp Hd. rewrite (proj1 (deq_plain _ _ Hd Hp)), (proj1 Hp); by apply Hzero.
Qed.

(** * One segment or two *)

(** The chunk made of the parts of two segments. *)
Definition join (c1 c2 : Chunk.t) : Chunk.t :=
  Chunk.mk (Chunk.id c2) (Chunk.state c2) (Chunk.size c2) (Chunk.data c1 ++ Chunk.data c2)
    (Chunk.trailer c2).

Definition joined (c1 : Chunk.t) (r : res HttpError (Chunk.t * bytes) * D.t) :=
  match r with
  | (Ok (c2, rest), d) => (Ok (join c1 c2, rest), d)
  | r => r
  end.

(** What the decoder does with [buf] once it has read one byte as [r]. *)
Definition resumed (r : res HttpError (Chunk.t * bytes) * D.t) (buf : bytes) :
    res HttpError (Chunk.t * bytes) * D.t :=
  match r with
  | (Ok (c, _), d) =>
      if Chunk.is_complete c then (Ok (c, buf), d) else joined c (D.decode_stage buf d)
  | r => r
  end.

Lemma joined_empty c r : Chunk.data c = [] → joined c r = r.
Proof. intros H. destruct r as [[[[] ?]| |] ?]; simpl; unfold join; simpl; by rewrite ?H. Qed.

Lemma skip_last_crlf_eq data buf d :
  D.skip_last_crlf data buf d = D.skip_last_crlf_loop data buf (D.set_stage d Stage.DataEnd).
Proof. done. Qed.

(** The data is only carried along. *)
Lemma skip_last_crlf_loop_data data buf d :
  D.skip_last_crlf_loop data buf d =
    joined (D.sized_chunk data None 0 ChunkState.Data) (D.skip_last_crlf_loop [] buf d).
Proof.
  revert d. induction buf as [|b buf IH]; intros d; simpl.
  - unfold joined, join. simpl. by rewrite app_nil_r.
  - repeat case_match; try done; rewrite !M_bind_eq.
    + destruct (D.decode_cr d) as [[[]| |] d1]; [apply IH|done..].
    + destruct (D.decode_lf d) as [[[]| |] d1]; [|done..]. unfold joined, join. simpl.
      by rewrite app_nil_r.
Qed.

Lemma set_stage_id d st : D.stage d = st → D.set_stage d st = d.
Proof. intros <-. by destruct d. Qed.
Lemma decode_cr_cases d :
  D.decode_cr d = (Err InvalidInput, d) ∨ D.decode_cr d = (Ok (), D.set_cr_meet d true).
Proof. unfold D.decode_cr. destruct (D.cr_meet d); auto. Qed.
Lemma decode_lf_cases d :
  D.decode_lf d = (Err InvalidInput, d) ∨ D.decode_lf d = (Ok (), D.set_cr_meet d false).
Proof. unfold D.decode_lf. destruct (D.cr_meet d); auto. Qed.
Ltac crlf :=
  rewrite !M_bind_eq;
  match goal with
  | |- context [D.decode_cr ?d] => destruct (decode_cr_cases d) as [-> | ->]
  | |- context [D.decode_lf ?d] => destruct (decode_lf_cases d) as [-> | ->]
  end; [done|]; cbn [resumed Chunk.is_complete Chunk.state D.sized_chunk].

Lemma stage_Size buf d : D.stage d = Stage.Size → D.decode_stage buf d = D.decode_size buf d.
Proof. unfold D.decode_stage. by intros ->. Qed.
Lemma stage_Extension buf d :
  D.stage d = Stage.Extension → D.decode_stage buf d = D.skip_extension buf d.
Proof. unfold D.decode_stage. by intros ->. Qed.
Lemma stage_SizeEnd buf d : D.stage d = Stage.SizeEnd → D.decode_stage buf d = D.skip_crlf buf d.
Proof. unfold D.decode_stage. by intros ->. Qed.
Lemma stage_Data buf d : D.stage d = Stage.Data → D.decode_stage buf d = D.decode_data buf d.
Proof. unfold D.decode_stage. by intros ->. Qed.
Lemma stage_DataEnd buf d :
  D.stage d = Stage.DataEnd → D.decode_stage buf d = D.skip_last_crlf [] buf d.
Proof. unfold D.decode_stage. by intros ->. Qed.

Lemma resume_data_end b buf data d :
  D.stage d = Stage.DataEnd →
  D.skip_last_crlf_loop data (b :: buf) d = resumed (D.skip_last_crlf_loop data [b] d) buf.
Proof.
  intros Hs. simpl. destruct (b =? 13); [|destruct (b =? 10); [|done]].
  - crlf. rewrite stage_DataEnd by done.
    rewrite skip_last_crlf_eq, set_stage_id by done. apply skip_last_crlf_loop_data.
  - by crlf.
Qed.

Lemma decode_data_eq buf d :
  D.decode_data buf d = D.decode_data buf (D.set_stage d Stage.Data).
Proof. done. Qed.

Lemma decode_data_cons b buf d :
  D.decode_data (b :: buf) d =
    let rest := D.rest_size d in
    if rest <=? len (b :: buf) then
      D.skip_last_crlf_loop (upto rest (b :: buf)) (from rest (b :: buf))
        (D.set_stage (D.set_cr_meet (D.set_rest_size (D.set_stage d Stage.Data) 0) false) Stage.DataEnd)
    else (Ok (D.sized_chunk (b :: buf) None (D.total_size d) ChunkState.Data, []),
          D.set_rest_size (D.set_stage d Stage.Data) (rest - len (b :: buf))).
Proof. done. Qed.

Lemma resume_data b buf d :
  0 ≤ D.rest_size d → buf ≠ [] → D.decode_data (b :: buf) d = resumed (D.decode_data [b] d) buf.
Proof.
  intros Hr Hb. rewrite !decode_data_cons. cbv zeta. rewrite !len_cons.
  pose proof (len_pos _ Hb) as Hl. change (len []) with 0.
  destruct (Z.eq_dec (D.rest_size d) 0) as [H0|H0].
  { rewrite H0, !upto_0, !from_0 by done. rewrite !(proj2 (Z.leb_le _ _)) by lia.
    by rewrite resume_data_end. }
  destruct (Z.eq_dec (D.rest_size d) 1) as [H1|H1].
  { rewrite H1. rewrite !(proj2 (Z.leb_le _ _)) by lia.
    change (upto 1 (b :: buf)) with (b :: upto 0 buf). rewrite upto_0 by done.
    change (from 1 (b :: buf)) with (from 0 buf). rewrite from_0 by done. simpl.
    rewrite stage_DataEnd by done.
    by rewrite skip_last_crlf_loop_data. }
  rewrite (proj2 (Z.leb_gt (D.rest_size d) (0 + 1))) by lia. simpl.
  rewrite stage_Data by done.
  destruct buf as [|b' buf]; [done|]. rewrite decode_data_cons. simpl.
  set (r := D.rest_size d) in *. rewrite !len_cons in *.
  replace (upto r (b :: b' :: buf)) with (b :: upto (r - 1) (b' :: buf)); last first.
  { unfold upto. replace (Z.to_nat r) with (S (Z.to_nat (r - 1))) by lia. done. }
  replace (from r (b :: b' :: buf)) with (from (r - 1) (b' :: buf)); last first.
  { unfold from. replace (Z.to_nat r) with (S (Z.to_nat (r - 1))) by lia. done. }
  destruct (Z.leb_spec r (len buf + 1 + 1)).
  - rewrite (proj2 (Z.leb_le _ _)) by lia. rewrite skip_last_crlf_loop_data.
    rewrite (skip_last_crlf_loop_data (upto (r - 1) _)).
    destruct (D.skip_last_crlf_loop [] _ _) as [[[c x]| |] y] eqn:Hx; try done.
  - rewrite (proj2 (Z.leb_gt _ _)) by lia. unfold joined, join. simpl. do 2 f_equal. lia.
Qed.

Lemma resume_size_end b buf d :
  D.stage d = Stage.SizeEnd →
  D.skip_crlf_loop (b :: buf) d = resumed (D.skip_crlf_loop [b] d) buf.
Proof.
  intros Hs. simpl. destruct (b =? 13); [|destruct (b =? 10); [|done]].
  - crlf. rewrite stage_SizeEnd by done.
    rewrite joined_empty by done. unfold D.skip_crlf. rewrite M_bind_eq. simpl.
    by rewrite set_stage_id.
  - crlf. simpl. rewrite stage_Data by done.
    by rewrite joined_empty.
Qed.

Lemma resume_extension b buf d :
  D.stage d = Stage.Extension → D.is_chunk_trailer d = false →
  D.skip_chunk_ext (b :: buf) d = resumed (D.skip_chunk_ext [b] d) buf.
Proof.
  intros Hs Ht. simpl. destruct (b =? 13); [|destruct (b =? 10) eqn:Hb].
  - crlf. simpl. rewrite stage_SizeEnd by done. by rewrite joined_empty.
  - crlf. apply Z.eqb_eq in Hb as ->. unfold D.skip_crlf. rewrite !M_bind_eq. simpl.
    by rewrite !M_bind_eq.
  - simpl. rewrite stage_Extension, joined_empty by done. unfold D.skip_extension.
    rewrite M_bind_eq. simpl. rewrite set_stage_id by done. unfold mstate. by rewrite Ht.
Qed.

Lemma skip_extension_plain buf d :
  D.is_chunk_trailer d = false →
  D.skip_extension buf d = D.skip_chunk_ext buf (D.set_stage d Stage.Extension).
Proof. intros Ht. unfold D.skip_extension. rewrite M_bind_eq. simpl. unfold mstate. simpl. by rewrite Ht. Qed.

Lemma resume_special b buf d :
  D.is_chunk_trailer d = false →
  D.decode_special_char (b :: buf) d = resumed (D.decode_special_char [b] d) buf.
Proof.
  intros Ht. unfold D.decode_special_char. rewrite Ht. simpl.
  destruct (D.hex_count d =? 0); rewrite !skip_extension_plain by done; by apply resume_extension.
Qed.

Lemma decode_size_cons b buf d :
  D.stage d = Stage.Size →
  D.decode_size (b :: buf) d = D.decode_size_loop (b :: buf) (D.set_chunk_flag d false).
Proof.
  intros Hs. unfold D.decode_size. rewrite !M_bind_eq. unfold mmodify at 1. rewrite set_stage_id by done.
  done.
Qed.

(** The digit [0] without trailers. *)
Lemma decode_size_zero buf d :
  D.is_trailer d = false →
  D.decode_size_loop (48 :: buf) d = (D.add_digit 0;; D.decode_size_loop buf) d.
Proof.
  intros Ht. cbn [D.decode_size_loop]. change (48 =? 48) with true. cbv iota.
  case_match; [done|]. by rewrite Ht.
Qed.

(** After a digit the next segment goes on in the same state, but for the flag. *)
Lemma resume_digit n f b buf d :
  plain d → D.stage d = Stage.Size → buf ≠ [] → 0 ≤ n →
  (∀ d, plain d → ∃ d2, f d = (Ok (), d2) ∧ plain d2 ∧ D.stage d2 = D.stage d) →
  D.decode_size_loop [b] d = (D.add_digit n;; f;; D.decode_size_loop []) d →
  sim ((D.add_digit n;; f;; D.decode_size_loop buf) d) (resumed (D.decode_size_loop [b] d) buf).
Proof.
  intros Hp Hs Hb Hn Hf ->. rewrite !M_bind_eq.
  destruct (add_digit_respects n Hn d d Hp ltac:(done)) as [_ Hp1]. revert Hp1.
  unfold D.add_digit. destruct (D.hex_to_decimal _ _) as [k| |]; [|done..]. simpl. intros Hp1.
  destruct (Hf _ Hp1) as (d2 & Hf2 & Hp2 & Hs2). simpl in Hs2. rewrite !M_bind_eq, Hf2. simpl.
  rewrite stage_Size, joined_empty by (simpl; congruence). destruct buf as [|b' buf]; [done|].
  rewrite decode_size_cons by (simpl; congruence).
  by apply (decode_size_loop_respects (b' :: buf) d2).
Qed.

Lemma add_then_nothing n buf d :
  (D.add_digit n;; D.decode_size_loop buf) d =
  (D.add_digit n;; (mret () : M D.t HttpError ());; D.decode_size_loop buf) d.
Proof. rewrite !M_bind_eq. by destruct (D.add_digit n d) as [[[]| |] ?]. Qed.

Lemma resume_size b buf d :
  plain d → D.stage d = Stage.Size → buf ≠ [] →
  sim (D.decode_size_loop (b :: buf) d) (resumed (D.decode_size_loop [b] d) buf).
Proof.
  intros Hp Hs Hb. destruct (b =? 48) eqn:H0.
  { apply Z.eqb_eq in H0 as ->. rewrite (decode_size_zero buf) by apply Hp.
    rewrite add_then_nothing. apply resume_digit; [done..| |].
    - intros d' Hp'. by exists d'.
    - rewrite decode_size_zero by apply Hp. apply add_then_nothing. }
  assert (Hdigit : ∀ n, 0 ≤ n →
    D.decode_size_loop [b] d = (D.add_digit n;; D.set_flags;; D.decode_size_loop []) d →
    sim ((D.add_digit n;; D.set_flags;; D.decode_size_loop buf) d)
      (resumed (D.decode_size_loop [b] d) buf)).
  { intros n Hn Heq. apply resume_digit; [done..| |done]. intros d' (? & ? & ? & ? & ?).
    eexists. split; [reflexivity|]. by split. }
  revert Hdigit. cbn [D.decode_size_loop]. rewrite H0. intros Hdigit.
  repeat case_match; zbool; try (apply Hdigit; [lia|done]); try done.
  by rewrite resume_special by apply Hp.
Qed.

Lemma sim_refl_eq {A} (p q : res HttpError A * D.t) : p = q → sim p q.
Proof. by intros ->. Qed.

(** Reading a byte and then the rest is reading both. *)
Lemma resume_stage b buf d :
  plain d → buf ≠ [] → sim (D.decode_stage (b :: buf) d) (resumed (D.decode_stage [b] d) buf).
Proof.
  intros Hp Hb. destruct (D.stage d) eqn:Hs.
  - rewrite !stage_Size, !decode_size_cons by done. by apply resume_size.
  - rewrite !stage_Extension, !skip_extension_plain by (done || apply Hp).
    apply sim_refl_eq. apply resume_extension; [done|apply Hp].
  - rewrite !stage_SizeEnd by done. apply sim_refl_eq. unfold D.skip_crlf. rewrite !M_bind_eq.
    by apply resume_size_end.
  - rewrite !stage_Data by done. apply sim_refl_eq. apply resume_data; [apply Hp|done].
  - rewrite !stage_DataEnd by done. apply sim_refl_eq. rewrite !skip_last_crlf_eq.
    by apply resume_data_end.
  - destruct Hp as (_ & _ & _ & _ & H). by rewrite Hs in H.
  - destruct Hp as (_ & _ & _ & _ & H). by rewrite Hs in H.
  - destruct Hp as (_ & _ & _ & _ & H). by rewrite Hs in H.
Qed.

Lemma decode_size_respects buf : respects (D.decode_size buf).
Proof.
  apply respects_bind; [by apply set_stage_respects|intros _]. destruct buf as [|b buf].
  - unfold mstate. respects_prim.
  - apply respects_bind; [|intros _; apply decode_size_loop_respects].
    unfold mmodify. respects_prim.
Qed.

Lemma decode_stage_respects buf : respects (D.decode_stage buf).
Proof.
  intros d d' Hp Hd. assert (D.stage d' = D.stage d) as Hs by by deq_fields Hd.
  unfold D.decode_stage. rewrite Hs. destruct (D.stage d) eqn:Hst.
  - by apply decode_size_respects.
  - by apply skip_extension_respects.
  - by apply skip_crlf_respects.
  - by apply decode_data_respects.
  - by apply skip_last_crlf_respects.
  - destruct Hp as (_ & _ & _ & _ & H). by rewrite Hst in H.
  - destruct Hp as (_ & _ & _ & _ & H). by rewrite Hst in H.
  - destruct Hp as (_ & _ & _ & _ & H). by rewrite Hst in H.
Qed.

(** * Byte by byte *)

(** [match_decode_result] as a change of the state. *)
Definition settle (c : Chunk.t) (d : D.t) : D.t :=
  if Chunk.is_complete c then
    if D.is_last_chunk d then D.set_chunk_num (D.set_is_last_chunk d false) 0
    else D.set_chunk_num d (D.chunk_num d + 1)
  else d.

Definition prepend (w : bytes) (r : res HttpError (bytes * option bytes) * D.t) :=
  match r with
  | (Ok (w', rest), d) => (Ok (w ++ w', rest), d)
  | r => r
  end.

(** The decoder fed one byte at a time: the data, and the input behind the last
    chunk when that was reached. *)
Fixpoint byte_run (buf : bytes) (d : D.t) : res HttpError (bytes * option bytes) * D.t :=
  match buf with
  | [] => (Ok ([], None), d)
  | b :: buf =>
      match D.decode_stage [b] d with
      | (Ok (c, _), d1) =>
          if Chunk.is_complete c && D.is_last_chunk d1 then
            (Ok (Chunk.data c, Some buf), settle c d1)
          else prepend (Chunk.data c) (byte_run buf (settle c d1))
      | (Err e, d1) => (Err e, d1)
      | (Panic, d1) => (Panic, d1)
      end
  end.

(** What follows a chunk [c] with [rest] left. *)
Definition go_on (c : Chunk.t) (rest : bytes) (d : D.t) : res HttpError (bytes * option bytes) * D.t :=
  if Chunk.is_complete c && D.is_last_chunk d then (Ok (Chunk.data c, Some rest), settle c d)
  else prepend (Chunk.data c) (byte_run rest (settle c d)).

Lemma settle_plain c d : plain d → plain (settle c d).
Proof.
  intros Hp. unfold settle. destruct (Chunk.is_complete c); [|done]. by destruct (D.is_last_chunk d).
Qed.
Lemma settle_deq c d d' : deq d d' → deq (settle c d) (settle c d').
Proof.
  intros Hd. unfold settle. deq_fields Hd. simpl. destruct (Chunk.is_complete c); [|done].
  by match goal with |- context [if ?b then _ else _] => destruct b end.
Qed.

Lemma sim_prepend w r r' : sim r r' → sim (prepend w r) (prepend w r').
Proof. destruct r as [[[]| |] ?], r' as [[[]| |] ?]; intros [H1 H2]; simplify_eq/=; by split. Qed.

Lemma byte_run_respects buf d d' : plain d → deq d d' → sim (byte_run buf d) (byte_run buf d').
Proof.
  revert d d'. induction buf as [|b buf IH]; intros d d' Hp Hd; [by split|]. simpl.
  destruct (decode_stage_respects [b] d d' Hp Hd) as [[H1 H2] H3].
  destruct (D.decode_stage [b] d) as [[[c x]|e|] d1], (D.decode_stage [b] d') as [[[c' x']|e'|] d1'];
    simplify_eq/=; [|destruct e, e'; by split|by split].
  assert (D.is_last_chunk d1' = D.is_last_chunk d1) as -> by by deq_fields H2.
  destruct (_ && _).
  - split; [done|]. by apply settle_deq.
  - apply sim_prepend, IH; [by apply settle_plain|by apply settle_deq].
Qed.

Lemma go_on_respects c rest d d' : plain d → deq d d' → sim (go_on c rest d) (go_on c rest d').
Proof.
  intros Hp Hd. unfold go_on. assert (D.is_last_chunk d' = D.is_last_chunk d) as -> by by deq_fields Hd.
  destruct (_ && _); [split; [done|by apply settle_deq]|].
  apply sim_prepend, byte_run_respects; [by apply settle_plain|by apply settle_deq].
Qed.

(** * What a stage returns *)

(** [is_last_chunk] marks a size of zero. *)
Definition last_ok (d : D.t) : Prop :=
  match D.stage d with
  | Stage.Size => D.is_last_chunk d = false
  | _ => D.is_last_chunk d = (D.total_size d =? 0)
  end.

Definition stage_post (buf : bytes) (r : res HttpError (Chunk.t * bytes) * D.t) : Prop :=
  match r with
  | (Ok (c, rest), d) =>
      Chunk.trailer c = None ∧
      (if Chunk.is_complete c then
         D.stage d = Stage.Size ∧ D.is_last_chunk d = (Chunk.size c =? 0) ∧ len rest < len buf
       else rest = [] ∧ last_ok d)
  | (Err _, _) => True
  | (Panic, _) => False
  end.

Lemma stage_post_le buf buf' r : len buf ≤ len buf' → stage_post buf r → stage_post buf' r.
Proof.
  intros H. destruct r as [[[c rest]| |] d]; simpl; [|done..]. intros [? Hc]. split; [done|].
  destruct (Chunk.is_complete c); [|done]. destruct Hc as (? & ? & ?). split_and!; [done..|lia].
Qed.

Lemma skip_last_crlf_loop_post data buf d :
  D.stage d = Stage.DataEnd → D.is_last_chunk d = (D.total_size d =? 0) →
  stage_post buf (D.skip_last_crlf_loop data buf d).
Proof.
  revert d. induction buf as [|b buf IH]; intros d Hs Hl; simpl.
  - split_and!; [done..|]. unfold last_ok. by rewrite Hs.
  - destruct (b =? 13); [|destruct (b =? 10); [|done]].
    + crlf. eapply stage_post_le; [|by apply IH]. rewrite len_cons. lia.
    + crlf. simpl. split_and!; [done..|]. rewrite len_cons. lia.
Qed.

Lemma decode_data_post buf d :
  D.is_last_chunk d = (D.total_size d =? 0) → 0 ≤ D.rest_size d → stage_post buf (D.decode_data buf d).
Proof.
  intros Hl Hr. destruct buf as [|b buf]; [by split_and!|]. rewrite decode_data_cons. cbv zeta.
  destruct (_ <=? _); [|by split_and!]. eapply stage_post_le; [|by apply skip_last_crlf_loop_post].
  rewrite len_from by done. pose proof (len_nonneg (b :: buf)). lia.
Qed.

Lemma skip_crlf_loop_post buf d :
  D.stage d = Stage.SizeEnd → D.is_last_chunk d = (D.total_size d =? 0) → 0 ≤ D.rest_size d →
  stage_post buf (D.skip_crlf_loop buf d).
Proof.
  revert d. induction buf as [|b buf IH]; intros d Hs Hl Hr; simpl.
  - split_and!; [done..|]. unfold last_ok. by rewrite Hs.
  - destruct (b =? 13); [|destruct (b =? 10); [|done]].
    + crlf. eapply stage_post_le; [|by apply IH]. rewrite len_cons. lia.
    + crlf. eapply stage_post_le; [|by apply decode_data_post]. rewrite len_cons. lia.
Qed.

Lemma skip_chunk_ext_post buf d :
  D.stage d = Stage.Extension → D.is_last_chunk d = (D.total_size d =? 0) → 0 ≤ D.rest_size d →
  stage_post buf (D.skip_chunk_ext buf d).
Proof.
  revert d. induction buf as [|b buf IH]; intros d Hs Hl Hr; simpl.
  - split_and!; [done..|]. unfold last_ok. by rewrite Hs.
  - destruct (b =? 13); [|destruct (b =? 10)].
    + crlf. eapply stage_post_le; [|by apply skip_crlf_loop_post]. rewrite len_cons. lia.
    + crlf. by apply skip_crlf_loop_post.
    + eapply stage_post_le; [|by apply IH]. rewrite len_cons. lia.
Qed.

Lemma decode_special_char_post buf d :
  plain d → D.is_last_chunk d = false → stage_post buf (D.decode_special_char buf d).
Proof.
  intros (_ & Ht & Hr & Hh & _) Hl. unfold D.decode_special_char. rewrite Ht. simpl.
  destruct (D.hex_count d =? 0) eqn:H0; rewrite skip_extension_plain by done;
    apply skip_chunk_ext_post; simpl; try done; by rewrite H0.
Qed.

Lemma decode_size_loop_post buf d :
  plain d → D.stage d = Stage.Size → D.is_last_chunk d = false →
  stage_post buf (D.decode_size_loop buf d).
Proof.
  revert d. induction buf as [|b buf IH]; intros d Hp Hs Hl.
  { split_and!; [done..|]. unfold last_ok. simpl. by rewrite Hs. }
  assert (Hdigit : ∀ n f, 0 ≤ n → f = (λ d, (Ok (), d)) ∨ f = D.set_flags →
    stage_post (b :: buf) ((D.add_digit n;; f;; D.decode_size_loop buf) d)).
  { intros n f Hn Hf. rewrite M_bind_eq. pose proof (add_digit_respects n Hn d d Hp ltac:(done)) as [_ Hp1].
    revert Hp1. unfold D.add_digit. destruct (D.hex_to_decimal _ _) as [k| |] eqn:Hk; [|done|].
    - intros Hp1. rewrite M_bind_eq. eapply stage_post_le; [|destruct Hf as [-> | ->]; by apply IH].
      rewrite len_cons. lia.
    - unfold D.hex_to_decimal in Hk. by repeat case_match. }
  destruct (b =? 48) eqn:H0.
  { apply Z.eqb_eq in H0 as ->. rewrite decode_size_zero by apply Hp. rewrite add_then_nothing.
    apply Hdigit; [done|by left]. }
  cbn [D.decode_size_loop]. rewrite H0.
  repeat case_match; zbool; try (apply Hdigit; [lia|by right]); [|done].
  by apply decode_special_char_post.
Qed.

Lemma decode_stage_post buf d : plain d → last_ok d → stage_post buf (D.decode_stage buf d).
Proof.
  intros Hp Hl. unfold last_ok in Hl. pose proof Hp as (Ht & Hct & Hr & Hh & Hst).
  destruct (D.stage d) eqn:Hs; try done.
  - rewrite stage_Size by done. destruct buf as [|b buf].
    + done.
    + rewrite decode_size_cons by done. by apply decode_size_loop_post.
  - rewrite stage_Extension, skip_extension_plain by done. by apply skip_chunk_ext_post.
  - rewrite stage_SizeEnd by done. by apply skip_crlf_loop_post.
  - rewrite stage_Data by done. by apply decode_data_post.
  - rewrite stage_DataEnd, skip_last_crlf_eq by done. by apply skip_last_crlf_loop_post.
Qed.

(** * The loop *)

Lemma go_on_joined c1 c rest d :
  Chunk.is_complete c1 = false →
  go_on (join c1 c) rest d = prepend (Chunk.data c1) (go_on c rest d).
Proof.
  intros H. unfold go_on, settle, Chunk.is_complete, join. simpl.
  destruct (bool_decide (Chunk.state c = ChunkState.Finish)); simpl;
    [destruct (D.is_last_chunk d); simpl; [done|]|];
    destruct (byte_run rest _) as [[[]| |] ?]; simpl; by rewrite ?app_assoc.
Qed.

(** A chunk read in one go is a chunk read byte by byte. *)
Lemma byte_run_stage buf d :
  plain d → last_ok d → buf ≠ [] →
  match D.decode_stage buf d with
  | (Ok (c, rest), d1) => sim (byte_run buf d) (go_on c rest d1)
  | (Err e, d1) => ∃ d2, byte_run buf d = (Err e, d2) ∧ deq d1 d2
  | (Panic, _) => False
  end.
Proof.
  revert d. induction buf as [|b buf IH]; intros d Hp Hl Hne; [done|]. clear Hne.
  pose proof (decode_stage_post [b] d Hp Hl) as H1.
  pose proof (decode_stage_respects [b] d d Hp ltac:(done)) as [_ Hp1].
  destruct (decide (buf = [])) as [->|Hb].
  { simpl. destruct (D.decode_stage [b] d) as [[[c rest]|e|] d1]; [|by exists d1|done].
    destruct H1 as [_ H1]. unfold go_on. destruct (Chunk.is_complete c).
    - destruct H1 as (_ & _ & Hlen). rewrite len_cons in Hlen. change (len []) with 0 in Hlen.
      pose proof (len_nonneg rest). rewrite (len_0_nil rest) by lia.
      by destruct (D.is_last_chunk d1).
    - by destruct H1 as [-> _]. }
  pose proof (resume_stage b buf d Hp Hb) as Hres. simpl.
  destruct (D.decode_stage [b] d) as [[[c1 rest1]|e|] d1] eqn:E1; simpl in Hres; [| |done].
  - destruct H1 as [_ H1]. destruct (Chunk.is_complete c1) eqn:Hc1.
    + (* the byte ended a chunk *)
      destruct (D.decode_stage (b :: buf) d) as [[[c rest]|e|] d2]; destruct Hres as [Hr Hd];
        simplify_eq/=.
      assert (Hg := go_on_respects c1 buf d1 d2 Hp1 ltac:(done)).
      unfold go_on in Hg at 1. by rewrite Hc1 in Hg.
    + simpl. destruct H1 as [-> Hl1]. 
      assert (settle c1 d1 = d1) as -> by (unfold settle; by rewrite Hc1). simpl in Hp1. specialize (IH d1 Hp1 Hl1 Hb).
      pose proof (decode_stage_respects buf d1 d1 Hp1 ltac:(done)) as [_ Hp2].
      destruct (D.decode_stage buf d1) as [[[c2 rest]|e|] d2]; simpl in Hres; [| |done].
      * destruct (D.decode_stage (b :: buf) d) as [[[c r]|e|] d3]; destruct Hres as [Hr Hd];
          simplify_eq/=.
        etrans; [apply sim_prepend, IH|]. rewrite <- go_on_joined by done.
        apply go_on_respects; [done|by symmetry].
      * destruct (D.decode_stage (b :: buf) d) as [[[c r]|e'|] d3]; destruct Hres as [Hr Hd];
          simplify_eq/=. destruct IH as (d4 & -> & Hd4). exists d4. destruct e, e'. split; [done|].
        by etrans.
  - destruct (D.decode_stage (b :: buf) d) as [[[c r]|e'|] d3]; destruct Hres as [Hr Hd];
      simplify_eq/=. exists d1. destruct e, e'. by split.
Qed.

(** What a caller sees of the chunks: the data, and the input behind the last
    chunk once a complete chunk of size zero has come. *)
Definition ends (cs : list Chunk.t) : bool :=
  match list.last cs with Some c => Chunk.is_complete c && (Chunk.size c =? 0) | None => false end.

Definition outcome (r : res HttpError (list Chunk.t * bytes) * D.t) :
    res HttpError (bytes * option bytes) * D.t :=
  match r with
  | (Ok (cs, rest), d) => (Ok (cs ≫= Chunk.data, if ends cs then Some rest else None), d)
  | (Err e, d) => (Err e, d)
  | (Panic, d) => (Panic, d)
  end.

Lemma ends_snoc cs c : ends (cs ++ [c]) = Chunk.is_complete c && (Chunk.size c =? 0).
Proof. unfold ends. by rewrite last_snoc. Qed.

Lemma data_snoc cs c : (cs ++ [c]) ≫= Chunk.data = (cs ≫= Chunk.data) ++ Chunk.data c.
Proof. rewrite bind_app. simpl. by rewrite app_nil_r. Qed.

Lemma prepend_app w w' r : prepend (w ++ w') r = prepend w (prepend w' r).
Proof. destruct r as [[[]| |] ?]; simpl; by rewrite ?app_assoc. Qed.

Lemma decode_stage_nil d :
  plain d → ∃ c, D.decode_stage [] d = (Ok (c, []), d) ∧ Chunk.data c = [] ∧
    Chunk.is_complete c = false ∧ Chunk.trailer c = None.
Proof.
  intros (Ht & Hct & _ & _ & Hst). unfold D.decode_stage. destruct (D.stage d) eqn:Hs; try done.
  - unfold D.decode_size. rewrite M_bind_eq. unfold mmodify. rewrite set_stage_id by done. by eexists.
  - rewrite skip_extension_plain, set_stage_id by done. by eexists.
  - unfold D.skip_crlf. rewrite M_bind_eq. unfold mmodify. rewrite set_stage_id by done. by eexists.
  - unfold D.decode_data. rewrite M_bind_eq. unfold mmodify. rewrite set_stage_id by done. by eexists.
  - rewrite skip_last_crlf_eq, set_stage_id by done. by eexists.
Qed.

(** The state between two calls: the last chunk has not been reached, or it is
    the start of another body. *)
Lemma settle_last_ok c d :
  D.stage d = Stage.Size → Chunk.is_complete c = true → last_ok (settle c d).
Proof.
  intros Hs Hc. unfold settle, last_ok. rewrite Hc.
  destruct (D.is_last_chunk d) eqn:Hl; simpl; by rewrite Hs.
Qed.

Lemma decode_loop_spec fuel results remains d :
  plain d → last_ok d → (length remains < fuel)%nat →
  ∃ r, D.decode_loop fuel results remains d = Some r ∧
    sim (outcome r) (prepend (results ≫= Chunk.data) (byte_run remains d)) ∧
    match r with
    | (Ok (cs, rest), d') => plain d' ∧ last_ok d' ∧ (ends cs = false → rest = [])
    | _ => True
    end.
Proof.
  revert results remains d. induction fuel as [|fuel IH]; intros results remains d Hp Hl Hf; [lia|].
  cbn [D.decode_loop]. destruct (decide (remains = [])) as [->|Hne].
  { destruct (decode_stage_nil d Hp) as (c & -> & Hd & Hc & Ht). simpl. rewrite Ht.
    unfold D.match_decode_result. simpl. unfold Chunk.is_complete in *. simpl. rewrite Hc.
    pose proof Hp as (_ & -> & _). simpl. eexists. split; [done|]. split.
    - unfold outcome. rewrite ends_snoc, data_snoc. unfold Chunk.is_complete. simpl. rewrite Hc, Hd. done.
    - split_and!; [done..|]. by intros. }
  pose proof (byte_run_stage remains d Hp Hl Hne) as Hrun.
  pose proof (decode_stage_post remains d Hp Hl) as Hpost.
  pose proof (decode_stage_respects remains d d Hp ltac:(done)) as [_ Hp1].
  destruct (D.decode_stage remains d) as [[[c rest]|e|] d1]; [| |done]; last first.
  { destruct Hrun as (d2 & -> & Hd). eexists. split; [done|]. by split. }
  destruct Hpost as [Ht Hpost]. simpl in Hp1. cbn [Chunk.trailer Chunk.set_id]. rewrite Ht.
  unfold D.match_decode_result.
  change (Chunk.is_complete (Chunk.set_id c (D.chunk_num d1))) with (Chunk.is_complete c).
  set (c' := Chunk.set_id c (D.chunk_num d1)).
  assert (Hout : ∀ o d2, (if ends (results ++ [c']) then Some rest else None) = o →
    outcome (Ok (results ++ [c'], rest), d2) =
      prepend (results ≫= Chunk.data) (Ok (Chunk.data c, o), d2)).
  { intros o d2 <-. unfold outcome. by rewrite data_snoc. }
  rewrite ends_snoc in Hout. change (Chunk.is_complete c') with (Chunk.is_complete c) in Hout.
  change (Chunk.size c') with (Chunk.size c) in Hout. unfold go_on in Hrun.
  assert (Hends : ends (results ++ [c']) = Chunk.is_complete c && (Chunk.size c =? 0))
    by (by rewrite ends_snoc).
  destruct (Chunk.is_complete c) eqn:Hc.
  - destruct Hpost as (Hs & Hlast & Hlen). unfold settle in Hrun. rewrite Hc in Hrun.
    pose proof (settle_last_ok c d1 Hs Hc) as Hl1. pose proof (settle_plain c d1 Hp1) as Hp2.
    unfold settle in Hl1, Hp2. rewrite Hc in Hl1, Hp2.
    destruct (D.is_last_chunk d1) eqn:Hil.
    + eexists. split; [done|]. rewrite (Hout (Some rest)) by (by rewrite <- Hlast).
      split; [apply sim_prepend; by symmetry|]. split_and!; [done..|].
      by rewrite Hends, <- Hlast.
    + destruct rest as [|b rest].
      * eexists. split; [done|]. rewrite (Hout None) by (by rewrite <- Hlast).
        split; [apply sim_prepend; symmetry|by split_and!].
        etrans; [exact Hrun|]. simpl. by rewrite app_nil_r.
      * destruct (IH (results ++ [c']) (b :: rest) _ Hp2 Hl1) as (r & -> & Hr & Hinv).
        { unfold len in Hlen. lia. }
        exists r. split; [done|]. split; [|done]. etrans; [exact Hr|].
        rewrite data_snoc, prepend_app. apply sim_prepend. by symmetry.
  - destruct Hpost as [-> Hl1]. pose proof Hp1 as (_ & -> & _). simpl.
    eexists. split; [done|]. rewrite (Hout None) by done.
    split; [apply sim_prepend; symmetry|by split_and!].
    etrans; [exact Hrun|]. simpl. rewrite app_nil_r. unfold settle. by rewrite Hc.
Qed.

Lemma byte_run_app a b d :
  byte_run (a ++ b) d =
    match byte_run a d with
    | (Ok (w, Some rest), d1) => (Ok (w, Some (rest ++ b)), d1)
    | (Ok (w, None), d1) => prepend w (byte_run b d1)
    | r => r
    end.
Proof.
  revert d. induction a as [|x a IH]; intros d; simpl.
  { by destruct (byte_run b d) as [[[]| |] ?]. }
  destruct (D.decode_stage [x] d) as [[[c r]| |] d1]; [|done..]. destruct (_ && _); [done|].
  rewrite IH. destruct (byte_run a _) as [[[w [rest|]]| |] d2]; simpl; [done| |done..].
  destruct (byte_run b d2) as [[[]| |] ?]; simpl; by rewrite ?app_assoc.
Qed.

(** * Segments *)

(** The decoder fed segment by segment until the last chunk. *)
Fixpoint feed (segs : list bytes) (d : D.t) :
    option (res HttpError (bytes * option bytes) * D.t) :=
  match segs with
  | [] => Some (Ok ([], None), d)
  | s :: segs =>
      match D.decode s d with
      | Some (Ok (cs, rest), d1) =>
          if ends cs then Some (Ok (cs ≫= Chunk.data, Some (rest ++ concat segs)), d1)
          else prepend (cs ≫= Chunk.data) <$> feed segs d1
      | Some (Err e, d1) => Some (Err e, d1)
      | Some (Panic, d1) => Some (Panic, d1)
      | None => None
      end
  end.

Lemma feed_byte_run segs d :
  plain d → last_ok d → ∃ r, feed segs d = Some r ∧ sim r (byte_run (concat segs) d).
Proof.
  revert d. induction segs as [|s segs IH]; intros d Hp Hl; [by eexists|]. simpl.
  destruct (decode_loop_spec (D.decode_fuel s) [] s d Hp Hl) as (r & Hr & Hs & Hinv).
  { unfold D.decode_fuel. lia. }
  unfold D.decode. rewrite Hr, byte_run_app.
  assert (Hp0 : ∀ x, prepend ([] ≫= Chunk.data) x = x) by (by intros [[[]| |] ?]).
  rewrite Hp0 in Hs. destruct r as [[[cs rest]|e|] d1]; simpl in Hs.
  - destruct Hinv as (Hp1 & Hl1 & _). destruct (byte_run s d) as [[[w o]|e|] d2];
      destruct Hs as [H1 H2]; simplify_eq/=. destruct (ends cs).
    + eexists. split; [done|]. by split.
    + destruct (IH d1 Hp1 Hl1) as (r & -> & Hr'). eexists. split; [done|].
      apply sim_prepend. etrans; [exact Hr'|]. by apply byte_run_respects.
  - destruct (byte_run s d) as [[[w o]|e'|] d2]; destruct Hs as [H1 H2]; simplify_eq/=.
    eexists. split; [done|]. destruct e, e'. by split.
  - destruct (byte_run s d) as [[[w o]|e'|] d2]; destruct Hs as [H1 H2]; simplify_eq/=.
    eexists. split; [done|]. by split.
Qed.

(** * The grammar of chunked bodies *)

(** A hexadecimal digit, as the decoder reads it. *)
Definition hex_value (b : Z) : option Z :=
  if (48 <=? b) && (b <=? 57) then Some (b - 48)
  else if (97 <=? b) && (b <=? 102) then Some (b - 97 + 10)
  else if (65 <=? b) && (b <=? 70) then Some (b - 65 + 10)
  else None.

(** [digits acc ds n]: [ds] continues the number [acc] to [n]. *)
Inductive digits : Z → bytes → Z → Prop :=
| digits_nil n : digits n [] n
| digits_cons acc b v ds n :
    hex_value b = Some v → acc * 16 + v ≤ D.i64_max → digits (acc * 16 + v) ds n →
    digits acc (b :: ds) n.

Definition ext_ok (ext : bytes) : Prop :=
  Forall (λ b, b ≠ 13 ∧ b ≠ 10) ext ∧
  match ext with [] => True | b :: _ => b = 32 ∨ b = 9 ∨ b = 59 end.

(** [chunked w data]: the octets [w] are a chunked body without trailer section
    whose chunks carry [data]. *)
Inductive chunked : bytes → bytes → Prop :=
| chunked_last ds ext :
    ds ≠ [] → digits 0 ds 0 → ext_ok ext → chunked (ds ++ ext ++ CRLF ++ CRLF) []
| chunked_more ds n ext data w rest :
    digits 0 ds n → 0 < n → ext_ok ext → len data = n → chunked w rest →
    chunked (ds ++ ext ++ CRLF ++ data ++ CRLF ++ w) (data ++ rest).

(** Between chunks. *)
Definition idle (d : D.t) : Prop :=
  plain d ∧ D.stage d = Stage.Size ∧ D.is_last_chunk d = false ∧ D.cr_meet d = false ∧
  D.rest_size d = 0.

Lemma decode_size_digits acc ds n tl d :
  digits acc ds n → idle d → D.hex_count d = acc →
  ∃ d', D.decode_size_loop (ds ++ tl) d = D.decode_size_loop tl d' ∧ idle d' ∧ D.hex_count d' = n.
Proof.
  intros H. revert d. induction H as [n|acc b v ds n Hb Hmax _ IH]; intros d Hi Hh; [by exists d|].
  assert (Hv : 0 ≤ v) by (unfold hex_value in Hb; repeat case_match; simplify_eq; zbool; lia).
  assert (Hadd : ∀ f, f = (λ d, (Ok (), d)) ∨ f = D.set_flags →
    ∃ d1, (D.add_digit v;; f;; D.decode_size_loop (ds ++ tl)) d = D.decode_size_loop (ds ++ tl) d1 ∧
      idle d1 ∧ D.hex_count d1 = acc * 16 + v).
  { intros f Hf. destruct Hi as ((? & ? & ? & ? & ?) & ? & ? & ? & ?).
    rewrite M_bind_eq. unfold D.add_digit, D.hex_to_decimal. rewrite Hh.
    rewrite !(proj2 (Z.ltb_ge _ _)) by lia. rewrite M_bind_eq.
    destruct Hf as [-> | ->]; eexists; (split; [reflexivity|]); (split; [|done]);
      unfold idle, plain; simpl; split_and!; solve [done|lia]. }
  assert (∃ d1, D.decode_size_loop ((b :: ds) ++ tl) d = D.decode_size_loop (ds ++ tl) d1 ∧
    idle d1 ∧ D.hex_count d1 = acc * 16 + v) as (d1 & -> & Hi1 & Hh1); [|by apply IH].
  unfold hex_value in Hb. destruct (Z.eq_dec b 48) as [->|Hn].
  - injection Hb as <-. change ((48 :: ds) ++ tl) with (48 :: (ds ++ tl)).
    rewrite decode_size_zero by apply Hi. rewrite add_then_nothing. apply Hadd. by left.
  - simpl. rewrite (proj2 (Z.eqb_neq b 48) Hn).
    destruct (Z.leb_spec 49 b); [|destruct (Z.leb_spec 48 b), (Z.leb_spec 97 b), (Z.leb_spec 65 b); simplify_eq/=; try lia].
    all: repeat case_match; simplify_eq/=; zbool; try lia; try (apply Hadd; by right).
Qed.

Lemma skip_chunk_ext_app ext tl d :
  Forall (λ b, b ≠ 13 ∧ b ≠ 10) ext → D.skip_chunk_ext (ext ++ tl) d = D.skip_chunk_ext tl d.
Proof.
  induction 1 as [|b ext [H1 H2] _ IH]; [done|]. simpl.
  by rewrite (proj2 (Z.eqb_neq _ _) H1), (proj2 (Z.eqb_neq _ _) H2).
Qed.

(** The state after a chunk of size [n]. *)
Definition after_chunk (n : Z) (d : D.t) : Prop :=
  plain d ∧ D.stage d = Stage.Size ∧ D.is_last_chunk d = (n =? 0) ∧ D.cr_meet d = false ∧
  D.rest_size d = 0 ∧ D.hex_count d = 0.

Lemma skip_to_end data more d :
  plain d → D.stage d = Stage.Extension → D.cr_meet d = false →
  D.rest_size d = len data → D.is_last_chunk d = (D.total_size d =? 0) → D.hex_count d = 0 →
  ∃ d', D.skip_chunk_ext (CRLF ++ data ++ CRLF ++ more) d =
      (Ok (D.sized_chunk data None (D.total_size d) ChunkState.Finish, more), d') ∧
    after_chunk (D.total_size d) d'.
Proof.
  intros (? & ? & ? & ? & ?) Hs Hcr Hr Hl Hh.
  set (tl := data ++ CRLF ++ more).
  assert (∃ b tl', tl = b :: tl') as (b & tl' & Htl).
  { unfold tl. destruct data; by eexists _, _. }
  assert (Hskip : D.skip_chunk_ext (CRLF ++ tl) d =
    D.decode_data tl (D.set_cr_meet (D.set_stage (D.set_cr_meet d true) Stage.SizeEnd) false)).
  { change (CRLF ++ tl) with (13 :: 10 :: tl). cbn [D.skip_chunk_ext]. change (13 =? 13) with true.
    cbv iota. rewrite M_bind_eq. unfold D.decode_cr. rewrite Hcr. unfold D.skip_crlf.
    rewrite M_bind_eq. unfold mmodify. cbn [D.skip_crlf_loop]. change (10 =? 13) with false.
    change (10 =? 10) with true. cbv iota. rewrite M_bind_eq. unfold D.decode_lf. simpl. done. }
  rewrite Hskip, Htl, decode_data_cons, <- Htl. simpl. rewrite Hr.
  rewrite (proj2 (Z.leb_le _ _)) by (unfold tl; rewrite len_app; pose proof (len_nonneg (CRLF ++ more)); lia).
  unfold tl. rewrite upto_app_exact, from_app_exact by done.
  eexists. split; [reflexivity|]. unfold after_chunk, plain. simpl. split_and!; done.
Qed.

Lemma decode_size_chunk ext data more d :
  idle d → D.hex_count d = len data → ext_ok ext →
  ∃ d', D.decode_size_loop (ext ++ CRLF ++ data ++ CRLF ++ more) d =
      (Ok (D.sized_chunk data None (len data) ChunkState.Finish, more), d') ∧
    after_chunk (len data) d'.
Proof.
  intros ((Ht & Hct & _ & Hh0 & _) & Hs & Hl & Hcr & Hr) Hh [Hext Hhd].
  assert (Hsp : D.decode_size_loop (ext ++ CRLF ++ data ++ CRLF ++ more) d =
    D.decode_special_char (ext ++ CRLF ++ data ++ CRLF ++ more) d).
  { destruct ext as [|b ext]; [done|]. destruct Hhd as [-> |[-> | ->]]; done. }
  rewrite Hsp. unfold D.decode_special_char. rewrite Hct. simpl. rewrite Hh.
  destruct (Z.eqb_spec (len data) 0) as [H0|H0]; rewrite skip_extension_plain by done;
    rewrite skip_chunk_ext_app by done;
    change (13 :: 10 :: data ++ 13 :: 10 :: more) with (CRLF ++ data ++ CRLF ++ more).
  - destruct (skip_to_end data more (D.set_stage (D.set_is_last_chunk (D.set_num_flag
      (D.set_hex_count (D.set_total_size d (len data)) 0) false) true) Stage.Extension))
      as (d' & -> & H); [|done|done|by simpl; rewrite Hr, H0|by simpl; rewrite H0|done|by exists d'].
    split_and!; simpl; solve [done|lia].
  - destruct (skip_to_end data more (D.set_stage (D.set_rest_size (D.set_num_flag
      (D.set_hex_count (D.set_total_size d (len data)) 0) false) (len data)) Stage.Extension))
      as (d' & -> & H); [|done|done|done| |done|by exists d'].
    + split_and!; simpl; solve [done|apply len_nonneg].
    + simpl. rewrite Hl. symmetry. by apply Z.eqb_neq.
Qed.

(** A chunk in front of [more]. *)
Lemma decode_stage_chunk ds ext data more d :
  ds ≠ [] → digits 0 ds (len data) → ext_ok ext → idle d → D.hex_count d = 0 →
  ∃ d', D.decode_stage (ds ++ ext ++ CRLF ++ data ++ CRLF ++ more) d =
      (Ok (D.sized_chunk data None (len data) ChunkState.Finish, more), d') ∧
    after_chunk (len data) d'.
Proof.
  intros Hne Hd Hext Hi Hh. rewrite stage_Size by apply Hi.
  assert (∃ b tl, ds ++ ext ++ CRLF ++ data ++ CRLF ++ more = b :: tl) as (b & tl & Htl)
    by (destruct ds; [done|]; by eexists _, _).
  rewrite Htl, decode_size_cons by apply Hi. rewrite <- Htl.
  assert (Hi' : idle (D.set_chunk_flag d false)) by exact Hi.
  destruct (decode_size_digits 0 ds (len data) (ext ++ CRLF ++ data ++ CRLF ++ more) _ Hd Hi' Hh)
    as (d1 & -> & Hi1 & Hh1).
  by apply decode_size_chunk.
Qed.

Lemma digits_ne n ds : digits 0 ds n → 0 < n → ds ≠ [].
Proof. intros H Hn ->. inversion H. lia. Qed.

Lemma sim_ok {A} (a : A) (r : res HttpError A * D.t) d :
  sim r (Ok a, d) → ∃ d', r = (Ok a, d').
Proof. destruct r as [x d']. intros [H _]. simpl in H. exists d'. by rewrite H. Qed.

(** The byte-wise decoder on the grammar. *)
Lemma byte_run_chunked w data rest d :
  chunked w data → idle d → D.hex_count d = 0 →
  ∃ d', byte_run (w ++ rest) d = (Ok (data, Some rest), d').
Proof.
  intros Hw. revert d. induction Hw as [ds ext Hne Hd Hext|ds n ext data w tl Hd Hn Hext Hlen _ IH];
    intros d Hi Hh.
  - destruct (decode_stage_chunk ds ext [] rest d) as (d1 & Hstage & Hafter); try done.
    pose proof (byte_run_stage (ds ++ ext ++ CRLF ++ [] ++ CRLF ++ rest) d) as Hrun.
    rewrite Hstage in Hrun. destruct Hafter as (Hp & Hs & Hl & _).
    unfold go_on in Hrun. simpl in Hrun. rewrite Hl in Hrun.
    rewrite <- !app_assoc. simpl in *. eapply sim_ok, Hrun; [apply Hi| |by destruct ds].
    unfold last_ok. destruct Hi as (_ & -> & -> & _). done.
  - subst n. destruct (decode_stage_chunk ds ext data (w ++ rest) d) as (d1 & Hstage & Hafter);
      try done; [by eapply digits_ne|].
    pose proof (byte_run_stage (ds ++ ext ++ CRLF ++ data ++ CRLF ++ w ++ rest) d) as Hrun.
    rewrite Hstage in Hrun. destruct Hafter as (Hp & Hs & Hl & Hcr & Hr & Hh1).
    unfold go_on, settle in Hrun. simpl in Hrun. rewrite Hl in Hrun.
    rewrite (proj2 (Z.eqb_neq (len data) 0)) in Hrun by lia. simpl in Hrun.
    destruct (IH (D.set_chunk_num d1 (D.chunk_num d1 + 1))) as (d2 & Hd2); [|done|].
    { split_and!; try done. simpl. rewrite Hl. apply Z.eqb_neq. lia. }
    rewrite Hd2 in Hrun. simpl in Hrun. rewrite <- !app_assoc.
    eapply sim_ok, Hrun; [apply Hi| |].
    + unfold last_ok. destruct Hi as (_ & -> & -> & _). done.
    + apply digits_ne in Hd; [|done]. by destruct ds.
Qed.

Lemma byte_run_no_panic buf d : plain d → last_ok d → (byte_run buf d).1 ≠ Panic.
Proof.
  revert d. induction buf as [|b buf IH]; intros d Hp Hl; [done|]. simpl.
  pose proof (decode_stage_post [b] d Hp Hl) as Hpost.
  pose proof (decode_stage_respects [b] d d Hp ltac:(done)) as [_ Hp1].
  destruct (D.decode_stage [b] d) as [[[c rest]|e|] d1]; [|done|done].
  destruct Hpost as [_ Hpost]. destruct (_ && _); [done|].
  assert (Hl1 : last_ok (settle c d1)).
  { unfold settle. destruct (Chunk.is_complete c) eqn:Hc; [|apply Hpost].
    pose proof (settle_last_ok c d1 (proj1 Hpost) Hc) as H. unfold settle in H. by rewrite Hc in H. }
  specialize (IH (settle c d1) (settle_plain c d1 Hp1) Hl1).
  by destruct (byte_run buf (settle c d1)) as [[[]| |] ?].
Qed.

Lemma feed_chunked w data rest segs :
  chunked w data → concat segs = w ++ rest →
  ∃ d', feed segs D.new = Some (Ok (data, Some rest), d').
Proof.
  intros Hw Heq. destruct (feed_byte_run segs D.new) as (r & Hr & Hs); [by split_and!|done|].
  rewrite Heq in Hs. destruct (byte_run_chunked w data rest D.new) as (d' & Hd); [done|by split_and!|done|].
  rewrite Hd in Hs. apply sim_ok in Hs as (d2 & ->). by exists d2.
Qed.

(** * Theorems *)

(** However the input is cut into segments, a decoder without trailers gives
    the same data, finds the same end of the body and reports the same errors, and
    always returns. *)
Theorem chunk_decode_segments segs segs' d :
  plain d → last_ok d → concat segs = concat segs' →
  ∃ r r', feed segs d = Some r ∧ feed segs' d = Some r' ∧ sim r r' ∧ r.1 ≠ Panic.
Proof.
  intros Hp Hl Heq. destruct (feed_byte_run segs d Hp Hl) as (r & H1 & H2).
  destruct (feed_byte_run segs' d Hp Hl) as (r' & H3 & H4). exists r, r'.
  split_and!; [done..| |].
  - rewrite H2, H4. by rewrite Heq.
  - destruct H2 as [-> _]. by apply byte_run_no_panic.
Qed.

Lemma chunk_decode_segments_witness :
  ∃ r r', feed [str "5"; CRLF ++ str "hel"; str "lo" ++ CRLF ++ str "0" ++ CRLF; CRLF] D.new = Some r ∧
    feed [str "5" ++ CRLF ++ str "hello" ++ CRLF ++ str "0" ++ CRLF ++ CRLF] D.new = Some r' ∧
    sim r r' ∧ r.1 ≠ Panic.
Proof. apply chunk_decode_segments; [by split_and!|done|done]. Defined.

(** C20: Every chunked body of the grammar, with chunk sizes in any case and with
    leading zeros and with chunk extensions, cut into any segments, is read as the
    data of its chunks, and what follows the body is left. *)
Theorem chunk_decode_body w data rest segs :
  chunked w data → concat segs = w ++ rest →
  ∃ d', feed segs D.new = Some (Ok (data, Some rest), d').
Proof. apply feed_chunked. Qed.

Lemma chunk_decode_body_witness :
  ∃ d', feed [str "05;x"; CRLF ++ str "hello" ++ CRLF; str "000" ++ CRLF ++ CRLF ++ str "GET"] D.new =
    Some (Ok (str "hello", Some (str "GET")), d').
Proof.
  apply (chunk_decode_body (str "05;x" ++ CRLF ++ str "hello" ++ CRLF ++ str "000" ++ CRLF ++ CRLF)); [|done].
  apply (chunked_more (str "05") 5 (str ";x") (str "hello") (str "000" ++ CRLF ++ CRLF) []).
  - repeat (econstructor; [reflexivity|done|]). constructor.
  - done.
  - split; [|by right; right]. repeat constructor; done.
  - done.
  - apply (chunked_last (str "000") []).
    + done.
    + repeat (econstructor; [reflexivity|done|]). constructor.
    + by split.
Defined.

(** * Round trip *)

Lemma hex_value_digit d : 0 ≤ d < 16 → hex_value (hex_digit d) = Some d.
Proof.
  intros Hd. unfold hex_value, hex_digit. destruct (Z.ltb_spec d 10).
  - rewrite !(proj2 (Z.leb_le _ _)) by lia. simpl. f_equal. lia.
  - rewrite (proj2 (Z.leb_gt (87 + d) 57)) by lia. rewrite andb_false_r.
    rewrite !(proj2 (Z.leb_le _ _)) by lia. simpl. f_equal. lia.
Qed.

Lemma hex_loop_digits f n acc m :
  0 ≤ n < 16 ^ Z.of_nat f → n ≤ D.i64_max → digits n acc m → digits 0 (hex_loop f n acc) m.
Proof.
  revert n acc. induction f as [|f IH]; intros n acc Hn Hmax Hd.
  - simpl in *. by replace n with 0 in Hd by lia.
  - cbn [hex_loop]. pose proof (Z.mod_pos_bound n 16 ltac:(lia)) as Hm.
    pose proof (Z.div_mod n 16 ltac:(lia)) as Hdm.
    assert (Hd' : digits (n / 16) (hex_digit (n mod 16) :: acc) m).
    { eapply digits_cons; [by apply hex_value_digit|lia|].
      by replace (n / 16 * 16 + n mod 16) with n by lia. }
    destruct (Z.eqb_spec (n / 16) 0) as [H0|H0]; [by rewrite H0 in Hd'|].
    apply IH; [|lia|done]. rewrite Nat2Z.inj_succ, Z.pow_succ_r in Hn by lia.
    split; [apply Z.div_pos; lia|]. apply Z.div_lt_upper_bound; lia.
Qed.

Lemma to_hex_digits n : 0 ≤ n ≤ D.i64_max → digits 0 (to_hex n) n.
Proof.
  intros Hn. apply hex_loop_digits; [|lia|constructor]. unfold D.i64_max in Hn.
  change (16 ^ Z.of_nat 16) with (2 ^ 64). lia.
Qed.

Lemma chunk_wire_chunked c w data :
  0 < len c ≤ D.i64_max → chunked w data → chunked (chunk_wire c ++ w) (c ++ data).
Proof.
  intros Hc Hw. unfold chunk_wire. rewrite <- !app_assoc.
  apply (chunked_more (to_hex (len c)) (len c) [] c w data); [apply to_hex_digits; lia|lia|by split|done|done].
Qed.

(** C19: A body written by [ChunkBody] over a reader, through buffers that hold it, and read by
    [ChunkBodyDecoder] from any segments, arrives as the data the reader delivered, with
    what follows the body left.  Conditions, each of which the encoder needs: every read
    but the last fills the 1024 bytes it asks for (a shorter one is taken for the end),
    the last one returns fewer but not none (otherwise the body ends twice,
    [chunk_empty_body]), and no buffer ends within the digits of the last size (they
    would be written again, [chunk_size_cut_repeats]).  No trailer is written. *)
Theorem chunk_roundtrip {R E} (read : R → Z → res E bytes * R) r fulls lc x ns segs rest :
  let W := (fulls ≫= chunk_wire) ++ chunk_wire lc ++ trailer_wire [] in
  delivers read r (fulls ++ [lc; x]) → Forall (λ c, len c = CHUNK_SIZE) fulls →
  0 < len lc < CHUNK_SIZE → Forall (λ n, 0 ≤ n) ns →
  cuts_ok lc (trailer_wire []) (len W) ns → len W ≤ zsum ns →
  ∃ out s', data_calls (ChunkBody.reader_data (E := E) read) ns (ChunkBody.from_reader r) = Some (out, s') ∧
    (concat segs = out ++ rest →
     ∃ d', feed segs D.new = Some (Ok (concat fulls ++ lc, Some rest), d')).
Proof.
  intros W Hd Hfull Hlc Hns Hcut Hz.
  destruct (reader_encode_all read r fulls lc x [] ns) as (s' & Hout & _); [done..|lia|done|done|].
  rewrite upto_all in Hout by done. exists W, s'. split; [exact Hout|]. intros Hsegs.
  eapply feed_chunked; [|exact Hsegs]. subst W. clear -Hfull Hlc.
  induction Hfull as [|c fulls Hc _ IH]; simpl.
  - rewrite <- (app_nil_r lc) at 2. apply chunk_wire_chunked; [unfold D.i64_max, CHUNK_SIZE in *; lia|].
    apply (chunked_last (str "0") []); [done| |by split].
    repeat (econstructor; [reflexivity|done|]). constructor.
  - rewrite <- !app_assoc. apply chunk_wire_chunked; [|done].
    rewrite Hc. unfold D.i64_max, CHUNK_SIZE. lia.
Qed.

Lemma chunk_roundtrip_witness :
  ∃ out s', data_calls (ChunkBody.reader_data (E := Empty_set) slice_read) [4; 20]
      (ChunkBody.from_reader (str "hello")) = Some (out, s') ∧
    (concat [str "5"; CRLF ++ str "hello" ++ CRLF; str "0" ++ CRLF ++ CRLF] = out ++ [] →
     ∃ d', feed [str "5"; CRLF ++ str "hello" ++ CRLF; str "0" ++ CRLF ++ CRLF] D.new =
       Some (Ok (concat [] ++ str "hello", Some []), d')).
Proof.
  apply (chunk_roundtrip slice_read (str "hello") [] (str "hello") []).
  - by vm_compute.
  - constructor.
  - by vm_compute.
  - repeat constructor; lia.
  - unfold cuts_ok, cut_ok. vm_compute. split_and!; try done; left; done.
  - by vm_compute.
Defined.

(** * Trailer fields *)

Section Trailer.
Context (tr : bytes).
Local Abbreviation loop := (D.get_trailer_loop tr).

(** Bytes that are neither line feed nor the first colon are passed over. *)
Lemma trailer_skip i l tl colon lf name h :
  Forall (λ b, b ≠ 10 ∧ (b ≠ 58 ∨ colon ≠ 0)) l →
  loop i (l ++ tl) colon lf name h = loop (i + len l) tl colon lf name h.
Proof.
  intros H. revert i. induction H as [|b l [H1 H2] _ IH]; intros i; simpl.
  - change (len []) with 0. by rewrite Z.add_0_r.
  - rewrite (proj2 (Z.eqb_neq b 10)) by done.
    assert ((b =? 58) && (colon =? 0) = false) as -> by
      (destruct H2; [by rewrite (proj2 (Z.eqb_neq b 58))|rewrite andb_comm; by rewrite (proj2 (Z.eqb_neq colon 0))]).
    rewrite IH, len_cons. replace (i + 1 + len l) with (i + (len l + 1)) by lia.
    by destruct (b =? 32).
Qed.

(** The start of a line: [lf] is the line feed before it, 0 on the first line. *)
Definition line_start (i lf : Z) : Prop := i = 0 ∧ lf = 0 ∨ i = lf + 1 ∧ 0 < lf.

Definition field_ok (f : bytes * bytes) : Prop :=
  f.1 ≠ [] ∧ name_ok f.1 ∧ bytes_ok f.1 ∧ value_ok f.2 ∧ D.trim_value f.2 = f.2.

Definition field_line (f : bytes * bytes) : bytes := f.1 ++ str ":" ++ f.2 ++ CRLF.

Lemma name_no_colon n : name_ok n → Forall (λ b, b ≠ 10 ∧ (b ≠ 58 ∨ 0 ≠ 0)) n.
Proof.
  unfold name_ok. intros H. eapply Forall_impl; [|exact H]. intros b Hb.
  split; [|left]; intros ->; by vm_compute in Hb.
Qed.

Lemma value_no_lf v c : value_ok v → c ≠ 0 → Forall (λ b, b ≠ 10 ∧ (b ≠ 58 ∨ c ≠ 0)) v.
Proof.
  intros H Hc. eapply Forall_impl; [|exact H]. intros b Hb. split; [|by right].
  intros ->. by vm_compute in Hb.
Qed.

Lemma slice_mid {A} (a m z : list A) i : i = len a → slice i (i + len m) (a ++ m ++ z) = m.
Proof.
  intros ->. rewrite slice_upto_from by apply len_nonneg.
  by rewrite from_app_exact, upto_app_exact.
Qed.

Lemma at_app l k i : len l ≤ i → at_ (l ++ k) i = at_ k (i - len l).
Proof.
  intros H. pose proof (len_nonneg l). unfold at_, len in *. rewrite lookup_app_r by lia. do 2 f_equal. lia.
Qed.

Lemma at_forall (P : Z → Prop) l i : Forall P l → P 0 → P (at_ l i).
Proof.
  intros H H0. unfold at_. destruct (l !! Z.to_nat i) as [x|] eqn:Hx; [|done].
  by apply (Forall_lookup_1 _ _ _ _ H Hx).
Qed.

Lemma trailer_line_read pre f more lf name h :
  tr = pre ++ field_line f ++ more → line_start (len pre) lf → field_ok f →
  loop (len pre) (field_line f ++ more) 0 lf name h =
    loop (len pre + len (field_line f)) more 0 (len pre + len (field_line f) - 1)
      (HeaderName.normalize_byte <$> f.1)
      (Headers.mk (<[HeaderName.normalize_byte <$> f.1 := HeaderValue.mk [f.2] false]> (Headers.map h))).
Proof.
  intros Htr Hst (Hn0 & Hn & _ & Hv & Htrim). destruct f as [n v]. unfold field_line in *.
  cbn [fst snd] in *. pose proof (len_pos _ Hn0) as Hnl. pose proof (len_nonneg pre). pose proof (len_nonneg v).
  set (colon := len pre + len n).
  rewrite <- !app_assoc. rewrite trailer_skip by by apply name_no_colon. fold colon.
  change (str ":") with [58]. cbn [app].
  assert (Hname : (if lf =? 0 then upto colon tr else slice (lf + 1) colon tr) = n).
  { subst tr. rewrite <- !app_assoc. destruct Hst as [[H1 ->]|[H1 H2]].
    - apply len_0_nil in H1 as ->. simpl. unfold colon. change (len []) with 0. by apply upto_app_exact.
    - rewrite (proj2 (Z.eqb_neq lf 0)) by lia. rewrite <- H1. by apply slice_mid. }
  cbn [D.get_trailer_loop]. change (58 =? 32) with false. change ((58 =? 58) && (0 =? 0)) with true.
  cbv iota zeta. rewrite Hname, from_bytes_spec, decide_True by done. cbn [mbind res_bind].
  rewrite trailer_skip by (apply value_no_lf; [done|unfold colon; lia]).
  change (CRLF ++ more) with (13 :: 10 :: more). cbn [D.get_trailer_loop].
  change (13 =? 32) with false. change (13 =? 58) with false. change (13 =? 10) with false.
  change (10 =? 32) with false. change (10 =? 58) with false. change (10 =? 10) with true.
  cbn [andb]. cbv iota zeta.
  rewrite (proj2 (Z.ltb_ge (colon + 1 + len v + 1) 2)) by (unfold colon; lia).
  assert (Hprev : (at_ tr (colon + 1 + len v + 1 - 2) =? 10) = false).
  { apply Z.eqb_neq. subst tr.
    replace (pre ++ (n ++ str ":" ++ v ++ CRLF) ++ more) with ((pre ++ n) ++ (58 :: v) ++ CRLF ++ more)
      by (by rewrite <- !app_assoc).
    rewrite at_app by (rewrite len_app; unfold colon; lia). rewrite len_app.
    replace (colon + 1 + len v + 1 - 2 - (len pre + len n)) with (len v) by (unfold colon; lia).
    unfold at_. rewrite lookup_app_l by (unfold len; simpl; lia).
    apply (at_forall (λ b, b ≠ 10) (58 :: v) (len v)); [|done]. constructor; [done|].
    eapply Forall_impl; [|apply (value_no_lf v 1 Hv ltac:(done))]. by intros a [? _]. }
  rewrite Hprev. rewrite (proj2 (Z.ltb_ge _ _)) by lia.
  assert (Hval : slice (colon + 1) (colon + 1 + len v + 1 - 1) tr = v).
  { replace (colon + 1 + len v + 1 - 1) with (colon + 1 + len v) by lia. subst tr.
    replace (pre ++ (n ++ str ":" ++ v ++ CRLF) ++ more) with ((pre ++ n ++ [58]) ++ v ++ (CRLF ++ more))
      by (by rewrite <- !app_assoc).
    apply slice_mid. rewrite !len_app. unfold colon. change (len [58]) with 1. lia. }
  rewrite Hval, Htrim, value_from_bytes_spec, decide_True by done. cbn [mbind res_bind].
  rewrite len_app, len_cons, len_app. change (len CRLF) with 2. unfold colon. f_equal; lia.
Qed.

(** The headers the fields make, in order. *)
Definition insert_field (h : Headers.t) (f : bytes * bytes) : Headers.t :=
  Headers.mk (<[HeaderName.normalize_byte <$> f.1 := HeaderValue.mk [f.2] false]> (Headers.map h)).

Lemma field_line_len f : field_ok f → 4 ≤ len (field_line f).
Proof.
  intros (Hn & _). unfold field_line. rewrite !len_app. change (len (str ":")) with 1.
  change (len CRLF) with 2. pose proof (len_pos _ Hn). pose proof (len_nonneg f.2). lia.
Qed.

Lemma at_line_end pre f more : field_ok f →
  at_ ((pre ++ field_line f) ++ more) (len (pre ++ field_line f) - 1) = 10.
Proof.
  intros _. unfold field_line. set (X := pre ++ f.1 ++ str ":" ++ f.2).
  assert (pre ++ f.1 ++ str ":" ++ f.2 ++ CRLF = X ++ CRLF) as -> by (unfold X; by rewrite <- !app_assoc).
  rewrite <- app_assoc, len_app. change (len CRLF) with 2. rewrite at_app by lia.
  by replace (len X + 2 - 1 - len X) with 1 by lia.
Qed.

Lemma trailer_lines_read fields pre lf name h :
  tr = pre ++ (fields ≫= field_line) ++ CRLF → line_start (len pre) lf → Forall field_ok fields →
  pre ≠ [] → at_ tr (len pre - 1) = 10 ∧ 2 ≤ len pre →
  loop (len pre) ((fields ≫= field_line) ++ CRLF) 0 lf name h = Ok (foldl insert_field h fields).
Proof.
  intros Htr Hst Hf. revert pre lf name h Htr Hst.
  induction Hf as [|f fields Hf _ IH]; intros pre lf name h Htr Hst Hne [Hat Hl]; simpl.
  - rewrite (proj2 (Z.ltb_ge _ _)) by lia. replace (len pre + 1 - 2) with (len pre - 1) by lia.
    by rewrite Hat.
  - simpl in Htr. rewrite <- !app_assoc in *. rewrite trailer_line_read by done.
    pose proof (field_line_len f Hf) as Hfl. pose proof (len_nonneg pre) as Hpre.
    replace (len pre + len (field_line f)) with (len (pre ++ field_line f)) by (rewrite len_app; lia).
    apply IH.
    + by rewrite Htr, <- !app_assoc.
    + right. rewrite len_app. lia.
    + by destruct pre.
    + rewrite len_app. split; [|lia]. rewrite Htr, app_assoc. rewrite <- len_app.
      by apply at_line_end.
Qed.
End Trailer.

Lemma get_trailer_eq d :
  D.trailer d ≠ [] →
  D.get_trailer d = Some <$> D.get_trailer_loop (D.trailer d) 0 (D.trailer d) 0 0 [] Headers.new.
Proof. unfold D.get_trailer. by destruct (D.trailer d). Qed.

(** The trailer section [set_trailer] writes is what [get_trailer] reads back:
    each field under its name, with its value. *)
Theorem trailer_fields_roundtrip fields d :
  fields ≠ [] → Forall field_ok fields →
  D.trailer d = (fields ≫= field_line) ++ CRLF →
  (∀ f, In f fields → field_line f = ChunkBody.trailer_line (f.1, HeaderValue.mk [f.2] false)) ∧
  D.get_trailer d = Ok (Some (foldl insert_field Headers.new fields)).
Proof.
  intros Hne Hf Htr. split; [done|]. rewrite get_trailer_eq, Htr by (rewrite Htr; by destruct (_ ≫= _)).
  destruct Hf as [|f fields Hf Hfs]; [done|].
  assert (Hloop : D.get_trailer_loop (((f :: fields) ≫= field_line) ++ CRLF) 0
    (((f :: fields) ≫= field_line) ++ CRLF) 0 0 [] Headers.new =
    Ok (foldl insert_field Headers.new (f :: fields))).
  { set (tr := ((f :: fields) ≫= field_line) ++ CRLF).
    assert (Htr' : tr = [] ++ field_line f ++ (fields ≫= field_line) ++ CRLF)
      by (unfold tr; simpl; by rewrite <- app_assoc).
    rewrite Htr' at 2. change 0 with (len (@nil Z)) at 1. simpl app at 1.
    rewrite (trailer_line_read tr [] f); [|done|by left|done].
    change (len (@nil Z)) with 0. rewrite Z.add_0_l.
    pose proof (field_line_len f Hf) as Hfl.
    rewrite (trailer_lines_read tr fields (field_line f)); [done|done|right; lia|done| |].
    - intros H0. rewrite H0 in Hfl. by vm_compute in Hfl.
    - split; [|lia]. rewrite Htr'. by apply (at_line_end []). }
  by rewrite Hloop.
Qed.

Lemma trailer_fields_roundtrip_witness :
  D.get_trailer (D.set_trailer D.new (str "accept:text/html" ++ CRLF ++ str "x-a:b:c d" ++ CRLF ++ CRLF)) =
  Ok (Some (foldl insert_field Headers.new [(str "accept", str "text/html"); (str "x-a", str "b:c d")])).
Proof.
  apply (trailer_fields_roundtrip [(str "accept", str "text/html"); (str "x-a", str "b:c d")]).
  - done.
  - repeat constructor; done.
  - done.
Defined.

(** A decoder that expects trailers takes a [0] at the end of a segment for a
    digit: the trailer section behind it is refused, where in one segment it is
    read. *)
Lemma trailer_cut_refused :
  let w := CRLF ++ str "a:b" ++ CRLF ++ CRLF in
  let d := D.contains_trailer D.new true in
  option_map (λ r, r.1) (feed [str "0" ++ w] d) = Some (Ok ([], Some [])) ∧
  option_map (λ r, r.1) (feed [str "0"; w] d) = Some (Err InvalidInput).
Proof. by vm_compute. Qed.
