(* ===== verification/Uri.v ===== *)
(** URIs ([ylong_http/src/request/uri/mod.rs]): the parser of [Uri::from_bytes]
    with its four tokens, the builder and the printer.  A string is its bytes; the
    error type is [InvalidUri], which [HttpError] wraps.  The theorems: a parsed URI
    is a normal form, which the printer writes and the parser reads back; and its
    components hold no byte that could break out of the request line. *)
From S2P Require Import Prelude Buffers Headers.

Definition MAX_URI_LEN : Z := 65534.

Definition URI_VALUE_BYTES : list bool :=
  let __ := false in let TT := true in [
  __; __; __; __; __; __; __; __; __; __; __; __; __; __; __; __;
  __; __; __; __; __; __; __; __; __; __; __; __; __; __; __; __;
  __; TT; __; TT; TT; TT; TT; TT; TT; TT; TT; TT; TT; TT; TT; TT;
  TT; TT; TT; TT; TT; TT; TT; TT; TT; TT; TT; TT; __; TT; __; TT;
  TT; TT; TT; TT; TT; TT; TT; TT; TT; TT; TT; TT; TT; TT; TT; TT;
  TT; TT; TT; TT; TT; TT; TT; TT; TT; TT; TT; TT; __; TT; __; TT;
  __; TT; TT; TT; TT; TT; TT; TT; TT; TT; TT; TT; TT; TT; TT; TT;
  TT; TT; TT; TT; TT; TT; TT; TT; TT; TT; TT; __; __; __; TT; __;
  __; __; __; __; __; __; __; __; __; __; __; __; __; __; __; __;
  __; __; __; __; __; __; __; __; __; __; __; __; __; __; __; __;
  __; __; __; __; __; __; __; __; __; __; __; __; __; __; __; __;
  __; __; __; __; __; __; __; __; __; __; __; __; __; __; __; __;
  __; __; __; __; __; __; __; __; __; __; __; __; __; __; __; __;
  __; __; __; __; __; __; __; __; __; __; __; __; __; __; __; __;
  __; __; __; __; __; __; __; __; __; __; __; __; __; __; __; __;
  __; __; __; __; __; __; __; __; __; __; __; __; __; __; __; __].

Definition PATH_AND_QUERY_BYTES : list bool :=
  let __ := false in let TT := true in [
  __; __; __; __; __; __; __; __; __; __; __; __; __; __; __; __;
  __; __; __; __; __; __; __; __; __; __; __; __; __; __; __; __;
  __; TT; __; __; TT; TT; TT; TT; TT; TT; TT; TT; TT; TT; TT; TT;
  TT; TT; TT; TT; TT; TT; TT; TT; TT; TT; TT; TT; __; TT; __; __;
  TT; TT; TT; TT; TT; TT; TT; TT; TT; TT; TT; TT; TT; TT; TT; TT;
  TT; TT; TT; TT; TT; TT; TT; TT; TT; TT; TT; TT; TT; TT; TT; TT;
  __; TT; TT; TT; TT; TT; TT; TT; TT; TT; TT; TT; TT; TT; TT; TT;
  TT; TT; TT; TT; TT; TT; TT; TT; TT; TT; TT; __; TT; __; TT; __;
  __; __; __; __; __; __; __; __; __; __; __; __; __; __; __; __;
  __; __; __; __; __; __; __; __; __; __; __; __; __; __; __; __;
  __; __; __; __; __; __; __; __; __; __; __; __; __; __; __; __;
  __; __; __; __; __; __; __; __; __; __; __; __; __; __; __; __;
  __; __; __; __; __; __; __; __; __; __; __; __; __; __; __; __;
  __; __; __; __; __; __; __; __; __; __; __; __; __; __; __; __;
  __; __; __; __; __; __; __; __; __; __; __; __; __; __; __; __;
  __; __; __; __; __; __; __; __; __; __; __; __; __; __; __; __].

Definition uri_value_byte (b : Z) : bool := default false (URI_VALUE_BYTES !! Z.to_nat b).
Definition path_byte (b : Z) : bool := default false (PATH_AND_QUERY_BYTES !! Z.to_nat b).

Inductive InvalidUri :=
  InvalidScheme | InvalidAuthority | InvalidPath | InvalidByte | InvalidFormat | InvalidPort
| UriMissScheme | UriMissPath | UriMissQuery | UriMissAuthority | UriMissHost
| UriContainUserinfo | UriTooLong.

Abbreviation ures := (res InvalidUri).

(** * Components *)

(** [enum Protocol] and [struct Scheme]. *)
Inductive Protocol := Http | Https.
Module Scheme.
Record t := mk { proto : Protocol }.
Definition HTTP : t := mk Http.
Definition HTTPS : t := mk Https.

(** [eq_ignore_ascii_case]. *)
Definition eq_ignore_case (a b : bytes) : bool :=
  bool_decide ((HeaderName.to_ascii_lowercase <$> a) = (HeaderName.to_ascii_lowercase <$> b)).

Definition from_bytes (b : bytes) : ures t :=
  if eq_ignore_case b (str "http") then Ok (mk Http)
  else if eq_ignore_case b (str "https") then Ok (mk Https)
  else Err InvalidScheme.

Definition as_str (s : t) : bytes :=
  match proto s with Http => str "http" | Https => str "https" end.

Definition default_port (s : t) : Z := match proto s with Http => 80 | Https => 443 end.
End Scheme.

(** [struct Authority { host: Host, port: Option<Port> }]; [Host] and [Port] are
    strings. *)
Module Authority.
Record t := mk { host : bytes; port : option bytes }.
Definition to_str (a : t) : bytes :=
  host a ++ match port a with Some p => str ":" ++ p | None => [] end.
End Authority.

(** [str::parse::<u16>]: an optional plus sign and at least one digit. *)
Fixpoint parse_digits (acc : Z) (s : bytes) : option Z :=
  match s with
  | [] => Some acc
  | b :: s =>
      if (48 <=? b) && (b <=? 57) then
        let n := acc * 10 + (b - 48) in
        if n <? 65536 then parse_digits n s else None
      else None
  end.
Definition parse_u16 (s : bytes) : option Z :=
  match s with
  | [] => None
  | b :: s' => if b =? 43 then match s' with [] => None | _ => parse_digits 0 s' end
               else parse_digits 0 s
  end.

(** [Port::from_str] and [Port::as_u16]. *)
Definition port_from_str (p : bytes) : ures bytes :=
  match parse_u16 p with Some _ => Ok p | None => Err InvalidPort end.
Definition port_as_u16 (p : bytes) : ures Z := ok_or (parse_u16 p) InvalidPort.
Definition host_from_str (h : bytes) : ures bytes :=
  match h with [] => Err UriMissHost | _ => Ok h end.

(** [rsplit_once(':')]. *)
Fixpoint rsplit_colon (s : bytes) : option (bytes * bytes) :=
  match s with
  | [] => None
  | b :: s =>
      match rsplit_colon s with
      | Some (h, p) => Some (b :: h, p)
      | None => if b =? 58 then Some ([], s) else None
      end
  end.

Definition host_port (auth : bytes) (colon_num : Z) : ures Authority.t :=
  if negb (colon_num =? 0) then
    match rsplit_colon auth with
    | Some (host, port) =>
        match host, port with
        | [], _ => Err UriMissHost
        | _, [] => Ok (Authority.mk host None)
        | _, _ => match parse_u16 port with
                  | Some _ => Ok (Authority.mk host (Some port))
                  | None => Err InvalidPort
                  end
        end
    | None => Err UriMissAuthority
    end
  else Ok (Authority.mk auth None).

Definition authority_parse (bytes : bytes) (end_ : Z) (colon_num : Z) (left_bracket right_bracket : bool) :
    ures (option Authority.t * list Z) :=
  if end_ =? 0 then Ok (None, from end_ bytes)
  else if xorb left_bracket right_bracket then Err InvalidAuthority
  else if 1 <? colon_num then Err InvalidAuthority
  else
    authority ← host_port (upto end_ bytes) colon_num;
    Ok (Some authority, from end_ bytes).

(** The loop of [authority_token]: [(i, b)] over the bytes, until the end of the
    authority. *)
Record auth_scan := mk_scan { colon_num : Z; left_bracket : bool; right_bracket : bool }.
Fixpoint authority_loop (i : Z) (bytes : bytes) (s : auth_scan) : ures (Z * auth_scan) :=
  match bytes with
  | [] => Ok (i, s)
  | b :: bytes =>
      if (b =? 47) || (b =? 63) || (b =? 35) then Ok (i, s)
      else if b =? 91 then
        if i =? 0 then authority_loop (i + 1) bytes (mk_scan (colon_num s) true (right_bracket s))
        else if left_bracket s then Err InvalidAuthority
        else authority_loop (i + 1) bytes s
      else if b =? 93 then
        if left_bracket s then
          if right_bracket s then Err InvalidAuthority
          else authority_loop (i + 1) bytes (mk_scan 0 (left_bracket s) true)
        else authority_loop (i + 1) bytes s
      else if b =? 64 then Err UriContainUserinfo
      else if b =? 58 then
        authority_loop (i + 1) bytes (mk_scan (colon_num s + 1) (left_bracket s) (right_bracket s))
      else if negb (uri_value_byte b) then Err InvalidByte
      else authority_loop (i + 1) bytes s
  end.

Definition authority_token (bytes : bytes) : ures (option Authority.t * list Z) :=
  '(end_, s) ← authority_loop 0 bytes (mk_scan 0 false false);
  authority_parse bytes end_ (colon_num s) (left_bracket s) (right_bracket s).

Definition authority_from_bytes (bytes : bytes) : ures Authority.t :=
  match bytes with
  | [] => Err UriMissAuthority
  | _ =>
      '(authority, rest) ← authority_token bytes;
      match rest, authority with
      | [], Some auth => Ok auth
      | _, _ => Err InvalidAuthority
      end
  end.

(** The position of the first colon. *)
Fixpoint find_colon (i : Z) (l : bytes) : option Z :=
  match l with [] => None | b :: l => if b =? 58 then Some i else find_colon (i + 1) l end.

Definition scheme_token (bytes : bytes) : ures (option Scheme.t * list Z) :=
  match find_colon 0 bytes with
  | Some index =>
      if negb (index =? 0) && (2 <? len (from index bytes)) &&
         Scheme.eq_ignore_case (slice (index + 1) (index + 3) bytes) (str "//")
      then
        if Scheme.eq_ignore_case (upto index bytes) (str "http") then Ok (Some (Scheme.mk Http), from 7 bytes)
        else if Scheme.eq_ignore_case (upto index bytes) (str "https") then
          Ok (Some (Scheme.mk Https), from 8 bytes)
        else Err InvalidScheme
      else if index =? 0 then Err InvalidScheme
      else Ok (None, bytes)
  | None => Ok (None, bytes)
  end.

(** The loop of [path_token]: the end of the path. *)
Fixpoint path_loop (i : Z) (bytes : bytes) : ures Z :=
  match bytes with
  | [] => Ok i
  | b :: bytes =>
      if (b =? 63) || (b =? 35) then Ok i
      else if negb (path_byte b) then Err InvalidByte
      else path_loop (i + 1) bytes
  end.
Definition path_token (bytes : bytes) : ures (option (list Z) * list Z) :=
  end_ ← path_loop 0 bytes;
  if negb (end_ =? 0) then Ok (Some (upto end_ bytes), from end_ bytes)
  else Ok (None, from end_ bytes).
Definition path_from_bytes (bytes : bytes) : ures (list Z) :=
  '(path, rest) ← path_token bytes;
  match rest with [] => ok_or path UriMissPath | _ => Err InvalidPath end.

Fixpoint query_loop (i : Z) (bytes : bytes) : ures Z :=
  match bytes with
  | [] => Ok i
  | b :: bytes =>
      if b =? 35 then Ok i
      else if (b =? 0x3F) || (b =? 0x60) || (b =? 0x7B) || (b =? 0x7D) then query_loop (i + 1) bytes
      else if negb (path_byte b) then Err InvalidByte
      else query_loop (i + 1) bytes
  end.
Definition query_token (bytes : bytes) : ures (option (list Z)) :=
  match bytes with
  | [] => Ok None
  | _ =>
      end_ ← query_loop 0 bytes;
      if end_ =? 0 then Ok None else Ok (Some (upto end_ bytes))
  end.
Definition query_from_bytes (bytes : bytes) : ures (list Z) :=
  query ← query_token bytes; ok_or query UriMissQuery.

(** * The URI *)

Module Uri.
Record t := mk {
  scheme : option Scheme.t;
  authority : option Authority.t;
  path : option bytes;
  query : option bytes;
}.

Definition host (u : t) : option bytes := Authority.host <$> authority u.
Definition port (u : t) : option bytes := authority u ≫= Authority.port.

(** [Uri::http]. *)
Definition http : t :=
  mk None None (match path_from_bytes (str "/") with Ok p => Some p | _ => None end) None.

Definition validity_check (u : t) : ures t :=
  match scheme u, authority u, path u, query u with
  | Some _, None, _, _ => Err UriMissAuthority
  | None, Some _, Some _, _ => Err UriMissScheme
  | None, Some _, _, Some _ => Err UriMissScheme
  | None, None, None, None => Err InvalidFormat
  | _, _, _, _ => Ok u
  end.

Definition from_bytes (bytes : bytes) : ures t :=
  if MAX_URI_LEN <? len bytes then Err UriTooLong
  else
    match bytes with
    | [] => Err InvalidFormat
    | _ =>
        '(scheme, rest) ← scheme_token bytes;
        '(authority, rest) ← authority_token rest;
        '(path, rest) ← path_token rest;
        query ← match rest with
                | [] => Ok None
                | b :: rest =>
                    if b =? 63 then query_token rest
                    else if b =? 35 then Ok None
                    else Err UriMissQuery
                end;
        validity_check (mk scheme authority path query)
    end.

Definition opt_str (pre : bytes) (o : option bytes) : bytes :=
  match o with Some s => pre ++ s | None => [] end.

Definition path_and_query (u : t) : option bytes :=
  let builder := opt_str [] (path u) ++ opt_str (str "?") (query u) in
  match builder with [] => None | _ => Some builder end.

Definition to_string (u : t) : bytes :=
  match scheme u with Some s => Scheme.as_str s ++ str "://" | None => [] end ++
  opt_str [] (host u) ++ opt_str (str ":") (port u) ++
  opt_str [] (path u) ++ opt_str (str "?") (query u).

Definition into_parts (u : t) := (scheme u, authority u, path u, query u).
Definition from_raw_parts (s : option Scheme.t) (a : option Authority.t) (p q : option bytes) : t := mk s a p q.
End Uri.

(** [struct UriBuilder { unprocessed: Result<Uri, InvalidUri> }]. *)
Module UriBuilder.
Record t := mk { unprocessed : ures Uri.t }.
Definition new : t := mk (Ok (Uri.mk None None None None)).
Definition scheme (b : t) (s : bytes) : t :=
  mk (u ← unprocessed b; s ← Scheme.from_bytes s;
      Ok (Uri.mk (Some s) (Uri.authority u) (Uri.path u) (Uri.query u))).
Definition authority (b : t) (s : bytes) : t :=
  mk (u ← unprocessed b; a ← authority_from_bytes s;
      Ok (Uri.mk (Uri.scheme u) (Some a) (Uri.path u) (Uri.query u))).
Definition path (b : t) (s : bytes) : t :=
  mk (u ← unprocessed b; p ← path_from_bytes s;
      Ok (Uri.mk (Uri.scheme u) (Uri.authority u) (Some p) (Uri.query u))).
Definition query (b : t) (s : bytes) : t :=
  mk (u ← unprocessed b; q ← query_from_bytes s;
      Ok (Uri.mk (Uri.scheme u) (Uri.authority u) (Uri.path u) (Some q))).
Definition build (b : t) : ures Uri.t := u ← unprocessed b; Uri.validity_check u.
End UriBuilder.

(** * Tokens and what follows them *)

(** [l] is empty or starts with a byte of [stop]. *)
Definition stops (stop : Z → bool) (l : bytes) : Prop :=
  match l with [] => True | b :: _ => stop b = true end.

Lemma span_stop (stop : Z → bool) l :
  ∃ a rest, l = a ++ rest ∧ Forall (λ b, stop b = false) a ∧ stops stop rest.
Proof.
  induction l as [|b l (a & rest & -> & Ha & Hr)]; [by exists [], []|].
  destruct (stop b) eqn:Hb; [by exists [], (b :: a ++ rest)|]. exists (b :: a), rest. by repeat constructor.
Qed.

Definition auth_stop (b : Z) : bool := (b =? 47) || (b =? 63) || (b =? 35).
Definition path_stop (b : Z) : bool := (b =? 63) || (b =? 35).
Definition query_stop (b : Z) : bool := b =? 35.
Definition query_byte (b : Z) : bool :=
  (b =? 0x3F) || (b =? 0x60) || (b =? 0x7B) || (b =? 0x7D) || path_byte b.

(** ** Authority *)

Lemma authority_loop_app i a b s :
  Forall (λ b, auth_stop b = false) a →
  authority_loop i (a ++ b) s = ('(j, s1) ← authority_loop i a s; authority_loop j b s1).
Proof.
  intros H. revert i s. induction H as [|x a Hx _ IH]; intros i s; [done|]. simpl.
  unfold auth_stop in Hx. rewrite Hx. repeat (case_match; try done); apply IH.
Qed.

Lemma authority_loop_stop i rest s : stops auth_stop rest → authority_loop i rest s = Ok (i, s).
Proof. destruct rest as [|b rest]; [done|]. simpl. unfold auth_stop. by intros ->. Qed.

Lemma authority_loop_end i a s j s1 :
  Forall (λ b, auth_stop b = false) a → authority_loop i a s = Ok (j, s1) → j = i + len a.
Proof.
  intros H. revert i s. induction H as [|x a Hx _ IH]; intros i s; simpl.
  - intros [= -> ->]. change (len []) with 0. lia.
  - unfold auth_stop in Hx. rewrite Hx, len_cons.
    repeat (case_match; try done); intros Hj%IH; lia.
Qed.

Definition scan0 : auth_scan := mk_scan 0 false false.

(** What [authority_token] makes of the bytes of the authority. *)
Definition auth_of (a : bytes) : ures Authority.t :=
  '(_, s) ← authority_loop 0 a scan0;
  if xorb (left_bracket s) (right_bracket s) then Err InvalidAuthority
  else if 1 <? colon_num s then Err InvalidAuthority
  else host_port a (colon_num s).

Lemma authority_token_app a rest :
  Forall (λ b, auth_stop b = false) a → stops auth_stop rest →
  authority_token (a ++ rest) =
    match a with [] => Ok (None, rest) | _ => x ← auth_of a; Ok (Some x, rest) end.
Proof.
  intros Ha Hr. unfold authority_token. rewrite authority_loop_app by done.
  fold scan0. unfold auth_of. destruct (authority_loop 0 a scan0) as [[j s]|e|] eqn:Hl.
  2,3: destruct a; [done|done].
  pose proof (authority_loop_end _ _ _ _ _ Ha Hl) as Hj. cbn [mbind res_bind].
  rewrite authority_loop_stop by done. cbn [mbind res_bind]. unfold authority_parse. subst j.
  rewrite Z.add_0_l. destruct a as [|x a].
  - simpl in *. by rewrite from_0.
  - rewrite (proj2 (Z.eqb_neq _ _)) by (rewrite len_cons; pose proof (len_nonneg a); lia).
    rewrite upto_app_exact, from_app_exact by done.
    destruct (xorb _ _); [done|]. by destruct (1 <? _).
Qed.

Lemma rsplit_colon_spec a h p : rsplit_colon a = Some (h, p) → a = h ++ 58 :: p.
Proof.
  revert h p. induction a as [|b a IH]; intros h p; simpl; [done|].
  destruct (rsplit_colon a) as [[h' p']|].
  - intros [= <- <-]. simpl. by rewrite (IH h' p').
  - destruct (Z.eqb_spec b 58) as [->|]; [|done]. by intros [= <- <-].
Qed.

(** The scan of [a] with a colon behind it. *)
Lemma authority_loop_colon a j s :
  Forall (λ b, auth_stop b = false) a →
  authority_loop 0 (a ++ [58]) scan0 = Ok (j, s) →
  ∃ j' s', authority_loop 0 a scan0 = Ok (j', s') ∧
    s = mk_scan (colon_num s' + 1) (left_bracket s') (right_bracket s').
Proof.
  intros Ha. rewrite authority_loop_app by done.
  destruct (authority_loop 0 a scan0) as [[j' s']| |]; [|done..]. simpl. intros [= _ <-]. by exists j', s'.
Qed.

Lemma authority_loop_nonneg i a s j s' :
  authority_loop i a s = Ok (j, s') → 0 ≤ colon_num s → 0 ≤ colon_num s'.
Proof.
  revert i s. induction a as [|b a IH]; intros i s; simpl; [by intros [= _ <-]|].
  repeat (case_match; try done); try (by intros [= _ <-]); intros Hj Hs; (eapply IH; [exact Hj|]); simpl; lia.
Qed.

(** A parsed authority: its printed form, and that it is parsed again. *)
Lemma auth_of_normal a x :
  Forall (λ b, auth_stop b = false) a → a ≠ [] → auth_of a = Ok x →
  auth_of (Authority.to_str x) = Ok x ∧ Authority.to_str x ≠ [] ∧
  (a = Authority.to_str x ∨ a = Authority.to_str x ++ [58]).
Proof.
  intros Ha Hne Hx. pose proof Hx as Hx0. unfold auth_of in Hx.
  destruct (authority_loop 0 a scan0) as [[j s]| |] eqn:Hl; [|done..]. cbn [mbind res_bind] in Hx.
  destruct (xorb _ _) eqn:Hb; [done|]. destruct (1 <? colon_num s) eqn:Hc; [done|].
  unfold host_port in Hx. destruct (Z.eqb_spec (colon_num s) 0) as [H0|H0]; simpl in Hx.
  { injection Hx as <-. unfold Authority.to_str. simpl. rewrite app_nil_r. by auto. }
  destruct (rsplit_colon a) as [[h p]|] eqn:Hr; [|done]. apply rsplit_colon_spec in Hr.
  destruct h as [|hb h]; [done|]. destruct p as [|pb p].
  - injection Hx as <-. unfold Authority.to_str. cbn [Authority.host Authority.port].
    rewrite app_nil_r. subst a. apply Forall_app in Ha as [Ha _]. split_and!; [|done|by right].
    destruct (authority_loop_colon _ _ _ Ha Hl) as (j' & s' & Hl' & ->).
    cbn [colon_num left_bracket right_bracket] in *.
    unfold auth_of. rewrite Hl'. cbn [mbind res_bind]. rewrite Hb. zbool.
    pose proof (authority_loop_nonneg _ _ _ _ _ Hl') as Hnn. by replace (colon_num s') with 0 by (simpl in Hnn; lia).
  - destruct (parse_u16 _); [|done]. injection Hx as <-. unfold Authority.to_str.
    cbn [Authority.host Authority.port]. change (str ":" ++ pb :: p) with (58 :: pb :: p).
    rewrite <- Hr. by auto.
Qed.

(** ** Path and query *)

Lemma path_byte_stop b : path_byte b = true → path_stop b = false.
Proof.
  intros H. unfold path_stop. destruct (Z.eqb_spec b 63) as [->|]; [by vm_compute in H|].
  destruct (Z.eqb_spec b 35) as [->|]; [by vm_compute in H|]. done.
Qed.

Definition some_ne (l : bytes) : option bytes := match l with [] => None | _ => Some l end.

Lemma path_loop_app i p rest :
  Forall (λ b, path_byte b = true) p → stops path_stop rest → path_loop i (p ++ rest) = Ok (i + len p).
Proof.
  intros H Hr. revert i. induction H as [|b p Hb _ IH]; intros i; simpl.
  - change (len []) with 0. rewrite Z.add_0_r. destruct rest as [|b rest]; [done|]. simpl in *.
    unfold path_stop in Hr. by rewrite Hr.
  - pose proof (path_byte_stop b Hb) as Hs. unfold path_stop in Hs. rewrite Hs, Hb. simpl.
    rewrite IH, len_cons. f_equal. lia.
Qed.

Lemma path_token_app p rest :
  Forall (λ b, path_byte b = true) p → stops path_stop rest →
  path_token (p ++ rest) = Ok (some_ne p, rest).
Proof.
  intros Hp Hr. unfold path_token. rewrite path_loop_app by done. cbn [mbind res_bind].
  rewrite Z.add_0_l, upto_app_exact, from_app_exact by done. destruct p as [|b p]; [done|].
  by rewrite (proj2 (Z.eqb_neq _ _)) by (rewrite len_cons; pose proof (len_nonneg p); lia).
Qed.

Lemma path_loop_ok i p rest e :
  path_loop i (p ++ rest) = Ok e → Forall (λ b, path_stop b = false) p →
  Forall (λ b, path_byte b = true) p.
Proof.
  intros H Hp. revert i H. induction Hp as [|b p Hb _ IH]; intros i H; [done|]. simpl in H.
  unfold path_stop in Hb. rewrite Hb in H. destruct (path_byte b) eqn:Hpb; [|done].
  constructor; [done|]. by apply (IH (i + 1)).
Qed.

Lemma path_token_inv l o rest :
  path_token l = Ok (o, rest) →
  ∃ p, l = p ++ rest ∧ Forall (λ b, path_byte b = true) p ∧ stops path_stop rest ∧ o = some_ne p.
Proof.
  intros H. destruct (span_stop path_stop l) as (p & rest' & -> & Hp & Hr).
  assert (Hb : Forall (λ b, path_byte b = true) p).
  { unfold path_token in H. destruct (path_loop 0 (p ++ rest')) as [e| |] eqn:He; [|done..].
    by eapply path_loop_ok. }
  rewrite path_token_app in H by done. injection H as <- <-. by exists p.
Qed.

Lemma query_loop_app i q rest :
  Forall (λ b, query_byte b = true) q → stops query_stop rest →
  query_loop i (q ++ rest) = Ok (i + len q).
Proof.
  intros H Hr. revert i. induction H as [|b q Hb _ IH]; intros i; simpl.
  - change (len []) with 0. rewrite Z.add_0_r. destruct rest as [|b rest]; [done|]. simpl in *.
    unfold query_stop in Hr. by rewrite Hr.
  - rewrite (proj2 (Z.eqb_neq b 35)) by (intros ->; by vm_compute in Hb).
    unfold query_byte in Hb. rewrite len_cons. replace (i + (len q + 1)) with (i + 1 + len q) by lia.
    destruct (_ || (b =? 0x7D)); [apply IH|]. simpl in Hb. rewrite Hb. apply IH.
Qed.

Lemma query_loop_ok i q rest e :
  query_loop i (q ++ rest) = Ok e → Forall (λ b, query_stop b = false) q →
  Forall (λ b, query_byte b = true) q.
Proof.
  intros H Hq. revert i H. induction Hq as [|b q Hb _ IH]; intros i H; [done|]. simpl in H.
  unfold query_stop in Hb. rewrite Hb in H. constructor.
  - unfold query_byte. destruct (_ || (b =? 0x7D)); [done|]. simpl. by destruct (path_byte b).
  - destruct (_ || (b =? 0x7D)); [by apply (IH (i + 1))|]. destruct (path_byte b); [|done]. by apply (IH (i + 1)).
Qed.

Lemma query_token_app q rest :
  Forall (λ b, query_byte b = true) q → stops query_stop rest →
  query_token (q ++ rest) = Ok (some_ne q).
Proof.
  intros Hq Hr. unfold query_token. destruct (q ++ rest) as [|b l] eqn:Heq.
  { by apply app_eq_nil in Heq as [-> ->]. }
  rewrite <- Heq. rewrite query_loop_app by done. cbn [mbind res_bind].
  rewrite Z.add_0_l, upto_app_exact by done. destruct q as [|c q]; [done|].
  by rewrite (proj2 (Z.eqb_neq _ _)) by (rewrite len_cons; pose proof (len_nonneg q); lia).
Qed.

Lemma query_token_inv l o :
  query_token l = Ok o →
  ∃ q rest, l = q ++ rest ∧ Forall (λ b, query_byte b = true) q ∧ o = some_ne q.
Proof.
  intros H. destruct (span_stop query_stop l) as (q & rest & -> & Hq & Hr).
  assert (Hb : Forall (λ b, query_byte b = true) q).
  { unfold query_token in H. destruct (q ++ rest) as [|b l] eqn:Heq.
    { by apply app_eq_nil in Heq as [-> _]. }
    rewrite <- Heq in H. destruct (query_loop 0 (q ++ rest)) as [e| |] eqn:He; [|done..].
    by eapply query_loop_ok. }
  rewrite query_token_app in H by done. injection H as <-. by exists q, rest.
Qed.

(** ** Scheme *)

Lemma find_colon_app i a b j : find_colon i a = Some j → find_colon i (a ++ b) = Some j.
Proof.
  revert i. induction a as [|x a IH]; intros i; simpl; [done|]. destruct (x =? 58); [done|apply IH].
Qed.

Lemma find_colon_range i a j : find_colon i a = Some j → i ≤ j < i + len a.
Proof.
  revert i. induction a as [|x a IH]; intros i; simpl; [done|]. rewrite len_cons.
  pose proof (len_nonneg a). destruct (x =? 58); [intros [= <-]; lia|]. intros H1%IH. lia.
Qed.

(** What is read without a scheme is still read so when bytes behind it are
    dropped. *)
Lemma scheme_token_prefix t tail r :
  t ≠ [] → scheme_token (t ++ tail) = Ok (None, r) → scheme_token t = Ok (None, t).
Proof.
  intros Hne. unfold scheme_token. destruct (find_colon 0 t) as [j|] eqn:Hj; [|done].
  rewrite (find_colon_app _ _ tail _ Hj). pose proof (find_colon_range _ _ _ Hj) as Hr.
  destruct (Z.eqb_spec j 0) as [->|Hj0]; [done|]. simpl.
  destruct (2 <? len (from j t)) eqn:Hl; [|done]. simpl.
  assert (Hl' : (2 <? len (from j (t ++ tail))) = true).
  { zbool. apply Z.ltb_lt. rewrite from_app_le, len_app by lia. pose proof (len_nonneg tail). lia. }
  rewrite Hl'. simpl. zbool. rewrite len_from in Hl by lia.
  assert (slice (j + 1) (j + 3) (t ++ tail) = slice (j + 1) (j + 3) t) as ->.
  { unfold slice. by rewrite upto_app_le by lia. }
  destruct (Scheme.eq_ignore_case _ _); [|done]. repeat case_match; done.
Qed.

Lemma scheme_token_print s rest :
  scheme_token (Scheme.as_str s ++ str "://" ++ rest) = Ok (Some s, rest).
Proof.
  assert (Hl : (2 <? len (58 :: 47 :: 47 :: rest)) = true)
    by (apply Z.ltb_lt; rewrite !len_cons; pose proof (len_nonneg rest); lia).
  destruct s as [[]]; unfold scheme_token, Scheme.as_str; cbn [Scheme.proto].
  - change (str "http" ++ str "://" ++ rest) with (104 :: 116 :: 116 :: 112 :: 58 :: 47 :: 47 :: rest).
    change (find_colon 0 _) with (Some 4). cbv iota.
    change (from 4 _) with (58 :: 47 :: 47 :: rest). by rewrite Hl.
  - change (str "https" ++ str "://" ++ rest) with (104 :: 116 :: 116 :: 112 :: 115 :: 58 :: 47 :: 47 :: rest).
    change (find_colon 0 _) with (Some 5). cbv iota.
    change (from 5 _) with (58 :: 47 :: 47 :: rest). by rewrite Hl.
Qed.

Lemma eq_ignore_case_len a b : Scheme.eq_ignore_case a b = true → len a = len b.
Proof.
  unfold Scheme.eq_ignore_case. rewrite bool_decide_eq_true. intros H%(f_equal length).
  rewrite !length_fmap in H. unfold len. by rewrite H.
Qed.

Lemma scheme_token_some b s rest :
  scheme_token b = Ok (Some s, rest) →
  ∃ pre, b = pre ++ rest ∧ len pre = len (Scheme.as_str s ++ str "://").
Proof.
  unfold scheme_token. destruct (find_colon 0 b) as [j|] eqn:Hj; [|done].
  pose proof (find_colon_range _ _ _ Hj) as Hr. rewrite Z.add_0_l in Hr.
  destruct (negb (j =? 0) && (2 <? len (from j b)) && Scheme.eq_ignore_case _ (str "//")) eqn:Hc;
    [|by destruct (j =? 0)]. apply andb_true_iff in Hc as [Hc _]. zbool. rewrite len_from in * by lia.
  assert (Hpre : ∀ n, n ≤ len b → 0 ≤ n → ∃ pre, b = pre ++ from n b ∧ len pre = n).
  { intros n Hn Hn0. exists (upto n b). rewrite upto_from, len_upto by done. split; [done|lia]. }
  destruct (Scheme.eq_ignore_case (upto j b) (str "http")) eqn:H1.
  { apply eq_ignore_case_len in H1. rewrite len_upto in H1 by lia. change (len (str "http")) with 4 in H1.
    intros [= <- <-]. apply (Hpre 7); lia. }
  destruct (Scheme.eq_ignore_case (upto j b) (str "https")) eqn:H2; [|done].
  apply eq_ignore_case_len in H2. rewrite len_upto in H2 by lia. change (len (str "https")) with 5 in H2.
  intros [= <- <-]. apply (Hpre 8); lia.
Qed.

Lemma scheme_token_none b rest : scheme_token b = Ok (None, rest) → rest = b.
Proof. unfold scheme_token. repeat case_match; congruence. Qed.

(** [from_bytes] behind the scheme. *)
Definition rest_parse (r : bytes) : ures (option Authority.t * option bytes * option bytes) :=
  '(authority, rest) ← authority_token r;
  '(path, rest) ← path_token rest;
  query ← match rest with
          | [] => Ok None
          | b :: rest =>
              if b =? 63 then query_token rest else if b =? 35 then Ok None else Err UriMissQuery
          end;
  Ok (authority, path, query).

Lemma from_bytes_eq b :
  b ≠ [] →
  Uri.from_bytes b =
    if MAX_URI_LEN <? len b then Err UriTooLong
    else
      '(s, r) ← scheme_token b;
      '(a, p, q) ← rest_parse r;
      Uri.validity_check (Uri.mk s a p q).
Proof.
  intros Hb. unfold Uri.from_bytes, rest_parse. destruct (_ <? _); [done|]. destruct b as [|x b]; [done|].
  destruct (scheme_token _) as [[s r]| |]; [|done..]. cbn [mbind res_bind].
  destruct (authority_token r) as [[a r1]| |]; [|done..]. cbn [mbind res_bind].
  destruct (path_token r1) as [[p r2]| |]; [|done..]. cbn [mbind res_bind].
  by destruct (match r2 with [] => _ | _ => _ end).
Qed.

Definition auth_str (a : option Authority.t) : bytes :=
  match a with Some x => Authority.to_str x | None => [] end.
Definition print_rest (a : option Authority.t) (p q : option bytes) : bytes :=
  auth_str a ++ Uri.opt_str [] p ++ Uri.opt_str (str "?") q.

Lemma to_string_eq u :
  Uri.to_string u =
    match Uri.scheme u with Some s => Scheme.as_str s ++ str "://" | None => [] end ++
    print_rest (Uri.authority u) (Uri.path u) (Uri.query u).
Proof.
  unfold Uri.to_string, print_rest, Uri.host, Uri.port, auth_str, Authority.to_str.
  destruct (Uri.authority u) as [[h [po|]]|]; simpl; by rewrite <- ?app_assoc.
Qed.

Lemma some_ne_str pre l : Uri.opt_str pre (some_ne l) = match l with [] => [] | _ => pre ++ l end.
Proof. by destruct l. Qed.

(** The authority that is printed: parsed alike, and a prefix of the input. *)
Lemma authority_print r a r1 :
  authority_token r = Ok (a, r1) →
  stops auth_stop r1 ∧
  (∀ rest, stops auth_stop rest → authority_token (auth_str a ++ rest) = Ok (a, rest)) ∧
  (auth_str a = [] → a = None) ∧
  ∃ c, r = auth_str a ++ c ++ r1 ∧ (c = [] ∨ c = [58]) ∧ (a = None → c = []).
Proof.
  destruct (span_stop auth_stop r) as (a0 & r' & -> & Ha & Hr). rewrite authority_token_app by done.
  destruct a0 as [|x a0].
  - intros [= <- <-]. split_and!; [done| |done|by exists []; auto]. intros rest Hrest.
    by rewrite (authority_token_app []).
  - destruct (auth_of (x :: a0)) as [y| |] eqn:Hy; [|done..]. intros [= <- <-].
    destruct (auth_of_normal _ _ Ha ltac:(done) Hy) as (H1 & H2 & H3). split_and!; [done| | |].
    + intros rest Hrest. simpl. rewrite authority_token_app; [|destruct H3 as [<- |H3]; [done|]|done].
      * destruct (Authority.to_str y); [done|]. by rewrite H1.
      * rewrite H3 in Ha. by apply Forall_app in Ha as [? _].
    + done.
    + cbn [auth_str]. destruct H3 as [H3|H3]; [exists []|exists [58]]; rewrite H3, <- ?app_assoc;
        (split_and!; [done|by auto|done]).
Qed.

Lemma rest_parse_print r a p q :
  rest_parse r = Ok (a, p, q) →
  rest_parse (print_rest a p q) = Ok (a, p, q) ∧ len (print_rest a p q) ≤ len r ∧
  (a = None ∨ p = None ∧ q = None → ∃ tail, r = print_rest a p q ++ tail) ∧
  (print_rest a p q = [] → a = None ∧ p = None ∧ q = None).
Proof.
  unfold rest_parse at 1. destruct (authority_token r) as [[a' r1]| |] eqn:Ha; [|done..].
  cbn [mbind res_bind]. destruct (authority_print _ _ _ Ha) as (Hr1 & Hpr & Han & c & Hr & Hc & Hcn).
  destruct (path_token r1) as [[o r2]| |] eqn:Hp; [|done..]. cbn [mbind res_bind].
  destruct (path_token_inv _ _ _ Hp) as (pb & Hpb & Hpok & Hr2 & ->).
  (* the query and what is dropped behind it *)
  assert (Hq : ∀ q', match r2 with [] => Ok None | b :: rest =>
      if b =? 63 then query_token rest else if b =? 35 then Ok None else Err UriMissQuery end = Ok q' →
    ∃ qb tail, q' = some_ne qb ∧ Forall (λ b, query_byte b = true) qb ∧
      r2 = Uri.opt_str (str "?") (some_ne qb) ++ tail).
  { intros q' Hq. destruct r2 as [|b r2]; [injection Hq as <-; by exists [], []|].
    destruct (Z.eqb_spec b 63) as [->|].
    - destruct (query_token_inv _ _ Hq) as (qb & tail & -> & Hqb & ->). destruct qb as [|x qb].
      + by exists [], (63 :: tail).
      + by exists (x :: qb), tail.
    - destruct (b =? 35); [|done]. injection Hq as <-. by exists [], (b :: r2). }
  destruct (match r2 with [] => _ | _ => _ end) as [q'| |]; [|done..]. cbn [mbind res_bind].
  intros [= -> <- <-]. destruct (Hq q' eq_refl) as (qb & tail & -> & Hqb & ->). clear Hq.
  unfold print_rest. set (Q := Uri.opt_str (str "?") (some_ne qb)) in *.
  assert (HQ : stops path_stop Q ∧ stops auth_stop Q) by (unfold Q; rewrite some_ne_str; by destruct qb).
  assert (HP : Uri.opt_str [] (some_ne pb) = pb) by (by destruct pb). rewrite HP.
  assert (HPQ : stops auth_stop (pb ++ Q)).
  { destruct pb as [|x pb]; [apply HQ|]. rewrite Hpb in Hr1. exact Hr1. }
  split_and!.
  - unfold rest_parse. rewrite Hpr by done. cbn [mbind res_bind].
    rewrite path_token_app by (done || apply HQ). cbn [mbind res_bind].
    assert (match Q with [] => Ok None | b :: rest =>
      if b =? 63 then query_token rest else if b =? 35 then Ok None else Err UriMissQuery end =
      Ok (some_ne qb)) as ->; [|done].
    unfold Q. rewrite some_ne_str. destruct qb as [|x qb]; [done|].
    change (query_token (x :: qb) = Ok (some_ne (x :: qb))).
    rewrite <- (app_nil_r (x :: qb)) at 1. by apply query_token_app.
  - subst r1. rewrite Hr, !len_app. pose proof (len_nonneg c). pose proof (len_nonneg tail). lia.
  - intros [-> |[Hpn Hqn]].
    + rewrite Hr, (Hcn eq_refl), Hpb. exists tail. by rewrite <- !app_assoc.
    + destruct pb; [|done]. destruct qb; [|done]. exists (c ++ r1). rewrite Hr. unfold Q. simpl.
      by rewrite app_nil_r.
  - intros [Ha0 [Hp0 Hq0]%app_nil]%app_nil. split_and!; [by apply Han| |].
    + by rewrite Hp0.
    + unfold Q in Hq0. by destruct qb.
Qed.

(** * Theorems *)

(** C32: A URI that was parsed is a normal form: printing it and parsing the result
    gives the same URI (the fragment, an empty query, an empty port and the case
    of the scheme are what printing drops). *)
Theorem uri_parse_print b u :
  Uri.from_bytes b = Ok u → Uri.from_bytes (Uri.to_string u) = Ok u.
Proof.
  intros H. assert (Hb : b ≠ []) by (intros ->; by vm_compute in H).
  rewrite from_bytes_eq in H by done. destruct (MAX_URI_LEN <? len b) eqn:Hmax; [done|].
  destruct (scheme_token b) as [[s r]| |] eqn:Hs; [|done..]. cbn [mbind res_bind] in H.
  destruct (rest_parse r) as [[[a p] q]| |] eqn:Hr; [|done..]. cbn [mbind res_bind] in H.
  destruct (rest_parse_print _ _ _ _ Hr) as (Hpr & Hlen & Hpre & Hnil).
  assert (Hu : u = Uri.mk s a p q) by (unfold Uri.validity_check in H; repeat case_match; simplify_eq/=; done).
  subst u. rewrite to_string_eq. cbn [Uri.scheme Uri.authority Uri.path Uri.query].
  destruct s as [s|].
  - destruct (scheme_token_some _ _ _ Hs) as (pre & -> & Hpl). zbool. rewrite len_app in Hmax.
    rewrite from_bytes_eq by (by destruct s as [[]]).
    rewrite (proj2 (Z.ltb_ge _ _)) by (rewrite len_app; lia).
    rewrite <- app_assoc, scheme_token_print. cbn [mbind res_bind]. by rewrite Hpr.
  - apply scheme_token_none in Hs as Hrb. subst r. simpl.
    assert (Hcase : a = None ∨ p = None ∧ q = None).
    { unfold Uri.validity_check in H. simpl in H. destruct a, p, q; try done; auto. }
    destruct (Hpre Hcase) as (tail & Hb').
    assert (Hne : print_rest a p q ≠ []).
    { intros (-> & -> & ->)%Hnil. by unfold Uri.validity_check in H. }
    rewrite from_bytes_eq by done. zbool. rewrite (proj2 (Z.ltb_ge _ _)) by lia.
    rewrite Hb' in Hs. rewrite (scheme_token_prefix _ _ _ Hne Hs). cbn [mbind res_bind]. by rewrite Hpr.
Qed.

Lemma uri_parse_print_witness :
  Uri.from_bytes (str "HTTPS://a.b:/c?#f") =
    Ok (Uri.mk (Some Scheme.HTTPS) (Some (Authority.mk (str "a.b") None)) (Some (str "/c")) None) ∧
  Uri.from_bytes (str "https://a.b/c") =
    Ok (Uri.mk (Some Scheme.HTTPS) (Some (Authority.mk (str "a.b") None)) (Some (str "/c")) None).
Proof.
  split; [by vm_compute|]. apply (uri_parse_print (str "HTTPS://a.b:/c?#f")
    (Uri.mk (Some Scheme.HTTPS) (Some (Authority.mk (str "a.b") None)) (Some (str "/c")) None)).
  by vm_compute.
Defined.

(** ** The bytes of a parsed URI *)

(** A printable byte that is not a space. *)
Definition visible (b : Z) : Prop := 33 ≤ b ≤ 126.

Lemma table_visible t b :
  forallb (λ i, negb (default false (t !! i)) || ((33 <=? Z.of_nat i) && (Z.of_nat i <=? 126)))
    (seq 0 (length t)) = true →
  0 ≤ b → default false (t !! Z.to_nat b) = true → visible b.
Proof.
  intros Ht Hb H. destruct (t !! Z.to_nat b) as [x|] eqn:Hx; [|done]. simpl in H. subst x.
  rewrite forallb_forall in Ht. specialize (Ht (Z.to_nat b)). rewrite Hx in Ht. simpl in Ht.
  apply lookup_lt_Some in Hx. rewrite in_seq in Ht. unfold visible.
  assert (Hr : (33 <=? Z.of_nat (Z.to_nat b)) && (Z.of_nat (Z.to_nat b) <=? 126) = true) by (apply Ht; lia).
  rewrite Z2Nat.id in Hr by done. zbool. lia.
Qed.

Lemma path_byte_visible b : 0 ≤ b → path_byte b = true → visible b.
Proof. by apply table_visible. Qed.
Lemma uri_value_byte_visible b : 0 ≤ b → uri_value_byte b = true → visible b.
Proof. by apply table_visible. Qed.
Lemma query_byte_visible b : 0 ≤ b → query_byte b = true → visible b.
Proof.
  intros Hb. unfold query_byte.
  rewrite !orb_true_iff, !Z.eqb_eq. unfold visible.
  intros [[[[->| ->]| ->]| ->]|H]; [lia..|by apply path_byte_visible].
Qed.

Lemma authority_loop_visible i a s j s1 :
  Forall (λ b, 0 ≤ b) a → Forall (λ b, auth_stop b = false) a →
  authority_loop i a s = Ok (j, s1) → Forall visible a.
Proof.
  intros Hb Ha. revert i s. induction Ha as [|x a Hx _ IH]; intros i s; [done|]. simpl.
  apply Forall_cons_1 in Hb as [Hx0 Hb]. unfold auth_stop in Hx. rewrite Hx.
  assert (Hstep : ∀ i' s', visible x → authority_loop i' a s' = Ok (j, s1) → Forall visible (x :: a))
    by (intros; constructor; eauto).
  destruct (Z.eqb_spec x 91); [|destruct (Z.eqb_spec x 93); [|destruct (Z.eqb_spec x 64);
    [done|destruct (Z.eqb_spec x 58); [|destruct (uri_value_byte x) eqn:Hu; [|done]]]]];
    try (assert (Hv : visible x) by (unfold visible; lia)).
  1,2: repeat (case_match; try done); by apply Hstep.
  - by apply Hstep.
  - apply Hstep. by apply uri_value_byte_visible.
Qed.

Lemma auth_of_visible a x :
  Forall (λ b, 0 ≤ b) a → Forall (λ b, auth_stop b = false) a → a ≠ [] → auth_of a = Ok x →
  Forall visible (Authority.to_str x).
Proof.
  intros Hb Ha Hne Hx. destruct (auth_of_normal _ _ Ha Hne Hx) as (_ & _ & Hs).
  unfold auth_of in Hx. destruct (authority_loop 0 a scan0) as [[j s]| |] eqn:Hl; [|done..].
  pose proof (authority_loop_visible _ _ _ _ _ Hb Ha Hl) as Hv.
  destruct Hs as [<- |Hs]; [done|]. rewrite Hs in Hv. by apply Forall_app in Hv as [? _].
Qed.

Lemma rest_parse_visible r a p q :
  Forall (λ b, 0 ≤ b) r → rest_parse r = Ok (a, p, q) → Forall visible (print_rest a p q).
Proof.
  intros Hb. destruct (span_stop auth_stop r) as (a0 & r1 & -> & Ha & Hr). unfold rest_parse.
  apply Forall_app in Hb as [Hba Hbr]. rewrite authority_token_app by done.
  assert (Hau : ∀ a r2, match a0 with [] => Ok (None, r1) | _ => x ← auth_of a0; Ok (Some x, r1) end =
      Ok (a, r2) → Forall visible (auth_str a) ∧ r2 = r1).
  { intros a' r2. destruct a0 as [|x a0]; [by intros [= <- <-]|].
    destruct (auth_of (x :: a0)) as [y| |] eqn:Hy; [|done..]. intros [= <- <-].
    split; [|done]. exact (auth_of_visible _ _ Hba Ha ltac:(done) Hy). }
  destruct (match a0 with [] => _ | _ => _ end) as [[a' r2]| |]; [|done..].
  destruct (Hau _ _ eq_refl) as [Hav ->]. cbn [mbind res_bind].
  destruct (path_token r1) as [[o r2]| |] eqn:Hp; [|done..]. cbn [mbind res_bind].
  destruct (path_token_inv _ _ _ Hp) as (pb & -> & Hpok & _ & ->). apply Forall_app in Hbr as [Hbp Hb2].
  intros Hq.
  assert (Hqv : a' = a ∧ some_ne pb = p ∧ Forall visible (Uri.opt_str (str "?") q)).
  { destruct r2 as [|x r2]; [by injection Hq as <- <- <-|]. apply Forall_cons_1 in Hb2 as [_ Hb2].
    destruct (x =? 63).
    - destruct (query_token r2) as [q'| |] eqn:Hq'; [|done..]. cbn [mbind res_bind] in Hq.
      injection Hq as <- <- <-. destruct (query_token_inv _ _ Hq') as (qb & tail & -> & Hqb & ->).
      split_and!; [done..|]. apply Forall_app in Hb2 as [Hb2 _]. rewrite some_ne_str.
      destruct qb as [|y qb]; [done|]. change (Forall visible (63 :: y :: qb)); constructor; [unfold visible; lia|].
      eapply Forall_impl; [|exact (Forall_and Hb2 Hqb)]. simpl; intros ? [??]; by apply query_byte_visible.
    - destruct (x =? 35); [|done]. by injection Hq as <- <- <-. }
  destruct Hqv as (-> & <- & Hqv). unfold print_rest. rewrite !Forall_app. split_and!; [done| |done].
  assert (Uri.opt_str [] (some_ne pb) = pb) as -> by (by destruct pb).
  eapply Forall_impl; [|exact (Forall_and Hbp Hpok)]. simpl; intros ? [??]; by apply path_byte_visible.
Qed.

(** C35: Nothing of a parsed URI breaks out of the line it is written on: from any
    bytes, accepted by the parser, the printed URI holds only visible ASCII bytes,
    no space, no control byte (CR, LF, NUL) and none above 126. *)
Theorem uri_bytes_visible b u :
  Forall (λ x, 0 ≤ x < 256) b → Uri.from_bytes b = Ok u →
  Forall (λ x, 33 ≤ x ≤ 126) (Uri.to_string u).
Proof.
  intros Hb H. assert (Hne : b ≠ []) by (intros ->; by vm_compute in H).
  rewrite from_bytes_eq in H by done. destruct (MAX_URI_LEN <? len b); [done|].
  assert (Hb0 : Forall (λ x, 0 ≤ x) b) by (eapply Forall_impl; [|exact Hb]; simpl; intros; lia).
  destruct (scheme_token b) as [[s r]| |] eqn:Hs; [|done..]. cbn [mbind res_bind] in H.
  destruct (rest_parse r) as [[[a p] q]| |] eqn:Hr; [|done..]. cbn [mbind res_bind] in H.
  assert (Hu : u = Uri.mk s a p q) by (unfold Uri.validity_check in H; repeat case_match; simplify_eq/=; done).
  subst u. rewrite to_string_eq. cbn [Uri.scheme Uri.authority Uri.path Uri.query]. apply Forall_app. split.
  - destruct s as [[[]]|]; [| |done]; vm_compute; repeat constructor; done.
  - eapply rest_parse_visible; [|exact Hr]. destruct s as [s|].
    + destruct (scheme_token_some _ _ _ Hs) as (pre & -> & _). by apply Forall_app in Hb0 as [_ ?].
    + by apply scheme_token_none in Hs as ->.
Qed.

Lemma uri_bytes_visible_witness :
  Forall (λ x, 33 ≤ x ≤ 126) (str "/a?b") ∧ Uri.from_bytes (str "/a b") = Err InvalidByte.
Proof.
  split; [|by vm_compute].
  apply (uri_bytes_visible (str "/a?b#c") (Uri.mk None None (Some (str "/a")) (Some (str "b")))); [|by vm_compute].
  vm_compute. repeat constructor; done.
Defined.
