(* ===== verification/Message.v ===== *)
(** The parts of a message ([ylong_http/src/request/method.rs], [version.rs],
    [response/status.rs], [request/mod.rs], [response/mod.rs]): methods, versions,
    status codes and the two records of parts. *)
From S2P Require Import Prelude Headers Uri.

(** [struct Method(Inner)]. *)
Module Method.
Inductive t := Get | Head | Post | Put | Delete | Connect | Options | Trace.

#[global] Instance method_eq_dec : EqDecision t.
Proof. solve_decision. Defined.

Definition beq (a b : bytes) : bool := bool_decide (a = b).

Definition from_bytes (bytes : bytes) : res HttpError t :=
  if (len bytes <? 3) || (7 <? len bytes) then Err InvalidInput
  else
    let b0 := at_ bytes 0 in
    if (b0 =? 71) && beq (str "ET") (from 1 bytes) then Ok Get
    else if b0 =? 80 then
      let b1 := at_ bytes 1 in
      if (b1 =? 85) && beq (str "T") (from 2 bytes) then Ok Put
      else if (b1 =? 79) && beq (str "ST") (from 2 bytes) then Ok Post
      else Err InvalidInput
    else if (b0 =? 72) && beq (str "EAD") (from 1 bytes) then Ok Head
    else if (b0 =? 84) && beq (str "RACE") (from 1 bytes) then Ok Trace
    else if (b0 =? 68) && beq (str "ELETE") (from 1 bytes) then Ok Delete
    else if (b0 =? 79) && beq (str "PTIONS") (from 1 bytes) then Ok Options
    else if (b0 =? 67) && beq (str "ONNECT") (from 1 bytes) then Ok Connect
    else Err InvalidInput.

Definition as_str (m : t) : bytes :=
  match m with
  | Get => str "GET" | Head => str "HEAD" | Post => str "POST" | Put => str "PUT"
  | Delete => str "DELETE" | Options => str "OPTIONS" | Trace => str "TRACE" | Connect => str "CONNECT"
  end.
End Method.

(** [struct Version(Inner)]. *)
Module Version.
Inductive t := Http10 | Http11 | Http2 | Http3.

#[global] Instance version_eq_dec : EqDecision t.
Proof. solve_decision. Defined.

Definition as_str (v : t) : bytes :=
  match v with
  | Http10 => str "HTTP/1.0" | Http11 => str "HTTP/1.1" | Http2 => str "HTTP/2.0" | Http3 => str "HTTP/3.0"
  end.

Definition try_from (s : bytes) : res HttpError t :=
  if Method.beq s (str "HTTP/1.0") then Ok Http10
  else if Method.beq s (str "HTTP/1.1") then Ok Http11
  else if Method.beq s (str "HTTP/2.0") then Ok Http2
  else if Method.beq s (str "HTTP/3.0") then Ok Http3
  else Err InvalidInput.
End Version.

(** [struct StatusCode(u16)]. *)
Module StatusCode.
Record t := mk { code : Z }.

#[global] Instance status_eq_dec : EqDecision t.
Proof. solve_decision. Defined.

Definition from_u16 (code : Z) : res HttpError t :=
  if negb ((100 <=? code) && (code <? 1000)) then Err InvalidInput else Ok (mk code).

Definition as_u16 (s : t) : Z := code s.

(** [u8::wrapping_sub]. *)
Definition wrapping_sub (a b : Z) : Z := as_u8 (a - b).

Definition from_bytes (bytes : bytes) : res HttpError t :=
  if negb (len bytes =? 3) then Err InvalidInput
  else
    let a := wrapping_sub (at_ bytes 0) 48 in
    let b := wrapping_sub (at_ bytes 1) 48 in
    let c := wrapping_sub (at_ bytes 2) 48 in
    if (a =? 0) || (9 <? a) || (9 <? b) || (9 <? c) then Err InvalidInput
    else Ok (mk (a * 100 + b * 10 + c)).

Definition as_bytes (s : t) : bytes :=
  [as_u8 (code s / 100) + 48; as_u8 (code s mod 100 / 10) + 48; as_u8 (code s mod 10) + 48].

Definition is_informational (s : t) : bool := (100 <=? code s) && (code s <? 200).
Definition is_successful (s : t) : bool := (200 <=? code s) && (code s <? 300).
Definition is_redirection (s : t) : bool := (300 <=? code s) && (code s <? 400).
Definition is_client_error (s : t) : bool := (400 <=? code s) && (code s <? 500).
Definition is_server_error (s : t) : bool := (500 <=? code s) && (code s <? 600).
End StatusCode.

Module RequestPart.
Record t := mk { uri : Uri.t; method : Method.t; version : Version.t; headers : Headers.t }.
Definition default : t := mk Uri.http Method.Get Version.Http11 Headers.new.
End RequestPart.

Module ResponsePart.
Record t := mk { version : Version.t; status : StatusCode.t; headers : Headers.t }.
End ResponsePart.

(** * Codecs *)

Lemma status_codes (P : Z → bool) c :
  forallb P (Z.of_nat <$> seq 100 900) = true → 100 ≤ c < 1000 → P c = true.
Proof.
  intros HP Hc. rewrite forallb_forall in HP. apply HP, in_map_iff.
  exists (Z.to_nat c). rewrite in_seq. lia.
Qed.

(** Three digits, the first not zero, are the status code they spell, and back. *)
Lemma status_as_from s : 100 ≤ StatusCode.code s < 1000 → StatusCode.from_bytes (StatusCode.as_bytes s) = Ok s.
Proof.
  destruct s as [c]. simpl. intros Hc.
  pose proof (status_codes (λ c, match StatusCode.from_bytes (StatusCode.as_bytes (StatusCode.mk c)) with
    Ok s => StatusCode.code s =? c | _ => false end) c ltac:(by vm_compute) Hc) as H. simpl in H.
  destruct (StatusCode.from_bytes _) as [[c']| |]; [|done..]. simpl in H. by apply Z.eqb_eq in H as ->.
Qed.

Lemma status_from_range b s : bytes_ok b → StatusCode.from_bytes b = Ok s →
  100 ≤ StatusCode.code s < 1000 ∧ StatusCode.as_bytes s = b.
Proof.
  intros Hb. unfold StatusCode.from_bytes. destruct (Z.eqb_spec (len b) 3) as [Hl|]; [|done].
  destruct b as [|x [|y [|z [|]]]]; try (by vm_compute in Hl);
    [|rewrite !len_cons in Hl; pose proof (len_nonneg l); lia].
  apply Forall_cons_1 in Hb as [Hx Hb]. apply Forall_cons_1 in Hb as [Hy Hb].
  apply Forall_cons_1 in Hb as [Hz _]. cbn [at_ lookup list_lookup].
  change (at_ [x; y; z] 0) with x. change (at_ [x; y; z] 1) with y. change (at_ [x; y; z] 2) with z.
  assert (Hw : ∀ d, is_u8 d → StatusCode.wrapping_sub d 48 ≤ 9 → d = StatusCode.wrapping_sub d 48 + 48 ∧
    0 ≤ StatusCode.wrapping_sub d 48).
  { intros d Hd Hle. unfold StatusCode.wrapping_sub, as_u8, is_u8 in *. change (2 ^ 8) with 256 in *.
    destruct (Z_lt_le_dec d 48).
    - exfalso. replace ((d - 48) mod 256) with (d + 208) in Hle; [lia|].
      apply Zmod_unique with (-1); lia.
    - rewrite Z.mod_small by lia. lia. }
  destruct (_ || _ || _ || _) eqn:Hc; [done|]. zbool. intros [= <-]. cbn [StatusCode.code].
  destruct (Hw x Hx ltac:(lia)) as [Hx' ?]. destruct (Hw y Hy ltac:(lia)) as [Hy' ?].
  destruct (Hw z Hz ltac:(lia)) as [Hz' ?].
  set (a := StatusCode.wrapping_sub x 48) in *. set (c := StatusCode.wrapping_sub y 48) in *.
  set (e := StatusCode.wrapping_sub z 48) in *. split; [lia|].
  unfold StatusCode.as_bytes. cbn [StatusCode.code].
  assert (E1 : (a * 100 + c * 10 + e) / 100 = a) by (symmetry; apply Z.div_unique with (c * 10 + e); lia).
  assert (E2 : (a * 100 + c * 10 + e) mod 100 = c * 10 + e) by (symmetry; apply Zmod_unique with a; lia).
  assert (E3 : (c * 10 + e) / 10 = c) by (symmetry; apply Z.div_unique with e; lia).
  assert (E4 : (a * 100 + c * 10 + e) mod 10 = e) by (symmetry; apply Zmod_unique with (a * 10 + c); lia).
  rewrite E1, E2, E3, E4, !as_u8_small by (unfold is_u8; lia). by rewrite <- Hx', <- Hy', <- Hz'.
Qed.

(** Status codes are the three-digit ones: [from_bytes] accepts exactly the
    byte strings [as_bytes] writes for a code from 100 to 999, and gives the code
    back. *)
Theorem status_code_bytes b s :
  bytes_ok b →
  StatusCode.from_bytes b = Ok s ↔ StatusCode.from_u16 (StatusCode.as_u16 s) = Ok s ∧ StatusCode.as_bytes s = b.
Proof.
  intros Hb. unfold StatusCode.from_u16, StatusCode.as_u16. split.
  - intros H. destruct (status_from_range _ _ Hb H) as [Hr <-]. split; [|done].
    destruct s as [c]. simpl in *. rewrite (proj2 (Z.leb_le _ _)), (proj2 (Z.ltb_lt _ _)) by lia. done.
  - intros [Hr <-]. apply status_as_from. destruct ((100 <=? _) && _) eqn:Hc; [|done]. zbool. lia.
Qed.

Lemma status_code_bytes_witness :
  bytes_ok (str "404") ∧ StatusCode.from_bytes (str "404") = Ok (StatusCode.mk 404).
Proof.
  assert (H : bytes_ok (str "404")) by (repeat constructor; done). split; [done|].
  apply (status_code_bytes (str "404") (StatusCode.mk 404)); [done|]. by vm_compute.
Defined.

Lemma method_roundtrip m : Method.from_bytes (Method.as_str m) = Ok m.
Proof. by destruct m; vm_compute. Qed.

Lemma version_roundtrip v : Version.try_from (Version.as_str v) = Ok v.
Proof. by destruct v; vm_compute. Qed.
