(* ===== verification/H1Request.v ===== *)
(** The HTTP/1 request encoder ([ylong_http/src/h1/request/encoder.rs]): a state
    machine over the components of the request line and the fields, which writes as
    much as fits into each buffer it is given.  A write into [dst] is the bytes
    written, whose number is the [usize] the method returns.  The theorem is a
    refinement: the encoder is the list of the bytes still to be written, of which
    a call takes as many as the buffer holds. *)
From S2P Require Import Prelude Buffers PullEncoder Headers Uri Message.

Definition CRLF : bytes := [13; 10].

Inductive TokenStatus := Complete (out : bytes) | Partial (out : bytes).

(** [WriteData::write]: the status and the new [src_idx]. *)
Definition write_data (src : bytes) (src_idx : Z) (dst_len : Z) : res HttpError (TokenStatus * Z) :=
  if len src <? src_idx then Panic
  else
    let input_len := len src - src_idx in
    let output_len := dst_len in
    let out := upto output_len (from src_idx src) in
    if input_len <=? output_len then Ok (Complete out, src_idx)
    else Ok (Partial out, src_idx + len out).

(** [struct EncodeMethod], [EncodeVersion], [EncodeSp] and [EncodeCrlf]. *)
Module EncodeMethod.
Record t := mk { inner : Method.t; src_idx : Z }.
Definition new (m : Method.t) : t := mk m 0.
Definition encode (n : Z) : M t HttpError TokenStatus := mstate (λ e,
  match write_data (Method.as_str (inner e)) (src_idx e) n with
  | Ok (s, i) => (Ok s, mk (inner e) i) | Err x => (Err x, e) | Panic => (Panic, e)
  end).
End EncodeMethod.

Module EncodeVersion.
Record t := mk { inner : Version.t; src_idx : Z }.
Definition new (v : Version.t) : t := mk v 0.
Definition encode (n : Z) : M t HttpError TokenStatus := mstate (λ e,
  match write_data (Version.as_str (inner e)) (src_idx e) n with
  | Ok (s, i) => (Ok s, mk (inner e) i) | Err x => (Err x, e) | Panic => (Panic, e)
  end).
End EncodeVersion.

Module EncodeSp.
Record t := mk { src_idx : Z }.
Definition new : t := mk 0.
Definition encode (n : Z) : M t HttpError TokenStatus := mstate (λ e,
  match write_data (str " ") (src_idx e) n with
  | Ok (s, i) => (Ok s, mk i) | Err x => (Err x, e) | Panic => (Panic, e)
  end).
End EncodeSp.

Module EncodeCrlf.
Record t := mk { src_idx : Z }.
Definition new : t := mk 0.
Definition encode (n : Z) : M t HttpError TokenStatus := mstate (λ e,
  match write_data CRLF (src_idx e) n with
  | Ok (s, i) => (Ok s, mk i) | Err x => (Err x, e) | Panic => (Panic, e)
  end).
End EncodeCrlf.

(** ** The target *)

Definition origin_form (uri : Uri.t) : bytes :=
  match Uri.path uri, Uri.query uri with
  | None, None => str "/"
  | path, query =>
      match path with Some p => p | None => [] end ++
      match query with Some q => str "?" ++ q | None => [] end
  end.

Definition absolute_form (uri : Uri.t) : bytes :=
  match Uri.scheme uri with Some s => Scheme.as_str s ++ str "://" | None => [] end ++
  match Uri.host uri with Some h => h | None => [] end ++
  match Uri.port uri with Some p => str ":" ++ p | None => [] end ++
  match Uri.path uri with Some p => p | None => [] end ++
  match Uri.query uri with Some q => str "?" ++ q | None => [] end.

Module EncodeUri.
Record t := mk {
  origin : bytes; absolute : option bytes; raw : Uri.t; src_idx : Z; is_absolute : bool;
}.
Definition new (uri : Uri.t) (is_absolute : bool) : t := mk (origin_form uri) None uri 0 is_absolute.
Definition encode (n : Z) : M t HttpError TokenStatus := mstate (λ e,
  let '(uri, absolute) :=
    if is_absolute e then
      match absolute e with
      | Some a => (a, Some a)
      | None => let a := absolute_form (raw e) in (a, Some a)
      end
    else (origin e, absolute e) in
  let e := mk (origin e) absolute (raw e) (src_idx e) (is_absolute e) in
  match write_data uri (src_idx e) n with
  | Ok (s, i) => (Ok s, mk (origin e) absolute (raw e) i (is_absolute e))
  | Err x => (Err x, e) | Panic => (Panic, e)
  end).
End EncodeUri.

(** ** The fields *)

Inductive HeaderStatus := Name | Colon | Value | Crlf (c : EncodeCrlf.t) | EmptyHeader.

Module EncodeHeader.
Record t := mk {
  inner : list (bytes * HeaderValue.t);
  status : option HeaderStatus;
  name : bytes;
  value : bytes;
  name_idx : Z;
  colon_idx : Z;
  value_idx : Z;
}.
Abbreviation m := (M t HttpError).

Definition set_status (e : t) (s : HeaderStatus) : t :=
  mk (inner e) (Some s) (name e) (value e) (name_idx e) (colon_idx e) (value_idx e).

(** [fields] is [header.into_iter()]. *)
Definition new (fields : list (bytes * HeaderValue.t)) : res HttpError t :=
  match fields with
  | (n, v) :: inner => Ok (mk inner (Some Name) n (HeaderValue.to_vec v) 0 0 0)
  | [] =>
      match HeaderName.from_bytes (str " ") with
      | Ok n => Ok (mk [] (Some EmptyHeader) n [] 0 0 0)
      | _ => Panic
      end
  end.

Definition encode_name (n : Z) : m TokenStatus := mstate (λ e,
  match write_data (name e) (name_idx e) n with
  | Ok (Complete size, i) =>
      (Ok (Partial size), set_status (mk (inner e) (status e) (name e) (value e) i (colon_idx e) (value_idx e)) Colon)
  | Ok (Partial size, i) =>
      (Ok (Partial size), set_status (mk (inner e) (status e) (name e) (value e) i (colon_idx e) (value_idx e)) Name)
  | Err x => (Err x, e) | Panic => (Panic, e)
  end).

Definition encode_colon (n : Z) : m TokenStatus := mstate (λ e,
  match write_data (str ":") (colon_idx e) n with
  | Ok (Complete size, i) =>
      (Ok (Partial size), set_status (mk (inner e) (status e) (name e) (value e) (name_idx e) i (value_idx e)) Value)
  | Ok (Partial size, i) =>
      (Ok (Partial size), set_status (mk (inner e) (status e) (name e) (value e) (name_idx e) i (value_idx e)) Colon)
  | Err x => (Err x, e) | Panic => (Panic, e)
  end).

Definition encode_value (n : Z) : m TokenStatus := mstate (λ e,
  match write_data (value e) (value_idx e) n with
  | Ok (Complete size, i) =>
      (Ok (Partial size),
       set_status (mk (inner e) (status e) (name e) (value e) (name_idx e) (colon_idx e) i) (Crlf EncodeCrlf.new))
  | Ok (Partial size, i) =>
      (Ok (Partial size), set_status (mk (inner e) (status e) (name e) (value e) (name_idx e) (colon_idx e) i) Value)
  | Err x => (Err x, e) | Panic => (Panic, e)
  end).

Definition encode_crlf (n : Z) (crlf : EncodeCrlf.t) : m TokenStatus := mstate (λ e,
  match EncodeCrlf.encode n crlf with
  | (Ok (Complete size), _) =>
      match inner e with
      | (header_name, header_value) :: inner =>
          (Ok (Partial size), mk inner (Some Name) header_name (HeaderValue.to_vec header_value) 0 0 0)
      | [] => (Ok (Complete size), e)
      end
  | (Ok (Partial size), crlf) => (Ok (Partial size), set_status e (Crlf crlf))
  | (Err x, _) => (Err x, e) | (Panic, _) => (Panic, e)
  end).

Definition encode (n : Z) : m TokenStatus := mstate (λ e,
  let e' := mk (inner e) None (name e) (value e) (name_idx e) (colon_idx e) (value_idx e) in
  match status e with
  | None => (Panic, e')
  | Some Name => encode_name n e'
  | Some Colon => encode_colon n e'
  | Some Value => encode_value n e'
  | Some (Crlf crlf) => encode_crlf n crlf e'
  | Some EmptyHeader => (Ok (Complete []), e')
  end).
End EncodeHeader.

(** ** The encoder *)

Inductive EncodeState :=
  StMethod | StMethodSp | StUri | StUriSp | StVersion | StVersionCrlf | StHeader | StHeaderCrlf | EncodeFinished.

#[export] Instance encode_state_eq_dec : EqDecision EncodeState.
Proof. solve_decision. Defined.

Module RequestEncoder.
Record t := mk {
  encode_status : EncodeState;
  method_part : EncodeMethod.t;
  method_sp_part : EncodeSp.t;
  uri_part : EncodeUri.t;
  uri_sp_part : EncodeSp.t;
  version_part : EncodeVersion.t;
  version_crlf_part : EncodeCrlf.t;
  headers_part : EncodeHeader.t;
  headers_crlf_part : EncodeCrlf.t;
  is_absolute_uri : bool;
}.
Abbreviation m := (M t HttpError).

(** [into_iter] is the order in which the map of the headers is walked. *)
Definition new (into_iter : Headers.t → list (bytes * HeaderValue.t)) (part : RequestPart.t) : res HttpError t :=
  headers ← EncodeHeader.new (into_iter (RequestPart.headers part));
  Ok (mk StMethod (EncodeMethod.new (RequestPart.method part)) EncodeSp.new
    (EncodeUri.new (RequestPart.uri part) false) EncodeSp.new (EncodeVersion.new (RequestPart.version part))
    EncodeCrlf.new headers EncodeCrlf.new false).

Definition absolute_uri (e : t) (is_absolute : bool) : t :=
  mk (encode_status e) (method_part e) (method_sp_part e) (uri_part e) (uri_sp_part e) (version_part e)
    (version_crlf_part e) (headers_part e) (headers_crlf_part e) is_absolute.

(** The state that follows a component, written in full or in part. *)
Definition after (s : TokenStatus) (complete partial : EncodeState) : EncodeState * bytes :=
  match s with Complete out => (complete, out) | Partial out => (partial, out) end.

Definition method_encode (n : Z) : m bytes := mstate (λ e,
  match EncodeMethod.encode n (method_part e) with
  | (Ok s, p) =>
      let '(st, out) := after s StMethodSp StMethod in
      (Ok out, mk st p (method_sp_part e) (uri_part e) (uri_sp_part e) (version_part e)
        (version_crlf_part e) (headers_part e) (headers_crlf_part e) (is_absolute_uri e))
  | (Err x, _) => (Err x, e) | (Panic, _) => (Panic, e)
  end).

Definition method_sp_encode (n : Z) : m bytes := mstate (λ e,
  match EncodeSp.encode n (method_sp_part e) with
  | (Ok (Complete out), p) =>
      let u := uri_part e in
      let u := EncodeUri.mk (EncodeUri.origin u) (EncodeUri.absolute u) (EncodeUri.raw u)
                 (EncodeUri.src_idx u) (is_absolute_uri e) in
      (Ok out, mk StUri (method_part e) p u (uri_sp_part e) (version_part e)
        (version_crlf_part e) (headers_part e) (headers_crlf_part e) (is_absolute_uri e))
  | (Ok (Partial out), p) =>
      (Ok out, mk StMethodSp (method_part e) p (uri_part e) (uri_sp_part e) (version_part e)
        (version_crlf_part e) (headers_part e) (headers_crlf_part e) (is_absolute_uri e))
  | (Err x, _) => (Err x, e) | (Panic, _) => (Panic, e)
  end).

Definition uri_encode (n : Z) : m bytes := mstate (λ e,
  match EncodeUri.encode n (uri_part e) with
  | (Ok s, p) =>
      let '(st, out) := after s StUriSp StUri in
      (Ok out, mk st (method_part e) (method_sp_part e) p (uri_sp_part e) (version_part e)
        (version_crlf_part e) (headers_part e) (headers_crlf_part e) (is_absolute_uri e))
  | (Err x, _) => (Err x, e) | (Panic, _) => (Panic, e)
  end).

Definition uri_sp_encode (n : Z) : m bytes := mstate (λ e,
  match EncodeSp.encode n (uri_sp_part e) with
  | (Ok s, p) =>
      let '(st, out) := after s StVersion StUriSp in
      (Ok out, mk st (method_part e) (method_sp_part e) (uri_part e) p (version_part e)
        (version_crlf_part e) (headers_part e) (headers_crlf_part e) (is_absolute_uri e))
  | (Err x, _) => (Err x, e) | (Panic, _) => (Panic, e)
  end).

Definition version_encode (n : Z) : m bytes := mstate (λ e,
  match EncodeVersion.encode n (version_part e) with
  | (Ok s, p) =>
      let '(st, out) := after s StVersionCrlf StVersion in
      (Ok out, mk st (method_part e) (method_sp_part e) (uri_part e) (uri_sp_part e) p
        (version_crlf_part e) (headers_part e) (headers_crlf_part e) (is_absolute_uri e))
  | (Err x, _) => (Err x, e) | (Panic, _) => (Panic, e)
  end).

Definition version_crlf_encode (n : Z) : m bytes := mstate (λ e,
  match EncodeCrlf.encode n (version_crlf_part e) with
  | (Ok s, p) =>
      let '(st, out) := after s StHeader StVersionCrlf in
      (Ok out, mk st (method_part e) (method_sp_part e) (uri_part e) (uri_sp_part e) (version_part e)
        p (headers_part e) (headers_crlf_part e) (is_absolute_uri e))
  | (Err x, _) => (Err x, e) | (Panic, _) => (Panic, e)
  end).

Definition header_encode (n : Z) : m bytes := mstate (λ e,
  match EncodeHeader.encode n (headers_part e) with
  | (Ok s, p) =>
      let '(st, out) := after s StHeaderCrlf StHeader in
      (Ok out, mk st (method_part e) (method_sp_part e) (uri_part e) (uri_sp_part e) (version_part e)
        (version_crlf_part e) p (headers_crlf_part e) (is_absolute_uri e))
  | (Err x, _) => (Err x, e) | (Panic, _) => (Panic, e)
  end).

Definition header_crlf_encode (n : Z) : m bytes := mstate (λ e,
  match EncodeCrlf.encode n (headers_crlf_part e) with
  | (Ok s, p) =>
      let '(st, out) := after s EncodeFinished StHeaderCrlf in
      (Ok out, mk st (method_part e) (method_sp_part e) (uri_part e) (uri_sp_part e) (version_part e)
        (version_crlf_part e) (headers_part e) p (is_absolute_uri e))
  | (Err x, _) => (Err x, e) | (Panic, _) => (Panic, e)
  end).

(** One turn of the loop of [encode]: [None] when the encoder has finished. *)
Definition encode_step (n : Z) : m (option bytes) :=
  st ← mgets encode_status;
  match st with
  | StMethod => out ← method_encode n; mret (Some out)
  | StMethodSp => out ← method_sp_encode n; mret (Some out)
  | StUri => out ← uri_encode n; mret (Some out)
  | StUriSp => out ← uri_sp_encode n; mret (Some out)
  | StVersion => out ← version_encode n; mret (Some out)
  | StVersionCrlf => out ← version_crlf_encode n; mret (Some out)
  | StHeader => out ← header_encode n; mret (Some out)
  | StHeaderCrlf => out ← header_crlf_encode n; mret (Some out)
  | EncodeFinished => mret None
  end.

(** [while count != dst.len()]; [dst] is what is written so far.  Each turn fills
    the buffer or moves to the next component, so the number of components is fuel
    enough ([request_loop_ok]). *)
Fixpoint encode_loop (fuel : nat) (dst_len : Z) (dst : bytes) : m bytes :=
  match fuel with
  | O => mpanic
  | S fuel =>
      if len dst =? dst_len then mret dst
      else
        out ← encode_step (dst_len - len dst);
        match out with
        | Some out => encode_loop fuel dst_len (dst ++ out)
        | None => mret dst
        end
  end.

Definition encode_fuel (e : t) : nat := 20 + 4 * length (EncodeHeader.inner (headers_part e)).

Definition encode (dst_len : Z) : m bytes := mstate (λ e,
  if dst_len =? 0 then (Err InvalidInput, e) else encode_loop (encode_fuel e) dst_len [] e).
End RequestEncoder.

Definition part_example : RequestPart.t :=
  RequestPart.mk (Uri.mk None (Some (Authority.mk (str "www.example.com") None)) None None)
    Method.Get Version.Http11 (Headers.mk {[ str "accept" := HeaderValue.mk [str "text/html"] false ]}).

Example encode_example :
  match RequestEncoder.new (λ h, map_to_list (Headers.map h)) part_example with
  | Ok e =>
      (RequestEncoder.encode 1000 (RequestEncoder.absolute_uri e true)).1 =
        Ok (str "GET www.example.com HTTP/1.1" ++ [13; 10] ++ str "accept:text/html" ++ [13; 10; 13; 10])
  | _ => False
  end.
Proof. by vm_compute. Qed.

(** * The bytes still to be written *)

Definition field_line (f : bytes * HeaderValue.t) : bytes := f.1 ++ str ":" ++ HeaderValue.to_vec f.2 ++ CRLF.

Lemma write_data_ok src i n :
  0 ≤ i ≤ len src → 0 < n →
  (∃ out, write_data src i n = Ok (Complete out, i) ∧ from i src = out ∧ len out ≤ n) ∨
  (∃ out j, write_data src i n = Ok (Partial out, j) ∧ from i src = out ++ from j src ∧
     len out = n ∧ 0 ≤ j ≤ len src).
Proof.
  intros Hi Hn. unfold write_data. rewrite (proj2 (Z.ltb_ge _ _)) by lia.
  assert (Hl : len (from i src) = len src - i) by (rewrite len_from; lia).
  destruct (Z.leb_spec (len src - i) n).
  - left. exists (from i src). rewrite upto_all by lia. split_and!; [done|done|lia].
  - right. eexists _, _. split; [done|]. rewrite len_upto by lia. rewrite Hl, Z.min_l by lia.
    rewrite <- from_split by lia. split_and!; [done|done|lia|lia].
Qed.

Module HeaderPending.
Import EncodeHeader.

Definition lines (l : list (bytes * HeaderValue.t)) : bytes := l ≫= field_line.

Definition pending (e : t) : bytes :=
  match status e with
  | Some Name => from (name_idx e) (name e) ++ from (colon_idx e) (str ":") ++ from (value_idx e) (value e) ++ CRLF
                 ++ lines (inner e)
  | Some Colon => from (colon_idx e) (str ":") ++ from (value_idx e) (value e) ++ CRLF ++ lines (inner e)
  | Some Value => from (value_idx e) (value e) ++ CRLF ++ lines (inner e)
  | Some (Crlf c) => from (EncodeCrlf.src_idx c) CRLF ++ lines (inner e)
  | Some EmptyHeader => lines (inner e)
  | None => []
  end.

(** The number of components still to be written. *)
Definition turns (e : t) : nat :=
  match status e with
  | Some Name => 4 | Some Colon => 3 | Some Value => 2 | Some (Crlf _) => 1 | _ => 1
  end + 4 * length (inner e).

Record ok (e : t) : Prop := {
  ok_name : 0 ≤ name_idx e ≤ len (name e);
  ok_colon : 0 ≤ colon_idx e ≤ 1;
  ok_value : 0 ≤ value_idx e ≤ len (value e);
  ok_status : match status e with
              | None => False
              | Some (Crlf c) => 0 ≤ EncodeCrlf.src_idx c ≤ 2
              | Some EmptyHeader => inner e = []
              | _ => True
              end;
}.

(** The obligations of one component, written in full or in part. *)
Ltac part Ho :=
  eexists _, _; (split; [reflexivity|]); split_and!;
    [split; cbn; (done || lia)
    |unfold pending; cbn [status set_status name value name_idx colon_idx value_idx inner];
     rewrite Ho, <- ?app_assoc; reflexivity
    |lia|cbn; lia|cbn; first [by left|right; lia]].

Lemma encode_ok e n :
  ok e → 0 < n →
  (∃ out e', encode n e = (Ok (Complete out), e') ∧ pending e = out ∧ len out ≤ n) ∨
  (∃ out e', encode n e = (Ok (Partial out), e') ∧ ok e' ∧ pending e = out ++ pending e' ∧ len out ≤ n ∧
     (length (inner e') ≤ length (inner e))%nat ∧ (len out = n ∨ (turns e' < turns e)%nat)).
Proof.
  destruct e as [fs st nm v ni ci vi]. intros [H1 H2 H3 H4] Hn. unfold encode, mstate. cbn in H1, H2, H3, H4.
  cbn [status name value name_idx colon_idx value_idx inner].
  destruct st as [[| | |c|]|]; [| | | | |done].
  - right. unfold encode_name, mstate. cbn [name name_idx].
    destruct (write_data_ok nm ni n H1 Hn) as [(out & -> & Ho & Hl)|(out & j & -> & Ho & Hl & Hj)]; part Ho.
  - right. unfold encode_colon, mstate. cbn [colon_idx].
    destruct (write_data_ok (str ":") ci n H2 Hn) as [(out & -> & Ho & Hl)|(out & j & -> & Ho & Hl & Hj)]; part Ho.
  - right. unfold encode_value, mstate. cbn [value value_idx].
    destruct (write_data_ok v vi n H3 Hn) as [(out & -> & Ho & Hl)|(out & j & -> & Ho & Hl & Hj)]; part Ho.
  - unfold encode_crlf, EncodeCrlf.encode, mstate. cbn [inner].
    destruct (write_data_ok CRLF (EncodeCrlf.src_idx c) n H4 Hn)
      as [(out & -> & Ho & Hl)|(out & j & -> & Ho & Hl & Hj)].
    + destruct fs as [|[fn fv] fs].
      * left. eexists _, _. split_and!; [done| |done]. unfold pending. cbn. by rewrite app_nil_r.
      * right. eexists _, _. split; [done|]. pose proof (len_nonneg fn).
        pose proof (len_nonneg (HeaderValue.to_vec fv)).
        split_and!; [split; cbn; (done || lia)| |lia|cbn; lia|cbn; right; lia].
        unfold pending. cbn [status name value name_idx colon_idx value_idx inner].
        rewrite !(from_0 0), <- Ho by lia. cbn [lines mbind list_bind].
        unfold field_line. cbn [fst snd]. by rewrite <- !app_assoc.
    + right. part Ho.
  - left. eexists _, _. split_and!; [done| |]; unfold pending; cbn; [by rewrite H4|change (len []) with 0; lia].
Qed.
End HeaderPending.

Module RequestPending.
Import RequestEncoder.

(** What the target will be, before and while it is written. *)
Definition target (u : EncodeUri.t) (is_absolute : bool) : bytes :=
  if is_absolute then
    match EncodeUri.absolute u with Some a => a | None => absolute_form (EncodeUri.raw u) end
  else EncodeUri.origin u.

Definition from_header_crlf (e : t) : bytes := from (EncodeCrlf.src_idx (headers_crlf_part e)) CRLF.
Definition from_header (e : t) : bytes := HeaderPending.pending (headers_part e) ++ from_header_crlf e.
Definition from_version_crlf (e : t) : bytes :=
  from (EncodeCrlf.src_idx (version_crlf_part e)) CRLF ++ from_header e.
Definition from_version (e : t) : bytes :=
  from (EncodeVersion.src_idx (version_part e)) (Version.as_str (EncodeVersion.inner (version_part e)))
  ++ from_version_crlf e.
Definition from_uri_sp (e : t) : bytes := from (EncodeSp.src_idx (uri_sp_part e)) (str " ") ++ from_version e.
Definition from_uri (e : t) (is_absolute : bool) : bytes :=
  from (EncodeUri.src_idx (uri_part e)) (target (uri_part e) is_absolute) ++ from_uri_sp e.
Definition from_method_sp (e : t) : bytes :=
  from (EncodeSp.src_idx (method_sp_part e)) (str " ") ++ from_uri e (is_absolute_uri e).
Definition from_method (e : t) : bytes :=
  from (EncodeMethod.src_idx (method_part e)) (Method.as_str (EncodeMethod.inner (method_part e)))
  ++ from_method_sp e.

Definition req_pending (e : t) : bytes :=
  match encode_status e with
  | StMethod => from_method e
  | StMethodSp => from_method_sp e
  | StUri => from_uri e (EncodeUri.is_absolute (uri_part e))
  | StUriSp => from_uri_sp e
  | StVersion => from_version e
  | StVersionCrlf => from_version_crlf e
  | StHeader => from_header e
  | StHeaderCrlf => from_header_crlf e
  | EncodeFinished => []
  end.

Definition turns (e : t) : nat :=
  let h := HeaderPending.turns (headers_part e) in
  match encode_status e with
  | StMethod => 8 + h | StMethodSp => 7 + h | StUri => 6 + h | StUriSp => 5 + h | StVersion => 4 + h
  | StVersionCrlf => 3 + h | StHeader => 2 + h | StHeaderCrlf => 1 | EncodeFinished => 0
  end.

(** The positions are inside the components that are still to be written. *)
Record ok (e : t) : Prop := {
  ok_method : 0 ≤ EncodeMethod.src_idx (method_part e)
              ≤ len (Method.as_str (EncodeMethod.inner (method_part e)));
  ok_method_sp : 0 ≤ EncodeSp.src_idx (method_sp_part e) ≤ 1;
  ok_uri : match encode_status e with
           | StMethod | StMethodSp => EncodeUri.src_idx (uri_part e) = 0
           | StUri => 0 ≤ EncodeUri.src_idx (uri_part e)
                      ≤ len (target (uri_part e) (EncodeUri.is_absolute (uri_part e)))
           | _ => True
           end;
  ok_uri_sp : 0 ≤ EncodeSp.src_idx (uri_sp_part e) ≤ 1;
  ok_version : 0 ≤ EncodeVersion.src_idx (version_part e)
               ≤ len (Version.as_str (EncodeVersion.inner (version_part e)));
  ok_version_crlf : 0 ≤ EncodeCrlf.src_idx (version_crlf_part e) ≤ 2;
  ok_header : match encode_status e with
              | StHeaderCrlf | EncodeFinished => True
              | _ => HeaderPending.ok (headers_part e)
              end;
  ok_header_crlf : 0 ≤ EncodeCrlf.src_idx (headers_crlf_part e) ≤ 2;
}.

(** One turn writes some of the pending bytes, and fills the buffer or ends a
    component. *)
Definition step_post (n : Z) (e : t) (out : bytes) (e' : t) : Prop :=
  ok e' ∧ req_pending e = out ++ req_pending e' ∧ len out ≤ n ∧ (len out = n ∨ (turns e' < turns e)%nat).

Ltac unfold_pending :=
  unfold req_pending, from_method, from_method_sp, from_uri, from_uri_sp, from_version, from_version_crlf,
    from_header, from_header_crlf;
  cbn [encode_status method_part method_sp_part uri_part uri_sp_part version_part version_crlf_part headers_part
    headers_crlf_part is_absolute_uri EncodeMethod.inner EncodeMethod.src_idx EncodeVersion.inner
    EncodeVersion.src_idx EncodeSp.src_idx EncodeCrlf.src_idx EncodeUri.src_idx EncodeUri.is_absolute].
Ltac req_part Ho :=
  eexists _, _; (split; [reflexivity|]); split; [split; cbn; first [done|lia|by auto]|];
  split_and!; [unfold_pending; rewrite Ho, <- ?app_assoc, ?app_nil_r; reflexivity|lia|cbn; first [by left|right; lia]].

Lemma encode_uri_ok u n :
  0 ≤ EncodeUri.src_idx u ≤ len (target u (EncodeUri.is_absolute u)) → 0 < n →
  (∃ out u', EncodeUri.encode n u = (Ok (Complete out), u') ∧
     from (EncodeUri.src_idx u) (target u (EncodeUri.is_absolute u)) = out ∧ len out ≤ n) ∨
  (∃ out u', EncodeUri.encode n u = (Ok (Partial out), u') ∧
     from (EncodeUri.src_idx u) (target u (EncodeUri.is_absolute u)) =
       out ++ from (EncodeUri.src_idx u') (target u' (EncodeUri.is_absolute u')) ∧ len out = n ∧
     0 ≤ EncodeUri.src_idx u' ≤ len (target u' (EncodeUri.is_absolute u'))).
Proof.
  destruct u as [o ab raw i ia]. unfold target, EncodeUri.encode, mstate.
  cbn [EncodeUri.origin EncodeUri.absolute EncodeUri.raw EncodeUri.src_idx EncodeUri.is_absolute].
  set (w := if ia then match ab with Some a => a | None => absolute_form raw end else o). intros Hi Hn.
  assert (Hw : (if ia then match ab with Some a => (a, Some a)
      | None => (absolute_form raw, Some (absolute_form raw)) end else (o, ab)) =
      (w, if ia then Some w else ab)) by (subst w; by destruct ia, ab).
  rewrite Hw. clear Hw.
  destruct (write_data_ok w i n Hi Hn) as [(out & -> & Ho & Hl)|(out & j & -> & Ho & Hl & Hj)].
  - left. by eexists _, _.
  - right. eexists _, _. split; [done|].
    cbn [EncodeUri.origin EncodeUri.absolute EncodeUri.raw EncodeUri.src_idx EncodeUri.is_absolute].
    assert ((if ia then match (if ia then Some w else ab) with Some a => a | None => absolute_form raw end else o) = w)
      as -> by (subst w; by destruct ia). done.
Qed.

Lemma request_step_ok e n :
  ok e → 0 < n → encode_status e ≠ EncodeFinished →
  ∃ out e', encode_step n e = (Ok (Some out), e') ∧ step_post n e out e'.
Proof.
  destruct e as [st mp msp up usp vp vc hp hc abs]. intros [H1 H2 H3 H4 H5 H6 H7 H8] Hn Hst.
  cbn in H1, H2, H3, H4, H5, H6, H7, H8, Hst. unfold encode_step. rewrite M_bind_eq. cbn [mgets encode_status].
  destruct st; [| | | | | | | |done]; rewrite M_bind_eq.
  - unfold method_encode, EncodeMethod.encode, mstate. cbn [method_part].
    destruct (write_data_ok (Method.as_str (EncodeMethod.inner mp)) (EncodeMethod.src_idx mp) n H1 Hn)
      as [(out & -> & Ho & Hl)|(out & j & -> & Ho & Hl & Hj)]; cbn [after]; req_part Ho.
  - unfold method_sp_encode, EncodeSp.encode, mstate. cbn [method_sp_part].
    assert (Hz : ∀ l : bytes, 0 ≤ EncodeUri.src_idx up ≤ len l) by (intros l; pose proof (len_nonneg l); lia).
    destruct (write_data_ok (str " ") (EncodeSp.src_idx msp) n H2 Hn)
      as [(out & -> & Ho & Hl)|(out & j & -> & Ho & Hl & Hj)]; cbn [after]; req_part Ho.
  - unfold uri_encode. unfold mstate at 1. cbn [uri_part].
    destruct (encode_uri_ok up n H3 Hn) as [(out & u' & -> & Ho & Hl)|(out & u' & -> & Ho & Hl & Hj)];
      cbn [after]; req_part Ho.
  - unfold uri_sp_encode, EncodeSp.encode, mstate. cbn [uri_sp_part].
    destruct (write_data_ok (str " ") (EncodeSp.src_idx usp) n H4 Hn)
      as [(out & -> & Ho & Hl)|(out & j & -> & Ho & Hl & Hj)]; cbn [after]; req_part Ho.
  - unfold version_encode, EncodeVersion.encode, mstate. cbn [version_part].
    destruct (write_data_ok (Version.as_str (EncodeVersion.inner vp)) (EncodeVersion.src_idx vp) n H5 Hn)
      as [(out & -> & Ho & Hl)|(out & j & -> & Ho & Hl & Hj)]; cbn [after]; req_part Ho.
  - unfold version_crlf_encode, EncodeCrlf.encode, mstate. cbn [version_crlf_part].
    destruct (write_data_ok CRLF (EncodeCrlf.src_idx vc) n H6 Hn)
      as [(out & -> & Ho & Hl)|(out & j & -> & Ho & Hl & Hj)]; cbn [after]; req_part Ho.
  - unfold header_encode. unfold mstate at 1. cbn [headers_part].
    destruct (HeaderPending.encode_ok hp n H7 Hn)
      as [(out & h' & -> & Ho & Hl)|(out & h' & -> & Hh & Ho & Hl & _ & Ht)]; cbn [after]; [req_part Ho|].
    eexists _, _. split; [reflexivity|]. split; [by split|]. split_and!; [|done|].
    + unfold_pending. by rewrite Ho, <- app_assoc.
    + destruct Ht as [Ht|Ht]; [by left|right; cbn; lia].
  - unfold header_crlf_encode, EncodeCrlf.encode, mstate. cbn [headers_crlf_part].
    destruct (write_data_ok CRLF (EncodeCrlf.src_idx hc) n H8 Hn)
      as [(out & -> & Ho & Hl)|(out & j & -> & Ho & Hl & Hj)]; cbn [after]; req_part Ho.
Qed.

Lemma finished_pending e : encode_status e = EncodeFinished → req_pending e = [].
Proof. unfold req_pending. by intros ->. Qed.

Lemma request_loop_ok fuel e n dst :
  ok e → 0 < n → len dst ≤ n → (turns e + 2 ≤ fuel)%nat →
  ∃ e', encode_loop fuel n dst e = (Ok (dst ++ upto (n - len dst) (req_pending e)), e') ∧ ok e' ∧
    req_pending e' = from (n - len dst) (req_pending e).
Proof.
  revert e dst. induction fuel as [|fuel IH]; intros e dst He Hn Hd Hf; [lia|]. cbn [encode_loop].
  destruct (Z.eqb_spec (len dst) n) as [Heq|Hne].
  { exists e. rewrite upto_0, from_0, app_nil_r by lia. done. }
  rewrite M_bind_eq. destruct (decide (encode_status e = EncodeFinished)) as [Hfin|Hnf].
  { unfold encode_step. rewrite M_bind_eq. cbn [mgets]. rewrite Hfin. exists e. rewrite finished_pending by done.
    split_and!; [|done|by rewrite from_all by (change (len []) with 0; lia)].
    rewrite upto_all by (change (len []) with 0; lia). by rewrite app_nil_r. }
  destruct (request_step_ok e (n - len dst) He ltac:(lia) Hnf) as (out & e1 & -> & He1 & Hp & Hl & Ht).
  assert (Hup : len (dst ++ out) = len dst + len out) by apply len_app.
  assert (Hgoal : dst ++ upto (n - len dst) (req_pending e) =
      (dst ++ out) ++ upto (n - len (dst ++ out)) (req_pending e1) ∧
      from (n - len dst) (req_pending e) = from (n - len (dst ++ out)) (req_pending e1)).
  { rewrite Hp, Hup, upto_app_ge, from_app_ge by lia. rewrite <- app_assoc.
    replace (n - len dst - len out) with (n - (len dst + len out)) by lia. done. }
  destruct Hgoal as [-> ->]. destruct (decide (len (dst ++ out) = n)) as [Hfull|Hmore].
  - destruct fuel as [|fuel]; [lia|]. cbn [encode_loop]. rewrite (proj2 (Z.eqb_eq _ _)) by done.
    exists e1. rewrite upto_0, from_0, app_nil_r by lia. done.
  - apply IH; [done..|lia|]. destruct Ht; lia.
Qed.

Lemma turns_fuel e : ok e → (turns e + 2 ≤ encode_fuel e)%nat.
Proof.
  intros _. unfold turns, encode_fuel, HeaderPending.turns.
  destruct (encode_status e), (EncodeHeader.status (headers_part e)) as [[]|]; lia.
Qed.
End RequestPending.

#[export] Instance request_encoder_pull : PullEncoder RequestEncoder.encode.
Proof.
  refine {| pending := RequestPending.req_pending; pull_ok := RequestPending.ok |}.
  intros n e He Hn. unfold RequestEncoder.encode, mstate. rewrite (proj2 (Z.eqb_neq _ _)) by lia.
  destruct (RequestPending.request_loop_ok (RequestEncoder.encode_fuel e) e n [] He Hn) as (e' & H).
  - change (len []) with 0. lia.
  - by apply RequestPending.turns_fuel.
  - exists e'. change (len []) with 0 in H. rewrite Z.sub_0_r in H. exact H.
Defined.

(** * Theorems *)

(** The message of RFC 9112, section 3, for the parts of a request. *)
Definition request_message (into_iter : Headers.t → list (bytes * HeaderValue.t)) (absolute : bool)
    (part : RequestPart.t) : bytes :=
  Method.as_str (RequestPart.method part) ++ str " " ++
  (if absolute then absolute_form (RequestPart.uri part) else origin_form (RequestPart.uri part)) ++ str " " ++
  Version.as_str (RequestPart.version part) ++ CRLF ++
  (into_iter (RequestPart.headers part) ≫= λ f, f.1 ++ str ":" ++ HeaderValue.to_vec f.2 ++ CRLF) ++ CRLF.

Lemma request_new_pending into_iter part absolute :
  ∃ e, RequestEncoder.new into_iter part = Ok e ∧ RequestPending.ok (RequestEncoder.absolute_uri e absolute) ∧
    RequestPending.req_pending (RequestEncoder.absolute_uri e absolute) = request_message into_iter absolute part.
Proof.
  unfold RequestEncoder.new, EncodeHeader.new.
  assert (Hn : ∀ h, HeaderPending.ok h → HeaderPending.pending h =
      (into_iter (RequestPart.headers part) ≫= λ f, f.1 ++ str ":" ++ HeaderValue.to_vec f.2 ++ CRLF) →
    ∃ e, ('headers ← Ok h; Ok (RequestEncoder.mk StMethod (EncodeMethod.new (RequestPart.method part)) EncodeSp.new
      (EncodeUri.new (RequestPart.uri part) false) EncodeSp.new (EncodeVersion.new (RequestPart.version part))
      EncodeCrlf.new headers EncodeCrlf.new false)) = Ok (E := HttpError) e ∧
    RequestPending.ok (RequestEncoder.absolute_uri e absolute) ∧
    RequestPending.req_pending (RequestEncoder.absolute_uri e absolute) = request_message into_iter absolute part).
  { intros h Hh Hp. eexists. split; [done|]. split.
    - pose proof (len_nonneg (Method.as_str (RequestPart.method part))).
      pose proof (len_nonneg (Version.as_str (RequestPart.version part))). split; cbn; (done || lia).
    - unfold RequestPending.req_pending. cbn [RequestEncoder.absolute_uri RequestEncoder.encode_status].
      unfold RequestPending.from_method, RequestPending.from_method_sp, RequestPending.from_uri,
        RequestPending.from_uri_sp, RequestPending.from_version, RequestPending.from_version_crlf,
        RequestPending.from_header, RequestPending.from_header_crlf, request_message, RequestPending.target.
      cbn -[str]. rewrite !from_0 by lia. by rewrite Hp. }
  destruct (into_iter (RequestPart.headers part)) as [|[n v] l].
  - change (HeaderName.from_bytes (str " ")) with (Ok (E := HttpError) (str " ")). apply Hn; [by split|done].
  - apply Hn.
    + pose proof (len_nonneg n). pose proof (len_nonneg (HeaderValue.to_vec v)). split; cbn; (done || lia).
    + unfold HeaderPending.pending. cbn [EncodeHeader.status EncodeHeader.name_idx EncodeHeader.colon_idx
        EncodeHeader.value_idx EncodeHeader.name EncodeHeader.value EncodeHeader.inner].
      rewrite !from_0 by lia. cbn [mbind list_bind fst snd]. by rewrite <- !app_assoc.
Qed.

(** ** The message of the RFC *)

(** The words of RFC 9110, 9.1 and 2.5, and the schemes. *)
Definition rfc_method (m : Method.t) : bytes :=
  str (match m with
       | Method.Get => "GET" | Method.Head => "HEAD" | Method.Post => "POST" | Method.Put => "PUT" | Method.Delete => "DELETE"
       | Method.Connect => "CONNECT" | Method.Options => "OPTIONS" | Method.Trace => "TRACE"
       end).
Definition rfc_version (v : Version.t) : bytes :=
  str "HTTP/" ++ str (match v with Version.Http10 => "1.0" | Version.Http11 => "1.1" | Version.Http2 => "2.0" | Version.Http3 => "3.0" end).
Definition rfc_query (u : Uri.t) : bytes := match Uri.query u with Some q => [63] ++ q | None => [] end.
(** RFC 9112, 3.2.1: the absolute path, [/] when it is empty, and the query behind [?]. *)
Definition rfc_origin (u : Uri.t) : bytes :=
  match Uri.path u with Some (b :: p) => b :: p | _ => [47] end ++ rfc_query u.
(** RFC 9112, 3.2.2, composed as RFC 3986, 5.3 has it. *)
Definition rfc_absolute (u : Uri.t) : bytes :=
  match Uri.scheme u with Some s => str (match Scheme.proto s with Http => "http" | Https => "https" end) ++ [58] | None => [] end ++
  match Uri.authority u with Some a => [47; 47] ++ Authority.host a ++ match Authority.port a with Some p => [58] ++ p | None => [] end | None => [] end ++
  match Uri.path u with Some p => p | None => [] end ++ rfc_query u.
(** The values of a field, joined as RFC 9110, 5.3 allows. *)
Definition rfc_value (v : HeaderValue.t) : bytes :=
  match HeaderValue.inner v with [] => [] | i :: l => i ++ concat ((λ j, [44; 32] ++ j) <$> l) end.
(** RFC 9112, 2.1 and 3. *)
Definition rfc_request (fields : list (bytes * HeaderValue.t)) (absolute : bool) (part : RequestPart.t) : bytes :=
  rfc_method (RequestPart.method part) ++ [32] ++
  (if absolute then rfc_absolute (RequestPart.uri part) else rfc_origin (RequestPart.uri part)) ++ [32] ++
  rfc_version (RequestPart.version part) ++ [13; 10] ++
  concat ((λ f, f.1 ++ [58] ++ rfc_value f.2 ++ [13; 10]) <$> fields) ++ [13; 10].
(** URIs with a target: for the origin form no query without a path; for the absolute form a
    scheme and an authority. *)
Definition target_ok (absolute : bool) (u : Uri.t) : Prop :=
  if absolute then is_Some (Uri.scheme u) ∧ is_Some (Uri.authority u)
  else Uri.path u ≠ Some [] ∧ (Uri.path u = None → Uri.query u = None).

Lemma origin_rfc u : target_ok false u → origin_form u = rfc_origin u.
Proof.
  unfold target_ok, origin_form, rfc_origin, rfc_query. intros [Hp Hq].
  destruct (Uri.path u) as [[|b p]|]; [done| |rewrite (Hq eq_refl); done]. by destruct (Uri.query u).
Qed.
Lemma absolute_rfc u : target_ok true u → absolute_form u = rfc_absolute u.
Proof.
  intros [[s Hs] [a Ha]]. unfold absolute_form, rfc_absolute, rfc_query, Uri.host, Uri.port, Scheme.as_str. rewrite Hs, Ha.
  cbn [fmap option_fmap option_map mbind option_bind]. destruct (Scheme.proto s); rewrite <- !(assoc_L (++)); by destruct (Authority.port a).
Qed.
Lemma value_rfc v : HeaderValue.to_vec v = rfc_value v.
Proof.
  rewrite to_vec_spec. unfold rfc_value. destruct (HeaderValue.inner v) as [|i l]; [done|]. f_equal.
  induction l as [|j l IH]; [done|]. rewrite bind_cons, IH. done.
Qed.
Lemma message_rfc into_iter absolute part :
  target_ok absolute (RequestPart.uri part) → request_message into_iter absolute part = rfc_request (into_iter (RequestPart.headers part)) absolute part.
Proof.
  intros Ht. unfold request_message, rfc_request. f_equal; [by destruct (RequestPart.method part)|]. f_equal. f_equal.
  { destruct absolute; [by apply absolute_rfc|by apply origin_rfc]. }
  f_equal. f_equal; [by destruct (RequestPart.version part)|]. f_equal. f_equal.
  induction (into_iter _) as [|f l IH]; [done|]. rewrite bind_cons, IH. simpl. by rewrite value_rfc.
Qed.

(** C22: The request encoder refines the message of RFC 9112: called with non-empty buffers
    of any sizes it returns the request line, the field lines and the blank line cut at
    these sizes, with nothing lost, repeated or reordered, and a call that returns less than
    its buffer holds has written the last byte.  The target is the absolute form, for a URI
    with a scheme and an authority, or the origin form, for a URI that has no query without
    a path, as [absolute_uri] was set. *)
Theorem request_encode_message into_iter part absolute ns :
  target_ok absolute (RequestPart.uri part) → Forall (λ n, 0 < n) ns →
  ∃ e e', RequestEncoder.new into_iter part = Ok e ∧
    calls RequestEncoder.encode ns (RequestEncoder.absolute_uri e absolute) =
      (Ok (cut ns (rfc_request (into_iter (RequestPart.headers part)) absolute part)), e').
Proof.
  intros Ht Hns. destruct (request_new_pending into_iter part absolute) as (e & He & Hok & Hp).
  pose proof (calls_cut RequestEncoder.encode ns (RequestEncoder.absolute_uri e absolute)) as Hc.
  destruct (Hc Hok Hns) as (e' & Hc' & _). exists e, e'. split; [done|]. rewrite Hc'. cbn [pending request_encoder_pull]. by rewrite Hp, message_rfc.
Qed.

Lemma request_encode_message_witness :
  let part := RequestPart.mk (Uri.mk (Some Scheme.HTTP) (Some (Authority.mk (str "a.com") (Some (str "81")))) None (Some (str "q")))
    Method.Get Version.Http11 (RequestPart.headers part_example) in
  ∃ e e', RequestEncoder.new (λ h, map_to_list (Headers.map h)) part = Ok e ∧
    calls RequestEncoder.encode [20; 20; 60] (RequestEncoder.absolute_uri e true) =
      (Ok [str "GET http://a.com:81?"; str "q HTTP/1.1" ++ CRLF ++ str "accept:t"; str "ext/html" ++ CRLF ++ CRLF], e').
Proof.
  intros part.
  destruct (request_encode_message (λ h, map_to_list (Headers.map h)) part true [20; 20; 60])
    as (e & e' & He & Hc); [by split; eexists|repeat constructor; lia|]. exists e, e'. split; [done|]. rewrite Hc.
  by f_equal.
Defined.

(** A URI with a query and no path is written as [?q], which is no origin form: the RFC
    has [/?q]. *)
Lemma query_without_path :
  let u := Uri.mk (Some Scheme.HTTP) (Some (Authority.mk (str "a.com") None)) None (Some (str "q")) in
  Uri.from_bytes (str "http://a.com?q") = Ok u ∧ origin_form u = str "?q" ∧ rfc_origin u = str "/?q".
Proof. by vm_compute. Qed.
