(* ===== verification/H1Response.v ===== *)
(** The HTTP/1 response decoder ([ylong_http/src/h1/response/decoder.rs]): a state
    machine that is fed the status line and the fields in segments of any sizes.
    Loops over the fields take the length of the buffer as fuel, since a turn
    consumes at least the colon and the line feed of a field line.  The theorems:
    a message of the grammar is decoded to its parts and the body is left over; and
    a message that is accepted in one piece is accepted in every segmentation, with
    the same result. *)
From S2P Require Import Prelude Buffers Headers Message.

Inductive H1Error := InvalidRequest | InvalidResponse.
Abbreviation hres := (res H1Error).

Inductive HeaderStage := Start | Key | OwsBefore | Value | Crlf | EndCrlf.
Inductive ParseStage :=
  Initial | StVersion | StStatusCode | Reason | StatusCrlf | Header (h : HeaderStage) | BlankLine.

#[export] Instance header_stage_eq_dec : EqDecision HeaderStage.
Proof. solve_decision. Defined.

(** * Tokens *)

Inductive TokenStatus (A B : Type) := Complete (a : A) | Partial (b : B).
Arguments Complete {A B} a.
Arguments Partial {A B} b.
Abbreviation token := (TokenStatus (bytes * bytes) bytes).

Definition is_valid_byte (b : Z) : bool := (0x1F <? b) && (b <? 0x7F).
Definition is_legal_reason_byte (b : Z) : bool :=
  (b =? 9) || (b =? 32) || ((0x21 <=? b) && (b <=? 0x7E)) || ((0x80 <=? b) && (b <=? 0xFF)).
Definition name_byte (b : Z) : bool := default false (HEADER_NAME_BYTES !! Z.to_nat b).
Definition value_byte (b : Z) : bool := default false (HEADER_VALUE_BYTES !! Z.to_nat b).
Definition is_eol (b : Z) : bool := (b =? 13) || (b =? 10).
Definition is_ows (b : Z) : bool := (b =? 32) || (b =? 9).

(** [for (i, b) in buffer.iter().enumerate()]: the first byte that ends the token;
    an error on a byte the token may not hold. *)
Fixpoint scan (stop legal : Z → bool) (i : Z) (buffer : bytes) : hres (option Z) :=
  match buffer with
  | [] => Ok None
  | b :: buffer =>
      if stop b then Ok (Some i) else if negb (legal b) then Err InvalidResponse
      else scan stop legal (i + 1) buffer
  end.

Definition status_token (buffer : bytes) : hres token :=
  i ← scan (λ b, b =? 32) is_valid_byte 0 buffer;
  Ok (match i with Some i => Complete (upto i buffer, from (i + 1) buffer) | None => Partial buffer end).

Definition decode_reason (buffer : bytes) : hres (option (list Z)) :=
  i ← scan is_eol is_legal_reason_byte 0 buffer;
  Ok (match i with Some i => Some (from i buffer) | None => None end).

Definition get_header_name (buffer : bytes) : hres token :=
  i ← scan (λ b, b =? 58) name_byte 0 buffer;
  Ok (match i with Some i => Complete (upto i buffer, from (i + 1) buffer) | None => Partial buffer end).

Definition get_header_value (buffer : bytes) : hres token :=
  i ← scan is_eol value_byte 0 buffer;
  Ok (match i with Some i => Complete (upto i buffer, from i buffer) | None => Partial buffer end).

Definition consume_crlf (buffer : bytes) (cr_meet : bool) : hres (TokenStatus bytes Z) :=
  match buffer with
  | [] => Ok (Partial 0)
  | b :: buffer =>
      if b =? 13 then
        if cr_meet then Err InvalidResponse
        else match buffer with
             | [] => Ok (Partial 1)
             | b1 :: buffer => if b1 =? 10 then Ok (Complete buffer) else Err InvalidResponse
             end
      else if b =? 10 then Ok (Complete buffer)
      else Err InvalidResponse
  end.

Fixpoint trim_ows (buffer : bytes) : option bytes :=
  match buffer with
  | [] => None
  | b :: r => if is_ows b then trim_ows r else Some buffer
  end.

Definition version_from_bytes (value : bytes) : hres Version.t :=
  if bool_decide (value = str "HTTP/1.0") then Ok Version.Http10
  else if bool_decide (value = str "HTTP/1.1") then Ok Version.Http11
  else Err InvalidResponse.

Definition status_from_bytes (value : bytes) : hres StatusCode.t :=
  match StatusCode.from_bytes value with Ok s => Ok s | Err _ => Err InvalidResponse | Panic => Panic end.

Definition header_insert (header_name header_value : bytes) (headers : Headers.t) : hres (option Headers.t) :=
  Ok (Some (Headers.append_validated_h1 headers header_name header_value)).

(** The last position at which [p] holds, from [i] on. *)
Fixpoint rposition (p : Z → bool) (i : Z) (l : bytes) : option Z :=
  match l with
  | [] => None
  | b :: l => match rposition p (i + 1) l with Some j => Some j | None => if p b then Some i else None end
  end.

Definition trim_value (complete_value : bytes) : bytes :=
  match rposition (λ b, negb (is_ows b)) 0 complete_value with
  | Some last_visible => upto (last_visible + 1) complete_value
  | None => []
  end.

(** * The decoder *)

Module ResponseDecoder.
Record t := mk {
  stage : ParseStage;
  version : option Version.t;
  status_code : option StatusCode.t;
  headers : option Headers.t;
  head_key : bytes;
  rest : bytes;
  new_line : bool;
}.
Abbreviation m := (M t H1Error).

Definition new : t := mk Initial None None None [] [] false.

Definition set_stage (d : t) (s : ParseStage) : t :=
  mk s (version d) (status_code d) (headers d) (head_key d) (rest d) (new_line d).
Definition set_version (d : t) (v : option Version.t) : t :=
  mk (stage d) v (status_code d) (headers d) (head_key d) (rest d) (new_line d).
Definition set_status (d : t) (s : option StatusCode.t) : t :=
  mk (stage d) (version d) s (headers d) (head_key d) (rest d) (new_line d).
Definition set_headers (d : t) (h : option Headers.t) : t :=
  mk (stage d) (version d) (status_code d) h (head_key d) (rest d) (new_line d).
Definition set_key (d : t) (k : bytes) : t :=
  mk (stage d) (version d) (status_code d) (headers d) k (rest d) (new_line d).
Definition set_rest (d : t) (r : bytes) : t :=
  mk (stage d) (version d) (status_code d) (headers d) (head_key d) r (new_line d).
Definition set_new_line (d : t) (b : bool) : t :=
  mk (stage d) (version d) (status_code d) (headers d) (head_key d) (rest d) b.

(** [take_value]. *)
Definition take_value (value : bytes) : m bytes := mstate (λ d,
  match rest d with
  | [] => (Ok value, d)
  | _ => (Ok (rest d ++ value), set_rest d [])
  end).

Definition decode_version_token (value : bytes) : m Version.t :=
  r ← mgets rest;
  match r with
  | [] => mlift (version_from_bytes value)
  | _ => version ← take_value value; mlift (version_from_bytes version)
  end.

Definition decode_status_token (value : bytes) : m StatusCode.t :=
  r ← mgets rest;
  match r with
  | [] => mlift (status_from_bytes value)
  | _ => status ← take_value value; mlift (status_from_bytes status)
  end.

Definition decode_status_crlf (buffer : bytes) : m (option bytes) :=
  cr_meet ← mgets new_line;
  _ ← mmodify (λ d, set_new_line d false);
  r ← mlift (consume_crlf buffer cr_meet);
  match r with
  | Complete unparsed => _ ← mmodify (λ d, set_new_line d false); mret (Some unparsed)
  | Partial n =>
      if n =? 0 then mret None
      else if n =? 1 then _ ← mmodify (λ d, set_new_line d true); mret None
      else mfail InvalidResponse
  end.

Definition decode_ows (buffer : bytes) : m (option bytes) :=
  _ ← mmodify (λ d, set_stage d (Header OwsBefore));
  mret (trim_ows buffer).

Definition decode_key (buffer : bytes) : m (option bytes) :=
  _ ← mmodify (λ d, set_stage d (Header Key));
  r ← mlift (get_header_name buffer);
  match r with
  | Complete (key, unparsed) =>
      _ ← mmodify (λ d,
        match rest d with
        | [] => set_key d key
        | _ => set_key (set_rest d []) (rest d ++ key)
        end);
      mret (Some unparsed)
  | Partial p => _ ← mmodify (λ d, set_rest d (rest d ++ p)); mret None
  end.

Definition decode_value (buffer : bytes) : m (option bytes) :=
  _ ← mmodify (λ d, set_stage d (Header Value));
  r ← mlift (get_header_value buffer);
  match r with
  | Complete (value, unparsed) =>
      complete_value ← take_value value;
      let complete_value := trim_value complete_value in
      key ← mgets head_key;
      _ ← mmodify (λ d, set_key d []);
      hs ← mgets headers;
      _ ← mmodify (λ d, set_headers d None);
      hs ← mlift (unwrap hs);
      hs ← mlift (header_insert key complete_value hs);
      _ ← mmodify (λ d, set_headers d hs);
      mret (Some unparsed)
  | Partial p => _ ← mmodify (λ d, set_rest d (rest d ++ p)); mret None
  end.

Definition decode_crlf (cr_meet : bool) (buffer : bytes) : m (option bytes) :=
  _ ← mmodify (λ d, set_stage d (Header Crlf));
  r ← mlift (consume_crlf buffer cr_meet);
  match r with
  | Complete unparsed => _ ← mmodify (λ d, set_new_line d false); mret (Some unparsed)
  | Partial step =>
      _ ← mmodify (λ d, if step =? 1 then set_new_line d true else d);
      mret None
  end.

(** [get_unparsed_or_return!] and [detect_blank_and_return!]. *)
Definition get_unparsed {A} (case : m (option bytes)) (k : bytes → m (option A)) : m (option A) :=
  r ← case; match r with Some unparsed => k unparsed | None => mret None end.
Definition detect_blank (buffer : bytes) (k : bytes → m (option bytes)) : m (option bytes) :=
  match buffer with
  | [] => _ ← mmodify (λ d, set_stage d (Header EndCrlf)); mret None
  | b :: _ => if is_eol b then mret (Some buffer) else k buffer
  end.

Fixpoint decode_header_from_value (fuel : nat) (buffer : bytes) : m (option bytes) :=
  match fuel with
  | O => mpanic
  | S fuel =>
      get_unparsed (decode_value buffer) (λ buffer,
      get_unparsed (decode_crlf false buffer) (λ buffer,
      detect_blank buffer (λ buffer,
      get_unparsed (decode_key buffer) (λ buffer,
      get_unparsed (decode_ows buffer) (decode_header_from_value fuel)))))
  end.
Fixpoint decode_header_from_key (fuel : nat) (buffer : bytes) : m (option bytes) :=
  match fuel with
  | O => mpanic
  | S fuel =>
      get_unparsed (decode_key buffer) (λ buffer,
      get_unparsed (decode_ows buffer) (λ buffer,
      get_unparsed (decode_value buffer) (λ buffer,
      get_unparsed (decode_crlf false buffer) (λ buffer,
      detect_blank buffer (decode_header_from_key fuel)))))
  end.
Fixpoint decode_header_from_ows_before (fuel : nat) (buffer : bytes) : m (option bytes) :=
  match fuel with
  | O => mpanic
  | S fuel =>
      get_unparsed (decode_ows buffer) (λ buffer,
      get_unparsed (decode_value buffer) (λ buffer,
      get_unparsed (decode_crlf false buffer) (λ buffer,
      detect_blank buffer (λ buffer,
      get_unparsed (decode_key buffer) (decode_header_from_ows_before fuel)))))
  end.
Fixpoint decode_header_from_crlf (fuel : nat) (buffer : bytes) : m (option bytes) :=
  match fuel with
  | O => mpanic
  | S fuel =>
      get_unparsed (decode_crlf false buffer) (λ buffer,
      detect_blank buffer (λ buffer,
      get_unparsed (decode_key buffer) (λ buffer,
      get_unparsed (decode_ows buffer) (λ buffer,
      get_unparsed (decode_value buffer) (decode_header_from_crlf fuel)))))
  end.
Fixpoint decode_header_from_crlf_end (fuel : nat) (buffer : bytes) : m (option bytes) :=
  match fuel with
  | O => mpanic
  | S fuel =>
      detect_blank buffer (λ buffer,
      get_unparsed (decode_key buffer) (λ buffer,
      get_unparsed (decode_ows buffer) (λ buffer,
      get_unparsed (decode_value buffer) (λ buffer,
      get_unparsed (decode_crlf false buffer) (decode_header_from_crlf_end fuel)))))
  end.

(** [decode_header]; a turn of its loops consumes at least one byte. *)
Definition decode_header (buffer : bytes) : m (option bytes) :=
  let fuel := S (length buffer) in
  st ← mgets stage;
  match st with
  | Header Start =>
      match buffer with
      | [] => mret None
      | b :: _ => if is_eol b then mret (Some buffer) else decode_header_from_key fuel buffer
      end
  | Header Key => decode_header_from_key fuel buffer
  | Header OwsBefore => decode_header_from_ows_before fuel buffer
  | Header Value => decode_header_from_value fuel buffer
  | Header Crlf => decode_header_from_crlf fuel buffer
  | Header EndCrlf => decode_header_from_crlf_end fuel buffer
  | _ => mfail InvalidResponse
  end.

(** ** Phases *)

Abbreviation outcome := (option (ResponsePart.t * bytes)).

Definition blank_line_phase (buffer : bytes) : m outcome :=
  _ ← mmodify (λ d, set_stage d BlankLine);
  get_unparsed (decode_status_crlf buffer) (λ unparsed,
    v ← mgets version; _ ← mmodify (λ d, set_version d None); v ← mlift (unwrap v);
    s ← mgets status_code; _ ← mmodify (λ d, set_status d None); s ← mlift (unwrap s);
    h ← mgets headers; _ ← mmodify (λ d, set_headers d None); h ← mlift (unwrap h);
    mret (Some (ResponsePart.mk v s h, unparsed))).

Definition header_phase (buffer : bytes) : m outcome :=
  get_unparsed (decode_header buffer) blank_line_phase.

Definition header_phase_with_init (buffer : bytes) : m outcome :=
  _ ← mmodify (λ d, set_headers d (Some Headers.new));
  match buffer with
  | [] => _ ← mmodify (λ d, set_stage d (Header Start)); mret None
  | b :: _ =>
      if is_eol b then blank_line_phase buffer
      else
        _ ← mmodify (λ d, set_stage d (Header Key));
        get_unparsed (decode_header buffer) blank_line_phase
  end.

Definition status_crlf_phase (buffer : bytes) : m outcome :=
  _ ← mmodify (λ d, set_stage d StatusCrlf);
  get_unparsed (decode_status_crlf buffer) header_phase_with_init.

Definition reason_phase (buffer : bytes) : m outcome :=
  _ ← mmodify (λ d, set_stage d Reason);
  get_unparsed (mlift (decode_reason buffer)) status_crlf_phase.

Definition status_code_phase (buffer : bytes) : m outcome :=
  _ ← mmodify (λ d, set_stage d StStatusCode);
  r ← mlift (status_token buffer);
  match r with
  | Complete (code, unparsed) =>
      status ← decode_status_token code;
      _ ← mmodify (λ d, set_status d (Some status));
      reason_phase unparsed
  | Partial p => _ ← mmodify (λ d, set_rest d (rest d ++ p)); mret None
  end.

Definition version_phase (buffer : bytes) : m outcome :=
  _ ← mmodify (λ d, set_stage d StVersion);
  r ← mlift (status_token buffer);
  match r with
  | Complete (version, unparsed) =>
      version ← decode_version_token version;
      _ ← mmodify (λ d, set_version d (Some version));
      status_code_phase unparsed
  | Partial p => _ ← mmodify (λ d, set_rest d (rest d ++ p)); mret None
  end.

Definition decode (buf : bytes) : m outcome :=
  st ← mgets stage;
  match st with
  | Initial => version_phase buf
  | StVersion => version_phase buf
  | StStatusCode => status_code_phase buf
  | Reason => reason_phase buf
  | StatusCrlf => status_crlf_phase buf
  | Header _ => header_phase buf
  | BlankLine => blank_line_phase buf
  end.
End ResponseDecoder.

Example decode_example :
  (ResponseDecoder.decode (str "HTTP/1.1 304 OK" ++ [13; 10] ++ str "Age: 27 " ++ [13; 10; 13; 10] ++ str "body")
     ResponseDecoder.new).1 =
  Ok (Some (ResponsePart.mk Version.Http11 (StatusCode.mk 304)
    (Headers.mk {[ str "age" := HeaderValue.mk [str "27"] false ]}), str "body")).
Proof. by vm_compute. Qed.

(** * Tokens in pieces *)

Section Scan.
Context (stop legal : Z → bool).

(** A byte inside the token. *)
Definition inside (b : Z) : Prop := stop b = false ∧ legal b = true.

Lemma scan_some i v s r :
  Forall inside v → stop s = true → scan stop legal i (v ++ s :: r) = Ok (Some (i + len v)).
Proof.
  intros Hv Hs. revert i. induction Hv as [|b v [Hb Hl] _ IH]; intros i; simpl.
  - rewrite Hs. change (len []) with 0. by rewrite Z.add_0_r.
  - rewrite Hb, Hl. simpl. rewrite IH, len_cons. do 2 f_equal. lia.
Qed.

Lemma scan_none i v : Forall inside v → scan stop legal i v = Ok None.
Proof. intros Hv. revert i. induction Hv as [|b v [Hb Hl] _ IH]; intros i; simpl; [done|]. rewrite Hb, Hl. apply IH. Qed.

Lemma scan_inv i l o :
  scan stop legal i l = Ok o →
  match o with
  | Some j => ∃ v s r, l = v ++ s :: r ∧ Forall inside v ∧ stop s = true ∧ j = i + len v
  | None => Forall inside l
  end.
Proof.
  revert i. induction l as [|b l IH]; intros i; simpl; [by intros [= <-]|].
  destruct (stop b) eqn:Hb.
  - intros [= <-]. exists [], b, l. change (len []) with 0. split_and!; [done..|lia].
  - destruct (legal b) eqn:Hl; [|done]. simpl. intros Ho%IH. destruct o as [j|].
    + destruct Ho as (v & s & r & -> & Hv & Hs & ->). exists (b :: v), s, r. rewrite len_cons.
      split_and!; [done|by constructor|done|lia].
    + by constructor.
Qed.

(** A token cut in two. *)
Lemma token_cut a b v s r :
  a ++ b = v ++ s :: r → Forall inside v →
  (∃ r0, a = v ++ s :: r0 ∧ r = r0 ++ b) ∨ (∃ v', v = a ++ v' ∧ b = v' ++ s :: r).
Proof.
  intros H _. apply app_eq_app in H as (l & [[-> H]|[-> H]]).
  - destruct l as [|x l].
    + right. exists []. rewrite !app_nil_r. by split; [|rewrite H].
    + injection H as <- ->. left. by exists l.
  - right. by exists l.
Qed.
End Scan.

Lemma upto_from_token (v : bytes) s r :
  upto (0 + len v) (v ++ s :: r) = v ∧ from (0 + len v + 1) (v ++ s :: r) = r ∧
  from (0 + len v) (v ++ s :: r) = s :: r.
Proof.
  pose proof (len_nonneg v). rewrite Z.add_0_l, upto_app_exact by done. rewrite <- (from_from (len v) 1) by lia.
  by rewrite from_app_exact.
Qed.

Lemma trim_ows_cut a b r :
  trim_ows (a ++ b) = Some r →
  (∃ r0, trim_ows a = Some r0 ∧ r = r0 ++ b) ∨ (trim_ows a = None ∧ trim_ows b = Some r).
Proof.
  induction a as [|x a IH]; simpl; [by auto|]. destruct (is_ows x); [done|]. intros [= <-]. left. by eexists.
Qed.

Lemma consume_crlf_cut a b cr r :
  consume_crlf (a ++ b) cr = Ok (Complete r) →
  (∃ r0, consume_crlf a cr = Ok (Complete r0) ∧ r = r0 ++ b) ∨
  (a = [] ∧ consume_crlf b false = Ok (Complete r)) ∨
  (a = [13] ∧ cr = false ∧ b = 10 :: r).
Proof.
  destruct a as [|x a]; simpl.
  - intros H. right. left. split; [done|]. destruct cr; [|done]. destruct b as [|y b]; [done|]. simpl in *.
    by destruct (y =? 13).
  - destruct (Z.eqb_spec x 13) as [->|].
    + destruct cr; [done|]. destruct a as [|y a]; simpl.
      * destruct b as [|y b]; [done|]. destruct (Z.eqb_spec y 10) as [->|]; [|done].
        intros [= ->]. by auto.
      * destruct (y =? 10); [|done]. intros [= <-]. left. by exists a.
    + destruct (x =? 10); [|done]. intros [= <-]. left. by exists a.
Qed.

(** * One operation on the fields *)

Module Steps.
Import ResponseDecoder.

(** The five operations of a field line, in the order of the loops. *)
Inductive work := WKey | WOws | WValue | WCrlf | WEnd.
#[global] Instance work_eq_dec : EqDecision work.
Proof. solve_decision. Defined.

Definition op (w : work) (buffer : bytes) : m (option bytes) :=
  match w with
  | WKey => decode_key buffer
  | WOws => decode_ows buffer
  | WValue => decode_value buffer
  | WCrlf => decode_crlf false buffer
  | WEnd => mret None
  end.
Definition next (w : work) : work :=
  match w with WKey => WOws | WOws => WValue | WValue => WCrlf | WCrlf => WEnd | WEnd => WKey end.
Definition work_stage (w : work) : HeaderStage :=
  match w with WKey => Key | WOws => OwsBefore | WValue => Value | WCrlf => Crlf | WEnd => EndCrlf end.

Abbreviation key_in := (inside (λ b, b =? 58) name_byte).
Abbreviation value_in := (inside is_eol value_byte).

Definition key_done (d : t) (v : bytes) : t :=
  mk (Header Key) (version d) (status_code d) (headers d) (rest d ++ v) [] (new_line d).
Definition value_done (d : t) (h : Headers.t) (v : bytes) : t :=
  mk (Header Value) (version d) (status_code d)
    (Some (Headers.append_validated_h1 h (head_key d) (trim_value (rest d ++ v)))) [] [] (new_line d).
(** A token kept for the next segment. *)
Definition keep (d : t) (s : HeaderStage) (v : bytes) : t :=
  mk (Header s) (version d) (status_code d) (headers d) (head_key d) (rest d ++ v) (new_line d).

Ltac run := repeat (rewrite M_bind_eq || unfold mmodify, mgets, mlift, mret, M_ret); cbn beta iota.

Lemma key_complete d v r : Forall key_in v → decode_key (v ++ 58 :: r) d = (Ok (Some r), key_done d v).
Proof.
  intros Hv. unfold decode_key, get_header_name. run. rewrite scan_some by done. cbn [mbind res_bind].
  destruct (upto_from_token v 58 r) as (-> & -> & _). destruct d as [? ? ? ? ? [|x rs] ?]; done.
Qed.

Lemma key_partial d v : Forall key_in v → decode_key v d = (Ok None, keep d Key v).
Proof. intros Hv. unfold decode_key, get_header_name. run. by rewrite scan_none. Qed.

Lemma key_inv d l r d' :
  decode_key l d = (Ok (Some r), d') → ∃ v, l = v ++ 58 :: r ∧ Forall key_in v ∧ d' = key_done d v.
Proof.
  intros H. pose proof H as H0. unfold decode_key, get_header_name in H. rewrite !M_bind_eq in H.
  unfold mmodify at 1, mlift in H.
  destruct (scan (λ b, b =? 58) name_byte 0 l) as [[j|]|e|] eqn:Hs; simpl in H; [|done..].
  apply scan_inv in Hs as (v & s & r' & -> & Hv & Hb%Z.eqb_eq & ->). subst s.
  rewrite key_complete in H0 by done. injection H0 as -> <-. by exists v.
Qed.

Lemma value_complete d h v s r :
  headers d = Some h → Forall value_in v → is_eol s = true →
  decode_value (v ++ s :: r) d = (Ok (Some (s :: r)), value_done d h v).
Proof.
  intros Hh Hv Hb. unfold decode_value, get_header_value. run. rewrite scan_some by done. cbn [mbind res_bind].
  destruct (upto_from_token v s r) as (-> & _ & ->). unfold take_value, mstate.
  destruct d as [? ? ? ? ? [|x rs] ?]; cbn in *; by rewrite Hh.
Qed.

Lemma value_partial d v : Forall value_in v → decode_value v d = (Ok None, keep d Value v).
Proof. intros Hv. unfold decode_value, get_header_value. run. by rewrite scan_none. Qed.

Lemma value_inv d l r d' :
  decode_value l d = (Ok (Some r), d') →
  ∃ v s r' h, l = v ++ s :: r' ∧ r = s :: r' ∧ Forall value_in v ∧ is_eol s = true ∧ headers d = Some h ∧
    d' = value_done d h v.
Proof.
  intros H. pose proof H as H0. unfold decode_value, get_header_value in H. rewrite !M_bind_eq in H.
  unfold mmodify at 1, mlift at 1 in H.
  destruct (scan is_eol value_byte 0 l) as [[j|]|e|] eqn:Hs; simpl in H; [|done..].
  apply scan_inv in Hs as (v & s & r' & -> & Hv & Hb & ->).
  destruct (headers d) as [h|] eqn:Hh.
  - rewrite (value_complete d h) in H0 by done. injection H0 as <- <-. by exists v, s, r', h.
  - exfalso. clear H0. revert H. unfold take_value, mstate. run.
    destruct d as [? ? ? ? ? [|x rs] ?]; cbn in *; by rewrite Hh.
Qed.

Lemma ows_eq d l : decode_ows l d = (Ok (trim_ows l), set_stage d (Header OwsBefore)).
Proof. done. Qed.

Lemma crlf_eq d l :
  decode_crlf false l d =
    match consume_crlf l false with
    | Ok (Complete r) => (Ok (Some r), set_new_line (set_stage d (Header Crlf)) false)
    | Ok (Partial n) =>
        (Ok None, if n =? 1 then set_new_line (set_stage d (Header Crlf)) true else set_stage d (Header Crlf))
    | Err e => (Err e, set_stage d (Header Crlf))
    | Panic => (Panic, set_stage d (Header Crlf))
    end.
Proof. unfold decode_crlf. run. by destruct (consume_crlf l false) as [[]| |]. Qed.

Lemma op_stage w d s l : w ≠ WEnd → op w l (set_stage d s) = op w l d.
Proof. by destruct w. Qed.

(** An operation that succeeds on two segments together succeeds on them one after
    the other. *)
Lemma op_cut w a b d r d1 :
  op w (a ++ b) d = (Ok (Some r), d1) →
  (∃ r0, op w a d = (Ok (Some r0), d1) ∧ r = r0 ++ b) ∨
  (∃ d2, op w a d = (Ok None, d2) ∧ stage d2 = Header (work_stage w) ∧ op w b d2 = (Ok (Some r), d1)).
Proof.
  destruct w; simpl.
  - intros (v & Hl & Hv & ->)%key_inv. destruct (token_cut _ _ _ _ _ _ _ Hl Hv) as [(r0 & -> & ->)|(v' & -> & ->)].
    + left. exists r0. by rewrite key_complete.
    + apply Forall_app in Hv as [Ha Hv]. right. eexists. rewrite key_partial by done. split_and!; [done..|].
      rewrite key_complete by done. unfold key_done, keep. simpl. by rewrite app_assoc.
  - rewrite !ows_eq. intros [= Ht <-]. destruct (trim_ows_cut _ _ _ Ht) as [(r0 & -> & ->)|[-> Hb]].
    + left. by exists r0.
    + right. eexists. split_and!; [done..|]. by rewrite ows_eq, Hb.
  - intros (v & s & r' & h & Hl & -> & Hv & Hs & Hh & ->)%value_inv.
    destruct (token_cut _ _ _ _ _ _ _ Hl Hv) as [(r0 & -> & ->)|(v' & -> & ->)].
    + left. exists (s :: r0). by rewrite (value_complete d h).
    + apply Forall_app in Hv as [Ha Hv]. right. eexists. rewrite value_partial by done. split_and!; [done..|].
      rewrite (value_complete _ h) by done. unfold value_done, keep. simpl. by rewrite app_assoc.
  - rewrite !crlf_eq. destruct (consume_crlf (a ++ b) false) as [[r'|n]| |] eqn:Hc; [|done..].
    intros [= <- <-]. destruct (consume_crlf_cut _ _ _ _ Hc) as [(r0 & -> & ->)|[[-> Hb]|(-> & _ & ->)]].
    + left. by exists r0.
    + right. eexists. split_and!; [done..|]. by rewrite crlf_eq, Hb.
    + right. eexists. split_and!; [done..|]. by rewrite crlf_eq.
  - done.
Qed.

(** What an operation leaves is shorter for a name and a line end, and never
    longer. *)
Lemma op_length w l d r d1 :
  op w l d = (Ok (Some r), d1) →
  (length r ≤ length l)%nat ∧ (w = WKey ∨ w = WCrlf → (length r < length l)%nat).
Proof.
  destruct w; simpl.
  - intros (v & -> & _)%key_inv. rewrite length_app. simpl. lia.
  - rewrite ows_eq. intros [= Ht _].
    assert (Hl : (length r ≤ length l)%nat).
    { revert Ht. induction l as [|x l IH]; simpl; [done|]. destruct (is_ows x).
      - intros H%IH. lia.
      - by intros [= <-]. }
    split; [done|]. by intros [].
  - intros (v & s & r' & h & -> & -> & _)%value_inv. rewrite length_app. simpl. split; [lia|]. by intros [].
  - rewrite crlf_eq. destruct (consume_crlf l false) as [[r'|n]| |] eqn:Hc; [|done..]. intros [= <- _].
    destruct l as [|x l]; [done|]. simpl in Hc. repeat case_match; simplify_eq/=; lia.
  - done.
Qed.

(** * The loop over the fields, one operation at a time *)

Fixpoint cycle (fuel : nat) (w : work) (buffer : bytes) : m (option bytes) :=
  match fuel with
  | O => mpanic
  | S fuel =>
      match w with
      | WEnd => detect_blank buffer (cycle fuel WKey)
      | _ => get_unparsed (op w buffer) (cycle fuel (next w))
      end
  end.

(** The bytes and the operations that are left bound the turns. *)
Definition need (w : work) (l : bytes) : nat :=
  5 * length l + match w with WKey => 1 | WOws => 3 | WValue => 2 | WCrlf => 1 | WEnd => 2 end.

Lemma get_unparsed_eq {A} (f : m (option bytes)) (k : bytes → m (option A)) d :
  get_unparsed f k d =
    match f d with
    | (Ok (Some r), d1) => k r d1
    | (Ok None, d1) => (Ok None, d1)
    | (Err e, d1) => (Err e, d1)
    | (Panic, d1) => (Panic, d1)
    end.
Proof. unfold get_unparsed. rewrite M_bind_eq. by destruct (f d) as [[[]| |] ?]. Qed.

Lemma cycle_fuel n k w l d : (need w l ≤ n)%nat → (need w l ≤ k)%nat → cycle n w l d = cycle k w l d.
Proof.
  revert k w l d. induction n as [|n IH]; intros k w l d Hn Hk; [destruct w; unfold need in Hn; lia|].
  destruct k as [|k]; [destruct w; unfold need in Hk; lia|]. cbn [cycle].
  assert (Hop : w ≠ WEnd → get_unparsed (op w l) (cycle n (next w)) d = get_unparsed (op w l) (cycle k (next w)) d).
  { intros Hw. rewrite !get_unparsed_eq. destruct (op w l d) as [[[r|]| |] d1] eqn:Ho; [|done..].
    destruct (op_length _ _ _ _ _ Ho) as [Hl Hlt]. apply IH; destruct w; unfold need in *; simpl in *;
      try specialize (Hlt ltac:(auto)); lia. }
  destruct w; try by apply Hop. destruct l as [|x l]; [done|]. simpl. destruct (is_eol x); [done|].
  apply IH; unfold need in *; lia.
Qed.

Definition hcycle (w : work) (l : bytes) : m (option bytes) := cycle (S (need w l)) w l.

Lemma cycle_hcycle n w l d : (need w l ≤ n)%nat → cycle n w l d = hcycle w l d.
Proof. intros H. apply cycle_fuel; lia. Qed.

Lemma hcycle_op w l d : w ≠ WEnd → hcycle w l d = get_unparsed (op w l) (hcycle (next w)) d.
Proof.
  intros Hw. unfold hcycle at 1. cbn [cycle]. transitivity (get_unparsed (op w l) (cycle (need w l) (next w)) d);
    [by destruct w|]. rewrite !get_unparsed_eq. destruct (op w l d) as [[[r|]| |] d1] eqn:Ho; [|done..].
  destruct (op_length _ _ _ _ _ Ho) as [Hl Hlt]. apply cycle_hcycle. destruct w; unfold need; simpl;
    try specialize (Hlt ltac:(auto)); (done || lia).
Qed.

Lemma hcycle_end l d : hcycle WEnd l d = detect_blank l (hcycle WKey) d.
Proof.
  unfold hcycle at 1. cbn [cycle]. destruct l as [|x l]; [done|]. cbn [detect_blank]. destruct (is_eol x); [done|].
  apply cycle_hcycle. unfold need. simpl. lia.
Qed.

Lemma get_unparsed_ext {A} f (k k' : bytes → m (option A)) d :
  (∀ l d, k l d = k' l d) → get_unparsed f k d = get_unparsed f k' d.
Proof. intros H. rewrite !get_unparsed_eq. by destruct (f d) as [[[]| |] ?]. Qed.
Lemma detect_blank_ext l (k k' : bytes → m (option bytes)) d :
  (∀ l d, k l d = k' l d) → detect_blank l k d = detect_blank l k' d.
Proof. intros H. destruct l as [|x l]; [done|]. simpl. by destruct (is_eol x). Qed.

Ltac same_loop IH := repeat first [apply get_unparsed_ext; intros | apply detect_blank_ext; intros]; apply IH.
Ltac five n := replace (5 * S n)%nat with (S (S (S (S (S (5 * n)))))) by lia; cbn [cycle op next].

Lemma from_value_cycle n l d : decode_header_from_value n l d = cycle (5 * n) WValue l d.
Proof. revert l d. induction n as [|n IH]; intros l d; [done|]. five n. same_loop IH. Qed.
Lemma from_key_cycle n l d : decode_header_from_key n l d = cycle (5 * n) WKey l d.
Proof. revert l d. induction n as [|n IH]; intros l d; [done|]. five n. same_loop IH. Qed.
Lemma from_ows_cycle n l d : decode_header_from_ows_before n l d = cycle (5 * n) WOws l d.
Proof. revert l d. induction n as [|n IH]; intros l d; [done|]. five n. same_loop IH. Qed.
Lemma from_crlf_cycle n l d : decode_header_from_crlf n l d = cycle (5 * n) WCrlf l d.
Proof. revert l d. induction n as [|n IH]; intros l d; [done|]. five n. same_loop IH. Qed.
Lemma from_end_cycle n l d : decode_header_from_crlf_end n l d = cycle (5 * n) WEnd l d.
Proof. revert l d. induction n as [|n IH]; intros l d; [done|]. five n. same_loop IH. Qed.

(** [decode_header] in the middle of the fields. *)
Lemma decode_header_work w l d : stage d = Header (work_stage w) → decode_header l d = hcycle w l d.
Proof.
  intros Hs. unfold decode_header. rewrite M_bind_eq. cbn [mgets]. rewrite Hs. destruct w; cbn [work_stage];
    rewrite ?from_value_cycle, ?from_key_cycle, ?from_ows_cycle, ?from_crlf_cycle, ?from_end_cycle;
    apply cycle_hcycle; unfold need; lia.
Qed.

(** States that differ in the stage only, which every operation sets first. *)
Definition same (d d' : t) : Prop := set_stage d Initial = set_stage d' Initial.

Lemma same_stage d d' : same d d' → d' = set_stage d (stage d').
Proof. destruct d, d'. unfold same, set_stage. simpl. congruence. Qed.

Lemma hcycle_stage w d s l : w ≠ WEnd → hcycle w l (set_stage d s) = hcycle w l d.
Proof. intros Hw. rewrite !hcycle_op, !get_unparsed_eq by done. by rewrite op_stage. Qed.

Lemma hcycle_cut n w a b d r d' :
  (need w (a ++ b) ≤ n)%nat → hcycle w (a ++ b) d = (Ok (Some r), d') →
  (∃ r0, hcycle w a d = (Ok (Some r0), d') ∧ r = r0 ++ b) ∨
  (∃ w1 d1 d2, hcycle w a d = (Ok None, d1) ∧ stage d1 = Header (work_stage w1) ∧
     hcycle w1 b d1 = (Ok (Some r), d2) ∧ same d' d2).
Proof.
  revert w a d. induction n as [|n IH]; intros w a d Hn; [destruct w; unfold need in Hn; lia|].
  destruct (decide (w = WEnd)) as [->|Hw].
  - rewrite !hcycle_end. destruct a as [|x a].
    + intros H. right. exists WEnd, (set_stage d (Header EndCrlf)). simpl app in H.
      destruct b as [|x b]; [done|]. cbn [detect_blank] in *.
      destruct (is_eol x) eqn:Hx.
      * injection H as <- <-. exists (set_stage d (Header EndCrlf)). split_and!; [done..| |done]. rewrite hcycle_end. cbn [detect_blank].
        by rewrite Hx.
      * exists d'. split_and!; [done..| |done]. rewrite hcycle_end. cbn [detect_blank].
        by rewrite Hx, hcycle_stage.
    + cbn [detect_blank app]. destruct (is_eol x).
      * intros [= <- <-]. left. by exists (x :: a).
      * intros H. apply (IH WKey (x :: a)); [|done]. unfold need in *. simpl in *. lia.
  - rewrite !hcycle_op, !get_unparsed_eq by done.
    destruct (op w (a ++ b) d) as [[[r1|]| |] d1] eqn:Ho; [|done..].
    destruct (op_cut _ _ _ _ _ _ Ho) as [(r0 & Ha & ->)|(d2 & Ha & Hst & Hb)]; rewrite Ha.
    + apply IH. destruct (op_length _ _ _ _ _ Ho) as [Hl Hlt]. destruct w; unfold need in *; simpl in *;
        try specialize (Hlt ltac:(auto)); (done || lia).
    + intros H. right. exists w, d2, d'. split_and!; [done..| |done].
      by rewrite hcycle_op, get_unparsed_eq, Hb.
Qed.
End Steps.

(** * The phases on two segments *)

Module Phases.
Import ResponseDecoder Steps.

(** A phase that completes the message on two segments together completes it on
    them one after the other, through [decode]. *)
Definition cuts (f : bytes → m outcome) : Prop :=
  ∀ a b d p r d', f (a ++ b) d = (Ok (Some (p, r)), d') →
    (∃ r0, f a d = (Ok (Some (p, r0)), d') ∧ r = r0 ++ b) ∨
    (∃ d1, f a d = (Ok None, d1) ∧ decode b d1 = (Ok (Some (p, r)), d')).

Lemma status_crlf_eq l d :
  decode_status_crlf l d =
    match consume_crlf l (new_line d) with
    | Ok (Complete r) => (Ok (Some r), set_new_line d false)
    | Ok (Partial n) =>
        if n =? 0 then (Ok None, set_new_line d false)
        else if n =? 1 then (Ok None, set_new_line d true) else (Err InvalidResponse, set_new_line d false)
    | Err e => (Err e, set_new_line d false)
    | Panic => (Panic, set_new_line d false)
    end.
Proof.
  unfold decode_status_crlf. run. destruct (consume_crlf l (new_line d)) as [[r|n]| |]; [done| |done..].
  destruct (n =? 0); [done|]. by destruct (n =? 1).
Qed.

Lemma status_crlf_cut a b d r d1 :
  decode_status_crlf (a ++ b) d = (Ok (Some r), d1) →
  (∃ r0, decode_status_crlf a d = (Ok (Some r0), d1) ∧ r = r0 ++ b) ∨
  (∃ d2, decode_status_crlf a d = (Ok None, d2) ∧ stage d2 = stage d ∧ decode_status_crlf b d2 = (Ok (Some r), d1)).
Proof.
  rewrite !status_crlf_eq. destruct (consume_crlf (a ++ b) (new_line d)) as [[r'|n]| |] eqn:Hc;
    [|repeat case_match; done|done..].
  intros [= <- <-]. destruct (consume_crlf_cut _ _ _ _ Hc) as [(r0 & -> & ->)|[[-> Hb]|(-> & Hcr & ->)]].
  - left. by exists r0.
  - right. eexists. split_and!; [done..|]. rewrite status_crlf_eq. cbn [new_line set_new_line]. by rewrite Hb.
  - right. rewrite Hcr. eexists. split_and!; [done..|]. by rewrite status_crlf_eq.
Qed.

(** A line end in stage [st], and what follows it. *)
Definition crlf_phase (st : ParseStage) (k : bytes → m outcome) (l : bytes) : m outcome := λ d,
  get_unparsed (decode_status_crlf l) k (set_stage d st).

Lemma crlf_phase_cuts st k :
  (∀ l d, stage d = st → decode l d = crlf_phase st k l d) → cuts k → cuts (crlf_phase st k).
Proof.
  intros Hdec Hk a b d p r d'. unfold crlf_phase. rewrite !get_unparsed_eq.
  destruct (decode_status_crlf (a ++ b) (set_stage d st)) as [[[r1|]| |] d1] eqn:Ho; [|done..].
  destruct (status_crlf_cut _ _ _ _ _ Ho) as [(r0 & -> & ->)|(d2 & -> & Hst & Hb)]; [by apply Hk|].
  intros H. right. exists d2. split; [done|]. rewrite Hdec by (by rewrite Hst).
  unfold crlf_phase. rewrite get_unparsed_eq.
  assert (set_stage d2 st = d2) as -> by (destruct d2; unfold set_stage; simpl in *; by rewrite Hst).
  by rewrite Hb.
Qed.

(** The parts of the message, taken out of the decoder. *)
Definition take_parts (unparsed : bytes) : m outcome :=
  v ← mgets version; _ ← mmodify (λ d, set_version d None); v ← mlift (unwrap v);
  s ← mgets status_code; _ ← mmodify (λ d, set_status d None); s ← mlift (unwrap s);
  h ← mgets headers; _ ← mmodify (λ d, set_headers d None); h ← mlift (unwrap h);
  mret (Some (ResponsePart.mk v s h, unparsed)).

Lemma take_parts_eq l d :
  take_parts l d =
    match version d, status_code d, headers d with
    | Some v, Some s, Some h =>
        (Ok (Some (ResponsePart.mk v s h, l)), mk (stage d) None None None (head_key d) (rest d) (new_line d))
    | Some _, Some _, None => (Panic, mk (stage d) None None None (head_key d) (rest d) (new_line d))
    | Some _, None, h => (Panic, mk (stage d) None None h (head_key d) (rest d) (new_line d))
    | None, s, h => (Panic, mk (stage d) None s h (head_key d) (rest d) (new_line d))
    end.
Proof. destruct d as [? [] [] [] ? ? ?]; done. Qed.

Lemma blank_line_eq l d : blank_line_phase l d = crlf_phase BlankLine take_parts l d.
Proof. done. Qed.

Lemma blank_line_stage l d s : blank_line_phase l (set_stage d s) = blank_line_phase l d.
Proof. done. Qed.

Lemma blank_line_cuts : cuts blank_line_phase.
Proof.
  intros a b d p r d'. rewrite !blank_line_eq. apply (crlf_phase_cuts BlankLine take_parts).
  - intros l d0 H. unfold decode. rewrite M_bind_eq. cbn [mgets]. by rewrite H.
  - clear. intros a b d p r d'. rewrite !take_parts_eq.
    destruct (version d), (status_code d), (headers d); try done. intros [= <- <- <-]. left. by eexists.
Qed.

Lemma decode_work w l d :
  stage d = Header (work_stage w) → decode l d = get_unparsed (hcycle w l) blank_line_phase d.
Proof.
  intros Hs. unfold decode. rewrite M_bind_eq. cbn [mgets]. rewrite Hs. unfold header_phase.
  rewrite !get_unparsed_eq. by rewrite (decode_header_work w).
Qed.

(** The fields from operation [w] on, and the blank line. *)
Lemma fields_cuts w : cuts (λ l, get_unparsed (hcycle w l) blank_line_phase).
Proof.
  intros a b d p r d'. rewrite !get_unparsed_eq.
  destruct (hcycle w (a ++ b) d) as [[[r1|]| |] d1] eqn:Ho; [|done..].
  destruct (hcycle_cut _ _ _ _ _ _ _ (Nat.le_refl _) Ho) as
    [(r0 & -> & ->)|(w1 & d2 & d3 & -> & Hst & Hb & Hs)]; [apply blank_line_cuts|].
  intros H. right. exists d2. split; [done|]. rewrite (decode_work w1), get_unparsed_eq, Hb by done.
  apply same_stage in Hs as ->. by rewrite blank_line_stage.
Qed.

(** [header_phase_with_init] is the fields from the end of a line on. *)
Lemma init_eq l d :
  l ≠ [] → header_phase_with_init l d =
    get_unparsed (hcycle WEnd l) blank_line_phase (set_headers d (Some Headers.new)).
Proof.
  intros Hl. destruct l as [|x l]; [done|]. unfold header_phase_with_init. rewrite M_bind_eq. cbn [mmodify].
  rewrite get_unparsed_eq, hcycle_end. cbn [detect_blank]. destruct (is_eol x); [done|].
  rewrite M_bind_eq. cbn [mmodify]. rewrite get_unparsed_eq, (decode_header_work WKey) by done.
  by rewrite hcycle_stage.
Qed.

Lemma init_cuts : cuts header_phase_with_init.
Proof.
  intros a b d p r d'. destruct a as [|x a].
  - intros H. right. eexists. split; [done|]. simpl in H. destruct b as [|x b]; [done|].
    rewrite init_eq in H by done. unfold decode. rewrite M_bind_eq. cbn [mgets mmodify stage set_stage].
    unfold header_phase. rewrite get_unparsed_eq in *. rewrite hcycle_end in H. cbn [detect_blank] in H.
    unfold decode_header. rewrite M_bind_eq. cbn [mgets stage set_stage].
    destruct (is_eol x); [exact H|]. rewrite from_key_cycle, cycle_hcycle by (unfold need; lia).
    by rewrite hcycle_stage.
  - rewrite !init_eq by done. apply (fields_cuts WEnd).
Qed.

Lemma status_crlf_cuts : cuts status_crlf_phase.
Proof.
  apply (crlf_phase_cuts StatusCrlf header_phase_with_init); [|apply init_cuts].
  intros l d H. unfold decode. rewrite M_bind_eq. cbn [mgets]. by rewrite H.
Qed.

Abbreviation reason_in := (inside is_eol is_legal_reason_byte).
Abbreviation status_in := (inside (λ b, b =? 32) is_valid_byte).

Lemma reason_complete v s r d :
  Forall reason_in v → is_eol s = true → reason_phase (v ++ s :: r) d = status_crlf_phase (s :: r) d.
Proof.
  intros Hv Hs. unfold reason_phase, decode_reason. run. rewrite get_unparsed_eq. unfold mlift.
  rewrite scan_some by done. cbn [mbind res_bind]. by destruct (upto_from_token v s r) as (_ & _ & ->).
Qed.

Lemma reason_cuts : cuts reason_phase.
Proof.
  intros a b d p r d' H. pose proof H as H0. unfold reason_phase, decode_reason in H.
  rewrite M_bind_eq in H. cbn [mmodify] in H. rewrite get_unparsed_eq in H. unfold mlift in H.
  destruct (scan is_eol is_legal_reason_byte 0 (a ++ b)) as [[j|]| |] eqn:Hs; [clear H|done..].
  apply scan_inv in Hs as (v & s & r' & Hl & Hv & Hs & _). rewrite Hl, reason_complete in H0 by done.
  destruct (token_cut _ _ _ _ _ _ _ Hl Hv) as [(r0 & -> & ->)|(v' & -> & ->)].
  - rewrite reason_complete by done. by apply (status_crlf_cuts (s :: r0) b).
  - apply Forall_app in Hv as [Ha Hv]. right. exists (set_stage d Reason). split.
    + unfold reason_phase, decode_reason. run. rewrite get_unparsed_eq. unfold mlift. by rewrite scan_none.
    + unfold decode. rewrite M_bind_eq. cbn [mgets stage set_stage]. by rewrite reason_complete.
Qed.

(** The version and the status code: a token before a space. *)
Definition token_phase {A} (st : ParseStage) (parse : bytes → hres A) (put : t → A → t) (k : bytes → m outcome)
    (l : bytes) : m outcome := λ d,
  match status_token l with
  | Ok (Complete (v, unparsed)) =>
      match parse (rest d ++ v) with
      | Ok x => k unparsed (put (set_rest (set_stage d st) []) x)
      | Err e => (Err e, set_rest (set_stage d st) [])
      | Panic => (Panic, set_rest (set_stage d st) [])
      end
  | Ok (Partial p) => (Ok None, set_rest (set_stage d st) (rest d ++ p))
  | Err e => (Err e, set_stage d st)
  | Panic => (Panic, set_stage d st)
  end.

Lemma status_code_eq l d :
  status_code_phase l d = token_phase StStatusCode status_from_bytes (λ d s, set_status d (Some s)) reason_phase l d.
Proof.
  unfold status_code_phase, token_phase. run. destruct (status_token l) as [[[v r]|p]| |]; [|done..].
  unfold decode_status_token, take_value, mstate. run. destruct d as [? ? ? ? ? [|x rs] ?]; cbn [rest set_stage].
  - rewrite app_nil_l. by destruct (status_from_bytes v).
  - unfold mbind, M_bind. cbn [rest set_stage set_rest stage version status_code headers head_key new_line].
    by destruct (status_from_bytes ((x :: rs) ++ v)).
Qed.

Lemma version_eq l d :
  version_phase l d = token_phase StVersion version_from_bytes (λ d v, set_version d (Some v)) status_code_phase l d.
Proof.
  unfold version_phase, token_phase. run. destruct (status_token l) as [[[v r]|p]| |]; [|done..].
  unfold decode_version_token, take_value, mstate. run. destruct d as [? ? ? ? ? [|x rs] ?]; cbn [rest set_stage].
  - rewrite app_nil_l. by destruct (version_from_bytes v).
  - unfold mbind, M_bind. cbn [rest set_stage set_rest stage version status_code headers head_key new_line].
    by destruct (version_from_bytes ((x :: rs) ++ v)).
Qed.

Lemma status_token_complete v r : Forall status_in v → status_token (v ++ 32 :: r) = Ok (Complete (v, r)).
Proof.
  intros Hv. unfold status_token. rewrite scan_some by done. cbn [mbind res_bind].
  by destruct (upto_from_token v 32 r) as (-> & -> & _).
Qed.

Lemma status_token_inv l v r :
  status_token l = Ok (Complete (v, r)) → l = v ++ 32 :: r ∧ Forall status_in v.
Proof.
  intros H. pose proof H as H0. unfold status_token in H.
  destruct (scan (λ b, b =? 32) is_valid_byte 0 l) as [[j|]| |] eqn:Hs; [|done..].
  apply scan_inv in Hs as (v' & s & r' & -> & Hv & Hb%Z.eqb_eq & _). subst s.
  rewrite status_token_complete in H0 by done. by injection H0 as -> ->.
Qed.

Lemma token_cuts {A} st (parse : bytes → hres A) put k :
  (∀ l d, stage d = st → decode l d = token_phase st parse put k l d) → cuts k →
  cuts (token_phase st parse put k).
Proof.
  intros Hdec Hk a b d p r d'. unfold token_phase at 1.
  destruct (status_token (a ++ b)) as [[[v u]|]| |] eqn:Ht; [|done..].
  apply status_token_inv in Ht as [Hl Hv]. intros H.
  destruct (token_cut _ _ _ _ _ _ _ Hl Hv) as [(r0 & -> & ->)|(v' & -> & ->)].
  - unfold token_phase. rewrite status_token_complete by done.
    destruct (parse (rest d ++ v)); [|done..]. by apply Hk.
  - apply Forall_app in Hv as [Ha Hv]. right. eexists. split.
    + unfold token_phase, status_token. rewrite scan_none by done. reflexivity.
    + rewrite Hdec by done. unfold token_phase. rewrite status_token_complete by done.
      cbn [rest set_rest]. by rewrite <- app_assoc.
Qed.

Lemma cuts_ext f g : (∀ l d, f l d = g l d) → cuts g → cuts f.
Proof. intros He Hg a b d p r d'. rewrite !He. apply Hg. Qed.

Lemma status_code_cuts : cuts status_code_phase.
Proof.
  eapply cuts_ext; [apply status_code_eq|]. apply token_cuts; [|apply reason_cuts].
  intros l d H. unfold decode. rewrite M_bind_eq. cbn [mgets]. rewrite H. apply status_code_eq.
Qed.

Lemma version_cuts : cuts version_phase.
Proof.
  eapply cuts_ext; [apply version_eq|]. apply token_cuts; [|apply status_code_cuts].
  intros l d H. unfold decode. rewrite M_bind_eq. cbn [mgets]. rewrite H. apply version_eq.
Qed.

Lemma header_start_cuts a b d p r d' :
  stage d = Header Start → header_phase (a ++ b) d = (Ok (Some (p, r)), d') →
  (∃ r0, header_phase a d = (Ok (Some (p, r0)), d') ∧ r = r0 ++ b) ∨
  (∃ d1, header_phase a d = (Ok None, d1) ∧ decode b d1 = (Ok (Some (p, r)), d')).
Proof.
  intros Hst. destruct a as [|x a].
  - intros H. right. exists d. split.
    + unfold header_phase, decode_header. rewrite get_unparsed_eq, M_bind_eq. cbn [mgets]. by rewrite Hst.
    + unfold decode. rewrite M_bind_eq. cbn [mgets]. by rewrite Hst.
  - assert (He : ∀ l, l ≠ [] → header_phase l d = get_unparsed (hcycle WEnd l) blank_line_phase d).
    { intros [|y l] Hl; [done|]. unfold header_phase, decode_header.
      rewrite !get_unparsed_eq, M_bind_eq, hcycle_end. cbn [mgets detect_blank]. rewrite Hst.
      destruct (is_eol y); [done|]. rewrite from_key_cycle. by rewrite cycle_hcycle by (unfold need; lia). }
    rewrite !He by done. apply (fields_cuts WEnd).
Qed.

Lemma decode_cuts : cuts decode.
Proof.
  intros a b d p r d'.
  assert (Hd : ∀ l, decode l d = match stage d with
    | Initial | StVersion => version_phase l d | StStatusCode => status_code_phase l d
    | Reason => reason_phase l d | StatusCrlf => status_crlf_phase l d
    | Header _ => header_phase l d | BlankLine => blank_line_phase l d end).
  { intros l. unfold decode. rewrite M_bind_eq. cbn [mgets]. by destruct (stage d). }
  rewrite !Hd. destruct (stage d) as [| | | | |h|] eqn:Hst; [apply version_cuts|apply version_cuts|
    apply status_code_cuts|apply reason_cuts|apply status_crlf_cuts| |apply blank_line_cuts].
  destruct (decide (h = Start)) as [->|Hh]; [by apply header_start_cuts|].
  assert (Hw : ∃ w, h = work_stage w).
  { destruct h; [done|by exists WKey|by exists WOws|by exists WValue|by exists WCrlf|by exists WEnd]. }
  destruct Hw as [w ->].
  assert (He : ∀ l, header_phase l d = get_unparsed (hcycle w l) blank_line_phase d).
  { intros l. unfold header_phase. rewrite !get_unparsed_eq. by rewrite (decode_header_work w). }
  rewrite !He. apply (fields_cuts w).
Qed.
End Phases.

(** * The grammar *)

Record field_line := mk_line {
  l_name : bytes; l_before : bytes; l_value : bytes; l_after : bytes; l_eol : bytes;
}.
Definition line_bytes (l : field_line) : bytes :=
  l_name l ++ str ":" ++ l_before l ++ l_value l ++ l_after l ++ l_eol l.

(** CRLF, or LF alone. *)
Definition eol_ok (e : bytes) : Prop := e = [13; 10] ∨ e = [10].
(** No optional white space at either end. *)
Definition trimmed (v : bytes) : Prop :=
  match v with [] => True | b :: _ => is_ows b = false end ∧
  match list.last v with None => True | Some b => is_ows b = false end.
Record line_ok (l : field_line) : Prop := {
  lo_name : Forall (λ b, name_byte b = true) (l_name l);
  lo_before : Forall (λ b, is_ows b = true) (l_before l);
  lo_value : Forall (λ b, value_byte b = true) (l_value l) ∧ trimmed (l_value l);
  lo_after : Forall (λ b, is_ows b = true) (l_after l);
  lo_eol : eol_ok (l_eol l);
}.

Definition line_insert (h : Headers.t) (l : field_line) : Headers.t :=
  Headers.append_validated_h1 h (l_name l) (l_value l).

Module Grammar.
Import ResponseDecoder Steps Phases.

Lemma table_false (t : list bool) l b : default false (t !! Z.to_nat l) = false →
  default false (t !! Z.to_nat b) = true → (b =? l) = false.
Proof. intros Hl Hb. destruct (Z.eqb_spec b l) as [->|]; [congruence|done]. Qed.

Lemma key_bytes_in v : Forall (λ b, name_byte b = true) v → Forall key_in v.
Proof. apply Forall_impl. intros b Hb. split; [|done]. by apply (table_false HEADER_NAME_BYTES 58). Qed.

Lemma value_bytes_in v : Forall (λ b, value_byte b = true) v → Forall value_in v.
Proof.
  apply Forall_impl. intros b Hb. split; [|done]. unfold is_eol.
  by rewrite (table_false HEADER_VALUE_BYTES 13), (table_false HEADER_VALUE_BYTES 10).
Qed.

Lemma ows_value_byte v : Forall (λ b, is_ows b = true) v → Forall (λ b, value_byte b = true) v.
Proof.
  apply Forall_impl. intros b. unfold is_ows. rewrite orb_true_iff, !Z.eqb_eq. intros [->| ->]; by vm_compute.
Qed.

Lemma trim_ows_app p r : Forall (λ b, is_ows b = true) p → trim_ows (p ++ r) = trim_ows r.
Proof. induction 1 as [|b p Hb _ IH]; simpl; [done|]. by rewrite Hb. Qed.

Lemma rposition_none p i l : Forall (λ b, p b = false) l → rposition p i l = None.
Proof. intros H. revert i. induction H as [|b l Hb _ IH]; intros i; simpl; [done|]. by rewrite IH, Hb. Qed.

Lemma rposition_last p i v x w :
  p x = true → Forall (λ b, p b = false) w → rposition p i ((v ++ [x]) ++ w) = Some (i + len v).
Proof.
  intros Hx Hw. revert i. induction v as [|b v IH]; intros i; simpl.
  - rewrite rposition_none by done. rewrite Hx. change (len []) with 0. by rewrite Z.add_0_r.
  - rewrite IH, len_cons. f_equal. lia.
Qed.

Lemma trim_value_ows v w : trimmed v → Forall (λ b, is_ows b = true) w → trim_value (v ++ w) = v.
Proof.
  intros [_ Hl] Hw. unfold trim_value.
  assert (Hw' : Forall (λ b, negb (is_ows b) = false) w)
    by (eapply Forall_impl; [|exact Hw]; simpl; by intros ? ->).
  destruct v as [|x v _] using rev_ind.
  - simpl. by rewrite rposition_none.
  - rewrite last_snoc in Hl. rewrite rposition_last by (done || by rewrite Hl).
    replace (0 + len v + 1) with (len (v ++ [x])) by (rewrite len_app; change (len [x]) with 1; lia).
    by apply upto_app_exact.
Qed.

Lemma consume_eol e r cr : eol_ok e → cr = false ∨ e = [10] → consume_crlf (e ++ r) cr = Ok (Complete r).
Proof. intros [->| ->] [->|H]; done. Qed.

Lemma eol_first e r : eol_ok e → ∃ s r', e ++ r = s :: r' ∧ is_eol s = true ∧ is_ows s = false.
Proof. intros [->| ->]; by eexists _, _. Qed.

(** The value of a line, after the name. *)
Lemma line_value d l r h :
  line_ok l → headers d = Some h →
  get_unparsed (decode_ows (l_before l ++ l_value l ++ l_after l ++ l_eol l ++ r)) (hcycle WValue) d =
    hcycle WCrlf (l_eol l ++ r)
      (mk (Header Value) (version d) (status_code d)
        (Some (Headers.append_validated_h1 h (head_key d)
           (trim_value (rest d ++ match l_value l with [] => [] | _ => l_value l ++ l_after l end)))) [] [] (new_line d)).
Proof.
  intros [_ Hb [Hv [Hf _]] Ha He] Hh. destruct (eol_first _ r He) as (s & r' & Hr & Hs & Hns). rewrite Hr.
  rewrite get_unparsed_eq, ows_eq, trim_ows_app by done.
  assert (Hval : ∀ v, Forall (λ b, value_byte b = true) v →
    hcycle WValue (v ++ s :: r') (set_stage d (Header OwsBefore)) = hcycle WCrlf (s :: r') (value_done d h v)).
  { intros v Hvb. rewrite hcycle_op, get_unparsed_eq by done. cbn [op].
    rewrite (value_complete _ h) by (done || by apply value_bytes_in). done. }
  destruct (l_value l) as [|x v] eqn:Hlv.
  - rewrite app_nil_l, trim_ows_app by done. simpl trim_ows. rewrite Hns. exact (Hval [] (Forall_nil _)).
  - simpl trim_ows. rewrite Hf. rewrite app_comm_cons, app_assoc. rewrite Hval; [done|].
    apply Forall_app. split; [done|]. by apply ows_value_byte.
Qed.

(** The decoder between two lines. *)
Definition between (d : t) (h : Headers.t) : Prop := headers d = Some h ∧ rest d = [] ∧ new_line d = false.

(** One line of the fields. *)
Lemma line_decoded d l r h :
  between d h → line_ok l →
  ∃ d', hcycle WEnd (line_bytes l ++ r) d = hcycle WEnd r d' ∧ between d' (line_insert h l) ∧
    version d' = version d ∧ status_code d' = status_code d.
Proof.
  intros (Hh & Hr & Hn) Hl. pose proof Hl as [Hna _ [_ Htr] Haf He].
  assert (Hne : line_bytes l ++ r = l_name l ++ 58 :: (l_before l ++ l_value l ++ l_after l ++ l_eol l ++ r)).
  { unfold line_bytes. rewrite <- !app_assoc. done. }
  assert (Hkey : hcycle WEnd (line_bytes l ++ r) d = hcycle WKey (line_bytes l ++ r) d).
  { rewrite hcycle_end, Hne. destruct Hna as [|x n Hx]; [done|]. cbn [app detect_blank].
    unfold is_eol. by rewrite (table_false HEADER_NAME_BYTES 13), (table_false HEADER_NAME_BYTES 10). }
  rewrite Hkey, Hne, hcycle_op, get_unparsed_eq by done. cbn [op]. rewrite key_complete by (by apply key_bytes_in).
  cbn [next]. rewrite hcycle_op by done. cbn [op next]. rewrite (line_value _ _ _ h) by done.
  rewrite hcycle_op, get_unparsed_eq by done. cbn [op next]. rewrite crlf_eq, consume_eol by auto.
  eexists. split; [done|]. split; [|done]. split; [|done]. cbn. unfold line_insert. rewrite Hr.
  destruct (l_value l) as [|x v] eqn:Hv; [done|]. rewrite app_nil_l, trim_value_ows by done. done.
Qed.

Lemma lines_decoded d ls r h :
  between d h → Forall line_ok ls →
  ∃ d', hcycle WEnd (concat (line_bytes <$> ls) ++ r) d = hcycle WEnd r d' ∧
    between d' (fold_left line_insert ls h) ∧ version d' = version d ∧ status_code d' = status_code d.
Proof.
  intros Hd Hl. revert d h Hd. induction Hl as [|l ls Hl _ IH]; intros d h Hd; [by exists d|].
  rewrite fmap_cons. cbn [concat fold_left]. rewrite <- app_assoc.
  destruct (line_decoded d l (concat (line_bytes <$> ls) ++ r) h Hd Hl) as (d1 & -> & Hd1 & Hv & Hs).
  destruct (IH d1 _ Hd1) as (d2 & H2 & Hd2 & Hv2 & Hs2). exists d2. rewrite <- Hv, <- Hs. done.
Qed.

Lemma blank_decoded d h v s e body :
  between d h → version d = Some v → status_code d = Some s → eol_ok e →
  ∃ d', get_unparsed (hcycle WEnd (e ++ body)) blank_line_phase d = (Ok (Some (ResponsePart.mk v s h, body)), d').
Proof.
  intros (Hh & _ & Hn) Hv Hs He. destruct (eol_first _ body He) as (x & r & Hr & Hx & _).
  rewrite get_unparsed_eq, hcycle_end, Hr. cbn [detect_blank]. rewrite Hx. rewrite <- Hr.
  cbn [mret M_ret]. rewrite blank_line_eq. unfold crlf_phase. rewrite get_unparsed_eq, status_crlf_eq.
  cbn [new_line set_stage]. rewrite Hn, consume_eol by auto. rewrite take_parts_eq. cbn.
  rewrite Hv, Hs, Hh. by eexists.
Qed.
End Grammar.

(** The status line, the fields and the blank line. *)
Definition response_head (v : Version.t) (s : StatusCode.t) (reason eol : bytes) (ls : list field_line)
    (eol' : bytes) : bytes :=
  Version.as_str v ++ str " " ++ StatusCode.as_bytes s ++ str " " ++ reason ++ eol ++
  concat (line_bytes <$> ls) ++ eol'.

Record head_ok (v : Version.t) (s : StatusCode.t) (reason eol : bytes) (ls : list field_line) (eol' : bytes) : Prop := {
  ho_version : v = Version.Http10 ∨ v = Version.Http11;
  ho_status : 100 ≤ StatusCode.code s < 1000;
  ho_reason : Forall (λ b, is_legal_reason_byte b = true) reason;
  ho_eol : eol_ok eol;
  ho_lines : Forall line_ok ls;
  ho_eol' : eol_ok eol';
}.

Module Head.
Import ResponseDecoder Steps Phases Grammar.

Lemma as_bytes_digits s : 100 ≤ StatusCode.code s < 1000 → Forall status_in (StatusCode.as_bytes s).
Proof.
  destruct s as [c]. simpl. intros Hc.
  pose proof (status_codes (λ c, forallb (λ b, negb (b =? 32) && is_valid_byte b)
    (StatusCode.as_bytes (StatusCode.mk c))) c ltac:(by vm_compute) Hc) as H. cbv beta in H.
  rewrite forallb_forall in H. apply Forall_forall. intros b Hb%H. zbool. by split; [apply Z.eqb_neq|].
Qed.

Lemma version_bytes v : Forall status_in (Version.as_str v).
Proof. destruct v; repeat constructor. Qed.

Lemma reason_bytes_in r : Forall (λ b, is_legal_reason_byte b = true) r → Forall reason_in r.
Proof.
  apply Forall_impl. intros b Hb. split; [|done]. unfold is_eol.
  destruct (Z.eqb_spec b 13) as [->|]; [by vm_compute in Hb|].
  destruct (Z.eqb_spec b 10) as [->|]; [by vm_compute in Hb|done].
Qed.

Lemma head_decoded v s reason eol ls eol' body :
  head_ok v s reason eol ls eol' →
  ∃ d', decode (response_head v s reason eol ls eol' ++ body) new =
    (Ok (Some (ResponsePart.mk v s (fold_left line_insert ls Headers.new), body)), d').
Proof.
  intros [Hv Hs Hr He Hl He']. unfold response_head. rewrite <- !app_assoc.
  change (decode ?l new) with (version_phase l new). rewrite version_eq. unfold token_phase.
  change (str " " ++ ?l) with (32 :: l). rewrite status_token_complete by apply version_bytes.
  cbn [rest new]. rewrite app_nil_l.
  assert (version_from_bytes (Version.as_str v) = Ok v) as -> by (by destruct Hv as [->| ->]).
  rewrite status_code_eq. unfold token_phase. change (str " " ++ ?l) with (32 :: l).
  rewrite status_token_complete by (by apply as_bytes_digits). cbn [rest new set_rest set_stage set_version].
  rewrite app_nil_l. unfold status_from_bytes. rewrite status_as_from by done.
  set (tail := concat (line_bytes <$> ls) ++ eol' ++ body).
  destruct (eol_first _ tail He) as (x & r & Hx & Hxe & _). rewrite Hx.
  rewrite reason_complete by (done || by apply reason_bytes_in). rewrite <- Hx.
  change (status_crlf_phase ?l ?d) with (crlf_phase StatusCrlf header_phase_with_init l d).
  unfold crlf_phase. rewrite get_unparsed_eq, status_crlf_eq. cbn [new_line set_stage set_status].
  rewrite consume_eol by auto. unfold tail.
  destruct (eol_first _ body He') as (y & r' & Hy & _).
  rewrite init_eq by (rewrite Hy; by destruct (concat _)).
  match goal with |- context [get_unparsed _ _ ?d] => set (d0 := d) end.
  destruct (lines_decoded d0 ls (eol' ++ body) Headers.new) as (d1 & H1 & Hb & Hv1 & Hs1); [done..|].
  destruct (blank_decoded d1 _ v s eol' body Hb) as (d2 & H2); [done..|].
  exists d2. rewrite <- H2, !get_unparsed_eq. by rewrite H1.
Qed.
End Head.

(** ** Segments *)

(** A client that reads segments until the head is complete; what is left is the
    rest of the last segment and the segments it has not fed. *)
Fixpoint feed (segs : list bytes) : M ResponseDecoder.t H1Error (option (ResponsePart.t * bytes)) :=
  match segs with
  | [] => mret None
  | s :: segs =>
      r ← ResponseDecoder.decode s;
      match r with
      | Some (part, rest) => mret (Some (part, rest ++ concat segs))
      | None => feed segs
      end
  end.

Lemma feed_whole segs d p r d' :
  segs ≠ [] → ResponseDecoder.decode (concat segs) d = (Ok (Some (p, r)), d') →
  feed segs d = (Ok (Some (p, r)), d').
Proof.
  revert d. induction segs as [|s segs IH]; intros d; [done|]. intros _ H. cbn [concat feed] in *.
  rewrite M_bind_eq. destruct (Phases.decode_cuts _ _ _ _ _ _ H) as [(r0 & -> & ->)|(d1 & Hs & H1)]; [done|].
  rewrite Hs. destruct segs as [|s' segs]; [|by apply IH]. cbn [concat] in H. rewrite app_nil_r in H. congruence.
Qed.

(** * Theorems *)

(** C21: A response head is decoded to its parts: from the status line, any field
    lines with optional white space around the values and either line end, and the
    blank line, cut into segments anywhere, the decoder returns the version, the
    status code and the fields, in order, repeated names joined, and leaves the
    body. *)
Theorem response_decode_message v s reason eol ls eol' body segs :
  head_ok v s reason eol ls eol' → concat segs = response_head v s reason eol ls eol' ++ body →
  ∃ d', feed segs ResponseDecoder.new =
    (Ok (Some (ResponsePart.mk v s (fold_left line_insert ls Headers.new), body)), d').
Proof.
  intros Hh Hc. destruct (Head.head_decoded _ _ _ _ _ _ body Hh) as (d' & H). exists d'.
  apply feed_whole; [|by rewrite Hc]. intros ->. apply (f_equal (length (A := Z))) in Hc.
  unfold response_head in Hc. rewrite !length_app in Hc. destruct v; simpl in Hc; lia.
Qed.

Lemma response_decode_message_witness :
  ∃ d', feed [str "HTTP/1.1 20"; str "0 O"; str "K" ++ [13]; [10] ++ str "Age: 2"; str "7" ++ [10; 13]; [10] ++ str "body"]
    ResponseDecoder.new =
    (Ok (Some (ResponsePart.mk Version.Http11 (StatusCode.mk 200)
      (Headers.mk {[ str "age" := HeaderValue.mk [str "27"] false ]}), str "body")), d').
Proof.
  apply (response_decode_message Version.Http11 (StatusCode.mk 200) (str "OK") [13; 10]
    [mk_line (str "Age") (str " ") (str "27") [] [10]] [13; 10] (str "body")); [|by vm_compute].
  split; [by right|simpl; lia|repeat constructor|by left| |by left].
  constructor; [|constructor].
  split; simpl; [repeat constructor|repeat constructor|split; [repeat constructor|by split]|constructor|by right].
Defined.

(** Segments do not matter to an accepted head: what the decoder returns for
    bytes that it accepts in one call, it returns for the same bytes cut into any
    segments, empty ones included, from any state it may be in. *)
Theorem response_decode_segments s segs d p r d' :
  ResponseDecoder.decode (concat (s :: segs)) d = (Ok (Some (p, r)), d') →
  feed (s :: segs) d = (Ok (Some (p, r)), d').
Proof. by apply feed_whole. Qed.

Lemma response_decode_segments_witness :
  ∃ p r d', ResponseDecoder.decode (str "HTTP/1.0 404 " ++ [13; 10; 13; 10; 1]) ResponseDecoder.new =
      (Ok (Some (p, r)), d') ∧
    feed [str "HTTP/1.0 404 "; [13]; []; [10; 13]; [10; 1]] ResponseDecoder.new = (Ok (Some (p, r)), d').
Proof.
  eexists _, _, _. split; [by vm_compute|].
  apply (response_decode_segments (str "HTTP/1.0 404 ") [[13]; []; [10; 13]; [10; 1]] ResponseDecoder.new).
  by vm_compute.
Defined.

(** The converse fails: a field line that ends in CR CR LF is refused in one piece
    and accepted when a segment ends between the two CRs. *)
Lemma crcr_accepted_in_segments :
  let head := str "HTTP/1.1 200 OK" ++ [13; 10] ++ str "a:b" ++ [13] in
  let tail := [13; 10; 13; 10] in
  (ResponseDecoder.decode (head ++ tail) ResponseDecoder.new).1 = Err InvalidResponse ∧
  (feed [head; tail] ResponseDecoder.new).1 =
    Ok (Some (ResponsePart.mk Version.Http11 (StatusCode.mk 200)
      (Headers.mk {[ str "a" := HeaderValue.mk [str "b"] false ]}), [])).
Proof. by vm_compute. Qed.
