(* ===== verification/H2Window.v ===== *)
(** HTTP/2 flow-control windows of the client
    ([ylong_http_client/src/util/h2/buffer/window.rs] and [settings.rs]).  The sizes
    are [i32]s; an operation that overflows panics.  The theorems: what a WINDOW_UPDATE
    grants, that it brings the peer's view back to the client's, and for which sizes
    the test that decides whether to send one overflows. *)
From S2P Require Import Prelude H2Error H2Frame.

Definition is_i32 (z : Z) : Prop := - 2 ^ 31 ≤ z < 2 ^ 31.
(** [z as i32], for a [u32]. *)
Definition as_i32 (z : Z) : Z := let w := z mod 2 ^ 32 in if w <? 2 ^ 31 then w else w - 2 ^ 32.
Definition in_i32 (z : Z) : bool := (- 2 ^ 31 <=? z) && (z <? 2 ^ 31).
(** The result of an arithmetic operation on [i32] or [u32]. *)
Definition i32_arith {E} (z : Z) : res E Z := if in_i32 z then Ok z else Panic.
Definition u32_arith {E} (z : Z) : res E Z := if (0 <=? z) && (z <? 2 ^ 32) then Ok z else Panic.

Definition MAX_FLOW_CONTROL_WINDOW : Z := Z.shiftl 1 31 - 1.

Module SendWindow.
Record t := mk { size : Z }.
Definition new (size : Z) : t := mk size.
Definition size_available (w : t) : Z := if size w <? 0 then 0 else as_u32 (size w).
Definition reduce_size {E} (w : t) (n : Z) : res E t := s ← i32_arith (size w - as_i32 n); Ok (mk s).
Definition increase_size (w : t) (n : Z) : res H2Error t :=
  let curr := size w + as_i32 n in
  if negb (in_i32 curr) then Err (ConnectionError FlowControlError)
  else if as_i32 MAX_FLOW_CONTROL_WINDOW <? curr then Err (ConnectionError FlowControlError)
  else Ok (mk curr).
Definition send_data {E} (w : t) (n : Z) : res E t := s ← i32_arith (size w - as_i32 n); Ok (mk s).
End SendWindow.

Module RecvWindow.
Record t := mk { notification : Z; actual : Z }.
Definition new (size : Z) : t := mk size size.
Definition unreleased_size {E} (w : t) : res E (option Z) :=
  unreleased ← i32_arith (actual w - notification w);
  if unreleased <=? 0 then Ok None
  else
    twice ← i32_arith (unreleased * 2);
    Ok (if notification w <? twice then Some (as_u32 unreleased) else None).
Definition actual_size (w : t) : Z := actual w.
Definition notification_available (w : t) : Z := if notification w <? 0 then 0 else as_u32 (notification w).
Definition reduce_actual {E} (w : t) (n : Z) : res E t := a ← i32_arith (actual w - as_i32 n); Ok (mk (notification w) a).
Definition increase_actual {E} (w : t) (n : Z) : res E t :=
  a ← i32_arith (actual w + as_i32 n); Ok (mk (notification w) a).
Definition reduce_notification {E} (w : t) (n : Z) : res E t :=
  s ← i32_arith (notification w - as_i32 n); Ok (mk s (actual w)).
Definition increase_notification {E} (w : t) (n : Z) : res E t :=
  s ← i32_arith (notification w + as_i32 n); Ok (mk s (actual w)).
Definition check_window_update {E} (w : t) (id : Z) : res E (option Frame.t * t) :=
  o ← unreleased_size w;
  match o with
  | Some size =>
      w ← increase_notification w size;
      Ok (Some (Frame.mk id 0 (Payload.WindowUpdate size)), w)
  | None => Ok (None, w)
  end.
Definition recv_data {E} (w : t) (n : Z) : res E t := s ← i32_arith (notification w - as_i32 n); Ok (mk s (actual w)).
End RecvWindow.

Module FlowControl.
Record t := mk { recv_window : RecvWindow.t; send_window : SendWindow.t }.
Definition new (conn_recv_window conn_send_window : Z) : t :=
  mk (RecvWindow.new (as_i32 conn_recv_window)) (SendWindow.new (as_i32 conn_send_window)).
Definition check_conn_recv_window_update {E} (f : t) : res E (option Frame.t * t) :=
  '(o, w) ← RecvWindow.check_window_update (recv_window f) 0; Ok (o, mk w (send_window f)).
Definition setup_recv_window {E} (f : t) (size : Z) : res E t :=
  let actual := as_u32 (RecvWindow.actual_size (recv_window f)) in
  w ← (if actual <? size then RecvWindow.increase_actual (recv_window f) (size - actual)
       else RecvWindow.reduce_actual (recv_window f) (actual - size));
  Ok (mk w (send_window f)).
Definition increase_send_size (f : t) (n : Z) : res H2Error t :=
  w ← SendWindow.increase_size (send_window f) n; Ok (mk (recv_window f) w).
Definition send_size_available (f : t) : Z := SendWindow.size_available (send_window f).
Definition recv_notification_size_available (f : t) : Z := RecvWindow.notification_available (recv_window f).
Definition send_data {E} (f : t) (n : Z) : res E t :=
  w ← SendWindow.send_data (send_window f) n; Ok (mk (recv_window f) w).
Definition recv_data {E} (f : t) (n : Z) : res E t :=
  w ← RecvWindow.recv_data (recv_window f) n; Ok (mk w (send_window f)).
End FlowControl.

(** * Arithmetic *)

Lemma as_i32_small z : 0 ≤ z < 2 ^ 31 → as_i32 z = z.
Proof.
  intros H. unfold as_i32. change (2 ^ 31) with 2147483648 in *. change (2 ^ 32) with 4294967296.
  rewrite Z.mod_small by lia. cbv zeta. by rewrite (proj2 (Z.ltb_lt _ _)) by lia.
Qed.

Lemma as_u32_small z : 0 ≤ z < 2 ^ 32 → as_u32 z = z.
Proof. intros H. unfold as_u32. by rewrite Z.mod_small. Qed.

Lemma i32_arith_ok {E} z : is_i32 z → i32_arith (E := E) z = Ok z.
Proof.
  unfold is_i32, i32_arith, in_i32. intros H.
  by rewrite (proj2 (Z.leb_le _ _)), (proj2 (Z.ltb_lt _ _)) by lia.
Qed.

Lemma u32_arith_ok {E} z : is_u32 z → u32_arith (E := E) z = Ok z.
Proof. unfold is_u32, u32_arith. intros H. by rewrite (proj2 (Z.leb_le _ _)), (proj2 (Z.ltb_lt _ _)) by lia. Qed.

Lemma i32_arith_inv {E} z y : i32_arith (E := E) z = Ok y → y = z ∧ is_i32 z.
Proof.
  unfold i32_arith, in_i32, is_i32. destruct (_ && _) eqn:H; [|done]. intros [= <-]. zbool. lia.
Qed.

Lemma size_available_spec w : is_i32 (SendWindow.size w) → SendWindow.size_available w = Z.max 0 (SendWindow.size w).
Proof.
  unfold SendWindow.size_available, is_i32. intros H. destruct (Z.ltb_spec (SendWindow.size w) 0); [lia|].
  rewrite as_u32_small by lia. lia.
Qed.

(** * Theorems *)

(** The WINDOW_UPDATE of a receive window: for a window below 2^30, a frame is
    sent exactly when the peer may send less than two thirds of the window; its
    increment is from 1 to 2^31 - 1, and after it the peer's view of the window is
    the client's again. *)
Theorem window_update_restores (w : RecvWindow.t) id :
  0 ≤ RecvWindow.notification w < 2 ^ 31 → 0 ≤ RecvWindow.actual w < 2 ^ 30 →
  RecvWindow.check_window_update (E := H2Error) w id =
    (let unreleased := RecvWindow.actual w - RecvWindow.notification w in
     Ok (if 3 * RecvWindow.notification w <? 2 * RecvWindow.actual w
         then (Some (Frame.mk id 0 (Payload.WindowUpdate unreleased)), RecvWindow.new (RecvWindow.actual w))
         else (None, w)))
  ∧ ∀ inc w', RecvWindow.check_window_update (E := H2Error) w id =
      Ok (Some (Frame.mk id 0 (Payload.WindowUpdate inc)), w') → 1 ≤ inc < 2 ^ 31.
Proof.
  destruct w as [n a]. cbn [RecvWindow.notification RecvWindow.actual]. intros Hn Ha.
  change (2 ^ 31) with 2147483648 in *. change (2 ^ 30) with 1073741824 in *.
  assert (He : RecvWindow.check_window_update (E := H2Error) (RecvWindow.mk n a) id =
    Ok (if 3 * n <? 2 * a then (Some (Frame.mk id 0 (Payload.WindowUpdate (a - n))), RecvWindow.new a)
        else (None, RecvWindow.mk n a))).
  { unfold RecvWindow.check_window_update, RecvWindow.unreleased_size. cbn [RecvWindow.notification RecvWindow.actual].
    assert (Hi : ∀ z, - 2147483648 ≤ z < 2147483648 → is_i32 z) by (unfold is_i32; lia).
    rewrite i32_arith_ok by (apply Hi; lia). cbn [mbind res_bind].
    destruct (Z.leb_spec (a - n) 0); cbn [mbind res_bind].
    - by rewrite (proj2 (Z.ltb_ge _ _)) by lia.
    - rewrite i32_arith_ok by (apply Hi; lia). cbn [mbind res_bind].
      destruct (Z.ltb_spec n ((a - n) * 2)), (Z.ltb_spec (3 * n) (2 * a)); try lia; [|done].
      rewrite as_u32_small by (change (2 ^ 32) with 4294967296; lia).
      unfold RecvWindow.increase_notification. cbn [RecvWindow.notification RecvWindow.actual].
      rewrite as_i32_small by (change (2 ^ 31) with 2147483648; lia).
      rewrite i32_arith_ok by (apply Hi; lia). cbn [mbind res_bind]. unfold RecvWindow.new.
      by replace (n + (a - n)) with a by lia. }
  split; [done|]. intros inc w'. rewrite He. destruct (Z.ltb_spec (3 * n) (2 * a)); [|done].
  intros [= <- _]. lia.
Qed.

Lemma window_update_restores_witness :
  RecvWindow.check_window_update (E := H2Error) (RecvWindow.mk 50 100) 1 =
    Ok (Some (Frame.mk 1 0 (Payload.WindowUpdate 50)), RecvWindow.mk 100 100).
Proof.
  exact (proj1 (window_update_restores (RecvWindow.mk 50 100) 1 ltac:(simpl; lia) ltac:(simpl; lia))).
Defined.

(** A connection window of more than 2^30 bytes beyond the initial one: the test
    for the first WINDOW_UPDATE overflows. *)
Lemma large_conn_window_overflows size :
  2 ^ 30 + 65535 ≤ size < 2 ^ 31 →
  (f ← FlowControl.setup_recv_window (FlowControl.new 65535 65535) size;
   FlowControl.check_conn_recv_window_update f) = Panic (E := H2Error).
Proof.
  change (2 ^ 30) with 1073741824. intros H. unfold FlowControl.setup_recv_window.
  change (as_u32 (RecvWindow.actual_size (FlowControl.recv_window (FlowControl.new 65535 65535)))) with 65535.
  rewrite (proj2 (Z.ltb_lt _ _)) by lia. unfold RecvWindow.increase_actual.
  change (2 ^ 31) with 2147483648 in H. rewrite as_i32_small by (change (2 ^ 31) with 2147483648; lia).
  change (RecvWindow.actual _) with 65535. change (RecvWindow.notification _) with 65535.
  assert (Hi : ∀ z, - 2147483648 ≤ z < 2147483648 → is_i32 z) by (unfold is_i32; lia).
  rewrite i32_arith_ok by (apply Hi; lia). cbn [mbind res_bind].
  unfold FlowControl.check_conn_recv_window_update, RecvWindow.check_window_update, RecvWindow.unreleased_size.
  cbn [FlowControl.recv_window RecvWindow.actual RecvWindow.notification].
  rewrite i32_arith_ok by (apply Hi; lia). cbn [mbind res_bind].
  destruct (Z.leb_spec (65535 + (size - 65535) - 65535) 0); [lia|].
  unfold i32_arith, in_i32. change (2 ^ 31) with 2147483648.
  rewrite (proj2 (Z.ltb_ge ((65535 + (size - 65535) - 65535) * 2) 2147483648)) by lia.
  by rewrite andb_false_r.
Qed.
