(* ===== verification/H2Streams.v ===== *)
(** The streams of a client connection ([ylong_http_client/src/util/h2/streams.rs]):
    the state of each stream, the queues of the streams that wait for a slot, for a
    window or for their turn, and the operations that frames and requests call.
    Maps are [gmap]s; the order in which a [HashMap] or a [HashSet] is walked is a
    parameter.  The body of a request is the sequence of what polling it will
    return. *)
From S2P Require Import Prelude Buffers H2Error H2Frame H2Window.

Definition u31_max : Z := Z.shiftr (2 ^ 32 - 1) 1.
Definition INITIAL_MAX_SEND_STREAM_ID : Z := u31_max.
Definition INITIAL_MAX_RECV_STREAM_ID : Z := u31_max.
Definition DEFAULT_MAX_STREAM_ID : Z := u31_max.
Definition INITIAL_LATEST_REMOTE_ID : Z := 0.
Definition DEFAULT_MAX_CONCURRENT_STREAMS : Z := 100.
Definition DEFAULT_MAX_FRAME_SIZE : Z := 16 * 1024.

Inductive FrameRecvState := RecvOK | RecvIgnore | RecvErr (e : H2Error).
Inductive StreamEndState := EndOK | EndIgnore | EndErr (e : H2Error).
Inductive DataReadState := ReadClosed | ReadPending | ReadReady (f : Frame.t) | ReadFinish (f : Frame.t).

Inductive CloseReason := LocalRst | RemoteRst | RemoteGoAway | LocalGoAway | EndStream.
Inductive ActiveState := WaitHeaders | WaitData.
Inductive H2StreamState :=
| Idle
| Open (send recv : ActiveState)
| ReservedRemote
| LocalHalfClosed (recv : ActiveState)
| RemoteHalfClosed (send : ActiveState)
| Closed (reason : CloseReason).

#[export] Instance close_reason_eq_dec : EqDecision CloseReason.
Proof. solve_decision. Defined.
#[export] Instance active_state_eq_dec : EqDecision ActiveState.
Proof. solve_decision. Defined.
#[export] Instance stream_state_eq_dec : EqDecision H2StreamState.
Proof. solve_decision. Defined.

(** What polling a body will return, one event a poll; after the last one, the end
    of the body.  [BRead] holds the bytes ready, of which a poll takes what fits. *)
Inductive body_event := BPending | BFail | BRead (b : bytes).
Inductive poll (A : Type) := PReady (a : A) | PPending.
Arguments PReady {A} a.
Arguments PPending {A}.

(** [BodyDataRef]; [clear] drops the body. *)
Module BodyDataRef.
Record t := mk { body : option (list body_event) }.
Definition clear (d : t) : t := mk None.
Definition poll_read (d : t) (cap : Z) : poll (option bytes) * t :=
  match body d with
  | None => (PReady (Some []), d)
  | Some [] => (PReady (Some []), d)
  | Some (BPending :: es) => (PPending, mk (Some es))
  | Some (BFail :: es) => (PReady None, mk (Some es))
  | Some (BRead b :: es) =>
      if len b <=? cap then (PReady (Some b), mk (Some es))
      else (PReady (Some (upto cap b)), mk (Some (BRead (from cap b) :: es)))
  end.
End BodyDataRef.

Module Stream.
Record t := mk {
  recv_window : RecvWindow.t;
  send_window : SendWindow.t;
  state : H2StreamState;
  header : option Frame.t;
  data : BodyDataRef.t;
}.
Definition new (rw : RecvWindow.t) (sw : SendWindow.t) (headers : Frame.t) (data : BodyDataRef.t) : t :=
  mk rw sw Idle (Some headers) data.
Definition set_state (s : t) (st : H2StreamState) : t := mk (recv_window s) (send_window s) st (header s) (data s).
Definition set_send (s : t) (w : SendWindow.t) : t := mk (recv_window s) w (state s) (header s) (data s).
Definition set_recv (s : t) (w : RecvWindow.t) : t := mk w (send_window s) (state s) (header s) (data s).
Definition set_data (s : t) (d : BodyDataRef.t) : t := mk (recv_window s) (send_window s) (state s) (header s) d.
Definition take_header (s : t) : t := mk (recv_window s) (send_window s) (state s) None (data s).
(** The state, with the request dropped. *)
Definition close (s : t) (r : CloseReason) : t :=
  mk (recv_window s) (send_window s) (Closed r) None (BodyDataRef.clear (data s)).
Definition is_init_or_active_flow_control (s : t) : bool :=
  match state s with
  | Idle | Open _ WaitData | LocalHalfClosed WaitData => true
  | _ => false
  end.
Definition is_closed (s : t) : bool := match state s with Closed _ => true | _ => false end.
End Stream.

Module Streams.
Record t := mk {
  max_send_id : Z;
  max_recv_id : Z;
  latest_remote_id : Z;
  stream_recv_window_size : Z;
  stream_send_window_size : Z;
  max_concurrent_streams : Z;
  current_concurrent_streams : Z;
  flow_control : FlowControl.t;
  pending_concurrency : list Z;
  pending_stream_window : gset Z;
  pending_conn_window : list Z;
  pending_send : list Z;
  window_updating_streams : list Z;
  stream_map : gmap Z Stream.t;
  next_stream_id : Z;
}.

Definition new (recv_window_size send_window_size : Z) (f : FlowControl.t) : t :=
  mk INITIAL_MAX_SEND_STREAM_ID INITIAL_MAX_RECV_STREAM_ID INITIAL_LATEST_REMOTE_ID recv_window_size send_window_size
    DEFAULT_MAX_CONCURRENT_STREAMS 0 f [] ∅ [] [] [] ∅ 1.

(** ** Assignments to a field *)

Definition set_map (s : t) (m : gmap Z Stream.t) : t :=
  mk (max_send_id s) (max_recv_id s) (latest_remote_id s) (stream_recv_window_size s) (stream_send_window_size s)
    (max_concurrent_streams s) (current_concurrent_streams s) (flow_control s) (pending_concurrency s)
    (pending_stream_window s) (pending_conn_window s) (pending_send s) (window_updating_streams s) m (next_stream_id s).
Definition set_current (s : t) (n : Z) : t :=
  mk (max_send_id s) (max_recv_id s) (latest_remote_id s) (stream_recv_window_size s) (stream_send_window_size s)
    (max_concurrent_streams s) n (flow_control s) (pending_concurrency s)
    (pending_stream_window s) (pending_conn_window s) (pending_send s) (window_updating_streams s) (stream_map s)
    (next_stream_id s).
Definition set_max_concurrent (s : t) (n : Z) : t :=
  mk (max_send_id s) (max_recv_id s) (latest_remote_id s) (stream_recv_window_size s) (stream_send_window_size s)
    n (current_concurrent_streams s) (flow_control s) (pending_concurrency s)
    (pending_stream_window s) (pending_conn_window s) (pending_send s) (window_updating_streams s) (stream_map s)
    (next_stream_id s).
Definition set_flow (s : t) (f : FlowControl.t) : t :=
  mk (max_send_id s) (max_recv_id s) (latest_remote_id s) (stream_recv_window_size s) (stream_send_window_size s)
    (max_concurrent_streams s) (current_concurrent_streams s) f (pending_concurrency s)
    (pending_stream_window s) (pending_conn_window s) (pending_send s) (window_updating_streams s) (stream_map s)
    (next_stream_id s).
Definition set_queues (s : t) (conc : list Z) (sw : gset Z) (cw send : list Z) : t :=
  mk (max_send_id s) (max_recv_id s) (latest_remote_id s) (stream_recv_window_size s) (stream_send_window_size s)
    (max_concurrent_streams s) (current_concurrent_streams s) (flow_control s) conc sw cw send
    (window_updating_streams s) (stream_map s) (next_stream_id s).
Definition set_sizes (s : t) (recv send : Z) : t :=
  mk (max_send_id s) (max_recv_id s) (latest_remote_id s) recv send
    (max_concurrent_streams s) (current_concurrent_streams s) (flow_control s) (pending_concurrency s)
    (pending_stream_window s) (pending_conn_window s) (pending_send s) (window_updating_streams s) (stream_map s)
    (next_stream_id s).
Definition set_next (s : t) (n : Z) : t :=
  mk (max_send_id s) (max_recv_id s) (latest_remote_id s) (stream_recv_window_size s) (stream_send_window_size s)
    (max_concurrent_streams s) (current_concurrent_streams s) (flow_control s) (pending_concurrency s)
    (pending_stream_window s) (pending_conn_window s) (pending_send s) (window_updating_streams s) (stream_map s) n.
Definition set_stream (s : t) (id : Z) (st : Stream.t) : t := set_map s (<[id := st]> (stream_map s)).

Abbreviation m := (M t H2Error).

(** ** Concurrency *)

Definition decrease_current_concurrency : m () := mstate (λ s,
  match u32_arith (E := H2Error) (current_concurrent_streams s - 1) with
  | Ok n => (Ok (), set_current s n) | _ => (Panic, s)
  end).
Definition increase_current_concurrency : m () := mstate (λ s,
  match u32_arith (E := H2Error) (current_concurrent_streams s + 1) with
  | Ok n => (Ok (), set_current s n) | _ => (Panic, s)
  end).
Definition reach_max_concurrency (s : t) : bool := max_concurrent_streams s <=? current_concurrent_streams s.
Definition apply_max_concurrent_streams (n : Z) : m () := mmodify (λ s, set_max_concurrent s n).

(** A method applied to the elements of a collection, in the order they are walked. *)
Fixpoint for_each {A} (f : A → m ()) (l : list A) : m () :=
  match l with [] => mret () | x :: l => _ ← f x; for_each f l end.

(** An update of a stream of the map by a fallible function. *)
Definition with_stream (id : Z) (f : Stream.t → res H2Error Stream.t) : m () := mstate (λ s,
  match stream_map s !! id with
  | Some st => match f st with
               | Ok st => (Ok (), set_stream s id st) | Err e => (Err e, s) | Panic => (Panic, s)
               end
  | None => (Ok (), s)
  end).

(** ** Initial window sizes *)

Section Order.
Context (iter_streams : gmap Z Stream.t → list Z) (iter_ids : gset Z → list Z).

Definition apply_send_initial_window_size (size : Z) : m () :=
  current ← mgets stream_send_window_size;
  _ ← mmodify (λ s, set_sizes s (stream_recv_window_size s) size);
  ids ← mgets (λ s, iter_streams (stream_map s));
  if current <? size then
    let excess := size - current in
    _ ← for_each (λ id, with_stream id (λ st,
          w ← SendWindow.increase_size (Stream.send_window st) excess; Ok (Stream.set_send st w))) ids;
    mmodify (λ s, set_queues s (pending_concurrency s) ∅ (pending_conn_window s)
                    (pending_send s ++ iter_ids (pending_stream_window s)))
  else if size <? current then
    let excess := current - size in
    for_each (λ id, with_stream id (λ st,
      w ← SendWindow.reduce_size (Stream.send_window st) excess; Ok (Stream.set_send st w))) ids
  else mret ().

Definition apply_recv_initial_window_size (size : Z) : m () :=
  current ← mgets stream_recv_window_size;
  _ ← mmodify (λ s, set_sizes s size (stream_send_window_size s));
  ids ← mgets (λ s, iter_streams (stream_map s));
  if current <? size then
    for_each (λ id, with_stream id (λ st,
      let extra := size - current in
      w ← RecvWindow.increase_notification (Stream.recv_window st) extra;
      w ← RecvWindow.increase_actual w extra;
      Ok (Stream.set_recv st w))) ids
  else if size <? current then
    for_each (λ id, with_stream id (λ st,
      w ← RecvWindow.reduce_notification (Stream.recv_window st) (current - size);
      Ok (Stream.set_recv st w))) ids
  else mret ().

(** ** Going away *)

Definition get_unset_streams (last_stream_id : Z) : m (list Z) :=
  ids ← mgets (λ s, iter_streams (stream_map s));
  let ids := List.filter (λ id, last_stream_id <? id) ids in
  _ ← for_each (λ id, mstate (λ s,
        match stream_map s !! id with
        | Some st =>
            match Stream.state st with
            | Closed _ => (Ok (), s)
            | Idle => (Ok (), set_stream s id (Stream.close st RemoteGoAway))
            | _ => match u32_arith (E := H2Error) (current_concurrent_streams s - 1) with
                   | Ok n => (Ok (), set_stream (set_current s n) id (Stream.close st RemoteGoAway))
                   | _ => (Panic, s)
                   end
            end
        | None => (Ok (), s)
        end)) ids;
  mret ids.

Definition get_all_unclosed_streams : m (list Z) :=
  s ← mget;
  let ids := List.filter (λ id, match stream_map s !! id with
                                | Some st => negb (Stream.is_closed st) | None => false end)
               (iter_streams (stream_map s)) in
  _ ← for_each (λ id, with_stream id (λ st, Ok (Stream.close st LocalGoAway))) ids;
  mret ids.
End Order.

Definition clear_streams_states : m () := mmodify (λ s,
  let s := set_queues s [] ∅ [] [] in
  mk (max_send_id s) (max_recv_id s) (latest_remote_id s) (stream_recv_window_size s) (stream_send_window_size s)
    (max_concurrent_streams s) (current_concurrent_streams s) (flow_control s) (pending_concurrency s)
    (pending_stream_window s) (pending_conn_window s) (pending_send s) [] (stream_map s) (next_stream_id s)).

Definition is_closed (s : t) : bool := forallb (λ p, Stream.is_closed p.2) (map_to_list (stream_map s)).
Definition stream_state (s : t) (id : Z) : option H2StreamState := Stream.state <$> stream_map s !! id.

(** ** Queues *)

Definition insert (id : Z) (headers : Frame.t) (data : BodyDataRef.t) : m () := mmodify (λ s,
  set_stream s id (Stream.new (RecvWindow.new (as_i32 (stream_recv_window_size s)))
    (SendWindow.new (as_i32 (stream_send_window_size s))) headers data)).

Definition push_back_pending_send (id : Z) : m () := mmodify (λ s,
  set_queues s (pending_concurrency s) (pending_stream_window s) (pending_conn_window s) (pending_send s ++ [id])).
Definition push_pending_concurrency (id : Z) : m () := mmodify (λ s,
  set_queues s (pending_concurrency s ++ [id]) (pending_stream_window s) (pending_conn_window s) (pending_send s)).
Definition is_pending_concurrency_empty (s : t) : bool := bool_decide (pending_concurrency s = []).
Definition next_pending_stream : m (option Z) := mstate (λ s,
  match pending_send s with
  | [] => (Ok None, s)
  | id :: q => (Ok (Some id),
      set_queues s (pending_concurrency s) (pending_stream_window s) (pending_conn_window s) q)
  end).
Definition pending_stream_num (s : t) : Z := len (pending_send s).

(** [while !self.reach_max_concurrency()]; a turn takes an element off the queue. *)
Definition consume_turn : m (option ()) :=
  full ← mgets reach_max_concurrency;
  if full : bool then mret (Some ())
  else
    q ← mgets pending_concurrency;
    match q with
    | [] => mret (Some ())
    | id :: q =>
        _ ← mmodify (λ s, set_queues s q (pending_stream_window s) (pending_conn_window s) (pending_send s));
        _ ← increase_current_concurrency;
        _ ← push_back_pending_send id;
        mret None
    end.
Definition try_consume_pending_concurrency : m () :=
  q ← mgets pending_concurrency; loop consume_turn (S (length q)).

(** ** Send windows *)

Definition increase_conn_send_window (size : Z) : m () := mstate (λ s,
  match FlowControl.increase_send_size (flow_control s) size with
  | Ok f => (Ok (), set_flow s f) | Err e => (Err e, s) | Panic => (Panic, s)
  end).
Definition reassign_conn_send_window : m () := mmodify (λ s,
  set_queues s (pending_concurrency s) (pending_stream_window s) [] (pending_send s ++ pending_conn_window s)).
Definition reassign_stream_send_window (id size : Z) : m () :=
  _ ← with_stream id (λ st,
        w ← SendWindow.increase_size (Stream.send_window st) size; Ok (Stream.set_send st w));
  mmodify (λ s,
    if decide (id ∈ pending_stream_window s) then
      set_queues s (pending_concurrency s) (pending_stream_window s ∖ {[ id ]}) (pending_conn_window s)
        (pending_send s ++ [id])
    else s).

(** ** Requests *)

Definition headers (id : Z) : m (option Frame.t) := mstate (λ s,
  match stream_map s !! id with
  | None => (Err (ConnectionError IntervalError), s)
  | Some st =>
      if Stream.is_closed st then (Ok None, s)
      else (Ok (Stream.header st), set_stream s id (Stream.take_header st))
  end).

(** The DATA frames of a body. *)
Definition data_frame (id : Z) (b : bytes) : Frame.t := Frame.mk id 0 (Payload.Data b).
Definition last_data_frame (id : Z) : Frame.t :=
  Frame.mk id (FrameFlags.set_end_stream 1 true) (Payload.Data []).

Definition poll_sized_data (id cap : Z) : m DataReadState := mstate (λ s,
  match stream_map s !! id with
  | None => (Err (ConnectionError IntervalError), s)
  | Some st =>
      let '(p, d) := BodyDataRef.poll_read (Stream.data st) cap in
      let st := Stream.set_data st d in
      match p with
      | PReady (Some b) =>
          if 0 <? len b then
            match SendWindow.send_data (E := H2Error) (Stream.send_window st) (len b),
                  FlowControl.send_data (E := H2Error) (flow_control s) (len b) with
            | Ok w, Ok f =>
                (Ok (ReadReady (data_frame id b)), set_flow (set_stream s id (Stream.set_send st w)) f)
            | _, _ => (Panic, set_stream s id st)
            end
          else (Ok (ReadFinish (last_data_frame id)), set_stream s id st)
      | PReady None => (Err (StreamError id IntervalError), set_stream s id st)
      | PPending => (_ ← push_back_pending_send id; mret ReadPending) (set_stream s id st)
      end
  end).

Definition poll_read_body (id : Z) : m DataReadState := mstate (λ s,
  match stream_map s !! id with
  | None => (Err (ConnectionError IntervalError), s)
  | Some st =>
      if Stream.is_closed st then (Ok ReadClosed, s)
      else
        let stream_send_vacant := SendWindow.size_available (Stream.send_window st) in
        if stream_send_vacant =? 0 then
          (Ok ReadPending, set_queues s (pending_concurrency s) (pending_stream_window s ∪ {[ id ]})
             (pending_conn_window s) (pending_send s))
        else
          let conn_send_vacant := FlowControl.send_size_available (flow_control s) in
          if conn_send_vacant =? 0 then
            (Ok ReadPending, set_queues s (pending_concurrency s) (pending_stream_window s)
               (pending_conn_window s ++ [id]) (pending_send s))
          else
            let available := Z.min stream_send_vacant conn_send_vacant in
            poll_sized_data id (Z.min available DEFAULT_MAX_FRAME_SIZE) s
  end).

(** ** Frames *)

Definition protocol_error : H2Error := ConnectionError ProtocolError.

Definition send_local_reset (id : Z) : m StreamEndState := mstate (λ s,
  match stream_map s !! id with
  | None => (Ok (EndErr protocol_error), s)
  | Some st =>
      match Stream.state st with
      | Closed (LocalRst | LocalGoAway | RemoteRst | RemoteGoAway) => (Ok EndIgnore, s)
      | Closed EndStream => (Ok EndIgnore, set_stream s id (Stream.set_state st (Closed LocalRst)))
      | _ => (_ ← decrease_current_concurrency; mret EndOK) (set_stream s id (Stream.close st LocalRst))
      end
  end).

(** The new state of a stream, and whether it frees a slot; [None] is an error. *)
Definition step (id : Z) (next : H2StreamState → option (H2StreamState * bool)) : m FrameRecvState := mstate (λ s,
  match stream_map s !! id with
  | None => (Ok (RecvErr protocol_error), s)
  | Some st =>
      match next (Stream.state st) with
      | None => (Ok (RecvErr protocol_error), s)
      | Some (state, frees) =>
          let s := set_stream s id (Stream.set_state st state) in
          if frees then (_ ← decrease_current_concurrency; mret RecvOK) s else (Ok RecvOK, s)
      end
  end).

Definition send_headers_frame (id : Z) (eos : bool) : m FrameRecvState :=
  step id (λ st,
    match st with
    | Idle => Some (if eos then LocalHalfClosed WaitHeaders else Open WaitData WaitHeaders, false)
    | Open WaitHeaders recv => Some (if eos then LocalHalfClosed recv else Open WaitData recv, false)
    | RemoteHalfClosed WaitHeaders => Some (if eos then Closed EndStream else RemoteHalfClosed WaitData, eos)
    | _ => None
    end).

Definition send_data_frame (id : Z) (eos : bool) : m FrameRecvState :=
  step id (λ st,
    match st with
    | Open WaitData recv => Some (if eos then LocalHalfClosed recv else st, false)
    | RemoteHalfClosed WaitData => Some (if eos then Closed EndStream else st, eos)
    | _ => None
    end).

Definition recv_remote_reset (id : Z) : m StreamEndState := mstate (λ s,
  if max_recv_id s <? id then (Ok EndIgnore, s)
  else match stream_map s !! id with
  | None => (Ok (EndErr protocol_error), s)
  | Some st =>
      if Stream.is_closed st then (Ok EndIgnore, s)
      else (_ ← decrease_current_concurrency; mret EndOK) (set_stream s id (Stream.close st RemoteRst))
  end).

(** The streams whose frames are ignored: the client closed them. *)
Definition locally_closed (s : t) (id : Z) : bool :=
  match Stream.state <$> stream_map s !! id with
  | Some (Closed (LocalGoAway | LocalRst)) => true
  | _ => false
  end.

Definition recv_headers (id : Z) (eos : bool) : m FrameRecvState := mstate (λ s,
  if max_recv_id s <? id then (Ok RecvIgnore, s)
  else if locally_closed s id then (Ok RecvIgnore, s)
  else step id (λ st,
    match st with
    | Idle => Some (if eos then RemoteHalfClosed WaitHeaders else Open WaitHeaders WaitData, false)
    | ReservedRemote => Some (if eos then Closed EndStream else LocalHalfClosed WaitData, eos)
    | Open send WaitHeaders => Some (if eos then RemoteHalfClosed send else Open send WaitData, false)
    | LocalHalfClosed WaitHeaders => Some (if eos then Closed EndStream else LocalHalfClosed WaitData, eos)
    | _ => None
    end) s).

Definition recv_data (id : Z) (eos : bool) : m FrameRecvState := mstate (λ s,
  if max_recv_id s <? id then (Ok RecvIgnore, s)
  else if locally_closed s id then (Ok RecvIgnore, s)
  else step id (λ st,
    match st with
    | Open send WaitData => Some (if eos then RemoteHalfClosed send else st, false)
    | LocalHalfClosed WaitData => Some (if eos then Closed EndStream else st, eos)
    | _ => None
    end) s).

Definition generate_id : m Z := mstate (λ s,
  let id := next_stream_id s in
  if id <? DEFAULT_MAX_STREAM_ID then
    match u32_arith (E := H2Error) (id + 2) with Ok n => (Ok id, set_next s n) | _ => (Panic, s) end
  else (Err protocol_error, s)).
End Streams.
