(* ===== verification/H2Lifecycle.v ===== *)
(** The life of a stream against RFC 9113, 5.1: an abstract machine with the states
    and edges of the figure that [streams.rs] shows in a comment, and the operations of
    [streams.rs] that a frame sent or received calls.  An operation that accepts a frame
    follows a path of the figure on that stream and touches no other, or resets an idle
    stream, which the figure does not have; one that refuses or ignores it leaves the
    state of every stream; the slots in use drop exactly when a stream closes. *)
From S2P Require Import Prelude Buffers H2Error H2Frame H2Window H2Streams.

(** ** The RFC *)

(** What a direction of a message waits for: its HEADERS, or DATA behind them. *)
Inductive phase := Head | Body.
Inductive rfc_state :=
| RIdle | ROpen (out in_ : phase) | RReservedRemote
| RHalfLocal (in_ : phase) | RHalfRemote (out : phase) | RClosed.
Inductive dir := Out | In.
(** The labels of the figure: H (HEADERS), ES (the flag END_STREAM), R (RST_STREAM);
    and D (DATA), which the text of 5.1 allows while a direction is open. *)
Inductive label := H | D | ES | R.

(** The transitions of the figure of RFC 9113, 5.1, which is the comment above
    [H2StreamState] in [streams.rs], and the frames that leave a stream in its state:
    HEADERS in an open direction (the first ones, or trailers), DATA behind them. *)
Inductive edge : rfc_state → dir → label → rfc_state → Prop :=
| idle_send_H : edge RIdle Out H (ROpen Body Head)
| idle_recv_H : edge RIdle In H (ROpen Head Body)
| reserved_recv_H : edge RReservedRemote In H (RHalfLocal Body)
| open_send_ES o i : edge (ROpen o i) Out ES (RHalfLocal i)
| open_recv_ES o i : edge (ROpen o i) In ES (RHalfRemote o)
| half_local_recv_ES i : edge (RHalfLocal i) In ES RClosed
| half_remote_send_ES o : edge (RHalfRemote o) Out ES RClosed
| open_R d o i : edge (ROpen o i) d R RClosed
| reserved_R d : edge RReservedRemote d R RClosed
| half_local_R d i : edge (RHalfLocal i) d R RClosed
| half_remote_R d o : edge (RHalfRemote o) d R RClosed
| open_send_H o i : edge (ROpen o i) Out H (ROpen Body i)
| open_recv_H o i : edge (ROpen o i) In H (ROpen o Body)
| half_local_recv_H i : edge (RHalfLocal i) In H (RHalfLocal Body)
| half_remote_send_H o : edge (RHalfRemote o) Out H (RHalfRemote Body)
| open_send_D i : edge (ROpen Body i) Out D (ROpen Body i)
| open_recv_D o : edge (ROpen o Body) In D (ROpen o Body)
| half_local_recv_D : edge (RHalfLocal Body) In D (RHalfLocal Body)
| half_remote_send_D : edge (RHalfRemote Body) Out D (RHalfRemote Body).

Inductive path : rfc_state → dir → list label → rfc_state → Prop :=
| path_nil s d : path s d [] s
| path_cons s d l s1 ls s2 : edge s d l s1 → path s1 d ls s2 → path s d (l :: ls) s2.
#[local] Hint Constructors edge path : core.

Definition abs_phase (a : ActiveState) : phase := match a with WaitHeaders => Head | WaitData => Body end.
Definition abs (st : H2StreamState) : rfc_state :=
  match st with
  | Idle => RIdle
  | Open send recv => ROpen (abs_phase send) (abs_phase recv)
  | ReservedRemote => RReservedRemote
  | LocalHalfClosed recv => RHalfLocal (abs_phase recv)
  | RemoteHalfClosed send => RHalfRemote (abs_phase send)
  | Closed _ => RClosed
  end.

(** ** The operations *)

Inductive frame_op :=
| SendHeaders (eos : bool) | SendData (eos : bool) | SendReset
| RecvHeaders (eos : bool) | RecvData (eos : bool) | RecvReset.
(** A frame on the figure: its direction and its labels, END_STREAM behind the frame. *)
Definition end_stream (eos : bool) : list label := if eos then [ES] else [].
Definition labels_of (op : frame_op) : dir * list label :=
  match op with
  | SendHeaders eos => (Out, H :: end_stream eos)
  | SendData eos => (Out, D :: end_stream eos)
  | RecvHeaders eos => (In, H :: end_stream eos)
  | RecvData eos => (In, D :: end_stream eos)
  | SendReset => (Out, [R])
  | RecvReset => (In, [R])
  end.

Inductive verdict := Accepted | Ignored | Refused (e : H2Error).
Definition of_recv (r : FrameRecvState) : verdict :=
  match r with RecvOK => Accepted | RecvIgnore => Ignored | RecvErr e => Refused e end.
Definition of_end (r : StreamEndState) : verdict :=
  match r with EndOK => Accepted | EndIgnore => Ignored | EndErr e => Refused e end.

(** What the manager calls for a frame on stream [id]. *)
Definition on_frame (op : frame_op) (id : Z) : Streams.m verdict :=
  match op with
  | SendHeaders eos => r ← Streams.send_headers_frame id eos; mret (of_recv r)
  | SendData eos => r ← Streams.send_data_frame id eos; mret (of_recv r)
  | SendReset => r ← Streams.send_local_reset id; mret (of_end r)
  | RecvHeaders eos => r ← Streams.recv_headers id eos; mret (of_recv r)
  | RecvData eos => r ← Streams.recv_data id eos; mret (of_recv r)
  | RecvReset => r ← Streams.recv_remote_reset id; mret (of_end r)
  end.

(** ** The refinement *)

Definition closes (st st' : H2StreamState) : Z :=
  match abs st, abs st' with RClosed, _ => 0 | _, RClosed => 1 | _, _ => 0 end.
Definition states (s : Streams.t) : gmap Z rfc_state := abs ∘ Stream.state <$> Streams.stream_map s.

(** A reset of a stream that is still idle, as a request is that waits for its turn:
    no edge of the figure, but the code closes the stream. *)
Definition idle_reset (op : frame_op) (st st' : rfc_state) : Prop :=
  st = RIdle ∧ st' = RClosed ∧ (op = SendReset ∨ op = RecvReset).
Definition moves (op : frame_op) (st st' : rfc_state) : Prop :=
  path st (labels_of op).1 (labels_of op).2 st' ∨ idle_reset op st st'.

Definition follows (op : frame_op) (id : Z) (s s' : Streams.t) : Prop :=
  ∃ st st', Streams.stream_map s !! id = Some st ∧
    Streams.stream_map s' = <[id := st']> (Streams.stream_map s) ∧
    moves op (abs (Stream.state st)) (abs (Stream.state st')) ∧
    Streams.current_concurrent_streams s' =
      Streams.current_concurrent_streams s - closes (Stream.state st) (Stream.state st').
Definition rests (s s' : Streams.t) : Prop :=
  states s' = states s ∧ Streams.current_concurrent_streams s' = Streams.current_concurrent_streams s.

(** The outcome of an operation: a panic is an underflow of the slots in use. *)
Definition outcome (op : frame_op) (id : Z) (s : Streams.t) (r : res H2Error verdict * Streams.t) : Prop :=
  match r with
  | (Ok Accepted, s') => follows op id s s'
  | (Ok _, s') => rests s s'
  | (Err _, _) => False
  | (Panic, _) => ¬ 0 < Streams.current_concurrent_streams s ≤ 2 ^ 32
  end.

Lemma rests_refl s : rests s s.
Proof. done. Qed.
#[export] Hint Resolve rests_refl : core.

Lemma close_follows {A} op id s st st' (r : A) v :
  Streams.stream_map s !! id = Some st → closes (Stream.state st) (Stream.state st') = 1 →
  moves op (abs (Stream.state st)) (abs (Stream.state st')) → v r = Accepted →
  outcome op id s ((x ← (_ ← Streams.decrease_current_concurrency; mret r : Streams.m A); mret (v x)) (Streams.set_stream s id st')).
Proof.
  intros Hs Hc He Hv. rewrite !M_bind_eq. unfold Streams.decrease_current_concurrency, mstate, u32_arith. simpl.
  destruct (_ && _) eqn:Hu; simpl; [|lia]. rewrite Hv. exists st, st'. simpl. by rewrite Hc.
Qed.

(** The transitions of a table of [step] that follow the figure. *)
Definition table_ok (op : frame_op) (next : H2StreamState → option (H2StreamState * bool)) : Prop :=
  ∀ st st' k, next st = Some (st', k) → moves op (abs st) (abs st') ∧ closes st st' = if k : bool then 1 else 0.

Lemma step_outcome op id next s :
  table_ok op next → outcome op id s ((r ← Streams.step id next; mret (of_recv r)) s).
Proof.
  intros Ht. rewrite M_bind_eq. unfold Streams.step, mstate.
  destruct (Streams.stream_map s !! id) as [st|] eqn:Hs; [|done].
  destruct (next (Stream.state st)) as [[st' k]|] eqn:Hn; [|done].
  destruct (Ht _ _ _ Hn) as [He Hc]. destruct k.
  - pose proof (close_follows op id s st (Stream.set_state st st') RecvOK of_recv Hs Hc He eq_refl) as Ho.
    by rewrite M_bind_eq in Ho.
  - exists st, (Stream.set_state st st'). simpl. rewrite Hc. split_and!; [done..|lia].
Qed.

(** Each row of a table is a path of the figure. *)
Ltac rows :=
  intros [|[] []| |[]|[]|[]] st' k; simpl; try done; intros [= <- <-];
  (split; [left; simpl; try case_match; simpl; eauto | by case_match]).

Lemma recv_outcome op id s next :
  table_ok op next →
  outcome op id s ((r ← (mstate (λ s, if Streams.max_recv_id s <? id then (Ok RecvIgnore, s)
    else if Streams.locally_closed s id then (Ok RecvIgnore, s) else Streams.step id next s) : Streams.m FrameRecvState);
    mret (of_recv r)) s).
Proof.
  intros Ht. rewrite M_bind_eq. unfold mstate. destruct (_ <? _); [done|].
  destruct (Streams.locally_closed s id); [done|]. pose proof (step_outcome op id next s Ht) as Ho.
  by rewrite M_bind_eq in Ho.
Qed.
Lemma remote_reset_outcome id s :
  outcome RecvReset id s ((r ← Streams.recv_remote_reset id; mret (of_end r)) s).
Proof.
  rewrite M_bind_eq. unfold Streams.recv_remote_reset, mstate. destruct (_ <? _); [done|].
  destruct (Streams.stream_map s !! id) as [st|] eqn:Hs; [|done]. unfold Stream.is_closed.
  destruct (Stream.state st) eqn:Hst; try done;
    (epose proof (close_follows RecvReset id s st (Stream.close st RemoteRst) EndOK of_end Hs) as Ho;
     rewrite M_bind_eq, Hst in Ho; apply Ho; [done| |done]; first [by right; split_and!; auto | left; simpl; eauto]).
Qed.
Lemma local_reset_outcome id s :
  outcome SendReset id s ((r ← Streams.send_local_reset id; mret (of_end r)) s).
Proof.
  rewrite M_bind_eq. unfold Streams.send_local_reset, mstate.
  destruct (Streams.stream_map s !! id) as [st|] eqn:Hs; [|done].
  destruct (Stream.state st) as [| | | | |[]] eqn:Hst; try done;
    try (epose proof (close_follows SendReset id s st (Stream.close st LocalRst) EndOK of_end Hs) as Ho;
     rewrite M_bind_eq, Hst in Ho; apply Ho; [done| |done]; first [by right; split_and!; auto | left; simpl; eauto]).
  split; [|done]. unfold states. simpl. rewrite fmap_insert. apply insert_id.
  rewrite lookup_fmap, Hs. simpl. by rewrite Hst.
Qed.


(** ** Examples and defects *)

Definition one_stream (st : H2StreamState) (current : Z) : Streams.t :=
  Streams.set_current (Streams.set_stream (Streams.new 65535 65535 (FlowControl.new 65535 65535)) 1
    (Stream.mk (RecvWindow.new 65535) (SendWindow.new 65535) st None (BodyDataRef.mk None))) current.

(** The end of a response closes the stream and frees its slot. *)
Example response_end_closes :
  on_frame (RecvData true) 1 (one_stream (LocalHalfClosed WaitData) 1) =
    (Ok Accepted, one_stream (Closed EndStream) 0).
Proof. by vm_compute. Qed.
(** DATA in front of the HEADERS of a response has no path in the figure, and the code refuses it. *)
Lemma early_data_refused eos st' :
  ¬ path RIdle In (D :: end_stream eos) st' ∧ ¬ path (RHalfLocal Head) In (D :: end_stream eos) st' ∧
  (on_frame (RecvData eos) 1 (one_stream Idle 1)).1 = Ok (Refused (ConnectionError ProtocolError)) ∧
  (on_frame (RecvData eos) 1 (one_stream (LocalHalfClosed WaitHeaders) 1)).1 =
    Ok (Refused (ConnectionError ProtocolError)).
Proof. split_and!; try done; intros Hp; inversion Hp as [|? ? ? ? ? ? He]; inversion He. Qed.

(** A second HEADERS frame of a response, its trailers or the final response after a
    1xx one, is a path of the figure, but the code refuses it as a connection error. *)
Lemma second_headers_refused eos :
  path (RHalfLocal Body) In (H :: end_stream eos) (if eos then RClosed else RHalfLocal Body) ∧
  (on_frame (RecvHeaders eos) 1 (one_stream (LocalHalfClosed WaitData) 1)).1 =
    Ok (Refused (ConnectionError ProtocolError)).
Proof. split; [destruct eos; simpl; eauto|done]. Qed.

(** A stream that waits for its slot holds none, but a RST_STREAM for it gives one
    back: with no slot in use the count of [u32] underflows. *)
Lemma reset_of_waiting_stream_underflows : (on_frame RecvReset 1 (one_stream Idle 0)).1 = Panic.
Proof. done. Qed.
