(* ===== verification/RateLimit.v ===== *)
(** Limits on the speed of a transfer ([ylong_http_client/src/util/progress/rate_limit.rs]).

    Instants and durations are nanoseconds; a method that asks the clock takes what it says
    as [now].  A [Sleep] is its deadline, and whether its timer has fired at an instant is a
    parameter, [fired].  Numbers of bytes are [u64]: an overflow, a division by zero and a
    negative duration are panics. *)
From S2P Require Import Prelude.

Definition from_millis (n : Z) : Z := n * 1000000.
Definition from_secs (n : Z) : Z := n * 1000000000.
Definition as_secs (d : Z) : Z := d / 1000000000.
Definition SPEED_CHECK_PERIOD : Z := from_millis 1000.
(** "Below low speed limit" *)
Inductive speed_error := BelowLowSpeed.

(** Arithmetic that panics. *)
Definition u64 {E} (z : Z) : res E Z := if (0 <=? z) && (z <? 2 ^ 64) then Ok z else Panic.
Definition div {E} (a b : Z) : res E Z := if b =? 0 then Panic else Ok (a / b).
Definition duration_sub {E} (a b : Z) : res E Z := if a <? b then Panic else Ok (a - b).

Module SpeedLimit.
Record t := mk {
  rate : Z;
  period : Z;
  min_speed_interval : Z;
  min_speed_start : option Z;
  period_data : Z;
  elapsed_time : Z;
  max_speed_allowed_bytes : Z;
  start : option Z;
  delay : option Z;
  timeout : option Z;
}.
Abbreviation m := (M t speed_error).
Definition new (now rate period interval : Z) : res speed_error t :=
  allowed ← u64 (rate * as_secs period);
  Ok (mk rate period interval None 0 0 allowed None None (Some (now + interval))).
Definition set_min_speed_start (s : t) (x : option Z) : t := mk (rate s) (period s) (min_speed_interval s) x (period_data s) (elapsed_time s) (max_speed_allowed_bytes s) (start s) (delay s) (timeout s).
Definition set_period_data (s : t) (x : Z) : t := mk (rate s) (period s) (min_speed_interval s) (min_speed_start s) x (elapsed_time s) (max_speed_allowed_bytes s) (start s) (delay s) (timeout s).
Definition set_elapsed_time (s : t) (x : Z) : t := mk (rate s) (period s) (min_speed_interval s) (min_speed_start s) (period_data s) x (max_speed_allowed_bytes s) (start s) (delay s) (timeout s).
Definition set_start (s : t) (x : option Z) : t := mk (rate s) (period s) (min_speed_interval s) (min_speed_start s) (period_data s) (elapsed_time s) (max_speed_allowed_bytes s) x (delay s) (timeout s).
Definition set_delay (s : t) (x : option Z) : t := mk (rate s) (period s) (min_speed_interval s) (min_speed_start s) (period_data s) (elapsed_time s) (max_speed_allowed_bytes s) (start s) x (timeout s).
Definition set_timeout (s : t) (x : option Z) : t := mk (rate s) (period s) (min_speed_interval s) (min_speed_start s) (period_data s) (elapsed_time s) (max_speed_allowed_bytes s) (start s) (delay s) x.
Definition clone (s : t) : t := mk (rate s) (period s) (min_speed_interval s) None (period_data s) (elapsed_time s) (max_speed_allowed_bytes s) None None None.

Definition init_if_not_start (now : Z) (s : t) : t := match start s with None => set_start s (Some now) | Some _ => s end.
Definition next_period (s : t) : t := set_elapsed_time (set_start (set_period_data s 0) None) 0.
Definition next_interval (s : t) : t := set_min_speed_start s None.
Definition reset_pending_timeout (now : Z) (s : t) : t := set_timeout s (Some (now + min_speed_interval s)).

(** [self.elapsed_time += start_time.elapsed(); self.period_data += data_size as u64] *)
Definition add_elapsed (now start_time : Z) : m () := mmodify (λ s, set_elapsed_time s (elapsed_time s + (now - start_time))).
Definition add_data (data_size : Z) : m () := d ← mgets period_data; n ← mlift (u64 (d + data_size)); mmodify (λ s, set_period_data s n).
(** [Duration::from_millis(self.period_data * 1000 / self.rate)] *)
Definition limited_time : m Z :=
  d ← mgets period_data; r ← mgets rate; n ← mlift (u64 (d * 1000)); ms ← mlift (div n r); mret (from_millis ms).
Definition delay_for (now limited : Z) : m () :=
  e ← mgets elapsed_time; d ← mlift (duration_sub limited e); mmodify (λ s, set_delay s (Some (now + d))).
Definition delay_max_speed_limit (now data_size : Z) : m () :=
  st ← mgets start;
  match st with
  | None => mret ()
  | Some start_time =>
      _ ← mmodify (λ s, set_start s None);
      _ ← add_elapsed now start_time;
      _ ← add_data data_size;
      s ← mget;
      if elapsed_time s <? period s then
        if max_speed_allowed_bytes s <=? period_data s then limited ← limited_time; delay_for now limited else mret ()
      else
        limited ← limited_time;
        if elapsed_time s <? limited then delay_for now limited else mmodify next_period
  end.
(** The asynchronous form, up to its [await]: the deadline it sleeps to, if it sleeps;
    [next_period] is what it does when it wakes. *)
Definition limit_max_speed (now data_size : Z) : m (option Z) :=
  st ← mgets start;
  match st with
  | None => mret None
  | Some start_time =>
      _ ← mmodify (λ s, set_start s None);
      _ ← add_elapsed now start_time;
      _ ← add_data data_size;
      s ← mget;
      if elapsed_time s <? period s then
        if max_speed_allowed_bytes s <=? period_data s then
          limited ← limited_time; d ← mlift (duration_sub limited (elapsed_time s)); mret (Some (now + d))
        else mret None
      else
        limited ← limited_time;
        if elapsed_time s <? limited then d ← mlift (duration_sub limited (elapsed_time s)); mret (Some (now + d))
        else _ ← mmodify next_period; mret None
  end.
Definition check_min_speed (now data_size : Z) : m () :=
  _ ← add_data data_size;
  limited ← limited_time;
  s ← mget;
  _ ← (if limited <? elapsed_time s then
         match min_speed_start s with
         | Some check_start => if min_speed_interval s <? now - check_start then mfail BelowLowSpeed else mret ()
         | None => mret ()
         end
       else mmodify next_interval);
  mmodify next_period.
Definition limit_min_speed (now data_size : Z) : m () :=
  st ← mgets start;
  match st with
  | None => mret ()
  | Some start_time =>
      _ ← mmodify (λ s, set_start s None);
      _ ← mmodify (λ s, match min_speed_start s with None => set_min_speed_start s (Some start_time) | Some _ => s end);
      _ ← add_elapsed now start_time;
      s ← mget;
      if period s <=? elapsed_time s then check_min_speed now data_size else add_data data_size
  end.

Section Timers.
Context (fired : Z → Z → bool).
Definition poll_pending_timeout (now : Z) (s : t) : bool := match timeout s with Some deadline => fired deadline now | None => false end.
(** [true] is [Poll::Ready(())]. *)
Definition poll_max_limited_delay (now : Z) (s : t) : bool * t :=
  match delay s with
  | Some deadline => if fired deadline now then (true, next_period (set_delay s None)) else (false, s)
  | None => (true, s)
  end.
End Timers.
End SpeedLimit.

Module RateLimit.
Record t := mk { min_speed : option SpeedLimit.t; max_speed : option SpeedLimit.t }.
Definition default : t := mk None None.
Definition set_min_speed (now rate period interval : Z) (r : t) : res speed_error t := l ← SpeedLimit.new now rate period interval; Ok (mk (Some l) (max_speed r)).
Definition set_max_speed (now rate period : Z) (r : t) : res speed_error t := l ← SpeedLimit.new now rate period 0; Ok (mk (min_speed r) (Some l)).
Definition need_limit_max_speed (r : t) : bool := bool_decide (is_Some (max_speed r)).
Definition is_unlimited (r : t) : bool := match min_speed r, max_speed r with None, None => true | _, _ => false end.
Definition init_max_limit_if_not_start (now : Z) (r : t) : t := mk (min_speed r) (SpeedLimit.init_if_not_start now <$> max_speed r).
Definition init_min_limit_if_not_start (now : Z) (r : t) : t := mk (SpeedLimit.init_if_not_start now <$> min_speed r) (max_speed r).
(** A method of one of the two limits, when it is set. *)
Definition on_max {A} (x : M SpeedLimit.t speed_error A) (none : A) : M t speed_error A := λ r,
  match max_speed r with Some s => let '(y, s) := x s in (y, mk (min_speed r) (Some s)) | None => (Ok none, r) end.
Definition on_min {A} (x : M SpeedLimit.t speed_error A) (none : A) : M t speed_error A := λ r,
  match min_speed r with Some s => let '(y, s) := x s in (y, mk (Some s) (max_speed r)) | None => (Ok none, r) end.
Definition max_speed_limit (now read : Z) : M t speed_error (option Z) := on_max (SpeedLimit.limit_max_speed now read) None.
Definition delay_max_speed_limit (now read : Z) : M t speed_error () := on_max (SpeedLimit.delay_max_speed_limit now read) ().
Definition min_speed_limit (now read : Z) : M t speed_error () := on_min (SpeedLimit.limit_min_speed now read) ().
Definition reset_pending_timeout (now : Z) (r : t) : t := mk (SpeedLimit.reset_pending_timeout now <$> min_speed r) (max_speed r).
Definition poll_pending_timeout (fired : Z → Z → bool) (now : Z) (r : t) : bool :=
  match min_speed r with Some s => SpeedLimit.poll_pending_timeout fired now s | None => false end.
Definition poll_limited_delay (fired : Z → Z → bool) (now : Z) (r : t) : bool * t :=
  match max_speed r with Some s => let '(y, s) := SpeedLimit.poll_max_limited_delay fired now s in (y, mk (min_speed r) (Some s)) | None => (true, r) end.
End RateLimit.

Module SpeedConfig.
Record t := mk { max_recv : option Z; min_recv : option Z; max_send : option Z; min_send : option Z; min_speed_interval : option Z }.
Definition none : t := mk None None None None None.
Definition set_max_rate (c : t) (rate : Z) : t := mk (Some rate) (min_recv c) (Some rate) (min_send c) (min_speed_interval c).
Definition set_min_rate (c : t) (rate : Z) : t := mk (max_recv c) (Some rate) (max_send c) (Some rate) (min_speed_interval c).
Definition set_min_speed_interval (c : t) (seconds : Z) : t := mk (max_recv c) (min_recv c) (max_send c) (min_send c) (Some seconds).
End SpeedConfig.

Module SpeedController.
Record t := mk { send_rate_limit : RateLimit.t; recv_rate_limit : RateLimit.t }.
Definition none : t := mk RateLimit.default RateLimit.default.
(** One direction of [set_speed_limit]. *)
Definition set_limits (now : Z) (max min interval : option Z) (r : RateLimit.t) : res speed_error RateLimit.t :=
  r ← (match max with Some speed => RateLimit.set_max_speed now speed SPEED_CHECK_PERIOD r | None => Ok r end);
  match min, interval with
  | Some speed, Some interval => RateLimit.set_min_speed now speed SPEED_CHECK_PERIOD (from_secs interval) r
  | _, _ => Ok r
  end.
Definition set_speed_limit (now : Z) (config : SpeedConfig.t) (s : t) : res speed_error t :=
  recv ← set_limits now (SpeedConfig.max_recv config) (SpeedConfig.min_recv config) (SpeedConfig.min_speed_interval config) (recv_rate_limit s);
  send ← set_limits now (SpeedConfig.max_send config) (SpeedConfig.min_send config) (SpeedConfig.min_speed_interval config) (send_rate_limit s);
  Ok (mk send recv).
Definition on_send {A} (x : M RateLimit.t speed_error A) : M t speed_error A := λ s, let '(y, r) := x (send_rate_limit s) in (y, mk r (recv_rate_limit s)).
Definition on_recv {A} (x : M RateLimit.t speed_error A) : M t speed_error A := λ s, let '(y, r) := x (recv_rate_limit s) in (y, mk (send_rate_limit s) r).
Definition need_limit_max_send_speed (s : t) : bool := RateLimit.need_limit_max_speed (send_rate_limit s).
Definition max_send_speed_limit (now size : Z) : M t speed_error (option Z) := on_send (RateLimit.max_speed_limit now size).
Definition delay_max_recv_speed_limit (now size : Z) : M t speed_error () := on_recv (RateLimit.delay_max_speed_limit now size).
Definition is_recv_unlimited (s : t) : bool := RateLimit.is_unlimited (recv_rate_limit s).
Definition delay_max_send_speed_limit (now size : Z) : M t speed_error () := on_send (RateLimit.delay_max_speed_limit now size).
Definition min_send_speed_limit (now size : Z) : M t speed_error () := on_send (RateLimit.min_speed_limit now size).
Definition reset_send_pending_timeout (now : Z) (s : t) : t := mk (RateLimit.reset_pending_timeout now (send_rate_limit s)) (recv_rate_limit s).
Definition min_recv_speed_limit (now size : Z) : M t speed_error () := on_recv (RateLimit.min_speed_limit now size).
Definition reset_recv_pending_timeout (now : Z) (s : t) : t := mk (send_rate_limit s) (RateLimit.reset_pending_timeout now (recv_rate_limit s)).
Definition poll_max_recv_delay_time (fired : Z → Z → bool) (now : Z) : M t speed_error bool := on_recv (λ r, let '(y, r) := RateLimit.poll_limited_delay fired now r in (Ok y, r)).
Definition poll_recv_pending_timeout (fired : Z → Z → bool) (now : Z) (s : t) : bool := RateLimit.poll_pending_timeout fired now (recv_rate_limit s).
Definition poll_send_pending_timeout (fired : Z → Z → bool) (now : Z) (s : t) : bool := RateLimit.poll_pending_timeout fired now (send_rate_limit s).
Definition poll_max_send_delay_time (fired : Z → Z → bool) (now : Z) : M t speed_error bool := on_send (λ r, let '(y, r) := RateLimit.poll_limited_delay fired now r in (Ok y, r)).
Definition init_max_send_if_not_start (now : Z) (s : t) : t := mk (RateLimit.init_max_limit_if_not_start now (send_rate_limit s)) (recv_rate_limit s).
Definition init_min_send_if_not_start (now : Z) (s : t) : t := mk (RateLimit.init_min_limit_if_not_start now (send_rate_limit s)) (recv_rate_limit s).
Definition init_max_recv_if_not_start (now : Z) (s : t) : t := mk (send_rate_limit s) (RateLimit.init_max_limit_if_not_start now (recv_rate_limit s)).
Definition init_min_recv_if_not_start (now : Z) (s : t) : t := mk (send_rate_limit s) (RateLimit.init_min_limit_if_not_start now (recv_rate_limit s)).
End SpeedController.

(** * The limit on the speed holds *)

(** [paced t0 total now s]: since [t0], [total] bytes were taken, and but for those of the
    period that runs they took their time: [1001 / 1000] of it at most, since the time of a
    period, a second or more, is rounded down to milliseconds. *)
Definition paced (t0 total now : Z) (s : SpeedLimit.t) : Prop := ∃ from done,
  0 < SpeedLimit.rate s ∧ SpeedLimit.period s = SPEED_CHECK_PERIOD ∧ SpeedLimit.max_speed_allowed_bytes s = SpeedLimit.rate s ∧
  t0 ≤ from ≤ now ∧ total = done + SpeedLimit.period_data s ∧ 0 ≤ done ∧ 0 ≤ SpeedLimit.period_data s ∧ 0 ≤ SpeedLimit.elapsed_time s ∧
  done * 10 ^ 12 ≤ SpeedLimit.rate s * 1001 * (from - t0) ∧
  match SpeedLimit.delay s with
  | None =>
      SpeedLimit.period_data s < SpeedLimit.rate s ∧
      match SpeedLimit.start s with Some st => SpeedLimit.elapsed_time s ≤ st - from ∧ st ≤ now | None => SpeedLimit.elapsed_time s ≤ now - from end
  | Some deadline =>
      SpeedLimit.start s = None ∧ from + from_millis (SpeedLimit.period_data s * 1000 / SpeedLimit.rate s) ≤ deadline ∧ from + SPEED_CHECK_PERIOD ≤ deadline
  end.
Lemma period_bound d rate x : 0 < rate → from_millis (d * 1000 / rate) ≤ x → SPEED_CHECK_PERIOD ≤ x → d * 10 ^ 12 ≤ rate * 1001 * x.
Proof.
  unfold SPEED_CHECK_PERIOD, from_millis. intros Hr Hx Hp. pose proof (Z.div_mod (d * 1000) rate ltac:(lia)) as Hd. pose proof (Z.mod_pos_bound (d * 1000) rate Hr) as Hm. set (q := d * 1000 / rate) in *.
  assert (Hle : rate * q * 1000000 ≤ rate * x) by nia. assert (Hle2 : rate * 1000000000 ≤ rate * x) by nia. lia.
Qed.
Lemma paced_new now rate s : 0 < rate → SpeedLimit.new now rate SPEED_CHECK_PERIOD 0 = Ok s → paced now 0 now s.
Proof.
  intros Hr Hs. unfold SpeedLimit.new in Hs. inv_bind Hs. injection Hs as <-. unfold u64 in Ha. case_in Ha; [|done]. injection Ha as <-. exists now, 0. cbn. change (as_secs SPEED_CHECK_PERIOD) with 1. split_and!; lia.
Qed.
Lemma paced_later t0 total now now' s : now ≤ now' → paced t0 total now s → paced t0 total now' s.
Proof.
  intros Hn (from & done & H1 & H2 & H3 & H4 & H5 & H6 & H7 & H8 & H9 & H10). exists from, done. split_and!; try done; [lia..|]. destruct (SpeedLimit.delay s); [done|]. destruct (SpeedLimit.start s); lia.
Qed.
Lemma paced_bound t0 total now s : paced t0 total now s → SpeedLimit.delay s = None → total * 10 ^ 12 ≤ SpeedLimit.rate s * (1001 * (now - t0) + 10 ^ 12).
Proof. intros (from & done & H1 & H2 & H3 & H4 & H5 & H6 & H7 & H8 & H9 & H10) Hd. rewrite Hd in H10. destruct H10 as [H10 _]. nia. Qed.
Lemma paced_init t0 total now s : paced t0 total now s → SpeedLimit.delay s = None → paced t0 total now (SpeedLimit.init_if_not_start now s) ∧ SpeedLimit.delay (SpeedLimit.init_if_not_start now s) = None.
Proof.
  intros Hp Hd. unfold SpeedLimit.init_if_not_start. destruct (SpeedLimit.start s) eqn:Hs; [done|]. split; [|done].
  destruct Hp as (from & done & H1 & H2 & H3 & H4 & H5 & H6 & H7 & H8 & H9 & H10). exists from, done. rewrite Hd, Hs in H10. cbn. rewrite Hd. split_and!; try done; lia.
Qed.
(** A period that is over. *)
Lemma paced_next t0 from done now s :
  0 < SpeedLimit.rate s → SpeedLimit.period s = SPEED_CHECK_PERIOD → SpeedLimit.max_speed_allowed_bytes s = SpeedLimit.rate s → t0 ≤ from → 0 ≤ done → 0 ≤ SpeedLimit.period_data s →
  done * 10 ^ 12 ≤ SpeedLimit.rate s * 1001 * (from - t0) → from_millis (SpeedLimit.period_data s * 1000 / SpeedLimit.rate s) ≤ now - from → SPEED_CHECK_PERIOD ≤ now - from → SpeedLimit.delay s = None →
  paced t0 (done + SpeedLimit.period_data s) now (SpeedLimit.next_period s).
Proof.
  intros H1 H2 H3 H4 H5 H6 H7 H8 H9 H10. pose proof (period_bound _ _ _ H1 H8 H9) as Hb. exists now, (done + SpeedLimit.period_data s). cbn. rewrite H10. unfold SPEED_CHECK_PERIOD, from_millis in H9. split_and!; try done; [lia..|nia|lia].
Qed.
Lemma paced_poll fired t0 total now s :
  (∀ d x, fired d x = true → d ≤ x) → paced t0 total now s →
  let '(y, s') := SpeedLimit.poll_max_limited_delay fired now s in paced t0 total now s' ∧ SpeedLimit.rate s' = SpeedLimit.rate s ∧ (y = true → SpeedLimit.delay s' = None).
Proof.
  intros Hf Hp. unfold SpeedLimit.poll_max_limited_delay. destruct (SpeedLimit.delay s) as [dl|] eqn:Hd; [|done]. destruct (fired dl now) eqn:Hfd; [|done]. apply Hf in Hfd. split; [|done].
  destruct Hp as (from & done & H1 & H2 & H3 & H4 & -> & H6 & H7 & H8 & H9 & H10). rewrite Hd in H10. destruct H10 as (H10 & H11 & H12). apply (paced_next t0 from done now (SpeedLimit.set_delay s None)); try done; cbn; lia.
Qed.
Lemma paced_took t0 total now s n :
  paced t0 total now s → SpeedLimit.delay s = None → 0 ≤ n → (total + n) * 1000 < 2 ^ 64 → is_Some (SpeedLimit.start s) →
  ∃ s', SpeedLimit.delay_max_speed_limit now n s = (Ok (), s') ∧ paced t0 (total + n) now s' ∧ SpeedLimit.rate s' = SpeedLimit.rate s.
Proof.
  intros (from & done & H1 & H2 & H3 & H4 & -> & H6 & H7 & H8 & H9 & H10) Hd Hn Hov [st Hst]. rewrite Hd, Hst in H10. destruct H10 as (H10 & H11 & H12).
  unfold SpeedLimit.delay_max_speed_limit, SpeedLimit.add_elapsed, SpeedLimit.add_data, SpeedLimit.limited_time, SpeedLimit.delay_for. rewrite M_bind_eq. cbn [mgets]. rewrite Hst. cbv iota.
  set (d := SpeedLimit.period_data s + n). set (e := SpeedLimit.elapsed_time s + (now - st)). set (q := from_millis (d * 1000 / SpeedLimit.rate s)).
  assert (Hd64 : u64 (E:=speed_error) d = Ok d) by (unfold u64; rewrite (proj2 (Z.leb_le 0 d)), (proj2 (Z.ltb_lt d _)) by lia; done).
  assert (Hm64 : u64 (E:=speed_error) (d * 1000) = Ok (d * 1000)) by (unfold u64; rewrite (proj2 (Z.leb_le 0 _)), (proj2 (Z.ltb_lt (d * 1000) _)) by lia; done).
  assert (Hdiv : div (E:=speed_error) (d * 1000) (SpeedLimit.rate s) = Ok (d * 1000 / SpeedLimit.rate s)) by (unfold div; rewrite (proj2 (Z.eqb_neq _ 0)) by lia; done).
  assert (Hbig : SpeedLimit.rate s ≤ d → SPEED_CHECK_PERIOD ≤ q).
  { intros Hle. assert (1000 ≤ d * 1000 / SpeedLimit.rate s) by (apply Z.div_le_lower_bound; lia). unfold q, SPEED_CHECK_PERIOD, from_millis. lia. }
  assert (Hdelay : e < q → SPEED_CHECK_PERIOD ≤ q → paced t0 (done + SpeedLimit.period_data s + n) now (SpeedLimit.set_delay (SpeedLimit.set_period_data (SpeedLimit.set_elapsed_time (SpeedLimit.set_start s None) e) d) (Some (now + (q - e))))).
  { intros He Hq. exists from, done. cbn. split_and!; try done; try lia; unfold q in *; lia. }
  repeat (rewrite M_bind_eq; cbn [mmodify mgets mget mlift mret M_ret SpeedLimit.period_data SpeedLimit.rate SpeedLimit.elapsed_time SpeedLimit.set_start SpeedLimit.set_elapsed_time SpeedLimit.set_period_data SpeedLimit.period SpeedLimit.max_speed_allowed_bytes]; fold d; fold e; rewrite ?Hd64).
  rewrite H2, H3. assert (Hsub : e < q → duration_sub (E:=speed_error) q e = Ok (q - e)) by (intros; unfold duration_sub; rewrite (proj2 (Z.ltb_ge _ _)) by lia; done).
  destruct (e <? SPEED_CHECK_PERIOD) eqn:He; zbool.
  - destruct (SpeedLimit.rate s <=? d) eqn:Hal; zbool.
    + repeat (rewrite M_bind_eq; cbn [mgets mlift mret M_ret mmodify SpeedLimit.period_data SpeedLimit.rate SpeedLimit.elapsed_time SpeedLimit.set_start SpeedLimit.set_elapsed_time SpeedLimit.set_period_data]; rewrite ?Hm64, ?Hdiv; fold q). specialize (Hbig Hal). rewrite Hsub by lia. eexists. split; [reflexivity|]. split; [apply Hdelay; lia|done].
    + eexists. split; [reflexivity|]. split; [|done]. exists from, done. cbn. rewrite Hd. split_and!; try done; lia.
  - repeat (rewrite M_bind_eq; cbn [mgets mlift mret M_ret mmodify SpeedLimit.period_data SpeedLimit.rate SpeedLimit.elapsed_time SpeedLimit.set_start SpeedLimit.set_elapsed_time SpeedLimit.set_period_data]; rewrite ?Hm64, ?Hdiv; fold q).
    destruct (e <? q) eqn:Hq; zbool.
    + repeat (rewrite M_bind_eq; cbn [mgets mlift mret M_ret mmodify SpeedLimit.elapsed_time SpeedLimit.set_period_data SpeedLimit.set_elapsed_time]). rewrite Hsub by lia. eexists. split; [reflexivity|]. split; [apply Hdelay; lia|done].
    + eexists. split; [reflexivity|]. split; [|done]. replace (done + SpeedLimit.period_data s + n) with (done + d) by lia.
      apply (paced_next t0 from done now (SpeedLimit.set_period_data (SpeedLimit.set_elapsed_time (SpeedLimit.set_start s None) e) d)); cbn; try done; unfold q, e in *; lia.
Qed.
