(* ===== verification/H2Conn.v ===== *)
(** The manager of a client connection ([ylong_http_client/src/util/h2/manager.rs]
    and the [StreamController] of [util/dispatcher.rs]): it takes requests, turns
    them into frames as the windows allow, and hands the frames it receives to the
    streams.  The channels are what the manager has sent into them; whether the
    channel of a response accepts, refuses or delays the next message is a script,
    since it depends on the tasks that read it. *)
From S2P Require Import Prelude Buffers H2Error H2Frame H2Window H2Streams.

(** The kinds of [std::io::Error] are not told apart. *)
Inductive DispatchErrorKind := DispatchH2 (e : H2Error) | DispatchIo | ChannelClosed | Disconnect.
Inductive RespMessage := Output (f : Frame.t) | OutputExit (e : DispatchErrorKind).
(** What the task that reads the socket sends to the manager. *)
Inductive OutputMessage := MsgOutput (f : Frame.t) | MsgOutputExit (e : DispatchErrorKind).
Inductive SettingsState := Acknowledging (s : Settings.t) | Synced.
Inductive ManagerState := MSend | MReceive | MExit (e : DispatchErrorKind).

(** What polling a send into a bounded channel returns: room, no receiver, no room. *)
Inductive delivery := Delivered | Gone | Full.

Definition DEFAULT_WINDOW_SIZE : Z := 65535.

(** The settings of a client, [H2Config]. *)
Module H2Config.
Record t := mk {
  max_frame_size : Z;
  max_header_list_size : Z;
  header_table_size : Z;
  conn_window_size : Z;
  stream_window_size : Z;
  enable_push : bool;
  allowed_cache_frame_size : Z;
  use_huffman : bool;
}.
Definition default : t :=
  mk (16 * 1024) (16 * 1024) 4096 (10 * 1024 * 1024) (2 * 1024 * 1024) false 5 true.
Definition create_initial_settings (config : t) : Frame.t :=
  Frame.mk 0 FrameFlags.empty (Payload.Settings [
    Setting.MaxHeaderListSize (max_header_list_size config);
    Setting.MaxFrameSize (max_frame_size config);
    Setting.HeaderTableSize (header_table_size config);
    Setting.EnablePush (enable_push config);
    Setting.InitialWindowSize (stream_window_size config)]).
End H2Config.

(** [struct RequestWrapper]. *)
Record RequestWrapper := mk_request { r_flag : Z; r_payload : Payload.t; r_data : BodyDataRef.t }.

(** [ConnManager] with its [StreamController]. *)
Module Conn.
Record t := mk {
  mstate_ : ManagerState;
  next_state : ManagerState;
  settings : SettingsState;
  input_tx : list Frame.t;
  input_open : bool;
  req_closed : bool;
  io_shutdown : bool;
  io_goaway : bool;
  senders : gset Z;
  script : list delivery;
  delivered : list (Z * RespMessage);
  rejected : list DispatchErrorKind;
  curr_message : gmap Z RespMessage;
  streams : Streams.t;
  go_away_error_code : option Z;
  going_away : option (Z * Z);
  resp_rx : list OutputMessage;
  resp_closed : bool;
  req_rx : list RequestWrapper;
}.
Abbreviation m := (M t DispatchErrorKind).

Definition new (s : Streams.t) (script : list delivery) : t :=
  mk MReceive MReceive Synced [] true false false false ∅ script [] [] ∅ s None None [] false [].

Definition set_streams (c : t) (s : Streams.t) : t :=
  mk (mstate_ c) (next_state c) (settings c) (input_tx c) (input_open c) (req_closed c) (io_shutdown c) (io_goaway c)
    (senders c) (script c) (delivered c) (rejected c) (curr_message c) s (go_away_error_code c) (going_away c)
    (resp_rx c) (resp_closed c) (req_rx c).
Definition set_input (c : t) (fs : list Frame.t) : t :=
  mk (mstate_ c) (next_state c) (settings c) fs (input_open c) (req_closed c) (io_shutdown c) (io_goaway c)
    (senders c) (script c) (delivered c) (rejected c) (curr_message c) (streams c) (go_away_error_code c) (going_away c)
    (resp_rx c) (resp_closed c) (req_rx c).
Definition set_state (c : t) (s n : ManagerState) : t :=
  mk s n (settings c) (input_tx c) (input_open c) (req_closed c) (io_shutdown c) (io_goaway c)
    (senders c) (script c) (delivered c) (rejected c) (curr_message c) (streams c) (go_away_error_code c) (going_away c)
    (resp_rx c) (resp_closed c) (req_rx c).
Definition set_settings (c : t) (s : SettingsState) : t :=
  mk (mstate_ c) (next_state c) s (input_tx c) (input_open c) (req_closed c) (io_shutdown c) (io_goaway c)
    (senders c) (script c) (delivered c) (rejected c) (curr_message c) (streams c) (go_away_error_code c) (going_away c)
    (resp_rx c) (resp_closed c) (req_rx c).
Definition set_closing (c : t) (req shutdown goaway : bool) : t :=
  mk (mstate_ c) (next_state c) (settings c) (input_tx c) (input_open c) req shutdown goaway
    (senders c) (script c) (delivered c) (rejected c) (curr_message c) (streams c) (go_away_error_code c) (going_away c)
    (resp_rx c) (resp_closed c) (req_rx c).
Definition set_replies (c : t) (ss : gset Z) (sc : list delivery) (ds : list (Z * RespMessage))
    (cm : gmap Z RespMessage) : t :=
  mk (mstate_ c) (next_state c) (settings c) (input_tx c) (input_open c) (req_closed c) (io_shutdown c) (io_goaway c)
    ss sc ds (rejected c) cm (streams c) (go_away_error_code c) (going_away c)
    (resp_rx c) (resp_closed c) (req_rx c).
Definition set_rejected (c : t) (r : list DispatchErrorKind) : t :=
  mk (mstate_ c) (next_state c) (settings c) (input_tx c) (input_open c) (req_closed c) (io_shutdown c) (io_goaway c)
    (senders c) (script c) (delivered c) r (curr_message c) (streams c) (go_away_error_code c) (going_away c)
    (resp_rx c) (resp_closed c) (req_rx c).
Definition set_goaway (c : t) (code : option Z) (ga : option (Z * Z)) : t :=
  mk (mstate_ c) (next_state c) (settings c) (input_tx c) (input_open c) (req_closed c) (io_shutdown c) (io_goaway c)
    (senders c) (script c) (delivered c) (rejected c) (curr_message c) (streams c) code ga
    (resp_rx c) (resp_closed c) (req_rx c).

Definition set_channels (c : t) (resp : list OutputMessage) (closed : bool) (reqs : list RequestWrapper) : t :=
  mk (mstate_ c) (next_state c) (settings c) (input_tx c) (input_open c) (req_closed c) (io_shutdown c) (io_goaway c)
    (senders c) (script c) (delivered c) (rejected c) (curr_message c) (streams c) (go_away_error_code c) (going_away c)
    resp closed reqs.

Definition close_input (c : t) : t :=
  mk (mstate_ c) (next_state c) (settings c) (input_tx c) false (req_closed c) (io_shutdown c) (io_goaway c)
    (senders c) (script c) (delivered c) (rejected c) (curr_message c) (streams c) (go_away_error_code c) (going_away c)
    (resp_rx c) (resp_closed c) (req_rx c).

(** A method of the streams, its error as a [DispatchErrorKind]. *)
Definition on_streams {A} (f : M Streams.t H2Error A) : m A := mstate (λ c,
  match f (streams c) with
  | (Ok a, s) => (Ok a, set_streams c s)
  | (Err e, s) => (Err (DispatchH2 e), set_streams c s)
  | (Panic, s) => (Panic, set_streams c s)
  end).

(** [input_tx.send(frame)]. *)
Definition send (f : Frame.t) : m () := mstate (λ c,
  if input_open c then (Ok (), set_input c (input_tx c ++ [f])) else (Err ChannelClosed, c)).

(** A [Poll] that is not pending goes on with its value. *)
Definition ready {A} (a : A) : m (poll A) := mret (PReady a).

(** ** [StreamController] *)

Definition shutdown : m () := mmodify (λ c, set_closing c (req_closed c) true (io_goaway c)).
Definition goaway : m () := mmodify (λ c, set_closing c (req_closed c) (io_shutdown c) true).
Definition close_requests : m () := mmodify (λ c, set_closing c true (io_shutdown c) (io_goaway c)).

(** The next outcome of the script; a channel that the script says nothing about has
    room. *)
Definition next_delivery (c : t) : delivery * list delivery :=
  match script c with [] => (Delivered, []) | d :: ds => (d, ds) end.

Definition send_message_to_stream (id : Z) (message : RespMessage) : m (poll ()) := mstate (λ c,
  if decide (id ∈ senders c) then
    let '(d, sc) := next_delivery c in
    match d with
    | Delivered => (Ok (PReady ()), set_replies c (senders c) sc (delivered c ++ [(id, message)]) (curr_message c))
    | Gone => (Err (DispatchH2 (StreamError id NoError)),
               set_replies c (senders c ∖ {[ id ]}) sc (delivered c) (curr_message c))
    | Full => (Ok PPending, set_replies c (senders c) sc (delivered c) (<[id := message]> (curr_message c)))
    end
  else (Err (DispatchH2 (StreamError id NoError)), c)).

Section Order.
Context (iter_streams : gmap Z Stream.t → list Z) (iter_ids : gset Z → list Z)
  (iter_messages : gmap Z RespMessage → list Z).

Definition get_unsent_streams (last_stream_id : Z) : m (list Z) :=
  s ← mgets streams;
  if Streams.max_send_id s <? last_stream_id then mfail (DispatchH2 (ConnectionError ProtocolError))
  else
    _ ← mmodify (λ c, set_streams c (
          Streams.mk last_stream_id (Streams.max_recv_id s) (Streams.latest_remote_id s)
            (Streams.stream_recv_window_size s) (Streams.stream_send_window_size s) (Streams.max_concurrent_streams s)
            (Streams.current_concurrent_streams s) (Streams.flow_control s) (Streams.pending_concurrency s)
            (Streams.pending_stream_window s) (Streams.pending_conn_window s) (Streams.pending_send s)
            (Streams.window_updating_streams s) (Streams.stream_map s) (Streams.next_stream_id s)));
    on_streams (Streams.get_unset_streams iter_streams last_stream_id).

(** One task of [poll_blocked_message]: whether it still blocks. *)
Definition poll_blocked (key : Z) : m bool := mstate (λ c,
  match curr_message c !! key with
  | None => (Ok false, c)
  | Some message =>
      let '(d, sc) := next_delivery c in
      let rest := delete key (curr_message c) in
      match d with
      | Delivered => (Ok false, set_replies c (senders c) sc (delivered c ++ [(key, message)]) rest)
      | Full => (Ok true, set_replies c (senders c) sc (delivered c) (curr_message c))
      | Gone =>
          let c := set_replies c (senders c ∖ {[ key ]}) sc (delivered c) rest in
          match Streams.stream_state (streams c) key with
          | Some (Closed _) | None => (Ok false, c)
          | Some _ =>
              match on_streams (Streams.send_local_reset key) c with
              | (Ok EndOK, c) =>
                  let frame := Frame.mk key FrameFlags.empty (Payload.RstStream (into_code NoError)) in
                  (Ok false, (send frame c).2)
              | (Ok _, c) => (Ok false, c)
              | (Err e, c) => (Err e, c)
              | (Panic, c) => (Panic, c)
              end
          end
      end
  end).
Fixpoint poll_all (keys : list Z) : m bool :=
  match keys with
  | [] => mret false
  | k :: keys => b ← poll_blocked k; b' ← poll_all keys; mret (b || b')
  end.
Definition poll_blocked_message : m (poll ()) :=
  keys ← mgets (λ c, iter_messages (curr_message c));
  blocked ← poll_all keys;
  mret (if blocked : bool then PPending else PReady ()).

(** ** Requests *)

Definition recv_request (r : RequestWrapper) : m bool := mstate (λ c,
  match Streams.generate_id (streams c) with
  | (Ok id, s) =>
      (let headers := Frame.mk id (r_flag r) (r_payload r) in
       s ← mgets streams;
       _ ← (if Streams.reach_max_concurrency s || negb (Streams.is_pending_concurrency_empty s) then
              on_streams (Streams.push_pending_concurrency id)
            else
              _ ← on_streams Streams.increase_current_concurrency;
              on_streams (Streams.push_back_pending_send id));
       _ ← mmodify (λ c, set_replies c (senders c ∪ {[ id ]}) (script c) (delivered c) (curr_message c));
       _ ← on_streams (Streams.insert id headers (r_data r));
       mret true) (set_streams c s)
  | (Err e, s) => (Ok false, set_rejected (set_streams c s) (rejected c ++ [DispatchH2 e]))
  | (Panic, s) => (Panic, set_streams c s)
  end).

(** The loop over the requests in the channel; a turn takes one.  A closed channel
    hands out what it holds before it says so. *)
Definition request_turn : m (option ()) :=
  q ← mgets req_rx;
  match q with
  | [] => closed ← mgets req_closed; if closed : bool then mfail ChannelClosed else mret (Some ())
  | r :: q =>
      _ ← mmodify (λ c, set_channels c (resp_rx c) (resp_closed c) q);
      more ← recv_request r;
      mret (if more : bool then None else Some ())
  end.
Definition poll_recv_request : m () :=
  q ← mgets req_rx; loop request_turn (S (length q)).

Definition poll_send_frame (f : Frame.t) : m () :=
  _ ← match Frame.payload f with
      | Payload.Headers _ =>
          r ← on_streams (Streams.send_headers_frame (Frame.id f) (FrameFlags.is_end_stream (Frame.flags f)));
          match r with RecvErr e => mfail (DispatchH2 e) | _ => mret () end
      | Payload.Data _ =>
          r ← on_streams (Streams.send_data_frame (Frame.id f) (FrameFlags.is_end_stream (Frame.flags f)));
          match r with RecvErr e => mfail (DispatchH2 e) | _ => mret () end
      | _ => mret ()
      end;
  send f.

(** ** Errors *)

(** A [Poll::Ready(_)] of a delivery, whatever its result, or [Pending]. *)
Definition ignore_result (x : m (poll ())) : m (poll ()) := mstate (λ c,
  match x c with
  | (Err _, c) => (Ok (PReady ()), c)
  | r => r
  end).

Definition manage_stream_error (id : Z) (code : ErrorCode) : m (poll ()) :=
  let frame := Frame.mk id FrameFlags.empty (Payload.RstStream (into_code code)) in
  r ← on_streams (Streams.send_local_reset id);
  match r with
  | EndOK =>
      _ ← send frame;
      p ← ignore_result (send_message_to_stream id (OutputExit (DispatchH2 (StreamError id code))));
      match p with
      | PReady _ => ready ()
      | PPending => _ ← mmodify (λ c, set_state c MSend MReceive); mret PPending
      end
  | EndIgnore => ready ()
  | EndErr e => mfail (DispatchH2 e)
  end.

Fixpoint exit_loop (error : DispatchErrorKind) (ids : list Z) : m bool :=
  match ids with
  | [] => mret false
  | id :: ids =>
      p ← ignore_result (send_message_to_stream id (OutputExit error));
      b ← exit_loop error ids;
      mret (match p with PReady _ => b | PPending => true end)
  end.
Definition exit_with_error (error : DispatchErrorKind) : m bool :=
  _ ← shutdown;
  _ ← close_requests;
  _ ← on_streams Streams.clear_streams_states;
  ids ← on_streams (Streams.get_all_unclosed_streams iter_streams);
  exit_loop error ids.

Definition exit_state (blocked : bool) (e : DispatchErrorKind) : m (poll ()) :=
  if blocked then _ ← mmodify (λ c, set_state c MSend (MExit e)); mret PPending
  else mfail e.

Definition manage_conn_error (code : ErrorCode) : m (poll ()) :=
  last ← mgets (λ c, Streams.latest_remote_id (streams c));
  let payload := (into_code code, last) in
  let frame := Frame.mk 0 FrameFlags.empty (Payload.Goaway (into_code code) last []) in
  ga ← mgets going_away;
  if bool_decide (ga = Some payload) then ready ()
  else
    _ ← mmodify (λ c, set_goaway c (go_away_error_code c) (Some payload));
    _ ← send frame;
    blocked ← exit_with_error (DispatchH2 (ConnectionError code));
    exit_state blocked (DispatchH2 (ConnectionError code)).

Definition manage_resp_error (kind : DispatchErrorKind) : m (poll ()) :=
  match kind with
  | DispatchH2 (StreamError id code) => manage_stream_error id code
  | DispatchH2 (ConnectionError code) => manage_conn_error code
  | other => blocked ← exit_with_error other; exit_state blocked other
  end.

(** ** Sending *)

Definition deal_poll_body_error (e : DispatchErrorKind) : m () :=
  match e with
  | DispatchH2 (StreamError id code) => _ ← manage_stream_error id code; mret ()
  | e => mfail e
  end.

(** The loop over the body of a stream; a turn that goes on has taken bytes of the
    body. *)
Definition body_turn (id : Z) : m (option ()) := mstate (λ c,
  match on_streams (Streams.poll_read_body id) c with
  | (Ok ReadClosed, c) | (Ok ReadPending, c) => (Ok (Some ()), c)
  | (Ok (ReadReady data), c) => (_ ← poll_send_frame data; mret None) c
  | (Ok (ReadFinish frame), c) => (_ ← poll_send_frame frame; mret (Some ())) c
  | (Err e, c) => (_ ← deal_poll_body_error e; mret (Some ())) c
  | (Panic, c) => (Panic, c)
  end).
Definition event_size (e : body_event) : nat := match e with BRead b => S (length b) | _ => 1 end.
Definition body_size (d : BodyDataRef.t) : nat :=
  match BodyDataRef.body d with Some es => list_sum (event_size <$> es) | None => 0 end.
Definition body_fuel (s : Streams.t) (id : Z) : nat :=
  match Streams.stream_map s !! id with Some st => S (body_size (Stream.data st)) | None => 1 end.

Definition input_stream_frame (id : Z) : m () :=
  h ← on_streams (Streams.headers id);
  let body := (s ← mgets streams; loop (body_turn id) (body_fuel s id)) in
  match h with
  | None => body
  | Some header =>
      let is_end_stream := FrameFlags.is_end_stream (Frame.flags header) in
      _ ← poll_send_frame header;
      if is_end_stream then mret () else body
  end.

Fixpoint input_loop (size : nat) : m () :=
  match size with
  | O => mret ()
  | S size =>
      id ← on_streams Streams.next_pending_stream;
      match id with
      | None => mret ()
      | Some id => _ ← input_stream_frame id; input_loop size
      end
  end.
Definition poll_input_request : m () :=
  _ ← on_streams Streams.try_consume_pending_concurrency;
  size ← mgets (λ c, Z.to_nat (Streams.pending_stream_num (streams c)));
  input_loop size.

(** ** Receiving *)

Definition apply_setting (s : Setting.t) : m () :=
  _ ← match s with
      | Setting.MaxConcurrentStreams n => on_streams (Streams.apply_max_concurrent_streams n)
      | _ => mret ()
      end;
  match s with
  | Setting.InitialWindowSize n => on_streams (Streams.apply_send_initial_window_size iter_streams iter_ids n)
  | _ => mret ()
  end.
Fixpoint each {A} (f : A → m ()) (l : list A) : m () :=
  match l with [] => mret () | x :: l => _ ← f x; each f l end.

Definition recv_settings_frame (f : Frame.t) (settings : Settings.t) : m () :=
  if FrameFlags.is_ack (Frame.flags f) then
    st ← mgets Conn.settings;
    _ ← match st with
        | Acknowledging acknowledged =>
            each (λ s, match s with
                       | Setting.InitialWindowSize n =>
                           on_streams (Streams.apply_recv_initial_window_size iter_streams n)
                       | _ => mret ()
                       end) acknowledged
        | Synced => mret ()
        end;
    mmodify (λ c, set_settings c Synced)
  else
    _ ← each apply_setting settings;
    send (Frame.mk (Frame.id f) 0x1 (Frame.payload f)).

Definition recv_ping_frame (f : Frame.t) (ping : bytes) : m () :=
  if FrameFlags.is_ack (Frame.flags f) then mret () else send (Frame.ping_ack ping).

Definition recv_go_away_frame (error_code last_stream_id : Z) : m (poll ()) :=
  _ ← goaway;
  _ ← close_requests;
  ids ← get_unsent_streams last_stream_id;
  code ← mlift (match error_code_try_from error_code with
                | Ok c => Ok c | Err e => Err (DispatchH2 e) | Panic => Panic end);
  blocked ← exit_loop (DispatchH2 (ConnectionError code)) ids;
  _ ← mmodify (λ c, set_goaway c (Some error_code) (going_away c));
  mret (if blocked : bool then PPending else PReady ()).

Definition recv_reset_frame (f : Frame.t) : m (poll ()) :=
  r ← on_streams (Streams.recv_remote_reset (Frame.id f));
  match r with
  | EndOK => send_message_to_stream (Frame.id f) (Output f)
  | EndErr e => mfail (DispatchH2 e)
  | EndIgnore => ready ()
  end.

Definition recv_header_frame (f : Frame.t) : m (poll ()) :=
  r ← on_streams (Streams.recv_headers (Frame.id f) (FrameFlags.is_end_stream (Frame.flags f)));
  match r with
  | RecvOK => send_message_to_stream (Frame.id f) (Output f)
  | RecvErr e => mfail (DispatchH2 e)
  | RecvIgnore => ready ()
  end.

(** [release_conn_recv_window] and [release_stream_recv_window]. *)
Definition release_conn_recv_window (size : Z) : m () := mstate (λ c,
  let s := streams c in
  let f := Streams.flow_control s in
  if FlowControl.recv_notification_size_available f <? size then
    (Err (DispatchH2 (ConnectionError FlowControlError)), c)
  else
    match (f ← FlowControl.recv_data (E := H2Error) f size; FlowControl.check_conn_recv_window_update f) with
    | Ok (o, f) =>
        let c := set_streams c (Streams.set_flow s f) in
        match o with Some w => send w c | None => (Ok (), c) end
    | _ => (Panic, c)
    end).

Definition release_stream_recv_window (id size : Z) : m () := mstate (λ c,
  let s := streams c in
  match Streams.stream_map s !! id with
  | None => (Ok (), c)
  | Some st =>
      let w := Stream.recv_window st in
      if RecvWindow.notification_available w <? size then (Err (DispatchH2 (StreamError id FlowControlError)), c)
      else
        match RecvWindow.recv_data (E := H2Error) w size with
        | Ok w =>
            let st := Stream.set_recv st w in
            let c := set_streams c (Streams.set_stream s id st) in
            match RecvWindow.unreleased_size (E := H2Error) w with
            | Ok (Some _) =>
                if negb (Stream.is_init_or_active_flow_control st) then (Ok (), c)
                else
                  match RecvWindow.check_window_update (E := H2Error) w id with
                  | Ok (o, w) =>
                      let c := set_streams c (Streams.set_stream s id (Stream.set_recv st w)) in
                      match o with Some f => send f c | None => (Ok (), c) end
                  | _ => (Panic, c)
                  end
            | Ok None => (Ok (), c)
            | _ => (Panic, c)
            end
        | _ => (Panic, c)
        end
  end).

Definition update_window (id size : Z) : m () :=
  _ ← release_conn_recv_window size; release_stream_recv_window id size.

Definition recv_data_frame (f : Frame.t) (data : bytes) : m (poll ()) :=
  _ ← update_window (Frame.id f) (as_u32 (len data));
  r ← on_streams (Streams.recv_data (Frame.id f) (FrameFlags.is_end_stream (Frame.flags f)));
  match r with
  | RecvOK => send_message_to_stream (Frame.id f) (Output f)
  | RecvErr e => mfail (DispatchH2 e)
  | RecvIgnore => ready ()
  end.

Definition recv_window_frame (f : Frame.t) (increment : Z) : m () :=
  if Frame.id f =? 0 then
    _ ← on_streams (Streams.increase_conn_send_window increment);
    on_streams Streams.reassign_conn_send_window
  else on_streams (Streams.reassign_stream_send_window (Frame.id f) increment).

Definition poll_recv_frame (f : Frame.t) : m (poll ()) :=
  match Frame.payload f with
  | Payload.Settings s => _ ← recv_settings_frame f s; ready ()
  | Payload.Ping p => _ ← recv_ping_frame f p; ready ()
  | Payload.PushPromise _ _ => mfail (DispatchH2 (ConnectionError ProtocolError))
  | Payload.Goaway code last _ => recv_go_away_frame code last
  | Payload.RstStream _ => recv_reset_frame f
  | Payload.Headers _ => recv_header_frame f
  | Payload.Data d => recv_data_frame f d
  | Payload.WindowUpdate n => _ ← recv_window_frame f n; ready ()
  | Payload.Priority _ _ _ => ready ()
  end.

Definition poll_recv_message (f : Frame.t) : m (poll ()) := mstate (λ c,
  match poll_recv_frame f c with
  | (Err kind, c) => manage_resp_error kind c
  | (Ok PPending, c) => (Ok PPending, set_state c MSend MReceive)
  | (Ok (PReady _), c) => (Ok (PReady ()), c)
  | (Panic, c) => (Panic, c)
  end).

(** ** The states of the manager *)

Definition poll_channel_closed_exit : m (poll ()) :=
  blocked ← exit_with_error ChannelClosed; exit_state blocked ChannelClosed.

Definition poll_blocked_frames : m (poll ()) :=
  p ← poll_blocked_message;
  match p with
  | PReady _ => _ ← mmodify (λ c, set_state c (next_state c) MReceive); ready ()
  | PPending => mret PPending
  end.

Definition send_peer_goaway (frame : Frame.t) (payload : Z * Z) (err_code : Z) : m () :=
  ga ← mgets going_away;
  last ← mgets (λ c, Streams.latest_remote_id (streams c));
  if bool_decide (ga = Some (err_code, last)) then mret ()
  else
    _ ← mmodify (λ c, set_goaway c (go_away_error_code c) (Some payload));
    send frame.

Definition poll_deal_with_go_away (error_code : Z) : m () :=
  s ← mgets streams;
  if Streams.is_closed s then
    let last := Streams.latest_remote_id s in
    _ ← send_peer_goaway (Frame.mk 0 FrameFlags.empty (Payload.Goaway error_code last [])) (error_code, last) error_code;
    _ ← shutdown;
    match error_code_try_from error_code with
    | Ok c => mfail (DispatchH2 (ConnectionError c))
    | Err e => mfail (DispatchH2 e)
    | Panic => mpanic
    end
  else mret ().

Definition manage_pending_state : m () :=
  ga ← mgets go_away_error_code;
  match ga with
  | Some error_code => poll_deal_with_go_away error_code
  | None => _ ← poll_recv_request; poll_input_request
  end.

(** [Future::poll] of the manager.  A turn in [Receive] takes a message or returns,
    and at most two turns in [Send] follow it. *)
Definition poll_message (msg : OutputMessage) : m (poll ()) :=
  match msg with
  | MsgOutput frame => poll_recv_message frame
  | MsgOutputExit e =>
      ga ← mgets go_away_error_code;
      match ga with Some _ => ready () | None => manage_resp_error e end
  end.
Definition poll_turn : m (option (poll ())) :=
  st ← mgets mstate_;
  match st with
  | MSend =>
      p ← poll_blocked_frames;
      mret (match p with PPending => Some PPending | PReady _ => None end)
  | MReceive =>
      q ← mgets resp_rx;
      match q with
      | msg :: q =>
          _ ← mmodify (λ c, set_channels c q (resp_closed c) (req_rx c));
          p ← poll_message msg;
          mret (match p with PPending => Some PPending | PReady _ => None end)
      | [] =>
          closed ← mgets resp_closed;
          if closed : bool then p ← poll_channel_closed_exit; mret (Some p)
          else _ ← manage_pending_state; mret (Some PPending)
      end
  | MExit e => mfail e
  end.
Definition poll_fuel (c : t) : nat := 3 * length (resp_rx c) + 3.
Definition poll_manager : m (poll ()) := fuel ← mgets poll_fuel; loop poll_turn fuel.
End Order.

(** [Http2Dispatcher::new] up to [launch]: the manager starts when both sends succeed. *)
Definition dispatcher_new (config : H2Config.t) (script : list delivery) :
    res H2Error (res DispatchErrorKind () * t) :=
  flow ← FlowControl.setup_recv_window (FlowControl.new DEFAULT_WINDOW_SIZE DEFAULT_WINDOW_SIZE)
           (H2Config.conn_window_size config);
  let streams := Streams.new (H2Config.stream_window_size config) DEFAULT_WINDOW_SIZE flow in
  Ok ((_ ← send (H2Config.create_initial_settings config); release_conn_recv_window 0) (new streams script)).
End Conn.
