(* ===== verification/H2ConnNeutral.v ===== *)
(** What the handlers of the connection manager leave alone.  Most of them touch
    neither the connection's send window, the DATA sent nor the numbers of the
    streams, and leave no stream with more to send than before: they are shown to be
    neutral once, here, with a tactic that goes through the binds and the cases of a
    method; the safety theorems treat only the others. *)
From S2P Require Import Prelude Buffers H2Error H2Frame H2Window H2Streams H2Conn.

(** The bytes of the DATA frames among frames. *)
Definition data_len (f : Frame.t) : Z := match Frame.payload f with Payload.Data d => len d | _ => 0 end.
Definition data_sent (fs : list Frame.t) : Z := zsum (data_len <$> fs).

(** The frames that open the streams are HEADERS, which carry no data. *)
Definition is_headers (f : Frame.t) : Prop := ∃ p, Frame.payload f = Payload.Headers p.
Definition header_ok (id : Z) (st : Stream.t) : Prop :=
  ∀ f, Stream.header st = Some f → is_headers f ∧ Frame.id f = id.
Lemma headers_no_data f : is_headers f → data_len f = 0.
Proof. intros [p Hp]. unfold data_len. by rewrite Hp. Qed.
Definition headers_ok (s : Streams.t) : Prop := map_Forall header_ok (Streams.stream_map s).
Definition header_kept (st st' : Stream.t) : Prop := Stream.header st' = Stream.header st ∨ Stream.header st' = None.

(** A stream with something to send: its HEADERS, or DATA. *)
Definition owes (st : Stream.t) : Prop :=
  match Stream.state st with
  | Closed _ => False
  | Open WaitData _ | RemoteHalfClosed WaitData => True
  | _ => Stream.header st ≠ None
  end.
(** The streams in one of the queues. *)
Definition waiting (s : Streams.t) (id : Z) : Prop :=
  id ∈ Streams.pending_concurrency s ∨ id ∈ Streams.pending_stream_window s ∨
  id ∈ Streams.pending_conn_window s ∨ id ∈ Streams.pending_send s.
(** No stream has more to send than before, and none has left the queues. *)
Definition debts (s s' : Streams.t) : Prop :=
  (∀ id st', Streams.stream_map s' !! id = Some st' → owes st' →
     ∃ st, Streams.stream_map s !! id = Some st ∧ owes st) ∧
  (∀ id, waiting s id → waiting s' id).
Definition stream_kept (strict : bool) (st st' : Stream.t) : Prop :=
  header_kept st st' ∧ (strict = true → owes st' → owes st).

(** Neutral operations; the strict ones also add no debts. *)
Definition sneutral (strict : bool) (s s' : Streams.t) : Prop :=
  FlowControl.send_window (Streams.flow_control s') = FlowControl.send_window (Streams.flow_control s) ∧
  dom (Streams.stream_map s') = dom (Streams.stream_map s) ∧
  Streams.next_stream_id s' = Streams.next_stream_id s ∧
  (headers_ok s → headers_ok s') ∧
  (strict = true → debts s s').

#[export] Instance debts_refl : Reflexive debts.
Proof. intros s. split; [|done]. intros id st H. by exists st. Qed.
#[export] Instance debts_trans : Transitive debts.
Proof.
  intros a b c [H1 H2] [H3 H4]. split; [|by auto]. intros id st Hst Ho.
  destruct (H3 id st Hst Ho) as (st1 & Hs1 & Ho1). by apply (H1 id st1).
Qed.
#[export] Instance sneutral_refl {b} : Reflexive (sneutral b).
Proof. by intros s. Qed.
#[export] Instance sneutral_trans {b} : Transitive (sneutral b).
Proof. intros x y z (?&?&?&?&?) (?&?&?&?&?). split_and!; [congruence..|auto|intros; etrans; auto]. Qed.

(** Updates of the fields that are neither the map, the queues nor the send window. *)
Lemma fields_neutral {b} s s' :
  FlowControl.send_window (Streams.flow_control s') = FlowControl.send_window (Streams.flow_control s) →
  Streams.stream_map s' = Streams.stream_map s → Streams.next_stream_id s' = Streams.next_stream_id s →
  (∀ id, waiting s id → waiting s' id) → sneutral b s s'.
Proof.
  intros Hf Hm Hn Hw. unfold sneutral, headers_ok, debts. rewrite Hf, Hm, Hn. split_and!; [done..|].
  intros _. split; [|done]. intros id st Hs Ho. by exists st.
Qed.

(** What waits in the channels the manager reads. *)
Definition channels (c : Conn.t) : list OutputMessage * list RequestWrapper := (Conn.resp_rx c, Conn.req_rx c).

Definition cneutral (strict : bool) (c c' : Conn.t) : Prop :=
  sneutral strict (Conn.streams c) (Conn.streams c') ∧ data_sent (Conn.input_tx c') = data_sent (Conn.input_tx c) ∧
  channels c' = channels c.

#[export] Instance cneutral_refl {b} : Reflexive (cneutral b).
Proof. by intros c. Qed.
#[export] Instance cneutral_trans {b} : Transitive (cneutral b).
Proof. intros x y z (H1 & H2 & H3) (H4 & H5 & H6). split_and!; [by etrans|congruence..]. Qed.

(** A method keeps a relation between the states before and after it. *)
Definition keeps {S E A} (R : S → S → Prop) (x : M S E A) : Prop := ∀ s, R s (x s).2.

Section Keeps.
Context {S E : Type} (R : S → S → Prop) `{!Reflexive R} `{!Transitive R}.

Lemma keeps_ret {A} (a : A) : keeps R (mret (M := M S E) a).
Proof. by intros s. Qed.
Lemma keeps_fail {A} (e : E) : keeps R (mfail (A := A) e).
Proof. by intros s. Qed.
Lemma keeps_panic {A} : keeps R (mpanic (S := S) (E := E) (A := A)).
Proof. by intros s. Qed.
Lemma keeps_lift {A} (r : res E A) : keeps R (mlift (S := S) r).
Proof. by intros s. Qed.
Lemma keeps_gets {A} (f : S → A) : keeps R (mgets (E := E) f).
Proof. by intros s. Qed.
Lemma keeps_get : keeps R (mget (S := S) (E := E)).
Proof. by intros s. Qed.
Lemma keeps_modify (f : S → S) : (∀ s, R s (f s)) → keeps R (mmodify (E := E) f).
Proof. intros H s. apply H. Qed.
Lemma keeps_then {A B} (x : M S E A) (k : A → M S E B) :
  keeps R x → (∀ a, keeps R (k a)) → keeps R (x ≫= k).
Proof.
  intros Hx Hk s. rewrite M_bind_eq. specialize (Hx s). destruct (x s) as [[a| |] s1]; [|done..].
  etrans; [exact Hx|apply Hk].
Qed.
Lemma keeps_loop {A} (turn : M S E (option A)) n : keeps R turn → keeps R (loop turn n).
Proof.
  intros Ht. induction n as [|n IH]; cbn [loop]; [apply keeps_panic|]. apply keeps_then; [done|].
  intros [a|]; [apply keeps_ret|done].
Qed.
End Keeps.

Create HintDb neutral.
#[export] Hint Resolve keeps_ret keeps_fail keeps_panic keeps_lift keeps_gets keeps_get : neutral.

(** Goes through the binds and the case analyses of a method. *)
Ltac keep :=
  lazymatch goal with
  | |- keeps _ (_ ≫= _) => apply keeps_then; [apply _|keep|intros ?; keep]
  | |- keeps _ (match ?x with _ => _ end) => destruct x; keep
  | |- _ => try solve [auto with neutral typeclass_instances]
  end.

(** * Operations on the streams *)

Lemma set_stream_neutral {b} s id st st' :
  Streams.stream_map s !! id = Some st → stream_kept b st st' → (sneutral b) s (Streams.set_stream s id st').
Proof.
  intros H [Hk Ho]. split_and!; [done| |done| |].
  - unfold Streams.set_stream. simpl. apply dom_insert_lookup_L. by eexists.
  - intros Hs. apply map_Forall_insert_2; [|done]. specialize (Hs id st H). intros f Hf.
    destruct Hk as [Hk|Hk]; rewrite Hk in Hf; [by apply Hs|done].
  - intros Hb. split; [|done]. intros k sk. simpl. destruct (decide (k = id)) as [->|Hne].
    + rewrite lookup_insert, decide_True by done. intros [= <-] Hst. eauto.
    + rewrite lookup_insert_ne by done. eauto.
Qed.
(** The updates of a stream that leave its state, and those that close it. *)
Lemma same_state_kept {b} st st' :
  Stream.state st' = Stream.state st → header_kept st st' → stream_kept b st st'.
Proof.
  intros Hs Hk. split; [done|]. intros _. unfold owes. rewrite Hs. destruct Hk as [->| ->]; [done|].
  by destruct (Stream.state st) as [|[]| | |[]|].
Qed.
Lemma close_kept {b} st r : stream_kept b st (Stream.close st r).
Proof. split; [by right|done]. Qed.
Lemma closed_kept {b} st r : stream_kept b st (Stream.set_state st (Closed r)).
Proof. split; [by left|done]. Qed.
#[export] Hint Resolve close_kept closed_kept : core.
#[export] Hint Extern 0 (header_kept _ _) => first [by left | by right] : core.
#[export] Hint Extern 1 (stream_kept _ _ _) => apply same_state_kept; [reflexivity|first [by left | by right]] : core.

Lemma decrease_neutral {b} : keeps (sneutral b) Streams.decrease_current_concurrency.
Proof. intros s. unfold Streams.decrease_current_concurrency, mstate. by destruct (u32_arith _); [apply fields_neutral|..]. Qed.
Lemma increase_neutral {b} : keeps (sneutral b) Streams.increase_current_concurrency.
Proof. intros s. unfold Streams.increase_current_concurrency, mstate. by destruct (u32_arith _); [apply fields_neutral|..]. Qed.
#[export] Hint Resolve decrease_neutral increase_neutral : neutral.

Definition updates_kept (f : Stream.t → res H2Error Stream.t) : Prop := ∀ st st', f st = Ok st' → stream_kept true st st'.
Lemma with_stream_neutral {b} id f : updates_kept f → keeps (sneutral b) (Streams.with_stream id f).
Proof.
  intros Hk s. unfold Streams.with_stream, mstate. destruct (Streams.stream_map s !! id) as [st|] eqn:Hs; [|done].
  destruct (f st) as [st'| |] eqn:Hf; [|done..]. eapply set_stream_neutral; [exact Hs|].
  destruct (Hk _ _ Hf) as [Hh Ho]. split; [done|]. intros _. by apply Ho.
Qed.
(** The updates of the code. *)
Ltac kept :=
  let st := fresh in let st' := fresh in
  intros st st'; unfold mbind, res_bind; repeat (case_match; try done); intros [= <-]; auto.
Lemma for_each_neutral {b A} (f : A → M Streams.t H2Error ()) l :
  (∀ x, keeps (sneutral b) (f x)) → keeps (sneutral b) (Streams.for_each f l).
Proof. intros Hf. induction l; simpl; keep. Qed.
#[export] Hint Resolve for_each_neutral : neutral.
(** The queues only grow. *)
Ltac grows :=
  intros ?; apply fields_neutral; [done..|]; intros ?; unfold waiting; simpl; rewrite ?elem_of_app; tauto.
Ltac keep_streams :=
  keep; first [apply keeps_modify; grows | apply for_each_neutral; intros ?; apply with_stream_neutral; kept
    | apply with_stream_neutral; kept].

Lemma push_back_neutral {b} id : keeps (sneutral b) (Streams.push_back_pending_send id).
Proof. apply keeps_modify. grows. Qed.
Lemma push_conc_neutral {b} id : keeps (sneutral b) (Streams.push_pending_concurrency id).
Proof. apply keeps_modify. grows. Qed.
#[export] Hint Resolve push_back_neutral push_conc_neutral : neutral.

Lemma apply_recv_neutral {b} i1 n : keeps (sneutral b) (Streams.apply_recv_initial_window_size i1 n).
Proof. unfold Streams.apply_recv_initial_window_size. keep_streams. Qed.
Lemma apply_max_neutral {b} n : keeps (sneutral b) (Streams.apply_max_concurrent_streams n).
Proof. apply keeps_modify. grows. Qed.

Lemma get_unset_neutral {b} i1 n : keeps (sneutral b) (Streams.get_unset_streams i1 n).
Proof.
  unfold Streams.get_unset_streams. keep. apply for_each_neutral. intros id s. unfold mstate.
  destruct (Streams.stream_map s !! id) as [st|] eqn:Hs; [|done].
  assert (Hcur : ∀ k, sneutral b s (Streams.set_stream (Streams.set_current s k) id (Stream.close st RemoteGoAway))).
  { intros k. etrans; [|by apply (set_stream_neutral (Streams.set_current s k) id st); [|apply close_kept]]. by apply fields_neutral. }
  destruct (Stream.state st), (u32_arith (E := H2Error) (Streams.current_concurrent_streams s - 1)); try done;
    first [apply Hcur|(eapply set_stream_neutral; [exact Hs|auto])].
Qed.
Lemma get_all_neutral {b} i1 : keeps (sneutral b) (Streams.get_all_unclosed_streams i1).
Proof. unfold Streams.get_all_unclosed_streams. keep_streams. Qed.
Lemma clear_states_neutral : keeps (sneutral false) Streams.clear_streams_states.
Proof. by apply keeps_modify. Qed.
Lemma next_pending_neutral : keeps (sneutral false) Streams.next_pending_stream.
Proof. intros s. unfold Streams.next_pending_stream, mstate. by destruct (Streams.pending_send s). Qed.
Lemma reassign_conn_neutral {b} : keeps (sneutral b) Streams.reassign_conn_send_window.
Proof. apply keeps_modify. grows. Qed.
Lemma reassign_stream_neutral {b} id n : keeps (sneutral b) (Streams.reassign_stream_send_window id n).
Proof.
  unfold Streams.reassign_stream_send_window. keep.
  - apply with_stream_neutral. kept.
  - apply keeps_modify. intros s. destruct (decide _); [|done]. apply fields_neutral; [done..|].
    intros k. unfold waiting. simpl. destruct (decide (k = id)); set_unfold; tauto.
Qed.
Lemma headers_neutral {b} id : keeps (sneutral b) (Streams.headers id).
Proof.
  intros s. unfold Streams.headers, mstate. destruct (Streams.stream_map s !! id) as [st|] eqn:Hs; [|done].
  destruct (Stream.is_closed st); [done|]. eapply set_stream_neutral; [exact Hs|auto].
Qed.
#[export] Hint Resolve apply_recv_neutral apply_max_neutral get_unset_neutral get_all_neutral
  clear_states_neutral next_pending_neutral reassign_conn_neutral reassign_stream_neutral
  headers_neutral : neutral.

(** The walk over a set reaches its elements. *)
Definition walks (iter_ids : gset Z → list Z) : Prop := ∀ X id, id ∈ X → id ∈ iter_ids X.

Lemma apply_send_neutral {b} i1 i2 n :
  (b = true → walks i2) → keeps (sneutral b) (Streams.apply_send_initial_window_size i1 i2 n).
Proof.
  intros Hw. unfold Streams.apply_send_initial_window_size. keep; [apply keeps_modify; grows| | |].
  - apply for_each_neutral. intros ?. apply with_stream_neutral. kept.
  - apply keeps_modify. intros s. split_and!; [done..|]. intros Hb. split; [eauto|]. intros k. unfold waiting. simpl.
    rewrite elem_of_app. specialize (Hw Hb (Streams.pending_stream_window s) k). tauto.
  - apply for_each_neutral. intros ?. apply with_stream_neutral. kept.
Qed.
Lemma consume_neutral : keeps (sneutral false) Streams.try_consume_pending_concurrency.
Proof.
  unfold Streams.try_consume_pending_concurrency. keep. apply keeps_loop; [apply _..|].
  unfold Streams.consume_turn. keep. by apply keeps_modify.
Qed.
#[export] Hint Resolve apply_send_neutral consume_neutral : neutral.

(** A slot given back after the state of a stream was set. *)
Lemma then_decrease_neutral {b A} (r : A) s s1 :
  (sneutral b) s s1 → (sneutral b) s ((_ ← Streams.decrease_current_concurrency; mret r) s1 : res H2Error A * Streams.t).2.
Proof.
  intros H. etrans; [exact H|]. apply (keeps_then (E := H2Error) (sneutral b)); [apply decrease_neutral|by intros ? ?].
Qed.

(** A new state of a stream that leaves it no more to send. *)
Definition quiet (st st' : H2StreamState) : Prop :=
  ∀ s, Stream.state s = st → owes (Stream.set_state s st') → owes s.
Lemma step_neutral {b} id f :
  (b = true → ∀ st st' k, f st = Some (st', k) → quiet st st') → keeps (sneutral b) (Streams.step id f).
Proof.
  intros Hq s. unfold Streams.step, mstate. destruct (Streams.stream_map s !! id) as [st|] eqn:Hs; [|done].
  destruct (f (Stream.state st)) as [[st' k]|] eqn:Hf; [|done].
  assert (Hset : sneutral b s (Streams.set_stream s id (Stream.set_state st st'))).
  { eapply set_stream_neutral; [exact Hs|]. split; [by left|]. intros Hb. by apply (Hq Hb _ _ _ Hf). }
  destruct k; [by apply then_decrease_neutral|done].
Qed.
(** The transitions of the frames received, one by one. *)
Ltac transitions :=
  let x := fresh in let Hx := fresh in
  intros _ [|[] []| |[]|[]|[]] st' k; simpl; try done; intros [= <- _]; intros x Hx; unfold owes; rewrite Hx; simpl;
  repeat case_match; try done.
Lemma send_headers_neutral id eos : keeps (sneutral false) (Streams.send_headers_frame id eos).
Proof. by apply step_neutral. Qed.
Lemma send_data_neutral {b} id eos : keeps (sneutral b) (Streams.send_data_frame id eos).
Proof. apply step_neutral. transitions. Qed.
Lemma recv_headers_neutral {b} id eos : keeps (sneutral b) (Streams.recv_headers id eos).
Proof.
  intros s. unfold Streams.recv_headers, mstate. destruct (_ <? _), (Streams.locally_closed s id); try done.
  apply step_neutral. transitions.
Qed.
Lemma recv_data_neutral {b} id eos : keeps (sneutral b) (Streams.recv_data id eos).
Proof.
  intros s. unfold Streams.recv_data, mstate. destruct (_ <? _), (Streams.locally_closed s id); try done.
  apply step_neutral. transitions.
Qed.
Lemma local_reset_neutral {b} id : keeps (sneutral b) (Streams.send_local_reset id).
Proof.
  intros s. unfold Streams.send_local_reset, mstate. destruct (Streams.stream_map s !! id) as [st|] eqn:Hs; [|done].
  destruct (Stream.state st) as [| | | | |[]]; try done; try apply then_decrease_neutral; (eapply set_stream_neutral; [exact Hs|auto]).
Qed.
Lemma remote_reset_neutral {b} id : keeps (sneutral b) (Streams.recv_remote_reset id).
Proof.
  intros s. unfold Streams.recv_remote_reset, mstate. destruct (_ <? _); [done|].
  destruct (Streams.stream_map s !! id) as [st|] eqn:Hs; [|done]. destruct (Stream.is_closed st); [done|].
  apply then_decrease_neutral. (eapply set_stream_neutral; [exact Hs|auto]).
Qed.
#[export] Hint Resolve send_headers_neutral send_data_neutral recv_headers_neutral recv_data_neutral
  local_reset_neutral remote_reset_neutral : neutral.

(** * The manager *)

Lemma data_sent_app a b : data_sent (a ++ b) = data_sent a + data_sent b.
Proof.
  unfold data_sent. rewrite fmap_app. generalize (data_len <$> a) as x, (data_len <$> b) as y. intros x y.
  unfold zsum. induction x as [|z x IH]; simpl; [done|]. rewrite IH. lia.
Qed.

Lemma data_len_nonneg f : 0 ≤ data_len f.
Proof. unfold data_len. destruct (Frame.payload f); try lia. apply len_nonneg. Qed.

Lemma on_streams_neutral {b A} (f : M Streams.t H2Error A) :
  keeps (sneutral b) f → keeps (cneutral b) (Conn.on_streams f).
Proof. intros H c. unfold Conn.on_streams, mstate. specialize (H (Conn.streams c)). by destruct (f _) as [[]]. Qed.

Lemma send_neutral {b} f : data_len f = 0 → keeps (cneutral b) (Conn.send f).
Proof.
  intros Hf c. unfold Conn.send, mstate. destruct (Conn.input_open c); [|done]. split_and!; [done| |done]. simpl.
  rewrite data_sent_app. unfold data_sent at 2. simpl. rewrite Hf. lia.
Qed.

(** Changes of the fields that are neither the streams nor the frames sent. *)
Lemma other_neutral {b} c c' :
  Conn.streams c' = Conn.streams c → Conn.input_tx c' = Conn.input_tx c → channels c' = channels c →
  (cneutral b) c c'.
Proof. intros H1 H2 H3. unfold cneutral. by rewrite H1, H2, H3. Qed.

Lemma shutdown_neutral {b} : keeps (cneutral b) Conn.shutdown.
Proof. by apply keeps_modify. Qed.
Lemma goaway_neutral {b} : keeps (cneutral b) Conn.goaway.
Proof. by apply keeps_modify. Qed.
Lemma close_requests_neutral {b} : keeps (cneutral b) Conn.close_requests.
Proof. by apply keeps_modify. Qed.
Lemma message_neutral {b} id msg : keeps (cneutral b) (Conn.send_message_to_stream id msg).
Proof.
  intros c. unfold Conn.send_message_to_stream, mstate. destruct (decide _); [|done].
  destruct (Conn.next_delivery c) as [[] ?]; by apply other_neutral.
Qed.
Lemma ignore_neutral {b} x : keeps (cneutral b) x → keeps (cneutral b) (Conn.ignore_result x).
Proof. intros H c. unfold Conn.ignore_result, mstate. specialize (H c). by destruct (x c) as [[]]. Qed.
Lemma ready_neutral {b A} (a : A) : keeps (cneutral b) (Conn.ready a).
Proof. by intros c. Qed.
#[export] Hint Resolve on_streams_neutral send_neutral shutdown_neutral goaway_neutral close_requests_neutral
  message_neutral ignore_neutral ready_neutral : neutral.

Section Handlers.
Context (iter_streams : gmap Z Stream.t → list Z) (iter_ids : gset Z → list Z)
  (iter_messages : gmap Z RespMessage → list Z).

Ltac handler := keep; try (apply keeps_modify; intros ?; by apply other_neutral).

Lemma get_unsent_neutral {b} n : keeps (cneutral b) (Conn.get_unsent_streams iter_streams n).
Proof.
  intros c. unfold Conn.get_unsent_streams. rewrite M_bind_eq. cbn [mgets]. destruct (_ <? _); [done|].
  rewrite M_bind_eq. cbn [mmodify]. etrans; [|apply on_streams_neutral, get_unset_neutral].
  split_and!; [|done..]. by apply fields_neutral.
Qed.

Lemma poll_blocked_neutral {b} k : keeps (cneutral b) (Conn.poll_blocked k).
Proof.
  intros c. unfold Conn.poll_blocked, mstate. destruct (Conn.curr_message c !! k); [|done].
  destruct (Conn.next_delivery c) as [[] sc]; [by apply other_neutral| |by apply other_neutral].
  set (c1 := Conn.set_replies _ _ _ _ _). assert (H1 : (cneutral b) c c1) by (by apply other_neutral).
  assert (Hr : (cneutral b) c1 (Conn.on_streams (Streams.send_local_reset k) c1).2)
    by (apply on_streams_neutral, local_reset_neutral).
  destruct (Streams.stream_state _ k) as [[]|]; try exact H1;
    (destruct (Conn.on_streams (Streams.send_local_reset k) c1) as [[[]| |] c2]; simpl in Hr;
     [etrans; [exact H1|]; etrans; [exact Hr|]; by apply send_neutral|by etrans..]).
Qed.
Lemma poll_all_neutral {b} ks : keeps (cneutral b) (Conn.poll_all ks).
Proof. pose proof (@poll_blocked_neutral b). induction ks; simpl; keep. Qed.
Lemma poll_blocked_message_neutral {b} : keeps (cneutral b) (Conn.poll_blocked_message iter_messages).
Proof. pose proof (@poll_all_neutral b). unfold Conn.poll_blocked_message. keep. Qed.
Lemma poll_blocked_frames_neutral {b} : keeps (cneutral b) (Conn.poll_blocked_frames iter_messages).
Proof. pose proof (@poll_blocked_message_neutral b). unfold Conn.poll_blocked_frames. handler. Qed.

Lemma stream_error_neutral {b} id code : keeps (cneutral b) (Conn.manage_stream_error id code).
Proof. unfold Conn.manage_stream_error. handler. Qed.
Lemma exit_loop_neutral {b} e ids : keeps (cneutral b) (Conn.exit_loop e ids).
Proof. induction ids; simpl; keep. Qed.
Lemma exit_neutral e : keeps (cneutral false) (Conn.exit_with_error iter_streams e).
Proof. pose proof (@exit_loop_neutral false e). unfold Conn.exit_with_error. keep. Qed.
Lemma exit_state_neutral {b} blocked e : keeps (cneutral b) (Conn.exit_state blocked e).
Proof. unfold Conn.exit_state. handler. Qed.
Lemma conn_error_neutral code : keeps (cneutral false) (Conn.manage_conn_error iter_streams code).
Proof. pose proof exit_neutral. pose proof (@exit_state_neutral false). unfold Conn.manage_conn_error. handler. Qed.
Lemma resp_error_neutral e : keeps (cneutral false) (Conn.manage_resp_error iter_streams e).
Proof.
  pose proof exit_neutral. pose proof (@exit_state_neutral false). pose proof (@stream_error_neutral false).
  pose proof conn_error_neutral. unfold Conn.manage_resp_error. keep.
Qed.
Lemma closed_exit_neutral : keeps (cneutral false) (Conn.poll_channel_closed_exit iter_streams).
Proof. pose proof exit_neutral. pose proof (@exit_state_neutral false). unfold Conn.poll_channel_closed_exit. keep. Qed.
Lemma peer_goaway_neutral {b} f p n : data_len f = 0 → keeps (cneutral b) (Conn.send_peer_goaway f p n).
Proof. intros Hf. unfold Conn.send_peer_goaway. handler. Qed.
Lemma deal_go_away_neutral {b} n : keeps (cneutral b) (Conn.poll_deal_with_go_away n).
Proof. pose proof (@peer_goaway_neutral b). unfold Conn.poll_deal_with_go_away. handler. Qed.

Lemma send_frame_neutral f : data_len f = 0 → keeps (cneutral false) (Conn.poll_send_frame f).
Proof. intros Hf. unfold Conn.poll_send_frame. keep. Qed.
Lemma body_error_neutral {b} e : keeps (cneutral b) (Conn.deal_poll_body_error e).
Proof. pose proof (@stream_error_neutral b). unfold Conn.deal_poll_body_error. keep. Qed.

Lemma each_neutral {b A} (f : A → M Conn.t DispatchErrorKind ()) l :
  (∀ x, keeps (cneutral b) (f x)) → keeps (cneutral b) (Conn.each f l).
Proof. intros Hf. induction l; simpl; keep. Qed.
Lemma settings_neutral {b} f s :
  (b = true → walks iter_ids) → data_len f = 0 → keeps (cneutral b) (Conn.recv_settings_frame iter_streams iter_ids f s).
Proof.
  intros Hw Hf. unfold Conn.recv_settings_frame. handler; apply each_neutral; intros x.
  - destruct x; keep.
  - unfold Conn.apply_setting. keep.
Qed.
Lemma ping_neutral {b} f p : keeps (cneutral b) (Conn.recv_ping_frame f p).
Proof. unfold Conn.recv_ping_frame. keep. Qed.
Lemma go_away_neutral {b} code last : keeps (cneutral b) (Conn.recv_go_away_frame iter_streams code last).
Proof. pose proof (@get_unsent_neutral b). pose proof (@exit_loop_neutral b). unfold Conn.recv_go_away_frame. handler. Qed.
Lemma reset_neutral {b} f : keeps (cneutral b) (Conn.recv_reset_frame f).
Proof. unfold Conn.recv_reset_frame. keep. Qed.
Lemma header_neutral {b} f : keeps (cneutral b) (Conn.recv_header_frame f).
Proof. unfold Conn.recv_header_frame. keep. Qed.

Lemma recv_flow_neutral {b} c f :
  FlowControl.send_window f = FlowControl.send_window (Streams.flow_control (Conn.streams c)) →
  (cneutral b) c (Conn.set_streams c (Streams.set_flow (Conn.streams c) f)).
Proof. intros H. split_and!; [|done..]. by apply fields_neutral. Qed.

Lemma window_update_data w id o w' :
  RecvWindow.check_window_update (E := H2Error) w id = Ok (o, w') → ∀ f, o = Some f → data_len f = 0.
Proof.
  unfold RecvWindow.check_window_update. destruct (RecvWindow.unreleased_size w) as [[n|]| |]; simpl; [|by intros [= <- _]|done..].
  destruct (RecvWindow.increase_notification w n); simpl; [|done..]. intros [= <- _] f [= <-]. done.
Qed.

Lemma release_conn_neutral {b} n : keeps (cneutral b) (Conn.release_conn_recv_window n).
Proof.
  intros c. unfold Conn.release_conn_recv_window, mstate. destruct (_ <? _); [done|].
  unfold FlowControl.recv_data, FlowControl.check_conn_recv_window_update.
  destruct (RecvWindow.recv_data _ n) as [w| |]; [|done..]. cbn [mbind res_bind FlowControl.recv_window FlowControl.send_window].
  destruct (RecvWindow.check_window_update w 0) as [[o w']| |] eqn:Hw; [|done..]. cbn [mbind res_bind].
  pose proof (window_update_data _ _ _ _ Hw) as Ho.
  etrans; [apply (recv_flow_neutral c (FlowControl.mk w' (FlowControl.send_window (Streams.flow_control (Conn.streams c))))); done|].
  destruct o as [f|]; [|done]. by apply send_neutral, Ho.
Qed.

Lemma release_stream_neutral {b} id n : keeps (cneutral b) (Conn.release_stream_recv_window id n).
Proof.
  intros c. unfold Conn.release_stream_recv_window, mstate.
  destruct (Streams.stream_map (Conn.streams c) !! id) as [st|] eqn:Hs; [|done].
  assert (Hset : ∀ st', stream_kept b st st' →
      (cneutral b) c (Conn.set_streams c (Streams.set_stream (Conn.streams c) id st')))
    by (intros st'; split; [eapply set_stream_neutral; [exact Hs|done]|done]).
  destruct (_ <? _); [done|]. destruct (RecvWindow.recv_data _ n) as [w| |]; [|done..].
  destruct (RecvWindow.unreleased_size w) as [[k|]| |]; [|by apply Hset; auto..].
  destruct (negb _); [by apply Hset; auto|].
  destruct (RecvWindow.check_window_update w id) as [[o w']| |] eqn:Hw; [|by apply Hset; auto..].
  pose proof (window_update_data _ _ _ _ Hw) as Ho. 
  etrans; [apply (Hset (Stream.set_recv (Stream.set_recv st w) w')); auto|].
  destruct o as [f|]; [|done]. by apply send_neutral, Ho.
Qed.

Lemma data_frame_neutral {b} f d : keeps (cneutral b) (Conn.recv_data_frame f d).
Proof.
  pose proof (@release_conn_neutral b). pose proof (@release_stream_neutral b).
  unfold Conn.recv_data_frame, Conn.update_window. keep.
Qed.

Lemma stream_window_neutral {b} f n : Frame.id f ≠ 0 → keeps (cneutral b) (Conn.recv_window_frame f n).
Proof. intros Hf. unfold Conn.recv_window_frame. rewrite (proj2 (Z.eqb_neq _ _)) by done. keep. Qed.

(** Frames that grant nothing on the connection. *)
Definition grants (f : Frame.t) : Z :=
  match Frame.payload f with Payload.WindowUpdate n => if Frame.id f =? 0 then n else 0 | _ => 0 end.
Definition is_grant (f : Frame.t) : bool :=
  match Frame.payload f with Payload.WindowUpdate _ => Frame.id f =? 0 | _ => false end.

Lemma recv_frame_neutral {b} f :
  (b = true → walks iter_ids) → is_grant f = false → keeps (cneutral b) (Conn.poll_recv_frame iter_streams iter_ids f).
Proof.
  pose proof (@settings_neutral b). pose proof (@ping_neutral b). pose proof (@go_away_neutral b). pose proof (@reset_neutral b).
  pose proof (@header_neutral b). pose proof (@data_frame_neutral b). pose proof (@stream_window_neutral b).
  intros Hw Hg. unfold Conn.poll_recv_frame, is_grant in *. destruct (Frame.payload f) eqn:Hp; keep.
  - apply settings_neutral; [done|]. unfold data_len. by rewrite Hp.
  - apply stream_window_neutral. by apply Z.eqb_neq.
Qed.
End Handlers.
