(* ===== verification/H2ConnSafety.v ===== *)
(** Safety of the connection manager: over any sequence of polls, messages, requests
    and closed channels, the DATA the client has sent stays within what the peer has
    granted, and a new request never takes the number of another stream. *)
From S2P Require Import Prelude Buffers H2Error Parts H2Frame H2FrameValid H2Window H2Streams H2Conn H2ConnNeutral.

(** * The connection's send window *)

Definition swsize (s : Streams.t) : Z := SendWindow.size (FlowControl.send_window (Streams.flow_control s)).
Definition wsize (c : Conn.t) : Z := swsize (Conn.streams c).

(** The numbers of the streams, unchanged. *)
Definition sids (s s' : Streams.t) : Prop :=
  dom (Streams.stream_map s') = dom (Streams.stream_map s) ∧ Streams.next_stream_id s' = Streams.next_stream_id s ∧
  (headers_ok s → headers_ok s').
Definition same_ids (c c' : Conn.t) : Prop :=
  sids (Conn.streams c) (Conn.streams c') ∧ channels c' = channels c.
#[export] Instance same_ids_trans : Transitive same_ids.
Proof. intros a b c [(?&?&?) ?] [(?&?&?) ?]. split; [split_and!; [congruence..|auto]|congruence]. Qed.

Lemma cneutral_ids c c' : (cneutral false) c c' → same_ids c c'.
Proof. by intros [(_ & ? & ? & ? & _) [_ ?]]. Qed.

(** What is sent and what may still be sent stay below [limit]. *)
Definition fits (limit : Z) (c : Conn.t) : Prop :=
  0 ≤ wsize c < 2 ^ 31 ∧ data_sent (Conn.input_tx c) + wsize c ≤ limit.

Lemma cneutral_fits l c c' : (cneutral false) c c' → fits l c → fits l c'.
Proof. intros ([Hw _] & Hd & _) [H1 H2]. unfold fits, wsize, swsize in *. by rewrite Hd, Hw. Qed.

Lemma poll_read_fits id s r s' :
  0 ≤ swsize s < 2 ^ 31 → Streams.poll_read_body id s = (r, s') →
  sids s s' ∧
  match r with
  | Ok (ReadReady f) => swsize s' = swsize s - data_len f ∧ 0 ≤ swsize s'
  | Ok (ReadFinish f) => swsize s' = swsize s ∧ data_len f = 0
  | _ => swsize s' = swsize s
  end.
Proof.
  intros Hw. unfold Streams.poll_read_body, mstate.
  destruct (Streams.stream_map s !! id) as [st|] eqn:Hs; [|by intros [= <- <-]].
  destruct (Stream.is_closed st); [by intros [= <- <-]|]. destruct (_ =? 0); [by intros [= <- <-]|].
  unfold FlowControl.send_size_available. destruct (Z.eqb_spec (SendWindow.size_available
    (FlowControl.send_window (Streams.flow_control s))) 0) as [|Hn]; [by intros [= <- <-]|].
  pose proof (size_available_spec (FlowControl.send_window (Streams.flow_control s))
    ltac:(unfold is_i32, swsize in *; lia)) as Hsz. rewrite Hsz in *. fold (swsize s) in *. clear Hsz.
  set (cap := Z.min _ DEFAULT_MAX_FRAME_SIZE). assert (Hcap : cap ≤ swsize s) by lia.
  unfold Streams.poll_sized_data, mstate. rewrite Hs.
  assert (Hset : ∀ st', header_kept st st' →
    sids s (Streams.set_stream s id st') ∧ swsize (Streams.set_stream s id st') = swsize s).
  { intros st' Hk. assert (Hkk : stream_kept false st st') by done.
    destruct (set_stream_neutral s id st st' Hs Hkk) as (? & ? & ? & ? & _). split; [by split|].
    unfold swsize. congruence. }
  destruct (BodyDataRef.poll_read (Stream.data st) cap) as [p d] eqn:Hp.
  assert (Hb : ∀ b, p = PReady (Some b) → 0 < len b → len b ≤ cap).
  { intros b -> Hb. unfold BodyDataRef.poll_read in Hp.
    destruct (BodyDataRef.body (Stream.data st)) as [[|[| |b'] es]|]; try (simplify_eq/=; by vm_compute in Hb).
    destruct (Z.leb_spec (len b') cap); simplify_eq/=; [done|].
    destruct (Z_lt_le_dec cap 0) as [Hneg|]; [rewrite upto_0 in Hb by lia; by vm_compute in Hb|].
    rewrite len_upto by lia. lia. }
  destruct p as [[b|]|]; [|by intros [= <- <-]; apply Hset; left|by intros [= <- <-]; apply Hset; left].
  destruct (Z.ltb_spec 0 (len b)) as [Hlb|]; [|by intros [= <- <-]; split; [apply Hset; by left|split; [apply Hset; by left|]]].
  pose proof (Hb b eq_refl Hlb) as Hle.
  destruct (SendWindow.send_data _ (len b)) as [w| |]; [|by intros [= <- <-]; apply Hset; left..].
  unfold FlowControl.send_data, SendWindow.send_data. fold (swsize s).
  change (2 ^ 31) with 2147483648 in *. rewrite as_i32_small by (change (2 ^ 31) with 2147483648; lia).
  rewrite i32_arith_ok by (unfold is_i32; change (2 ^ 31) with 2147483648; lia). cbn [mbind res_bind].
  intros [= <- <-]. split; [by apply (Hset (Stream.set_send (Stream.set_data st d) w)); left|].
  change (swsize (Streams.set_flow _ _)) with (swsize s - len b).
  change (data_len (Streams.data_frame id b)) with (len b). lia.
Qed.

Lemma send_frame_adds f c l :
  fits l c → data_len f + (data_sent (Conn.input_tx c) + wsize c) ≤ l →
  fits l (Conn.poll_send_frame f c).2 ∧ same_ids c (Conn.poll_send_frame f c).2.
Proof.
  intros Hf Hl. unfold Conn.poll_send_frame. rewrite M_bind_eq.
  match goal with |- context [match ?x c with _ => _ end] => set (y := x) end.
  assert (Hy : keeps (cneutral false) y) by (unfold y; keep). specialize (Hy c).
  destruct (y c) as [[[]| |] c1]; simpl in Hy; [|split; [by eapply cneutral_fits|by apply cneutral_ids]..].
  assert (Hf1 : fits l c1) by (by eapply cneutral_fits). apply cneutral_ids in Hy as Hi.
  unfold Conn.send, mstate. destruct (Conn.input_open c1); [|done]. split; [|done].
  destruct Hf1 as [Hw1 _]. split; [done|]. simpl. rewrite data_sent_app. unfold data_sent at 2. simpl.
  destruct Hy as ([Hw _] & Hd & _). unfold wsize, swsize in *. simpl. rewrite Hd, Hw. lia.
Qed.

Lemma bind_ret_2 {S E A B} (x : M S E A) (b : A → B) s : ((a ← x; mret (b a)) s : res E B * S).2 = (x s).2.
Proof. rewrite M_bind_eq. by destruct (x s) as [[]]. Qed.

Lemma body_turn_fits id c l :
  fits l c → fits l (Conn.body_turn id c).2 ∧ same_ids c (Conn.body_turn id c).2.
Proof.
  intros Hc. unfold Conn.body_turn, Conn.on_streams, mstate.
  destruct (Streams.poll_read_body id (Conn.streams c)) as [r s] eqn:Hp.
  pose proof Hc as [Hw Hl]. destruct (poll_read_fits _ _ _ _ Hw Hp) as [Hi Hr].
  assert (Hids : same_ids c (Conn.set_streams c s)) by done.
  assert (Hkeep : swsize s = swsize (Conn.streams c) → fits l (Conn.set_streams c s)).
  { intros He. unfold fits, wsize in *. simpl. by rewrite He. }
  destruct r as [[| |f|f]|e|]; simpl in Hr; try rewrite bind_ret_2;
    [by split; [apply Hkeep|]|by split; [apply Hkeep|]| | | |by split; [apply Hkeep|]].
  - destruct Hr as [Hr Hr0]. pose proof (data_len_nonneg f).
    assert (Hfit : fits l (Conn.set_streams c s)) by (unfold fits, wsize in *; simpl; lia).
    destruct (send_frame_adds f _ l Hfit) as [H1 H2]; [unfold wsize in *; simpl; lia|]. split; [done|by etrans].
  - destruct Hr as [Hr Hd]. specialize (Hkeep Hr).
    destruct (send_frame_adds f _ l Hkeep) as [H1 H2]; [destruct Hkeep as [_ Hk]; lia|]. split; [done|by etrans].
  - specialize (Hkeep Hr). pose proof (body_error_neutral (b := false) (DispatchH2 e) (Conn.set_streams c s)) as Hn.
    split; [by eapply cneutral_fits|]. etrans; [exact Hids|by apply cneutral_ids].
Qed.

(** * Reachable states *)

(** The numbers in use: odd, and below the next one. *)
Definition ids_ok (s : Streams.t) : Prop :=
  (∀ id, id ∈ dom (Streams.stream_map s) → Z.odd id = true ∧ 0 < id < Streams.next_stream_id s) ∧
  Z.odd (Streams.next_stream_id s) = true ∧ 0 < Streams.next_stream_id s ≤ 2 ^ 31 + 1.

(** What the messages of a channel grant. *)
Definition granted (msgs : list OutputMessage) : Z :=
  zsum ((λ m, match m with MsgOutput f => grants f | MsgOutputExit _ => 0 end) <$> msgs).
Lemma granted_cons m ms : granted (m :: ms) = granted [m] + granted ms.
Proof. unfold granted. rewrite !fmap_cons. unfold zsum. cbn [foldr]. rewrite fmap_nil. cbn [foldr]. lia. Qed.
Definition message_ok (m : OutputMessage) : Prop :=
  match m with MsgOutput f => ∃ max, frame_wf max f | MsgOutputExit _ => True end.

(** A request opens its stream with HEADERS. *)
Definition request_ok (r : RequestWrapper) : Prop := ∃ p, r_payload r = Payload.Headers p.

(** The grants that still wait in the channel are kept aside. *)
Definition inv (limit : Z) (c : Conn.t) : Prop :=
  fits (limit - granted (Conn.resp_rx c)) c ∧ ids_ok (Conn.streams c) ∧ headers_ok (Conn.streams c) ∧
  Forall message_ok (Conn.resp_rx c) ∧ Forall request_ok (Conn.req_rx c).
Definition inv_kept (limit : Z) (c c' : Conn.t) : Prop := inv limit c → inv limit c'.

#[export] Instance inv_kept_refl l : Reflexive (inv_kept l).
Proof. by intros c H. Qed.
#[export] Instance inv_kept_trans l : Transitive (inv_kept l).
Proof. intros a b c H1 H2 H. auto. Qed.

Lemma same_ids_inv l c c' :
  (∀ k, fits k c → fits k c') → same_ids c c' → inv l c → inv l c'.
Proof.
  intros Hf [(Hd & Hn & Hh) Hr] (Hw & Hi & Hk & Hm). injection Hr as Hr1 Hr2. unfold inv, ids_ok in *.
  rewrite Hd, Hn, Hr1, Hr2. auto.
Qed.

Lemma neutral_inv {A} l (x : M Conn.t DispatchErrorKind A) : keeps (cneutral false) x → keeps (inv_kept l) x.
Proof.
  intros H c Hc. specialize (H c). apply same_ids_inv with c; [|by apply cneutral_ids|done].
  intros k. by apply cneutral_fits.
Qed.

Section Runs.
Context (iter_streams : gmap Z Stream.t → list Z) (iter_ids : gset Z → list Z)
  (iter_messages : gmap Z RespMessage → list Z).

Lemma body_inv l n id : keeps (inv_kept l) (loop (Conn.body_turn id) n).
Proof.
  apply keeps_loop; [apply _..|].
  intros c Hc. apply same_ids_inv with c; [intros k|destruct Hc as [Hf _]|done]; by eapply body_turn_fits.
Qed.

Lemma input_stream_inv l id : keeps (inv_kept l) (Conn.input_stream_frame id).
Proof.
  intros c Hc. unfold Conn.input_stream_frame. rewrite M_bind_eq.
  assert (H1 : inv l (Conn.on_streams (Streams.headers id) c).2)
    by exact (neutral_inv l _ (on_streams_neutral _ (headers_neutral id)) c Hc).
  assert (Hh : ∀ f, (Conn.on_streams (Streams.headers id) c).1 = Ok (Some f) → data_len f = 0).
  { intros f. unfold Conn.on_streams, Streams.headers, mstate.
    destruct (Streams.stream_map (Conn.streams c) !! id) as [st|] eqn:Hs; [|done].
    destruct (Stream.is_closed st); [done|]. intros [= Hf]. destruct Hc as (_ & _ & Hk & _).
    apply headers_no_data. by apply (Hk id st Hs). }
  destruct (Conn.on_streams (Streams.headers id) c) as [[[f|]| |] c1]; simpl in *; [| |done..].
  - assert (Hb : keeps (inv_kept l) (_ ← Conn.poll_send_frame f;
      if FrameFlags.is_end_stream (Frame.flags f) then mret () else s ← mgets Conn.streams; loop (Conn.body_turn id) (Conn.body_fuel s id))).
    { pose proof (body_inv l). pose proof (neutral_inv (A := ()) l). pose proof (send_frame_neutral f (Hh f eq_refl)). keep. }
    by apply Hb.
  - by apply body_inv.
Qed.

Lemma input_loop_inv l n : keeps (inv_kept l) (Conn.input_loop n).
Proof.
  pose proof (input_stream_inv l).
  induction n; simpl; keep; apply neutral_inv, on_streams_neutral; auto with neutral.
Qed.
Lemma poll_input_inv l : keeps (inv_kept l) Conn.poll_input_request.
Proof.
  pose proof (input_loop_inv l). unfold Conn.poll_input_request. keep.
  apply neutral_inv, on_streams_neutral; auto with neutral.
Qed.

(** A request takes the next number. *)
Definition taking (l id : Z) (c : Conn.t) : Prop :=
  inv l c ∧ Z.odd id = true ∧ 0 < id < Streams.next_stream_id (Conn.streams c).
Definition taking_kept (l id : Z) (c c' : Conn.t) : Prop := taking l id c → taking l id c'.
#[export] Instance taking_kept_refl l id : Reflexive (taking_kept l id).
Proof. by intros c H. Qed.
#[export] Instance taking_kept_trans l id : Transitive (taking_kept l id).
Proof. intros a b c H1 H2 H. auto. Qed.

Lemma neutral_taking {A} l id (x : M Conn.t DispatchErrorKind A) : keeps (cneutral false) x → keeps (taking_kept l id) x.
Proof.
  intros H c [Hc Hn]. split; [by apply (neutral_inv l x H)|]. destruct (H c) as [(_ & _ & He & _) _]. by rewrite He.
Qed.

Lemma insert_taking l id f d :
  is_headers f → Frame.id f = id → keeps (taking_kept l id) (Conn.on_streams (Streams.insert id f d)).
Proof.
  intros Hf Hfid c [(Hw & (Hi & Ho & Hn) & Hk & Hm) Hid]. split; [|done]. split_and!; [done| | |by apply Hm..].
  - split; [|done]. intros k. unfold Conn.on_streams, Streams.insert, mmodify, mstate. simpl.
    rewrite dom_insert_L. intros [->%elem_of_singleton|H]%elem_of_union; [done|by apply Hi].
  - apply map_Forall_insert_2; [|done]. intros g [= <-]. done.
Qed.

Lemma recv_request_inv l r : request_ok r → keeps (inv_kept l) (Conn.recv_request r).
Proof.
  intros [p Hp] c Hc. unfold Conn.recv_request, Streams.generate_id, mstate. pose proof Hc as (Hf & (Hi & Ho & Hn) & Hk & Hm).
  set (id := Streams.next_stream_id (Conn.streams c)) in *.
  destruct (Z.ltb_spec id DEFAULT_MAX_STREAM_ID) as [Hlt|]; [|done].
  change DEFAULT_MAX_STREAM_ID with 2147483647 in Hlt. unfold u32_arith.
  rewrite (proj2 (Z.leb_le _ _)), (proj2 (Z.ltb_lt _ _)) by (change (2 ^ 32) with 4294967296; lia). cbn [andb].
  set (c1 := Conn.set_streams c _). set (x := mbind _ _).
  assert (Hx : keeps (taking_kept l id) x).
  { pose proof (neutral_taking (A := ()) l id) as Hnt.
    pose proof (insert_taking l id (Frame.mk id (r_flag r) (r_payload r)) (r_data r) ltac:(by exists p) eq_refl).
    unfold x. keep; try (apply neutral_taking, on_streams_neutral; auto with neutral).
    apply neutral_taking, keeps_modify. intros s. by apply other_neutral. }
  apply Hx. split; [|split; [done|unfold c1; simpl; lia]]. split_and!; [done| |done|by apply Hm..].
  split_and!; simpl; [|by rewrite Z.odd_add, Ho|change (2 ^ 31) with 2147483648; lia..].
  intros k Hk'. destruct (Hi k Hk'). split; [done|lia].
Qed.

Lemma request_turn_inv l : keeps (inv_kept l) Conn.request_turn.
Proof.
  intros c Hc. unfold Conn.request_turn. rewrite M_bind_eq. cbn [mgets].
  destruct (Conn.req_rx c) as [|r q] eqn:Hq; [rewrite M_bind_eq; cbn [mgets]; by destruct (Conn.req_closed c)|].
  rewrite M_bind_eq. cbn [mmodify]. rewrite bind_ret_2. set (c1 := Conn.set_channels _ _ _ _).
  pose proof Hc as (Hf & Hi & Hk & Hm & Hr). rewrite Hq in Hr. inversion Hr; subst.
  apply recv_request_inv; [done|]. split_and!; try done; apply Hi.
Qed.

Lemma pending_inv l : keeps (inv_kept l) Conn.manage_pending_state.
Proof.
  pose proof (poll_input_inv l).
  pose proof (λ n, keeps_loop (inv_kept l) Conn.request_turn n (request_turn_inv l)). pose proof (neutral_inv (A := ()) l) as Hn.
  pose proof (@deal_go_away_neutral false). unfold Conn.manage_pending_state, Conn.poll_recv_request. keep.
Qed.

(** A message taken off the channel: what it grants is set free. *)
Lemma grant_inv l f n c :
  Frame.payload f = Payload.WindowUpdate n → Frame.id f = 0 → 1 ≤ n < 2 ^ 31 → inv (l - n) c →
  inv l (Conn.recv_window_frame f n c).2.
Proof.
  intros Hp Hid Hn (([Hw0 Hw1] & Hl) & Hi & Hk & Hm). unfold Conn.recv_window_frame. rewrite Hid. cbn [Z.eqb].
  assert (Hmore : inv l c) by (split_and!; [split; [done|lia]|done..|by apply Hm|by apply Hm]).
  rewrite M_bind_eq. unfold Conn.on_streams at 1, Streams.increase_conn_send_window, mstate.
  unfold FlowControl.increase_send_size, SendWindow.increase_size. rewrite as_i32_small by lia.
  change (SendWindow.size (FlowControl.send_window (Streams.flow_control (Conn.streams c)))) with (wsize c).
  destruct (in_i32 (wsize c + n)) eqn:Hr; simpl; [|done]. destruct (_ <? _); simpl; [done|].
  unfold in_i32 in Hr. zbool. split_and!; [|done..|by apply Hm|by apply Hm].
  unfold fits, wsize, swsize in *. simpl in *. change (2 ^ 31) with 2147483648 in *. lia.
Qed.

Lemma recv_frame_inv l f c :
  (∃ max, frame_wf max f) → inv (l - grants f) c →
  inv l (Conn.poll_recv_frame iter_streams iter_ids f c).2.
Proof.
  intros [max Hf] Hc. destruct (is_grant f) eqn:Hg.
  - unfold is_grant, grants in *. destruct f as [id fl p]. simpl in *. destruct p; try done. rename window_size_increment into increment.
    rewrite Hg in Hc. apply Z.eqb_eq in Hg as ->.
    assert (Hn : 1 ≤ increment < 2 ^ 31) by (by apply Hf).
    pose proof (grant_inv l (Frame.mk 0 fl (Payload.WindowUpdate increment)) increment c eq_refl eq_refl Hn Hc) as H.
    unfold Conn.poll_recv_frame. cbn [Frame.payload]. rewrite M_bind_eq.
    by destruct (Conn.recv_window_frame _ _ c) as [[]].
  - assert (grants f = 0) as Hz by (unfold is_grant, grants in *; destruct (Frame.payload f); try done; by rewrite Hg).
    rewrite Hz, Z.sub_0_r in Hc. apply (neutral_inv l); [|done]. by apply recv_frame_neutral.
Qed.

Lemma recv_message_inv l f c :
  (∃ max, frame_wf max f) → inv (l - grants f) c → inv l (Conn.poll_recv_message iter_streams iter_ids f c).2.
Proof.
  intros Hf Hc. unfold Conn.poll_recv_message, mstate. pose proof (recv_frame_inv l f c Hf Hc) as H.
  destruct (Conn.poll_recv_frame iter_streams iter_ids f c) as [[[[]|]|e|] c1]; simpl in H; [done| | |done].
  - apply (neutral_inv l (mmodify (λ c, Conn.set_state c MSend MReceive))); [|done].
    apply keeps_modify. intros ?. by apply other_neutral.
  - by apply (neutral_inv l _ (resp_error_neutral iter_streams e)).
Qed.

Lemma poll_message_inv l m c :
  message_ok m → inv (l - granted [m]) c → inv l (Conn.poll_message iter_streams iter_ids m c).2.
Proof.
  unfold granted, zsum. destruct m as [f|e]; simpl; rewrite Z.add_0_r; [by apply recv_message_inv|]. rewrite Z.sub_0_r.
  intros _. assert (Hk : keeps (inv_kept l) (Conn.poll_message iter_streams iter_ids (MsgOutputExit e))); [|by apply Hk].
  apply neutral_inv. pose proof (resp_error_neutral iter_streams). simpl. keep.
Qed.

Lemma poll_turn_inv l : keeps (inv_kept l) (Conn.poll_turn iter_streams iter_ids iter_messages).
Proof.
  pose proof (neutral_inv (A := poll ()) l) as Hn. pose proof (poll_blocked_frames_neutral (b := false) iter_messages).
  pose proof (closed_exit_neutral iter_streams). pose proof (pending_inv l).
  apply keeps_then; [apply _|keep|intros st]. destruct st; [keep| |keep]. intros c Hc. rewrite M_bind_eq. cbn [mgets].
  destruct (Conn.resp_rx c) as [|m q] eqn:Hq.
  - assert (Hk : keeps (inv_kept l) (closed ← mgets Conn.resp_closed;
      if closed : bool then p ← Conn.poll_channel_closed_exit iter_streams; mret (Some p)
      else _ ← Conn.manage_pending_state; mret (Some PPending))) by keep. by apply Hk.
  - rewrite M_bind_eq. cbn [mmodify]. rewrite bind_ret_2.
    pose proof Hc as (Hf & Hi & Hk & Hm & Hr). rewrite Hq in *. inversion Hm; subst.
    apply poll_message_inv; [done|]. split_and!; try done; try apply Hi. destruct Hf as [Hw Hl]. split; [done|].
    simpl in *. rewrite granted_cons in Hl. unfold wsize, swsize in *. simpl. lia.
Qed.
Lemma poll_inv l : keeps (inv_kept l) (Conn.poll_manager iter_streams iter_ids iter_messages).
Proof.
  unfold Conn.poll_manager. keep. apply keeps_loop; [apply _..|apply poll_turn_inv].
Qed.

(** What happens to a connection: the manager is polled, the tasks that read the
    socket, write it and make requests use their ends of the channels or drop them,
    and the client's SETTINGS are sent. *)
Inductive event :=
| EvPoll
| EvMessage (m : OutputMessage)
| EvReaderGone
| EvWriterGone
| EvRequest (r : RequestWrapper)
| EvRequestsGone
| EvSettingsSent (s : Settings.t).

Definition exec (e : event) : Conn.m () :=
  match e with
  | EvPoll => _ ← Conn.poll_manager iter_streams iter_ids iter_messages; mret ()
  | EvMessage m => mmodify (λ c, Conn.set_channels c (Conn.resp_rx c ++ [m]) (Conn.resp_closed c) (Conn.req_rx c))
  | EvReaderGone => mmodify (λ c, Conn.set_channels c (Conn.resp_rx c) true (Conn.req_rx c))
  | EvWriterGone => mmodify Conn.close_input
  | EvRequest r => mmodify (λ c, Conn.set_channels c (Conn.resp_rx c) (Conn.resp_closed c) (Conn.req_rx c ++ [r]))
  | EvRequestsGone => Conn.close_requests
  | EvSettingsSent s => mmodify (λ c, Conn.set_settings c (Acknowledging s))
  end.
(** The manager is not polled again after it returns. *)
Fixpoint run (evs : list event) : Conn.m () :=
  match evs with [] => mret () | e :: evs => _ ← exec e; run evs end.

Definition event_ok (e : event) : Prop :=
  match e with EvMessage m => message_ok m | EvRequest r => request_ok r | _ => True end.
Definition event_grant (e : event) : Z := match e with EvMessage m => granted [m] | _ => 0 end.
(** What the peer has granted on the connection, beyond the initial window. *)
Definition peer_granted (evs : list event) : Z := zsum (event_grant <$> evs).

Lemma granted_app a b : granted (a ++ b) = granted a + granted b.
Proof. induction a as [|m a IH]; [done|]. rewrite <- app_comm_cons, (granted_cons m (a ++ b)), (granted_cons m a), IH. lia. Qed.

Lemma inv_channels l c resp b reqs :
  inv l c → Forall message_ok resp → Forall request_ok reqs →
  inv (l + granted resp - granted (Conn.resp_rx c)) (Conn.set_channels c resp b reqs).
Proof.
  intros ([Hw Hl] & Hi & Hk & _) Hm Hr. split_and!; try done; try apply Hi. split; [done|].
  unfold wsize, swsize in *. simpl in *. lia.
Qed.

Lemma exec_inv l e c : event_ok e → inv l c → inv (l + event_grant e) (exec e c).2.
Proof.
  intros He Hc. pose proof Hc as (_ & _ & _ & Hm & Hr).
  assert (Hsame : ∀ x : Conn.m (), keeps (cneutral false) x → event_grant e = 0 → inv (l + event_grant e) (x c).2).
  { intros x Hx ->. rewrite Z.add_0_r. by apply (neutral_inv l x Hx). }
  destruct e as [|m| | |r| |st]; [|cbn [exec event_grant event_ok] in *| | |cbn [exec event_grant event_ok] in *| |];
    try (apply Hsame; [|reflexivity]; apply keeps_modify; intros ?; by apply other_neutral).
  - cbn [exec event_grant]. rewrite bind_ret_2, Z.add_0_r. by apply poll_inv.
  - replace (l + granted [m]) with (l + granted (Conn.resp_rx c ++ [m]) - granted (Conn.resp_rx c))
      by (rewrite granted_app; lia).
    apply inv_channels; [done| |done]. apply Forall_app_2; [done|by constructor].
  - rewrite Z.add_0_r. replace l with (l + granted (Conn.resp_rx c) - granted (Conn.resp_rx c)) by lia.
    apply inv_channels; [done|done|]. apply Forall_app_2; [done|by constructor].
Qed.

Lemma event_grant_nonneg e : event_ok e → 0 ≤ event_grant e.
Proof.
  destruct e as [|[f|]| | | | |]; simpl; try done. intros [max Hf]. unfold granted, zsum. simpl. rewrite Z.add_0_r.
  unfold grants, frame_wf in *. destruct (Frame.payload f); try done. destruct (_ =? _); lia.
Qed.

Lemma run_inv l evs c : Forall event_ok evs → inv l c → ∃ k, k ≤ l + peer_granted evs ∧ inv k (run evs c).2.
Proof.
  intros H. revert l c. induction H as [|e evs He Hevs IH]; intros l c Hc;
    [exists l; split; [unfold peer_granted; simpl; lia|done]|].
  assert (Hp : peer_granted (e :: evs) = event_grant e + peer_granted evs) by done.
  assert (H0 : 0 ≤ peer_granted evs).
  { apply zsum_nonneg. apply Forall_fmap. eapply Forall_impl; [|exact Hevs]. intros x. apply event_grant_nonneg. }
  cbn [run]. rewrite M_bind_eq. pose proof (exec_inv l e c He Hc) as H1.
  destruct (exec e c) as [[[]| |] c1]; simpl in H1;
    [destruct (IH _ _ H1) as (k & Hk & Hi); exists k; split; [lia|done]|exists (l + event_grant e); split; [lia|done]..].
Qed.

Lemma connected_inv cfg script r c :
  Conn.dispatcher_new cfg script = Ok (r, c) → inv DEFAULT_WINDOW_SIZE c.
Proof.
  unfold Conn.dispatcher_new.
  destruct (FlowControl.setup_recv_window _ _) as [f| |] eqn:Hf; [|done..]. cbn [mbind res_bind].
  set (x := mbind _ _). set (c0 := Conn.new _ _). intros [= Hc].
  assert (Hx : keeps (cneutral false) x) by (unfold x; pose proof (release_conn_neutral (b := false) 0); keep).
  replace c with (x c0).2 by (by rewrite Hc). apply (neutral_inv _ x Hx). clear Hc Hx x.
  assert (Hs : FlowControl.send_window f = SendWindow.mk DEFAULT_WINDOW_SIZE).
  { unfold FlowControl.setup_recv_window in Hf.
    set (w := if Z.ltb _ _ then _ else _) in Hf. destruct w; [|done..]. by injection Hf as <-. }
  split_and!; [|split_and!; try done; intros id; simpl; rewrite dom_empty_L; set_solver|by apply map_Forall_empty|by constructor..].
  unfold fits, wsize, swsize, c0. simpl. rewrite Hs. by vm_compute.
Qed.

(** C1: Flow control over the life of a connection: whatever frames a peer sends
    (well formed, as the frame decoder hands them out), whatever requests are made
    and however the channels fill up, the DATA the client has handed to the socket
    never exceeds the initial window and what the peer's WINDOW_UPDATEs of the
    connection have granted since. *)
Theorem conn_never_oversends cfg script c0 evs :
  Conn.dispatcher_new cfg script = Ok (Ok (), c0) → Forall event_ok evs →
  data_sent (Conn.input_tx (run evs c0).2) ≤ DEFAULT_WINDOW_SIZE + peer_granted evs.
Proof.
  intros Hc He. destruct (run_inv _ evs c0 He (connected_inv _ _ _ _ Hc)) as (k & Hk & ([Hw Hl] & _ & _ & Hm & _)).
  assert (0 ≤ granted (Conn.resp_rx (run evs c0).2)); [|lia].
  apply zsum_nonneg. apply Forall_fmap. eapply Forall_impl; [|exact Hm]. intros [f|] Hf; simpl; [|done].
  pose proof (event_grant_nonneg (EvMessage (MsgOutput f)) Hf) as H. simpl in H. unfold granted, zsum in H. simpl in H. lia.
Qed.

(** C33: The numbers of the streams: at any point of a connection's life, the next
    request that the manager takes gets a stream of its own, with an odd number that
    no stream has had, opened with the request's HEADERS and queued to be sent or to
    wait for a slot; the other streams are untouched.  When the numbers are used up,
    the request is turned down and nothing else changes. *)
Theorem request_opens_stream cfg script c0 evs r c o c' :
  Conn.dispatcher_new cfg script = Ok (Ok (), c0) → Forall event_ok evs →
  run evs c0 = (Ok (), c) → Conn.recv_request r c = (o, c') →
  match o with
  | Ok true => ∃ id st, Z.odd id = true ∧ 0 < id < 2 ^ 31 ∧ Streams.stream_map (Conn.streams c) !! id = None ∧
      Streams.stream_map (Conn.streams c') = <[id := st]> (Streams.stream_map (Conn.streams c)) ∧
      Stream.state st = Idle ∧ Stream.header st = Some (Frame.mk id (r_flag r) (r_payload r)) ∧
      Stream.data st = r_data r ∧
      id ∈ Streams.pending_concurrency (Conn.streams c') ++ Streams.pending_send (Conn.streams c')
  | Ok false => 2 ^ 31 - 1 ≤ Streams.next_stream_id (Conn.streams c) ∧
      c' = Conn.set_rejected c (Conn.rejected c ++ [DispatchH2 (ConnectionError ProtocolError)])
  | Err _ => False
  | Panic => ¬ is_u32 (Streams.current_concurrent_streams (Conn.streams c) + 1)
  end.
Proof.
  intros Hc He Hr. destruct (run_inv _ evs c0 He (connected_inv _ _ _ _ Hc)) as (k & _ & (_ & (Hi & Ho & Hn) & _)).
  rewrite Hr in Hi, Ho, Hn. simpl in Hi, Ho, Hn. unfold Conn.recv_request, Streams.generate_id, mstate.
  set (id := Streams.next_stream_id (Conn.streams c)) in *.
  change DEFAULT_MAX_STREAM_ID with 2147483647. change (2 ^ 31) with 2147483648 in *.
  destruct (Z.ltb_spec id 2147483647) as [Hlt|Hge]; [|intros [= <- <-]; split; [lia|by destruct c]].
  rewrite (u32_arith_ok (id + 2)) by (unfold is_u32; lia).
  assert (Hfresh : Streams.stream_map (Conn.streams c) !! id = None).
  { apply not_elem_of_dom. intros Hin. destruct (Hi id Hin). lia. }
  assert (Hpend : ∀ x y : list Z, id ∈ (x ++ [id]) ++ y) by (clear; set_solver).
  assert (Hpend' : ∀ x y : list Z, id ∈ x ++ y ++ [id]) by (clear; set_solver).
  rewrite M_bind_eq. cbn [mgets]. rewrite M_bind_eq. destruct (_ || _).
  - intros [= <- <-]. eexists id, _. split_and!; first [done|lia|apply Hpend].
  - rewrite M_bind_eq. unfold Conn.on_streams at 1, Streams.increase_current_concurrency, mstate. simpl.
    unfold u32_arith, is_u32. destruct (_ && _) eqn:Hu.
    + intros [= <- <-]. eexists id, _. split_and!; first [done|lia|apply Hpend'].
    + intros [= <- <-]. zbool. change (2 ^ 32) with 4294967296 in *. lia.
Qed.
End Runs.

(** ** A connection at work *)

Definition all_streams (m : gmap Z Stream.t) : list Z := (map_to_list m).*1.
Definition all_ids (X : gset Z) : list Z := elements X.
Definition all_messages (m : gmap Z RespMessage) : list Z := (map_to_list m).*1.

(** A request with a body of three bytes, that then has nothing ready. *)
Definition sample_request : RequestWrapper :=
  mk_request 0x4 (Payload.Headers Parts.new) (BodyDataRef.mk (Some [BRead [97; 98; 99]; BPending])).
Definition sample_grant : Frame.t := Frame.mk 0 0 (Payload.WindowUpdate 10).
Definition sample_events : list event :=
  [EvRequest sample_request; EvMessage (MsgOutput sample_grant); EvPoll].
Definition connected : Conn.t :=
  match Conn.dispatcher_new H2Config.default [] with Ok (_, c) => c | _ => Conn.new (Streams.new 0 0 (FlowControl.new 0 0)) [] end.
Definition sample_run : Conn.t := (run all_streams all_ids all_messages sample_events connected).2.

Lemma sample_events_ok : Forall event_ok sample_events.
Proof.
  repeat constructor; [by exists Parts.new|]. exists 16384. by vm_compute.
Qed.

Lemma conn_never_oversends_witness :
  data_sent (Conn.input_tx sample_run) = 3 ∧
  data_sent (Conn.input_tx sample_run) ≤ DEFAULT_WINDOW_SIZE + peer_granted sample_events.
Proof.
  split; [by vm_compute|].
  apply (conn_never_oversends all_streams all_ids all_messages H2Config.default [] connected sample_events).
  - by vm_compute.
  - exact sample_events_ok.
Defined.

(** The next request of that connection gets stream 3. *)
Lemma request_opens_stream_witness :
  ∃ c o c', run all_streams all_ids all_messages sample_events connected = (Ok (), c) ∧
    Conn.recv_request sample_request c = (o, c') ∧ o = Ok true ∧
    ∃ id st, Z.odd id = true ∧ 0 < id < 2 ^ 31 ∧ Streams.stream_map (Conn.streams c) !! id = None ∧
      Streams.stream_map (Conn.streams c') = <[id := st]> (Streams.stream_map (Conn.streams c)) ∧
      Stream.state st = Idle ∧
      Stream.header st = Some (Frame.mk id (r_flag sample_request) (r_payload sample_request)) ∧
      Stream.data st = r_data sample_request ∧
      id ∈ Streams.pending_concurrency (Conn.streams c') ++ Streams.pending_send (Conn.streams c').
Proof.
  eexists _, _, _. split; [by vm_compute|]. split; [by vm_compute|]. split; [done|].
  exact (request_opens_stream all_streams all_ids all_messages H2Config.default [] connected sample_events
    sample_request _ (Ok true) _ ltac:(by vm_compute) sample_events_ok ltac:(by vm_compute) ltac:(by vm_compute)).
Defined.
