(* ===== verification/H2ConnLoops.v ===== *)
(** The loops of the connection manager return.  The model runs them with fuel; here
    each is shown to agree with the loop itself ([runs], which has none): over the
    streams that wait for a slot, over the requests in the channel, over the body of a
    stream, and over the turns of [poll]. *)
From S2P Require Import Prelude Buffers H2Error H2Frame H2Window H2Streams H2Conn H2ConnNeutral H2ConnSafety.

(** ** Streams that wait for a slot *)

Lemma consume_turn_lowers s s' :
  Streams.consume_turn s = (Ok None, s') →
  (length (Streams.pending_concurrency s') < length (Streams.pending_concurrency s))%nat.
Proof.
  unfold Streams.consume_turn. rewrite M_bind_eq. cbn [mgets]. destruct (Streams.reach_max_concurrency s); [done|].
  rewrite M_bind_eq. cbn [mgets]. destruct (Streams.pending_concurrency s) as [|id q]; [done|].
  rewrite M_bind_eq. cbn [mmodify]. rewrite M_bind_eq. unfold Streams.increase_current_concurrency, mstate.
  destruct (u32_arith _); [|done..]. intros [= <-]. simpl. lia.
Qed.

Lemma consume_returns s :
  runs Streams.consume_turn s (Streams.try_consume_pending_concurrency s).
Proof.
  unfold Streams.try_consume_pending_concurrency. rewrite M_bind_eq. cbn [mgets].
  apply (loop_runs _ (λ s, length (Streams.pending_concurrency s))); [exact consume_turn_lowers|lia].
Qed.

(** ** Requests in the channel *)

Definition reqs_kept (c c' : Conn.t) : Prop := Conn.req_rx c' = Conn.req_rx c.
#[export] Instance reqs_kept_refl : Reflexive reqs_kept.
Proof. by intros c. Qed.
#[export] Instance reqs_kept_trans : Transitive reqs_kept.
Proof. intros a b c H1 H2. unfold reqs_kept in *. congruence. Qed.

Lemma on_streams_reqs {A} (f : M Streams.t H2Error A) : keeps reqs_kept (Conn.on_streams f).
Proof. intros c. unfold Conn.on_streams, mstate. by destruct (f _) as [[]]. Qed.
#[export] Hint Resolve on_streams_reqs : neutral.

Lemma recv_request_reqs r : keeps reqs_kept (Conn.recv_request r).
Proof.
  intros c. unfold Conn.recv_request, mstate. destruct (Streams.generate_id _) as [[id|e|] s]; [|done..].
  match goal with |- reqs_kept _ (?x ?c1).2 => assert (Hx : keeps reqs_kept x); [|exact (Hx c1)] end.
  keep. by apply keeps_modify.
Qed.

Lemma request_turn_lowers c c' :
  Conn.request_turn c = (Ok None, c') → (length (Conn.req_rx c') < length (Conn.req_rx c))%nat.
Proof.
  unfold Conn.request_turn. rewrite M_bind_eq. cbn [mgets]. destruct (Conn.req_rx c) as [|r q].
  { rewrite M_bind_eq. cbn [mgets]. by destruct (Conn.req_closed c). }
  rewrite M_bind_eq. cbn [mmodify]. set (c1 := Conn.set_channels _ _ _ _). rewrite M_bind_eq.
  pose proof (recv_request_reqs r c1) as H. destruct (Conn.recv_request r c1) as [[[]| |] c2]; try done.
  intros [= <-]. unfold reqs_kept in H. simpl in *. rewrite H. lia.
Qed.

Lemma requests_return c : runs Conn.request_turn c (Conn.poll_recv_request c).
Proof.
  unfold Conn.poll_recv_request. rewrite M_bind_eq. cbn [mgets].
  apply (loop_runs _ (λ c, length (Conn.req_rx c))); [exact request_turn_lowers|lia].
Qed.

(** ** The body of a stream *)

Definition sbody_size (id : Z) (s : Streams.t) : nat :=
  match Streams.stream_map s !! id with Some st => Conn.body_size (Stream.data st) | None => 0 end.

Lemma poll_read_lowers d cap b d' :
  BodyDataRef.poll_read d cap = (PReady (Some b), d') → 0 < len b →
  (Conn.body_size d' < Conn.body_size d)%nat.
Proof.
  unfold BodyDataRef.poll_read, Conn.body_size. intros Hp Hb.
  destruct (BodyDataRef.body d) as [[|[| |x] es]|]; try (simplify_eq; by vm_compute in Hb).
  destruct (Z.leb_spec (len x) cap); simplify_eq; cbn [BodyDataRef.body];
    rewrite !fmap_cons; unfold list_sum; cbn [foldr Conn.event_size]; [lia|].
  destruct (Z_lt_le_dec cap 1) as [Hc|Hc]; [rewrite upto_0 in Hb by lia; by vm_compute in Hb|].
  unfold from. rewrite length_drop. unfold len in *. lia.
Qed.

Lemma read_body_lowers id s f s' :
  Streams.poll_read_body id s = (Ok (ReadReady f), s') → (sbody_size id s' < sbody_size id s)%nat.
Proof.
  unfold Streams.poll_read_body, mstate, sbody_size. destruct (Streams.stream_map s !! id) as [st|] eqn:Hs; [|done].
  destruct (Stream.is_closed st); [done|]. do 2 (destruct (_ =? 0); [done|]).
  unfold Streams.poll_sized_data, mstate. rewrite Hs. set (cap := Z.min _ _).
  destruct (BodyDataRef.poll_read (Stream.data st) cap) as [[[b|]|] d] eqn:Hp; [|done..].
  destruct (Z.ltb_spec 0 (len b)) as [Hb|]; [|done]. destruct (SendWindow.send_data _ _); [|done..].
  destruct (FlowControl.send_data _ _); [|done..]. intros [= _ <-]. simpl. rewrite lookup_insert, decide_True by done.
  simpl. by eapply poll_read_lowers.
Qed.

Definition bodies_kept (c c' : Conn.t) : Prop :=
  ∀ id, sbody_size id (Conn.streams c') = sbody_size id (Conn.streams c).
#[export] Instance bodies_kept_refl : Reflexive bodies_kept.
Proof. by intros c. Qed.
#[export] Instance bodies_kept_trans : Transitive bodies_kept.
Proof. intros a b c H1 H2 id. by rewrite H2. Qed.

Lemma step_bodies id next : keeps bodies_kept (Conn.on_streams (Streams.step id next)).
Proof.
  intros c k. unfold Conn.on_streams, Streams.step, mstate.
  destruct (Streams.stream_map (Conn.streams c) !! id) as [st|] eqn:Hs; [|done].
  destruct (next _) as [[st' b]|]; [|done].
  assert (Hset : ∀ s1, Streams.stream_map s1 = Streams.stream_map (Streams.set_stream (Conn.streams c) id (Stream.set_state st st')) →
    sbody_size k s1 = sbody_size k (Conn.streams c)).
  { intros s1 H1. unfold sbody_size. rewrite H1. simpl. destruct (decide (k = id)) as [->|Hk].
    - by rewrite lookup_insert, decide_True, Hs.
    - by rewrite lookup_insert_ne. }
  destruct b; [|by apply Hset]. rewrite M_bind_eq. unfold Streams.decrease_current_concurrency, mstate.
  destruct (u32_arith _); simpl; by apply Hset.
Qed.

Lemma send_frame_bodies f : keeps bodies_kept (Conn.poll_send_frame f).
Proof.
  pose proof step_bodies. assert (Hs : keeps bodies_kept (Conn.send f)).
  { intros c. unfold Conn.send, mstate. by destruct (Conn.input_open c). }
  unfold Conn.poll_send_frame, Streams.send_headers_frame, Streams.send_data_frame. keep.
Qed.

Lemma body_turn_lowers id c c' :
  Conn.body_turn id c = (Ok None, c') →
  (sbody_size id (Conn.streams c') < sbody_size id (Conn.streams c))%nat.
Proof.
  unfold Conn.body_turn, Conn.on_streams, mstate.
  destruct (Streams.poll_read_body id (Conn.streams c)) as [[[| |f|f]|e|] s] eqn:Hp; try done.
  - rewrite M_bind_eq. pose proof (send_frame_bodies f (Conn.set_streams c s) id) as Hb.
    destruct (Conn.poll_send_frame f (Conn.set_streams c s)) as [[[]| |] c1]; try done. intros [= <-].
    simpl in Hb. rewrite Hb. simpl. by eapply read_body_lowers.
  - rewrite M_bind_eq. by destruct (Conn.poll_send_frame _ _) as [[]].
  - rewrite M_bind_eq. by destruct (Conn.deal_poll_body_error _ _) as [[]].
Qed.

Lemma body_returns id c :
  runs (Conn.body_turn id) c (loop (Conn.body_turn id) (Conn.body_fuel (Conn.streams c) id) c).
Proof.
  apply (loop_runs _ (λ c, sbody_size id (Conn.streams c))); [apply body_turn_lowers|].
  unfold sbody_size, Conn.body_fuel. destruct (_ !! id); lia.
Qed.

(** ** The turns of [poll] *)

Section Poll.
Context (iter_streams : gmap Z Stream.t → list Z) (iter_ids : gset Z → list Z)
  (iter_messages : gmap Z RespMessage → list Z).

Definition next_kept (c c' : Conn.t) : Prop := Conn.next_state c' = Conn.next_state c.
#[export] Instance next_kept_refl : Reflexive next_kept.
Proof. by intros c. Qed.
#[export] Instance next_kept_trans : Transitive next_kept.
Proof. intros a b c H1 H2. unfold next_kept in *. congruence. Qed.

Lemma poll_blocked_next k : keeps next_kept (Conn.poll_blocked k).
Proof.
  intros c. unfold Conn.poll_blocked, mstate. destruct (Conn.curr_message c !! k); [|done].
  destruct (Conn.next_delivery c) as [[] sc]; [done| |done].
  unfold Conn.on_streams, mstate. destruct (Streams.stream_state _ k) as [[]|]; try done;
    (destruct (Streams.send_local_reset k _) as [[[]| |] s]; try done; unfold Conn.send, mstate; simpl;
     by destruct (Conn.input_open c)).
Qed.
Lemma poll_all_next ks : keeps next_kept (Conn.poll_all ks).
Proof. pose proof poll_blocked_next. induction ks; simpl; keep. Qed.

Definition waits (c : Conn.t) : nat :=
  match Conn.mstate_ c, Conn.next_state c with MSend, MSend => 2 | MSend, _ => 1 | _, _ => 0 end.
Definition turns_left (c : Conn.t) : nat := 3 * length (Conn.resp_rx c) + waits c.

Lemma waits_le c : (waits c ≤ 2)%nat.
Proof. unfold waits. destruct (Conn.mstate_ c), (Conn.next_state c); lia. Qed.

Lemma blocked_frames_waits c u c' :
  Conn.mstate_ c = MSend → Conn.poll_blocked_frames iter_messages c = (Ok (PReady u), c') → (waits c' < waits c)%nat.
Proof.
  intros Hm. unfold Conn.poll_blocked_frames, Conn.poll_blocked_message. rewrite M_bind_eq, M_bind_eq. cbn [mgets].
  rewrite M_bind_eq. pose proof (poll_all_next (iter_messages (Conn.curr_message c)) c) as Hn.
  destruct (Conn.poll_all _ c) as [[[]| |] c1]; try done. intros [= _ <-]. unfold next_kept in Hn. simpl in Hn.
  unfold waits. simpl. rewrite Hm, Hn. destruct (Conn.next_state c); lia.
Qed.

Lemma poll_message_channels m c : channels (Conn.poll_message iter_streams iter_ids m c).2 = channels c.
Proof.
  assert (Hn : ∀ A (x : Conn.m A), keeps (cneutral false) x → ∀ c, channels (x c).2 = channels c).
  { intros A x Hx c0. by destruct (Hx c0) as (_ & _ & ?). }
  destruct m as [f|e]; simpl.
  - unfold Conn.poll_recv_message, mstate.
    assert (Hf : channels (Conn.poll_recv_frame iter_streams iter_ids f c).2 = channels c).
    { destruct (is_grant f) eqn:Hg; [|by apply Hn, recv_frame_neutral].
      unfold is_grant, Conn.poll_recv_frame in *. destruct (Frame.payload f); try done.
      unfold Conn.recv_window_frame, Conn.ready. rewrite Hg, bind_ret_2, M_bind_eq. unfold Conn.on_streams at 1, mstate.
      destruct (Streams.increase_conn_send_window _ _) as [[]]; done. }
    destruct (Conn.poll_recv_frame iter_streams iter_ids f c) as [[[[]|]|k|] c1]; simpl in Hf; try done.
    rewrite <- Hf. apply Hn, resp_error_neutral.
  - rewrite M_bind_eq. cbn [mgets]. destruct (Conn.go_away_error_code c); [done|]. apply Hn, resp_error_neutral.
Qed.

Lemma poll_turn_lowers c c' :
  Conn.poll_turn iter_streams iter_ids iter_messages c = (Ok None, c') → (turns_left c' < turns_left c)%nat.
Proof.
  unfold Conn.poll_turn, turns_left. rewrite M_bind_eq. cbn [mgets]. destruct (Conn.mstate_ c) eqn:Hm; [| |done].
  - rewrite M_bind_eq. destruct (poll_blocked_frames_neutral (b := false) iter_messages c) as (_ & _ & Hch).
    destruct (Conn.poll_blocked_frames iter_messages c) as [[[u|]| |] c1] eqn:Hp; try done. intros [= <-].
    apply blocked_frames_waits in Hp; [|done]. injection Hch as -> _. lia.
  - rewrite M_bind_eq. cbn [mgets]. destruct (Conn.resp_rx c) as [|m q].
    { rewrite M_bind_eq. cbn [mgets]. destruct (Conn.resp_closed c); rewrite M_bind_eq.
      - by destruct (Conn.poll_channel_closed_exit iter_streams c) as [[]].
      - by destruct (Conn.manage_pending_state c) as [[]]. }
    rewrite M_bind_eq. cbn [mmodify]. set (c1 := Conn.set_channels _ _ _ _).
    rewrite M_bind_eq. pose proof (poll_message_channels m c1) as Hch.
    destruct (Conn.poll_message _ _ m c1) as [[[u|]| |] c2]; try done. intros [= <-]. injection Hch as -> _.
    pose proof (waits_le c2). simpl. lia.
Qed.

(** C34: The manager's loops return: polling the manager, reading the body of a
    stream, taking the requests in the channel and the streams that wait for a slot
    end after finitely many turns, in every state, and the fuel of the model is
    enough to run them to their end. *)
Theorem manager_loops_return c id s :
  runs (Conn.poll_turn iter_streams iter_ids iter_messages) c (Conn.poll_manager iter_streams iter_ids iter_messages c) ∧
  runs (Conn.body_turn id) c (loop (Conn.body_turn id) (Conn.body_fuel (Conn.streams c) id) c) ∧
  runs Conn.request_turn c (Conn.poll_recv_request c) ∧
  runs Streams.consume_turn s (Streams.try_consume_pending_concurrency s).
Proof.
  split_and!; [|apply body_returns|apply requests_return|apply consume_returns].
  unfold Conn.poll_manager. rewrite M_bind_eq. cbn [mgets].
  apply (loop_runs _ turns_left); [exact poll_turn_lowers|]. unfold turns_left, Conn.poll_fuel. pose proof (waits_le c). lia.
Qed.
End Poll.
