(* ===== verification/H2ConnQueues.v ===== *)
(** No stream is forgotten: at any point of a connection's life, a stream with
    something to send is in one of the queues, so that a slot, a WINDOW_UPDATE or its
    turn brings it back.  The strict neutral handlers keep this; the rest is the turn
    of a stream, which takes it off its queue and puts it back unless it is done. *)
From S2P Require Import Prelude Buffers H2Error H2Frame H2FrameValid H2Window H2Streams H2Conn H2ConnNeutral H2ConnSafety.

Definition queued (s : Streams.t) : Prop :=
  ∀ id st, Streams.stream_map s !! id = Some st → owes st → waiting s id.
(** The same, but for one stream whose turn it is. *)
Definition queued_but (x : Z) (s : Streams.t) : Prop :=
  ∀ id st, Streams.stream_map s !! id = Some st → owes st → waiting s id ∨ id = x.
Definition settled (x : Z) (s : Streams.t) : Prop := ∀ st, Streams.stream_map s !! x = Some st → ¬ owes st.
(** The HEADERS of a stream were taken. *)
Definition opened (x : Z) (s : Streams.t) : Prop :=
  ∀ st, Streams.stream_map s !! x = Some st → Stream.is_closed st = true ∨ Stream.header st = None.

Lemma debts_queued s s' : debts s s' → queued s → queued s'.
Proof. intros [H1 H2] H id st' Hs Ho. destruct (H1 id st' Hs Ho) as (st & Hst & Hso). eauto. Qed.
Lemma debts_but x s s' : debts s s' → queued_but x s → queued_but x s'.
Proof. intros [H1 H2] H id st' Hs Ho. destruct (H1 id st' Hs Ho) as (st & Hst & Hso). destruct (H id st Hst Hso); auto. Qed.
Lemma debts_settled x s s' : debts s s' → settled x s → settled x s'.
Proof. intros [H1 _] H st' Hs Ho. destruct (H1 x st' Hs Ho) as (st & Hst & Hso). by apply (H st). Qed.
Lemma but_queued x s : queued_but x s → settled x s ∨ waiting s x → queued s.
Proof.
  intros H Hx id st Hs Ho. destruct (H id st Hs Ho) as [Hw| ->]; [done|]. destruct Hx as [Hx|Hx]; [|done].
  by destruct (Hx st Hs).
Qed.
Lemma cneutral_debts c c' : cneutral true c c' → debts (Conn.streams c) (Conn.streams c').
Proof. intros [(_ & _ & _ & _ & H) _]. by apply H. Qed.

(** ** What a method that returns keeps *)

Definition ok_keeps {S E A} (R : S → S → Prop) (x : M S E A) : Prop := ∀ s a s', x s = (Ok a, s') → R s s'.

Section OkKeeps.
Context {S E : Type} (R : S → S → Prop) `{!Reflexive R} `{!Transitive R}.
Lemma keeps_ok {A} (x : M S E A) : keeps R x → ok_keeps R x.
Proof. intros H s a s' Hx. specialize (H s). by rewrite Hx in H. Qed.
Lemma ok_keeps_bind {A B} (x : M S E A) (k : A → M S E B) :
  ok_keeps R x → (∀ a, ok_keeps R (k a)) → ok_keeps R (x ≫= k).
Proof.
  intros Hx Hk s b s'. rewrite M_bind_eq. specialize (Hx s). destruct (x s) as [[a| |] s1]; [|done..].
  intros H. etrans; [by eapply Hx|by eapply Hk].
Qed.
Lemma ok_keeps_loop {A} (turn : M S E (option A)) n : ok_keeps R turn → ok_keeps R (loop turn n).
Proof.
  intros Ht. induction n as [|n IH]; cbn [loop]; [by intros s a s'|]. apply ok_keeps_bind; [done|].
  intros [a|]; [|done]. by intros s b s' [= _ <-].
Qed.
End OkKeeps.

Definition sound (c : Conn.t) : Prop := queued (Conn.streams c) ∧ ∃ l, inv l c.
Definition qkept (c c' : Conn.t) : Prop := sound c → sound c'.
#[export] Instance qkept_refl : Reflexive qkept.
Proof. intros c H. exact H. Qed.
#[export] Instance qkept_trans : Transitive qkept.
Proof. intros a b c H1 H2 H. auto. Qed.

Lemma weaken_neutral c c' : cneutral true c c' → cneutral false c c'.
Proof. intros [(H1 & H2 & H3 & H4 & _) H]. split; [|done]. by repeat apply conj. Qed.
Lemma neutral_kept c c' : cneutral true c c' → qkept c c'.
Proof.
  intros H [Hq [l Hl]]. split; [by eapply debts_queued; [apply cneutral_debts|]|]. exists l.
  apply weaken_neutral in H. apply same_ids_inv with c; [intros k; by apply cneutral_fits|by apply cneutral_ids|done].
Qed.
Lemma neutral_qkept {A} (x : Conn.m A) : keeps (cneutral true) x → keeps qkept x.
Proof. intros H c. by apply neutral_kept. Qed.

(** ** The turn of a stream *)

Lemma set_stream_debts s id st st' :
  Streams.stream_map s !! id = Some st → (owes st' → owes st) → debts s (Streams.set_stream s id st').
Proof.
  intros Hs Ho. split; [|done]. intros k sk. simpl. destruct (decide (k = id)) as [->|Hne].
  - rewrite lookup_insert, decide_True by done. intros [= <-]. eauto.
  - rewrite lookup_insert_ne by done. eauto.
Qed.

Lemma closed_owes_nothing st : Stream.is_closed st = true → ¬ owes st.
Proof. unfold Stream.is_closed, owes. destruct (Stream.state st); try done. intros _ []. Qed.

Lemma debts_map s s' :
  Streams.stream_map s' = Streams.stream_map s → (∀ k, waiting s k → waiting s' k) → debts s s'.
Proof. intros Hm Hw. split; [|done]. intros id st. rewrite Hm. eauto. Qed.

Lemma read_body_queues id s r s' :
  Streams.poll_read_body id s = (r, s') →
  (debts s s' ∧ (opened id s → opened id s')) ∧
  match r with
  | Ok ReadClosed => settled id s'
  | Ok ReadPending => waiting s' id
  | Ok (ReadReady f) => f = Streams.data_frame id (match Frame.payload f with Payload.Data d => d | _ => [] end)
  | Ok (ReadFinish f) => f = Streams.last_data_frame id ∧ ∃ st, Streams.stream_map s' !! id = Some st ∧ Stream.is_closed st = false
  | Err e => e = StreamError id IntervalError ∨ e = ConnectionError IntervalError
  | Panic => True
  end.
Proof.
  unfold Streams.poll_read_body, mstate. destruct (Streams.stream_map s !! id) as [st|] eqn:Hs;
    [|intros [= <- <-]; split; [by split|by right]].
  destruct (Stream.is_closed st) eqn:Hcl.
  { intros [= <- <-]. split; [by split|]. intros st1 Hs1. rewrite Hs in Hs1. injection Hs1 as <-.
    by apply closed_owes_nothing. }
  destruct (_ =? 0).
  { intros [= <- <-]. split; [split; [apply debts_map; [done|intros k]|done]|]; unfold waiting; simpl; set_unfold; tauto. }
  destruct (_ =? 0).
  { intros [= <- <-]. split; [split; [apply debts_map; [done|intros k]|done]|]; unfold waiting; simpl; set_unfold; tauto. }
  unfold Streams.poll_sized_data, mstate. rewrite Hs. set (cap := Z.min _ DEFAULT_MAX_FRAME_SIZE).
  assert (Hset : ∀ s1 st', Stream.state st' = Stream.state st → Stream.header st' = Stream.header st →
      Streams.stream_map s1 = <[id := st']> (Streams.stream_map s) → (∀ k, waiting s k → waiting s1 k) →
      debts s s1 ∧ (opened id s → opened id s1)).
  { intros s1 st' Hst Hh Hm Hw. split.
    - destruct (set_stream_debts s id st st' Hs) as [H1 _].
      + unfold owes. by rewrite Hst, Hh.
      + split; [|done]. intros k sk. rewrite Hm. apply H1.
    - intros Ho st1. rewrite Hm, lookup_insert, decide_True by done. intros [= <-].
      destruct (Ho st Hs) as [H|H]; [left|right; congruence]. unfold Stream.is_closed in *. by rewrite Hst. }
  destruct (BodyDataRef.poll_read (Stream.data st) cap) as [[[b|]|] d].
  - destruct (0 <? len b).
    + assert (Hpanic : debts s (Streams.set_stream s id (Stream.set_data st d)) ∧
        (opened id s → opened id (Streams.set_stream s id (Stream.set_data st d)))) by (by apply (Hset _ (Stream.set_data st d))).
      destruct (SendWindow.send_data _ (len b)) as [w| |]; [|by intros [= <- <-]..].
      destruct (FlowControl.send_data _ (len b)) as [f| |]; [|by intros [= <- <-]..].
      intros [= <- <-]. split; [|done]. by apply (Hset _ (Stream.set_send (Stream.set_data st d) w)).
    + intros [= <- <-]. split; [by apply (Hset _ (Stream.set_data st d))|]. split; [done|].
      exists (Stream.set_data st d). simpl. by rewrite lookup_insert, decide_True.
  - intros [= <- <-]. split; [by apply (Hset _ (Stream.set_data st d))|]. by left.
  - intros [= <- <-]. split.
    + apply (Hset _ (Stream.set_data st d)); [done..|]. unfold waiting. simpl. intros k. set_unfold. tauto.
    + unfold waiting. simpl. set_unfold. tauto.
Qed.

(** A frame sent on a stream changes the state of that stream. *)
Lemma step_queues id next s o s' :
  Streams.step id next s = (Ok o, s') →
  (queued_but id s → queued_but id s') ∧
  (o = RecvOK → ∃ st st' k, Streams.stream_map s !! id = Some st ∧ next (Stream.state st) = Some (st', k) ∧
     Streams.stream_map s' !! id = Some (Stream.set_state st st')).
Proof.
  unfold Streams.step, mstate. destruct (Streams.stream_map s !! id) as [st|] eqn:Hs; [|by intros [= <- <-]].
  destruct (next (Stream.state st)) as [[st' k]|] eqn:Hn; [|by intros [= <- <-]].
  assert (Hset : ∀ s1, Streams.stream_map s1 = <[id := Stream.set_state st st']> (Streams.stream_map s) →
      (∀ j, waiting s j → waiting s1 j) → queued_but id s → queued_but id s1).
  { intros s1 Hm Hw Hq j sj. rewrite Hm. destruct (decide (j = id)) as [->|Hne]; [by right|].
    rewrite lookup_insert_ne by done. intros Hj Ho. destruct (Hq j sj Hj Ho); auto. }
  assert (Hfound : ∀ s1, Streams.stream_map s1 = <[id := Stream.set_state st st']> (Streams.stream_map s) →
      Streams.stream_map s1 !! id = Some (Stream.set_state st st')).
  { intros s1 ->. by rewrite lookup_insert, decide_True. }
  destruct k; simpl.
  - rewrite M_bind_eq. unfold Streams.decrease_current_concurrency, mstate.
    destruct (u32_arith _) as [n| |]; [|done..]. intros [= <- <-]. split; [by apply Hset|]. intros _. eauto 10.
  - intros [= <- <-]. split; [by apply Hset|]. intros _. eauto 10.
Qed.

Lemma step_never_ignores id next s s' : Streams.step id next s ≠ (Ok RecvIgnore, s').
Proof.
  unfold Streams.step, mstate. destruct (_ !! id); [|done]. destruct (next _) as [[st' []]|]; [|done..].
  rewrite M_bind_eq. unfold Streams.decrease_current_concurrency, mstate. by destruct (u32_arith _).
Qed.

(** The turn of stream [id] goes on, or, when [over], it has nothing left to send. *)
Definition turn_of (id : Z) (over : bool) (s : Streams.t) : Prop :=
  queued_but id s ∧ opened id s ∧ (over = true → settled id s).

(** Sending takes a stream that is not closed, and its last frame closes its side. *)
Definition sends (eos : bool) (next : H2StreamState → option (H2StreamState * bool)) : Prop :=
  ∀ st st' k, next st = Some (st', k) →
    match st with Closed _ => False | _ => True end ∧
    (eos = true → match st' with LocalHalfClosed _ | Closed _ => True | _ => False end).

Lemma step_sends id next eos s s' :
  sends eos next → Streams.step id next s = (Ok RecvOK, s') → turn_of id false s → turn_of id eos s'.
Proof.
  intros Hn Hs (Hq & Ho & _). destruct (step_queues _ _ _ _ _ Hs) as [Hq' Hst].
  destruct (Hst eq_refl) as (st & st' & k & Hm & Hnx & Hm'). destruct (Hn _ _ _ Hnx) as [Hc He].
  assert (Hh : Stream.header st = None).
  { destruct (Ho st Hm) as [H|H]; [|done]. unfold Stream.is_closed in H. by destruct (Stream.state st). }
  split_and!; [by apply Hq'|intros st1; rewrite Hm'; intros [= <-]; by right|].
  intros Heos st1. rewrite Hm'. intros [= <-]. specialize (He Heos). unfold owes. simpl.
  destruct st'; try done; [intros H; by apply H|intros []].
Qed.

Lemma send_frame_turn f c c' :
  is_headers f ∨ (∃ d, Frame.payload f = Payload.Data d) →
  Conn.poll_send_frame f c = (Ok (), c') → turn_of (Frame.id f) false (Conn.streams c) →
  turn_of (Frame.id f) (FrameFlags.is_end_stream (Frame.flags f)) (Conn.streams c').
Proof.
  intros Hf. unfold Conn.poll_send_frame. set (eos := FrameFlags.is_end_stream (Frame.flags f)). rewrite M_bind_eq.
  set (x := match Frame.payload f with Payload.Data _ => _ | _ => _ end).
  assert (Hx : ∀ u c1, x c = (Ok u, c1) → turn_of (Frame.id f) false (Conn.streams c) → turn_of (Frame.id f) eos (Conn.streams c1)).
  { intros u c1. destruct Hf as [[p Hf]|[d Hf]]; unfold x; rewrite Hf, M_bind_eq; unfold Conn.on_streams, mstate.
    - unfold Streams.send_headers_frame. set (next := λ st : H2StreamState, _).
      destruct (Streams.step (Frame.id f) next (Conn.streams c)) as [[[]| |] s1] eqn:Hs; try done.
      + intros [= _ <-]. apply (step_sends _ next); [|done].
        intros [|[] []| |[]|[]|] st' k; simpl; try done; intros [= <- _]; split; try done; by intros ->.
      + by destruct (step_never_ignores _ _ _ _ Hs).
    - unfold Streams.send_data_frame. set (next := λ st : H2StreamState, _).
      destruct (Streams.step (Frame.id f) next (Conn.streams c)) as [[[]| |] s1] eqn:Hs; try done.
      + intros [= _ <-]. apply (step_sends _ next); [|done].
        intros [|[] []| |[]|[]|] st' k; simpl; try done; intros [= <- _]; split; try done; by intros ->.
      + by destruct (step_never_ignores _ _ _ _ Hs). }
  destruct (x c) as [[u| |] c1] eqn:Hxc; [|done..]. unfold Conn.send, mstate. destruct (Conn.input_open c1); [|done].
  intros [= <-]. exact (Hx u c1 eq_refl).
Qed.

(** An error of the body resets the stream. *)
Lemma body_error_turn id code c c' :
  Conn.deal_poll_body_error (DispatchH2 (StreamError id code)) c = (Ok (), c') →
  queued_but id (Conn.streams c) → queued (Conn.streams c').
Proof.
  simpl. rewrite M_bind_eq. intros H Hq. destruct (Conn.manage_stream_error id code c) as [[p| |] c1] eqn:Hm; [|done..].
  injection H as <-. unfold Conn.manage_stream_error in Hm. rewrite M_bind_eq in Hm. unfold Conn.on_streams, mstate in Hm.
  destruct (Streams.send_local_reset id (Conn.streams c)) as [[r| |] s1] eqn:Hr; [|done..].
  assert (Hd : debts (Conn.streams c) s1).
  { pose proof (local_reset_neutral (b := true) id (Conn.streams c)) as (_ & _ & _ & _ & H). rewrite Hr in H. by apply H. }
  assert (Hset : (∃ e, r = EndErr e) ∨ settled id s1).
  { unfold Streams.send_local_reset, mstate in Hr. destruct (Streams.stream_map (Conn.streams c) !! id) as [st|] eqn:Hs;
      [|injection Hr as <- <-; left; eauto]. right. revert Hr.
    assert (Hclosed : ∀ s2 st2, Streams.stream_map s2 !! id = Some st2 → Stream.is_closed st2 = true → settled id s2).
    { intros s2 st2 H2 Hc st3. rewrite H2. intros [= <-]. by apply closed_owes_nothing. }
    assert (Hgo : ∀ r s2, (_ ← Streams.decrease_current_concurrency; mret EndOK) (Streams.set_stream (Conn.streams c) id (Stream.close st LocalRst)) = (Ok r, s2) → settled id s2).
    { intros r0 s2. rewrite M_bind_eq. unfold Streams.decrease_current_concurrency, mstate.
      destruct (u32_arith _); [|done..]. intros [= _ <-]. eapply Hclosed; [simpl; by rewrite lookup_insert, decide_True|done]. }
    destruct (Stream.state st) as [| | | | |[]] eqn:Hst; try exact (Hgo r s1); intros [= _ <-];
      try (eapply Hclosed; [exact Hs|unfold Stream.is_closed; by rewrite Hst]).
    eapply Hclosed; [simpl; by rewrite lookup_insert, decide_True|done]. }
  destruct Hset as [[e ->]|Hset]; [done|].
  assert (Hrest : ∀ c2, debts s1 (Conn.streams c2) → queued (Conn.streams c2)).
  { intros c2 H2. apply but_queued with id; [by eapply debts_but, debts_but|left; by eapply debts_settled]. }
  destruct r as [| |e]; [|by injection Hm as _ <-; apply Hrest|done].
  apply Hrest. match type of Hm with ?x ?c2 = _ => set (y := x) in *; set (c3 := c2) in * end.
  assert (Hy : keeps (cneutral true) y).
  { unfold y. keep. apply keeps_modify. intros ?. by apply other_neutral. }
  specialize (Hy c3). rewrite Hm in Hy. by apply cneutral_debts in Hy.
Qed.

Lemma body_turn_queues id c o c' :
  Conn.body_turn id c = (Ok o, c') → turn_of id false (Conn.streams c) →
  match o with None => turn_of id false (Conn.streams c') | Some _ => queued (Conn.streams c') end.
Proof.
  unfold Conn.body_turn, Conn.on_streams, mstate.
  destruct (Streams.poll_read_body id (Conn.streams c)) as [r s] eqn:Hp. intros Ht (Hq & Hop & _).
  destruct (read_body_queues _ _ _ _ Hp) as [[Hd Ho] Hr].
  assert (Hq1 : queued_but id s) by (by eapply debts_but).
  assert (Ht1 : turn_of id false s) by (split_and!; [done|by apply Ho|done]).
  destruct r as [[| |f|f]|e|]; [| | | | |done]; try rewrite M_bind_eq in Ht.
  - injection Ht as <- <-. apply but_queued with id; [done|by left].
  - injection Ht as <- <-. apply but_queued with id; [done|by right].
  - destruct (Conn.poll_send_frame f (Conn.set_streams c s)) as [[[]| |] c1] eqn:Hs; [|done..]. injection Ht as <- <-.
    rewrite Hr in Hs. apply send_frame_turn in Hs; [|right; by eexists|done]. destruct Hs as (H1 & H2 & _). by split_and!.
  - destruct (Conn.poll_send_frame f (Conn.set_streams c s)) as [[[]| |] c1] eqn:Hs; [|done..]. injection Ht as <- <-.
    destruct Hr as [-> _]. apply send_frame_turn in Hs; [|right; by eexists|done]. destruct Hs as (H1 & _ & H2).
    apply but_queued with id; [done|left]. by apply H2.
  - destruct (Conn.deal_poll_body_error (DispatchH2 e) (Conn.set_streams c s)) as [[[]| |] c1] eqn:He; [|done..].
    injection Ht as <- <-. destruct Hr as [->| ->]; [|done]. by eapply body_error_turn.
Qed.

Lemma body_queues id n c c' :
  loop (Conn.body_turn id) n c = (Ok (), c') → turn_of id false (Conn.streams c) → queued (Conn.streams c').
Proof.
  revert c. induction n as [|n IH]; intros c; cbn [loop]; [done|]. rewrite M_bind_eq.
  destruct (Conn.body_turn id c) as [[[[]|]| |] c1] eqn:Hb; [| |done..]; intros Hl Ht;
    pose proof (body_turn_queues _ _ _ _ Hb Ht) as H1.
  - by injection Hl as <-.
  - by eapply IH.
Qed.

Lemma input_stream_queues id c c' :
  Conn.input_stream_frame id c = (Ok (), c') → headers_ok (Conn.streams c) → queued_but id (Conn.streams c) →
  queued (Conn.streams c').
Proof.
  intros Hi Hh Hq. unfold Conn.input_stream_frame in Hi. rewrite M_bind_eq in Hi.
  unfold Conn.on_streams, Streams.headers, mstate in Hi.
  destruct (Streams.stream_map (Conn.streams c) !! id) as [st|] eqn:Hs; [|done].
  destruct (Stream.is_closed st) eqn:Hcl.
  { eapply body_queues; [exact Hi|]. split_and!; [done| |done]. intros st1. simpl. rewrite Hs. intros [= <-]. by left. }
  set (s1 := Streams.set_stream (Conn.streams c) id (Stream.take_header st)) in Hi.
  assert (Ht : turn_of id false s1).
  { split_and!; [|intros st1; unfold s1; simpl; rewrite lookup_insert, decide_True by done; intros [= <-]; by right|done].
    eapply debts_but; [|exact Hq]. apply (set_stream_debts _ id st); [done|]. by destruct (same_state_kept (b := true) st (Stream.take_header st)) as [_ H]; [|right|apply H]. }
  destruct (Stream.header st) as [f|] eqn:Hf; [|eapply body_queues; [exact Hi|exact Ht]].
  destruct (Hh id st Hs f Hf) as [Hhd Hid].
  rewrite M_bind_eq in Hi. destruct (Conn.poll_send_frame f (Conn.set_streams c s1)) as [[[]| |] c2] eqn:Hsend; [|done..].
  apply send_frame_turn in Hsend as (H1 & H2 & H3); [|by left|by rewrite Hid]. rewrite Hid in *.
  destruct (FrameFlags.is_end_stream (Frame.flags f)) eqn:Heos.
  - injection Hi as <-. apply but_queued with id; [done|left; by apply H3].
  - eapply body_queues; [exact Hi|by split_and!].
Qed.

Lemma input_loop_queues n c c' :
  Conn.input_loop n c = (Ok (), c') → qkept c c'.
Proof.
  revert c. induction n as [|n IH]; intros c; cbn [Conn.input_loop]; [by intros [= <-]|].
  rewrite M_bind_eq. unfold Conn.on_streams, Streams.next_pending_stream, mstate.
  destruct (Streams.pending_send (Conn.streams c)) as [|id q] eqn:Hp; [by destruct c; intros [= <-] H|].
  rewrite M_bind_eq. set (c1 := Conn.set_streams c _).
  destruct (Conn.input_stream_frame id c1) as [[[]| |] c2] eqn:Hi; [|done..]. intros Hl [Hq [l Hinv]].
  eapply IH; [exact Hl|]. pose proof (input_stream_inv l id c1 Hinv) as Hinv2. rewrite Hi in Hinv2.
  split; [|by exists l]. eapply input_stream_queues; [exact Hi|by destruct Hinv as (_ & _ & ? & _)|].
  intros k st Hk Ho. unfold waiting. destruct (decide (k = id)) as [->|Hne]; [by right|]. left.
  specialize (Hq k st Hk Ho). unfold waiting in Hq. rewrite Hp in Hq. simpl. set_unfold. tauto.
Qed.

Lemma consume_ok : ok_keeps debts Streams.try_consume_pending_concurrency.
Proof.
  apply ok_keeps_bind; [apply _|apply keeps_ok, keeps_gets; apply _|]. intros q. apply ok_keeps_loop; [apply _..|].
  intros s o s'. unfold Streams.consume_turn. rewrite M_bind_eq. cbn [mgets].
  destruct (Streams.reach_max_concurrency s); [by intros [= _ <-]|]. rewrite M_bind_eq. cbn [mgets].
  destruct (Streams.pending_concurrency s) as [|id q'] eqn:Hq; [by intros [= _ <-]|].
  rewrite M_bind_eq. cbn [mmodify]. rewrite M_bind_eq. unfold Streams.increase_current_concurrency, mstate.
  destruct (u32_arith _); [|done..]. intros [= _ <-]. apply debts_map; [done|].
  intros k. unfold waiting. rewrite Hq. simpl. set_unfold. tauto.
Qed.

(** ** Requests *)

Lemma recv_request_queues r c o c' :
  Conn.recv_request r c = (Ok o, c') → queued (Conn.streams c) → queued (Conn.streams c').
Proof.
  unfold Conn.recv_request, mstate. destruct (Streams.generate_id (Conn.streams c)) as [[id|e|] s] eqn:Hg; [| |done].
  - assert (Hs : Streams.stream_map s = Streams.stream_map (Conn.streams c) ∧ ∀ k, waiting (Conn.streams c) k → waiting s k).
    { unfold Streams.generate_id, mstate in Hg. destruct (_ <? _); [|done]. destruct (u32_arith _); [|done..]. by injection Hg as _ <-. }
    destruct Hs as [Hm Hw]. intros H Hq. assert (Hq1 : queued s) by (by eapply debts_queued; [apply debts_map|]). revert H.
    rewrite M_bind_eq. cbn [mgets]. rewrite M_bind_eq. set (x := if _ || _ then _ else _).
    assert (Hx : ∀ u c2, x (Conn.set_streams c s) = (Ok u, c2) →
      Streams.stream_map (Conn.streams c2) = Streams.stream_map s ∧ waiting (Conn.streams c2) id ∧
      ∀ k, waiting s k → waiting (Conn.streams c2) k).
    { intros u c2. unfold x. destruct (_ || _).
      - intros [= _ <-]. split; [done|]. unfold waiting. simpl. set_unfold. split; [tauto|]. intros k. tauto.
      - rewrite M_bind_eq. unfold Conn.on_streams at 1, Streams.increase_current_concurrency, mstate. simpl.
        destruct (u32_arith _); [|done..]. intros [= _ <-]. split; [done|]. unfold waiting. simpl. set_unfold.
        split; [tauto|]. intros k. tauto. }
    destruct (x (Conn.set_streams c s)) as [[u| |] c2]; [|done..]. destruct (Hx u c2 eq_refl) as (Hm2 & Hid & Hw2).
    intros [= _ <-]. intros k st. simpl. rewrite Hm2. destruct (decide (k = id)) as [->|Hne]; [by intros|].
    rewrite lookup_insert_ne by done. intros Hk Ho. apply Hw2. by eapply Hq1.
  - unfold Streams.generate_id, mstate in Hg. destruct (_ <? _); [by destruct (u32_arith _)|].
    injection Hg as _ <-. by intros [= _ <-].
Qed.

Lemma request_turn_ok : ok_keeps qkept Conn.request_turn.
Proof.
  intros c o c' Hr [Hq [l Hl]]. pose proof (request_turn_inv l c Hl) as Hl'. rewrite Hr in Hl'. split; [|by exists l].
  revert Hr. unfold Conn.request_turn. rewrite M_bind_eq. cbn [mgets]. destruct (Conn.req_rx c) as [|r q].
  { rewrite M_bind_eq. cbn [mgets]. destruct (Conn.req_closed c); [done|]. by intros [= _ <-]. }
  rewrite M_bind_eq. cbn [mmodify]. rewrite M_bind_eq. set (c1 := Conn.set_channels _ _ _ _).
  destruct (Conn.recv_request r c1) as [[b| |] c2] eqn:Hrr; [|done..]. intros [= _ <-].
  by eapply recv_request_queues.
Qed.

Lemma pending_ok : ok_keeps qkept Conn.manage_pending_state.
Proof.
  apply ok_keeps_bind; [apply _|apply keeps_ok, keeps_gets; apply _|]. intros [code|].
  { apply keeps_ok, neutral_qkept, deal_go_away_neutral. }
  apply ok_keeps_bind; [apply _| |intros _].
  { apply ok_keeps_bind; [apply _|apply keeps_ok, keeps_gets; apply _|]. intros q.
    apply ok_keeps_loop; [apply _..|apply request_turn_ok]. }
  apply ok_keeps_bind; [apply _| |intros _].
  { intros c u c' Hc [Hq [l Hl]]. unfold Conn.on_streams, mstate in Hc.
    destruct (Streams.try_consume_pending_concurrency (Conn.streams c)) as [[v| |] s] eqn:Hs; [|done..].
    injection Hc as _ <-. split; [eapply debts_queued; [by eapply consume_ok|done]|]. exists l.
    pose proof (neutral_inv l _ (on_streams_neutral _ consume_neutral) c Hl) as H. unfold Conn.on_streams, mstate in H.
    by rewrite Hs in H. }
  apply ok_keeps_bind; [apply _|apply keeps_ok, keeps_gets; apply _|]. intros n c [] c'. apply input_loop_queues.
Qed.

(** ** Leaving *)

Lemma close_all_settled ids s r s' :
  Streams.for_each (λ id, Streams.with_stream id (λ st, Ok (Stream.close st LocalGoAway))) ids s = (r, s') →
  ∀ id st', Streams.stream_map s' !! id = Some st' →
    Stream.is_closed st' = true ∨ (Streams.stream_map s !! id = Some st' ∧ id ∉ ids).
Proof.
  revert s. induction ids as [|x ids IH]; intros s; simpl; [intros [= _ <-] id st' Hs; right; split; [done|set_solver]|].
  rewrite M_bind_eq. unfold Streams.with_stream at 1, mstate.
  destruct (Streams.stream_map s !! x) as [st|] eqn:Hx; intros Hf id st' Hs.
  - destruct (IH _ Hf id st' Hs) as [H|[H Hn]]; [by left|]. simpl in H. destruct (decide (id = x)) as [->|Hne].
    + rewrite lookup_insert, decide_True in H by done. injection H as <-. by left.
    + rewrite lookup_insert_ne in H by done. right. split; [done|set_solver].
  - destruct (IH _ Hf id st' Hs) as [H|[H Hn]]; [by left|]. right. split; [done|].
    intros [->|?]%elem_of_cons; [congruence|done].
Qed.

Section Walks.
Context (iter_streams : gmap Z Stream.t → list Z) (iter_ids : gset Z → list Z)
  (iter_messages : gmap Z RespMessage → list Z).
(** The walks over the streams and over a set reach every element. *)
Hypothesis Hstreams : ∀ m id st, m !! id = Some st → id ∈ iter_streams m.
Hypothesis Hids : walks iter_ids.

Lemma get_all_settled s r s' :
  Streams.get_all_unclosed_streams iter_streams s = (r, s') → queued s'.
Proof.
  unfold Streams.get_all_unclosed_streams. rewrite M_bind_eq. cbn [mget]. rewrite M_bind_eq.
  set (ids := List.filter _ _). destruct (Streams.for_each _ ids s) as [r1 s1] eqn:Hf. intros Hr.
  assert (s' = s1) as -> by (by destruct r1; injection Hr). intros id st' Hs Ho.
  destruct (close_all_settled _ _ _ _ Hf id st' Hs) as [H|[H Hn]]; [by destruct (closed_owes_nothing st' H)|].
  destruct Hn. unfold ids. apply list_elem_of_In, filter_In. split; [apply list_elem_of_In; by eapply Hstreams|].
  rewrite H. destruct (Stream.is_closed st') eqn:Hc; [by destruct (closed_owes_nothing st' Hc)|done].
Qed.

Lemma exit_qkept e : keeps qkept (Conn.exit_with_error iter_streams e).
Proof.
  intros c [Hq [l Hl]]. split; [|exists l; by apply (neutral_inv l _ (exit_neutral iter_streams e))].
  unfold Conn.exit_with_error. do 3 (rewrite M_bind_eq; cbn [Conn.shutdown Conn.close_requests mmodify]).
  unfold Conn.on_streams at 1, Streams.clear_streams_states, mstate. cbn [mmodify]. rewrite M_bind_eq.
  set (c1 := Conn.set_streams _ _). unfold Conn.on_streams at 1, mstate.
  destruct (Streams.get_all_unclosed_streams iter_streams (Conn.streams c1)) as [r s] eqn:Hg.
  pose proof (get_all_settled _ _ _ Hg) as Hs. destruct r as [ids| |]; [|done..].
  eapply debts_queued; [|exact Hs]. apply (cneutral_debts (Conn.set_streams c1 s)). apply exit_loop_neutral.
Qed.

Lemma resp_error_qkept e : keeps qkept (Conn.manage_resp_error iter_streams e).
Proof.
  pose proof exit_qkept. pose proof (λ b e, neutral_qkept _ (exit_state_neutral b e)).
  pose proof (λ id code, neutral_qkept _ (stream_error_neutral id code)).
  assert (Hsend : ∀ f, data_len f = 0 → keeps qkept (Conn.send f)) by (intros f Hf; by apply neutral_qkept, send_neutral).
  assert (Hready : ∀ A (a : A), keeps qkept (Conn.ready a)) by (intros A a c; by apply qkept_refl).
  unfold Conn.manage_resp_error, Conn.manage_conn_error. keep.
  apply keeps_modify. intros c. apply neutral_kept. by apply other_neutral.
Qed.
Lemma closed_exit_qkept : keeps qkept (Conn.poll_channel_closed_exit iter_streams).
Proof.
  pose proof exit_qkept. pose proof (λ b e, neutral_qkept _ (exit_state_neutral b e)).
  unfold Conn.poll_channel_closed_exit. keep.
Qed.

(** ** Messages *)

Lemma recv_frame_debts f c : debts (Conn.streams c) (Conn.streams (Conn.poll_recv_frame iter_streams iter_ids f c).2).
Proof.
  destruct (is_grant f) eqn:Hg; [|apply cneutral_debts; by apply recv_frame_neutral].
  unfold is_grant, Conn.poll_recv_frame in *. destruct (Frame.payload f); try done. unfold Conn.ready.
  rewrite bind_ret_2. unfold Conn.recv_window_frame. rewrite Hg, M_bind_eq. unfold Conn.on_streams at 1, mstate.
  unfold Streams.increase_conn_send_window, mstate. destruct (FlowControl.increase_send_size _ _); [|done..].
  apply debts_map; [done|]. intros k. unfold waiting. simpl. set_unfold. tauto.
Qed.

Lemma poll_message_queues m c :
  message_ok m → sound c → sound (Conn.poll_message iter_streams iter_ids m c).2.
Proof.
  intros Hm [Hq [l Hl]]. assert (Hl' : inv (l + granted [m]) (Conn.poll_message iter_streams iter_ids m c).2).
  { apply poll_message_inv; [done|]. by replace (l + granted [m] - granted [m]) with l by lia. }
  split; [|by eexists]. destruct m as [f|e].
  - simpl in *. unfold Conn.poll_recv_message, mstate in *. pose proof (recv_frame_debts f c) as Hd.
    assert (Hf : inv (l + grants f) (Conn.poll_recv_frame iter_streams iter_ids f c).2).
    { apply recv_frame_inv; [done|]. by replace (l + grants f - grants f) with l by lia. }
    destruct (Conn.poll_recv_frame iter_streams iter_ids f c) as [[[[]|]|k|] c1]; simpl in Hd, Hf.
    1, 2, 4: by eapply debts_queued.
    assert (Hs : sound c1) by (split; [by eapply debts_queued|by eexists]).
    by destruct (resp_error_qkept k c1 Hs).
  - simpl. rewrite M_bind_eq. cbn [mgets]. destruct (Conn.go_away_error_code c); [done|].
    assert (Hs : sound c) by (split; [done|by eexists]). by destruct (resp_error_qkept e c Hs).
Qed.

Lemma poll_turn_ok : ok_keeps qkept (Conn.poll_turn iter_streams iter_ids iter_messages).
Proof.
  apply ok_keeps_bind; [apply _|apply keeps_ok, keeps_gets; apply _|]. intros [| |e].
  - apply ok_keeps_bind; [apply _|apply keeps_ok, neutral_qkept, poll_blocked_frames_neutral|].
    intros p. apply keeps_ok, keeps_ret; apply _.
  - intros c o c'. rewrite M_bind_eq. cbn [mgets]. destruct (Conn.resp_rx c) as [|m q] eqn:Hq.
    + rewrite M_bind_eq. cbn [mgets]. intros H. revert c o c' Hq H. intros c o c' _. destruct (Conn.resp_closed c).
      * revert c o c'. apply ok_keeps_bind; [apply _|apply keeps_ok, closed_exit_qkept|]. intros p. apply keeps_ok, keeps_ret; apply _.
      * revert c o c'. apply ok_keeps_bind; [apply _|apply pending_ok|]. intros p. apply keeps_ok, keeps_ret; apply _.
    + rewrite M_bind_eq. cbn [mmodify]. rewrite M_bind_eq. set (c1 := Conn.set_channels _ _ _ _).
      intros Hp [Hqu [l Hl]]. pose proof Hl as (_ & _ & _ & Hm & Hr). rewrite Hq in Hm. inversion Hm; subst.
      assert (Hs : sound c1).
      { split; [done|]. exists (l + granted q - granted (Conn.resp_rx c)). by apply inv_channels. }
      apply (poll_message_queues m) in Hs; [|done].
      destruct (Conn.poll_message _ _ m c1) as [[p| |] c2]; [|done..]. by injection Hp as _ <-.
  - by intros c o c'.
Qed.

Lemma exec_queues e c u c' :
  event_ok e → exec iter_streams iter_ids iter_messages e c = (Ok u, c') → sound c → sound c'.
Proof.
  intros He Hx [Hq [l Hl]]. pose proof (exec_inv iter_streams iter_ids iter_messages l e c He Hl) as Hl'. rewrite Hx in Hl'.
  split; [|by eexists]. destruct e; simpl in Hx; try (by injection Hx as _ <-).
  rewrite M_bind_eq in Hx. destruct (Conn.poll_manager iter_streams iter_ids iter_messages c) as [[p| |] c1] eqn:Hp; [|done..].
  injection Hx as _ <-. unfold Conn.poll_manager in Hp. rewrite M_bind_eq in Hp. cbn [mgets] in Hp.
  pose proof (ok_keeps_loop qkept _ (Conn.poll_fuel c) poll_turn_ok c p c1 Hp) as H.
  destruct H as [H _]; [|done]. split; [done|by eexists].
Qed.

Lemma run_queues evs c u c' :
  Forall event_ok evs → run iter_streams iter_ids iter_messages evs c = (Ok u, c') → sound c → sound c'.
Proof.
  intros He. revert c. induction He as [|e evs He Hevs IH]; intros c; cbn [run]; [by intros [= _ <-]|].
  rewrite M_bind_eq. destruct (exec iter_streams iter_ids iter_messages e c) as [[v| |] c1] eqn:Hx; [|done..].
  intros Hr Hs. eapply IH; [exact Hr|]. by eapply exec_queues.
Qed.

Lemma connected_sound cfg script r c : Conn.dispatcher_new cfg script = Ok (r, c) → sound c.
Proof.
  intros Hc. split; [|eexists; by eapply connected_inv]. unfold Conn.dispatcher_new in Hc.
  destruct (FlowControl.setup_recv_window _ _) as [f| |]; [|done..]. cbn [mbind res_bind] in Hc.
  set (x := mbind _ _) in Hc. injection Hc as Hx.
  assert (Hk : keeps (cneutral true) x) by (unfold x; pose proof (release_conn_neutral (b := true) 0); keep).
  specialize (Hk (Conn.new (Streams.new (H2Config.stream_window_size cfg) DEFAULT_WINDOW_SIZE f) script)).
  rewrite Hx in Hk. apply cneutral_debts in Hk. eapply debts_queued; [exact Hk|].
  intros k sk. simpl. by rewrite lookup_empty.
Qed.

(** C2: No stream is forgotten: at any point of a connection's life, while the manager
    runs, every stream with HEADERS or DATA still to send waits in one of the queues:
    for a slot, for its own window, for the connection's window, or for its turn. *)
Theorem no_stream_forgotten cfg script c0 evs u c id st :
  Conn.dispatcher_new cfg script = Ok (Ok (), c0) → Forall event_ok evs →
  run iter_streams iter_ids iter_messages evs c0 = (Ok u, c) →
  Streams.stream_map (Conn.streams c) !! id = Some st → owes st → waiting (Conn.streams c) id.
Proof.
  intros Hc He Hr Hst Ho. apply connected_sound in Hc. destruct (run_queues _ _ _ _ He Hr Hc) as [Hq _]. by eapply Hq.
Qed.
End Walks.

(** Stream 1 of the connection at work waits for its turn. *)
Lemma no_stream_forgotten_witness :
  ∃ st, Streams.stream_map (Conn.streams sample_run) !! 1 = Some st ∧ Stream.state st = Open WaitData WaitHeaders ∧
    waiting (Conn.streams sample_run) 1.
Proof.
  eexists. split; [by vm_compute|]. split; [done|].
  refine (no_stream_forgotten all_streams all_ids all_messages _ _ H2Config.default [] connected sample_events () _ 1 _
    _ sample_events_ok _ _ _).
  - intros m id st Hm. apply list_elem_of_fmap. exists (id, st). split; [done|]. by apply elem_of_map_to_list.
  - intros X id. by apply elem_of_elements.
  - by vm_compute.
  - by vm_compute.
  - by vm_compute.
  - done.
Defined.
