(* ===== verification/H2Io.v ===== *)
(** The tasks that write and read the socket of an HTTP/2 connection
    ([ylong_http_client/src/util/h2/input.rs] and [output.rs]).

    The task that writes takes the frames the manager queues, encodes them into its buffer
    of 1024 bytes and writes the buffer out; the task that reads decodes what it reads and
    sends the frames to the manager.  A transport is the script of what its writes or reads
    give.  The state of the settings, which the tasks share with the manager behind a lock,
    is a field of each.  [PPending] is [Poll::Pending] and an error is [Poll::Ready(Err)]. *)
From S2P Require Import Prelude Buffers H2Error HpackTable Headers Parts Hpack HpackReprEncoder HpackRoundtrip H2Frame H2FrameDecoder H2FrameEncoder.
From S2P Require Import H2FrameWriter H2HeadersRoundtrip H2FrameDrain H2Streams H2Conn.

(** * Writing *)

Inductive write_event := WTake (n : Z) | WWait | WFail.
Module WriteBuf.
Record t := mk { buf : bytes; end_ : Z; start : Z; empty : bool }.
Definition SIZE : Z := 1024.
Definition new : t := mk (replicate (Z.to_nat SIZE) 0) 0 0 true.
Definition clear (b : t) : t := mk (buf b) 0 0 true.
End WriteBuf.
Inductive InputState := RecvFrame | WriteFrame.
Inductive SettingState := SNot | SLocal (s : Settings.t) | SAck.

Module SendData.
Record t := mk {
  encoder : FrameEncoder.t;
  settings : SettingsState;
  writer : list write_event;
  written : bytes;
  req_rx : list Frame.t;
  req_closed : bool;
  state : InputState;
  buf : WriteBuf.t;
}.
Definition new (e : FrameEncoder.t) : t := mk e Synced [] [] [] false RecvFrame WriteBuf.new.
Abbreviation m := (M t DispatchErrorKind).
Definition set_encoder (t0 : t) (e : FrameEncoder.t) : t := mk e (settings t0) (writer t0) (written t0) (req_rx t0) (req_closed t0) (state t0) (buf t0).
Definition set_settings (t0 : t) (s : SettingsState) : t := mk (encoder t0) s (writer t0) (written t0) (req_rx t0) (req_closed t0) (state t0) (buf t0).
Definition set_writer (t0 : t) (w : list write_event) (out : bytes) : t := mk (encoder t0) (settings t0) w out (req_rx t0) (req_closed t0) (state t0) (buf t0).
Definition set_req_rx (t0 : t) (l : list Frame.t) (closed : bool) : t := mk (encoder t0) (settings t0) (writer t0) (written t0) l closed (state t0) (buf t0).
Definition set_state (t0 : t) (s : InputState) : t := mk (encoder t0) (settings t0) (writer t0) (written t0) (req_rx t0) (req_closed t0) s (buf t0).
Definition set_buf (t0 : t) (b : WriteBuf.t) : t := mk (encoder t0) (settings t0) (writer t0) (written t0) (req_rx t0) (req_closed t0) (state t0) b.

(** [poll_write] of the transport. *)
Definition poll_write (data : bytes) : m (poll Z) := λ t0,
  match writer t0 with
  | [] => (Ok PPending, t0)
  | WWait :: l => (Ok PPending, set_writer t0 l (written t0))
  | WFail :: l => (Err DispatchIo, set_writer t0 l (written t0))
  | WTake n :: l => let d := upto n data in (Ok (PReady (len d)), set_writer t0 l (written t0 ++ d))
  end.
(** The loop over what is left in the buffer. *)
Fixpoint flush_loop (fuel : nat) : m (poll ()) :=
  match fuel with
  | O => mpanic
  | S fuel =>
      b ← mgets buf;
      r ← poll_write (slice (WriteBuf.start b) (WriteBuf.end_ b) (WriteBuf.buf b));
      match r with
      | PPending => mret PPending
      | PReady n =>
          let start := WriteBuf.start b + n in
          if start =? WriteBuf.end_ b then _ ← mmodify (λ t0, set_buf t0 (WriteBuf.clear b)); mret (PReady ())
          else _ ← mmodify (λ t0, set_buf t0 (WriteBuf.mk (WriteBuf.buf b) (WriteBuf.end_ b) start (WriteBuf.empty b))); flush_loop fuel
      end
  end.
(** The inner loop: [size] bytes of the buffer, from [index]. *)
Fixpoint write_loop (fuel : nat) (index size : Z) : m (poll ()) :=
  match fuel with
  | O => mpanic
  | S fuel =>
      b ← mgets buf;
      r ← poll_write (slice index size (WriteBuf.buf b));
      match r with
      | PPending => _ ← mmodify (λ t0, set_buf t0 (WriteBuf.mk (WriteBuf.buf b) size index false)); mret PPending
      | PReady n => if index + n =? size then mret (PReady ()) else write_loop fuel (index + n) size
      end
  end.
(** Every turn of a loop takes an answer of the transport. *)
Definition io_fuel (t0 : t) : nat := S (length (writer t0)).
Definition encode_buf : m Z := λ t0,
  match FrameEncoder.encode (WriteBuf.buf (buf t0)) (encoder t0) with
  | (Ok (b, size), e) => (Ok size, set_buf (set_encoder t0 e) (WriteBuf.mk b (WriteBuf.end_ (buf t0)) (WriteBuf.start (buf t0)) (WriteBuf.empty (buf t0))))
  | (Err _, e) => (Err (DispatchH2 (ConnectionError IntervalError)), set_encoder t0 e)
  | (Panic, e) => (Panic, set_encoder t0 e)
  end.
Fixpoint encode_loop (fuel : nat) : m (poll ()) :=
  match fuel with
  | O => mpanic
  | S fuel =>
      size ← encode_buf;
      if size =? 0 then mret (PReady ())
      else
        n ← mgets io_fuel;
        r ← write_loop n 0 size;
        match r with PPending => mret PPending | PReady _ => encode_loop fuel end
  end.
Definition poll_writer_frame : m (poll ()) :=
  b ← mgets buf;
  n ← mgets io_fuel;
  r ← (if WriteBuf.empty b then mret (PReady ()) else flush_loop n);
  match r with
  | PPending => mret PPending
  | PReady _ => n ← mgets io_fuel; encode_loop n
  end.

Definition poll_recv_frame : m (poll Frame.t) := λ t0,
  match req_rx t0 with
  | f :: l => (Ok (PReady f), set_req_rx t0 l (req_closed t0))
  | [] => if req_closed t0 then (Err ChannelClosed, t0) else (Ok PPending, t0)
  end.
Definition update_setting (e : FrameEncoder.t) (s : Setting.t) : FrameEncoder.t :=
  match s with
  | Setting.HeaderTableSize n => FrameEncoder.update_header_table_size e n
  | Setting.MaxFrameSize n => FrameEncoder.update_max_frame_size e n
  | _ => e
  end.
Definition update_settings (frame : Frame.t) : m SettingState :=
  match Frame.payload frame with
  | Payload.Settings s =>
      if FrameFlags.is_ack (Frame.flags frame) then _ ← mmodify (λ t0, set_encoder t0 (fold_left update_setting s (encoder t0))); mret SAck
      else mret (SLocal s)
  | _ => mret SNot
  end.

Section Poll.
Context (into_iter : Headers.t → list (HeaderName.t * HeaderValue.t)).
Definition set_frame (frame : Frame.t) : m () := λ t0,
  match FrameEncoder.set_frame into_iter frame (encoder t0) with
  | (Ok _, e) => (Ok (), set_encoder t0 e)
  | (Err _, e) => (Err (DispatchH2 (ConnectionError IntervalError)), set_encoder t0 e)
  | (Panic, e) => (Panic, set_encoder t0 e)
  end.
(** The turn of the loop with a frame from the channel. *)
Definition start_frame (frame : Frame.t) : m () :=
  s ← update_settings frame;
  _ ← (match s with SLocal setting => mmodify (λ t0, set_settings t0 (Acknowledging setting)) | _ => mret () end);
  _ ← set_frame (match s with SAck => Frame.settings_ack | _ => frame end);
  mmodify (λ t0, set_state t0 WriteFrame).
Fixpoint poll_loop (fuel : nat) : m (poll ()) :=
  match fuel with
  | O => mpanic
  | S fuel =>
      s ← mgets state;
      match s with
      | RecvFrame =>
          r ← poll_recv_frame;
          match r with
          | PPending => mret PPending
          | PReady frame => _ ← start_frame frame; poll_loop fuel
          end
      | WriteFrame =>
          r ← poll_writer_frame;
          match r with
          | PPending => mret PPending
          | PReady _ => _ ← mmodify (λ t0, set_state t0 RecvFrame); poll_loop fuel
          end
      end
  end.
(** Two turns for a frame, one more for the frame that is being written, and one to find the
    channel empty. *)
Definition poll_fuel (t0 : t) : nat := 2 * length (req_rx t0) + 3.
Definition poll : m (poll ()) := λ t0, poll_loop (poll_fuel t0) t0.
End Poll.
End SendData.

(** * Reading *)

(** What a read gives: bytes (at most the 1024 of the buffer at a time), the end of the
    stream as [RGot []], no data yet, or an error. *)
Inductive read_event := RGot (d : bytes) | RWait | RFail.
(** A read that was made: a segment, the end of the stream or an error. *)
Inductive got := Seg (d : bytes) | Eof | Broken.
Inductive DecodeState := DRead | DSend | DExit (e : DispatchErrorKind).
Module RecvData.
Record t := mk {
  decoder : FrameDecoder.t;
  settings : SettingsState;
  reader : list read_event;
  log : list got;
  state : DecodeState;
  next_state : DecodeState;
  room : list delivery;
  resp_tx : list OutputMessage;
  curr_message : option OutputMessage;
  pending_iter : option (list FrameKind);
}.
Abbreviation m := (M t DispatchErrorKind).
Definition new (d : FrameDecoder.t) (s : SettingsState) : t := mk d s [] [] DRead DRead [] [] None None.
Definition set_decoder (r : t) (d : FrameDecoder.t) : t := mk d (settings r) (reader r) (log r) (state r) (next_state r) (room r) (resp_tx r) (curr_message r) (pending_iter r).
Definition set_settings (r : t) (s : SettingsState) : t := mk (decoder r) s (reader r) (log r) (state r) (next_state r) (room r) (resp_tx r) (curr_message r) (pending_iter r).
Definition set_reader (r : t) (l : list read_event) (g : list got) : t := mk (decoder r) (settings r) l g (state r) (next_state r) (room r) (resp_tx r) (curr_message r) (pending_iter r).
Definition set_state (r : t) (s : DecodeState) : t := mk (decoder r) (settings r) (reader r) (log r) s (next_state r) (room r) (resp_tx r) (curr_message r) (pending_iter r).
Definition set_next (r : t) (s : DecodeState) : t := mk (decoder r) (settings r) (reader r) (log r) (state r) s (room r) (resp_tx r) (curr_message r) (pending_iter r).
Definition set_channel (r : t) (l : list delivery) (out : list OutputMessage) : t := mk (decoder r) (settings r) (reader r) (log r) (state r) (next_state r) l out (curr_message r) (pending_iter r).
Definition set_curr (r : t) (c : option OutputMessage) : t := mk (decoder r) (settings r) (reader r) (log r) (state r) (next_state r) (room r) (resp_tx r) c (pending_iter r).
Definition set_iter (r : t) (i : option (list FrameKind)) : t := mk (decoder r) (settings r) (reader r) (log r) (state r) (next_state r) (room r) (resp_tx r) (curr_message r) i.

(** Polling the future that sends [msg]. *)
Definition poll_send (msg : OutputMessage) : m (poll ()) := λ r,
  match room r with
  | Delivered :: l => (Ok (PReady ()), set_channel r l (resp_tx r ++ [msg]))
  | Gone :: l => (Err ChannelClosed, set_channel r l (resp_tx r))
  | Full :: l => (Ok PPending, set_channel r l (resp_tx r))
  | [] => (Ok PPending, r)
  end.
Definition transmit_message (msg : OutputMessage) : m (poll ()) :=
  x ← poll_send msg;
  match x with
  | PReady _ => mret (PReady ())
  | PPending => _ ← mmodify (λ r, set_curr (set_state r DSend) (Some msg)); mret PPending
  end.
Definition transmit_error (exit_err : DispatchErrorKind) : m (poll ()) := λ r,
  match transmit_message (MsgOutputExit exit_err) r with
  | (Ok PPending, r) => (Ok PPending, set_next r (DExit exit_err))
  | (_, r) => (Err exit_err, r)
  end.
(** The loop over the settings that are acknowledged; these methods touch the decoder only. *)
Fixpoint apply_settings (l : list Setting.t) : M FrameDecoder.t H2Error () :=
  match l with
  | [] => mret ()
  | s :: l =>
      _ ← (match s with
           | Setting.MaxHeaderListSize n => mmodify (λ d, FrameDecoder.set_max_header_list_size d n)
           | Setting.MaxFrameSize n => FrameDecoder.set_max_frame_size n
           | _ => mret ()
           end);
      apply_settings l
  end.
Definition update_decoder_settings (s : SettingsState) : M FrameDecoder.t H2Error () :=
  match s with
  | Acknowledging l => apply_settings l
  | Synced => mfail (ConnectionError ConnectError)
  end.
Definition update_settings (s : SettingsState) (frame : Frame.t) : M FrameDecoder.t H2Error () :=
  match Frame.payload frame with
  | Payload.Settings _ => if FrameFlags.is_ack (Frame.flags frame) then update_decoder_settings s else mret ()
  | _ => mret ()
  end.
(** The message for a frame; an error of its settings is a message too. *)
Definition message (s : SettingsState) (frame : Frame.t) (d : FrameDecoder.t) : res DispatchErrorKind OutputMessage * FrameDecoder.t :=
  match update_settings s frame d with
  | (Ok _, d) => (Ok (MsgOutput frame), d)
  | (Err e, d) => (Ok (MsgOutputExit (DispatchH2 e)), d)
  | (Panic, d) => (Panic, d)
  end.
Definition frame_message (frame : Frame.t) : m OutputMessage := λ r,
  let '(x, d) := message (settings r) frame (decoder r) in (x, set_decoder r d).
Fixpoint poll_iterator_frames (iter : list FrameKind) : m (poll ()) :=
  match iter with
  | [] => mret (PReady ())
  | Complete frame :: iter =>
      msg ← frame_message frame;
      x ← transmit_message msg;
      match x with
      | PReady _ => poll_iterator_frames iter
      | PPending => _ ← mmodify (λ r, set_iter r (Some iter)); mret PPending
      end
  | Partial :: iter => poll_iterator_frames iter
  end.
Definition poll_blocked_task : m (poll ()) :=
  c ← mgets curr_message;
  _ ← mmodify (λ r, set_curr r None);
  x ← (match c with Some msg => poll_send msg | None => mret (PReady ()) end);
  match x with
  | PPending => _ ← mmodify (λ r, set_curr r c); mret PPending
  | PReady _ =>
      i ← mgets pending_iter;
      match i with
      | Some iter => _ ← mmodify (λ r, set_iter r None); poll_iterator_frames iter
      | None => mret (PReady ())
      end
  end.
(** [poll_read] into the buffer of 1024 bytes. *)
Definition READ_SIZE : Z := 1024.
Definition poll_read : m (poll bytes) := λ r,
  match reader r with
  | [] => (Ok PPending, r)
  | RWait :: l => (Ok PPending, set_reader r l (log r))
  | RFail :: l => (Err DispatchIo, set_reader r l (log r ++ [Broken]))
  | RGot [] :: l => (Ok (PReady []), set_reader r l (log r ++ [Eof]))
  | RGot d :: l => (Ok (PReady (upto READ_SIZE d)), set_reader r (match from READ_SIZE d with [] => l | d' => RGot d' :: l end) (log r ++ [Seg (upto READ_SIZE d)]))
  end.
Definition decode (d : bytes) : m (res H2Error (list FrameKind)) := λ r,
  match FrameDecoder.decode d (decoder r) with
  | (Ok frames, x) => (Ok (Ok frames), set_decoder r x)
  | (Err e, x) => (Ok (Err e), set_decoder r x)
  | (Panic, x) => (Panic, set_decoder r x)
  end.
(** The arm of [DecodeState::Read]; [None] when the loop goes on. *)
Definition read_arm : m (option (poll ())) := λ r,
  match poll_read r with
  | (Ok PPending, r) => (Ok (Some PPending), r)
  | (Err e, r) => match transmit_error e r with (Ok x, r) => (Ok (Some x), r) | (Err e, r) => (Err e, r) | (Panic, r) => (Panic, r) end
  | (Panic, r) => (Panic, r)
  | (Ok (PReady []), r) => let '(_, r) := transmit_message (MsgOutputExit Disconnect) r in (Ok (Some PPending), set_state r DSend)
  | (Ok (PReady d), r) =>
      (x ← decode d;
       match x with
       | Ok frames =>
           y ← poll_iterator_frames frames;
           match y with PReady _ => mret None | PPending => _ ← mmodify (λ r, set_next r DRead); mret None end
       | Err e =>
           y ← transmit_message (MsgOutputExit (DispatchH2 e));
           match y with PReady _ => mret None | PPending => _ ← mmodify (λ r, set_next r DRead); mret (Some PPending) end
       | Panic => mpanic
       end) r
  end.
Definition send_arm : m (option (poll ())) :=
  x ← poll_blocked_task;
  match x with
  | PReady _ => _ ← mmodify (λ r, set_next (set_state r (next_state r)) DRead); mret None
  | PPending => mret (Some PPending)
  end.
Fixpoint read_loop (fuel : nat) : m (poll ()) :=
  match fuel with
  | O => mpanic
  | S fuel =>
      s ← mgets state;
      x ← (match s with DRead => read_arm | DSend => send_arm | DExit e => mfail e end);
      match x with Some p => mret p | None => read_loop fuel end
  end.
(** A read takes an event or a part of one; a turn that sends is followed by a read. *)
Definition event_size (ev : read_event) : nat := match ev with RGot d => S (length d) | _ => 1 end.
Definition read_fuel (r : t) : nat := 2 * sum_list_with event_size (reader r) + 3.
Definition poll_read_frame : m (poll ()) := λ r, read_loop (read_fuel r) r.
End RecvData.
