(* ===== verification/H2IoSend.v ===== *)
(** What the task that writes the socket of an HTTP/2 connection puts on the wire.

    [stream c fs] is the wire image of the frames [fs], one after the other, by RFC 9113 and
    RFC 7541, from the context [c] of the encoder: the limits the peer has set and the HPACK
    table.  The task writes this stream and nothing else, however the transport takes it. *)
From S2P Require Import Prelude Buffers H2Error HpackTable Headers Parts Hpack HpackReprEncoder HpackRoundtrip H2Frame H2FrameDecoder H2FrameEncoder.
From S2P Require Import H2FrameValid H2FrameWriter H2HeadersRoundtrip H2FrameDrain H2Streams H2Conn H2Io.

Module S := SendData.

(** * The stream *)

(** [c_block] is the size of the encoder's buffer for header blocks. *)
Record ctx := mk_ctx { c_max : Z; c_block : Z; c_huff : bool; c_table : DynamicTable.t }.
Definition fits (e : W.t) (c : ctx) : Prop :=
  W.max_frame_size e = c_max c ∧ len (W.header_payload_buffer e) = c_block c ∧ huffman e = c_huff c ∧
  HpackEncoder.table (W.hpack_encoder e) = c_table c ∧ HpackEncoder.is_finished (W.hpack_encoder e) = true ∧ dyn_ok (c_table c) ∧ 0 < c_block c ≤ c_max c.
Definition is_settings_ack (f : Frame.t) : bool :=
  match Frame.payload f with Payload.Settings _ => FrameFlags.is_ack (Frame.flags f) | _ => false end.
Section Stream.
Context (into_iter : Headers.t → list (HeaderName.t * HeaderValue.t)).
(** The acknowledgement of the peer's settings puts them into effect. *)
Definition apply_setting (c : ctx) (s : Setting.t) : ctx :=
  match s with Setting.MaxFrameSize n => mk_ctx n (c_block c) (c_huff c) (c_table c) | _ => c end.
Definition after (c : ctx) (f : Frame.t) : ctx :=
  match Frame.payload f with
  | Payload.Settings s => if FrameFlags.is_ack (Frame.flags f) then fold_left apply_setting s c else c
  | Payload.Headers parts => mk_ctx (c_max c) (c_block c) (c_huff c) (fields_table (c_huff c) (c_table c) (fields_of into_iter parts))
  | _ => c
  end.
Definition ack_bytes : bytes := frame_header_bytes 0 4 1 0.
Definition image (c : ctx) (f : Frame.t) : bytes :=
  match Frame.payload f with
  | Payload.Settings _ => if FrameFlags.is_ack (Frame.flags f) then ack_bytes else default [] (frame_bytes f)
  | Payload.Headers parts => concat (block_frames (c_block c) (Frame.id f) (Frame.flags f) (fields_bytes (c_huff c) (c_table c) (fields_of into_iter parts)))
  | _ => default [] (frame_bytes f)
  end.
(** A frame the manager can queue: within the limits of the peer, and of the buffer when the
    encoder does not resume in its middle. *)
Definition good (c : ctx) (f : Frame.t) : Prop :=
  match Frame.payload f with
  | Payload.Settings s =>
      if FrameFlags.is_ack (Frame.flags f) then Forall (λ x, match x with Setting.MaxFrameSize n => c_block c ≤ n | _ => True end) s
      else Frame.id f = 0 ∧ len s < 169
  | Payload.Headers parts => FrameFlags.is_end_headers (Frame.flags f) = true ∧ Forall (field_fits (c_huff c)) (fields_of into_iter parts)
  | Payload.Data d => len d ≤ c_max c
  | Payload.Ping d => len d = 8 ∧ Frame.id f = 0
  | Payload.PushPromise _ _ => False
  | _ => True
  end.
Fixpoint goods (c : ctx) (fs : list Frame.t) : Prop := match fs with [] => True | f :: fs => good c f ∧ goods (after c f) fs end.
Fixpoint stream (c : ctx) (fs : list Frame.t) : bytes := match fs with [] => [] | f :: fs => image c f ++ stream (after c f) fs end.
Definition afters (c : ctx) (fs : list Frame.t) : ctx := fold_left after fs c.
Lemma goods_app c fs gs : goods c (fs ++ gs) ↔ goods c fs ∧ goods (afters c fs) gs.
Proof. revert c. induction fs as [|f fs IH]; intros c; cbn [goods app afters fold_left]; [tauto|]. rewrite IH. unfold afters. tauto. Qed.
Lemma stream_app c fs gs : stream c (fs ++ gs) = stream c fs ++ stream (afters c fs) gs.
Proof. revert c. induction fs as [|f fs IH]; intros c; [done|]. cbn [stream app afters fold_left]. rewrite IH, (assoc_L (++)). done. Qed.

(** The encoder's part: a frame that is good is written as its image, whatever is in the
    buffer. *)
Lemma apply_settings s e c :
  fits e c → Forall (λ x, match x with Setting.MaxFrameSize n => c_block c ≤ n | _ => True end) s → fits (fold_left S.update_setting s e) (fold_left apply_setting s c).
Proof.
  intros He Hs. revert e c He Hs. induction s as [|x s IH]; intros e c He Hs; [done|]. inversion_clear Hs as [|?? Hx Hs']. cbn [fold_left]. apply IH.
  - destruct He as (H1 & H2 & H3 & H4 & H5 & H6 & H7). unfold fits, huffman in *. destruct e, x; cbn in *; split_and!; try done; lia.
  - destruct x; done.
Qed.
Lemma good_plain c f : good c f → plain f → is_settings_ack f = false →
  ∃ T, frame_bytes f = Some T ∧ image c f = T ∧ encodable (c_max c) f ∧ (resumes_writing (Frame.payload f) = false → len T < 1024) ∧ after c f = c.
Proof.
  intros Hg Hp Ha. destruct f as [id fl p]. unfold good, plain, image, after, encodable, frame_bytes, is_settings_ack in *. cbn [Frame.payload Frame.flags Frame.id] in *.
  destruct p; try done; cbn [payload_bytes mbind option_bind resumes_writing]; eexists; (split; [reflexivity|]); try (split_and!; try done; intros _; rewrite len_app; simpl; lia).
  - destruct Hg as [Hg1 Hg2]. split; [done|]. split; [done|]. split; [|done]. intros _. rewrite len_app, Hg1. change (len (frame_header_bytes _ _ _ _)) with 9. lia.
  - rewrite Ha in Hg |- *. destruct Hg as [Hg Hl]. split; [done|]. split; [done|]. split; [|done]. intros _. rewrite len_app, len_settings. change (len (frame_header_bytes _ _ _ _)) with 9. lia.
Qed.
(** The frame that is set for a frame of the channel, and the encoder it is set on. *)
Definition sent_as (f : Frame.t) : Frame.t := if is_settings_ack f then Frame.settings_ack else f.
Definition updated (f : Frame.t) (e : W.t) : W.t :=
  match Frame.payload f with Payload.Settings s => if FrameFlags.is_ack (Frame.flags f) then fold_left S.update_setting s e else e | _ => e end.
Lemma plain_writes c f T e buf :
  fits e c → frame_bytes f = Some T → encodable (c_max c) f → (resumes_writing (Frame.payload f) = false → len T < 1024) → len buf = 1024 →
  ∃ e0 buf' e', W.set_frame into_iter f e = (Ok (), e0) ∧ drains buf e0 T buf' e' ∧ len buf' = 1024 ∧ fits e' c.
Proof.
  intros (H1 & H2 & H3 & H4 & H5 & H6 & H7) HT Hen Hr Hb. rewrite <- H1 in Hen.
  destruct (frame_drains into_iter f T e buf HT Hen) as (e0 & buf' & e' & Hs & Hd & Hl & Hh & Hm); [lia|by rewrite Hb|]. exists e0, buf', e'. split; [done|]. split; [done|]. split; [lia|].
  unfold hpack_of in Hh. injection Hh as Hh1 Hh2. unfold fits, huffman in *. rewrite Hh1, Hh2, Hm. done.
Qed.
Lemma encoder_writes c f e buf :
  fits e c → good c f → len buf = 1024 →
  ∃ e0 buf' e', W.set_frame into_iter (sent_as f) (updated f e) = (Ok (), e0) ∧ drains buf e0 (image c f) buf' e' ∧ len buf' = 1024 ∧ fits e' (after c f).
Proof.
  intros He Hg Hb. destruct (is_settings_ack f) eqn:Ha.
  - unfold sent_as, updated, image, after, good in *. rewrite Ha. unfold is_settings_ack in Ha. destruct (Frame.payload f) as [| | | | |s| | |]; try done. rewrite Ha in *.
    apply (plain_writes _ Frame.settings_ack); [by apply apply_settings|done|done|by intros _; vm_compute|done].
  - unfold sent_as. rewrite Ha. assert (Hu : updated f e = e) by (unfold updated, is_settings_ack in *; destruct (Frame.payload f); try done; by rewrite Ha). rewrite Hu.
    destruct (Frame.payload f) as [parts| | | | | | | |] eqn:Hp.
    1: { unfold good, image, after in *. rewrite Hp in *. destruct Hg as [Hg1 Hg2]. pose proof He as (H1 & H2 & H3 & H4 & H5 & H6 & H7). destruct f as [id fl p]. cbn [Frame.payload Frame.id Frame.flags] in *. subst p.
         unfold huffman in H3. destruct (headers_drain into_iter id fl parts e buf) as (e0 & buf' & e' & Hs & Hd & Hl & K1 & K2 & K3 & K4 & K5 & K6); [done|done|by rewrite H4|lia|by rewrite H3|lia|].
         rewrite H2, H3, H4 in *. exists e0, buf', e'. split; [done|]. split; [done|]. split; [lia|]. unfold fits, huffman. cbn [c_max c_block c_huff c_table]. rewrite K1, K2, K6, K4. split_and!; try done; try lia. by rewrite <- K4. }
    all: destruct (good_plain c f Hg) as (T & HT & HiT & Hen & Hr & Haf); [unfold plain; by rewrite Hp|done|]; rewrite HiT, Haf; by apply plain_writes.
Qed.
End Stream.

(** * The transport *)

(** Writes that take a byte or more. *)
Definition takes (l : list write_event) : Prop := Forall (λ ev, ∃ n, ev = WTake n ∧ 0 < n) l.
(** Between [t] and [t'] the bytes [d] are written; no write that takes something is lost. *)
Definition wrote (t t' : S.t) (d : bytes) : Prop :=
  S.written t' = S.written t ++ d ∧ ∃ used, S.writer t = used ++ S.writer t' ∧ (takes used → (length used ≤ length d)%nat).
Definition same (t t' : S.t) : Prop := S.req_rx t' = S.req_rx t ∧ S.req_closed t' = S.req_closed t ∧ S.state t' = S.state t.
Lemma wrote_refl t : wrote t t [].
Proof. split; [by rewrite app_nil_r|]. by exists []. Qed.
Lemma wrote_same t t' : S.written t' = S.written t → S.writer t' = S.writer t → wrote t t' [].
Proof. intros H1 H2. split; [by rewrite H1, app_nil_r|]. exists []. by rewrite H2. Qed.
Lemma wrote_trans t t1 t2 d1 d2 : wrote t t1 d1 → wrote t1 t2 d2 → wrote t t2 (d1 ++ d2).
Proof.
  intros (H1 & u1 & H2 & H3) (H4 & u2 & H5 & H6). split; [by rewrite H4, H1, (assoc_L (++))|]. exists (u1 ++ u2). split; [by rewrite H2, H5, (assoc_L (++))|].
  intros Ht. apply Forall_app in Ht as [Ht1 Ht2]. rewrite !length_app. specialize (H3 Ht1). specialize (H6 Ht2). lia.
Qed.
Lemma wrote_takes t t' d : wrote t t' d → takes (S.writer t) → takes (S.writer t').
Proof. intros (_ & u & -> & _) Ht. by apply Forall_app in Ht as [_ Ht]. Qed.
Lemma same_trans t t1 t2 : same t t1 → same t1 t2 → same t t2.
Proof. intros (H1 & H2 & H3) (H4 & H5 & H6). split_and!; congruence. Qed.
#[local] Hint Resolve wrote_refl wrote_trans wrote_takes same_trans : core.
Definition keeps_enc (t t' : S.t) : Prop := S.encoder t' = S.encoder t ∧ S.buf t' = S.buf t ∧ same t t'.
(** The transport fails, or does not take what it is offered. *)
Definition fails (t : S.t) (e : DispatchErrorKind) : Prop := e = DispatchIo ∧ ¬ takes (S.writer t).
Definition stuck (t t' : S.t) : Prop := takes (S.writer t) → S.writer t' = [].
Lemma fails_earlier t t1 d e : wrote t t1 d → fails t1 e → fails t e.
Proof. intros Hw [He Hn]. split; [done|]. intros Ht. eauto. Qed.
Lemma stuck_earlier t t1 t2 d : wrote t t1 d → stuck t1 t2 → stuck t t2.
Proof. intros Hw Hs Ht. apply Hs. eauto. Qed.

Lemma poll_write_ok data t :
  0 < len data →
  match S.poll_write data t with
  | (Ok (PReady n), t') => n = len (upto n data) ∧ 0 ≤ n ≤ len data ∧ wrote t t' (upto n data) ∧ keeps_enc t t' ∧ (length (S.writer t') < length (S.writer t))%nat
  | (Ok PPending, t') => wrote t t' [] ∧ keeps_enc t t' ∧ stuck t t'
  | (Err e, t') => wrote t t' [] ∧ keeps_enc t t' ∧ fails t e
  | (Panic, _) => False
  end.
Proof.
  intros Hd. unfold S.poll_write. destruct t as [en se wr out rx cl st bf]. cbn [S.writer S.written]. destruct wr as [|[n| |] l].
  - by split_and!.
  - assert (Hl : len (upto n data) ≤ len data) by (unfold len, upto; rewrite length_take; lia). assert (Hu : upto (len (upto n data)) data = upto n data).
    { unfold upto, len. rewrite Nat2Z.id, length_take. destruct (Nat.le_gt_cases (Z.to_nat n) (length data)); [by rewrite Nat.min_l by lia|]. rewrite Nat.min_r by lia. by rewrite !firstn_all2 by lia. }
    pose proof (len_nonneg (upto n data)). rewrite Hu. split_and!; try done; [|cbn; lia]. split; [done|]. exists [WTake n]. split; [done|]. intros Ht. inversion_clear Ht as [|?? (k & Hk1 & Hk) _]. injection Hk1 as <-. cbn. assert (Hle : len (upto n data) = Z.min n (len data)) by (apply len_upto; lia). unfold len in *. lia.
  - split_and!; try done.
    + split; [by rewrite app_nil_r|]. exists [WWait]. split; [done|]. intros Ht. by inversion_clear Ht as [|?? (k & ? & _) _].
    + intros Ht. by inversion_clear Ht as [|?? (k & ? & _) _].
  - split_and!; try done.
    + split; [by rewrite app_nil_r|]. exists [WFail]. split; [done|]. intros Ht. by inversion_clear Ht as [|?? (k & ? & _) _].
    + split; [done|]. intros Ht. by inversion_clear Ht as [|?? (k & ? & _) _].
Qed.
Lemma slice_rest i j n (b : bytes) : 0 ≤ i → 0 ≤ n ≤ len (slice i j b) → slice i j b = upto n (slice i j b) ++ slice (i + n) j b.
Proof. intros Hi Hn. rewrite <- (upto_from n (slice i j b)) at 1. f_equal. unfold slice, from, upto. rewrite drop_drop. f_equal. lia. Qed.
Lemma slice_len i j (b : bytes) : 0 ≤ i ≤ j → j ≤ len b → len (slice i j b) = j - i.
Proof. intros. rewrite len_slice; lia. Qed.
Lemma write_loop_ok fuel i j t :
  (length (S.writer t) < fuel)%nat → 0 ≤ i < j → j ≤ len (WriteBuf.buf (S.buf t)) →
  match S.write_loop fuel i j t with
  | (Ok (PReady _), t') => wrote t t' (slice i j (WriteBuf.buf (S.buf t))) ∧ keeps_enc t t' ∧ (length (S.writer t') < length (S.writer t))%nat
  | (Ok PPending, t') => ∃ d i', wrote t t' d ∧ S.encoder t' = S.encoder t ∧ same t t' ∧ S.buf t' = WriteBuf.mk (WriteBuf.buf (S.buf t)) j i' false ∧ i ≤ i' < j ∧
      slice i j (WriteBuf.buf (S.buf t)) = d ++ slice i' j (WriteBuf.buf (S.buf t)) ∧ stuck t t'
  | (Err e, t') => ∃ d k, wrote t t' d ∧ slice i j (WriteBuf.buf (S.buf t)) = d ++ k ∧ fails t e
  | (Panic, _) => False
  end.
Proof.
  revert i t. induction fuel as [|fuel IH]; intros i t Hf Hi Hj; [lia|]. cbn [S.write_loop]. rewrite M_bind_eq. cbn [mgets]. rewrite M_bind_eq. set (b := WriteBuf.buf (S.buf t)) in *.
  pose proof (slice_len i j b ltac:(lia) Hj) as Hsl. pose proof (poll_write_ok (slice i j b) t ltac:(lia)) as Hw. destruct (S.poll_write (slice i j b) t) as [[[n|]|e|] t1].
  - destruct Hw as (Hn & Hnl & Hw & (He & Hbf & Hsame) & Hlen). pose proof (slice_rest i j n b ltac:(lia) ltac:(lia)) as Hsplit. destruct (Z.eqb_spec (i + n) j) as [Heq|Hne].
    + cbn. rewrite Heq in Hsplit. assert (Hnil : slice j j b = []) by apply slice_nil. rewrite Hnil, app_nil_r in Hsplit. rewrite Hsplit. by split_and!.
    + specialize (IH (i + n) t1 ltac:(lia) ltac:(lia)). rewrite Hbf in IH. fold b in IH. specialize (IH Hj). destruct (S.write_loop fuel (i + n) j t1) as [[[[]|]|e|] t2]; [| | |done].
      * destruct IH as (Hw2 & (He2 & Hb2 & Hs2) & Hl2). rewrite Hsplit. split; [eauto|]. split; [|lia]. split; [congruence|]. split; [congruence|eauto].
      * destruct IH as (d & i' & Hw2 & He2 & Hs2 & Hb2 & Hi' & Hd & Hst). exists (upto n (slice i j b) ++ d), i'. split; [eauto|]. split; [congruence|]. split; [eauto|]. split; [done|]. split; [lia|].
        split; [by rewrite Hsplit at 1; rewrite Hd, (assoc_L (++))|]. by eapply stuck_earlier.
      * destruct IH as (d & k & Hw2 & Hd & Hfl). exists (upto n (slice i j b) ++ d), k. split; [eauto|]. split; [by rewrite Hsplit at 1; rewrite Hd, (assoc_L (++))|]. by eapply fails_earlier.
  - destruct Hw as (Hw & (He & Hbf & Hsame) & Hst). cbn. exists [], i. split; [|split; [done|split; [done|split; [done|split; [lia|split; [done|done]]]]]]. destruct Hw as [H1 H2]. by split.
  - destruct Hw as (Hw & _ & Hfl). cbn. by exists [], (slice i j b).
  - done.
Qed.
Lemma flush_loop_ok fuel t :
  let b := S.buf t in
  (length (S.writer t) < fuel)%nat → 0 ≤ WriteBuf.start b < WriteBuf.end_ b → WriteBuf.end_ b ≤ len (WriteBuf.buf b) → WriteBuf.empty b = false →
  match S.flush_loop fuel t with
  | (Ok (PReady _), t') => wrote t t' (slice (WriteBuf.start b) (WriteBuf.end_ b) (WriteBuf.buf b)) ∧ S.encoder t' = S.encoder t ∧ same t t' ∧ S.buf t' = WriteBuf.clear b
  | (Ok PPending, t') => ∃ d i', wrote t t' d ∧ S.encoder t' = S.encoder t ∧ same t t' ∧ S.buf t' = WriteBuf.mk (WriteBuf.buf b) (WriteBuf.end_ b) i' false ∧
      0 ≤ i' < WriteBuf.end_ b ∧ slice (WriteBuf.start b) (WriteBuf.end_ b) (WriteBuf.buf b) = d ++ slice i' (WriteBuf.end_ b) (WriteBuf.buf b) ∧ stuck t t'
  | (Err e, t') => ∃ d k, wrote t t' d ∧ slice (WriteBuf.start b) (WriteBuf.end_ b) (WriteBuf.buf b) = d ++ k ∧ fails t e
  | (Panic, _) => False
  end.
Proof.
  revert t. induction fuel as [|fuel IH]; intros t b Hf Hi Hj He0; [lia|]. cbn [S.flush_loop]. rewrite M_bind_eq. cbn [mgets]. rewrite M_bind_eq. fold b. set (i := WriteBuf.start b) in *. set (j := WriteBuf.end_ b) in *. set (bb := WriteBuf.buf b) in *.
  pose proof (slice_len i j bb ltac:(lia) Hj) as Hsl. pose proof (poll_write_ok (slice i j bb) t ltac:(lia)) as Hw. destruct (S.poll_write (slice i j bb) t) as [[[n|]|e|] t1].
  - destruct Hw as (Hn & Hnl & Hw & (He & Hbf & Hsame) & Hlen). pose proof (slice_rest i j n bb ltac:(lia) ltac:(lia)) as Hsplit. destruct (Z.eqb_spec (i + n) j) as [Heq|Hne].
    + cbn. rewrite Heq, slice_nil, app_nil_r in Hsplit. rewrite Hsplit. by split_and!.
    + rewrite M_bind_eq. cbn [mmodify]. set (t2 := S.set_buf t1 _). specialize (IH t2). cbv zeta in IH. change (S.buf t2) with (WriteBuf.mk bb j (i + n) (WriteBuf.empty b)) in IH. cbn [WriteBuf.start WriteBuf.end_ WriteBuf.buf WriteBuf.empty] in IH.
      assert (Hw2 : wrote t t2 (upto n (slice i j bb))) by (destruct Hw as [H1 H2]; by split). assert (Hs2 : same t t2) by done. assert (He2 : S.encoder t2 = S.encoder t) by done.
      specialize (IH ltac:(change (S.writer t2) with (S.writer t1); lia) ltac:(lia) Hj He0). destruct (S.flush_loop fuel t2) as [[[[]|]|e|] t3]; [| | |done].
      * destruct IH as (Hw3 & He3 & Hs3 & Hb3). rewrite Hsplit. split; [eauto|]. split; [congruence|]. split; [eauto|done].
      * destruct IH as (d & i' & Hw3 & He3 & Hs3 & Hb3 & Hi' & Hd & Hst). exists (upto n (slice i j bb) ++ d), i'. split; [eauto|]. split; [congruence|]. split; [eauto|]. split; [done|]. split; [lia|].
        split; [by rewrite Hsplit at 1; rewrite Hd, (assoc_L (++))|]. by eapply stuck_earlier.
      * destruct IH as (d & k & Hw3 & Hd & Hfl). exists (upto n (slice i j bb) ++ d), k. split; [eauto|]. split; [by rewrite Hsplit at 1; rewrite Hd, (assoc_L (++))|]. by eapply fails_earlier.
  - destruct Hw as (Hw & (He & Hbf & Hsame) & Hst). cbn. exists [], i. split; [done|]. split; [done|]. split; [done|]. split; [rewrite Hbf; unfold bb, j, i, b in *; rewrite <- He0; by destruct (S.buf t)|]. split; [lia|]. by split.
  - destruct Hw as (Hw & _ & Hfl). cbn. by exists [], (slice i j bb).
  - done.
Qed.

(** * The task *)

(** The bytes that are encoded and not written. *)
Definition buffered (t : S.t) : bytes :=
  let b := S.buf t in if WriteBuf.empty b then [] else slice (WriteBuf.start b) (WriteBuf.end_ b) (WriteBuf.buf b).
Definition buf_ok (b : WriteBuf.t) : Prop :=
  len (WriteBuf.buf b) = 1024 ∧ (WriteBuf.empty b = false → 0 ≤ WriteBuf.start b < WriteBuf.end_ b ∧ WriteBuf.end_ b ≤ 1024).
(** The task is writing a frame: [w] is left of it, and then the encoder is in the context [c]. *)
Definition writing (t : S.t) (c : ctx) (w : bytes) : Prop :=
  buf_ok (S.buf t) ∧ ∃ w1 buf' e', drains (WriteBuf.buf (S.buf t)) (S.encoder t) w1 buf' e' ∧ len buf' = 1024 ∧ fits e' c ∧ w = buffered t ++ w1.
Lemma send_encode_loop_ok fuel t w buf' e' :
  drains (WriteBuf.buf (S.buf t)) (S.encoder t) w buf' e' → (length (S.writer t) < fuel)%nat → WriteBuf.empty (S.buf t) = true → len (WriteBuf.buf (S.buf t)) = 1024 →
  match S.encode_loop fuel t with
  | (Ok (PReady _), t') => wrote t t' w ∧ same t t' ∧ S.encoder t' = e' ∧ WriteBuf.buf (S.buf t') = buf' ∧ WriteBuf.empty (S.buf t') = true
  | (Ok PPending, t') => ∃ d w1, wrote t t' d ∧ same t t' ∧ w = d ++ buffered t' ++ w1 ∧ drains (WriteBuf.buf (S.buf t')) (S.encoder t') w1 buf' e' ∧
      buf_ok (S.buf t') ∧ buffered t' ≠ [] ∧ stuck t t'
  | (Err e, t') => ∃ d k, wrote t t' d ∧ w = d ++ k ∧ fails t e
  | (Panic, _) => False
  end.
Proof.
  intros Hd. remember (WriteBuf.buf (S.buf t)) as bf eqn:Hbf. remember (S.encoder t) as en eqn:Hen. revert fuel t Hbf Hen.
  induction Hd as [bf en buf' e' He|bf en buf1 n e1 w buf' e' He Hl1 Hn Hd IH]; intros fuel t Hbf Hen Hf Hem Hlen; (destruct fuel as [|fuel]; [lia|]); cbn [S.encode_loop]; rewrite M_bind_eq; unfold S.encode_buf; rewrite <- Hbf, <- Hen, He.
  - cbn. split; [destruct (wrote_refl t) as [H1 H2]; by split|]. done.
  - destruct (Z.eqb_spec n 0); [lia|]. rewrite M_bind_eq. cbn [mgets]. set (t1 := S.set_buf _ _). rewrite M_bind_eq.
    pose proof (write_loop_ok (S.io_fuel t1) 0 n t1 ltac:(unfold S.io_fuel; lia) ltac:(lia)) as Hw. change (WriteBuf.buf (S.buf t1)) with buf1 in Hw. specialize (Hw ltac:(lia)).
    assert (Hsl : slice 0 n buf1 = upto n buf1) by (unfold slice; by rewrite from_0 by lia). rewrite Hsl in Hw.
    assert (Hw1 : wrote t t1 []) by (destruct (wrote_refl t) as [H1 H2]; by split). assert (Hs1 : same t t1) by done.
    destruct (S.write_loop (S.io_fuel t1) 0 n t1) as [[[[]|]|e|] t2]; [| | |done].
    + destruct Hw as (Hw2 & (He2 & Hb2 & Hs2) & Hl2). specialize (IH fuel t2 ltac:(by rewrite Hb2) ltac:(by rewrite He2) ltac:(change (S.writer t1) with (S.writer t) in Hl2; lia) ltac:(by rewrite Hb2) ltac:(rewrite Hl1; lia)).
      assert (Hw12 : wrote t t2 (upto n buf1)) by (exact (wrote_trans _ _ _ _ _ Hw1 Hw2)).
      destruct (S.encode_loop fuel t2) as [[[[]|]|e|] t3]; [| | |done].
      * destruct IH as (Hw3 & Hs3 & He3 & Hb3 & Hem3). split; [eauto|]. split; [eauto|]. done.
      * destruct IH as (d & w1 & Hw3 & Hs3 & -> & Hd3 & Hb3 & Hne & Hst). exists (upto n buf1 ++ d), w1. split; [eauto|]. split; [eauto|]. split; [by rewrite <- !(assoc_L (++))|]. split; [done|]. split; [done|]. split; [done|]. by eapply stuck_earlier.
      * destruct IH as (d & k & Hw3 & -> & Hfl). exists (upto n buf1 ++ d), k. split; [eauto|]. split; [by rewrite <- (assoc_L (++))|]. by eapply fails_earlier.
    + destruct Hw as (d & i' & Hw2 & He2 & Hs2 & Hb2 & Hi' & Hd2 & Hst). exists d, w. split; [exact (wrote_trans _ _ _ _ _ Hw1 Hw2)|]. split; [eauto|]. unfold buffered. rewrite Hb2. cbn [WriteBuf.empty WriteBuf.start WriteBuf.end_ WriteBuf.buf].
      split; [by rewrite (assoc_L (++)), <- Hd2|]. rewrite He2. split; [done|]. split; [|split]; [split; cbn; [lia|intros _; lia]| |exact (stuck_earlier _ _ _ _ Hw1 Hst)].
      intros Hnil. apply (f_equal len) in Hnil. rewrite slice_len in Hnil by lia. change (len []) with 0 in Hnil. lia.
    + destruct Hw as (d & k & Hw2 & Hd2 & Hfl). exists d, (k ++ w). split; [exact (wrote_trans _ _ _ _ _ Hw1 Hw2)|]. split; [by rewrite Hd2, <- (assoc_L (++))|]. exact (fails_earlier _ _ _ _ Hw1 Hfl).
Qed.
Lemma writer_frame_ok t c w :
  writing t c w →
  match S.poll_writer_frame t with
  | (Ok (PReady _), t') => wrote t t' w ∧ same t t' ∧ fits (S.encoder t') c ∧ buf_ok (S.buf t') ∧ WriteBuf.empty (S.buf t') = true
  | (Ok PPending, t') => ∃ d w', wrote t t' d ∧ same t t' ∧ w = d ++ w' ∧ writing t' c w' ∧ w' ≠ [] ∧ stuck t t'
  | (Err e, t') => ∃ d k, wrote t t' d ∧ w = d ++ k ∧ fails t e
  | (Panic, _) => False
  end.
Proof.
  intros [[Hlen Hb] (w1 & buf' & e' & Hd & Hl' & Hfit & ->)]. unfold S.poll_writer_frame. rewrite M_bind_eq. cbn [mgets]. rewrite M_bind_eq. cbn [mgets]. rewrite M_bind_eq.
  assert (Hbt0 : buffered t = if WriteBuf.empty (S.buf t) then [] else slice (WriteBuf.start (S.buf t)) (WriteBuf.end_ (S.buf t)) (WriteBuf.buf (S.buf t))) by done. rewrite Hbt0. clear Hbt0.
  assert (Hrest : ∀ t1 d0, wrote t t1 d0 → same t t1 → S.encoder t1 = S.encoder t → WriteBuf.buf (S.buf t1) = WriteBuf.buf (S.buf t) → WriteBuf.empty (S.buf t1) = true →
    match (n ← mgets S.io_fuel; S.encode_loop n) t1 with
    | (Ok (PReady _), t') => wrote t t' (d0 ++ w1) ∧ same t t' ∧ fits (S.encoder t') c ∧ buf_ok (S.buf t') ∧ WriteBuf.empty (S.buf t') = true
    | (Ok PPending, t') => ∃ d w', wrote t t' d ∧ same t t' ∧ d0 ++ w1 = d ++ w' ∧ writing t' c w' ∧ w' ≠ [] ∧ stuck t t'
    | (Err e, t') => ∃ d k, wrote t t' d ∧ d0 ++ w1 = d ++ k ∧ fails t e
    | (Panic, _) => False
    end).
  { intros t1 d0 Hw1 Hs1 He1 Hb1 Hem1. rewrite M_bind_eq. cbn [mgets]. pose proof (send_encode_loop_ok (S.io_fuel t1) t1 w1 buf' e') as Hx. rewrite He1, Hb1 in Hx. specialize (Hx Hd ltac:(unfold S.io_fuel; lia) Hem1 Hlen).
    destruct (S.encode_loop (S.io_fuel t1) t1) as [[[[]|]|e|] t2]; [| | |done].
    - destruct Hx as (Hw2 & Hs2 & He2 & Hb2 & Hem2). split; [eauto|]. split; [eauto|]. rewrite He2. split; [done|]. split; [|done]. split; [by rewrite Hb2|by rewrite Hem2].
    - destruct Hx as (d & w2 & Hw2 & Hs2 & -> & Hd2 & Hb2 & Hne & Hst). exists (d0 ++ d), (buffered t2 ++ w2). split; [eauto|]. split; [eauto|]. split; [by rewrite <- (assoc_L (++))|]. split; [split; [done|by exists w2, buf', e']|]. split; [by destruct (buffered t2)|]. by eapply stuck_earlier.
    - destruct Hx as (d & k & Hw2 & -> & Hfl). exists (d0 ++ d), k. split; [eauto|]. split; [by rewrite <- (assoc_L (++))|]. by eapply fails_earlier. }
  destruct (WriteBuf.empty (S.buf t)) eqn:Hem.
  - cbn [mret M_ret]. exact (Hrest t [] (wrote_refl t) ltac:(done) eq_refl eq_refl Hem).
  - destruct (Hb eq_refl) as [Hi Hj]. pose proof (flush_loop_ok (S.io_fuel t) t ltac:(unfold S.io_fuel; lia) Hi ltac:(lia) Hem) as Hx. destruct (S.flush_loop (S.io_fuel t) t) as [[[[]|]|e|] t1]; [| | |done].
    + destruct Hx as (Hw1 & He1 & Hs1 & Hb1). apply Hrest; [done|done|done|by rewrite Hb1|by rewrite Hb1].
    + destruct Hx as (d & i' & Hw1 & He1 & Hs1 & Hb1 & Hi' & Hd1 & Hst). exists d, (buffered t1 ++ w1). split; [done|]. split; [done|].
      assert (Hbt : buffered t1 = slice i' (WriteBuf.end_ (S.buf t)) (WriteBuf.buf (S.buf t))) by (unfold buffered; by rewrite Hb1). rewrite Hbt. split; [by rewrite Hd1, <- (assoc_L (++))|].
      split; [|split; [|done]].
      * split; [split; rewrite Hb1; [done|cbn; intros _; lia]|]. exists w1, buf', e'. rewrite Hb1, He1, Hbt. done.
      * intros Hnil. apply app_eq_nil in Hnil as [Hnil _]. apply (f_equal len) in Hnil. rewrite slice_len in Hnil by lia. change (len []) with 0 in Hnil. lia.
    + destruct Hx as (d & k & Hw1 & Hd1 & Hfl). exists d, (k ++ w1). split; [done|]. split; [by rewrite Hd1, <- (assoc_L (++))|done].
Qed.

Section Task.
Context (into_iter : Headers.t → list (HeaderName.t * HeaderValue.t)) (c0 : ctx).
#[local] Abbreviation stream := (stream into_iter).
#[local] Abbreviation goods := (goods into_iter).
(** [task_ok fs t]: [fs] are the frames that were ever queued. *)
Definition task_ok (fs : list Frame.t) (t : S.t) : Prop :=
  goods c0 fs ∧ ∃ sent, 
  match S.state t with
  | RecvFrame => fs = sent ++ S.req_rx t ∧ S.written t = stream c0 sent ∧ fits (S.encoder t) (afters into_iter c0 sent) ∧ buf_ok (S.buf t) ∧ WriteBuf.empty (S.buf t) = true
  | WriteFrame => fs = sent ++ S.req_rx t ∧ ∃ w, stream c0 sent = S.written t ++ w ∧ writing t (afters into_iter c0 sent) w
  end.
Lemma send_start_ok t f l sent :
  goods c0 (sent ++ f :: l) → S.state t = RecvFrame → S.req_rx t = l → S.written t = stream c0 sent → fits (S.encoder t) (afters into_iter c0 sent) → buf_ok (S.buf t) → WriteBuf.empty (S.buf t) = true →
  ∃ t', S.start_frame into_iter f t = (Ok (), t') ∧ task_ok (sent ++ f :: l) t' ∧ S.state t' = WriteFrame ∧ S.req_rx t' = l ∧ S.req_closed t' = S.req_closed t ∧ wrote t t' [].
Proof.
  intros Hg Hst Hl Hw Hfit Hb Hem. set (c := afters into_iter c0 sent) in *. pose proof Hg as Hg0. apply goods_app in Hg0 as [_ [Hf _]]. destruct Hb as [Hlen Hb0].
  destruct (encoder_writes into_iter c f (S.encoder t) (WriteBuf.buf (S.buf t)) Hfit Hf Hlen) as (e0 & buf' & e' & Hset & Hd & Hl' & Hfit').
  assert (Hstart : ∃ s, S.start_frame into_iter f t = (Ok (), S.set_state (S.set_encoder (S.set_settings t s) e0) WriteFrame)).
  { unfold S.start_frame, S.update_settings, sent_as, updated, is_settings_ack in *. destruct t as [en se wr out rx cl st bf]. cbn [S.encoder] in *. destruct (Frame.payload f) eqn:Hp.
    6: destruct (FrameFlags.is_ack (Frame.flags f)).
    all: repeat (rewrite M_bind_eq; cbn [mret M_ret mmodify]); unfold S.set_frame; cbn [S.encoder S.set_encoder S.set_settings]; rewrite Hset; by eexists. }
  destruct Hstart as (s & ->). eexists. split; [reflexivity|]. split; [|split_and!; try done; by apply wrote_same].
  split; [done|]. exists (sent ++ [f]). cbn [S.state S.set_state S.req_rx S.set_encoder S.set_settings S.written]. split; [by rewrite Hl, <- (assoc_L (++))|]. exists (image into_iter c f).
  split; [rewrite stream_app, Hw; cbn; by rewrite app_nil_r|]. split; [exact (conj Hlen Hb0)|]. exists (image into_iter c f), buf', e'. split; [done|]. split; [done|].
  split; [|unfold buffered; cbn; by rewrite Hem]. unfold afters. rewrite fold_left_app. done.
Qed.
(** What a poll leaves: it waits for the transport, or for frames when everything that was
    queued is written. *)
Definition poll_good (fs : list Frame.t) (t : S.t) (x : res DispatchErrorKind (poll ()) * S.t) : Prop :=
  match x with
  | (Ok PPending, t') => ∃ d, wrote t t' d ∧ task_ok fs t' ∧ S.req_closed t' = S.req_closed t ∧
      (S.state t' = RecvFrame ∧ S.written t' = stream c0 fs ∨ S.state t' = WriteFrame ∧ S.written t' ≠ stream c0 fs ∧ stuck t t')
  | (Err e, t') => ∃ d k, wrote t t' d ∧ stream c0 fs = S.written t' ++ k ∧ (fails t e ∨ e = ChannelClosed ∧ S.req_closed t = true ∧ k = [])
  | _ => False
  end.
Lemma poll_good_earlier fs t t1 d x : wrote t t1 d → S.req_closed t1 = S.req_closed t → poll_good fs t1 x → poll_good fs t x.
Proof.
  intros Hw Hc. destruct x as [[[[]|]|e|] t2]; [done| | |done]; cbn [poll_good].
  - intros (d2 & Hw2 & Hok & Hc2 & Hcase). exists (d ++ d2). split; [eauto|]. split; [done|]. split; [congruence|]. destruct Hcase as [?|(? & ? & ?)]; [by left|right]. split; [done|]. split; [done|]. by eapply stuck_earlier.
  - intros (d2 & k & Hw2 & Hst & Hcase). exists (d ++ d2), k. split; [eauto|]. split; [done|]. destruct Hcase as [?|(? & ? & ?)]; [left; by eapply fails_earlier|right]. rewrite <- Hc. done.
Qed.
Lemma poll_loop_ok fuel fs t :
  task_ok fs t → (2 * length (S.req_rx t) + (match S.state t with RecvFrame => 1 | WriteFrame => 2 end) ≤ fuel)%nat → poll_good fs t (S.poll_loop into_iter fuel t).
Proof.
  revert t. induction fuel as [|fuel IH]; intros t [Hg (sent & Hok)] Hf; [destruct (S.state t); lia|]. cbn [S.poll_loop]. rewrite M_bind_eq. cbn [mgets]. destruct (S.state t) eqn:Hst.
  - destruct Hok as (-> & Hw & Hfit & Hb & Hem). rewrite M_bind_eq. unfold S.poll_recv_frame. destruct (S.req_rx t) as [|f l] eqn:Hrx.
    + rewrite app_nil_r in *. destruct (S.req_closed t) eqn:Hcl; cbn.
      * exists [], []. rewrite app_nil_r. split; [apply wrote_refl|]. split; [done|]. by right.
      * exists []. split; [apply wrote_refl|]. split; [|split; [done|by left]]. split; [done|]. exists sent. rewrite Hst, Hrx, app_nil_r. done.
    + set (t1 := S.set_req_rx t l _). destruct (send_start_ok t1 f l sent Hg Hst eq_refl Hw Hfit Hb Hem) as (t2 & Hs & Hok2 & Hst2 & Hrx2 & Hc2 & Hw2). rewrite M_bind_eq, Hs. assert (Hw1 : wrote t t1 []) by (by apply wrote_same).
      apply (poll_good_earlier _ t t2 []); [exact (wrote_trans _ _ _ _ _ Hw1 Hw2)|done|]. apply IH; [done|]. rewrite Hst2, Hrx2. cbn [length] in Hf. lia.
  - destruct Hok as (-> & w & Hw & Hwr). rewrite M_bind_eq. pose proof (writer_frame_ok t _ w Hwr) as Hx. destruct (S.poll_writer_frame t) as [[[[]|]|e|] t1]; [| | |done].
    + destruct Hx as (Hw1 & (Hs1 & Hs2 & Hs3) & Hfit & Hb & Hem). rewrite M_bind_eq. cbn [mmodify]. set (t2 := S.set_state t1 RecvFrame). apply (poll_good_earlier _ t t2 w); [destruct Hw1 as [H1 H2]; by split|done|].
      apply IH; [|change (S.req_rx t2) with (S.req_rx t1); cbn [S.state S.set_state t2]; rewrite Hs1; lia]. split; [done|]. exists sent. cbn [S.state S.set_state t2 S.req_rx S.written S.encoder S.buf]. rewrite Hs1. split; [done|]. destruct Hw1 as [H1 _]. by rewrite H1, Hw.
    + destruct Hx as (d & w' & Hw1 & (Hs1 & Hs2 & Hs3) & -> & Hwr' & Hne & Hstk). cbn. exists d. split; [done|]. pose proof Hw1 as [H1 _]. split; [|split; [done|right]].
      * split; [done|]. exists sent. rewrite Hs3, Hst, Hs1. split; [done|]. exists w'. split; [by rewrite H1, <- (assoc_L (++))|done].
      * split; [congruence|]. split; [|done]. rewrite H1, stream_app, Hw. intros Heq. apply (f_equal length) in Heq. rewrite !length_app in Heq. destruct w'; [done|]. cbn [length] in Heq. lia.
    + destruct Hx as (d & k & Hw1 & -> & Hfl). cbn. pose proof Hw1 as [H1 _]. exists d, (k ++ stream (afters into_iter c0 sent) (S.req_rx t)). split; [done|]. split; [|by left]. by rewrite stream_app, Hw, H1, <- !(assoc_L (++)).
Qed.

(** What happens to the task: the manager queues a frame or closes the channel, or the task is
    polled with a transport that answers its writes so. *)
Inductive send_event := Queue (f : Frame.t) | Close | PollWith (w : list write_event).
Definition queued (evs : list send_event) : list Frame.t := evs ≫= λ ev, match ev with Queue f => [f] | _ => [] end.
(** The events in turn, up to an error; [None] when the task goes on. *)
Fixpoint run (evs : list send_event) (t : S.t) : option DispatchErrorKind * S.t :=
  match evs with
  | [] => (None, t)
  | Queue f :: evs => run evs (S.set_req_rx t (S.req_rx t ++ [f]) (S.req_closed t))
  | Close :: evs => run evs (S.set_req_rx t (S.req_rx t) true)
  | PollWith w :: evs =>
      match S.poll into_iter (S.set_writer t w (S.written t)) with
      | (Ok _, t) => run evs t
      | (Err e, t) => (Some e, t)
      | (Panic, t) => (Some Disconnect, t)
      end
  end.
Lemma poll_ok fs t : task_ok fs t → poll_good fs t (S.poll into_iter t).
Proof. intros Hok. apply poll_loop_ok; [done|]. unfold S.poll_fuel. destruct (S.state t); lia. Qed.
Lemma task_ok_writer fs t w : task_ok fs t → task_ok fs (S.set_writer t w (S.written t)).
Proof. done. Qed.
Lemma task_ok_prefix fs t : task_ok fs t → ∃ rest, stream c0 fs = S.written t ++ rest.
Proof.
  intros [_ (sent & Hok)]. destruct (S.state t); destruct Hok as (-> & Hok); rewrite stream_app.
  - destruct Hok as (Hw & _). rewrite Hw. by eexists.
  - destruct Hok as (w & Hw & _). rewrite Hw, <- (assoc_L (++)). by eexists.
Qed.
Lemma run_ok evs fs t :
  task_ok fs t → goods c0 (fs ++ queued evs) →
  let '(r, t') := run evs t in
  (∃ rest, stream c0 (fs ++ queued evs) = S.written t' ++ rest) ∧
  match r with None => task_ok (fs ++ queued evs) t' | Some e => e = DispatchIo ∨ e = ChannelClosed ∧ (S.req_closed t = true ∨ Close ∈ evs) end.
Proof.
  revert fs t. induction evs as [|[f| |w] evs IH]; intros fs t Hok Hg; cbn [run].
  - unfold queued in *. cbn [mbind list_bind] in *. rewrite app_nil_r in *. split; [by apply task_ok_prefix|done].
  - change (queued (Queue f :: evs)) with (f :: queued evs) in *. assert (Hfs : fs ++ f :: queued evs = (fs ++ [f]) ++ queued evs) by (by rewrite <- (assoc_L (++))). rewrite Hfs in *. clear Hfs. specialize (IH (fs ++ [f]) (S.set_req_rx t (S.req_rx t ++ [f]) (S.req_closed t))).
    assert (Hok' : task_ok (fs ++ [f]) (S.set_req_rx t (S.req_rx t ++ [f]) (S.req_closed t))).
    { split; [by apply goods_app in Hg as [Hg _]|]. destruct Hok as [_ (sent & Hok)]. exists sent. cbn [S.state S.set_req_rx S.req_rx]. destruct (S.state t); destruct Hok as (-> & Hok); (split; [by rewrite <- (assoc_L (++))|]); exact Hok. }
    specialize (IH Hok' Hg). destruct (run evs _) as [[e|] t']; [|done]. destruct IH as [H1 [?|(? & [?|?])]]; (split; [done|]); [by left|right; split; [done|by left]|right; split; [done|right; by right]].
  - specialize (IH fs (S.set_req_rx t (S.req_rx t) true)). change (queued (Close :: evs)) with (queued evs) in *. specialize (IH ltac:(exact Hok) Hg). destruct (run evs _) as [[e|] t']; [|done].
    destruct IH as [H1 [?|(? & _)]]; (split; [done|]); [by left|right; split; [done|right; by left]].
  - change (queued (PollWith w :: evs)) with (queued evs) in *. set (t1 := S.set_writer t w (S.written t)). pose proof (poll_ok fs t1 Hok) as Hp. destruct (S.poll into_iter t1) as [[[[]|]|e|] t2]; [done| | |done].
    + destruct Hp as (d & Hw & Hok2 & Hc2 & _). specialize (IH fs t2 Hok2 Hg). destruct (run evs t2) as [[e|] t']; [|done]. destruct IH as [H1 [?|(? & [?|?])]]; (split; [done|]); [by left|right; split; [done|left; change (S.req_closed t1 = true); congruence]|right; split; [done|right; by right]].
    + destruct Hp as (d & k & Hw & Hst & Hcase). split; [rewrite stream_app, Hst, <- (assoc_L (++)); by eexists|]. destruct Hcase as [[? _]|(? & ? & _)]; [by left|right; split; [done|by left]].
Qed.
End Task.

Lemma new_task_ok into_iter c e : fits e c → task_ok into_iter c [] (S.new e).
Proof. intros He. split; [done|]. exists []. cbn. split_and!; try done. Qed.

(** C4: The task that writes the socket puts the frames the manager queues on the wire, in
    their order and each as RFC 9113 has it (header blocks in as many CONTINUATION frames as
    they need), however the transport cuts, delays or refuses its writes and whenever the
    frames come: what it has written is always a beginning of that stream, it ends only with
    an error of the transport or when the channel is closed, and at any time a poll with a
    transport that takes bytes writes all that is queued. *)
Theorem h2_frames_sent into_iter c e evs :
  fits e c → goods into_iter c (queued evs) →
  let '(r, t) := run into_iter evs (S.new e) in
  (∃ rest, stream into_iter c (queued evs) = S.written t ++ rest) ∧
  (∀ x, r = Some x → x = DispatchIo ∨ x = ChannelClosed ∧ Close ∈ evs) ∧
  (r = None → ∀ w, takes w → len (stream into_iter c (queued evs)) < len (S.written t) + len w →
    S.written (S.poll into_iter (S.set_writer t w (S.written t))).2 = stream into_iter c (queued evs)).
Proof.
  intros He Hg. pose proof (run_ok into_iter c evs [] (S.new e) (new_task_ok into_iter c e He) Hg) as Hrun. destruct (run into_iter evs (S.new e)) as [r t]. destruct Hrun as [Hpre Hr]. cbn [app] in *. split; [done|]. split.
  - intros x ->. destruct Hr as [?|(? & [?|?])]; [by left|done|by right].
  - intros -> w Htk Hlen. set (t1 := S.set_writer t w (S.written t)). pose proof (poll_ok into_iter c (queued evs) t1 Hr) as Hp. destruct (S.poll into_iter t1) as [[[[]|]|x|] t2]; [done| | |done]; cbn [snd].
    + destruct Hp as (d & Hw & Hok2 & _ & [[_ ?]|(_ & _ & Hst)]); [done|]. specialize (Hst Htk). destruct Hw as (H1 & u & H2 & H3). rewrite Hst, app_nil_r in H2. change (S.writer t1) with w in H2. subst u. specialize (H3 Htk).
      exfalso. destruct (task_ok_prefix into_iter c _ t2 Hok2) as [rest Hrest]. rewrite Hrest, H1 in Hlen. change (S.written t1) with (S.written t) in Hlen. rewrite !len_app in Hlen. pose proof (len_nonneg rest). unfold len in *. lia.
    + destruct Hp as (d & k & Hw & Hst & [[_ Hn]|(_ & _ & ->)]); [done|]. by rewrite Hst, app_nil_r.
Qed.

Definition walk (h : Headers.t) : list (HeaderName.t * HeaderValue.t) := map_to_list (Headers.map h).
Definition start_ctx : ctx := mk_ctx 16384 16384 false (HpackEncoder.table (W.hpack_encoder (W.new 16384 false))).
Lemma start_fits : fits (W.new 16384 false) start_ctx.
Proof. split_and!; try done; by vm_compute. Qed.
Definition sample_events : list send_event :=
  [Queue (Frame.mk 0 0 (Payload.Settings [Setting.EnablePush false])); PollWith [WTake 5; WWait]; Queue (Frame.mk 1 4 (Payload.Headers sample_parts));
   Queue (Frame.mk 1 1 (Payload.Data [1; 2; 3])); PollWith [WTake 40; WTake 1; WWait]; Queue (Frame.mk 0 1 (Payload.Settings [Setting.MaxFrameSize 20000])); Close].
Lemma h2_frames_sent_witness :
  let '(r, t) := run walk sample_events (S.new (W.new 16384 false)) in
  (∃ rest, stream walk start_ctx (queued sample_events) = S.written t ++ rest) ∧
  (∀ x, r = Some x → x = DispatchIo ∨ x = ChannelClosed ∧ Close ∈ sample_events) ∧
  (r = None → ∀ w, takes w → len (stream walk start_ctx (queued sample_events)) < len (S.written t) + len w →
    S.written (S.poll walk (S.set_writer t w (S.written t))).2 = stream walk start_ctx (queued sample_events)).
Proof.
  apply (h2_frames_sent walk start_ctx (W.new 16384 false) sample_events); [apply start_fits|].
  cbn [queued sample_events mbind list_bind app goods good Frame.payload Frame.flags Frame.id]. split_and!; try done.
  - eapply Forall_impl; [apply sendable_fits|apply sample_sendable].
  - constructor; [by vm_compute|constructor].
Defined.

(** A transport that answers a write with 0 bytes keeps the task in its loop: every answer is
    taken in the one poll, and nothing is written. *)
Lemma zero_writes_spin :
  let t := S.set_writer (S.set_req_rx (S.new (W.new 16384 false)) [Frame.settings_ack] false) (replicate 100 (WTake 0)) [] in
  let '(r, t') := S.poll walk t in r = Ok PPending ∧ S.writer t' = [] ∧ S.written t' = [].
Proof. by vm_compute. Qed.
