(* ===== verification/H2IoRecv.v ===== *)
(** What the task that reads the socket of an HTTP/2 connection tells the manager.

    [told] are the messages for what was read: those of the frames the decoder makes of each
    segment, and one for each error, in order.  However full the channel to the manager is,
    the task sends these messages and nothing else. *)
From S2P Require Import Prelude Buffers H2Error H2Frame H2FrameDecoder H2Streams H2Conn H2Io.

Module R := RecvData.

(** * What is told *)

Inductive frames_told : FrameDecoder.t → list FrameKind → list OutputMessage → FrameDecoder.t → Prop :=
| ft_nil d : frames_told d [] [] d
| ft_partial d l msgs d' : frames_told d l msgs d' → frames_told d (Partial :: l) msgs d'
| ft_frame s d f l msg d1 msgs d' : R.message s f d = (Ok msg, d1) → frames_told d1 l msgs d' → frames_told d (Complete f :: l) (msg :: msgs) d'.
Inductive told : FrameDecoder.t → list got → list OutputMessage → FrameDecoder.t → Prop :=
| told_nil d : told d [] [] d
| told_seg d s frames d1 msgs d2 l msgs' d' :
    FrameDecoder.decode s d = (Ok frames, d1) → frames_told d1 frames msgs d2 → told d2 l msgs' d' → told d (Seg s :: l) (msgs ++ msgs') d'
| told_error d s e d1 l msgs d' : FrameDecoder.decode s d = (Err e, d1) → told d1 l msgs d' → told d (Seg s :: l) (MsgOutputExit (DispatchH2 e) :: msgs) d'
| told_eof d l msgs d' : told d l msgs d' → told d (Eof :: l) (MsgOutputExit Disconnect :: msgs) d'
| told_broken d l msgs d' : told d l msgs d' → told d (Broken :: l) (MsgOutputExit DispatchIo :: msgs) d'.
Lemma told_app d l msgs d1 l' msgs' d' : told d l msgs d1 → told d1 l' msgs' d' → told d (l ++ l') (msgs ++ msgs') d'.
Proof.
  induction 1 as [d|d s frames d1 msgs1 d2 l msgs d3 Hd Hf Ht IH|d s e d1 l msgs d3 Hd Ht IH|d l msgs d3 Ht IH|d l msgs d3 Ht IH]; intros H2; cbn [app]; [done|..].
  - rewrite <- (assoc_L (++)). eapply told_seg; eauto.
  - eapply told_error; eauto.
  - apply told_eof; auto.
  - apply told_broken; auto.
Qed.

Lemma message_ok s f d : ∃ msg d1, R.message s f d = (Ok msg, d1).
Proof.
  unfold R.message, R.update_settings. destruct (Frame.payload f); try (by eexists _, _). destruct (FrameFlags.is_ack _); [|by eexists _, _].
  unfold R.update_decoder_settings. destruct s as [l|]; [|by eexists _, _].
  assert (Hgo : ∀ l d, (R.apply_settings l d).1 ≠ Panic).
  { clear. induction l as [|x l IH]; intros d; [done|]. cbn [R.apply_settings]. rewrite M_bind_eq. destruct x; cbn [mret M_ret mmodify]; try apply IH.
    unfold FrameDecoder.set_max_frame_size. destruct (negb _); [done|apply IH]. }
  specialize (Hgo l d). destruct (R.apply_settings l d) as [[[]|e|] d1]; [by eexists _, _..|done].
Qed.
Lemma frames_told_some l d : ∃ msgs d', frames_told d l msgs d'.
Proof.
  revert d. induction l as [|[f|] l IH]; intros d; [by eexists _, _; constructor| |].
  - destruct (message_ok Synced f d) as (msg & d1 & Hm). destruct (IH d1) as (msgs & d' & Hl). eexists _, _. by econstructor.
  - destruct (IH d) as (msgs & d' & Hl). eexists _, _. by constructor.
Qed.

(** * The task *)

Section Recv.
Context (d0 : FrameDecoder.t).
(** [owes l r]: what was read is told once the messages for the frames [l] are. *)
Definition owes (first : list OutputMessage) (l : list FrameKind) (r : R.t) : Prop :=
  ∀ msgs d', frames_told (R.decoder r) l msgs d' → told d0 (R.log r) (R.resp_tx r ++ first ++ msgs) d'.
(** The last read failed. *)
Definition broke (r : R.t) : Prop := ∃ g, R.log r = g ++ [Broken].
Definition recv_ok (r : R.t) : Prop :=
  owes (option_list (R.curr_message r)) (default [] (R.pending_iter r)) r ∧
  match R.state r with
  | DRead => R.curr_message r = None ∧ R.pending_iter r = None ∧ R.next_state r = DRead
  | DSend => True
  | DExit e => R.curr_message r = None ∧ R.pending_iter r = None ∧ e = DispatchIo ∧ broke r
  end ∧
  match R.next_state r with DRead => True | DSend => False | DExit e => e = DispatchIo ∧ broke r end.
(** All that was read is told. *)
Definition all_told (r : R.t) : Prop := ∃ d, told d0 (R.log r) (R.resp_tx r) d.
(** The decoder panicked on the last segment; all before is told. *)
Definition panicked (r : R.t) : Prop := ∃ g s d, R.log r = g ++ [Seg s] ∧ told d0 g (R.resp_tx r) d ∧ (FrameDecoder.decode s d).1 = Panic.
(** The messages that were sent are those for what was read, up to some point. *)
Definition sent_ok (r : R.t) : Prop := ∃ g g' rest d', R.log r = g ++ g' ∧ told d0 g (R.resp_tx r ++ rest) d'.
Lemma owes_sent first l r : owes first l r → sent_ok r.
Proof. intros Ho. destruct (frames_told_some l (R.decoder r)) as (msgs & d' & Hf). exists (R.log r), [], (first ++ msgs), d'. split; [by rewrite app_nil_r|exact (Ho _ _ Hf)]. Qed.
(** The channel had no room at some time. *)
Definition crowded (r r' : R.t) : Prop := Forall (eq Delivered) (R.room r) → R.room r' = [].
(** The manager is there to receive. *)
Definition alive (r : R.t) : Prop := Forall (λ x, x ≠ Gone) (R.room r).
(** The parts of the task that a method that sends leaves alone. *)
Definition same (r r' : R.t) : Prop := R.log r' = R.log r ∧ R.reader r' = R.reader r ∧ R.settings r' = R.settings r ∧ (Forall (eq Delivered) (R.room r) → Forall (eq Delivered) (R.room r')) ∧ (alive r → alive r').
Lemma same_refl r : same r r.
Proof. done. Qed.
Lemma recv_same_trans r r1 r2 : same r r1 → same r1 r2 → same r r2.
Proof. intros (H1 & H2 & H3 & H4 & H4') (H5 & H6 & H7 & H8 & H8'). split_and!; [congruence..|auto|auto]. Qed.
Lemma crowded_earlier r r1 r2 : same r r1 → crowded r1 r2 → crowded r r2.
Proof. intros (_ & _ & _ & H & _) Hc Hd. auto. Qed.
Lemma alive_later r r1 : same r r1 → alive r → alive r1.
Proof. intros (_ & _ & _ & _ & H). done. Qed.
#[local] Hint Resolve same_refl recv_same_trans crowded_earlier alive_later : core.
Lemma poll_send_ok msg r :
  match R.poll_send msg r with
  | (Ok (PReady _), r') => same r r' ∧ R.resp_tx r' = R.resp_tx r ++ [msg] ∧ r' = R.set_channel r (R.room r') (R.resp_tx r')
  | (Ok PPending, r') => same r r' ∧ r' = R.set_channel r (R.room r') (R.resp_tx r) ∧ crowded r r'
  | (Err e, r') => ¬ alive r
  | (Panic, _) => False
  end.
Proof.
  unfold R.poll_send. destruct r as [d s rd lg st nx rm out cu it]. cbn [R.room].
  assert (Htl : ∀ (P : delivery → Prop) x l, Forall P (x :: l) → Forall P l) by (intros P x l H; by inversion_clear H).
  destruct rm as [|[| |] l]; [| |intros H; by inversion_clear H|]; split_and!; try done; [by split_and!; [..|apply Htl|apply Htl]..|]. intros H. by inversion_clear H.
Qed.
Lemma transmit_ok msg l r :
  R.curr_message r = None → owes [msg] l r →
  match R.transmit_message msg r with
  | (Ok (PReady _), r') => same r r' ∧ owes [] l r' ∧ R.decoder r' = R.decoder r ∧ R.state r' = R.state r ∧ R.next_state r' = R.next_state r ∧ R.curr_message r' = None ∧ R.pending_iter r' = R.pending_iter r
  | (Ok PPending, r') => same r r' ∧ owes [msg] l r' ∧ R.state r' = DSend ∧ R.next_state r' = R.next_state r ∧ R.curr_message r' = Some msg ∧ R.pending_iter r' = R.pending_iter r ∧ crowded r r'
  | (Err e, r') => ¬ alive r
  | (Panic, _) => False
  end.
Proof.
  intros Hc Ho. unfold R.transmit_message. rewrite M_bind_eq. pose proof (poll_send_ok msg r) as Hp. destruct (R.poll_send msg r) as [[[[]|]|e|] r']; [| | |done]; cbn [mret M_ret].
  - destruct Hp as (Hs & Ht & Hr'). split; [done|]. split; [|rewrite Hr'; by destruct r]. intros msgs d' Hf. rewrite Hr' in Hf |- *. cbn in Hf |- *. rewrite Ht, <- (assoc_L (++)). exact (Ho _ _ Hf).
  - destruct Hp as (Hs & Hr' & Hcr). rewrite M_bind_eq. cbn [mmodify]. split; [done|]. split; [|rewrite Hr' in *; by destruct r]. intros msgs d' Hf. rewrite Hr' in Hf |- *. exact (Ho _ _ Hf).
  - done.
Qed.
(** The outcome of sending frames. *)
Definition all_sent (r r' : R.t) : Prop :=
  same r r' ∧ owes [] [] r' ∧ R.state r' = R.state r ∧ R.next_state r' = R.next_state r ∧ R.curr_message r' = None ∧ R.pending_iter r' = None.
Definition held (r r' : R.t) : Prop :=
  same r r' ∧ owes (option_list (R.curr_message r')) (default [] (R.pending_iter r')) r' ∧ R.state r' = DSend ∧ R.next_state r' = R.next_state r ∧ crowded r r'.
Definition sending (r : R.t) (x : res DispatchErrorKind (poll ()) * R.t) : Prop :=
  match x with
  | (Ok (PReady _), r') => all_sent r r'
  | (Ok PPending, r') => held r r'
  | (Err e, r') => ¬ alive r
  | (Panic, _) => False
  end.
Lemma iterator_ok iter r : R.curr_message r = None → R.pending_iter r = None → owes [] iter r → sending r (R.poll_iterator_frames iter r).
Proof.
  revert r. induction iter as [|[f|] iter IH]; intros r Hc Hi Ho; cbn [R.poll_iterator_frames].
  - done.
  - rewrite M_bind_eq. unfold R.frame_message. destruct (message_ok (R.settings r) f (R.decoder r)) as (msg & d1 & Hm). rewrite Hm. set (r1 := R.set_decoder r d1).
    assert (Ho1 : owes [msg] iter r1) by (intros msgs d' Hf; cbn; apply (Ho (msg :: msgs) d'); by eapply ft_frame). assert (Hs1 : same r r1) by done.
    rewrite M_bind_eq. pose proof (transmit_ok msg iter r1 Hc Ho1) as Ht. destruct (R.transmit_message msg r1) as [[[[]|]|e|] r2]; [| | |done].
    + destruct Ht as (Hs2 & Ho2 & Hd2 & Hst2 & Hn2 & Hc2 & Hi2). specialize (IH r2 Hc2 ltac:(by rewrite Hi2) Ho2). destruct (R.poll_iterator_frames iter r2) as [[[[]|]|e|] r3]; [| | |done].
      * destruct IH as (Hs3 & Ho3 & Hst3 & Hn3 & Hc3 & Hi3). split_and!; try done; [eauto|exact (eq_trans Hst3 Hst2)|exact (eq_trans Hn3 Hn2)].
      * destruct IH as (Hs3 & Ho3 & Hst3 & Hn3 & Hcr). split_and!; try done; [eauto|exact (eq_trans Hn3 Hn2)|eauto].
      * intros Ha. apply IH. eauto.
    + destruct Ht as (Hs2 & Ho2 & Hst2 & Hn2 & Hc2 & Hi2 & Hcr). rewrite M_bind_eq. cbn [mmodify mret M_ret sending]. split; [exact (recv_same_trans _ _ _ Hs1 Hs2)|]. split; [|split; [done|split; [exact Hn2|exact (crowded_earlier _ _ _ Hs1 Hcr)]]].
      intros msgs d' Hf. cbn in Hf |- *. rewrite Hc2. exact (Ho2 _ _ Hf).
    + done.
  - apply IH; [done|done|]. intros msgs d' Hf. apply Ho. by constructor.
Qed.
Lemma blocked_ok r : R.state r = DSend → owes (option_list (R.curr_message r)) (default [] (R.pending_iter r)) r → sending r (R.poll_blocked_task r).
Proof.
  intros Hst Ho. unfold R.poll_blocked_task. rewrite M_bind_eq. cbn [mgets]. rewrite M_bind_eq. cbn [mmodify]. rewrite M_bind_eq. set (c := R.curr_message r) in *. set (r1 := R.set_curr r None). assert (Hs1 : same r r1) by done.
  assert (Hgo : ∀ r2, same r r2 → owes [] (default [] (R.pending_iter r)) r2 → R.state r2 = R.state r → R.next_state r2 = R.next_state r → R.curr_message r2 = None → R.pending_iter r2 = R.pending_iter r →
    sending r ((i ← mgets R.pending_iter; match i with Some iter => _ ← mmodify (λ r, R.set_iter r None); R.poll_iterator_frames iter | None => mret (PReady ()) end) r2)).
  { intros r2 Hs2 Ho2 Hst2 Hn2 Hc2 Hi2. rewrite M_bind_eq. cbn [mgets]. rewrite Hi2. destruct (R.pending_iter r) as [iter|]; [|by split_and!]. rewrite M_bind_eq. cbn [mmodify]. set (r3 := R.set_iter r2 None).
    pose proof (iterator_ok iter r3 Hc2 eq_refl Ho2) as Hx. assert (Hs3 : same r r3) by done. destruct (R.poll_iterator_frames iter r3) as [[[[]|]|e|] r4]; [| | |done].
    - destruct Hx as (Hs4 & Ho4 & Hst4 & Hn4 & Hc4 & Hi4). split_and!; try done; [eauto|exact (eq_trans Hst4 Hst2)|exact (eq_trans Hn4 Hn2)].
    - destruct Hx as (Hs4 & Ho4 & Hst4 & Hn4 & Hcr). split_and!; try done; [eauto|exact (eq_trans Hn4 Hn2)|eauto].
    - intros Ha. apply Hx. eauto. }
  destruct c as [msg|] eqn:Hc.
  - pose proof (poll_send_ok msg r1) as Hp. destruct (R.poll_send msg r1) as [[[[]|]|e|] r2]; [| | |done].
    + destruct Hp as (Hs & Ht & Hr2). apply Hgo; [eauto| |rewrite Hr2; done..]. intros msgs d' Hf. rewrite Hr2 in Hf |- *. cbn in Hf |- *. rewrite Ht. cbn. rewrite <- (assoc_L (++)). exact (Ho _ _ Hf).
    + destruct Hp as (Hs & Hr2 & Hcr). rewrite M_bind_eq. cbn [mmodify mret M_ret sending]. split_and!; [eauto| |rewrite Hr2; done|rewrite Hr2; done|].
      * intros msgs d' Hf. rewrite Hr2 in Hf |- *. cbn in Hf |- *. exact (Ho _ _ Hf).
      * exact (crowded_earlier _ _ _ Hs1 Hcr).
    + done.
  - cbn [mret M_ret]. by apply Hgo.
Qed.
(** Nothing holds the task up but the channel when it is full. *)
Definition flows (r : R.t) : Prop := Forall (eq Delivered) (R.room r) ∧ Forall (λ ev, ∃ d, ev = RGot d ∧ d ≠ []) (R.reader r).
Definition size (r : R.t) : nat := sum_list_with R.event_size (R.reader r).
Definition rank (r : R.t) : nat := match R.state r with DRead => 2 * size r + 1 | DSend => 2 * size r + 2 | DExit _ => 1 end.
(** What a turn of the loop leaves. *)
Definition turn_good (r : R.t) (x : res DispatchErrorKind (option (poll ())) * R.t) : Prop :=
  match x with
  | (Ok None, r') => recv_ok r' ∧ alive r' ∧ (rank r' < rank r)%nat ∧ (flows r → flows r')
  | (Ok (Some PPending), r') => recv_ok r' ∧ alive r' ∧ (flows r → R.room r' = [] ∨ R.state r' = DRead ∧ R.reader r' = [])
  | (Ok (Some (PReady _)), r') => False
  | (Err e, r') => all_told r' ∧ e = DispatchIo ∧ broke r'
  | (Panic, r') => panicked r'
  end.
Lemma broke_same r r' : R.log r' = R.log r → broke r → broke r'.
Proof. intros Hl [g Hg]. exists g. congruence. Qed.
#[local] Hint Resolve broke_same : core.
Lemma send_arm_ok r : recv_ok r → alive r → R.state r = DSend → turn_good r (R.send_arm r).
Proof.
  intros (Ho & _ & Hn) Hal Hst. unfold R.send_arm. rewrite M_bind_eq. pose proof (blocked_ok r Hst Ho) as Hx. destruct (R.poll_blocked_task r) as [[[[]|]|e|] r1]; [| | |done].
  - destruct Hx as ((Hl & Hrd & Hse & Hrm & Hal1) & Ho1 & Hst1 & Hn1 & Hc1 & Hi1). rewrite M_bind_eq. cbn [mmodify mret M_ret turn_good]. set (r2 := R.set_next _ _). split; [|split; [by apply Hal1|split]].
    + split; [cbn; rewrite Hc1, Hi1; exact Ho1|]. split; [|done]. cbn. rewrite Hn1. destruct (R.next_state r); [done|done|]. destruct Hn. eauto.
    + unfold rank, size. rewrite Hst. cbn [r2 R.state R.set_next R.set_state R.reader]. rewrite Hn1, Hrd. destruct (R.next_state r); lia.
    + intros [H1 H2]. split; [by apply Hrm|]. cbn. by rewrite Hrd.
  - destruct Hx as ((Hl & Hrd & Hse & Hrm & Hal1) & Ho1 & Hst1 & Hn1 & Hcr). cbn. split; [split; [done|]; rewrite Hst1, Hn1; split; [done|]; destruct (R.next_state r); [done|done|]; destruct Hn; eauto|]. split; [by apply Hal1|]. intros [H1 _]. left. auto.
  - done.
Qed.
Lemma nothing_owed r : recv_ok r → R.state r = DRead → told d0 (R.log r) (R.resp_tx r) (R.decoder r) ∧ R.curr_message r = None ∧ R.pending_iter r = None.
Proof.
  intros (Ho & Hs & _) Hst. rewrite Hst in Hs. destruct Hs as (Hc & Hi & _). rewrite Hc, Hi in Ho. specialize (Ho [] (R.decoder r) (ft_nil _)). cbn [option_list app] in Ho. rewrite app_nil_r in Ho. done.
Qed.
(** A read that gives the log [g] and leaves nothing to send but [msg]. *)
Lemma owes_one r r1 g msg d :
  told d0 (R.log r) (R.resp_tx r) (R.decoder r) → told (R.decoder r) [g] [msg] d → R.decoder r1 = d → R.log r1 = R.log r ++ [g] → R.resp_tx r1 = R.resp_tx r → owes [msg] [] r1.
Proof.
  intros Ht Hg Hd Hl Hr msgs d' Hf. inversion Hf; subst. rewrite Hl, Hr, app_nil_r. by eapply told_app.
Qed.
Lemma rest_flows d l : Forall (λ ev, ∃ d, ev = RGot d ∧ d ≠ []) (RGot d :: l) → Forall (λ ev, ∃ d, ev = RGot d ∧ d ≠ []) (match from R.READ_SIZE d with [] => l | d' => RGot d' :: l end).
Proof. intros H. inversion_clear H as [|?? _ Hl]. destruct (from R.READ_SIZE d) as [|x d'] eqn:Hd; [done|]. constructor; [|done]. by eexists. Qed.
Lemma rest_size b d l : (sum_list_with R.event_size (match from R.READ_SIZE (b :: d) with [] => l | d' => RGot d' :: l end) < sum_list_with R.event_size (RGot (b :: d) :: l))%nat.
Proof.
  assert (Hl : (length (from R.READ_SIZE (b :: d)) < length (b :: d))%nat) by (unfold from, R.READ_SIZE; rewrite length_drop; cbn [length]; lia).
  destruct (from R.READ_SIZE (b :: d)) as [|x d']; cbn [sum_list_with R.event_size length] in *; lia.
Qed.
Lemma read_arm_ok r : recv_ok r → alive r → R.state r = DRead → turn_good r (R.read_arm r).
Proof.
  intros Hok Hal Hst. destruct (nothing_owed r Hok Hst) as (Ht & Hc & Hi). assert (Hnx : R.next_state r = DRead) by (destruct Hok as (_ & Hok & _); rewrite Hst in Hok; by destruct Hok as (_ & _ & ?)). unfold R.read_arm, R.poll_read. destruct (R.reader r) as [|[[|b d]| |] l] eqn:Hrd.
  - split; [done|]. split; [done|]. intros _. by right.
  - set (r1 := R.set_reader r l (R.log r ++ [Eof])). assert (Ho : owes [MsgOutputExit Disconnect] [] r1) by (apply (owes_one r r1 Eof _ (R.decoder r)); [done|repeat constructor|done..]).
    assert (Hnf : ¬ flows r) by (intros [_ Hf]; rewrite Hrd in Hf; inversion_clear Hf as [|?? (x & Hx & Hne) _]; injection Hx as <-; done).
    pose proof (transmit_ok _ [] r1 Hc Ho) as Hx. destruct (R.transmit_message _ r1) as [[[[]|]|e|] r2]; [| |done|done]; cbn.
    + destruct Hx as (Hs & Ho2 & Hd & Hst2 & Hn2 & Hc2 & Hi2). split; [|split; [exact (alive_later r1 r2 Hs Hal)|done]]. split; [|split; [done|cbn; rewrite Hn2; cbn; by rewrite Hnx]]. cbn. rewrite Hc2, Hi2. cbn. rewrite Hi. exact Ho2.
    + destruct Hx as (Hs & Ho2 & Hst2 & Hn2 & Hc2 & Hi2 & Hcr). split; [|split; [exact (alive_later r1 r2 Hs Hal)|done]]. split; [|split; [done|cbn; rewrite Hn2; cbn; by rewrite Hnx]]. cbn. rewrite Hc2, Hi2. cbn. rewrite Hi. exact Ho2.
  - set (s := upto R.READ_SIZE (b :: d)). change (upto R.READ_SIZE (b :: d)) with (b :: upto (R.READ_SIZE - 1) d). change (b :: upto (R.READ_SIZE - 1) d) with s.
    set (r1 := R.set_reader r _ (R.log r ++ [Seg s])). cbv iota.
    assert (Hdec : turn_good r ((x ← R.decode s;
       match x with
       | Ok frames => y ← R.poll_iterator_frames frames; match y with PReady _ => mret None | PPending => _ ← mmodify (λ r, R.set_next r DRead); mret None end
       | Err e => y ← R.transmit_message (MsgOutputExit (DispatchH2 e)); match y with PReady _ => mret None | PPending => _ ← mmodify (λ r, R.set_next r DRead); mret (Some PPending) end
       | Panic => mpanic
       end) r1)).
    { rewrite M_bind_eq. unfold R.decode. change (R.decoder r1) with (R.decoder r). pose proof (rest_size b d l) as Hsz.
      assert (Hfl : ∀ r2, same r1 r2 → flows r → flows r2) by (intros r2 (_ & H2 & _ & H4 & _) [H5 H6]; split; [by apply H4|]; rewrite H2; cbn; apply rest_flows; by rewrite <- Hrd).
      destruct (FrameDecoder.decode s (R.decoder r)) as [[frames|e|] d1] eqn:Hdd.
      - set (r2 := R.set_decoder r1 d1). assert (Ho : owes [] frames r2).
        { intros msgs d' Hf. cbn. apply (told_app _ _ _ _ [Seg s] msgs d' Ht). rewrite <- (app_nil_r msgs). by eapply told_seg; [..|constructor]. }
        rewrite M_bind_eq. pose proof (iterator_ok frames r2 Hc Hi Ho) as Hx. assert (Hs2 : same r1 r2) by done. destruct (R.poll_iterator_frames frames r2) as [[[[]|]|e|] r3]; [| |done|done]; cbn.
        + destruct Hx as (Hs & Ho3 & Hst3 & Hn3 & Hc3 & Hi3). split; [|split; [exact (alive_later r2 r3 Hs Hal)|split; [|exact (Hfl _ Hs)]]].
          * split; [by rewrite Hc3, Hi3|]. rewrite Hst3, Hn3. cbn. rewrite Hst, Hnx. by split.
          * destruct Hs as (_ & Hrd3 & _). unfold rank, size. rewrite Hst3, Hrd3. cbn. rewrite Hst, Hrd. cbn [sum_list_with] in Hsz |- *. lia.
        + destruct Hx as (Hs & Ho3 & Hst3 & Hn3 & Hcr). split; [|split; [exact (alive_later r2 r3 Hs Hal)|split; [|exact (Hfl _ Hs)]]].
          * split; [exact Ho3|]. cbn. by rewrite Hst3.
          * destruct Hs as (_ & Hrd3 & _). unfold rank, size. cbn. rewrite Hst3, Hrd3. cbn. rewrite Hst, Hrd. cbn [sum_list_with] in Hsz |- *. lia.
      - set (r2 := R.set_decoder r1 d1). assert (Ho : owes [MsgOutputExit (DispatchH2 e)] [] r2) by (apply (owes_one r r2 (Seg s) _ d1); [done|by eapply told_error; [..|constructor]|done..]).
        rewrite M_bind_eq. pose proof (transmit_ok _ [] r2 Hc Ho) as Hx. destruct (R.transmit_message _ r2) as [[[[]|]|x|] r3]; [| |done|done]; cbn.
        + destruct Hx as (Hs & Ho3 & Hd3 & Hst3 & Hn3 & Hc3 & Hi3). split; [|split; [exact (alive_later r2 r3 Hs Hal)|split; [|exact (Hfl _ Hs)]]].
          * split; [rewrite Hc3, Hi3; cbn; rewrite Hi; exact Ho3|]. rewrite Hst3, Hn3, Hc3, Hi3. cbn. rewrite Hst, Hnx. by split.
          * destruct Hs as (_ & Hrd3 & _). unfold rank, size. rewrite Hst3, Hrd3. cbn. rewrite Hst, Hrd. cbn [sum_list_with] in Hsz |- *. lia.
        + destruct Hx as (Hs & Ho3 & Hst3 & Hn3 & Hc3 & Hi3 & Hcr). split; [|split; [exact (alive_later r2 r3 Hs Hal)|]].
          * split; [cbn; rewrite Hc3, Hi3; cbn; rewrite Hi; exact Ho3|]. cbn. by rewrite Hst3.
          * intros [H1 _]. left. by apply Hcr.
      - cbn. exists (R.log r), s, (R.decoder r). by rewrite Hdd. }
    assert (Hse : s ≠ []) by done. clearbody r1 s. destruct s as [|b' s']; [done|]. exact Hdec.
  - assert (Hnf : ¬ flows r) by (intros [_ Hf]; rewrite Hrd in Hf; by inversion_clear Hf as [|?? (? & ? & ?) _]). split; [exact Hok|]. split; [exact Hal|done].
  - set (r1 := R.set_reader r l (R.log r ++ [Broken])). assert (Ho : owes [MsgOutputExit DispatchIo] [] r1) by (apply (owes_one r r1 Broken _ (R.decoder r)); [done|repeat constructor|done..]).
    assert (Hnf : ¬ flows r) by (intros [_ Hf]; rewrite Hrd in Hf; by inversion_clear Hf as [|?? (? & ? & ?) _]).
    unfold R.transmit_error. pose proof (transmit_ok _ [] r1 Hc Ho) as Hx. destruct (R.transmit_message _ r1) as [[[[]|]|e|] r2]; [| |done|done]; cbn.
    + destruct Hx as (Hs & Ho2 & _). specialize (Ho2 [] _ (ft_nil _)). cbn [app] in Ho2. rewrite app_nil_r in Ho2. split; [by eexists|]. split; [done|]. destruct Hs as (Hl & _). exists (R.log r). by rewrite Hl.
    + destruct Hx as (Hs & Ho2 & Hst2 & Hn2 & Hc2 & Hi2 & Hcr). split; [|split; [exact (alive_later r1 r2 Hs Hal)|done]]. split; [cbn; rewrite Hc2, Hi2; cbn; rewrite Hi; exact Ho2|]. cbn. rewrite Hst2. split; [done|]. split; [done|]. destruct Hs as (Hl & _). exists (R.log r). cbn. by rewrite Hl.
Qed.
Definition poll_result (r : R.t) (x : res DispatchErrorKind (poll ()) * R.t) : Prop :=
  match x with
  | (Ok PPending, r') => recv_ok r' ∧ alive r' ∧ (flows r → R.room r' = [] ∨ R.state r' = DRead ∧ R.reader r' = [])
  | (Ok (PReady _), r') => False
  | (Err e, r') => all_told r' ∧ e = DispatchIo ∧ broke r'
  | (Panic, r') => panicked r'
  end.
Lemma recv_loop_ok fuel r : recv_ok r → alive r → (rank r ≤ fuel)%nat → poll_result r (R.read_loop fuel r).
Proof.
  revert r. induction fuel as [|fuel IH]; intros r Hok Hal Hf; [unfold rank in Hf; destruct (R.state r); lia|]. cbn [R.read_loop]. rewrite M_bind_eq. cbn [mgets]. rewrite M_bind_eq.
  assert (Hx : turn_good r ((match R.state r with DRead => R.read_arm | DSend => R.send_arm | DExit e => mfail e end) r)).
  { destruct (R.state r) eqn:Hst; [by apply read_arm_ok|by apply send_arm_ok|]. destruct Hok as (Ho & Hs & _). rewrite Hst in Hs. destruct Hs as (Hc & Hi & -> & Hb). split; [|done].
    rewrite Hc, Hi in Ho. specialize (Ho [] _ (ft_nil _)). cbn [option_list app] in Ho. rewrite app_nil_r in Ho. by eexists. }
  match type of Hx with turn_good _ ?y => destruct y as [[[[[]|]|]|e|] r1] end; [done|done| |done|done]. destruct Hx as (Hok1 & Hal1 & Hrk & Hfl). specialize (IH r1 Hok1 Hal1 ltac:(lia)).
  destruct (R.read_loop fuel r1) as [[[[]|]|e|] r2]; [done| |done|done]. destruct IH as (Hok2 & Hal2 & Hfl2). split; [done|]. split; [done|]. auto.
Qed.
Lemma recv_poll_ok r : recv_ok r → alive r → poll_result r (R.poll_read_frame r).
Proof. intros Hok Hal. apply recv_loop_ok; [done..|]. unfold rank, R.read_fuel, size. destruct (R.state r); lia. Qed.
End Recv.

(** * What is read *)

Definition got_bytes (g : got) : bytes := match g with Seg d => d | _ => [] end.
Definition event_bytes (ev : read_event) : bytes := match ev with RGot d => d | _ => [] end.
(** What was read and what is there to read. *)
Definition bytes_of (r : R.t) : bytes := (R.log r ≫= got_bytes) ++ (R.reader r ≫= event_bytes).
(** A method that does not read. *)
Definition keeps {A} (x : M R.t DispatchErrorKind A) : Prop := ∀ r, R.log (x r).2 = R.log r ∧ R.reader (x r).2 = R.reader r.
Lemma recv_keeps_bind {A B} (x : M R.t DispatchErrorKind A) (k : A → M R.t DispatchErrorKind B) : keeps x → (∀ a, keeps (k a)) → keeps (x ≫= k).
Proof.
  intros Hx Hk r. rewrite M_bind_eq. specialize (Hx r). destruct (x r) as [[a|e|] r1]; [|done..]. specialize (Hk a r1). cbn [snd] in Hx. destruct Hx, Hk. split; congruence.
Qed.
Lemma keeps_poll_send msg : keeps (R.poll_send msg).
Proof. intros r. unfold R.poll_send. by destruct (R.room r) as [|[| |] l]. Qed.
Lemma keeps_transmit msg : keeps (R.transmit_message msg).
Proof. apply recv_keeps_bind; [apply keeps_poll_send|]. by intros []. Qed.
Lemma keeps_iterator iter : keeps (R.poll_iterator_frames iter).
Proof.
  induction iter as [|[f|] iter IH]; cbn [R.poll_iterator_frames]; [done| |done]. apply recv_keeps_bind; [intros r; unfold R.frame_message; by destruct (R.message _ _ _)|]. intros msg. apply recv_keeps_bind; [apply keeps_transmit|]. by intros [].
Qed.
Lemma keeps_blocked : keeps R.poll_blocked_task.
Proof.
  apply recv_keeps_bind; [done|]. intros c. apply recv_keeps_bind; [done|]. intros _. apply recv_keeps_bind; [destruct c; [apply keeps_poll_send|done]|]. intros [_|]; [|done]. apply recv_keeps_bind; [done|]. intros [iter|]; [|done]. apply recv_keeps_bind; [done|]. intros _. apply keeps_iterator.
Qed.
Lemma keeps_send_arm : keeps R.send_arm.
Proof. apply recv_keeps_bind; [apply keeps_blocked|]. by intros []. Qed.
Lemma keeps_bytes {A} (x : M R.t DispatchErrorKind A) r : keeps x → bytes_of (x r).2 = bytes_of r.
Proof. intros Hx. unfold bytes_of. by destruct (Hx r) as [-> ->]. Qed.
Lemma poll_read_bytes r : bytes_of (R.poll_read r).2 = bytes_of r.
Proof.
  unfold R.poll_read, bytes_of. destruct (R.reader r) as [|[[|b d]| |] l] eqn:Hrd; cbn [snd R.reader R.log R.set_reader]; rewrite ?Hrd, ?bind_app; cbn [mbind list_bind got_bytes event_bytes app]; rewrite ?app_nil_r; try done.
  rewrite <- (assoc_L (++)). f_equal. change (b :: d ++ (l ≫= event_bytes)) with ((b :: d) ++ (l ≫= event_bytes)). generalize (b :: d). intros w.
  rewrite <- (take_drop (Z.to_nat R.READ_SIZE) w) at 3. rewrite <- (assoc_L (++)). change (drop (Z.to_nat R.READ_SIZE) w) with (from R.READ_SIZE w). f_equal. by destruct (from R.READ_SIZE w).
Qed.
Lemma read_arm_bytes r : bytes_of (R.read_arm r).2 = bytes_of r.
Proof.
  unfold R.read_arm. pose proof (poll_read_bytes r) as Hb. destruct (R.poll_read r) as [[[[|b d]|]|e|] r1]; cbn [snd] in *; rewrite <- Hb; try done.
  - pose proof (keeps_bytes (R.transmit_message (MsgOutputExit Disconnect)) r1 (keeps_transmit _)) as Ht. destruct (R.transmit_message _ r1) as [x r2]. exact Ht.
  - apply keeps_bytes. apply recv_keeps_bind; [intros r2; unfold R.decode; by destruct (FrameDecoder.decode _ _) as [[]]|]. intros [frames|x|]; [| |done].
    + apply recv_keeps_bind; [apply keeps_iterator|]. by intros [].
    + apply recv_keeps_bind; [apply keeps_transmit|]. by intros [].
  - unfold R.transmit_error. pose proof (keeps_bytes (R.transmit_message (MsgOutputExit e)) r1 (keeps_transmit _)) as Ht. by destruct (R.transmit_message _ r1) as [[[[]|]|x|] r2].
Qed.
Lemma read_loop_bytes fuel r : bytes_of (R.read_loop fuel r).2 = bytes_of r.
Proof.
  revert r. induction fuel as [|fuel IH]; intros r; [done|]. cbn [R.read_loop]. rewrite M_bind_eq. cbn [mgets]. rewrite M_bind_eq.
  assert (Hx : bytes_of ((match R.state r with DRead => R.read_arm | DSend => R.send_arm | DExit e => mfail e end) r).2 = bytes_of r).
  { destruct (R.state r); [apply read_arm_bytes|apply keeps_bytes, keeps_send_arm|done]. }
  match type of Hx with bytes_of (snd ?y) = _ => destruct y as [[[p|]|e|] r1] end; [done| |done|done]. rewrite IH. exact Hx.
Qed.

(** * A run of the task *)

(** Something arrives for the task to read, the manager renews the settings, or the task is
    polled with a channel that answers so. *)
Inductive recv_event := Arrive (ev : read_event) | Renew (s : SettingsState) | PollRoom (room : list delivery).
Definition arrived (evs : list recv_event) : bytes := evs ≫= λ ev, match ev with Arrive x => event_bytes x | _ => [] end.
(** The manager receives throughout. *)
Definition present (evs : list recv_event) : Prop := Forall (λ ev, match ev with PollRoom room => Forall (λ x, x ≠ Gone) room | _ => True end) evs.
Fixpoint recv_run (evs : list recv_event) (r : R.t) : res DispatchErrorKind () * R.t :=
  match evs with
  | [] => (Ok (), r)
  | Arrive ev :: evs => recv_run evs (R.set_reader r (R.reader r ++ [ev]) (R.log r))
  | Renew s :: evs => recv_run evs (R.set_settings r s)
  | PollRoom room :: evs =>
      match R.poll_read_frame (R.set_channel r room (R.resp_tx r)) with
      | (Ok _, r) => recv_run evs r
      | (Err e, r) => (Err e, r)
      | (Panic, r) => (Panic, r)
      end
  end.
Lemma recv_run_ok d0 evs r :
  recv_ok d0 r → present evs →
  match recv_run evs r with
  | (Ok _, r') => recv_ok d0 r' ∧ bytes_of r' = bytes_of r ++ arrived evs
  | (Err e, r') => e = DispatchIo ∧ broke r' ∧ all_told d0 r'
  | (Panic, r') => panicked d0 r'
  end.
Proof.
  intros Hok Hp. revert r Hok. induction Hp as [|[ev|s|room] evs Hev Hp IH]; intros r Hok; cbn [recv_run].
  - split; [done|]. by rewrite app_nil_r.
  - specialize (IH (R.set_reader r (R.reader r ++ [ev]) (R.log r)) Hok). destruct (recv_run evs _) as [[[]|e|] r']; [|done..]. destruct IH as [H1 H2]. split; [done|]. rewrite H2. change (arrived (Arrive ev :: evs)) with (event_bytes ev ++ arrived evs).
    rewrite (assoc_L (++)). f_equal. unfold bytes_of. cbn [R.log R.reader R.set_reader]. rewrite bind_app. cbn [mbind list_bind]. by rewrite app_nil_r, (assoc_L (++)).
  - exact (IH (R.set_settings r s) Hok).
  - set (r1 := R.set_channel r room _). assert (Hb : bytes_of (R.poll_read_frame r1).2 = bytes_of r) by (by apply (read_loop_bytes _ r1)). pose proof (recv_poll_ok d0 r1 Hok Hev) as Hx. destruct (R.poll_read_frame r1) as [[[[]|]|e|] r2]; [done| | |done].
    + destruct Hx as (Hok2 & _ & _). specialize (IH r2 Hok2). cbn [snd] in Hb. by rewrite Hb in IH.
    + destruct Hx as (H1 & H2 & H3). done.
Qed.
Lemma recv_new_ok d s : recv_ok d (R.new d s).
Proof. split; [|done]. intros msgs d' Hf. inversion Hf; subst. constructor. Qed.

(** C5: The task that reads the socket, with the manager there to receive ([present]), tells it
    in order what the decoder makes of each read: the frames, the errors of the decoder, of
    the settings and of the transport, however full the channel to the manager is and
    whenever the settings change.  What it has sent is always a beginning of these messages
    for the reads so far, and all of them when it waits for data; no byte is lost or read
    twice.  It ends with an error only after a read that failed and when all is told, or
    with a panic of the decoder on the last read, all reads before it told; and a poll with
    enough room in the channel reads and tells everything that has arrived.  The messages are
    those of the reads as they were cut: a decoder error drops the frames in front of it in
    its own read ([frames_lost_with_error] of [H2FrameSegments]). *)
Theorem h2_frames_received d s evs :
  present evs →
  match recv_run evs (R.new d s) with
  | (Ok _, r) =>
      sent_ok d r ∧
      (R.state r = DRead → told d (R.log r) (R.resp_tx r) (R.decoder r)) ∧
      bytes_of r = arrived evs ∧
      ∀ room, Forall (eq Delivered) room → Forall (λ ev, ∃ x, ev = RGot x ∧ x ≠ []) (R.reader r) →
        match R.poll_read_frame (R.set_channel r room (R.resp_tx r)) with
        | (Ok PPending, r') => R.room r' = [] ∨ told d (R.log r') (R.resp_tx r') (R.decoder r') ∧ (R.log r' ≫= got_bytes) = arrived evs
        | (Ok (PReady _), _) => False
        | (Err e, r') => e = DispatchIo ∧ broke r'
        | (Panic, r') => panicked d r'
        end
  | (Err e, r) => e = DispatchIo ∧ broke r ∧ all_told d r
  | (Panic, r) => panicked d r
  end.
Proof.
  intros Hp. pose proof (recv_run_ok d evs (R.new d s) (recv_new_ok d s) Hp) as Hrun. destruct (recv_run evs (R.new d s)) as [[[]|e|] r]; [|done..]. destruct Hrun as [Hok Hb]. change (bytes_of (R.new d s) ++ arrived evs) with (arrived evs) in Hb.
  split; [destruct Hok as [Ho _]; exact (owes_sent d _ _ r Ho)|]. split; [intros Hst; by destruct (nothing_owed d r Hok Hst)|]. split; [done|].
  intros room Hroom Hrd. set (r1 := R.set_channel r room _). assert (Hal : alive r1) by (eapply list.Forall_impl; [exact Hroom|]; by intros ? <-).
  pose proof (recv_poll_ok d r1 Hok Hal) as Hx. pose proof (read_loop_bytes (R.read_fuel r1) r1) as Hb1. change (R.read_loop (R.read_fuel r1) r1) with (R.poll_read_frame r1) in Hb1.
  destruct (R.poll_read_frame r1) as [[[[]|]|e|] r2]; [done| |by destruct Hx as (_ & ? & ?)|done]. destruct Hx as (Hok2 & _ & Hfl). destruct (Hfl (conj Hroom Hrd)) as [Hr|[Hst Hre]]; [by left|right].
  split; [by destruct (nothing_owed d r2 Hok2 Hst)|]. cbn [snd] in Hb1. change (bytes_of r1) with (bytes_of r) in Hb1. rewrite Hb in Hb1. unfold bytes_of in Hb1. rewrite Hre in Hb1. cbn [mbind list_bind] in Hb1. by rewrite app_nil_r in Hb1.
Qed.

(** A PING in two pieces with a settings acknowledgement after it, a full channel, and an
    error of the transport. *)
Definition sample_arrivals : list recv_event :=
  [Renew (Acknowledging [Setting.MaxFrameSize 20000]); Arrive (RGot [0; 0; 8; 6; 0; 0; 0; 0; 0; 1; 2]); PollRoom [Delivered];
   Arrive (RGot [3; 4; 5; 6; 7; 8; 0; 0; 0; 4; 1; 0; 0; 0; 0]); PollRoom [Full]; PollRoom [Delivered; Full]; PollRoom [Delivered]; Arrive RFail; PollRoom [Delivered]].
Lemma h2_frames_received_witness :
  let '(x, r) := recv_run sample_arrivals (R.new FrameDecoder.new Synced) in
  x = Err DispatchIo ∧ len (R.resp_tx r) = 3 ∧ broke r ∧ all_told FrameDecoder.new r.
Proof.
  pose proof (h2_frames_received FrameDecoder.new Synced sample_arrivals) as H.
  assert (Hp : present sample_arrivals) by (repeat constructor; done). specialize (H Hp).
  assert (Hx : (recv_run sample_arrivals (R.new FrameDecoder.new Synced)).1 = Err DispatchIo ∧ len (R.resp_tx (recv_run sample_arrivals (R.new FrameDecoder.new Synced)).2) = 3) by (split; vm_compute; reflexivity).
  destruct (recv_run sample_arrivals (R.new FrameDecoder.new Synced)) as [x r]. destruct Hx as [Hx Hl]. cbn [fst snd] in Hx, Hl. rewrite Hx in H. destruct H as (_ & Hb & Ht). split; [exact Hx|]. split; [exact Hl|]. split; [exact Hb|exact Ht].
Defined.
