(* ===== verification/H3Error.v ===== *)
(** Errors of HTTP/3 ([h3/error.rs] and [h3/qpack/error.rs]). *)
From S2P Require Import Prelude.

(** [qpack::error::ErrorCode], [NotClassified] and [QpackError]. *)
Inductive QpackErrorCode := DecompressionFailed | EncoderStreamError | DecoderStreamError | QpackSettingsError.
Inductive NotClassified := DynamicTableInsufficient | StreamBlocked.
Inductive QpackError := QpackConnectionError (c : QpackErrorCode) | QpackInternalError (n : NotClassified).

Inductive EncodeError :=
| NoCurrentFrame | WrongTypeFrame | RepeatSetFrame | UnknownFrameType | TooManySettings
| EncodeQpackError (e : QpackError).
Inductive DecodeError :=
| UnexpectedFrame (ty : Z) | DecodeQpackError (e : QpackError) | H3FrameSizeError (len : Z) | UnsupportedSetting (key : Z).
Inductive CommonError := BufferTooShort | FieldMissing | CalculateOverflow | H3InternalError.

Inductive H3ErrorCode :=
| H3DatagramError | H3NoError | H3GeneralProtocolError | H3InternalErrorCode | H3StreamCreationError
| H3ClosedCriticalStream | H3FrameUnexpected | H3FrameError | H3ExcessiveLoad | H3IdError | H3SettingsError
| H3MissingSettings | H3RequestRejected | H3RequestCancelled | H3RequestIncomplete | H3MessageError
| H3ConnectError | H3VersionFallback | QPACKDecompressionFailed | QPACKEncoderStreamError | QPACKDecoderStreamError.

Inductive H3Error :=
| H3Encode (e : EncodeError) | H3Decode (e : DecodeError) | H3Serialize (e : CommonError)
| H3Connection (c : H3ErrorCode) | H3Stream (id : Z) (c : H3ErrorCode).

(** [code as u64] and [H3ErrorCode::from]. *)
Definition h3_code (c : H3ErrorCode) : Z :=
  match c with
  | H3DatagramError => 0x33 | H3NoError => 0x100 | H3GeneralProtocolError => 0x101 | H3InternalErrorCode => 0x102
  | H3StreamCreationError => 0x103 | H3ClosedCriticalStream => 0x104 | H3FrameUnexpected => 0x105
  | H3FrameError => 0x106 | H3ExcessiveLoad => 0x107 | H3IdError => 0x108 | H3SettingsError => 0x109
  | H3MissingSettings => 0x10A | H3RequestRejected => 0x10B | H3RequestCancelled => 0x10C
  | H3RequestIncomplete => 0x10D | H3MessageError => 0x10E | H3ConnectError => 0x10F | H3VersionFallback => 0x110
  | QPACKDecompressionFailed => 0x200 | QPACKEncoderStreamError => 0x201 | QPACKDecoderStreamError => 0x202
  end.
Definition h3_code_from (value : Z) : H3ErrorCode :=
  match value with
  | 0x33 => H3DatagramError
  | 0x100 => H3NoError
  | 0x101 => H3GeneralProtocolError
  | 0x102 => H3InternalErrorCode
  | 0x103 => H3StreamCreationError
  | 0x104 => H3ClosedCriticalStream
  | 0x105 => H3FrameUnexpected
  | 0x106 => H3FrameError
  | 0x107 => H3ExcessiveLoad
  | 0x108 => H3IdError
  | 0x109 => H3SettingsError
  | 0x10A => H3MissingSettings
  | 0x10B => H3RequestRejected
  | 0x10C => H3RequestCancelled
  | 0x10D => H3RequestIncomplete
  | 0x10E => H3MessageError
  | 0x10F => H3ConnectError
  | 0x110 => H3VersionFallback
  | 0x200 => QPACKDecompressionFailed
  | 0x201 => QPACKEncoderStreamError
  | 0x202 => QPACKDecoderStreamError
  | _ => H3GeneralProtocolError
  end.

(** Every code comes back; an unknown one is a general protocol error. *)
Lemma h3_code_roundtrip c : h3_code_from (h3_code c) = c.
Proof. by destruct c. Qed.
