(* ===== verification/H3Octets.v ===== *)
(** Variable-length integers of QUIC ([h3/octets.rs]): the two high bits of the first
    byte give the length, the rest is big-endian.  The theorems: the writer and the
    reader agree on every value below 2^62, and the reader takes nothing from a buffer
    that ends within an integer. *)
From S2P Require Import Prelude Buffers Bits H3Error.

(** [from_be_bytes] *)
Definition from_be (b : bytes) : Z := foldl (λ a x, a * 256 + x) 0 b.

Definition varint_len (v : Z) : option Z :=
  if v <? 64 then Some 1
  else if v <? 16384 then Some 2
  else if v <? 1073741824 then Some 4
  else if v <? 4611686018427387904 then Some 8
  else None.
Definition parse_varint_len (byte : Z) : Z := Z.shiftl 1 (Z.shiftr byte 6).

Module ReadableBytes.
Record t := mk { buf : bytes; idx : Z }.
Abbreviation m := (M t H3Error).

Definition new (b : bytes) : t := mk b 0.
Definition remaining (r : t) : bytes := from (idx r) (buf r).
Definition cap (r : t) : Z := len (buf r) - idx r.

(** [peek_bytes!] and [poll_bytes!]; [self.buf[self.idx..]] panics past the end. *)
Definition peek (n : Z) : m Z := λ r,
  if len (buf r) <? idx r then (Panic, r)
  else if len (remaining r) <? n then (Err (H3Serialize BufferTooShort), r)
  else (Ok (from_be (upto n (remaining r))), r).
Definition poll (n : Z) : m Z :=
  v ← peek n; _ ← mmodify (λ r, mk (buf r) (idx r + n)); mret v.

Definition get_varint : m Z :=
  first ← peek 1;
  let n := parse_varint_len first in
  c ← mgets cap;
  if c <? n then mfail (H3Serialize BufferTooShort)
  else if n =? 1 then poll 1
  else if n =? 2 then v ← poll 2; mret (Z.land v 0x3fff)
  else if n =? 4 then v ← poll 4; mret (Z.land v 0x3fffffff)
  else if n =? 8 then v ← poll 8; mret (Z.land v 0x3fffffffffffffff)
  else mpanic.

Definition slice (length : Z) : m bytes := λ r,
  if cap r <? length then (Err (H3Serialize BufferTooShort), r)
  else (Ok (Prelude.slice (idx r) (idx r + length) (buf r)), mk (buf r) (idx r + length)).
End ReadableBytes.

Module WritableBytes.
Record t := mk { bytes_ : bytes; idx : Z }.
Abbreviation m := (M t H3Error).

Definition new (b : bytes) : t := mk b 0.
Definition remaining (w : t) : Z := len (bytes_ w) - idx w.

(** [write_bytes!], with the length in the two high bits of the first byte. *)
Definition tag (n : Z) : Z := if n =? 1 then 0 else if n =? 2 then 0x40 else if n =? 4 then 0x80 else 0xC0.
Definition tagged (value n : Z) : bytes :=
  match be_bytes (Z.to_nat n) value with x :: l => Z.lor x (tag n) :: l | [] => [] end.
Definition write_bytes (value n : Z) : m Z := λ w,
  if remaining w <? n then (Err (H3Serialize BufferTooShort), w)
  else (Ok n, mk (upto (idx w) (bytes_ w) ++ tagged value n ++ from (idx w + n) (bytes_ w)) (idx w + n)).

Definition write_varint (value : Z) : m Z := λ w,
  match varint_len value with
  | None => (Panic, w)
  | Some n =>
      if remaining w <? n then (Err (H3Serialize BufferTooShort), w)
      else if n =? 1 then write_bytes (as_u8 value) 1 w
      else if n =? 2 then write_bytes (value mod 2 ^ 16) 2 w
      else if n =? 4 then write_bytes (as_u32 value) 4 w
      else write_bytes value 8 w
  end.
End WritableBytes.

(** [encode_var_integer] of [h3/encoder.rs]: the size, and the buffer written. *)
Definition encode_var_integer (src : Z) (frame_buf : bytes) : res H3Error (Z * bytes) :=
  match WritableBytes.write_varint src (WritableBytes.new frame_buf) with
  | (Ok _, w) => Ok (WritableBytes.idx w, WritableBytes.bytes_ w)
  | (Err e, _) => Err e
  | (Panic, _) => Panic
  end.

(** * Big-endian numbers *)

Lemma from_be_acc a b : foldl (λ a x, a * 256 + x) a b = a * 256 ^ len b + from_be b.
Proof.
  unfold from_be. revert a. induction b as [|x b IH]; intros a; [rewrite len_nil; simpl; lia|].
  cbn [foldl]. rewrite (IH (a * 256 + x)), (IH (0 * 256 + x)), len_cons, Z.pow_add_r by (pose proof (len_nonneg b); lia). lia.
Qed.
Lemma from_be_cons x b : from_be (x :: b) = x * 256 ^ len b + from_be b.
Proof. unfold from_be at 1. simpl. apply from_be_acc. Qed.

Lemma from_be_be_bytes n z : from_be (be_bytes n z) = z mod 256 ^ Z.of_nat n.
Proof.
  induction n as [|n IH]; [by rewrite Z.mod_1_r|]. change (be_bytes (S n) z) with
    (as_u8 (Z.shiftr z (8 * Z.of_nat n)) :: be_bytes n z).
  rewrite from_be_cons, IH. unfold len. rewrite length_be_bytes, Z.shiftr_div_pow2 by lia.
  replace (2 ^ (8 * Z.of_nat n)) with (256 ^ Z.of_nat n) by (rewrite Z.pow_mul_r by lia; done).
  rewrite Nat2Z.inj_succ, Z.pow_succ_r by lia. unfold as_u8. change (2 ^ 8) with 256.
  pose proof (Z.pow_pos_nonneg 256 (Z.of_nat n)) as Hp. rewrite (Z.mul_comm 256), Z.rem_mul_r by lia. lia.
Qed.

(** ** The image of an integer *)

Definition varint (v : Z) : bytes :=
  match varint_len v with Some n => WritableBytes.tagged v n | None => [] end.

Lemma lor_tag f k : 0 ≤ f < 64 → 0 ≤ k < 4 → Z.lor f (Z.shiftl k 6) = f + Z.shiftl k 6.
Proof.
  intros Hf Hk. symmetry. apply Z.add_nocarry_lor. apply Z.bits_inj'. intros i Hi.
  rewrite Z.land_spec, Z.bits_0, Z.shiftl_spec by lia. destruct (Z_lt_le_dec i 6).
  - by rewrite (Z.testbit_neg_r k) by lia; rewrite andb_false_r.
  - rewrite (Z.bits_above_log2 f); [done|lia|]. destruct (Z.eq_dec f 0) as [->|]; [simpl; lia|].
    apply Z.log2_lt_pow2; [lia|]. apply Z.lt_le_trans with (2 ^ 6); [simpl; lia|]. by apply Z.pow_le_mono_r.
Qed.

(** The value of an integer written in [n] bytes: the tag on top of it. *)
Lemma from_be_tagged v n k :
  1 ≤ n → 0 ≤ k < 4 → WritableBytes.tag n = Z.shiftl k 6 → 0 ≤ v < 2 ^ (8 * n - 2) →
  from_be (WritableBytes.tagged v n) = v + k * 2 ^ (8 * n - 2) ∧
  len (WritableBytes.tagged v n) = n ∧
  Z.shiftr (at_ (WritableBytes.tagged v n) 0) 6 = k.
Proof.
  intros Hn Hk Ht Hv. unfold WritableBytes.tagged. rewrite Ht. destruct (Z.to_nat n) as [|m] eqn:Hm; [lia|].
  assert (n = Z.of_nat m + 1) as -> by lia. clear Hn Hm Ht. set (w := 256 ^ Z.of_nat m).
  assert (Hw : 2 ^ (8 * Z.of_nat m) = w) by (unfold w; rewrite Z.pow_mul_r by lia; done).
  assert (Hw0 : 0 < w) by (unfold w; apply Z.pow_pos_nonneg; lia).
  replace (2 ^ (8 * (Z.of_nat m + 1) - 2)) with (64 * w) in *
    by (rewrite <- Hw; replace (8 * (Z.of_nat m + 1) - 2) with (6 + 8 * Z.of_nat m) by lia; rewrite Z.pow_add_r by lia; lia).
  change (be_bytes (S m) v) with (as_u8 (Z.shiftr v (8 * Z.of_nat m)) :: be_bytes m v).
  rewrite Z.shiftr_div_pow2, Hw by lia. set (x := v / w).
  assert (Hx : 0 ≤ x < 64) by (unfold x; split; [apply Z.div_pos; lia|apply Z.div_lt_upper_bound; lia]).
  rewrite as_u8_small by (unfold is_u8; lia). rewrite lor_tag by lia. rewrite Z.shiftl_mul_pow2 by lia. change (2 ^ 6) with 64.
  split_and!.
  - rewrite from_be_cons, from_be_be_bytes. unfold len. rewrite length_be_bytes. fold w.
    pose proof (Z.div_mod v w). unfold x. nia.
  - rewrite len_cons. unfold len. rewrite length_be_bytes. lia.
  - unfold at_. simpl. rewrite Z.shiftr_div_pow2 by lia. change (2 ^ 6) with 64.
    rewrite Z.div_add, Z.div_small by lia. lia.
Qed.

(** What an integer may look like: its length, the length its first byte announces,
    and its value under the tag. *)
Definition encodes (b : bytes) (v : Z) : Prop :=
  ∃ n k, (n = 1 ∧ k = 0 ∨ n = 2 ∧ k = 1 ∨ n = 4 ∧ k = 2 ∨ n = 8 ∧ k = 3) ∧ 0 ≤ v < 2 ^ (8 * n - 2) ∧
    from_be b = v + k * 2 ^ (8 * n - 2) ∧ len b = n ∧ Z.shiftr (at_ b 0) 6 = k.

Lemma varint_spec v :
  0 ≤ v < 2 ^ 62 → encodes (varint v) v ∧ varint_len v = Some (len (varint v)).
Proof.
  intros Hv. unfold varint, varint_len. change (2 ^ 62) with 4611686018427387904 in Hv.
  assert (Hok : ∀ n k, (n = 1 ∧ k = 0 ∨ n = 2 ∧ k = 1 ∨ n = 4 ∧ k = 2 ∨ n = 8 ∧ k = 3) → v < 2 ^ (8 * n - 2) →
    WritableBytes.tag n = Z.shiftl k 6 →
    encodes (WritableBytes.tagged v n) v ∧ Some n = Some (len (WritableBytes.tagged v n))).
  { intros n k Hnk Hlt Ht. destruct (from_be_tagged v n k) as (H1 & H2 & H3); [lia..|done|lia|].
    split; [|by rewrite H2]. exists n, k. split; [done|]. split; [lia|]. done. }
  destruct (Z.ltb_spec v 64); [apply (Hok 1 0); [lia|simpl; lia|done]|].
  destruct (Z.ltb_spec v 16384); [apply (Hok 2 1); [lia|simpl; lia|done]|].
  destruct (Z.ltb_spec v 1073741824); [apply (Hok 4 2); [lia|simpl; lia|done]|].
  destruct (Z.ltb_spec v 4611686018427387904); [apply (Hok 8 3); [lia|simpl; lia|done]|lia].
Qed.

Lemma encodes_len b v : encodes b v → 1 ≤ len b ≤ 8.
Proof. intros (n & k & H & _ & _ & -> & _). lia. Qed.
Lemma encodes_bound b v : encodes b v → 0 ≤ v < 2 ^ 62.
Proof. intros (n & k & [[-> _]|[[-> _]|[[-> _]|[-> _]]]] & Hv & _); simpl in *; lia. Qed.

(** ** Reading *)

Lemma first_byte b :
  1 ≤ len b → parse_varint_len (from_be (upto 1 b)) = Z.shiftl 1 (Z.shiftr (at_ b 0) 6).
Proof.
  destruct b as [|x b]; [rewrite len_nil; lia|]. intros _. unfold upto, at_, from_be, parse_varint_len. simpl.
  by rewrite Z.add_0_l.
Qed.

(** A reader at an integer reads it. *)
Lemma get_varint_ok b v (r : ReadableBytes.t) rest :
  encodes b v → 0 ≤ ReadableBytes.idx r ≤ len (ReadableBytes.buf r) →
  ReadableBytes.remaining r = b ++ rest →
  ReadableBytes.get_varint r =
    (Ok v, ReadableBytes.mk (ReadableBytes.buf r) (ReadableBytes.idx r + len (b))).
Proof.
  intros (n & k & Hin & Hlt & Hval & Hlen & Hfirst) Hi Hr.
  assert (Hrem : len (ReadableBytes.remaining r) = len (ReadableBytes.buf r) - ReadableBytes.idx r)
    by (unfold ReadableBytes.remaining; rewrite len_from by lia; lia).
  assert (Hn1 : 1 ≤ n) by lia.
  pose proof (len_nonneg rest) as Hrest. rewrite Hr, len_app, Hlen in Hrem.
  assert (Hpeek : ∀ i, i ≤ n → 1 ≤ i → ReadableBytes.peek i r = (Ok (from_be (upto i (b))), r)).
  { intros i Hle Hi1. unfold ReadableBytes.peek. rewrite (proj2 (Z.ltb_ge _ _)) by lia.
    rewrite Hr, len_app, Hlen, (proj2 (Z.ltb_ge _ _)) by lia. by rewrite upto_app_le by lia. }
  unfold ReadableBytes.get_varint. rewrite M_bind_eq, Hpeek by lia. rewrite M_bind_eq. cbn [mgets].
  assert (Hf : parse_varint_len (from_be (upto 1 (b))) = Z.shiftl 1 k).
  { by rewrite first_byte, Hfirst by lia. }
  assert (Hkn : Z.shiftl 1 k = n) by (destruct Hin as [[-> ->]|[[-> ->]|[[-> ->]|[-> ->]]]]; done).
  rewrite Hf, Hkn. unfold ReadableBytes.cap. rewrite (proj2 (Z.ltb_ge _ n)) by lia.
  assert (Hpoll : ReadableBytes.poll n r =
    (Ok (v + k * 2 ^ (8 * n - 2)), ReadableBytes.mk (ReadableBytes.buf r) (ReadableBytes.idx r + n))).
  { unfold ReadableBytes.poll. rewrite M_bind_eq, Hpeek by lia. rewrite upto_all by lia. by rewrite Hval. }
  assert (Hmask : Z.land (v + k * 2 ^ (8 * n - 2)) (Z.ones (8 * n - 2)) = v).
  { rewrite Z.land_ones by lia. rewrite Z.mod_add by (apply Z.pow_nonzero; lia). apply Z.mod_small. lia. }
  rewrite Hlen. destruct Hin as [[-> ->]|[[-> ->]|[[-> ->]|[-> ->]]]]; cbn [Z.eqb Pos.eqb]; cbv iota.
  - rewrite Hpoll. do 2 f_equal. lia.
  - rewrite M_bind_eq, Hpoll. cbn [mret M_ret]. unfold mret, M_ret. do 2 f_equal. exact Hmask.
  - rewrite M_bind_eq, Hpoll. unfold mret, M_ret. do 2 f_equal. exact Hmask.
  - rewrite M_bind_eq, Hpoll. unfold mret, M_ret. do 2 f_equal. exact Hmask.
Qed.

(** A reader whose buffer ends within an integer takes nothing. *)
Lemma get_varint_short b v (r : ReadableBytes.t) more :
  encodes b v → 0 ≤ ReadableBytes.idx r ≤ len (ReadableBytes.buf r) →
  b = ReadableBytes.remaining r ++ more → more ≠ [] →
  ReadableBytes.get_varint r = (Err (H3Serialize BufferTooShort), r).
Proof.
  intros (n & k & Hin & Hlt & Hval & Hlen & Hfirst) Hi Hr Hne.
  assert (Hrem : len (ReadableBytes.remaining r) = len (ReadableBytes.buf r) - ReadableBytes.idx r)
    by (unfold ReadableBytes.remaining; rewrite len_from by lia; lia).
  pose proof (len_pos more Hne). rewrite Hr, len_app in Hlen.
  unfold ReadableBytes.get_varint. rewrite M_bind_eq. unfold ReadableBytes.peek. rewrite (proj2 (Z.ltb_ge (len (ReadableBytes.buf r)) _)) by lia.
  destruct (Z.ltb_spec (len (ReadableBytes.remaining r)) 1) as [|Hge]; [done|].
  rewrite M_bind_eq. cbn [mgets]. unfold ReadableBytes.cap.
  assert (Hf : parse_varint_len (from_be (upto 1 (ReadableBytes.remaining r))) = n).
  { rewrite first_byte by lia. replace (at_ (ReadableBytes.remaining r) 0) with (at_ (b) 0).
    - rewrite Hfirst. destruct Hin as [[-> ->]|[[-> ->]|[[-> ->]|[-> ->]]]]; done.
    - rewrite Hr. unfold at_. rewrite lookup_app_l; [done|]. unfold len in Hge. lia. }
  rewrite Hf, (proj2 (Z.ltb_lt _ _)) by lia. done.
Qed.

(** ** Writing *)

Lemma encode_var_ok v buf :
  0 ≤ v < 2 ^ 62 → len (varint v) ≤ len buf →
  encode_var_integer v buf = Ok (len (varint v), varint v ++ from (len (varint v)) buf).
Proof.
  intros Hv Hb. destruct (varint_spec v Hv) as [(n & k & Hin & Hlt & Hval & Hlen & Hfirst) Hn]. rewrite Hlen in Hn.
  unfold encode_var_integer, WritableBytes.write_varint. rewrite Hn. unfold WritableBytes.remaining. simpl.
  rewrite (proj2 (Z.ltb_ge _ _)) by lia.
  assert (Hw : ∀ x, WritableBytes.tagged x n = varint v → WritableBytes.write_bytes x n (WritableBytes.new buf) =
    (Ok n, WritableBytes.mk (varint v ++ from n buf) n)).
  { intros x Hx. unfold WritableBytes.write_bytes, WritableBytes.remaining. simpl.
    rewrite (proj2 (Z.ltb_ge _ _)) by lia. by rewrite Hx. }
  assert (Htag : WritableBytes.tagged v n = varint v) by (unfold varint; by rewrite Hn). rewrite Hlen.
  destruct Hin as [[-> ->]|[[-> ->]|[[-> ->]|[-> ->]]]]; cbn [Z.eqb Pos.eqb]; cbv iota; rewrite Hw; try done.
  - unfold as_u8. rewrite Z.mod_small; [done|]. simpl in *. lia.
  - rewrite Z.mod_small; [done|]. simpl in *. lia.
  - unfold as_u32. rewrite Z.mod_small; [done|]. simpl in *. lia.
Qed.

(** Variable-length integers: every value below 2^62 is written in its shortest
    form at the front of any buffer with room for it, and read back from there with
    whatever follows left in place; a reader that is given only part of it takes
    nothing and asks for more. *)
Theorem varint_roundtrip v buf rest :
  0 ≤ v < 2 ^ 62 → len (varint v) ≤ len buf →
  encode_var_integer v buf = Ok (len (varint v), varint v ++ from (len (varint v)) buf) ∧
  varint_len v = Some (len (varint v)) ∧
  (∃ r, ReadableBytes.get_varint (ReadableBytes.new (varint v ++ rest)) = (Ok v, r) ∧
     ReadableBytes.remaining r = rest) ∧
  (∀ part more, varint v = part ++ more → more ≠ [] →
     ReadableBytes.get_varint (ReadableBytes.new part) = (Err (H3Serialize BufferTooShort), ReadableBytes.new part)).
Proof.
  intros Hv Hb. destruct (varint_spec v Hv) as [He Hn]. split; [by apply encode_var_ok|]. split; [done|]. split.
  - eexists. split; [apply (get_varint_ok (varint v) v (ReadableBytes.new (varint v ++ rest)) rest); [done| |done]|].
    + simpl. pose proof (len_nonneg (varint v ++ rest)). lia.
    + unfold ReadableBytes.remaining. simpl. by apply from_app_exact.
  - intros part more Hp Hne. apply (get_varint_short (varint v) v (ReadableBytes.new part) more); [done| |by rewrite Hp|done].
    simpl. pose proof (len_nonneg part). lia.
Qed.

Lemma varint_roundtrip_witness :
  varint 15293 = [0x7b; 0xbd] ∧
  encode_var_integer 15293 [0; 0; 7] = Ok (len (varint 15293), varint 15293 ++ [7]) ∧
  ∃ r, ReadableBytes.get_varint (ReadableBytes.new (varint 15293 ++ [7])) = (Ok 15293, r) ∧
    ReadableBytes.remaining r = [7].
Proof.
  destruct (varint_roundtrip 15293 [0; 0; 7] [7]) as (H1 & _ & H2 & _); [lia|by vm_compute|].
  split; [by vm_compute|]. split; [exact H1|exact H2].
Defined.
