(* ===== verification/H3Frame.v ===== *)
(** HTTP/3 frames and streams ([h3/frame.rs], [h3/parts.rs], [h3/stream.rs]). *)
From S2P Require Import Prelude HpackTable Headers Parts.

Definition DATA_FRAME_TYPE : Z := 0x0.
Definition HEADERS_FRAME_TYPE : Z := 0x1.
Definition CANCEL_PUSH_FRAME_TYPE : Z := 0x3.
Definition SETTINGS_FRAME_TYPE : Z := 0x4.
Definition PUSH_PROMISE_FRAME_TYPE : Z := 0x5.
Definition GOAWAY_FRAME_TYPE : Z := 0x7.
Definition MAX_PUSH_ID_FRAME_TYPE : Z := 0xD.
Definition SETTING_QPACK_MAX_TABLE_CAPACITY : Z := 0x1.
Definition SETTING_MAX_FIELD_SECTION_SIZE : Z := 0x6.
Definition SETTING_QPACK_BLOCKED_STREAMS : Z := 0x7.
Definition SETTING_ENABLE_CONNECT_PROTOCOL : Z := 0x8.
Definition SETTING_H3_DATAGRAM : Z := 0x33.

(** The header lines of HTTP/3 have the fields and methods of those of HTTP/2. *)
Module H3Parts.
Definition t : Type := Parts.t.
Definition new : t := Parts.new.
Definition set_pseudo : t → PseudoHeaders.t → t := Parts.set_pseudo.
Definition set_header_lines : t → Headers.t → t := Parts.set_header_lines.
Definition is_empty : t → bool := Parts.is_empty.
Definition update {E} : t → Header.t → bytes → res E t := Parts.update.
End H3Parts.

Module H3Settings.
Record t := mk {
  max_field_section_size : option Z;
  qpack_max_table_capacity : option Z;
  qpack_blocked_streams : option Z;
  connect_protocol_enabled : option Z;
  h3_datagram : option Z;
  additional : option (list (Z * Z));
}.
Definition default : t := mk None None None None None None.
Definition set_max_field_section_size (s : t) (v : Z) : t :=
  mk (Some v) (qpack_max_table_capacity s) (qpack_blocked_streams s) (connect_protocol_enabled s) (h3_datagram s) (additional s).
Definition set_qpack_max_table_capacity (s : t) (v : Z) : t :=
  mk (max_field_section_size s) (Some v) (qpack_blocked_streams s) (connect_protocol_enabled s) (h3_datagram s) (additional s).
Definition set_qpack_block_stream (s : t) (v : Z) : t :=
  mk (max_field_section_size s) (qpack_max_table_capacity s) (Some v) (connect_protocol_enabled s) (h3_datagram s) (additional s).
Definition set_connect_protocol_enabled (s : t) (v : Z) : t :=
  mk (max_field_section_size s) (qpack_max_table_capacity s) (qpack_blocked_streams s) (Some v) (h3_datagram s) (additional s).
Definition set_h3_datagram (s : t) (v : Z) : t :=
  mk (max_field_section_size s) (qpack_max_table_capacity s) (qpack_blocked_streams s) (connect_protocol_enabled s) (Some v) (additional s).
Definition set_additional (s : t) (v : list (Z * Z)) : t :=
  mk (max_field_section_size s) (qpack_max_table_capacity s) (qpack_blocked_streams s) (connect_protocol_enabled s) (h3_datagram s) (Some v).
End H3Settings.

Module H3Payload.
Inductive t :=
| Headers (parts : H3Parts.t) (ins : option bytes)
| Data (data : bytes)
| Settings (s : H3Settings.t)
| CancelPush (push_id : Z)
| PushPromise (push_id : Z) (parts : H3Parts.t) (ins : option bytes)
| Goaway (id : Z)
| MaxPushId (push_id : Z)
| Unknown (raw_type len : Z).
End H3Payload.

Module H3Frame.
Record t := mk { ty : Z; payload : H3Payload.t }.
End H3Frame.

(** [FrameKind]; [Frames] is a list of them. *)
Inductive H3FrameKind := H3Complete (f : H3Frame.t) | H3Partial | H3Blocked.

Inductive StreamMessage :=
| MsgRequest (fs : list H3FrameKind)
| MsgControl (fs : list H3FrameKind)
| MsgPush (id : Z) (fs : list H3FrameKind)
| MsgQpackEncoder (unblocked : list Z)
| MsgQpackDecoder (inst : bytes)
| MsgUnknown
| MsgWaitingMore.

Definition is_bidirectional (id : Z) : bool := Z.land id 0x02 =? 0.
