(* ===== verification/H3FrameDecoder.v ===== *)
(** The HTTP/3 stream decoder ([h3/decoder.rs]): it collects the bytes of a stream,
    reads its type, and then frames one after the other.  The field sections of
    HEADERS and PUSH_PROMISE frames go to the QPACK decoder, which is a parameter
    here ([QpackDecoderOps]): what is proved of the other frames holds whatever it
    does. *)
From S2P Require Import Prelude Buffers H3Error H3Octets H3Frame.

Inductive FieldDecodeState := FieldBlocked | FieldDecoded.

(** The methods of [QpackDecoder] that the stream decoder calls; [finish] also gives
    the instructions it wrote, if any. *)
Class QpackDecoderOps (Q : Type) := {
  qpack_decode_repr : bytes → Z → M Q QpackError FieldDecodeState;
  qpack_finish : Z → M Q QpackError (H3Parts.t * option bytes);
  qpack_decode_ins : bytes → M Q QpackError (list Z);
  qpack_stream_cancel : Z → M Q QpackError bytes;
  qpack_finish_stream : Z → M Q QpackError ();
}.

Inductive DecodeState :=
| StStreamType | StPushId | StFrameType | StPayloadLen | StHeadersPayload | StDataPayload | StSettingsPayload
| StVariablePayload | StPushPromisePayload | StUnknownPayload | StQpackDecoderInst | StQpackEncoderInst | StDropUnknown.
Inductive StreamType := TyInit | TyRequest | TyControl | TyPush | TyQpackEncoder | TyQpackDecoder | TyUnknown.
Inductive DecodePartRes := ReturnOuter | Continue.

#[export] Instance stream_type_eq_dec : EqDecision StreamType.
Proof. solve_decision. Defined.

Definition decode_type (integer : Z) : StreamType :=
  if integer =? 0 then TyControl else if integer =? 1 then TyPush else if integer =? 2 then TyQpackEncoder
  else if integer =? 3 then TyQpackDecoder else TyUnknown.

Module DecodedH3Stream.
Record t := mk {
  ty : StreamType;
  state : DecodeState;
  buffer : bytes;
  offset : Z;
  push_id : option Z;
  frame_type : option Z;
  push_frame_id : option Z;
  payload_len : option Z;
  stream_set : bool;
}.
Definition new (id : Z) : t :=
  let '(ty, state) := if is_bidirectional id then (TyRequest, StFrameType) else (TyInit, StStreamType) in
  mk ty state [] 0 None None None None false.

Definition set_decode_state (s : t) (st : DecodeState) : t :=
  mk (ty s) st (buffer s) (offset s) (push_id s) (frame_type s) (push_frame_id s) (payload_len s) (stream_set s).
Definition set_stream_type (s : t) (y : StreamType) : t :=
  mk y (state s) (buffer s) (offset s) (push_id s) (frame_type s) (push_frame_id s) (payload_len s) (stream_set s).
Definition set_buffer (s : t) (b : bytes) (o : Z) : t :=
  mk (ty s) (state s) b o (push_id s) (frame_type s) (push_frame_id s) (payload_len s) (stream_set s).
Definition set_push_id (s : t) (i : option Z) : t :=
  mk (ty s) (state s) (buffer s) (offset s) i (frame_type s) (push_frame_id s) (payload_len s) (stream_set s).
Definition set_frame (s : t) (ft pl : option Z) : t :=
  mk (ty s) (state s) (buffer s) (offset s) (push_id s) ft (push_frame_id s) pl (stream_set s).
Definition set_push_frame_id (s : t) (i : option Z) : t :=
  mk (ty s) (state s) (buffer s) (offset s) (push_id s) (frame_type s) i (payload_len s) (stream_set s).
Definition set_stream_set (s : t) : t :=
  mk (ty s) (state s) (buffer s) (offset s) (push_id s) (frame_type s) (push_frame_id s) (payload_len s) true.

Definition remain_payload_len (s : t) : Z := default 0 (payload_len s).
Definition clear_frame (s : t) : t := set_frame s None None.
Definition clear_buffer (s : t) : t := set_buffer s [] 0.
Definition add_offset (s : t) (n : Z) : t := set_buffer s (buffer s) (offset s + n).

Definition subtract_payload_len (s : t) (off : Z) : res H3Error t :=
  match payload_len s with
  | None => Err (H3Serialize FieldMissing)
  | Some curr =>
      if curr <? off then Err (H3Serialize CalculateOverflow)
      else Ok (set_frame s (frame_type s) (Some (curr - off)))
  end.

(** [init_state_by_type]; the other types are unreachable. *)
Definition init_state_by_type (s : t) : res H3Error t :=
  match ty s with
  | TyControl => Ok (set_decode_state s StFrameType)
  | TyPush => Ok (set_decode_state s StPushId)
  | TyQpackEncoder => Ok (set_decode_state s StQpackEncoderInst)
  | TyQpackDecoder => Ok (set_decode_state s StQpackDecoderInst)
  | TyUnknown => Ok (set_decode_state s StDropUnknown)
  | _ => Panic
  end.

Definition return_by_type (s : t) (frames : list H3FrameKind) : res H3Error StreamMessage :=
  match ty s with
  | TyRequest => Ok (MsgRequest frames)
  | TyPush => i ← ok_or (push_id s) (H3Serialize FieldMissing); Ok (MsgPush i frames)
  | TyControl => Ok (MsgControl frames)
  | _ => match frame_type s with Some ft => Err (H3Decode (UnexpectedFrame ft)) | None => Panic end
  end.

(** [ReadableBytes::from(&self.buffer.as_slice()[self.offset..])] *)
Definition reader (s : t) : res H3Error ReadableBytes.t :=
  if len (buffer s) <? offset s then Panic else Ok (ReadableBytes.new (from (offset s) (buffer s))).
(** [reader.get_varint()]: the value and the bytes taken, or a shortage. *)
Definition read_varint (s : t) : res H3Error (option (Z * Z)) :=
  r ← reader s;
  match ReadableBytes.get_varint r with
  | (Ok v, r) => Ok (Some (v, ReadableBytes.idx r))
  | (Err _, _) => Ok None
  | (Panic, _) => Panic
  end.
(** The end of a frame, with [remaining] bytes after it. *)
Definition end_frame (s : t) (remaining : Z) : t * DecodePartRes :=
  let s := set_decode_state (clear_frame s) StFrameType in
  if remaining =? 0 then (clear_buffer s, ReturnOuter) else (s, Continue).
End DecodedH3Stream.
Import DecodedH3Stream.

Section Decoder.
Context {Q : Type} `{!QpackDecoderOps Q}.

(** A stream being decoded: the stream, the frames found so far, the QPACK decoder. *)
Record decoding := mk_decoding { stream : DecodedH3Stream.t; frames : list H3FrameKind; qpack : Q }.
Abbreviation m := (M decoding H3Error).

Definition set_stream (d : decoding) (s : DecodedH3Stream.t) : decoding := mk_decoding s (frames d) (qpack d).
Definition push_frame (k : H3FrameKind) : m () := mmodify (λ d, mk_decoding (stream d) (frames d ++ [k]) (qpack d)).
Definition put_stream (s : DecodedH3Stream.t) : m () := mmodify (λ d, set_stream d s).
(** A call into the QPACK decoder. *)
Definition on_qpack {A} (f : M Q QpackError A) : m A := λ d,
  match f (qpack d) with
  | (Ok a, q) => (Ok a, mk_decoding (stream d) (frames d) q)
  | (Err e, q) => (Err (H3Decode (DecodeQpackError e)), mk_decoding (stream d) (frames d) q)
  | (Panic, q) => (Panic, mk_decoding (stream d) (frames d) q)
  end.

Definition decode_stream_type : m DecodePartRes :=
  s ← mgets stream;
  o ← mlift (read_varint s);
  match o with
  | Some (integer, n) =>
      s ← mlift (init_state_by_type (set_stream_type (add_offset s n) (decode_type integer)));
      _ ← put_stream s; mret Continue
  | None => _ ← put_stream (set_decode_state s StStreamType); mret ReturnOuter
  end.

Definition decode_push_id : m DecodePartRes :=
  s ← mgets stream;
  o ← mlift (read_varint s);
  match o with
  | Some (integer, n) =>
      _ ← put_stream (set_decode_state (add_offset (set_push_id s (Some integer)) n) StFrameType); mret Continue
  | None => _ ← put_stream (set_decode_state s StPushId); mret ReturnOuter
  end.

(** The frames a stream may carry; a second SETTINGS frame is refused. *)
Definition frame_allowed (s : DecodedH3Stream.t) (integer : Z) : bool :=
  if (integer =? DATA_FRAME_TYPE) || (integer =? HEADERS_FRAME_TYPE) then
    bool_decide (ty s = TyRequest) || bool_decide (ty s = TyPush)
  else if integer =? PUSH_PROMISE_FRAME_TYPE then bool_decide (ty s = TyRequest)
  else if integer =? SETTINGS_FRAME_TYPE then bool_decide (ty s = TyControl) && negb (stream_set s)
  else if integer =? CANCEL_PUSH_FRAME_TYPE then bool_decide (ty s = TyControl)
  else negb (integer =? MAX_PUSH_ID_FRAME_TYPE).

Definition decode_frame_type : m DecodePartRes :=
  s ← mgets stream;
  o ← mlift (read_varint s);
  match o with
  | Some (integer, n) =>
      if frame_allowed s integer then
        let s := if integer =? SETTINGS_FRAME_TYPE then set_stream_set s else s in
        _ ← put_stream (set_decode_state (add_offset (set_frame s (Some integer) (payload_len s)) n) StPayloadLen);
        mret Continue
      else mfail (H3Decode (UnexpectedFrame integer))
  | None =>
      _ ← put_stream (set_decode_state s StFrameType);
      _ ← push_frame H3Partial;
      mret ReturnOuter
  end.

Definition payload_state (ft : Z) : DecodeState :=
  if ft =? DATA_FRAME_TYPE then StDataPayload
  else if ft =? HEADERS_FRAME_TYPE then StHeadersPayload
  else if ft =? SETTINGS_FRAME_TYPE then StSettingsPayload
  else if ft =? PUSH_PROMISE_FRAME_TYPE then StPushPromisePayload
  else if (ft =? GOAWAY_FRAME_TYPE) || (ft =? MAX_PUSH_ID_FRAME_TYPE) || (ft =? CANCEL_PUSH_FRAME_TYPE)
  then StVariablePayload else StUnknownPayload.

Definition decode_payload_len : m DecodePartRes :=
  s ← mgets stream;
  o ← mlift (read_varint s);
  match o with
  | Some (integer, n) =>
      match frame_type s with
      | None => mpanic
      | Some ft =>
          _ ← put_stream (set_decode_state (add_offset (set_frame s (Some ft) (Some integer)) n) (payload_state ft));
          mret Continue
      end
  | None => _ ← push_frame H3Partial; mret ReturnOuter
  end.

Definition data_frame (b : bytes) : H3FrameKind := H3Complete (H3Frame.mk DATA_FRAME_TYPE (H3Payload.Data b)).

(** Takes a payload, or what is there of it. *)
Definition decode_data_payload : m DecodePartRes :=
  s ← mgets stream;
  r ← mlift (reader s);
  let payload_len := remain_payload_len s in
  if ReadableBytes.cap r <? payload_len then
    s ← mlift (subtract_payload_len s (ReadableBytes.cap r));
    _ ← put_stream (clear_buffer s);
    _ ← push_frame (data_frame (ReadableBytes.remaining r));
    _ ← push_frame H3Partial;
    mret ReturnOuter
  else
    match ReadableBytes.slice payload_len r with
    | (Ok b, r) =>
        _ ← push_frame (data_frame b);
        let '(s, p) := end_frame (add_offset s payload_len) (ReadableBytes.cap r) in
        _ ← put_stream s; mret p
    | (Err e, _) => mfail e
    | (Panic, _) => mpanic
    end.

Definition get_qpack_decoded_header (id remaining : Z) : m DecodePartRes :=
  '(part, ins) ← on_qpack (qpack_finish id);
  s ← mgets stream;
  frame ← mlift (match frame_type s with
    | Some ft =>
        if ft =? HEADERS_FRAME_TYPE then Ok (H3Frame.mk HEADERS_FRAME_TYPE (H3Payload.Headers part ins))
        else if ft =? PUSH_PROMISE_FRAME_TYPE then
          i ← ok_or (push_frame_id s) (H3Serialize FieldMissing);
          Ok (H3Frame.mk PUSH_PROMISE_FRAME_TYPE (H3Payload.PushPromise i part ins))
        else Panic
    | None => Panic
    end);
  _ ← push_frame (H3Complete frame);
  let '(s, p) := end_frame s remaining in
  _ ← put_stream s; mret p.

Definition decode_headers_payload (id : Z) : m DecodePartRes :=
  s ← mgets stream;
  r ← mlift (reader s);
  let payload_len := remain_payload_len s in
  if ReadableBytes.cap r <? payload_len then
    f ← on_qpack (qpack_decode_repr (ReadableBytes.remaining r) id);
    _ ← push_frame (match f with FieldBlocked => H3Blocked | FieldDecoded => H3Partial end);
    s ← mlift (subtract_payload_len s (ReadableBytes.cap r));
    _ ← put_stream (clear_buffer s);
    mret ReturnOuter
  else
    match ReadableBytes.slice payload_len r with
    | (Ok b, r) =>
        f ← on_qpack (qpack_decode_repr b id);
        match f with
        | FieldBlocked =>
            _ ← push_frame H3Blocked;
            s ← mlift (subtract_payload_len s payload_len);
            _ ← put_stream (add_offset s payload_len);
            mret ReturnOuter
        | FieldDecoded =>
            _ ← put_stream (add_offset s payload_len);
            get_qpack_decoded_header id (ReadableBytes.cap r)
        end
    | (Err e, _) => mfail e
    | (Panic, _) => mpanic
    end.

Definition decode_variable_payload : m DecodePartRes :=
  s ← mgets stream;
  r ← mlift (reader s);
  o ← mlift (read_varint s);
  match o with
  | Some (id, n) =>
      match frame_type s with
      | None => mpanic
      | Some ft =>
          p ← mlift (if ft =? GOAWAY_FRAME_TYPE then Ok (H3Payload.Goaway id)
                     else if ft =? MAX_PUSH_ID_FRAME_TYPE then Ok (H3Payload.MaxPushId id)
                     else if ft =? CANCEL_PUSH_FRAME_TYPE then Ok (H3Payload.CancelPush id)
                     else Err (H3Decode (UnexpectedFrame ft)));
          _ ← push_frame (H3Complete (H3Frame.mk ft p));
          let '(s, p) := end_frame (add_offset s n) (ReadableBytes.cap r - n) in
          _ ← put_stream s; mret p
      end
  | None => _ ← push_frame H3Partial; mret ReturnOuter
  end.

(** One pair of a SETTINGS payload. *)
Definition apply_setting (key value : Z) (s : H3Settings.t) (addition : list (Z * Z)) :
    res H3Error (H3Settings.t * list (Z * Z)) :=
  if key =? SETTING_QPACK_MAX_TABLE_CAPACITY then Ok (H3Settings.set_qpack_max_table_capacity s value, addition)
  else if key =? SETTING_ENABLE_CONNECT_PROTOCOL then Ok (H3Settings.set_connect_protocol_enabled s value, addition)
  else if key =? SETTING_H3_DATAGRAM then Ok (H3Settings.set_h3_datagram s value, addition)
  else if key =? SETTING_MAX_FIELD_SECTION_SIZE then Ok (H3Settings.set_max_field_section_size s value, addition)
  else if key =? SETTING_QPACK_BLOCKED_STREAMS then Ok (H3Settings.set_qpack_block_stream s value, addition)
  else if (key =? 0) || (key =? 2) || (key =? 3) || (key =? 4) || (key =? 5) then Err (H3Decode (UnsupportedSetting key))
  else Ok (s, addition ++ [(key, value)]).

(** [while (reader.index() as u64) < payload_len]; a turn takes two integers. *)
Fixpoint settings_loop (fuel : nat) (payload_len : Z) (r : ReadableBytes.t) (s : H3Settings.t)
    (addition : list (Z * Z)) : res H3Error (H3Settings.t * list (Z * Z) * ReadableBytes.t) :=
  match fuel with
  | O => Panic
  | S fuel =>
      if payload_len <=? ReadableBytes.idx r then Ok (s, addition, r)
      else
        let get r := match ReadableBytes.get_varint r with
          | (Ok v, r) => Ok (v, r)
          | (Err _, _) => Err (H3Decode (H3FrameSizeError payload_len))
          | (Panic, _) => Panic
          end in
        '(key, r) ← get r;
        '(value, r) ← get r;
        '(s, addition) ← apply_setting key value s addition;
        settings_loop fuel payload_len r s addition
  end.

Definition decode_settings_payload : m DecodePartRes :=
  s ← mgets stream;
  r ← mlift (reader s);
  let payload_len := remain_payload_len s in
  if ReadableBytes.cap r <? payload_len then
    _ ← push_frame H3Partial; mret ReturnOuter
  else
    '(settings, addition, r) ←
      mlift (settings_loop (S (length (ReadableBytes.buf r))) payload_len r H3Settings.default []);
    let settings := match addition with [] => settings | _ => H3Settings.set_additional settings addition end in
    _ ← push_frame (H3Complete (H3Frame.mk SETTINGS_FRAME_TYPE (H3Payload.Settings settings)));
    let '(s, p) := end_frame s (ReadableBytes.cap r) in
    _ ← put_stream s; mret p.

Definition decode_push_payload : m DecodePartRes :=
  s ← mgets stream;
  o ← mlift (read_varint s);
  match o with
  | Some (id, n) =>
      s ← mlift (subtract_payload_len (set_push_frame_id s (Some id)) n);
      _ ← put_stream (set_decode_state s StHeadersPayload);
      mret Continue
  | None => _ ← push_frame H3Partial; mret ReturnOuter
  end.

Definition decode_unknown_payload : m DecodePartRes :=
  s ← mgets stream;
  r ← mlift (reader s);
  let payload_len := remain_payload_len s in
  if ReadableBytes.cap r <? payload_len then
    s ← mlift (subtract_payload_len (clear_buffer s) (ReadableBytes.cap r));
    _ ← put_stream s;
    _ ← push_frame H3Partial;
    mret ReturnOuter
  else
    match ReadableBytes.slice payload_len r with
    | (Ok _, r) =>
        let '(s, p) := end_frame (add_offset s payload_len) (ReadableBytes.cap r) in
        _ ← put_stream s; mret p
    | (Err e, _) => mfail e
    | (Panic, _) => mpanic
    end.

(** A turn of the loop of [decode]: the message to return, and whether the stream is
    kept. *)
Definition outer (x : m DecodePartRes) : m (option (StreamMessage * bool)) :=
  p ← x;
  match p with
  | Continue => mret None
  | ReturnOuter =>
      s ← mgets stream;
      fs ← mgets frames;
      message ← mlift (return_by_type s fs);
      mret (Some (message, true))
  end.
Definition waiting_more (x : m DecodePartRes) : m (option (StreamMessage * bool)) :=
  p ← x; mret (match p with Continue => None | ReturnOuter => Some (MsgWaitingMore, true) end).

Definition decode_turn (id : Z) : m (option (StreamMessage * bool)) :=
  st ← mgets (λ d, state (stream d));
  match st with
  | StStreamType => waiting_more decode_stream_type
  | StPushId => waiting_more decode_push_id
  | StFrameType => outer decode_frame_type
  | StPayloadLen => outer decode_payload_len
  | StDataPayload => outer decode_data_payload
  | StHeadersPayload => outer (decode_headers_payload id)
  | StVariablePayload => outer decode_variable_payload
  | StSettingsPayload => outer decode_settings_payload
  | StPushPromisePayload => outer decode_push_payload
  | StUnknownPayload => outer decode_unknown_payload
  | StQpackDecoderInst =>
      s ← mgets stream;
      r ← mlift (reader s);
      _ ← put_stream (clear_buffer s);
      mret (Some (MsgQpackDecoder (ReadableBytes.remaining r), true))
  | StQpackEncoderInst =>
      s ← mgets stream;
      r ← mlift (reader s);
      unblocked ← on_qpack (qpack_decode_ins (ReadableBytes.remaining r));
      _ ← put_stream (clear_buffer s);
      mret (Some (MsgQpackEncoder unblocked, true))
  | StDropUnknown =>
      s ← mgets stream;
      _ ← put_stream (clear_buffer s);
      mret (Some (MsgUnknown, false))
  end.

(** The decoder: the streams that are being decoded, and the QPACK decoder they share. *)
Record frame_decoder := mk_decoder { qpack_decoder : Q; streams : gmap Z DecodedH3Stream.t }.

Definition decode_fuel (s : DecodedH3Stream.t) : nat := 3 * length (buffer s) + 4.
Definition decode (id : Z) (src : bytes) : M frame_decoder H3Error StreamMessage := λ d,
  let s := default (DecodedH3Stream.new id) (streams d !! id) in
  let s := set_buffer s (buffer s ++ src) (offset s) in
  let kept := delete id (streams d) in
  match loop (decode_turn id) (decode_fuel s) (mk_decoding s [] (qpack_decoder d)) with
  | (Ok (message, keep), e) =>
      (Ok message, mk_decoder (qpack e) (if keep : bool then <[id := stream e]> kept else kept))
  | (Err e, f) => (Err e, mk_decoder (qpack f) kept)
  | (Panic, f) => (Panic, mk_decoder (qpack f) kept)
  end.

Definition cancel_stream (id : Z) : M frame_decoder H3Error bytes := λ d,
  let kept := delete id (streams d) in
  match qpack_stream_cancel id (qpack_decoder d) with
  | (Ok b, q) => (Ok b, mk_decoder q kept)
  | (Err e, q) => (Err (H3Decode (DecodeQpackError e)), mk_decoder q kept)
  | (Panic, q) => (Panic, mk_decoder q kept)
  end.

Definition finish_stream (id : Z) : M frame_decoder H3Error () := λ d,
  let kept := delete id (streams d) in
  if is_bidirectional id then
    match qpack_finish_stream id (qpack_decoder d) with
    | (Ok _, q) => (Ok (), mk_decoder q kept)
    | (Err e, q) => (Err (H3Decode (DecodeQpackError e)), mk_decoder q (streams d))
    | (Panic, q) => (Panic, mk_decoder q (streams d))
    end
  else (Ok (), mk_decoder (qpack_decoder d) kept).
End Decoder.
