(* ===== verification/H3DecoderSafety.v ===== *)
(** The HTTP/3 stream decoder returns: whatever bytes arrive, in whatever pieces and
    on whatever streams, no call runs out of turns, panics or leaves a stream in a
    state from which a later call would, unless the QPACK decoder panics on what this call
    hands to it ([call_fault]). *)
From S2P Require Import Prelude Buffers Bits H3Error H3Octets H3Frame H3FrameDecoder.
Import DecodedH3Stream.

(** ** Reading an integer from any bytes *)

Lemma from_be_bound b : bytes_ok b → 0 ≤ from_be b < 256 ^ len b.
Proof.
  induction 1 as [|x b Hx _ IH]; [by vm_compute|]. rewrite from_be_cons, len_cons.
  rewrite Z.pow_add_r by (pose proof (len_nonneg b); lia). unfold is_u8 in Hx. nia.
Qed.

(** [n] bytes that start with the tag [k] are an integer. *)
Lemma tagged_encodes b n k :
  bytes_ok b → len b = n → (n = 1 ∧ k = 0 ∨ n = 2 ∧ k = 1 ∨ n = 4 ∧ k = 2 ∨ n = 8 ∧ k = 3) →
  Z.shiftr (at_ b 0) 6 = k → encodes b (from_be b - k * 2 ^ (8 * n - 2)).
Proof.
  intros Hb Hl Hin Hk. exists n, k. split; [done|]. split; [|by split; [lia|]].
  destruct b as [|x b]; [rewrite len_nil in Hl; lia|]. inversion Hb as [|? ? Hx Hb']; subst x0 l.
  change (at_ (x :: b) 0) with x in Hk. rewrite len_cons in Hl. rewrite from_be_cons.
  pose proof (from_be_bound b Hb') as Hr. rewrite Z.shiftr_div_pow2 in Hk by lia. change (2 ^ 6) with 64 in Hk.
  pose proof (Z.div_mod x 64) as Hd. pose proof (Z.mod_pos_bound x 64) as Hm. rewrite Hk in Hd.
  assert (Hw : 2 ^ (8 * n - 2) = 64 * 256 ^ len b).
  { replace (8 * n - 2) with (6 + 8 * len b) by lia. rewrite Z.pow_add_r by (pose proof (len_nonneg b); lia).
    rewrite (Z.pow_mul_r 2 8) by (pose proof (len_nonneg b); lia). done. }
  rewrite Hw. nia.
Qed.

Lemma first_tag x : is_u8 x → Z.shiftr x 6 = 0 ∨ Z.shiftr x 6 = 1 ∨ Z.shiftr x 6 = 2 ∨ Z.shiftr x 6 = 3.
Proof.
  intros Hx. rewrite Z.shiftr_div_pow2 by lia. change (2 ^ 6) with 64. unfold is_u8 in Hx.
  pose proof (Z.div_lt_upper_bound x 64 4). pose proof (Z.div_pos x 64). lia.
Qed.

(** Any bytes: a reader finds an integer at their front, or not enough of them. *)
Lemma get_varint_cases (r : ReadableBytes.t) :
  bytes_ok (ReadableBytes.remaining r) → 0 ≤ ReadableBytes.idx r ≤ len (ReadableBytes.buf r) →
  ReadableBytes.get_varint r = (Err (H3Serialize BufferTooShort), r) ∨
  ∃ b v rest, encodes b v ∧ ReadableBytes.remaining r = b ++ rest.
Proof.
  intros Hb Hi. set (l := ReadableBytes.remaining r) in *.
  assert (Hl : len l = ReadableBytes.cap r)
    by (unfold l, ReadableBytes.remaining, ReadableBytes.cap; rewrite len_from by lia; lia).
  destruct (Z_lt_le_dec (len l) 1) as [Hlt|Hge].
  { left. unfold ReadableBytes.get_varint. rewrite M_bind_eq. unfold ReadableBytes.peek. fold l.
    by rewrite (proj2 (Z.ltb_ge (len (ReadableBytes.buf r)) _)), (proj2 (Z.ltb_lt _ _)) by lia. }
  pose proof (first_tag (at_ l 0) (at_ok l 0 Hb)) as Hk. set (k := Z.shiftr (at_ l 0) 6) in *.
  destruct (Z_lt_le_dec (len l) (Z.shiftl 1 k)) as [Hs|Hs].
  - left. unfold ReadableBytes.get_varint. rewrite M_bind_eq. unfold ReadableBytes.peek. fold l.
    rewrite (proj2 (Z.ltb_ge (len (ReadableBytes.buf r)) _)), (proj2 (Z.ltb_ge _ _)) by lia.
    rewrite M_bind_eq. cbn [mgets]. rewrite first_byte by lia. fold k. by rewrite (proj2 (Z.ltb_lt _ _)) by lia.
  - right. exists (upto (Z.shiftl 1 k) l). eexists. exists (from (Z.shiftl 1 k) l).
    split; [|by rewrite upto_from].
    assert (Hn : Z.shiftl 1 k = 1 ∧ k = 0 ∨ Z.shiftl 1 k = 2 ∧ k = 1 ∨ Z.shiftl 1 k = 4 ∧ k = 2 ∨ Z.shiftl 1 k = 8 ∧ k = 3)
      by (destruct Hk as [-> | [-> | [-> | ->]]]; simpl; tauto).
    apply (tagged_encodes _ (Z.shiftl 1 k) k); [by apply Forall_upto|rewrite len_upto by lia; lia|done|].
    unfold k at 2. f_equal. rewrite <- (upto_from (Z.shiftl 1 k) l) at 2. unfold at_. rewrite lookup_app_l; [done|].
    assert (0 < len (upto (Z.shiftl 1 k) l)) as Hp by (rewrite len_upto by lia; lia). unfold len in Hp. lia.
Qed.

(** ** Streams that are well formed *)

(** The bytes of a stream that no frame has taken yet. *)
Definition unread (s : DecodedH3Stream.t) : bytes := from (offset s) (buffer s).

Definition carrier (s : DecodedH3Stream.t) : Prop :=
  ty s = TyRequest ∨ ty s = TyControl ∨ (ty s = TyPush ∧ is_Some (push_id s)).
Definition state_wf (s : DecodedH3Stream.t) : Prop :=
  match state s with
  | StStreamType | StQpackDecoderInst | StQpackEncoderInst | StDropUnknown => True
  | StPushId => ty s = TyPush
  | StFrameType | StDataPayload | StSettingsPayload | StUnknownPayload => carrier s
  | StPayloadLen | StVariablePayload => carrier s ∧ is_Some (frame_type s)
  | StPushPromisePayload => carrier s ∧ frame_type s = Some PUSH_PROMISE_FRAME_TYPE
  | StHeadersPayload =>
      carrier s ∧ (frame_type s = Some HEADERS_FRAME_TYPE ∨
                   frame_type s = Some PUSH_PROMISE_FRAME_TYPE ∧ is_Some (push_frame_id s))
  end.
Definition stream_wf (s : DecodedH3Stream.t) : Prop :=
  bytes_ok (buffer s) ∧ 0 ≤ offset s ≤ len (buffer s) ∧ 0 ≤ remain_payload_len s ∧ state_wf s.

Definition rank (st : DecodeState) : nat :=
  match st with
  | StPushPromisePayload => 2
  | StHeadersPayload | StDataPayload | StSettingsPayload | StVariablePayload | StUnknownPayload => 1
  | _ => 0
  end.
(** What every turn that goes on lowers. *)
Definition measure (s : DecodedH3Stream.t) : nat := 3 * length (unread s) + rank (state s).

Lemma reader_in s : 0 ≤ offset s ≤ len (buffer s) → reader s = Ok (ReadableBytes.new (unread s)).
Proof. intros Ho. unfold reader. by rewrite (proj2 (Z.ltb_ge _ _)) by lia. Qed.
Lemma reader_ok s : stream_wf s → reader s = Ok (ReadableBytes.new (unread s)).
Proof. intros (_ & Ho & _). by apply reader_in. Qed.
Lemma len_unread s : 0 ≤ offset s ≤ len (buffer s) → len (unread s) = len (buffer s) - offset s.
Proof. intros H. unfold unread. rewrite len_from by lia. lia. Qed.
Lemma unread_ok s : stream_wf s → bytes_ok (unread s).
Proof. intros (Hb & _). by apply Forall_from. Qed.
Lemma cap_new b : ReadableBytes.cap (ReadableBytes.new b) = len b.
Proof. unfold ReadableBytes.cap. simpl. lia. Qed.
Lemma remaining_new b : ReadableBytes.remaining (ReadableBytes.new b) = b.
Proof. done. Qed.

Lemma read_varint_in s b v rest :
  0 ≤ offset s ≤ len (buffer s) → encodes b v → unread s = b ++ rest → read_varint s = Ok (Some (v, len b)).
Proof.
  intros Hs He Hu. unfold read_varint. rewrite reader_in by done. cbn [res_bind].
  change (mbind ?f (Ok ?x)) with (f x). cbv beta.
  rewrite (get_varint_ok b v _ rest He); [done| |done]. simpl. pose proof (len_nonneg (unread s)). lia.
Qed.
Lemma read_varint_at s b v rest :
  stream_wf s → encodes b v → unread s = b ++ rest → read_varint s = Ok (Some (v, len b)).
Proof. intros (_ & Ho & _). by apply read_varint_in. Qed.
Lemma read_varint_cases s :
  stream_wf s →
  read_varint s = Ok None ∨
  ∃ b v rest, encodes b v ∧ unread s = b ++ rest ∧ read_varint s = Ok (Some (v, len b)).
Proof.
  intros Hs. destruct (get_varint_cases (ReadableBytes.new (unread s))) as [H|(b & v & rest & He & Hr)].
  - by apply unread_ok.
  - simpl. pose proof (len_nonneg (unread s)). lia.
  - left. unfold read_varint. rewrite reader_ok by done. change (mbind ?f (Ok ?x)) with (f x). cbv beta. by rewrite H.
  - right. exists b, v, rest. split; [done|]. split; [done|]. by apply (read_varint_at s b v rest).
Qed.

(** Bytes taken from the front: the stream that is left. *)
Lemma advance s s' n :
  stream_wf s → 1 ≤ n ≤ len (unread s) → buffer s' = buffer s → offset s' = offset s + n →
  0 ≤ remain_payload_len s' → state_wf s' → stream_wf s' ∧ (measure s' < measure s)%nat.
Proof.
  intros (Hb & Ho & _) Hn Hbuf Hoff Hp Hst. rewrite len_unread in Hn by done.
  assert (0 ≤ offset s' ≤ len (buffer s')) as Ho' by (rewrite Hbuf; lia).
  split; [by split; [rewrite Hbuf|]|]. unfold measure.
  pose proof (len_unread s Ho) as H1. pose proof (len_unread s' Ho') as H2. rewrite Hbuf in H2.
  assert (rank (state s') ≤ 2)%nat by (destruct (state s'); simpl; lia). unfold len in *. lia.
Qed.
(** A change of state that takes none, or any number of bytes. *)
Lemma stay s s' n :
  stream_wf s → 0 ≤ n ≤ len (unread s) → buffer s' = buffer s → offset s' = offset s + n →
  0 ≤ remain_payload_len s' → state_wf s' →
  stream_wf s' ∧ ((rank (state s') < rank (state s))%nat → (measure s' < measure s)%nat).
Proof.
  intros (Hb & Ho & _) Hn Hbuf Hoff Hp Hst. rewrite len_unread in Hn by done.
  assert (0 ≤ offset s' ≤ len (buffer s')) as Ho' by (rewrite Hbuf; lia).
  split; [by split; [rewrite Hbuf|]|]. unfold measure.
  pose proof (len_unread s Ho) as H1. pose proof (len_unread s' Ho') as H2. rewrite Hbuf in H2.
  unfold len in *. lia.
Qed.
Lemma varint_front s b v rest : encodes b v → unread s = b ++ rest → 1 ≤ len b ≤ len (unread s).
Proof. intros He ->. pose proof (encodes_len b v He). rewrite len_app. pose proof (len_nonneg rest). lia. Qed.
Lemma same_bytes s s' :
  stream_wf s → buffer s' = buffer s → offset s' = offset s → 0 ≤ remain_payload_len s' → state_wf s' → stream_wf s'.
Proof. intros (Hb & Ho & _) Hbuf Hoff Hp Hst. unfold stream_wf. by rewrite Hbuf, Hoff. Qed.
Lemma emptied s : 0 ≤ remain_payload_len s → state_wf s → stream_wf (clear_buffer s).
Proof. intros Hp Hs. split; [constructor|]. split; [by cbv|]. by destruct s. Qed.

(** Runs the steps of a part that only read or write its state. *)
Ltac run := cbv beta iota zeta delta [mbind M_bind mret M_ret mgets mlift mmodify put_stream push_frame mfail mpanic];
  cbn [stream frames qpack set_stream].

Section Safety.
Context {Q : Type} `{!QpackDecoderOps Q}.
Implicit Types d : decoding (Q := Q).

(** What a part of the decoder does at [s]: it goes on with less to do, or it stops in
    a state where [P] holds, or it fails; [fault] is what holds when it panics. *)
Definition part_ok (fault : Prop) (P : DecodedH3Stream.t → Prop) (s : DecodedH3Stream.t)
    (x : res H3Error DecodePartRes * decoding (Q := Q)) : Prop :=
  match x with
  | (Ok Continue, d') => stream_wf (stream d') ∧ (measure (stream d') < measure s)%nat
  | (Ok ReturnOuter, d') => stream_wf (stream d') ∧ P (stream d')
  | (Err _, _) => True
  | (Panic, _) => fault
  end.

Lemma part_ok_mono (F F' : Prop) P s x : (F → F') → part_ok F P s x → part_ok F' P s x.
Proof. intros HF. destruct x as [[[]| |] ?]; simpl; auto. Qed.
Lemma on_qpack_ok {A} (f : M Q QpackError A) d :
  (∃ a q, f (qpack d) = (Ok a, q) ∧ on_qpack f d = (Ok a, mk_decoding (stream d) (frames d) q)) ∨ (∃ e d', on_qpack f d = (Err e, d')) ∨
  (f (qpack d)).1 = Panic ∧ ∃ d', on_qpack f d = (Panic, d').
Proof.
  unfold on_qpack. destruct (f (qpack d)) as [[a|e|] q]; [left; eauto|right; left; eauto|right; right; eauto].
Qed.
(** The QPACK decoder panics on what the turn at [d] hands to it: the part of a field section
    that has arrived, the end of one, or instructions. *)
Definition section_fault (id : Z) d : Prop :=
  let b := upto (remain_payload_len (stream d)) (unread (stream d)) in
  (qpack_decode_repr b id (qpack d)).1 = Panic ∨
  ∃ q, qpack_decode_repr b id (qpack d) = (Ok FieldDecoded, q) ∧ (qpack_finish id q).1 = Panic.
Definition turn_fault (id : Z) d : Prop :=
  match state (stream d) with
  | StHeadersPayload => section_fault id d
  | StQpackEncoderInst => (qpack_decode_ins (unread (stream d)) (qpack d)).1 = Panic
  | _ => False
  end.

Lemma decode_stream_type_ok d :
  stream_wf (stream d) → part_ok False (λ _, True) (stream d) (decode_stream_type d).
Proof.
  intros Hs. unfold decode_stream_type. run.
  destruct (read_varint_cases (stream d) Hs) as [->|(b & v & rest & He & Hu & ->)]; run.
  - split; [|done]. by apply (same_bytes (stream d)); [..|apply Hs|].
  - pose proof (varint_front _ b v rest He Hu) as Hn.
    pose proof Hs as (_ & _ & Hp & _). unfold init_state_by_type. cbn [ty set_stream_type add_offset].
    destruct (decode_type v) eqn:Hy; [by unfold decode_type in Hy; repeat case_match..| | | | |]; run;
      apply (advance (stream d) _ (len b)); try done.
    right. by left.
Qed.

Lemma decode_push_id_ok d :
  stream_wf (stream d) → state (stream d) = StPushId → part_ok False (λ _, True) (stream d) (decode_push_id d).
Proof.
  intros Hs Hst. pose proof Hs as (_ & _ & Hp & Hw). unfold state_wf in Hw. rewrite Hst in Hw.
  unfold decode_push_id. run.
  destruct (read_varint_cases (stream d) Hs) as [->|(b & v & rest & He & Hu & ->)]; run.
  - split; [|done]. by apply (same_bytes (stream d)); [..|apply Hs|].
  - apply (advance (stream d) _ (len b)); [done|by apply (varint_front _ b v rest)|done..|]. right. right. by split.
Qed.

Lemma decode_frame_type_ok d :
  stream_wf (stream d) → carrier (stream d) → part_ok False carrier (stream d) (decode_frame_type d).
Proof.
  intros Hs Hc. pose proof Hs as (_ & _ & Hp & _). unfold decode_frame_type. run.
  destruct (read_varint_cases (stream d) Hs) as [->|(b & v & rest & He & Hu & ->)]; run.
  - split; [|done]. by apply (same_bytes (stream d)); [..|apply Hs|].
  - destruct (frame_allowed (stream d) v); run; [|done].
    apply (advance (stream d) _ (len b)); [done|by apply (varint_front _ b v rest)|by case_match..|].
    destruct (v =? SETTINGS_FRAME_TYPE); (split; [exact Hc|by eexists]).
Qed.

Lemma payload_state_wf s ft n :
  carrier s → state_wf (set_decode_state (set_frame s (Some ft) n) (payload_state ft)).
Proof.
  intros Hc. unfold payload_state. destruct (Z.eqb_spec ft DATA_FRAME_TYPE) as [->|]; [exact Hc|].
  destruct (Z.eqb_spec ft HEADERS_FRAME_TYPE) as [->|]; [split; [exact Hc|by left]|].
  destruct (Z.eqb_spec ft SETTINGS_FRAME_TYPE) as [->|]; [exact Hc|].
  destruct (Z.eqb_spec ft PUSH_PROMISE_FRAME_TYPE) as [->|]; [by split; [exact Hc|]|].
  case_match; [by split; [exact Hc|eexists]|exact Hc].
Qed.

Lemma decode_payload_len_ok d :
  stream_wf (stream d) → carrier (stream d) → is_Some (frame_type (stream d)) →
  part_ok False carrier (stream d) (decode_payload_len d).
Proof.
  intros Hs Hc [ft Hft]. unfold decode_payload_len. run.
  destruct (read_varint_cases (stream d) Hs) as [->|(b & v & rest & He & Hu & ->)]; run; [done|].
  rewrite Hft. run. apply (advance (stream d) _ (len b)); [done|by apply (varint_front _ b v rest)|done..| |].
  - simpl. apply (encodes_bound b v He).
  - by apply (payload_state_wf (add_offset (stream d) (len b))).
Qed.

(** The end of a frame, once [n] bytes of payload are taken. *)
Lemma end_frame_ok s0 s n remaining s' p fs (q : Q) :
  stream_wf s0 → 0 ≤ n ≤ len (unread s0) → (0 < rank (state s0))%nat →
  buffer s = buffer s0 → offset s = offset s0 + n → carrier s →
  end_frame s remaining = (s', p) → part_ok False carrier s0 (Ok p, mk_decoding s' fs q).
Proof.
  intros Hs Hn Hr Hb Ho Hc. unfold end_frame. case_match; intros [= <- <-].
  - split; [by apply emptied|exact Hc].
  - destruct (stay s0 (set_decode_state (clear_frame s) StFrameType) n) as [H1 H2]; [done..|]. split; [exact H1|]. by apply H2.
Qed.

(** [slice] of what the reader has. *)
Lemma reader_slice_ok b n : 0 ≤ n ≤ len b → ReadableBytes.slice n (ReadableBytes.new b) = (Ok (upto n b), ReadableBytes.mk b n).
Proof.
  intros Hn. unfold ReadableBytes.slice. rewrite cap_new, (proj2 (Z.ltb_ge _ _)) by lia. simpl.
  unfold Prelude.slice. by rewrite from_0 by lia.
Qed.

(** What is left of the payload, after the bytes there are of it. *)
Lemma subtract_ok s n :
  0 ≤ n ≤ remain_payload_len s →
  (∃ e, subtract_payload_len s n = Err e) ∨
  ∃ m, 0 ≤ m ∧ subtract_payload_len s n = Ok (set_frame s (frame_type s) (Some m)).
Proof.
  intros Hn. unfold subtract_payload_len, remain_payload_len in *. destruct (payload_len s) as [c|]; [|left; by eexists].
  simpl in Hn. rewrite (proj2 (Z.ltb_ge _ _)) by lia. right. exists (c - n). split; [lia|done].
Qed.

Lemma decode_data_payload_ok d :
  stream_wf (stream d) → state (stream d) = StDataPayload → part_ok False carrier (stream d) (decode_data_payload d).
Proof.
  intros Hs Hst. pose proof Hs as (_ & _ & Hp & Hw). unfold state_wf in Hw. rewrite Hst in Hw.
  unfold decode_data_payload. run. rewrite reader_ok by done. run. rewrite cap_new.
  pose proof (len_nonneg (unread (stream d))). destruct (Z.ltb_spec (len (unread (stream d))) (remain_payload_len (stream d))).
  - destruct (subtract_ok (stream d) (len (unread (stream d)))) as [[e ->]|(m & Hm & ->)]; [lia|done|]. run.
    split; [|exact Hw]. apply emptied; [done|]. unfold state_wf. simpl. by rewrite Hst.
  - rewrite reader_slice_ok by lia. run. destruct (end_frame _ _) as [s' p] eqn:He. run.
    refine (end_frame_ok (stream d) _ (remain_payload_len (stream d)) _ _ _ _ _ Hs _ _ _ _ _ He);
      [lia|rewrite Hst; simpl; lia|done|done|exact Hw].
Qed.

Lemma decode_unknown_payload_ok d :
  stream_wf (stream d) → state (stream d) = StUnknownPayload → part_ok False carrier (stream d) (decode_unknown_payload d).
Proof.
  intros Hs Hst. pose proof Hs as (_ & _ & Hp & Hw). unfold state_wf in Hw. rewrite Hst in Hw.
  unfold decode_unknown_payload. run. rewrite reader_ok by done. run. rewrite cap_new.
  pose proof (len_nonneg (unread (stream d))). destruct (Z.ltb_spec (len (unread (stream d))) (remain_payload_len (stream d))).
  - destruct (subtract_ok (clear_buffer (stream d)) (len (unread (stream d)))) as [[e ->]|(m & Hm & ->)];
      [change (remain_payload_len (clear_buffer ?s)) with (remain_payload_len s); lia|done|]. run.
    split; [|exact Hw]. apply (emptied (set_frame (stream d) _ _)); [done|]. unfold state_wf. simpl. by rewrite Hst.
  - rewrite reader_slice_ok by lia. run. destruct (end_frame _ _) as [s' p] eqn:He. run.
    refine (end_frame_ok (stream d) _ (remain_payload_len (stream d)) _ _ _ _ _ Hs _ _ _ _ _ He);
      [lia|rewrite Hst; simpl; lia|done|done|exact Hw].
Qed.

Lemma decode_variable_payload_ok d :
  stream_wf (stream d) → state (stream d) = StVariablePayload → part_ok False carrier (stream d) (decode_variable_payload d).
Proof.
  intros Hs Hst. pose proof Hs as (_ & _ & Hp & Hw). unfold state_wf in Hw. rewrite Hst in Hw. destruct Hw as [Hc [ft Hft]].
  unfold decode_variable_payload. run. rewrite reader_ok by done. run.
  destruct (read_varint_cases (stream d) Hs) as [->|(b & v & rest & He & Hu & ->)]; run; [done|].
  rewrite Hft. run. pose proof (varint_front _ b v rest He Hu) as Hn.
  match goal with |- context [match ?x with Ok _ => _ | Err _ => _ | Panic => _ end] =>
    assert ((∃ p, x = Ok p) ∨ ∃ e, x = Err e) as [[p ->]|[e ->]] by (repeat case_match; eauto) end; [|done].
  destruct (end_frame _ _) as [s' p'] eqn:Hf.
  refine (end_frame_ok (stream d) _ (len b) _ _ _ _ _ Hs _ _ _ _ _ Hf); [lia|rewrite Hst; simpl; lia|done|done|exact Hc].
Qed.

Lemma apply_setting_total key value s a : apply_setting key value s a ≠ Panic.
Proof. unfold apply_setting. by repeat case_match. Qed.

(** Integers read one after the other. *)
Lemma next_varint (r : ReadableBytes.t) :
  bytes_ok (ReadableBytes.buf r) → 0 ≤ ReadableBytes.idx r ≤ len (ReadableBytes.buf r) →
  ReadableBytes.get_varint r = (Err (H3Serialize BufferTooShort), r) ∨
  ∃ v i, ReadableBytes.get_varint r = (Ok v, ReadableBytes.mk (ReadableBytes.buf r) i) ∧
    ReadableBytes.idx r < i ≤ len (ReadableBytes.buf r).
Proof.
  intros Hb Hi. destruct (get_varint_cases r) as [H|(b & v & rest & He & Hr)]; [by apply Forall_from|done|by left|].
  right. exists v. eexists. split; [by apply (get_varint_ok b v r rest)|].
  pose proof (encodes_len b v He). pose proof (len_nonneg rest). apply (f_equal len) in Hr.
  unfold ReadableBytes.remaining in Hr. rewrite len_from, len_app in Hr by lia. lia.
Qed.

Lemma settings_loop_total fuel n r s a :
  bytes_ok (ReadableBytes.buf r) → 0 ≤ ReadableBytes.idx r ≤ len (ReadableBytes.buf r) →
  ReadableBytes.cap r < Z.of_nat fuel → settings_loop fuel n r s a ≠ Panic.
Proof.
  revert r s a. induction fuel as [|fuel IH]; intros r s a Hb Hi Hf; [unfold ReadableBytes.cap in Hf; lia|].
  cbn [settings_loop]. case_match; [done|]. unfold mbind, res_bind.
  destruct (next_varint r Hb Hi) as [->|(k & i & -> & Hi1)]; [done|].
  destruct (next_varint (ReadableBytes.mk (ReadableBytes.buf r) i)) as [->|(v & j & -> & Hi2)]; [done|simpl; lia|done|].
  destruct (apply_setting k v s a) as [[s' a']| |] eqn:Ha; [|done|by apply apply_setting_total in Ha].
  apply IH; [done|simpl in *; lia|]. unfold ReadableBytes.cap in *. simpl in *. lia.
Qed.

Lemma decode_settings_payload_ok d :
  stream_wf (stream d) → state (stream d) = StSettingsPayload → part_ok False carrier (stream d) (decode_settings_payload d).
Proof.
  intros Hs Hst. pose proof Hs as (_ & _ & Hp & Hw). unfold state_wf in Hw. rewrite Hst in Hw.
  unfold decode_settings_payload. run. rewrite reader_ok by done. run. rewrite cap_new. case_match; run; [done|].
  pose proof (len_nonneg (unread (stream d))).
  destruct (settings_loop _ _ _ _ _) as [[[st ad] r]| |] eqn:Hl; [|done|].
  - destruct (end_frame _ _) as [s' p] eqn:He.
    refine (end_frame_ok (stream d) _ 0 _ _ _ _ _ Hs _ _ _ _ _ He); [lia|rewrite Hst; simpl; lia|done|lia|exact Hw].
  - apply settings_loop_total in Hl; [done|by apply unread_ok|simpl; lia|]. rewrite cap_new. unfold len. simpl. lia.
Qed.

Lemma decode_push_payload_ok d :
  stream_wf (stream d) → state (stream d) = StPushPromisePayload → part_ok False carrier (stream d) (decode_push_payload d).
Proof.
  intros Hs Hst. pose proof Hs as (_ & _ & Hp & Hw). unfold state_wf in Hw. rewrite Hst in Hw. destruct Hw as [Hc Hft].
  unfold decode_push_payload. run.
  destruct (read_varint_cases (stream d) Hs) as [->|(b & v & rest & He & Hu & ->)]; run; [done|].
  unfold subtract_payload_len. cbn [payload_len set_push_frame_id]. destruct (payload_len (stream d)) as [c|]; [|done].
  destruct (Z.ltb_spec c (len b)); [done|]. pose proof (len_nonneg (unread (stream d))). run. split.
  - apply (same_bytes (stream d)); [done..|change (0 ≤ c - len b); lia|]. split; [exact Hc|]. right. by split; [|eexists].
  - apply (stay (stream d) _ 0); [done|lia|done|by rewrite Z.add_0_r|change (0 ≤ c - len b); lia| |rewrite Hst; simpl; lia].
    split; [exact Hc|]. right. by split; [|eexists].
Qed.

Lemma get_qpack_decoded_header_ok id remaining d s0 n :
  stream_wf s0 → 0 ≤ n ≤ len (unread s0) → state s0 = StHeadersPayload → stream d = add_offset s0 n →
  part_ok ((qpack_finish id (qpack d)).1 = Panic) carrier s0 (get_qpack_decoded_header id remaining d).
Proof.
  intros Hs Hn Hst Hd. pose proof Hs as (_ & _ & _ & Hw). unfold state_wf in Hw. rewrite Hst in Hw. destruct Hw as [Hc Hft].
  unfold get_qpack_decoded_header. rewrite M_bind_eq.
  destruct (on_qpack_ok (qpack_finish id) d) as [([part ins] & q & _ & ->)|[(e & d' & ->)|(Hp & d' & ->)]]; [|done|exact Hp].
  run. rewrite Hd. cbn [frame_type push_frame_id add_offset set_buffer].
  match goal with |- context [match ?x with Ok _ => _ | Err _ => _ | Panic => _ end] =>
    assert (∃ f, x = Ok f) as [f ->] end.
  { destruct Hft as [->|[-> [i ->]]]; by eexists. }
  destruct (end_frame _ _) as [s' p] eqn:He. apply (part_ok_mono False); [done|].
  refine (end_frame_ok s0 _ n _ _ _ _ _ Hs Hn _ _ _ _ He); [rewrite Hst; simpl; lia|done|done|exact Hc].
Qed.

Lemma decode_headers_payload_ok id d :
  stream_wf (stream d) → state (stream d) = StHeadersPayload → part_ok (section_fault id d) carrier (stream d) (decode_headers_payload id d).
Proof.
  intros Hs Hst. pose proof Hs as (_ & _ & Hp & Hw). pose proof Hw as Hw'. unfold state_wf in Hw. rewrite Hst in Hw.
  unfold decode_headers_payload. rewrite M_bind_eq. cbn [mgets]. rewrite M_bind_eq. unfold mlift at 1.
  rewrite reader_ok by done. cbv zeta. rewrite cap_new, remaining_new.
  pose proof (len_nonneg (unread (stream d))). destruct (Z.ltb_spec (len (unread (stream d))) (remain_payload_len (stream d))).
  - rewrite M_bind_eq. destruct (on_qpack_ok (qpack_decode_repr (unread (stream d)) id) d)
      as [(f & q & _ & ->)|[(e & d' & ->)|(Hpp & d' & ->)]]; [|done|left; by rewrite upto_all by lia]. run.
    destruct (subtract_ok (stream d) (len (unread (stream d)))) as [[e ->]|(m & Hm & ->)]; [lia|done|]. run.
    split; [|apply Hw]. apply emptied; [done|exact Hw'].
  - rewrite reader_slice_ok by lia. rewrite M_bind_eq.
    destruct (on_qpack_ok (qpack_decode_repr (upto (remain_payload_len (stream d)) (unread (stream d))) id) d)
      as [([] & q & Hq & ->)|[(e & d' & ->)|(Hpp & d' & ->)]]; [| |done|by left].
    + run. destruct (subtract_ok (stream d) (remain_payload_len (stream d))) as [[e ->]|(m & Hm & ->)]; [lia|done|]. run.
      split; [|apply Hw]. apply (stay (stream d) _ (remain_payload_len (stream d))); [done|lia|done|done|done|exact Hw'].
    + rewrite M_bind_eq. unfold put_stream, mmodify. eapply part_ok_mono;
        [|apply (get_qpack_decoded_header_ok _ _ _ _ (remain_payload_len (stream d))); [done|lia|done|done]].
      intros Hf. right. by exists q.
Qed.

(** ** Turns, calls and sequences of calls *)

Definition turn_ok (fault : Prop) (s : DecodedH3Stream.t) (x : res H3Error (option (StreamMessage * bool)) * decoding (Q := Q)) : Prop :=
  match x with
  | (Ok None, d') => stream_wf (stream d') ∧ (measure (stream d') < measure s)%nat
  | (Ok (Some _), d') => stream_wf (stream d')
  | (Err _, _) => True
  | (Panic, _) => fault
  end.

Lemma return_by_type_total s fs : carrier s → return_by_type s fs ≠ Panic.
Proof. unfold return_by_type. by intros [-> | [-> | [-> [i ->]]]]. Qed.

Lemma outer_ok F x d : part_ok F carrier (stream d) (x d) → turn_ok F (stream d) (outer x d).
Proof.
  unfold outer. rewrite M_bind_eq. destruct (x d) as [[[]| |] d']; [|done..]. intros [Hs Hc]. run.
  destruct (return_by_type _ _) eqn:Hr; [done..|]. by apply return_by_type_total in Hr.
Qed.
Lemma waiting_more_ok F x d : part_ok F (λ _, True) (stream d) (x d) → turn_ok F (stream d) (waiting_more x d).
Proof. unfold waiting_more. rewrite M_bind_eq. destruct (x d) as [[[]| |] d']; [|done..]. by intros [Hs _]. Qed.

Lemma decode_turn_ok id d : stream_wf (stream d) → turn_ok (turn_fault id d) (stream d) (decode_turn id d).
Proof.
  intros Hs. pose proof Hs as (_ & _ & Hp & Hw). pose proof (reader_ok _ Hs) as Hr. unfold state_wf in Hw.
  unfold decode_turn, turn_fault. rewrite M_bind_eq. cbn [mgets]. destruct (state (stream d)) eqn:Hst.
  - apply waiting_more_ok. by apply decode_stream_type_ok.
  - apply waiting_more_ok. by apply decode_push_id_ok.
  - apply outer_ok. by apply decode_frame_type_ok.
  - apply outer_ok. by apply decode_payload_len_ok; [|apply Hw..].
  - apply outer_ok. by apply decode_headers_payload_ok.
  - apply outer_ok. by apply decode_data_payload_ok.
  - apply outer_ok. by apply decode_settings_payload_ok.
  - apply outer_ok. by apply decode_variable_payload_ok.
  - apply outer_ok. by apply decode_push_payload_ok.
  - apply outer_ok. by apply decode_unknown_payload_ok.
  - run. rewrite Hr. run. apply emptied; [done|]. unfold state_wf. by rewrite Hst.
  - rewrite M_bind_eq. cbn [mgets]. rewrite M_bind_eq. unfold mlift. rewrite Hr, M_bind_eq. rewrite remaining_new.
    destruct (on_qpack_ok (qpack_decode_ins (unread (stream d))) d)
      as [(l & q & _ & ->)|[(e & d' & ->)|(Hpp & d' & ->)]]; [|done|exact Hpp].
    run. apply emptied; [done|]. unfold state_wf. by rewrite Hst.
  - run. apply emptied; [done|]. unfold state_wf. by rewrite Hst.
Qed.

(** The decodings that the loop of a call goes through. *)
Inductive passes (id : Z) : decoding (Q := Q) → decoding (Q := Q) → Prop :=
| passes_here d : passes id d d
| passes_turn d d1 d2 : decode_turn id d = (Ok None, d1) → passes id d1 d2 → passes id d d2.

Lemma decode_loop_ok id fuel d :
  stream_wf (stream d) → (measure (stream d) < fuel)%nat →
  match loop (decode_turn id) fuel d with
  | (Ok _, d') => stream_wf (stream d')
  | (Err _, _) => True
  | (Panic, _) => ∃ d', passes id d d' ∧ turn_fault id d'
  end.
Proof.
  revert d. induction fuel as [|fuel IH]; intros d Hs Hf; [lia|]. cbn [loop]. rewrite M_bind_eq.
  pose proof (decode_turn_ok id d Hs) as Ht. destruct (decode_turn id d) as [[[a|]| |] d'] eqn:Hd; try done.
  - destruct Ht as [Hs' Hm]. specialize (IH d' Hs' ltac:(lia)). destruct (loop _ _ _) as [[]]; try done.
    destruct IH as (d2 & Hp & Hf2). exists d2. split; [by eapply passes_turn|done].
  - exists d. split; [constructor|done].
Qed.

Definition decoder_wf (d : frame_decoder (Q := Q)) : Prop := map_Forall (λ _, stream_wf) (streams d).

Lemma new_wf id : stream_wf (DecodedH3Stream.new id).
Proof.
  unfold DecodedH3Stream.new. destruct (is_bidirectional id); (split; [constructor|]; split; [by cbv|]; split; [by cbv|]); [by left|done].
Qed.
Lemma received_wf s src : stream_wf s → bytes_ok src → stream_wf (set_buffer s (buffer s ++ src) (offset s)).
Proof.
  intros (Hb & Ho & Hp & Hs) Hsrc. split; [by apply Forall_app|]. split; [|by split].
  cbn [offset buffer set_buffer]. rewrite len_app. pose proof (len_nonneg src). lia.
Qed.
Lemma fuel_enough s : 0 ≤ offset s → (measure s < decode_fuel s)%nat.
Proof.
  intros Ho. unfold measure, decode_fuel, unread, from. rewrite length_drop.
  assert (rank (state s) ≤ 2)%nat by (destruct (state s); simpl; lia). lia.
Qed.

(** The calls a connection makes. *)
Inductive h3_call := CallDecode (id : Z) (src : bytes) | CallCancel (id : Z) | CallFinish (id : Z).
Definition call_ok (c : h3_call) : Prop := match c with CallDecode _ src => bytes_ok src | _ => True end.

Definition perform (c : h3_call) : M (frame_decoder (Q := Q)) H3Error () :=
  match c with
  | CallDecode id src => _ ← decode id src; mret ()
  | CallCancel id => _ ← cancel_stream id; mret ()
  | CallFinish id => finish_stream id
  end.
(** The QPACK decoder panics in a call on the decoder [d]. *)
Definition started (id : Z) (src : bytes) (d : frame_decoder (Q := Q)) : decoding (Q := Q) :=
  let s := default (DecodedH3Stream.new id) (streams d !! id) in
  mk_decoding (set_buffer s (buffer s ++ src) (offset s)) [] (qpack_decoder d).
Definition call_fault (c : h3_call) (d : frame_decoder (Q := Q)) : Prop :=
  match c with
  | CallDecode id src => ∃ d', passes id (started id src d) d' ∧ turn_fault id d'
  | CallCancel id => (qpack_stream_cancel id (qpack_decoder d)).1 = Panic
  | CallFinish id => is_bidirectional id = true ∧ (qpack_finish_stream id (qpack_decoder d)).1 = Panic
  end.
(** What a call does: it returns and keeps the streams well formed, or it panics
    because the QPACK decoder does. *)
Definition call_returns {A} (fault : Prop) (x : res H3Error A * frame_decoder (Q := Q)) : Prop :=
  match x with (Panic, d) => fault | (_, d) => decoder_wf d end.

Lemma decode_ok id src (d : frame_decoder (Q := Q)) :
  decoder_wf d → bytes_ok src → call_returns (call_fault (CallDecode id src) d) (decode id src d).
Proof.
  intros Hd Hsrc. unfold decode, call_fault, started.
  assert (Hs : stream_wf (default (DecodedH3Stream.new id) (streams d !! id))).
  { destruct (streams d !! id) as [s|] eqn:Hl; [exact (Hd id s Hl)|apply new_wf]. }
  apply (received_wf _ src) in Hs; [|done]. set (s := set_buffer _ _ _) in *.
  pose proof (decode_loop_ok id (decode_fuel s) (mk_decoding s [] (qpack_decoder d)) Hs (fuel_enough s ltac:(apply Hs))) as Hl.
  destruct (loop _ _ _) as [[[message []]|e|] d']; unfold call_returns, decoder_wf; cbn [streams qpack_decoder].
  - apply map_Forall_insert_2; [done|]. by apply map_Forall_delete.
  - by apply map_Forall_delete.
  - by apply map_Forall_delete.
  - exact Hl.
Qed.
Lemma cancel_ok id (d : frame_decoder (Q := Q)) : decoder_wf d → call_returns (call_fault (CallCancel id) d) (cancel_stream id d).
Proof.
  intros Hd. unfold cancel_stream, call_fault. by destruct (qpack_stream_cancel id (qpack_decoder d)) as [[]] eqn:Hc; [apply map_Forall_delete..|].
Qed.
Lemma finish_ok id (d : frame_decoder (Q := Q)) : decoder_wf d → call_returns (call_fault (CallFinish id) d) (finish_stream id d).
Proof.
  intros Hd. unfold finish_stream, call_fault. destruct (is_bidirectional id); [|by apply map_Forall_delete].
  by destruct (qpack_finish_stream id (qpack_decoder d)) as [[]] eqn:Hc; [apply map_Forall_delete|exact Hd|].
Qed.

(** Calls one after the other; a panic ends them. *)
Fixpoint performs (cs : list h3_call) (d : frame_decoder (Q := Q)) : list (res H3Error ()) * frame_decoder (Q := Q) :=
  match cs with
  | [] => ([], d)
  | c :: cs =>
      match perform c d with
      | (Panic, d) => ([Panic], d)
      | (r, d) => let '(rs, d) := performs cs d in (r :: rs, d)
      end
  end.

Lemma perform_ok c (d : frame_decoder (Q := Q)) : call_ok c → decoder_wf d → call_returns (call_fault c d) (perform c d).
Proof.
  intros Hc Hd. destruct c as [id src|id|id]; unfold perform; [| |by apply finish_ok]; rewrite M_bind_eq.
  - pose proof (decode_ok id src d Hd Hc). by destruct (decode id src d) as [[]].
  - pose proof (cancel_ok id d Hd). by destruct (cancel_stream id d) as [[]].
Qed.

(** The calls [cs] return, from the first to the last, or up to one in which the QPACK
    decoder panics. *)
Definition returns_or_fault (cs : list h3_call) (d : frame_decoder (Q := Q)) (x : list (res H3Error ()) * frame_decoder (Q := Q)) : Prop :=
  (length x.1 = length cs ∧ Forall (λ r, r ≠ Panic) x.1 ∧ decoder_wf x.2) ∨
  ∃ cs1 c cs2 rs (d1 : frame_decoder (Q := Q)), cs = cs1 ++ c :: cs2 ∧ performs cs1 d = (rs, d1) ∧ Forall (λ r, r ≠ Panic) rs ∧ decoder_wf d1 ∧
    x.1 = rs ++ [Panic] ∧ (perform c d1).1 = Panic ∧ call_fault c d1.

Lemma performs_ok cs (d : frame_decoder (Q := Q)) :
  Forall call_ok cs → decoder_wf d → returns_or_fault cs d (performs cs d).
Proof.
  intros Hcs. revert d. induction Hcs as [|c cs Hc _ IH]; intros d Hd; [by left|]. cbn [performs].
  pose proof (perform_ok c d Hc Hd) as Hr. destruct (perform c d) as [[u|e|] d1] eqn:Hp.
  3: { right. exists [], c, cs, [], d. rewrite Hp. do 2 (split; [done|]). split; [by constructor|]. do 3 (split; [done|]). exact Hr. }
  all: specialize (IH d1 Hr); destruct (performs cs d1) as [rs d2]; destruct IH as [(Hl & Hf & Hw)|(cs1 & c1 & cs2 & rs1 & dn & -> & H1 & H2 & H3 & H4 & H5)];
    [left; split; [simpl in *; lia|]; by split; [constructor|] |].
  all: simpl in H4; subst rs; right; eexists (c :: cs1), c1, cs2, (_ :: rs1), dn; cbn [performs]; rewrite Hp, H1;
    do 2 (split; [done|]); split; [by constructor|]; do 2 (split; [done|]); exact H5.
Qed.

(** C28: The HTTP/3 stream decoder is total: started with no streams and given any
    bytes, in any pieces, for any streams, mixed with cancelled and finished streams,
    every call's loop ends within the bytes it has and no call panics (no index past a
    buffer, no [unwrap] of a missing field, no [unreachable!]), with every kept stream
    well formed for the calls to come.  The one exception is a panic of the QPACK decoder,
    whatever QPACK decoder is used: all calls in front of it return, and the call in which it
    happens hands the QPACK decoder, in the state it has then, the octets of a field section,
    the end of one, instructions or the end of a stream on which that decoder panics. *)
Theorem h3_decoder_total (q : Q) cs :
  Forall call_ok cs → returns_or_fault cs (mk_decoder q ∅) (performs cs (mk_decoder q ∅)).
Proof. intros Hcs. apply performs_ok; [done|]. apply map_Forall_empty. Qed.
End Safety.

(** A QPACK decoder that decodes every field section to the empty one. *)
Definition no_fields_ops : QpackDecoderOps () := {|
  qpack_decode_repr := λ _ _, mret FieldDecoded;
  qpack_finish := λ _, mret (H3Parts.new, None);
  qpack_decode_ins := λ _, mret [];
  qpack_stream_cancel := λ _, mret [];
  qpack_finish_stream := λ _, mret ();
|}.
Lemma no_fields_total c d : ¬ @call_fault () no_fields_ops c d.
Proof.
  destruct c as [id src|id|id]; cbn [call_fault]; [|done|by intros [_ ?]]. intros (d' & _ & Hf). unfold turn_fault in Hf.
  destruct (state (stream d')); try done. by destruct Hf as [?|(? & _ & ?)].
Qed.

(** Two pieces of a control stream, a request stream and its end. *)
Definition some_calls : list h3_call :=
  [CallDecode 3 [0; 4; 2]; CallDecode 3 [6; 10]; CallDecode 0 [1; 2; 7; 7; 0; 3; 1; 2]; CallDecode 0 [3];
   CallFinish 0; CallCancel 4].
Lemma h3_decoder_total_witness :
  Forall call_ok some_calls ∧
  (@performs () no_fields_ops some_calls (mk_decoder () ∅)).1 = replicate 6 (Ok ()) ∧
  Forall (λ r, r ≠ Panic) (@performs () no_fields_ops some_calls (mk_decoder () ∅)).1.
Proof.
  assert (Hc : Forall call_ok some_calls) by (repeat constructor; unfold is_u8; lia).
  split; [exact Hc|]. split; [by vm_compute|].
  destruct (@h3_decoder_total () no_fields_ops () some_calls Hc) as [(_ & H & _)|(? & c & ? & ? & d1 & _ & _ & _ & _ & _ & _ & H)]; [exact H|].
  exfalso. exact (no_fields_total c d1 H).
Defined.
