(* ===== verification/H3FrameSegments.v ===== *)
(** DATA on HTTP/3 request streams, whatever the pieces it arrives in.  A request
    stream that carries DATA frames, mixed with frames of types the decoder does not
    know, gives the payloads of the DATA frames in order, however its bytes are cut
    into the calls of [decode]; the QPACK decoder takes no part in it. *)
From S2P Require Import Prelude Buffers H3Error H3Octets H3Frame H3FrameDecoder H3DecoderSafety.
Import DecodedH3Stream.

(** ** Integers are found where they were put *)

Lemma encodes_prefix b b' v v' x y : encodes b v → encodes b' v' → b ++ x = b' ++ y → b = b' ∧ v = v' ∧ x = y.
Proof.
  intros (n & k & Hn & _ & Hv & Hl & Hk) (n' & k' & Hn' & _ & Hv' & Hl' & Hk') He.
  assert (Hf : ∀ (c z : bytes), 0 < len c → at_ (c ++ z) 0 = at_ c 0).
  { intros c z Hc. unfold at_. rewrite lookup_app_l; [done|]. unfold len in Hc. lia. }
  assert (k = k') as <-.
  { rewrite <- Hk, <- Hk', <- (Hf b x), <- (Hf b' y), He; [done|lia|lia]. }
  assert (n = n') as <- by lia.
  apply app_inj_1 in He as [<- <-]; [|unfold len in *; lia]. split; [done|]. split; [lia|done].
Qed.

(** ** A stream of DATA frames and unknown frames *)

(** A frame: its type and how it is written, how its length is written, its payload. *)
Record item := mk_item { kind : Z; type_bytes : bytes; length_bytes : bytes; payload : bytes }.
Definition item_ok (i : item) : Prop :=
  (kind i = DATA_FRAME_TYPE ∨ payload_state (kind i) = StUnknownPayload) ∧
  encodes (type_bytes i) (kind i) ∧ encodes (length_bytes i) (len (payload i)).
Definition wire (i : item) : bytes := type_bytes i ++ length_bytes i ++ payload i.
Definition content (i : item) : bytes := if kind i =? DATA_FRAME_TYPE then payload i else [].
Definition wires (is_ : list item) : bytes := concat (wire <$> is_).
Definition contents (is_ : list item) : bytes := concat (content <$> is_).

(** The DATA of the frames a call returns. *)
Definition frame_data (k : H3FrameKind) : bytes :=
  match k with H3Complete (H3Frame.mk _ (H3Payload.Data b)) => b | _ => [] end.
Definition data_of (fs : list H3FrameKind) : bytes := concat (frame_data <$> fs).

Lemma data_of_app fs gs : data_of (fs ++ gs) = data_of fs ++ data_of gs.
Proof. unfold data_of. by rewrite fmap_app, concat_app. Qed.
Lemma wires_cons i is_ : wires (i :: is_) = type_bytes i ++ length_bytes i ++ payload i ++ wires is_.
Proof. unfold wires, wire. simpl. by rewrite <- !(assoc_L (++)). Qed.

(** What a stream still has to give, when [w] is what is left to read of it. *)
Definition expects (s : DecodedH3Stream.t) (w data : bytes) : Prop :=
  ty s = TyRequest ∧
  match state s with
  | StFrameType => ∃ is_, Forall item_ok is_ ∧ w = wires is_ ∧ data = contents is_
  | StPayloadLen => ∃ i is_, item_ok i ∧ Forall item_ok is_ ∧ frame_type s = Some (kind i) ∧
      w = length_bytes i ++ payload i ++ wires is_ ∧ data = content i ++ contents is_
  | StDataPayload => ∃ p is_, Forall item_ok is_ ∧ payload_len s = Some (len p) ∧
      w = p ++ wires is_ ∧ data = p ++ contents is_
  | StUnknownPayload => ∃ p is_, Forall item_ok is_ ∧ payload_len s = Some (len p) ∧
      w = p ++ wires is_ ∧ data = contents is_
  | _ => False
  end.

Section Segments.
Context {Q : Type} `{!QpackDecoderOps Q}.
Implicit Types d : decoding (Q := Q).

(** The outcome of a part: what it gives is the front of what was expected.  A part that
    stops with nothing more to come has read the whole stream. *)
Definition gives (d : decoding (Q := Q)) (fut data : bytes) (x : res H3Error DecodePartRes * decoding (Q := Q)) : Prop :=
  ∃ p d' out rest, x = (Ok p, d') ∧ qpack d' = qpack d ∧ data_of (frames d') = data_of (frames d) ++ out ∧
    data = out ++ rest ∧ expects (stream d') (unread (stream d') ++ fut) rest ∧
    (p = ReturnOuter → fut = [] → state (stream d') = StFrameType ∧ unread (stream d') = []).

Lemma gives_nothing d fut data p s' fs :
  data_of fs = data_of (frames d) → expects s' (unread s' ++ fut) data →
  (p = ReturnOuter → fut = [] → state s' = StFrameType ∧ unread s' = []) →
  gives d fut data (Ok p, mk_decoding s' fs (qpack d)).
Proof.
  intros Hf He Hp. exists p, (mk_decoding s' fs (qpack d)), [], data. rewrite app_nil_r. by repeat (split; [done|]).
Qed.

Lemma allowed_kind s i : ty s = TyRequest → item_ok i → frame_allowed s (kind i) = true ∧ kind i ≠ SETTINGS_FRAME_TYPE.
Proof.
  intros Hty [[->|Hu] _]; [unfold frame_allowed; by rewrite Hty|].
  unfold payload_state in Hu. repeat case_match; try done. zbool. split; [|done].
  unfold frame_allowed. repeat case_match; zbool; try done.
  all: try by apply negb_true_iff, Z.eqb_neq.
  match goal with H : (_ || _)%bool = true |- _ => apply orb_true_iff in H as [?|?]; zbool; done end.
Qed.

Lemma unread_front s b rest v s' :
  stream_wf s → encodes b v → unread s = b ++ rest → buffer s' = buffer s → offset s' = offset s + len b → unread s' = rest.
Proof.
  intros (_ & Ho & _) He Hu Hb Hoff. pose proof (len_nonneg b). unfold unread in *. rewrite Hb, Hoff, <- from_from, Hu by lia.
  by rewrite from_app_exact.
Qed.

Lemma frame_type_gives d fut data :
  stream_wf (stream d) → state (stream d) = StFrameType → expects (stream d) (unread (stream d) ++ fut) data →
  gives d fut data (decode_frame_type d).
Proof.
  intros Hs Hst [Hty He]. rewrite Hst in He. destruct He as (is_ & Hok & Hw & Hdata). unfold decode_frame_type. run.
  destruct (read_varint_cases (stream d) Hs) as [Hr|(b & v & rest & He & Hu & Hr)]; rewrite Hr; run.
  - apply gives_nothing; [by rewrite data_of_app, app_nil_r|by split; [|exists is_]|]. intros _ ->. split; [done|].
    destruct is_ as [|i is_]; [by rewrite app_nil_r in Hw|]. rewrite app_nil_r, wires_cons in Hw.
    inversion_clear Hok as [|? ? (_ & Hi & _)]. by rewrite (read_varint_at _ _ _ _ Hs Hi Hw) in Hr.
  - destruct is_ as [|i is_].
    { pose proof (encodes_len b v He). rewrite Hu in Hw. apply (f_equal len) in Hw. rewrite !len_app in Hw.
      pose proof (len_nonneg rest). pose proof (len_nonneg fut). change (len (wires [])) with 0 in Hw. lia. }
    inversion_clear Hok as [|? ? Hi Hok']. rewrite Hu, wires_cons, <- (assoc_L (++)) in Hw.
    apply (encodes_prefix _ _ v (kind i)) in Hw as (Hb & -> & Hw); [|done|apply Hi].
    destruct (allowed_kind (stream d) i Hty Hi) as [-> Hset]. run. rewrite (proj2 (Z.eqb_neq _ _)) by done.
    apply gives_nothing; [done| |done]. split; [exact Hty|]. exists i, is_. split; [done|]. split; [done|]. split; [done|].
    split; [|exact Hdata]. rewrite <- Hw. f_equal. by apply (unread_front (stream d) b rest (kind i)).
Qed.

Lemma payload_len_gives d fut data :
  stream_wf (stream d) → state (stream d) = StPayloadLen → expects (stream d) (unread (stream d) ++ fut) data →
  gives d fut data (decode_payload_len d).
Proof.
  intros Hs Hst [Hty He]. rewrite Hst in He. destruct He as (i & is_ & Hi & Hok & Hft & Hw & Hdata). unfold decode_payload_len. run.
  destruct (read_varint_cases (stream d) Hs) as [Hr|(b & v & rest & He & Hu & Hr)]; rewrite Hr; run.
  - apply gives_nothing; [by rewrite data_of_app, app_nil_r| |].
    + split; [done|]. rewrite Hst. by exists i, is_.
    + intros _ ->. rewrite app_nil_r in Hw. destruct Hi as (_ & _ & Hi). by rewrite (read_varint_at _ _ _ _ Hs Hi Hw) in Hr.
  - rewrite Hft. run. rewrite Hu, <- (assoc_L (++)) in Hw.
    apply (encodes_prefix _ _ v (len (payload i))) in Hw as (Hb & -> & Hw); [|done|apply Hi].
    apply gives_nothing; [done| |done]. split; [exact Hty|].
    assert (Hun : ∀ st, unread (set_decode_state (add_offset (set_frame (stream d) (Some (kind i)) (Some (len (payload i)))) (len b)) st) = rest)
      by (intros st; by apply (unread_front (stream d) b rest (len (payload i)))).
    rewrite Hun, Hw. subst data. unfold content. destruct Hi as [[Hk|Hk] _].
    + rewrite Hk. by exists (payload i), is_.
    + rewrite Hk. exists (payload i), is_. repeat (split; [done|]). case_match; [|done]. zbool.
      by replace (kind i) with DATA_FRAME_TYPE in Hk.
Qed.

(** ** Payloads *)

(** A payload is there in part, or in full. *)
Lemma payload_cut (u fut p w : bytes) :
  u ++ fut = p ++ w →
  (len u < len p ∧ ∃ more, p = u ++ more ∧ fut = more ++ w) ∨
  (len p ≤ len u ∧ ∃ more, u = p ++ more ∧ w = more ++ fut).
Proof.
  intros H. apply app_eq_inv in H as [(k & -> & ->)|(k & -> & ->)].
  - right. rewrite len_app. pose proof (len_nonneg k). split; [lia|]. by exists k.
  - destruct k as [|x k].
    + right. rewrite app_nil_r. split; [lia|]. exists []. by rewrite app_nil_r.
    + left. split; [rewrite len_app, len_cons; pose proof (len_nonneg k); lia|]. by exists (x :: k).
Qed.

Lemma end_frame_gives s p more fut is_ s' r :
  stream_wf s → ty s = TyRequest → unread s = p ++ more → wires is_ = more ++ fut → Forall item_ok is_ →
  end_frame (add_offset s (len p)) (len more) = (s', r) →
  expects s' (unread s' ++ fut) (contents is_) ∧
  (r = ReturnOuter → fut = [] → state s' = StFrameType ∧ unread s' = []).
Proof.
  intros (_ & Ho & _) Hty Hu Hw Hok. unfold end_frame. destruct (Z.eqb_spec (len more) 0) as [H0|H0]; intros [= <- <-].
  - apply len_0_nil in H0 as ->. split; [|by intros]. split; [exact Hty|]. by exists is_.
  - split; [|done]. split; [exact Hty|]. exists is_. split; [done|]. split; [|done]. rewrite Hw. f_equal.
    pose proof (len_nonneg p). unfold unread in *. simpl. rewrite <- from_from, Hu by lia. by rewrite from_app_exact.
Qed.

Lemma remain_some s n : payload_len s = Some n → remain_payload_len s = n.
Proof. unfold remain_payload_len. by intros ->. Qed.

Lemma data_payload_gives d fut data :
  stream_wf (stream d) → state (stream d) = StDataPayload → expects (stream d) (unread (stream d) ++ fut) data →
  gives d fut data (decode_data_payload d).
Proof.
  intros Hs Hst [Hty He]. rewrite Hst in He. destruct He as (p & is_ & Hok & Hp & Hw & ->).
  unfold decode_data_payload. run. rewrite reader_ok by done. run. rewrite cap_new, remaining_new, (remain_some _ _ Hp).
  apply payload_cut in Hw as [(Hlt & more & Hm & Hf)|(Hge & more & Hm & Hf)].
  - rewrite (proj2 (Z.ltb_lt _ _)) by done. unfold subtract_payload_len. rewrite Hp, (proj2 (Z.ltb_ge _ _)) by lia. run.
    eexists _, _, (unread (stream d)), (more ++ contents is_). split; [done|]. split; [done|].
    split; [cbn [frames set_stream]; rewrite !data_of_app; unfold data_of; simpl; by rewrite !app_nil_r|].
    split; [rewrite Hm at 1; by rewrite (assoc_L (++))|]. split.
    + split; [exact Hty|]. cbn [stream state clear_buffer set_buffer set_frame]. rewrite Hst. exists more, is_.
      split; [done|]. split; [|done]. simpl. f_equal. rewrite Hm at 1. rewrite len_app. lia.
    + intros _ ->. apply (f_equal len) in Hf. rewrite Hm, len_app in Hlt. rewrite len_app, len_nil in Hf.
      pose proof (len_nonneg (wires is_)). lia.
  - rewrite (proj2 (Z.ltb_ge _ _)) by lia. rewrite reader_slice_ok by (pose proof (len_nonneg p); lia). run.
    replace (ReadableBytes.cap _) with (len more) by (unfold ReadableBytes.cap; simpl; rewrite Hm, len_app; lia).
    destruct (end_frame _ _) as [s' r] eqn:He. run.
    apply (end_frame_gives _ p more fut is_) in He as [He Hr]; [|done..].
    exists r. eexists _, p, (contents is_). split; [done|]. split; [done|].
    split; [|by split]. cbn [frames set_stream]. rewrite data_of_app. f_equal. unfold data_of. simpl.
    by rewrite app_nil_r, Hm, upto_app_exact.
Qed.

Lemma unknown_payload_gives d fut data :
  stream_wf (stream d) → state (stream d) = StUnknownPayload → expects (stream d) (unread (stream d) ++ fut) data →
  gives d fut data (decode_unknown_payload d).
Proof.
  intros Hs Hst [Hty He]. rewrite Hst in He. destruct He as (p & is_ & Hok & Hp & Hw & ->).
  unfold decode_unknown_payload. run. rewrite reader_ok by done. run. rewrite cap_new, (remain_some _ _ Hp).
  apply payload_cut in Hw as [(Hlt & more & Hm & Hf)|(Hge & more & Hm & Hf)].
  - rewrite (proj2 (Z.ltb_lt _ _)) by done. unfold subtract_payload_len. cbn [payload_len clear_buffer set_buffer].
    rewrite Hp, (proj2 (Z.ltb_ge _ _)) by lia. run. apply gives_nothing; [by rewrite data_of_app, app_nil_r| |].
    + split; [exact Hty|]. cbn [state set_frame clear_buffer set_buffer]. rewrite Hst. exists more, is_.
      split; [done|]. split; [|done]. simpl. f_equal. rewrite Hm at 1. rewrite len_app. lia.
    + intros _ ->. apply (f_equal len) in Hf. rewrite Hm, len_app in Hlt. rewrite len_app, len_nil in Hf.
      pose proof (len_nonneg (wires is_)). lia.
  - rewrite (proj2 (Z.ltb_ge _ _)) by lia. rewrite reader_slice_ok by (pose proof (len_nonneg p); lia). run.
    replace (ReadableBytes.cap _) with (len more) by (unfold ReadableBytes.cap; simpl; rewrite Hm, len_app; lia).
    destruct (end_frame _ _) as [s' r] eqn:He. run.
    apply (end_frame_gives _ p more fut is_) in He as [He Hr]; [|done..]. by apply gives_nothing.
Qed.

(** ** Turns and calls *)

(** The outcome of a turn, or of the whole loop, that ends at [d'] having given [out]. *)
Definition gave (d : decoding (Q := Q)) (fut data : bytes) (last : bool) (d' : decoding (Q := Q)) : Prop :=
  stream_wf (stream d') ∧ qpack d' = qpack d ∧
  ∃ out rest, data_of (frames d') = data_of (frames d) ++ out ∧ data = out ++ rest ∧
    expects (stream d') (unread (stream d') ++ fut) rest ∧
    (last = true → fut = [] → state (stream d') = StFrameType ∧ unread (stream d') = []).

Lemma outer_gives x d fut data :
  gives d fut data (x d) → part_ok False carrier (stream d) (x d) →
  ∃ d', (outer x d = (Ok None, d') ∧ gave d fut data false d' ∧ (measure (stream d') < measure (stream d))%nat) ∨
        (outer x d = (Ok (Some (MsgRequest (frames d'), true)), d') ∧ gave d fut data true d').
Proof.
  intros ([] & d' & out & rest & Hx & Hq & Hf & Hd & He & Hp); rewrite Hx; intros [Hw Hm]; exists d'.
  - right. unfold outer. rewrite M_bind_eq, Hx. run. unfold return_by_type. destruct He as [Hty He]. rewrite Hty.
    split; [done|]. split; [done|]. split; [done|]. exists out, rest. repeat (split; [done|]). intros _. by apply Hp.
  - left. unfold outer. rewrite M_bind_eq, Hx. split; [done|]. split; [|done]. split; [done|]. split; [done|].
    exists out, rest. by repeat (split; [done|]).
Qed.

Lemma turn_gives id d fut data :
  stream_wf (stream d) → expects (stream d) (unread (stream d) ++ fut) data →
  ∃ d', (decode_turn id d = (Ok None, d') ∧ gave d fut data false d' ∧ (measure (stream d') < measure (stream d))%nat) ∨
        (decode_turn id d = (Ok (Some (MsgRequest (frames d'), true)), d') ∧ gave d fut data true d').
Proof.
  intros Hs He. pose proof Hs as (_ & _ & _ & Hw). unfold state_wf in Hw. unfold decode_turn. rewrite M_bind_eq. cbn [mgets].
  destruct (state (stream d)) eqn:Hst; try (by destruct He as [_ He]; rewrite Hst in He).
  - apply outer_gives; [by apply frame_type_gives|by apply decode_frame_type_ok].
  - apply outer_gives; [by apply payload_len_gives|]. by apply decode_payload_len_ok; [|apply Hw..].
  - apply outer_gives; [by apply data_payload_gives|by apply decode_data_payload_ok].
  - apply outer_gives; [by apply unknown_payload_gives|by apply decode_unknown_payload_ok].
Qed.

Lemma loop_gives id fuel d fut data :
  stream_wf (stream d) → expects (stream d) (unread (stream d) ++ fut) data → (measure (stream d) < fuel)%nat →
  ∃ d', loop (decode_turn id) fuel d = (Ok (MsgRequest (frames d'), true), d') ∧ gave d fut data true d'.
Proof.
  revert d data. induction fuel as [|fuel IH]; intros d data Hs He Hm; [lia|]. cbn [loop]. rewrite M_bind_eq.
  destruct (turn_gives id d fut data Hs He) as (d1 & [(-> & (Hs1 & Hq1 & out & rest & Hf & -> & He1 & _) & Hm1)|[-> Hg]]);
    [|by exists d1].
  destruct (IH d1 rest Hs1 He1) as (d2 & -> & Hs2 & Hq2 & out2 & rest2 & Hf2 & -> & He2 & Hl); [lia|].
  exists d2. split; [done|]. split; [done|]. split; [congruence|]. exists (out ++ out2), rest2.
  split; [by rewrite Hf2, Hf, (assoc_L (++))|]. split; [by rewrite (assoc_L (++))|done].
Qed.

(** A call: it gives its part of the stream, and keeps what is left. *)
Lemma decode_gives id src (d : frame_decoder (Q := Q)) fut data s :
  default (DecodedH3Stream.new id) (streams d !! id) = s → stream_wf s → bytes_ok src →
  expects s (unread s ++ src ++ fut) data →
  ∃ fs s' rest, decode id src d = (Ok (MsgRequest fs), mk_decoder (qpack_decoder d) (<[id := s']> (streams d))) ∧
    data = data_of fs ++ rest ∧ stream_wf s' ∧ expects s' (unread s' ++ fut) rest ∧
    (fut = [] → state s' = StFrameType ∧ unread s' = []).
Proof.
  intros Hs Hw Hsrc He. unfold decode. rewrite Hs. set (s1 := set_buffer _ _ _).
  assert (Hu : unread s1 = unread s ++ src) by (unfold unread, s1; simpl; apply from_app_le; apply Hw).
  assert (He1 : expects s1 (unread s1 ++ fut) data) by (rewrite Hu, <- (assoc_L (++)); exact He).
  assert (Hw1 : stream_wf s1) by (by apply received_wf).
  destruct (loop_gives id (decode_fuel s1) (mk_decoding s1 [] (qpack_decoder d)) fut data Hw1 He1)
    as (d' & -> & Hw' & Hq & out & rest & Hf & -> & He' & Hl); [apply fuel_enough, Hw1|].
  exists (frames d'), (stream d'), rest. rewrite insert_delete_eq. cbn [qpack] in Hq. rewrite Hq. split; [done|].
  split; [by rewrite Hf|]. split; [done|]. split; [done|]. by apply Hl.
Qed.

(** The bytes of a stream, as they arrive. *)
Fixpoint receive (id : Z) (segs : list bytes) : M (frame_decoder (Q := Q)) H3Error (list StreamMessage) :=
  match segs with
  | [] => mret []
  | src :: segs => x ← decode id src; ms ← receive id segs; mret (x :: ms)
  end.
Definition message_data (x : StreamMessage) : bytes := match x with MsgRequest fs => data_of fs | _ => [] end.

Lemma receive_gives id segs (d : frame_decoder (Q := Q)) data s :
  default (DecodedH3Stream.new id) (streams d !! id) = s → stream_wf s → Forall bytes_ok segs →
  expects s (unread s ++ concat segs) data → segs ≠ [] →
  ∃ ms s', receive id segs d = (Ok ms, mk_decoder (qpack_decoder d) (<[id := s']> (streams d))) ∧
    concat (message_data <$> ms) = data ∧ state s' = StFrameType ∧ unread s' = [].
Proof.
  revert d data s. induction segs as [|src segs IH]; intros d data s Hs Hw Hb He; [done|]. intros _.
  inversion_clear Hb as [|? ? Hsrc Hb'].
  destruct (decode_gives id src d (concat segs) data s Hs Hw Hsrc He) as (fs & s1 & rest & Hd & -> & Hw1 & He1 & Hl).
  cbn [receive]. rewrite M_bind_eq, Hd, M_bind_eq. destruct segs as [|src2 segs].
  - destruct (Hl eq_refl) as [Hst Hu]. exists [MsgRequest fs], s1. split; [done|]. split; [|done]. simpl. f_equal.
    destruct He1 as [_ He1]. rewrite Hst in He1. destruct He1 as (is_ & Hok & Hi & ->). rewrite Hu in Hi.
    destruct is_ as [|i is_]; [done|]. inversion_clear Hok as [|? ? (_ & Hi1 & _)]. apply encodes_len in Hi1.
    change ([] = wires (i :: is_)) in Hi. rewrite wires_cons in Hi. destruct (type_bytes i); [|done]. rewrite len_nil in Hi1. lia.
  - destruct (IH (mk_decoder (qpack_decoder d) (<[id := s1]> (streams d))) rest s1) as (ms & s2 & Hr & Hm & Hfin);
      [cbn [streams]; by rewrite lookup_insert, decide_True by done|done..|].
    rewrite Hr. exists (MsgRequest fs :: ms), s2. cbn [qpack_decoder streams]. rewrite insert_insert_eq.
    split; [done|]. split; [|done]. rewrite fmap_cons. cbn [concat message_data]. by rewrite Hm.
Qed.

(** DATA on an HTTP/3 request stream: the bytes of any sequence of DATA frames and
    frames of unknown types, cut into any pieces, are taken by the decoder without
    error, whatever the state of the other streams and of QPACK; the DATA it returns
    over these calls is the payloads of the DATA frames, in order and complete, and it
    ends at the start of the next frame with nothing left over. *)
Theorem h3_data_delivered id (d : frame_decoder (Q := Q)) is_ segs :
  is_bidirectional id = true → streams d !! id = None → Forall item_ok is_ → Forall bytes_ok segs → segs ≠ [] →
  concat segs = wires is_ →
  ∃ ms s', receive id segs d = (Ok ms, mk_decoder (qpack_decoder d) (<[id := s']> (streams d))) ∧
    concat (message_data <$> ms) = contents is_ ∧ state s' = StFrameType ∧ unread s' = [].
Proof.
  intros Hid Hd Hok Hb Hne Hw. eapply receive_gives; [by rewrite Hd|apply new_wf|done| |done].
  unfold DecodedH3Stream.new. rewrite Hid. split; [done|]. exists is_. by rewrite Hw.
Qed.
End Segments.

(** A DATA frame with a type of two bytes, an unknown frame and another DATA frame. *)
Definition some_items : list item :=
  [mk_item 0 [0x40; 0] [3] [1; 2; 3]; mk_item 0x21 [0x21] [2] [9; 9]; mk_item 0 [0] [0x40; 1] [4]].
Lemma h3_data_delivered_witness :
  Forall item_ok some_items ∧
  ∃ ms s', @receive () no_fields_ops 4 [[0x40]; [0; 3; 1]; []; [2; 3; 0x21; 2; 9]; [9; 0; 0x40; 1; 4]] (mk_decoder () ∅) =
      (Ok ms, mk_decoder () {[4 := s']}) ∧
    concat (message_data <$> ms) = [1; 2; 3; 4] ∧ state s' = StFrameType ∧ unread s' = [].
Proof.
  assert (Hv : ∀ b n k, bytes_ok b → len b = n → (n = 1 ∧ k = 0 ∨ n = 2 ∧ k = 1 ∨ n = 4 ∧ k = 2 ∨ n = 8 ∧ k = 3) →
    Z.shiftr (at_ b 0) 6 = k → encodes b (from_be b - k * 2 ^ (8 * n - 2))) by apply tagged_encodes.
  assert (Hok : Forall item_ok some_items).
  { repeat apply Forall_cons_2; [..|apply Forall_nil_2].
    - split; [by left|]. split; [apply (Hv [0x40; 0] 2 1)|apply (Hv [3] 1 0)]; try done; [|lia| |lia]; repeat constructor; lia.
    - split; [by right|]. split; [apply (Hv [0x21] 1 0)|apply (Hv [2] 1 0)]; try done; [|lia| |lia]; repeat constructor; lia.
    - split; [by left|]. split; [apply (Hv [0] 1 0)|apply (Hv [0x40; 1] 2 1)]; try done; [|lia| |lia]; repeat constructor; lia. }
  split; [exact Hok|].
  apply (@h3_data_delivered () no_fields_ops 4 (mk_decoder () ∅) some_items); [done|done|exact Hok| |done|done].
  repeat constructor; lia.
Defined.
