(* ===== verification/H3FrameEncoder.v ===== *)
(** The HTTP/3 frame encoder ([h3/encoder.rs]): a frame is set on a stream and written
    into buffers, in as many calls as its payload needs.  The QPACK encoder is a
    parameter ([QpackEncoderOps]). *)
From S2P Require Import Prelude Buffers H3Error H3Octets H3Frame.

(** The methods of [QpackEncoder] that the frame encoder calls; [encode] gives the field
    section and the instructions for the encoder stream. *)
Class QpackEncoderOps (Q : Type) := {
  qenc_set_parts : H3Parts.t → Q → Q;
  qenc_encode : Z → M Q H3Error (bytes * bytes);
  qenc_decode_ins : bytes → M Q QpackError ();
  qenc_finish_stream : Z → Q → res QpackError ();
  qenc_set_max_table_capacity : Z → M Q QpackError ();
  qenc_set_max_blocked_stream_size : Z → Q → Q;
}.

Inductive H3EncoderState :=
| EncIdle | EncFrameComplete | EncodingHeadersFrame | EncodingHeadersPayload | EncodingDataFrame | EncodingDataPayload
| EncodingCancelPushFrame | EncodingSettingsFrame | EncodingSettingsPayload | EncodingGoawayFrame | EncodingMaxPushIdFrame.

Module EncHeaders.
Record t := mk { fields : bytes; inst : bytes; repr_offset : Z; inst_offset : Z }.
Definition new (message : bytes * bytes) : t := mk message.1 message.2 0 0.
Definition repr_offset_inc (h : t) (n : Z) : t := mk (fields h) (inst h) (repr_offset h + n) (inst_offset h).
Definition inst_offset_inc (h : t) (n : Z) : t := mk (fields h) (inst h) (repr_offset h) (inst_offset h + n).
Definition remaining_repr (h : t) : Z := len (fields h) - repr_offset h.
Definition remaining_inst (h : t) : Z := len (inst h) - inst_offset h.
End EncHeaders.

Module EncodedH3Stream.
Record t := mk {
  stream_id : Z;
  headers_message : option EncHeaders.t;
  current_frame : option H3Frame.t;
  state : H3EncoderState;
  payload_offset : Z;
}.
Definition new (stream_id : Z) : t := mk stream_id None None EncIdle 0.
Definition set_state (s : t) (st : H3EncoderState) : t := mk (stream_id s) (headers_message s) (current_frame s) st (payload_offset s).
Definition set_current (s : t) (f : H3Frame.t) : t := mk (stream_id s) (headers_message s) (Some f) (state s) (payload_offset s).
Definition set_message (s : t) (h : option EncHeaders.t) : t := mk (stream_id s) h (current_frame s) (state s) (payload_offset s).
Definition set_offset (s : t) (n : Z) : t := mk (stream_id s) (headers_message s) (current_frame s) (state s) n.
End EncodedH3Stream.

Section Encoder.
Context {Q : Type} `{!QpackEncoderOps Q}.

(** A call of [encode]: the stream, the two buffers it fills, the QPACK encoder. *)
Record encoding := mk_encoding { est : EncodedH3Stream.t; frame_buf : bytes; inst_buf : bytes; eqpack : Q }.
Abbreviation m := (M encoding H3Error).

Definition put_est (f : EncodedH3Stream.t → EncodedH3Stream.t) : m () :=
  mmodify (λ e, mk_encoding (f (est e)) (frame_buf e) (inst_buf e) (eqpack e)).
Definition set_state (st : H3EncoderState) : m () := put_est (λ s, EncodedH3Stream.set_state s st).

(** [encode_var_integer(v, &mut frame_buf[n..])] *)
Definition put_var (n v : Z) : m Z := λ e,
  if len (frame_buf e) <? n then (Panic, e)
  else match encode_var_integer v (from n (frame_buf e)) with
  | Ok (size, b) => (Ok size, mk_encoding (est e) (upto n (frame_buf e) ++ b) (inst_buf e) (eqpack e))
  | Err x => (Err x, e)
  | Panic => (Panic, e)
  end.
(** [frame_buf[n..n + data.len()].copy_from_slice(data)], and the same of [inst_buf]. *)
Definition put_bytes (n : Z) (data : bytes) : m () := λ e,
  if len (frame_buf e) <? n + len data then (Panic, e)
  else (Ok (), mk_encoding (est e) (upto n (frame_buf e) ++ data ++ from (n + len data) (frame_buf e)) (inst_buf e) (eqpack e)).
Definition put_inst (data : bytes) : m () := λ e,
  if len (inst_buf e) <? len data then (Panic, e)
  else (Ok (), mk_encoding (est e) (frame_buf e) (data ++ from (len data) (inst_buf e)) (eqpack e)).

Definition current_payload : m H3Payload.t :=
  s ← mgets est;
  mlift (match EncodedH3Stream.current_frame s with
         | Some f => Ok (H3Frame.payload f) | None => Err (H3Encode NoCurrentFrame) end).
Definition wrong_type {A} : m A := mfail (H3Encode WrongTypeFrame).

Definition encode_frame_type : m Z :=
  s ← mgets est;
  match EncodedH3Stream.current_frame s with
  | Some f => put_var 0 (H3Frame.ty f)
  | None => mfail (H3Encode NoCurrentFrame)
  end.

Definition encode_data_len (n : Z) : m Z :=
  p ← current_payload;
  match p with H3Payload.Data d => put_var n (len d) | _ => wrong_type end.

Definition encode_data_payload (n : Z) : m Z :=
  p ← current_payload;
  match p with
  | H3Payload.Data data =>
      s ← mgets est;
      buf ← mgets frame_buf;
      let buf_size := len buf - n in
      let off := EncodedH3Stream.payload_offset s in
      let remaining := len data - off in
      if remaining <? 0 then mpanic
      else if remaining <=? buf_size then
        _ ← put_bytes n (from off data);
        _ ← put_est (λ s, EncodedH3Stream.set_state (EncodedH3Stream.set_offset s 0) EncFrameComplete);
        mret remaining
      else
        _ ← put_bytes n (slice off (off + buf_size) data);
        _ ← put_est (λ s, EncodedH3Stream.set_offset s (off + buf_size));
        mret buf_size
  | _ => wrong_type
  end.

(** [octets::varint_len(v)], [unreachable!] from 2^62 on. *)
Definition var_len (v : Z) : res H3Error Z := unwrap (varint_len v).

(** CANCEL_PUSH, GOAWAY and MAX_PUSH_ID: the size of the identifier is returned. *)
Definition encode_id (n id : Z) : m Z :=
  l ← mlift (var_len id);
  size ← put_var n l;
  _ ← set_state EncFrameComplete;
  put_var (n + size) id.
Definition encode_cancel_push (n : Z) : m Z :=
  p ← current_payload; match p with H3Payload.CancelPush id => encode_id n id | _ => wrong_type end.
Definition encode_goaway (n : Z) : m Z :=
  p ← current_payload; match p with H3Payload.Goaway id => encode_id n id | _ => wrong_type end.
Definition encode_max_push_id (n : Z) : m Z :=
  p ← current_payload; match p with H3Payload.MaxPushId id => encode_id n id | _ => wrong_type end.

(** The settings that are present, in the order they are written. *)
Definition own_pairs (s : H3Settings.t) : list (Z * Z) :=
  let pair key (v : option Z) := match v with Some v => [(key, v)] | None => [] end in
  pair SETTING_MAX_FIELD_SECTION_SIZE (H3Settings.max_field_section_size s)
  ++ pair SETTING_ENABLE_CONNECT_PROTOCOL (H3Settings.connect_protocol_enabled s)
  ++ pair SETTING_QPACK_MAX_TABLE_CAPACITY (H3Settings.qpack_max_table_capacity s)
  ++ pair SETTING_QPACK_BLOCKED_STREAMS (H3Settings.qpack_blocked_streams s)
  ++ pair SETTING_H3_DATAGRAM (H3Settings.h3_datagram s).
Definition more_pairs (s : H3Settings.t) : list (Z * Z) := default [] (H3Settings.additional s).

Fixpoint pairs_len (l : list (Z * Z)) : res H3Error Z :=
  match l with
  | [] => Ok 0
  | (key, value) :: l => a ← var_len key; b ← var_len value; c ← pairs_len l; Ok (a + b + c)
  end.
Definition encode_settings_len (n : Z) : m Z :=
  p ← current_payload;
  match p with
  | H3Payload.Settings s =>
      a ← mlift (pairs_len (own_pairs s));
      if 50 <? len (more_pairs s) then mfail (H3Encode TooManySettings)
      else b ← mlift (pairs_len (more_pairs s)); put_var n (a + b)
  | _ => wrong_type
  end.

Fixpoint put_pairs (n written : Z) (l : list (Z * Z)) : m Z :=
  match l with
  | [] => mret written
  | (key, value) :: l =>
      a ← put_var (n + written) key;
      b ← put_var (n + written + a) value;
      put_pairs n (written + a + b) l
  end.
Definition encode_settings_payload (n : Z) : m Z :=
  p ← current_payload;
  match p with
  | H3Payload.Settings s => _ ← set_state EncFrameComplete; put_pairs n 0 (own_pairs s ++ more_pairs s)
  | _ => wrong_type
  end.

Definition encode_headers_repr (n : Z) : m Z :=
  s ← mgets est;
  match EncodedH3Stream.headers_message s with
  | None => mret 0
  | Some h =>
      buf ← mgets frame_buf;
      let cap := len buf - n in
      let off := EncHeaders.repr_offset h in
      let repr_size := EncHeaders.remaining_repr h in
      if repr_size <? 0 then mpanic
      else
        let size := if repr_size <=? cap then repr_size else cap in
        _ ← put_bytes n (slice off (off + size) (EncHeaders.fields h));
        _ ← put_est (λ s, EncodedH3Stream.set_message s (Some (EncHeaders.repr_offset_inc h size)));
        mret size
  end.

Definition encode_qpack_inst : m Z :=
  s ← mgets est;
  match EncodedH3Stream.headers_message s with
  | None => mret 0
  | Some h =>
      buf ← mgets inst_buf;
      let cap := len buf in
      let off := EncHeaders.inst_offset h in
      let inst_size := EncHeaders.remaining_inst h in
      if inst_size <? 0 then mpanic
      else
        let size := if inst_size <=? cap then inst_size else cap in
        _ ← put_inst (slice off (off + size) (EncHeaders.inst h));
        _ ← put_est (λ s, EncodedH3Stream.set_message s (Some (EncHeaders.inst_offset_inc h size)));
        mret size
  end.

Definition encode_headers_repr_and_inst (n : Z) : m (Z * Z) :=
  repr_written ← encode_headers_repr n;
  inst_written ← encode_qpack_inst;
  s ← mgets est;
  _ ← (match EncodedH3Stream.headers_message s with
       | Some h =>
           if (EncHeaders.remaining_repr h =? 0) && (EncHeaders.remaining_inst h =? 0) then
             put_est (λ s, EncodedH3Stream.set_message (EncodedH3Stream.set_state s EncFrameComplete) None)
           else mret ()
       | None => mret ()
       end);
  mret (repr_written, inst_written).

(** A call into the QPACK encoder. *)
Definition on_qenc {A} (f : M Q H3Error A) : m A := λ e,
  let '(r, q) := f (eqpack e) in (r, mk_encoding (est e) (frame_buf e) (inst_buf e) q).

Definition encode_headers_with_qpack (n : Z) : m (Z * Z) :=
  s ← mgets est;
  match EncodedH3Stream.headers_message s with
  | None =>
      message ← on_qenc (qenc_encode (EncodedH3Stream.stream_id s));
      _ ← put_est (λ s, EncodedH3Stream.set_message s (Some (EncHeaders.new message)));
      size ← put_var n (len message.1);
      '(frame_size, inst_size) ← encode_headers_repr_and_inst (n + size);
      mret (frame_size + size, inst_size)
  | Some _ => encode_headers_repr_and_inst n
  end.
Definition encode_headers_payload (n : Z) : m (Z * Z) :=
  p ← current_payload;
  match p with H3Payload.Headers _ _ => encode_headers_with_qpack n | _ => wrong_type end.

(** The loop of [encode]; the sizes written. *)
Definition sized (n : Z) (x : m Z) : m (Z * Z) := size ← x; mret (size + n, 0).
Fixpoint encode_loop (fuel : nat) (frame_bytes : Z) : m (Z * Z) :=
  match fuel with
  | O => mpanic
  | S fuel =>
      buf ← mgets frame_buf;
      if len buf <=? frame_bytes then mret (frame_bytes, 0)
      else
        s ← mgets est;
        match EncodedH3Stream.state s with
        | EncIdle | EncFrameComplete => mret (frame_bytes, 0)
        | EncodingHeadersFrame =>
            size ← encode_frame_type;
            _ ← set_state EncodingHeadersPayload;
            encode_loop fuel (frame_bytes + size)
        | EncodingHeadersPayload =>
            '(payload, inst) ← encode_headers_payload frame_bytes;
            mret (payload + frame_bytes, inst)
        | EncodingDataFrame =>
            size ← encode_frame_type;
            l ← encode_data_len (frame_bytes + size);
            _ ← set_state EncodingDataPayload;
            encode_loop fuel (frame_bytes + size + l)
        | EncodingDataPayload => sized frame_bytes (encode_data_payload frame_bytes)
        | EncodingCancelPushFrame =>
            size ← encode_frame_type; sized (frame_bytes + size) (encode_cancel_push (frame_bytes + size))
        | EncodingSettingsFrame =>
            size ← encode_frame_type;
            l ← encode_settings_len (frame_bytes + size);
            _ ← set_state EncodingSettingsPayload;
            encode_loop fuel (frame_bytes + size + l)
        | EncodingSettingsPayload => sized frame_bytes (encode_settings_payload frame_bytes)
        | EncodingGoawayFrame =>
            size ← encode_frame_type; sized (frame_bytes + size) (encode_goaway (frame_bytes + size))
        | EncodingMaxPushIdFrame =>
            size ← encode_frame_type; sized (frame_bytes + size) (encode_max_push_id (frame_bytes + size))
        end
  end.

Record frame_encoder := mk_encoder { qpack_encoder : Q; enc_streams : gmap Z EncodedH3Stream.t }.

Definition set_frame (stream_id : Z) (frame : H3Frame.t) : M frame_encoder H3Error () := λ e,
  let s := default (EncodedH3Stream.new stream_id) (enc_streams e !! stream_id) in
  let keep s q := mk_encoder q (<[stream_id := s]> (enc_streams e)) in
  match EncodedH3Stream.state s with
  | EncIdle | EncFrameComplete =>
      let s := EncodedH3Stream.set_current s frame in
      let go st := (Ok (), keep (EncodedH3Stream.set_state s st) (qpack_encoder e)) in
      let ft := H3Frame.ty frame in
      if ft =? HEADERS_FRAME_TYPE then
        match H3Frame.payload frame with
        | H3Payload.Headers parts _ =>
            (Ok (), keep (EncodedH3Stream.set_state s EncodingHeadersFrame) (qenc_set_parts parts (qpack_encoder e)))
        | _ => (Ok (), keep s (qpack_encoder e))
        end
      else if ft =? DATA_FRAME_TYPE then go EncodingDataFrame
      else if ft =? CANCEL_PUSH_FRAME_TYPE then go EncodingCancelPushFrame
      else if ft =? SETTINGS_FRAME_TYPE then go EncodingSettingsFrame
      else if ft =? GOAWAY_FRAME_TYPE then go EncodingGoawayFrame
      else if ft =? MAX_PUSH_ID_FRAME_TYPE then go EncodingMaxPushIdFrame
      else (Err (H3Encode UnknownFrameType), keep s (qpack_encoder e))
  | _ => (Err (H3Encode RepeatSetFrame), keep s (qpack_encoder e))
  end.

(** [encode]: the sizes, and the buffers as they are left. *)
Definition encode (stream_id : Z) (fbuf ibuf : bytes) :
    M frame_encoder H3Error (Z * Z * bytes * bytes) := λ e,
  if len fbuf <? 1024 then (Err (H3Serialize BufferTooShort), e)
  else match enc_streams e !! stream_id with
  | None => (Err (H3Serialize H3InternalError), e)
  | Some s =>
      let '(r, x) := encode_loop 3 0 (mk_encoding s fbuf ibuf (qpack_encoder e)) in
      let e := mk_encoder (eqpack x) (<[stream_id := est x]> (enc_streams e)) in
      (match r with
       | Ok (f, i) => Ok (f, i, frame_buf x, inst_buf x)
       | Err er => Err er
       | Panic => Panic
       end, e)
  end.

(** Settings of the QPACK encoder, and its answers. *)
Definition on_encoder {A} (wrap : QpackError → H3Error) (f : M Q QpackError A) : M frame_encoder H3Error A := λ e,
  match f (qpack_encoder e) with
  | (Ok a, q) => (Ok a, mk_encoder q (enc_streams e))
  | (Err x, q) => (Err (wrap x), mk_encoder q (enc_streams e))
  | (Panic, q) => (Panic, mk_encoder q (enc_streams e))
  end.
Definition set_max_table_capacity (max_cap : Z) : M frame_encoder H3Error () :=
  on_encoder (λ x, H3Encode (EncodeQpackError x)) (qenc_set_max_table_capacity max_cap).
Definition set_max_blocked_stream_size (max_blocked : Z) : M frame_encoder H3Error () :=
  mmodify (λ e, mk_encoder (qenc_set_max_blocked_stream_size max_blocked (qpack_encoder e)) (enc_streams e)).
Definition decode_remote_inst (buf : bytes) : M frame_encoder H3Error () :=
  on_encoder (λ x, H3Decode (DecodeQpackError x)) (qenc_decode_ins buf).
Definition enc_finish_stream (id : Z) : M frame_encoder H3Error () := λ e,
  let removed := mk_encoder (qpack_encoder e) (delete id (enc_streams e)) in
  if is_bidirectional id then
    match qenc_finish_stream id (qpack_encoder e) with
    | Ok _ => (Ok (), removed)
    | Err x => (Err (H3Encode (EncodeQpackError x)), e)
    | Panic => (Panic, e)
    end
  else (Ok (), removed).
End Encoder.
