(* ===== verification/H3FrameRoundtrip.v ===== *)
(** HTTP/3 frames written and read back: what the frame encoder writes for DATA and
    SETTINGS frames, through buffers of any lengths it accepts, and that the stream
    decoder reads it as the same frames. *)
From S2P Require Import Prelude Buffers H3Error H3Octets H3Frame H3FrameDecoder H3DecoderSafety H3FrameSegments H3FrameEncoder.

Section Encoding.
Context {Q : Type} `{!QpackEncoderOps Q}.
Implicit Types (e : encoding (Q := Q)) (buf : bytes).

Definition with_buf e buf : encoding (Q := Q) := mk_encoding (est e) buf (inst_buf e) (eqpack e).
Definition with_est e s : encoding (Q := Q) := mk_encoding s (frame_buf e) (inst_buf e) (eqpack e).

(** A buffer of the same length, with [w] written in front. *)
Definition written buf buf' (w : bytes) : Prop := len buf' = len buf ∧ upto (len w) buf' = w.

Lemma written_nil buf : written buf buf [].
Proof. split; [done|]. by rewrite upto_0. Qed.

(** Integers and bytes are written behind what is there. *)
Lemma overwrite buf buf' (w d : bytes) :
  written buf buf' w → len w + len d ≤ len buf →
  written buf (upto (len w) buf' ++ d ++ from (len w + len d) buf') (w ++ d).
Proof.
  intros [Hl Hw] Hd. pose proof (len_nonneg w). pose proof (len_nonneg d). unfold written. rewrite Hw. split.
  - rewrite !len_app, len_from by lia. lia.
  - rewrite (assoc_L (++)). by rewrite upto_app_exact.
Qed.

Lemma put_var_ok e buf w v :
  written buf (frame_buf e) w → 0 ≤ v < 2 ^ 62 → len w + len (varint v) ≤ len buf →
  ∃ buf', put_var (len w) v e = (Ok (len (varint v)), with_buf e buf') ∧ written buf buf' (w ++ varint v).
Proof.
  intros Hw Hv Hl. pose proof Hw as [Hlen _]. pose proof (len_nonneg w). pose proof (len_nonneg (varint v)).
  unfold put_var. rewrite (proj2 (Z.ltb_ge _ _)) by lia. rewrite encode_var_ok by (done || (rewrite len_from by lia; lia)).
  eexists. split; [done|]. rewrite from_from by lia. by apply overwrite.
Qed.

Lemma put_bytes_ok e buf w d :
  written buf (frame_buf e) w → len w + len d ≤ len buf →
  ∃ buf', put_bytes (len w) d e = (Ok (), with_buf e buf') ∧ written buf buf' (w ++ d).
Proof.
  intros Hw Hl. pose proof Hw as [Hlen _]. unfold put_bytes. rewrite (proj2 (Z.ltb_ge _ _)) by lia.
  eexists. split; [done|]. by apply overwrite.
Qed.

Lemma varint_len_bound v : 0 ≤ v < 2 ^ 62 → 1 ≤ len (varint v) ≤ 8.
Proof. intros Hv. destruct (varint_spec v Hv) as [He _]. by apply encodes_len in He. Qed.

(** ** DATA *)

Definition data_of_stream (s : EncodedH3Stream.t) (data : bytes) : Prop :=
  EncodedH3Stream.current_frame s = Some (H3Frame.mk DATA_FRAME_TYPE (H3Payload.Data data)) ∧ len data < 2 ^ 62.
(** What a stream that sends [data] still has to write. *)
Definition pending (s : EncodedH3Stream.t) (data w : bytes) : Prop :=
  data_of_stream s data ∧
  match EncodedH3Stream.state s with
  | EncodingDataFrame => EncodedH3Stream.payload_offset s = 0 ∧ w = varint 0 ++ varint (len data) ++ data
  | EncodingDataPayload => 0 ≤ EncodedH3Stream.payload_offset s < len data ∧ w = from (EncodedH3Stream.payload_offset s) data
  | EncFrameComplete => EncodedH3Stream.payload_offset s = 0 ∧ w = []
  | _ => False
  end.

Lemma data_payload_written e buf h data w :
  written buf (frame_buf e) h → len h ≤ len buf →
  data_of_stream (est e) data → EncodedH3Stream.state (est e) = EncodingDataPayload → 0 ≤ EncodedH3Stream.payload_offset (est e) ≤ len data →
  w = from (EncodedH3Stream.payload_offset (est e)) data →
  ∃ buf' s', encode_data_payload (len h) e = (Ok (len (upto (len buf - len h) w)), with_est (with_buf e buf') s') ∧
    written buf buf' (h ++ upto (len buf - len h) w) ∧ pending s' data (from (len buf - len h) w).
Proof.
  intros Hh Hlh [Hf Hd] Hst Ho ->. pose proof Hh as [Hlen _]. set (off := EncodedH3Stream.payload_offset (est e)) in *.
  assert (Hlw : len (from off data) = len data - off) by (rewrite len_from by lia; lia).
  unfold encode_data_payload, current_payload. rewrite !M_bind_eq. cbn [mgets]. unfold mlift. rewrite Hf. cbn [H3Frame.payload].
  rewrite M_bind_eq. cbn [mgets]. rewrite M_bind_eq. cbn [mgets]. fold off. rewrite Hlen, (proj2 (Z.ltb_ge _ 0)) by lia.
  destruct (Z.leb_spec (len data - off) (len buf - len h)) as [Hle|Hgt].
  - rewrite (upto_all (len buf - len h)), (from_all (len buf - len h)) by lia. rewrite M_bind_eq.
    destruct (put_bytes_ok e buf h (from off data) Hh) as (buf' & -> & Hw); [lia|].
    exists buf'. eexists. split; [by rewrite Hlw|]. split; [done|]. split; [by split|]. by split.
  - assert (Hsl : slice off (off + (len buf - len h)) data = upto (len buf - len h) (from off data))
      by (apply slice_upto_from; lia).
    rewrite Hsl, M_bind_eq. assert (Hup : len (upto (len buf - len h) (from off data)) = len buf - len h)
      by (rewrite len_upto by lia; lia).
    destruct (put_bytes_ok e buf h (upto (len buf - len h) (from off data)) Hh) as (buf' & -> & Hw); [lia|].
    exists buf'. eexists. split; [by rewrite Hup|]. split; [done|]. split; [by split|].
    cbn [EncodedH3Stream.state EncodedH3Stream.set_offset est with_buf]. rewrite Hst. simpl. split; [lia|].
    apply from_from; lia.
Qed.

Lemma loop_data_payload fuel e buf h data :
  written buf (frame_buf e) h → len h < len buf →
  data_of_stream (est e) data → EncodedH3Stream.state (est e) = EncodingDataPayload → 0 ≤ EncodedH3Stream.payload_offset (est e) ≤ len data →
  let w := h ++ from (EncodedH3Stream.payload_offset (est e)) data in
  ∃ buf' s', encode_loop (S fuel) (len h) e = (Ok (len (upto (len buf) w), 0), with_est (with_buf e buf') s') ∧
    written buf buf' (upto (len buf) w) ∧ pending s' data (from (len buf) w).
Proof.
  intros Hh Hlt Hd Hst Ho w. pose proof Hh as [Hlen _].
  destruct (data_payload_written e buf h data _ Hh ltac:(lia) Hd Hst Ho eq_refl) as (buf' & s' & He & Hw & Hp).
  assert (Hup : upto (len buf) w = h ++ upto (len buf - len h) (from (EncodedH3Stream.payload_offset (est e)) data))
    by (apply upto_app_ge; lia).
  assert (Hfr : from (len buf) w = from (len buf - len h) (from (EncodedH3Stream.payload_offset (est e)) data))
    by (apply from_app_ge; lia).
  rewrite Hup, Hfr. exists buf', s'. split; [|by split].
  cbn [encode_loop]. rewrite M_bind_eq. cbn [mgets]. rewrite Hlen, (proj2 (Z.leb_gt _ _)) by lia.
  rewrite M_bind_eq. cbn [mgets]. rewrite Hst. unfold sized. rewrite M_bind_eq, He. unfold mret, M_ret.
  rewrite len_app. do 3 f_equal. lia.
Qed.

Lemma loop_data e buf data w :
  written buf (frame_buf e) [] → 1024 ≤ len buf → pending (est e) data w →
  ∃ buf' s', encode_loop 3 0 e = (Ok (len (upto (len buf) w), 0), with_est (with_buf e buf') s') ∧
    written buf buf' (upto (len buf) w) ∧ pending s' data (from (len buf) w).
Proof.
  intros Hb Hlen [Hd Hp]. pose proof Hb as [Hl _]. destruct (EncodedH3Stream.state (est e)) eqn:Hst; try done.
  - destruct Hp as [Ho ->]. exists (frame_buf e), (est e). unfold upto, from. rewrite take_nil, drop_nil.
    split; [|by split; [|split; [|rewrite Hst]]]. cbn [encode_loop]. rewrite M_bind_eq. cbn [mgets].
    rewrite (proj2 (Z.leb_gt _ _)) by lia. rewrite M_bind_eq. cbn [mgets]. rewrite Hst. by destruct e.
  - destruct Hp as [Ho ->]. pose proof Hd as [Hf Hbd]. pose proof (len_nonneg data). change (2 ^ 62) with 4611686018427387904 in Hbd.
    pose proof (varint_len_bound 0) as Hl0. pose proof (varint_len_bound (len data)) as Hl1. change (2 ^ 62) with 4611686018427387904 in *.
    cbn [encode_loop]. rewrite M_bind_eq. cbn [mgets]. rewrite (proj2 (Z.leb_gt _ _)) by lia.
    rewrite M_bind_eq. cbn [mgets]. rewrite Hst. rewrite M_bind_eq. unfold encode_frame_type. rewrite M_bind_eq. cbn [mgets].
    rewrite Hf. cbn [H3Frame.ty].
    destruct (put_var_ok e buf [] DATA_FRAME_TYPE Hb) as (b1 & Hp1 & Hw1); [by cbv|rewrite len_nil; unfold DATA_FRAME_TYPE; lia|].
    rewrite len_nil in Hp1. rewrite Hp1. unfold DATA_FRAME_TYPE in Hw1. rewrite M_bind_eq. unfold encode_data_len, current_payload.
    rewrite !M_bind_eq. cbn [mgets est with_buf]. unfold mlift. rewrite Hf. cbn [H3Frame.payload].
    destruct (put_var_ok (with_buf e b1) buf (varint 0) (len data)) as (b2 & Hp2 & Hw2);
      [exact Hw1|change (2 ^ 62) with 4611686018427387904; lia|lia|].
    change (0 + len (varint DATA_FRAME_TYPE)) with (len (varint 0)). rewrite Hp2, M_bind_eq. unfold set_state, put_est, mmodify.
    rewrite <- len_app.
    set (e2 := mk_encoding _ _ _ _). destruct (loop_data_payload 1 e2 buf (varint 0 ++ varint (len data)) data) as (b3 & s3 & Hl3 & Hw3 & Hp3).
    + exact Hw2.
    + rewrite len_app. lia.
    + exact Hd.
    + done.
    + simpl. lia.
    + change (EncodedH3Stream.payload_offset (est e2)) with (EncodedH3Stream.payload_offset (est e)) in *.
      rewrite Ho, (from_0 0) in * by lia. rewrite <- (assoc_L (++)) in *. exists b3, s3. by split.
  - destruct Hp as [Ho ->]. apply (loop_data_payload 2 e buf [] data); try done; [rewrite len_nil|]; lia.
Qed.

(** A call: it fills its buffer with the front of what is pending. *)
Lemma encode_data_ok id (e : frame_encoder (Q := Q)) s buf ibuf data w :
  enc_streams e !! id = Some s → pending s data w → 1024 ≤ len buf →
  ∃ buf' s', encode id buf ibuf e =
      (Ok (len (upto (len buf) w), 0, buf', ibuf), mk_encoder (qpack_encoder e) (<[id := s']> (enc_streams e))) ∧
    upto (len (upto (len buf) w)) buf' = upto (len buf) w ∧ pending s' data (from (len buf) w).
Proof.
  intros Hs Hp Hb. unfold encode. rewrite (proj2 (Z.ltb_ge _ _)), Hs by lia.
  destruct (loop_data (mk_encoding s buf ibuf (qpack_encoder e)) buf data w) as (buf' & s' & -> & [_ Hw] & Hp');
    [apply written_nil|lia|exact Hp|]. by exists buf', s'.
Qed.

(** Sending a frame: it is set, and [encode] is called with one buffer after the other;
    what each call writes is sent on. *)
Fixpoint drain (id : Z) (bufs : list bytes) : M (frame_encoder (Q := Q)) H3Error bytes :=
  match bufs with
  | [] => mret []
  | buf :: bufs =>
      '(n, _, b, _) ← encode id buf [];
      rest ← drain id bufs;
      mret (upto n b ++ rest)
  end.
Definition data_frame_of (data : bytes) : H3Frame.t := H3Frame.mk DATA_FRAME_TYPE (H3Payload.Data data).
Fixpoint send_data (id : Z) (l : list (bytes * list bytes)) : M (frame_encoder (Q := Q)) H3Error bytes :=
  match l with
  | [] => mret []
  | (data, bufs) :: l =>
      _ ← set_frame id (data_frame_of data);
      out ← drain id bufs;
      rest ← send_data id l;
      mret (out ++ rest)
  end.

Lemma drain_data id bufs (e : frame_encoder (Q := Q)) s data w :
  enc_streams e !! id = Some s → pending s data w → Forall (λ b, 1024 ≤ len b) bufs →
  len w ≤ zsum (len <$> bufs) →
  ∃ s', drain id bufs e = (Ok w, mk_encoder (qpack_encoder e) (<[id := s']> (enc_streams e))) ∧ pending s' data [].
Proof.
  revert e s w. induction bufs as [|buf bufs IH]; intros e s w Hs Hp Hb Hl.
  - unfold zsum in Hl. simpl in Hl. assert (w = []) as -> by (apply len_0_nil; pose proof (len_nonneg w); lia).
    exists s. rewrite insert_id by done. by destruct e.
  - inversion_clear Hb as [|? ? Hb1 Hb2]. unfold zsum in Hl. rewrite fmap_cons in Hl. cbn [foldr] in Hl. fold (zsum (len <$> bufs)) in Hl.
    destruct (encode_data_ok id e s buf [] data w Hs Hp Hb1) as (buf' & s1 & He & Hu & Hp1).
    cbn [drain]. rewrite M_bind_eq, He, M_bind_eq, Hu.
    destruct (IH (mk_encoder (qpack_encoder e) (<[id := s1]> (enc_streams e))) s1 (from (len buf) w)) as (s2 & Hd & Hp2);
      [cbn [enc_streams]; by rewrite lookup_insert, decide_True by done|done|done|rewrite len_from by lia|].
    { assert (0 ≤ zsum (len <$> bufs)); [|lia]. apply zsum_nonneg, Forall_fmap. apply Forall_forall. intros x _. apply len_nonneg. }
    rewrite Hd. exists s2. cbn [qpack_encoder enc_streams]. rewrite insert_insert_eq. split; [|done].
    unfold mret, M_ret. by rewrite upto_from.
Qed.

(** A stream that can take the next frame. *)
Definition enc_idle (s : EncodedH3Stream.t) : Prop :=
  (EncodedH3Stream.state s = EncIdle ∨ EncodedH3Stream.state s = EncFrameComplete) ∧ EncodedH3Stream.payload_offset s = 0.
Lemma pending_nothing s data : pending s data [] → enc_idle s.
Proof.
  intros [_ Hp]. unfold enc_idle. destruct (EncodedH3Stream.state s); try done.
  - split; [by right|apply Hp].
  - by destruct Hp.
  - destruct Hp as [Ho Hw]. apply (f_equal len) in Hw. rewrite len_from, len_nil in Hw by lia. lia.
Qed.
Definition send_ok (x : bytes * list bytes) : Prop :=
  Forall (λ b, 1024 ≤ len b) x.2 ∧ len x.1 < 2 ^ 62 ∧ len (varint 0) + len (varint (len x.1)) + len x.1 ≤ zsum (len <$> x.2).
(** The frame of a payload, as an item of a stream. *)
Definition data_item (data : bytes) : item := mk_item 0 (varint 0) (varint (len data)) data.

Lemma data_item_ok data : len data < 2 ^ 62 → item_ok (data_item data).
Proof.
  intros Hd. split; [by left|]. split; apply varint_spec; [by cbv|]. split; [apply len_nonneg|done].
Qed.

Lemma send_data_ok id l (e : frame_encoder (Q := Q)) :
  enc_idle (default (EncodedH3Stream.new id) (enc_streams e !! id)) → Forall send_ok l →
  ∃ e' : frame_encoder (Q := Q), send_data id l e = (Ok (wires (data_item <$> l.*1)), e') ∧
    enc_idle (default (EncodedH3Stream.new id) (enc_streams e' !! id)).
Proof.
  revert e. induction l as [|[data bufs] l IH]; intros e Hi Hl; [by eexists|].
  inversion_clear Hl as [|? ? (Hb & Hd & Hz) Hl']. cbn [fst snd] in *.
  cbn [send_data]. rewrite M_bind_eq. set (s := default _ _) in *.
  set (s1 := EncodedH3Stream.set_state (EncodedH3Stream.set_current s (data_frame_of data)) EncodingDataFrame).
  assert (Hset : set_frame id (data_frame_of data) e =
    (Ok (), mk_encoder (qpack_encoder e) (<[id := s1]> (enc_streams e)))).
  { unfold set_frame. fold s. destruct Hi as [[Hst|Hst] _]; rewrite Hst; done. }
  rewrite Hset, M_bind_eq.
  destruct (drain_data id bufs (mk_encoder (qpack_encoder e) (<[id := s1]> (enc_streams e))) s1 data
    (varint 0 ++ varint (len data) ++ data)) as (s2 & Hdr & Hp2).
  - cbn [enc_streams]. by rewrite lookup_insert, decide_True by done.
  - split; [by split|]. split; [apply Hi|done].
  - done.
  - rewrite !len_app. lia.
  - rewrite Hdr, M_bind_eq. cbn [qpack_encoder enc_streams]. rewrite insert_insert_eq.
    destruct (IH (mk_encoder (qpack_encoder e) (<[id := s2]> (enc_streams e)))) as (e' & -> & Hi'); [|done|].
    + cbn [enc_streams]. rewrite lookup_insert, decide_True by done. exact (pending_nothing s2 data Hp2).
    + exists e'. split; [done|exact Hi'].
Qed.

Lemma contents_data ds : contents (data_item <$> ds) = concat ds.
Proof. induction ds as [|d ds IH]; [done|]. change (d ++ contents (data_item <$> ds) = d ++ concat ds). by rewrite IH. Qed.

(** C27: DATA over HTTP/3, from one end to the other: payloads set on a stream one after
    the other and written through buffers of any lengths of at least 1024 bytes (all
    the encoder accepts) that have room for them, then cut into any pieces on the way,
    are received as exactly these payloads, in order, by a decoder in any state, on any
    request stream it has not seen; both ends are ready for the next frame. *)
Theorem h3_data_roundtrip {QD} `{!QpackDecoderOps QD} id l segs (e : frame_encoder (Q := Q)) (d : frame_decoder (Q := QD)) :
  enc_idle (default (EncodedH3Stream.new id) (enc_streams e !! id)) → Forall send_ok l →
  is_bidirectional id = true → streams d !! id = None → segs ≠ [] → Forall bytes_ok segs →
  ∃ out (e' : frame_encoder (Q := Q)), send_data id l e = (Ok out, e') ∧ enc_idle (default (EncodedH3Stream.new id) (enc_streams e' !! id)) ∧
    (concat segs = out →
     ∃ ms s, receive id segs d = (Ok ms, mk_decoder (qpack_decoder d) (<[id := s]> (streams d))) ∧
       concat (message_data <$> ms) = concat l.*1 ∧
       DecodedH3Stream.state s = StFrameType ∧ unread s = []).
Proof.
  intros Hi Hl Hid Hd Hne Hb. destruct (send_data_ok id l e Hi Hl) as (e' & He & Hi'). exists (wires (data_item <$> l.*1)), e'.
  split; [exact He|]. split; [exact Hi'|]. intros Hs. rewrite <- contents_data.
  eapply receive_gives; [by rewrite Hd|apply new_wf|done| |done].
  unfold DecodedH3Stream.new. rewrite Hid. split; [done|]. exists (data_item <$> l.*1). split; [|by rewrite Hs].
  apply Forall_fmap, Forall_fmap. revert Hl. apply Forall_impl. intros x (_ & Hx & _). by apply data_item_ok.
Qed.
End Encoding.

(** A QPACK encoder that writes empty field sections. *)
Definition no_fields_enc : QpackEncoderOps () := {|
  qenc_set_parts := λ _ q, q;
  qenc_encode := λ _, mret ([], []);
  qenc_decode_ins := λ _, mret ();
  qenc_finish_stream := λ _ _, Ok ();
  qenc_set_max_table_capacity := λ _, mret ();
  qenc_set_max_blocked_stream_size := λ _ q, q;
|}.
Definition some_sends : list (bytes * list bytes) :=
  [([1; 2; 3], [replicate 1024 7]); ([], [replicate 1024 7; replicate 2000 0]); ([4], [replicate 1024 7])].
Lemma h3_data_roundtrip_witness :
  Forall send_ok some_sends ∧
  ∃ e', @send_data () no_fields_enc 4 some_sends (mk_encoder () ∅) = (Ok [0; 3; 1; 2; 3; 0; 0; 0; 1; 4], e') ∧
    ∃ ms s, @receive () no_fields_ops 4 [[0; 3; 1]; [2; 3; 0; 0; 0]; [1; 4]] (mk_decoder () ∅) =
        (Ok ms, mk_decoder () {[4 := s]}) ∧
      concat (message_data <$> ms) = [1; 2; 3; 4] ∧ DecodedH3Stream.state s = StFrameType ∧ unread s = [].
Proof.
  assert (Hl : Forall send_ok some_sends).
  { repeat apply Forall_cons_2; [..|apply Forall_nil_2].
    all: split; [repeat constructor; by vm_compute|]; split; by vm_compute. }
  split; [exact Hl|].
  destruct (@h3_data_roundtrip () no_fields_enc () no_fields_ops 4 some_sends [[0; 3; 1]; [2; 3; 0; 0; 0]; [1; 4]]
    (mk_encoder () ∅) (mk_decoder () ∅)) as (out & e' & He & _ & Hr);
    [split; [by left|done]|exact Hl|done|done|done|repeat constructor; lia|].
  assert (Hout : out = [0; 3; 1; 2; 3; 0; 0; 0; 1; 4]).
  { pose proof (f_equal fst He) as Ho. vm_compute in Ho. by injection Ho. }
  exists e'. rewrite Hout in He. split; [exact He|]. apply Hr. by rewrite Hout.
Defined.
