(* ===== verification/H3SettingsRoundtrip.v ===== *)
(** SETTINGS over HTTP/3: the encoder writes them in one call whatever they are, and the
    decoder reads them back from the control stream. *)
From S2P Require Import Prelude Buffers H3Error H3Octets H3Frame H3FrameDecoder H3DecoderSafety H3FrameSegments H3FrameEncoder H3FrameRoundtrip.

Definition pair_bytes (p : Z * Z) : bytes := varint p.1 ++ varint p.2.
Definition pairs_bytes (l : list (Z * Z)) : bytes := concat (pair_bytes <$> l).
Definition all_pairs (s : H3Settings.t) : list (Z * Z) := own_pairs s ++ more_pairs s.
Definition pair_ok (p : Z * Z) : Prop := 0 ≤ p.1 < 2 ^ 62 ∧ 0 ≤ p.2 < 2 ^ 62.
(** A key that is neither one of the named settings nor reserved. *)
Definition extra_key (k : Z) : bool := (8 <? k) && negb (k =? SETTING_H3_DATAGRAM).
Definition settings_ok (s : H3Settings.t) : Prop :=
  Forall pair_ok (all_pairs s) ∧ Forall (λ p, extra_key p.1 = true) (more_pairs s) ∧
  len (more_pairs s) ≤ 50 ∧ H3Settings.additional s ≠ Some [].

Lemma pairs_bytes_cons p l : pairs_bytes (p :: l) = varint p.1 ++ varint p.2 ++ pairs_bytes l.
Proof. unfold pairs_bytes, pair_bytes. simpl. by rewrite <- (assoc_L (++)). Qed.
Lemma pairs_bytes_bound l : Forall pair_ok l → 0 ≤ len (pairs_bytes l) ≤ 16 * len l.
Proof.
  induction 1 as [|p l [Hk Hv] _ IH]; [by cbv|]. rewrite pairs_bytes_cons, !len_app, len_cons.
  pose proof (varint_len_bound _ Hk). pose proof (varint_len_bound _ Hv). lia.
Qed.
Lemma own_pairs_len s : len (own_pairs s) ≤ 5.
Proof. destruct s as [[] [] [] [] [] ?]; by vm_compute. Qed.

Section Encode.
Context {Q : Type} `{!QpackEncoderOps Q}.
Implicit Types (e : encoding (Q := Q)) (buf : bytes).

Lemma pairs_len_ok l : Forall pair_ok l → pairs_len l = Ok (len (pairs_bytes l)).
Proof.
  induction 1 as [|[k v] l [Hk Hv] _ IH]; [done|]. rewrite pairs_bytes_cons. cbn [pairs_len fst snd] in *.
  unfold var_len. rewrite (proj2 (varint_spec k Hk)), (proj2 (varint_spec v Hv)), IH. rewrite !len_app.
  unfold unwrap, mbind, res_bind. f_equal. lia.
Qed.

Lemma put_pairs_ok buf h l w e :
  written buf (frame_buf e) (h ++ w) → Forall pair_ok l → len h + len w + len (pairs_bytes l) ≤ len buf →
  ∃ buf', put_pairs (len h) (len w) l e = (Ok (len (w ++ pairs_bytes l)), with_buf e buf') ∧
    written buf buf' (h ++ w ++ pairs_bytes l).
Proof.
  intros Hw Hl. revert w e Hw. induction Hl as [|[k v] l [Hk Hv] _ IH]; intros w e Hw Hb.
  - exists (frame_buf e). change (pairs_bytes []) with (@nil Z). rewrite !app_nil_r. split; [|done]. by destruct e.
  - rewrite pairs_bytes_cons in *. cbn [fst snd] in *. rewrite !len_app in Hb.
    pose proof (len_nonneg (pairs_bytes l)). pose proof (len_nonneg (varint k)). pose proof (len_nonneg (varint v)).
    cbn [put_pairs]. rewrite M_bind_eq, <- len_app.
    destruct (put_var_ok e buf (h ++ w) k Hw Hk) as (b1 & -> & Hw1); [rewrite len_app; lia|].
    rewrite M_bind_eq, <- len_app.
    destruct (put_var_ok (with_buf e b1) buf ((h ++ w) ++ varint k) v Hw1 Hv) as (b2 & -> & Hw2); [rewrite !len_app; lia|].
    replace (len w + len (varint k) + len (varint v)) with (len (w ++ varint k ++ varint v)) by (rewrite !len_app; lia).
    destruct (IH (w ++ varint k ++ varint v) (with_buf (with_buf e b1) b2)) as (b3 & Hp & Hw3).
    + by rewrite (assoc_L (++) h w), (assoc_L (++) (h ++ w)).
    + rewrite !len_app. lia.
    + exists b3. rewrite Hp. rewrite <- !(assoc_L (++)) in *. by split.
Qed.

Definition settings_frame (s : H3Settings.t) : H3Frame.t := H3Frame.mk SETTINGS_FRAME_TYPE (H3Payload.Settings s).
Definition settings_wire (s : H3Settings.t) : bytes :=
  varint SETTINGS_FRAME_TYPE ++ varint (len (pairs_bytes (all_pairs s))) ++ pairs_bytes (all_pairs s).

Lemma settings_size s :
  settings_ok s → 0 ≤ len (pairs_bytes (all_pairs s)) ≤ 880 ∧ len (settings_wire s) ≤ 1024.
Proof.
  intros (Hp & _ & Hm & _). pose proof (pairs_bytes_bound _ Hp) as Hb. unfold all_pairs in Hb at 3. rewrite len_app in Hb.
  pose proof (own_pairs_len s). split; [lia|]. unfold settings_wire. rewrite !len_app.
  pose proof (varint_len_bound (len (pairs_bytes (all_pairs s)))). change (2 ^ 62) with 4611686018427387904 in *.
  change (len (varint SETTINGS_FRAME_TYPE)) with 1. lia.
Qed.

(** The payload, behind the header [h]. *)
Lemma loop_settings_payload fuel e buf h s :
  written buf (frame_buf e) h → len h < len buf → len h + len (pairs_bytes (all_pairs s)) ≤ len buf → Forall pair_ok (all_pairs s) →
  EncodedH3Stream.state (est e) = EncodingSettingsPayload → EncodedH3Stream.current_frame (est e) = Some (settings_frame s) →
  ∃ buf' s', encode_loop (S fuel) (len h) e = (Ok (len (h ++ pairs_bytes (all_pairs s)), 0), with_est (with_buf e buf') s') ∧
    written buf buf' (h ++ pairs_bytes (all_pairs s)) ∧ EncodedH3Stream.state s' = EncFrameComplete ∧
    EncodedH3Stream.payload_offset s' = EncodedH3Stream.payload_offset (est e).
Proof.
  intros Hw Hlt Hb Hp Hst Hf. pose proof Hw as [Hl _]. cbn [encode_loop]. rewrite M_bind_eq. cbn [mgets].
  rewrite Hl, (proj2 (Z.leb_gt _ _)) by lia. rewrite M_bind_eq. cbn [mgets]. rewrite Hst. unfold sized. rewrite M_bind_eq.
  unfold encode_settings_payload, current_payload. rewrite !M_bind_eq. cbn [mgets]. unfold mlift. rewrite Hf.
  cbn [H3Frame.payload settings_frame]. rewrite M_bind_eq. unfold set_state, put_est, mmodify. set (e2 := mk_encoding _ _ _ _).
  destruct (put_pairs_ok buf h (all_pairs s) [] e2) as (b3 & Hp3 & Hw3); [by rewrite app_nil_r|done|rewrite len_nil; lia|].
  change (put_pairs (len h) 0) with (put_pairs (Q := Q) (len h) (len (@nil Z))). fold (all_pairs s). rewrite Hp3.
  exists b3, (est e2). split; [|by split]. unfold mret, M_ret. do 3 f_equal. rewrite !len_app, len_nil. lia.
Qed.

Lemma encode_settings_ok e buf s :
  written buf (frame_buf e) [] → 1024 ≤ len buf → settings_ok s →
  EncodedH3Stream.state (est e) = EncodingSettingsFrame → EncodedH3Stream.current_frame (est e) = Some (settings_frame s) →
  ∃ buf' s', encode_loop 3 0 e = (Ok (len (settings_wire s), 0), with_est (with_buf e buf') s') ∧
    written buf buf' (settings_wire s) ∧ EncodedH3Stream.state s' = EncFrameComplete ∧
    EncodedH3Stream.payload_offset s' = EncodedH3Stream.payload_offset (est e).
Proof.
  intros Hw Hb Hs Hst Hf. pose proof Hw as [Hl _]. destruct (settings_size s Hs) as [Hsz Hsw]. unfold settings_wire in *.
  rewrite !len_app in Hsw. destruct Hs as (Hp & _ & Hm & _). pose proof Hp as Hp0. apply Forall_app in Hp0 as [Hp1 Hp2].
  assert (Hv : 0 ≤ len (pairs_bytes (all_pairs s)) < 2 ^ 62) by (change (2 ^ 62) with 4611686018427387904; lia).
  pose proof (varint_len_bound _ Hv) as Hvl. change (len (varint SETTINGS_FRAME_TYPE)) with 1 in Hsw.
  cbn [encode_loop]. rewrite M_bind_eq. cbn [mgets]. rewrite (proj2 (Z.leb_gt _ _)) by lia.
  rewrite M_bind_eq. cbn [mgets]. rewrite Hst, M_bind_eq. unfold encode_frame_type. rewrite M_bind_eq. cbn [mgets].
  rewrite Hf. cbn [H3Frame.ty settings_frame].
  destruct (put_var_ok e buf [] SETTINGS_FRAME_TYPE Hw) as (b1 & Hp1' & Hw1); [by cbv|rewrite len_nil; change (len (varint SETTINGS_FRAME_TYPE)) with 1; lia|].
  rewrite len_nil in Hp1'. rewrite Hp1', M_bind_eq. unfold encode_settings_len, current_payload. rewrite !M_bind_eq.
  cbn [mgets est with_buf]. unfold mlift at 1. rewrite Hf. cbn [H3Frame.payload settings_frame]. rewrite M_bind_eq.
  unfold mlift at 1. rewrite (pairs_len_ok _ Hp1), (proj2 (Z.ltb_ge _ _)) by lia. rewrite M_bind_eq. unfold mlift.
  rewrite (pairs_len_ok _ Hp2), <- len_app.
  replace (pairs_bytes (own_pairs s) ++ pairs_bytes (more_pairs s)) with (pairs_bytes (all_pairs s))
    by (unfold pairs_bytes, all_pairs; by rewrite fmap_app, concat_app).
  destruct (put_var_ok (with_buf e b1) buf (varint SETTINGS_FRAME_TYPE) (len (pairs_bytes (all_pairs s)))) as (b2 & Hp2' & Hw2);
    [exact Hw1|exact Hv|change (len (varint SETTINGS_FRAME_TYPE)) with 1; lia|].
  change (0 + len (varint SETTINGS_FRAME_TYPE)) with (len (varint SETTINGS_FRAME_TYPE)). rewrite Hp2', M_bind_eq.
  unfold set_state, put_est, mmodify. rewrite <- len_app. set (e2 := mk_encoding _ _ _ _).
  destruct (loop_settings_payload 1 e2 buf (varint SETTINGS_FRAME_TYPE ++ varint (len (pairs_bytes (all_pairs s)))) s)
    as (b3 & s3 & Hl3 & Hw3 & Hs3); [exact Hw2|rewrite len_app; change (len (varint SETTINGS_FRAME_TYPE)) with 1; lia|
      rewrite len_app; change (len (varint SETTINGS_FRAME_TYPE)) with 1; lia|exact Hp|done|exact Hf|].
  exists b3, s3. rewrite <- (assoc_L (++)) in *. by split.
Qed.
End Encode.

(** ** Reading *)

Section Decode.
Context {Q : Type} `{!QpackDecoderOps Q}.
Implicit Types d : decoding (Q := Q).

(** The settings of a list of pairs, one pair after the other. *)
Fixpoint apply_pairs (l : list (Z * Z)) (s : H3Settings.t) (a : list (Z * Z)) : res H3Error (H3Settings.t * list (Z * Z)) :=
  match l with
  | [] => Ok (s, a)
  | (k, v) :: l => '(s, a) ← apply_setting k v s a; apply_pairs l s a
  end.

Lemma apply_pairs_app l l' s a : apply_pairs (l ++ l') s a = ('(s, a) ← apply_pairs l s a; apply_pairs l' s a).
Proof.
  revert s a. induction l as [|[k v] l IH]; intros s a; [done|]. cbn [apply_pairs app].
  unfold mbind, res_bind in *. by destruct (apply_setting k v s a) as [[s' a']| |].
Qed.

Lemma apply_extra l s a : Forall (λ p, extra_key p.1 = true) l → apply_pairs l s a = Ok (s, a ++ l).
Proof.
  intros Hl. revert a. induction Hl as [|[k v] l Hk _ IH]; intros a; [by rewrite app_nil_r|]. cbn [apply_pairs fst] in *.
  assert (apply_setting k v s a = Ok (s, a ++ [(k, v)])) as ->.
  { unfold extra_key in Hk. zbool. unfold apply_setting. unfold SETTING_QPACK_MAX_TABLE_CAPACITY, SETTING_ENABLE_CONNECT_PROTOCOL,
      SETTING_MAX_FIELD_SECTION_SIZE, SETTING_QPACK_BLOCKED_STREAMS. rewrite !(proj2 (Z.eqb_neq k _)) by (done || lia). done. }
  unfold mbind, res_bind in *. rewrite IH. by rewrite <- (assoc_L (++)).
Qed.

(** The named settings are read back as they were. *)
Lemma apply_own s : apply_pairs (own_pairs s) H3Settings.default [] =
  Ok (H3Settings.mk (H3Settings.max_field_section_size s) (H3Settings.qpack_max_table_capacity s)
        (H3Settings.qpack_blocked_streams s) (H3Settings.connect_protocol_enabled s) (H3Settings.h3_datagram s) None, []).
Proof. by destruct s as [[] [] [] [] [] ?]. Qed.

Lemma apply_all s :
  settings_ok s →
  ∃ s' a, apply_pairs (all_pairs s) H3Settings.default [] = Ok (s', a) ∧
    match a with [] => s' | _ => H3Settings.set_additional s' a end = s.
Proof.
  intros (_ & He & _ & Hn). unfold all_pairs. rewrite apply_pairs_app, apply_own. unfold mbind, res_bind.
  rewrite apply_extra by done. eexists _, _. split; [done|]. unfold more_pairs. destruct s as [a b c x y [[|p l]|]]; try done.
Qed.

Lemma settings_loop_ok fuel buf i l s a :
  0 ≤ i ≤ len buf → from i buf = pairs_bytes l → Forall pair_ok l → len l < Z.of_nat fuel →
  settings_loop fuel (len buf) (ReadableBytes.mk buf i) s a =
    ('(s, a) ← apply_pairs l s a; Ok (s, a, ReadableBytes.mk buf (len buf))).
Proof.
  intros Hi Hf Hl. revert fuel i s a Hi Hf. induction Hl as [|[k v] l [Hk Hv] _ IH]; intros [|fuel] i s a Hi Hf Hn; [unfold len in Hn; simpl in Hn; lia| |pose proof (len_nonneg ((k, v) :: l)); lia|].
  - assert (i = len buf) as -> by (apply (f_equal len) in Hf; rewrite len_from in Hf by lia; change (len (pairs_bytes [])) with 0 in Hf; lia).
    cbn [settings_loop ReadableBytes.idx]. by rewrite (proj2 (Z.leb_le _ _)) by lia.
  - rewrite pairs_bytes_cons in Hf. cbn [fst snd] in *. destruct (varint_spec k Hk) as [Hek _]. destruct (varint_spec v Hv) as [Hev _].
    pose proof (encodes_len _ _ Hek). pose proof (encodes_len _ _ Hev). rewrite len_cons in Hn.
    pose proof (f_equal len Hf) as Hlen. rewrite len_from, !len_app in Hlen by lia. pose proof (len_nonneg (pairs_bytes l)).
    cbn [settings_loop ReadableBytes.idx]. rewrite (proj2 (Z.leb_gt _ _)) by lia.
    rewrite (get_varint_ok _ _ _ (varint v ++ pairs_bytes l) Hek); [|simpl; lia|exact Hf].
    cbn [ReadableBytes.buf ReadableBytes.idx].
    assert (Hf2 : from (i + len (varint k)) buf = varint v ++ pairs_bytes l)
      by (rewrite <- from_from, Hf by lia; by apply from_app_exact).
    unfold mbind at 1, res_bind at 1.
    rewrite (get_varint_ok _ _ _ (pairs_bytes l) Hev); [|simpl; lia|exact Hf2].
    cbn [ReadableBytes.buf ReadableBytes.idx]. cbn [apply_pairs]. unfold mbind at 1, res_bind at 1.
    destruct (apply_setting k v s a) as [[s' a']| |] eqn:Ha; unfold mbind, res_bind; [|done..].
    unfold mbind, res_bind in IH. apply IH; [lia| |lia].
    rewrite <- from_from, Hf2 by lia. by apply from_app_exact.
Qed.

Lemma decode_settings_ok d s :
  0 ≤ DecodedH3Stream.offset (stream d) ≤ len (DecodedH3Stream.buffer (stream d)) → settings_ok s → unread (stream d) = pairs_bytes (all_pairs s) →
  DecodedH3Stream.payload_len (stream d) = Some (len (pairs_bytes (all_pairs s))) →
  decode_settings_payload d =
    (Ok ReturnOuter, mk_decoding (DecodedH3Stream.clear_buffer (DecodedH3Stream.set_decode_state (DecodedH3Stream.clear_frame (stream d)) StFrameType))
       (frames d ++ [H3Complete (settings_frame s)]) (qpack d)).
Proof.
  intros Hw Hs Hu Hp. unfold decode_settings_payload. run. rewrite reader_in by done. run. rewrite cap_new, Hu, (remain_some _ _ Hp), Z.ltb_irrefl.
  destruct (apply_all s Hs) as (s' & a & Ha & Hfin). destruct Hs as (Hok & _).
  unfold ReadableBytes.new. rewrite (settings_loop_ok _ _ _ (all_pairs s)); [|simpl; pose proof (len_nonneg (pairs_bytes (all_pairs s))); lia|by rewrite from_0|done|].
  - rewrite Ha. unfold mbind, res_bind. rewrite Hfin. unfold ReadableBytes.cap. cbn [ReadableBytes.buf ReadableBytes.idx].
    rewrite Z.sub_diag. by destruct d.
  - cbn [ReadableBytes.buf]. clear -Hok.
    assert (len (all_pairs s) ≤ len (pairs_bytes (all_pairs s))); [|unfold len in *; lia].
    induction Hok as [|p l [Hk Hv] _ IH]; [done|]. rewrite pairs_bytes_cons, !len_app, len_cons.
    pose proof (varint_len_bound _ Hk). pose proof (varint_len_bound _ Hv). lia.
Qed.

(** ** The control stream *)

(** The stream after the bytes [done] of its [done ++ rest]. *)
Definition ctl_stream (ty : StreamType) (st : DecodeState) (done rest : bytes) (ft pl : option Z) (set_ : bool) : DecodedH3Stream.t :=
  DecodedH3Stream.mk ty st (done ++ rest) (len done) None ft None pl set_.

Lemma ctl_state ty st done rest ft pl set_ : DecodedH3Stream.state (ctl_stream ty st done rest ft pl set_) = st.
Proof. done. Qed.
Lemma ctl_unread ty st done rest ft pl set_ : unread (ctl_stream ty st done rest ft pl set_) = rest.
Proof. unfold unread. simpl. by apply from_app_exact. Qed.
Lemma ctl_read ty st done b rest ft pl set_ v :
  encodes b v → DecodedH3Stream.read_varint (ctl_stream ty st done (b ++ rest) ft pl set_) = Ok (Some (v, len b)).
Proof.
  intros He. apply (read_varint_in _ b v rest); [|done|apply ctl_unread]. simpl. rewrite len_app.
  pose proof (len_nonneg done). pose proof (len_nonneg (b ++ rest)). lia.
Qed.
(** Reading moves the bytes [b] over. *)
Lemma ctl_moved ty st done b rest ft pl set_ :
  DecodedH3Stream.mk ty st (done ++ b ++ rest) (len done + len b) None ft None pl set_ = ctl_stream ty st (done ++ b) rest ft pl set_.
Proof. unfold ctl_stream. by rewrite (assoc_L (++)), len_app. Qed.

Lemma turn_stream_type id rest fs (q : Q) :
  decode_turn id (mk_decoding (ctl_stream TyInit StStreamType [] (varint 0 ++ rest) None None false) fs q) =
    (Ok None, mk_decoding (ctl_stream TyControl StFrameType (varint 0) rest None None false) fs q).
Proof.
  unfold decode_turn, waiting_more, decode_stream_type. rewrite !M_bind_eq. unfold mgets, mlift. cbn [stream]. rewrite ctl_state. cbv iota beta.
  rewrite !M_bind_eq. cbn [stream]. rewrite (ctl_read _ _ _ _ _ _ _ _ 0); [done|]. apply varint_spec. by cbv.
Qed.

Lemma turn_settings_type id done rest fs (q : Q) :
  decode_turn id (mk_decoding (ctl_stream TyControl StFrameType done (varint SETTINGS_FRAME_TYPE ++ rest) None None false) fs q) =
    (Ok None, mk_decoding (ctl_stream TyControl StPayloadLen (done ++ varint SETTINGS_FRAME_TYPE) rest (Some SETTINGS_FRAME_TYPE) None true) fs q).
Proof.
  unfold decode_turn, outer, decode_frame_type. rewrite !M_bind_eq. unfold mgets, mlift. cbn [stream]. rewrite ctl_state. cbv iota beta.
  rewrite !M_bind_eq. cbn [stream]. rewrite (ctl_read _ _ _ _ _ _ _ _ SETTINGS_FRAME_TYPE) by (apply varint_spec; by cbv).
  rewrite <- ctl_moved. done.
Qed.

Lemma turn_settings_len id done v rest fs (q : Q) :
  0 ≤ v < 2 ^ 62 →
  decode_turn id (mk_decoding (ctl_stream TyControl StPayloadLen done (varint v ++ rest) (Some SETTINGS_FRAME_TYPE) None true) fs q) =
    (Ok None, mk_decoding (ctl_stream TyControl StSettingsPayload (done ++ varint v) rest (Some SETTINGS_FRAME_TYPE) (Some v) true) fs q).
Proof.
  intros Hv. unfold decode_turn, outer, decode_payload_len. rewrite !M_bind_eq. unfold mgets, mlift. cbn [stream]. rewrite ctl_state. cbv iota beta.
  rewrite !M_bind_eq. cbn [stream]. rewrite (ctl_read _ _ _ _ _ _ _ _ v) by (by apply varint_spec). rewrite <- ctl_moved. done.
Qed.

Lemma turn_settings id done s fs (q : Q) :
  settings_ok s →
  decode_turn id (mk_decoding (ctl_stream TyControl StSettingsPayload done (pairs_bytes (all_pairs s)) (Some SETTINGS_FRAME_TYPE)
      (Some (len (pairs_bytes (all_pairs s)))) true) fs q) =
    (Ok (Some (MsgControl (fs ++ [H3Complete (settings_frame s)]), true)),
     mk_decoding (DecodedH3Stream.mk TyControl StFrameType [] 0 None None None None true) (fs ++ [H3Complete (settings_frame s)]) q).
Proof.
  intros Hs. unfold decode_turn, outer. rewrite !M_bind_eq. unfold mgets. cbn [stream]. rewrite ctl_state. cbv iota beta.
  rewrite M_bind_eq, (decode_settings_ok _ s); [done| |done|apply ctl_unread|done].
  simpl. rewrite len_app. pose proof (len_nonneg done). pose proof (len_nonneg (pairs_bytes (all_pairs s))). lia.
Qed.

Lemma loop_next {S E A} (turn : M S E (option A)) fuel s s' : turn s = (Ok None, s') → loop turn (Datatypes.S fuel) s = loop turn fuel s'.
Proof. intros Ht. cbn [loop]. by rewrite M_bind_eq, Ht. Qed.
Lemma loop_last {S E A} (turn : M S E (option A)) fuel s s' a : turn s = (Ok (Some a), s') → loop turn (Datatypes.S fuel) s = (Ok a, s').
Proof. intros Ht. cbn [loop]. by rewrite M_bind_eq, Ht. Qed.

Lemma control_settings_decoded id s (d : frame_decoder (Q := Q)) :
  settings_ok s → is_bidirectional id = false → streams d !! id = None →
  decode id (varint 0 ++ settings_wire s) d =
    (Ok (MsgControl [H3Complete (settings_frame s)]),
     mk_decoder (qpack_decoder d) (<[id := DecodedH3Stream.mk TyControl StFrameType [] 0 None None None None true]> (streams d))).
Proof.
  intros Hs Hid Hd. destruct (settings_size s Hs) as [Hsz _]. unfold decode. rewrite Hd. cbn [default]. unfold DecodedH3Stream.new. rewrite Hid.
  change (DecodedH3Stream.set_buffer _ _ _) with (ctl_stream TyInit StStreamType [] (varint 0 ++ settings_wire s) None None false).
  unfold decode_fuel. rewrite Nat.add_comm. cbn [Nat.add]. unfold settings_wire.
  erewrite loop_next by apply turn_stream_type. erewrite loop_next by apply turn_settings_type.
  erewrite loop_next by (apply turn_settings_len; change (2 ^ 62) with 4611686018427387904; lia).
  erewrite loop_last by (by apply turn_settings). cbn [qpack stream]. by rewrite insert_delete_eq.
Qed.
End Decode.

(** C29: SETTINGS over HTTP/3: whatever settings are set on an idle stream, named ones and
    up to 50 others, one call of [encode] writes them completely (no buffer the encoder
    accepts is too short) in the wire format of a SETTINGS frame, and a decoder that is
    given the control stream they open hands out exactly these settings. *)
Theorem h3_settings_roundtrip {QE QD} `{!QpackEncoderOps QE} `{!QpackDecoderOps QD} id id' s buf ibuf
    (e : frame_encoder (Q := QE)) (d : frame_decoder (Q := QD)) :
  settings_ok s → enc_idle (default (EncodedH3Stream.new id) (enc_streams e !! id)) → 1024 ≤ len buf →
  is_bidirectional id' = false → streams d !! id' = None →
  ∃ n buf' e1 e2 d', set_frame id (settings_frame s) e = (Ok (), e1) ∧ encode id buf ibuf e1 = (Ok (n, 0, buf', ibuf), e2) ∧
    upto n buf' = settings_wire s ∧ enc_idle (default (EncodedH3Stream.new id) (enc_streams e2 !! id)) ∧
    decode id' (varint 0 ++ upto n buf') d = (Ok (MsgControl [H3Complete (settings_frame s)]), d').
Proof.
  intros Hs Hi Hb Hid Hd. set (st := default _ _) in Hi.
  set (s1 := EncodedH3Stream.set_state (EncodedH3Stream.set_current st (settings_frame s)) EncodingSettingsFrame).
  assert (Hset : set_frame id (settings_frame s) e = (Ok (), mk_encoder (qpack_encoder e) (<[id := s1]> (enc_streams e)))).
  { unfold set_frame. fold st. destruct Hi as [[Hst|Hst] _]; rewrite Hst; done. }
  destruct (encode_settings_ok (mk_encoding s1 buf ibuf (qpack_encoder e)) buf s) as (buf' & s' & He & [_ Hw] & Hst);
    [apply written_nil|done..|]. destruct Hst as [Hst Ho].
  assert (Henc : encode id buf ibuf (mk_encoder (qpack_encoder e) (<[id := s1]> (enc_streams e))) =
    (Ok (len (settings_wire s), 0, buf', ibuf), mk_encoder (qpack_encoder e) (<[id := s']> (enc_streams e)))).
  { unfold encode. cbn [enc_streams qpack_encoder]. rewrite (proj2 (Z.ltb_ge _ _)) by lia.
    rewrite lookup_insert, decide_True by done. rewrite He. cbn [eqpack est with_est with_buf frame_buf inst_buf]. by rewrite insert_insert_eq. }
  eexists _, _, _, _, _. split; [exact Hset|]. split; [exact Henc|]. rewrite Hw. split; [done|]. split.
  - cbn [enc_streams]. rewrite lookup_insert, decide_True by done. split; [by right|]. exact (eq_trans Ho (proj2 Hi)).
  - by apply control_settings_decoded.
Qed.

Definition some_settings : H3Settings.t := H3Settings.mk (Some 1024) (Some 4096) None (Some 1) None (Some [(0x21, 5); (70000, 1)]).
Lemma h3_settings_roundtrip_witness :
  settings_ok some_settings ∧
  ∃ n buf' e1 e2 d', @set_frame () no_fields_enc 2 (settings_frame some_settings) (mk_encoder () ∅) = (Ok (), e1) ∧
    @encode () no_fields_enc 2 (replicate 1024 0) [] e1 = (Ok (n, 0, buf', []), e2) ∧
    upto n buf' = settings_wire some_settings ∧ enc_idle (default (EncodedH3Stream.new 2) (enc_streams e2 !! 2)) ∧
    @decode () no_fields_ops 3 (varint 0 ++ upto n buf') (mk_decoder () ∅) =
      (Ok (MsgControl [H3Complete (settings_frame some_settings)]), d').
Proof.
  assert (Hs : settings_ok some_settings).
  { split; [repeat constructor; by cbv|]. split; [repeat constructor|]. split; [by cbv|done]. }
  split; [exact Hs|].
  apply (@h3_settings_roundtrip () () no_fields_enc no_fields_ops 2 3 some_settings (replicate 1024 0) []
    (mk_encoder () ∅) (mk_decoder () ∅)); [exact Hs|split; [by left|done]|by vm_compute|done|done].
Defined.

(** ** What the code does otherwise *)

(** GOAWAY: three bytes are written (type, length, identifier), two are reported. *)
Lemma goaway_size_short :
  ∃ e1 buf' e2, @set_frame () no_fields_enc 2 (H3Frame.mk GOAWAY_FRAME_TYPE (H3Payload.Goaway 5)) (mk_encoder () ∅) = (Ok (), e1) ∧
    @encode () no_fields_enc 2 (replicate 1024 0) [] e1 = (Ok (2, 0, buf', []), e2) ∧ upto 3 buf' = [7; 1; 5].
Proof. eexists _, _, _. split; [by vm_compute|]. split; by vm_compute. Qed.

(** A frame that follows SETTINGS in the same bytes: the payload of the SETTINGS is read
    again as a frame, here one of the unknown type 6 that takes the type of the GOAWAY
    for its payload, so that the control stream is refused; in two pieces it is not. *)
Lemma frame_after_settings_misread :
  (@decode () no_fields_ops 3 [0; 4; 2; 6; 1; 7; 1; 5] (mk_decoder () ∅)).1 =
    Err (H3Decode (UnexpectedFrame 1)) ∧
  ∃ d, (@decode () no_fields_ops 3 [0; 4; 2; 6; 1] (mk_decoder () ∅)) =
      (Ok (MsgControl [H3Complete (settings_frame (H3Settings.set_max_field_section_size H3Settings.default 1))]), d) ∧
    (@decode () no_fields_ops 3 [7; 1; 5] d).1 = Ok (MsgControl [H3Complete (H3Frame.mk GOAWAY_FRAME_TYPE (H3Payload.Goaway 5))]).
Proof. split; [by vm_compute|]. eexists. split; [by vm_compute|]. by vm_compute. Qed.

(** A stream of an unknown type is dropped after the first call: its next bytes are read
    as the type of a new stream. *)
Lemma unknown_stream_reread :
  let r := @decode () no_fields_ops 7 [0x21; 1; 2] (mk_decoder () ∅) in
  r.1 = Ok MsgUnknown ∧
  (@decode () no_fields_ops 7 [0; 4; 0] r.2).1 = Ok (MsgControl [H3Complete (settings_frame H3Settings.default)]).
Proof. by vm_compute. Qed.
