(* ===== verification/QpackTable.v ===== *)
(** The QPACK static and dynamic tables ([h3/qpack/table.rs]).  The names of fields
    ([NameField]) are those of HPACK.  The dynamic table keeps its entries oldest first,
    each with its absolute index and the number of field sections that refer to it; the
    operations panic where the code's arithmetic underflows or where it says
    [unreachable!].  The theorems: the two directions of the static table agree, and the
    absolute indices and the size of the dynamic table stay exact under insertion and
    eviction. *)
From S2P Require Import Prelude Buffers HpackTable H3Error.

(** [a - b] and [a + b] of [usize], with overflow checks. *)
Definition usub (a b : Z) : res QpackError Z := if b <=? a then Ok (a - b) else Panic.
Definition uadd (a b : Z) : res QpackError Z := if a + b <=? usize_max then Ok (a + b) else Panic.

(** [String::from_utf8]: well-formed UTF-8. *)
Definition in_range (lo hi b : Z) : bool := (lo <=? b) && (b <=? hi).
Fixpoint utf8_valid (l : bytes) : bool :=
  match l with
  | [] => true
  | a :: l =>
      if a <? 0x80 then utf8_valid l
      else match l with
      | [] => false
      | b :: l =>
          if in_range 0xC2 0xDF a then in_range 0x80 0xBF b && utf8_valid l
          else match l with
          | [] => false
          | c :: l =>
              if in_range 0xE0 0xEF a then
                in_range (if a =? 0xE0 then 0xA0 else 0x80) (if a =? 0xED then 0x9F else 0xBF) b
                && in_range 0x80 0xBF c && utf8_valid l
              else match l with
              | [] => false
              | d :: l =>
                  in_range 0xF0 0xF4 a
                  && in_range (if a =? 0xF0 then 0x90 else 0x80) (if a =? 0xF4 then 0x8F else 0xBF) b
                  && in_range 0x80 0xBF c && in_range 0x80 0xBF d && utf8_valid l
              end
          end
      end
  end.

Inductive TableIndex := Field (i : Z) | FieldName (i : Z) | NoIndex.
Inductive SearchResult :=
| StaticIndex (i : Z) | StaticNameIndex (i : Z) | DynamicIndex (i : Z) | DynamicNameIndex (i : Z) | NotFound.

Module DynamicField.
Record t := mk { index : Z; name : Header.t; value : bytes; tracked : Z }.
Definition size (f : t) : Z := Header.hlen (name f) + len (value f) + 32.
Definition is_tracked (f : t) : bool := 0 <? tracked f.
Definition set_tracked (f : t) (n : Z) : t := mk (index f) (name f) (value f) n.
End DynamicField.

Module QDynamicTable.
Record t := mk {
  queue : list DynamicField.t;
  used_cap : Z;
  capacity : Z;
  insert_count : Z;
  remove_count : Z;
  known_received_count : Z;
}.
Definition with_empty : t := mk [] 0 0 0 0 0.
Definition set_queue (d : t) (q : list DynamicField.t) (used removed : Z) : t :=
  mk q used (capacity d) (insert_count d) removed (known_received_count d).
Definition set_capacity (d : t) (c : Z) : t :=
  mk (queue d) (used_cap d) c (insert_count d) (remove_count d) (known_received_count d).
Definition set_known (d : t) (k : Z) : t :=
  mk (queue d) (used_cap d) (capacity d) (insert_count d) (remove_count d) k.

(** [self.queue.get(index - self.remove_count)] *)
Definition get (d : t) (index : Z) : res QpackError (option DynamicField.t) :=
  i ← usub index (remove_count d); Ok (queue d !! Z.to_nat i).
Definition put (d : t) (index : Z) (f : DynamicField.t) : res QpackError t :=
  i ← usub index (remove_count d); Ok (set_queue d (<[Z.to_nat i := f]> (queue d)) (used_cap d) (remove_count d)).

(** The [while] loop of [can_evict]; it looks at the front of the queue each time. *)
Fixpoint can_evict_loop (fuel : nat) (d : t) (bound used n : Z) : res QpackError (option Z) :=
  match fuel with
  | O => Panic
  | S fuel =>
      match queue d with
      | to_evict :: _ =>
          if used <=? bound then Ok (Some n)
          else if DynamicField.is_tracked to_evict || (known_received_count d <? DynamicField.index to_evict) then Ok None
          else used ← usub used (DynamicField.size to_evict); can_evict_loop fuel d bound used (n + 1)
      | [] => Ok (Some n)
      end
  end.
Definition can_evict (d : t) (required : Z) : res QpackError (option Z) :=
  if capacity d <? required then Ok None
  else can_evict_loop (S (Z.to_nat (used_cap d))) d (capacity d - required) (used_cap d) 0.

(** Each turn of [evict_drained] pops an entry. *)
Fixpoint evict_drained (n : nat) (d : t) : res QpackError t :=
  match n with
  | O => Ok d
  | S n =>
      match queue d with
      | f :: q => used ← usub (used_cap d) (DynamicField.size f); evict_drained n (set_queue d q used (remove_count d + 1))
      | [] => Panic
      end
  end.

Definition update_capacity (d : t) (new_cap : Z) : res QpackError (option Z * t) :=
  if new_cap <? capacity d then
    o ← can_evict d (capacity d - new_cap);
    match o with
    | Some size => d ← evict_drained (Z.to_nat size) d; Ok (Some new_cap, set_capacity d new_cap)
    | None => Ok (None, d)
    end
  else Ok (Some new_cap, set_capacity d new_cap).

Definition track_field (d : t) (index : Z) : res QpackError t :=
  o ← get d index;
  match o with Some f => put d index (DynamicField.set_tracked f (DynamicField.tracked f + 1)) | None => Panic end.
Definition untracked_field (d : t) (index : Z) : res QpackError t :=
  o ← get d index;
  match o with
  | Some f =>
      if DynamicField.is_tracked f then put d index (DynamicField.set_tracked f (DynamicField.tracked f - 1)) else Panic
  | None => Panic
  end.

Definition increase_known_receive_count (d : t) (increment : Z) : res QpackError t :=
  i ← usub increment 1;
  let known := known_received_count d + i in
  if known <? insert_count d then Ok (set_known d known) else Panic.

Definition max_entries (d : t) : Z := capacity d / 32.

Definition update (d : t) (field : Header.t) (value : bytes) : Z * t :=
  let f := DynamicField.mk (insert_count d) field value 0 in
  (DynamicField.index f,
   mk (queue d ++ [f]) (used_cap d + DynamicField.size f) (capacity d) (insert_count d + 1) (remove_count d) (known_received_count d)).

(** The [for] loop of [index]: the newest entry that may be referred to. *)
Fixpoint index_loop (known : Z) (header : Header.t) (value : bytes) (allow_block : bool) (acc : TableIndex)
    (q : list DynamicField.t) : TableIndex :=
  match q with
  | [] => acc
  | f :: q =>
      if (known <? DynamicField.index f) && negb allow_block then acc
      else
        index_loop known header value allow_block
          (if bool_decide (header = DynamicField.name f) then
             if bool_decide (value = DynamicField.value f) then Field (DynamicField.index f) else FieldName (DynamicField.index f)
           else acc) q
  end.
Definition index (d : t) (header : Header.t) (value : bytes) (allow_block : bool) : TableIndex :=
  index_loop (known_received_count d) header value allow_block NoIndex (queue d).

Definition field (d : t) (index : Z) : res QpackError (option (Header.t * bytes)) :=
  o ← get d index; Ok (option_map (λ f, (DynamicField.name f, DynamicField.value f)) o).
Definition field_name (d : t) (index : Z) : res QpackError (option Header.t) :=
  o ← get d index; Ok (option_map DynamicField.name o).

(** Each turn of [fit_size] pops an entry. *)
Fixpoint fit_loop (fuel : nat) (d : t) : res QpackError t :=
  match fuel with
  | O => Panic
  | S fuel =>
      if used_cap d <=? capacity d then Ok d
      else match queue d with
      | [] => Ok d
      | f :: q => used ← usub (used_cap d) (DynamicField.size f); fit_loop fuel (set_queue d q used (remove_count d + 1))
      end
  end.
Definition fit_size (d : t) : res QpackError t := fit_loop (S (length (queue d))) d.
Definition update_size (d : t) (max_size : Z) : res QpackError t := fit_size (set_capacity d max_size).
End QDynamicTable.

Module QStaticTable.
Definition field_name (index : Z) : option Header.t :=
  match index with
  | 0 => Some Header.Authority
  | 1 => Some Header.Path
  | 2 => Some (Header.Other (str "age"))
  | 3 => Some (Header.Other (str "content-disposition"))
  | 4 => Some (Header.Other (str "content-length"))
  | 5 => Some (Header.Other (str "cookie"))
  | 6 => Some (Header.Other (str "date"))
  | 7 => Some (Header.Other (str "etag"))
  | 8 => Some (Header.Other (str "if-modified-since"))
  | 9 => Some (Header.Other (str "if-none-match"))
  | 10 => Some (Header.Other (str "last-modified"))
  | 11 => Some (Header.Other (str "link"))
  | 12 => Some (Header.Other (str "location"))
  | 13 => Some (Header.Other (str "referer"))
  | 14 => Some (Header.Other (str "set-cookie"))
  | 15 | 16 | 17 | 18 | 19 | 20 | 21 => Some Header.Method
  | 22 | 23 => Some Header.Scheme
  | 24 | 25 | 26 | 27 | 28 => Some Header.Status
  | 29 | 30 => Some (Header.Other (str "accept"))
  | 31 => Some (Header.Other (str "accept-encoding"))
  | 32 => Some (Header.Other (str "accept-ranges"))
  | 33 | 34 => Some (Header.Other (str "access-control-allow-headers"))
  | 35 => Some (Header.Other (str "access-control-allow-origin"))
  | 36 | 37 | 38 | 39 | 40 | 41 => Some (Header.Other (str "cache-control"))
  | 42 | 43 => Some (Header.Other (str "content-encoding"))
  | 44 | 45 | 46 | 47 | 48 | 49 | 50 | 51 | 52 | 53 | 54 => Some (Header.Other (str "content-type"))
  | 55 => Some (Header.Other (str "range"))
  | 56 | 57 | 58 => Some (Header.Other (str "strict-transport-security"))
  | 59 | 60 => Some (Header.Other (str "vary"))
  | 61 => Some (Header.Other (str "x-content-type-options"))
  | 62 => Some (Header.Other (str "x-xss-protection"))
  | 63 | 64 | 65 | 66 | 67 | 68 | 69 | 70 | 71 => Some Header.Status
  | 72 => Some (Header.Other (str "accept-language"))
  | 73 | 74 => Some (Header.Other (str "access-control-allow-credentials"))
  | 75 => Some (Header.Other (str "access-control-allow-headers"))
  | 76 | 77 | 78 => Some (Header.Other (str "access-control-allow-methods"))
  | 79 => Some (Header.Other (str "access-control-expose-headers"))
  | 80 => Some (Header.Other (str "access-control-request-headers"))
  | 81 | 82 => Some (Header.Other (str "access-control-request-method"))
  | 83 => Some (Header.Other (str "alt-svc"))
  | 84 => Some (Header.Other (str "authorization"))
  | 85 => Some (Header.Other (str "content-security-policy"))
  | 86 => Some (Header.Other (str "early-data"))
  | 87 => Some (Header.Other (str "expect-ct"))
  | 88 => Some (Header.Other (str "forwarded"))
  | 89 => Some (Header.Other (str "if-range"))
  | 90 => Some (Header.Other (str "origin"))
  | 91 => Some (Header.Other (str "purpose"))
  | 92 => Some (Header.Other (str "server"))
  | 93 => Some (Header.Other (str "timing-allow-origin"))
  | 94 => Some (Header.Other (str "upgrade-insecure-requests"))
  | 95 => Some (Header.Other (str "user-agent"))
  | 96 => Some (Header.Other (str "x-forwarded-for"))
  | 97 | 98 => Some (Header.Other (str "x-frame-options"))
  | _ => None
  end.

Definition field (index : Z) : option (Header.t * bytes) :=
  match index with
  | 1 => Some (Header.Path, str "/")
  | 2 => Some (Header.Other (str "age"), str "0")
  | 4 => Some (Header.Other (str "content-length"), str "0")
  | 15 => Some (Header.Method, str "CONNECT")
  | 16 => Some (Header.Method, str "DELETE")
  | 17 => Some (Header.Method, str "GET")
  | 18 => Some (Header.Method, str "HEAD")
  | 19 => Some (Header.Method, str "OPTIONS")
  | 20 => Some (Header.Method, str "POST")
  | 21 => Some (Header.Method, str "PUT")
  | 22 => Some (Header.Scheme, str "http")
  | 23 => Some (Header.Scheme, str "https")
  | 24 => Some (Header.Status, str "103")
  | 25 => Some (Header.Status, str "200")
  | 26 => Some (Header.Status, str "304")
  | 27 => Some (Header.Status, str "404")
  | 28 => Some (Header.Status, str "503")
  | 29 => Some (Header.Other (str "accept"), str "*/*")
  | 30 => Some (Header.Other (str "accept"), str "application/dns-message")
  | 31 => Some (Header.Other (str "accept-encoding"), str "gzip, deflate, br")
  | 32 => Some (Header.Other (str "accept-ranges"), str "bytes")
  | 33 => Some (Header.Other (str "access-control-allow-headers"), str "cache-control")
  | 34 => Some (Header.Other (str "access-control-allow-headers"), str "content-type")
  | 35 => Some (Header.Other (str "access-control-allow-origin"), str "*")
  | 36 => Some (Header.Other (str "cache-control"), str "max-age=0")
  | 37 => Some (Header.Other (str "cache-control"), str "max-age=2592000")
  | 38 => Some (Header.Other (str "cache-control"), str "max-age=604800")
  | 39 => Some (Header.Other (str "cache-control"), str "no-cache")
  | 40 => Some (Header.Other (str "cache-control"), str "no-store")
  | 41 => Some (Header.Other (str "cache-control"), str "public, max-age=31536000")
  | 42 => Some (Header.Other (str "content-encoding"), str "br")
  | 43 => Some (Header.Other (str "content-encoding"), str "gzip")
  | 44 => Some (Header.Other (str "content-type"), str "application/dns-message")
  | 45 => Some (Header.Other (str "content-type"), str "application/javascript")
  | 46 => Some (Header.Other (str "content-type"), str "application/json")
  | 47 => Some (Header.Other (str "content-type"), str "application/x-www-form-urlencoded")
  | 48 => Some (Header.Other (str "content-type"), str "image/gif")
  | 49 => Some (Header.Other (str "content-type"), str "image/jpeg")
  | 50 => Some (Header.Other (str "content-type"), str "image/png")
  | 51 => Some (Header.Other (str "content-type"), str "text/css")
  | 52 => Some (Header.Other (str "content-type"), str "text/html; charset=utf-8")
  | 53 => Some (Header.Other (str "content-type"), str "text/plain")
  | 54 => Some (Header.Other (str "content-type"), str "text/plain;charset=utf-8")
  | 55 => Some (Header.Other (str "range"), str "bytes=0-")
  | 56 => Some (Header.Other (str "strict-transport-security"), str "max-age=31536000")
  | 57 => Some (Header.Other (str "strict-transport-security"), str "max-age=31536000; includesubdomains")
  | 58 => Some (Header.Other (str "strict-transport-security"), str "max-age=31536000; includesubdomains; preload")
  | 59 => Some (Header.Other (str "vary"), str "accept-encoding")
  | 60 => Some (Header.Other (str "vary"), str "origin")
  | 61 => Some (Header.Other (str "x-content-type-options"), str "nosniff")
  | 62 => Some (Header.Other (str "x-xss-protection"), str "1; mode=block")
  | 63 => Some (Header.Status, str "100")
  | 64 => Some (Header.Status, str "204")
  | 65 => Some (Header.Status, str "206")
  | 66 => Some (Header.Status, str "302")
  | 67 => Some (Header.Status, str "400")
  | 68 => Some (Header.Status, str "403")
  | 69 => Some (Header.Status, str "421")
  | 70 => Some (Header.Status, str "425")
  | 71 => Some (Header.Status, str "500")
  | 73 => Some (Header.Other (str "access-control-allow-credentials"), str "FALSE")
  | 74 => Some (Header.Other (str "access-control-allow-credentials"), str "TRUE")
  | 75 => Some (Header.Other (str "access-control-allow-headers"), str "*")
  | 76 => Some (Header.Other (str "access-control-allow-methods"), str "get")
  | 77 => Some (Header.Other (str "access-control-allow-methods"), str "get, post, options")
  | 78 => Some (Header.Other (str "access-control-allow-methods"), str "options")
  | 79 => Some (Header.Other (str "access-control-expose-headers"), str "content-length")
  | 80 => Some (Header.Other (str "access-control-request-headers"), str "content-type")
  | 81 => Some (Header.Other (str "access-control-request-method"), str "get")
  | 82 => Some (Header.Other (str "access-control-request-method"), str "post")
  | 83 => Some (Header.Other (str "alt-svc"), str "clear")
  | 85 => Some (Header.Other (str "content-security-policy"), str "script-src 'none'; object-src 'none'; base-uri 'none'")
  | 86 => Some (Header.Other (str "early-data"), str "1")
  | 91 => Some (Header.Other (str "purpose"), str "prefetch")
  | 93 => Some (Header.Other (str "timing-allow-origin"), str "*")
  | 94 => Some (Header.Other (str "upgrade-insecure-requests"), str "1")
  | 97 => Some (Header.Other (str "x-frame-options"), str "deny")
  | 98 => Some (Header.Other (str "x-frame-options"), str "sameorigin")
  | _ => None
  end.

(** The arms of the [match] of [index], in order; [None] is the pattern [_]. *)
Definition index_arms : list (Header.t * option bytes * TableIndex) := [
  (Header.Authority, None, FieldName 0);
  (Header.Path, Some (str "/"), Field 1);
  (Header.Path, None, FieldName 1);
  (Header.Method, Some (str "CONNECT"), Field 15);
  (Header.Method, Some (str "DELETE"), Field 16);
  (Header.Method, Some (str "GET"), Field 17);
  (Header.Method, Some (str "HEAD"), Field 18);
  (Header.Method, Some (str "OPTIONS"), Field 19);
  (Header.Method, Some (str "POST"), Field 20);
  (Header.Method, Some (str "PUT"), Field 21);
  (Header.Method, None, FieldName 15);
  (Header.Scheme, Some (str "http"), Field 22);
  (Header.Scheme, Some (str "https"), Field 23);
  (Header.Scheme, None, FieldName 22);
  (Header.Status, Some (str "103"), Field 24);
  (Header.Status, Some (str "200"), Field 25);
  (Header.Status, Some (str "304"), Field 26);
  (Header.Status, Some (str "404"), Field 27);
  (Header.Status, Some (str "503"), Field 28);
  (Header.Status, Some (str "100"), Field 63);
  (Header.Status, Some (str "204"), Field 64);
  (Header.Status, Some (str "206"), Field 65);
  (Header.Status, Some (str "302"), Field 66);
  (Header.Status, Some (str "400"), Field 67);
  (Header.Status, Some (str "403"), Field 68);
  (Header.Status, Some (str "421"), Field 69);
  (Header.Status, Some (str "425"), Field 70);
  (Header.Status, Some (str "500"), Field 71);
  (Header.Status, None, FieldName 24);
  (Header.Other (str "age"), Some (str "0"), Field 2);
  (Header.Other (str "age"), None, FieldName 2);
  (Header.Other (str "content-disposition"), None, FieldName 3);
  (Header.Other (str "content-length"), Some (str "0"), Field 4);
  (Header.Other (str "content-length"), None, FieldName 4);
  (Header.Other (str "cookie"), None, FieldName 5);
  (Header.Other (str "date"), None, FieldName 6);
  (Header.Other (str "etag"), None, FieldName 7);
  (Header.Other (str "if-modified-since"), None, FieldName 8);
  (Header.Other (str "if-none-match"), None, FieldName 9);
  (Header.Other (str "last-modified"), None, FieldName 10);
  (Header.Other (str "link"), None, FieldName 11);
  (Header.Other (str "location"), None, FieldName 12);
  (Header.Other (str "referer"), None, FieldName 13);
  (Header.Other (str "set-cookie"), None, FieldName 14);
  (Header.Other (str "accept"), Some (str "*/*"), Field 29);
  (Header.Other (str "accept"), Some (str "application/dns-message"), Field 30);
  (Header.Other (str "accept"), None, FieldName 29);
  (Header.Other (str "accept-encoding"), Some (str "gzip, deflate, br"), Field 31);
  (Header.Other (str "accept-encoding"), None, FieldName 31);
  (Header.Other (str "accept-ranges"), Some (str "bytes"), Field 32);
  (Header.Other (str "accept-ranges"), None, FieldName 32);
  (Header.Other (str "access-control-allow-headers"), Some (str "cache-control"), Field 33);
  (Header.Other (str "access-control-allow-headers"), Some (str "content-type"), Field 34);
  (Header.Other (str "access-control-allow-origin"), Some (str "*"), Field 35);
  (Header.Other (str "access-control-allow-origin"), None, FieldName 35);
  (Header.Other (str "cache-control"), Some (str "max-age=0"), Field 36);
  (Header.Other (str "cache-control"), Some (str "max-age=2592000"), Field 37);
  (Header.Other (str "cache-control"), Some (str "max-age=604800"), Field 38);
  (Header.Other (str "cache-control"), Some (str "no-cache"), Field 39);
  (Header.Other (str "cache-control"), Some (str "no-store"), Field 40);
  (Header.Other (str "cache-control"), Some (str "public, max-age=31536000"), Field 41);
  (Header.Other (str "cache-control"), None, FieldName 36);
  (Header.Other (str "content-encoding"), Some (str "br"), Field 42);
  (Header.Other (str "content-encoding"), Some (str "gzip"), Field 43);
  (Header.Other (str "content-encoding"), None, FieldName 42);
  (Header.Other (str "content-type"), Some (str "application/dns-message"), Field 44);
  (Header.Other (str "content-type"), Some (str "application/javascript"), Field 45);
  (Header.Other (str "content-type"), Some (str "application/json"), Field 46);
  (Header.Other (str "content-type"), Some (str "application/x-www-form-urlencoded"), Field 47);
  (Header.Other (str "content-type"), Some (str "image/gif"), Field 48);
  (Header.Other (str "content-type"), Some (str "image/jpeg"), Field 49);
  (Header.Other (str "content-type"), Some (str "image/png"), Field 50);
  (Header.Other (str "content-type"), Some (str "text/css"), Field 51);
  (Header.Other (str "content-type"), Some (str "text/html; charset=utf-8"), Field 52);
  (Header.Other (str "content-type"), Some (str "text/plain"), Field 53);
  (Header.Other (str "content-type"), Some (str "text/plain;charset=utf-8"), Field 54);
  (Header.Other (str "content-type"), None, FieldName 44);
  (Header.Other (str "range"), Some (str "bytes=0-"), Field 55);
  (Header.Other (str "range"), None, FieldName 55);
  (Header.Other (str "strict-transport-security"), Some (str "max-age=31536000"), Field 56);
  (Header.Other (str "strict-transport-security"), Some (str "max-age=31536000; includesubdomains"), Field 57);
  (Header.Other (str "strict-transport-security"), Some (str "max-age=31536000; includesubdomains; preload"), Field 58);
  (Header.Other (str "strict-transport-security"), None, FieldName 56);
  (Header.Other (str "vary"), Some (str "accept-encoding"), Field 59);
  (Header.Other (str "vary"), Some (str "origin"), Field 60);
  (Header.Other (str "vary"), None, FieldName 59);
  (Header.Other (str "x-content-type-options"), Some (str "nosniff"), Field 61);
  (Header.Other (str "x-content-type-options"), None, FieldName 61);
  (Header.Other (str "x-xss-protection"), Some (str "1; mode=block"), Field 62);
  (Header.Other (str "x-xss-protection"), None, FieldName 62);
  (Header.Other (str "accept-language"), None, FieldName 72);
  (Header.Other (str "access-control-allow-credentials"), Some (str "FALSE"), Field 73);
  (Header.Other (str "access-control-allow-credentials"), Some (str "TRUE"), Field 74);
  (Header.Other (str "access-control-allow-credentials"), None, FieldName 73);
  (Header.Other (str "access-control-allow-headers"), Some (str "*"), Field 75);
  (Header.Other (str "access-control-allow-headers"), None, FieldName 75);
  (Header.Other (str "access-control-allow-methods"), Some (str "get"), Field 76);
  (Header.Other (str "access-control-allow-methods"), Some (str "get, post, options"), Field 77);
  (Header.Other (str "access-control-allow-methods"), Some (str "options"), Field 78);
  (Header.Other (str "access-control-allow-methods"), None, FieldName 76);
  (Header.Other (str "access-control-expose-headers"), Some (str "content-length"), Field 79);
  (Header.Other (str "access-control-expose-headers"), None, FieldName 79);
  (Header.Other (str "access-control-request-headers"), Some (str "content-type"), Field 80);
  (Header.Other (str "access-control-request-headers"), None, FieldName 80);
  (Header.Other (str "access-control-request-method"), Some (str "get"), Field 81);
  (Header.Other (str "access-control-request-method"), Some (str "post"), Field 82);
  (Header.Other (str "access-control-request-method"), None, FieldName 81);
  (Header.Other (str "alt-svc"), Some (str "clear"), Field 83);
  (Header.Other (str "alt-svc"), None, FieldName 83);
  (Header.Other (str "authorization"), None, FieldName 84);
  (Header.Other (str "content-security-policy"), Some (str "script-src 'none'; object-src 'none'; base-uri 'none'"), Field 85);
  (Header.Other (str "content-security-policy"), None, FieldName 85);
  (Header.Other (str "early-data"), Some (str "1"), Field 86);
  (Header.Other (str "early-data"), None, FieldName 86);
  (Header.Other (str "expect-ct"), None, FieldName 87);
  (Header.Other (str "forwarded"), None, FieldName 88);
  (Header.Other (str "if-range"), None, FieldName 89);
  (Header.Other (str "origin"), None, FieldName 90);
  (Header.Other (str "purpose"), Some (str "prefetch"), Field 91);
  (Header.Other (str "purpose"), None, FieldName 91);
  (Header.Other (str "server"), None, FieldName 92);
  (Header.Other (str "timing-allow-origin"), Some (str "*"), Field 93);
  (Header.Other (str "timing-allow-origin"), None, FieldName 93);
  (Header.Other (str "upgrade-insecure-requests"), Some (str "1"), Field 94);
  (Header.Other (str "upgrade-insecure-requests"), None, FieldName 94);
  (Header.Other (str "user-agent"), None, FieldName 95);
  (Header.Other (str "x-forwarded-for"), None, FieldName 96);
  (Header.Other (str "x-frame-options"), Some (str "deny"), Field 97);
  (Header.Other (str "x-frame-options"), Some (str "sameorigin"), Field 98);
  (Header.Other (str "x-frame-options"), None, FieldName 97)].

(** The first arm that matches. *)
Fixpoint first_arm (key : Header.t) (value : bytes) (arms : list (Header.t * option bytes * TableIndex)) : TableIndex :=
  match arms with
  | [] => NoIndex
  | (k, pat, i) :: arms =>
      if bool_decide (key = k) && match pat with Some v => bool_decide (value = v) | None => true end
      then i else first_arm key value arms
  end.
Definition index (field : Header.t) (value : bytes) : TableIndex := first_arm field value index_arms.
End QStaticTable.

Module QTableSearcher.
Definition search_in_static (header : Header.t) (value : bytes) : TableIndex := QStaticTable.index header value.
Definition search_in_dynamic (d : QDynamicTable.t) (header : Header.t) (value : bytes) (allow_block : bool) : TableIndex :=
  QDynamicTable.index d header value allow_block.
Definition find_field_static (index : Z) : option (Header.t * bytes) := QStaticTable.field index.
Definition find_field_name_static (index : Z) : option Header.t := QStaticTable.field_name index.
Definition find_field_dynamic (d : QDynamicTable.t) (index : Z) : res QpackError (option (Header.t * bytes)) := QDynamicTable.field d index.
Definition find_field_name_dynamic (d : QDynamicTable.t) (index : Z) : res QpackError (option Header.t) := QDynamicTable.field_name d index.
End QTableSearcher.

(** * The static table *)

(** An arm names an entry of the table: its field, or a field with its name. *)
Definition arm_ok (a : Header.t * option bytes * TableIndex) : bool :=
  match a with
  | (k, Some v, Field i) => bool_decide (QStaticTable.field i = Some (k, v)) && (0 <=? i) && (i <? 99)
  | (k, None, FieldName i) => bool_decide (QStaticTable.field_name i = Some k) && (0 <=? i) && (i <? 99)
  | _ => false
  end.
Lemma arms_ok : forallb arm_ok QStaticTable.index_arms = true.
Proof. by vm_compute. Qed.

Ltac arm_done :=
  zbool; match goal with H : bool_decide _ = true |- _ => apply bool_decide_eq_true in H end; split; [done|lia].
(** A search of the static table finds the field, or an entry with its name. *)
Lemma static_search h v :
  match QStaticTable.index h v with
  | Field i => QStaticTable.field i = Some (h, v) ∧ 0 ≤ i < 99
  | FieldName i => QStaticTable.field_name i = Some h ∧ 0 ≤ i < 99
  | NoIndex => True
  end.
Proof.
  unfold QStaticTable.index. pose proof arms_ok as Ha. induction QStaticTable.index_arms as [|[[k pat] i] l IH]; [done|].
  cbn [forallb] in Ha. apply andb_true_iff in Ha as [Ha Hl]. cbn [QStaticTable.first_arm].
  destruct (bool_decide (h = k)) eqn:Hk; [|by apply IH]. apply bool_decide_eq_true in Hk as <-.
  destruct pat as [w|]; simpl.
  - destruct (bool_decide (v = w)) eqn:Hv; [|by apply IH]. apply bool_decide_eq_true in Hv as <-.
    unfold arm_ok in Ha. destruct i; [|done..]. arm_done.
  - unfold arm_ok in Ha. destruct i; [done| |done]. arm_done.
Qed.

(** * The dynamic table *)

Definition sizes (q : list DynamicField.t) : Z := zsum (DynamicField.size <$> q).
(** The size is the sum of the entries', and the absolute indices follow each other. *)
Definition qtable_ok (d : QDynamicTable.t) : Prop :=
  QDynamicTable.used_cap d = sizes (QDynamicTable.queue d) ∧
  QDynamicTable.insert_count d = QDynamicTable.remove_count d + len (QDynamicTable.queue d) ∧
  0 ≤ QDynamicTable.remove_count d ∧
  ∀ i f, QDynamicTable.queue d !! i = Some f → DynamicField.index f = QDynamicTable.remove_count d + Z.of_nat i.

Lemma field_size_pos f : 32 ≤ DynamicField.size f.
Proof.
  unfold DynamicField.size. pose proof (hlen_nonneg (DynamicField.name f)). pose proof (len_nonneg (DynamicField.value f)). lia.
Qed.
Lemma sizes_cons f q : sizes (f :: q) = DynamicField.size f + sizes q.
Proof. done. Qed.
Lemma sizes_nonneg q : 0 ≤ sizes q.
Proof. induction q as [|f q IH]; [done|]. rewrite sizes_cons. pose proof (field_size_pos f). lia. Qed.
Lemma sizes_app q r : sizes (q ++ r) = sizes q + sizes r.
Proof. induction q as [|f q IH]; [done|]. cbn [app]. rewrite !sizes_cons. lia. Qed.

Lemma qtable_empty : qtable_ok QDynamicTable.with_empty.
Proof. by repeat split. Qed.

(** Insertion: the entry gets the next absolute index, and is found under it. *)
Lemma qtable_update d h v :
  qtable_ok d →
  let '(i, d') := QDynamicTable.update d h v in
  qtable_ok d' ∧ i = QDynamicTable.insert_count d ∧ QDynamicTable.field d' i = Ok (Some (h, v)).
Proof.
  intros (Hu & Hi & Hr & Hx). cbn [QDynamicTable.update]. split; [|split; [done|]].
  - split; [simpl; rewrite sizes_app, Hu; unfold sizes; simpl; lia|]. split; [simpl; rewrite len_app; unfold len at 2; simpl; lia|].
    split; [done|]. simpl. intros i f Hf. apply lookup_app_Some in Hf as [Hf|[Hl Hf]]; [by apply Hx|].
    apply list_lookup_singleton_Some in Hf as [H0 <-]. simpl. unfold len in Hi. lia.
  - unfold QDynamicTable.field, QDynamicTable.get, usub. simpl. pose proof (len_nonneg (QDynamicTable.queue d)).
    rewrite (proj2 (Z.leb_le _ _)) by lia. unfold mbind, res_bind.
    rewrite lookup_app_r by (unfold len in Hi; lia). replace (Z.to_nat _ - _)%nat with 0%nat by (unfold len in Hi; lia). done.
Qed.

(** Dropping the oldest entry. *)
Lemma qtable_pop d f q :
  qtable_ok d → QDynamicTable.queue d = f :: q →
  usub (QDynamicTable.used_cap d) (DynamicField.size f) = Ok (sizes q) ∧
  qtable_ok (QDynamicTable.set_queue d q (sizes q) (QDynamicTable.remove_count d + 1)).
Proof.
  intros (Hu & Hi & Hr & Hx) Hq. rewrite Hq in *. rewrite sizes_cons in Hu. pose proof (sizes_nonneg q). pose proof (field_size_pos f). split.
  - unfold usub. rewrite (proj2 (Z.leb_le _ _)) by lia. f_equal. lia.
  - split; [done|]. split; [simpl; rewrite len_cons in Hi; lia|]. split; [simpl; lia|]. simpl. intros i g Hg.
    specialize (Hx (S i) g Hg). lia.
Qed.

(** Eviction keeps the newest entries and the accounting; it does not panic as long as
    there are entries to evict. *)
Lemma qtable_evict n d :
  qtable_ok d → (n ≤ length (QDynamicTable.queue d))%nat →
  ∃ d', QDynamicTable.evict_drained n d = Ok d' ∧ qtable_ok d' ∧ QDynamicTable.queue d' = drop n (QDynamicTable.queue d).
Proof.
  revert d. induction n as [|n IH]; intros d Hd Hn; [by exists d|]. cbn [QDynamicTable.evict_drained].
  destruct (QDynamicTable.queue d) as [|f q] eqn:Hq; [simpl in Hn; lia|].
  destruct (qtable_pop d f q Hd Hq) as [-> Hd']. unfold mbind, res_bind. apply (IH _ Hd'). simpl in *. lia.
Qed.

(** A new size: the newest entries that fit stay, the others are dropped. *)
Lemma qtable_fit fuel d :
  qtable_ok d → 0 ≤ QDynamicTable.capacity d → (length (QDynamicTable.queue d) < fuel)%nat →
  ∃ d' n, QDynamicTable.fit_loop fuel d = Ok d' ∧ qtable_ok d' ∧ QDynamicTable.queue d' = drop n (QDynamicTable.queue d) ∧
    QDynamicTable.used_cap d' ≤ QDynamicTable.capacity d' ∧ QDynamicTable.capacity d' = QDynamicTable.capacity d ∧
    QDynamicTable.insert_count d' = QDynamicTable.insert_count d.
Proof.
  revert d. induction fuel as [|fuel IH]; intros d Hd Hc Hf; [lia|]. cbn [QDynamicTable.fit_loop].
  destruct (Z.leb_spec (QDynamicTable.used_cap d) (QDynamicTable.capacity d)); [by exists d, 0%nat|].
  destruct (QDynamicTable.queue d) as [|f q] eqn:Hq.
  { destruct Hd as (Hu & _). rewrite Hq in Hu. unfold sizes in Hu. simpl in Hu. lia. }
  destruct (qtable_pop d f q Hd Hq) as [-> Hd']. unfold mbind, res_bind.
  destruct (IH _ Hd') as (d' & n & He & Hok & Hqq & Hrest); [done|simpl in *; lia|]. exists d', (S n). split; [done|]. split; [done|]. split; [done|exact Hrest].
Qed.

Lemma evict_beyond n d :
  qtable_ok d → (length (QDynamicTable.queue d) < n)%nat → QDynamicTable.evict_drained n d = Panic.
Proof.
  revert d. induction n as [|n IH]; intros d Hd Hn; [lia|]. cbn [QDynamicTable.evict_drained].
  destruct (QDynamicTable.queue d) as [|f q] eqn:Hq; [done|].
  destruct (qtable_pop d f q Hd Hq) as [-> Hd']. unfold mbind, res_bind. apply (IH _ Hd'). simpl in *. lia.
Qed.
(** The eviction of [n] entries asked of the table [d]. *)
Definition evicted (n : nat) (d : QDynamicTable.t) (r : res QpackError QDynamicTable.t) : Prop :=
  if decide (n ≤ length (QDynamicTable.queue d))%nat
  then ∃ d', r = Ok d' ∧ qtable_ok d' ∧ QDynamicTable.queue d' = drop n (QDynamicTable.queue d)
  else r = Panic.


Definition some_table : QDynamicTable.t :=
  (QDynamicTable.update (QDynamicTable.update (QDynamicTable.set_capacity QDynamicTable.with_empty 200)
     (Header.Other (str "a")) (str "1")).2 (Header.Other (str "b")) (str "2")).2.

(** [can_evict] measures the oldest entry again and again: for a table with a small
    entry in front of a large one it asks for more entries than there are, and the
    eviction that follows panics. *)
Lemma can_evict_counts_front :
  let d := (QDynamicTable.update (QDynamicTable.update (QDynamicTable.set_capacity QDynamicTable.with_empty 200)
     (Header.Other (str "a")) []).2 (Header.Other (str "b")) (replicate 100 0)).2 in
  QDynamicTable.used_cap d = 166 ∧ QDynamicTable.can_evict d 150 = Ok (Some 4) ∧ QDynamicTable.evict_drained 4 d = Panic.
Proof. by vm_compute. Qed.
