(* ===== verification/QpackFormat.v ===== *)
(** The formats of QPACK and their decoder ([h3/qpack/mod.rs], [h3/qpack/integer.rs],
    [h3/qpack/format/decoder.rs]): prefix bits and masks, the representations of a field
    section, the instructions of the encoder stream, and the resumable state machines
    that decode them.  A decoder returns what it decoded and the number of bytes it
    took, or the state to go on from with more bytes, or an error. *)
From S2P Require Import Prelude Buffers Huffman HpackInteger H3Error.

Definition decompression_failed : QpackError := QpackConnectionError DecompressionFailed.

(** [IntegerDecoder]: that of HPACK, with the error of QPACK. *)
Definition q_first_byte (byte mask : Z) : Z + IntegerDecoder.t := IntegerDecoder.first_byte byte mask.
Definition q_next_byte (d : IntegerDecoder.t) (byte : Z) : res QpackError (option Z) * IntegerDecoder.t :=
  match IntegerDecoder.next_byte d byte with
  | (Ok o, d) => (Ok o, d)
  | (Err _, d) => (Err decompression_failed, d)
  | (Panic, d) => (Panic, d)
  end.

(** The bits 'N', 'T' and 'H' of a first byte. *)
Module MidBit.
Record t := mk { n : option bool; t_ : option bool; h : option bool }.
Definition none : t := mk None None None.
End MidBit.
Definition bit_set (byte mask : Z) : bool := negb (Z.land byte mask =? 0).

Module PrefixMask.
Definition REQUIRE_INSERT_COUNT : Z := 0xff.
Definition DELTA_BASE : Z := 0x7f.
Definition INDEXED : Z := 0x3f.
Definition SET_CAP : Z := 0x1f.
Definition INSERT_WITH_INDEX : Z := 0x3f.
Definition INSERT_WITH_LITERAL : Z := 0x1f.
Definition DUPLICATE : Z := 0x1f.
Definition ACK : Z := 0x7f.
Definition STREAM_CANCEL : Z := 0x3f.
Definition INSERT_COUNT_INCREMENT : Z := 0x3f.
Definition INDEXING_WITH_NAME : Z := 0x0f.
Definition INDEXING_WITH_POST_NAME : Z := 0x07.
Definition INDEXING_WITH_LITERAL : Z := 0x07.
Definition INDEXED_WITH_POST_NAME : Z := 0x0f.
End PrefixMask.

Module ReprPrefixBit.
Inductive t := INDEXED | INDEXEDWITHPOSTINDEX | LITERALWITHINDEXING | LITERALWITHPOSTINDEXING | LITERALWITHLITERALNAME.
Definition from_u8 (byte : Z) : t :=
  if 0x80 <=? byte then INDEXED
  else if 0x40 <=? byte then LITERALWITHINDEXING
  else if 0x20 <=? byte then LITERALWITHLITERALNAME
  else if 0x10 <=? byte then INDEXEDWITHPOSTINDEX
  else LITERALWITHPOSTINDEXING.
Definition prefix_index_mask (p : t) : Z :=
  match p with
  | INDEXED => PrefixMask.INDEXED
  | LITERALWITHINDEXING => PrefixMask.INDEXING_WITH_NAME
  | LITERALWITHLITERALNAME => PrefixMask.INDEXING_WITH_LITERAL
  | INDEXEDWITHPOSTINDEX => PrefixMask.INDEXED_WITH_POST_NAME
  | LITERALWITHPOSTINDEXING => PrefixMask.INDEXING_WITH_LITERAL
  end.
Definition prefix_midbit_value (p : t) (byte : Z) : MidBit.t :=
  match p with
  | INDEXED => MidBit.mk None (Some (bit_set byte 0x40)) None
  | LITERALWITHINDEXING => MidBit.mk (Some (bit_set byte 0x20)) (Some (bit_set byte 0x10)) None
  | LITERALWITHLITERALNAME => MidBit.mk (Some (bit_set byte 0x10)) None (Some (bit_set byte 0x08))
  | INDEXEDWITHPOSTINDEX => MidBit.none
  | LITERALWITHPOSTINDEXING => MidBit.mk (Some (bit_set byte 0x08)) None None
  end.
End ReprPrefixBit.

Module EncoderInstPrefixBit.
Inductive t := SET_CAP | INSERT_WITH_INDEX | INSERT_WITH_LITERAL | DUPLICATE.
Definition from_u8 (byte : Z) : t :=
  if 0x80 <=? byte then INSERT_WITH_INDEX
  else if 0x40 <=? byte then INSERT_WITH_LITERAL
  else if 0x20 <=? byte then SET_CAP
  else DUPLICATE.
Definition prefix_index_mask (p : t) : Z :=
  match p with
  | INSERT_WITH_INDEX => PrefixMask.INSERT_WITH_INDEX
  | INSERT_WITH_LITERAL => PrefixMask.INSERT_WITH_LITERAL
  | SET_CAP => PrefixMask.SET_CAP
  | DUPLICATE => PrefixMask.DUPLICATE
  end.
Definition prefix_midbit_value (p : t) (byte : Z) : MidBit.t :=
  match p with
  | INSERT_WITH_INDEX => MidBit.mk None (Some (bit_set byte 0x40)) None
  | INSERT_WITH_LITERAL => MidBit.mk None None (Some (bit_set byte 0x20))
  | _ => MidBit.none
  end.
End EncoderInstPrefixBit.

Inductive QName := QIndex (i : Z) | QLiteral (octets : bytes).

Inductive EncoderInstruction :=
| SetCap (capacity : Z)
| InsertWithIndex (mid_bit : MidBit.t) (name : QName) (value : bytes)
| InsertWithLiteral (mid_bit : MidBit.t) (name : QName) (value : bytes)
| Duplicate (index : Z).

Inductive QRepresentation :=
| FieldSectionPrefix (require_insert_count : Z) (signal : bool) (delta_base : Z)
| Indexed (mid_bit : MidBit.t) (index : Z)
| IndexedWithPostIndex (index : Z)
| LiteralWithIndexing (mid_bit : MidBit.t) (name : QName) (value : bytes)
| LiteralWithPostIndexing (mid_bit : MidBit.t) (name : QName) (value : bytes)
| LiteralWithLiteralName (mid_bit : MidBit.t) (name : QName) (value : bytes).

(** [DecResult]; [Decoded] has the bytes taken. *)
Inductive qdec (D S : Type) :=
| Decoded (n : Z) (d : D)
| NeedMore (s : S)
| Error (e : QpackError).
Arguments Decoded {D S} n d.
Arguments NeedMore {D S} s.
Arguments Error {D S} e.

(** What follows, after [n] bytes ([return_res!]); states are passed on by [up]. *)
Definition after {D S} (n : Z) (x : qdec D S) : qdec D S :=
  match x with Decoded m d => Decoded (m + n) d | x => x end.

(** ** Strings *)

Inductive QLiteralString :=
| LengthFirstByte
| LengthTrailingBytes (is_huffman : bool) (length : IntegerDecoder.t)
| AsciiStringBytes (octets : bytes) (length : Z)
| HuffmanStringBytes (huffman : HuffmanDecoder.t) (read length : Z).

Definition q_ascii_decode (octets : bytes) (length : Z) (buf : bytes) : qdec bytes QLiteralString :=
  if length <=? len buf + len octets then
    let pos := length - len octets in Decoded pos (octets ++ upto pos buf)
  else NeedMore (AsciiStringBytes (octets ++ buf) length).

Definition q_huffman_decode (huffman : HuffmanDecoder.t) (read length : Z) (buf : bytes) : qdec bytes QLiteralString :=
  if length <=? len buf + read then
    let pos := length - read in
    match HuffmanDecoder.decode (upto pos buf) huffman with
    | Ok h => match HuffmanDecoder.finish h with Ok vec => Decoded pos vec | _ => Error decompression_failed end
    | _ => Error decompression_failed
    end
  else
    match HuffmanDecoder.decode buf huffman with
    | Ok h => NeedMore (HuffmanStringBytes h (read + len buf) length)
    | _ => Error decompression_failed
    end.

Definition string_start (is_huffman : bool) (length : Z) (buf : bytes) : qdec bytes QLiteralString :=
  if is_huffman then q_huffman_decode HuffmanDecoder.new 0 length buf else q_ascii_decode [] length buf.

(** [LengthTrailingBytes::decode]; [buf_index >= buf_len] leaves the last byte alone. *)
Fixpoint length_trailing_decode (is_huffman : bool) (d : IntegerDecoder.t) (buf : bytes) : qdec bytes QLiteralString :=
  match buf with
  | [] | [_] => NeedMore (LengthTrailingBytes is_huffman d)
  | b :: buf =>
      match q_next_byte d b with
      | (Ok None, d) => after 1 (length_trailing_decode is_huffman d buf)
      | (Ok (Some length), _) => after 1 (string_start is_huffman length buf)
      | (Err e, _) => Error e
      | (Panic, _) => Error decompression_failed
      end
  end.

Definition length_first_decode (buf : bytes) : qdec bytes QLiteralString :=
  match buf with
  | [] => NeedMore LengthFirstByte
  | b :: buf =>
      let is_huffman := Z.land b 0x80 =? 0x80 in
      after 1 (match q_first_byte b 0x7f with
               | inl length => string_start is_huffman length buf
               | inr int => length_trailing_decode is_huffman int buf
               end)
  end.

Definition literal_decode (s : QLiteralString) (buf : bytes) : qdec bytes QLiteralString :=
  match s with
  | LengthFirstByte => length_first_decode buf
  | LengthTrailingBytes h d => length_trailing_decode h d buf
  | AsciiStringBytes o l => q_ascii_decode o l buf
  | HuffmanStringBytes h r l => q_huffman_decode h r l buf
  end.

(** ** First bytes with a prefix: [decode_first_byte!], [trailing_bytes_decoder!] *)

Section FirstByte.
Context {P : Type} (from_u8 : Z → P) (index_mask : P → Z) (midbit : P → Z → MidBit.t).

Inductive IndexInner := FirstByte | TrailingBytes (prefix : P) (mid_bit : MidBit.t) (index : IntegerDecoder.t).

Fixpoint trailing_decode (prefix : P) (mid_bit : MidBit.t) (d : IntegerDecoder.t) (buf : bytes) :
    qdec (P * MidBit.t * Z) IndexInner :=
  match buf with
  | [] => NeedMore (TrailingBytes prefix mid_bit d)
  | b :: buf =>
      match q_next_byte d b with
      | (Ok None, d) => after 1 (trailing_decode prefix mid_bit d buf)
      | (Ok (Some index), _) => Decoded 1 (prefix, mid_bit, index)
      | (Err e, _) => Error e
      | (Panic, _) => Error decompression_failed
      end
  end.

Definition first_byte_decode (buf : bytes) : qdec (P * MidBit.t * Z) IndexInner :=
  match buf with
  | [] => NeedMore FirstByte
  | b :: buf =>
      let prefix := from_u8 b in
      let mid_bit := midbit prefix b in
      match q_first_byte b (index_mask prefix) with
      | inl idx => Decoded 1 (prefix, mid_bit, idx)
      | inr int => after 1 (trailing_decode prefix mid_bit int buf)
      end
  end.

Definition index_inner_decode (s : IndexInner) (buf : bytes) : qdec (P * MidBit.t * Z) IndexInner :=
  match s with
  | FirstByte => first_byte_decode buf
  | TrailingBytes p m d => trailing_decode p m d buf
  end.
End FirstByte.
Arguments IndexInner P : clear implicits.

Definition ReprIndexInner : Type := IndexInner ReprPrefixBit.t.
Definition repr_inner_decode : ReprIndexInner → bytes → qdec (ReprPrefixBit.t * MidBit.t * Z) ReprIndexInner :=
  index_inner_decode ReprPrefixBit.from_u8 ReprPrefixBit.prefix_index_mask ReprPrefixBit.prefix_midbit_value.
Definition InstIndexInner : Type := IndexInner EncoderInstPrefixBit.t.
Definition inst_inner_decode : InstIndexInner → bytes → qdec (EncoderInstPrefixBit.t * MidBit.t * Z) InstIndexInner :=
  index_inner_decode EncoderInstPrefixBit.from_u8 EncoderInstPrefixBit.prefix_index_mask EncoderInstPrefixBit.prefix_midbit_value.

(** [HuffmanStringBytes] or [AsciiStringBytes] of a name, by the bit 'H'. *)
Definition name_start (mid_bit : MidBit.t) (namelen : Z) : QLiteralString :=
  match MidBit.h mid_bit with
  | Some true => HuffmanStringBytes HuffmanDecoder.new 0 namelen
  | _ => AsciiStringBytes [] namelen
  end.

(** ** Representations *)

Inductive ReprDecodeState :=
| FiledSectionPrefix
| ReprIndex (inner : ReprIndexInner)
| ReprValueString (repr : ReprPrefixBit.t) (mid_bit : MidBit.t) (name : QName) (inner : QLiteralString)
| ReprNameAndValue (prefix : ReprPrefixBit.t) (mid_bit : MidBit.t) (inner : QLiteralString).

(** A loop of [FSPTwoIntergers::decode]: the integer and what follows it; the byte that
    ends the buffer is left alone. *)
Inductive fsp_int := FspValue (v n : Z) (rest : bytes) | FspMore | FspError (e : QpackError).
Fixpoint fsp_loop (d : IntegerDecoder.t) (n : Z) (buf : bytes) : fsp_int :=
  match buf with
  | [] | [_] => FspMore
  | b :: buf =>
      match q_next_byte d b with
      | (Ok None, d) => fsp_loop d (n + 1) buf
      | (Ok (Some v), _) => FspValue v (n + 1) buf
      | (Err e, _) => FspError e
      | (Panic, _) => FspError decompression_failed
      end
  end.
Definition fsp_first (byte mask n : Z) (buf : bytes) : fsp_int :=
  match q_first_byte byte mask with inl v => FspValue v n buf | inr d => fsp_loop d n buf end.

Definition fsp_decode (buf : bytes) : qdec QRepresentation ReprDecodeState :=
  match buf with
  | [] => NeedMore FiledSectionPrefix
  | b :: buf =>
      match fsp_first b PrefixMask.REQUIRE_INSERT_COUNT 1 buf with
      | FspMore => NeedMore FiledSectionPrefix
      | FspError e => Error e
      | FspValue ric n buf =>
          match buf with
          | [] | [_] => NeedMore FiledSectionPrefix
          | byte :: buf =>
              let signal := bit_set byte 0x80 in
              match fsp_first byte PrefixMask.DELTA_BASE (n + 1) buf with
              | FspMore => NeedMore FiledSectionPrefix
              | FspError e => Error e
              | FspValue delta_base n _ => Decoded n (FieldSectionPrefix ric signal delta_base)
              end
          end
      end
  end.

Definition repr_value_decode (repr : ReprPrefixBit.t) (mid_bit : MidBit.t) (name : QName) (inner : QLiteralString)
    (buf : bytes) : qdec QRepresentation ReprDecodeState :=
  match repr, literal_decode inner buf with
  | ReprPrefixBit.LITERALWITHINDEXING, Decoded n value => Decoded n (LiteralWithIndexing mid_bit name value)
  | ReprPrefixBit.LITERALWITHPOSTINDEXING, Decoded n value => Decoded n (LiteralWithPostIndexing mid_bit name value)
  | ReprPrefixBit.LITERALWITHLITERALNAME, Decoded n value => Decoded n (LiteralWithLiteralName mid_bit name value)
  | _, NeedMore inner => NeedMore (ReprValueString repr mid_bit name inner)
  | _, _ => Error decompression_failed
  end.

Definition repr_name_decode (prefix : ReprPrefixBit.t) (mid_bit : MidBit.t) (inner : QLiteralString) (buf : bytes) :
    qdec QRepresentation ReprDecodeState :=
  match literal_decode inner buf with
  | Decoded n octets => after n (repr_value_decode prefix mid_bit (QLiteral octets) LengthFirstByte (from n buf))
  | NeedMore inner => NeedMore (ReprNameAndValue prefix mid_bit inner)
  | Error e => Error e
  end.

Definition repr_index_decode (inner : ReprIndexInner) (buf : bytes) : qdec QRepresentation ReprDecodeState :=
  match repr_inner_decode inner buf with
  | Decoded n (ReprPrefixBit.INDEXED, mid_bit, index) => Decoded n (Indexed mid_bit index)
  | Decoded n (ReprPrefixBit.INDEXEDWITHPOSTINDEX, _, index) => Decoded n (IndexedWithPostIndex index)
  | Decoded n (ReprPrefixBit.LITERALWITHINDEXING as p, mid_bit, index)
  | Decoded n (ReprPrefixBit.LITERALWITHPOSTINDEXING as p, mid_bit, index) =>
      after n (repr_value_decode p mid_bit (QIndex index) LengthFirstByte (from n buf))
  | Decoded n (ReprPrefixBit.LITERALWITHLITERALNAME as p, mid_bit, namelen) =>
      after n (repr_name_decode p mid_bit (name_start mid_bit namelen) (from n buf))
  | NeedMore inner => NeedMore (ReprIndex inner)
  | Error e => Error e
  end.

Definition repr_state_decode (s : ReprDecodeState) (buf : bytes) : qdec QRepresentation ReprDecodeState :=
  match s with
  | FiledSectionPrefix => fsp_decode buf
  | ReprIndex inner => repr_index_decode inner buf
  | ReprValueString r m n i => repr_value_decode r m n i buf
  | ReprNameAndValue p m i => repr_name_decode p m i buf
  end.

(** [ReprDecoder::decode] with the state it works on. *)
Definition repr_decode (buf : bytes) (st : option ReprDecodeState) :
    res QpackError (option (Z * QRepresentation)) * option ReprDecodeState :=
  match buf with
  | [] => (Ok None, st)
  | _ =>
      match repr_state_decode (default FiledSectionPrefix st) buf with
      | NeedMore s => (Ok None, Some s)
      | Decoded n r => (Ok (Some (n, r)), if len buf <=? n then None else Some (ReprIndex FirstByte))
      | Error e => (Err e, None)
      end
  end.

(** ** Instructions of the encoder stream *)

Inductive InstDecodeState :=
| EncInstIndex (inner : InstIndexInner)
| InstValueString (inst : EncoderInstPrefixBit.t) (mid_bit : MidBit.t) (name : QName) (inner : QLiteralString)
| InstNameAndValue (prefix : EncoderInstPrefixBit.t) (mid_bit : MidBit.t) (inner : QLiteralString).

(** [NeedMore] is an error here, too. *)
Definition inst_value_decode (inst : EncoderInstPrefixBit.t) (mid_bit : MidBit.t) (name : QName) (inner : QLiteralString)
    (buf : bytes) : qdec EncoderInstruction InstDecodeState :=
  match inst, literal_decode inner buf with
  | EncoderInstPrefixBit.INSERT_WITH_INDEX, Decoded n value => Decoded n (InsertWithIndex mid_bit name value)
  | EncoderInstPrefixBit.INSERT_WITH_LITERAL, Decoded n value => Decoded n (InsertWithLiteral mid_bit name value)
  | _, _ => Error decompression_failed
  end.

Definition inst_name_decode (prefix : EncoderInstPrefixBit.t) (mid_bit : MidBit.t) (inner : QLiteralString) (buf : bytes) :
    qdec EncoderInstruction InstDecodeState :=
  match literal_decode inner buf with
  | Decoded n octets => after n (inst_value_decode prefix mid_bit (QLiteral octets) LengthFirstByte (from n buf))
  | NeedMore inner => NeedMore (InstNameAndValue prefix mid_bit inner)
  | Error e => Error e
  end.

Definition inst_index_decode (inner : InstIndexInner) (buf : bytes) : qdec EncoderInstruction InstDecodeState :=
  match inst_inner_decode inner buf with
  | Decoded n (EncoderInstPrefixBit.SET_CAP, _, index) => Decoded n (SetCap index)
  | Decoded n (EncoderInstPrefixBit.INSERT_WITH_INDEX as p, mid_bit, index) =>
      after n (inst_value_decode p mid_bit (QIndex index) LengthFirstByte (from n buf))
  | Decoded n (EncoderInstPrefixBit.INSERT_WITH_LITERAL as p, mid_bit, namelen) =>
      after n (inst_name_decode p mid_bit (name_start mid_bit namelen) (from n buf))
  | Decoded n (EncoderInstPrefixBit.DUPLICATE, _, index) => Decoded n (Duplicate index)
  | NeedMore inner => NeedMore (EncInstIndex inner)
  | Error e => Error e
  end.

Definition inst_state_decode (s : InstDecodeState) (buf : bytes) : qdec EncoderInstruction InstDecodeState :=
  match s with
  | EncInstIndex inner => inst_index_decode inner buf
  | InstValueString i m n l => inst_value_decode i m n l buf
  | InstNameAndValue p m i => inst_name_decode p m i buf
  end.

(** [EncInstDecoder::decode] with the state it works on. *)
Definition inst_decode (buf : bytes) (st : option InstDecodeState) :
    res QpackError (option (Z * EncoderInstruction)) * option InstDecodeState :=
  match buf with
  | [] => (Ok None, st)
  | _ =>
      match inst_state_decode (default (EncInstIndex FirstByte) st) buf with
      | NeedMore s => (Ok None, Some s)
      | Decoded n i => (Ok (Some (n, i)), None)
      | Error e => (Err e, None)
      end
  end.
