(* ===== verification/QpackDecoder.v ===== *)
(** The QPACK decoder ([h3/qpack/decoder.rs]): it takes the instructions of the peer's
    encoder into its dynamic table and decodes field sections, holding back those that
    refer to insertions still to come. *)
From S2P Require Import Prelude Buffers Headers Parts HpackTable HpackInteger HpackReprEncoder H3Error H3Frame H3FrameDecoder QpackTable QpackFormat.

Definition encoder_stream_error : QpackError := QpackConnectionError EncoderStreamError.

Module ReprMessage.
Record t := mk {
  require_insert_count : Z;
  base : Z;
  repr_state : option ReprDecodeState;
  remaining : option bytes;
  parts : H3Parts.t;
  header_size : Z;
}.
Definition new : t := mk 0 0 None None H3Parts.new 0.
Definition set_repr_state (m : t) (s : option ReprDecodeState) : t :=
  mk (require_insert_count m) (base m) s (remaining m) (parts m) (header_size m).
Definition set_remaining (m : t) (r : option bytes) : t :=
  mk (require_insert_count m) (base m) (repr_state m) r (parts m) (header_size m).
Definition set_prefix (m : t) (ric b : Z) : t := mk ric b (repr_state m) (remaining m) (parts m) (header_size m).
Definition set_lines (m : t) (p : H3Parts.t) (size : Z) : t :=
  mk (require_insert_count m) (base m) (repr_state m) (remaining m) p size.
End ReprMessage.

(** ** [Updater]: instructions *)

Definition from_utf8 (octets : bytes) (e : QpackError) : res QpackError bytes :=
  if utf8_valid octets then Ok octets else Err e.

Module Updater.
Definition get_field_by_name_and_value (table : QDynamicTable.t) (mid_bit : MidBit.t) (name : QName) (value : bytes)
    (insert_count : Z) : res QpackError (Header.t * bytes) :=
  h ← match name with
      | QIndex index =>
          match MidBit.t_ mid_bit with
          | Some true => ok_or (QTableSearcher.find_field_name_static index) encoder_stream_error
          | _ =>
              i ← usub insert_count index; i ← usub i 1;
              o ← QTableSearcher.find_field_name_dynamic table i; ok_or o encoder_stream_error
          end
      | QLiteral octets => s ← from_utf8 octets encoder_stream_error; Ok (Header.Other s)
      end;
  v ← from_utf8 value encoder_stream_error;
  Ok (h, v).
Definition update_table (table : QDynamicTable.t) (mid_bit : MidBit.t) (name : QName) (value : bytes) :
    res QpackError QDynamicTable.t :=
  '(f, v) ← get_field_by_name_and_value table mid_bit name value (QDynamicTable.insert_count table);
  Ok (QDynamicTable.update table f v).2.
Definition duplicate (table : QDynamicTable.t) (index : Z) : res QpackError QDynamicTable.t :=
  i ← usub (QDynamicTable.insert_count table) index; i ← usub i 1;
  o ← QTableSearcher.find_field_dynamic table i;
  '(f, v) ← ok_or o encoder_stream_error;
  Ok (QDynamicTable.update table f v).2.
Definition update_capacity (table : QDynamicTable.t) (capacity : Z) : res QpackError QDynamicTable.t :=
  QDynamicTable.update_size table capacity.
End Updater.

(** ** [Searcher]: field lines *)

Definition field_line_length (key_size value_size : Z) : Z := key_size + value_size + 32.

Module Searcher.
Record t := mk { max_field_section_size : Z; table : QDynamicTable.t; base : Z }.

(** [self.lines.parts.update(f, v)]; a malformed field panics. *)
Definition add (m : ReprMessage.t) (f : Header.t) (v : bytes) : res QpackError ReprMessage.t :=
  p ← H3Parts.update (ReprMessage.parts m) f v;
  Ok (ReprMessage.set_lines m p (ReprMessage.header_size m)).
Definition check_field_list_size (s : t) (m : ReprMessage.t) (key : Header.t) (value : bytes) : res QpackError ReprMessage.t :=
  let size := ReprMessage.header_size m + field_line_length (Header.hlen key) (len value) in
  if max_field_section_size s <? size then Err decompression_failed
  else Ok (ReprMessage.set_lines m (ReprMessage.parts m) size).

Definition search_indexed (s : t) (mid_bit : MidBit.t) (index : Z) (m : ReprMessage.t) : res QpackError ReprMessage.t :=
  match MidBit.t_ mid_bit with
  | Some true =>
      '(f, v) ← ok_or (QTableSearcher.find_field_static index) decompression_failed; add m f v
  | _ =>
      i ← usub (base s) index; i ← usub i 1;
      o ← QTableSearcher.find_field_dynamic (table s) i;
      '(f, v) ← ok_or o decompression_failed; add m f v
  end.
Definition search_post_indexed (s : t) (index : Z) (m : ReprMessage.t) : res QpackError ReprMessage.t :=
  i ← uadd (base s) index;
  o ← QTableSearcher.find_field_dynamic (table s) i;
  '(f, v) ← ok_or o decompression_failed;
  m ← check_field_list_size s m f v; add m f v.

(** [with_indexing]: the representation is LITERALWITHINDEXING. *)
Definition get_field_by_name_and_value (s : t) (mid_bit : MidBit.t) (name : QName) (value : bytes) (with_indexing : bool) :
    res QpackError (Header.t * bytes) :=
  h ← match name with
      | QIndex index =>
          if with_indexing then
            match MidBit.t_ mid_bit with
            | Some true => ok_or (QTableSearcher.find_field_name_static index) decompression_failed
            | _ =>
                i ← usub (base s) index; i ← usub i 1;
                o ← QTableSearcher.find_field_name_dynamic (table s) i; ok_or o decompression_failed
            end
          else
            i ← uadd (base s) index;
            o ← QTableSearcher.find_field_name_dynamic (table s) i; ok_or o decompression_failed
      | QLiteral octets => x ← from_utf8 octets decompression_failed; Ok (Header.Other x)
      end;
  v ← from_utf8 value decompression_failed;
  Ok (h, v).
Definition search_literal (s : t) (mid_bit : MidBit.t) (name : QName) (value : bytes) (with_indexing : bool)
    (m : ReprMessage.t) : res QpackError ReprMessage.t :=
  '(f, v) ← get_field_by_name_and_value s mid_bit name value with_indexing;
  m ← check_field_list_size s m f v; add m f v.
Definition search_literal_with_indexing s mid_bit name value m := search_literal s mid_bit name value true m.
Definition search_literal_with_post_indexing s mid_bit name value m := search_literal s mid_bit name value false m.
Definition search_listeral_with_literal s mid_bit name value m := search_literal s mid_bit name value false m.
End Searcher.

(** ** [QpackDecoder] *)

Module QpackDecoder.
Record t := mk {
  table : QDynamicTable.t;
  inst_state : option InstDecodeState;
  streams : gmap Z ReprMessage.t;
  blocked : gmap Z Z;
  max_blocked_streams : Z;
  max_table_capacity : Z;
  max_field_section_size : Z;
}.
Abbreviation m := (M t QpackError).
Definition new (max_blocked_streams max_table_capacity : Z) : t :=
  mk QDynamicTable.with_empty None ∅ ∅ max_blocked_streams max_table_capacity (2 ^ 62 - 1).
Definition set_table (d : t) (x : QDynamicTable.t) : t :=
  mk x (inst_state d) (streams d) (blocked d) (max_blocked_streams d) (max_table_capacity d) (max_field_section_size d).
Definition set_inst_state (d : t) (x : option InstDecodeState) : t :=
  mk (table d) x (streams d) (blocked d) (max_blocked_streams d) (max_table_capacity d) (max_field_section_size d).
Definition set_streams (d : t) (x : gmap Z ReprMessage.t) : t :=
  mk (table d) (inst_state d) x (blocked d) (max_blocked_streams d) (max_table_capacity d) (max_field_section_size d).
Definition set_blocked (d : t) (x : gmap Z Z) : t :=
  mk (table d) (inst_state d) (streams d) x (max_blocked_streams d) (max_table_capacity d) (max_field_section_size d).
Definition set_max_field_section_size (d : t) (size : Z) : t :=
  mk (table d) (inst_state d) (streams d) (blocked d) (max_blocked_streams d) (max_table_capacity d) size.

Definition finish_stream (id : Z) : m () := λ d,
  match blocked d !! id with
  | Some _ => (Err (QpackConnectionError DecoderStreamError), d)
  | None => (Ok (), set_streams d (delete id (streams d)))
  end.

(** The effect of an instruction on the table. *)
Definition execute (i : EncoderInstruction) (d : t) : res QpackError QDynamicTable.t :=
  match i with
  | SetCap capacity =>
      if max_table_capacity d <? capacity then Err decompression_failed else Updater.update_capacity (table d) capacity
  | InsertWithIndex mid_bit name value | InsertWithLiteral mid_bit name value =>
      Updater.update_table (table d) mid_bit name value
  | Duplicate index => Updater.duplicate (table d) index
  end.
(** The [while] loop of [decode_ins]; every turn takes a byte or leaves. *)
Fixpoint ins_loop (fuel : nat) (buf : bytes) : m () := λ d,
  match fuel with
  | O => (Panic, d)
  | S fuel =>
      match buf with
      | [] => (Ok (), d)
      | _ =>
          let '(r, s) := inst_decode buf (inst_state d) in
          let d := set_inst_state d s in
          match r with
          | Ok (Some (offset, inst)) =>
              match execute inst d with
              | Ok table => ins_loop fuel (from offset buf) (set_table d table)
              | Err e => (Err e, d)
              | Panic => (Panic, d)
              end
          | Ok None => (Ok (), d)
          | Err e => (Err e, d)
          | Panic => (Panic, d)
          end
      end
  end.
(** The streams that are no longer blocked, in the order of the hash map. *)
Definition unblock : m (list Z) := λ d,
  let insert_count := QDynamicTable.insert_count (table d) in
  (Ok (filter (λ x : Z * Z, x.2 ≤ insert_count) (map_to_list (blocked d))).*1,
   set_blocked d (filter (λ x : Z * Z, insert_count < x.2) (blocked d))).
Definition decode_ins (buf : bytes) : m (list Z) := _ ← ins_loop (S (length buf)) buf; unblock.

(** [Required Insert Count] of a prefix that is not 0. *)
Definition required_count (table : QDynamicTable.t) (ric : Z) : res QpackError Z :=
  let max_entries := QDynamicTable.max_entries table in
  let full_range := 2 * max_entries in
  if full_range <? ric then Err decompression_failed
  else
    let max_value := QDynamicTable.insert_count table + max_entries in
    if full_range =? 0 then Panic
    else
      let count := max_value / full_range * full_range + ric - 1 in
      count ← (if max_value <? count then
                 if count <=? full_range then Err decompression_failed else Ok (count - full_range)
               else Ok count);
      if count =? 0 then Err decompression_failed else Ok count.

(** A field section being decoded: its message and the streams that are blocked. *)
Record section := mk_section { message : ReprMessage.t; sec_blocked : gmap Z Z }.
Definition set_message (s : section) (x : ReprMessage.t) : section := mk_section x (sec_blocked s).

(** The effect of a prefix: whether the stream is blocked now, and its base. *)
Definition start_section (d : t) (stream_id : Z) (ric : Z) (signal : bool) (delta_base : Z) (rest : bytes) (s : section) :
    res QpackError (bool * Z * section) :=
  count ← (if ric =? 0 then Ok 0 else required_count (table d) ric);
  base ← (if signal : bool then x ← usub count delta_base; usub x 1 else uadd count delta_base);
  let msg := ReprMessage.set_prefix (message s) count base in
  if QDynamicTable.insert_count (table d) <? count then
    if max_blocked_streams d <? Z.of_nat (size (sec_blocked s)) then Err decompression_failed
    else Ok (true, base, mk_section (ReprMessage.set_remaining msg (Some rest)) (<[stream_id := count]> (sec_blocked s)))
  else Ok (false, base, set_message s msg).

(** The effect of a field line. *)
Definition field_line (se : Searcher.t) (r : QRepresentation) (msg : ReprMessage.t) : res QpackError ReprMessage.t :=
  match r with
  | Indexed mid_bit index => Searcher.search_indexed se mid_bit index msg
  | IndexedWithPostIndex index => Searcher.search_post_indexed se index msg
  | LiteralWithIndexing mid_bit name value => Searcher.search_literal_with_indexing se mid_bit name value msg
  | LiteralWithPostIndexing mid_bit name value => Searcher.search_literal_with_post_indexing se mid_bit name value msg
  | LiteralWithLiteralName mid_bit name value => Searcher.search_listeral_with_literal se mid_bit name value msg
  | FieldSectionPrefix _ _ _ => Ok msg
  end.

(** The [loop] of [decode_buffered_repr]: [base] is that of the searcher, 0 at first. *)
Fixpoint repr_loop (fuel : nat) (d : t) (stream_id base : Z) (buf : bytes) : M section QpackError FieldDecodeState := λ s,
  match fuel with
  | O => (Panic, s)
  | S fuel =>
      let '(r, st) := repr_decode buf (ReprMessage.repr_state (message s)) in
      let s := set_message s (ReprMessage.set_repr_state (message s) st) in
      match r with
      | Ok None => (Ok FieldDecoded, s)
      | Ok (Some (offset, FieldSectionPrefix ric signal delta_base)) =>
          match start_section d stream_id ric signal delta_base (from offset buf) s with
          | Ok (true, _, s) => (Ok FieldBlocked, s)
          | Ok (false, base, s) => repr_loop fuel d stream_id base (from offset buf) s
          | Err e => (Err e, s)
          | Panic => (Panic, s)
          end
      | Ok (Some (offset, repr)) =>
          match field_line (Searcher.mk (max_field_section_size d) (table d) base) repr (message s) with
          | Ok msg => repr_loop fuel d stream_id base (from offset buf) (set_message s msg)
          | Err e => (Err e, s)
          | Panic => (Panic, s)
          end
      | Err e => (Err e, s)
      | Panic => (Panic, s)
      end
  end.
Definition decode_buffered_repr (buf : bytes) (stream_id : Z) (d : t) : M section QpackError FieldDecodeState :=
  match buf with [] => mret FieldDecoded | _ => repr_loop (S (length buf)) d stream_id 0 buf end.

Definition decode_repr (buf : bytes) (stream_id : Z) : m FieldDecodeState := λ d,
  match blocked d !! stream_id with
  | Some _ => (Err (QpackInternalError StreamBlocked), d)
  | None =>
      let d' := set_streams d (delete stream_id (streams d)) in
      let first : res QpackError FieldDecodeState * section :=
        match streams d !! stream_id with
        | None => (Ok FieldDecoded, mk_section ReprMessage.new (blocked d))
        | Some msg =>
            match ReprMessage.remaining msg with
            | Some vec => decode_buffered_repr vec stream_id d' (mk_section (ReprMessage.set_remaining msg None) (blocked d))
            | None => (Ok FieldDecoded, mk_section msg (blocked d))
            end
        end in
      match first with
      | (Ok _, s) =>
          match decode_buffered_repr buf stream_id (set_blocked d' (sec_blocked s)) s with
          | (Ok state, s) =>
              (Ok state, set_blocked (set_streams d' (<[stream_id := message s]> (streams d'))) (sec_blocked s))
          | (Err e, s) => (Err e, set_blocked d' (sec_blocked s))
          | (Panic, s) => (Panic, set_blocked d' (sec_blocked s))
          end
      | (Err e, s) => (Err e, set_blocked d' (sec_blocked s))
      | (Panic, s) => (Panic, set_blocked d' (sec_blocked s))
      end
  end.

(** [Integer::index(pre, i, mask).encode]; an identifier is written in at most 11 bytes. *)
Definition integer_bytes (pre i mask : Z) : bytes := (emit 12 (IntegerEncoder.new i mask pre)).1.

(** [finish]: the header list and the acknowledgment, if there is one. *)
Definition finish (stream_id : Z) : m (H3Parts.t * option bytes) := λ d,
  match streams d !! stream_id with
  | None => (Err decompression_failed, d)
  | Some msg =>
      let d := set_streams d (delete stream_id (streams d)) in
      match ReprMessage.repr_state msg with
      | Some _ => (Err decompression_failed, d)
      | None =>
          (Ok (ReprMessage.parts msg,
               if 0 <? ReprMessage.require_insert_count msg then Some (integer_bytes 0x80 stream_id 0x7f) else None), d)
      end
  end.

(** [stream_cancel] with a buffer of [cap] bytes: what it writes there. *)
Definition stream_cancel (cap stream_id : Z) : m bytes := λ d,
  if 0 <? QDynamicTable.capacity (table d) then
    let d := set_streams (set_blocked d (delete stream_id (blocked d))) (delete stream_id (streams d)) in
    let res := integer_bytes 0x40 stream_id 0x3f in
    if cap <? len res then (Err decompression_failed, d) else (Ok res, d)
  else (Ok [], d).
End QpackDecoder.

(** The QPACK decoder behind the HTTP/3 stream decoder; [cap] is the length of the
    buffer the caller of [cancel_stream] gives. *)
Definition qpack_decoder_ops (cap : Z) : QpackDecoderOps QpackDecoder.t := {|
  qpack_decode_repr := QpackDecoder.decode_repr;
  qpack_finish := QpackDecoder.finish;
  qpack_decode_ins := QpackDecoder.decode_ins;
  qpack_stream_cancel := QpackDecoder.stream_cancel cap;
  qpack_finish_stream := QpackDecoder.finish_stream;
|}.
