(* ===== verification/QpackEncoder.v ===== *)
(** The QPACK encoder ([h3/qpack/format/encoder.rs], [h3/qpack/encoder.rs]): how it
    writes representations and instructions, how it looks a field up and takes it into
    the dynamic table, what it keeps of field sections that are not acknowledged, and
    the instructions of the decoder stream. *)
From S2P Require Import Prelude Buffers Huffman Headers Parts HpackTable HpackInteger HpackReprEncoder H3Error H3Frame.
From S2P Require Import H3FrameEncoder QpackTable QpackFormat QpackDecoder.

(** * Representations and instructions *)

(** The names are those of the structs; each function is [new] followed by [encode]. *)
Module QWrite.
(** [Integer::length] *)
Definition length (n : Z) (is_huffman : bool) : bytes := QpackDecoder.integer_bytes (pre_mask is_huffman) n 0x7f.
(** [Octets] *)
Definition octets (src : bytes) (is_huffman : bool) : bytes := if is_huffman then huffman_encode src [] else src.

Definition index_and_value (pre index mask : Z) (value : bytes) (is_huffman : bool) : bytes :=
  let v := octets value is_huffman in
  QpackDecoder.integer_bytes pre index mask ++ length (len v) is_huffman ++ v.
(** The length of the name is that in [index]. *)
Definition name_and_value (pre index mask : Z) (name value : bytes) (is_huffman : bool) : bytes :=
  let v := octets value is_huffman in
  QpackDecoder.integer_bytes pre index mask ++ octets name is_huffman ++ length (len v) is_huffman ++ v.

Definition SetCap (capacity : Z) : bytes := QpackDecoder.integer_bytes 0x20 capacity PrefixMask.SET_CAP.
Definition Duplicate (index : Z) : bytes := QpackDecoder.integer_bytes 0x00 index PrefixMask.DUPLICATE.
Definition Indexed (index : Z) (is_static : bool) : bytes :=
  QpackDecoder.integer_bytes (if is_static then 0xc0 else 0x80) index PrefixMask.INDEXED.
Definition IndexedWithPost (index : Z) : bytes := QpackDecoder.integer_bytes 0x10 index PrefixMask.INDEXED_WITH_POST_NAME.
Definition InsertWithName (index : Z) (value : bytes) (is_huffman is_static : bool) : bytes :=
  index_and_value (if is_static then 0xc0 else 0x80) index PrefixMask.INSERT_WITH_INDEX value is_huffman.
Definition IndexingWithName (index : Z) (value : bytes) (is_huffman is_static no_permit : bool) : bytes :=
  let pre := match no_permit, is_static with
             | true, true => 0x70 | true, false => 0x60 | false, true => 0x50 | false, false => 0x40
             end in
  index_and_value pre index PrefixMask.INDEXING_WITH_NAME value is_huffman.
Definition IndexingWithPostName (index : Z) (value : bytes) (is_huffman no_permit : bool) : bytes :=
  index_and_value (if no_permit then 0x08 else 0x00) index PrefixMask.INDEXED_WITH_POST_NAME value is_huffman.
Definition IndexingWithLiteral (name value : bytes) (is_huffman no_permit : bool) : bytes :=
  let pre := match no_permit, is_huffman with
             | true, true => 0x38 | true, false => 0x30 | false, true => 0x28 | false, false => 0x20
             end in
  name_and_value pre (len name) PrefixMask.INSERT_WITH_LITERAL name value is_huffman.
Definition InsertWithLiteral (name value : bytes) (is_huffman : bool) : bytes :=
  name_and_value (if is_huffman then 0x60 else 0x40) (len name) PrefixMask.INSERT_WITH_LITERAL name value is_huffman.
End QWrite.

(** * The encoder of a field section *)

Module QReprEncoder.
(** The table, and what has been written: field lines, instructions, entries referred to. *)
Record t := mk { table : QDynamicTable.t; ref_fields : gset Z; inst : bytes; fields : bytes }.
Definition write (x : bytes) (e : t) : t := mk (table e) (ref_fields e) (inst e) (fields e ++ x).
Definition instruct (x : bytes) (e : t) : t := mk (table e) (ref_fields e) (inst e ++ x) (fields e).
Definition set_table (d : QDynamicTable.t) (e : t) : t := mk d (ref_fields e) (inst e) (fields e).
Definition add_ref (index : Z) (e : t) : t := mk (table e) ({[index]} ∪ ref_fields e) (inst e) (fields e).

Section Field.
Context (base : Z) (is_huffman : bool).

Definition search_filed_from_table (d : QDynamicTable.t) (h : Header.t) (v : bytes) (allow_block : bool) : SearchResult :=
  match QTableSearcher.search_in_static h v with
  | Field index => StaticIndex index
  | r =>
      let search_result := match r with FieldName index => StaticNameIndex index | _ => NotFound end in
      match QTableSearcher.search_in_dynamic d h v allow_block with
      | Field index => DynamicIndex index
      | FieldName index => match search_result with NotFound => DynamicNameIndex index | s => s end
      | NoIndex => search_result
      end
  end.

Definition indexed_dynamic_field (index : Z) : bytes :=
  if base <=? index then QWrite.IndexedWithPost (index - base) else QWrite.Indexed (base - index - 1) false.
Definition indexed_name_ref_with_literal_field (index : Z) (field_v : bytes) : bytes :=
  if base <=? index then QWrite.IndexingWithPostName (index - base) field_v is_huffman false
  else QWrite.InsertWithName (base - index - 1) field_v is_huffman false.

Definition add_field_to_dynamic (h : Header.t) (v : bytes) (e : t) : res QpackError (option Z * t) :=
  let header_size := Header.hlen h + len v + 32 in
  o ← QDynamicTable.can_evict (table e) header_size;
  match o with
  | Some n =>
      let e := instruct (QWrite.InsertWithLiteral (Header.into_string h) v is_huffman) e in
      d ← QDynamicTable.evict_drained (Z.to_nat n) (table e);
      let '(i, d) := QDynamicTable.update d h v in Ok (Some i, set_table d e)
  | None => Ok (None, instruct (QWrite.IndexingWithLiteral (Header.into_string h) v is_huffman false) e)
  end.

(** [if ref_fields.insert(index) { self.table.track_field(index) }] *)
Definition refer (index : Z) (e : t) : res QpackError t :=
  if bool_decide (index ∈ ref_fields e) then Ok e
  else d ← QDynamicTable.track_field (table e) index; Ok (set_table d (add_ref index e)).
Definition literal (h : Header.t) (v : bytes) : bytes :=
  QWrite.IndexingWithLiteral (Header.into_string h) v is_huffman false.

Definition encode_field (allow_block : bool) (h : Header.t) (v : bytes) (e : t) : res QpackError (option Z * t) :=
  match search_filed_from_table (table e) h v allow_block with
  | StaticIndex index => Ok (None, write (QWrite.Indexed index true) e)
  | StaticNameIndex index => Ok (None, write (QWrite.IndexingWithName index v is_huffman true false) e)
  | DynamicIndex index =>
      e ← refer index (write (indexed_dynamic_field index) e); Ok (Some index, e)
  | DynamicNameIndex index =>
      e ← refer index (write (indexed_name_ref_with_literal_field index v) e); Ok (Some index, e)
  | NotFound =>
      if allow_block then
        '(o, e) ← add_field_to_dynamic h v e;
        match o with
        | Some index =>
            let e := add_ref index (write (indexed_dynamic_field index) e) in
            d ← QDynamicTable.track_field (table e) index; Ok (Some index, set_table d e)
        | None => Ok (None, write (literal h v) e)
        end
      else Ok (None, write (literal h v) e)
  end.

(** The [while let] loop over the fields, with the largest entry referred to. *)
Fixpoint fields_loop (fuel : nat) (allow_block : bool) (iter : PartsIter.t) (max_dynamic : Z) (e : t) :
    res QpackError (Z * t) :=
  match fuel with
  | O => Ok (max_dynamic, e)
  | S fuel =>
      match PartsIter.next iter with
      | (None, _) => Ok (max_dynamic, e)
      | (Some (h, v), iter) =>
          '(o, e) ← encode_field allow_block h v e;
          fields_loop fuel allow_block iter (match o with Some i => Z.max max_dynamic i | None => max_dynamic end) e
      end
  end.

Definition get_prefix (d : QDynamicTable.t) (max_ref : Z) : res QpackError bytes :=
  let required_insert_count := max_ref + 1 in
  if max_ref =? 0 then Ok (QpackDecoder.integer_bytes 0x00 0 0xff ++ QpackDecoder.integer_bytes 0x00 0 0x7f)
  else if 2 * QDynamicTable.max_entries d =? 0 then Panic
  else
    let wire_ric := required_insert_count mod (2 * QDynamicTable.max_entries d) + 1 in
    Ok (QpackDecoder.integer_bytes 0x00 wire_ric 0xff ++
        if required_insert_count <=? base then QpackDecoder.integer_bytes 0x00 (base - required_insert_count) 0x7f
        else QpackDecoder.integer_bytes 0x80 (required_insert_count - base - 1) 0x7f).
End Field.

(** What is kept of a stream: the entries that each of its field sections refers to. *)
Definition UnackFields : Type := list (gset Z).
Definition max_unacked_index (u : UnackFields) : option Z :=
  match elements (⋃ u) with [] => None | i :: l => Some (foldr Z.max i l) end.

(** [iterate_encode_fields]: the field section, the instructions after [inst], the
    table, the streams tracked and the count of those blocked. *)
Definition iterate_encode_fields (stream_id base : Z) (is_huffman : bool) (field_iter : option PartsIter.t)
    (track_map : gmap Z UnackFields) (blocked_cnt : Z) (allow_block : bool) (d : QDynamicTable.t) (inst : bytes) :
    res QpackError (bytes * bytes * QDynamicTable.t * gmap Z UnackFields * Z) :=
  let e := mk d ∅ inst [] in
  '(max_dynamic, e) ← match field_iter with
                      | Some iter => fields_loop base is_huffman (ReprEncoder.loop_fuel iter) allow_block iter 0 e
                      | None => Ok (0, e)
                      end;
  prefix ← get_prefix base (table e) max_dynamic;
  Ok (prefix ++ fields e, QReprEncoder.inst e, table e,
      (if bool_decide (ref_fields e = ∅) then track_map
       else <[stream_id := default [] (track_map !! stream_id) ++ [ref_fields e]]> track_map),
      if QDynamicTable.known_received_count (table e) <? max_dynamic then blocked_cnt + 1 else blocked_cnt).
End QReprEncoder.

(** * Instructions of the decoder stream *)

Module DecoderInstPrefixBit.
Inductive t := ACK | STREAM_CANCEL | INSERT_COUNT_INCREMENT.
Definition from_u8 (byte : Z) : t :=
  if Z.land byte 0x80 =? 0x80 then ACK
  else if Z.land byte 0xC0 =? 0x40 then STREAM_CANCEL
  else INSERT_COUNT_INCREMENT.
Definition prefix_index_mask (p : t) : Z :=
  match p with
  | ACK => PrefixMask.ACK
  | STREAM_CANCEL => PrefixMask.STREAM_CANCEL
  | INSERT_COUNT_INCREMENT => PrefixMask.INSERT_COUNT_INCREMENT
  end.
Definition prefix_midbit_value (p : t) (byte : Z) : MidBit.t := MidBit.none.
End DecoderInstPrefixBit.

Inductive DecoderInstruction := Ack (stream_id : Z) | StreamCancel (stream_id : Z) | InsertCountIncrement (increment : Z).

Definition decoder_stream_error : QpackError := QpackConnectionError DecoderStreamError.
Definition DecInstIndexInner : Type := IndexInner DecoderInstPrefixBit.t.
Definition dec_inst_inner_decode : DecInstIndexInner → bytes → qdec (DecoderInstPrefixBit.t * MidBit.t * Z) DecInstIndexInner :=
  index_inner_decode DecoderInstPrefixBit.from_u8 DecoderInstPrefixBit.prefix_index_mask DecoderInstPrefixBit.prefix_midbit_value.
(** [DecInstIndex::decode]; [NeedMore] is an error. *)
Definition dec_inst_index_decode (inner : DecInstIndexInner) (buf : bytes) : qdec DecoderInstruction DecInstIndexInner :=
  match dec_inst_inner_decode inner buf with
  | Decoded n (DecoderInstPrefixBit.ACK, _, index) => Decoded n (Ack index)
  | Decoded n (DecoderInstPrefixBit.STREAM_CANCEL, _, index) => Decoded n (StreamCancel index)
  | Decoded n (DecoderInstPrefixBit.INSERT_COUNT_INCREMENT, _, index) => Decoded n (InsertCountIncrement index)
  | Error e => Error e
  | NeedMore _ => Error decoder_stream_error
  end.
Definition dec_inst_decode (buf : bytes) (st : option DecInstIndexInner) :
    res QpackError (option (Z * DecoderInstruction)) * option DecInstIndexInner :=
  match buf with
  | [] => (Ok None, st)
  | _ =>
      match dec_inst_index_decode (default FirstByte st) buf with
      | NeedMore s => (Ok None, Some s)
      | Decoded n i => (Ok (Some (n, i)), None)
      | Error e => (Err e, None)
      end
  end.

(** * [QpackEncoder] *)

Module QpackEncoder.
(** [field_state], [insert_length] and [required_insert_count] are never read. *)
Record t := mk {
  max_blocked_streams : Z;
  blocked_stream_nums : Z;
  capacity_to_update : option Z;
  tracked_stream : gmap Z QReprEncoder.UnackFields;
  table : QDynamicTable.t;
  is_huffman : bool;
  field_iter : option PartsIter.t;
  inst_state : option DecInstIndexInner;
}.
Abbreviation m := (M t QpackError).
Definition default : t := mk 0 0 None ∅ QDynamicTable.with_empty true None None.
Definition set_blocked_nums (e : t) (n : Z) : t :=
  mk (max_blocked_streams e) n (capacity_to_update e) (tracked_stream e) (table e) (is_huffman e) (field_iter e) (inst_state e).
Definition set_capacity_to_update (e : t) (c : option Z) : t :=
  mk (max_blocked_streams e) (blocked_stream_nums e) c (tracked_stream e) (table e) (is_huffman e) (field_iter e) (inst_state e).
Definition set_tracked (e : t) (s : gmap Z QReprEncoder.UnackFields) : t :=
  mk (max_blocked_streams e) (blocked_stream_nums e) (capacity_to_update e) s (table e) (is_huffman e) (field_iter e) (inst_state e).
Definition set_table (e : t) (d : QDynamicTable.t) : t :=
  mk (max_blocked_streams e) (blocked_stream_nums e) (capacity_to_update e) (tracked_stream e) d (is_huffman e) (field_iter e) (inst_state e).
Definition set_field_iter (e : t) (i : option PartsIter.t) : t :=
  mk (max_blocked_streams e) (blocked_stream_nums e) (capacity_to_update e) (tracked_stream e) (table e) (is_huffman e) i (inst_state e).
Definition set_inst_state (e : t) (s : option DecInstIndexInner) : t :=
  mk (max_blocked_streams e) (blocked_stream_nums e) (capacity_to_update e) (tracked_stream e) (table e) (is_huffman e) (field_iter e) s.

Definition MAX_TABLE_CAPACITY : Z := 2 ^ 30 - 1.
Definition finish_stream (id : Z) (e : t) : res QpackError () :=
  match tracked_stream e !! id with Some _ => Err encoder_stream_error | None => Ok () end.
Definition set_max_table_capacity (max_cap : Z) : m () := λ e,
  if MAX_TABLE_CAPACITY <? max_cap then (Err (QpackConnectionError QpackSettingsError), e)
  else (Ok (), set_capacity_to_update e (Some max_cap)).
Definition set_max_blocked_stream_size (max_blocked : Z) (e : t) : t :=
  mk max_blocked (blocked_stream_nums e) (capacity_to_update e) (tracked_stream e) (table e) (is_huffman e) (field_iter e) (inst_state e).

Definition update_max_dynamic_table_cap (e : t) : res QpackError (bytes * t) :=
  match capacity_to_update e with
  | None => Ok ([], e)
  | Some new_cap =>
      '(o, d) ← QDynamicTable.update_capacity (table e) new_cap;
      let e := set_table e d in
      Ok (match o with Some _ => (QWrite.SetCap new_cap, set_capacity_to_update e None) | None => ([], e) end)
  end.

Section Orders.
(** The orders in which a hash map of headers and a hash set of indices are walked. *)
Context (into_iter : Headers.t → list (HeaderName.t * HeaderValue.t)) (walk : gset Z → list Z).

Definition set_parts (parts : H3Parts.t) (e : t) : t := set_field_iter e (Some (PartsIter.new into_iter parts)).

Definition update_blocked_stream (e : t) : t :=
  let known := QDynamicTable.known_received_count (table e) in
  set_blocked_nums e (len (filter (λ x : Z * QReprEncoder.UnackFields,
    Exists (λ s, Exists (λ i, known < i) (elements s)) x.2) (map_to_list (tracked_stream e)))).
Definition increase_insert_count (increment : Z) (e : t) : res QpackError t :=
  d ← QDynamicTable.increase_known_receive_count (table e) increment; Ok (update_blocked_stream (set_table e d)).

(** The [for] loop of [ack], with [known_received]. *)
Fixpoint ack_loop (known : Z) (d : QDynamicTable.t) (l : list Z) : res QpackError (Z * QDynamicTable.t) :=
  match l with
  | [] => Ok (known, d)
  | index :: l =>
      d ← QDynamicTable.untracked_field d index;
      ack_loop (if known <? index then known + 1 else known) d l
  end.
Definition ack (stream_id : Z) (e : t) : res QpackError t :=
  let known := QDynamicTable.known_received_count (table e) in
  '(known', e) ← match tracked_stream e !! stream_id with
                 | Some (section :: rest) =>
                     '(k, d) ← ack_loop known (table e) (walk section);
                     Ok (k, set_tracked (set_table e d)
                              (match rest with [] => delete stream_id (tracked_stream e)
                                             | _ => <[stream_id := rest]> (tracked_stream e) end))
                 | Some [] => Ok (known, set_tracked e (delete stream_id (tracked_stream e)))
                 | None => Ok (known, e)
                 end;
  let increment := known' - known in
  if 0 <? increment then increase_insert_count increment e else Ok e.

(** The [for_each] of [cancel_stream], with [stream_blocked]. *)
Fixpoint cancel_loop (blocked : bool) (d : QDynamicTable.t) (l : list Z) : res QpackError (bool * QDynamicTable.t) :=
  match l with
  | [] => Ok (blocked, d)
  | index :: l =>
      d ← QDynamicTable.untracked_field d index;
      cancel_loop (blocked || (QDynamicTable.known_received_count d <? index)) d l
  end.
Definition cancel_stream (stream_id : Z) (e : t) : res QpackError t :=
  match tracked_stream e !! stream_id with
  | None => Ok e
  | Some sections =>
      '(blocked, d) ← cancel_loop false (table e) (sections ≫= walk);
      let e := set_table (set_tracked e (delete stream_id (tracked_stream e))) d in
      if blocked : bool then n ← usub (blocked_stream_nums e) 1; Ok (set_blocked_nums e n) else Ok e
  end.

Definition execute (i : DecoderInstruction) (e : t) : res QpackError t :=
  match i with
  | Ack stream_id => ack stream_id e
  | StreamCancel stream_id => cancel_stream stream_id e
  | InsertCountIncrement increment => increase_insert_count increment e
  end.
(** The [loop] of [decode_ins]; every turn takes a byte or leaves. *)
Fixpoint ins_loop (fuel : nat) (buf : bytes) : m () := λ e,
  match fuel with
  | O => (Panic, e)
  | S fuel =>
      let '(r, s) := dec_inst_decode buf (inst_state e) in
      let e := set_inst_state e s in
      match r with
      | Ok (Some (n, i)) =>
          match execute i e with
          | Ok e => ins_loop fuel (from n buf) e
          | Err x => (Err x, e)
          | Panic => (Panic, e)
          end
      | Ok None => (Ok (), e)
      | Err x => (Err x, e)
      | Panic => (Panic, e)
      end
  end.
Definition decode_ins (buf : bytes) : m () := ins_loop (S (length buf)) buf.

Definition reach_max_blocked (e : t) : bool := max_blocked_streams e <=? blocked_stream_nums e.

(** [encode]: the field section and the instructions ([EncodeMessage]). *)
Definition encode (stream_id : Z) (e : t) : res QpackError (bytes * bytes * t) :=
  '(inst, e) ← update_max_dynamic_table_cap e;
  let stream_blocked :=
    match tracked_stream e !! stream_id with
    | Some unacked =>
        match QReprEncoder.max_unacked_index unacked with
        | Some idx => QDynamicTable.known_received_count (table e) <? idx
        | None => false
        end
    | None => false
    end in
  let reach_max_block := reach_max_blocked e in
  '(fields, inst, d, tracked, blocked) ←
    QReprEncoder.iterate_encode_fields stream_id (QDynamicTable.insert_count (table e)) (is_huffman e) (field_iter e)
      (tracked_stream e) (blocked_stream_nums e) (stream_blocked || negb reach_max_block) (table e) inst;
  Ok (fields, inst, set_field_iter (set_blocked_nums (set_tracked (set_table e d) tracked) blocked) None).
End Orders.
End QpackEncoder.

(** The QPACK encoder behind the HTTP/3 frame encoder; [encode] has no errors. *)
Definition qpack_encoder_ops (into_iter : Headers.t → list (HeaderName.t * HeaderValue.t)) (walk : gset Z → list Z) :
    QpackEncoderOps QpackEncoder.t := {|
  qenc_set_parts := QpackEncoder.set_parts into_iter;
  qenc_encode := λ id e,
    match QpackEncoder.encode id e with Ok (fields, inst, e) => (Ok (fields, inst), e) | _ => (Panic, e) end;
  qenc_decode_ins := QpackEncoder.decode_ins walk;
  qenc_finish_stream := QpackEncoder.finish_stream;
  qenc_set_max_table_capacity := QpackEncoder.set_max_table_capacity;
  qenc_set_max_blocked_stream_size := QpackEncoder.set_max_blocked_stream_size;
|}.
