(* ===== verification/QpackRoundtrip.v ===== *)
(** What the QPACK encoder writes, the QPACK decoder reads back, for header lists whose
    names are all in the static table; and what becomes of the other representations
    the encoder writes. *)
From S2P Require Import Prelude Buffers Huffman HpackInteger HpackTable Headers Parts HpackReprEncoder HpackRoundtrip.
From S2P Require Import H3Error H3Frame H3FrameDecoder QpackTable QpackFormat QpackDecoder QpackEncoder.

(** * Integers and strings *)

Lemma integer_bytes_int pre i mask : mask_ok mask pre → is_usize i → QpackDecoder.integer_bytes pre i mask = int_bytes i mask pre.
Proof.
  intros Hm Hi. unfold QpackDecoder.integer_bytes. destruct (emit_spec 12 (IntegerEncoder.new i mask pre)) as (e & -> & _).
  - by split.
  - pose proof (length_int_bytes i mask pre). unfold remaining. simpl. lia.
  - done.
Qed.

Lemma q_trailing_feed {P} (p : P) m d l i rest :
  feed d l = Ok (Some i, rest) → trailing_decode p m d l = Decoded (len l - len rest) (p, m, i).
Proof.
  revert d. induction l as [|b l IH]; intros d; cbn [feed trailing_decode]; [done|]. unfold q_next_byte.
  destruct (IntegerDecoder.next_byte d b) as [[[j|]|e|] d']; simpl; [| |done..]; rewrite len_cons.
  - intros [= <- <-]. f_equal. lia.
  - intros Hf. rewrite (IH _ Hf). simpl. f_equal. lia.
Qed.

Lemma q_length_feed h d l i rest :
  feed d l = Ok (Some i, rest) → rest ≠ [] →
  length_trailing_decode h d l = after (len l - len rest) (string_start h i rest).
Proof.
  intros Hf Hr. revert d Hf. induction l as [|b l IH]; intros d; cbn [feed length_trailing_decode]; [done|].
  unfold q_next_byte. destruct l as [|c l].
  { destruct (IntegerDecoder.next_byte d b) as [[[j|]|e|] d']; simpl; [intros [= <- <-]; done|done..]. }
  destruct (IntegerDecoder.next_byte d b) as [[[j|]|e|] d']; [| |done..]; cbn [mbind res_bind]; rewrite !len_cons.
  - intros [= <- <-]. unfold after. destruct (string_start h j (c :: l)); [|done..]. f_equal. rewrite len_cons. lia.
  - intros Hf. rewrite (IH _ Hf). unfold after. destruct (string_start h i rest); [|done..]. f_equal. rewrite len_cons. lia.
Qed.

(** The first byte of an index carries its prefix and its bits. *)
Section Prefixes.
Context {P : Type} (from_u8 : Z → P) (index_mask : P → Z) (midbit : P → Z → MidBit.t).

Definition carries (p : P) (mb : MidBit.t) (pre : Z) : Prop :=
  ∀ x, 0 ≤ x ≤ index_mask p → from_u8 (Z.lor pre x) = p ∧ midbit p (Z.lor pre x) = mb.

Lemma q_index_decode p mb pre i rest :
  carries p mb pre → mask_ok (index_mask p) pre → is_usize i → bytes_ok rest →
  first_byte_decode from_u8 index_mask midbit (int_bytes i (index_mask p) pre ++ rest) =
    Decoded (len (int_bytes i (index_mask p) pre)) (p, mb, i).
Proof.
  intros Hp Hm Hi Hr. pose proof (int_roundtrip _ _ i rest Hm Hi Hr) as Hd.
  destruct (int_bytes_cons i (index_mask p) pre) as (b & l & Hb & ->). rewrite Hb in *. cbn [app first_byte_decode] in *.
  assert (0 ≤ index_mask p).
  { destruct Hm as (n & ? & -> & _). pose proof (Z.pow_pos_nonneg 2 n). lia. }
  destruct (Hp (Z.min i (index_mask p))) as [-> ->]; [destruct Hi; lia|]. unfold q_first_byte.
  apply decode_int_first in Hd as [[-> Hl]|(d & -> & Hf)].
  - assert (l = []) as -> by (apply (app_inv_tail rest); done). done.
  - rewrite (q_trailing_feed _ _ _ _ _ _ Hf). simpl. f_equal. rewrite len_cons, len_app. lia.
Qed.
End Prefixes.

(** The octets of a string, Huffman-coded or not. *)
Lemma q_octets_decode h v rest :
  bytes_ok v →
  string_start h (len (QWrite.octets v h)) (QWrite.octets v h ++ rest) = Decoded (len (QWrite.octets v h)) v.
Proof.
  intros Hv. pose proof (len_nonneg rest). destruct h; cbn [string_start QWrite.octets].
  - set (o := huffman_encode v []). unfold q_huffman_decode. rewrite len_app, Z.sub_0_r, (proj2 (Z.leb_le _ _)) by lia.
    pose proof (decoder_decode_finish o) as Hd. rewrite (huffman_roundtrip v Hv : huffman_decode o [] = _) in Hd.
    rewrite upto_app_exact by done. destruct (HuffmanDecoder.decode o HuffmanDecoder.new) as [d| |]; try done.
    simpl in Hd. by rewrite Hd.
  - unfold q_ascii_decode. rewrite len_app, len_nil, Z.sub_0_r, (proj2 (Z.leb_le _ _)) by lia. by rewrite upto_app_exact.
Qed.

Lemma octets_src h v : QWrite.octets v h = Octets.src (Octets.new v h).
Proof. by destruct h. Qed.

Lemma q_string_decode h v rest :
  str_ok h v → bytes_ok rest →
  literal_decode LengthFirstByte (string_bytes h v ++ rest) = Decoded (len (string_bytes h v)) v.
Proof.
  intros [Hv Hf] Hr. unfold octets_fit, Octets.olen in Hf. unfold string_bytes. rewrite <- octets_src in *.
  set (o := QWrite.octets v h) in *.
  assert (Hor : bytes_ok (o ++ rest)).
  { apply Forall_app. split; [|done]. subst o. rewrite octets_src. by apply octets_bytes_ok. }
  rewrite <- (assoc_L (++)). pose proof (int_roundtrip 0x7f (pre_mask h) (len o) (o ++ rest) (mask_len_ok h) Hf Hor) as Hd.
  destruct (int_bytes_cons (len o) 0x7f (pre_mask h)) as (b & l & Hb & ->).
  rewrite len_app, Hb in *. cbn [app literal_decode length_first_decode] in *. pose proof (len_nonneg o).
  rewrite land_80_pre by lia. unfold q_first_byte. apply decode_int_first in Hd as [[Hb1 Hl]|(d & Hb1 & Hd)]; rewrite Hb1.
  - assert (l = []) as -> by (apply (app_inv_tail (o ++ rest)); done). cbn [app]. subst o. rewrite q_octets_decode by done. simpl.
    f_equal. rewrite len_cons, len_nil. lia.
  - destruct (decide (o ++ rest = [])) as [H0|H0].
    { apply app_eq_nil in H0 as [H0 _]. rewrite H0 in Hb1. by destruct h. }
    rewrite (q_length_feed _ _ _ _ _ Hd H0). subst o. rewrite q_octets_decode by done. simpl. f_equal. rewrite len_cons, len_app. lia.
Qed.

Lemma length_octets h v : str_ok h v → QWrite.length (len (QWrite.octets v h)) h ++ QWrite.octets v h = string_bytes h v.
Proof.
  intros [_ Hf]. unfold octets_fit, Octets.olen in Hf. rewrite <- octets_src in Hf. unfold QWrite.length, string_bytes.
  rewrite integer_bytes_int by (done || apply mask_len_ok). by rewrite <- octets_src.
Qed.

(** * Field lines with a name of the static table *)

Definition static_bits : MidBit.t := MidBit.mk None (Some true) None.
Definition static_name_bits : MidBit.t := MidBit.mk (Some false) (Some true) None.

Lemma mask_indexed : mask_ok PrefixMask.INDEXED 0xc0.
Proof. exists 6. split; [lia|]. by vm_compute. Qed.
Lemma mask_with_name : mask_ok PrefixMask.INDEXING_WITH_NAME 0x50.
Proof. exists 4. split; [lia|]. by vm_compute. Qed.

#[export] Instance midbit_eq_dec : EqDecision MidBit.t.
Proof. solve_decision. Defined.
#[export] Instance repr_prefix_eq_dec : EqDecision ReprPrefixBit.t.
Proof. solve_decision. Defined.
(** [carries] of a prefix, by trying every octet. *)
Lemma octets_carry `{!EqDecision P} (from_u8 : Z → P) mask midbit (p : P) mb pre :
  mask p < 256 →
  forallb (λ x, (mask p <? x) || (bool_decide (from_u8 (Z.lor pre x) = p) && bool_decide (midbit p (Z.lor pre x) = mb))) octets = true →
  carries from_u8 mask midbit p mb pre.
Proof.
  intros Hm H x Hx. pose proof (forall_octets _ x H ltac:(unfold is_u8; lia)) as Hc.
  apply orb_true_iff in Hc as [Hc|Hc]; [zbool; lia|]. apply andb_true_iff in Hc as [H1 H2].
  split; by eapply bool_decide_eq_true.
Qed.

Abbreviation repr_carries := (carries ReprPrefixBit.from_u8 ReprPrefixBit.prefix_index_mask ReprPrefixBit.prefix_midbit_value).
Lemma carries_indexed : repr_carries ReprPrefixBit.INDEXED static_bits 0xc0.
Proof. apply (octets_carry ReprPrefixBit.from_u8); by vm_compute. Qed.
Lemma carries_with_name : repr_carries ReprPrefixBit.LITERALWITHINDEXING static_name_bits 0x50.
Proof. apply (octets_carry ReprPrefixBit.from_u8); by vm_compute. Qed.

(** What is written for a field, and what it is read as. *)
Definition line_bytes (h : bool) (f : Header.t * bytes) : bytes :=
  match QStaticTable.index f.1 f.2 with
  | Field i => QWrite.Indexed i true
  | FieldName i => QWrite.IndexingWithName i f.2 h true false
  | NoIndex => []
  end.
Definition line_repr (f : Header.t * bytes) : QRepresentation :=
  match QStaticTable.index f.1 f.2 with
  | Field i => Indexed static_bits i
  | FieldName i => LiteralWithIndexing static_name_bits (QIndex i) f.2
  | NoIndex => FieldSectionPrefix 0 false 0
  end.
(** The name is in the static table; the value is text, with a length in range. *)
Definition static_line (h : bool) (f : Header.t * bytes) : Prop :=
  QStaticTable.index f.1 f.2 ≠ NoIndex ∧ str_ok h f.2 ∧ utf8_valid f.2 = true.

Lemma small_usize i : 0 ≤ i < 99 → is_usize i.
Proof. unfold is_usize. lia. Qed.

Lemma line_int h f : static_line h f →
  line_bytes h f = match QStaticTable.index f.1 f.2 with
                   | Field i => int_bytes i PrefixMask.INDEXED 0xc0
                   | FieldName i => int_bytes i PrefixMask.INDEXING_WITH_NAME 0x50 ++ string_bytes h f.2
                   | NoIndex => []
                   end.
Proof.
  intros (_ & Hv & _). pose proof (static_search f.1 f.2) as Hs. unfold line_bytes.
  destruct (QStaticTable.index f.1 f.2) as [i|i|]; [| |done]; destruct Hs as [_ Hi]; apply small_usize in Hi.
  - exact (integer_bytes_int _ _ _ mask_indexed Hi).
  - cbn [QWrite.IndexingWithName]. unfold QWrite.IndexingWithName, QWrite.index_and_value. rewrite length_octets by done.
    by rewrite (integer_bytes_int _ _ _ mask_with_name Hi).
Qed.

Lemma line_bytes_ok h f : static_line h f → bytes_ok (line_bytes h f) ∧ line_bytes h f ≠ [].
Proof.
  intros Hf. rewrite (line_int _ _ Hf). destruct Hf as (Hn & Hv & _). pose proof (static_search f.1 f.2) as Hs.
  destruct (QStaticTable.index f.1 f.2) as [i|i|]; [| |done]; destruct Hs as [_ Hi]; apply small_usize in Hi.
  - split; [exact (int_bytes_ok _ _ _ mask_indexed Hi)|]. by destruct (int_bytes_cons i PrefixMask.INDEXED 0xc0) as (b & l & -> & _).
  - split; [apply Forall_app; split; [exact (int_bytes_ok _ _ _ mask_with_name Hi)|by apply string_bytes_ok]|].
    by destruct (int_bytes_cons i PrefixMask.INDEXING_WITH_NAME 0x50) as (b & l & -> & _).
Qed.

(** A line is read back as what it stands for, whatever follows. *)
Lemma line_decode h f rest :
  static_line h f → bytes_ok rest →
  repr_state_decode (ReprIndex FirstByte) (line_bytes h f ++ rest) = Decoded (len (line_bytes h f)) (line_repr f).
Proof.
  intros Hf Hr. rewrite (line_int _ _ Hf). destruct Hf as (Hn & Hv & _). pose proof (static_search f.1 f.2) as Hs.
  unfold line_repr. destruct (QStaticTable.index f.1 f.2) as [i|i|]; [| |done]; destruct Hs as [_ Hi]; apply small_usize in Hi;
    cbn [repr_state_decode]; unfold repr_index_decode; cbv [repr_inner_decode]; cbn [index_inner_decode].
  - pose proof (q_index_decode _ _ _ _ _ _ _ rest carries_indexed mask_indexed Hi Hr) as Hq. cbn [ReprPrefixBit.prefix_index_mask] in Hq.
    by rewrite Hq.
  - rewrite <- (assoc_L (++)). assert (Hsr : bytes_ok (string_bytes h f.2 ++ rest)) by (apply Forall_app; split; [by apply string_bytes_ok|done]).
    pose proof (q_index_decode _ _ _ _ _ _ _ _ carries_with_name mask_with_name Hi Hsr) as Hq. cbn [ReprPrefixBit.prefix_index_mask] in Hq.
    rewrite Hq. unfold repr_value_decode. rewrite from_app_exact by done. rewrite q_string_decode by done. cbn [after]. f_equal.
    rewrite len_app. lia.
Qed.

(** A message after more lines; literals count for the size limit. *)
Definition line_msg (m : ReprMessage.t) (st : option ReprDecodeState) (p : H3Parts.t) (size : Z) : ReprMessage.t :=
  ReprMessage.mk (ReprMessage.require_insert_count m) (ReprMessage.base m) st (ReprMessage.remaining m) p size.
Definition line_size (f : Header.t * bytes) : Z := field_line_length (Header.hlen f.1) (len f.2).

Lemma line_size_nonneg f : 0 ≤ line_size f.
Proof. unfold line_size, field_line_length. pose proof (hlen_nonneg f.1). pose proof (len_nonneg f.2). lia. Qed.

Lemma line_effect h f s m p :
  static_line h f → H3Parts.update (E := QpackError) (ReprMessage.parts m) f.1 f.2 = Ok p →
  ReprMessage.header_size m + line_size f ≤ Searcher.max_field_section_size s →
  ∃ size, QpackDecoder.field_line s (line_repr f) m = Ok (ReprMessage.set_lines m p size) ∧
    size ≤ ReprMessage.header_size m + line_size f.
Proof.
  intros (Hn & Hv & Hu) Hp Hs. pose proof (static_search f.1 f.2) as Hi. pose proof (line_size_nonneg f). unfold line_repr.
  destruct f as [k v]. cbn [fst snd] in *. destruct (QStaticTable.index k v) as [i|i|]; [| |done]; destruct Hi as [Hi _];
    cbn [QpackDecoder.field_line].
  - unfold Searcher.search_indexed, QTableSearcher.find_field_static. rewrite Hi. cbn [MidBit.t_ static_bits ok_or mbind res_bind].
    unfold Searcher.add. rewrite Hp. eexists. split; [done|]. lia.
  - unfold Searcher.search_literal_with_indexing, Searcher.search_literal, Searcher.get_field_by_name_and_value,
      QTableSearcher.find_field_name_static. rewrite Hi. cbn [MidBit.t_ static_name_bits ok_or mbind res_bind].
    unfold from_utf8. rewrite Hu. cbn [mbind res_bind]. unfold Searcher.check_field_list_size.
    unfold line_size in Hs. cbn [fst snd] in Hs. rewrite (proj2 (Z.ltb_ge _ _)) by lia. cbn [mbind res_bind].
    unfold Searcher.add. cbn [ReprMessage.set_lines ReprMessage.parts ReprMessage.header_size].
    rewrite Hp. cbn [mbind res_bind]. exists (ReprMessage.header_size m + line_size (k, v)). split; [done|lia].
Qed.

(** * Field sections *)

Definition lines_bytes (h : bool) (l : list (Header.t * bytes)) : bytes := concat (line_bytes h <$> l).
(** The state of the decoder in front of the lines [l]. *)
Definition lines_state (l : list (Header.t * bytes)) : option ReprDecodeState :=
  match l with [] => None | _ => Some (ReprIndex FirstByte) end.

Lemma lines_bytes_ok h l : Forall (static_line h) l → bytes_ok (lines_bytes h l).
Proof.
  induction 1 as [|f l Hf _ IH]; [constructor|]. apply Forall_app. split; [by apply line_bytes_ok|exact IH].
Qed.
Lemma lines_bytes_nil h l : Forall (static_line h) l → l ≠ [] → lines_bytes h l ≠ [].
Proof.
  destruct 1 as [|f l Hf _]; [done|]. intros _ H. apply app_eq_nil in H as [H _]. by apply (line_bytes_ok h f).
Qed.

Lemma repr_line h f l :
  static_line h f → Forall (static_line h) l →
  repr_decode (line_bytes h f ++ lines_bytes h l) (Some (ReprIndex FirstByte)) =
    (Ok (Some (len (line_bytes h f), line_repr f)), lines_state l).
Proof.
  intros Hf Hl. pose proof (line_decode h f _ Hf (lines_bytes_ok h l Hl)) as Hd. unfold repr_decode.
  destruct (line_bytes_ok h f Hf) as [_ Hne]. destruct (line_bytes h f ++ lines_bytes h l) as [|b t] eqn:Hb.
  { by apply app_eq_nil in Hb as [? _]. }
  rewrite <- Hb in *. cbn [default from_option id]. change (default FiledSectionPrefix (Some (ReprIndex FirstByte))) with (ReprIndex FirstByte).
  rewrite Hd, len_app. f_equal. destruct l as [|g l].
  - change (lines_bytes h []) with (@nil Z). rewrite len_nil. by rewrite (proj2 (Z.leb_le _ _)) by lia.
  - pose proof (lines_bytes_nil h (g :: l) Hl ltac:(done)) as Hn. destruct (lines_bytes h (g :: l)) as [|c t2]; [done|].
    rewrite len_cons. pose proof (len_nonneg t2). by rewrite (proj2 (Z.leb_gt _ _)) by lia.
Qed.

Lemma line_repr_line h f ric b db : static_line h f → line_repr f ≠ FieldSectionPrefix ric b db.
Proof. intros (Hn & _). unfold line_repr. by destruct (QStaticTable.index f.1 f.2). Qed.

Lemma lines_decode h l fuel d id base m b p' :
  Forall (static_line h) l → (length l < fuel)%nat → ReprMessage.repr_state m = lines_state l →
  ReprMessage.header_size m + zsum (line_size <$> l) ≤ QpackDecoder.max_field_section_size d →
  updates (E := QpackError) (ReprMessage.parts m) l = Ok p' →
  ∃ size, QpackDecoder.repr_loop fuel d id base (lines_bytes h l) (QpackDecoder.mk_section m b) =
    (Ok FieldDecoded, QpackDecoder.mk_section (line_msg m None p' size) b).
Proof.
  intros Hl. revert fuel m. induction Hl as [|f l Hf Hl IH]; intros fuel m Hfu Hst Hs Hp; (destruct fuel as [|fuel]; [simpl in Hfu; lia|]).
  - cbn [updates] in Hp. injection Hp as <-. exists (ReprMessage.header_size m). cbn [QpackDecoder.repr_loop lines_bytes fmap].
    destruct m as [ric bs st rem pa sz]. cbn [ReprMessage.repr_state lines_state] in Hst. by rewrite Hst.
  - cbn [updates] in Hp. destruct (Parts.update (ReprMessage.parts m) f.1 f.2) as [p1|e|] eqn:Hp1; [|done..]. cbn [mbind res_bind] in Hp.
    rewrite fmap_cons in Hs. unfold zsum in Hs. cbn [foldr] in Hs. fold (zsum (line_size <$> l)) in Hs.
    assert (0 ≤ zsum (line_size <$> l)) by (apply zsum_nonneg, Forall_fmap, Forall_forall; intros x _; apply line_size_nonneg).
    change (lines_bytes h (f :: l)) with (line_bytes h f ++ lines_bytes h l). cbn [QpackDecoder.repr_loop QpackDecoder.message].
    rewrite Hst. change (lines_state (f :: l)) with (Some (ReprIndex FirstByte)). rewrite repr_line by done.
    set (m1 := ReprMessage.set_repr_state m (lines_state l)).
    destruct (line_effect h f (Searcher.mk (QpackDecoder.max_field_section_size d) (QpackDecoder.table d) base) m1 p1 Hf Hp1)
      as (size & He & Hsz); [cbn [Searcher.max_field_section_size m1 ReprMessage.set_repr_state ReprMessage.header_size]; lia|].
    cbn [m1 ReprMessage.set_repr_state ReprMessage.header_size] in Hsz.
    destruct (IH fuel (ReprMessage.set_lines m1 p1 size)) as (size' & Hi); [simpl in Hfu; lia|done| |exact Hp|].
    { cbn [ReprMessage.header_size ReprMessage.set_lines]. lia. }
    exists size'. cbn [QpackDecoder.set_message QpackDecoder.message QpackDecoder.sec_blocked]. fold m1. rewrite from_app_exact by done.
    pose proof (line_repr_line h f) as Hnp. destruct (line_repr f) eqn:Hrepr; [by destruct (Hnp _ _ _ Hf eq_refl)|..];
      rewrite He; exact Hi.
Qed.

(** ** The encoder *)

(** A table without entries: every field is looked up in the static table. *)
Lemma encode_line base h allow e f :
  QDynamicTable.queue (QReprEncoder.table e) = [] → static_line h f →
  QReprEncoder.encode_field base h allow f.1 f.2 e = Ok (None, QReprEncoder.write (line_bytes h f) e).
Proof.
  intros Hq (Hn & _). unfold QReprEncoder.encode_field, QReprEncoder.search_filed_from_table, QTableSearcher.search_in_static,
    QTableSearcher.search_in_dynamic, QDynamicTable.index, line_bytes. rewrite Hq. cbn [QDynamicTable.index_loop].
  by destruct (QStaticTable.index f.1 f.2).
Qed.

Lemma fields_loop_lines base h allow fuel iter n e :
  QDynamicTable.queue (QReprEncoder.table e) = [] → Forall (static_line h) (items iter) → (length (items iter) < fuel)%nat →
  QReprEncoder.fields_loop base h fuel allow iter n e = Ok (n, QReprEncoder.write (lines_bytes h (items iter)) e).
Proof.
  revert iter e. induction fuel as [|fuel IH]; intros iter e Hq Hl Hf; [lia|]. pose proof (next_items iter) as Hn.
  cbn [QReprEncoder.fields_loop]. destruct (items iter) as [|f l] eqn:Hi; destruct (PartsIter.next iter) as [o it]; cbn [fst snd] in Hn.
  - subst o. change (lines_bytes h []) with (@nil Z). unfold QReprEncoder.write. rewrite app_nil_r. by destruct e.
  - destruct Hn as [-> Hit]. destruct f as [k v]. inversion_clear Hl as [|? ? Hf1 Hl'].
    pose proof (encode_line base h allow e (k, v) Hq Hf1) as He. cbn [fst snd] in He. rewrite He. cbn [mbind res_bind]. rewrite IH; rewrite ?Hit; [|done|done|simpl in Hf; lia].
    do 2 f_equal. unfold QReprEncoder.write. cbn [QReprEncoder.table QReprEncoder.ref_fields QReprEncoder.inst QReprEncoder.fields].
    by rewrite <- (assoc_L (++)).
Qed.

Lemma emit_len n e : len (emit n e).1 ≤ Z.of_nat n.
Proof.
  revert e. induction n as [|n IH]; intros e; [done|]. cbn [emit]. destruct (IntegerEncoder.is_finish e); [unfold len; simpl; lia|].
  destruct (IntegerEncoder.next_byte e) as [o e1]. specialize (IH e1). destruct (emit n e1) as [l e2]. cbn [fst] in *.
  rewrite len_app. destruct o; cbn [option_list]; unfold len in *; simpl; lia.
Qed.
(** A capacity that waits to be announced is always taken by a table without entries. *)
Lemma update_cap_empty e :
  QDynamicTable.queue (QpackEncoder.table e) = [] →
  ∃ inst e1, QpackEncoder.update_max_dynamic_table_cap e = Ok (inst, e1) ∧ len inst ≤ 12 ∧ QDynamicTable.queue (QpackEncoder.table e1) = [] ∧
    QpackEncoder.is_huffman e1 = QpackEncoder.is_huffman e ∧ QpackEncoder.field_iter e1 = QpackEncoder.field_iter e.
Proof.
  intros Hq. pose proof (λ c, emit_len 12 (IntegerEncoder.new c PrefixMask.SET_CAP 0x20) : len (QWrite.SetCap c) ≤ 12) as Hl.
  unfold QpackEncoder.update_max_dynamic_table_cap. destruct (QpackEncoder.capacity_to_update e) as [c|]; [|by exists [], e].
  unfold QDynamicTable.update_capacity, QDynamicTable.can_evict. cbn [QDynamicTable.can_evict_loop].
  rewrite Hq. destruct (_ <? _); [destruct (_ <? _)|]; cbn [mbind res_bind QDynamicTable.evict_drained Z.to_nat];
    eexists _, _; (split; [reflexivity|]); (split; [apply Hl || done|done]).
Qed.

Lemma encode_lines into_iter id parts e :
  let l := items (PartsIter.new into_iter parts) in
  let h := QpackEncoder.is_huffman e in
  QDynamicTable.queue (QpackEncoder.table e) = [] → Forall (static_line h) l →
  ∃ inst e', QpackEncoder.encode id (QpackEncoder.set_parts into_iter parts e) = Ok ([0; 0] ++ lines_bytes h l, inst, e') ∧
    len inst ≤ 12 ∧ QDynamicTable.queue (QpackEncoder.table e') = [] ∧ QpackEncoder.is_huffman e' = h.
Proof.
  intros l h Hq Hl. unfold QpackEncoder.encode.
  destruct (update_cap_empty (QpackEncoder.set_parts into_iter parts e) Hq) as (inst & e1 & -> & Hlen & Hq1 & Hh1 & Hi1).
  cbn [mbind res_bind]. unfold QReprEncoder.iterate_encode_fields. rewrite Hi1, Hh1. cbn [QpackEncoder.set_parts QpackEncoder.set_field_iter QpackEncoder.field_iter QpackEncoder.is_huffman].
  fold h. rewrite fields_loop_lines; [|exact Hq1|exact Hl|apply items_fuel]. cbn [mbind res_bind QReprEncoder.get_prefix].
  unfold QReprEncoder.get_prefix. cbn [Z.eqb mbind res_bind]. eexists _, _. split; [reflexivity|]. by split.
Qed.

(** ** The decoder *)

(** A stream the decoder knows nothing of. *)
Definition fresh_stream (id : Z) (d : QpackDecoder.t) : Prop :=
  QpackDecoder.streams d !! id = None ∧ QpackDecoder.blocked d !! id = None ∧ 0 ≤ QDynamicTable.insert_count (QpackDecoder.table d).

Lemma length_lines h l : Forall (static_line h) l → (length l ≤ length (lines_bytes h l))%nat.
Proof.
  induction 1 as [|f l Hf _ IH]; [done|]. change (lines_bytes h (f :: l)) with (line_bytes h f ++ lines_bytes h l).
  rewrite length_app. destruct (line_bytes_ok h f Hf) as [_ Hne]. destruct (line_bytes h f); simpl in *; [done|lia].
Qed.

Lemma section_decode h l id d p' :
  fresh_stream id d → Forall (static_line h) l → l ≠ [] →
  zsum (line_size <$> l) ≤ QpackDecoder.max_field_section_size d →
  updates (E := QpackError) H3Parts.new l = Ok p' →
  ∃ d1, QpackDecoder.decode_repr ([0; 0] ++ lines_bytes h l) id d = (Ok FieldDecoded, d1) ∧
    QpackDecoder.finish id d1 = (Ok (p', None), d).
Proof.
  intros (Hs & Hb & Hi) Hl Hne Hsz Hp. pose proof (lines_bytes_nil h l Hl Hne) as Hn.
  unfold QpackDecoder.decode_repr. rewrite Hb, Hs. cbn [QpackDecoder.sec_blocked app].
  set (d' := QpackDecoder.set_blocked _ _). set (m0 := ReprMessage.set_prefix (ReprMessage.set_repr_state ReprMessage.new (lines_state l)) 0 0).
  assert (Hstep : QpackDecoder.decode_buffered_repr (0 :: 0 :: lines_bytes h l) id d' (QpackDecoder.mk_section ReprMessage.new (QpackDecoder.blocked d)) =
    QpackDecoder.repr_loop (2 + length (lines_bytes h l)) d' id 0 (lines_bytes h l) (QpackDecoder.mk_section m0 (QpackDecoder.blocked d))).
  { subst m0. destruct (lines_bytes h l) as [|b t]; [done|]. destruct l as [|f l]; [done|].
    cbn [QpackDecoder.decode_buffered_repr length]. cbn [QpackDecoder.repr_loop]. set (loop := QpackDecoder.repr_loop (S (S (length t)))).
    assert (Hrd : repr_decode (0 :: 0 :: b :: t) None = (Ok (Some (2, FieldSectionPrefix 0 false 0)), Some (ReprIndex FirstByte))).
    { unfold repr_decode. change (repr_state_decode (default FiledSectionPrefix None) (0 :: 0 :: b :: t)) with
        (Decoded (S := ReprDecodeState) 2 (FieldSectionPrefix 0 false 0)).
      cbv beta iota. rewrite !len_cons. pose proof (len_nonneg t). by rewrite (proj2 (Z.leb_gt _ _)) by lia. }
    cbn [QpackDecoder.message ReprMessage.repr_state ReprMessage.new]. rewrite Hrd.
    unfold QpackDecoder.start_section. cbn [Z.eqb mbind res_bind].
    replace (QDynamicTable.insert_count (QpackDecoder.table d') <? 0) with false by (symmetry; apply Z.ltb_ge; exact Hi).
    reflexivity. }
  rewrite Hstep. destruct (lines_decode h l (2 + length (lines_bytes h l)) d' id 0 m0 (QpackDecoder.blocked d) p') as (size & ->);
    [done|pose proof (length_lines h l Hl); lia|done|exact Hsz|exact Hp|].
  eexists. split; [reflexivity|]. unfold QpackDecoder.finish. cbn [QpackDecoder.streams QpackDecoder.set_streams QpackDecoder.set_blocked].
  rewrite lookup_insert, decide_True by done. cbn [QpackDecoder.message ReprMessage.repr_state line_msg ReprMessage.parts ReprMessage.require_insert_count].
  f_equal. destruct d as [ta ist st bl x1 x2 x3]. cbn in *. unfold QpackDecoder.set_streams. cbn. f_equal.
  rewrite delete_insert_id by (by rewrite lookup_delete, decide_True by done). by rewrite delete_id.
Qed.

(** C30: QPACK, from one end to the other: a non-empty header list whose names are all in the
    static table and whose values are UTF-8 is written by an encoder whose dynamic table has
    no entries as one field section, with no reference to the dynamic table, and a decoder
    that neither knows the stream nor has it blocked, whatever it has of other streams and in
    its table, reads the section in one piece as the same header list, which is within its
    limit; it has nothing to acknowledge and is left as it was.  Outside of these conditions
    the code fails: [literal_name_misread], [first_entry_prefix], [cut_between_lines],
    [empty_section_refused], [value_not_utf8_refused]. *)
Theorem qpack_roundtrip into_iter id parts e d :
  let l := items (PartsIter.new into_iter parts) in
  (∀ h, into_iter h ≡ₚ map_to_list (Headers.map h)) → lines_wf (Parts.map parts) →
  QDynamicTable.queue (QpackEncoder.table e) = [] → fresh_stream id d →
  Forall (static_line (QpackEncoder.is_huffman e)) l → l ≠ [] →
  zsum (line_size <$> l) ≤ QpackDecoder.max_field_section_size d →
  ∃ fields inst e' d1 p',
    QpackEncoder.encode id (QpackEncoder.set_parts into_iter parts e) = Ok (fields, inst, e') ∧
    QDynamicTable.queue (QpackEncoder.table e') = [] ∧
    QpackDecoder.decode_repr fields id d = (Ok FieldDecoded, d1) ∧
    QpackDecoder.finish id d1 = (Ok (p', None), d) ∧ same_parts p' parts.
Proof.
  intros l Hperm Hwf Hq Hfr Hl Hne Hsz.
  destruct (encode_lines into_iter id parts e Hq Hl) as (inst & e' & He & _ & Hq' & _).
  destruct (updates_items (E := QpackError) into_iter parts Hperm Hwf) as (p' & Hp & Hsame).
  destruct (section_decode (QpackEncoder.is_huffman e) l id d p' Hfr Hl Hne Hsz Hp) as (d1 & Hd & Hf).
  by exists ([0; 0] ++ lines_bytes (QpackEncoder.is_huffman e) l), inst, e', d1, p'.
Qed.

Definition get_parts : Parts.t :=
  Parts.mk (PseudoHeaders.mk (Some (str "a.b")) (Some (str "GET")) (Some (str "/x")) (Some (str "https")) None)
    (Headers.mk {[ str "user-agent" := HeaderValue.mk [str "y"] false ]}).
Definition any_order (h : Headers.t) : list (HeaderName.t * HeaderValue.t) := map_to_list (Headers.map h).
Lemma get_parts_wf : lines_wf (Parts.map get_parts).
Proof.
  intros n v H. simpl in H. apply lookup_singleton_Some in H as [<- <-]. split; [|split; [by vm_compute|]].
  - apply (bool_decide_unpack _). by vm_compute.
  - constructor; [apply (bool_decide_unpack _); by vm_compute|constructor].
Qed.
Lemma get_parts_static : Forall (static_line true) (items (PartsIter.new any_order get_parts)).
Proof.
  assert (Hi : items (PartsIter.new any_order get_parts) =
    [(Header.Method, str "GET"); (Header.Scheme, str "https"); (Header.Path, str "/x"); (Header.Authority, str "a.b");
     (Header.Other (str "user-agent"), str "y")]) by (vm_compute; reflexivity).
  rewrite Hi. repeat apply Forall_cons_2; [..|apply Forall_nil_2].
  all: split; [by vm_compute|]; split; [split; [repeat constructor; by vm_compute|split; by vm_compute]|by vm_compute].
Qed.
Lemma qpack_roundtrip_witness :
  ∃ inst e' d1 p',
    QpackEncoder.encode 4 (QpackEncoder.set_parts any_order get_parts QpackEncoder.default) =
      Ok ([0; 0; 0xd1; 0xd7; 0x51; 130; 99; 207; 80; 131; 26; 241; 255; 95; 80; 129; 245], inst, e') ∧
    QpackDecoder.decode_repr [0; 0; 0xd1; 0xd7; 0x51; 130; 99; 207; 80; 131; 26; 241; 255; 95; 80; 129; 245] 4 (QpackDecoder.new 0 0) =
      (Ok FieldDecoded, d1) ∧
    QpackDecoder.finish 4 d1 = (Ok (p', None), QpackDecoder.new 0 0) ∧ same_parts p' get_parts.
Proof.
  destruct (qpack_roundtrip any_order 4 get_parts QpackEncoder.default (QpackDecoder.new 0 0)) as (fields & inst & e' & d1 & p' & He & _ & Hd & Hf & Hs).
  - done.
  - apply get_parts_wf.
  - done.
  - by split.
  - apply get_parts_static.
  - by vm_compute.
  - by vm_compute.
  - assert (Hx : fields = [0; 0; 0xd1; 0xd7; 0x51; 130; 99; 207; 80; 131; 26; 241; 255; 95; 80; 129; 245]).
    { pose proof (f_equal (λ r, match r with Ok (f, _, _) => f | _ => [] end) He) as H. vm_compute in H. symmetry. exact H. }
    rewrite Hx in *. exists inst, e', d1, p'. split; [exact He|]. split; [exact Hd|]. split; [exact Hf|exact Hs].
Defined.

(** * What is not read back *)

Definition line_parts (name value : bytes) : Parts.t :=
  Parts.mk PseudoHeaders.new (Headers.mk {[ name := HeaderValue.mk [value] false ]}).
Definition section_of (e : QpackEncoder.t) (p : Parts.t) : bytes * bytes :=
  match QpackEncoder.encode 0 (QpackEncoder.set_parts any_order p e) with Ok (f, i, _) => (f, i) | _ => ([], []) end.

(** A name outside the static table is written with its length before Huffman coding:
    the decoder takes too many bytes for the name. *)
Lemma literal_name_misread :
  (QpackDecoder.decode_repr (section_of QpackEncoder.default (line_parts (str "x-abc") (str "v"))).1 0 (QpackDecoder.new 0 0)).1 =
    Err decompression_failed.
Proof. by vm_compute. Qed.

(** A length of 8 and more runs into the bit H and the bits above: a name of 11 bytes is
    read as one of three. *)
Lemma long_name_misread :
  ∃ f : bytes, section_of QpackEncoder.default (line_parts (str "x-abcdefghi") (str "v")) = ([0; 0; 43] ++ f, []) ∧
    ReprPrefixBit.from_u8 43 = ReprPrefixBit.LITERALWITHLITERALNAME ∧ q_first_byte 43 PrefixMask.INDEXING_WITH_LITERAL = inl 3.
Proof. eexists. split; [vm_compute; reflexivity|]. by vm_compute. Qed.

(** A field that does not fit in the dynamic table is also written to the encoder
    stream, as if it were an instruction; the peer's decoder refuses it. *)
Lemma literal_sent_as_instruction :
  let e := QpackEncoder.set_max_blocked_stream_size 1 QpackEncoder.default in
  (section_of e (line_parts (str "x-abc") (str "v"))).2 = [45; 242; 176; 227; 39; 129; 239] ∧
  (QpackDecoder.decode_ins [45; 242; 176; 227; 39; 129; 239] (QpackDecoder.new 0 0)).1 = Err decompression_failed.
Proof. by vm_compute. Qed.

(** A section whose only reference is to the first entry says that it needs none. *)
Lemma first_entry_prefix base d : QReprEncoder.get_prefix base d 0 = Ok [0; 0].
Proof. done. Qed.

(** A field section cut between two lines: the second piece is taken for a new section. *)
Lemma cut_between_lines :
  let d := (QpackDecoder.decode_repr [0; 0; 0xd1] 0 (QpackDecoder.new 0 0)).2 in
  (QpackDecoder.decode_repr [0; 0; 0xd1; 0xd7] 0 (QpackDecoder.new 0 0)).1 = Ok FieldDecoded ∧
  (QpackDecoder.finish 0 (QpackDecoder.decode_repr [0xd7] 0 d).2).1 = Err decompression_failed.
Proof. by vm_compute. Qed.

(** An empty section is not accepted, as the prefix must be followed by a byte. *)
Lemma empty_section_refused :
  let d := (QpackDecoder.decode_repr [0; 0] 0 (QpackDecoder.new 0 0)).2 in
  (QpackDecoder.finish 0 d).1 = Err decompression_failed.
Proof. by vm_compute. Qed.

(** A value with an octet of %x80-FF that is not UTF-8 is a [HeaderValue] and is written,
    but the decoder refuses it. *)
Lemma value_not_utf8_refused :
  HeaderValue.from_bytes [0x61; 0xe9] = Ok (HeaderValue.mk [[0x61; 0xe9]] false) ∧
  (QpackDecoder.decode_repr (section_of QpackEncoder.default (line_parts (str "server") [0x61; 0xe9])).1 0 (QpackDecoder.new 0 0)).1 =
    Err decompression_failed.
Proof. by vm_compute. Qed.

(** A reference to a dynamic table entry that does not exist panics. *)
Lemma bad_reference_panics : (QpackDecoder.decode_repr [0; 0; 0x80] 0 (QpackDecoder.new 0 0)).1 = Panic.
Proof. by vm_compute. Qed.

(** So does a sum of the base and a post-base index that leaves [usize]: the base is
    [usize::MAX] here and the index 1. *)
Lemma base_overflow_panics :
  (QpackDecoder.decode_repr ([0; 0x7f; 0x80] ++ replicate 8 0xff ++ [1; 0x11]) 0 (QpackDecoder.new 0 0)).1 = Panic.
Proof. by vm_compute. Qed.

(** A value with a control character panics. *)
Lemma bad_value_panics : (QpackDecoder.decode_repr [0; 0; 0x5f; 80; 1; 7] 0 (QpackDecoder.new 0 0)).1 = Panic.
Proof. by vm_compute. Qed.

(** An instruction cut in its value is an error, not a wait for more. *)
Lemma cut_instruction_refused :
  (QpackDecoder.decode_ins [0xc0; 3; 97] (QpackDecoder.new 0 0)).1 = Err decompression_failed ∧
  (QpackDecoder.decode_ins [0xc0; 3; 97; 98; 99] (QpackDecoder.new 0 0)).1 = Ok [].
Proof. by vm_compute. Qed.

(** Lines that are indices do not count for the limit on the size of a section. *)
Lemma indexed_not_counted :
  (QpackDecoder.decode_repr [0; 0; 0xd1; 0xd1; 0xd1] 0 (QpackDecoder.set_max_field_section_size (QpackDecoder.new 0 0) 1)).1 = Ok FieldDecoded.
Proof. by vm_compute. Qed.
