(* ===== verification/H3HeadersRoundtrip.v ===== *)
(** HEADERS over HTTP/3: the frame encoder with the QPACK encoder behind it, the stream
    decoder with the QPACK decoder behind it.  What the frame layer does is shown for any
    QPACK codec that gives a field section and takes it; the QPACK codec of the crate is
    one for the header lists of [qpack_roundtrip]. *)
From S2P Require Import Prelude Buffers HpackInteger HpackTable Headers Parts HpackReprEncoder HpackRoundtrip.
From S2P Require Import H3Error H3Octets H3Frame H3FrameDecoder H3DecoderSafety H3FrameSegments H3FrameEncoder H3FrameRoundtrip H3SettingsRoundtrip.
From S2P Require Import QpackTable QpackFormat QpackDecoder QpackEncoder QpackRoundtrip.

Definition headers_frame (p : H3Parts.t) (ins : option bytes) : H3Frame.t := H3Frame.mk HEADERS_FRAME_TYPE (H3Payload.Headers p ins).
Definition headers_wire (fields : bytes) : bytes := varint HEADERS_FRAME_TYPE ++ varint (len fields) ++ fields.

(** * Writing *)

Section Write.
Context {Q : Type} `{!QpackEncoderOps Q}.
Implicit Types (e : encoding (Q := Q)) (buf : bytes).

(** The field section and the instructions, behind the header [h] of the frame. *)
Lemma repr_and_inst_ok e buf h fields inst :
  written buf (frame_buf e) h → len h + len fields ≤ len buf → len inst ≤ len (inst_buf e) →
  EncodedH3Stream.headers_message (est e) = Some (EncHeaders.mk fields inst 0 0) →
  ∃ buf' ibuf' s', encode_headers_repr_and_inst (len h) e =
      (Ok (len fields, len inst), mk_encoding s' buf' ibuf' (eqpack e)) ∧
    written buf buf' (h ++ fields) ∧ upto (len inst) ibuf' = inst ∧
    s' = EncodedH3Stream.set_message (EncodedH3Stream.set_state (est e) EncFrameComplete) None.
Proof.
  intros Hw Hb Hi Hm. pose proof Hw as [Hl _]. pose proof (len_nonneg fields). pose proof (len_nonneg inst).
  unfold encode_headers_repr_and_inst. rewrite M_bind_eq. unfold encode_headers_repr. rewrite M_bind_eq. cbn [mgets]. rewrite Hm, M_bind_eq.
  cbn [mgets]. unfold EncHeaders.remaining_repr. cbn [EncHeaders.fields EncHeaders.repr_offset]. rewrite Z.sub_0_r, (proj2 (Z.ltb_ge _ 0)) by lia.
  rewrite Hl, (proj2 (Z.leb_le _ _)) by lia. rewrite slice_upto_from, from_0, upto_all, M_bind_eq by lia.
  destruct (put_bytes_ok e buf h fields Hw Hb) as (b1 & -> & Hw1). rewrite M_bind_eq. unfold put_est, mmodify. cbv beta iota.
  unfold mret at 1, M_ret at 1. rewrite M_bind_eq. unfold encode_qpack_inst. rewrite M_bind_eq. cbn [mgets est with_buf EncodedH3Stream.set_message EncodedH3Stream.headers_message].
  rewrite M_bind_eq. cbn [mgets inst_buf frame_buf eqpack with_buf]. unfold EncHeaders.remaining_inst.
  cbn [EncHeaders.inst EncHeaders.inst_offset EncHeaders.repr_offset_inc]. rewrite Z.sub_0_r, (proj2 (Z.ltb_ge _ 0)), (proj2 (Z.leb_le _ _)) by lia.
  rewrite slice_upto_from, from_0, upto_all, M_bind_eq by lia. unfold put_inst. cbn [inst_buf]. rewrite (proj2 (Z.ltb_ge _ _)) by lia.
  cbv beta iota. rewrite M_bind_eq. unfold put_est, mmodify. cbn [est frame_buf inst_buf eqpack]. unfold mret at 1, M_ret at 1. cbv beta iota.
  rewrite M_bind_eq. cbn [mgets est EncodedH3Stream.set_message EncodedH3Stream.headers_message].
  unfold EncHeaders.remaining_repr, EncHeaders.remaining_inst. cbn [EncHeaders.fields EncHeaders.repr_offset EncHeaders.inst EncHeaders.inst_offset EncHeaders.inst_offset_inc EncHeaders.repr_offset_inc].
  rewrite !Z.add_0_l, !Z.sub_diag. cbn [Z.eqb andb]. rewrite M_bind_eq. unfold mret, M_ret. cbv beta iota.
  eexists _, _, _. split; [reflexivity|]. split; [exact Hw1|]. split; [|done].
  cbn [inst_buf]. by apply upto_app_exact.
Qed.

(** One call writes the frame, when the buffers have room for it. *)
Lemma loop_headers e buf p ins fields inst q :
  written buf (frame_buf e) [] → len (headers_wire fields) ≤ len buf → 1024 ≤ len buf → len fields < 2 ^ 62 → len inst ≤ len (inst_buf e) →
  EncodedH3Stream.state (est e) = EncodingHeadersFrame → EncodedH3Stream.current_frame (est e) = Some (headers_frame p ins) →
  EncodedH3Stream.headers_message (est e) = None →
  qenc_encode (EncodedH3Stream.stream_id (est e)) (eqpack e) = (Ok (fields, inst), q) →
  ∃ buf' ibuf' s', encode_loop 3 0 e = (Ok (len (headers_wire fields), len inst), mk_encoding s' buf' ibuf' q) ∧
    written buf buf' (headers_wire fields) ∧ upto (len inst) ibuf' = inst ∧
    EncodedH3Stream.state s' = EncFrameComplete ∧ EncodedH3Stream.payload_offset s' = EncodedH3Stream.payload_offset (est e) ∧
    EncodedH3Stream.headers_message s' = None.
Proof.
  intros Hw Hb H1024 Hf Hi Hst Hcur Hmsg Hq. pose proof Hw as [Hl _]. unfold headers_wire in *. rewrite !len_app in Hb.
  pose proof (len_nonneg fields). change (len (varint HEADERS_FRAME_TYPE)) with 1 in Hb.
  assert (Hv : 0 ≤ len fields < 2 ^ 62) by (split; [lia|exact Hf]). pose proof (varint_len_bound _ Hv).
  cbn [encode_loop]. rewrite M_bind_eq. cbn [mgets]. rewrite (proj2 (Z.leb_gt _ _)) by lia. rewrite M_bind_eq. cbn [mgets].
  rewrite Hst, M_bind_eq. unfold encode_frame_type. rewrite M_bind_eq. cbn [mgets]. rewrite Hcur. cbn [H3Frame.ty headers_frame].
  destruct (put_var_ok e buf [] HEADERS_FRAME_TYPE Hw) as (b1 & Hp1 & Hw1); [by cbv|change (len (varint HEADERS_FRAME_TYPE)) with 1; rewrite len_nil; lia|].
  rewrite len_nil in Hp1. rewrite Hp1, M_bind_eq. unfold set_state, put_est, mmodify. cbn [est with_buf frame_buf inst_buf eqpack].
  change (0 + len (varint HEADERS_FRAME_TYPE)) with 1. rewrite M_bind_eq. cbn [mgets frame_buf]. pose proof Hw1 as [Hl1 _].
  rewrite Hl1, (proj2 (Z.leb_gt _ _)) by lia. rewrite M_bind_eq. cbn [mgets est EncodedH3Stream.set_state EncodedH3Stream.state].
  rewrite M_bind_eq. unfold encode_headers_payload, current_payload. rewrite !M_bind_eq. unfold mgets, mlift.
  cbn [est EncodedH3Stream.current_frame EncodedH3Stream.set_state]. rewrite Hcur. cbn [H3Frame.payload headers_frame].
  unfold encode_headers_with_qpack. rewrite M_bind_eq. cbn [mgets est EncodedH3Stream.headers_message EncodedH3Stream.set_state].
  unfold mgets. cbn [est EncodedH3Stream.headers_message EncodedH3Stream.stream_id]. rewrite Hmsg, M_bind_eq. unfold on_qenc. cbn [eqpack est frame_buf inst_buf].
  change (EncodedH3Stream.stream_id (EncodedH3Stream.set_state (est e) EncodingHeadersPayload)) with (EncodedH3Stream.stream_id (est e)).
  rewrite Hq, M_bind_eq. unfold put_est, mmodify. cbn [est frame_buf inst_buf eqpack]. cbv beta iota. rewrite M_bind_eq. cbn [fst].
  set (e2 := mk_encoding _ _ _ _).
  destruct (put_var_ok e2 buf (varint HEADERS_FRAME_TYPE) (len fields) Hw1 Hv) as (b2 & Hp2 & Hw2);
    [change (len (varint HEADERS_FRAME_TYPE)) with 1; lia|].
  change (len (varint HEADERS_FRAME_TYPE)) with 1 in Hp2. rewrite Hp2, M_bind_eq.
  replace (1 + len (varint (len fields))) with (len (varint HEADERS_FRAME_TYPE ++ varint (len fields))) by (rewrite len_app; done).
  destruct (repr_and_inst_ok (with_buf e2 b2) buf (varint HEADERS_FRAME_TYPE ++ varint (len fields)) fields inst)
    as (b3 & i3 & s3 & -> & Hw3 & Hi3 & ->); [exact Hw2|rewrite len_app; change (len (varint HEADERS_FRAME_TYPE)) with 1; lia|exact Hi|done|].
  exists b3, i3. eexists. split.
  - unfold mret, M_ret. cbn [est with_buf e2 eqpack]. rewrite !len_app. change (len (varint HEADERS_FRAME_TYPE)) with 1.
    do 3 f_equal. lia.
  - rewrite <- (assoc_L (++)) in Hw3. by split.
Qed.

(** A stream that can take the next frame, without a field section under way. *)
Definition headers_idle (s : EncodedH3Stream.t) : Prop := enc_idle s ∧ EncodedH3Stream.headers_message s = None.

Lemma send_headers_ok id p ins buf (ibuf : bytes) fields inst q (e : frame_encoder (Q := Q)) :
  let st := default (EncodedH3Stream.new id) (enc_streams e !! id) in
  headers_idle st → EncodedH3Stream.stream_id st = id → 1024 ≤ len buf → len (headers_wire fields) ≤ len buf → len fields < 2 ^ 62 →
  len inst ≤ len ibuf → qenc_encode id (qenc_set_parts p (qpack_encoder e)) = (Ok (fields, inst), q) →
  ∃ (e1 : frame_encoder (Q := Q)) buf' (ibuf' : bytes) (e2 : frame_encoder (Q := Q)), set_frame id (headers_frame p ins) e = (Ok (), e1) ∧
    encode id buf ibuf e1 = (Ok (len (headers_wire fields), len inst, buf', ibuf'), e2) ∧
    upto (len (headers_wire fields)) buf' = headers_wire fields ∧ upto (len inst) ibuf' = inst ∧
    qpack_encoder e2 = q ∧ headers_idle (default (EncodedH3Stream.new id) (enc_streams e2 !! id)).
Proof.
  intros st [[Hst Ho] Hm] Hid Hb Hw Hf Hi Hq.
  set (s1 := EncodedH3Stream.set_state (EncodedH3Stream.set_current st (headers_frame p ins)) EncodingHeadersFrame).
  assert (Hset : set_frame id (headers_frame p ins) e = (Ok (), mk_encoder (qenc_set_parts p (qpack_encoder e)) (<[id := s1]> (enc_streams e)))).
  { unfold set_frame. fold st. destruct Hst as [Hst|Hst]; by rewrite Hst. }
  destruct (loop_headers (mk_encoding s1 buf ibuf (qenc_set_parts p (qpack_encoder e))) buf p ins fields inst q)
    as (buf' & ibuf' & s' & He & [_ Hw'] & Hi' & Hst' & Ho' & Hm'); [apply written_nil|done..|exact Hm| |].
  { cbn [est eqpack s1 EncodedH3Stream.set_state EncodedH3Stream.set_current EncodedH3Stream.stream_id]. by rewrite Hid. }
  eexists _, buf', ibuf', _. split; [exact Hset|]. split.
  { unfold encode. cbn [enc_streams qpack_encoder]. rewrite (proj2 (Z.ltb_ge _ _)) by lia. rewrite lookup_insert, decide_True by done.
    rewrite He. reflexivity. }
  split; [exact Hw'|]. split; [exact Hi'|]. split; [done|]. cbn [enc_streams est]. rewrite lookup_insert, decide_True by done.
  split; [|exact Hm']. split; [by right|]. exact (eq_trans Ho' Ho).
Qed.
End Write.

(** * Reading *)

Section Read.
Context {Q : Type} `{!QpackDecoderOps Q}.

Lemma turn_headers_type id rest fs (q : Q) :
  decode_turn id (mk_decoding (ctl_stream TyRequest StFrameType [] (varint HEADERS_FRAME_TYPE ++ rest) None None false) fs q) =
    (Ok None, mk_decoding (ctl_stream TyRequest StPayloadLen (varint HEADERS_FRAME_TYPE) rest (Some HEADERS_FRAME_TYPE) None false) fs q).
Proof.
  unfold decode_turn, outer, decode_frame_type. rewrite !M_bind_eq. unfold mgets, mlift. cbn [stream]. rewrite ctl_state. cbv iota beta.
  rewrite !M_bind_eq. cbn [stream]. rewrite (ctl_read _ _ _ _ _ _ _ _ HEADERS_FRAME_TYPE) by (apply varint_spec; by cbv). done.
Qed.

Lemma turn_headers_len id done v rest fs (q : Q) :
  0 ≤ v < 2 ^ 62 →
  decode_turn id (mk_decoding (ctl_stream TyRequest StPayloadLen done (varint v ++ rest) (Some HEADERS_FRAME_TYPE) None false) fs q) =
    (Ok None, mk_decoding (ctl_stream TyRequest StHeadersPayload (done ++ varint v) rest (Some HEADERS_FRAME_TYPE) (Some v) false) fs q).
Proof.
  intros Hv. unfold decode_turn, outer, decode_payload_len. rewrite !M_bind_eq. unfold mgets, mlift. cbn [stream]. rewrite ctl_state. cbv iota beta.
  rewrite !M_bind_eq. cbn [stream]. rewrite (ctl_read _ _ _ _ _ _ _ _ v) by (by apply varint_spec). rewrite <- ctl_moved. done.
Qed.

(** The whole field section is there, and the QPACK decoder takes it. *)
Lemma turn_headers id done fields fs p ins (q q1 q2 : Q) :
  qpack_decode_repr fields id q = (Ok FieldDecoded, q1) → qpack_finish id q1 = (Ok (p, ins), q2) →
  decode_turn id (mk_decoding (ctl_stream TyRequest StHeadersPayload done fields (Some HEADERS_FRAME_TYPE) (Some (len fields)) false) fs q) =
    (Ok (Some (MsgRequest (fs ++ [H3Complete (headers_frame p ins)]), true)),
     mk_decoding (DecodedH3Stream.mk TyRequest StFrameType [] 0 None None None None false) (fs ++ [H3Complete (headers_frame p ins)]) q2).
Proof.
  intros Hd Hf. pose proof (len_nonneg fields). pose proof (len_nonneg done). set (s := ctl_stream _ _ _ _ _ _ _).
  assert (Hr : DecodedH3Stream.reader s = Ok (ReadableBytes.new fields)).
  { unfold DecodedH3Stream.reader. subst s. simpl. rewrite len_app, (proj2 (Z.ltb_ge _ _)), from_app_exact by (done || lia). done. }
  unfold decode_turn, outer. rewrite !M_bind_eq. unfold mgets. cbn [stream]. subst s. rewrite ctl_state. cbv iota beta.
  set (s := ctl_stream _ _ _ _ _ _ _) in *. rewrite M_bind_eq. unfold decode_headers_payload. rewrite M_bind_eq. unfold mgets. cbn [stream].
  rewrite M_bind_eq. unfold mlift. rewrite Hr. change (DecodedH3Stream.remain_payload_len s) with (len fields). rewrite cap_new, Z.ltb_irrefl.
  rewrite reader_slice_ok, upto_all by lia. cbv beta iota.
  rewrite M_bind_eq. unfold on_qpack. cbn [qpack]. rewrite Hd. cbv beta iota. rewrite M_bind_eq. unfold put_stream, mmodify, set_stream. cbn [stream frames qpack].
  unfold get_qpack_decoded_header. rewrite M_bind_eq. unfold on_qpack. cbn [qpack]. rewrite Hf. cbv beta iota. run.
  unfold ReadableBytes.cap. cbn [ReadableBytes.buf ReadableBytes.idx]. by rewrite Z.sub_diag.
Qed.

Lemma headers_decoded id fields p ins q1 q2 (d : frame_decoder (Q := Q)) :
  is_bidirectional id = true → streams d !! id = None → len fields < 2 ^ 62 →
  qpack_decode_repr fields id (qpack_decoder d) = (Ok FieldDecoded, q1) → qpack_finish id q1 = (Ok (p, ins), q2) →
  decode id (headers_wire fields) d =
    (Ok (MsgRequest [H3Complete (headers_frame p ins)]),
     mk_decoder q2 (<[id := DecodedH3Stream.mk TyRequest StFrameType [] 0 None None None None false]> (streams d))).
Proof.
  intros Hid Hs Hl Hd Hf. unfold decode. rewrite Hs. cbn [default]. unfold DecodedH3Stream.new. rewrite Hid.
  change (DecodedH3Stream.set_buffer _ _ _) with (ctl_stream TyRequest StFrameType [] (headers_wire fields) None None false).
  unfold decode_fuel. rewrite Nat.add_comm. cbn [Nat.add]. unfold headers_wire.
  erewrite loop_next by apply turn_headers_type.
  erewrite loop_next by (apply turn_headers_len; split; [apply len_nonneg|exact Hl]).
  erewrite loop_last by (by apply (turn_headers _ _ _ _ p ins _ q1 q2)). cbn [qpack stream]. by rewrite insert_delete_eq.
Qed.
End Read.

(** * From one end to the other *)

(** The QPACK codec of the crate behind the frame encoder and the stream decoder. *)
Section Headers.
Context (into_iter : Headers.t → list (HeaderName.t * HeaderValue.t)) (walk : gset Z → list Z) (cap : Z).
Local Instance enc_ops : QpackEncoderOps QpackEncoder.t := qpack_encoder_ops into_iter walk.
Local Instance dec_ops : QpackDecoderOps QpackDecoder.t := qpack_decoder_ops cap.

(** C26: HEADERS over HTTP/3, from one end to the other: a non-empty header list whose names
    are in the static table and whose values are UTF-8, set on an idle stream of an encoder
    whose QPACK dynamic table has no entries, is written by one call of [encode] into
    buffers with room for all of it, as one HEADERS frame; a decoder that is given these
    bytes in one piece, on a request stream that neither it nor its QPACK decoder knows,
    hands out one HEADERS frame with the same header list, which is within the limit of that
    decoder; the encoder's stream is idle again, its dynamic table still without entries,
    and the QPACK decoder is as it was.  Outside of these conditions the code fails: other
    names are written wrongly ([literal_name_misread]), references to dynamic entries too
    ([first_entry_prefix]), a section cut between two lines is misread
    ([cut_between_lines]), an empty one refused ([empty_section_refused]), and so is a value
    that is not UTF-8, which [HeaderValue] allows ([value_not_utf8_refused]). *)
Theorem h3_headers_roundtrip id parts ins buf ibuf (e : frame_encoder (Q := QpackEncoder.t)) (d : frame_decoder (Q := QpackDecoder.t)) :
  let l := items (PartsIter.new into_iter parts) in
  let h := QpackEncoder.is_huffman (qpack_encoder e) in
  let st := default (EncodedH3Stream.new id) (enc_streams e !! id) in
  (∀ h, into_iter h ≡ₚ map_to_list (Headers.map h)) → lines_wf (Parts.map parts) → Forall (static_line h) l → l ≠ [] →
  QDynamicTable.queue (QpackEncoder.table (qpack_encoder e)) = [] → headers_idle st → EncodedH3Stream.stream_id st = id →
  1024 ≤ len buf < 2 ^ 62 → len (headers_wire ([0; 0] ++ lines_bytes h l)) ≤ len buf → 12 ≤ len ibuf →
  is_bidirectional id = true → streams d !! id = None → fresh_stream id (qpack_decoder d) →
  zsum (line_size <$> l) ≤ QpackDecoder.max_field_section_size (qpack_decoder d) →
  ∃ (e1 e2 : frame_encoder (Q := QpackEncoder.t)) n m buf' ibuf' (d' : frame_decoder (Q := QpackDecoder.t)) p',
    set_frame id (headers_frame parts ins) e = (Ok (), e1) ∧
    encode id buf ibuf e1 = (Ok (n, m, buf', ibuf'), e2) ∧
    headers_idle (default (EncodedH3Stream.new id) (enc_streams e2 !! id)) ∧
    QDynamicTable.queue (QpackEncoder.table (qpack_encoder e2)) = [] ∧
    decode id (upto n buf') d = (Ok (MsgRequest [H3Complete (headers_frame p' None)]), d') ∧
    same_parts p' parts ∧ qpack_decoder d' = qpack_decoder d.
Proof.
  intros l h st Hperm Hwf Hl Hne Hq Hidle Hsid Hb Hw Hi Hid Hsd Hfr Hsz.
  destruct (encode_lines into_iter id parts (qpack_encoder e) Hq Hl) as (inst & q' & He & Hlen & Hq' & _).
  set (fields := [0; 0] ++ lines_bytes h l) in *.
  assert (Hlf : len fields < 2 ^ 62).
  { unfold headers_wire in Hw. rewrite !len_app in Hw. pose proof (len_nonneg (varint HEADERS_FRAME_TYPE)). pose proof (len_nonneg (varint (len fields))). lia. }
  destruct (send_headers_ok id parts ins buf ibuf fields inst q' e) as (e1 & buf' & ibuf' & e2 & Hset & Henc & Hwb & _ & Hqe & Hidle');
    [done|done|lia|done|done|lia|by cbn; rewrite He|].
  destruct (updates_items (E := QpackError) into_iter parts Hperm Hwf) as (p' & Hp & Hsame).
  destruct (section_decode h l id (qpack_decoder d) p' Hfr Hl Hne Hsz Hp) as (d1 & Hd & Hf).
  exists e1, e2, (len (headers_wire fields)), (len inst), buf', ibuf'. eexists _, p'. rewrite Hwb.
  split; [exact Hset|]. split; [exact Henc|]. split; [exact Hidle'|]. split; [by rewrite Hqe|]. split.
  - exact (headers_decoded id fields p' None d1 (qpack_decoder d) d Hid Hsd Hlf Hd Hf).
  - by split.
Qed.
End Headers.

Lemma h3_headers_roundtrip_witness :
  let oe := qpack_encoder_ops any_order elements in let od := qpack_decoder_ops 12 in
  ∃ e1 e2 n m buf' ibuf' d' p',
    @set_frame _ oe 4 (headers_frame get_parts None) (mk_encoder QpackEncoder.default ∅) = (Ok (), e1) ∧
    @encode _ oe 4 (replicate 1024 0) (replicate 12 0) e1 = (Ok (n, m, buf', ibuf'), e2) ∧
    headers_idle (default (EncodedH3Stream.new 4) (enc_streams e2 !! 4)) ∧
    QDynamicTable.queue (QpackEncoder.table (qpack_encoder e2)) = [] ∧
    @decode _ od 4 (upto n buf') (mk_decoder (QpackDecoder.new 0 0) ∅) = (Ok (MsgRequest [H3Complete (headers_frame p' None)]), d') ∧
    same_parts p' get_parts ∧ qpack_decoder d' = QpackDecoder.new 0 0.
Proof.
  intros oe od.
  apply (h3_headers_roundtrip any_order elements 12 4 get_parts None (replicate 1024 0) (replicate 12 0)
    (mk_encoder QpackEncoder.default ∅) (mk_decoder (QpackDecoder.new 0 0) ∅)).
  - done.
  - apply get_parts_wf.
  - apply get_parts_static.
  - by vm_compute.
  - done.
  - split; [split; [by left|done]|done].
  - done.
  - by vm_compute.
  - by vm_compute.
  - by vm_compute.
  - done.
  - done.
  - by split.
  - by vm_compute.
Defined.
