(* ===== verification/QpackProgress.v ===== *)
(** The QPACK state machines make progress: a decoder that reports a representation or an
    instruction took at least one byte and no more than it was given, and one that asks
    for more keeps a state from which this holds again.  The loops over a buffer
    therefore end, and the slices between their turns are in bounds. *)
From S2P Require Import Prelude Buffers Huffman HpackTable HpackInteger H3Error H3Frame H3FrameDecoder QpackTable QpackFormat QpackDecoder QpackEncoder.

Definition int_wf (d : IntegerDecoder.t) : Prop := 0 ≤ IntegerDecoder.index d ∧ 1 ≤ IntegerDecoder.shift d.

Lemma q_next_wf d b :
  is_u8 b → int_wf d →
  match q_next_byte d b with
  | (Ok (Some v), _) => 0 ≤ v
  | (Ok None, d') => int_wf d'
  | (Err _, _) => True
  | (Panic, _) => False
  end.
Proof.
  intros Hb [Hi Hs]. unfold q_next_byte. rewrite next_byte_spec by done. pose proof (Z.mod_pos_bound b 128 ltac:(lia)).
  assert (0 ≤ b mod 128 * 2 ^ (IntegerDecoder.shift d - 1)) by (apply Z.mul_nonneg_nonneg; [lia|apply Z.pow_nonneg; lia]).
  destruct (_ && _); [|done]. destruct (b <? 128); [lia|]. split; simpl; lia.
Qed.
Lemma q_first_wf b mask :
  is_u8 b → 0 ≤ mask → match q_first_byte b mask with inl v => 0 ≤ v | inr d => int_wf d end.
Proof.
  intros [Hb _] Hm. assert (0 ≤ Z.land b mask) by (apply Z.land_nonneg; lia). unfold q_first_byte, IntegerDecoder.first_byte.
  destruct (_ ?= _); [split; simpl; lia|lia|split; simpl; lia].
Qed.

(** What a step may do with [buf]: take from [lo] bytes up to all of it and report a
    value with [P], or keep a state with [wf]. *)
Definition progress {D S} (lo : Z) (P : D → Prop) (wf : S → Prop) (buf : bytes) (x : qdec D S) : Prop :=
  match x with
  | Decoded n d => lo ≤ n ≤ len buf ∧ P d
  | NeedMore s => wf s
  | Error _ => True
  end.
Abbreviation anything := (λ _, True).

Lemma progress_after {D S} lo k (P : D → Prop) (wf : S → Prop) buf buf' x :
  progress lo P wf buf x → len buf' = len buf + k → progress (lo + k) P wf buf' (after k x).
Proof. destruct x as [n d|s|e]; simpl; [|done..]. intros [? ?] ->. split; [lia|done]. Qed.
Lemma progress_weaken {D S} lo lo' (P : D → Prop) (wf : S → Prop) buf x :
  lo' ≤ lo → progress lo P wf buf x → progress lo' P wf buf x.
Proof. destruct x; simpl; [|done..]. intros ? [? ?]. split; [lia|done]. Qed.

(** * Strings *)

(** At least [lo] bytes are still to be taken. *)
Definition str_needs (lo : Z) (s : QLiteralString) : Prop :=
  match s with
  | LengthFirstByte => lo ≤ 1
  | LengthTrailingBytes _ d => lo ≤ 1 ∧ int_wf d
  | AsciiStringBytes octets length => lo ≤ length - len octets
  | HuffmanStringBytes _ read length => lo ≤ length - read
  end.
Abbreviation str_wf := (str_needs 1).

Lemma ascii_progress lo octets length buf :
  lo ≤ length - len octets → progress lo anything str_wf buf (q_ascii_decode octets length buf).
Proof.
  intros Hl. unfold q_ascii_decode. destruct (Z.leb_spec length (len buf + len octets)); simpl; [split; [lia|done]|].
  rewrite len_app. lia.
Qed.
Lemma huffman_progress lo h read length buf :
  lo ≤ length - read → progress lo anything str_wf buf (q_huffman_decode h read length buf).
Proof.
  intros Hl. unfold q_huffman_decode. destruct (Z.leb_spec length (len buf + read)).
  - destruct (HuffmanDecoder.decode _ h) as [h'| |]; [|done..]. destruct (HuffmanDecoder.finish h'); [|done..]. simpl. split; [lia|done].
  - destruct (HuffmanDecoder.decode _ h); simpl; [lia|done..].
Qed.
Lemma start_progress is_huffman length buf :
  0 ≤ length → progress 0 anything str_wf buf (string_start is_huffman length buf).
Proof. intros Hl. destruct is_huffman; [apply huffman_progress; lia|apply ascii_progress; unfold len; simpl; lia]. Qed.

Lemma length_trailing_progress h d buf :
  int_wf d → bytes_ok buf → progress 1 anything str_wf buf (length_trailing_decode h d buf).
Proof.
  intros Hd Hb. revert d Hd. induction Hb as [|b buf Hb Hbs IH]; intros d Hd; [by split|]. cbn [length_trailing_decode].
  destruct buf as [|c buf]; [by split|]. pose proof (q_next_wf d b Hb Hd) as Hn.
  destruct (q_next_byte d b) as [[[v|]|e|] d']; [| |done..].
  - eapply progress_weaken; [|eapply (progress_after 0); [by apply start_progress|by rewrite len_cons]]. lia.
  - eapply progress_weaken; [|eapply (progress_after 1); [by apply IH|by rewrite len_cons]]. lia.
Qed.
Lemma literal_progress lo s buf :
  str_needs lo s → bytes_ok buf → progress lo anything str_wf buf (literal_decode s buf).
Proof.
  intros Hs Hb. destruct s as [|h d|o l|h r l]; simpl in Hs; cbn [literal_decode].
  - eapply progress_weaken; [exact Hs|]. destruct Hb as [|b buf Hb Hbs]; [done|]. unfold length_first_decode.
    apply (progress_after 0 1 _ _ buf); [|by rewrite len_cons]. pose proof (q_first_wf b 0x7f Hb ltac:(lia)) as Hf.
    destruct (q_first_byte b 0x7f) as [v|d]; [by apply start_progress|]. eapply progress_weaken; [|by apply length_trailing_progress]. lia.
  - destruct Hs as [Hlo Hd]. eapply progress_weaken; [exact Hlo|by apply length_trailing_progress].
  - by apply ascii_progress.
  - by apply huffman_progress.
Qed.

(** * First bytes *)

Section First.
Context {P : Type} (from_u8 : Z → P) (index_mask : P → Z) (midbit : P → Z → MidBit.t).
Hypothesis mask_nonneg : ∀ p, 0 ≤ index_mask p.
Definition inner_wf (s : IndexInner P) : Prop := match s with FirstByte => True | TrailingBytes _ _ d => int_wf d end.
Definition index_ok (x : P * MidBit.t * Z) : Prop := 0 ≤ x.2.

Lemma trailing_progress p m d buf :
  int_wf d → bytes_ok buf → progress 1 index_ok inner_wf buf (trailing_decode p m d buf).
Proof.
  intros Hd Hb. revert d Hd. induction Hb as [|b buf Hb Hbs IH]; intros d Hd; [done|]. cbn [trailing_decode].
  pose proof (q_next_wf d b Hb Hd) as Hn. pose proof (len_nonneg buf). destruct (q_next_byte d b) as [[[v|]|e|] d']; [| |done..].
  - split; [rewrite len_cons; lia|done].
  - eapply progress_weaken; [|eapply (progress_after 1); [by apply IH|by rewrite len_cons]]. lia.
Qed.
Lemma index_progress s buf :
  inner_wf s → bytes_ok buf → progress 1 index_ok inner_wf buf (index_inner_decode from_u8 index_mask midbit s buf).
Proof.
  intros Hs Hb. destruct s as [|p m d]; cbn [index_inner_decode]; [|by apply trailing_progress].
  destruct Hb as [|b buf Hb Hbs]; [done|]. unfold first_byte_decode. pose proof (q_first_wf b _ Hb (mask_nonneg (from_u8 b))) as Hf.
  pose proof (len_nonneg buf). destruct (q_first_byte b _) as [v|d].
  - split; [rewrite len_cons; lia|done].
  - eapply progress_weaken; [|eapply (progress_after 1); [by apply trailing_progress|by rewrite len_cons]]. lia.
Qed.
End First.

(** Two steps, one after the other. *)
Lemma progress_then {D S} (P : D → Prop) (wf : S → Prop) lo lo' n buf x :
  0 ≤ n → lo ≤ n ≤ len buf → progress lo' P wf (from n buf) x → progress (lo + lo') P wf buf (after n x).
Proof.
  intros H0 Hn Hx. eapply progress_weaken; [|eapply progress_after; [exact Hx|rewrite len_from by lia; lia]]. lia.
Qed.

Lemma from_bytes_ok n buf : bytes_ok buf → bytes_ok (from n buf).
Proof. apply Forall_drop. Qed.
Lemma name_start_needs m namelen : 0 ≤ namelen → str_needs 0 (name_start m namelen).
Proof. intros Hn. unfold name_start. destruct (MidBit.h m) as [[]|]; simpl; unfold len; simpl; lia. Qed.

(** * Representations *)

Definition repr_wf (s : ReprDecodeState) : Prop :=
  match s with
  | FiledSectionPrefix => True
  | ReprIndex inner => inner_wf inner
  | ReprValueString _ _ _ inner | ReprNameAndValue _ _ inner => str_wf inner
  end.

Lemma fsp_loop_takes d n buf v k rest :
  fsp_loop d n buf = FspValue v k rest → bytes_ok buf → bytes_ok rest ∧ k + len rest = n + len buf ∧ n ≤ k.
Proof.
  intros Hl Hb. revert d n Hl. induction Hb as [|b buf Hb Hbs IH]; intros d n; [done|]. cbn [fsp_loop]. destruct buf as [|c buf]; [done|].
  rewrite len_cons. destruct (q_next_byte d b) as [[[w|]|e|] d']; [| |done..].
  - intros [= <- <- <-]. split; [done|lia].
  - intros Hl. apply IH in Hl as (? & ? & ?). split; [done|lia].
Qed.
Lemma fsp_first_takes b mask n buf v k rest :
  fsp_first b mask n buf = FspValue v k rest → bytes_ok buf → bytes_ok rest ∧ k + len rest = n + len buf ∧ n ≤ k.
Proof.
  unfold fsp_first. destruct (q_first_byte b mask) as [w|d]; [|apply fsp_loop_takes].
  intros [= <- <- <-] Hb. split; [done|lia].
Qed.
Lemma fsp_progress buf : bytes_ok buf → progress 1 anything repr_wf buf (fsp_decode buf).
Proof.
  intros Hb. destruct Hb as [|b buf Hb Hbs]; [done|]. cbn [fsp_decode].
  destruct (fsp_first b _ 1 buf) as [v k rest| |] eqn:H1; [|done..]. apply fsp_first_takes in H1 as (Hr & Hk & Hk1); [|done].
  destruct rest as [|c rest]; [done|]. destruct rest as [|c2 rest]; [done|]. inversion_clear Hr as [|? ? Hc Hr'].
  destruct (fsp_first c _ (k + 1) (c2 :: rest)) as [v2 k2 rest2| |] eqn:H2; [|done..].
  apply fsp_first_takes in H2 as (_ & Hk2 & Hkk); [|done]. simpl. rewrite !len_cons in *. pose proof (len_nonneg rest2). split; [lia|done].
Qed.

Lemma repr_value_progress lo r m n s buf :
  str_needs lo s → bytes_ok buf → progress lo anything repr_wf buf (repr_value_decode r m n s buf).
Proof.
  intros Hs Hb. pose proof (literal_progress lo s buf Hs Hb) as Hl. unfold repr_value_decode.
  destruct (literal_decode s buf) as [k v|s'|e]; destruct r; done.
Qed.
Lemma repr_name_progress lo r m s buf :
  0 ≤ lo → str_needs lo s → bytes_ok buf → progress lo anything repr_wf buf (repr_name_decode r m s buf).
Proof.
  intros H0 Hs Hb. pose proof (literal_progress lo s buf Hs Hb) as Hl. unfold repr_name_decode.
  destruct (literal_decode s buf) as [k v|s'|e]; [|done..]. destruct Hl as [Hk _].
  apply (progress_weaken (lo + 1)); [lia|]. apply progress_then; [lia|lia|]. apply repr_value_progress; [done|by apply from_bytes_ok].
Qed.
Lemma repr_mask_nonneg p : 0 ≤ ReprPrefixBit.prefix_index_mask p.
Proof. by destruct p. Qed.
Lemma repr_index_progress s buf :
  inner_wf s → bytes_ok buf → progress 1 anything repr_wf buf (repr_index_decode s buf).
Proof.
  intros Hs Hb. pose proof (index_progress ReprPrefixBit.from_u8 _ ReprPrefixBit.prefix_midbit_value repr_mask_nonneg s buf Hs Hb) as Hi.
  unfold repr_index_decode, repr_inner_decode. destruct (index_inner_decode _ _ _ s buf) as [n [[p m] i]|s'|e]; [|done..].
  destruct Hi as [Hn Hx]. unfold index_ok in Hx. simpl in Hx. pose proof (from_bytes_ok n buf Hb).
  destruct p; try done; (apply (progress_weaken (1 + 0)); [lia|]; apply progress_then; [lia|lia|]).
  - by apply repr_value_progress.
  - by apply repr_value_progress.
  - apply repr_name_progress; [lia|by apply name_start_needs|done].
Qed.
Lemma repr_progress s buf : repr_wf s → bytes_ok buf → progress 1 anything repr_wf buf (repr_state_decode s buf).
Proof.
  intros Hs Hb. destruct s; cbn [repr_state_decode].
  - by apply fsp_progress.
  - by apply repr_index_progress.
  - by apply repr_value_progress.
  - by apply repr_name_progress.
Qed.

(** * Instructions *)

Definition inst_wf (s : InstDecodeState) : Prop :=
  match s with
  | EncInstIndex inner => inner_wf inner
  | InstValueString _ _ _ inner | InstNameAndValue _ _ inner => str_wf inner
  end.
Lemma inst_value_progress lo r m n s buf :
  str_needs lo s → bytes_ok buf → progress lo anything inst_wf buf (inst_value_decode r m n s buf).
Proof.
  intros Hs Hb. pose proof (literal_progress lo s buf Hs Hb) as Hl. unfold inst_value_decode.
  destruct (literal_decode s buf) as [k v|s'|e]; destruct r; done.
Qed.
Lemma inst_name_progress lo r m s buf :
  0 ≤ lo → str_needs lo s → bytes_ok buf → progress lo anything inst_wf buf (inst_name_decode r m s buf).
Proof.
  intros H0 Hs Hb. pose proof (literal_progress lo s buf Hs Hb) as Hl. unfold inst_name_decode.
  destruct (literal_decode s buf) as [k v|s'|e]; [|done..]. destruct Hl as [Hk _].
  apply (progress_weaken (lo + 1)); [lia|]. apply progress_then; [lia|lia|]. apply inst_value_progress; [done|by apply from_bytes_ok].
Qed.
Lemma inst_mask_nonneg p : 0 ≤ EncoderInstPrefixBit.prefix_index_mask p.
Proof. by destruct p. Qed.
Lemma inst_progress s buf : inst_wf s → bytes_ok buf → progress 1 anything inst_wf buf (inst_state_decode s buf).
Proof.
  intros Hs Hb. destruct s as [s| |]; cbn [inst_state_decode]; [|by apply inst_value_progress|by apply inst_name_progress].
  pose proof (index_progress EncoderInstPrefixBit.from_u8 _ EncoderInstPrefixBit.prefix_midbit_value inst_mask_nonneg s buf Hs Hb) as Hi.
  unfold inst_index_decode, inst_inner_decode. destruct (index_inner_decode _ _ _ s buf) as [n [[p m] i]|s'|e]; [|done..].
  destruct Hi as [Hn Hx]. unfold index_ok in Hx. simpl in Hx. pose proof (from_bytes_ok n buf Hb).
  destruct p; try done; (apply (progress_weaken (1 + 0)); [lia|]; apply progress_then; [lia|lia|]).
  - by apply inst_value_progress.
  - apply inst_name_progress; [lia|by apply name_start_needs|done].
Qed.

Lemma dec_mask_nonneg p : 0 ≤ DecoderInstPrefixBit.prefix_index_mask p.
Proof. by destruct p. Qed.
Lemma dec_inst_progress s buf :
  inner_wf s → bytes_ok buf → progress 1 anything inner_wf buf (dec_inst_index_decode s buf).
Proof.
  intros Hs Hb. pose proof (index_progress DecoderInstPrefixBit.from_u8 _ DecoderInstPrefixBit.prefix_midbit_value dec_mask_nonneg s buf Hs Hb) as Hi.
  unfold dec_inst_index_decode, dec_inst_inner_decode. destruct (index_inner_decode _ _ _ s buf) as [n [[p m] i]|s'|e]; [|done..].
  destruct Hi as [Hn _]. by destruct p.
Qed.

(** * Loops *)

(** The states that the decoders keep between calls. *)
Definition opt_wf {S} (wf : S → Prop) (o : option S) : Prop := match o with Some s => wf s | None => True end.
Lemma repr_decode_ok st buf :
  opt_wf repr_wf st → bytes_ok buf →
  let '(r, st') := repr_decode buf st in
  opt_wf repr_wf st' ∧ match r with Ok (Some (n, _)) => 1 ≤ n ≤ len buf | Ok None | Err _ => True | Panic => False end.
Proof.
  intros Hs Hb. unfold repr_decode. destruct buf as [|b t]; [done|].
  assert (Hd : repr_wf (default FiledSectionPrefix st)) by (destruct st; done).
  pose proof (repr_progress _ _ Hd Hb) as Hp. destruct (repr_state_decode _ _) as [n r|s|e]; [|done..].
  destruct Hp as [Hn _]. split; [|done]. by destruct (_ <=? _).
Qed.
Lemma inst_decode_ok st buf :
  opt_wf inst_wf st → bytes_ok buf →
  let '(r, st') := inst_decode buf st in
  opt_wf inst_wf st' ∧ match r with Ok (Some (n, _)) => 1 ≤ n ≤ len buf | Ok None | Err _ => True | Panic => False end.
Proof.
  intros Hs Hb. unfold inst_decode. destruct buf as [|b t]; [done|].
  assert (Hd : inst_wf (default (EncInstIndex FirstByte) st)) by (destruct st; done).
  pose proof (inst_progress _ _ Hd Hb) as Hp. destruct (inst_state_decode _ _) as [n r|s|e]; [|done..]. by destruct Hp.
Qed.
Lemma dec_inst_decode_ok st buf :
  opt_wf inner_wf st → bytes_ok buf →
  let '(r, st') := dec_inst_decode buf st in
  opt_wf inner_wf st' ∧ match r with Ok (Some (n, _)) => 1 ≤ n ≤ len buf | Ok None | Err _ => True | Panic => False end.
Proof.
  intros Hs Hb. unfold dec_inst_decode. destruct buf as [|b t]; [done|].
  assert (Hd : inner_wf (P := DecoderInstPrefixBit.t) (default FirstByte st)) by (destruct st; done).
  pose proof (dec_inst_progress _ _ Hd Hb) as Hp. destruct (dec_inst_index_decode _ _) as [n r|s|e]; [|done..]. by destruct Hp.
Qed.

(** ** Field sections *)

(** A message between calls: a state the decoder can go on from, and octets held back. *)
Definition msg_wf (m : ReprMessage.t) : Prop :=
  opt_wf repr_wf (ReprMessage.repr_state m) ∧ opt_wf bytes_ok (ReprMessage.remaining m).

Lemma searcher_add_wf m f v m' : Searcher.add m f v = Ok m' → msg_wf m → msg_wf m'.
Proof. unfold Searcher.add. intros He. inv_bind He. by injection He as <-. Qed.
Lemma searcher_check_wf s m f v m' : Searcher.check_field_list_size s m f v = Ok m' → msg_wf m → msg_wf m'.
Proof. unfold Searcher.check_field_list_size. destruct (_ <? _); [done|]. by intros [= <-]. Qed.
Lemma search_literal_wf s mb n v b m m' : Searcher.search_literal s mb n v b m = Ok m' → msg_wf m → msg_wf m'.
Proof.
  unfold Searcher.search_literal. intros He Hm. inv_bind He. destruct a as [f x]. inv_bind He.
  eapply searcher_add_wf; [exact He|]. by eapply searcher_check_wf.
Qed.
Lemma field_line_wf s r m m' : QpackDecoder.field_line s r m = Ok m' → msg_wf m → msg_wf m'.
Proof.
  destruct r as [| | | | |]; cbn [QpackDecoder.field_line]; [by intros [= <-]| | |apply search_literal_wf..].
  - unfold Searcher.search_indexed. intros He Hm. destruct (MidBit.t_ mid_bit) as [[]|].
    1: inv_bind He. 2, 3: do 4 inv_bind He.
    all: match goal with x : Header.t * bytes |- _ => destruct x end; by eapply searcher_add_wf.
  - unfold Searcher.search_post_indexed. intros He Hm. do 3 inv_bind He.
    match goal with x : Header.t * bytes |- _ => destruct x end. inv_bind He.
    eapply searcher_add_wf; [exact He|]. by eapply searcher_check_wf.
Qed.
Lemma start_section_wf d id ric sg db rest s b base s' :
  QpackDecoder.start_section d id ric sg db rest s = Ok (b, base, s') → bytes_ok rest →
  msg_wf (QpackDecoder.message s) → msg_wf (QpackDecoder.message s').
Proof.
  unfold QpackDecoder.start_section. intros He Hr [Hs Hm]. do 2 inv_bind He.
  destruct (_ <? _); [destruct (_ <? Z.of_nat _); [done|]|]; injection He as <- <- <-; by split.
Qed.

(** The loop does not depend on its fuel, and keeps the message well formed. *)
Lemma repr_loop_ok fuel fuel' d id base buf s :
  msg_wf (QpackDecoder.message s) → bytes_ok buf → (length buf < fuel)%nat → (length buf < fuel')%nat →
  QpackDecoder.repr_loop fuel d id base buf s = QpackDecoder.repr_loop fuel' d id base buf s ∧
  msg_wf (QpackDecoder.message (QpackDecoder.repr_loop fuel d id base buf s).2).
Proof.
  revert fuel' base buf s. induction fuel as [|fuel IH]; intros fuel' base buf s Hm Hb Hf Hf'; [lia|]. destruct fuel' as [|fuel']; [lia|].
  cbn [QpackDecoder.repr_loop]. pose proof (repr_decode_ok _ buf (proj1 Hm) Hb) as Hd.
  destruct (repr_decode buf (ReprMessage.repr_state (QpackDecoder.message s))) as [r st]. destruct Hd as [Hst Hn].
  set (s1 := QpackDecoder.set_message s _). assert (Hm1 : msg_wf (QpackDecoder.message s1)) by (split; [exact Hst|apply Hm]).
  destruct r as [[[n r]|]|e|]; [|by split..].
  assert (Hlen : (length (from n buf) < length buf)%nat) by (unfold from, len in *; rewrite length_drop; lia).
  pose proof (from_bytes_ok n buf Hb) as Hb'.
  destruct r as [ric sg db| | | | |];
    [destruct (QpackDecoder.start_section d id ric sg db (from n buf) s1) as [[[[] bs] s2]|e|] eqn:Hs; [|apply IH|by split..]
    |destruct (QpackDecoder.field_line _ _ (QpackDecoder.message s1)) as [m2|e|] eqn:Hl; [apply IH|by split..]..]; try lia; try done.
  all: try (by apply (start_section_wf _ _ _ _ _ _ _ _ _ _ Hs)).
  all: try (by apply (field_line_wf _ _ _ _ Hl)).
  split; [done|]. by apply (start_section_wf _ _ _ _ _ _ _ _ _ _ Hs).
Qed.
Lemma buffered_ok buf id d s :
  msg_wf (QpackDecoder.message s) → bytes_ok buf → msg_wf (QpackDecoder.message (QpackDecoder.decode_buffered_repr buf id d s).2).
Proof.
  intros Hm Hb. unfold QpackDecoder.decode_buffered_repr. destruct buf as [|b t]; [done|].
  apply (repr_loop_ok _ (S (length (b :: t)))); [done|done|lia|lia].
Qed.

(** ** Instruction streams *)

Lemma ins_loop_ok fuel fuel' buf d :
  opt_wf inst_wf (QpackDecoder.inst_state d) → bytes_ok buf → (length buf < fuel)%nat → (length buf < fuel')%nat →
  QpackDecoder.ins_loop fuel buf d = QpackDecoder.ins_loop fuel' buf d ∧
  let d' := (QpackDecoder.ins_loop fuel buf d).2 in
  opt_wf inst_wf (QpackDecoder.inst_state d') ∧ QpackDecoder.streams d' = QpackDecoder.streams d.
Proof.
  revert fuel' buf d. induction fuel as [|fuel IH]; intros fuel' buf d Hs Hb Hf Hf'; [lia|]. destruct fuel' as [|fuel']; [lia|].
  cbn [QpackDecoder.ins_loop]. destruct buf as [|b t]; [done|]. set (buf := b :: t) in *.
  pose proof (inst_decode_ok _ buf Hs Hb) as Hd. destruct (inst_decode buf (QpackDecoder.inst_state d)) as [r st]. destruct Hd as [Hst Hn].
  destruct r as [[[n i]|]|e|]; [|by split..].
  assert (Hlen : (length (from n buf) < length buf)%nat) by (unfold from, len in *; rewrite length_drop; lia).
  destruct (QpackDecoder.execute i _) as [table|e|]; [|by split..].
  destruct (IH fuel' (from n buf) (QpackDecoder.set_table (QpackDecoder.set_inst_state d st) table) Hst (from_bytes_ok n buf Hb)) as [He Hw]; [lia|lia|].
  split; [exact He|exact Hw].
Qed.

(** The instructions of the decoder stream do not touch the state of their decoder. *)
Lemma increase_inst_state n e e' : QpackEncoder.increase_insert_count n e = Ok e' → QpackEncoder.inst_state e' = QpackEncoder.inst_state e.
Proof. unfold QpackEncoder.increase_insert_count. intros He. inv_bind He. by injection He as <-. Qed.
Lemma ack_inst_state walk n e e' : QpackEncoder.ack walk n e = Ok e' → QpackEncoder.inst_state e' = QpackEncoder.inst_state e.
Proof.
  unfold QpackEncoder.ack. intros He. inv_bind He. destruct a as [k e1].
  assert (H1 : QpackEncoder.inst_state e1 = QpackEncoder.inst_state e).
  { destruct (QpackEncoder.tracked_stream e !! n) as [[|sec rest]|]; [by injection Ha as <- <-| |by injection Ha as <- <-].
    inv_bind Ha. destruct a as [k1 d1]. by injection Ha as <- <-. }
  rewrite <- H1. destruct (0 <? _); [by eapply increase_inst_state|by injection He as <-].
Qed.
Lemma cancel_inst_state walk n e e' : QpackEncoder.cancel_stream walk n e = Ok e' → QpackEncoder.inst_state e' = QpackEncoder.inst_state e.
Proof.
  unfold QpackEncoder.cancel_stream. destruct (QpackEncoder.tracked_stream e !! n); [|by intros [= <-]].
  intros He. inv_bind He. destruct a as [[] d]; [|by injection He as <-]. inv_bind He. by injection He as <-.
Qed.
Lemma execute_inst_state walk i e e' : QpackEncoder.execute walk i e = Ok e' → QpackEncoder.inst_state e' = QpackEncoder.inst_state e.
Proof. destruct i; [apply ack_inst_state|apply cancel_inst_state|apply increase_inst_state]. Qed.

Lemma enc_ins_loop_ok walk fuel fuel' buf e :
  opt_wf inner_wf (QpackEncoder.inst_state e) → bytes_ok buf → (length buf < fuel)%nat → (length buf < fuel')%nat →
  QpackEncoder.ins_loop walk fuel buf e = QpackEncoder.ins_loop walk fuel' buf e.
Proof.
  revert fuel' buf e. induction fuel as [|fuel IH]; intros fuel' buf e Hs Hb Hf Hf'; [lia|]. destruct fuel' as [|fuel']; [lia|].
  cbn [QpackEncoder.ins_loop]. pose proof (dec_inst_decode_ok _ buf Hs Hb) as Hd.
  destruct (dec_inst_decode buf (QpackEncoder.inst_state e)) as [r st]. destruct Hd as [Hst Hn]. destruct r as [[[n i]|]|x|]; [|done..].
  assert (Hlen : (length (from n buf) < length buf)%nat) by (unfold from, len in *; rewrite length_drop; lia).
  destruct (QpackEncoder.execute walk i _) as [e1|x|] eqn:Hx; [|done..]. apply execute_inst_state in Hx.
  apply IH; [by rewrite Hx|by apply from_bytes_ok|lia|lia].
Qed.

(** * Any sequence of calls *)

Inductive qcall :=
| CallRepr (buf : bytes) (id : Z) | CallIns (buf : bytes) | CallFinish (id : Z) | CallCancel (cap id : Z) | CallFinishStream (id : Z).
Definition qcall_ok (c : qcall) : Prop := match c with CallRepr buf _ | CallIns buf => bytes_ok buf | _ => True end.
Definition qperform (c : qcall) (d : QpackDecoder.t) : QpackDecoder.t :=
  match c with
  | CallRepr buf id => (QpackDecoder.decode_repr buf id d).2
  | CallIns buf => (QpackDecoder.decode_ins buf d).2
  | CallFinish id => (QpackDecoder.finish id d).2
  | CallCancel cap id => (QpackDecoder.stream_cancel cap id d).2
  | CallFinishStream id => (QpackDecoder.finish_stream id d).2
  end.
Fixpoint qperforms (l : list qcall) (d : QpackDecoder.t) : QpackDecoder.t :=
  match l with [] => d | c :: l => qperforms l (qperform c d) end.

Definition qdecoder_wf (d : QpackDecoder.t) : Prop :=
  opt_wf inst_wf (QpackDecoder.inst_state d) ∧ map_Forall (λ _, msg_wf) (QpackDecoder.streams d).

Lemma new_msg_wf : msg_wf ReprMessage.new.
Proof. by split. Qed.
Lemma decode_repr_wf buf id d : bytes_ok buf → qdecoder_wf d → qdecoder_wf (QpackDecoder.decode_repr buf id d).2.
Proof.
  intros Hb [Hi Hs]. unfold QpackDecoder.decode_repr. destruct (QpackDecoder.blocked d !! id); [done|].
  set (d' := QpackDecoder.set_streams d _). set (first := match QpackDecoder.streams d !! id with Some _ => _ | None => _ end).
  assert (Hd' : map_Forall (λ _, msg_wf) (QpackDecoder.streams d')) by (by apply map_Forall_delete).
  assert (Hf : msg_wf (QpackDecoder.message first.2)).
  { subst first. destruct (QpackDecoder.streams d !! id) as [m|] eqn:Hm; [|apply new_msg_wf]. apply Hs in Hm as [H1 H2].
    destruct (ReprMessage.remaining m) as [vec|] eqn:Hr; [|split; [exact H1|cbn; by rewrite Hr]].
    apply buffered_ok; [by split|exact H2]. }
  destruct first as [r1 s1]. cbn [snd] in Hf. destruct r1 as [x|e|]; [|split; [exact Hi|exact Hd']..].
  pose proof (buffered_ok buf id (QpackDecoder.set_blocked d' (QpackDecoder.sec_blocked s1)) s1 Hf Hb) as H2.
  destruct (QpackDecoder.decode_buffered_repr _ _ _ s1) as [[st|e|] s2]; [|split; [exact Hi|exact Hd']..]. split; [exact Hi|].
  cbn [snd QpackDecoder.streams QpackDecoder.set_blocked QpackDecoder.set_streams]. by apply map_Forall_insert_2.
Qed.
Lemma qperform_wf c d : qcall_ok c → qdecoder_wf d → qdecoder_wf (qperform c d).
Proof.
  intros Hc Hd. destruct c as [buf id|buf|id|cap id|id]; cbn [qperform].
  - by apply decode_repr_wf.
  - destruct Hd as [Hi Hs]. unfold QpackDecoder.decode_ins. rewrite M_bind_eq.
    destruct (ins_loop_ok (S (length buf)) (S (length buf)) buf d Hi Hc) as (_ & Hi' & Hs'); [lia|lia|].
    destruct (QpackDecoder.ins_loop (S (length buf)) buf d) as [[[]|e|] d1]; cbn [snd] in *;
      (split; [exact Hi'|cbn; by rewrite Hs']).
  - destruct Hd as [Hi Hs]. unfold QpackDecoder.finish. destruct (QpackDecoder.streams d !! id) as [m|]; [|by split].
    destruct (ReprMessage.repr_state m); (split; [done|]); by apply map_Forall_delete.
  - destruct Hd as [Hi Hs]. unfold QpackDecoder.stream_cancel. destruct (0 <? _); [|by split].
    destruct (cap <? _); (split; [done|]); by apply map_Forall_delete.
  - destruct Hd as [Hi Hs]. unfold QpackDecoder.finish_stream. destruct (QpackDecoder.blocked d !! id); [by split|].
    split; [done|]. by apply map_Forall_delete.
Qed.
Lemma qperforms_wf l d : Forall qcall_ok l → qdecoder_wf d → qdecoder_wf (qperforms l d).
Proof. intros Hl. revert d. induction Hl as [|c l Hc _ IH]; intros d Hd; [done|]. by apply IH, qperform_wf. Qed.

(** C31: The QPACK decoder terminates: whatever calls were made on it, with any octets, the
    state machines it keeps are well formed, and the loop over the field section of any
    stream and the loop over instructions end after at most one turn per octet and one
    more, as turns beyond that make no difference. *)
Theorem qpack_decoder_terminates blocked capacity calls buf k :
  Forall qcall_ok calls → bytes_ok buf →
  let d := qperforms calls (QpackDecoder.new blocked capacity) in
  QpackDecoder.ins_loop (S (length buf) + k) buf d = QpackDecoder.ins_loop (S (length buf)) buf d ∧
  ∀ id base x b, QpackDecoder.streams d !! id = Some x ∨ x = ReprMessage.new →
    let s := QpackDecoder.mk_section x b in
    QpackDecoder.repr_loop (S (length buf) + k) d id base buf s = QpackDecoder.repr_loop (S (length buf)) d id base buf s.
Proof.
  intros Hc Hb d. assert (Hd : qdecoder_wf d) by (apply qperforms_wf; [done|]; split; [done|apply map_Forall_empty]).
  split.
  - apply ins_loop_ok; [apply Hd|done|lia|lia].
  - intros id base x b Hx s. apply repr_loop_ok; [|done|lia|lia]. destruct Hx as [Hx| ->]; [by apply (proj2 Hd id)|apply new_msg_wf].
Qed.

Lemma qpack_decoder_terminates_witness :
  let d := qperforms [CallRepr [0; 0; 0x5f] 4; CallIns [0x3f]; CallFinish 8] (QpackDecoder.new 0 0) in
  is_Some (QpackDecoder.streams d !! 4) ∧
  QpackDecoder.ins_loop (S 2 + 7) [0xff; 1] d = QpackDecoder.ins_loop (S 2) [0xff; 1] d.
Proof.
  intros d. split; [by eexists; vm_compute|].
  apply (qpack_decoder_terminates 0 0 [CallRepr [0; 0; 0x5f] 4; CallIns [0x3f]; CallFinish 8] [0xff; 1] 7).
  - repeat apply Forall_cons_2; [..|apply Forall_nil_2]; try done; repeat constructor; lia.
  - repeat constructor; lia.
Defined.
