(* ===== verification/TextBody.v ===== *)
(** Bodies that are sent as they are ([ylong_http/src/body/text.rs]): [TextBody] over bytes
    and over a reader, and the decoder that cuts a body of a known length off a stream. *)
From S2P Require Import Prelude Buffers PullEncoder.

(** * Encoding *)

(** [TextBody<FromBytes>]: [Read::read] of a slice takes what fits the buffer. *)
Module TextBody.
Record t := mk { from_ : bytes }.
Definition from_bytes (b : bytes) : t := mk b.
Definition data {E} (n : Z) : M t E bytes := λ x, (Ok (upto n (from_ x)), mk (from n (from_ x))).
(** [TextBody<FromReader>] and [TextBody<FromAsyncReader>]: what the reader gives. *)
Definition reader_data {R E} (read : R → Z → res E bytes * R) (n : Z) : M R E bytes := λ r, read r n.
End TextBody.

#[export] Program Instance text_body_pull {E} : PullEncoder (TextBody.data (E := E)) :=
  { pending := TextBody.from_; pull_ok _ := True }.
Next Obligation. intros E n [b] _ Hn. eexists. by split; [|split]. Qed.

(** * Decoding *)

Inductive TextState := Partial | Complete.
Module Text.
Record t := mk { state : TextState; data : bytes }.
Definition complete (data : bytes) : t := mk Complete data.
Definition partial (data : bytes) : t := mk Partial data.
Definition is_complete (x : t) : bool := match state x with Complete => true | Partial => false end.
Definition is_partial (x : t) : bool := negb (is_complete x).
End Text.

Module TextBodyDecoder.
Record t := mk { left : Z }.
Definition new (length : Z) : t := mk length.
Definition decode (buf : bytes) (d : t) : Text.t * bytes * t :=
  if left d =? 0 then (Text.complete (upto 0 buf), buf, d)
  else
    let size := Z.min (left d) (len buf) in
    let d := mk (left d - size) in
    if left d =? 0 then (Text.complete (upto size buf), from size buf, d)
    else (Text.partial (upto size buf), from size buf, d).

(** The pieces of a body, one after the other: the data, whether it is complete, and what
    is behind it. *)
Fixpoint feed (segs : list bytes) (d : t) : bytes * bool * bytes :=
  match segs with
  | [] => ([], left d =? 0, [])
  | s :: segs =>
      let '(text, rest, d) := decode s d in
      let '(data, complete, behind) := feed segs d in
      (Text.data text ++ data, complete, rest ++ behind)
  end.
End TextBodyDecoder.
Import TextBodyDecoder.

(** * Theorems *)

Lemma text_decode_eq buf d :
  0 ≤ left d →
  decode buf d = (Text.mk (if left d <=? len buf then Complete else Partial) (upto (left d) buf), from (left d) buf, mk (Z.max 0 (left d - len buf))).
Proof.
  intros Hd. pose proof (len_nonneg buf) as Hb. unfold decode, Text.complete, Text.partial. destruct (Z.eqb_spec (left d) 0) as [Hz|Hz].
  - rewrite Hz, from_0, (proj2 (Z.leb_le 0 (len buf))) by lia. rewrite Z.max_l by lia. destruct d; simpl in *; by subst.
  - cbn [left]. destruct (Z.leb_spec (left d) (len buf)) as [Hle|Hgt].
    + rewrite Z.min_l, Z.sub_diag by lia. simpl. by rewrite Z.max_l by lia.
    + rewrite Z.min_r by lia. rewrite (proj2 (Z.eqb_neq _ 0)) by lia. rewrite (upto_all (len buf) buf), (upto_all (left d) buf), !from_all, Z.max_r by lia. done.
Qed.

(** However a stream is cut, the decoder for a body of [n] bytes gives its first [n]
    bytes as data and the rest as rest, and says that the body is complete exactly when
    [n] bytes have come. *)
Theorem text_decode_segments n segs :
  0 ≤ n → feed segs (new n) = (upto n (concat segs), n <=? len (concat segs), from n (concat segs)).
Proof.
  intros Hn. unfold new. revert n Hn. induction segs as [|s segs IH]; intros n Hn; cbn [feed concat].
  { unfold upto, from. rewrite take_nil, drop_nil. simpl. f_equal. f_equal. change (len (@nil Z)) with 0.
    destruct (Z.eqb_spec n 0); destruct (Z.leb_spec n 0); lia || done. }
  rewrite text_decode_eq by done. cbn [left]. rewrite IH by lia. cbn [Text.data]. rewrite len_app. pose proof (len_nonneg s).
  destruct (Z.leb_spec n (len s)) as [Hle|Hgt].
  - rewrite Z.max_l, upto_app_le, (upto_0 0), app_nil_r, from_app_le, (from_0 0) by lia. f_equal. f_equal. pose proof (len_nonneg (concat segs)).
    destruct (Z.leb_spec 0 (len (concat segs))), (Z.leb_spec n (len s + len (concat segs))); lia || done.
  - rewrite Z.max_r, upto_app_ge, from_app_ge, (upto_all n s), (from_all n s) by lia. f_equal. f_equal.
    destruct (Z.leb_spec (n - len s) (len (concat segs))), (Z.leb_spec n (len s + len (concat segs))); lia || done.
Qed.

(** A body that [TextBody] has written through buffers of any sizes, cut in any way, is
    what a decoder for its length gives back, complete and with nothing behind it. *)
Theorem text_roundtrip {E} b ns segs :
  Forall (λ n, 0 < n) ns → len b ≤ zsum ns →
  match calls (TextBody.data (E := E)) ns (TextBody.from_bytes b) with
  | (Ok outs, _) => concat segs = concat outs → feed segs (new (len b)) = (b, true, [])
  | _ => False
  end.
Proof.
  intros Hns Hlen. pose proof (calls_cut (TextBody.data (E := E)) ns (TextBody.from_bytes b)) as Hc. destruct (Hc I Hns) as (s' & -> & _ & _).
  intros Hseg. rewrite text_decode_segments by apply len_nonneg. rewrite Hseg, cut_concat by done. cbn [pending text_body_pull TextBody.from_ TextBody.from_bytes].
  rewrite (upto_all (zsum ns)) by done. rewrite upto_all, from_all by lia. by rewrite Z.leb_refl.
Qed.
