(* ===== verification/Multipart.v ===== *)
(** Forms that are uploaded ([ylong_http/src/body/mime/simple.rs]): a [MultiPart] of parts
    with bytes or streams as bodies, read as one stream of bytes, and read again after
    [reuse].

    A [ReusableReader] is the script of what its reads give and of what they give again
    after [reuse]; at the end of the script it is at its end. *)
From S2P Require Import Prelude Buffers.

(** * Streams and parts *)

Inductive src_event := SPending | SData (d : bytes) | SError.
Module Reader.
Record t := mk { all : list src_event; left : list src_event; can_reuse : bool }.
Inductive result := RPending | RFilled (d : bytes) | RError.
Definition poll_read (n : Z) (r : t) : result * t :=
  match left r with
  | [] => (RFilled [], r)
  | SPending :: l => (RPending, mk (all r) l (can_reuse r))
  | SError :: l => (RError, mk (all r) l (can_reuse r))
  | SData d :: l =>
      if len d <=? n then (RFilled d, mk (all r) l (can_reuse r))
      else (RFilled (upto n d), mk (all r) (SData (from n d) :: l) (can_reuse r))
  end.
Definition reuse (r : t) : bool * t := if can_reuse r then (true, mk (all r) (all r) true) else (false, r).
End Reader.

(** [Bytes] is a cursor: the bytes and the position. *)
Inductive MultiPartState := Bytes (b : bytes) (position : Z) | Stream (r : Reader.t).
Module Part.
Record t := mk { name : option bytes; file_name : option bytes; mime : option bytes; length : option Z; body_ : option MultiPartState }.
Definition new : t := mk None None None None None.
Definition set_name (p : t) (n : bytes) : t := mk (Some n) (file_name p) (mime p) (length p) (body_ p).
Definition set_file_name (p : t) (n : bytes) : t := mk (name p) (Some n) (mime p) (length p) (body_ p).
Definition set_mime (p : t) (m : bytes) : t := mk (name p) (file_name p) (Some m) (length p) (body_ p).
Definition set_length (p : t) (n : option Z) : t := mk (name p) (file_name p) (mime p) n (body_ p).
Definition body (p : t) (b : bytes) : t := mk (name p) (file_name p) (mime p) (Some (len b)) (Some (Bytes b 0)).
Definition stream (p : t) (r : Reader.t) : t := mk (name p) (file_name p) (mime p) (length p) (Some (Stream r)).
Definition take_body (p : t) : t := mk (name p) (file_name p) (mime p) (length p) None.
End Part.

Module MultiPartStates.
Record t := mk { states : list MultiPartState; index : nat }.
Fixpoint reuse_loop (l : list MultiPartState) : bool * list MultiPartState :=
  match l with
  | [] => (true, [])
  | Bytes b _ :: l => let '(ok, l) := reuse_loop l in (ok, Bytes b 0 :: l)
  | Stream r :: l =>
      match Reader.reuse r with
      | (true, r) => let '(ok, l) := reuse_loop l in (ok, Stream r :: l)
      | (false, r) => (false, Stream r :: l)
      end
  end.
Definition reuse (s : t) : bool * t := let '(ok, l) := reuse_loop (states s) in (ok, mk l 0).

(** [poll_read_curr] with room for [n] bytes. *)
Definition poll_read_curr (n : Z) (s : t) : Reader.result * t :=
  match states s !! index s with
  | None => (Reader.RFilled [], s)
  | Some (Bytes b pos) =>
      let d := upto n (from pos b) in
      (Reader.RFilled d,
       mk (<[index s := Bytes b (pos + len d)]> (states s)) (if len d <? n then S (index s) else index s))
  | Some (Stream r) =>
      match Reader.poll_read n r with
      | (Reader.RFilled [], r) => (Reader.RFilled [], mk (<[index s := Stream r]> (states s)) (S (index s)))
      | (x, r) => (x, mk (<[index s := Stream r]> (states s)) (index s))
      end
  end.
(** The [while] loop of [poll_read]; [got] is in the buffer of [n] bytes. *)
Fixpoint read_loop (fuel : nat) (n : Z) (got : bytes) (s : t) : Reader.result * bytes * t :=
  match fuel with
  | O => (Reader.RError, got, s)
  | S fuel =>
      if n - len got <=? 0 then (Reader.RFilled [], got, s)
      else
        match states s !! index s with
        | None => (Reader.RFilled [], got, s)
        | Some _ =>
            match poll_read_curr (n - len got) s with
            | (Reader.RFilled d, s) => read_loop fuel n (got ++ d) s
            | (x, s) => (x, got, s)
            end
        end
  end.
(** A turn fills a byte or goes on to the next state. *)
Definition read_fuel (n : Z) (s : t) : nat := S (Z.to_nat n + (length (states s) - index s)).
Definition poll_read (n : Z) (s : t) : Reader.result * bytes * t := read_loop (read_fuel n s) n [] s.
End MultiPartStates.

(** * The form *)

Inductive ReadStatus := Never | Reading (s : MultiPartStates.t) | Finish (s : MultiPartStates.t).
Module MultiPart.
Record t := mk { parts : list Part.t; boundary : bytes; status : ReadStatus }.
Definition new (boundary : bytes) : t := mk [] boundary Never.
Definition part (m : t) (p : Part.t) : t := mk (parts m ++ [p]) (boundary m) (status m).

Definition CRLF : bytes := [13; 10].
Definition quoted (pre : bytes) (s : bytes) : bytes := pre ++ s ++ [34].
Definition opt_state (f : bytes → bytes) (o : option bytes) : list MultiPartState :=
  match o with Some s => [Bytes (f s) 0] | None => [] end.
(** What [build_status] pushes for a part. *)
Definition part_states (boundary : bytes) (p : Part.t) : list MultiPartState :=
  [Bytes (str "--" ++ boundary ++ CRLF) 0; Bytes (str "Content-Disposition: form-data") 0] ++
  opt_state (λ s, str "; name=" ++ quoted [34] s) (Part.name p) ++
  opt_state (λ s, str "; filename=" ++ quoted [34] s) (Part.file_name p) ++
  [Bytes CRLF 0] ++
  opt_state (λ s, str "Content-Type: " ++ s ++ CRLF) (Part.mime p) ++
  [Bytes CRLF 0] ++
  match Part.body_ p with Some b => [b] | None => [] end ++
  [Bytes CRLF 0].
Definition build_status (m : t) : t :=
  let states := (parts m ≫= part_states (boundary m)) ++ [Bytes (str "--" ++ boundary m ++ str "--" ++ CRLF) 0] in
  mk (Part.take_body <$> parts m) (boundary m) (Reading (MultiPartStates.mk states 0)).

(** [+=] of a [u64]. *)
Definition add64 (a b : Z) : res Empty_set Z := if a + b <? 2 ^ 64 then Ok (a + b) else Panic.
Definition opt_len (k : Z) (o : option bytes) : Z := match o with Some s => k + len s | None => 0 end.
(** The loop of [total_bytes]; what a part adds besides its body is added at once. *)
Fixpoint total_loop (boundary : bytes) (l : list Part.t) (size : Z) : res Empty_set (option Z) :=
  match l with
  | [] => size ← add64 size (2 + len boundary + 4); Ok (Some size)
  | p :: l =>
      match Part.length p with
      | None => Ok None
      | Some n =>
          size ← add64 size n;
          size ← add64 size (2 + len boundary + 2 + 30 + opt_len 9 (Part.name p) + opt_len 13 (Part.file_name p) + 2 +
                              opt_len 16 (Part.mime p) + 2 + 2);
          total_loop boundary l size
      end
  end.
Definition total_bytes (m : t) : res Empty_set (option Z) := total_loop (boundary m) (parts m) 0.

(** [poll_read] with a buffer of [n] bytes: the outcome and what is in the buffer. *)
Definition poll_read (n : Z) (m : t) : Reader.result * bytes * t :=
  let m := match status m with Never => build_status m | _ => m end in
  match status m with
  | Reading s =>
      if n <=? 0 then (Reader.RFilled [], [], m)
      else
        match MultiPartStates.poll_read n s with
        | (Reader.RFilled _, got, s) =>
            (Reader.RFilled got, got, mk (parts m) (boundary m) (match got with [] => Finish s | _ => Reading s end))
        | (Reader.RPending, got, s) =>
            (match got with [] => Reader.RPending | _ => Reader.RFilled got end, got, mk (parts m) (boundary m) (Reading s))
        | (Reader.RError, got, s) => (Reader.RError, got, mk (parts m) (boundary m) (Reading s))
        end
  | _ => (Reader.RFilled [], [], m)
  end.
(** [reuse]: whether it succeeded. *)
Definition reuse (m : t) : bool * t :=
  match status m with
  | Never => (true, m)
  | Reading s => let '(ok, s) := MultiPartStates.reuse s in (ok, mk (parts m) (boundary m) (Reading s))
  | Finish s =>
      let '(ok, s) := MultiPartStates.reuse s in (ok, mk (parts m) (boundary m) (if ok then Reading s else Never))
  end.
End MultiPart.
Import MultiPart.

(** The bytes of a form. *)
Definition events_data (l : list src_event) : bytes := l ≫= λ e, match e with SData d => d | _ => [] end.
Definition whole_body (o : option MultiPartState) : bytes :=
  match o with Some (Bytes b _) => b | Some (Stream r) => events_data (Reader.all r) | None => [] end.
Definition opt_field (f : bytes → bytes) (o : option bytes) : bytes := match o with Some s => f s | None => [] end.
Definition part_message (boundary : bytes) (p : Part.t) : bytes :=
  str "--" ++ boundary ++ CRLF ++ str "Content-Disposition: form-data" ++
  opt_field (λ s, str "; name=" ++ quoted [34] s) (Part.name p) ++ opt_field (λ s, str "; filename=" ++ quoted [34] s) (Part.file_name p) ++
  CRLF ++ opt_field (λ s, str "Content-Type: " ++ s ++ CRLF) (Part.mime p) ++ CRLF ++ whole_body (Part.body_ p) ++ CRLF.
Definition form_message (m : t) : bytes := (parts m ≫= part_message (boundary m)) ++ str "--" ++ boundary m ++ str "--" ++ CRLF.

(** * Reading *)

Import MultiPartStates.
#[local] Abbreviation mst := MultiPartStates.t.
(** A stream that delivers: pieces with something in them, and pauses. *)
Definition steady (e : src_event) : Prop := match e with SPending => True | SData d => d ≠ [] | SError => False end.
Definition state_ok (x : MultiPartState) : Prop :=
  match x with
  | Bytes b pos => 0 ≤ pos
  | Stream r => Forall steady (Reader.all r) ∧ Forall steady (Reader.left r) ∧ Reader.can_reuse r = true
  end.
Definition rest_of (x : MultiPartState) : bytes := match x with Bytes b pos => from pos b | Stream r => events_data (Reader.left r) end.
(** What reading does not change: the bytes, or all that a stream gives. *)
Definition shape := (bytes + list src_event)%type.
Definition shape_of (x : MultiPartState) : shape := match x with Bytes b _ => inl b | Stream r => inr (Reader.all r) end.
Definition pauses (x : MultiPartState) : nat :=
  match x with Stream r => sum_list_with (λ e, match e with SPending => 1 | _ => 0 end%nat) (Reader.left r) | _ => 0 end.

Definition to_read (s : mst) : bytes := drop (index s) (states s) ≫= rest_of.
Definition waits (s : mst) : nat := sum_list_with pauses (drop (index s) (states s)).
Definition states_ok (whole : list shape) (s : mst) : Prop := Forall state_ok (states s) ∧ shape_of <$> states s = whole.

Lemma drop_insert_at {A} (l : list A) i x y : l !! i = Some x → drop i (<[i := y]> l) = y :: drop (S i) l.
Proof.
  intros Hi. rewrite (drop_S _ y) by (apply list_lookup_insert_eq; by apply lookup_lt_Some in Hi). by rewrite drop_insert_lt by lia.
Qed.
(** The current state is put back as [y]. *)
Lemma put_ok whole s x y k :
  states_ok whole s → states s !! index s = Some x → state_ok y → shape_of x = shape_of y →
  states_ok whole (mk (<[index s := y]> (states s)) k).
Proof.
  intros [Hok Hw] Hi Hy Hxy. split; cbn [states]; [by apply Forall_insert|].
  rewrite list_fmap_insert, <- Hxy. by rewrite list_insert_id by (by rewrite list_lookup_fmap, Hi).
Qed.
Lemma read_here s x y : states s !! index s = Some x → to_read (mk (<[index s := y]> (states s)) (index s)) = rest_of y ++ (drop (S (index s)) (states s) ≫= rest_of).
Proof. intros Hi. unfold to_read. cbn [states index]. by rewrite (drop_insert_at _ _ x y Hi), bind_cons. Qed.
Lemma read_next s y : to_read (mk (<[index s := y]> (states s)) (S (index s))) = drop (S (index s)) (states s) ≫= rest_of.
Proof. unfold to_read. cbn [states index]. by rewrite drop_insert_lt by lia. Qed.
Lemma to_read_eq s x : states s !! index s = Some x → to_read s = rest_of x ++ (drop (S (index s)) (states s) ≫= rest_of).
Proof. intros Hi. unfold to_read. by rewrite (drop_S _ x) by done. Qed.
Lemma waits_eq s x : states s !! index s = Some x → waits s = (pauses x + sum_list_with pauses (drop (S (index s)) (states s)))%nat.
Proof. intros Hi. unfold waits. by rewrite (drop_S _ x) by done. Qed.
Lemma waits_here s x y :
  states s !! index s = Some x → waits (mk (<[index s := y]> (states s)) (index s)) = (pauses y + sum_list_with pauses (drop (S (index s)) (states s)))%nat.
Proof. intros Hi. unfold waits. cbn [states index]. by rewrite (drop_insert_at _ _ x y Hi). Qed.
Lemma waits_next s y : waits (mk (<[index s := y]> (states s)) (S (index s))) = sum_list_with pauses (drop (S (index s)) (states s)).
Proof. unfold waits. cbn [states index]. by rewrite drop_insert_lt by lia. Qed.

(** What one call of [poll_read_curr] does. *)
Definition turn_ok (n : Z) (s : mst) (x : Reader.result * mst) : Prop :=
  match x with
  | (Reader.RFilled d, s') =>
      to_read s = d ++ to_read s' ∧ len d ≤ n ∧ (waits s' ≤ waits s)%nat ∧
      (index s' = S (index s) ∨ index s' = index s ∧ d ≠ [])
  | (Reader.RPending, s') => to_read s = to_read s' ∧ (waits s' < waits s)%nat ∧ index s' = index s
  | (Reader.RError, _) => False
  end.
Lemma read_curr_ok whole n s :
  0 < n → states_ok whole s → is_Some (states s !! index s) →
  let x := poll_read_curr n s in turn_ok n s x ∧ states_ok whole x.2 ∧ length (states x.2) = length (states s).
Proof.
  intros Hn Hok [x Hi]. pose proof (Forall_lookup_1 _ _ _ _ (proj1 Hok) Hi) as Hx. unfold poll_read_curr. rewrite Hi.
  destruct x as [b pos|r]; cbn zeta.
  - split; [|split; [apply (put_ok whole s (Bytes b pos)); [done..| |done]; cbn [state_ok] in *; pose proof (len_nonneg (upto n (from pos b))); lia|simpl; by rewrite length_insert]].
    unfold turn_ok. rewrite (to_read_eq s _ Hi), (waits_eq s _ Hi). cbn [rest_of pauses]. cbn [state_ok] in Hx.
    split; [|split; [rewrite len_upto by lia; lia|]].
    + destruct (Z.ltb_spec (len (upto n (from pos b))) n) as [Hlt|Hge].
      * rewrite read_next, upto_all; [done|]. rewrite len_upto in Hlt by lia. lia.
      * rewrite (read_here s _ _ Hi). cbn [rest_of]. rewrite (assoc_L (++)). f_equal.
        assert (Hfull : len (upto n (from pos b)) = n) by (rewrite len_upto in Hge |- * by lia; lia). rewrite Hfull, <- from_from by lia. by rewrite upto_from.
    + destruct (Z.ltb_spec (len (upto n (from pos b))) n) as [Hlt|Hge].
      * rewrite waits_next. cbn [index]. split; [lia|by left].
      * rewrite (waits_here s _ _ Hi). cbn [pauses index]. split; [lia|right]. split; [done|]. intros Hnil. rewrite Hnil in Hge. change (len []) with 0 in Hge. lia.
  - destruct Hx as (Hall & Hleft & Hre). unfold Reader.poll_read. destruct (Reader.left r) as [|[|d|] l] eqn:Hl.
    + split; [|split; [by apply (put_ok whole s (Stream r)); [..|split; [|rewrite Hl]|]|simpl; by rewrite length_insert]].
      unfold turn_ok. rewrite (to_read_eq s _ Hi), (waits_eq s _ Hi), read_next, waits_next. cbn [rest_of]. rewrite Hl. change (len []) with 0.
      split; [done|]. split; [lia|]. split; [simpl; lia|by left].
    + inversion_clear Hleft as [|?? _ Hl']. split; [|split; [by apply (put_ok whole s (Stream r))|simpl; by rewrite length_insert]].
      unfold turn_ok. rewrite (to_read_eq s _ Hi), (waits_eq s _ Hi), (read_here s _ _ Hi), (waits_here s _ _ Hi). cbn [rest_of pauses Reader.left]. rewrite Hl. split; [done|]. split; [simpl; lia|done].
    + inversion_clear Hleft as [|?? Hd Hl']. cbn [steady] in Hd. destruct (Z.leb_spec (len d) n) as [Hle|Hgt].
      * destruct d as [|z d]; [done|]. split; [|split; [by apply (put_ok whole s (Stream r))|simpl; by rewrite length_insert]].
        unfold turn_ok. rewrite (to_read_eq s _ Hi), (waits_eq s _ Hi), (read_here s _ _ Hi), (waits_here s _ _ Hi). cbn [rest_of pauses Reader.left]. rewrite Hl.
        split; [unfold events_data; rewrite bind_cons; by rewrite <- (assoc_L (++))|]. split; [done|]. split; [simpl; lia|by right].
      * assert (Hu : upto n d ≠ []) by (intros Hu; apply (f_equal len) in Hu; rewrite len_upto in Hu by lia; change (len []) with 0 in Hu; lia).
        assert (Hf : from n d ≠ []) by (intros Hf; apply (f_equal len) in Hf; rewrite len_from in Hf by lia; change (len []) with 0 in Hf; lia).
        destruct (upto n d) as [|z u] eqn:Hud; [done|]. split; [|split; [apply (put_ok whole s (Stream r)); [done..| |done]; split; [done|]; split; [by constructor|done]|simpl; by rewrite length_insert]].
        unfold turn_ok. rewrite (to_read_eq s _ Hi), (waits_eq s _ Hi), (read_here s _ _ Hi), (waits_here s _ _ Hi). cbn [rest_of pauses Reader.left]. rewrite Hl, <- Hud.
        split; [unfold events_data; rewrite !bind_cons; by rewrite <- (upto_from n d) at 1; rewrite <- !(assoc_L (++))|].
        split; [rewrite len_upto by lia; lia|]. split; [simpl; lia|right; by rewrite Hud].
    + by inversion_clear Hleft.
Qed.

Definition read_post (whole : list shape) (n : Z) (got : bytes) (s : mst) (x : Reader.result * bytes * mst) : Prop :=
  let '(r, got', s') := x in
  got ++ to_read s = got' ++ to_read s' ∧ len got' ≤ n ∧ states_ok whole s' ∧ (index s' ≤ length (states s'))%nat ∧
  match r with
  | Reader.RFilled _ => (waits s' ≤ waits s)%nat ∧ (len got' = n ∨ to_read s' = [])
  | Reader.RPending => (waits s' < waits s)%nat
  | Reader.RError => False
  end.
Lemma read_loop_ok whole fuel n got s :
  states_ok whole s → len got ≤ n → (index s ≤ length (states s))%nat →
  (Z.to_nat (n - len got) + (length (states s) - index s) < fuel)%nat → read_post whole n got s (read_loop fuel n got s).
Proof.
  revert got s. induction fuel as [|fuel IH]; intros got s Hok Hlen Hidx Hfuel; [lia|]. cbn [read_loop].
  destruct (Z.leb_spec (n - len got) 0) as [Hz|Hz].
  { split; [done|]. split; [done|]. split; [done|]. split; [done|]. split; [lia|left; lia]. }
  destruct (states s !! index s) as [x|] eqn:Hx.
  2: { split; [done|]. split; [done|]. split; [done|]. split; [done|]. split; [lia|right]. unfold to_read. apply lookup_ge_None in Hx. by rewrite drop_ge. }
  destruct (read_curr_ok whole (n - len got) s ltac:(lia) Hok (ex_intro _ x Hx)) as (Ht & Hok' & Hl).
  assert (Hlt : (index s < length (states s))%nat) by (by apply lookup_lt_Some in Hx).
  destruct (poll_read_curr (n - len got) s) as [[|d|] s']; cbn [turn_ok snd] in Ht, Hok', Hl; [| |done].
  - destruct Ht as (Ht & Hw & Hi). unfold read_post. rewrite Ht, Hl, Hi. auto.
  - destruct Ht as (Hd & Hdn & Hw & Hi). specialize (IH (got ++ d) s' Hok'). rewrite len_app in IH.
    assert (Hprog : (index s' = S (index s)) ∨ (index s' = index s ∧ 0 < len d)).
    { destruct Hi as [Hi|[Hi Hne]]; [by left|right]. split; [done|]. destruct d as [|z d]; [done|]. rewrite len_cons. pose proof (len_nonneg d). lia. }
    pose proof (len_nonneg d). specialize (IH ltac:(lia) ltac:(rewrite Hl; destruct Hprog as [->|[-> _]]; lia) ltac:(rewrite Hl; destruct Hprog as [->|[-> ?]]; lia)).
    destruct (read_loop fuel n (got ++ d) s') as [[r got'] s'']. destruct IH as (H1 & H2 & H3 & H4 & H5). split; [by rewrite Hd, (assoc_L (++))|].
    split; [done|]. split; [done|]. split; [done|]. destruct r; [lia| |done]. destruct H5. split; [lia|done].
Qed.

(** ** The form *)

(** Polls with buffers of the given sizes, up to an answer of no bytes or an error: what
    was read, and whether the end was reported. *)
Fixpoint run (ns : list Z) (D : bytes) (m : MultiPart.t) : bytes * bool * MultiPart.t :=
  match ns with
  | [] => (D, false, m)
  | n :: ns =>
      match MultiPart.poll_read n m with
      | (Reader.RFilled [], _, m) => (D, true, m)
      | (Reader.RFilled d, _, m) => run ns (D ++ d) m
      | (Reader.RPending, _, m) => run ns D m
      | (Reader.RError, _, m) => (D, false, m)
      end
  end.

(** A form that is put together and not yet read. *)
Definition fresh_part (p : Part.t) : Prop :=
  match Part.body_ p with
  | Some (Bytes _ pos) => pos = 0
  | Some (Stream r) => Reader.left r = Reader.all r ∧ Forall steady (Reader.all r) ∧ Reader.can_reuse r = true
  | None => True
  end.
Definition fresh (m : MultiPart.t) : Prop := status m = Never ∧ Forall fresh_part (parts m).
Definition first_states (m : MultiPart.t) : list MultiPartState :=
  (parts m ≫= part_states (boundary m)) ++ [Bytes (str "--" ++ boundary m ++ str "--" ++ CRLF) 0].
Definition form_shape (m : MultiPart.t) : list shape := shape_of <$> first_states m.
Definition form_pauses (m : MultiPart.t) : nat := sum_list_with pauses (first_states m).

Definition state_fresh (x : MultiPartState) : Prop := match x with Bytes _ pos => pos = 0 | Stream r => Reader.left r = Reader.all r end.
Lemma same_fresh l l' :
  Forall state_fresh l → Forall state_fresh l' → shape_of <$> l = shape_of <$> l' →
  l ≫= rest_of = l' ≫= rest_of ∧ sum_list_with pauses l = sum_list_with pauses l'.
Proof.
  intros Hl. revert l'. induction Hl as [|x l Hx _ IH]; intros [|x' l'] Hl' Heq; [done..|]. inversion_clear Hl' as [|?? Hx' Hl0].
  rewrite !fmap_cons in Heq. injection Heq as Hs Heq. destruct (IH l' Hl0 Heq) as [Hr Hp]. rewrite !bind_cons, Hr. cbn [sum_list_with]. rewrite Hp.
  destruct x as [b pos|r], x' as [b' pos'|r']; simplify_eq/=; [done|]. by rewrite Hx, Hx', Hs.
Qed.
Lemma form_start m : fresh m → first_states m ≫= rest_of = form_message m.
Proof.
  intros [_ Hp]. unfold first_states, form_message. rewrite bind_app. f_equal.
  - induction Hp as [|p l Hp _ IH]; [done|]. rewrite !bind_cons, bind_app, IH. f_equal. unfold part_states, part_message, fresh_part in *.
    destruct (Part.name p), (Part.file_name p), (Part.mime p), (Part.body_ p) as [[b pos|r]|]; simpl in *; subst; try destruct Hp as (Hp & _);
      rewrite ?Hp, ?from_0, ?app_nil_r, <- ?app_assoc by lia; done.
  - cbn [mbind list_bind rest_of]. by rewrite from_0, app_nil_r by lia.
Qed.
Definition starts (x : MultiPartState) : Prop := state_fresh x ∧ state_ok x.
Lemma bytes_start b : starts (Bytes b 0).
Proof. by split. Qed.
Lemma opt_start f o : Forall starts (opt_state f o).
Proof. destruct o; [|constructor]. constructor; [apply bytes_start|constructor]. Qed.
Lemma part_start b p : fresh_part p → Forall starts (part_states b p).
Proof.
  intros Hp. unfold part_states. repeat (apply Forall_app; split); try apply opt_start; try (by repeat (constructor; [apply bytes_start|]); constructor).
  unfold fresh_part in Hp. destruct (Part.body_ p) as [[x pos|r]|]; [| |constructor]; (constructor; [|constructor]).
  - subst. apply bytes_start.
  - destruct Hp as (Hl & Ha & Hc). unfold starts, state_fresh, state_ok. by rewrite Hl.
Qed.
Lemma first_fresh m : fresh m → Forall starts (first_states m).
Proof.
  intros [_ Hp]. apply Forall_app. split; [|by constructor; [apply bytes_start|constructor]].
  induction Hp as [|p l Hp _ IH]; [constructor|]. rewrite bind_cons. apply Forall_app. split; [by apply part_start|exact IH].
Qed.

(** The states stand for the form, wherever the reading is. *)
Definition reads (m0 m : MultiPart.t) : Prop :=
  match status m with
  | Never => m = m0
  | Reading s | Finish s => states_ok (form_shape m0) s ∧ (index s ≤ length (states s))%nat
  end.
Lemma first_ok m : fresh m → states_ok (form_shape m) (mk (first_states m) 0).
Proof. intros Hf. split; [|done]. apply (list.Forall_impl starts); [by apply first_fresh|]. by intros x []. Qed.
(** What a poll for [n] bytes does to a form that is being read. *)
Definition poll_post (whole : list shape) (ps : list Part.t) (b : bytes) (s : mst) (x : Reader.result * bytes * MultiPart.t) : Prop :=
  let '(r, _, m) := x in
  ∃ s', m = MultiPart.mk ps b (match r with Reader.RFilled [] => Finish s' | _ => Reading s' end) ∧
    states_ok whole s' ∧ (index s' ≤ length (states s'))%nat ∧
    match r with
    | Reader.RFilled d => to_read s = d ++ to_read s' ∧ (waits s' ≤ waits s)%nat ∧ (d = [] → to_read s = [])
    | Reader.RPending => to_read s = to_read s' ∧ (waits s' < waits s)%nat
    | Reader.RError => False
    end.
Lemma poll_state whole n ps b s :
  0 < n → states_ok whole s → (index s ≤ length (states s))%nat → poll_post whole ps b s (MultiPart.poll_read n (MultiPart.mk ps b (Reading s))).
Proof.
  intros Hn Hok Hidx. unfold MultiPart.poll_read. cbn [status parts boundary]. destruct (Z.leb_spec n 0); [lia|].
  pose proof (read_loop_ok whole (read_fuel n s) n [] s Hok) as Hl. change (len []) with 0 in Hl.
  specialize (Hl ltac:(lia) Hidx ltac:(unfold read_fuel; lia)). unfold MultiPartStates.poll_read.
  destruct (read_loop _ n [] s) as [[[|d|] got] s']; destruct Hl as (Hgot & _ & Hok' & Hidx' & Hx); [| |done].
  - destruct got; exists s'; (split; [done|]); (split; [done|]); (split; [done|]); [done|]. split; [done|]. split; [lia|done].
  - exists s'. destruct got as [|z got]; (split; [done|]); (split; [done|]); (split; [done|]); (split; [done|]); (split; [lia|]); [|done].
    intros _. destruct Hx as [_ [Hx|Hx]]; [change (len []) with 0 in Hx; lia|]. cbn [app] in Hgot. by rewrite Hgot, Hx.
Qed.
Lemma poll_reads m0 n m : fresh m0 → reads m0 m → reads m0 (MultiPart.poll_read n m).2.
Proof.
  intros Hf Hr.
  assert (Hloop : ∀ ps b s, states_ok (form_shape m0) s → (index s ≤ length (states s))%nat → reads m0 (MultiPart.poll_read n (MultiPart.mk ps b (Reading s))).2).
  { intros ps b s Hok Hidx. destruct (Z.leb_spec n 0) as [Hz|Hz].
    - unfold MultiPart.poll_read. cbn [status]. destruct (Z.leb_spec n 0); [by split|lia].
    - pose proof (poll_state _ n ps b s Hz Hok Hidx) as Hp. destruct (MultiPart.poll_read n _) as [[r got] m']. destruct Hp as (s' & -> & Hp1 & Hp2 & _).
      unfold reads. cbn [snd status]. by destruct r as [|[|]|]. }
  destruct m as [ps b st]. unfold reads in Hr. destruct st as [|s|s]; cbn [status] in Hr; [|by apply Hloop; destruct Hr|exact Hr].
  subst m0. apply (Hloop _ _ (mk (first_states _) 0)); [by apply first_ok|cbn [index]; lia].
Qed.
Lemma run_reads m0 ns D m : fresh m0 → reads m0 m → reads m0 (run ns D m).2.
Proof.
  intros Hf. revert D m. induction ns as [|n ns IH]; intros D m Hr; [done|]. cbn [run]. pose proof (poll_reads m0 n m Hf Hr) as Hp.
  destruct (MultiPart.poll_read n m) as [[[|[|x d]|] got] m']; simpl in Hp; [by apply IH|done|by apply IH|done].
Qed.
(** Reading on to the end. *)
Lemma form_run_live whole ns ps b D s :
  Forall (λ n, 0 < n) ns → states_ok whole s → (index s ≤ length (states s))%nat → len (to_read s) + Z.of_nat (waits s) < len ns →
  ∃ m, run ns D (MultiPart.mk ps b (Reading s)) = (D ++ to_read s, true, m).
Proof.
  intros Hns. revert D s. induction Hns as [|n ns Hn _ IH]; intros D s Hok Hidx Hlen.
  { change (len []) with 0 in Hlen. pose proof (len_nonneg (to_read s)). lia. }
  cbn [run]. pose proof (poll_state _ n ps b s Hn Hok Hidx) as Hp. rewrite len_cons in Hlen.
  destruct (MultiPart.poll_read n _) as [[[|[|x d]|] got] m']; destruct Hp as (s' & -> & Hok' & Hidx' & Hp); [| | |done].
  - destruct Hp as [Hr Hw]. rewrite Hr in *. apply IH; [done..|lia].
  - destruct Hp as (_ & _ & Hp). rewrite Hp by done. rewrite app_nil_r. by eexists.
  - destruct Hp as (Hr & Hw & _). rewrite Hr in *. rewrite len_app, len_cons in Hlen. pose proof (len_nonneg d).
    rewrite (assoc_L (++)). apply IH; [done..|lia].
Qed.

(** ** Reading again *)

Lemma reuse_loop_ok l : Forall state_ok l → ∃ l', reuse_loop l = (true, l') ∧ Forall starts l' ∧ shape_of <$> l' = shape_of <$> l.
Proof.
  induction 1 as [|x l Hx _ (l' & IH & Hs & Hw)]; [by exists []|]. destruct x as [b pos|r]; cbn [reuse_loop].
  - rewrite IH. exists (Bytes b 0 :: l'). split; [done|]. split; [constructor; [apply bytes_start|done]|]. by rewrite !fmap_cons, Hw.
  - destruct Hx as (Ha & _ & Hc). unfold Reader.reuse. rewrite Hc, IH. eexists. split; [done|]. split; [by constructor|]. by rewrite !fmap_cons, Hw.
Qed.
(** At the start of the form, for the first time or again. *)
Definition ready (m0 m : MultiPart.t) : Prop :=
  m = m0 ∨ ∃ ps b s, m = MultiPart.mk ps b (Reading s) ∧ states_ok (form_shape m0) s ∧ index s = 0%nat ∧ Forall starts (states s).
Lemma ready_reads m0 m : fresh m0 → ready m0 m → reads m0 m.
Proof. intros [Hf _] [->|(ps & b & s & -> & Hok & Hi & _)]; [unfold reads; by rewrite Hf|]. split; [done|]. rewrite Hi. lia. Qed.
Lemma reuse_ready m0 m : reads m0 m → (MultiPart.reuse m).1 = true ∧ ready m0 (MultiPart.reuse m).2.
Proof.
  destruct m as [ps b st]. unfold reads, MultiPart.reuse. destruct st as [|s|s]; cbn [status parts boundary]; [intros ->; by split; [|left]|..].
  all: intros [[Hok Hw] _]; unfold MultiPartStates.reuse; destruct (reuse_loop_ok _ Hok) as (l' & -> & Hs & Hw'); (split; [done|]); right.
  all: exists ps, b, (mk l' 0); (split; [done|]); (split; [|done]); (split; [|cbn [states]; by rewrite Hw']).
  all: apply (list.Forall_impl starts); [done|]; by intros x [].
Qed.
Lemma ready_run m0 m ns :
  fresh m0 → ready m0 m → Forall (λ n, 0 < n) ns → len (form_message m0) + Z.of_nat (form_pauses m0) < len ns →
  ∃ m', run ns [] m = (form_message m0, true, m').
Proof.
  intros Hf Hr Hns Hlen.
  assert (Hgo : ∀ ps b l, Forall starts l → shape_of <$> l = form_shape m0 → ∃ m', run ns [] (MultiPart.mk ps b (Reading (mk l 0))) = (form_message m0, true, m')).
  { intros ps b l Hl Hw. assert (Hfr : ∀ l, Forall starts l → Forall state_fresh l) by (intros l0 H0; apply (list.Forall_impl starts); [done|]; by intros x []).
    destruct (same_fresh l (first_states m0)) as [Hrest Hp]; [by apply Hfr|by apply Hfr, first_fresh|done|]. rewrite (form_start m0 Hf) in Hrest.
    destruct (form_run_live (form_shape m0) ns ps b [] (mk l 0)) as (m' & Hm'); [done|split; [|done]|cbn [index]; lia| |exists m'].
    - apply (list.Forall_impl starts); [done|]. by intros x [].
    - unfold to_read, waits. cbn [index states]. change (drop 0 l) with l. by rewrite Hrest, Hp.
    - rewrite Hm'. unfold to_read. cbn [index states app]. change (drop 0 l) with l. by rewrite Hrest. }
  destruct Hr as [->|(ps & b & [l i] & -> & [_ Hw] & Hi & Hs)]; [|simpl in Hi; subst i; by apply Hgo].
  destruct ns as [|n ns]; [change (len []) with 0 in Hlen; pose proof (len_nonneg (form_message m0)); lia|].
  destruct m0 as [ps b st] eqn:Hm. destruct Hf as [Hst Hf]. simpl in Hst. subst st.
  exact (Hgo (Part.take_body <$> ps) b (first_states (MultiPart.mk ps b Never)) (first_fresh (MultiPart.mk ps b Never) (conj eq_refl Hf)) eq_refl).
Qed.
(** The form after it was read with each of [rounds], and made ready again after each. *)
Fixpoint used (rounds : list (list Z)) (m : MultiPart.t) : MultiPart.t :=
  match rounds with [] => m | ns :: rounds => used rounds (MultiPart.reuse (run ns [] m).2).2 end.
Lemma used_ready m0 rounds m : fresh m0 → ready m0 m → ready m0 (used rounds m).
Proof.
  intros Hf. revert m. induction rounds as [|ns rounds IH]; intros m Hr; [done|]. cbn [used]. apply IH, reuse_ready, run_reads, ready_reads; done.
Qed.

Definition upload : MultiPart.t :=
  MultiPart.part (MultiPart.part (MultiPart.new (str "b0"))
    (Part.body (Part.set_name Part.new (str "name")) (str "xiaoming")))
    (Part.stream (Part.set_mime (Part.set_file_name Part.new (str "a.txt")) (str "text/plain"))
       (Reader.mk [SPending; SData (str "hello "); SPending; SData (str "world")] [SPending; SData (str "hello "); SPending; SData (str "world")] true)).

(** ** The length of a form *)

Lemma len_opt_field f k o : (∀ s, len (f s) = k + len s) → len (opt_field f o) = opt_len k o.
Proof. destruct o; simpl; auto. Qed.
Lemma len_quoted s : len (quoted [34] s) = 2 + len s.
Proof. unfold quoted. rewrite !len_app. change (len [34]) with 1. lia. Qed.
Lemma len_part b p :
  len (part_message b p) = len (whole_body (Part.body_ p)) + (2 + len b + 2 + 30 + opt_len 9 (Part.name p) + opt_len 13 (Part.file_name p) + 2 + opt_len 16 (Part.mime p) + 2 + 2).
Proof.
  unfold part_message. rewrite !len_app, (len_opt_field _ 9), (len_opt_field _ 13), (len_opt_field _ 16).
  - change (len (str "--")) with 2. change (len (str "Content-Disposition: form-data")) with 30. change (len CRLF) with 2. lia.
  - intros s. rewrite !len_app. change (len (str "Content-Type: ")) with 14. change (len CRLF) with 2. lia.
  - intros s. rewrite len_app, len_quoted. change (len (str "; filename=")) with 11. lia.
  - intros s. rewrite len_app, len_quoted. change (len (str "; name=")) with 7. lia.
Qed.
Lemma total_loop_ok b l size :
  0 ≤ size → Forall (λ p, Part.length p = Some (len (whole_body (Part.body_ p)))) l →
  size + len (l ≫= part_message b) + (2 + len b + 4) < 2 ^ 64 →
  total_loop b l size = Ok (Some (size + len (l ≫= part_message b) + (2 + len b + 4))).
Proof.
  intros Hs Hl. revert size Hs. induction Hl as [|p l Hp _ IH]; intros size Hs Hlt; cbn [total_loop].
  - change ([] ≫= part_message b) with (@nil Z) in *. change (len []) with 0 in *. unfold add64. rewrite (proj2 (Z.ltb_lt _ _)) by lia. cbn. do 2 f_equal. lia.
  - rewrite bind_cons, len_app, len_part in *. rewrite Hp. pose proof (len_nonneg b). pose proof (len_nonneg (l ≫= part_message b)).
    pose proof (len_nonneg (whole_body (Part.body_ p))).
    assert (Ho : ∀ k o, 0 ≤ k → 0 ≤ opt_len k o) by (intros k [s|] ?; simpl; [pose proof (len_nonneg s)|]; lia).
    pose proof (Ho 9 (Part.name p) ltac:(lia)). pose proof (Ho 13 (Part.file_name p) ltac:(lia)). pose proof (Ho 16 (Part.mime p) ltac:(lia)).
    unfold add64. rewrite (proj2 (Z.ltb_lt _ _)) by lia. cbn [mbind res_bind]. rewrite (proj2 (Z.ltb_lt _ _)) by lia. cbn [mbind res_bind].
    rewrite IH by lia. do 2 f_equal. lia.
Qed.
(** [total_bytes], which becomes the request's length, is the length of the message that
    the form is read as, when the parts' lengths are those of their bodies (which [body]
    sees to, and which the caller states for a stream). *)
Theorem total_bytes_exact m :
  Forall (λ p, Part.length p = Some (len (whole_body (Part.body_ p)))) (parts m) → len (form_message m) < 2 ^ 64 →
  total_bytes m = Ok (Some (len (form_message m))).
Proof.
  unfold total_bytes, form_message. rewrite !len_app. change (len (str "--")) with 2. change (len CRLF) with 2. intros Hp Hlt.
  rewrite total_loop_ok by (done || lia). do 2 f_equal. lia.
Qed.
(** [reuse] of a form that was read to its end, when a stream cannot be reset, drops the
    states and the bodies with them: the form is then read as one whose parts have no
    bodies, under the same [total_bytes]. *)
Definition once : MultiPart.t :=
  MultiPart.part (MultiPart.new (str "b0")) (Part.set_length (Part.stream Part.new (Reader.mk [SData (str "hello")] [SData (str "hello")] false)) (Some 5)).
Lemma reuse_failure_empties :
  let m := (run (replicate 90 20) [] once).2 in
  (run (replicate 90 20) [] once).1 = (form_message once, true) ∧ (MultiPart.reuse m).1 = false ∧
  (run (replicate 90 20) [] (MultiPart.reuse m).2).1 = (form_message (MultiPart.mk (Part.take_body <$> parts once) (boundary once) Never), true) ∧
  total_bytes (MultiPart.reuse m).2 = total_bytes once.
Proof. vm_compute. repeat split. Qed.

(** * Boundaries *)

(** [xor_shift]: the number and the generator's next state. *)
Definition xor_shift (n : Z) : Z * Z :=
  let n := Z.lxor n (Z.shiftr n 12) in
  let n := Z.lxor n (as_u64 (Z.shiftl n 25)) in
  let n := Z.lxor n (Z.shiftr n 27) in
  (as_u64 (n * 0x2545f4914f6cdd1d), n).
(** [{:016x}] of a [u64]. *)
Definition hex_digit (d : Z) : Z := if d <? 10 then 48 + d else 87 + d.
Definition hex16 (n : Z) : bytes := (λ i : nat, hex_digit (Z.shiftr n (4 * Z.of_nat (15 - i)) mod 16)) <$> seq 0 16.
Definition gen_boundary (n : Z) : bytes * Z :=
  let '(a, n) := xor_shift n in
  let '(b, n) := xor_shift n in
  let '(c, n) := xor_shift n in
  let '(d, n) := xor_shift n in
  (hex16 a ++ [45] ++ hex16 b ++ [45] ++ hex16 c ++ [45] ++ hex16 d, n).

Definition u64_ok (n : Z) : Prop := 0 ≤ n < 2 ^ 64.
Lemma lxor_u64 a b : u64_ok a → u64_ok b → u64_ok (Z.lxor a b).
Proof.
  intros Ha Hb. assert (0 ≤ a ∧ 0 ≤ b) as [? ?] by (unfold u64_ok in *; lia).
  split; [apply Z.lxor_nonneg; lia|]. destruct (Z.eq_dec (Z.lxor a b) 0) as [->|Hne]; [lia|].
  assert (0 ≤ Z.lxor a b) by (apply Z.lxor_nonneg; lia). apply Z.log2_lt_pow2; [lia|].
  assert (Hl : ∀ x, u64_ok x → Z.log2 x < 64). { intros x [Hx0 Hx]. destruct (Z.eq_dec x 0) as [->|]; [reflexivity|]. apply Z.log2_lt_pow2; lia. }
  pose proof (Z.log2_lxor a b ltac:(done) ltac:(done)). pose proof (Hl a Ha). pose proof (Hl b Hb). lia.
Qed.
Lemma shiftr_u64 a k : u64_ok a → 0 ≤ k → u64_ok (Z.shiftr a k).
Proof.
  unfold u64_ok. intros Ha Hk. rewrite Z.shiftr_div_pow2 by lia. pose proof (Z.pow_pos_nonneg 2 k ltac:(lia) Hk). split; [apply Z.div_pos; lia|].
  apply Z.le_lt_trans with a; [|lia]. apply Z.div_le_upper_bound; [lia|]. nia.
Qed.
Lemma as_u64_ok a : u64_ok (as_u64 a).
Proof. apply Z.mod_pos_bound. lia. Qed.
(** The three steps lose nothing. *)
Lemma shift_right_inj k a b : 0 < k → u64_ok a → u64_ok b → Z.lxor a (Z.shiftr a k) = Z.lxor b (Z.shiftr b k) → a = b.
Proof.
  intros Hk Ha Hb Heq. apply Z.lxor_eq. set (z := Z.lxor a b). pose proof (lxor_u64 a b Ha Hb) as [Hz _]. fold z in Hz.
  assert (Hfix : z = Z.shiftr z k).
  { apply Z.lxor_eq. unfold z. rewrite Z.shiftr_lxor. apply Z.bits_inj'. intros i Hi. apply (f_equal (λ x, Z.testbit x i)) in Heq.
    rewrite !Z.lxor_spec in *. rewrite Z.bits_0. by destruct (Z.testbit a i), (Z.testbit b i), (Z.testbit (Z.shiftr a k) i), (Z.testbit (Z.shiftr b k) i). }
  rewrite Z.shiftr_div_pow2 in Hfix by lia. assert (2 ≤ 2 ^ k) by (apply (Z.pow_le_mono_r 2 1 k); lia).
  destruct (Z.eq_dec z 0) as [|Hne]; [done|]. assert (z / 2 ^ k < z) by (apply Z.div_lt; lia). lia.
Qed.
Lemma shift_left_inj a b :
  u64_ok a → u64_ok b → Z.lxor a (as_u64 (Z.shiftl a 25)) = Z.lxor b (as_u64 (Z.shiftl b 25)) → a = b.
Proof.
  intros Ha Hb Heq. apply Z.lxor_eq. set (z := Z.lxor a b). pose proof (lxor_u64 a b Ha Hb) as Hz. fold z in Hz.
  assert (Hfix : z = as_u64 (Z.shiftl z 25)).
  { apply Z.lxor_eq. unfold z, as_u64 in *. rewrite <- !Z.land_ones in Heq by lia. rewrite Z.shiftl_lxor, <- !Z.land_ones by lia. apply Z.bits_inj'. intros i Hi. apply (f_equal (λ x, Z.testbit x i)) in Heq.
    rewrite !Z.lxor_spec, !Z.land_spec in Heq. rewrite !Z.lxor_spec, Z.land_spec, Z.lxor_spec, Z.bits_0.
    destruct (Z.testbit (Z.ones 64) i), (Z.testbit a i), (Z.testbit b i), (Z.testbit (Z.shiftl a 25) i), (Z.testbit (Z.shiftl b 25) i); done. }
  unfold as_u64 in Hfix. rewrite Z.shiftl_mul_pow2 in Hfix by lia.
  assert (Hd : (2 ^ 64 | (2 ^ 25 - 1) * z)).
  { exists (z * 2 ^ 25 / 2 ^ 64). pose proof (Z.div_mod (z * 2 ^ 25) (2 ^ 64) ltac:(lia)). lia. }
  apply Z.gauss in Hd; [|by vm_compute]. destruct Hd as [q Hq]. unfold u64_ok in Hz. assert (q = 0) by lia. lia.
Qed.
(** The generator's states are permuted by [xor_shift]; the number is determined by the
    state, and determines it. *)
Theorem xor_shift_injective a b : u64_ok a → u64_ok b → (xor_shift a).1 = (xor_shift b).1 → a = b.
Proof.
  intros Ha Hb. unfold xor_shift. cbn [fst].
  set (x := Z.lxor a _). set (y := Z.lxor b _). assert (Hx : u64_ok x) by (by apply lxor_u64, shiftr_u64). assert (Hy : u64_ok y) by (by apply lxor_u64, shiftr_u64).
  set (x' := Z.lxor x (as_u64 _)). set (y' := Z.lxor y (as_u64 _)).
  assert (Hx' : u64_ok x') by (apply lxor_u64; [done|apply as_u64_ok]). assert (Hy' : u64_ok y') by (apply lxor_u64; [done|apply as_u64_ok]).
  set (x'' := Z.lxor x' _). set (y'' := Z.lxor y' _). assert (Hx'' : u64_ok x'') by (by apply lxor_u64, shiftr_u64). assert (Hy'' : u64_ok y'') by (by apply lxor_u64, shiftr_u64).
  intros Heq. assert (Hlast : x'' = y'').
  { unfold as_u64 in Heq. assert (Hd : (2 ^ 64 | 0x2545f4914f6cdd1d * (x'' - y''))).
    { exists (x'' * 0x2545f4914f6cdd1d / 2 ^ 64 - y'' * 0x2545f4914f6cdd1d / 2 ^ 64). pose proof (Z.div_mod (x'' * 0x2545f4914f6cdd1d) (2 ^ 64) ltac:(lia)).
      pose proof (Z.div_mod (y'' * 0x2545f4914f6cdd1d) (2 ^ 64) ltac:(lia)). lia. }
    apply Z.gauss in Hd; [|by vm_compute]. destruct Hd as [q Hq]. unfold u64_ok in *. assert (q = 0) by lia. lia. }
  apply (shift_right_inj 12); [lia|done..|]. apply shift_left_inj; [done..|]. apply (shift_right_inj 27); [lia|done..|]. exact Hlast.
Qed.
(** The state never becomes zero, where the generator would stay. *)
Lemma xor_shift_nonzero n : u64_ok n → n ≠ 0 → u64_ok (xor_shift n).2 ∧ (xor_shift n).2 ≠ 0 ∧ (xor_shift n).1 ≠ 0.
Proof.
  intros Hn Hne. assert (Hst : u64_ok (xor_shift n).2).
  { unfold xor_shift. cbn [snd]. assert (Hx : u64_ok (Z.lxor n (Z.shiftr n 12))) by (by apply lxor_u64, shiftr_u64). revert Hx. generalize (Z.lxor n (Z.shiftr n 12)). intros x Hx.
    assert (Hx' : u64_ok (Z.lxor x (as_u64 (Z.shiftl x 25)))) by (apply lxor_u64; [done|apply as_u64_ok]). by apply lxor_u64, shiftr_u64. }
  split; [done|]. assert (Hout : (xor_shift n).1 ≠ 0).
  { intros H0. apply Hne. apply xor_shift_injective; [done|unfold u64_ok; lia|by rewrite H0]. }
  split; [|done]. intros H0. apply Hout. change (as_u64 ((xor_shift n).2 * 0x2545f4914f6cdd1d) = 0). by rewrite H0.
Qed.
Lemma hex16_ok n : len (hex16 n) = 16 ∧ Forall (λ c, 48 ≤ c ≤ 57 ∨ 97 ≤ c ≤ 102) (hex16 n).
Proof.
  split; [done|]. unfold hex16. apply Forall_fmap, list.Forall_forall. intros i _. unfold compose, hex_digit.
  pose proof (Z.mod_pos_bound (Z.shiftr n (4 * Z.of_nat (15 - i))) 16 ltac:(lia)). destruct (Z.ltb_spec (Z.shiftr n (4 * Z.of_nat (15 - i)) mod 16) 10); lia.
Qed.
(** A boundary is 67 characters, all of them digits, letters or [-], within the 70 that
    RFC 2046 allows. *)
Theorem boundary_ok n :
  len (gen_boundary n).1 = 67 ∧ Forall (λ c, 48 ≤ c ≤ 57 ∨ 97 ≤ c ≤ 102 ∨ c = 45) (gen_boundary n).1.
Proof.
  unfold gen_boundary. destruct (xor_shift n) as [a n1]. destruct (xor_shift n1) as [b n2]. destruct (xor_shift n2) as [c n3]. destruct (xor_shift n3) as [d n4]. cbn [fst].
  assert (Hh : ∀ x, Forall (λ c, 48 ≤ c ≤ 57 ∨ 97 ≤ c ≤ 102 ∨ c = 45) (hex16 x)).
  { intros x. apply (list.Forall_impl (λ c, 48 ≤ c ≤ 57 ∨ 97 ≤ c ≤ 102)); [apply hex16_ok|]. tauto. }
  split; [by rewrite !len_app, !(proj1 (hex16_ok _))|]. repeat (apply Forall_app; split); try apply Hh; repeat constructor; by right; right.
Qed.
