(* ===== verification/MimeType.v ===== *)
(** Media types ([ylong_http/src/body/mime/mimetype.rs]): their parser, and the table of
    the types of file extensions. *)
From S2P Require Import Prelude Buffers Headers Uri ChunkBody.

Definition MEDIA_TYPE_VALID_BYTES : list bool :=
  let __ := false in let TT := true in [
  __; __; __; __; __; __; __; __; __; __; __; __; __; __; __; __;
  __; __; __; __; __; __; __; __; __; __; __; __; __; __; __; __;
  __; TT; __; TT; TT; __; TT; __; __; __; __; TT; __; TT; TT; __;
  TT; TT; TT; TT; TT; TT; TT; TT; TT; TT; __; __; __; __; __; __;
  __; TT; TT; TT; TT; TT; TT; TT; TT; TT; TT; TT; TT; TT; TT; TT;
  TT; TT; TT; TT; TT; TT; TT; TT; TT; TT; TT; __; __; __; TT; TT;
  __; TT; TT; TT; TT; TT; TT; TT; TT; TT; TT; TT; TT; TT; TT; TT;
  TT; TT; TT; TT; TT; TT; TT; TT; TT; TT; TT; __; __; __; __; __;
  __; __; __; __; __; __; __; __; __; __; __; __; __; __; __; __;
  __; __; __; __; __; __; __; __; __; __; __; __; __; __; __; __;
  __; __; __; __; __; __; __; __; __; __; __; __; __; __; __; __;
  __; __; __; __; __; __; __; __; __; __; __; __; __; __; __; __;
  __; __; __; __; __; __; __; __; __; __; __; __; __; __; __; __;
  __; __; __; __; __; __; __; __; __; __; __; __; __; __; __; __;
  __; __; __; __; __; __; __; __; __; __; __; __; __; __; __; __;
  __; __; __; __; __; __; __; __; __; __; __; __; __; __; __; __].
Definition is_valid (v : bytes) : bool := forallb (λ b, default false (MEDIA_TYPE_VALID_BYTES !! Z.to_nat b)) v.

Module MimeTypeTag.
Inductive t := Application | Audio | Font | Image | Message | Model | Multipart | Text | Video | Xnew.
#[global] Instance tag_eq_dec : EqDecision t.
Proof. solve_decision. Defined.
Definition eq_ignore_ascii_case (a b : bytes) : bool := bool_decide ((HeaderName.to_ascii_lowercase <$> a) = (HeaderName.to_ascii_lowercase <$> b)).
Definition mime_byte_a (b : bytes) : res HttpError t :=
  if eq_ignore_ascii_case (from 1 b) (str "pplication") then Ok Application
  else if eq_ignore_ascii_case (from 1 b) (str "udio") then Ok Audio
  else Err InvalidInput.
Definition mime_byte_m (b : bytes) : res HttpError t :=
  if eq_ignore_ascii_case (from 1 b) (str "essage") then Ok Message
  else if eq_ignore_ascii_case (from 1 b) (str "odel") then Ok Model
  else if eq_ignore_ascii_case (from 1 b) (str "ultipart") then Ok Multipart
  else Err InvalidInput.
Definition from_bytes (b : bytes) : res HttpError t :=
  if (64 <? len b) || (len b <? 2) then Err InvalidInput
  else
    let c := HeaderName.to_ascii_lowercase (at_ b 0) in
    if c =? 120 then if (at_ b 1 =? 45) && is_valid (from 2 b) then Ok Xnew else Err InvalidInput
    else if c =? 97 then mime_byte_a b
    else if c =? 102 then if eq_ignore_ascii_case (from 1 b) (str "ont") then Ok Font else Err InvalidInput
    else if c =? 105 then if eq_ignore_ascii_case (from 1 b) (str "mage") then Ok Image else Err InvalidInput
    else if c =? 109 then mime_byte_m b
    else if c =? 116 then if eq_ignore_ascii_case (from 1 b) (str "ext") then Ok Text else Err InvalidInput
    else if c =? 118 then if eq_ignore_ascii_case (from 1 b) (str "ideo") then Ok Video else Err InvalidInput
    else Err InvalidInput.
End MimeTypeTag.

Module MimeType.
Record t := mk { tag : MimeTypeTag.t; bytes_ : bytes; slash : Z }.
#[global] Instance mime_type_eq_dec : EqDecision t.
Proof. solve_decision. Defined.
Fixpoint find_slash (i : Z) (l : bytes) : option Z := match l with [] => None | b :: l => if b =? 47 then Some i else find_slash (i + 1) l end.
Definition from_bytes (b : bytes) : res HttpError t :=
  slash ← ok_or (find_slash 0 b) InvalidInput;
  tag ← MimeTypeTag.from_bytes (upto slash b);
  let sub_type := from (slash + 1) b in
  if (64 <? len sub_type) || negb (is_valid sub_type) then Err InvalidInput else Ok (mk tag b slash).
Definition as_str (m : t) : bytes := bytes_ m.
Definition main_type (m : t) : bytes := upto (slash m) (bytes_ m).
Definition sub_type (m : t) : bytes := from (slash m + 1) (bytes_ m).
Definition is_application (m : t) : bool := bool_decide (tag m = MimeTypeTag.Application).
Definition is_audio (m : t) : bool := bool_decide (tag m = MimeTypeTag.Audio).
Definition is_font (m : t) : bool := bool_decide (tag m = MimeTypeTag.Font).
Definition is_image (m : t) : bool := bool_decide (tag m = MimeTypeTag.Image).
Definition is_message (m : t) : bool := bool_decide (tag m = MimeTypeTag.Message).
Definition is_model (m : t) : bool := bool_decide (tag m = MimeTypeTag.Model).
Definition is_multipart (m : t) : bool := bool_decide (tag m = MimeTypeTag.Multipart).
Definition is_text (m : t) : bool := bool_decide (tag m = MimeTypeTag.Text).
Definition is_video (m : t) : bool := bool_decide (tag m = MimeTypeTag.Video).
Definition is_xnew (m : t) : bool := bool_decide (tag m = MimeTypeTag.Xnew).
Definition default : t := mk MimeTypeTag.Application (str "application/octet-stream") 11.
(** The arms of [mime!]. *)
Definition EXTENSIONS : list (string * string * Z * MimeTypeTag.t) := (let a := MimeTypeTag.Application in [
  ("evy", "application/envoy", 11, a);
  ("fif", "application/fractals", 11, a);
  ("spl", "application/futuresplash", 11, a);
  ("hta", "application/hta", 11, a);
  ("acx", "application/internet-property-stream", 11, a);
  ("hqx", "application/mac-binhex40", 11, a);
  ("doc", "application/msword", 11, a);
  ("dot", "application/msword", 11, a);
  ("*", "application/octet-stream", 11, a);
  ("bin", "application/octet-stream", 11, a);
  ("class", "application/octet-stream", 11, a);
  ("dms", "application/octet-stream", 11, a);
  ("exe", "application/octet-stream", 11, a);
  ("lha", "application/octet-stream", 11, a);
  ("lzh", "application/octet-stream", 11, a);
  ("oda", "application/oda", 11, a);
  ("axs", "application/olescript", 11, a);
  ("pdf", "application/pdf", 11, a);
  ("prf", "application/pics-rules", 11, a);
  ("p10", "application/pkcs10", 11, a);
  ("crl", "application/pkix-crl", 11, a);
  ("ai", "application/postscript", 11, a);
  ("eps", "application/postscript", 11, a);
  ("ps", "application/postscript", 11, a);
  ("rtf", "application/rtf", 11, a);
  ("setpay", "application/set-payment-initiation", 11, a);
  ("setreg", "application/set-registration-initiation", 11, a);
  ("xla", "application/vnd.ms-excel", 11, a);
  ("xlc", "application/vnd.ms-excel", 11, a);
  ("xlm", "application/vnd.ms-excel", 11, a);
  ("xls", "application/vnd.ms-excel", 11, a);
  ("xlt", "application/vnd.ms-excel", 11, a);
  ("xlw", "application/vnd.ms-excel", 11, a);
  ("msg", "application/vnd.ms-outlook", 11, a);
  ("sst", "application/vnd.ms-pkicertstore", 11, a);
  ("cat", "application/vnd.ms-pkiseccat", 11, a);
  ("stl", "application/vnd.ms-pkistl", 11, a);
  ("pot", "application/vnd.ms-powerpoint", 11, a);
  ("pps", "application/vnd.ms-powerpoint", 11, a);
  ("ppt", "application/vnd.ms-powerpoint", 11, a);
  ("mpp", "application/vnd.ms-project", 11, a);
  ("wcm", "application/vnd.ms-works", 11, a);
  ("wdb", "application/vnd.ms-works", 11, a);
  ("wks", "application/vnd.ms-works", 11, a);
  ("wps", "application/vnd.ms-works", 11, a);
  ("hlp", "application/winhlp", 11, a);
  ("bcpio", "application/x-bcpio", 11, a);
  ("cdf", "application/x-cdf", 11, a);
  ("z", "application/x-compress", 11, a);
  ("tgz", "application/x-compressed", 11, a);
  ("cpio", "application/x-cpio", 11, a);
  ("csh", "application/x-csh", 11, a);
  ("dcr", "application/x-director", 11, a);
  ("dir", "application/x-director", 11, a);
  ("dxr", "application/x-director", 11, a);
  ("dvi", "application/x-dvi", 11, a);
  ("gtar", "application/x-gtar", 11, a);
  ("gz", "application/x-gzip", 11, a);
  ("hdf", "application/x-hdf", 11, a);
  ("ins", "application/x-internet-signup", 11, a);
  ("isp", "application/x-internet-signup", 11, a);
  ("iii", "application/x-iphone", 11, a);
  ("js", "application/x-javascript", 11, a);
  ("latex", "application/x-latex", 11, a);
  ("mdb", "application/x-msaccess", 11, a);
  ("crd", "application/x-mscardfile", 11, a);
  ("clp", "application/x-msclip", 11, a);
  ("dll", "application/x-msdownload", 11, a);
  ("m13", "application/x-msmediaview", 11, a);
  ("m14", "application/x-msmediaview", 11, a);
  ("mvb", "application/x-msmediaview", 11, a);
  ("wmf", "application/x-msmetafile", 11, a);
  ("mny", "application/x-msmoney", 11, a);
  ("pub", "application/x-mspublisher", 11, a);
  ("scd", "application/x-msschedule", 11, a);
  ("trm", "application/x-msterminal", 11, a);
  ("wri", "application/x-mswrite", 11, a);
  ("nc", "application/x-netcdf", 11, a);
  ("pma", "application/x-perfmon", 11, a);
  ("pmc", "application/x-perfmon", 11, a);
  ("pml", "application/x-perfmon", 11, a);
  ("pmr", "application/x-perfmon", 11, a);
  ("pmw", "application/x-perfmon", 11, a);
  ("p12", "application/x-pkcs12", 11, a);
  ("pfx", "application/x-pkcs12", 11, a);
  ("p7b", "application/x-pkcs7-certificates", 11, a);
  ("spc", "application/x-pkcs7-certificates", 11, a);
  ("p7r", "application/x-pkcs7-certificates", 11, a);
  ("p7c", "application/x-pkcs7-mime", 11, a);
  ("p7m", "application/x-pkcs7-mime", 11, a);
  ("p7s", "application/x-pkcs7-signature", 11, a);
  ("sh", "application/x-sh", 11, a);
  ("shar", "application/x-shar", 11, a);
  ("swf", "application/x-shockwave-flash", 11, a);
  ("sit", "application/x-stuffit", 11, a);
  ("sv4cpio", "application/x-sv4cpio", 11, a);
  ("sv4crc", "application/x-sv4crc", 11, a);
  ("tar", "application/x-tar", 11, a);
  ("tcl", "application/x-tcl", 11, a);
  ("tex", "application/x-tex", 11, a);
  ("texi", "application/x-texinfo", 11, a);
  ("texinfo", "application/x-texinfo", 11, a);
  ("roff", "application/x-troff", 11, a);
  ("t", "application/x-troff", 11, a);
  ("tr", "application/x-troff", 11, a);
  ("man", "application/x-troff-man", 11, a);
  ("me", "application/x-troff-me", 11, a);
  ("ms", "application/x-troff-ms", 11, a);
  ("ustar", "application/x-ustar", 11, a);
  ("src", "application/x-wais-source", 11, a);
  ("cer", "application/x-x509-ca-cert", 11, a);
  ("crt", "application/x-x509-ca-cert", 11, a);
  ("der", "application/x-x509-ca-cert", 11, a);
  ("pko", "application/ynd.ms-pkipko", 11, a);
  ("zip", "application/zip", 11, a);
  ("au", "audio/basic", 5, MimeTypeTag.Audio);
  ("snd", "audio/basic", 5, MimeTypeTag.Audio);
  ("mid", "audio/mid", 5, MimeTypeTag.Audio);
  ("rmi", "audio/mid", 5, MimeTypeTag.Audio);
  ("mp3", "audio/mpeg", 5, MimeTypeTag.Audio);
  ("aif", "audio/x-aiff", 5, MimeTypeTag.Audio);
  ("aifc", "audio/x-aiff", 5, MimeTypeTag.Audio);
  ("aiff", "audio/x-aiff", 5, MimeTypeTag.Audio);
  ("m3u", "audio/x-mpegurl", 5, MimeTypeTag.Audio);
  ("ra", "audio/x-pn-realaudio", 5, MimeTypeTag.Audio);
  ("ram", "audio/x-pn-realaudio", 5, MimeTypeTag.Audio);
  ("wav", "audio/x-wav", 5, MimeTypeTag.Audio);
  ("bmp", "image/bmp", 5, MimeTypeTag.Image);
  ("cod", "image/cis-cod", 5, MimeTypeTag.Image);
  ("gif", "image/gif", 5, MimeTypeTag.Image);
  ("ief", "image/ief", 5, MimeTypeTag.Image);
  ("jpe", "image/jpeg", 5, MimeTypeTag.Image);
  ("jpeg", "image/jpeg", 5, MimeTypeTag.Image);
  ("jpg", "image/jpeg", 5, MimeTypeTag.Image);
  ("jfif", "image/pipeg", 5, MimeTypeTag.Image);
  ("svg", "image/svg+xml", 5, MimeTypeTag.Image);
  ("tif", "image/tiff", 5, MimeTypeTag.Image);
  ("tiff", "image/tiff", 5, MimeTypeTag.Image);
  ("ras", "image/x-cmu-raster", 5, MimeTypeTag.Image);
  ("cmx", "image/x-cmx", 5, MimeTypeTag.Image);
  ("ico", "image/x-icon", 5, MimeTypeTag.Image);
  ("pnm", "image/x-portable-anymap", 5, MimeTypeTag.Image);
  ("pbm", "image/x-portable-bitmap", 5, MimeTypeTag.Image);
  ("pgm", "image/x-portable-graymap", 5, MimeTypeTag.Image);
  ("ppm", "image/x-portable-pixmap", 5, MimeTypeTag.Image);
  ("rgb", "image/x-rgb", 5, MimeTypeTag.Image);
  ("xbm", "image/x-xbitmap", 5, MimeTypeTag.Image);
  ("xpm", "image/x-xpixmap", 5, MimeTypeTag.Image);
  ("xwd", "image/x-xwindowdump", 5, MimeTypeTag.Image);
  ("mht", "message/rfc822", 7, MimeTypeTag.Message);
  ("mhtml", "message/rfc822", 7, MimeTypeTag.Message);
  ("nws", "message/rfc822", 7, MimeTypeTag.Message);
  ("css", "text/css", 4, MimeTypeTag.Text);
  ("323", "text/h323", 4, MimeTypeTag.Text);
  ("htm", "text/html", 4, MimeTypeTag.Text);
  ("html", "text/html", 4, MimeTypeTag.Text);
  ("stm", "text/html", 4, MimeTypeTag.Text);
  ("uls", "text/iuls", 4, MimeTypeTag.Text);
  ("bas", "text/plain", 4, MimeTypeTag.Text);
  ("c", "text/plain", 4, MimeTypeTag.Text);
  ("h", "text/plain", 4, MimeTypeTag.Text);
  ("txt", "text/plain", 4, MimeTypeTag.Text);
  ("rtx", "text/richtext", 4, MimeTypeTag.Text);
  ("sct", "text/scriptlet", 4, MimeTypeTag.Text);
  ("tsv", "text/tab-separated-values", 4, MimeTypeTag.Text);
  ("htt", "text/webviewhtml", 4, MimeTypeTag.Text);
  ("htc", "text/x-component", 4, MimeTypeTag.Text);
  ("etx", "text/x-setext", 4, MimeTypeTag.Text);
  ("vcf", "text/x-vcard", 4, MimeTypeTag.Text);
  ("mp2", "video/mpeg", 5, MimeTypeTag.Video);
  ("mpa", "video/mpeg", 5, MimeTypeTag.Video);
  ("mpe", "video/mpeg", 5, MimeTypeTag.Video);
  ("mpeg", "video/mpeg", 5, MimeTypeTag.Video);
  ("mpg", "video/mpeg", 5, MimeTypeTag.Video);
  ("mpv2", "video/mpeg", 5, MimeTypeTag.Video);
  ("mov", "video/quicktime", 5, MimeTypeTag.Video);
  ("qt", "video/quicktime", 5, MimeTypeTag.Video);
  ("lsf", "video/x-la-asf", 5, MimeTypeTag.Video);
  ("lsx", "video/x-la-asf", 5, MimeTypeTag.Video);
  ("asf", "video/x-ms-asf", 5, MimeTypeTag.Video);
  ("asr", "video/x-ms-asf", 5, MimeTypeTag.Video);
  ("asx", "video/x-ms-asf", 5, MimeTypeTag.Video);
  ("avi", "video/x-msvideo", 5, MimeTypeTag.Video);
  ("movie", "video/x-sgi-movie", 5, MimeTypeTag.Video);
  ("flr", "x-world/x-vrml", 7, MimeTypeTag.Xnew);
  ("vrml", "x-world/x-vrml", 7, MimeTypeTag.Xnew);
  ("wrl", "x-world/x-vrml", 7, MimeTypeTag.Xnew);
  ("wrz", "x-world/x-vrml", 7, MimeTypeTag.Xnew);
  ("xaf", "x-world/x-vrml", 7, MimeTypeTag.Xnew);
  ("xof", "x-world/x-vrml", 7, MimeTypeTag.Xnew)])%string.
Fixpoint from_arms (s : bytes) (l : list (string * string * Z * MimeTypeTag.t)) : t :=
  match l with
  | [] => default
  | (ext, name, slash, tag) :: l => if bool_decide (s = str ext) then mk tag (str name) slash else from_arms s l
  end.
Definition from_extension (s : bytes) : res HttpError t := Ok (from_arms s EXTENSIONS).
End MimeType.

(** * What the types hold *)

Definition ascii (b : Z) : Prop := b ≤ 127.
#[export] Instance ascii_dec b : Decision (ascii b).
Proof. unfold ascii. apply _. Defined.
Lemma lowercase_ascii b : ascii (HeaderName.to_ascii_lowercase b) → ascii b.
Proof. unfold ascii, HeaderName.to_ascii_lowercase. destruct (_ && _); lia. Qed.
Lemma same_case_ascii a b : MimeTypeTag.eq_ignore_ascii_case a b = true → Forall ascii (HeaderName.to_ascii_lowercase <$> b) → Forall ascii a.
Proof.
  unfold MimeTypeTag.eq_ignore_ascii_case. rewrite bool_decide_eq_true. intros Hab. rewrite <- Hab. rewrite Forall_fmap. intros H. eapply list.Forall_impl; [exact H|]. intros x. apply lowercase_ascii.
Qed.
Lemma valid_ascii v : is_valid v = true → Forall ascii v.
Proof.
  unfold is_valid. rewrite forallb_forall. intros H. rewrite list.Forall_forall. intros b Hb. rewrite list_elem_of_In in Hb. specialize (H b Hb). unfold ascii. destruct (decide (b ≤ 127)) as [|Hgt]; [done|].
  assert (Hf : ∀ i, (128 ≤ i)%nat → default false (MEDIA_TYPE_VALID_BYTES !! i) = false).
  { intros i Hi. destruct (decide (i < 256)%nat) as [Hlt|]; [|rewrite lookup_ge_None_2; [done|]; change (length MEDIA_TYPE_VALID_BYTES) with 256%nat; lia]. assert (Hx : forallb (λ k, negb (default false (MEDIA_TYPE_VALID_BYTES !! k))) (seq 128 128) = true) by (by vm_compute). rewrite forallb_forall in Hx. specialize (Hx i ltac:(apply in_seq; lia)). by apply negb_true_iff. }
  rewrite Hf in H by lia. done.
Qed.
Lemma tag_ascii b tag : MimeTypeTag.from_bytes b = Ok tag → Forall ascii b.
Proof.
  unfold MimeTypeTag.from_bytes. destruct (_ || _) eqn:Hl; [done|]. zbool. destruct b as [|x b]; [change (len []) with 0 in *; lia|]. change (at_ (x :: b) 0) with x. change (from 1 (x :: b)) with b. cbv zeta. intros Ht.
  assert (Hcons : ascii (HeaderName.to_ascii_lowercase x) → Forall ascii b → Forall ascii (x :: b)) by (intros Hx Hb; constructor; [by apply lowercase_ascii|done]).
  unfold MimeTypeTag.mime_byte_a, MimeTypeTag.mime_byte_m in Ht. change (from 1 (x :: b)) with b in Ht.
  assert (Hlit : ∀ w, MimeTypeTag.eq_ignore_ascii_case b w = true → bool_decide (Forall ascii (HeaderName.to_ascii_lowercase <$> w)) = true → Forall ascii b) by (intros w Hw Ha; eapply same_case_ascii; [exact Hw|by apply bool_decide_eq_true in Ha]).
  destruct (HeaderName.to_ascii_lowercase x =? 120) eqn:Hx.
  - case_in Ht; [|done]. zbool. apply Hcons; [unfold ascii; lia|]. destruct b as [|y b]; [done|]. constructor; [unfold ascii; change (at_ (x :: y :: b) 1) with y in *; lia|by apply valid_ascii].
  - repeat (match type of Ht with (if ?c then _ else _) = _ => destruct c eqn:? end; [|try done]); zbool; (apply Hcons; [unfold ascii; lia|]); (eapply Hlit; [eassumption|by vm_compute]).
Qed.
Lemma find_slash_spec i l j : MimeType.find_slash i l = Some j → ∃ a b, l = a ++ 47 :: b ∧ j = i + len a ∧ Forall (λ x, x ≠ 47) a.
Proof.
  revert i. induction l as [|x l IH]; intros i H; [done|]. cbn [MimeType.find_slash] in H. destruct (Z.eqb_spec x 47) as [->|Hx].
  - injection H as <-. exists [], l. split; [done|]. split; [change (len []) with 0; lia|done].
  - destruct (IH _ H) as (a & b & -> & -> & Ha). exists (x :: a), b. split; [done|]. split; [rewrite len_cons; lia|by constructor].
Qed.
(** A type that is accepted is what it was made from, its two parts with a slash between
    them, and all of it is ASCII, so that it is valid UTF-8 as its accessors take it to be. *)
Lemma mime_type_parts b m :
  MimeType.from_bytes b = Ok m →
  MimeType.as_str m = b ∧ b = MimeType.main_type m ++ 47 :: MimeType.sub_type m ∧ Forall ascii b ∧ MimeTypeTag.from_bytes (MimeType.main_type m) = Ok (MimeType.tag m).
Proof.
  unfold MimeType.from_bytes. intros H. inv_bind H. inv_bind H. destruct (_ || _) eqn:Hv; [done|]. injection H as <-. zbool. destruct (MimeType.find_slash 0 b) as [j|] eqn:Hf; [|done]. injection Ha as <-.
  destruct (find_slash_spec _ _ _ Hf) as (x & y & -> & -> & Hx). unfold MimeType.as_str, MimeType.main_type, MimeType.sub_type. cbn. rewrite Z.add_0_l in *. rewrite upto_app_exact in * by done.
  assert (Hfr : from (len x + 1) (x ++ 47 :: y) = y) by (change (47 :: y) with ([47] ++ y); rewrite (assoc_L (++)); apply from_app_exact; rewrite len_app; done). rewrite Hfr in *.
  split; [done|]. split; [done|]. split; [|done]. apply Forall_app. split; [by eapply tag_ascii|]. constructor; [unfold ascii; lia|by apply valid_ascii].
Qed.
(** The type of every extension is one that the parser reads back, so that the table's tags
    and positions of the slash are right. *)
Definition arm_ok (x : string * string * Z * MimeTypeTag.t) : bool :=
  let '(_, name, slash, tag) := x in match MimeType.from_bytes (str name) with Ok m => bool_decide (m = MimeType.mk tag (str name) slash) | _ => false end.
Lemma extension_types s : ∃ m, MimeType.from_extension s = Ok m ∧ MimeType.from_bytes (MimeType.as_str m) = Ok m.
Proof.
  eexists. split; [reflexivity|]. assert (Hall : forallb arm_ok MimeType.EXTENSIONS = true) by (by vm_compute). revert Hall. induction MimeType.EXTENSIONS as [|[[[ext name] slash] tag] l IH]; intros Hall; [by vm_compute|].
  cbn [forallb] in Hall. apply andb_true_iff in Hall as [Ha Hl]. cbn [MimeType.from_arms]. destruct (bool_decide (s = str ext)); [|by apply IH]. unfold arm_ok in Ha. change (MimeType.as_str (MimeType.mk tag (str name) slash)) with (str name). destruct (MimeType.from_bytes (str name)) as [m| |]; [|done..]. apply bool_decide_eq_true in Ha. by rewrite Ha.
Qed.
(** The grammar quoted above the table of bytes wants a first letter or digit; a subtype
    without any byte is accepted, and one that starts with a sign. *)
Lemma empty_subtype_accepted : MimeType.from_bytes (str "text/") = Ok (MimeType.mk MimeTypeTag.Text (str "text/") 4) ∧ MimeType.from_bytes (str "x-/-") = Ok (MimeType.mk MimeTypeTag.Xnew (str "x-/-") 2).
Proof. by vm_compute. Qed.
