(* ===== verification/Mime.v ===== *)
(** MIME entities ([ylong_http/src/body/mime/common], [body/mime/encode]): parts and
    multiparts nested to any depth, and their encoders, called with buffers of any sizes.

    A call of an encoder with a buffer of [n] bytes returns the bytes it puts there.  The
    encoders have two forms, [data] and [poll_data], which differ in the readers they can
    read ([async]); [Err Waits] is [Poll::Pending].  A reader is the script of what its
    reads give.  The order in which headers are walked is a parameter. *)
From S2P Require Import Prelude Buffers PullEncoder Headers.
#[local] Set Warnings "-register-all".

(** * Common functions *)

Definition CRLF : bytes := [13; 10].
Inductive stop := Waits | Fails.

(** [data_copy] into a buffer of [n] bytes: whether all is copied, the bytes, the index. *)
Definition data_copy (src : bytes) (src_idx n : Z) : bool * bytes * Z :=
  let d := upto n (from src_idx src) in
  (len src - src_idx <=? n, d, src_idx + len d).

Definition is_lwsp (b : Z) : bool := (b =? 32) || (b =? 9).
Fixpoint trim_front_lwsp (buf : bytes) : bytes :=
  match buf with
  | b :: rest => if is_lwsp b then trim_front_lwsp rest else buf
  | [] => []
  end.
Definition trim_back_lwsp (buf : bytes) : bytes := reverse (trim_front_lwsp (reverse buf)).
(** [ends_with(&[b])] with the last byte taken off. *)
Definition strip_last (b : Z) (buf : bytes) : bytes :=
  match list.last buf with Some x => if x =? b then upto (len buf - 1) buf else buf | None => buf end.
Definition trim_back_lwsp_if_end_with_lf (buf : bytes) : bytes := trim_back_lwsp (strip_last 13 (upto (len buf - 1) buf)).

Inductive TokenStatus (T E : Type) := Partial (e : E) | Complete (t : T).
Arguments Partial {T E} e.
Arguments Complete {T E} t.

Definition consume_crlf (buf : bytes) (cr_meet : bool) : res HttpError (TokenStatus bytes Z) :=
  match buf with
  | [] => Ok (Partial 0)
  | b :: rest =>
      if b =? 13 then
        if cr_meet then Err InvalidInput
        else match rest with
             | [] => Ok (Partial 1)
             | c :: rest => if c =? 10 then Ok (Complete rest) else Err InvalidInput
             end
      else if b =? 10 then Ok (Complete rest)
      else Err InvalidInput
  end.
(** The line with its line feed, and what follows. *)
Fixpoint get_crlf_contain (buf : bytes) : TokenStatus (bytes * bytes) bytes :=
  match buf with
  | [] => Partial []
  | b :: rest =>
      if b =? 10 then Complete ([b], rest)
      else match get_crlf_contain rest with
           | Complete (src, unparsed) => Complete (b :: src, unparsed)
           | Partial _ => Partial buf
           end
  end.

Definition is_ascii_whitespace (b : Z) : bool := (b =? 32) || (b =? 9) || (b =? 10) || (b =? 12) || (b =? 13).
Fixpoint trim_ascii_start (l : bytes) : bytes :=
  match l with
  | b :: rest => if is_ascii_whitespace b then trim_ascii_start rest else l
  | [] => []
  end.
Definition trim_ascii_end (l : bytes) : bytes := reverse (trim_ascii_start (reverse l)).
Definition trim_ascii (l : bytes) : bytes := trim_ascii_end (trim_ascii_start l).
Fixpoint starts_with (p l : bytes) : bool :=
  match p, l with
  | [], _ => true
  | x :: p, y :: l => (x =? y) && starts_with p l
  | _, [] => false
  end.
(** [split(|b| *b == c)]. *)
Fixpoint split_on (c : Z) (l : bytes) : list bytes :=
  match l with
  | [] => [[]]
  | b :: l =>
      if b =? c then [] :: split_on c l
      else match split_on c l with x :: xs => (b :: x) :: xs | [] => [[b]] end
  end.
Definition get_content_type_boundary (headers : Headers.t) : option bytes :=
  match Headers.get headers (str "Content-Type") with
  | Some value =>
      let s := trim_ascii (HeaderValue.to_vec value) in
      if negb (starts_with (str "multipart") s) then None
      else
        match snd <$> list_find (λ s, starts_with (str "boundary=") s) (trim_ascii <$> split_on 59 s) with
        | Some boundary =>
            let boundary := trim_ascii_start (from 9 boundary) in
            if (2 <? len boundary) && starts_with [34] boundary && bool_decide (list.last boundary = Some 34) then
              Some (slice 1 (len boundary - 1) boundary)
            else match boundary with [] => None | _ => Some boundary end
        | None => None
        end
  | None => None
  end.

(** * Bodies *)

Inductive read_event := RWait | RData (d : bytes) | RFail.
Definition read (n : Z) (l : list read_event) : res stop bytes * list read_event :=
  match l with
  | [] => (Ok [], [])
  | RWait :: l => (Err Waits, l)
  | RFail :: l => (Err Fails, l)
  | RData d :: l => if len d <=? n then (Ok d, l) else (Ok (upto n d), RData (from n d) :: l)
  end.
Module MixFrom.
Inductive t :=
| Owned (bytes : bytes) (index : Z)
| Slice (bytes : bytes) (index : Z)
| Reader (r : list read_event)
| AsyncReader (r : list read_event).
Definition new : t := Owned [] 0.
Definition is_empty (m : t) : bool :=
  match m with Owned b _ | Slice b _ => bool_decide (b = []) | _ => false end.
Definition owned_encode (b : bytes) (i n : Z) : res stop bytes * t := let '(_, d, i) := data_copy b i n in (Ok d, Owned b i).
Definition bytes_encode (b : bytes) (i n : Z) : res stop bytes * t := let '(_, d, i) := data_copy b i n in (Ok d, Slice b i).
Definition read_encode (l : list read_event) (n : Z) : res stop bytes * t := let '(r, l) := read n l in (r, Reader l).
(** [data] and [poll_data]. *)
Definition data (async : bool) (n : Z) : M t stop bytes := λ m,
  if n =? 0 then (Ok [], m)
  else match m with
  | Owned b i => owned_encode b i n
  | Slice b i => bytes_encode b i n
  | Reader l => if async then (Ok [], m) else read_encode l n
  | AsyncReader l => if async then let '(r, l) := read n l in (r, AsyncReader l) else (Ok [], m)
  end.
End MixFrom.

(** * Parts and multiparts *)

Module MimePart.
Record t := mk { headers : Headers.t; body : MixFrom.t }.
Definition new : t := mk Headers.new MixFrom.new.
Definition set_headers (p : t) (h : Headers.t) : t := mk h (body p).
Definition header (p : t) (name value : bytes) : res HttpError t :=
  '(_, h) ← Headers.insert (headers p) name value; Ok (set_headers p h).
Definition append_header (p : t) (name value : bytes) : res HttpError t :=
  h ← Headers.append (headers p) name value; Ok (set_headers p h).
Definition set_body (p : t) (b : MixFrom.t) : t := mk (headers p) b.
Definition body_from_owned (p : t) (d : bytes) : t := set_body p (MixFrom.Owned d 0).
Definition body_from_bytes (p : t) (d : bytes) : t := set_body p (MixFrom.Slice d 0).
Definition body_from_reader (p : t) (r : list read_event) : t := set_body p (MixFrom.Reader r).
Definition body_from_async_reader (p : t) (r : list read_event) : t := set_body p (MixFrom.AsyncReader r).
Definition body_extend_from_slice (p : t) (src : bytes) : t :=
  match body p with MixFrom.Owned b i => set_body p (MixFrom.Owned (b ++ src) i) | _ => p end.
Definition body_truncate (p : t) (n : Z) : t :=
  match body p with MixFrom.Owned b i => set_body p (MixFrom.Owned (upto n b) i) | _ => p end.
Definition body_trim_crlf_once (p : t) : t :=
  match body p with MixFrom.Owned b i => set_body p (MixFrom.Owned (strip_last 13 (strip_last 10 b)) i) | _ => p end.
Definition body_owned (p : t) : option bytes := match body p with MixFrom.Owned b _ => Some b | _ => None end.
End MimePart.

Record multi (X : Type) := mk_multi { headers : Headers.t; boundary : bytes; list_ : list X }.
Arguments mk_multi {X} headers boundary list_.
Arguments headers {X} m.
Arguments boundary {X} m.
Arguments list_ {X} m.
Inductive XPart := Part (p : MimePart.t) | Multi (m : multi XPart).
Module MimeMulti.
Abbreviation t := (multi XPart).
Definition new : t := mk_multi Headers.new (str "-") [].
Definition set_headers (m : t) (h : Headers.t) : t := mk_multi h (boundary m) (list_ m).
Definition set_boundary (m : t) (b : bytes) : t := mk_multi (headers m) b (list_ m).
Definition insert_header (m : t) (name value : bytes) : res HttpError t :=
  '(_, h) ← Headers.insert (headers m) name value; Ok (set_headers m h).
Definition append_header (m : t) (name value : bytes) : res HttpError t :=
  h ← Headers.append (headers m) name value; Ok (set_headers m h).
(** The boundary is set also when the header is refused. *)
Definition set_content_type (m : t) (content_type b : bytes) : res HttpError () * t :=
  let m := set_boundary m b in
  match Headers.insert (headers m) (str "Content-Type") (content_type ++ str "; boundary=" ++ b) with
  | Ok (_, h) => (Ok (), set_headers m h)
  | Err e => (Err e, m)
  | Panic => (Panic, m)
  end.
Definition add_xpart (m : t) (x : XPart) : t := mk_multi (headers m) (boundary m) (list_ m ++ [x]).
Definition add_part (m : t) (p : MimePart.t) : t := add_xpart m (Part p).
Definition add_multi (m sub : t) : t := add_xpart m (Multi sub).
End MimeMulti.

(** The builders keep the first error. *)
Module MimePartBuilder.
Definition t : Type := res HttpError MimePart.t.
Definition new : t := Ok MimePart.new.
Definition map (f : MimePart.t → MimePart.t) (inner : t) : t := f <$> inner.
Definition set_headers (inner : t) (h : Headers.t) : t := map (λ p, MimePart.set_headers p h) inner.
Definition header (inner : t) (name value : bytes) : t := p ← inner; MimePart.header p name value.
Definition append_header (inner : t) (name value : bytes) : t := p ← inner; MimePart.append_header p name value.
Definition body_from_owned (inner : t) (d : bytes) : t := map (λ p, MimePart.body_from_owned p d) inner.
Definition body_from_bytes (inner : t) (d : bytes) : t := map (λ p, MimePart.body_from_bytes p d) inner.
Definition body_from_reader (inner : t) (r : list read_event) : t := map (λ p, MimePart.body_from_reader p r) inner.
Definition body_from_async_reader (inner : t) (r : list read_event) : t := map (λ p, MimePart.body_from_async_reader p r) inner.
Definition build (inner : t) : res HttpError MimePart.t := inner.
End MimePartBuilder.
Module MimeMultiBuilder.
Definition t : Type := res HttpError MimeMulti.t.
Definition new : t := Ok MimeMulti.new.
Definition map (f : MimeMulti.t → MimeMulti.t) (inner : t) : t := f <$> inner.
Definition set_headers (inner : t) (h : Headers.t) : t := map (λ m, MimeMulti.set_headers m h) inner.
Definition insert_header (inner : t) (name value : bytes) : t := m ← inner; MimeMulti.insert_header m name value.
Definition append_header (inner : t) (name value : bytes) : t := m ← inner; MimeMulti.append_header m name value.
Definition set_boundary (inner : t) (b : bytes) : t := map (λ m, MimeMulti.set_boundary m b) inner.
Definition set_content_type (inner : t) (content_type b : bytes) : t :=
  m ← inner; match MimeMulti.set_content_type m content_type b with (Ok _, m) => Ok m | (Err e, _) => Err e | (Panic, _) => Panic end.
Definition add_part (inner : t) (p : MimePart.t) : t := map (λ m, MimeMulti.add_part m p) inner.
Definition add_multi (inner : t) (sub : MimeMulti.t) : t := map (λ m, MimeMulti.add_multi m sub) inner.
Definition add_xpart (inner : t) (x : XPart) : t := map (λ m, MimeMulti.add_xpart m x) inner.
Definition build (inner : t) : res HttpError MimeMulti.t := inner.
End MimeMultiBuilder.

(** * Encoders *)

(** The loop of [data] and [poll_data]: [turn] with the room that is left, until the buffer
    is full or there is nothing more; [got] is in the buffer of [n] bytes. *)
Fixpoint fill {S} (turn : Z → M S stop (option bytes)) (fuel : nat) (n : Z) (got : bytes) : M S stop bytes :=
  match fuel with
  | O => mpanic
  | Datatypes.S fuel =>
      if len got =? n then mret got
      else d ← turn (n - len got); match d with Some d => fill turn fuel n (got ++ d) | None => mret got end
  end.
Definition some_bytes {S} (x : res stop bytes * S) : res stop (option bytes) * S := (Some <$> x.1, x.2).

Inductive HeaderStatus := HStart | HName | HColon | HValue | HCrlf | HEnd.
Module EncodeHeaders.
Record t := mk { stage : HeaderStatus; into_iter : list (bytes * HeaderValue.t); value : option HeaderValue.t; src : bytes; src_idx : Z }.
Definition new (iter : Headers.t → list (bytes * HeaderValue.t)) (h : Headers.t) : t := mk HStart (iter h) None [] 0.
Definition check_next (e : t) : t :=
  match stage e with
  | HStart =>
      match into_iter e with
      | (name, value) :: l => mk HName l (Some value) name 0
      | [] => mk HEnd [] (value e) (src e) (src_idx e)
      end
  | HName => mk HColon (into_iter e) (value e) (str ":") 0
  | HColon => mk HValue (into_iter e) None (match value e with Some v => HeaderValue.to_vec v | None => [] end) 0
  | HValue => mk HCrlf (into_iter e) (value e) CRLF 0
  | HCrlf => mk HStart (into_iter e) (value e) (src e) (src_idx e)
  | HEnd => e
  end.
(** Whether the headers are complete, and the bytes. *)
Definition encode (n : Z) (e : t) : (bool * bytes) * t :=
  match stage e with
  | HStart => (false, [], check_next e)
  | HEnd => (true, [], e)
  | _ =>
      let '(done, d, i) := data_copy (src e) (src_idx e) n in
      let e := mk (stage e) (into_iter e) (value e) (src e) i in
      (false, d, if done : bool then check_next e else e)
  end.
End EncodeHeaders.

Inductive PartStatus := PStart | PHeaders | PCrlf | PBody | PEnd.
Module MimePartEncoder.
Record t := mk { stage : PartStatus; headers_encode : EncodeHeaders.t; body : option MixFrom.t; src : bytes; src_idx : Z }.
Definition from_part (iter : Headers.t → list (bytes * HeaderValue.t)) (p : MimePart.t) : t :=
  mk PStart (EncodeHeaders.new iter (MimePart.headers p)) (if MixFrom.is_empty (MimePart.body p) then None else Some (MimePart.body p)) [] 0.
Definition check_next (e : t) : t :=
  match stage e with
  | PStart => mk PHeaders (headers_encode e) (body e) [] 0
  | PHeaders => mk PCrlf (headers_encode e) (body e) (match body e with Some _ => CRLF | None => [] end) 0
  | PCrlf => mk PBody (headers_encode e) (body e) (src e) 0
  | PBody => mk PEnd (headers_encode e) (body e) (src e) 0
  | PEnd => mk PEnd (headers_encode e) (body e) [] 0
  end.
Definition set_body (e : t) (b : option MixFrom.t) : t := mk (stage e) (headers_encode e) b (src e) (src_idx e).
(** [headers_encode], [crlf_encode], [body_sync_encode] and [poll_mime_body]. *)
Definition headers_step (n : Z) : M t stop bytes := λ e,
  let '(complete, d, h) := EncodeHeaders.encode n (headers_encode e) in
  let e := mk (stage e) h (body e) (src e) (src_idx e) in
  (Ok d, if complete : bool then check_next e else e).
Definition crlf_step (n : Z) : M t stop bytes := λ e,
  let '(complete, d, i) := data_copy (src e) (src_idx e) n in
  let e := mk (stage e) (headers_encode e) (body e) (src e) i in
  (Ok d, if complete : bool then check_next e else e).
Definition body_step (async : bool) (n : Z) : M t stop bytes := λ e,
  match body e with
  | Some b =>
      match MixFrom.data async n b with
      | (Ok [], b) => (Ok [], check_next (set_body e (Some b)))
      | (r, b) => (r, set_body e (Some b))
      end
  | None => (Ok [], check_next e)
  end.
(** A turn of the loop with room for [n] bytes; [None] when it returns. *)
Definition turn (async : bool) (n : Z) : M t stop (option bytes) := λ e,
  match stage e with
  | PStart => (Ok (Some []), check_next e)
  | PHeaders => some_bytes (headers_step n e)
  | PCrlf => some_bytes (crlf_step n e)
  | PBody => some_bytes (body_step async n e)
  | PEnd => (Ok None, e)
  end.
(** A turn writes a byte or goes to the next stage of the part or of a header. *)
Definition header_rank (e : EncodeHeaders.t) : nat :=
  5 * length (EncodeHeaders.into_iter e) +
  match EncodeHeaders.stage e with HStart => 1 | HName => 5 | HColon => 4 | HValue => 3 | HCrlf => 2 | HEnd => 0 end.
Definition rank (e : t) : nat :=
  match stage e with
  | PStart => 4 + header_rank (headers_encode e)
  | PHeaders => 3 + header_rank (headers_encode e)
  | PCrlf => 2
  | PBody => 1
  | PEnd => 0
  end.
Definition data (async : bool) (n : Z) : M t stop bytes := λ e, fill (turn async) (S (Z.to_nat n + rank e)) n [] e.
End MimePartEncoder.

Module MimeMultiEncoder.
Inductive MultiStage := Crlf | Dash | Boundary (b : bytes) | HeadersStage (h : EncodeHeaders.t) | PartStage (p : MimePartEncoder.t).
Record t := mk { stages : list MultiStage; headers_ : option Headers.t; src_idx : Z; src : bytes }.

Definition first_boundary (b : bytes) : list MultiStage := [Dash; Boundary b; Crlf].
Definition middle_boundary (b : bytes) : list MultiStage := Crlf :: first_boundary b.
Definition end_boundary (b : bytes) : list MultiStage := [Crlf; Dash; Boundary b; Dash; Crlf].
(** The loop of [push_list_to_stages] over what is pushed for each part. *)
Fixpoint push_items (b : bytes) (items : list (list MultiStage)) : list MultiStage :=
  match items with
  | [] => []
  | [x] => x ++ end_boundary b
  | x :: items => x ++ middle_boundary b ++ push_items b items
  end.
Definition push_list (b : bytes) (items : list (list MultiStage)) : list MultiStage :=
  first_boundary b ++ match items with [] => end_boundary b | _ => push_items b items end.
Section Push.
Context (iter : Headers.t → list (bytes * HeaderValue.t)).
(** What is pushed for a part; for a multipart it is [push_multi_as_part]. *)
Fixpoint push_xpart (x : XPart) : list MultiStage :=
  match x with
  | Part p => [PartStage (MimePartEncoder.from_part iter p)]
  | Multi (mk_multi h b l) => [HeadersStage (EncodeHeaders.new iter h); Crlf] ++ push_list b (map push_xpart l)
  end.
Definition push_list_to_stages (b : bytes) (l : list XPart) : list MultiStage := push_list b (map push_xpart l).
Definition from_multi (m : MimeMulti.t) : t := mk (push_list_to_stages (boundary m) (list_ m)) (Some (headers m)) 0 [].
End Push.

Definition set_stages (e : t) (l : list MultiStage) : t := mk l (headers_ e) (src_idx e) (src e).
Definition init_src (e : t) : t := mk (stages e) (headers_ e) 0 [].
Definition temp_src (stage : MultiStage) (e : t) : t :=
  match stage with
  | Crlf => mk (stages e) (headers_ e) (src_idx e) CRLF
  | Dash => mk (stages e) (headers_ e) (src_idx e) (str "--")
  | _ => e
  end.
(** [crlf_encode], [dash_encode] and [boundary_encode], which copy [s] and push [stage] back. *)
Definition copy_step (stage : MultiStage) (s : bytes) (n : Z) : M t stop bytes := λ e,
  let '(complete, d, i) := data_copy s (src_idx e) n in
  let e := mk (stages e) (headers_ e) i (src e) in
  (Ok d, if complete : bool then init_src e else set_stages e (stage :: stages e)).
Definition headers_step (h : EncodeHeaders.t) (n : Z) : M t stop bytes := λ e,
  let '(complete, d, h) := EncodeHeaders.encode n h in
  (Ok d, if complete : bool then init_src e else set_stages e (HeadersStage h :: stages e)).
Definition part_step (async : bool) (p : MimePartEncoder.t) (n : Z) : M t stop bytes := λ e,
  match MimePartEncoder.data async n p with
  | (Ok [], _) => (Ok [], init_src e)
  | (Ok d, p) => (Ok d, set_stages e (PartStage p :: stages e))
  | (r, _) => (r, e)
  end.
Definition turn (async : bool) (n : Z) : M t stop (option bytes) := λ e,
  match stages e with
  | [] => (Ok None, e)
  | stage :: l =>
      let e := temp_src stage (set_stages e l) in
      match stage with
      | Crlf | Dash => some_bytes (copy_step stage (src e) n e)
      | Boundary b => some_bytes (copy_step stage b n e)
      | HeadersStage h => some_bytes (headers_step h n e)
      | PartStage p => some_bytes (part_step async p n e)
      end
  end.
Definition stage_rank (s : MultiStage) : nat := match s with HeadersStage h => S (MimePartEncoder.header_rank h) | _ => 1 end.
Definition data (async : bool) (n : Z) : M t stop bytes := λ e,
  fill (turn async) (S (Z.to_nat n + sum_list_with stage_rank (stages e))) n [] e.
End MimeMultiEncoder.

(** * What is written *)

(** Turns that write what is pending, and get on. *)
Definition turn_ok {S} (pend : S → bytes) (ok : S → Prop) (rank : S → nat) (n : Z) (s : S) (x : res stop (option bytes) * S) : Prop :=
  match x with
  | (Ok None, s') => s' = s ∧ pend s = []
  | (Ok (Some d), s') => ok s' ∧ pend s = d ++ pend s' ∧ len d ≤ n ∧ ((rank s' < rank s)%nat ∨ (rank s' ≤ rank s)%nat ∧ d ≠ [])
  | _ => False
  end.
Section Fill.
Context {S : Type} (turn : Z → M S stop (option bytes)) (pend : S → bytes) (ok : S → Prop) (rank : S → nat).
Context (turn_law : ∀ n s, 0 < n → ok s → turn_ok pend ok rank n s (turn n s)).
Lemma fill_law fuel n got s :
  ok s → len got ≤ n → (Z.to_nat (n - len got) + rank s < fuel)%nat →
  ∃ s', fill turn fuel n got s = (Ok (got ++ upto (n - len got) (pend s)), s') ∧ ok s' ∧ pend s' = from (n - len got) (pend s).
Proof.
  revert got s. induction fuel as [|fuel IH]; intros got s Hs Hlen Hf; [lia|]. cbn [fill]. destruct (Z.eqb_spec (len got) n) as [He|Hne].
  { exists s. rewrite upto_0, from_0, app_nil_r by lia. done. }
  rewrite M_bind_eq. pose proof (turn_law (n - len got) s ltac:(lia) Hs) as Ht. destruct (turn (n - len got) s) as [[[d|]|e|] s1]; [| |done..].
  - destruct Ht as (Hs1 & Hp & Hd & Hr). pose proof (len_nonneg d). destruct (IH (got ++ d) s1) as (s2 & Hf2 & Hs2 & Hp2); [done|rewrite len_app; lia| |].
    + rewrite len_app. destruct Hr as [Hr|[Hr Hne']]; [lia|]. pose proof (len_pos d Hne'). lia.
    + exists s2. rewrite len_app in *. replace (n - (len got + len d)) with (n - len got - len d) in * by lia.
      rewrite Hf2, Hp, upto_app_ge, from_app_ge, <- (assoc_L (++)) by lia. done.
  - destruct Ht as [-> Hp]. exists s. rewrite Hp. unfold upto, from. rewrite take_nil, drop_nil, app_nil_r. done.
Qed.
Lemma fill_all n s : ok s → 0 < n →
  ∃ s', fill turn (Datatypes.S (Z.to_nat n + rank s)) n [] s = (Ok (upto n (pend s)), s') ∧ ok s' ∧ pend s' = from n (pend s).
Proof.
  intros Hs Hn. destruct (fill_law (Datatypes.S (Z.to_nat n + rank s)) n [] s Hs) as (s' & H1 & H2 & H3); change (len []) with 0 in *; [lia|lia|].
  exists s'. rewrite Z.sub_0_r in *. done.
Qed.
End Fill.

Lemma copy_law src i n :
  0 < n → 0 ≤ i ≤ len src →
  let '(complete, d, i') := data_copy src i n in
  from i src = d ++ from i' src ∧ len d ≤ n ∧ 0 ≤ i' ≤ len src ∧ (if complete : bool then from i' src = [] else d ≠ []).
Proof.
  intros Hn Hi. unfold data_copy. assert (Hl : len (upto n (from i src)) = Z.min n (len src - i)) by (rewrite len_upto, len_from by lia; lia).
  rewrite Hl. split; [|split; [lia|split; [lia|]]].
  - rewrite <- (upto_from n (from i src)) at 1. f_equal. destruct (Z.leb_spec n (len src - i)) as [Hle|Hgt].
    + rewrite from_from by lia. f_equal. lia.
    + rewrite !from_all; [done|lia|rewrite len_from by lia; lia].
  - destruct (Z.leb_spec (len src - i) n); [apply from_all; lia|]. intros Hnil. apply (f_equal len) in Hnil. rewrite Hl in Hnil. change (len []) with 0 in Hnil. lia.
Qed.

(** ** Headers *)

Definition header_line (f : bytes * HeaderValue.t) : bytes := f.1 ++ str ":" ++ HeaderValue.to_vec f.2 ++ CRLF.
Definition rest_value (e : EncodeHeaders.t) : bytes := match EncodeHeaders.value e with Some v => HeaderValue.to_vec v | None => [] end.
Definition header_pend (e : EncodeHeaders.t) : bytes :=
  (match EncodeHeaders.stage e with
   | HStart | HEnd => []
   | HName => from (EncodeHeaders.src_idx e) (EncodeHeaders.src e) ++ str ":" ++ rest_value e ++ CRLF
   | HColon => from (EncodeHeaders.src_idx e) (EncodeHeaders.src e) ++ rest_value e ++ CRLF
   | HValue => from (EncodeHeaders.src_idx e) (EncodeHeaders.src e) ++ CRLF
   | HCrlf => from (EncodeHeaders.src_idx e) (EncodeHeaders.src e)
   end) ++ (EncodeHeaders.into_iter e ≫= header_line).
Definition header_ok (e : EncodeHeaders.t) : Prop :=
  match EncodeHeaders.stage e with
  | HStart => True
  | HEnd => EncodeHeaders.into_iter e = []
  | _ => 0 ≤ EncodeHeaders.src_idx e ≤ len (EncodeHeaders.src e)
  end.
Lemma header_law n e :
  0 < n → header_ok e →
  let '(complete, d, e') := EncodeHeaders.encode n e in
  header_ok e' ∧ header_pend e = d ++ header_pend e' ∧ len d ≤ n ∧
  (if complete : bool then header_pend e = [] ∧ d = []
   else (MimePartEncoder.header_rank e' < MimePartEncoder.header_rank e)%nat ∨ (MimePartEncoder.header_rank e' ≤ MimePartEncoder.header_rank e)%nat ∧ d ≠ []).
Proof.
  intros Hn Hok. destruct e as [st l v src i]. unfold EncodeHeaders.encode, header_ok, header_pend, MimePartEncoder.header_rank, rest_value in *. cbn [EncodeHeaders.stage EncodeHeaders.into_iter EncodeHeaders.value EncodeHeaders.src EncodeHeaders.src_idx] in *.
  destruct st.
  1: { destruct l as [|[name v'] l]; cbn -[len Nat.mul CRLF]; change (len []) with 0; (split; [try (pose proof (len_nonneg name); lia); done|]); [split; [done|split; [lia|left; lia]]|].
       rewrite from_0 by lia. unfold header_line. cbn [fst snd]. split; [by rewrite <- !(assoc_L (++))|]. split; [lia|left; lia]. }
  5: { subst l. cbn -[len]. change (len []) with 0. split; [done|split; [done|split; [lia|done]]]. }
  all: pose proof (copy_law src i n Hn Hok) as Hc; destruct (data_copy src i n) as [[complete d] i']; destruct Hc as (Hd & Hle & Hi' & Hc).
  all: destruct complete; cbn -[CRLF len Nat.mul str].
  all: split; [first [done|split; [lia|apply len_nonneg]]|].
  all: split; [rewrite Hd, ?Hc, ?from_0, ?app_nil_r by lia; rewrite <- ?(assoc_L (++)); done|]; split; [done|].
  all: first [left; lia|right; split; [lia|done]].
Qed.

(** ** Parts *)

Definition event_data (e : read_event) : bytes := match e with RData d => d | _ => [] end.
(** A reader that delivers. *)
Definition delivers (l : list read_event) : Prop := Forall (λ e, match e with RData d => d ≠ [] | _ => False end) l.
Definition mix_rest (m : MixFrom.t) : bytes :=
  match m with
  | MixFrom.Owned b i | MixFrom.Slice b i => from i b
  | MixFrom.Reader l | MixFrom.AsyncReader l => l ≫= event_data
  end.
Definition mix_ok (async : bool) (m : MixFrom.t) : Prop :=
  match m with
  | MixFrom.Owned b i | MixFrom.Slice b i => 0 ≤ i ≤ len b
  | MixFrom.Reader l => async = false ∧ delivers l
  | MixFrom.AsyncReader l => async = true ∧ delivers l
  end.
Lemma read_law n l :
  0 < n → delivers l → ∃ d l', read n l = (Ok d, l') ∧ delivers l' ∧ l ≫= event_data = d ++ (l' ≫= event_data) ∧ len d ≤ n ∧ (d = [] → l = []).
Proof.
  intros Hn Hl. destruct Hl as [|[|d|] l Hd Hl]; [|done| |done]; cbn [read].
  - exists [], []. change (len []) with 0. split; [done|]. split; [constructor|]. split; [done|]. split; [lia|done].
  - destruct (Z.leb_spec (len d) n) as [Hle|Hgt].
    + by exists d, l.
    + exists (upto n d), (RData (from n d) :: l). split; [done|]. split.
      * constructor; [|done]. intros Hnil. apply (f_equal len) in Hnil. rewrite len_from in Hnil by lia. change (len []) with 0 in Hnil. lia.
      * rewrite !bind_cons. cbn [event_data]. rewrite (assoc_L (++)), upto_from. split; [done|]. split; [rewrite len_upto by lia; lia|].
        intros Hnil. apply (f_equal len) in Hnil. rewrite len_upto in Hnil by lia. change (len []) with 0 in Hnil. lia.
Qed.
Lemma mix_law async n m :
  0 < n → mix_ok async m →
  ∃ d m', MixFrom.data async n m = (Ok d, m') ∧ mix_ok async m' ∧ mix_rest m = d ++ mix_rest m' ∧ len d ≤ n ∧ (d = [] → mix_rest m = []).
Proof.
  intros Hn Hm. unfold MixFrom.data. destruct (Z.eqb_spec n 0); [lia|].
  destruct m as [b i|b i|l|l]; cbn [mix_ok] in Hm; [| |destruct Hm as [-> Hl]|destruct Hm as [-> Hl]].
  1, 2: unfold MixFrom.owned_encode, MixFrom.bytes_encode; pose proof (copy_law b i n Hn Hm) as Hc; destruct (data_copy b i n) as [[complete d] i'];
    destruct Hc as (Hd & Hle & Hi' & Hc); eexists d, _; (split; [done|]); (split; [done|]); (split; [done|]); (split; [done|]);
    intros ->; cbn [mix_rest]; rewrite Hd; by destruct complete; [rewrite Hc|].
  all: unfold MixFrom.read_encode; destruct (read_law n l Hn Hl) as (d & l' & -> & Hl' & Hd & Hle & Hnil); eexists d, _; (split; [done|]);
    (split; [done|]); (split; [done|]); (split; [done|]); intros H0; by rewrite (Hnil H0).
Qed.

Module E := MimePartEncoder.
Definition body_pend (e : E.t) : bytes := match E.body e with Some m => mix_rest m | None => [] end.
Definition part_pend (e : E.t) : bytes :=
  match E.stage e with
  | PStart | PHeaders => header_pend (E.headers_encode e) ++ match E.body e with Some m => CRLF ++ mix_rest m | None => [] end
  | PCrlf => from (E.src_idx e) (E.src e) ++ body_pend e
  | PBody => body_pend e
  | PEnd => []
  end.
Definition part_ok (async : bool) (e : E.t) : Prop :=
  header_ok (E.headers_encode e) ∧ (match E.body e with Some m => mix_ok async m | None => True end) ∧
  (E.stage e = PCrlf → 0 ≤ E.src_idx e ≤ len (E.src e)).
Lemma part_turn_law async n e : 0 < n → part_ok async e → turn_ok part_pend (part_ok async) E.rank n e (E.turn async n e).
Proof.
  intros Hn (Hh & Hb & Hc). destruct e as [st h b src i]. unfold E.turn, part_pend, part_ok, body_pend, E.rank in *. cbn [E.stage E.headers_encode E.body E.src E.src_idx] in *. destruct st.
  - cbn -[len CRLF]. change (len []) with 0. split; [done|]. split; [done|]. split; [lia|left; lia].
  - unfold E.headers_step. cbn [E.headers_encode]. pose proof (header_law n h Hn Hh) as Hl. destruct (EncodeHeaders.encode n h) as [[complete d] h']. destruct Hl as (Hh' & Hp & Hle & Hl).
    destruct complete; cbn -[len CRLF mix_rest MimePartEncoder.header_rank].
    + destruct Hl as [Hnil ->]. rewrite Hnil. change (len []) with 0. split; [|split; [|split; [lia|left; lia]]].
      * split; [done|]. split; [done|]. intros _. split; [lia|apply len_nonneg].
      * rewrite from_0 by lia. by destruct b.
    + rewrite Hp. split; [done|]. split; [by rewrite <- (assoc_L (++))|]. split; [done|]. destruct Hl as [Hl|[Hl ?]]; [left; lia|right; split; [lia|done]].
  - unfold E.crlf_step. cbn [E.src E.src_idx]. pose proof (copy_law src i n Hn (Hc eq_refl)) as Hl. destruct (data_copy src i n) as [[complete d] i']. destruct Hl as (Hd & Hle & Hi' & Hl).
    destruct complete; cbn -[len CRLF mix_rest]; rewrite Hd.
    + rewrite Hl, app_nil_r. split; [done|]. split; [done|]. split; [done|left; lia].
    + split; [done|]. split; [by rewrite <- (assoc_L (++))|]. split; [done|right; split; [lia|done]].
  - unfold E.body_step. cbn [E.body]. destruct b as [m|].
    + destruct (mix_law async n m Hn Hb) as (d & m' & -> & Hm' & Hd & Hle & Hnil). destruct d as [|x d]; cbn -[len CRLF mix_rest]; change (len []) with 0.
      * rewrite (Hnil eq_refl). split; [done|]. split; [done|]. split; [lia|left; lia].
      * rewrite Hd. split; [done|]. split; [done|]. split; [done|right; split; [lia|done]].
    + cbn -[len]. change (len []) with 0. split; [done|]. split; [done|]. split; [lia|left; lia].
  - done.
Qed.
Lemma part_data_law async n e :
  part_ok async e → 0 < n → ∃ e', E.data async n e = (Ok (upto n (part_pend e)), e') ∧ part_ok async e' ∧ part_pend e' = from n (part_pend e).
Proof. apply (fill_all (E.turn async) part_pend (part_ok async) E.rank). intros k s. apply part_turn_law. Qed.

(** ** Multiparts *)

Import MimeMultiEncoder.
Definition stage_text (s : MultiStage) : bytes :=
  match s with
  | Crlf => CRLF
  | Dash => str "--"
  | Boundary b => b
  | HeadersStage h => header_pend h
  | PartStage p => part_pend p
  end.
Definition stage_ok (async : bool) (s : MultiStage) : Prop :=
  match s with HeadersStage h => header_ok h | PartStage p => part_ok async p | _ => True end.
Definition multi_pend (e : t) : bytes := from (src_idx e) (stages e ≫= stage_text).
Definition multi_ok (async : bool) (e : t) : Prop :=
  Forall (stage_ok async) (stages e) ∧
  match stages e with (Crlf | Dash | Boundary _) as s :: _ => 0 ≤ src_idx e ≤ len (stage_text s) | _ => src_idx e = 0 end.
Lemma fresh_idx async l : Forall (stage_ok async) l → multi_ok async (mk l None 0 []).
Proof. intros Hl. split; [done|]. destruct l as [|[] l]; cbn -[len str CRLF]; try done; (split; [lia|apply len_nonneg]). Qed.
Lemma multi_turn_law async n e :
  0 < n → multi_ok async e → turn_ok multi_pend (multi_ok async) (λ e, sum_list_with stage_rank (stages e)) n e (turn async n e).
Proof.
  intros Hn [Hs Hi]. destruct e as [l h i s]. unfold turn, multi_pend in *. cbn [stages src_idx] in *. destruct l as [|st l].
  { cbn in Hi. subst i. done. }
  inversion_clear Hs as [|?? Hst Hl]. assert (Hend : ∀ h, multi_ok async (mk l h 0 [])) by (intros h0; exact (fresh_idx async l Hl)).
  assert (Hcopy : ∀ s', match st with Crlf | Dash | Boundary _ => 0 ≤ i ≤ len (stage_text st) | _ => False end →
    turn_ok multi_pend (multi_ok async) (λ e, sum_list_with stage_rank (stages e)) n (mk (st :: l) h i s) (some_bytes (copy_step st (stage_text st) n (mk l h i s')))).
  { intros s' Hi'. assert (Hi0 : 0 ≤ i ≤ len (stage_text st)) by (by destruct st). unfold copy_step. cbn [src_idx stages headers_ src].
    pose proof (copy_law (stage_text st) i n Hn Hi0) as Hc. destruct (data_copy (stage_text st) i n) as [[complete d] i']. destruct Hc as (Hd & Hle & Hi2 & Hc).
    unfold turn_ok, some_bytes, multi_pend. cbn [fst snd fmap res_fmap stages src_idx]. rewrite bind_cons, from_app_le, Hd by lia. destruct complete; cbn [stages src_idx init_src set_stages].
    - rewrite Hc, app_nil_r, from_0 by lia. split; [apply Hend|]. split; [done|]. split; [done|left; cbn; destruct st; cbn; lia].
    - split; [|split; [|split; [done|right; split; [cbn; lia|done]]]].
      + split; [by constructor|]. cbn [stages src_idx]. destruct st; done.
      + cbn [stages]. rewrite bind_cons, from_app_le by lia. by rewrite <- (assoc_L (++)). }
  destruct st as [| |b|hd|p]; cbn [temp_src set_stages]; [by apply Hcopy..| |]; clear Hcopy; cbn [stages src_idx headers_ src].
  - subst i. unfold headers_step. pose proof (header_law n hd Hn Hst) as Hp. destruct (EncodeHeaders.encode n hd) as [[complete d] hd']. destruct Hp as (Hh & Hp & Hle & Hc).
    unfold turn_ok, some_bytes, multi_pend. cbn [fst snd fmap res_fmap stages src_idx]. destruct complete; cbn [stages src_idx init_src set_stages]; rewrite !from_0, !bind_cons by lia; cbn [stage_text].
    + destruct Hc as [Hnil ->]. rewrite Hnil. change (len []) with 0. split; [apply Hend|]. split; [done|]. split; [lia|left; cbn; lia].
    + rewrite Hp. split; [split; [by constructor|done]|]. split; [by rewrite <- (assoc_L (++))|]. split; [done|].
      destruct Hc as [Hc|[Hc ?]]; [left; cbn [sum_list_with stage_rank]; lia|right; split; [cbn [sum_list_with stage_rank]; lia|done]].
  - subst i. unfold part_step. destruct (part_data_law async n p Hst Hn) as (p' & Hd & Hp' & Hpend). rewrite Hd. unfold turn_ok, some_bytes, multi_pend.
    destruct (upto n (part_pend p)) as [|x d] eqn:Hu; cbn [fst snd fmap res_fmap stages src_idx init_src set_stages]; rewrite !from_0, !bind_cons by lia; cbn [stage_text].
    + assert (Hnil : part_pend p = []). { apply (f_equal len) in Hu. rewrite len_upto in Hu by lia. change (len []) with 0 in Hu. apply len_0_nil. pose proof (len_nonneg (part_pend p)). lia. }
      rewrite Hnil. change (len []) with 0. split; [apply Hend|]. split; [done|]. split; [lia|left; cbn; lia].
    + split; [split; [by constructor|done]|]. rewrite (assoc_L (++)), Hpend, <- Hu, upto_from. split; [done|]. split; [rewrite len_upto by lia; lia|]. right. split; [cbn; lia|by rewrite Hu].
Qed.
#[export] Instance multi_pull async : PullEncoder (data async).
Proof.
  refine {| pending := multi_pend; pull_ok := multi_ok async |}. intros n e He Hn.
  apply (fill_all (turn async) multi_pend (multi_ok async) (λ e, sum_list_with stage_rank (stages e))); [|done..]. intros k s. apply multi_turn_law.
Defined.

(** ** The message *)

Section XPartInd.
Context (P : XPart → Prop) (Hpart : ∀ p, P (Part p)) (Hmulti : ∀ h b l, Forall P l → P (Multi (mk_multi h b l))).
Fixpoint xpart_ind (x : XPart) : P x :=
  match x with
  | Part p => Hpart p
  | Multi (mk_multi h b l) => Hmulti h b l ((fix go (l : list XPart) : Forall P l := match l with [] => Forall_nil_2 P | x :: l => Forall_cons_2 P x l (xpart_ind x) (go l) end) l)
  end.
End XPartInd.

(** The parts of an entity, at any depth. *)
Fixpoint xparts (x : XPart) : list MimePart.t :=
  match x with Part p => [p] | Multi (mk_multi _ _ l) => concat (map xparts l) end.
Definition multi_parts (m : MimeMulti.t) : list MimePart.t := concat (map xparts (list_ m)).

Definition first_wire (b : bytes) : bytes := str "--" ++ b ++ CRLF.
Definition middle_wire (b : bytes) : bytes := CRLF ++ first_wire b.
Definition end_wire (b : bytes) : bytes := CRLF ++ str "--" ++ b ++ str "--" ++ CRLF.
Fixpoint items_wire (b : bytes) (items : list bytes) : bytes :=
  match items with
  | [] => []
  | [x] => x ++ end_wire b
  | x :: items => x ++ middle_wire b ++ items_wire b items
  end.
Definition list_wire (b : bytes) (items : list bytes) : bytes :=
  first_wire b ++ match items with [] => end_wire b | _ => items_wire b items end.
Section Wire.
Context (iter : Headers.t → list (bytes * HeaderValue.t)).
Definition headers_wire (h : Headers.t) : bytes := iter h ≫= header_line.
Definition part_wire (p : MimePart.t) : bytes :=
  headers_wire (MimePart.headers p) ++ if MixFrom.is_empty (MimePart.body p) then [] else CRLF ++ mix_rest (MimePart.body p).
Fixpoint xpart_wire (x : XPart) : bytes :=
  match x with
  | Part p => part_wire p
  | Multi (mk_multi h b l) => headers_wire h ++ CRLF ++ list_wire b (map xpart_wire l)
  end.
Definition multi_wire (m : MimeMulti.t) : bytes := list_wire (boundary m) (map xpart_wire (list_ m)).

Lemma first_text b : first_boundary b ≫= stage_text = first_wire b.
Proof. cbn [first_boundary mbind list_bind stage_text]. by rewrite app_nil_r. Qed.
Lemma middle_text b : middle_boundary b ≫= stage_text = middle_wire b.
Proof. unfold middle_boundary. rewrite bind_cons, first_text. done. Qed.
Lemma end_text b : end_boundary b ≫= stage_text = end_wire b.
Proof. cbn [end_boundary mbind list_bind stage_text]. by rewrite app_nil_r. Qed.
Lemma push_list_text b items : push_list b items ≫= stage_text = list_wire b (map (λ x, x ≫= stage_text) items).
Proof.
  unfold push_list, list_wire. rewrite bind_app, first_text. f_equal. destruct items as [|x items]; [apply end_text|]. cbn [map]. revert x.
  induction items as [|y items IH]; intros x; cbn [push_items items_wire map]; [by rewrite bind_app, end_text|].
  rewrite !bind_app, middle_text. do 2 f_equal. apply (IH y).
Qed.
Lemma push_xpart_text x : push_xpart iter x ≫= stage_text = xpart_wire x.
Proof.
  induction x as [p|h b l IH] using xpart_ind; cbn [push_xpart xpart_wire].
  - rewrite bind_cons, app_nil_r. cbn [stage_text]. unfold part_pend, E.from_part, part_wire. cbn [E.stage E.headers_encode E.body]. f_equal. by destruct (MixFrom.is_empty _).
  - rewrite bind_app, push_list_text, map_map. cbn [mbind list_bind stage_text]. rewrite app_nil_r, <- (assoc_L (++)). do 3 f_equal.
    induction IH as [|x l Hx _ IHl]; [done|]. cbn [map]. by rewrite Hx, IHl.
Qed.
Lemma items_ok async b items : Forall (Forall (stage_ok async)) items → Forall (stage_ok async) (push_list b items).
Proof.
  intros Hi. unfold push_list. apply Forall_app. split; [by repeat constructor|]. destruct items as [|x items]; [by repeat constructor|].
  revert x Hi. induction items as [|y items IH]; intros x Hi; inversion_clear Hi as [|?? Hx Hi']; cbn [push_items].
  - apply Forall_app. split; [done|by repeat constructor].
  - apply Forall_app. split; [done|]. apply Forall_app. split; [by repeat constructor|by apply IH].
Qed.
Lemma push_xpart_ok async x : Forall (λ p, mix_ok async (MimePart.body p)) (xparts x) → Forall (stage_ok async) (push_xpart iter x).
Proof.
  induction x as [p|h b l IH] using xpart_ind; cbn [xparts push_xpart]; intros Hp.
  - inversion_clear Hp as [|?? Hb _]. constructor; [|constructor]. cbn [stage_ok]. unfold part_ok, E.from_part. cbn [E.headers_encode E.body E.stage]. split; [done|]. 
    split; [|done]. destruct (MixFrom.is_empty _); done.
  - apply Forall_app. split; [by repeat constructor|]. apply items_ok. induction IH as [|x l Hx _ IHl]; [constructor|]. cbn [map concat] in *. apply Forall_app in Hp as [Hp1 Hp2].
    constructor; [by apply Hx|by apply IHl].
Qed.

(** What a new encoder has to write. *)
Lemma from_multi_pending async m :
  Forall (λ p, mix_ok async (MimePart.body p)) (multi_parts m) → multi_ok async (from_multi iter m) ∧ multi_pend (from_multi iter m) = multi_wire m.
Proof.
  intros Hm. split.
  - apply (fresh_idx async (push_list_to_stages iter (boundary m) (list_ m))). apply items_ok. unfold multi_parts in Hm. induction (list_ m) as [|x l IH]; [constructor|].
    cbn [map concat] in *. apply Forall_app in Hm as [H1 H2]. constructor; [by apply push_xpart_ok|by apply IH].
  - unfold multi_pend, from_multi, push_list_to_stages. cbn [src_idx stages]. rewrite from_0, push_list_text, map_map by lia. unfold multi_wire. f_equal. apply map_ext. apply push_xpart_text.
Qed.

(** C24: The encoder of multiparts writes the message: the parts of a multipart and those
    nested in it at any depth, with their headers in the order in which the maps are walked
    and their bodies from memory or from readers, between the boundaries of RFC 2046; any
    calls with non-empty buffers of any sizes give exactly this message, cut at those sizes.
    Conditions: every reader delivers non-empty pieces up to its end, with no error and
    never pending (a part or its headers are lost there: [pending_loses_part] and
    [pending_loses_headers] of [MimeRoundtrip]), and is read by the calls of its kind,
    synchronous or not. *)
Theorem mime_encode_message async m ns :
  Forall (λ n, 0 < n) ns → Forall (λ p, mix_ok async (MimePart.body p)) (multi_parts m) →
  ∃ e, calls (data async) ns (from_multi iter m) = (Ok (cut ns (multi_wire m)), e).
Proof.
  intros Hns Hm. destruct (from_multi_pending async m Hm) as [Hok Hpend].
  destruct (@calls_cut _ _ (data async) (multi_pull async) ns (from_multi iter m) Hok Hns) as (e & He & _). exists e. by rewrite He, <- Hpend.
Qed.
End Wire.

Lemma mime_encode_message_witness :
  let m := mk_multi Headers.new (str "b") [Part (MimePart.mk Headers.new (MixFrom.Reader [RData (str "one"); RData (str "two")])); Multi (mk_multi Headers.new (str "c") [Part (MimePart.mk Headers.new (MixFrom.Owned (str "x") 0))])] in
  ∃ e, calls (data false) [3; 40; 100] (from_multi (λ h, map_to_list (Headers.map h)) m) =
    (Ok (cut [3; 40; 100] (str "--b" ++ CRLF ++ CRLF ++ str "onetwo" ++ CRLF ++ str "--b" ++ CRLF ++ CRLF ++ str "--c" ++ CRLF ++ CRLF ++ str "x" ++ CRLF ++ str "--c--" ++ CRLF ++ CRLF ++ str "--b--" ++ CRLF)), e).
Proof.
  intros m. set (w := _ ++ CRLF ++ _). assert (Hw : multi_wire (λ h, map_to_list (Headers.map h)) m = w) by (by vm_compute). rewrite <- Hw.
  apply (mime_encode_message (λ h, map_to_list (Headers.map h)) false m [3; 40; 100]); [by repeat constructor|].
  unfold m, multi_parts. cbn [list_ map xparts concat app]. apply Forall_cons_2; [|apply Forall_cons_2; [|apply Forall_nil_2]]; cbn; [split; [done|by repeat constructor]|done].
Defined.
