(* ===== verification/MimeDecoder.v ===== *)
(** Decoders of MIME entities ([ylong_http/src/body/mime/decode],
    [body/mime/common/headers.rs]): headers, parts and nested multiparts, resumable between
    segments of the input.

    A method that returns what is left of [buf] returns it as its result.  A stack kept in
    a [Vec] is a list with its top in front. *)
From S2P Require Import Prelude Buffers Headers Mime.

(** * Headers *)

Module DecodeHeaders.
Record t := mk { stage : HeaderStatus; name_src : bytes; src : bytes; headers : Headers.t }.
Definition new : t := mk HStart [] [] Headers.new.
Definition set_stage (d : t) (s : HeaderStatus) : t := mk s (name_src d) (src d) (headers d).
Definition set_src (d : t) (s : bytes) : t := mk (stage d) (name_src d) s (headers d).
Definition check_next (d : t) : t :=
  match stage d with
  | HStart => set_stage d HName
  | HName => set_stage d HValue
  | HValue => set_stage d HCrlf
  | HCrlf => set_src (set_stage d HStart) []
  | HColon | HEnd => d
  end.
Definition is_cr_meet (d : t) : bool := match src d with [c] => c =? 13 | _ => false end.
Definition trim_first (d : t) (buf : bytes) : bytes := match src d with [] => trim_front_lwsp buf | _ => buf end.

(** [buf[0]] panics when nothing but white space is left. *)
Definition start_decode (buf : bytes) : M t HttpError bytes := λ d,
  let cr_meet := is_cr_meet d in
  match trim_first d buf with
  | [] => (Panic, d)
  | b :: rest =>
      if b =? 13 then
        if cr_meet then (Err InvalidInput, d)
        else match rest with
             | [] => (Ok [], set_src d (src d ++ [13]))
             | c :: rest => if c =? 10 then (Ok rest, set_stage d HEnd) else (Err InvalidInput, d)
             end
      else if b =? 10 then (Ok rest, set_stage d HEnd)
      else if cr_meet then (Err InvalidInput, d)
      else (Ok (b :: rest), check_next d)
  end.
Definition crlf_decode (buf : bytes) : M t HttpError bytes := λ d,
  match consume_crlf buf (is_cr_meet d) with
  | Ok (Partial _) => (Ok [], d)
  | Ok (Complete unparsed) => (Ok unparsed, check_next d)
  | Err e => (Err e, d)
  | Panic => (Panic, d)
  end.

(** The loops of [get_header_name] and [get_header_value]. *)
Fixpoint get_header_name (buf : bytes) : res HttpError (TokenStatus (bytes * bytes) bytes) :=
  match buf with
  | [] => Ok (Partial [])
  | b :: rest =>
      if b =? 58 then Ok (Complete ([], rest))
      else if negb (default false (HEADER_NAME_BYTES !! Z.to_nat b)) then Err InvalidInput
      else match get_header_name rest with
           | Ok (Complete (src, unparsed)) => Ok (Complete (b :: src, unparsed))
           | Ok (Partial _) => Ok (Partial buf)
           | Err e => Err e
           | Panic => Panic
           end
  end.
Fixpoint get_header_value (buf : bytes) : res HttpError (TokenStatus (bytes * bytes) bytes) :=
  match buf with
  | [] => Ok (Partial [])
  | b :: rest =>
      if (b =? 13) || (b =? 10) then Ok (Complete ([], buf))
      else if negb (default false (HEADER_VALUE_BYTES !! Z.to_nat b)) then Err InvalidInput
      else match get_header_value rest with
           | Ok (Complete (src, unparsed)) => Ok (Complete (b :: src, unparsed))
           | Ok (Partial _) => Ok (Partial buf)
           | Err e => Err e
           | Panic => Panic
           end
  end.
Definition name_decode (buf : bytes) : M t HttpError bytes := λ d,
  match get_header_name (trim_first d buf) with
  | Ok (Partial unparsed) => (Ok [], set_src d (src d ++ unparsed))
  | Ok (Complete (s, unparsed)) => (Ok unparsed, check_next (mk (stage d) (src d ++ s) [] (headers d)))
  | Err e => (Err e, d)
  | Panic => (Panic, d)
  end.
Definition value_decode (buf : bytes) : M t HttpError bytes := λ d,
  match get_header_value (trim_first d buf) with
  | Ok (Partial unparsed) => (Ok [], set_src d (src d ++ unparsed))
  | Ok (Complete (s, unparsed)) =>
      match Headers.insert (headers d) (trim_front_lwsp (name_src d)) (trim_front_lwsp (src d ++ s)) with
      | Ok (_, h) => (Ok unparsed, check_next (mk (stage d) [] [] h))
      | Err e => (Err e, mk (stage d) [] [] (headers d))
      | Panic => (Panic, mk (stage d) [] [] (headers d))
      end
  | Err e => (Err e, d)
  | Panic => (Panic, d)
  end.
Definition step (remains : bytes) (d : t) : res HttpError bytes * t :=
  match stage d with
  | HStart => start_decode remains d
  | HName => name_decode remains d
  | HValue => value_decode remains d
  | HCrlf => crlf_decode remains d
  | HColon | HEnd => (Ok remains, d)
  end.
Definition is_end (d : t) : bool := match stage d with HEnd => true | _ => false end.
Fixpoint decode_loop (fuel : nat) (remains : bytes) (d : t) : res HttpError (TokenStatus Headers.t () * bytes) * t :=
  match fuel with
  | O => (Panic, d)
  | S fuel =>
      if is_end d then (Ok (Complete (headers d), remains), mk (stage d) (name_src d) (src d) Headers.new)
      else match step remains d with
      | (Ok rest, d) =>
          if match rest with [] => negb (is_end d) | _ => false end then (Ok (Partial (), []), d) else decode_loop fuel rest d
      | (Err e, d) => (Err e, d)
      | (Panic, d) => (Panic, d)
      end
  end.
(** Two turns at most do not take a byte, one after the other. *)
Definition decode_fuel (buf : bytes) : nat := 2 * length buf + 3.
Definition decode (buf : bytes) (d : t) : res HttpError (TokenStatus Headers.t () * bytes) * t :=
  match buf with [] => (Err InvalidInput, d) | _ => decode_loop (decode_fuel buf) buf d end.
End DecodeHeaders.

(** * Parts *)

Inductive BoundaryTag := TInit | TFirst | TMiddle | TEnd.
Definition deriv_boundary (b : bytes) : bytes := str "--" ++ b.
Module MimePartDecoder.
Record t := mk { stage : PartStatus; headers_decoder : DecodeHeaders.t; part : MimePart.t; boundary : bytes; tag : BoundaryTag; src_idx : Z }.
Definition new : t := mk PStart DecodeHeaders.new MimePart.new (str "-") TInit 0.
Definition init_from_multi (headers : Headers.t) (boundary : bytes) : t :=
  mk PBody DecodeHeaders.new (MimePart.set_headers MimePart.new headers) boundary TInit 0.
Definition set_boundary (d : t) (b : bytes) : t := mk (stage d) (headers_decoder d) (part d) b (tag d) (src_idx d).
Definition set_part (d : t) (p : MimePart.t) : t := mk (stage d) (headers_decoder d) p (boundary d) (tag d) (src_idx d).
Definition set_stage (d : t) (s : PartStatus) : t := mk s (headers_decoder d) (part d) (boundary d) (tag d) (src_idx d).

Definition start_decode (buf : bytes) : M t HttpError bytes := λ d, (Ok (trim_front_lwsp buf), set_stage d PHeaders).
Definition headers_decode (buf : bytes) : M t HttpError bytes := λ d,
  match DecodeHeaders.decode buf (headers_decoder d) with
  | (Ok (Complete h, rest), hd) => (Ok rest, mk PBody hd (MimePart.set_headers (part d) h) (boundary d) (tag d) (src_idx d))
  | (Ok (Partial _, rest), hd) => (Ok rest, mk (stage d) hd (part d) (boundary d) (tag d) (src_idx d))
  | (Err e, hd) => (Err e, mk (stage d) hd (part d) (boundary d) (tag d) (src_idx d))
  | (Panic, hd) => (Panic, mk (stage d) hd (part d) (boundary d) (tag d) (src_idx d))
  end.
Definition when_is_end (tag : BoundaryTag) (d : t) : t :=
  mk PEnd (headers_decoder d) (MimePart.body_trim_crlf_once (MimePart.body_truncate (part d) (src_idx d))) (boundary d) tag (src_idx d).
Definition body_decode (buf : bytes) : M t HttpError bytes := λ d,
  match get_crlf_contain buf with
  | Partial unparsed => (Ok [], set_part d (MimePart.body_extend_from_slice (part d) unparsed))
  | Complete (src, unparsed) =>
      let d := set_part d (MimePart.body_extend_from_slice (part d) src) in
      match MimePart.body_owned (part d) with
      | None => (Err InvalidInput, d)
      | Some body =>
          let trim_line := trim_back_lwsp_if_end_with_lf (from (src_idx d) body) in
          if bool_decide (trim_line = deriv_boundary (boundary d)) then (Ok unparsed, when_is_end TMiddle d)
          else if bool_decide (trim_line = deriv_boundary (boundary d) ++ str "--") then (Ok unparsed, when_is_end TEnd d)
          else (Ok unparsed, mk (stage d) (headers_decoder d) (part d) (boundary d) (tag d) (len body))
      end
  end.
Definition step (remains : bytes) (d : t) : res HttpError bytes * t :=
  match stage d with
  | PStart => start_decode remains d
  | PHeaders => headers_decode remains d
  | PBody => body_decode remains d
  | PCrlf | PEnd => (Ok remains, d)
  end.
Definition is_end (d : t) : bool := match stage d with PEnd => true | _ => false end.
Fixpoint decode_loop (fuel : nat) (remains : bytes) (d : t) : res HttpError (TokenStatus MimePart.t () * bytes) * t :=
  match fuel with
  | O => (Panic, d)
  | S fuel =>
      if is_end d then (Ok (Complete (part d), remains), set_part d MimePart.new)
      else match step remains d with
      | (Ok rest, d) =>
          if match rest with [] => negb (is_end d) | _ => false end then (Ok (Partial (), []), d) else decode_loop fuel rest d
      | (Err e, d) => (Err e, d)
      | (Panic, d) => (Panic, d)
      end
  end.
(** Every turn but those of the first two stages takes a byte. *)
Definition decode_fuel (buf : bytes) : nat := length buf + 4.
Definition decode (buf : bytes) (d : t) : res HttpError (TokenStatus MimePart.t () * bytes) * t :=
  match buf with [] => (Err InvalidInput, d) | _ => decode_loop (decode_fuel buf) buf d end.
Definition is_last_part (d : t) : bool := match tag d with TEnd => true | _ => false end.
End MimePartDecoder.

(** * Multiparts *)

(** [str::trim]: the characters of Unicode's White_Space in UTF-8. *)
Definition white_space : list bytes :=
  [[9]; [10]; [11]; [12]; [13]; [32]; [194; 133]; [194; 160]; [225; 154; 128]] ++ ((λ k, [226; 128; 128 + Z.of_nat k]) <$> seq 0 11) ++
  [[226; 128; 168]; [226; 128; 169]; [226; 128; 175]; [226; 129; 159]; [227; 128; 128]].
Fixpoint trim_seqs (seqs : list bytes) (fuel : nat) (l : bytes) : bytes :=
  match fuel with
  | O => l
  | S fuel => match list_find (λ w, starts_with w l) seqs with Some (_, w) => trim_seqs seqs fuel (from (len w) l) | None => l end
  end.
Definition str_trim_start (l : bytes) : bytes := trim_seqs white_space (length l) l.
Definition str_trim_end (l : bytes) : bytes := reverse (trim_seqs (reverse <$> white_space) (length l) (reverse l)).
Definition str_trim (l : bytes) : bytes := str_trim_end (str_trim_start l).

Module DecodeData.
Record t := mk { is_finish_first_boundary : bool; is_outermost : bool; boundary : bytes; tag : BoundaryTag; src : bytes; src_idx : Z }.
Definition new : t := mk false true [] TInit [] 0.
Definition new_as_part (b : bytes) : t := mk false false b TInit [] 0.
Definition set_src (d : t) (s : bytes) (i : Z) : t := mk (is_finish_first_boundary d) (is_outermost d) (boundary d) (tag d) s i.
Definition when_is_first_boundary (d : t) : t := mk true (is_outermost d) (boundary d) TFirst [] 0.
Definition end_with (tag : BoundaryTag) (d : t) : t := mk (is_finish_first_boundary d) (is_outermost d) (boundary d) tag [] 0.
Definition outermost_first_boundary (buf : bytes) (d : t) : TokenStatus (bytes * bytes) bytes * t :=
  match get_crlf_contain buf with
  | Partial unparsed => (Partial [], set_src d (src d ++ unparsed) (src_idx d))
  | Complete (s, unparsed) =>
      let line := str_trim (src d ++ s) in
      if starts_with (str "--") line then
        let b := from 2 line in
        (Complete (b, unparsed), when_is_first_boundary (mk (is_finish_first_boundary d) (is_outermost d) b (tag d) (src d ++ s) (src_idx d)))
      else (Partial [], set_src d [] 0)
  end.
Definition inner_first_boundary (buf : bytes) (d : t) : TokenStatus bytes bytes * t :=
  match get_crlf_contain buf with
  | Partial unparsed => (Partial [], set_src d (src d ++ unparsed) (src_idx d))
  | Complete (s, unparsed) =>
      let all := src d ++ s in
      if bool_decide (trim_back_lwsp_if_end_with_lf (from (src_idx d) all) = deriv_boundary (boundary d)) then
        (Complete unparsed, when_is_first_boundary (set_src d all (src_idx d)))
      else (Partial unparsed, set_src d all (len all))
  end.
Definition middle_or_end_boundary (buf : bytes) (d : t) : TokenStatus bytes bytes * t :=
  match get_crlf_contain buf with
  | Partial unparsed => (Partial [], set_src d (src d ++ unparsed) (src_idx d))
  | Complete (s, unparsed) =>
      let all := src d ++ s in
      let trim_line := trim_back_lwsp_if_end_with_lf (from (src_idx d) all) in
      if bool_decide (trim_line = deriv_boundary (boundary d)) then (Complete unparsed, end_with TMiddle d)
      else if bool_decide (trim_line = deriv_boundary (boundary d) ++ str "--") then (Complete unparsed, end_with TEnd d)
      else (Partial unparsed, set_src d all (len all))
  end.
End DecodeData.

Module MimeMultiDecoder.
Inductive MultiStage := Unknown (h : DecodeHeaders.t) | PartOf (p : MimePartDecoder.t) | MultiOf (d : DecodeData.t) | End_.
Record t := mk { stages : list MultiStage; multis : list MimeMulti.t }.
Definition new : t := mk [MultiOf DecodeData.new] [MimeMulti.new].
Definition push (s : MultiStage) (d : t) : t := mk (s :: stages d) (multis d).
Definition push_new_unknown_stage (d : t) : t := push (Unknown DecodeHeaders.new) d.
Definition push_new_multi_stage (headers : Headers.t) (b : bytes) (d : t) : t :=
  mk (MultiOf (DecodeData.new_as_part b) :: stages d) (MimeMulti.set_boundary (MimeMulti.set_headers MimeMulti.new headers) b :: multis d).
Definition push_new_part_stage (headers : Headers.t) (d : t) : res HttpError () * t :=
  match multis d with
  | m :: _ => (Ok (), push (PartOf (MimePartDecoder.init_from_multi headers (boundary m))) d)
  | [] => (Err InvalidInput, d)
  end.
Definition temp_multi_end (by_part : bool) (d : t) : res HttpError () * t :=
  match multis d with
  | [m] => (Ok (), mk [End_] [m])
  | _ =>
      match (if by_part then match stages d with _ :: l => Some l | [] => None end else Some (stages d)) with
      | None => (Err InvalidInput, d)
      | Some l =>
          match multis d with
          | m :: m' :: ms => (Ok (), mk l (MimeMulti.add_multi m' m :: ms))
          | m :: [] => (Err InvalidInput, mk l [])
          | [] => (Err InvalidInput, mk l [])
          end
      end
  end.
(** [?] on the result of an operation in front of [Ok(rest)]. *)
Definition then_rest (x : res HttpError () * t) (rest : bytes) : res HttpError bytes * t :=
  match x with (Ok _, d) => (Ok rest, d) | (Err e, d) => (Err e, d) | (Panic, d) => (Panic, d) end.
Definition unknown_decode (hd : DecodeHeaders.t) (buf : bytes) : M t HttpError bytes := λ d,
  match DecodeHeaders.decode buf hd with
  | (Ok (Partial _, rest), hd) => (Ok rest, push (Unknown hd) d)
  | (Ok (Complete h, rest), _) =>
      match get_content_type_boundary h with
      | Some b => (Ok rest, push_new_multi_stage h b d)
      | None => then_rest (push_new_part_stage h d) rest
      end
  | (Err e, _) => (Err e, d)
  | (Panic, _) => (Panic, d)
  end.
Definition part_decode (pd : MimePartDecoder.t) (buf : bytes) : M t HttpError bytes := λ d,
  match MimePartDecoder.decode buf pd with
  | (Ok (Partial _, rest), pd) => (Ok rest, push (PartOf pd) d)
  | (Ok (Complete p, rest), pd) =>
      match multis d with
      | [] => (Err InvalidInput, d)
      | m :: ms =>
          let d := mk (stages d) (MimeMulti.add_part m p :: ms) in
          if MimePartDecoder.is_last_part pd then then_rest (temp_multi_end true d) rest else (Ok rest, push_new_unknown_stage d)
      end
  | (Err e, _) => (Err e, d)
  | (Panic, _) => (Panic, d)
  end.
Definition middle_or_end_boundary_decode (data : DecodeData.t) (buf : bytes) : M t HttpError bytes := λ d,
  match DecodeData.middle_or_end_boundary buf data with
  | (Partial rest, data) => (Ok rest, push (MultiOf data) d)
  | (Complete rest, data) =>
      match DecodeData.tag data with
      | TMiddle => (Ok rest, push_new_unknown_stage (push (MultiOf data) d))
      | TEnd => then_rest (temp_multi_end false d) rest
      | _ => (Ok rest, d)
      end
  end.
(** [multis.first_mut()]: the bottom of the stack. *)
Fixpoint set_first_boundary (b : bytes) (l : list MimeMulti.t) : option (list MimeMulti.t) :=
  match l with
  | [] => None
  | [m] => Some [MimeMulti.set_boundary m b]
  | m :: l => cons m <$> set_first_boundary b l
  end.
Definition outermost_first_boundary_decode (data : DecodeData.t) (buf : bytes) : M t HttpError bytes := λ d,
  match DecodeData.outermost_first_boundary buf data with
  | (Partial rest, data) => (Ok rest, push (MultiOf data) d)
  | (Complete (b, rest), data) =>
      match set_first_boundary b (multis d) with
      | Some l => (Ok rest, push_new_unknown_stage (push (MultiOf data) (mk (stages d) l)))
      | None => (Err InvalidInput, d)
      end
  end.
Definition inner_first_boundary_decode (data : DecodeData.t) (buf : bytes) : M t HttpError bytes := λ d,
  match DecodeData.inner_first_boundary buf data with
  | (Partial rest, data) | (Complete rest, data) => (Ok rest, push_new_unknown_stage (push (MultiOf data) d))
  end.
Definition multi_decode (data : DecodeData.t) (buf : bytes) : M t HttpError bytes :=
  if DecodeData.is_finish_first_boundary data then middle_or_end_boundary_decode data buf
  else if DecodeData.is_outermost data then outermost_first_boundary_decode data buf
  else inner_first_boundary_decode data buf.
Definition step (stage : MultiStage) (remains : bytes) : M t HttpError bytes :=
  match stage with
  | Unknown hd => unknown_decode hd remains
  | PartOf pd => part_decode pd remains
  | MultiOf data => multi_decode data remains
  | End_ => mret remains
  end.
(** The [while] loop. *)
Fixpoint decode_loop (fuel : nat) (remains : bytes) (d : t) : res HttpError (TokenStatus MimeMulti.t () * bytes) * t :=
  match fuel with
  | O => (Panic, d)
  | S fuel =>
      match stages d with
      | [] => (Ok (Partial (), remains), d)
      | stage :: l =>
          let d := mk l (multis d) in
          match stage with
          | End_ =>
              match multis d with
              | m :: ms => (Ok (Complete m, remains), mk l ms)
              | [] => (Err InvalidInput, d)
              end
          | _ =>
              match step stage remains d with
              | (Ok rest, d) =>
                  match rest, stages d with
                  | [], [] => (Err InvalidInput, d)
                  | [], End_ :: _ => decode_loop fuel rest d
                  | [], _ => (Ok (Partial (), []), d)
                  | _, _ => decode_loop fuel rest d
                  end
              | (Err e, d) => (Err e, d)
              | (Panic, d) => (Panic, d)
              end
          end
      end
  end.
(** Every turn takes a byte, but for the one that finds the end. *)
Definition decode_fuel (buf : bytes) : nat := length buf + 2.
Definition decode (buf : bytes) (d : t) : res HttpError (TokenStatus MimeMulti.t () * bytes) * t :=
  match buf with [] => (Err InvalidInput, d) | _ => decode_loop (decode_fuel buf) buf d end.
End MimeMultiDecoder.
