(* ===== verification/MimeRoundtrip.v ===== *)
(** Multiparts that are encoded are decoded again: whole, nested to any depth, and in any
    segments when they are not nested.

    The decoders look for line feeds; [scan] is the step they share.  [hplace] and
    [mplace] say where in a message the decoder of headers and that of multiparts stand. *)
From S2P Require Import Prelude Buffers PullEncoder Headers Mime MimeDecoder.
#[local] Set Warnings "-register-all".

(** * Lines *)

Definition no_lf (l : bytes) : Prop := Forall (λ b, b ≠ 10) l.
Definition text (ls : list bytes) : bytes := ls ≫= λ l, l ++ [10].

Lemma first_lf (x y x' y' : bytes) : no_lf x → no_lf x' → x ++ 10 :: y = x' ++ 10 :: y' → x = x' ∧ y = y'.
Proof.
  intros Hx. revert x'. induction Hx as [|b x Hb _ IH]; intros [|b' x'] Hx' Heq; simplify_eq/=; [done|by inversion_clear Hx'|].
  inversion_clear Hx' as [|?? _ Hx]. by destruct (IH x' Hx) as [-> ->].
Qed.
Lemma lf_cases (s : bytes) : no_lf s ∨ ∃ a r, s = a ++ 10 :: r ∧ no_lf a.
Proof.
  induction s as [|b s [IH|(a & r & -> & Ha)]]; [by left; constructor|..]; destruct (Z.eq_dec b 10) as [->|Hb].
  - right. by exists [], s; split; [|constructor].
  - left. by constructor.
  - right. by exists [], (a ++ 10 :: r); split; [|constructor].
  - right. exists (b :: a), r. split; [done|by constructor].
Qed.
Lemma contain_none s : no_lf s → get_crlf_contain s = Partial s.
Proof. induction 1 as [|b s Hb _ IH]; [done|]. cbn [get_crlf_contain]. by rewrite (proj2 (Z.eqb_neq b 10) Hb), IH. Qed.
Lemma contain_some a r : no_lf a → get_crlf_contain (a ++ 10 :: r) = Complete (a ++ [10], r).
Proof. induction 1 as [|b a Hb _ IH]; [done|]. cbn [get_crlf_contain app]. by rewrite (proj2 (Z.eqb_neq b 10) Hb), IH. Qed.
Lemma no_lf_app a b : no_lf (a ++ b) ↔ no_lf a ∧ no_lf b.
Proof. apply Forall_app. Qed.
Lemma text_lines l : l = [] ∨ list.last l = Some 10 → ∃ ls, l = text ls ∧ Forall no_lf ls.
Proof.
  remember (length l) as n eqn:Hn. revert l Hn. induction (lt_wf n) as [n _ IH]. intros l Hn Hl.
  destruct (lf_cases l) as [Hno|(a & r & -> & Ha)].
  - destruct Hl as [->|Hl]; [by exists []; split; [|constructor]|]. apply last_Some in Hl as [l' ->]. apply no_lf_app in Hno as [_ Hno]. by inversion_clear Hno.
  - destruct (IH (length r)) with (l := r) as (ls & -> & Hls); [subst n; rewrite length_app; simpl; lia|done| |].
    + destruct Hl as [Hl|Hl]; [by destruct a|]. destruct r as [|x r]; [by left|right]. change (a ++ 10 :: x :: r) with (a ++ ([10] ++ x :: r)) in Hl. rewrite (assoc_L (++)), last_app_cons in Hl. done.
    + exists (a :: ls). split; [|by constructor]. unfold text. rewrite bind_cons. by rewrite <- (assoc_L (++)).
Qed.

(** What a decoder finds in a segment [s], when the line so far is [c], the lines to come are
    [ls] and then the delimiter line [dl]. *)
Lemma scan c wl ls dl s w' more :
  no_lf c → Forall no_lf ls → no_lf dl → c ++ wl = text ls ++ dl ++ CRLF → s ++ w' = wl ++ more →
  (get_crlf_contain s = Partial s ∧ no_lf (c ++ s) ∧ ∃ wl', w' = wl' ++ more ∧ (c ++ s) ++ wl' = text ls ++ dl ++ CRLF) ∨
  (∃ a r, get_crlf_contain s = Complete (a ++ [10], r) ∧ (length r < length s)%nat ∧
    ((∃ ls', ls = (c ++ a) :: ls' ∧ r ++ w' = text ls' ++ dl ++ CRLF ++ more) ∨ ls = [] ∧ c ++ a = dl ++ [13] ∧ r ++ w' = more)).
Proof.
  intros Hc Hls Hdl Hwl Hs. destruct (lf_cases s) as [Hno|(a & r & -> & Ha)].
  - left. split; [by apply contain_none|]. split; [by apply no_lf_app|]. apply app_eq_inv in Hs as [(k & -> & Hk)|(k & -> & ->)].
    + exfalso. assert (Hin : 10 ∈ text ls ++ dl ++ CRLF) by (apply elem_of_app; right; apply elem_of_app; right; by right; left).
      rewrite <- Hwl in Hin. apply elem_of_app in Hin as [Hin|Hin].
      * by apply (list.Forall_forall (λ b, b ≠ 10) c) in Hin.
      * apply no_lf_app in Hno as [Hno _]. by apply (list.Forall_forall (λ b, b ≠ 10) wl) in Hin.
    + exists k. split; [done|]. by rewrite <- (assoc_L (++)).
  - right. exists a, r. split; [by apply contain_some|]. split; [rewrite length_app; simpl; lia|].
    assert (Heq : (c ++ a) ++ 10 :: r ++ w' = text ls ++ dl ++ CRLF ++ more).
    { rewrite <- (assoc_L (++)). change (a ++ 10 :: r ++ w') with (a ++ (10 :: r) ++ w'). rewrite (assoc_L (++) a), Hs, (assoc_L (++)), Hwl. by rewrite <- !(assoc_L (++)). }
    destruct Hls as [|l ls' Hl Hls'].
    + right. split; [done|]. change (text [] ++ dl ++ CRLF ++ more) with (dl ++ [13] ++ 10 :: more) in Heq. rewrite (assoc_L (++) dl) in Heq.
      apply first_lf in Heq; [done|by apply no_lf_app|]. apply no_lf_app. split; [done|]. by repeat constructor.
    + left. exists ls'. unfold text in Heq at 1. rewrite bind_cons, <- !(assoc_L (++)) in Heq. change ([10] ++ (ls' ≫= λ l, l ++ [10]) ++ dl ++ CRLF ++ more) with (10 :: text ls' ++ dl ++ CRLF ++ more) in Heq.
      rewrite (assoc_L (++) c) in Heq. apply first_lf in Heq as [-> ->]; [done|by apply no_lf_app|done].
Qed.

(** * Headers *)

Module H := DecodeHeaders.
Definition name_byte (b : Z) : bool := default false (HEADER_NAME_BYTES !! Z.to_nat b).
Definition value_byte (b : Z) : bool := default false (HEADER_VALUE_BYTES !! Z.to_nat b).
(** A field that is read back: a token in lower case, and one value that does not start with
    white space. *)
Definition field_ok (f : bytes * HeaderValue.t) : Prop :=
  Forall (λ b, name_byte b = true) f.1 ∧ HeaderName.from_bytes f.1 = Ok f.1 ∧
  ∃ v, f.2 = HeaderValue.mk [v] false ∧ Forall (λ b, value_byte b = true) v ∧ value_ok v ∧ match v with b :: _ => is_lwsp b = false | [] => True end.
Lemma name_byte_not b : name_byte b = true → b ≠ 58 ∧ b ≠ 13 ∧ b ≠ 10 ∧ is_lwsp b = false.
Proof.
  intros Hb. split_and!; try (by intros ->; vm_compute in Hb). unfold is_lwsp. apply orb_false_iff. rewrite !Z.eqb_neq. split; by intros ->; vm_compute in Hb.
Qed.
Lemma value_byte_not b : value_byte b = true → b ≠ 13 ∧ b ≠ 10.
Proof. intros Hb. split; by intros ->; vm_compute in Hb. Qed.
Lemma get_name n r : Forall (λ b, name_byte b = true) n → H.get_header_name (n ++ 58 :: r) = Ok (Complete (n, r)) ∧ H.get_header_name n = Ok (Partial n).
Proof.
  induction 1 as [|b n Hb _ [IH1 IH2]]; [done|]. pose proof (name_byte_not b Hb) as (H58 & _). cbn [H.get_header_name app]. rewrite (proj2 (Z.eqb_neq b 58) H58).
  unfold name_byte in Hb. rewrite Hb. cbn [negb]. by rewrite IH1, IH2.
Qed.
Lemma get_value v r : Forall (λ b, value_byte b = true) v → H.get_header_value (v ++ 13 :: r) = Ok (Complete (v, 13 :: r)) ∧ H.get_header_value v = Ok (Partial v).
Proof.
  induction 1 as [|b v Hb _ [IH1 IH2]]; [done|]. destruct (value_byte_not b Hb) as [H13 H10]. cbn [H.get_header_value app].
  rewrite (proj2 (Z.eqb_neq b 13) H13), (proj2 (Z.eqb_neq b 10) H10). unfold value_byte in Hb. rewrite Hb. cbn [orb negb]. by rewrite IH1, IH2.
Qed.
Lemma trim_none l : match l with b :: _ => is_lwsp b = false | [] => True end → trim_front_lwsp l = l.
Proof. destruct l as [|b l]; [done|]. intros Hb. cbn [trim_front_lwsp]. by rewrite Hb. Qed.

Definition put (h : Headers.t) (f : bytes * HeaderValue.t) : Headers.t := Headers.mk (<[f.1 := f.2]> (Headers.map h)).
Definition lines_of (fs : list (bytes * HeaderValue.t)) : bytes := (fs ≫= header_line) ++ CRLF.
(** [hplace d wl h]: the decoder [d] stands in front of the header lines [wl], which end with
    the blank line, and will give [h]. *)
Definition hplace (d : H.t) (wl : bytes) (h : Headers.t) : Prop :=
  ∃ fs, Forall field_ok fs ∧
  match H.stage d with
  | HStart => h = fold_left put fs (H.headers d) ∧ (H.src d = [] ∧ wl = lines_of fs ∨ H.src d = [13] ∧ fs = [] ∧ wl = [10])
  | HName => ∃ f n, field_ok f ∧ f.1 = H.src d ++ n ∧ wl = n ++ str ":" ++ HeaderValue.to_vec f.2 ++ CRLF ++ lines_of fs ∧ h = fold_left put fs (put (H.headers d) f)
  | HValue => ∃ f v, field_ok f ∧ f.1 = H.name_src d ∧ HeaderValue.to_vec f.2 = H.src d ++ v ∧ wl = v ++ CRLF ++ lines_of fs ∧ h = fold_left put fs (put (H.headers d) f)
  | HCrlf => H.src d = [] ∧ h = fold_left put fs (H.headers d) ∧ (wl = CRLF ++ lines_of fs ∨ wl = 10 :: lines_of fs)
  | _ => False
  end.
Definition hrank (d : H.t) : nat := match H.stage d with HStart | HValue => 1 | _ => 0 end.
(** What a turn leaves, in front of [w']. *)
Definition hstep_ok (s w' more : bytes) (h : Headers.t) (d : H.t) (x : res HttpError bytes * H.t) : Prop :=
  ∃ rest d', x = (Ok rest, d') ∧
  (H.stage d' = HEnd ∧ H.headers d' = h ∧ rest ++ w' = more ∧ (length rest < length s)%nat ∨
   H.is_end d' = false ∧ ∃ wl', hplace d' wl' h ∧ rest ++ w' = wl' ++ more ∧ (2 * length rest + hrank d' < 2 * length s + hrank d)%nat).
Lemma value_to_vec v : HeaderValue.to_vec (HeaderValue.mk [v] false) = v.
Proof. done. Qed.

Lemma hstart_ok d wl h s w' more : H.stage d = HStart → hplace d wl h → s ≠ [] → s ++ w' = wl ++ more → hstep_ok s w' more h d (H.start_decode s d).
Proof.
  intros Hst (fs & Hfs & H) Hs Hw. rewrite Hst in H. destruct d as [st ns src hs]. cbn in Hst. subst st. cbn [H.headers H.src] in H. destruct H as [-> H].
  unfold H.start_decode, H.is_cr_meet, H.trim_first. cbn [H.src]. destruct H as [[-> ->]|(-> & -> & ->)].
  - destruct Hfs as [|f fs Hf Hfs].
    + destruct s as [|b s]; [done|]. injection Hw as -> Hw. rewrite trim_none by done. change (13 =? 13) with true. cbv iota. destruct s as [|c s].
      * eexists [], _. split; [done|]. right. split; [done|]. exists [10]. split; [|split; [done|cbn; lia]]. exists []. split; [constructor|]. cbn. split; [done|by right].
      * injection Hw as -> Hw. change (10 =? 10) with true. cbv iota. eexists s, _. split; [done|]. left. cbn. split; [done|]. split; [done|]. split; [done|lia].
    + destruct Hf as (Hn & Hlow & Hv). assert (Hhead : ∃ b s0, s = b :: s0 ∧ (name_byte b = true ∨ b = 58)).
      { destruct s as [|b s0]; [done|]. exists b, s0. split; [done|]. unfold lines_of in Hw. rewrite bind_cons in Hw. unfold header_line in Hw.
        destruct f.1 as [|x n]; injection Hw as -> _; [by right|left]. by inversion_clear Hn. }
      destruct Hhead as (b & s0 & -> & Hb).
      assert (Hb' : is_lwsp b = false ∧ b ≠ 13 ∧ b ≠ 10) by (destruct Hb as [Hb| ->]; [by apply name_byte_not in Hb as (_ & ? & ? & ?)|done]).
      destruct Hb' as (Hl & H13 & H10). rewrite trim_none by done. rewrite (proj2 (Z.eqb_neq b 13) H13), (proj2 (Z.eqb_neq b 10) H10).
      eexists (b :: s0), _. split; [done|]. right. split; [done|]. exists (lines_of (f :: fs)). split; [|split; [done|cbn; lia]].
      exists fs. split; [done|]. cbn [H.stage H.src H.headers H.set_stage H.check_next]. exists f, f.1. split; [done|]. split; [done|]. split; [|done].
      unfold lines_of, header_line. rewrite bind_cons. by rewrite <- !(assoc_L (++)).
  - destruct s as [|b s]; [done|]. injection Hw as -> Hw. eexists s, _. split; [done|]. left. cbn. split; [done|]. split; [done|]. split; [done|lia].
Qed.
(** The name or the value goes on behind the segment. *)
Lemma hname_ok d wl h s w' more : H.stage d = HName → hplace d wl h → s ≠ [] → s ++ w' = wl ++ more → hstep_ok s w' more h d (H.name_decode s d).
Proof.
  intros Hst (fs & Hfs & H) Hs Hw. rewrite Hst in H. destruct d as [st ns src hs]. cbn in Hst. subst st. cbn [H.headers H.src] in H. destruct H as (f & n & Hf & Hfn & -> & ->).
  assert (Hn : Forall (λ b, name_byte b = true) n) by (destruct Hf as (Hn & _); rewrite Hfn in Hn; by apply Forall_app in Hn as [_ Hn]).
  set (X := HeaderValue.to_vec f.2 ++ CRLF ++ lines_of fs) in *. rewrite <- (assoc_L (++)) in Hw. change (str ":" ++ X) with (58 :: X) in Hw. cbn [app] in Hw.
  unfold H.name_decode. assert (Htrim : H.trim_first (H.mk HName ns src hs) s = s).
  { unfold H.trim_first. cbn [H.src]. destruct src; [|done]. apply trim_none. destruct s as [|b s]; [done|].
    destruct n as [|x n]; injection Hw as -> _; [done|]. inversion_clear Hn as [|?? Hx _]. by apply name_byte_not in Hx as (_ & _ & _ & ?). }
  assert (Hpart : ∀ k, n = s ++ k → w' = k ++ 58 :: X ++ more → hstep_ok s w' more (fold_left put fs (put hs f)) (H.mk HName ns src hs) (Ok [], H.mk HName ns (src ++ s) hs)).
  { intros k -> ->. eexists [], _. split; [done|]. right. split; [done|]. exists (k ++ 58 :: X). split; [|split; [by rewrite <- (assoc_L (++))|destruct s; [done|cbn; lia]]].
    exists fs. split; [done|]. cbn [H.stage H.src H.headers]. exists f, k. split; [done|]. split; [by rewrite <- (assoc_L (++))|done]. }
  rewrite Htrim. apply app_eq_inv in Hw as [([|x k] & -> & Hk)|(k & -> & Hk)].
  - rewrite app_nil_r in *. rewrite (proj2 (get_name n [] Hn)). apply (Hpart []); [by rewrite app_nil_r|done].
  - injection Hk as <- Hk. rewrite (proj1 (get_name n k Hn)). eexists k, _. split; [done|]. right. split; [done|]. exists X. split; [|split; [done|cbn [hrank H.stage H.check_next H.set_stage]; rewrite length_app; cbn [length]; lia]].
    exists fs. split; [done|]. cbn [H.stage H.src H.headers H.name_src H.check_next H.set_stage]. exists f, (HeaderValue.to_vec f.2). done.
  - apply Forall_app in Hn as [Hn1 Hn2]. rewrite (proj2 (get_name s [] Hn1)). by apply (Hpart k).
Qed.
Lemma field_value f v1 v : field_ok f → HeaderValue.to_vec f.2 = v1 ++ v →
  Forall (λ b, value_byte b = true) v ∧ (v1 = [] → match v with b :: _ => is_lwsp b = false | [] => True end) ∧
  trim_front_lwsp (v1 ++ v) = v1 ++ v ∧ trim_front_lwsp f.1 = f.1 ∧ ∀ h, ∃ o, Headers.insert h f.1 (v1 ++ v) = Ok (o, put h f).
Proof.
  intros (Hn & Hlow & x & Hx & Hb & Hok & Hhd) Hv. rewrite Hx, value_to_vec in Hv. subst x. split; [by apply Forall_app in Hb as [_ Hb]|].
  split; [by intros ->|]. split; [by apply trim_none|]. split; [apply trim_none; destruct f.1 as [|b n]; [done|]; inversion_clear Hn as [|?? Hy _]; by apply name_byte_not in Hy as (_ & _ & _ & ?)|].
  intros h. unfold Headers.insert. rewrite Hlow. cbn [mbind res_bind]. unfold HeaderValue.from_bytes. assert (Hfb : forallb HeaderValue.is_valid (v1 ++ v) = true) by (apply forallb_forall; intros b Hin; by apply (proj1 (List.Forall_forall _ _) Hok)).
  rewrite Hfb. cbn [negb mbind res_bind]. eexists. unfold put. by rewrite Hx.
Qed.
Lemma hvalue_ok d wl h s w' more : H.stage d = HValue → hplace d wl h → s ≠ [] → s ++ w' = wl ++ more → hstep_ok s w' more h d (H.value_decode s d).
Proof.
  intros Hst (fs & Hfs & H) Hs Hw. rewrite Hst in H. destruct d as [st ns src hs]. cbn in Hst. subst st. cbn [H.headers H.src H.name_src] in H. destruct H as (f & v & Hf & Hfn & Hfv & -> & ->).
  destruct (field_value f src v Hf Hfv) as (Hv & Hhd & Htv & Htn & Hins). rewrite <- (assoc_L (++)) in Hw. change (CRLF ++ lines_of fs) with (13 :: 10 :: lines_of fs) in Hw. cbn [app] in Hw.
  unfold H.value_decode. assert (Htrim : H.trim_first (H.mk HValue ns src hs) s = s).
  { unfold H.trim_first. cbn [H.src]. destruct src; [|done]. apply trim_none. destruct s as [|b s]; [done|]. destruct v as [|x v]; injection Hw as -> _; [done|]. by apply Hhd. }
  assert (Hpart : ∀ k, v = s ++ k → w' = k ++ 13 :: 10 :: lines_of fs ++ more → hstep_ok s w' more (fold_left put fs (put hs f)) (H.mk HValue ns src hs) (Ok [], H.mk HValue ns (src ++ s) hs)).
  { intros k -> ->. eexists [], _. split; [done|]. right. split; [done|]. exists (k ++ CRLF ++ lines_of fs). split; [|split; [by rewrite <- !(assoc_L (++))|destruct s; [done|cbn; lia]]].
    exists fs. split; [done|]. cbn [H.stage H.src H.headers H.name_src]. exists f, k. split; [done|]. split; [done|]. split; [by rewrite <- (assoc_L (++))|done]. }
  rewrite Htrim. apply app_eq_inv in Hw as [([|x k] & -> & Hk)|(k & -> & Hk)].
  - rewrite app_nil_r in *. rewrite (proj2 (get_value v [] Hv)). apply (Hpart []); [by rewrite app_nil_r|done].
  - injection Hk as <- Hk. rewrite (proj1 (get_value v k Hv)). cbn [H.name_src H.src H.headers]. rewrite <- Hfn, Htn, Htv. destruct (Hins hs) as (o & ->).
    eexists (13 :: k), _. split; [done|]. right. split; [done|]. exists (CRLF ++ lines_of fs). split; [|split; [by rewrite <- app_comm_cons, <- Hk|cbn [hrank H.stage H.check_next H.set_stage]; rewrite length_app; cbn [length]; lia]].
    exists fs. split; [done|]. cbn [H.stage H.src H.headers H.name_src H.check_next H.set_stage]. split; [done|]. split; [done|by left].
  - apply Forall_app in Hv as [Hv1 Hv2]. rewrite (proj2 (get_value s [] Hv1)). by apply (Hpart k).
Qed.
Lemma hcrlf_ok d wl h s w' more : H.stage d = HCrlf → hplace d wl h → s ≠ [] → s ++ w' = wl ++ more → hstep_ok s w' more h d (H.crlf_decode s d).
Proof.
  intros Hst (fs & Hfs & H) Hs Hw. rewrite Hst in H. destruct d as [st ns src hs]. cbn in Hst. subst st. cbn [H.headers H.src] in H. destruct H as (-> & -> & H).
  assert (Hend : ∀ r, r ++ w' = lines_of fs ++ more → (length r < length s)%nat →
    hstep_ok s w' more (fold_left put fs hs) (H.mk HCrlf ns [] hs) (Ok r, H.check_next (H.mk HCrlf ns [] hs))).
  { intros r Hr Hlen. eexists r, _. split; [done|]. right. split; [done|]. exists (lines_of fs). split; [|split; [done|cbn; lia]].
    exists fs. split; [done|]. cbn [H.stage H.src H.headers H.check_next H.set_stage H.set_src]. split; [done|by left]. }
  unfold H.crlf_decode, H.is_cr_meet. cbn [H.src]. destruct s as [|b s]; [done|]. destruct H as [->| ->].
  - injection Hw as -> Hw. cbn [consume_crlf]. change (13 =? 13) with true. cbv iota. destruct s as [|c s].
    + eexists [], _. split; [done|]. right. split; [done|]. exists (10 :: lines_of fs). split; [|split; [done|cbn; lia]]. exists fs. split; [done|]. cbn [H.stage H.src H.headers]. split; [done|]. split; [done|by right].
    + injection Hw as -> Hw. change (10 =? 10) with true. cbv iota. apply Hend; [done|cbn; lia].
  - injection Hw as -> Hw. cbn [consume_crlf]. change (10 =? 13) with false. change (10 =? 10) with true. cbv iota. apply Hend; [done|cbn; lia].
Qed.
Lemma hdecode_ok d wl h s w' more :
  hplace d wl h → s ≠ [] → s ++ w' = wl ++ more →
  (∃ d' wl', H.decode s d = (Ok (Partial (), []), d') ∧ hplace d' wl' h ∧ w' = wl' ++ more) ∨
  (∃ rest d', H.decode s d = (Ok (Complete h, rest), d') ∧ rest ++ w' = more ∧ (length rest < length s)%nat).
Proof.
  intros Hp Hs Hw. unfold H.decode. destruct s as [|b0 s0] eqn:Hs0; [done|]. rewrite <- Hs0 in *. clear Hs.
  assert (Hgo : ∀ fuel s d wl, hplace d wl h → s ≠ [] → s ++ w' = wl ++ more → (2 * length s + hrank d < fuel)%nat →
    (∃ d' wl', H.decode_loop fuel s d = (Ok (Partial (), []), d') ∧ hplace d' wl' h ∧ w' = wl' ++ more) ∨
    (∃ rest d', H.decode_loop fuel s d = (Ok (Complete h, rest), d') ∧ rest ++ w' = more ∧ (length rest < length s)%nat)).
  { clear. induction fuel as [|fuel IH]; intros s d wl Hp Hs Hw Hf; [lia|]. cbn [H.decode_loop].
    assert (Hne : H.is_end d = false) by (destruct Hp as (fs & _ & H); unfold H.is_end; by destruct (H.stage d)). rewrite Hne.
    assert (Hstep : hstep_ok s w' more h d (H.step s d)).
    { unfold H.step. destruct (H.stage d) eqn:Hst; [by apply (hstart_ok d wl)|by apply (hname_ok d wl)| |by apply (hvalue_ok d wl)|by apply (hcrlf_ok d wl)|]; destruct Hp as (fs & _ & H); by rewrite Hst in H. }
    destruct Hstep as (rest & d' & -> & [(Hst & Hh & Hr & Hlt)|(He & wl' & Hp' & Hr & Hlt)]).
    - assert (He : H.is_end d' = true) by (unfold H.is_end; by rewrite Hst). right. exists rest. rewrite He. destruct fuel as [|fuel]; [lia|].
      assert (Hcond : (match rest with [] => negb true | _ => false end) = false) by (by destruct rest). rewrite Hcond. cbn [H.decode_loop]. rewrite He, Hh. eexists. split; [done|]. by split.
    - rewrite He. destruct rest as [|x rest]; cbn [negb].
      + left. exists d', wl'. done.
      + destruct (IH (x :: rest) d' wl') as [(d2 & wl2 & H1 & H2 & H3)|(r2 & d2 & H1 & H2 & H3)]; [done|done|done|lia|left; by exists d2, wl2|right].
        exists r2, d2. split; [done|]. split; [done|]. unfold hrank in Hlt. destruct (H.stage d), (H.stage d'); lia. }
  apply (Hgo _ s d wl); [done|by subst s|done|]. unfold H.decode_fuel, hrank. destruct (H.stage d); lia.
Qed.

(** * Delimiters *)

(** Visible characters only. *)
Definition visible (b : bytes) : Prop := Forall (λ c, 33 ≤ c ≤ 126) b.
(** The delimiter line behind a part, the last one or not. *)
Definition dline (b : bytes) (last : bool) : bytes := deriv_boundary b ++ if last then str "--" else [].
(** A line that is not taken for a delimiter. *)
Definition plain_line (b l : bytes) : Prop := ∀ last, trim_back_lwsp_if_end_with_lf (l ++ [10]) ≠ dline b last.

Lemma dline_visible b last : visible b → Forall (λ c, 33 ≤ c ≤ 126) (dline b last).
Proof. intros Hb. unfold dline, deriv_boundary. apply Forall_app. split; [|by destruct last; repeat constructor]. apply Forall_app. split; [by repeat constructor|done]. Qed.
Lemma visible_no_lf l : Forall (λ c, 33 ≤ c ≤ 126) l → no_lf l.
Proof. intros Hl. apply (list.Forall_impl (λ c, 33 ≤ c ≤ 126)); [done|]. intros c Hc. lia. Qed.
Lemma strip_last_snoc b l : strip_last b (l ++ [b]) = l.
Proof. unfold strip_last. rewrite last_snoc, Z.eqb_refl, len_app. change (len [b]) with 1. apply upto_app_exact. lia. Qed.
Lemma strip_lf l : upto (len (l ++ [10]) - 1) (l ++ [10]) = l.
Proof. rewrite len_app. change (len [10]) with 1. apply upto_app_exact. lia. Qed.
Lemma trim_delimiter l : Forall (λ c, 33 ≤ c ≤ 126) l → trim_back_lwsp_if_end_with_lf ((l ++ [13]) ++ [10]) = l.
Proof.
  intros Hl. unfold trim_back_lwsp_if_end_with_lf. rewrite strip_lf, strip_last_snoc. unfold trim_back_lwsp. rewrite trim_none; [apply reverse_involutive|].
  destruct (reverse l) as [|c r] eqn:Hr; [done|]. assert (Hc : c ∈ l) by (apply elem_of_reverse; rewrite Hr; by left).
  apply (proj1 (list.Forall_forall _ _) Hl) in Hc. unfold is_lwsp. apply orb_false_iff. rewrite !Z.eqb_neq. simpl in Hc. lia.
Qed.
Lemma dline_eq b last : bool_decide (dline b last = deriv_boundary b) = negb last.
Proof.
  unfold dline. destruct last; [|by rewrite app_nil_r, bool_decide_true]. apply bool_decide_false. intros Heq. apply (f_equal length) in Heq. rewrite length_app in Heq. simpl in Heq. lia.
Qed.
Lemma plain_not b l : plain_line b l →
  bool_decide (trim_back_lwsp_if_end_with_lf (l ++ [10]) = deriv_boundary b) = false ∧
  bool_decide (trim_back_lwsp_if_end_with_lf (l ++ [10]) = deriv_boundary b ++ str "--") = false.
Proof.
  intros Hl. split; apply bool_decide_false; [|exact (Hl true)]. intros Heq. apply (Hl false). unfold dline. by rewrite app_nil_r.
Qed.
Lemma plain_blank b : plain_line b [13].
Proof. intros last Heq. apply (f_equal length) in Heq. unfold dline, deriv_boundary in Heq. rewrite !length_app in Heq. simpl in Heq. destruct last; simpl in Heq; lia. Qed.

(** RFC 2046: the lines of a body do not start with the delimiter. *)
Definition no_boundary (b D : bytes) : Prop := ∀ l r, D = l ++ deriv_boundary b ++ r → ¬ (l = [] ∨ list.last l = Some 10).
Lemma trim_front_suffix l : ∃ p, l = p ++ trim_front_lwsp l.
Proof. induction l as [|b l [p IH]]; [by exists []|]. cbn [trim_front_lwsp]. destruct (is_lwsp b); [|by exists []]. exists (b :: p). simpl. by rewrite <- IH. Qed.
Lemma trim_prefix l : ∃ z, l = trim_back_lwsp_if_end_with_lf (l ++ [10]) ++ z.
Proof.
  unfold trim_back_lwsp_if_end_with_lf. rewrite strip_lf.
  assert (Hs : ∃ z, l = strip_last 13 l ++ z).
  { unfold strip_last. destruct (list.last l); [|by exists []; rewrite app_nil_r]. destruct (_ =? _); [|by exists []; rewrite app_nil_r]. eexists. symmetry. apply upto_from. }
  destruct Hs as [z Hz]. set (l' := strip_last 13 l) in *. unfold trim_back_lwsp. destruct (trim_front_suffix (reverse l')) as [p Hp].
  apply (f_equal reverse) in Hp. rewrite reverse_involutive, reverse_app in Hp. exists (reverse p ++ z). by rewrite (assoc_L (++)), <- Hp.
Qed.
Lemma text_app a b : text (a ++ b) = text a ++ text b.
Proof. apply bind_app. Qed.
Lemma text_end ls : text ls = [] ∨ list.last (text ls) = Some 10.
Proof.
  destruct ls as [|l ls _] using rev_ind; [by left|right]. rewrite text_app. unfold text at 2. cbn [mbind list_bind]. rewrite app_nil_r, (assoc_L (++)). apply last_snoc.
Qed.
(** What is written of a body, up to the delimiter line. *)
Definition body_text (p : MimePart.t) : bytes := if MixFrom.is_empty (MimePart.body p) then [] else mix_rest (MimePart.body p) ++ CRLF.
Lemma body_lines b D : visible b → no_boundary b D → ∃ ls, D ++ CRLF = text ls ∧ Forall no_lf ls ∧ Forall (plain_line b) ls.
Proof.
  intros Hb HD. destruct (text_lines (D ++ CRLF)) as (ls & Hls & Hno); [right; change (D ++ CRLF) with (D ++ [13] ++ [10]); rewrite (assoc_L (++)); apply last_snoc|]. exists ls. split; [done|]. split; [done|].
  apply list.Forall_forall. intros l Hl. apply list_elem_of_split in Hl as (l1 & l2 & ->). intros last Heq. destruct (trim_prefix l) as [z Hz]. rewrite Heq in Hz.
  rewrite text_app in Hls. unfold text in Hls at 2. rewrite bind_cons in Hls.
  assert (HD' : ∃ r, D = text l1 ++ deriv_boundary b ++ r).
  { rewrite Hz in Hls. unfold dline in Hls. rewrite <- !(assoc_L (++)) in Hls. rewrite (assoc_L (++) (text l1)) in Hls. apply app_eq_inv in Hls as [(k & -> & _)|(k & Hk & Hk2)]; [exists k; by rewrite <- (assoc_L (++))|].
    destruct k as [|x k]; [exists []; by rewrite app_nil_r, Hk, app_nil_r|]. exfalso. injection Hk2 as <- Hk2.
    assert (k = []) as ->. { apply (f_equal length) in Hk2. rewrite !length_app in Hk2. simpl in Hk2. destruct k; [done|]. simpl in Hk2. lia. }
    apply (f_equal list.last) in Hk. rewrite last_snoc in Hk. unfold deriv_boundary in Hk. change (str "--" ++ b) with (45 :: 45 :: b) in Hk. rewrite last_app_cons in Hk.
    apply last_Some_elem_of in Hk. pose proof (dline_visible b false Hb) as Hd. unfold dline in Hd. rewrite app_nil_r in Hd. apply (proj1 (list.Forall_forall _ _) Hd) in Hk. lia. }
  destruct HD' as [r HD']. apply (HD (text l1) r HD'). apply text_end.
Qed.

(** * Parts *)

Module P := MimePartDecoder.
(** The decoder has the lines [B0] of the body [D] and the beginning [c] of the next one. *)
Definition pplace (h : Headers.t) (b : bytes) (last : bool) (D : bytes) (d : P.t) (wl : bytes) : Prop :=
  ∃ B0 ls c, P.stage d = PBody ∧ P.boundary d = b ∧ P.part d = MimePart.mk h (MixFrom.Owned (B0 ++ c) 0) ∧ P.src_idx d = len B0 ∧
    D = B0 ++ text ls ∧ no_lf c ∧ Forall no_lf ls ∧ Forall (plain_line b) ls ∧ c ++ wl = text ls ++ dline b last ++ CRLF.
Definition part_of (h : Headers.t) (D : bytes) : MimePart.t := MimePart.mk h (MixFrom.Owned (strip_last 13 (strip_last 10 D)) 0).
Lemma body_step_ok h b last D d wl s w' more :
  visible b → pplace h b last D d wl → s ++ w' = wl ++ more →
  (∃ d' wl', P.step s d = (Ok [], d') ∧ pplace h b last D d' wl' ∧ w' = wl' ++ more) ∨
  (∃ rest d', P.step s d = (Ok rest, d') ∧ (length rest < length s)%nat ∧
    ((∃ wl', pplace h b last D d' wl' ∧ rest ++ w' = wl' ++ more) ∨
     P.stage d' = PEnd ∧ P.part d' = part_of h D ∧ P.is_last_part d' = last ∧ rest ++ w' = more)).
Proof.
  intros Hb (B0 & ls & c & Hst & Hbd & Hp & Hi & -> & Hc & Hls & Hpl & Hwl) Hw. pose proof (dline_visible b last Hb) as Hvis. unfold P.step. rewrite Hst. unfold P.body_decode.
  destruct (scan c wl ls (dline b last) s w' more Hc Hls (visible_no_lf _ Hvis) Hwl Hw) as [(-> & Hno & wl' & -> & Hwl')|(a & r & -> & Hlen & Hcase)].
  - left. eexists _, wl'. split; [done|]. split; [|done]. exists B0, ls, (c ++ s). cbn [P.stage P.boundary P.part P.src_idx P.set_part]. rewrite Hp. unfold MimePart.body_extend_from_slice. cbn [MimePart.body]. rewrite <- (assoc_L (++)). done.
  - right. rewrite Hp. unfold MimePart.body_extend_from_slice. cbn [MimePart.body MimePart.set_body MimePart.headers P.part P.set_part MimePart.body_owned].
    change (P.src_idx (P.set_part d _)) with (P.src_idx d). change (P.boundary (P.set_part d _)) with (P.boundary d). rewrite Hi, Hbd, <- !(assoc_L (++)), from_app_exact, (assoc_L (++) c) by done.
    destruct Hcase as [(ls' & -> & Hr)|(-> & Hca & Hr)].
    + inversion_clear Hls as [|?? Hl Hls']. inversion_clear Hpl as [|?? Hpl1 Hpl']. destruct (plain_not b (c ++ a) Hpl1) as [-> ->].
      eexists r, _. split; [done|]. split; [done|]. left. exists (text ls' ++ dline b last ++ CRLF). split; [|by rewrite Hr, <- !(assoc_L (++))].
      exists (B0 ++ (c ++ a) ++ [10]), ls', []. cbn [P.stage P.boundary P.part P.src_idx P.set_part]. rewrite app_nil_r. split; [done|]. split; [done|]. split; [done|]. split; [done|].
      split; [|by split; [constructor|]]. unfold text. rewrite bind_cons. by rewrite <- !(assoc_L (++)).
    + rewrite Hca, trim_delimiter, dline_eq by done. change (text []) with (@nil Z). rewrite app_nil_r.
      assert (Hend : ∀ x, MimePart.body_trim_crlf_once (MimePart.body_truncate (MimePart.mk h (MixFrom.Owned (B0 ++ x) 0)) (len B0)) = part_of h B0).
      { intros x. unfold MimePart.body_truncate. cbn [MimePart.body MimePart.set_body MimePart.headers]. rewrite upto_app_exact by done. done. }
      destruct last; cbn [negb].
      * rewrite (bool_decide_true (dline b true = deriv_boundary b ++ str "--")) by done. eexists r, _. split; [done|]. split; [done|]. right. split; [done|]. split; [|done].
        unfold P.when_is_end. cbn [P.part P.set_part P.src_idx]. rewrite Hi. apply Hend.
      * eexists r, _. split; [done|]. split; [done|]. right. split; [done|]. split; [|done]. unfold P.when_is_end. cbn [P.part P.set_part P.src_idx]. rewrite Hi. apply Hend.
Qed.
Lemma pdecode_ok h b last D d wl s w' more :
  visible b → pplace h b last D d wl → s ≠ [] → s ++ w' = wl ++ more →
  (∃ d' wl', P.decode s d = (Ok (Partial (), []), d') ∧ pplace h b last D d' wl' ∧ w' = wl' ++ more) ∨
  (∃ rest d', P.decode s d = (Ok (Complete (part_of h D), rest), d') ∧ (length rest < length s)%nat ∧ P.is_last_part d' = last ∧ rest ++ w' = more).
Proof.
  intros Hb Hp Hs Hw. unfold P.decode. destruct s as [|b0 s0] eqn:Hs0; [done|]. rewrite <- Hs0 in *. clear Hs.
  assert (Hgo : ∀ fuel s d wl, pplace h b last D d wl → s ++ w' = wl ++ more → (S (length s) < fuel)%nat →
    (∃ d' wl', P.decode_loop fuel s d = (Ok (Partial (), []), d') ∧ pplace h b last D d' wl' ∧ w' = wl' ++ more) ∨
    (∃ rest d', P.decode_loop fuel s d = (Ok (Complete (part_of h D), rest), d') ∧ (length rest < length s)%nat ∧ P.is_last_part d' = last ∧ rest ++ w' = more)).
  { clear - Hb. induction fuel as [|fuel IH]; intros s d wl Hp Hw Hf; [lia|]. cbn [P.decode_loop].
    assert (Hne : ∀ d wl, pplace h b last D d wl → P.is_end d = false) by (intros d0 wl0 (? & ? & ? & Hst & _); unfold P.is_end; by rewrite Hst). rewrite (Hne d wl Hp).
    destruct (body_step_ok h b last D d wl s w' more Hb Hp Hw) as [(d' & wl' & -> & Hp' & ->)|(rest & d' & -> & Hlen & [(wl' & Hp' & Hr)|(Hst & Hpart & Hlast & Hr)])].
    - rewrite (Hne d' wl' Hp'). left. by exists d', wl'.
    - rewrite (Hne d' wl' Hp'). destruct rest as [|x rest]; cbn [negb]; [left; by exists d', wl'|].
      destruct (IH (x :: rest) d' wl' Hp' Hr ltac:(lia)) as [(d2 & wl2 & H1 & H2)|(r2 & d2 & H1 & H2 & H3)]; [left; by exists d2, wl2|right]. exists r2, d2. split; [done|]. split; [lia|done].
    - assert (He : P.is_end d' = true) by (unfold P.is_end; by rewrite Hst). right. exists rest. rewrite He. destruct fuel as [|fuel]; [lia|].
      assert (Hcond : (match rest with [] => negb true | _ => false end) = false) by (by destruct rest). rewrite Hcond. cbn [P.decode_loop]. rewrite He, Hpart. eexists. split; [done|]. by split. }
  apply (Hgo _ s d wl); [done|done|]. unfold P.decode_fuel. lia.
Qed.

(** * Multiparts *)

Module D := DecodeData.
Module X := MimeMultiDecoder.
Definition is_nil {A} (l : list A) : bool := match l with [] => true | _ => false end.
(** What is decoded: bodies are in memory. *)
Fixpoint norm (x : XPart) : XPart :=
  match x with
  | Part p => Part (MimePart.mk (MimePart.headers p) (MixFrom.Owned (mix_rest (MimePart.body p)) 0))
  | Multi (mk_multi h b l) => Multi (mk_multi h b (map norm l))
  end.

(** [str::trim] of a delimiter line. *)
Lemma visible_not_white (seqs : list bytes) c l :
  Forall (λ w, match w with h :: _ => ¬ (33 ≤ h ≤ 126) | [] => False end) seqs → 33 ≤ c ≤ 126 → list_find (λ w, starts_with w (c :: l)) seqs = None.
Proof.
  intros Hs Hc. apply list_find_None. apply (list.Forall_impl _ _ _ Hs). intros [|h t]; [done|]. intros Hh Hst. cbn [starts_with] in Hst.
  apply Is_true_true, andb_true_iff in Hst as [Hst _]. apply Z.eqb_eq in Hst. lia.
Qed.
Lemma trim_seqs_visible seqs fuel c l :
  Forall (λ w, match w with h :: _ => ¬ (33 ≤ h ≤ 126) | [] => False end) seqs → 33 ≤ c ≤ 126 → trim_seqs seqs fuel (c :: l) = c :: l.
Proof. intros Hs Hc. destruct fuel; [done|]. cbn [trim_seqs]. by rewrite visible_not_white. Qed.
Definition outside (w : bytes) : bool := match w with h :: _ => (h <? 33) || (126 <? h) | [] => false end.
Lemma outside_all seqs : forallb outside seqs = true → Forall (λ w, match w with h :: _ => ¬ (33 ≤ h ≤ 126) | [] => False end) seqs.
Proof. rewrite forallb_forall. intros H. apply List.Forall_forall. intros [|h t] Hin; specialize (H _ Hin); cbn in H; [done|]. apply orb_true_iff in H. rewrite !Z.ltb_lt in H. lia. Qed.
Lemma trim_first_line b : visible b → str_trim ((str "--" ++ b) ++ CRLF) = str "--" ++ b.
Proof.
  intros Hb. unfold str_trim. assert (Hstart : str_trim_start ((str "--" ++ b) ++ CRLF) = (str "--" ++ b) ++ CRLF).
  { unfold str_trim_start. change ((str "--" ++ b) ++ CRLF) with (45 :: 45 :: b ++ CRLF). apply trim_seqs_visible; [apply outside_all; by vm_compute|lia]. }
  rewrite Hstart. unfold str_trim_end. rewrite reverse_app. change (reverse CRLF) with [10; 13]. rewrite length_app. change (length CRLF) with 2%nat. rewrite Nat.add_comm.
  set (l := reverse (str "--" ++ b)). cbn [app Nat.add trim_seqs].
  assert (H10 : list_find (λ w, starts_with w (10 :: 13 :: l)) (reverse <$> white_space) = Some (1%nat, [10])) by done. rewrite H10. change (from (len [10]) (10 :: 13 :: l)) with (13 :: l). 
  assert (H13 : list_find (λ w, starts_with w (13 :: l)) (reverse <$> white_space) = Some (4%nat, [13])) by done. rewrite H13. change (from (len [13]) (13 :: l)) with l.
  pose proof (dline_visible b false Hb) as Hv. unfold dline in Hv. rewrite app_nil_r in Hv. unfold deriv_boundary in Hv.
  assert (Hl : trim_seqs (reverse <$> white_space) (length (str "--" ++ b)) l = l).
  { destruct l as [|c l'] eqn:Hc; [by destruct (length _)|]. apply trim_seqs_visible; [apply outside_all; by vm_compute|]. apply (proj1 (list.Forall_forall _ _) Hv). apply elem_of_reverse. change (c ∈ l). rewrite Hc. by left. }
  rewrite Hl. apply reverse_involutive.
Qed.

Section Decode.
Context (iter : Headers.t → list (bytes * HeaderValue.t)) (nested : bool) (R : bytes).
Definition headers_ok (h : Headers.t) : Prop := Forall field_ok (iter h) ∧ iter h ≡ₚ map_to_list (Headers.map h).
(** Entities that are read back inside a multipart with the boundary [b]: a part does not
    claim to be a multipart and its body has no delimiter; a multipart names its boundary in
    its headers and has parts. *)
Inductive xpart_ok : bytes → XPart → Prop :=
| x_part b p :
    headers_ok (MimePart.headers p) → get_content_type_boundary (MimePart.headers p) = None → no_boundary b (mix_rest (MimePart.body p)) → xpart_ok b (Part p)
| x_multi b h b' x l :
    nested = true → headers_ok h → get_content_type_boundary h = Some b' → visible b' → Forall (xpart_ok b') (x :: l) → xpart_ok b (Multi (mk_multi h b' (x :: l))).

Lemma put_all h : headers_ok h → fold_left put (iter h) Headers.new = h.
Proof.
  intros [_ Hp]. assert (Hgo : ∀ fs h0, NoDup fs.*1 → (∀ k, k ∈ fs.*1 → Headers.map h0 !! k = None) → Headers.map (fold_left put fs h0) = list_to_map fs ∪ Headers.map h0).
  { induction fs as [|[k v] fs IH]; intros h0 Hnd Hno; cbn [fold_left]; [by rewrite list_to_map_nil, map_empty_union|]. apply list.NoDup_cons in Hnd as [Hk Hnd]. rewrite IH.
    - unfold put. cbn [Headers.map fst snd list_to_map foldr]. rewrite <- insert_union_r by (by apply not_elem_of_list_to_map_1). apply insert_union_l.
    - done.
    - intros j Hj. unfold put. cbn [Headers.map fst snd]. rewrite lookup_insert_ne by (by intros ->). apply Hno. by right. }
  assert (Hnd : NoDup (iter h).*1) by (rewrite Hp; apply NoDup_fst_map_to_list).
  assert (Heq : Headers.map (fold_left put (iter h) Headers.new) = Headers.map h).
  { rewrite Hgo; [|done|intros k _; apply lookup_empty]. change (Headers.map Headers.new) with (∅ : gmap bytes HeaderValue.t). rewrite map_union_empty, <- (list_to_map_to_list (Headers.map h)).
    by apply list_to_map_proper. }
  destruct (fold_left _ _ _) as [m'], h as [m]. cbn in Heq. by subst.
Qed.

(** A multipart that is being read: what is read of it, and what follows the entity that is
    being read. *)
Record frame := mk_frame { fh : Headers.t; fb : bytes; fdone : list XPart; ftodo : list XPart }.
Definition fadd (x : XPart) (f : frame) : frame := mk_frame (fh f) (fb f) (fdone f ++ [x]) (ftodo f).
Definition fmulti (f : frame) : MimeMulti.t := mk_multi (fh f) (fb f) (fdone f).
Fixpoint close (f : frame) (fs : list frame) : MimeMulti.t :=
  let m := mk_multi (fh f) (fb f) (fdone f ++ map norm (ftodo f)) in
  match fs with [] => m | g :: fs => close (fadd (Multi m) g) fs end.
Definition todo_wire (f : frame) : bytes := items_wire (fb f) (map (xpart_wire iter) (ftodo f)).
Definition delim (f : frame) : bytes := dline (fb f) (is_nil (ftodo f)) ++ CRLF ++ todo_wire f.
Definition outer (fs : list frame) : bytes := (fs ≫= λ f, CRLF ++ delim f) ++ R.
Definition xheaders (x : XPart) : Headers.t := match x with Part p => MimePart.headers p | Multi m => headers m end.
(** An entity behind its headers, and what follows it in its multipart. *)
Definition xbody (x : XPart) (f : frame) : bytes :=
  match x with
  | Part p => body_text p ++ delim f
  | Multi m => multi_wire iter m ++ CRLF ++ delim f
  end.
Lemma xpart_split x f : xpart_wire iter x ++ CRLF ++ delim f = lines_of (iter (xheaders x)) ++ xbody x f.
Proof.
  unfold lines_of. destruct x as [p|[h b l]]; cbn [xpart_wire xheaders xbody headers]; unfold part_wire, body_text, headers_wire, multi_wire; cbn [boundary list_].
  - destruct (MixFrom.is_empty _); by rewrite <- ?(assoc_L (++)).
  - by rewrite <- !(assoc_L (++)).
Qed.
Lemma items_split h b done x l : items_wire b (map (xpart_wire iter) (x :: l)) = xpart_wire iter x ++ CRLF ++ delim (mk_frame h b done l).
Proof.
  unfold delim, todo_wire, dline, deriv_boundary. cbn [fb ftodo]. destruct l as [|y l]; cbn [map items_wire is_nil].
  - unfold end_wire. by rewrite ?app_nil_r, <- ?(assoc_L (++)).
  - unfold middle_wire, first_wire. by rewrite ?app_nil_r, <- ?(assoc_L (++)).
Qed.
Definition data_ok (f : frame) (d : D.t) : Prop :=
  D.is_finish_first_boundary d = true ∧ D.boundary d = fb f ∧ D.src d = [] ∧ D.src_idx d = 0.
Definition frame_ok (f : frame) : Prop := visible (fb f) ∧ Forall (xpart_ok (fb f)) (ftodo f).
Definition frames_ok (fs : list frame) (ds : list D.t) : Prop := Forall2 data_ok fs ds ∧ Forall frame_ok fs.

(** Where the decoder stands in the message for [T], in front of the bytes [w]. *)
Inductive mplace (T : MimeMulti.t) : X.t → bytes → Prop :=
| at_headers x f fs ds hd wl :
    xpart_ok (fb f) x → frames_ok (f :: fs) ds → close (fadd (norm x) f) fs = T → hplace hd wl (xheaders x) →
    mplace T (X.mk (X.Unknown hd :: (X.MultiOf <$> ds)) (fmulti <$> f :: fs)) (wl ++ xbody x f ++ outer fs)
| at_body p f fs ds pd wl :
    frames_ok (f :: fs) ds → close (fadd (norm (Part p)) f) fs = T → pplace (MimePart.headers p) (fb f) (is_nil (ftodo f)) (body_text p) pd wl →
    mplace T (X.mk (X.PartOf pd :: (X.MultiOf <$> ds)) (fmulti <$> f :: fs)) (wl ++ todo_wire f ++ outer fs)
| at_inner h b x l f fs ds :
    xpart_ok (fb f) (Multi (mk_multi h b (x :: l))) → frames_ok (f :: fs) ds → close (fadd (norm (Multi (mk_multi h b (x :: l)))) f) fs = T →
    mplace T (X.mk (X.MultiOf (D.new_as_part b) :: (X.MultiOf <$> ds)) (mk_multi h b [] :: (fmulti <$> f :: fs)))
      (multi_wire iter (mk_multi h b (x :: l)) ++ outer (f :: fs))
| at_delim f fs ds d p c ls wl :
    frame_ok f → frames_ok fs ds → close f fs = T → D.is_finish_first_boundary d = true → D.boundary d = fb f → D.src d = p ++ c → D.src_idx d = len p →
    no_lf c → Forall (eq [13]) ls → c ++ wl = text ls ++ dline (fb f) (is_nil (ftodo f)) ++ CRLF →
    mplace T (X.mk (X.MultiOf d :: (X.MultiOf <$> ds)) (fmulti <$> f :: fs)) (wl ++ todo_wire f ++ outer fs)
| at_first d b x l c wl :
    visible b → Forall (xpart_ok b) (x :: l) → T = mk_multi Headers.new b (map norm (x :: l)) →
    D.is_finish_first_boundary d = false → D.is_outermost d = true → D.src d = c → D.src_idx d = 0 → no_lf c → c ++ wl = (str "--" ++ b) ++ CRLF →
    mplace T (X.mk [X.MultiOf d] [MimeMulti.new]) (wl ++ items_wire b (map (xpart_wire iter) (x :: l)) ++ R)
| at_end_ : mplace T (X.mk [X.End_] [T]) R.

Lemma hplace_new h : headers_ok h → hplace H.new (lines_of (iter h)) h.
Proof. intros Hh. exists (iter h). split; [by destruct Hh|]. cbn [H.stage H.new H.headers H.src]. split; [by rewrite put_all|by left]. Qed.
(** The next entity of a multipart. *)
Lemma next_ok T f fs ds x l :
  frames_ok (f :: fs) ds → ftodo f = x :: l → close f fs = T →
  mplace T (X.mk (X.Unknown H.new :: (X.MultiOf <$> ds)) (fmulti <$> f :: fs)) (todo_wire f ++ outer fs).
Proof.
  intros [Hd Hf] Htodo HT. destruct f as [h b don todo]. cbn [ftodo] in Htodo. subst todo. unfold todo_wire. cbn [fb ftodo].
  rewrite (items_split h b don), xpart_split, <- (assoc_L (++)). inversion_clear Hf as [|?? [Hb Hx] Hfs]. inversion_clear Hx as [|?? Hx1 Hx2].
  apply (at_headers T x (mk_frame h b don l)); [done| | |].
  - split; [|by constructor]. by inversion_clear Hd as [|?? l1 l2 Hd1 Hd2]; constructor.
  - rewrite <- HT. unfold fadd. destruct fs; cbn [close fh fb fdone ftodo map]; by rewrite <- (assoc_L (++)).
  - apply hplace_new. inversion_clear Hx1; done.
Qed.
(** The end of a multipart. *)
Lemma last_ok T f fs ds (by_part : bool) st :
  ftodo f = [] → close f fs = T → frames_ok fs ds → (if by_part then ∃ s0, st = s0 :: (X.MultiOf <$> ds) else st = X.MultiOf <$> ds) →
  ∃ d, X.temp_multi_end by_part (X.mk st (fmulti <$> f :: fs)) = (Ok (), d) ∧ mplace T d (todo_wire f ++ outer fs).
Proof.
  intros Htodo HT [Hd Hf] Hst. unfold todo_wire. rewrite Htodo. cbn [map items_wire app]. destruct fs as [|g fs]; cbn [close] in HT; rewrite Htodo in HT; cbn [map] in HT; rewrite app_nil_r in HT.
  - eexists. split; [done|]. unfold fmulti. rewrite HT. apply at_end_.
  - inversion Hd as [|? d ? ds' (Hfin & Hbd & Hsrc & Hidx) Hd']. subst. inversion_clear Hf as [|?? Hg Hfs].
    exists (X.mk (X.MultiOf <$> (d :: ds')) (fmulti <$> fadd (Multi (fmulti f)) g :: fs)). split.
    { unfold X.temp_multi_end. cbn [X.multis X.stages fmap list_fmap]. destruct by_part; [destruct Hst as [s0 ->]|subst st]; done. }
    set (g' := fadd (Multi (fmulti f)) g). unfold outer. rewrite bind_cons. unfold delim. rewrite <- !(assoc_L (++)). change (dline (fb g) _) with (dline (fb g') (is_nil (ftodo g'))).
    change (todo_wire g ++ _) with (todo_wire g' ++ outer fs). set (dl := dline _ _). replace (CRLF ++ dl ++ CRLF ++ todo_wire g' ++ outer fs) with ((CRLF ++ dl ++ CRLF) ++ todo_wire g' ++ outer fs) by (by rewrite <- !(assoc_L (++))).
    apply (at_delim _ g' fs ds' d [] [] [[13]]); try done; [constructor|by repeat constructor].
Qed.

Definition turn_good (T : MimeMulti.t) (s w' : bytes) (x : res HttpError bytes * X.t) : Prop :=
  ∃ rest d, x = (Ok rest, d) ∧ (length rest < length s)%nat ∧ mplace T d (rest ++ w').
Lemma body_text_part h b p : h = MimePart.headers p → part_of h (body_text p) = MimePart.mk (MimePart.headers p) (MixFrom.Owned (mix_rest (MimePart.body p)) 0) ∧
  (visible b → no_boundary b (mix_rest (MimePart.body p)) → ∃ ls, body_text p = text ls ∧ Forall no_lf ls ∧ Forall (plain_line b) ls).
Proof.
  intros ->. unfold part_of, body_text. destruct (MixFrom.is_empty (MimePart.body p)) eqn:He.
  - split; [|intros _ _; by exists []]. do 2 f_equal. unfold MixFrom.is_empty in He. destruct (MimePart.body p) as [x i|x i| |]; try done; apply bool_decide_eq_true in He as ->; cbn [mix_rest]; unfold from; by rewrite skipn_nil.
  - split; [|apply body_lines]. change CRLF with ([13] ++ [10]). by rewrite (assoc_L (++)), strip_last_snoc, strip_last_snoc.
Qed.
Lemma headers_good T x f fs ds hd wl s w' :
  xpart_ok (fb f) x → frames_ok (f :: fs) ds → close (fadd (norm x) f) fs = T → hplace hd wl (xheaders x) → s ≠ [] → s ++ w' = wl ++ xbody x f ++ outer fs →
  turn_good T s w' (X.unknown_decode hd s (X.mk (X.MultiOf <$> ds) (fmulti <$> f :: fs))).
Proof.
  intros Hx Hf HT Hp Hs Hw. unfold X.unknown_decode. destruct (hdecode_ok hd wl _ s w' _ Hp Hs Hw) as [(hd' & wl' & -> & Hp' & ->)|(rest & hd' & -> & Hr & Hlen)].
  - eexists [], _. split; [done|]. split; [destruct s; [done|cbn; lia]|]. by apply (at_headers T x).
  - inversion Hx as [b p Hh Hct Hno|b h b' y l Hn Hh Hct Hb Hxs]; subst; cbn [xheaders headers] in *; rewrite Hct.
    + eexists rest, _. split; [done|]. split; [done|]. rewrite Hr. unfold xbody, delim. destruct Hf as [Hd Hf]. inversion Hf as [|?? [Hvis _] _]. subst.
      destruct (proj2 (body_text_part _ (fb f) p eq_refl) Hvis Hno) as (ls & Hls & Hlf & Hpl). set (dl := dline _ _).
      replace ((body_text p ++ dl ++ CRLF ++ todo_wire f) ++ outer fs) with ((body_text p ++ dl ++ CRLF) ++ todo_wire f ++ outer fs) by (by rewrite <- !(assoc_L (++))).
      apply (at_body _ p f); [done|done|]. exists [], ls, []. split_and!; try done; [constructor|by rewrite Hls].
    + eexists rest, _. split; [done|]. split; [done|]. rewrite Hr. unfold xbody. rewrite <- (assoc_L (++)). 
      replace (multi_wire iter _ ++ (CRLF ++ delim f) ++ outer fs) with (multi_wire iter (mk_multi h b' (y :: l)) ++ outer (f :: fs)) by (unfold outer; by rewrite bind_cons, <- !(assoc_L (++))).
      by apply at_inner.
Qed.
Lemma body_good T p f fs ds pd wl s w' :
  frames_ok (f :: fs) ds → close (fadd (norm (Part p)) f) fs = T → pplace (MimePart.headers p) (fb f) (is_nil (ftodo f)) (body_text p) pd wl →
  s ≠ [] → s ++ w' = wl ++ todo_wire f ++ outer fs → turn_good T s w' (X.part_decode pd s (X.mk (X.MultiOf <$> ds) (fmulti <$> f :: fs))).
Proof.
  intros Hf HT Hp Hs Hw. unfold X.part_decode. assert (Hb : visible (fb f)) by (destruct Hf as [_ Hf]; by inversion_clear Hf as [|?? [Hb _] _]).
  destruct (pdecode_ok _ _ _ _ pd wl s w' _ Hb Hp Hs Hw) as [(pd' & wl' & -> & Hp' & ->)|(rest & pd' & -> & Hlen & Hlast & Hr)].
  - eexists [], _. split; [done|]. split; [destruct s; [done|cbn; lia]|]. by apply (at_body T p).
  - rewrite (proj1 (body_text_part _ (fb f) p eq_refl)). cbn [fmap list_fmap X.multis X.stages]. fold (fmap (M:=list) fmulti fs). set (f' := fadd (norm (Part p)) f) in *.
    change (MimeMulti.add_part (fmulti f) _ :: (fmulti <$> fs)) with (fmulti <$> f' :: fs). rewrite Hlast. destruct Hf as [Hd Hf]. unfold turn_good.
    change (todo_wire f) with (todo_wire f') in Hr. change (ftodo f) with (ftodo f') in *. destruct (ftodo f') as [|x l] eqn:Htodo; cbn [is_nil].
    + inversion Hd as [|? d0 ? ds' _ Hd']. subst. inversion_clear Hf as [|?? _ Hf']. destruct (last_ok (close f' fs) f' fs ds' true (X.MultiOf <$> d0 :: ds')) as (d & He & HP); [done|done|done|by eexists|].
      change (X.MultiOf <$> d0 :: ds') with (X.MultiOf d0 :: (X.MultiOf <$> ds')) in He |- *. rewrite He. exists rest, d. split; [done|]. by split; [|rewrite Hr].
    + eexists rest, _. split; [done|]. split; [done|]. rewrite Hr. apply (next_ok T f' fs ds x l); [|done..]. split; [by inversion_clear Hd; constructor|by inversion_clear Hf; constructor].
Qed.
(** A line of [s] that is whole. *)
Lemma whole_line dl s more : no_lf dl → s = (dl ++ CRLF) ++ more → get_crlf_contain s = Complete ((dl ++ [13]) ++ [10], more) ∧ (length more < length s)%nat.
Proof.
  intros Hdl ->. split; [|rewrite !length_app; cbn; lia]. replace ((dl ++ CRLF) ++ more) with ((dl ++ [13]) ++ 10 :: more) by (by rewrite <- !(assoc_L (++))). apply contain_some. apply no_lf_app. split; [done|by repeat constructor].
Qed.
Lemma inner_good T h b x l f fs ds s :
  xpart_ok (fb f) (Multi (mk_multi h b (x :: l))) → frames_ok (f :: fs) ds → close (fadd (norm (Multi (mk_multi h b (x :: l)))) f) fs = T →
  s = multi_wire iter (mk_multi h b (x :: l)) ++ outer (f :: fs) →
  turn_good T s [] (X.multi_decode (D.new_as_part b) s (X.mk (X.MultiOf <$> ds) (mk_multi h b [] :: (fmulti <$> f :: fs)))).
Proof.
  intros Hx [Hd Hf] HT Hs. inversion Hx as [|? ? ? ? ? Hn Hh Hct Hb Hxs]. subst. set (g := mk_frame h b [] (x :: l)). set (s := _ ++ _).
  pose proof (dline_visible b false Hb) as Hvis. unfold dline in Hvis. rewrite app_nil_r in Hvis.
  destruct (whole_line (deriv_boundary b) s (todo_wire g ++ outer (f :: fs)) (visible_no_lf _ Hvis)) as [Hget Hlen].
  { unfold s, multi_wire, list_wire, first_wire, deriv_boundary. cbn [boundary list_ map]. by rewrite <- !(assoc_L (++)). }
  unfold X.multi_decode, X.inner_first_boundary_decode, D.inner_first_boundary. cbn [D.is_finish_first_boundary D.is_outermost D.new_as_part D.src D.src_idx D.boundary]. rewrite Hget. cbn [app].
  rewrite from_0, trim_delimiter, bool_decide_true by done. eexists _, _. split; [done|]. split; [exact Hlen|]. rewrite app_nil_r.
  apply (next_ok _ g (f :: fs) (D.mk true false b TFirst [] 0 :: ds) x l); [|done|done]. split; constructor; done.
Qed.
Lemma delim_good T f fs ds d p c ls wl s w' :
  frame_ok f → frames_ok fs ds → close f fs = T → D.is_finish_first_boundary d = true → D.boundary d = fb f → D.src d = p ++ c → D.src_idx d = len p →
  no_lf c → Forall (eq [13]) ls → c ++ wl = text ls ++ dline (fb f) (is_nil (ftodo f)) ++ CRLF → s ≠ [] → s ++ w' = wl ++ todo_wire f ++ outer fs →
  turn_good T s w' (X.multi_decode d s (X.mk (X.MultiOf <$> ds) (fmulti <$> f :: fs))).
Proof.
  intros [Hb Hxs] Hf HT Hfin Hbd Hsrc Hidx Hc Hls Hwl Hs Hw. pose proof (dline_visible (fb f) (is_nil (ftodo f)) Hb) as Hvis.
  assert (Hlf : Forall no_lf ls) by (apply (list.Forall_impl _ _ _ Hls); intros ? <-; by repeat constructor).
  unfold X.multi_decode. rewrite Hfin. unfold X.middle_or_end_boundary_decode, D.middle_or_end_boundary.
  destruct (scan c wl ls _ s w' _ Hc Hlf (visible_no_lf _ Hvis) Hwl Hw) as [(-> & Hno & wl' & -> & Hwl')|(a & r & -> & Hlen & Hcase)].
  - eexists [], _. split; [done|]. split; [destruct s; [done|cbn; lia]|]. cbn [app X.push X.stages X.multis]. apply (at_delim _ f fs ds _ p (c ++ s) ls); try done. cbn [D.src D.set_src]. by rewrite Hsrc, <- (assoc_L (++)).
  - rewrite Hsrc, Hidx, Hbd, <- !(assoc_L (++)), from_app_exact, (assoc_L (++) c) by done. destruct Hcase as [(ls' & -> & Hr)|(-> & Hca & Hr)].
    + inversion_clear Hls as [|?? H13 Hls']. rewrite <- H13. destruct (plain_not (fb f) [13] (plain_blank _)) as [-> ->]. eexists r, _. split; [done|]. split; [done|]. rewrite Hr.
      set (dl := dline _ _) in *. replace (text ls' ++ dl ++ CRLF ++ todo_wire f ++ outer fs) with ((text ls' ++ dl ++ CRLF) ++ todo_wire f ++ outer fs) by (by rewrite <- !(assoc_L (++))).
      cbn [X.push X.stages X.multis]. apply (at_delim _ f fs ds _ (p ++ [13] ++ [10]) [] ls'); try done; [cbn [D.src D.set_src]; by rewrite app_nil_r|constructor].
    + rewrite Hca, trim_delimiter, dline_eq by done. unfold turn_good. destruct (ftodo f) as [|x l] eqn:Htodo; cbn [is_nil negb].
      * rewrite bool_decide_true by done. cbn [D.tag D.end_with]. destruct (last_ok T f fs ds false _ Htodo HT Hf eq_refl) as (d' & -> & HP). exists r, d'. split; [done|]. split; [done|]. by rewrite Hr.
      * cbn [D.tag D.end_with]. eexists r, _. split; [done|]. split; [done|]. rewrite Hr. destruct Hf as [Hd Hf].
        apply (next_ok T f fs (D.end_with TMiddle d :: ds) x l); [|done|done]. split; constructor; try done. split; [done|by rewrite Htodo].
Qed.
Lemma first_good T d b x l c wl s w' :
  visible b → Forall (xpart_ok b) (x :: l) → T = mk_multi Headers.new b (map norm (x :: l)) →
  D.is_finish_first_boundary d = false → D.is_outermost d = true → D.src d = c → D.src_idx d = 0 → no_lf c → c ++ wl = (str "--" ++ b) ++ CRLF →
  s ≠ [] → s ++ w' = wl ++ items_wire b (map (xpart_wire iter) (x :: l)) ++ R → turn_good T s w' (X.multi_decode d s (X.mk [] [MimeMulti.new])).
Proof.
  intros Hb Hxs HT Hfin Hout Hsrc Hidx Hc Hwl Hs Hw. pose proof (dline_visible b false Hb) as Hvis. unfold dline, deriv_boundary in Hvis. rewrite app_nil_r in Hvis.
  unfold X.multi_decode. rewrite Hfin, Hout. unfold X.outermost_first_boundary_decode, D.outermost_first_boundary.
  destruct (scan c wl [] (str "--" ++ b) s w' _ Hc (Forall_nil_2 _) (visible_no_lf _ Hvis) Hwl Hw) as [(-> & Hno & wl' & -> & Hwl')|(a & r & -> & Hlen & [(ls' & ? & _)|(_ & Hca & Hr)])]; [|done|].
  - eexists [], _. split; [done|]. split; [destruct s; [done|cbn; lia]|]. cbn [app X.push X.stages X.multis]. apply (at_first _ _ b x l (c ++ s)); try done. cbn [D.src D.set_src]. by rewrite Hsrc.
  - rewrite Hsrc, (assoc_L (++)), Hca. replace (((str "--" ++ b) ++ [13]) ++ [10]) with ((str "--" ++ b) ++ CRLF) by (by rewrite <- !(assoc_L (++))). rewrite trim_first_line by done.
    assert (Hsw : starts_with (str "--") (str "--" ++ b) = true) by done. rewrite Hsw. change (from 2 (str "--" ++ b)) with b. eexists r, _. split; [done|]. split; [done|]. rewrite Hr.
    set (f := mk_frame Headers.new b [] (x :: l)). change (items_wire b (map (xpart_wire iter) (x :: l)) ++ R) with (todo_wire f ++ outer []).
    eapply (next_ok T f [] [_] x l); [|done|by subst T]. split; constructor; try constructor; done.
Qed.
Lemma step_good T d w s w' :
  mplace T d w → s ++ w' = w → s ≠ [] → (nested = true → w' = []) →
  d = X.mk [X.End_] [T] ∧ w = R ∨ ∃ st l, X.stages d = st :: l ∧ st ≠ X.End_ ∧ turn_good T s w' (X.step st s (X.mk l (X.multis d))).
Proof.
  intros Hp Hw Hs Hn. destruct Hp as [x f fs ds hd wl|p f fs ds pd wl|h b x l f fs ds Hx|f fs ds d p c ls wl|d b x l c wl|]; [right; eexists _, _; split; [done|]; split; [done|]; cbn [X.step X.multis]..|by left].
  - by apply (headers_good T x f fs ds hd wl).
  - by apply (body_good T p f fs ds pd wl).
  - assert (w' = []) as -> by (inversion Hx; auto). rewrite app_nil_r in Hw. by apply (inner_good T h b x l f fs ds).
  - by apply (delim_good T f fs ds d p c ls wl).
  - by apply (first_good T d b x l c wl).
Qed.
Lemma place_end T d w l : mplace T d w → X.stages d = X.End_ :: l → X.stages d = [X.End_] ∧ X.multis d = [T] ∧ w = R.
Proof. by destruct 1. Qed.
Lemma mime_loop_good T fuel s d w' :
  mplace T d (s ++ w') → (s = [] → X.stages d = [X.End_]) → (nested = true → w' = []) → (length s + 1 < fuel)%nat →
  (∃ d', X.decode_loop fuel s d = (Ok (Partial (), []), d') ∧ mplace T d' w' ∧ X.stages d' ≠ [X.End_]) ∨
  (∃ rest d', X.decode_loop fuel s d = (Ok (Complete T, rest), d') ∧ rest ++ w' = R).
Proof.
  revert s d. induction fuel as [|fuel IH]; intros s d Hp Hs Hn Hf; [lia|]. cbn [X.decode_loop].
  assert (Hcase : d = X.mk [X.End_] [T] ∧ s ++ w' = R ∨ ∃ st l, X.stages d = st :: l ∧ st ≠ X.End_ ∧ turn_good T s w' (X.step st s (X.mk l (X.multis d)))).
  { destruct (decide (s = [])) as [->|Hne]; [|by apply (step_good T d (s ++ w') s w')]. left. destruct (place_end T d _ [] Hp (Hs eq_refl)) as (H1 & H2 & H3). destruct d. by simplify_eq/=. }
  destruct Hcase as [[-> Hr]|(st & l & Hst & Hne & rest & d' & Hturn & Hlen & Hp')]; [right; by eexists s, _|]. rewrite Hst.
  assert (Hgo : (rest = [] → X.stages d' = [X.End_]) →
    (∃ d2, X.decode_loop fuel rest d' = (Ok (Partial (), []), d2) ∧ mplace T d2 w' ∧ X.stages d2 ≠ [X.End_]) ∨
    (∃ rest2 d2, X.decode_loop fuel rest d' = (Ok (Complete T, rest2), d2) ∧ rest2 ++ w' = R)) by (intros H0; apply IH; [done|done|done|lia]).
  cbn [X.multis X.stages]. rewrite Hturn. clear Hturn.
  destruct rest as [|b rest]; [|destruct st; try done; by apply Hgo].
  assert (Hst' : ∃ st' l', X.stages d' = st' :: l') by (destruct Hp'; by eexists _, _). destruct Hst' as (st' & l' & Hst').
  destruct st'; rewrite Hst' in *.
  4: { destruct (place_end T d' _ l' Hp' Hst') as (H1 & _). destruct st; try done; apply Hgo; congruence. }
  all: left; exists d'; split; [by destruct st|]; split; [done|]; by rewrite Hst'.
Qed.
Lemma place_nonempty T d : mplace T d [] → X.stages d = [X.End_].
Proof.
  remember [] as w eqn:Hw. intros Hp.
  assert (Hline : ∀ (c wl x : bytes), no_lf c → c ++ wl = x ++ CRLF → wl ≠ []).
  { intros c wl x Hc Heq ->. rewrite app_nil_r in Heq. subst c. apply no_lf_app in Hc as [_ Hc]. inversion_clear Hc as [|?? _ Hc']. by inversion_clear Hc'. }
  destruct Hp as [x f fs ds hd wl _ _ _ Hh|p f fs ds pd wl _ _ Hpp|h b x l f fs ds|f fs ds d p c ls wl _ _ _ _ _ _ _ Hc _ Hwl|d b x l c wl _ _ _ _ _ _ _ Hc Hwl|]; try done.
  - exfalso. apply app_eq_nil in Hw as [-> _]. destruct Hh as (fs' & _ & Hh). destruct (H.stage hd).
    + destruct Hh as [_ [[_ Hh]|(_ & _ & Hh)]]; [|done]. unfold lines_of in Hh. by destruct (_ ≫= _).
    + destruct Hh as (? & n & _ & _ & Hh & _). by destruct n.
    + done.
    + destruct Hh as (? & n & _ & _ & _ & Hh & _). by destruct n.
    + by destruct Hh as (_ & _ & [Hh|Hh]).
    + done.
  - exfalso. apply app_eq_nil in Hw as [-> _]. destruct Hpp as (B0 & ls & c & _ & _ & _ & _ & _ & Hc & _ & _ & Heq). rewrite (assoc_L (++)) in Heq. by eapply Hline.
  - exfalso. apply app_eq_nil in Hw as [-> _]. rewrite (assoc_L (++)) in Hwl. by eapply Hline.
  - exfalso. apply app_eq_nil in Hw as [-> _]. by eapply Hline.
Qed.

(** The decoder is called with the segments in turn, until it has a multipart; what it does
    not take is left. *)
Fixpoint decode_segments (segs : list bytes) (d : X.t) : res HttpError (TokenStatus MimeMulti.t () * list bytes) :=
  match segs with
  | [] => Ok (Partial (), [])
  | s :: segs =>
      match X.decode s d with
      | (Ok (Complete m, rest), _) => Ok (Complete m, rest :: segs)
      | (Ok (Partial _, _), d) => decode_segments segs d
      | (Err e, _) => Err e
      | (Panic, _) => Panic
      end
  end.
Lemma segments_good T segs d :
  Forall (λ s, s ≠ []) segs → mplace T d (concat segs) → X.stages d ≠ [X.End_] → (nested = true → (length segs ≤ 1)%nat) →
  ∃ out, decode_segments segs d = Ok (Complete T, out) ∧ concat out = R.
Proof.
  intros Hsegs. revert d. induction Hsegs as [|s segs Hs _ IH]; intros d Hp Hne Hn; [by apply place_nonempty in Hp|]. cbn [concat decode_segments] in *. unfold X.decode. destruct s as [|b0 s0] eqn:Hbs; [done|]. rewrite <- Hbs in *.
  assert (Hn' : nested = true → concat segs = []) by (intros H1; specialize (Hn H1); cbn [length] in Hn; destruct segs; [done|cbn [length] in Hn; lia]).
  destruct (mime_loop_good T (X.decode_fuel s) s d (concat segs) Hp) as [(d' & -> & Hp' & Hne')|(rest & d' & -> & Hr)]; [done|done|unfold X.decode_fuel; lia| |].
  - apply IH; [done|done|]. intros H1. specialize (Hn H1). cbn [length] in Hn. lia.
  - by exists (rest :: segs).
Qed.
End Decode.

(** The message that the encoder of multiparts writes for [m], with what follows it. *)
Definition readable (iter : Headers.t → list (bytes * HeaderValue.t)) (nested : bool) (m : MimeMulti.t) : Prop :=
  visible (boundary m) ∧ list_ m ≠ [] ∧ Forall (xpart_ok iter nested (boundary m)) (list_ m).
(** C23: What the encoder of multiparts writes through non-empty buffers that hold it, the
    decoder reads back: the parts with their headers and bodies and the multiparts in them,
    in their order, and it leaves what follows the last boundary.  This holds for any cut of
    the message into non-empty segments when no multipart is nested in another, and for
    multiparts nested to any depth when the message comes in one segment (a cut in the first
    boundary of a nested one is refused, [nested_cut_refused]).  Conditions: readers deliver
    non-empty pieces up to their end, with no error, never pending (the encoder loses
    the part or its headers there: [pending_loses_part], [pending_loses_headers]), and are
    read by the calls of their kind, synchronous or not; every multipart has a part
    ([empty_multipart_gets_part]), a boundary of visible characters and, nested,
    names it in its Content-Type; a part names no boundary there and its body has no line
    that starts with the delimiter; every field has one value, which does not start
    with a space. *)
Theorem mime_roundtrip iter nested async m ns :
  readable iter nested m → Forall (λ n, 0 < n) ns → Forall (λ p, mix_ok async (MimePart.body p)) (multi_parts m) → len (multi_wire iter m) ≤ zsum ns →
  ∃ pieces e, calls (MimeMultiEncoder.data async) ns (MimeMultiEncoder.from_multi iter m) = (Ok pieces, e) ∧
  ∀ segs rest, Forall (λ s, s ≠ []) segs → concat segs = concat pieces ++ rest → (nested = true → (length segs ≤ 1)%nat) →
  ∃ out, decode_segments segs X.new = Ok (Complete (mk_multi Headers.new (boundary m) (map norm (list_ m))), out) ∧ concat out = rest.
Proof.
  intros (Hb & Hl & Hx) Hns Hm Hlen. destruct (from_multi_pending iter async m Hm) as [Hok Hpend].
  destruct (@calls_cut _ _ (MimeMultiEncoder.data async) (multi_pull async) ns _ Hok Hns) as (e & He & _). eexists _, e. split; [exact He|].
  intros segs rest Hs Hcat Hn. change (pending _) with (multi_pend (MimeMultiEncoder.from_multi iter m)) in Hcat. rewrite Hpend, cut_concat, upto_all in Hcat by done.
  apply (segments_good iter nested); [done| |done|done]. rewrite Hcat. unfold multi_wire, list_wire, first_wire. destruct (list_ m) as [|x l] eqn:Hlist; [done|].
  set (w := items_wire (boundary m) (map (xpart_wire iter) (x :: l))). change (mplace iter nested rest (mk_multi Headers.new (boundary m) (map norm (x :: l))) X.new (((str "--" ++ boundary m ++ CRLF) ++ w) ++ rest)).
  rewrite (assoc_L (++) (str "--")), <- (assoc_L (++) _ w).
  apply (at_first iter nested rest _ D.new (boundary m) x l []); try done. constructor.
Qed.

(** * The Content-Type of a multipart *)

Lemma trim_start_visible l : match l with c :: _ => 33 ≤ c ≤ 126 | [] => True end → trim_ascii_start l = l.
Proof.
  destruct l as [|c l]; [done|]. intros Hc. cbn [trim_ascii_start]. assert (Hw : is_ascii_whitespace c = false); [|by rewrite Hw]. unfold is_ascii_whitespace. rewrite !orb_false_iff, !Z.eqb_neq. lia.
Qed.
Lemma trim_end_visible l c : 33 ≤ c ≤ 126 → trim_ascii_end (l ++ [c]) = l ++ [c].
Proof. intros Hc. unfold trim_ascii_end. rewrite reverse_snoc, trim_start_visible by done. by rewrite <- reverse_snoc, reverse_involutive. Qed.
Lemma trim_visible_ends c l d : 33 ≤ c ≤ 126 → 33 ≤ d ≤ 126 → trim_ascii (c :: l ++ [d]) = c :: l ++ [d].
Proof. intros Hc Hd. unfold trim_ascii. rewrite trim_start_visible by done. exact (trim_end_visible (c :: l) d Hd). Qed.
Lemma split_on_none c l : Forall (λ b, b ≠ c) l → split_on c l = [l].
Proof. induction 1 as [|b l Hb _ IH]; [done|]. cbn [split_on]. by rewrite (proj2 (Z.eqb_neq b c) Hb), IH. Qed.
Lemma split_on_app c l k : Forall (λ b, b ≠ c) l → split_on c (l ++ c :: k) = l :: split_on c k.
Proof. induction 1 as [|b l Hb _ IH]; cbn [split_on app]; [by rewrite Z.eqb_refl|]. by rewrite (proj2 (Z.eqb_neq b c) Hb), IH. Qed.
(** A multipart whose Content-Type is set by [set_content_type] tells its boundary to the
    decoder, when the boundary has no semicolon and is not quoted. *)
Theorem content_type_names_boundary m ct b m' :
  visible ct → Forall (λ c, c ≠ 59) ct → visible b → Forall (λ c, c ≠ 59) b → b ≠ [] → head b ≠ Some 34 →
  MimeMulti.set_content_type m (str "multipart/" ++ ct) b = (Ok (), m') → get_content_type_boundary (headers m') = Some b ∧ boundary m' = b.
Proof.
  intros Hct Hct59 Hb Hb59 Hne Hq. unfold MimeMulti.set_content_type. set (v := (str "multipart/" ++ ct) ++ str "; boundary=" ++ b).
  destruct (Headers.insert _ _ v) as [[o h]| |] eqn:Hins; intros H; simplify_eq. split; [|done]. cbn [headers MimeMulti.set_headers].
  unfold Headers.insert in Hins. destruct (HeaderName.from_bytes (str "Content-Type")) as [n| |] eqn:Hn; cbn [mbind res_bind] in Hins; simplify_eq.
  unfold HeaderValue.from_bytes in Hins. destruct (negb _); cbn [mbind res_bind] in Hins; simplify_eq.
  unfold get_content_type_boundary, Headers.get. rewrite Hn. cbn [Headers.map]. rewrite lookup_insert_eq, value_to_vec.
  destruct (exists_last Hne) as (b' & z & Hbz). assert (Hz : 33 ≤ z ≤ 126) by (subst b; apply Forall_app in Hb as [_ Hz]; by inversion_clear Hz).
  assert (Htrim : trim_ascii v = v).
  { unfold v. rewrite Hbz, !(assoc_L (++)). apply (trim_visible_ends 109); [lia|done]. }
  rewrite Htrim. change (negb (starts_with (str "multipart") v)) with false. cbv iota.
  assert (Hsplit : split_on 59 v = [str "multipart/" ++ ct; str " boundary=" ++ b]).
  { unfold v. change (str "; boundary=" ++ b) with (59 :: str " boundary=" ++ b). rewrite split_on_app; [|by apply Forall_app; split; [repeat constructor|]]. f_equal. apply split_on_none. by apply Forall_app; split; [repeat constructor|]. }
  rewrite Hsplit. cbn [fmap list_fmap]. assert (Hp2 : trim_ascii (str " boundary=" ++ b) = str "boundary=" ++ b).
  { rewrite Hbz. change (trim_ascii (str " boundary=" ++ b' ++ [z])) with (trim_ascii (98 :: (str "oundary=" ++ b') ++ [z])). rewrite trim_visible_ends by lia. by rewrite (assoc_L (++)). }
  assert (Hp1 : ∃ r, trim_ascii (str "multipart/" ++ ct) = 109 :: r).
  { unfold trim_ascii. rewrite trim_start_visible by (cbn; lia). clear - Hct. destruct ct as [|c ct' _] using rev_ind; [by eexists|]. rewrite (assoc_L (++)), trim_end_visible; [by eexists|]. apply Forall_app in Hct as [_ Hc']. by inversion_clear Hc'. }
  destruct Hp1 as [r Hp1]. rewrite Hp1, Hp2. change (list_find _ _) with (Some (1%nat, str "boundary=" ++ b)). cbn [fmap option_fmap option_map snd]. change (from 9 (str "boundary=" ++ b)) with b.
  rewrite trim_start_visible by (destruct b; [done|]; by inversion_clear Hb). destruct b as [|c b0]; [done|]. assert (Hs : starts_with [34] (c :: b0) = false).
  { cbn [starts_with]. assert (Hc : (34 =? c) = false) by (apply Z.eqb_neq; intros <-; done). by rewrite Hc. }
  by rewrite Hs, andb_false_r.
Qed.

Definition walk (h : Headers.t) : list (bytes * HeaderValue.t) := map_to_list (Headers.map h).
Definition one_header (name value : bytes) : Headers.t := put Headers.new (name, HeaderValue.mk [value] false).
Definition sample : MimeMulti.t :=
  mk_multi Headers.new (str "outer")
    [Part (MimePart.mk (one_header (str "accept") (str "text/html")) (MixFrom.Slice (str "first") 0));
     Multi (mk_multi (one_header (str "content-type") (str "multipart/mixed; boundary=inner")) (str "inner")
       [Part (MimePart.mk Headers.new (MixFrom.Owned [] 0)); Part (MimePart.mk Headers.new (MixFrom.Reader [RData (str "se"); RData (str "cond")]))])].
Lemma no_dash b D : Forall (λ c, c ≠ 45) D → no_boundary b D.
Proof. intros HD l r ->. apply Forall_app in HD as [_ HD]. by inversion_clear HD. Qed.
Lemma one_header_ok n b v :
  forallb name_byte n = true → HeaderName.from_bytes n = Ok n → forallb value_byte (b :: v) = true → forallb HeaderValue.is_valid (b :: v) = true → is_lwsp b = false → headers_ok walk (one_header n (b :: v)).
Proof.
  intros H1 H2 H3 H4 H5. split; [|done]. unfold walk, one_header, put. cbn [Headers.map fst snd]. change (Headers.map Headers.new) with (∅ : gmap bytes HeaderValue.t). rewrite insert_empty, map_to_list_singleton.
  constructor; [|constructor]. split; [by apply List.Forall_forall, forallb_forall|]. split; [done|]. exists (b :: v). split; [done|]. split; [by apply List.Forall_forall, forallb_forall|].
  split; [by apply List.Forall_forall, forallb_forall|done].
Qed.
Lemma no_header_ok : headers_ok walk Headers.new.
Proof. split; [constructor|done]. Qed.
Lemma sample_readable : readable walk true sample.
Proof.
  assert (Hp : ∀ b p, headers_ok walk (MimePart.headers p) → get_content_type_boundary (MimePart.headers p) = None → Forall (λ c, c ≠ 45) (mix_rest (MimePart.body p)) → xpart_ok walk true b (Part p)).
  { intros b p H1 H2 H3. apply x_part; [done|done|]. by apply no_dash. }
  split; [by repeat constructor|]. split; [done|]. constructor; [|constructor; [|constructor]].
  - apply Hp; [by apply one_header_ok|by vm_compute|by repeat constructor].
  - apply x_multi; [done|by apply one_header_ok|by vm_compute|by repeat constructor|]. constructor; [|constructor; [|constructor]]; (apply Hp; [apply no_header_ok|by vm_compute|by repeat constructor]).
Qed.
Lemma mime_roundtrip_witness :
  ∃ pieces e, calls (MimeMultiEncoder.data false) [7; 500] (MimeMultiEncoder.from_multi walk sample) = (Ok pieces, e) ∧
  ∃ out, decode_segments [concat pieces ++ str "rest"] X.new = Ok (Complete (mk_multi Headers.new (str "outer") (map norm (list_ sample))), out) ∧ concat out = str "rest".
Proof.
  destruct (mime_roundtrip walk true false sample [7; 500] sample_readable) as (pieces & e & He & H); [by repeat constructor|by repeat constructor|by vm_compute|].
  exists pieces, e. split; [exact He|]. apply H; [|cbn [concat]; by rewrite app_nil_r|cbn; lia]. constructor; [|constructor]. by destruct (concat pieces).
Defined.

(** * What is not read back *)

(** The first boundary of a nested multipart is looked for in one segment only: behind a cut
    the rest of it is taken for headers. *)
Lemma nested_cut_refused : ∃ k, decode_segments [upto k (multi_wire walk sample); from k (multi_wire walk sample)] X.new = Err InvalidInput.
Proof. exists (len (str "--outer" ++ CRLF ++ str "accept:text/html" ++ CRLF ++ CRLF ++ str "first" ++ CRLF ++ str "--outer" ++ CRLF ++ str "content-type:multipart/mixed; boundary=inner" ++ CRLF ++ CRLF ++ str "--in")). by vm_compute. Qed.
(** A line in front of the first boundary (RFC 2046 has preambles) makes the decoder drop
    what is behind it in the segment. *)
Lemma preamble_drops_segment s : X.decode (str "preamble" ++ CRLF ++ s) X.new = (Ok (Partial (), []), X.new).
Proof. done. Qed.
(** White space alone in a segment where a header can start: [buf[0]] is out of range. *)
Lemma blank_segment_panics : decode_segments [str "--b" ++ CRLF; str " "] X.new = Panic.
Proof. by vm_compute. Qed.
(** A multipart without parts is read back with one. *)
Lemma empty_multipart_gets_part :
  decode_segments [multi_wire walk (mk_multi Headers.new (str "b") [])] X.new = Ok (Complete (mk_multi Headers.new (str "b") [Part MimePart.new]), [[]]).
Proof. by vm_compute. Qed.
(** A reader that is not ready: [poll_data] has put the boundary and the headers into the
    buffer of the call, which returns [Pending], and the encoder of the part is gone. *)
Lemma pending_loses_part :
  let m := mk_multi Headers.new (str "b") [Part (MimePart.mk (one_header (str "accept") (str "text/html")) (MixFrom.AsyncReader [RWait; RData (str "body")]))] in
  let '(r, e) := MimeMultiEncoder.data true 100 (MimeMultiEncoder.from_multi walk m) in
  r = Err Waits ∧ (MimeMultiEncoder.data true 100 e).1 = Ok (CRLF ++ str "--b--" ++ CRLF).
Proof. by vm_compute. Qed.
(** The same with the encoder of a part alone: the headers are lost. *)
Lemma pending_loses_headers :
  let p := MimePart.mk (one_header (str "accept") (str "text/html")) (MixFrom.AsyncReader [RWait; RData (str "body")]) in
  let '(r, e) := MimePartEncoder.data true 100 (MimePartEncoder.from_part walk p) in
  r = Err Waits ∧ (MimePartEncoder.data true 100 e).1 = Ok (str "body").
Proof. by vm_compute. Qed.
