(* ===== verification/H1Pool.v ===== *)
(** The pool of HTTP/1 connections of one server, shared by the tasks of the client:
    [Conns::conn_h1] with [acquire_h1_permit], [exist_h1_conn] and [dispatch_h1_conn]
    ([ylong_http_client/src/async_impl/pool.rs]), and the dispatcher and handle of a
    connection ([mod http1] of [util/dispatcher.rs]).

    A task is where it is in [conn_h1] and in the life of the handle that it gets; a step
    is one atomic operation of one task (a load, a compare-and-exchange or a store of a
    flag, taking or giving back a permit or the lock of the list), so that the runs are the
    interleavings of the tasks. *)
From S2P Require Import Prelude.

(** * Connections *)

Module Inner.
Record t := mk { occupied : bool; shutdown : bool }.
Definition new : t := mk false false.
(** [dispatch]: the exchange of [occupied]; [None] when it fails. *)
Definition dispatch (c : t) : option t := if occupied c then None else Some (mk true (shutdown c)).
Definition is_shutdown (c : t) : bool := shutdown c.
(** [Http1Conn::shutdown], and [Drop] of the handle. *)
Definition do_shutdown (c : t) : t := mk (occupied c) true.
Definition drop (c : t) : t := mk false (shutdown c).
End Inner.

(** * The pool and its tasks *)

Inductive task :=
| TIdle                      (* no request *)
| TPermit                    (* [acquire_h1_permit] has returned *)
| TRetain (kept : nat)       (* in [exist_h1_conn], with the lock: [retain] *)
| TScan (todo : list nat)    (* with the lock: [find_map] over the dispatchers *)
| TConnect                   (* there was none: [connector.connect] *)
| TPush (id : nat)           (* in [dispatch_h1_conn], with a handle, before [list.lock()] *)
| TUse (id : nat)            (* with a handle and its permit *)
| TDrop (id : nat)           (* [Drop] of the handle has run; its fields are dropped next: *)
| TClose (id : nat).         (* [sem], the permit, is gone, [inner] is not yet *)

Module Conns.
Record t := mk {
  usable : nat;              (* permits *)
  conns : list Inner.t;      (* every connection ever made *)
  pool : list nat;           (* [list]: their dispatchers *)
  lock : option nat;         (* the task that has the lock of [list] *)
  tasks : list task;
}.
Definition new (max_conn_num ntasks : nat) : t := mk max_conn_num [] [] None (replicate ntasks TIdle).
Definition set_task (i : nat) (x : task) (s : t) : t := mk (usable s) (conns s) (pool s) (lock s) (<[i := x]> (tasks s)).
Definition set_usable (n : nat) (s : t) : t := mk n (conns s) (pool s) (lock s) (tasks s).
Definition set_conns (c : list Inner.t) (s : t) : t := mk (usable s) c (pool s) (lock s) (tasks s).
Definition set_pool (p : list nat) (s : t) : t := mk (usable s) (conns s) p (lock s) (tasks s).
Definition set_lock (l : option nat) (s : t) : t := mk (usable s) (conns s) (pool s) l (tasks s).

(** [acquire_h1_permit]: waits ([None]) while there is none. *)
Definition acquire_h1_permit (i : nat) (s : t) : option t :=
  match usable s with O => None | S n => Some (set_task i TPermit (set_usable n s)) end.
(** [exist_h1_conn]: [list.lock()], one turn of [retain], and one turn of [find_map],
    at the end of which the lock is given back. *)
Definition lock_list (i : nat) (s : t) : option t :=
  match lock s with Some _ => None | None => Some (set_task i (TRetain 0) (set_lock (Some i) s)) end.
Definition retain_turn (i n : nat) (s : t) : option t :=
  match pool s !! n with
  | Some id =>
      conn ← conns s !! id;
      Some (if Inner.is_shutdown conn then set_pool (delete n (pool s)) s else set_task i (TRetain (S n)) s)
  | None => Some (set_task i (TScan (reverse (pool s))) s)
  end.
Definition find_turn (i : nat) (todo : list nat) (s : t) : option t :=
  match todo with
  | [] => Some (set_task i TConnect (set_lock None s))
  | id :: todo =>
      conn ← conns s !! id;
      match Inner.dispatch conn with
      | Some conn => Some (set_task i (TUse id) (set_lock None (set_conns (<[id := conn]> (conns s)) s)))
      | None => Some (set_task i (TScan todo) s)
      end
  end.
(** [connector.connect], and [dispatch_h1_conn] up to [list.lock()] and from there. *)
Definition connect (i : nat) (connected : bool) (s : t) : option t :=
  if connected then
    conn ← Inner.dispatch Inner.new;
    Some (set_task i (TPush (length (conns s))) (set_conns (conns s ++ [conn]) s))
  else Some (set_task i TIdle (set_usable (S (usable s)) s)).
Definition dispatch_h1_conn (i id : nat) (s : t) : option t :=
  match lock s with
  | Some _ => None
  | None => Some (set_task i (TUse id) (set_pool (pool s ++ [id]) s))
  end.
(** What a task does with its handle that concerns the pool: shut it down, or drop it. *)
Definition use_handle (i id : nat) (shut : bool) (s : t) : option t :=
  conn ← conns s !! id;
  if shut then Some (set_conns (<[id := Inner.do_shutdown conn]> (conns s)) s)
  else Some (set_task i (TDrop id) (set_conns (<[id := Inner.drop conn]> (conns s)) s)).
(** The fields of a handle in the order of their declaration: [sem] gives the permit
    back, then [inner], whose last owner closes the socket. *)
Definition drop_sem (i id : nat) (s : t) : option t := Some (set_task i (TClose id) (set_usable (S (usable s)) s)).
Definition drop_inner (i : nat) (s : t) : option t := Some (set_task i TIdle s).

(** One atomic step of task [i] on its way through [conn_h1] and with its handle; [c] is
    what the outside decides: whether connecting succeeds, and whether a handle is shut
    down or dropped.  [None]: the task waits. *)
Definition step (i : nat) (c : bool) (s : t) : option t :=
  x ← tasks s !! i;
  match x with
  | TIdle => acquire_h1_permit i s
  | TPermit => lock_list i s
  | TRetain n => retain_turn i n s
  | TScan todo => find_turn i todo s
  | TConnect => connect i c s
  | TPush id => dispatch_h1_conn i id s
  | TUse id => use_handle i id c s
  | TDrop id => drop_sem i id s
  | TClose _ => drop_inner i s
  end.
Fixpoint run (sched : list (nat * bool)) (s : t) : option t :=
  match sched with [] => Some s | (i, c) :: sched => s ← step i c s; run sched s end.
End Conns.
Import Conns.

Inductive reachable (max ntasks : nat) : Conns.t → Prop :=
| reach_new : reachable max ntasks (new max ntasks)
| reach_step i c s s' : reachable max ntasks s → step i c s = Some s' → reachable max ntasks s'.

(** * Counting tasks *)

Lemma bind_insert {A} (g : task → list A) l i x y :
  l !! i = Some x → (<[i := y]> l ≫= g) ++ g x ≡ₚ (l ≫= g) ++ g y.
Proof.
  revert i. induction l as [|z l IH]; intros [|i]; simpl; [done..| |].
  - intros [= ->]. rewrite <- !(assoc_L (++)). etrans; [apply Permutation_app_swap_app|]. symmetry.
    etrans; [apply Permutation_app_swap_app|]. apply Permutation_app_head, Permutation_app_comm.
  - intros Hi. rewrite <- !(assoc_L (++)). by rewrite (IH i Hi).
Qed.
Lemma count_insert (f : task → nat) l i x y :
  l !! i = Some x → (sum_list_with f (<[i := y]> l) + f x = sum_list_with f l + f y)%nat.
Proof.
  revert i. induction l as [|z l IH]; intros [|i]; simpl; [done..| |]; [intros [= ->]; lia|]. intros Hi. specialize (IH i Hi). lia.
Qed.
Lemma count_below (f h : task → nat) l i x :
  (∀ y, f y ≤ h y)%nat → l !! i = Some x → (f x < h x)%nat → (sum_list_with f l < sum_list_with h l)%nat.
Proof.
  intros Hle. assert (Hall : ∀ k : list task, (sum_list_with f k ≤ sum_list_with h k)%nat)
    by (induction k as [|y k IHk]; simpl; [lia|specialize (Hle y); lia]).
  revert i. induction l as [|z l IH]; intros [|i]; simpl; [done..| |].
  - intros [= ->] Hx. specialize (Hall l). lia.
  - intros Hi Hx. specialize (IH i Hi Hx). specialize (Hle z). lia.
Qed.
Lemma length_bind {A} (g : task → list A) l : length (l ≫= g) = sum_list_with (length ∘ g) l.
Proof. induction l as [|x l IH]; [done|]. by rewrite bind_cons, length_app, IH. Qed.

(** * What holds of every interleaving *)

(** The tasks with a permit. *)
Definition holds (x : task) : nat := match x with TIdle | TClose _ => 0 | _ => 1 end.
Definition connecting (x : task) : nat := match x with TConnect => 1 | _ => 0 end.
(** The connection a task has the handle of, and the one it keeps open with its permit. *)
Definition owns (x : task) : list nat := match x with TUse id | TPush id => [id] | _ => [] end.
Definition keeps (x : task) : list nat := match x with TUse id | TPush id | TDrop id => [id] | _ => [] end.
Definition locking (x : task) : bool := match x with TRetain _ | TScan _ => true | _ => false end.
Definition owned (s : Conns.t) : list nat := tasks s ≫= owns.
Definition kept (s : Conns.t) : list nat := tasks s ≫= keeps.
Definition beyond (p l : list nat) : list nat := remove_dups (filter (.∉ p) l).
(** The connections that are open or about to be: in the pool, kept by a task but no longer
    (or not yet) in the pool, and being made. *)
Definition open_conns (s : Conns.t) : nat := length (pool s) + length (beyond (pool s) (kept s)) + sum_list_with connecting (tasks s).
(** The sockets there are: also those whose permit is given back and which are closed next. *)
Definition closing (x : task) : list nat := match x with TClose id => [id] | _ => [] end.
Definition sockets (s : Conns.t) : nat :=
  length (remove_dups (pool s ++ kept s ++ (tasks s ≫= closing))) + sum_list_with connecting (tasks s).

Record pool_inv (max : nat) (s : Conns.t) : Prop := {
  inv_permits : (usable s + sum_list_with holds (tasks s) = max)%nat;
  inv_owned : NoDup (owned s);
  inv_occupied id c : conns s !! id = Some c → Inner.occupied c = true ↔ id ∈ owned s;
  inv_ids id : id ∈ owned s ∨ id ∈ pool s → (id < length (conns s))%nat;
  inv_pool : NoDup (pool s);
  inv_push i id : tasks s !! i = Some (TPush id) → id ∉ pool s;
  inv_open : (open_conns s ≤ max)%nat;
  inv_lock i x : tasks s !! i = Some x → locking x = true ↔ lock s = Some i;
  inv_scan i todo : tasks s !! i = Some (TScan todo) →
    (∀ id, id ∈ todo → id ∈ pool s) ∧ ((open_conns s < max)%nat ∨ ∃ id, id ∈ todo ∧ id ∉ owned s);
}.

Lemma owned_in s i x id : tasks s !! i = Some x → id ∈ owns x → id ∈ owned s.
Proof. intros Hi Hx. apply list_elem_of_bind. exists x. split; [done|]. by apply list_elem_of_lookup_2 in Hi. Qed.
Lemma owner_unique s i j id x y :
  NoDup (owned s) → tasks s !! i = Some x → tasks s !! j = Some y → id ∈ owns x → id ∈ owns y → i = j.
Proof.
  unfold owned. generalize (tasks s) as l. intros l. revert i j. induction l as [|z l IH]; intros [|i] [|j] Hnd Hi Hj Hx Hy; try done;
    rewrite bind_cons in Hnd; apply list.NoDup_app in Hnd as (_ & Hdisj & Hnd); simpl in Hi, Hj.
  - injection Hi as ->. destruct (Hdisj id Hx). apply list_elem_of_bind. exists y. split; [done|by apply list_elem_of_lookup_2 in Hj].
  - injection Hj as ->. destruct (Hdisj id Hy). apply list_elem_of_bind. exists x. split; [done|by apply list_elem_of_lookup_2 in Hi].
  - f_equal. by apply IH.
Qed.
Lemma owns_keeps x id : id ∈ owns x → id ∈ keeps x.
Proof. destruct x; try done; by intros ?%elem_of_nil. Qed.
Lemma owned_kept s id : id ∈ owned s → id ∈ kept s.
Proof. unfold owned, kept. rewrite !list_elem_of_bind. intros (x & Hx & Hin). exists x. split; [by apply owns_keeps|done]. Qed.
Lemma elem_beyond p l id : id ∈ beyond p l ↔ (id ∉ p) ∧ id ∈ l.
Proof. unfold beyond. by rewrite elem_of_remove_dups, list_elem_of_filter. Qed.
Lemma beyond_le p l k : (∀ id, id ∈ l → id ∉ p → id ∈ k) → (length (beyond p l) ≤ length k)%nat.
Proof.
  intros H. apply submseteq_length, NoDup_submseteq; [apply NoDup_remove_dups|]. intros id [? ?]%elem_beyond. by apply H.
Qed.
(** A task that scans found every connection of the pool taken: then there is room. *)
Lemma all_taken max s i x :
  pool_inv max s → tasks s !! i = Some x → locking x = true → (∀ id, id ∈ pool s → id ∈ owned s) → (open_conns s < max)%nat.
Proof.
  intros Hs Hi Hx Hall. destruct Hs as [Hp Ho _ _ Hpool _ _ _ _].
  assert (Hown : (length (pool s) + length (beyond (pool s) (kept s)) ≤ length (kept s))%nat).
  { assert (Hsub : pool s ++ beyond (pool s) (kept s) ⊆+ kept s); [|apply submseteq_length in Hsub; by rewrite length_app in Hsub].
    apply NoDup_submseteq.
    - apply list.NoDup_app. split; [done|]. split; [|apply NoDup_remove_dups]. intros id Hid. rewrite elem_beyond. tauto.
    - intros id [Hid|Hid]%elem_of_app; [by apply owned_kept, Hall|by apply elem_beyond in Hid as [_ ?]]. }
  assert (Hlt : (sum_list_with (λ y, length (keeps y) + connecting y) (tasks s) < sum_list_with holds (tasks s))%nat).
  { apply (count_below _ _ _ i x); [by intros []; simpl; lia|done|destruct x; try done; simpl; lia]. }
  assert (Hsplit : (sum_list_with (λ y, length (keeps y) + connecting y) (tasks s) = length (kept s) + sum_list_with connecting (tasks s))%nat).
  { unfold kept. rewrite length_bind. clear. generalize (tasks s) as ts. induction ts as [|y l IH]; simpl; [done|]. rewrite IH. unfold compose. lia. }
  unfold open_conns. lia.
Qed.

Lemma task_lookup (l : list task) i y j z :
  <[i := y]> l !! j = Some z → (j = i ∧ z = y) ∨ (j ≠ i ∧ l !! j = Some z).
Proof. rewrite list_lookup_insert_Some. intros [(-> & -> & _)|[Hne H]]; [by left|right; by split; [congruence|]]. Qed.

(** What the tasks keep when one of them moves on. *)
Lemma kept_insert l i x y id :
  l !! i = Some x → (∀ id, id ∈ keeps y → id ∈ keeps x) → id ∈ <[i := y]> l ≫= keeps → id ∈ l ≫= keeps.
Proof.
  intros Hi Hk. rewrite !list_elem_of_bind. intros (z & Hz & (j & Hj)%list_elem_of_lookup_1). apply task_lookup in Hj as [[-> ->]|[_ Hj]].
  - exists x. split; [by apply Hk|by apply list_elem_of_lookup_2 in Hi].
  - exists z. split; [done|by apply list_elem_of_lookup_2 in Hj].
Qed.
Lemma kept_insert_keep l i x y id : l !! i = Some x → id ∈ <[i := y]> l ≫= keeps → id ∈ keeps y ∨ id ∈ l ≫= keeps.
Proof.
  intros Hi. rewrite !list_elem_of_bind. intros (z & Hz & (j & Hj)%list_elem_of_lookup_1). apply task_lookup in Hj as [[-> ->]|[_ Hj]]; [by left|].
  right. exists z. split; [done|by apply list_elem_of_lookup_2 in Hj].
Qed.
Lemma kept_in s i x id : tasks s !! i = Some x → id ∈ keeps x → id ∈ kept s.
Proof. intros Hi Hx. apply list_elem_of_bind. exists x. split; [done|]. by apply list_elem_of_lookup_2 in Hi. Qed.

(** Steps that leave the connections with their owners. *)
Lemma keep_owners max s s' i x y :
  pool_inv max s → tasks s !! i = Some x → tasks s' = <[i := y]> (tasks s) → owns y = owns x → (∀ id, id ∈ keeps y → id ∈ keeps x) → (∀ id, y ≠ TPush id) →
  pool s' = pool s → Inner.occupied <$> conns s' = Inner.occupied <$> conns s →
  (usable s' + holds y = usable s + holds x)%nat →
  (locking y = true ↔ lock s' = Some i) → (∀ j, j ≠ i → lock s' = Some j ↔ lock s = Some j) →
  (connecting y ≤ connecting x ∨ lock s = Some i ∧ open_conns s < max ∧ connecting y ≤ S (connecting x))%nat →
  (∀ todo, y = TScan todo → connecting x = O ∧ (∀ id, id ∈ todo → id ∈ pool s) ∧
    ((open_conns s < max)%nat ∨ ∃ id, id ∈ todo ∧ id ∉ owned s)) →
  pool_inv max s'.
Proof.
  intros Hs Hi Ht Hown Hkeep Hpush Hpool Hocc Hperm Hlock Hlocks Hconn Hscan. pose proof Hs as [Hp Ho Hoc Hids Hpo Hpu Hop Hlk Hsc].
  assert (Hperm' : owned s' ≡ₚ owned s).
  { unfold owned. rewrite Ht. pose proof (bind_insert owns (tasks s) i x y Hi) as Hb. rewrite Hown in Hb. by eapply Permutation_app_inv_r. }
  assert (Hout : (length (beyond (pool s') (kept s')) ≤ length (beyond (pool s) (kept s)))%nat).
  { rewrite Hpool. apply beyond_le. intros id Hid Hni. apply elem_beyond. split; [done|]. revert Hid. unfold kept. rewrite Ht.
    apply (kept_insert _ i x y id Hi Hkeep). }
  assert (Hlen : length (conns s') = length (conns s)) by (apply (f_equal length) in Hocc; by rewrite !length_fmap in Hocc).
  pose proof (count_insert connecting (tasks s) i x y Hi) as Hc. pose proof (count_insert holds (tasks s) i x y Hi) as Hh.
  assert (Hlook : ∀ j z, tasks s' !! j = Some z → (j = i ∧ z = y) ∨ (j ≠ i ∧ tasks s !! j = Some z)).
  { intros j z. rewrite Ht. apply task_lookup. }
  assert (Hopen : (open_conns s' + connecting x ≤ open_conns s + connecting y)%nat) by (unfold open_conns; rewrite Ht; rewrite Hpool in *; lia).
  split.
  - rewrite Ht. lia.
  - by rewrite Hperm'.
  - intros id c Hid. rewrite Hperm'. assert (Hex : ∃ c0, conns s !! id = Some c0 ∧ Inner.occupied c0 = Inner.occupied c).
    { apply (f_equal (lookup id)) in Hocc. rewrite !list_lookup_fmap, Hid in Hocc. destruct (conns s !! id) as [c0|]; [|done]. exists c0. split; [done|]. by injection Hocc as ->. }
    destruct Hex as (c0 & Hc0 & <-). by apply Hoc.
  - intros id. rewrite Hperm', Hpool, Hlen. apply Hids.
  - by rewrite Hpool.
  - intros j id Hj. rewrite Hpool. apply Hlook in Hj as [[_ Hj]|[_ Hj]]; [by destruct (Hpush id)|by apply (Hpu j)].
  - lia.
  - intros j z Hj. apply Hlook in Hj as [[-> ->]|[Hne Hj]]; [done|]. rewrite (Hlocks j Hne). by apply Hlk.
  - intros j todo Hj. rewrite Hpool. apply Hlook in Hj as [[-> Hj]|[Hne Hj]].
    + destruct (Hscan todo (eq_sym Hj)) as (Hc0 & Hsub & Hor). split; [done|]. destruct Hor as [Hor|(id & Hid & Hni)].
      * left. subst y. simpl in Hopen. lia.
      * right. exists id. by rewrite Hperm'.
    + destruct (Hsc j todo Hj) as [Hsub Hor]. split; [done|]. assert (Hlj : lock s = Some j) by (by apply (Hlk j (TScan todo))).
      destruct Hor as [Hor|(id & Hid & Hni)]; [left|right; exists id; by rewrite Hperm'].
      destruct Hconn as [Hconn|[Hli _]]; [lia|]. congruence.
Qed.

(** ** Steps that move a connection *)

Lemma retain_inv max s i n id c :
  pool_inv max s → tasks s !! i = Some (TRetain n) → pool s !! n = Some id → conns s !! id = Some c →
  pool_inv max (set_pool (delete n (pool s)) s).
Proof.
  intros Hs Hi Hn Hc. destruct Hs as [Hp Ho Hoc Hids Hpo Hpu Hop Hlk Hsc].
  pose proof (delete_Permutation _ _ _ Hn) as Hperm. assert (Hsub : ∀ j, j ∈ delete n (pool s) → j ∈ pool s) by (intros j Hj; rewrite Hperm; by right).
  assert (Hlocked : lock s = Some i) by (by apply (Hlk i (TRetain n))).
  split; try done.
  - intros j [Hj|Hj]; apply Hids; [by left|right; by apply Hsub].
  - rewrite Hperm in Hpo. by apply list.NoDup_cons in Hpo as [_ ?].
  - intros j id' Hj Hin. by apply (Hpu j id' Hj), Hsub.
  - unfold open_conns, kept in *. cbn [pool tasks set_pool]. pose proof (Permutation_length Hperm) as Hl. simpl in Hl.
    pose proof (beyond_le (delete n (pool s)) (tasks s ≫= keeps) (id :: beyond (pool s) (tasks s ≫= keeps))) as Hf.
    assert (∀ j, j ∈ pool s → j = id ∨ j ∈ delete n (pool s)) as Hx by (intros j; rewrite Hperm at 1; by rewrite elem_of_cons). simpl in Hf.
    specialize (Hf ltac:(intros j Hj Hnj; apply elem_of_cons; destruct (decide (j = id)); [by left|right; apply elem_beyond; split; [|done]; intros [?|?]%Hx; done])). lia.
  - intros j todo Hj. exfalso. cbn [tasks set_pool] in Hj. assert (lock s = Some j) by (by apply (Hlk j (TScan todo))).
    assert (j = i) as -> by congruence. congruence.
Qed.
Lemma found_inv max s i id todo c :
  pool_inv max s → tasks s !! i = Some (TScan (id :: todo)) → conns s !! id = Some c → Inner.occupied c = false →
  pool_inv max (set_task i (TUse id) (set_lock None (set_conns (<[id := Inner.mk true (Inner.shutdown c)]> (conns s)) s))).
Proof.
  intros Hs Hi Hc Hfree. pose proof Hs as [Hp Ho Hoc Hids Hpo Hpu Hop Hlk Hsc].
  assert (Hni : id ∉ owned s) by (rewrite <- (Hoc id c Hc); congruence). destruct (Hsc i _ Hi) as [Hsub _].
  assert (Hidp : id ∈ pool s) by (apply Hsub; by left). assert (Hlocked : lock s = Some i) by (by apply (Hlk i (TScan (id :: todo)))).
  pose proof (bind_insert owns (tasks s) i _ (TUse id) Hi) as Hb. simpl in Hb. rewrite app_nil_r, Permutation_app_comm in Hb. simpl in Hb.
  pose proof (count_insert connecting (tasks s) i _ (TUse id) Hi) as Hcn. pose proof (count_insert holds (tasks s) i _ (TUse id) Hi) as Hh. simpl in Hcn, Hh.
  assert (Hlt : (id < length (conns s))%nat) by (by apply lookup_lt_Some in Hc).
  assert (Hown : ∀ j, j ∈ (<[i:=TUse id]> (tasks s) ≫= owns) ↔ j = id ∨ j ∈ owned s) by (intros j; rewrite Hb; apply elem_of_cons).
  split; unfold owned; cbn [set_task set_lock set_conns tasks usable conns pool lock].
  - lia.
  - rewrite Hb. by constructor.
  - intros j c' Hj. rewrite Hown. destruct (decide (j = id)) as [->|Hne].
    + rewrite list_lookup_insert_eq in Hj by done. injection Hj as <-. simpl. tauto.
    + rewrite list_lookup_insert_ne in Hj by done. rewrite (Hoc j c' Hj). tauto.
  - intros j Hj. rewrite length_insert. apply Hids. rewrite Hown in Hj. destruct Hj as [[->|Hj]|Hj]; auto.
  - done.
  - intros j id' Hj. apply task_lookup in Hj as [[_ [=]]|[_ Hj]]. by apply (Hpu j).
  - unfold open_conns, kept in *. cbn [set_task set_lock set_conns tasks pool].
    pose proof (beyond_le (pool s) (<[i:=TUse id]> (tasks s) ≫= keeps) (beyond (pool s) (tasks s ≫= keeps))) as Hf.
    assert (Hx : ∀ j, j ∈ <[i:=TUse id]> (tasks s) ≫= keeps → j ∉ pool s → j ∈ beyond (pool s) (tasks s ≫= keeps)).
    { intros j [->%list_elem_of_singleton|Hj]%(kept_insert_keep _ _ _ _ _ Hi) Hjp; [done|]. by apply elem_beyond. } specialize (Hf Hx). lia.
  - intros j x Hj. apply task_lookup in Hj as [[-> ->]|[Hne Hj]]; [done|]. rewrite (Hlk j x Hj), Hlocked. split; congruence.
  - intros j todo' Hj. apply task_lookup in Hj as [[_ [=]]|[Hne Hj]]. exfalso. assert (lock s = Some j) by (by apply (Hlk j _ Hj)). congruence.
Qed.
Lemma made_inv max s i :
  pool_inv max s → tasks s !! i = Some TConnect →
  pool_inv max (set_task i (TPush (length (conns s))) (set_conns (conns s ++ [Inner.mk true false]) s)).
Proof.
  intros Hs Hi. pose proof Hs as [Hp Ho Hoc Hids Hpo Hpu Hop Hlk Hsc]. set (id := length (conns s)).
  assert (Hnew : (id ∉ owned s) ∧ (id ∉ pool s)) by (split; intros Hin; [specialize (Hids id (or_introl Hin))|specialize (Hids id (or_intror Hin))]; unfold id in *; lia).
  destruct Hnew as [Hni Hnp].
  pose proof (bind_insert owns (tasks s) i _ (TPush id) Hi) as Hb. simpl in Hb. rewrite app_nil_r, Permutation_app_comm in Hb. simpl in Hb.
  pose proof (count_insert connecting (tasks s) i _ (TPush id) Hi) as Hcn. pose proof (count_insert holds (tasks s) i _ (TPush id) Hi) as Hh. simpl in Hcn, Hh.
  assert (Hown : ∀ j, j ∈ (<[i:=TPush id]> (tasks s) ≫= owns) ↔ j = id ∨ j ∈ owned s) by (intros j; rewrite Hb; apply elem_of_cons).
  assert (Hopen : (open_conns (set_task i (TPush id) (set_conns (conns s ++ [Inner.mk true false]) s)) ≤ open_conns s)%nat).
  { unfold open_conns, kept in *. cbn [set_task set_conns tasks pool].
    pose proof (beyond_le (pool s) (<[i:=TPush id]> (tasks s) ≫= keeps) (id :: beyond (pool s) (tasks s ≫= keeps))) as Hf. simpl in Hf.
    specialize (Hf ltac:(intros j [->%list_elem_of_singleton|Hj]%(kept_insert_keep _ _ _ _ _ Hi) Hjp; [by left|right; by apply elem_beyond])). lia. }
  split; unfold owned; cbn [set_task set_conns tasks usable conns pool lock].
  - lia.
  - rewrite Hb. by constructor.
  - intros j c' Hj. rewrite Hown. apply lookup_snoc_Some in Hj as [[Hlt Hj]|[-> <-]]; [|simpl; tauto].
    rewrite (Hoc j c' Hj). split; [by right|]. intros [->|?]; [unfold id in Hlt; lia|done].
  - intros j Hj. rewrite length_app. simpl. rewrite Hown in Hj. destruct Hj as [[->|Hj]|Hj]; [unfold id; lia| |];
      (assert (Hj' : (j < length (conns s))%nat) by (apply Hids; auto)); lia.
  - done.
  - intros j id' Hj. apply task_lookup in Hj as [[_ Hj]|[_ Hj]]; [by injection Hj as ->|by apply (Hpu j)].
  - lia.
  - intros j x Hj. apply task_lookup in Hj as [[-> ->]|[Hne Hj]]; [|by apply Hlk]. split; [done|]. intros Hl. by apply (Hlk i TConnect Hi) in Hl.
  - intros j todo Hj. apply task_lookup in Hj as [[_ [=]]|[Hne Hj]]. destruct (Hsc j todo Hj) as [Hsub Hor]. split; [done|].
    destruct Hor as [Hor|(id' & Hid' & Hno)]; [left; lia|right]. exists id'. split; [done|]. intros [->|Hin]%Hown; [|done]. by apply Hnp, Hsub.
Qed.
Lemma push_inv max s i id :
  pool_inv max s → tasks s !! i = Some (TPush id) → lock s = None → pool_inv max (set_task i (TUse id) (set_pool (pool s ++ [id]) s)).
Proof.
  intros Hs Hi Hl. pose proof Hs as [Hp Ho Hoc Hids Hpo Hpu Hop Hlk Hsc]. pose proof (Hpu i id Hi) as Hnp.
  assert (Hin : id ∈ owned s) by (apply (owned_in s i (TPush id)); [done|by left]).
  pose proof (bind_insert owns (tasks s) i _ (TUse id) Hi) as Hb. simpl in Hb. apply Permutation_app_inv_r in Hb.
  pose proof (count_insert connecting (tasks s) i _ (TUse id) Hi) as Hcn. pose proof (count_insert holds (tasks s) i _ (TUse id) Hi) as Hh. simpl in Hcn, Hh.
  assert (Hother : ∀ j id', j ≠ i → tasks s !! j = Some (TPush id') → id' ≠ id).
  { intros j id' Hne Hj ->. apply Hne. by apply (owner_unique s j i id (TPush id) (TPush id)); [| | |left|left]. }
  split; unfold owned; cbn [set_task set_pool tasks usable conns pool lock].
  - lia.
  - by rewrite Hb.
  - intros j c' Hj. rewrite Hb. by apply Hoc.
  - intros j Hj. rewrite Hb in Hj. apply Hids. destruct Hj as [Hj|[Hj|Hj%list_elem_of_singleton]%elem_of_app]; [by left|by right|subst; by left].
  - apply list.NoDup_app. split; [done|]. split; [|apply NoDup_singleton]. intros j Hj Hj'%list_elem_of_singleton. by subst.
  - intros j id' Hj. apply task_lookup in Hj as [[_ [=]]|[Hne Hj]]. intros [Hx|Hx%list_elem_of_singleton]%elem_of_app; [by apply (Hpu j id')|by apply (Hother j id')].
  - unfold open_conns, kept in *. cbn [set_task set_pool tasks pool]. rewrite length_app. simpl.
    assert (Hdrop : (S (length (beyond (pool s ++ [id]) (<[i:=TUse id]> (tasks s) ≫= keeps))) ≤ length (beyond (pool s) (tasks s ≫= keeps)))%nat); [|lia].
    assert (Hsub : id :: beyond (pool s ++ [id]) (<[i:=TUse id]> (tasks s) ≫= keeps) ⊆+ beyond (pool s) (tasks s ≫= keeps)); [|by apply submseteq_length in Hsub].
    apply NoDup_submseteq.
    + constructor; [|apply NoDup_remove_dups]. intros [Hx _]%elem_beyond. apply Hx, elem_of_app. right. by apply list_elem_of_singleton.
    + intros j [->|[Hx Hj]%elem_beyond]%elem_of_cons; apply elem_beyond; (split; [|]); [done|apply (kept_in s i _ _ Hi); by left| |].
      * intros Hjp. by apply Hx, elem_of_app; left.
      * by apply (kept_insert _ i _ _ j Hi) in Hj.
  - intros j x Hj. apply task_lookup in Hj as [[-> ->]|[Hne Hj]]; [|by apply Hlk]. rewrite Hl. done.
  - intros j todo Hj. apply task_lookup in Hj as [[_ [=]]|[Hne Hj]]. apply (Hlk j) in Hj. by rewrite (proj1 Hj eq_refl) in Hl.
Qed.
Lemma drop_inv max s i id c :
  pool_inv max s → tasks s !! i = Some (TUse id) → conns s !! id = Some c →
  pool_inv max (set_task i (TDrop id) (set_conns (<[id := Inner.drop c]> (conns s)) s)).
Proof.
  intros Hs Hi Hc. pose proof Hs as [Hp Ho Hoc Hids Hpo Hpu Hop Hlk Hsc].
  pose proof (bind_insert owns (tasks s) i _ (TDrop id) Hi) as Hb. simpl in Hb. rewrite app_nil_r, Permutation_app_comm in Hb. simpl in Hb.
  pose proof (count_insert connecting (tasks s) i _ (TDrop id) Hi) as Hcn. pose proof (count_insert holds (tasks s) i _ (TDrop id) Hi) as Hh. simpl in Hcn, Hh.
  assert (Hnd : NoDup (id :: (<[i:=TDrop id]> (tasks s) ≫= owns))) by (rewrite Hb; exact Ho). apply list.NoDup_cons in Hnd as [Hni Hnd].
  assert (Hown : ∀ j, j ∈ owned s ↔ j = id ∨ j ∈ (<[i:=TDrop id]> (tasks s) ≫= owns)) by (intros j; unfold owned; rewrite <- Hb; apply elem_of_cons).
  assert (Hlt : (id < length (conns s))%nat) by (by apply lookup_lt_Some in Hc).
  assert (Hopen : (open_conns (set_task i (TDrop id) (set_conns (<[id := Inner.drop c]> (conns s)) s)) ≤ open_conns s)%nat).
  { unfold open_conns, kept in *. cbn [set_task set_conns tasks pool].
    pose proof (beyond_le (pool s) (<[i:=TDrop id]> (tasks s) ≫= keeps) (beyond (pool s) (tasks s ≫= keeps))) as Hf.
    specialize (Hf ltac:(intros j Hj Hjp; apply elem_beyond; split; [done|]; by apply (kept_insert _ i _ _ j Hi) in Hj)). lia. }
  split; unfold owned; cbn [set_task set_conns tasks usable conns pool lock].
  - lia.
  - done.
  - intros j c' Hj. destruct (decide (j = id)) as [->|Hne].
    + rewrite list_lookup_insert_eq in Hj by done. injection Hj as <-. by simpl.
    + rewrite list_lookup_insert_ne in Hj by done. rewrite (Hoc j c' Hj), Hown. tauto.
  - intros j Hj. rewrite length_insert. apply Hids. rewrite Hown. tauto.
  - done.
  - intros j id' Hj. apply task_lookup in Hj as [[_ [=]]|[_ Hj]]. by apply (Hpu j).
  - lia.
  - intros j x Hj. apply task_lookup in Hj as [[-> ->]|[Hne Hj]]; [|by apply Hlk]. split; [done|]. intros Hl. by apply (Hlk i _ Hi) in Hl.
  - intros j todo Hj. apply task_lookup in Hj as [[_ [=]]|[Hne Hj]]. destruct (Hsc j todo Hj) as [Hsub Hor]. split; [done|].
    destruct Hor as [Hor|(id' & Hid' & Hno)]; [left; lia|right]. exists id'. split; [done|]. intros Hin. apply Hno, Hown. by right.
Qed.

Lemma step_inv max s i c s' : pool_inv max s → step i c s = Some s' → pool_inv max s'.
Proof.
  intros Hs. pose proof Hs as [Hp Ho Hoc Hids Hpo Hpu Hop Hlk Hsc]. unfold step, acquire_h1_permit, lock_list, retain_turn, find_turn, connect, dispatch_h1_conn, use_handle, drop_sem, drop_inner.
  destruct (tasks s !! i) as [x|] eqn:Hi; [|done].
  pose proof (Hlk i x Hi) as Hli. cbn [mbind option_bind]. destruct x as [| |n|[|id todo]| |id|id|id|id].
  - destruct (usable s) as [|n] eqn:Hu; [done|]. intros [= <-].
    apply (keep_owners max s _ i TIdle TPermit); try done; simpl; [lia|by left].
  - destruct (lock s) eqn:Hl; [done|]. intros [= <-].
    apply (keep_owners max s _ i TPermit (TRetain 0)); try done; simpl; [|by left]. intros j Hne. rewrite Hl. split; congruence.
  - assert (Hlock : lock s = Some i) by (by apply Hli). destruct (pool s !! n) as [id|] eqn:Hn.
    + destruct (conns s !! id) as [conn|] eqn:Hc; [|done]. simpl. intros [= <-]. destruct (Inner.is_shutdown conn); [by apply (retain_inv max s i n id conn)|].
      apply (keep_owners max s _ i (TRetain n) (TRetain (S n))); try done; simpl. by left.
    + intros [= <-]. apply (keep_owners max s _ i (TRetain n) (TScan (reverse (pool s)))); try done; simpl; [by left|].
      intros todo [= <-]. split; [done|]. split; [intros id; by rewrite elem_of_reverse|].
      destruct (decide (Forall (λ id, id ∈ owned s) (pool s))) as [Hall|Hall].
      * left. apply (all_taken max s i (TRetain n)); try done. intros id Hid. rewrite list.Forall_forall in Hall. by apply Hall.
      * right. apply not_Forall_Exists in Hall; [|apply _]. apply list.Exists_exists in Hall as (id & Hid & Hno). exists id. by rewrite elem_of_reverse.
  - assert (Hlock : lock s = Some i) by (by apply Hli). intros [= <-].
    destruct (Hsc i [] Hi) as [_ [Hroom|(id & Hid & _)]]; [|by apply elem_of_nil in Hid].
    apply (keep_owners max s _ i (TScan []) TConnect); try done; simpl; [|by right]. intros j Hne. rewrite Hlock. split; congruence.
  - assert (Hlock : lock s = Some i) by (by apply Hli). destruct (conns s !! id) as [conn|] eqn:Hc; [|done]. simpl. unfold Inner.dispatch.
    destruct (Inner.occupied conn) eqn:Hoccu; intros [= <-]; [|by apply found_inv with todo].
    apply (keep_owners max s _ i (TScan (id :: todo)) (TScan todo)); try done; simpl; [by left|]. intros todo' [= <-].
    destruct (Hsc i _ Hi) as [Hsub Hor]. split; [done|]. split; [intros id' Hid'; apply Hsub; by right|].
    destruct Hor as [Hor|(id' & [->|Hid']%elem_of_cons & Hno)]; [by left| |right; by exists id']. by rewrite <- (Hoc id conn Hc) in Hno.
  - destruct c; intros [= <-]; [by apply made_inv|].
    apply (keep_owners max s _ i TConnect TIdle); try done; simpl; [lia|left; lia].
  - destruct (lock s) eqn:Hl; [done|]. intros [= <-]. by apply push_inv.
  - destruct (conns s !! id) as [conn|] eqn:Hc; [|done]. simpl. destruct c; intros [= <-]; [|by apply drop_inv].
    apply (keep_owners max s _ i (TUse id) (TUse id)); try done; simpl; [by rewrite list_insert_id| |by left].
    rewrite list_fmap_insert. by rewrite list_insert_id by (by rewrite list_lookup_fmap, Hc).
  - intros [= <-]. apply (keep_owners max s _ i (TDrop id) (TClose id)); try done; simpl; [by intros ? ?%elem_of_nil|lia|by left].
  - intros [= <-]. apply (keep_owners max s _ i (TClose id) TIdle); try done; simpl. by left.
Qed.
Lemma new_inv max n : pool_inv max (new max n).
Proof.
  assert (Hown : owned (new max n) = []) by (unfold owned; simpl; induction n as [|n IH]; [done|exact IH]).
  assert (Hlook : ∀ i x, tasks (new max n) !! i = Some x → x = TIdle) by (intros i x [-> _]%lookup_replicate_1; done).
  assert (Hsum : ∀ f : task → nat, f TIdle = O → sum_list_with f (tasks (new max n)) = O) by (clear; intros f Hf; simpl; induction n as [|n IH]; simpl; lia).
  assert (Hkept : kept (new max n) = []) by (unfold kept; simpl; clear; induction n as [|n IH]; [done|exact IH]).
  split; unfold open_conns, beyond; rewrite ?Hown, ?Hkept.
  - rewrite Hsum by done. simpl. lia.
  - constructor.
  - intros id c H. cbn [conns new] in H. by rewrite lookup_nil in H.
  - intros id [H|H]; by apply elem_of_nil in H.
  - constructor.
  - intros i id H. by apply Hlook in H.
  - rewrite Hsum by done. simpl. lia.
  - intros i x H. apply Hlook in H. by subst x.
  - intros i todo H. by apply Hlook in H.
Qed.
Lemma reachable_inv max n s : reachable max n s → pool_inv max s.
Proof. induction 1 as [|i c s s' _ IH Hstep]; [apply new_inv|by apply (step_inv max s i c)]. Qed.

Lemma sockets_open s : (sockets s ≤ open_conns s + length (tasks s ≫= closing))%nat.
Proof.
  unfold sockets, open_conns.
  assert (Hsub : remove_dups (pool s ++ kept s ++ (tasks s ≫= closing)) ⊆+ pool s ++ beyond (pool s) (kept s) ++ (tasks s ≫= closing)).
  { apply NoDup_submseteq; [apply NoDup_remove_dups|]. intros id. rewrite elem_of_remove_dups, !elem_of_app, elem_beyond.
    destruct (decide (id ∈ pool s)); tauto. }
  apply submseteq_length in Hsub. rewrite !length_app in Hsub. lia.
Qed.

(** C12: Whatever the order in which the tasks take their steps, a connection of HTTP/1
    has at most one handle (which is what the unsafe [raw_mut] relies on), a handle is only
    held with the connection marked as occupied, and no more than [max_conn_num]
    connections are open at any time: idle in the pool, in use, and being made, together.
    A handle that is dropped gives its permit back before it lets its connection go: with
    the connections in this moment of their drop, the sockets that exist are at most
    [max_conn_num] and one for each task that is in it. *)
Theorem h1_pool_safe max ntasks s :
  reachable max ntasks s →
  (∀ i j id, tasks s !! i = Some (TUse id) → tasks s !! j = Some (TUse id) → i = j) ∧
  (∀ i id, tasks s !! i = Some (TUse id) → ∃ c, conns s !! id = Some c ∧ Inner.occupied c = true) ∧
  (open_conns s ≤ max)%nat ∧ (sockets s ≤ max + length (tasks s ≫= closing))%nat.
Proof.
  intros Hr. pose proof (reachable_inv _ _ _ Hr) as Hs. split; [|split; [|split; [apply Hs|]]].
  - intros i j id Hi Hj. by apply (owner_unique s i j id (TUse id) (TUse id)); [apply Hs|..]; [| |left|left].
  - intros i id Hi. assert (Hin : id ∈ owned s) by (apply (owned_in s i (TUse id)); [done|by left]).
    destruct (lookup_lt_is_Some_2 (conns s) id) as [c Hc]; [apply Hs; by left|]. exists c. split; [done|]. by apply Hs in Hc as [_ Hc']; apply Hc'.
  - pose proof (sockets_open s). pose proof (inv_open _ _ Hs). lia.
Qed.

Lemma run_reachable max n sched s s' : reachable max n s → run sched s = Some s' → reachable max n s'.
Proof.
  revert s. induction sched as [|[i c] sched IH]; intros s Hs; simpl; [by intros [= <-]|].
  destruct (step i c s) as [s1|] eqn:Hst; [|done]. intros Hr. apply (IH s1); [by apply (reach_step max n i c s)|done].
Qed.
(** Two tasks, of which the second waits for the list while the first makes a connection. *)
Definition first_conn : list (nat * bool) := [(0, true); (0, true); (0, true); (0, true); (0, true); (0, true)]%nat.
Definition second_scans : list (nat * bool) := [(1, true); (1, true); (1, true); (1, true)]%nat.
Definition both_used : list (nat * bool) := (first_conn ++ second_scans ++ [(1, true); (1, true); (1, true); (1, true)])%nat.
Lemma h1_pool_safe_witness :
  ∃ s, run both_used (new 2 2) = Some s ∧ tasks s = [TUse 0; TUse 1] ∧
    ((∀ i j id, tasks s !! i = Some (TUse id) → tasks s !! j = Some (TUse id) → i = j) ∧
     (∀ i id, tasks s !! i = Some (TUse id) → ∃ c, conns s !! id = Some c ∧ Inner.occupied c = true) ∧
     (open_conns s ≤ 2)%nat ∧ (sockets s ≤ 2 + length (tasks s ≫= closing))%nat).
Proof.
  assert (Hrun : run both_used (new 2 2) = Some (mk 0 [Inner.mk true false; Inner.mk true false] [0; 1]%nat None [TUse 0; TUse 1])) by reflexivity.
  eexists. split; [exact Hrun|]. split; [reflexivity|].
  exact (h1_pool_safe 2 2 _ (run_reachable 2 2 _ _ _ (reach_new 2 2) Hrun)).
Defined.

(** ** A connection that was shut down may be handed out again *)

(** [exist_h1_conn] looks at [shutdown] of all connections first and then takes the first
    that is free.  A connection that is shut down and dropped in between is handed out:
    the second task gets the connection that the first has shut down. *)
Lemma shutdown_race :
  run (first_conn ++ second_scans ++ [(0, true); (0, false); (1, true)])%nat (new 2 2) =
    Some (mk 0 [Inner.mk true true] [0%nat] None [TDrop 0; TUse 0]).
Proof. reflexivity. Qed.

(** With one permit, the first task has shut its connection down and given the permit back;
    before it lets the connection go, the second takes the permit, drops the dispatcher and
    starts to make a connection: there are two. *)
Lemma permit_before_socket :
  ∃ s, run (first_conn ++ [(0, true); (0, false); (0, true)] ++ [(1, true); (1, true); (1, true); (1, true); (1, true)])%nat (new 1 2) = Some s ∧
    tasks s = [TClose 0; TConnect] ∧ sockets s = 2%nat.
Proof. eexists. split; [reflexivity|]. split; reflexivity. Qed.
