(* ===== verification/Base64.v ===== *)
(** Base64 of the client ([ylong_http_client/src/util/base64.rs]), which writes the
    credentials for a proxy. *)
From S2P Require Import Prelude Headers.

(** * The encoder *)

Module Base64.
Definition BASE64_TABLE : bytes := str "ABCDEFGHIJKLMNOPQRSTUVWXYZabcdefghijklmnopqrstuvwxyz0123456789+/".
Definition symbol (i : Z) : Z := default 0 (BASE64_TABLE !! Z.to_nat i).

(** The loop over [chunks(3)]. *)
Fixpoint encode (input : bytes) : bytes :=
  match input with
  | a :: b :: c :: rest =>
      symbol (Z.land (Z.shiftr a 2) 0x3f) ::
      symbol (Z.lor (Z.shiftl (Z.land a 0x3) 4) (Z.land (Z.shiftr b 4) 0xf)) ::
      symbol (Z.lor (Z.shiftl (Z.land b 0xf) 2) (Z.land (Z.shiftr c 6) 0x3)) ::
      symbol (Z.land c 0x3f) :: encode rest
  | [a; b] =>
      [symbol (Z.land (Z.shiftr a 2) 0x3f);
       symbol (Z.lor (Z.shiftl (Z.land a 0x3) 4) (Z.land (Z.shiftr b 4) 0xf));
       symbol (Z.shiftl (Z.land b 0xf) 2); 61]
  | [a] => [symbol (Z.land (Z.shiftr a 2) 0x3f); symbol (Z.shiftl (Z.land a 0x3) 4); 61; 61]
  | [] => []
  end.
End Base64.
Import Base64.

(** * What base64 is (RFC 4648, section 4) *)

(** The value of a symbol, and the bytes of groups of four of them: the sextets of a
    group are the digits of a number of 24 bits; a group with padding has only zero bits
    behind its bytes. *)
Fixpoint index_of (x : Z) (l : bytes) : option Z :=
  match l with [] => None | y :: l => if x =? y then Some 0 else Z.add 1 <$> index_of x l end.
Definition value (x : Z) : option Z := index_of x BASE64_TABLE.
Definition group (p q r s : Z) : Z := ((p * 64 + q) * 64 + r) * 64 + s.
Fixpoint decode (input : bytes) : option bytes :=
  match input with
  | [] => Some []
  | x :: y :: z :: w :: input =>
      p ← value x; q ← value y;
      if negb (w =? 61) then
        r ← value z; s ← value w; l ← decode input;
        let n := group p q r s in Some (n / 65536 :: n / 256 mod 256 :: n mod 256 :: l)
      else if negb (bool_decide (input = [])) then None
      else if z =? 61 then if q mod 16 =? 0 then Some [group p q 0 0 / 65536] else None
      else
        r ← value z;
        if r mod 4 =? 0 then let n := group p q r 0 in Some [n / 65536; n / 256 mod 256] else None
  | _ => None
  end.

(** * The encoder writes base64 *)

Definition sextets : list Z := Z.of_nat <$> seq 0 64.
Lemma symbol_value i : 0 ≤ i < 64 → value (symbol i) = Some i ∧ (symbol i =? 61) = false ∧ HeaderValue.is_valid (symbol i) = true.
Proof.
  intros Hi. assert (Hall : Forall (λ i, value (symbol i) = Some i ∧ (symbol i =? 61) = false ∧ HeaderValue.is_valid (symbol i) = true) sextets)
    by (repeat (constructor; [by vm_compute|]); constructor).
  apply (proj1 (Forall_forall _ _) Hall), list_elem_of_In, list_elem_of_fmap. exists (Z.to_nat i). split; [lia|]. apply elem_of_seq. lia.
Qed.
Lemma first_sextet a : is_u8 a → Z.land (Z.shiftr a 2) 0x3f = a / 4.
Proof. intros Ha. apply Z.eqb_eq. by apply (forall_octets (λ a, Z.land (Z.shiftr a 2) 0x3f =? a / 4)). Qed.
Lemma forall_octet_pairs (P : Z → Z → bool) a b :
  forallb (λ a, forallb (P a) octets) octets = true → is_u8 a → is_u8 b → P a b = true.
Proof. intros H Ha. apply forall_octets. by apply (forall_octets (λ a, forallb (P a) octets)). Qed.
Lemma second_sextet a b :
  is_u8 a → is_u8 b → Z.lor (Z.shiftl (Z.land a 0x3) 4) (Z.land (Z.shiftr b 4) 0xf) = a mod 4 * 16 + b / 16.
Proof.
  intros Ha Hb. apply Z.eqb_eq.
  apply (forall_octet_pairs (λ a b, Z.lor (Z.shiftl (Z.land a 0x3) 4) (Z.land (Z.shiftr b 4) 0xf) =? a mod 4 * 16 + b / 16)); [|done..].
  by vm_compute.
Qed.
Lemma third_sextet b c :
  is_u8 b → is_u8 c → Z.lor (Z.shiftl (Z.land b 0xf) 2) (Z.land (Z.shiftr c 6) 0x3) = b mod 16 * 4 + c / 64.
Proof.
  intros Hb Hc. apply Z.eqb_eq.
  apply (forall_octet_pairs (λ b c, Z.lor (Z.shiftl (Z.land b 0xf) 2) (Z.land (Z.shiftr c 6) 0x3) =? b mod 16 * 4 + c / 64)); [|done..].
  by vm_compute.
Qed.
Lemma last_sextet c : Z.land c 0x3f = c mod 64.
Proof. exact (Z.land_ones c 6 ltac:(lia)). Qed.
Lemma short_second a : is_u8 a → Z.shiftl (Z.land a 0x3) 4 = a mod 4 * 16.
Proof. intros Ha. apply Z.eqb_eq. by apply (forall_octets (λ a, Z.shiftl (Z.land a 0x3) 4 =? a mod 4 * 16)). Qed.
Lemma short_third b : is_u8 b → Z.shiftl (Z.land b 0xf) 2 = b mod 16 * 4.
Proof. intros Ha. apply Z.eqb_eq. by apply (forall_octets (λ b, Z.shiftl (Z.land b 0xf) 2 =? b mod 16 * 4)). Qed.
Lemma three_bytes a b c :
  is_u8 a → is_u8 b → is_u8 c →
  let n := group (a / 4) (a mod 4 * 16 + b / 16) (b mod 16 * 4 + c / 64) (c mod 64) in
  n / 65536 = a ∧ n / 256 mod 256 = b ∧ n mod 256 = c.
Proof. unfold is_u8, group. intros Ha Hb Hc. simpl. repeat split; Z.to_euclidean_division_equations; lia. Qed.

(** Induction on a list by threes. *)
Lemma by_threes (P : bytes → Prop) :
  P [] → (∀ a, P [a]) → (∀ a b, P [a; b]) → (∀ a b c l, P l → P (a :: b :: c :: l)) → ∀ l, P l.
Proof.
  intros H0 H1 H2 H3 l. cut (P l ∧ (∀ a, P (a :: l)) ∧ (∀ a b, P (a :: b :: l))); [tauto|].
  induction l as [|x l (IH0 & IH1 & IH2)]; [done|]. auto.
Qed.

Ltac sextet := match goal with |- context [value (symbol ?i)] =>
  let H := fresh in assert (0 ≤ i < 64) as H by (unfold is_u8 in *; Z.to_euclidean_division_equations; lia);
  let Hv := fresh in destruct (symbol_value i H) as (Hv & ? & _); rewrite Hv; clear Hv; cbn [mbind option_bind] end.

(** The encoding of any bytes is their base64, and they can be read back from it. *)
Theorem base64_roundtrip input : bytes_ok input → decode (encode input) = Some input.
Proof.
  intros H. induction input as [|a|a b|a b c input IH] using by_threes; [done|..];
    repeat match goal with H : Forall _ (_ :: _) |- _ => inversion_clear H end.
  - cbn [encode decode]. rewrite first_sextet, short_second by done. repeat sextet. simpl.
    rewrite Z_mod_mult. simpl. f_equal. f_equal. unfold group, is_u8 in *. Z.to_euclidean_division_equations; lia.
  - cbn [encode decode]. rewrite first_sextet, second_sextet, short_third by done. repeat sextet.
    destruct (symbol_value (b mod 16 * 4)) as (_ & -> & _); [Z.to_euclidean_division_equations; lia|].
    pose proof (three_bytes a b 0) as (E1 & E2 & _); [done|done|unfold is_u8; lia|]. rewrite Z.add_0_r in E1, E2. simpl.
    rewrite Z_mod_mult. simpl. change (0 mod 64) with 0 in *. by rewrite E1, E2.
  - cbn [encode decode]. rewrite first_sextet, second_sextet, third_sextet, last_sextet by done. repeat sextet.
    destruct (symbol_value (c mod 64)) as (_ & -> & _); [Z.to_euclidean_division_equations; lia|]. simpl.
    pose proof (three_bytes a b c) as (E1 & E2 & E3); [done..|]. rewrite IH by done. simpl. by rewrite E1, E2, E3.
Qed.

(** What it writes may stand in a header, so that [Proxy::basic_auth] does not panic. *)
Lemma encode_valid input : bytes_ok input → Forall (λ b, HeaderValue.is_valid b = true) (encode input).
Proof.
  intros H. induction input as [|a|a b|a b c input IH] using by_threes; [done|..];
    repeat match goal with H : Forall _ (_ :: _) |- _ => inversion_clear H end; cbn [encode];
    rewrite ?first_sextet, ?second_sextet, ?third_sextet, ?last_sextet, ?short_second, ?short_third by done;
    repeat apply Forall_cons_2; try done; try by apply IH.
  all: apply symbol_value; unfold is_u8 in *; Z.to_euclidean_division_equations; lia.
Qed.
