(* ===== verification/HttpBody.v ===== *)
(** The body of a response in the asynchronous client
    ([ylong_http_client/src/async_impl/http_body.rs]): the four kinds of bodies, polled
    with one buffer after the other over a transport that answers as it likes.

    The transport ([StreamData]) is the script of what its reads give: nothing yet, bytes
    (none when the peer has closed), or an error.  A read takes at most the bytes it asks
    for and leaves the rest of a piece to the next one, so that every sequence of answers a
    transport can give is that of some script.  [&mut buf] is its length; the bytes that a
    call puts into it are returned.  Interceptors and timers are parameters of a call. *)
From S2P Require Import Prelude Buffers Headers ChunkBody ChunkDecoder.

(** ** The transport *)

Inductive TransportRole :=
| DirectHttp | DirectHttps | HttpOverHttpProxy | HttpOverHttpsProxy | HttpsOverHttpProxy | HttpsOverHttpsProxy.
Inductive TransportPhase :=
| PhConnect | PhRequestWrite | PhFirstByteWait | PhHeaderDecode | PhBodyDrain | PhBodyDrainSmall | PhBodyDrainLarge.
Inductive HttpVersion := VHttp1 | VHttp2 | VHttp3 | VNegotiate.
#[export] Instance role_eq_dec : EqDecision TransportRole.
Proof. solve_decision. Defined.
#[export] Instance http_version_eq_dec : EqDecision HttpVersion.
Proof. solve_decision. Defined.

(** What a read gives; [closable] is [is_stream_closable] from then on. *)
Inductive io_event := IoPending | IoReady (data : bytes) (closable : bool) | IoError.
Module StreamData.
Record t := mk {
  script : list io_event;
  is_stream_closable : bool;
  http_version : HttpVersion;
  transport_role : TransportRole;
  phase : TransportPhase;
}.
Definition set_script (s : t) (l : list io_event) (c : bool) : t :=
  mk l c (http_version s) (transport_role s) (phase s).
Definition set_transport_phase (s : t) (p : TransportPhase) : t :=
  mk (script s) (is_stream_closable s) (http_version s) (transport_role s) p.

Inductive read_result := ReadPending | ReadFilled (data : bytes) | ReadError.
(** [poll_read] with a buffer of [n] bytes; a script at its end has nothing yet. *)
Definition poll_read (n : Z) (s : t) : read_result * t :=
  match script s with
  | [] => (ReadPending, s)
  | IoPending :: l => (ReadPending, set_script s l (is_stream_closable s))
  | IoError :: l => (ReadError, set_script s l (is_stream_closable s))
  | IoReady data c :: l =>
      if len data <=? n then (ReadFilled data, set_script s l c)
      else (ReadFilled (upto n data), set_script s (IoReady (from n data) c :: l) (is_stream_closable s))
  end.
End StreamData.
Import StreamData.

(** What has become of the connection of a body: still held, given back (the handle is
    dropped, so that the connection may serve the next request), or given back after
    [shutdown], which keeps it from being used again. *)
Inductive conn := Held (s : StreamData.t) | Released | ShutDown.

(** ** Errors and polls *)

Inductive body_error := TimeoutError | NotEof | BodyIncomplete | TransferError | DecodeIoError | InterceptorError
                      | ChunkDecodeError (e : HttpError) | InvalidChunkBody | ExtraData.
Inductive poll (A : Type) := Pending | Ready (a : A).
Arguments Pending {A}.
Arguments Ready {A} a.
Abbreviation answer := (poll (res body_error bytes)).

(** ** How much of a body is read in one poll *)

Inductive BodyLength := BChunk | BLength (n : Z) | BEmpty | BUntilClose.

Definition BODY_READY_DRAIN_READS : nat := 8.
Definition TLS_RECORD_PLAINTEXT : Z := 16 * 1024.
Definition CONNECT_SMALL_BODY : Z := 64 * 1024.
Definition CONNECT_LARGE_BODY : Z := 256 * 1024.
Definition UNLIMITED_BODY_BYTES : Z := 2 ^ 64 - 1.
Definition TRAILER_SIZE : Z := 1024.

Module BodyDrainPolicy.
Record t := mk { max_ready_reads : nat; max_bytes_per_poll : Z; phase : TransportPhase }.
Definition default_body : t := mk BODY_READY_DRAIN_READS UNLIMITED_BODY_BYTES PhBodyDrain.
Definition for_body (role : TransportRole) (body_length : BodyLength) : t :=
  match body_length with
  | BLength len =>
      if bool_decide (role = HttpsOverHttpsProxy) then
        if (0 <=? len) && (len <=? CONNECT_SMALL_BODY) then
          mk BODY_READY_DRAIN_READS UNLIMITED_BODY_BYTES PhBodyDrainSmall
        else if CONNECT_LARGE_BODY <=? len then mk 4 (2 * TLS_RECORD_PLAINTEXT) PhBodyDrainLarge
        else mk 6 (4 * TLS_RECORD_PLAINTEXT) PhBodyDrain
      else default_body
  | _ => default_body
  end.
Definition allowed_read_len (p : t) (remaining drained : Z) : Z :=
  if max_bytes_per_poll p =? UNLIMITED_BODY_BYTES then remaining
  else Z.min remaining (Z.max 0 (max_bytes_per_poll p - drained)).
End BodyDrainPolicy.
Import BodyDrainPolicy.

(** [InterceptorContext]: none, or what [intercept_output] says. *)
Definition interceptor : Type := option (bytes → bool).
Definition intercepted (i : interceptor) (data : bytes) : bool := match i with Some f => f data | None => true end.

(** [Read::read] of the cursor over the bytes that came with the head. *)
Definition read_pre (pre : bytes) (cap : Z) : bytes * bytes := (upto cap pre, from cap pre).
Definition new_pre (pre : bytes) : option bytes := match pre with [] => None | _ => Some pre end.

(** ** A body that ends with the connection *)

Module UntilClose.
Record t := mk { interceptors : interceptor; drain_policy : BodyDrainPolicy.t; pre : option bytes; io : conn }.
Definition new (p : bytes) (s : StreamData.t) (i : interceptor) (d : BodyDrainPolicy.t) : t := mk i d (new_pre p) (Held s).
Definition set_pre (u : t) (p : option bytes) : t := mk (interceptors u) (drain_policy u) p (io u).
Definition set_io (u : t) (s : conn) : t := mk (interceptors u) (drain_policy u) (pre u) s.

(** The [for] loop of [poll_read_io]; [got] is what is in the buffer of [cap] bytes. *)
Fixpoint read_loop (turns : nat) (cap : Z) (got : bytes) (drained : Z) (s : StreamData.t) (u : t) : answer * t :=
  match turns with
  | O => (Ready (Ok got), set_io u (Held s))
  | S turns =>
      if len got =? cap then (Ready (Ok got), set_io u (Held s))
      else
        let n := allowed_read_len (drain_policy u) (cap - len got) drained in
        if n =? 0 then (Ready (Ok got), set_io u (Held s))
        else
          match poll_read n s with
          | (ReadFilled [], s) => (Ready (Ok got), set_io u (if is_stream_closable s then Released else ShutDown))
          | (ReadFilled filled, s) =>
              if intercepted (interceptors u) filled then read_loop turns cap (got ++ filled) (drained + len filled) s u
              else (Ready (Err InterceptorError), set_io u Released)
          | (ReadPending, s) =>
              (match got with [] => Pending | _ => Ready (Ok got) end, set_io u (Held s))
          | (ReadError, s) => (Ready (Err TransferError), set_io u ShutDown)
          end
  end.
Definition data (cap : Z) (u : t) : answer * t :=
  if cap =? 0 then (Ready (Ok []), u)
  else
    let '(got, u) :=
      match pre u with
      | Some p => let '(got, p) := read_pre p cap in
                  match got with [] => ([], set_pre u None) | _ => (got, set_pre u (Some p)) end
      | None => ([], u)
      end in
    if len got <? cap then
      match io u with
      | Held s => read_loop (max_ready_reads (drain_policy u)) cap got 0 s u
      | _ => (Ready (Ok got), u)
      end
    else (Ready (Ok got), u).
End UntilClose.

(** ** A body with a length *)

Module TextData.
Record t := mk {
  interceptors : interceptor; drain_policy : BodyDrainPolicy.t; remaining : Z; pre : option bytes; io : conn }.
Definition new (n : Z) (p : bytes) (s : StreamData.t) (i : interceptor) (d : BodyDrainPolicy.t) : t :=
  mk i d n (new_pre p) (Held s).
Definition set_pre (u : t) (p : option bytes) : t := mk (interceptors u) (drain_policy u) (remaining u) p (io u).
Definition set_io (u : t) (s : conn) : t := mk (interceptors u) (drain_policy u) (remaining u) (pre u) s.
Definition set_remaining (u : t) (n : Z) : t := mk (interceptors u) (drain_policy u) n (pre u) (io u).

Definition consume (filled : Z) (u : t) : res body_error bool * t :=
  if remaining u <? filled then (Err NotEof, set_remaining u 0)
  else (Ok (remaining u - filled =? 0), set_remaining u (remaining u - filled)).

Definition read_remaining (got : bytes) (u : t) : option answer * t :=
  match consume (len got) u with
  | (Ok true, u) =>
      (Some (Ready (Ok got)),
       match io u with Held s => if is_stream_closable s then set_io u Released else u | _ => u end)
  | (Ok false, u) => (None, u)
  | (Err e, u) => (Some (Ready (Err e)), match io u with Held _ => set_io u ShutDown | _ => u end)
  | (Panic, u) => (Some (Ready Panic), u)
  end.

Fixpoint read_loop (turns : nat) (cap : Z) (got : bytes) (drained : Z) (s : StreamData.t) (u : t) : answer * t :=
  match turns with
  | O => (Ready (Ok got), set_io u (Held s))
  | S turns =>
      if len got =? cap then (Ready (Ok got), set_io u (Held s))
      else
        let n := allowed_read_len (drain_policy u) (cap - len got) drained in
        if n =? 0 then (Ready (Ok got), set_io u (Held s))
        else
          match poll_read n s with
          | (ReadFilled [], s) =>
              if is_stream_closable s && (remaining u =? 0) then (Ready (Ok got), set_io u Released)
              else (Ready (Err BodyIncomplete), set_io u ShutDown)
          | (ReadFilled filled, s) =>
              if intercepted (interceptors u) filled then
                match consume (len filled) u with
                | (Ok true, u) => (Ready (Ok (got ++ filled)), set_io u (if is_stream_closable s then Released else Held s))
                | (Ok false, u) => read_loop turns cap (got ++ filled) (drained + len filled) s u
                | (Err e, u) => (Ready (Err e), set_io u ShutDown)
                | (Panic, u) => (Ready Panic, set_io u Released)
                end
              else (Ready (Err InterceptorError), set_io u Released)
          | (ReadPending, s) =>
              (match got with [] => Pending | _ => Ready (Ok got) end, set_io u (Held s))
          | (ReadError, s) => (Ready (Err DecodeIoError), set_io u ShutDown)
          end
  end.
Definition poll_io (cap : Z) (got : bytes) (u : t) : answer * t :=
  if len got <? cap then
    match io u with
    | Held s => read_loop (max_ready_reads (drain_policy u)) cap got 0 s u
    | _ => (Ready (Ok got), u)
    end
  else (Ready (Ok got), u).
Definition data (cap : Z) (u : t) : answer * t :=
  if cap =? 0 then (Ready (Ok []), u)
  else
    match pre u with
    | Some p =>
        let '(got, p) := read_pre p cap in
        match got with
        | [] => poll_io cap [] (set_pre u None)
        | _ =>
            match read_remaining got (set_pre u (Some p)) with
            | (Some result, u) => (result, u)
            | (None, u) => poll_io cap got u
            end
        end
    | None => poll_io cap [] u
    end.
End TextData.

(** ** A chunked body *)

Module ChunkData.
Record t := mk { interceptors : interceptor; decoder : ChunkBodyDecoder.t; pre : option bytes; io : conn }.
Definition new (p : bytes) (s : StreamData.t) (i : interceptor) : t :=
  mk i (ChunkBodyDecoder.contains_trailer ChunkBodyDecoder.new true) (new_pre p) (Held s).
Definition set_pre (c : t) (p : option bytes) : t := mk (interceptors c) (decoder c) p (io c).
Definition set_io (c : t) (s : conn) : t := mk (interceptors c) (decoder c) (pre c) s.
Definition set_decoder (c : t) (d : ChunkBodyDecoder.t) : t := mk (interceptors c) d (pre c) (io c).

(** The [for] loop of [merge_chunks]: the data and whether the body is finished.  The
    ranges of the data follow each other in the buffer, so that moving them to its
    front one after the other joins them. *)
Fixpoint merge_loop (chunks : list Chunk.t) (finished : bool) (got : bytes) : bytes * bool :=
  match chunks with
  | [] => (got, finished)
  | c :: chunks =>
      match Chunk.trailer c with
      | Some _ => merge_loop chunks (finished || bool_decide (Chunk.state c = ChunkState.Finish)) got
      | None =>
          if (Chunk.size c =? 0) && negb (bool_decide (Chunk.state c = ChunkState.MetaSize)) then (got, true)
          else merge_loop chunks finished (got ++ Chunk.data c)
      end
  end.
Definition merge_chunks (buf : bytes) (c : t) : res body_error (bytes * bool) * t :=
  match ChunkBodyDecoder.decode buf (decoder c) with
  | Some (Ok (chunks, junk), d) =>
      let '(got, finished) := merge_loop chunks false [] in
      (if finished && negb (bool_decide (junk = [])) then Err InvalidChunkBody else Ok (got, finished), set_decoder c d)
  | Some (Err e, d) => (Err (ChunkDecodeError e), set_decoder c d)
  | Some (Panic, d) => (Panic, set_decoder c d)
  | None => (Panic, c)
  end.

(** The [while] loop over [pre]; [None] when nothing was found there. *)
Fixpoint pre_loop (fuel : nat) (cap : Z) (c : t) : option answer * t :=
  match fuel with
  | O => (Some (Ready Panic), c)
  | S fuel =>
      match pre c with
      | None => (None, c)
      | Some p =>
          let '(got, p) := read_pre p cap in
          let c := set_pre c (match got with [] => None | _ => Some p end) in
          match merge_chunks got c with
          | (Ok (data, true), c) => (Some (Ready (Ok data)), set_io c (match io c with Held _ => Released | x => x end))
          | (Ok ([], false), c) => pre_loop fuel cap c
          | (Ok (data, false), c) => (Some (Ready (Ok data)), c)
          | (Err e, c) => (Some (Ready (Err e)), c)
          | (Panic, c) => (Some (Ready Panic), c)
          end
      end
  end.
(** The [while] loop over the transport; it goes round when a read had no data in it. *)
Fixpoint io_loop (fuel : nat) (cap : Z) (c : t) : answer * t :=
  match fuel with
  | O => (Ready Panic, c)
  | S fuel =>
      match io c with
      | Held s =>
          match poll_read cap s with
          | (ReadFilled [], s) => (Ready (Err BodyIncomplete), set_io c ShutDown)
          | (ReadFilled filled, s) =>
              match merge_chunks filled c with
              | (Ok (data, finished), c) =>
                  if intercepted (interceptors c) (data ++ from (len data) filled) then
                    if finished : bool then (Ready (Ok data), set_io c Released)
                    else match data with
                         | [] => io_loop fuel cap (set_io c (Held s))
                         | _ => (Ready (Ok data), set_io c (Held s))
                         end
                  else (Ready (Err InterceptorError), set_io c Released)
              | (Err e, c) => (Ready (Err e), set_io c Released)
              | (Panic, c) => (Ready Panic, set_io c Released)
              end
          | (ReadPending, s) => (Pending, set_io c (Held s))
          | (ReadError, s) => (Ready (Err DecodeIoError), set_io c ShutDown)
          end
      | _ => (Ready (Ok []), c)
      end
  end.
Definition pre_fuel (c : t) : nat := match pre c with Some p => 2 + length p | None => 1 end.
(** A read takes an event of the script or a byte of the first one. *)
Definition io_fuel (c : t) : nat :=
  match io c with
  | Held s => S (sum_list ((λ ev, S (match ev with IoReady b _ => length b | _ => 0%nat end)) <$> script s))
  | _ => 1
  end.
Definition data (cap : Z) (c : t) : answer * t :=
  if cap =? 0 then (Ready (Ok []), c)
  else
    match pre_loop (pre_fuel c) cap c with
    | (Some result, c) => (result, c)
    | (None, c) => io_loop (io_fuel c) cap c
    end.
End ChunkData.

(** ** [HttpBody] *)

Module HttpBody.
Inductive Kind := KEmpty | KText (x : TextData.t) | KChunk (x : ChunkData.t) | KUntilClose (x : UntilClose.t).

(** [new]; without a body the connection is given back at once, and shut down when
    there are bytes behind the head. *)
Definition new (i : interceptor) (body_length : BodyLength) (io : StreamData.t) (pre : bytes) : res body_error Kind * conn :=
  let policy := for_body (transport_role io) body_length in
  let io := match body_length with BEmpty => io | _ => set_transport_phase io (BodyDrainPolicy.phase policy) end in
  match body_length with
  | BEmpty => match pre with [] => (Ok KEmpty, Released) | _ => (Err ExtraData, ShutDown) end
  | BLength len => (Ok (KText (TextData.new len pre io i policy)), Held io)
  | BUntilClose => (Ok (KUntilClose (UntilClose.new pre io i policy)), Held io)
  | BChunk => (Ok (KChunk (ChunkData.new pre io i)), Held io)
  end.

(** A poll with a buffer of [cap] bytes; [expired] when one of the two timers is. *)
Definition poll_data (cap : Z) (expired : bool) (k : Kind) : answer * Kind :=
  if cap =? 0 then (Ready (Ok []), k)
  else if expired then (Ready (Err TimeoutError), k)
  else match k with
  | KEmpty => (Ready (Ok []), k)
  | KText x => let '(r, x) := TextData.data cap x in (r, KText x)
  | KUntilClose x => let '(r, x) := UntilClose.data cap x in (r, KUntilClose x)
  | KChunk x => let '(r, x) := ChunkData.data cap x in (r, KChunk x)
  end.

Definition poll_trailer (expired : bool) (k : Kind) : poll (res body_error (option Headers.t)) * Kind :=
  if expired then (Ready (Err TimeoutError), k)
  else match k with
  | KChunk x =>
      match ChunkData.data TRAILER_SIZE x with
      | (Ready (Ok _), x) =>
          (Ready (match ChunkBodyDecoder.get_trailer (ChunkData.decoder x) with
                  | Ok t => Ok t | Err e => Err (ChunkDecodeError e) | Panic => Panic end), KChunk x)
      | (Pending, x) => (Pending, KChunk x)
      | (Ready (Err e), x) => (Ready (Err e), KChunk x)
      | (Ready Panic, x) => (Ready Panic, KChunk x)
      end
  | _ => (Ready (Ok None), k)
  end.

(** [Drop]: a connection of HTTP/1 that is still held is shut down. *)
Definition dropped (c : conn) : conn :=
  match c with
  | Held s => if bool_decide (http_version s = VHttp1) then ShutDown else Released
  | c => c
  end.
Definition conn_of (k : Kind) : conn :=
  match k with
  | KText x => TextData.io x
  | KChunk x => ChunkData.io x
  | KUntilClose x => UntilClose.io x
  | KEmpty => Released
  end.
Definition drop (k : Kind) : conn := dropped (conn_of k).
End HttpBody.
