(* ===== verification/Normalizer.v ===== *)
(** What the client fills in before it sends a request and how it finds the length of a
    response body ([ylong_http_client/src/util/normalizer.rs]).

    [tls] says whether the crate is built with TLS, which decides the scheme of a URI
    without one. *)
From S2P Require Import Prelude Buffers Headers Uri Message HttpBody.

(** * Requests *)

Inductive client_error := UnknownMethod | NoHost | NormalizeFailed | LackHost | BadPort (e : InvalidUri)
                        | IllegalTransferEncoding | InvalidContentLength.
Abbreviation cres := (res client_error).

(** [Display] of a [u16]. *)
Fixpoint dec_loop (fuel : nat) (n : Z) (acc : bytes) : bytes :=
  match fuel with
  | O => acc
  | S fuel => let acc := (48 + n mod 10) :: acc in if n / 10 =? 0 then acc else dec_loop fuel (n / 10) acc
  end.
Definition dec_u16 (n : Z) : bytes := dec_loop 5 n [].

(** The builder of URIs with parts that are parsed already. *)
Module BuilderParts.
Definition set (f : Uri.t → Uri.t) (b : UriBuilder.t) : UriBuilder.t := UriBuilder.mk (u ← UriBuilder.unprocessed b; Ok (f u)).
Definition scheme (s : Scheme.t) : UriBuilder.t → UriBuilder.t :=
  set (λ u, Uri.mk (Some s) (Uri.authority u) (Uri.path u) (Uri.query u)).
Definition authority (a : Authority.t) : UriBuilder.t → UriBuilder.t :=
  set (λ u, Uri.mk (Uri.scheme u) (Some a) (Uri.path u) (Uri.query u)).
Definition path (p : bytes) : UriBuilder.t → UriBuilder.t :=
  set (λ u, Uri.mk (Uri.scheme u) (Uri.authority u) (Some p) (Uri.query u)).
Definition query (q : bytes) : UriBuilder.t → UriBuilder.t :=
  set (λ u, Uri.mk (Uri.scheme u) (Uri.authority u) (Uri.path u) (Some q)).
End BuilderParts.

Definition is_ok {E A} (r : res E A) : bool := match r with Ok _ => true | _ => false end.
Definition uri_already_normalized (u : Uri.t) : bool :=
  let has_valid_port := match Uri.port u with Some p => is_ok (port_as_u16 p) | None => false end in
  bool_decide (is_Some (Uri.scheme u)) && bool_decide (is_Some (Uri.host u)) && has_valid_port && bool_decide (is_Some (Uri.path u)).

Module UriFormatter.
Definition default_scheme (tls : bool) : Scheme.t := if tls then Scheme.HTTPS else Scheme.HTTP.
Definition format (tls : bool) (u : Uri.t) : cres Uri.t :=
  if uri_already_normalized u then Ok u
  else
    match Uri.host u with
    | None => Err NoHost
    | Some host =>
        let scheme := default (default_scheme tls) (Uri.scheme u) in
        let port :=
          match Uri.port u ≫= (λ p, match port_as_u16 p with Ok n => Some n | _ => None end) with
          | Some req_port => req_port
          | None => match Scheme.proto scheme with Https => 443 | Http => 80 end
          end in
        let new_uri := BuilderParts.scheme scheme UriBuilder.new in
        let new_uri := UriBuilder.authority new_uri (host ++ str ":" ++ dec_u16 port) in
        let new_uri :=
          match Uri.path u with
          | None => UriBuilder.path new_uri (str "/")
          | Some path => BuilderParts.path path new_uri
          end in
        let new_uri := match Uri.query u with Some query => BuilderParts.query query new_uri | None => new_uri end in
        match UriBuilder.build new_uri with
        | Ok u => Ok u
        | Err _ => Err NormalizeFailed
        | Panic => Panic
        end
    end.
End UriFormatter.

Definition format_host_value (u : Uri.t) : cres bytes :=
  match Uri.host u, Uri.port u with
  | Some host, Some port =>
      match port_as_u16 port with
      | Ok n =>
          if n =? Scheme.default_port (default Scheme.HTTP (Uri.scheme u)) then Ok host
          else match Uri.authority u with Some a => Ok (Authority.to_str a) | None => Panic end
      | Err e => Err (BadPort e)
      | Panic => Panic
      end
  | Some host, None => Ok host
  | None, _ => Err LackHost
  end.

(** [let _ = headers.insert(name, value)]. *)
Definition try_insert (h : Headers.t) (name value : bytes) : Headers.t :=
  match Headers.insert h name value with Ok (_, h) => h | _ => h end.

Module RequestFormatter.
Definition format (tls : bool) (part : RequestPart.t) : cres RequestPart.t :=
  if bool_decide (RequestPart.version part = Version.Http10) && bool_decide (RequestPart.method part = Method.Connect)
  then Err UnknownMethod
  else
    uri ← UriFormatter.format tls (RequestPart.uri part);
    host_value ← format_host_value uri;
    let headers := RequestPart.headers part in
    let headers := match Headers.get_lowercase headers (str "accept") with
                   | None => try_insert headers (str "Accept") (str "*/*")
                   | Some _ => headers
                   end in
    let headers := try_insert headers (str "Host") host_value in
    Ok (RequestPart.mk uri (RequestPart.method part) (RequestPart.version part) headers).
End RequestFormatter.

(** * The length of a response body *)

(** [slice::windows]. *)
Fixpoint windows (n : nat) (l : bytes) : list bytes :=
  match l with
  | [] => []
  | _ :: l' => if (n <=? length l)%nat then take n l :: windows n l' else []
  end.
Definition bytes_contains (haystack needle : bytes) : bool :=
  match needle with
  | [] => true
  | _ =>
      if len haystack <? len needle then false
      else existsb (λ window, bool_decide (window = needle)) (windows (length needle) haystack)
  end.
Definition header_value_contains (value : HeaderValue.t) (needle : bytes) : bool :=
  existsb (λ part, bytes_contains part needle) (HeaderValue.inner value).

Definition is_ascii_digit (b : Z) : bool := (48 <=? b) && (b <=? 57).
Definition U64_MAX : Z := 2 ^ 64 - 1.
(** The loop of [header_value_to_u64], with [checked_mul] and [checked_add]. *)
Fixpoint digits_loop (parsed : Z) (l : bytes) : option Z :=
  match l with
  | [] => Some parsed
  | b :: l =>
      if negb (is_ascii_digit b) then None
      else if U64_MAX <? parsed * 10 then None
      else if U64_MAX <? parsed * 10 + (b - 48) then None
      else digits_loop (parsed * 10 + (b - 48)) l
  end.
Definition header_value_to_u64 (value : HeaderValue.t) : option Z :=
  match HeaderValue.inner value with
  | [] => None
  | bytes :: parts =>
      if negb (bool_decide (parts = [])) || bool_decide (bytes = []) then None else digits_loop 0 bytes
  end.

Module BodyLengthParser.
Definition NO_CONTENT : StatusCode.t := StatusCode.mk 204.
Definition NOT_MODIFIED : StatusCode.t := StatusCode.mk 304.
Definition parse (req_method : Method.t) (part : ResponsePart.t) : cres BodyLength :=
  let status := ResponsePart.status part in
  if StatusCode.is_informational status || bool_decide (status = NO_CONTENT) || bool_decide (status = NOT_MODIFIED) then
    Ok BEmpty
  else if bool_decide (req_method = Method.Connect) && StatusCode.is_successful status || bool_decide (req_method = Method.Head) then
    Ok BEmpty
  else
    match Headers.get_lowercase (ResponsePart.headers part) (str "transfer-encoding") with
    | Some v =>
        if bool_decide (ResponsePart.version part = Version.Http10) then Err IllegalTransferEncoding
        else if header_value_contains v (str "chunked") then Ok BChunk
        else Ok BUntilClose
    | None =>
        match Headers.get_lowercase (ResponsePart.headers part) (str "content-length") with
        | Some v =>
            match header_value_to_u64 v with
            | Some n => if n =? 0 then Ok BEmpty else Ok (BLength n)
            | None => Err InvalidContentLength
            end
        | None => Ok BUntilClose
        end
    end.
End BodyLengthParser.

(** * Lengths and encodings are read right *)

Definition decimal (from : Z) (l : bytes) : Z := fold_left (λ n b, n * 10 + (b - 48)) l from.
Lemma digit_range b : is_ascii_digit b = true ↔ 48 ≤ b ≤ 57.
Proof. unfold is_ascii_digit. rewrite andb_true_iff, !Z.leb_le. lia. Qed.
Lemma decimal_mono m l : 0 ≤ m → Forall (λ b, is_ascii_digit b = true) l → m ≤ decimal m l.
Proof.
  revert m. induction l as [|b l IH]; intros m Hm Hl; [unfold decimal; simpl; lia|].
  inversion_clear Hl as [|?? Hb Hl']. apply digit_range in Hb. change (m ≤ decimal (m * 10 + (b - 48)) l).
  specialize (IH (m * 10 + (b - 48)) ltac:(lia) Hl'). lia.
Qed.
Lemma digits_loop_spec m l n :
  0 ≤ m ≤ U64_MAX →
  digits_loop m l = Some n ↔ Forall (λ b, is_ascii_digit b = true) l ∧ decimal m l = n ∧ n ≤ U64_MAX.
Proof.
  revert m. induction l as [|b l IH]; intros m Hm; cbn [digits_loop].
  { unfold decimal. simpl. split; [by intros [= <-]; split; [|lia]|]. by intros (_ & -> & _). }
  destruct (is_ascii_digit b) eqn:Hb; simpl.
  2: { split; [done|]. intros [H _]. inversion_clear H. congruence. }
  pose proof (proj1 (digit_range b) Hb) as Hr. change (decimal m (b :: l)) with (decimal (m * 10 + (b - 48)) l).
  assert (Hover : U64_MAX < m * 10 + (b - 48) →
    ¬ (Forall (λ b, is_ascii_digit b = true) (b :: l) ∧ decimal (m * 10 + (b - 48)) l = n ∧ n ≤ U64_MAX)).
  { intros Hx (Hf & Hd & Hn). inversion_clear Hf as [|?? _ Hl]. pose proof (decimal_mono (m * 10 + (b - 48)) l ltac:(lia) Hl). lia. }
  destruct (Z.ltb_spec U64_MAX (m * 10)); [split; [done|intros Hx; exfalso; apply Hover; [lia|done]]|].
  destruct (Z.ltb_spec U64_MAX (m * 10 + (b - 48))); [split; [done|intros Hx; exfalso; by apply Hover]|].
  rewrite IH, Forall_cons_iff by lia. tauto.
Qed.

(** A value of [Content-Length] is exactly one field of decimal digits whose number
    fits 64 bits: no sign, no space, no list, and no wrapping around. *)
Theorem content_length_value v n :
  header_value_to_u64 v = Some n ↔
  ∃ ds, HeaderValue.inner v = [ds] ∧ ds ≠ [] ∧ Forall (λ b, 48 ≤ b ≤ 57) ds ∧ decimal 0 ds = n ∧ n ≤ U64_MAX.
Proof.
  assert (Hdig : ∀ ds, Forall (λ b, is_ascii_digit b = true) ds ↔ Forall (λ b, 48 ≤ b ≤ 57) ds)
    by (intros ds; apply Forall_proper; [intros b; apply digit_range|reflexivity]).
  unfold header_value_to_u64. destruct (HeaderValue.inner v) as [|ds parts].
  { split; [done|]. by intros (ds & [=] & _). }
  destruct (bool_decide (parts = [])) eqn:Hp; simpl.
  2: { split; [done|]. intros (? & [= -> ->] & _). by rewrite bool_decide_true in Hp. }
  apply bool_decide_eq_true in Hp. subst parts. case_bool_decide as He.
  { split; [done|]. by intros (? & [= <-] & Hne & _). }
  rewrite digits_loop_spec by (unfold U64_MAX; lia). rewrite Hdig. split; [intros Hx; by exists ds|]. by intros (? & [= <-] & _ & Hx).
Qed.

Lemma windows_spec n l w : n ≠ 0%nat → w ∈ windows n l ↔ ∃ a b, l = a ++ w ++ b ∧ length w = n.
Proof.
  intros Hn. induction l as [|x l IH]; cbn [windows].
  { split; [by intros ?%elem_of_nil|]. intros (a & b & Hl & Hw). destruct a, w; simpl in *; try done. }
  destruct (Nat.leb_spec n (length (x :: l))) as [Hle|Hgt].
  - rewrite elem_of_cons, IH. split.
    + intros [->|(a & b & -> & Hw)]; [|by exists (x :: a), b].
      exists [], (drop n (x :: l)). split; [by rewrite app_nil_l, take_drop|]. rewrite length_take. lia.
    + intros (a & b & Hl & Hw). destruct a as [|y a]; [left|right; exists a, b; by injection Hl as _ ->].
      rewrite Hl, app_nil_l. by rewrite take_app_length' by lia.
  - split; [by intros ?%elem_of_nil|]. intros (a & b & Hl & Hw). rewrite Hl, !length_app in Hgt. lia.
Qed.
Lemma bytes_contains_spec h n : bytes_contains h n = true ↔ ∃ a b, h = a ++ n ++ b.
Proof.
  unfold bytes_contains. destruct n as [|x n]; [split; [intros _; by exists [], h|done]|].
  destruct (Z.ltb_spec (len h) (len (x :: n))) as [Hlt|Hge].
  { split; [done|]. intros (a & b & ->). unfold len in Hlt. rewrite !length_app in Hlt. lia. }
  rewrite existsb_exists. split.
  - intros (w & Hw & Hd%bool_decide_eq_true). subst w. apply list_elem_of_In, windows_spec in Hw; [|done]. destruct Hw as (a & b & Hl & _). by exists a, b.
  - intros (a & b & Hl). exists (x :: n). split; [|by apply bool_decide_eq_true]. apply list_elem_of_In, windows_spec; [done|]. by exists a, b.
Qed.

(** * Formatted URIs *)

Definition digit (b : Z) : Prop := 48 ≤ b ≤ 57.
Lemma dec_loop_digits fuel n acc : Forall digit acc → Forall digit (dec_loop fuel n acc).
Proof.
  revert n acc. induction fuel as [|fuel IH]; intros n acc Hacc; [done|]. cbn [dec_loop].
  assert (Hd : Forall digit (48 + n mod 10 :: acc)) by (constructor; [unfold digit; pose proof (Z.mod_pos_bound n 10); lia|done]).
  destruct (_ =? _); [done|by apply IH].
Qed.
Lemma dec_loop_ne fuel n acc : acc ≠ [] ∨ fuel ≠ O → dec_loop fuel n acc ≠ [].
Proof.
  revert n acc. induction fuel as [|fuel IH]; intros n acc H; [simpl; tauto|]. cbn [dec_loop]. destruct (_ =? _); [done|]. apply IH. by left.
Qed.
Lemma parse_digit m b l : digit b → 0 ≤ m → m * 10 + (b - 48) < 65536 → parse_digits m (b :: l) = parse_digits (m * 10 + (b - 48)) l.
Proof.
  intros [H1 H2] Hm Hlt. cbn [parse_digits]. rewrite (proj2 (Z.leb_le 48 b)), (proj2 (Z.leb_le b 57)), (proj2 (Z.ltb_lt _ 65536)) by lia. done.
Qed.
Lemma dec_loop_parse fuel n acc :
  0 ≤ n < 65536 → n < 10 ^ Z.of_nat fuel → fuel ≠ O → parse_digits 0 (dec_loop fuel n acc) = parse_digits n acc.
Proof.
  revert n acc. induction fuel as [|fuel IH]; intros n acc Hn Hf Hne; [done|]. cbn [dec_loop].
  pose proof (Z.mod_pos_bound n 10 ltac:(lia)). pose proof (Z.div_mod n 10 ltac:(lia)).
  destruct (Z.eqb_spec (n / 10) 0) as [Hz|Hz].
  { rewrite parse_digit; [f_equal; lia|unfold digit; lia|lia|lia]. }
  assert (0 < n / 10) by (pose proof (Z.div_pos n 10); lia). rewrite Nat2Z.inj_succ, Z.pow_succ_r in Hf by lia.
  rewrite IH; [|lia|apply Z.div_lt_upper_bound; lia|intros ->; simpl in Hf; lia].
  rewrite parse_digit; [f_equal; lia|unfold digit; lia|lia|lia].
Qed.
Lemma not_plus (l : bytes) : Forall digit l → l ≠ [] → parse_u16 l = parse_digits 0 l.
Proof. destruct l as [|b l]; [done|]. intros H _. inversion_clear H as [|?? [Hb _] _]. unfold parse_u16. by rewrite (proj2 (Z.eqb_neq b 43)) by lia. Qed.
Lemma dec_u16_parse n : 0 ≤ n < 65536 → parse_u16 (dec_u16 n) = Some n.
Proof.
  intros Hn. unfold dec_u16. rewrite not_plus; [|by apply dec_loop_digits|by apply dec_loop_ne; right].
  by rewrite dec_loop_parse; [|lia|simpl; lia|].
Qed.

(** Bytes that leave the scan of an authority as it is. *)
Lemma digit_scan i l s : Forall (λ b, digit b ∨ b = 43) l → authority_loop i l s = Ok (i + len l, s).
Proof.
  intros H. revert i. induction H as [|b l Hb _ IH]; intros i; [simpl; rewrite len_nil; do 2 f_equal; lia|].
  assert (Hbyte : uri_value_byte b = true ∧ ((b =? 47) || (b =? 63) || (b =? 35)) = false ∧ (b =? 91) = false ∧ (b =? 93) = false ∧ (b =? 64) = false ∧ (b =? 58) = false).
  { destruct Hb as [Hb| ->]; [|by vm_compute]. unfold digit in Hb.
    assert (b ∈ Z.of_nat <$> seq 48 10) as Hin by (apply list_elem_of_fmap; exists (Z.to_nat b); split; [lia|apply elem_of_seq; lia]).
    simpl in Hin. repeat (apply elem_of_cons in Hin as [->|Hin]; [by vm_compute|]). by apply elem_of_nil in Hin. }
  destruct Hbyte as (H0 & H1 & H2 & H3 & H4 & H5). cbn [authority_loop]. rewrite H1, H2, H3, H4, H5, H0. simpl. rewrite IH, len_cons. do 2 f_equal. lia.
Qed.

(** A host that an authority may begin with. *)
Definition host_ok (h : bytes) : Prop :=
  h ≠ [] ∧ Forall (λ b, auth_stop b = false) h ∧
  ∃ j s, authority_loop 0 h scan0 = Ok (j, s) ∧ xorb (left_bracket s) (right_bracket s) = false ∧ colon_num s = 0.

Lemma rsplit_last h p : Forall (λ b, b ≠ 58) p → rsplit_colon (h ++ 58 :: p) = Some (h, p).
Proof.
  intros Hp. induction h as [|x h IH]; simpl; [|by rewrite IH].
  assert (rsplit_colon p = None) as ->; [|done]. induction Hp as [|b p Hb _ IH]; [done|]. simpl. rewrite IH. by rewrite (proj2 (Z.eqb_neq b 58)).
Qed.
Lemma parse_u16_bytes p n : parse_u16 p = Some n → p ≠ [] ∧ Forall (λ b, digit b ∨ b = 43) p.
Proof.
  assert (Hd : ∀ l m n, parse_digits m l = Some n → Forall (λ b, digit b ∨ b = 43) l).
  { induction l as [|b l IH]; intros m k; [done|]. simpl. destruct (Z.leb_spec 48 b); [|done]. destruct (Z.leb_spec b 57); [|done]. simpl.
    destruct (_ <? _); [|done]. intros Hp. constructor; [left; by split|by eapply IH]. }
  unfold parse_u16. destruct p as [|b p]; [done|]. intros H. split; [done|]. destruct (Z.eqb_spec b 43) as [->|]; [|by eapply Hd].
  destruct p as [|c p]; [done|]. constructor; [by right|]. by eapply Hd.
Qed.
Lemma port_not_colon p : Forall (λ b, digit b ∨ b = 43) p → Forall (λ b, b ≠ 58) p.
Proof. apply Forall_impl. unfold digit. intros b [?| ->]; lia. Qed.
Lemma port_no_stop p : Forall (λ b, digit b ∨ b = 43) p → Forall (λ b, auth_stop b = false) p.
Proof.
  apply Forall_impl. unfold digit, auth_stop. intros b Hb.
  rewrite (proj2 (Z.eqb_neq b 47)), (proj2 (Z.eqb_neq b 63)), (proj2 (Z.eqb_neq b 35)) by (destruct Hb; lia). done.
Qed.

(** The host of an authority that was parsed, and its port. *)
Lemma auth_of_host a x :
  Forall (λ b, auth_stop b = false) a → a ≠ [] → auth_of a = Ok x →
  host_ok (Authority.host x) ∧ (∀ p, Authority.port x = Some p → is_Some (parse_u16 p)).
Proof.
  intros Ha Hne Hx. unfold auth_of in Hx. destruct (authority_loop 0 a scan0) as [[j s]| |] eqn:Hl; [|done..]. cbn [mbind res_bind] in Hx.
  destruct (xorb _ _) eqn:Hb; [done|]. destruct (1 <? colon_num s) eqn:Hc; [done|].
  pose proof (authority_loop_nonneg _ _ _ _ _ Hl ltac:(done)) as Hnn. apply Z.ltb_ge in Hc.
  unfold host_port in Hx. destruct (Z.eqb_spec (colon_num s) 0) as [H0|H0]; simpl in Hx.
  { injection Hx as <-. split; [|done]. split; [done|]. split; [done|]. by exists j, s. }
  destruct (rsplit_colon a) as [[h p]|] eqn:Hr; [|done]. apply rsplit_colon_spec in Hr. subst a.
  destruct h as [|hb h]; [done|]. set (H := hb :: h) in *.
  assert (Hp : (p = [] ∧ x = Authority.mk H None) ∨ (∃ n, parse_u16 p = Some n ∧ x = Authority.mk H (Some p))).
  { destruct p; [left; by injection Hx as <-|right]. destruct (parse_u16 _) as [n|]; [|done]. injection Hx as <-. by exists n. }
  assert (Hpb : Forall (λ b, digit b ∨ b = 43) p) by (destruct Hp as [[-> _]|(n & Hn & _)]; [done|by apply (parse_u16_bytes p n)]).
  apply Forall_app in Ha as [HaH _]. assert (HneH : H ≠ []) by done. clear Hx. clearbody H.
  assert (Hhost : host_ok H).
  { split; [done|]. split; [done|]. rewrite authority_loop_app in Hl by done.
    destruct (authority_loop 0 H scan0) as [[j' s']| |] eqn:Hl'; [|done..]. simpl in Hl. rewrite digit_scan in Hl by done.
    injection Hl as _ <-. simpl in *. exists j', s'. split; [done|]. split; [done|].
    pose proof (authority_loop_nonneg _ _ _ _ _ Hl' ltac:(done)). lia. }
  destruct Hp as [[_ ->]|(n & Hn & ->)]; (split; [exact Hhost|]); [done|]. intros q [= <-]. by exists n.
Qed.
Lemma host_with_port h n :
  host_ok h → 0 ≤ n < 65536 → authority_from_bytes (h ++ str ":" ++ dec_u16 n) = Ok (Authority.mk h (Some (dec_u16 n))).
Proof.
  intros (Hne & Hstop & j & s & Hl & Hb & Hc) Hn. change (str ":" ++ dec_u16 n) with (58 :: dec_u16 n).
  pose proof (parse_u16_bytes _ _ (dec_u16_parse n Hn)) as [Hdne Hdig]. unfold authority_from_bytes.
  assert (Hall : Forall (λ b, auth_stop b = false) (h ++ 58 :: dec_u16 n)).
  { apply Forall_app. split; [done|]. constructor; [done|]. by apply port_no_stop. }
  destruct (h ++ 58 :: dec_u16 n) as [|x l] eqn:Hx; [by destruct h|]. rewrite <- Hx in *.
  rewrite <- (app_nil_r (h ++ 58 :: dec_u16 n)), authority_token_app by done. rewrite Hx. rewrite <- Hx.
  unfold auth_of. rewrite authority_loop_app, Hl by done. cbn [mbind res_bind]. simpl. rewrite digit_scan by done. simpl. rewrite Hb, Hc. simpl.
  unfold host_port. simpl. rewrite rsplit_last by (by apply port_not_colon). rewrite dec_u16_parse by done.
  destruct h as [|hb h]; [done|]. by destruct (dec_u16 n).
Qed.

(** A URI whose authority, if it has one, is as the parser makes it. *)
Definition uri_ok (u : Uri.t) : Prop :=
  ∀ x, Uri.authority u = Some x → host_ok (Authority.host x) ∧ ∀ p, Authority.port x = Some p → is_Some (parse_u16 p).
Lemma authority_token_ok r x rest :
  authority_token r = Ok (Some x, rest) → host_ok (Authority.host x) ∧ ∀ p, Authority.port x = Some p → is_Some (parse_u16 p).
Proof.
  destruct (span_stop auth_stop r) as (a & r' & -> & Ha & Hr). rewrite authority_token_app by done.
  destruct a as [|b a]; [done|]. destruct (auth_of (b :: a)) as [y| |] eqn:Hy; [|done..]. intros [= <- _].
  by apply (auth_of_host (b :: a)).
Qed.
Lemma parsed_uri_ok b u : Uri.from_bytes b = Ok u → uri_ok u.
Proof.
  intros H. assert (Hb : b ≠ []) by (intros ->; by vm_compute in H). rewrite from_bytes_eq in H by done.
  destruct (MAX_URI_LEN <? len b); [done|]. destruct (scheme_token b) as [[s r]| |]; [|done..]. cbn [mbind res_bind] in H.
  unfold rest_parse in H. destruct (authority_token r) as [[a r1]| |] eqn:Ha; [|done..]. cbn [mbind res_bind] in H.
  destruct (path_token r1) as [[p r2]| |]; [|done..]. cbn [mbind res_bind] in H.
  destruct (match r2 with [] => _ | _ => _ end) as [q| |]; [|done..]. cbn [mbind res_bind] in H.
  assert (Uri.authority u = a) as <- by (unfold Uri.validity_check in H; repeat case_match; simplify_eq/=; done).
  intros x Hx. rewrite Hx in Ha. by apply (authority_token_ok r x r1).
Qed.

Definition port_number (u : Uri.t) : option Z := Uri.port u ≫= parse_u16.
Lemma parse_digits_range m l n : 0 ≤ m < 65536 → parse_digits m l = Some n → 0 ≤ n < 65536.
Proof.
  revert m. induction l as [|b l IH]; intros m Hm; simpl; [by intros [= <-]|]. destruct (Z.leb_spec 48 b); [|done].
  destruct (Z.leb_spec b 57); [|done]. simpl. destruct (Z.ltb_spec (m * 10 + (b - 48)) 65536); [|done]. apply IH. lia.
Qed.
Lemma parse_u16_range p n : parse_u16 p = Some n → 0 ≤ n < 65536.
Proof.
  unfold parse_u16. destruct p as [|b p]; [done|]. destruct (b =? 43); [destruct p; [done|]|]; by apply parse_digits_range.
Qed.

Lemma default_port_range s : 0 ≤ Scheme.default_port s < 65536.
Proof. destruct s as [[]]; unfold Scheme.default_port; simpl; lia. Qed.

(** What formatting gives. *)
Definition formatted (tls : bool) (h : bytes) (u u' : Uri.t) : Prop :=
  let s := default (UriFormatter.default_scheme tls) (Uri.scheme u) in
  uri_already_normalized u' = true ∧ uri_ok u' ∧
  Uri.scheme u' = Some s ∧ Uri.host u' = Some h ∧ port_number u' = Some (default (Scheme.default_port s) (port_number u)) ∧
  Uri.path u' = Some (default (str "/") (Uri.path u)) ∧ Uri.query u' = Uri.query u.
Lemma format_ok tls u h :
  uri_ok u → Uri.host u = Some h → ∃ u', UriFormatter.format tls u = Ok u' ∧ formatted tls h u u'.
Proof.
  intros Hok Hh. unfold UriFormatter.format, formatted. unfold Uri.host in Hh. destruct (Uri.authority u) as [[h' po]|] eqn:Ha; [|done].
  injection Hh as ->. destruct (Hok _ Ha) as [Hhost Hport]. simpl in Hhost, Hport.
  destruct (uri_already_normalized u) eqn:Hn.
  - exists u. split; [done|]. split; [done|]. split; [done|]. unfold uri_already_normalized in Hn.
    rewrite !andb_true_iff, !bool_decide_eq_true in Hn. destruct Hn as [[[[s Hs] _] Hp] [p Hpath]].
    rewrite Hs, Hpath. unfold Uri.host, port_number. rewrite Ha. split; [done|]. split; [done|]. split; [|done].
    unfold Uri.port in *. rewrite Ha in *. simpl in *. destruct po as [po|]; [|done]. simpl in *. unfold port_as_u16, ok_or in Hp. by destruct (parse_u16 po).
  - set (s := default (UriFormatter.default_scheme tls) (Uri.scheme u)).
    set (n := default (Scheme.default_port s) (port_number u)).
    assert (Hnr : 0 ≤ n < 65536).
    { unfold n. destruct (port_number u) as [m|] eqn:Hm; simpl; [|apply default_port_range]. unfold port_number in Hm.
      destruct (Uri.port u) as [p|]; [|done]. by apply (parse_u16_range p). }
    unfold Uri.host. rewrite Ha. cbn [fmap option_fmap option_map Authority.host].
    assert (match Uri.port u ≫= (λ p, match port_as_u16 p with Ok n0 => Some n0 | _ => None end) with
            | Some r => r
            | None => match Scheme.proto s with Https => 443 | Http => 80 end
            end = n) as ->.
    { unfold n, port_number, port_as_u16, ok_or. destruct (Uri.port u) as [p|]; simpl; [|done].
      by destruct (parse_u16 p). }
    assert (UriBuilder.authority (BuilderParts.scheme s UriBuilder.new) (h ++ str ":" ++ dec_u16 n) =
            UriBuilder.mk (Ok (Uri.mk (Some s) (Some (Authority.mk h (Some (dec_u16 n)))) None None))) as ->.
    { unfold UriBuilder.authority. by rewrite host_with_port. }
    assert (Hpn : parse_u16 (dec_u16 n) = Some n) by (by apply dec_u16_parse).
    exists (Uri.mk (Some s) (Some (Authority.mk h (Some (dec_u16 n)))) (Some (default (str "/") (Uri.path u))) (Uri.query u)).
    split; [by destruct (Uri.path u), (Uri.query u)|]. split.
    + unfold uri_already_normalized, Uri.host, Uri.port. simpl. unfold port_as_u16. by rewrite Hpn.
    + split; [|by rewrite <- Hpn]. intros x [= <-]. split; [done|]. intros p [= <-]. by rewrite Hpn.
Qed.

(** C17: [UriFormatter::format] on every URI the parser accepts: without a host it is
    refused; with one it always succeeds, and gives a URI with the same host, path and
    query, in which the scheme, the port and the path that were missing are filled in
    (the default scheme, the default port of the scheme, [/]) and the port number that was
    given is kept; formatting once more changes nothing. *)
Theorem uri_formatted tls b u :
  Uri.from_bytes b = Ok u →
  match Uri.host u with
  | None => UriFormatter.format tls u = Err NoHost
  | Some h => ∃ u', UriFormatter.format tls u = Ok u' ∧ formatted tls h u u' ∧ UriFormatter.format tls u' = Ok u'
  end.
Proof.
  intros Hb. destruct (Uri.host u) as [h|] eqn:Hh.
  - destruct (format_ok tls u h (parsed_uri_ok b u Hb) Hh) as (u' & Hf & Hu'). exists u'. split; [done|]. split; [done|].
    unfold UriFormatter.format. destruct Hu' as [Hn _]. by rewrite Hn.
  - unfold UriFormatter.format, uri_already_normalized. rewrite Hh. rewrite (bool_decide_false (is_Some None)) by (by intros []).
    by rewrite andb_false_r.
Qed.
Lemma uri_formatted_witness :
  let u := Uri.mk None (Some (Authority.mk (str "[::1]") None)) None None in
  Uri.from_bytes (str "[::1]:") = Ok u ∧
  ∃ u', UriFormatter.format true u = Ok u' ∧ formatted true (str "[::1]") u u' ∧ UriFormatter.format true u' = Ok u'.
Proof.
  split; [by vm_compute|]. exact (uri_formatted true (str "[::1]:") _ ltac:(by vm_compute)).
Defined.
