(* ===== verification/Proxy.v ===== *)
(** Proxies of the client ([ylong_http_client/src/util/proxy.rs], [util/pool.rs] and the
    tunnel of [async_impl/proxy.rs]): which requests go through a proxy, which connections
    they may share, and the request that opens a tunnel.

    [tls] says whether the crate is built with TLS.  Of the address parser of the standard
    library only IPv4 is here: a host with colons is in brackets ([authority_loop]), and what
    starts with a bracket is no address. *)
From S2P Require Import Prelude Buffers Headers Uri HttpBody Normalizer Base64.

(** * Strings *)

Fixpoint split_on (sep : Z) (s : bytes) : list bytes :=
  match s with
  | [] => [[]]
  | b :: s =>
      if b =? sep then [] :: split_on sep s
      else match split_on sep s with w :: l => (b :: w) :: l | [] => [[b]] end
  end.
Fixpoint trim_start_of (p : Z → bool) (s : bytes) : bytes := match s with b :: s' => if p b then trim_start_of p s' else s | [] => [] end.
Definition trim_of (p : Z → bool) (s : bytes) : bytes := reverse (trim_start_of p (reverse (trim_start_of p s))).
(** [trim], for the white space of ASCII. *)
Definition is_space (b : Z) : bool := ((9 <=? b) && (b <=? 13)) || (b =? 32).
Definition trim : bytes → bytes := trim_of is_space.
Definition trim_matches (c : Z) : bytes → bytes := trim_of (Z.eqb c).
Definition starts_with (p s : bytes) : bool := bool_decide (upto (len p) s = p).
Definition ends_with (s suffix : bytes) : bool := (len suffix <=? len s) && bool_decide (from (len s - len suffix) s = suffix).

(** * Addresses *)

(** [read_number] of an address: up to three digits, no zero in front of others, a [u8]. *)
Definition octet (w : bytes) : option Z :=
  match w with
  | [] => None
  | b :: rest =>
      if forallb is_ascii_digit w && (len w <=? 3) && ((len w =? 1) || negb (b =? 48)) then
        let n := fold_left (λ n b, n * 10 + (b - 48)) w 0 in if n <? 256 then Some n else None
      else None
  end.
Definition parse_ip (s : bytes) : option (list Z) :=
  match split_on 46 s with
  | [a; b; c; d] => a ← octet a; b ← octet b; c ← octet c; d ← octet d; Some [a; b; c; d]
  | _ => None
  end.

(** * What no proxy is for *)

Module NoProxy.
Record t := mk { ips : list (list Z); domains : list bytes }.
(** The loop over the hosts. *)
Fixpoint hosts_loop (l : list bytes) (n : t) : ures t :=
  match l with
  | [] => Ok n
  | host :: l =>
      match Uri.from_bytes host with
      | Ok address =>
          name ← unwrap (Uri.host address);
          hosts_loop l (match parse_ip name with Some ip => mk (ips n ++ [ip]) (domains n) | None => mk (ips n) (domains n ++ [host]) end)
      | _ => hosts_loop l n
      end
  end.
Definition from_str (no_proxy : bytes) : ures (option t) :=
  match no_proxy with
  | [] => Ok None
  | _ => n ← hosts_loop (trim <$> split_on 44 no_proxy) (mk [] []); Ok (Some n)
  end.
Definition contains_ip (ip : list Z) (n : t) : bool := existsb (λ i, bool_decide (ip = i)) (ips n).
Definition strip_star (block_domain : bytes) : bytes :=
  if starts_with (str "*") block_domain && (1 <? len block_domain) then trim_matches 42 block_domain else block_domain.
Definition blocks (domain block_domain : bytes) : bool :=
  let block_domain := strip_star block_domain in
  if bool_decide (block_domain = str "*") || ends_with block_domain domain || bool_decide (block_domain = domain) || bool_decide (trim_matches 46 block_domain = domain) then true
  else if ends_with domain block_domain then
    starts_with (str ".") block_domain || bool_decide (domain !! Z.to_nat (len domain - len block_domain - 1) = Some 46)
  else false.
Definition contains_domain (domain : bytes) (n : t) : bool := existsb (blocks domain) (domains n).
Definition contain (proxy_host : bytes) (n : t) : bool :=
  match parse_ip proxy_host with Some ip => contains_ip ip n | None => contains_domain proxy_host n end.
End NoProxy.

(** * Keys of connections *)

Inductive ProxyPoolKey := Direct | Proxied (id : Z) (scheme : Scheme.t) (authority : Authority.t).
Module PoolKey.
Record t := mk { target_scheme : Scheme.t; target_authority : Authority.t; proxy : ProxyPoolKey }.
Definition new (scheme : Scheme.t) (authority : Authority.t) : t := mk scheme authority Direct.
Definition proxied (target_scheme : Scheme.t) (target_authority : Authority.t) (id : Z) (scheme : Scheme.t) (authority : Authority.t) : t :=
  mk target_scheme target_authority (Proxied id scheme authority).
End PoolKey.
#[export] Instance protocol_eq_dec : EqDecision Protocol.
Proof. solve_decision. Defined.
#[export] Instance scheme_eq_dec : EqDecision Scheme.t.
Proof. solve_decision. Defined.
#[export] Instance authority_eq_dec : EqDecision Authority.t.
Proof. solve_decision. Defined.
#[export] Instance proxy_pool_key_eq_dec : EqDecision ProxyPoolKey.
Proof. solve_decision. Defined.
#[export] Instance pool_key_eq_dec : EqDecision PoolKey.t.
Proof. solve_decision. Defined.
(** A [HashMap] of the keys, by its entries. *)
Module Pool.
Definition t (V : Type) : Type := list (PoolKey.t * V).
Fixpoint lookup {V} (key : PoolKey.t) (l : t V) : option V :=
  match l with [] => None | (k, v) :: l => if bool_decide (k = key) then Some v else lookup key l end.
Definition get {V} (key : PoolKey.t) (create : V) (p : t V) : V * t V :=
  match lookup key p with Some conns => (conns, p) | None => (create, (key, create) :: p) end.
End Pool.

(** * Proxies *)

Inductive proxy_error := BuildError (e : InvalidUri) | FormatFailed (e : client_error).
Module ProxyInfo.
Record t := mk { pool_key_id : Z; scheme : Scheme.t; authority : Authority.t; basic_auth : option HeaderValue.t }.
(** [NEXT_PROXY_POOL_ID] is the state of the program. *)
Definition new (tls : bool) (uri : bytes) (next_id : Z) : res proxy_error t * Z :=
  match Uri.from_bytes uri with
  | Ok u =>
      match UriFormatter.format tls u with
      | Ok u =>
          match Uri.scheme u, Uri.authority u with
          | Some scheme, Some authority => (Ok (mk next_id scheme authority None), as_u64 (next_id + 1))
          | _, _ => (Panic, as_u64 (next_id + 1))
          end
      | Err e => (Err (FormatFailed e), next_id)
      | Panic => (Panic, next_id)
      end
  | Err e => (Err (BuildError e), next_id)
  | Panic => (Panic, next_id)
  end.
End ProxyInfo.
Inductive Intercept := All (info : ProxyInfo.t) | ForHttp (info : ProxyInfo.t) | ForHttps (info : ProxyInfo.t).
Definition proxy_info (i : Intercept) : ProxyInfo.t := match i with All info | ForHttp info | ForHttps info => info end.

Module Proxy.
Record t := mk { intercept : Intercept; no_proxy_ : option NoProxy.t }.
Definition new (i : Intercept) : t := mk i None.
Definition with_info (make : ProxyInfo.t → Intercept) (x : res proxy_error ProxyInfo.t * Z) : res proxy_error t * Z :=
  let '(r, n) := x in (info ← r; Ok (new (make info)), n).
Definition http (tls : bool) (uri : bytes) (next_id : Z) : res proxy_error t * Z := with_info ForHttp (ProxyInfo.new tls uri next_id).
Definition https (tls : bool) (uri : bytes) (next_id : Z) : res proxy_error t * Z := with_info ForHttps (ProxyInfo.new tls uri next_id).
Definition all (tls : bool) (uri : bytes) (next_id : Z) : res proxy_error t * Z := with_info All (ProxyInfo.new tls uri next_id).
Definition basic_auth (username password : bytes) (p : t) : res HttpError t :=
  match HeaderValue.from_bytes (Base64.encode (username ++ str ":" ++ password)) with
  | Ok auth =>
      let auth := HeaderValue.set_sensitive auth true in
      let set info := ProxyInfo.mk (ProxyInfo.pool_key_id info) (ProxyInfo.scheme info) (ProxyInfo.authority info) (Some auth) in
      Ok (mk (match intercept p with All info => All (set info) | ForHttp info => ForHttp (set info) | ForHttps info => ForHttps (set info) end) (no_proxy_ p))
  | _ => Panic
  end.
Definition no_proxy (s : bytes) (p : t) : ures t := n ← NoProxy.from_str s; Ok (mk (intercept p) n).
Definition via_proxy (uri : Uri.t) (p : t) : ures Uri.t :=
  let info := proxy_info (intercept p) in
  let builder := BuilderParts.authority (ProxyInfo.authority info) (BuilderParts.scheme (ProxyInfo.scheme info) UriBuilder.new) in
  let builder := match Uri.path uri with Some path => BuilderParts.path path builder | None => builder end in
  let builder := match Uri.query uri with Some query => BuilderParts.query query builder | None => builder end in
  match UriBuilder.build builder with Ok u => Ok u | _ => Panic end.
Definition is_intercepted (uri : Uri.t) (p : t) : ures bool :=
  no ← (match no_proxy_ p with Some n => host ← unwrap (Uri.host uri); Ok (NoProxy.contain host n) | None => Ok false end);
  match intercept p with
  | All _ => Ok (negb no)
  | ForHttp _ => if negb no then s ← unwrap (Uri.scheme uri); Ok (bool_decide (s = Scheme.HTTP)) else Ok false
  | ForHttps _ => if negb no then s ← unwrap (Uri.scheme uri); Ok (bool_decide (s = Scheme.HTTPS)) else Ok false
  end.
Definition pool_key (uri : Uri.t) (p : t) : ures PoolKey.t :=
  let info := proxy_info (intercept p) in
  scheme ← unwrap (Uri.scheme uri);
  authority ← unwrap (Uri.authority uri);
  Ok (PoolKey.proxied scheme authority (ProxyInfo.pool_key_id info) (ProxyInfo.scheme info) (ProxyInfo.authority info)).
End Proxy.
Module Proxies.
Definition t : Type := list Proxy.t.
Definition add_proxy (p : Proxy.t) (l : t) : t := l ++ [p].
Fixpoint match_proxy (uri : Uri.t) (l : t) : ures (option Proxy.t) :=
  match l with
  | [] => Ok None
  | p :: l => b ← Proxy.is_intercepted uri p; if b : bool then Ok (Some p) else match_proxy uri l
  end.
Definition pool_key (uri : Uri.t) (l : t) : ures PoolKey.t :=
  p ← match_proxy uri l;
  match p with
  | Some p => Proxy.pool_key uri p
  | None => scheme ← unwrap (Uri.scheme uri); authority ← unwrap (Uri.authority uri); Ok (PoolKey.new scheme authority)
  end.
End Proxies.

(** * The tunnel *)

Inductive CreateTunnelErr := ProxyHeadersTooLong | ProxyAuthenticationRequired | Unsuccessful.
Inductive tunnel_result := Tunnel | TunnelErr (e : CreateTunnelErr) | TunnelIo | TunnelWaits.
Definition tunnel_request (host : bytes) (port : Z) (auth : option bytes) : bytes :=
  str "CONNECT " ++ host ++ str ":" ++ dec_u16 port ++ str " HTTP/1.1" ++ [13; 10] ++ str "Host: " ++ host ++ str ":" ++ dec_u16 port ++ [13; 10] ++
  match auth with Some value => str "Proxy-Authorization: Basic " ++ value ++ [13; 10] | None => [] end ++ [13; 10].
Definition TUNNEL_BUF : Z := 8192.
(** The loop over the reads; [resp] is what is in the buffer.  A read takes what fits of a
    piece; no bytes are the end of the stream, and a script at its end has nothing yet. *)
Fixpoint tunnel_loop (fuel : nat) (script : list (option bytes)) (resp : bytes) : tunnel_result * list (option bytes) :=
  match fuel with
  | O => (TunnelWaits, script)
  | S fuel =>
      match script with
      | [] => (TunnelWaits, [])
      | None :: l => (TunnelIo, l)
      | Some d :: l =>
          let n := TUNNEL_BUF - len resp in
          let l := match from n d with [] => l | rest => Some rest :: l end in
          match upto n d with
          | [] => (TunnelErr Unsuccessful, l)
          | piece =>
              let resp := resp ++ piece in
              if starts_with (str "HTTP/1.1 200") resp || starts_with (str "HTTP/1.0 200") resp then
                if ends_with resp [13; 10; 13; 10] then (Tunnel, l)
                else if len resp =? TUNNEL_BUF then (TunnelErr ProxyHeadersTooLong, l)
                else tunnel_loop fuel l resp
              else if starts_with (str "HTTP/1.1 407") resp then (TunnelErr ProxyAuthenticationRequired, l)
              else (TunnelErr Unsuccessful, l)
          end
      end
  end.
(** Behind [write_all] and [flush]; a turn takes a byte. *)
Definition tunnel (host : bytes) (port : Z) (auth : option bytes) (script : list (option bytes)) : bytes * tunnel_result * list (option bytes) :=
  let '(r, l) := tunnel_loop (S (Z.to_nat TUNNEL_BUF)) script [] in (tunnel_request host port auth, r, l).

(** * A tunnel is opened *)

Lemma starts_with_app p s t : starts_with p s = true → starts_with p (s ++ t) = true.
Proof.
  unfold starts_with. rewrite !bool_decide_eq_true. intros Hs. assert (Hl : len p ≤ len s) by (rewrite <- Hs, len_upto by apply len_nonneg; lia). by rewrite upto_app_le by lia.
Qed.
Lemma starts_with_prefix p s t : starts_with p (s ++ t) = true → len p ≤ len s → starts_with p s = true.
Proof. unfold starts_with. rewrite !bool_decide_eq_true. intros Hs Hl. by rewrite upto_app_le in Hs by lia. Qed.
(** The head of a successful answer: it ends with the first empty line behind its status. *)
Definition answer_head (head : bytes) : Prop :=
  (starts_with (str "HTTP/1.1 200") head = true ∨ starts_with (str "HTTP/1.0 200") head = true) ∧
  ends_with head [13; 10; 13; 10] = true ∧ len head ≤ TUNNEL_BUF ∧
  ∀ a b, head = a ++ b → 12 ≤ len a → ends_with a [13; 10; 13; 10] = true → b = [].
Lemma tunnel_loop_ok fuel head pieces resp :
  answer_head head → resp ++ mjoin pieces = head → Forall (λ d, d ≠ []) pieces → pieces ≠ [] → (12 ≤ len resp ∨ ∃ d l, pieces = d :: l ∧ 12 ≤ len d) → (length pieces ≤ fuel)%nat →
  tunnel_loop fuel (Some <$> pieces) resp = (Tunnel, []).
Proof.
  intros (Hst & Hend & Hlen & Hfirst). revert resp pieces. induction fuel as [|fuel IH]; intros resp pieces Hj Hne Hp H12 Hf; [destruct pieces; [done|cbn in Hf; lia]|].
  destruct pieces as [|d pieces]; [done|]. cbn [fmap list_fmap tunnel_loop]. change (mjoin (d :: pieces)) with (d ++ mjoin pieces) in Hj. rewrite (assoc_L (++)) in Hj.
  assert (Hfit : len resp + len d ≤ TUNNEL_BUF) by (rewrite <- Hj, !len_app in Hlen; pose proof (len_nonneg (mjoin pieces)); lia). rewrite from_all, upto_all by lia. inversion_clear Hne as [|?? Hd Hne']. destruct d as [|b d]; [done|]. cbv iota. set (e := b :: d) in *.
  assert (H12' : 12 ≤ len (resp ++ e)) by (rewrite len_app; pose proof (len_nonneg e); pose proof (len_nonneg resp); destruct H12 as [?|(d' & l' & [= <- _] & ?)]; lia).
  assert (Hst' : starts_with (str "HTTP/1.1 200") (resp ++ e) || starts_with (str "HTTP/1.0 200") (resp ++ e) = true) by (apply orb_true_iff; rewrite <- Hj in Hst; destruct Hst as [Hst|Hst]; [left|right]; (eapply starts_with_prefix; [exact Hst|exact H12'])).
  rewrite Hst'. destruct (ends_with (resp ++ e) [13; 10; 13; 10]) eqn:He.
  - assert (Hm : mjoin pieces = []) by (by apply (Hfirst (resp ++ e))). destruct pieces as [|d' pieces]; [done|]. inversion_clear Hne'. by destruct d'.
  - destruct pieces as [|d' pieces]; [cbn in Hj; rewrite app_nil_r in Hj; congruence|].
    assert (Hlt : len (resp ++ e) < TUNNEL_BUF) by (rewrite <- Hj, len_app in Hlen; inversion_clear Hne' as [|?? Hd' _]; destruct d' as [|b' d']; [done|]; change (mjoin ((b' :: d') :: pieces)) with (b' :: d' ++ mjoin pieces) in Hlen; rewrite len_cons in Hlen; pose proof (len_nonneg (d' ++ mjoin pieces)); lia).
    rewrite (proj2 (Z.eqb_neq _ _)) by lia. apply IH; [done|done|done|by left|cbn in *; lia].
Qed.
(** The answer of a proxy that opens a tunnel is taken in any pieces, the first of which has
    the status; nothing behind it is read. *)
Lemma tunnel_opened host port auth head pieces :
  answer_head head → mjoin pieces = head → Forall (λ d, d ≠ []) pieces → (∃ d l, pieces = d :: l ∧ 12 ≤ len d) →
  tunnel host port auth (Some <$> pieces) = (tunnel_request host port auth, Tunnel, []).
Proof.
  intros Hh Hj Hne H12. unfold tunnel. rewrite (tunnel_loop_ok _ head); [done|done|done|done| |by right|].
  - destruct H12 as (d & l & -> & _). done.
  - destruct Hh as (_ & _ & Hlen & _). rewrite <- Hj in Hlen. enough (Hl : Z.of_nat (length pieces) ≤ len (mjoin pieces)) by lia. clear -Hne. induction Hne as [|d l Hd Hl IH]; [done|]. change (mjoin (d :: l)) with (d ++ mjoin l). rewrite len_app. cbn [length]. destruct d; [done|]. rewrite len_cons. pose proof (len_nonneg d). lia.
Qed.
(** An answer whose first piece ends within the status is refused. *)
Lemma tunnel_cut_refused :
  tunnel (str "a.b") 443 None [Some (str "HTTP/1.1 2"); Some (str "00 OK" ++ [13; 10; 13; 10])] = (tunnel_request (str "a.b") 443 None, TunnelErr Unsuccessful, [Some (str "00 OK" ++ [13; 10; 13; 10])]).
Proof. by vm_compute. Qed.

(** * Which hosts have no proxy *)

Lemma ends_with_spec s t : ends_with s t = true ↔ ∃ p, s = p ++ t.
Proof.
  unfold ends_with. rewrite andb_true_iff, bool_decide_eq_true, Z.leb_le. split.
  - intros [Hl Hf]. exists (upto (len s - len t) s). by rewrite <- Hf at 2; rewrite upto_from.
  - intros [p ->]. rewrite len_app. pose proof (len_nonneg p). split; [lia|]. apply from_app_exact. lia.
Qed.
Lemma starts_with_spec p s : starts_with p s = true ↔ ∃ t, s = p ++ t.
Proof.
  unfold starts_with. rewrite bool_decide_eq_true. split; [intros Hs; exists (from (len p) s); by rewrite <- Hs at 1; rewrite upto_from|intros [t ->]; by apply upto_app_exact].
Qed.
(** A rule is for a host when it is the star; when the rule, without stars around it, is the
    host itself but for dots around it, or a suffix of the host from a dot on.  It is also for
    every host that the rule ends with. *)
Definition covers (rule host : bytes) : Prop :=
  let rule := NoProxy.strip_star rule in
  rule = str "*" ∨ trim_matches 46 rule = host ∨ (∃ p, host = p ++ str "." ++ rule) ∨ (∃ p r, rule = str "." ++ r ∧ host = p ++ rule) ∨ ∃ p, rule = p ++ host.
Lemma blocks_spec host rule : NoProxy.blocks host rule = true ↔ covers rule host.
Proof.
  unfold NoProxy.blocks, covers. set (r := NoProxy.strip_star rule). clearbody r. cbv zeta.
  destruct (bool_decide (r = str "*") || ends_with r host || bool_decide (r = host) || bool_decide (trim_matches 46 r = host)) eqn:Hb.
  - split; [intros _|done]. rewrite !orb_true_iff, !bool_decide_eq_true, ends_with_spec in Hb. destruct Hb as [[[H|H]|H]|H]; [by left|by do 4 right|subst r; do 4 right; by exists []|by right; left].
  - rewrite !orb_false_iff, !bool_decide_eq_false in Hb. destruct Hb as [[[H1 H2] H3] H4]. assert (H2' : ¬ ∃ p, r = p ++ host) by (rewrite <- ends_with_spec, H2; done). destruct (ends_with host r) eqn:He.
    + apply ends_with_spec in He as [p ->]. rewrite orb_true_iff, bool_decide_eq_true, starts_with_spec, len_app. replace (len p + len r - len r - 1) with (len p - 1) by lia.
      destruct p as [|b p _] using rev_ind; [by destruct H3|]. rewrite <- (assoc_L (++)) in H2', H4 |- *. rewrite len_app. change (len [b]) with 1. replace (len p + 1 - 1) with (len p) by lia. rewrite lookup_app_r by (unfold len; lia). replace (Z.to_nat (len p) - length p)%nat with O by (unfold len; lia). cbn [lookup list_lookup app]. split.
      * intros [[t Ht]|[= ->]]; [right; right; right; left; exists (p ++ [b]), t; by rewrite <- (assoc_L (++))|right; right; left; by exists p].
      * intros [?|[?|[[q Hq]|[(q & t & Ht & _)|[q Hq]]]]]; [done|by destruct H4| |left; by exists t|].
        -- right. change (p ++ b :: r) with (p ++ [b] ++ r) in Hq. rewrite (assoc_L (++)), (assoc_L (++) q) in Hq. apply app_inj_2 in Hq as [Hq _]; [|done]. apply app_inj_2 in Hq as [_ Hq]; [|done]. by injection Hq as ->.
        -- exfalso. apply H2'. by exists q.
    + split; [done|]. assert (He' : ¬ ∃ p, host = p ++ r) by (rewrite <- ends_with_spec, He; done). intros [?|[?|[[q Hq]|[(q & t & _ & Hq)|?]]]]; [done|done| |exfalso; apply He'; by exists q|done]. exfalso. apply He'. exists (q ++ str "."). by rewrite <- (assoc_L (++)).
Qed.
Lemma contains_domain_spec n host : NoProxy.contains_domain host n = true ↔ ∃ rule, rule ∈ NoProxy.domains n ∧ covers rule host.
Proof.
  unfold NoProxy.contains_domain. rewrite existsb_exists. setoid_rewrite blocks_spec. setoid_rewrite <- list_elem_of_In. done.
Qed.
(** A host that a rule happens to end with goes past the proxy. *)
Lemma suffix_of_rule_bypasses :
  match NoProxy.from_str (str "www.example.com") with Ok (Some n) => NoProxy.contain (str "ple.com") n = true | _ => False end.
Proof. by vm_compute. Qed.
(** An entry that is a path is parsed as a URI without a host, which is unwrapped. *)
Lemma no_proxy_path_panics : NoProxy.from_str (str "a.b, /c") = Panic.
Proof. by vm_compute. Qed.

(** * Connections are shared within an origin and a proxy only *)

Lemma pool_key_origin l u1 u2 k : Proxies.pool_key u1 l = Ok k → Proxies.pool_key u2 l = Ok k → Uri.scheme u1 = Uri.scheme u2 ∧ Uri.authority u1 = Uri.authority u2.
Proof.
  assert (Hk : ∀ u, Proxies.pool_key u l = Ok k → Uri.scheme u = Some (PoolKey.target_scheme k) ∧ Uri.authority u = Some (PoolKey.target_authority k)).
  { intros u H. unfold Proxies.pool_key in H. inv_bind H. destruct a as [p|]; [unfold Proxy.pool_key in H|]; destruct (Uri.scheme u), (Uri.authority u); cbn in H; try done; by injection H as <-. }
  intros H1 H2. destruct (Hk _ H1) as [-> ->], (Hk _ H2) as [-> ->]. done.
Qed.
(** [k] is the key of a request for [u] through [p]. *)
Definition routed (l : Proxies.t) (u : Uri.t) (p : option Proxy.t) : Prop := Proxies.match_proxy u l = Ok p.
Definition ids (l : Proxies.t) : list Z := (λ p, ProxyInfo.pool_key_id (proxy_info (Proxy.intercept p))) <$> l.
Lemma matched_in l u p : Proxies.match_proxy u l = Ok (Some p) → p ∈ l.
Proof.
  induction l as [|q l IH]; intros H; [done|]. cbn [Proxies.match_proxy] in H. inv_bind H. destruct a; [injection H as <-; left|right; by apply IH].
Qed.
Lemma ids_unique l p q : NoDup (ids l) → p ∈ l → q ∈ l → ProxyInfo.pool_key_id (proxy_info (Proxy.intercept p)) = ProxyInfo.pool_key_id (proxy_info (Proxy.intercept q)) → p = q.
Proof.
  intros Hnd Hp Hq He. apply list_elem_of_lookup in Hp as [i Hi], Hq as [j Hj]. assert (Hij : i = j).
  { eapply (NoDup_lookup (ids l)); [done|unfold ids; rewrite list_lookup_fmap, Hi; reflexivity|unfold ids; rewrite list_lookup_fmap, Hj; cbn; by rewrite He]. }
  subst j. congruence.
Qed.
Lemma pool_key_proxy l u1 u2 p1 p2 k : NoDup (ids l) → routed l u1 p1 → routed l u2 p2 → Proxies.pool_key u1 l = Ok k → Proxies.pool_key u2 l = Ok k → p1 = p2.
Proof.
  unfold routed, Proxies.pool_key. intros Hnd H1 H2. rewrite H1, H2. cbn [mbind res_bind]. intros K1 K2. destruct p1 as [p1|], p2 as [p2|]; [|exfalso..|done].
  - f_equal. apply (ids_unique l); [done|by eapply matched_in|by eapply matched_in|]. unfold Proxy.pool_key in K1, K2. destruct (Uri.scheme u1), (Uri.authority u1), (Uri.scheme u2), (Uri.authority u2); cbn in K1, K2; try done. injection K1 as <-. by injection K2.
  - unfold Proxy.pool_key in K1. destruct (Uri.scheme u1), (Uri.authority u1), (Uri.scheme u2), (Uri.authority u2); cbn in K1, K2; try done. injection K1 as <-. by injection K2.
  - unfold Proxy.pool_key in K2. destruct (Uri.scheme u1), (Uri.authority u1), (Uri.scheme u2), (Uri.authority u2); cbn in K1, K2; try done. injection K1 as <-. by injection K2.
Qed.
Lemma pool_get {V} (key : PoolKey.t) (c : V) p : let '(v, p') := Pool.get key c p in Pool.lookup key p' = Some v ∧ ∀ k, k ≠ key → Pool.lookup k p' = Pool.lookup k p.
Proof.
  unfold Pool.get. destruct (Pool.lookup key p) eqn:Hl; [done|]. cbn [Pool.lookup]. split; [by rewrite bool_decide_eq_true_2|]. intros k Hk. by rewrite bool_decide_eq_false_2 by done.
Qed.
