(* ===== verification/AltSvc.v ===== *)
(** Alternative services ([ylong_http_client/src/util/alt_svc.rs]): the field with which a
    server names other hosts and protocols for its origin, and the map of the services the
    client knows.

    Instants are nanoseconds and [now] is what the clock says; adding to one fails when its
    seconds leave [i64].  The map, behind a lock, is its entries. *)
From S2P Require Import Prelude Buffers Headers Uri RateLimit HttpBody Normalizer Proxy.

(** [str::from_utf8]: the well-formed byte sequences of Unicode. *)
Fixpoint is_utf8 (l : bytes) : bool :=
  let inr a b x := (a <=? x) && (x <=? b) in
  let cont := inr 0x80 0xBF in
  match l with
  | [] => true
  | a :: l =>
      if inr 0 0x7F a then is_utf8 l
      else if inr 0xC2 0xDF a then match l with b :: l => cont b && is_utf8 l | _ => false end
      else if inr 0xE0 0xEF a then
        match l with
        | b :: c :: l => (if a =? 0xE0 then inr 0xA0 0xBF b else if a =? 0xED then inr 0x80 0x9F b else cont b) && cont c && is_utf8 l
        | _ => false
        end
      else if inr 0xF0 0xF4 a then
        match l with
        | b :: c :: d :: l => (if a =? 0xF0 then inr 0x90 0xBF b else if a =? 0xF4 then inr 0x80 0x8F b else cont b) && cont c && cont d && is_utf8 l
        | _ => false
        end
      else false
  end.
Definition from_utf8 (l : bytes) : option bytes := if is_utf8 l then Some l else None.
(** [str::parse::<u64>] *)
Fixpoint u64_digits (acc : Z) (s : bytes) : option Z :=
  match s with
  | [] => Some acc
  | b :: s => if is_ascii_digit b then let n := acc * 10 + (b - 48) in if n <? 2 ^ 64 then u64_digits n s else None else None
  end.
Definition parse_u64 (s : bytes) : option Z :=
  match s with
  | [] => None
  | b :: s' => if b =? 43 then match s' with [] => None | _ => u64_digits 0 s' end else u64_digits 0 s
  end.
(** [Instant::checked_add] *)
Definition checked_instant (now seconds : Z) : option Z := if now / 1000000000 + seconds <? 2 ^ 63 then Some (now + from_secs seconds) else None.
Definition http_version_try_from (value : bytes) : option HttpVersion :=
  if bool_decide (value = str "h1") then Some VHttp1 else if bool_decide (value = str "h2") then Some VHttp2 else if bool_decide (value = str "h3") then Some VHttp3 else None.

Definition DEFAULT_MAX_AGE : Z := 24 * 60 * 60.
Module AltService.
Record t := mk { http_version : HttpVersion; src_host : bytes; host : option bytes; port : bytes; lifetime : Z }.
End AltService.
Definition ok_of {E A} (r : res E A) : option A := match r with Ok a => Some a | _ => None end.
(** The position of a byte, [position]. *)
Fixpoint position (c : Z) (l : bytes) : option Z := match l with [] => None | b :: l => if b =? c then Some 0 else Z.succ <$> position c l end.

Module AltServiceMap.
(** The loop over the parameters: [None] is a return of [None]. *)
Fixpoint max_age (l : list bytes) (seconds : Z) : option Z :=
  match l with
  | [] => Some seconds
  | para :: l =>
      para ← from_utf8 para;
      match split_on 61 (trim para) with
      | name :: rest =>
          if bool_decide (name = str "ma") then
            match rest with [] => None | value :: _ => value ← from_utf8 value; parse_u64 value end
          else max_age l seconds
      | [] => None
      end
  end.
Definition host_and_port (host_port : bytes) : option (option bytes * bytes) :=
  index ← position 58 host_port;
  if index =? 0 then p ← from_utf8 (from 1 host_port); p ← ok_of (port_from_str p); Some (None, p)
  else
    h ← from_utf8 (upto index host_port);
    h ← ok_of (host_from_str h);
    p ← from_utf8 (from (index + 1) host_port);
    p ← ok_of (port_from_str p);
    Some (Some h, p).
(** [&host_port[1..host_port.len() - 1]] panics on fewer than two bytes. *)
Definition parse_alt_svc (now : Z) (src_host values : bytes) : res () (option AltService.t) :=
  match split_on 59 values with
  | [] => Ok None
  | alternative :: params =>
      match split_on 61 alternative with
      | alpn :: host_port :: _ =>
          match http_version_try_from alpn with
          | None => Ok None
          | Some http_version =>
              if len host_port <? 2 then Panic
              else
                Ok ('(host, port) ← host_and_port (slice 1 (len host_port - 1) host_port);
                    seconds ← max_age params DEFAULT_MAX_AGE;
                    lifetime ← checked_instant now seconds;
                    Some (AltService.mk http_version src_host host port lifetime))
          end
      | _ => Ok None
      end
  end.
Definition t : Type := Pool.t (list AltService.t).
Definition remove (key : PoolKey.t) (m : list (PoolKey.t * list AltService.t)) : t := filter (λ x, x.1 ≠ key) m.
Definition insert (key : PoolKey.t) (v : list AltService.t) (m : t) : t := (key, v) :: remove key m.
Definition get_alt_svcs (now : Z) (key : PoolKey.t) (m : t) : option (list AltService.t) * t :=
  match Pool.lookup key m with
  | None => (None, m)
  | Some l => let l := filter (λ s, now ≤ AltService.lifetime s) l in (Some l, insert key l m)
  end.
(** The alternatives in one line of the field. *)
Fixpoint parse_line (now : Z) (host : bytes) (l : list bytes) : res () (list AltService.t) :=
  match l with
  | [] => Ok []
  | slice :: l => s ← parse_alt_svc now host slice; rest ← parse_line now host l; Ok (option_list s ++ rest)
  end.
(** The loop over the lines; [None] when one of them is [clear]. *)
Fixpoint parse_lines (now : Z) (host : bytes) (l : list bytes) : res () (option (list AltService.t)) :=
  match l with
  | [] => Ok (Some [])
  | line :: l =>
      if bool_decide (line = str "clear") then Ok None
      else
        s ← parse_line now host (split_on 44 line);
        rest ← parse_lines now host l;
        Ok (rest ← rest; Some (s ++ rest))
  end.
Definition set_alt_svcs (now : Z) (uri : Uri.t) (headers : Headers.t) (m : t) : res () t :=
  match Uri.scheme uri, Uri.authority uri, Uri.host uri with
  | Some scheme, Some authority, Some host =>
      let key := PoolKey.new scheme authority in
      match Headers.get headers (str "Alt-Svc") with
      | None => Ok m
      | Some values =>
          r ← parse_lines now host (HeaderValue.inner values);
          Ok (match r with None => remove key m | Some l => insert key l m end)
      end
  | _, _, _ => Ok m
  end.
End AltServiceMap.
Import AltServiceMap.

(** * A well-formed alternative is read *)

Lemma split_none sep a : Forall (λ b, b ≠ sep) a → split_on sep a = [a].
Proof. induction 1 as [|b a Hb Ha IH]; [done|]. cbn [split_on]. by rewrite (proj2 (Z.eqb_neq b sep)), IH by done. Qed.
Lemma split_first sep a rest : Forall (λ b, b ≠ sep) a → split_on sep (a ++ sep :: rest) = a :: split_on sep rest.
Proof. induction 1 as [|b a Hb Ha IH]; cbn [split_on app]; [by rewrite Z.eqb_refl|]. by rewrite (proj2 (Z.eqb_neq b sep)), IH by done. Qed.
Lemma position_first c a rest : Forall (λ b, b ≠ c) a → position c (a ++ c :: rest) = Some (len a).
Proof. induction 1 as [|b a Hb Ha IH]; cbn [position app]; [by rewrite Z.eqb_refl|]. rewrite (proj2 (Z.eqb_neq b c)), IH by done. cbn. f_equal. rewrite len_cons. lia. Qed.
Lemma ascii_utf8 l : Forall (λ b, 0 ≤ b ≤ 127) l → from_utf8 l = Some l.
Proof.
  intros Hl. unfold from_utf8. enough (H : is_utf8 l = true) by (by rewrite H). induction Hl as [|b l Hb Hl IH]; [done|]. cbn [is_utf8]. by rewrite (proj2 (Z.leb_le 0 b)), (proj2 (Z.leb_le b 127)) by lia.
Qed.
Definition alpn (v : HttpVersion) : bytes := match v with VHttp1 => str "h1" | VHttp2 => str "h2" | _ => str "h3" end.
(** A byte of a host, with no meaning in the field. *)
Definition plain (b : Z) : Prop := 33 ≤ b ≤ 126 ∧ b ≠ 34 ∧ b ≠ 44 ∧ b ≠ 58 ∧ b ≠ 59 ∧ b ≠ 61.
(** [h3="host:port"; ma=seconds] *)
Definition alternative (v : HttpVersion) (host port ma : bytes) : bytes :=
  alpn v ++ str "=" ++ [34] ++ host ++ str ":" ++ port ++ [34] ++ str "; ma=" ++ ma.
Lemma plain_ne (c : Z) l : Forall plain l → c ∈ [34; 44; 58; 59; 61] → Forall (λ b, b ≠ c) l.
Proof. intros Hl Hc. eapply list.Forall_impl; [exact Hl|]. intros b (Hb & H1 & H2 & H3 & H4 & H5). rewrite !elem_of_cons in Hc. destruct Hc as [->|[->|[->|[->|[->|Hc]]]]]; [lia..|by apply not_elem_of_nil in Hc]. Qed.
Lemma plain_ascii l : Forall plain l → Forall (λ b, 0 ≤ b ≤ 127) l.
Proof. intros Hl. eapply list.Forall_impl; [exact Hl|]. intros b (Hb & _). lia. Qed.
Lemma digits_plain l : Forall (λ b, is_ascii_digit b = true) l → Forall plain l.
Proof. intros Hl. eapply list.Forall_impl; [exact Hl|]. intros b Hb. apply digit_range in Hb. unfold plain. lia. Qed.
Lemma plain_word l : Forall plain l → Forall (λ b, is_space b = false) l.
Proof. intros Hl. eapply list.Forall_impl; [exact Hl|]. intros b (Hb & _). unfold is_space. rewrite (proj2 (Z.leb_gt b 13)), (proj2 (Z.eqb_neq b 32)) by lia. by rewrite andb_false_r. Qed.
Lemma trim_word l : Forall (λ b, is_space b = false) l → trim (32 :: l) = l.
Proof.
  assert (Hgo : ∀ l, Forall (λ b, is_space b = false) l → trim_start_of is_space l = l) by (intros k Hk; destruct Hk as [|b k Hb _]; [done|]; cbn; by rewrite Hb).
  intros Hl. unfold trim, trim_of. cbn [trim_start_of is_space]. change (is_space 32) with true. cbv iota. rewrite (Hgo l) by done. rewrite Hgo by (by apply Forall_reverse). apply reverse_involutive.
Qed.
Lemma host_port_read host port n : Forall plain host → Forall plain port → parse_u16 port = Some n → host_and_port (host ++ 58 :: port) = Some (match host with [] => None | _ => Some host end, port).
Proof.
  intros Hh Hp Hn. unfold host_and_port. rewrite position_first by (apply plain_ne; [done|set_solver]). cbn [mbind option_bind]. unfold port_from_str, host_from_str. destruct host as [|b host].
  - change (len [] =? 0) with true. cbv iota. change (from 1 ([] ++ 58 :: port)) with port. rewrite ascii_utf8 by (by apply plain_ascii). cbn [mbind option_bind]. by rewrite Hn.
  - rewrite (proj2 (Z.eqb_neq (len (b :: host)) 0)) by (rewrite len_cons; pose proof (len_nonneg host); lia). rewrite upto_app_exact by done. change (58 :: port) with ([58] ++ port). rewrite (assoc_L (++)), from_app_exact by (rewrite len_app; done).
    rewrite !ascii_utf8 by (by apply plain_ascii). cbn [mbind option_bind ok_of]. by rewrite Hn.
Qed.
Lemma alpn_version v : v ≠ VNegotiate → http_version_try_from (alpn v) = Some v ∧ Forall plain (alpn v).
Proof. intros Hv. destruct v; [| | |done]; (split; [by vm_compute|]); repeat constructor; unfold plain; cbn; lia. Qed.
(** The alternative that RFC 7838 has for a protocol, a host (none for that of the origin),
    a port and the seconds it is good for. *)
Lemma alternative_read now src v host port n ma s :
  v ≠ VNegotiate → Forall plain host → Forall plain port → parse_u16 port = Some n → Forall (λ b, is_ascii_digit b = true) ma → parse_u64 ma = Some s → now / 1000000000 + s < 2 ^ 63 →
  parse_alt_svc now src (alternative v host port ma) = Ok (Some (AltService.mk v src (match host with [] => None | _ => Some host end) port (now + from_secs s))).
Proof.
  intros Hv Hh Hp Hn Hm Hs Hlt. destruct (alpn_version v Hv) as [Hver Hpl]. apply digits_plain in Hm. unfold parse_alt_svc, alternative.
  set (hp := [34] ++ host ++ str ":" ++ port ++ [34]). replace (alpn v ++ str "=" ++ [34] ++ host ++ str ":" ++ port ++ [34] ++ str "; ma=" ++ ma) with ((alpn v ++ 61 :: hp) ++ 59 :: (str " ma=" ++ ma)) by (unfold hp; change (str "=") with [61]; change (str "; ma=") with (59 :: str " ma="); rewrite <- (assoc_L (++)); cbn [app]; rewrite <- !(assoc_L (++)); done).
  assert (Hhp : ∀ c, c ∈ [44; 59; 61] → Forall (λ b, b ≠ c) hp).
  { intros c Hc. unfold hp. assert (Hc' : c ∈ [34; 44; 58; 59; 61]) by set_solver. rewrite !Forall_app. split_and!; try (by apply plain_ne); repeat constructor; rewrite !elem_of_cons in Hc; cbn; destruct Hc as [->|[->|[->|Hc]]]; try lia; by apply not_elem_of_nil in Hc. }
  rewrite split_first by (apply Forall_app; split; [apply plain_ne; [done|set_solver]|constructor; [done|apply Hhp; set_solver]]).
  rewrite split_first by (apply plain_ne; [done|set_solver]). rewrite (split_none 61 hp) by (apply Hhp; set_solver). rewrite Hver.
  assert (Hlen : len hp = len (host ++ 58 :: port) + 2) by (unfold hp, len; rewrite !length_app; cbn [length]; change (length (str ":")) with 1%nat; lia). pose proof (len_nonneg (host ++ 58 :: port)). rewrite (proj2 (Z.ltb_ge (len hp) 2)) by lia.
  assert (Hsl : slice 1 (len hp - 1) hp = host ++ 58 :: port).
  { replace (len hp - 1) with (1 + len (host ++ 58 :: port)) by lia. unfold slice. replace hp with ((34 :: host ++ 58 :: port) ++ [34]) by (unfold hp; cbn; rewrite <- (assoc_L (++)); done). rewrite upto_app_exact by (rewrite len_cons; lia). done. }
  rewrite Hsl, (host_port_read host port n) by done. cbn [mbind option_bind].
  rewrite split_none by (apply Forall_app; split; [by repeat constructor|apply plain_ne; [done|set_solver]]). cbn [max_age]. rewrite ascii_utf8 by (apply Forall_app; split; [by repeat constructor; cbn; lia|by apply plain_ascii]). cbn [mbind option_bind].
  change (str " ma=" ++ ma) with (32 :: str "ma" ++ 61 :: ma). rewrite trim_word by (apply Forall_app; split; [by repeat constructor|constructor; [done|by apply plain_word]]). rewrite split_first by (by repeat constructor). rewrite split_none by (apply plain_ne; [done|set_solver]). rewrite bool_decide_eq_true_2 by done.
  rewrite ascii_utf8 by (by apply plain_ascii). cbn [mbind option_bind]. rewrite Hs. cbn [mbind option_bind]. unfold checked_instant. by rewrite (proj2 (Z.ltb_lt _ _)) by lia.
Qed.
(** What becomes of a field as most servers send it: the second alternative starts with the
    space behind the comma and is dropped. *)
Lemma spaced_alternative_dropped :
  parse_lines 0 (str "a.b") [alternative VHttp3 [] (str "443") (str "60") ++ str ", " ++ alternative VHttp2 [] (str "443") (str "60")] =
  Ok (Some [AltService.mk VHttp3 (str "a.b") None (str "443") (from_secs 60)]).
Proof. by vm_compute. Qed.
(** A protocol without a quoted authority is sliced as if the quotes were there: the field
    [h3=] of a response makes the client panic. *)
Lemma short_alternative_panics : parse_alt_svc 0 (str "a.b") (str "h3=") = Panic ∧ parse_alt_svc 0 (str "a.b") (str "h2=:") = Panic.
Proof. by vm_compute. Qed.

(** * The map *)

Lemma lookup_remove key k m : Pool.lookup k (remove key m) = if bool_decide (k = key) then None else Pool.lookup k m.
Proof.
  induction m as [|[k' v] m IH]; [by destruct (bool_decide _)|]. unfold remove in *. cbn [Pool.lookup]. destruct (decide (k' = key)) as [->|Hne].
  - rewrite filter_cons_False by (intros H; by apply H). rewrite IH. destruct (decide (k = key)) as [->|Hk]; [by rewrite (bool_decide_eq_true_2 (key = key))|]. by rewrite (bool_decide_eq_false_2 (key = k)) by done.
  - rewrite filter_cons_True by done. cbn [Pool.lookup]. rewrite IH. destruct (decide (k' = k)) as [->|Hk]; [by rewrite (bool_decide_eq_true_2 (k = k)), (bool_decide_eq_false_2 (k = key)) by done|]. by rewrite (bool_decide_eq_false_2 (k' = k)) by done.
Qed.
(** The services of an origin are those of its last response that are still good; those of
    another are left alone. *)
Lemma alt_svcs_kept now later uri h m m' scheme authority l k :
  Uri.scheme uri = Some scheme → Uri.authority uri = Some authority → is_Some (Headers.get h (str "Alt-Svc")) → set_alt_svcs now uri h m = Ok m' → Pool.lookup (PoolKey.new scheme authority) m' = Some l →
  (get_alt_svcs later (PoolKey.new scheme authority) m').1 = Some (filter (λ s, later ≤ AltService.lifetime s) l) ∧ (k ≠ PoolKey.new scheme authority → Pool.lookup k m' = Pool.lookup k m).
Proof.
  intros Hs Ha [v Hv] Hset Hl. split; [unfold get_alt_svcs; by rewrite Hl|]. intros Hk. unfold set_alt_svcs in Hset. unfold Uri.host in Hset. rewrite Hs, Ha, Hv in Hset. cbn [fmap option_fmap option_map] in Hset. inv_bind Hset. injection Hset as <-. destruct a as [x|].
  - unfold insert. cbn [Pool.lookup]. rewrite (bool_decide_eq_false_2 (_ = k)) by done. rewrite lookup_remove. by rewrite bool_decide_eq_false_2 by done.
  - rewrite lookup_remove. by rewrite bool_decide_eq_false_2 by done.
Qed.

