(* ===== verification/Redirect.v ===== *)
(** Redirects of the client ([ylong_http_client/src/util/redirect.rs]) and the loop that
    follows them ([Client::redirect] of [async_impl/client.rs]).

    What the network and the interceptors do is a parameter: it sees every request that
    was sent before.  The body of a request does not change on the way; that it is there is
    a parameter where it matters. *)
From S2P Require Import Prelude Buffers Headers Uri Message HttpBody Normalizer.

(** * One redirect *)

Inductive redirect_error := IllegalLocation | OverLimit.
Inductive Strategy := LimitTimes (max : Z) | NoRedirect.
Inductive Trigger := NextLink | Stop.

Module Strategy_.
Definition trigger (s : Strategy) (previous : list Uri.t) : res redirect_error Trigger :=
  match s with
  | LimitTimes max => if len previous <? max then Ok NextLink else Err OverLimit
  | NoRedirect => Ok Stop
  end.
End Strategy_.

Module Redirect.
Definition UPDATED_HEADERS : list bytes :=
  [str "transfer-encoding"; str "content-encoding"; str "content-type"; str "content-length";
   str "content-language"; str "content-location"; str "digest"; str "last-modified"].
Definition SENSITIVE_HEADERS : list bytes :=
  [str "authorization"; str "cookie"; str "cookie2"; str "proxy-authorization"; str "www-authenticate"].
(** [Default], and [Redirect::limited(usize::MAX)] of the settings. *)
Definition default_strategy : Strategy := LimitTimes 10.

(** [for header_name in .. { let _ = headers.remove(header_name); }]. *)
Definition remove_all (names : list bytes) (h : Headers.t) : Headers.t :=
  fold_left (λ h name, (Headers.remove h name).2) names h.
Definition set_headers (r : RequestPart.t) (h : Headers.t) : RequestPart.t :=
  RequestPart.mk (RequestPart.uri r) (RequestPart.method r) (RequestPart.version r) h.
Definition set_method (r : RequestPart.t) (m : Method.t) : RequestPart.t :=
  RequestPart.mk (RequestPart.uri r) m (RequestPart.version r) (RequestPart.headers r).
Definition set_uri (r : RequestPart.t) (u : Uri.t) : RequestPart.t :=
  RequestPart.mk u (RequestPart.method r) (RequestPart.version r) (RequestPart.headers r).

(** The [match response.status()]: [None] when the response is no redirect. *)
Definition rewrite_request (status : Z) (request : RequestPart.t) : option RequestPart.t :=
  if (status =? 301) || (status =? 302) || (status =? 303) then
    let request := set_headers request (remove_all UPDATED_HEADERS (RequestPart.headers request)) in
    match RequestPart.method request with
    | Method.Get | Method.Head => Some request
    | _ => Some (set_method request Method.Get)
    end
  else if (status =? 307) || (status =? 308) then Some request
  else None.

Definition location_of (response : ResponsePart.t) : option Uri.t :=
  value ← Headers.get (ResponsePart.headers response) (str "Location");
  s ← match HeaderValue.to_string value with Ok s => Some s | _ => None end;
  match Uri.from_bytes s with Ok u => Some u | _ => None end.
(** Without a scheme or an authority, those of the request are taken. *)
Definition complete_location (origin location : Uri.t) : Uri.t :=
  match Uri.scheme location, Uri.authority location with
  | Some _, Some _ => location
  | _, _ =>
      let '(_, _, path, query) := Uri.into_parts location in
      Uri.from_raw_parts (Uri.scheme origin) (Uri.authority origin) path query
  end.

#[global] Instance authority_eq_dec : EqDecision Authority.t.
Proof. solve_decision. Defined.

(** [redirect]: the answer, the request and the URIs that were visited. *)
Definition redirect (strategy : Strategy) (request : RequestPart.t) (response : ResponsePart.t) (previous : list Uri.t) :
    res redirect_error Trigger * RequestPart.t * list Uri.t :=
  match rewrite_request (StatusCode.code (ResponsePart.status response)) request with
  | None => (Ok Stop, request, previous)
  | Some request =>
      let origin := RequestPart.uri request in
      let previous := previous ++ [origin] in
      match location_of response with
      | None => (Err IllegalLocation, request, previous)
      | Some location =>
          let location := complete_location origin location in
          match Strategy_.trigger strategy previous with
          | Ok NextLink =>
              let request :=
                match list.last previous with
                | Some prev =>
                    if bool_decide (Uri.authority location = Uri.authority prev) then request
                    else set_headers request (remove_all SENSITIVE_HEADERS (RequestPart.headers request))
                | None => request
                end in
              (Ok NextLink, set_uri request location, previous)
          | Ok Stop => (Ok Stop, request, previous)
          | Err e => (Err e, request, previous)
          | Panic => (Panic, request, previous)
          end
      end
  end.
End Redirect.
Import Redirect.

(** * The loop of the client *)

Inductive send_error := FormatError (e : client_error) | RedirectError (e : redirect_error) | NetworkError | ReuseError | Refused.

Section Client.
Context (tls : bool) (strategy : Strategy).
(** What comes back for a request, after those that were sent before. *)
Context (exchange : list RequestPart.t → RequestPart.t → option ResponsePart.t).
(** Whether the body can be sent again, and what the interceptors say. *)
Context (reuse : list RequestPart.t → bool).
Context (intercept_redirect_request : RequestPart.t → bool) (intercept_redirect_response intercept_response : ResponsePart.t → bool).

(** [send_unformatted_request]: the answer, the request as it was formatted, and the
    requests that were sent. *)
Definition send_unformatted_request (request : RequestPart.t) (sent : list RequestPart.t) :
    res send_error ResponsePart.t * RequestPart.t * list RequestPart.t :=
  match RequestFormatter.format tls request with
  | Ok request =>
      let sent' := sent ++ [request] in
      (match exchange sent request with Some response => Ok response | None => Err NetworkError end, request, sent')
  | Err e => (Err (FormatError e), request, sent)
  | Panic => (Panic, request, sent)
  end.

(** The [loop] of [redirect]. *)
Fixpoint redirect_loop (fuel : nat) (response : ResponsePart.t) (request : RequestPart.t) (previous : list Uri.t)
    (sent : list RequestPart.t) : option (res send_error ResponsePart.t * list RequestPart.t) :=
  match fuel with
  | O => None
  | S fuel =>
      match Redirect.redirect strategy request response previous with
      | (Ok NextLink, request, previous) =>
          if negb (reuse sent) then Some (Err ReuseError, sent)
          else if negb (intercept_redirect_request request) then Some (Err Refused, sent)
          else
            match send_unformatted_request request sent with
            | (Ok response, request, sent) =>
                if intercept_redirect_response response then redirect_loop fuel response request previous sent
                else Some (Err Refused, sent)
            | (Err e, _, sent) => Some (Err e, sent)
            | (Panic, _, sent) => Some (Panic, sent)
            end
      | (Ok Stop, _, _) => Some (if intercept_response response then Ok response else Err Refused, sent)
      | (Err e, _, _) => Some (Err (RedirectError e), sent)
      | (Panic, _, _) => Some (Panic, sent)
      end
  end.
(** [send_request]. *)
Definition send_request (fuel : nat) (request : RequestPart.t) : option (res send_error ResponsePart.t * list RequestPart.t) :=
  match send_unformatted_request request [] with
  | (Ok response, request, sent) => redirect_loop fuel response request [] sent
  | (Err e, _, sent) => Some (Err e, sent)
  | (Panic, _, sent) => Some (Panic, sent)
  end.
End Client.

(** * One redirect, what it does *)

Definition absent (names : list bytes) (h : Headers.t) : Prop := ∀ n, n ∈ names → Headers.map h !! n = None.
(** The names in the lists are as the header map has them. *)
Definition plain (names : list bytes) : Prop := Forall (λ n, HeaderName.from_bytes n = Ok n) names.

Lemma updated_plain : plain UPDATED_HEADERS.
Proof. repeat (constructor; [by vm_compute|]). constructor. Qed.
Lemma sensitive_plain : plain SENSITIVE_HEADERS.
Proof. repeat (constructor; [by vm_compute|]). constructor. Qed.

Lemma remove_all_keeps names h n : Headers.map h !! n = None → Headers.map (remove_all names h) !! n = None.
Proof.
  unfold remove_all. revert h. induction names as [|x names IH]; intros h Hn; [done|]. simpl. apply IH. unfold Headers.remove.
  destruct (HeaderName.from_bytes x) as [y| |]; [|done..]. simpl. rewrite lookup_delete_None. by right.
Qed.
Lemma remove_all_absent names h : plain names → absent names (remove_all names h).
Proof.
  intros Hp n Hn. unfold remove_all. revert h. induction Hp as [|x names Hx _ IH]; intros h; [by apply elem_of_nil in Hn|].
  apply elem_of_cons in Hn as [->|Hn]; [|by apply IH]. simpl. apply remove_all_keeps. unfold Headers.remove. rewrite Hx. simpl. by rewrite lookup_delete_eq.
Qed.
Lemma remove_all_others names h n : plain names → n ∉ names → Headers.map (remove_all names h) !! n = Headers.map h !! n.
Proof.
  intros Hp Hn. unfold remove_all. revert h. induction Hp as [|x names Hx _ IH]; intros h; [done|].
  apply not_elem_of_cons in Hn as [Hne Hn]. simpl. rewrite IH by done. unfold Headers.remove. rewrite Hx. simpl. by rewrite lookup_delete_ne.
Qed.

#[local] Opaque remove_all.
Definition rewritten (status : Z) : bool := (status =? 301) || (status =? 302) || (status =? 303).
Definition get_or_head (m : Method.t) : Prop := m = Method.Get ∨ m = Method.Head.
(** Fields that a redirect may take out of a request. *)
Definition taken : list bytes := UPDATED_HEADERS ++ SENSITIVE_HEADERS.

Lemma rewrite_request_ok status r r' :
  rewrite_request status r = Some r' →
  RequestPart.uri r' = RequestPart.uri r ∧
  (if rewritten status then get_or_head (RequestPart.method r') ∧ RequestPart.headers r' = remove_all UPDATED_HEADERS (RequestPart.headers r)
   else r' = r).
Proof.
  unfold rewrite_request, rewritten. set (h' := remove_all UPDATED_HEADERS (RequestPart.headers r)). clearbody h'.
  destruct (_ || _); [|destruct (_ || _); [by intros [= <-]|done]]. unfold get_or_head. destruct r as [u [] v h]; intros [= <-]; simpl; auto.
Qed.
Lemma rewrite_request_headers status r r' n :
  rewrite_request status r = Some r' →
  (n ∉ taken → Headers.map (RequestPart.headers r') !! n = Headers.map (RequestPart.headers r) !! n) ∧
  (Headers.map (RequestPart.headers r) !! n = None → Headers.map (RequestPart.headers r') !! n = None).
Proof.
  intros H. apply rewrite_request_ok in H as [_ H]. destruct (rewritten status); [destruct H as [_ ->]|by subst].
  split; [|apply remove_all_keeps]. intros Hn. apply remove_all_others; [exact updated_plain|]. unfold taken in Hn. by apply not_elem_of_app in Hn as [? _].
Qed.

(** Where a redirect is followed: the request goes to the location, completed by the
    request's own scheme and authority; behind 301, 302 and 303 it is a [GET] or a
    [HEAD] without the fields that describe a body; and unless the authority is the same,
    it carries no credentials. *)
Theorem redirect_followed strategy request response previous request' previous' :
  Redirect.redirect strategy request response previous = (Ok NextLink, request', previous') →
  previous' = previous ++ [RequestPart.uri request] ∧
  (∃ location, location_of response = Some location ∧ RequestPart.uri request' = complete_location (RequestPart.uri request) location) ∧
  (if rewritten (StatusCode.code (ResponsePart.status response))
   then get_or_head (RequestPart.method request') ∧ absent UPDATED_HEADERS (RequestPart.headers request')
   else RequestPart.method request' = RequestPart.method request) ∧
  (Uri.authority (RequestPart.uri request') = Uri.authority (RequestPart.uri request) ∨
   absent SENSITIVE_HEADERS (RequestPart.headers request')) ∧
  (∀ n, n ∉ taken → Headers.map (RequestPart.headers request') !! n = Headers.map (RequestPart.headers request) !! n) ∧
  (∀ n, Headers.map (RequestPart.headers request) !! n = None → Headers.map (RequestPart.headers request') !! n = None).
Proof.
  unfold Redirect.redirect. destruct (rewrite_request _ request) as [r|] eqn:Hr; [|done]. pose proof (rewrite_request_ok _ _ _ Hr) as [Hu Hm].
  destruct (location_of response) as [loc|] eqn:Hl; [|done]. destruct (Strategy_.trigger strategy _) as [[]|e|]; [|done..].
  rewrite Hu, last_snoc. intros [= <- <-]. split; [done|]. split; [exists loc; by split|].
  assert (Hsens : ∀ n, n ∉ taken → n ∉ SENSITIVE_HEADERS) by (intros n Hn; unfold taken in Hn; by apply not_elem_of_app in Hn as [_ ?]).
  cbn [set_uri RequestPart.uri RequestPart.method RequestPart.headers]. split; [|split; [|split]].
  - destruct (rewritten _); [destruct Hm as [Hg Hh]|subst r]; case_bool_decide; cbn [set_headers RequestPart.method RequestPart.headers]; try done;
      (split; [done|]); intros n Hn; [|apply remove_all_keeps]; rewrite Hh; by apply (remove_all_absent _ _ updated_plain).
  - case_bool_decide as Hd; [by left|right]. apply remove_all_absent, sensitive_plain.
  - intros n Hn. rewrite <- (proj1 (rewrite_request_headers _ _ _ n Hr) Hn). case_bool_decide; [done|].
    apply remove_all_others; [exact sensitive_plain|by apply Hsens].
  - intros n Hn. apply (rewrite_request_headers _ _ _ n Hr) in Hn. case_bool_decide; [done|]. by apply remove_all_keeps.
Qed.

(** * The whole chain *)

Definition same_origin (u v : Uri.t) : Prop := Uri.host u = Uri.host v ∧ port_number u = port_number v ∧ is_Some (Uri.host u) ∧ is_Some (port_number u).
(** The fields in which a client shows who it is. *)
Definition credential_fields : list bytes :=
  [str "authorization"; str "proxy-authorization"; str "cookie"; str "cookie2"; str "www-authenticate"].
(** To the origin of the first request, or without credentials. *)
Definition guarded (u0 : Uri.t) (r : RequestPart.t) : Prop :=
  same_origin (RequestPart.uri r) u0 ∨ absent credential_fields (RequestPart.headers r).
Lemma credentials_sensitive h : absent SENSITIVE_HEADERS h → absent credential_fields h.
Proof.
  intros Ha n Hn. apply Ha. revert Hn. unfold credential_fields, SENSITIVE_HEADERS. rewrite !elem_of_cons. tauto.
Qed.

Lemma same_authority u v w : Uri.authority u = Uri.authority v → same_origin v w → same_origin u w.
Proof. unfold same_origin, Uri.host, port_number, Uri.port. by intros ->. Qed.

Lemma complete_uri_ok origin location : uri_ok origin → uri_ok location → uri_ok (complete_location origin location).
Proof.
  intros Ho Hl. unfold complete_location. destruct (Uri.scheme location); [|exact Ho]. destruct (Uri.authority location) eqn:Ha; [exact Hl|exact Ho].
Qed.
Lemma location_uri_ok response location : location_of response = Some location → uri_ok location.
Proof.
  unfold location_of. destruct (Headers.get _ _) as [v|]; [|done]. simpl. destruct (Uri.from_bytes _) as [u| |] eqn:Hu; [|done..].
  intros [= <-]. by apply (parsed_uri_ok _ _ Hu).
Qed.

Lemma try_insert_absent h name value n names :
  HeaderName.from_bytes name = Ok n → n ∉ names → absent names h → absent names (try_insert h name value).
Proof.
  intros Hn Hni Ha x Hx. unfold try_insert, Headers.insert. rewrite Hn. cbn [mbind res_bind].
  destruct (HeaderValue.from_bytes value); [|by apply Ha..]. cbn [mbind res_bind Headers.map].
  rewrite lookup_insert_ne; [by apply Ha|]. intros ->. done.
Qed.
(** Formatting fills in, and keeps a port that is there. *)
Lemma request_format_ok tls r r' :
  uri_ok (RequestPart.uri r) → RequestFormatter.format tls r = Ok r' →
  (∃ h, formatted tls h (RequestPart.uri r) (RequestPart.uri r') ∧ Uri.host (RequestPart.uri r) = Some h) ∧
  (absent credential_fields (RequestPart.headers r) → absent credential_fields (RequestPart.headers r')).
Proof.
  intros Hok. unfold RequestFormatter.format. destruct (_ && _); [done|].
  destruct (UriFormatter.format tls (RequestPart.uri r)) as [u| |] eqn:Hf; [|done..]. cbn [mbind res_bind].
  destruct (format_host_value u) as [hv| |]; [|done..]. cbn [mbind res_bind]. intros H. injection H as <-.
  cbn [RequestPart.uri RequestPart.headers]. split.
  - destruct (Uri.host (RequestPart.uri r)) as [h|] eqn:Hh.
    + exists h. split; [|done]. destruct (format_ok tls _ h Hok Hh) as (u' & Hu' & Hx). rewrite Hf in Hu'. by injection Hu' as <-.
    + unfold UriFormatter.format in Hf. rewrite Hh in Hf. destruct (uri_already_normalized _) eqn:Hn; [|done]. unfold uri_already_normalized in Hn.
      rewrite Hh in Hn. rewrite (bool_decide_false (is_Some None)) in Hn by (by intros []). by rewrite andb_false_r in Hn.
  - intros Ha. apply (try_insert_absent _ _ _ (str "host")); [by vm_compute|by apply (bool_decide_eq_true_1 _); vm_compute|].
    destruct (Headers.get_lowercase _ _); [done|].
    apply (try_insert_absent _ _ _ (str "accept")); [by vm_compute|by apply (bool_decide_eq_true_1 _); vm_compute|done].
Qed.
Lemma format_origin tls h u u' : formatted tls h u u' → Uri.host u = Some h → is_Some (port_number u) → same_origin u' u.
Proof.
  intros (_ & _ & _ & Hh & Hp & _) Hu [n Hn]. unfold same_origin. rewrite Hh, Hp, Hu, Hn. simpl. by repeat split; eexists.
Qed.
Lemma formatted_origin tls h u u' : formatted tls h u u' → same_origin u' u'.
Proof. intros (_ & _ & _ & Hh & Hp & _). unfold same_origin. rewrite Hh, Hp. repeat split; by eexists. Qed.

Section Chain.
Context (tls : bool) (strategy : Strategy).
Context (exchange : list RequestPart.t → RequestPart.t → option ResponsePart.t) (reuse : list RequestPart.t → bool).
Context (irq : RequestPart.t → bool) (irs ir : ResponsePart.t → bool).
#[local] Abbreviation loop := (redirect_loop tls strategy exchange reuse irq irs ir).
#[local] Abbreviation send := (send_request tls strategy exchange reuse irq irs ir).

(** A request on its way: formatted, and guarded. *)
Definition underway (u0 : Uri.t) (r : RequestPart.t) : Prop :=
  uri_ok (RequestPart.uri r) ∧ guarded u0 r.
Lemma redirect_underway u0 request response previous request' previous' :
  underway u0 request → Redirect.redirect strategy request response previous = (Ok NextLink, request', previous') →
  underway u0 request'.
Proof.
  intros [Hok Hg] Hr. pose proof (redirect_followed _ _ _ _ _ _ Hr) as (_ & (loc & Hl & Hu) & _ & Ha & _ & Hkeep). split.
  - rewrite Hu. apply complete_uri_ok; [done|]. by apply (location_uri_ok response).
  - destruct Ha as [Ha|Ha]; [|right; by apply credentials_sensitive]. destruct Hg as [Hg|Hg]; [left; by apply (same_authority _ (RequestPart.uri request))|right].
    intros n Hn. by apply Hkeep, Hg.
Qed.
Lemma format_underway u0 r r' :
  underway u0 r → RequestFormatter.format tls r = Ok r' → underway u0 r'.
Proof.
  intros [Hok Hg] Hf. destruct (request_format_ok tls r r' Hok Hf) as [(h & Hfm & Hh) Hkeep]. split; [apply Hfm|].
  destruct Hg as [Hg|Hg]; [left|right; by apply Hkeep].
  pose proof (format_origin tls h _ _ Hfm Hh (proj2 (proj2 (proj2 Hg)))) as Hx. unfold same_origin in *. destruct Hg as (? & ? & ? & ?), Hx as (? & ? & ? & ?).
  split; [congruence|]. split; [congruence|]. done.
Qed.
Lemma loop_guarded u0 fuel response request previous sent result sent' :
  underway u0 request → Forall (guarded u0) sent → loop fuel response request previous sent = Some (result, sent') →
  ∃ rest, sent' = sent ++ rest ∧ Forall (guarded u0) rest.
Proof.
  revert response request previous sent. induction fuel as [|fuel IH]; intros response request previous sent Hr Hs; [done|]. cbn [redirect_loop].
  assert (Hstop : ∀ x : res send_error ResponsePart.t, Some (x, sent) = Some (result, sent') → ∃ rest, sent' = sent ++ rest ∧ Forall (guarded u0) rest).
  { intros x [= _ <-]. exists []. by rewrite app_nil_r. }
  destruct (Redirect.redirect strategy request response previous) as [[[[]|e|] request'] previous'] eqn:Hd; [|by apply Hstop..].
  pose proof (redirect_underway u0 _ _ _ _ _ Hr Hd) as Hu. destruct (negb _); [by apply Hstop|]. destruct (negb _); [by apply Hstop|].
  unfold send_unformatted_request. destruct (RequestFormatter.format tls request') as [r| |] eqn:Hf; [|by apply Hstop..].
  pose proof (format_underway u0 _ _ Hu Hf) as Hr'.
  assert (Hone : ∃ rest, sent ++ [r] = sent ++ rest ∧ Forall (guarded u0) rest) by (exists [r]; split; [done|]; constructor; [apply Hr'|constructor]).
  destruct (exchange sent r) as [response'|]; [|by intros [= _ <-]]. destruct (irs response'); [|by intros [= _ <-]].
  intros Hl. apply IH in Hl as (rest & -> & Hrest); [|done|].
  - exists (r :: rest). rewrite <- (assoc_L (++)). split; [done|]. constructor; [apply Hr'|done].
  - apply Forall_app. split; [done|]. constructor; [apply Hr'|constructor].
Qed.

(** C13: Credentials stay with the origin.  Whatever the servers answer and however long
    the chain of redirects is: every request that is sent behind the first goes to the host
    and port of the first, or carries none of the fields [Authorization], [Cookie],
    [Cookie2], [Proxy-Authorization] and [WWW-Authenticate]. *)
Theorem redirects_keep_credentials b request fuel result first rest :
  Uri.from_bytes b = Ok (RequestPart.uri request) → send fuel request = Some (result, first :: rest) →
  Forall (guarded (RequestPart.uri first)) rest.
Proof.
  intros Hb. unfold send_request, send_unformatted_request. destruct (RequestFormatter.format tls request) as [r| |] eqn:Hf; [|done..].
  pose proof (parsed_uri_ok _ _ Hb) as Hok. destruct (request_format_ok tls _ _ Hok Hf) as [(h & Hfm & Hh) _].
  assert (Hr : underway (RequestPart.uri r) r) by (split; [apply Hfm|left; by apply (formatted_origin tls h (RequestPart.uri request))]).
  destruct (exchange [] r) as [response|]; [|by intros [= _ <- <-]].
  intros Hl. apply (loop_guarded (RequestPart.uri r)) in Hl as (l & Heq & Hl); [|done|constructor; [apply Hr|constructor]].
  simpl in Heq. by injection Heq as -> ->.
Qed.

(** ** The chain ends *)

Lemma loop_bounded max fuel response request previous sent :
  strategy = LimitTimes max → (Z.to_nat (max - len previous) < fuel)%nat →
  ∃ result sent', loop fuel response request previous sent = Some (result, sent') ∧
    len sent' ≤ len sent + Z.max 0 (max - 1 - len previous).
Proof.
  intros Hs. revert response request previous sent. induction fuel as [|fuel IH]; intros response request previous sent Hfuel; [lia|].
  cbn [redirect_loop].
  assert (Hstop : ∀ x : res send_error ResponsePart.t, ∃ result sent', Some (x, sent) = Some (result, sent') ∧
    len sent' ≤ len sent + Z.max 0 (max - 1 - len previous)) by (intros x; exists x, sent; split; [done|lia]).
  destruct (Redirect.redirect strategy request response previous) as [[[[]|e|] request'] previous'] eqn:Hd; [|by apply Hstop..].
  assert (Hp : len previous' = len previous + 1 ∧ len previous + 1 < max).
  { pose proof (redirect_followed _ _ _ _ _ _ Hd) as (-> & _). rewrite len_app. change (len [RequestPart.uri request]) with 1. split; [done|].
    unfold Redirect.redirect in Hd. destruct (rewrite_request _ request) as [r|] eqn:Hr; [|done]. destruct (location_of response); [|done].
    rewrite Hs in Hd. unfold Strategy_.trigger in Hd. destruct (Z.ltb_spec (len (previous ++ [RequestPart.uri r])) max) as [Hlt|]; [|done].
    rewrite len_app in Hlt. exact Hlt. }
  destruct Hp as [Hp Hmax]. destruct (negb _); [by apply Hstop|]. destruct (negb _); [by apply Hstop|].
  unfold send_unformatted_request. destruct (RequestFormatter.format tls request') as [r| |]; [|by apply Hstop..].
  assert (Hone : ∀ x : res send_error ResponsePart.t, ∃ result sent', Some (x, sent ++ [r]) = Some (result, sent') ∧
    len sent' ≤ len sent + Z.max 0 (max - 1 - len previous)).
  { intros x. exists x, (sent ++ [r]). split; [done|]. rewrite len_app. change (len [r]) with 1. lia. }
  destruct (exchange sent r) as [response'|]; [|by apply Hone]. destruct (irs response'); [|by apply Hone].
  destruct (IH response' r previous' (sent ++ [r])) as (result & sent' & Hl & Hlen); [lia|]. exists result, sent'. split; [done|].
  rewrite len_app in Hlen. change (len [r]) with 1 in Hlen. lia.
Qed.

(** C18: A request ends: with a limit of [max], whatever the servers answer, the loop of
    redirects returns.  The limit counts requests: at most [max] are sent, the first one
    included, and one when [max] is 0; so that fewer than [max] redirects are followed, where
    the documentation says up to [max].  ([redirect_bound_reached]: the bound is exact.) *)
Theorem redirects_bounded max fuel request :
  strategy = LimitTimes max → (Z.to_nat max < fuel)%nat →
  ∃ result sent, send fuel request = Some (result, sent) ∧ len sent ≤ Z.max 1 max ∧ (0 < max → len sent - 1 < max).
Proof.
  intros Hs Hfuel. unfold send_request, send_unformatted_request.
  destruct (RequestFormatter.format tls request) as [r|e|]; [|by eexists _, []; split; [done|rewrite len_nil; lia]..].
  destruct (exchange [] r) as [response|]; [|eexists _, [r]; split; [done|change (len ([r])) with 1; lia]].
  destruct (loop_bounded max fuel response r [] ([] ++ [r]) Hs) as (result & sent & Hl & Hlen); [rewrite len_nil; lia|].
  exists result, sent. split; [done|]. change (len ([] ++ [r])) with 1 in Hlen. change (len (@nil Uri.t)) with 0 in Hlen. lia.
Qed.
End Chain.

(** A server that sends everything on to another one, which answers. *)
Definition w_request : RequestPart.t :=
  RequestPart.mk (Uri.mk (Some Scheme.HTTP) (Some (Authority.mk (str "a.com") None)) (Some (str "/")) None) Method.Post Version.Http11
    (Headers.append_validated_h1 Headers.new (str "Authorization") (str "secret")).
Definition w_exchange (sent : list RequestPart.t) (r : RequestPart.t) : option ResponsePart.t :=
  Some match sent with
  | [] => ResponsePart.mk Version.Http11 (StatusCode.mk 302) (Headers.append_validated_h1 Headers.new (str "Location") (str "http://b.com/x"))
  | _ => ResponsePart.mk Version.Http11 (StatusCode.mk 200) Headers.new
  end.
Definition w_send (strategy : Strategy) := send_request false strategy w_exchange (λ _, true) (λ _, true) (λ _, true) (λ _, true).
Lemma redirects_keep_credentials_witness :
  match w_send default_strategy 12 w_request with
  | Some (_, first :: rest) => len rest = 1 ∧ Forall (guarded (RequestPart.uri first)) rest
  | _ => False
  end.
Proof.
  assert (Hl : match w_send default_strategy 12 w_request with Some (_, _ :: rest) => len rest = 1 | _ => False end)
    by (vm_compute; reflexivity).
  destruct (w_send default_strategy 12 w_request) as [[result [|first rest]]|] eqn:He; [exact Hl| |exact Hl]. split; [exact Hl|].
  apply (redirects_keep_credentials false default_strategy w_exchange (λ _, true) (λ _, true) (λ _, true) (λ _, true) (str "http://a.com/") w_request 12 result);
    [by vm_compute|exact He].
Defined.
Lemma redirects_bounded_witness :
  ∃ result sent, w_send (LimitTimes 1) 3 w_request = Some (result, sent) ∧ len sent ≤ 1 ∧ (0 < 1 → len sent - 1 < 1).
Proof.
  exact (redirects_bounded false (LimitTimes 1) w_exchange (λ _, true) (λ _, true) (λ _, true) (λ _, true) 1 3 w_request eq_refl ltac:(simpl; lia)).
Defined.

(** * What redirects do not do *)

(** With a limit of one, which the documentation calls the maximal number of redirects,
    none is followed. *)
Lemma limit_counts_requests :
  match w_send (LimitTimes 1) 3 w_request with Some (Err (RedirectError OverLimit), [_]) => True | _ => False end.
Proof. by vm_compute. Qed.
(** A server that always redirects gets exactly as many requests as the limit says. *)
Definition w_again (sent : list RequestPart.t) (r : RequestPart.t) : option ResponsePart.t :=
  Some (ResponsePart.mk Version.Http11 (StatusCode.mk 302) (Headers.append_validated_h1 Headers.new (str "Location") (str "http://b.com:80/x"))).
Definition w_response : ResponsePart.t := default (ResponsePart.mk Version.Http11 (StatusCode.mk 200) Headers.new) (w_again [] w_request).
(** The request on its way from [b.com] to itself. *)
Definition w_settled : RequestPart.t :=
  RequestPart.mk (Uri.mk (Some Scheme.HTTP) (Some (Authority.mk (str "b.com") (Some (str "80")))) (Some (str "/x")) None) Method.Get Version.Http11
    (Headers.mk {[ str "accept" := HeaderValue.mk [str "*/*"] false; str "host" := HeaderValue.mk [str "b.com"] false ]}).
#[local] Abbreviation again max := (redirect_loop false (LimitTimes max) w_again (λ _, true) (λ _, true) (λ _, true) (λ _, true)).
Lemma settled_again max fuel previous sent :
  len previous + 1 < max → again max (S fuel) w_response w_settled previous sent =
    again max fuel w_response w_settled (previous ++ [RequestPart.uri w_settled]) (sent ++ [w_settled]).
Proof.
  intros Hlt. cbn [redirect_loop]. unfold Redirect.redirect.
  assert (Hrw : rewrite_request (StatusCode.code (ResponsePart.status w_response)) w_settled = Some w_settled) by (by vm_compute).
  assert (Hloc : location_of w_response = Some (RequestPart.uri w_settled)) by (by vm_compute).
  assert (Hfm : RequestFormatter.format false w_settled = Ok w_settled) by (by vm_compute).
  rewrite Hrw, Hloc. unfold Strategy_.trigger. change (complete_location (RequestPart.uri w_settled) (RequestPart.uri w_settled)) with (RequestPart.uri w_settled).
  rewrite last_snoc, bool_decide_true by done. rewrite len_app. change (len [RequestPart.uri w_settled]) with 1. rewrite (proj2 (Z.ltb_lt _ _) Hlt).
  cbn [negb]. change (set_uri w_settled (RequestPart.uri w_settled)) with w_settled. unfold send_unformatted_request. rewrite Hfm. done.
Qed.
Lemma settled_ends max fuel previous sent :
  max ≤ len previous + 1 → again max (S fuel) w_response w_settled previous sent = Some (Err (RedirectError OverLimit), sent).
Proof.
  intros Hge. cbn [redirect_loop]. unfold Redirect.redirect.
  assert (Hrw : rewrite_request (StatusCode.code (ResponsePart.status w_response)) w_settled = Some w_settled) by (by vm_compute).
  assert (Hloc : location_of w_response = Some (RequestPart.uri w_settled)) by (by vm_compute).
  rewrite Hrw, Hloc. unfold Strategy_.trigger. rewrite len_app. change (len [RequestPart.uri w_settled]) with 1.
  rewrite (proj2 (Z.ltb_ge _ _)) by lia. done.
Qed.
Lemma settled_bound n previous sent :
  again (len previous + 1 + Z.of_nat n) (S n) w_response w_settled previous sent = Some (Err (RedirectError OverLimit), sent ++ replicate n w_settled).
Proof.
  revert previous sent. induction n as [|n IH]; intros previous sent.
  - rewrite settled_ends by lia. by rewrite app_nil_r.
  - rewrite settled_again by lia. specialize (IH (previous ++ [RequestPart.uri w_settled]) (sent ++ [w_settled])).
    rewrite len_app in IH. change (len [RequestPart.uri w_settled]) with 1 in IH.
    replace (len previous + 1 + Z.of_nat (S n)) with (len previous + 1 + 1 + Z.of_nat n) by lia. rewrite IH. by rewrite <- (assoc_L (++)).
Qed.
Lemma redirect_bound_reached n :
  ∃ sent, send_request false (LimitTimes (1 + Z.of_nat n)) w_again (λ _, true) (λ _, true) (λ _, true) (λ _, true) (S n) w_settled =
    Some (Err (RedirectError OverLimit), sent) ∧ len sent = 1 + Z.of_nat n.
Proof.
  exists (replicate (S n) w_settled). unfold send_request, send_unformatted_request.
  assert (RequestFormatter.format false w_settled = Ok w_settled) as -> by (by vm_compute).
  pose proof (settled_bound n [] [w_settled]) as Hb. change (len []) with 0 in Hb. split; [exact Hb|]. unfold len. rewrite length_replicate. lia.
Qed.
(** With redirects turned off, a redirect without a location is an error, not a response. *)
Lemma off_still_checks_location :
  ∃ r p, Redirect.redirect NoRedirect w_request (ResponsePart.mk Version.Http11 (StatusCode.mk 302) Headers.new) [] = (Err IllegalLocation, r, p).
Proof. eexists _, _. reflexivity. Qed.
(** A relative location without a leading slash loses its path: it is taken for an
    authority, which is then replaced. *)
Lemma relative_location_lost :
  complete_location (RequestPart.uri w_request) (Uri.mk None (Some (Authority.mk (str "next.html") None)) None None) =
    Uri.mk (Some Scheme.HTTP) (Some (Authority.mk (str "a.com") None)) None None ∧
  Uri.from_bytes (str "next.html") = Ok (Uri.mk None (Some (Authority.mk (str "next.html") None)) None None).
Proof. split; [done|by vm_compute]. Qed.
