(* ===== verification/HttpBodySafety.v ===== *)
(** Response bodies are delivered as they were sent: a body with a length is exactly the
    bytes behind the head, of that length, or an error; a connection is given back for
    the next request only behind a complete body or an error of an interceptor; and a transport that delivers the bytes
    gets them through. *)
From S2P Require Import Prelude Buffers HttpBody.
Import StreamData BodyDrainPolicy.

(** The bytes a script has in it. *)
Definition ev_data (e : io_event) : bytes := match e with IoReady d _ => d | _ => [] end.
Definition script_data (l : list io_event) : bytes := l ≫= ev_data.
Definition pre_data (p : option bytes) : bytes := default [] p.

Lemma poll_read_ok n s :
  0 < n →
  match poll_read n s with
  | (ReadFilled [], s') =>
      ∃ c l, script s = IoReady [] c :: l ∧ s' = set_script s l c
  | (ReadFilled d, s') => len d ≤ n ∧ script_data (script s) = d ++ script_data (script s')
  | (_, s') => script_data (script s) = script_data (script s')
  end ∧ http_version (poll_read n s).2 = http_version s.
Proof.
  intros Hn. unfold poll_read. destruct (script s) as [|[|d c|] l] eqn:Hs; try done.
  - by rewrite Hs.
  - destruct (Z.leb_spec (len d) n) as [Hle|Hgt].
    + destruct d as [|b d]; [by split; [exists c, l|]|]. by split; [split|].
    + destruct (upto n d) as [|b t] eqn:Hu.
      * apply (f_equal len) in Hu. rewrite len_upto in Hu by lia. change (len []) with 0 in Hu. lia.
      * split; [|done]. rewrite <- Hu. split; [rewrite len_upto by lia; lia|]. simpl.
        by rewrite (assoc_L (++)), upto_from.
Qed.

(** A policy that reads something in every poll. *)
Definition policy_ok (p : BodyDrainPolicy.t) : Prop := (0 < max_ready_reads p)%nat ∧ 0 < max_bytes_per_poll p.
Lemma default_ok : policy_ok default_body.
Proof. by split; [simpl; unfold BODY_READY_DRAIN_READS; lia|]. Qed.
Lemma for_body_ok role b : policy_ok (for_body role b).
Proof.
  unfold for_body. destruct b as [|n| |]; try exact default_ok.
  destruct (bool_decide _); [|exact default_ok]. destruct (_ && _); [exact default_ok|].
  destruct (_ <=? _); unfold policy_ok; simpl; unfold TLS_RECORD_PLAINTEXT; lia.
Qed.
Lemma allowed_pos p r : policy_ok p → 0 < r → 0 < allowed_read_len p r 0 ≤ r.
Proof. intros [_ Hp] Hr. unfold allowed_read_len. destruct (_ =? _); lia. Qed.
Lemma allowed_le p r d : policy_ok p → 0 < r → 0 ≤ allowed_read_len p r d ≤ r.
Proof. intros [_ Hp] Hr. unfold allowed_read_len. destruct (_ =? _); lia. Qed.

(** * A body with a length *)

Module T := TextData.

Section Text.
Context (i : interceptor).
(** After the bytes [D] of a body of [n] bytes in the stream [src]. *)
Definition text_inv (n : Z) (src D : bytes) (u : T.t) : Prop :=
  T.interceptors u = i ∧ policy_ok (T.drain_policy u) ∧ 0 ≤ T.remaining u ∧ T.remaining u = n - len D ∧
  match T.io u with
  | Held s => src = D ++ pre_data (T.pre u) ++ script_data (script s)
  | Released => T.remaining u = 0 ∧ ∃ rest, src = D ++ rest
  | ShutDown => False
  end.
(** An error keeps the connection from the next request, unless the body was complete or it
    is the interceptor's. *)
Definition text_failed (n : Z) (D : bytes) (e : body_error) (u : T.t) : Prop :=
  T.io u = ShutDown ∨ (T.io u = Released ∧ (len D = n ∨ e = InterceptorError ∧ i ≠ None)).
Definition text_answer (n : Z) (src D : bytes) (x : answer * T.t) : Prop :=
  match x with
  | (Pending, u) => text_inv n src D u
  | (Ready (Ok got), u) => text_inv n src (D ++ got) u ∧ (got = [] → len D = n)
  | (Ready (Err e), u) => text_failed n D e u
  | (Ready Panic, _) => False
  end.

(** The body and its buffer in the loop: [got] is in the buffer already. *)
Definition text_mid (n : Z) (src D got : bytes) (s : StreamData.t) (u : T.t) : Prop :=
  T.interceptors u = i ∧ policy_ok (T.drain_policy u) ∧ 0 ≤ T.remaining u ∧ T.remaining u = n - len (D ++ got) ∧
  src = (D ++ got) ++ pre_data (T.pre u) ++ script_data (script s).

Lemma mid_stop n src D got s u :
  text_mid n src D got s u → (got = [] → len D = n) → text_answer n src D (Ready (Ok got), T.set_io u (Held s)).
Proof. intros (Hi & Hp & H0 & Hr & Hsrc) Hg. split; [|done]. by do 4 (split; [done|]). Qed.

(** The bytes that come in are counted. *)
Lemma text_counted n src D got filled s s' u :
  text_mid n src D got s u → pre_data (T.pre u) = [] → script_data (script s) = filled ++ script_data (script s') →
  match T.consume (len filled) u with
  | (Ok b, u') => text_mid n src D (got ++ filled) s' u' ∧ (b = true ↔ T.remaining u' = 0) ∧ pre_data (T.pre u') = []
  | (Err _, _) => True
  | (Panic, _) => False
  end.
Proof.
  intros (Hi & Hp & H0 & Hr & Hsrc) Hpre Hf. unfold T.consume. destruct (Z.ltb_spec (T.remaining u) (len filled)); [done|].
  split; [|split; [apply Z.eqb_eq|exact Hpre]]. split; [done|]. split; [done|]. split; [simpl; lia|]. split.
  - simpl. rewrite (assoc_L (++)), len_app. lia.
  - cbn [T.set_remaining T.pre]. rewrite Hsrc, Hpre, Hf. by rewrite <- !(assoc_L (++)).
Qed.

Lemma text_loop turns cap n src D got drained s u :
  text_mid n src D got s u → pre_data (T.pre u) = [] → len got < cap → (got = [] → drained = 0 ∧ (0 < turns)%nat) →
  text_answer n src D (T.read_loop turns cap got drained s u).
Proof.
  revert got drained s u. induction turns as [|turns IH]; intros got drained s u Hm Hpre Hc Hg.
  { apply mid_stop; [done|]. intros H. destruct (Hg H). lia. }
  cbn [T.read_loop]. destruct (Z.eqb_spec (len got) cap); [lia|].
  pose proof Hm as (Hi & Hp & H0 & Hr & Hsrc). pose proof (allowed_le _ (cap - len got) drained Hp ltac:(lia)) as Hal.
  set (k := allowed_read_len _ _ _) in *. destruct (Z.eqb_spec k 0) as [Hk|Hk].
  { apply mid_stop; [done|]. intros H. destruct (Hg H) as [-> _]. pose proof (allowed_pos _ (cap - len got) Hp ltac:(lia)). lia. }
  destruct (poll_read_ok k s ltac:(lia)) as [Hread _]. destruct (poll_read k s) as [r s']. destruct r as [|filled|].
  - destruct got as [|g got].
    + split; [done|]. do 2 (split; [done|]). split; [by rewrite app_nil_r in Hr|]. simpl. by rewrite Hsrc, Hread, app_nil_r.
    + apply (mid_stop n src D (g :: got) s' u); [|done]. do 4 (split; [done|]). by rewrite <- Hread.
  - destruct filled as [|f filled].
    + destruct (is_stream_closable s' && (T.remaining u =? 0)) eqn:Hcl; [|by left]. apply andb_true_iff in Hcl as [_ Hz]. apply Z.eqb_eq in Hz.
      split; [|intros ->; rewrite app_nil_r in Hr; lia]. do 4 (split; [done|]). simpl. split; [done|]. by eexists.
    + destruct Hread as [Hlen Hread]. destruct (intercepted (T.interceptors u) (f :: filled)) eqn:Hic; [|right; split; [done|right]; split; [done|]; rewrite <- Hi; by destruct (T.interceptors u)].
      pose proof (text_counted n src D got (f :: filled) s s' u Hm Hpre Hread) as Hcount.
      destruct (T.consume (len (f :: filled)) u) as [[[]|e|] u']; [| |by left|done].
      * destruct Hcount as (Hm' & [Hz _] & _). specialize (Hz eq_refl). destruct (is_stream_closable s').
        -- destruct Hm' as (Hi' & Hp' & H0' & Hr' & Hsrc'). split; [|by destruct got]. do 4 (split; [done|]).
           simpl. split; [done|]. by eexists.
        -- apply mid_stop; [done|by destruct got].
      * destruct Hcount as (Hm' & Hz & Hpre'). assert (Hlg : len (got ++ f :: filled) ≤ cap) by (rewrite len_app; lia).
        destruct (decide (len (got ++ f :: filled) = cap)) as [He|He].
        -- destruct turns as [|turns]; [apply mid_stop; [done|by destruct got]|]. cbn [T.read_loop]. rewrite He, Z.eqb_refl.
           apply mid_stop; [done|by destruct got].
        -- apply IH; [done|done|lia|by destruct got].
  - by left.
Qed.

Lemma text_poll_io cap n src D got u :
  0 < cap → len got ≤ cap → (len got < cap → pre_data (T.pre u) = []) →
  (match T.io u with
   | Held s => text_mid n src D got s u
   | Released => got = [] ∧ text_inv n src D u
   | ShutDown => False
   end) → text_answer n src D (T.poll_io cap got u).
Proof.
  intros Hc Hl Hpre Hu. unfold T.poll_io. destruct (T.io u) as [s| |] eqn:Hio; [| |done].
  - destruct (Z.ltb_spec (len got) cap) as [Hlt|Hge].
    + apply text_loop; [done|by apply Hpre|done|]. intros _. split; [done|]. apply Hu.
    + assert (Hset : u = T.set_io u (Held s)) by (destruct u; simpl in *; by subst). rewrite Hset. apply mid_stop; [done|].
      intros ->. unfold len in *. simpl in *. lia.
  - destruct Hu as [-> Hu]. assert (Ha : text_answer n src D (Ready (Ok []), u)).
    { unfold text_answer. rewrite app_nil_r. split; [done|]. intros _. destruct Hu as (_ & _ & _ & Hr & Hx). rewrite Hio in Hx. lia. }
    by destruct (len [] <? cap).
Qed.

Lemma text_data_ok cap n src D u : 0 < cap → text_inv n src D u → text_answer n src D (T.data cap u).
Proof.
  intros Hc Hinv. pose proof Hinv as (Hi & Hp & H0 & Hr & Hio). unfold T.data. destruct (Z.eqb_spec cap 0); [lia|].
  assert (Hnil : ∀ u', u' = u ∨ u' = T.set_pre u None → pre_data (T.pre u) = [] → pre_data (T.pre u') = [] →
    text_answer n src D (T.poll_io cap [] u')).
  { intros u' Hu' Hpu Hpu'. apply text_poll_io; [done|unfold len; simpl; lia|done|].
    assert (T.io u' = T.io u) as -> by (by destruct Hu' as [->| ->]). destruct (T.io u) as [s| |] eqn:He; [| |done].
    - unfold text_mid. rewrite app_nil_r, Hpu'. rewrite Hpu in Hio. by destruct Hu' as [->| ->].
    - split; [done|]. destruct Hu' as [->| ->]; [done|]. unfold text_inv. simpl. by rewrite He. }
  destruct (T.pre u) as [p|] eqn:Hpre; [|apply Hnil; [by left|done|by rewrite Hpre]].
  cbn [read_pre]. destruct (upto cap p) as [|b t] eqn:Hup.
  { apply Hnil; [by right| |done]. destruct p as [|x p]; [done|]. apply (f_equal len) in Hup.
    rewrite len_upto, len_cons in Hup by lia. pose proof (len_nonneg p). change (len []) with 0 in Hup. lia. }
  assert (Hpos : 0 < len (upto cap p)) by (rewrite Hup, len_cons; pose proof (len_nonneg t); lia).
  rewrite <- Hup. pose proof (upto_from cap p) as Hsplit. assert (Hgl : len (upto cap p) ≤ cap) by (rewrite len_upto by lia; lia).
  assert (Hfull : len (upto cap p) < cap → from cap p = []) by (intros Hlt; apply from_all; rewrite len_upto in Hlt by lia; lia).
  set (got := upto cap p) in *. unfold T.read_remaining, T.consume. cbn [T.set_pre T.remaining].
  destruct (T.io u) as [s| |] eqn:He; [| |done].
  - assert (Hm : text_mid n src D got s (T.set_remaining (T.set_pre u (Some (from cap p))) (T.remaining u - len got)) ∨ T.remaining u < len got).
    { destruct (Z.ltb_spec (T.remaining u) (len got)); [by right|left]. split; [done|]. split; [done|]. split; [simpl; lia|].
      split; [simpl; rewrite len_app; lia|]. rewrite Hio. simpl. rewrite <- Hsplit at 1. by rewrite <- !(assoc_L (++)). }
    destruct (Z.ltb_spec (T.remaining u) (len got)) as [Hbad|Hok]; cbn [T.io T.set_remaining T.set_pre]; rewrite He; [by left|].
    destruct Hm as [Hm|]; [|lia]. destruct (Z.eqb_spec (T.remaining u - len got) 0) as [Hz|Hz].
    + destruct Hm as (_ & _ & _ & Hr' & Hsrc). simpl in Hr', Hsrc.
      destruct (is_stream_closable s); (split; [|intros Hg; rewrite Hg in Hpos; unfold len in Hpos; simpl in Hpos; lia]);
        (split; [done|]); (split; [done|]); (split; [simpl; lia|]); (split; [done|]); simpl; [split; [lia|by eexists]|by rewrite He].
    + apply text_poll_io; [done|done|exact Hfull|]. cbn [T.io T.set_remaining T.set_pre]. rewrite He. exact Hm.
  - destruct Hio as [Hz _]. destruct (Z.ltb_spec (T.remaining u) (len got)); [|lia]. cbn [T.io T.set_remaining T.set_pre]. rewrite He.
    right. split; [by rewrite <- He|left; lia].
Qed.
End Text.

(** ** The version of the connection stays *)

Definition conn_version (v : HttpVersion) (c : conn) : Prop := match c with Held s => http_version s = v | _ => True end.
Lemma text_loop_version v turns cap got drained s u :
  http_version s = v → conn_version v (T.io (T.read_loop turns cap got drained s u).2).
Proof.
  revert got drained s u. induction turns as [|turns IH]; intros got drained s u Hv; [done|].
  cbn [T.read_loop]. destruct (len got =? cap); [done|]. set (k := allowed_read_len _ _ _). destruct (Z.eqb_spec k 0); [done|].
  assert (Hread : http_version (poll_read k s).2 = v).
  { unfold poll_read. destruct (script s) as [|[] l]; [done..| |done]. by destruct (_ <=? _). }
  destruct (poll_read k s) as [r s']. simpl in Hread. destruct r as [|filled|]; [by destruct got| |done].
  destruct filled as [|f filled]; [by destruct (_ && _)|]. destruct (intercepted _ _); [|done].
  destruct (T.consume _ u) as [[[]|e|] u']; [by destruct (is_stream_closable s')|by apply IH|done..].
Qed.
Lemma text_poll_version v cap got u : conn_version v (T.io u) → conn_version v (T.io (T.poll_io cap got u).2).
Proof.
  intros Hv. unfold T.poll_io. destruct (_ <? _); [|done]. destruct (T.io u) eqn:He; [by apply text_loop_version|simpl; by rewrite He..].
Qed.
Lemma text_version v cap u : conn_version v (T.io u) → conn_version v (T.io (T.data cap u).2).
Proof.
  intros Hv. unfold T.data. destruct (_ =? _); [done|]. destruct (T.pre u) as [p|]; [|by apply text_poll_version].
  cbn [read_pre]. destruct (upto cap p) as [|b t]; [by apply text_poll_version|].
  unfold T.read_remaining, T.consume. destruct (_ <? _); simpl.
  { destruct (T.io u) eqn:He; simpl; [done|by rewrite He..]. }
  destruct (_ =? _); [|by apply text_poll_version].
  destruct (T.io u) as [s| |] eqn:He; simpl; [|by rewrite He..]. destruct (is_stream_closable s); [done|]. simpl. by rewrite He.
Qed.

(** ** Polls in a row *)

(** Until the first error or the end, which is an answer of no bytes to a buffer with room. *)
Inductive outcome := Going | Ended | Failed (e : body_error) | Panicked.
Fixpoint run (polls : list (Z * bool)) (D : bytes) (k : HttpBody.Kind) : bytes * outcome * HttpBody.Kind :=
  match polls with
  | [] => (D, Going, k)
  | (cap, expired) :: polls =>
      match HttpBody.poll_data cap expired k with
      | (Pending, k) => run polls D k
      | (Ready (Ok got), k) =>
          if (0 <? cap) && bool_decide (got = []) then (D, Ended, k) else run polls (D ++ got) k
      | (Ready (Err e), k) => (D, Failed e, k)
      | (Ready Panic, k) => (D, Panicked, k)
      end
  end.

(** What holds of a body of [n] bytes from the stream [src], whenever the caller stops. *)
Definition exact_length (i : interceptor) (n : Z) (src : bytes) (v : HttpVersion) (x : bytes * outcome * HttpBody.Kind) : Prop :=
  let '(D, o, k) := x in
  D `prefix_of` src ∧ len D ≤ n ∧ o ≠ Panicked ∧ (o = Ended → len D = n) ∧
  (v = VHttp1 → HttpBody.drop k = Released → len D = n ∨ o = Failed InterceptorError ∧ i ≠ None).

Lemma inv_exact i n src D u v o :
  text_inv i n src D u → conn_version v (T.io u) → o ≠ Panicked → (o = Ended → len D = n) →
  exact_length i n src v (D, o, HttpBody.KText u).
Proof.
  intros (_ & _ & H0 & Hr & Hio) Hv Ho He. split.
  { destruct (T.io u) as [s| |]; [rewrite Hio; by apply prefix_app_r| |done]. destruct Hio as [_ [rest ->]]. by apply prefix_app_r. }
  split; [lia|]. split; [done|]. split; [done|]. intros -> Hd. unfold HttpBody.drop in Hd. cbn [HttpBody.conn_of] in Hd.
  destruct (T.io u) as [s| |]; [|left; lia|done]. simpl in Hd, Hv. by rewrite bool_decide_true in Hd.
Qed.
Lemma run_exact i n src v polls D u :
  Forall (λ p, 0 ≤ p.1) polls → text_inv i n src D u → conn_version v (T.io u) →
  exact_length i n src v (run polls D (HttpBody.KText u)).
Proof.
  revert D u. induction polls as [|[cap expired] polls IH]; intros D u Hp Hinv Hv; [by apply inv_exact|].
  inversion_clear Hp as [|?? Hcap Hp']. cbn [run]. unfold HttpBody.poll_data. simpl in Hcap.
  destruct (Z.eqb_spec cap 0) as [->|Hz].
  { simpl. rewrite app_nil_r. by apply IH. }
  destruct expired; [by apply inv_exact|]. pose proof (text_data_ok i cap n src D u ltac:(lia) Hinv) as Ha.
  pose proof (text_version v cap u Hv) as Hv'. destruct (T.data cap u) as [[|[got|e|]] u']; simpl in Hv'; [by apply IH| | |done].
  - destruct Ha as [Hinv' Hnil]. rewrite (proj2 (Z.ltb_lt 0 cap)) by lia. simpl. case_bool_decide as Hg.
    + subst got. rewrite app_nil_r in Hinv'. by apply inv_exact; auto.
    + by apply IH.
  - destruct Hinv as (_ & _ & H0 & Hr & Hio). split.
    { destruct (T.io u) as [s| |]; [rewrite Hio; by apply prefix_app_r| |done]. destruct Hio as [_ [rest ->]]. by apply prefix_app_r. }
    split; [lia|]. do 2 (split; [done|]). intros _ Hd. unfold HttpBody.drop in Hd. cbn [HttpBody.conn_of] in Hd.
    destruct Ha as [Ha|[_ [Ha|[-> Ha]]]]; [by rewrite Ha in Hd|by left|by right].
Qed.

(** C14: A body with [Content-Length: n] is delivered exactly.  However the transport cuts
    and delays its bytes, whatever the sizes of the caller's buffers, whatever an interceptor
    says and wherever the caller stops (at a timeout, at an error, or in the middle): what
    was delivered is a prefix of the bytes behind the head, at most [n] of them; an end is
    reported only behind exactly [n] bytes; nothing panics; and an HTTP/1 connection is
    given back for the next request only when all [n] bytes were delivered, or, with bytes
    of this response unread, when the reading ended with an error of an interceptor that is
    set. *)
Theorem content_length_exact i n pre io polls :
  0 ≤ n → Forall (λ p, 0 ≤ p.1) polls →
  match HttpBody.new i (BLength n) io pre with
  | (Ok k, _) => exact_length i n (pre ++ script_data (script io)) (http_version io) (run polls [] k)
  | _ => False
  end.
Proof.
  intros Hn Hp. apply run_exact; [done| |done]. unfold T.new, text_inv. cbn -[for_body].
  split; [done|]. split; [apply for_body_ok|]. split; [done|]. split; [change (len []) with 0; lia|]. by destruct pre.
Qed.

(** ** Progress *)

(** A transport that sends: pieces of the body, or nothing yet. *)
Definition sends (e : io_event) : Prop := match e with IoPending => True | IoReady d c => d ≠ [] ∧ c = true | IoError => False end.
Definition sending (s : StreamData.t) : Prop := is_stream_closable s = true ∧ Forall sends (script s).
Definition events (c : conn) : nat := match c with Held s => length (script s) | _ => 0 end.

Lemma poll_read_live n s :
  0 < n → sending s → script_data (script s) ≠ [] →
  match poll_read n s with
  | (ReadPending, s') => sending s' ∧ (length (script s') < length (script s))%nat
  | (ReadFilled d, s') => d ≠ [] ∧ sending s' ∧ (length (script s') ≤ length (script s))%nat
  | (ReadError, _) => False
  end.
Proof.
  intros Hn [Hc Hs] Hne. unfold poll_read. destruct (script s) as [|[|d c|] l] eqn:Hl; [done|..];
    inversion_clear Hs as [|?? He Hs']; [split; [done|simpl; lia]| |done]. destruct He as [Hd ->].
  destruct (Z.leb_spec (len d) n) as [Hle|Hgt]; [split; [done|split; [done|simpl; lia]]|]. split; [|split; [split; [done|]|simpl; lia]].
  - intros Hu. apply (f_equal len) in Hu. rewrite len_upto in Hu by lia. change (len []) with 0 in Hu. lia.
  - constructor; [|done]. split; [|done]. intros Hf. apply (f_equal len) in Hf. rewrite len_from in Hf by lia. change (len []) with 0 in Hf. lia.
Qed.

(** What is still to come is in the connection, which is held for as long. *)
Definition text_live (u : T.t) : Prop :=
  match T.io u with Held s => sending s ∧ 0 < T.remaining u | _ => pre_data (T.pre u) = [] end.
Definition live_answer (e : nat) (x : answer * T.t) : Prop :=
  match x with
  | (Pending, u) => text_live u ∧ (events (T.io u) < e)%nat
  | (Ready (Ok _), u) => text_live u ∧ (events (T.io u) ≤ e)%nat
  | _ => False
  end.

Lemma text_loop_live turns cap n src D got drained s u :
  text_mid None n src D got s u → pre_data (T.pre u) = [] → len got < cap → sending s → 0 < T.remaining u → len src = n →
  live_answer (length (script s)) (T.read_loop turns cap got drained s u).
Proof.
  revert got drained s u. induction turns as [|turns IH]; intros got drained s u Hm Hpre Hc Hs Hrem Hlen; [done|].
  cbn [T.read_loop]. destruct (Z.eqb_spec (len got) cap); [lia|].
  pose proof Hm as (Hi & Hp & _ & Hr & Hsrc). pose proof (allowed_le _ (cap - len got) drained Hp ltac:(lia)) as Hal.
  set (k := allowed_read_len _ _ _) in *. destruct (Z.eqb_spec k 0) as [Hk|Hk]; [done|].
  assert (Hsum : len (script_data (script s)) = T.remaining u).
  { apply (f_equal len) in Hsrc. rewrite Hpre, app_nil_l, len_app in Hsrc. lia. }
  pose proof (poll_read_live k s ltac:(lia) Hs) as Hlive. destruct (poll_read_ok k s ltac:(lia)) as [Hread _].
  assert (Hne : script_data (script s) ≠ []) by (intros He; rewrite He in Hsum; change (len []) with 0 in Hsum; lia).
  specialize (Hlive Hne). destruct (poll_read k s) as [[|filled|] s']; [| |done].
  - destruct Hlive as [Hs' He]. destruct got; (split; [done|]); simpl; lia.
  - destruct Hlive as (Hf & Hs' & He). destruct filled as [|f filled]; [done|]. destruct Hread as [Hfl Hread].
    unfold intercepted. rewrite Hi. pose proof (text_counted None n src D got (f :: filled) s s' u Hm Hpre Hread) as Hcount.
    assert (Hle : len (f :: filled) ≤ T.remaining u) by (rewrite <- Hsum, Hread, len_app; pose proof (len_nonneg (script_data (script s'))); lia).
    unfold T.consume in *. destruct (Z.ltb_spec (T.remaining u) (len (f :: filled))); [lia|].
    destruct Hcount as (Hm' & Hz & Hpre'). destruct (Z.eqb_spec (T.remaining u - len (f :: filled)) 0) as [Hd|Hd].
    + destruct Hs' as [-> _]. split; [done|]. simpl. lia.
    + assert (Hlg : len (got ++ f :: filled) ≤ cap) by (rewrite len_app; lia). set (u' := T.set_remaining _ _) in *.
      assert (Hrem' : 0 < T.remaining u') by (simpl; lia).
      destruct (decide (len (got ++ f :: filled) = cap)) as [He'|He'].
      * destruct turns as [|turns]; [by split; [|simpl; lia]|]. cbn [T.read_loop]. rewrite He', Z.eqb_refl. by split; [|simpl; lia].
      * specialize (IH (got ++ f :: filled) (drained + len (f :: filled)) s' u' Hm' Hpre' ltac:(lia) Hs' Hrem' Hlen).
        destruct (T.read_loop _ _ _ _ _ _) as [[|[g|e|]] u'']; [| |done..]; (split; [apply IH|]); destruct IH; lia.
Qed.
Lemma text_poll_live cap n src D got u :
  (len got < cap → pre_data (T.pre u) = []) → text_live u → len src = n →
  (∀ s, T.io u = Held s → text_mid None n src D got s u) →
  live_answer (events (T.io u)) (T.poll_io cap got u).
Proof.
  intros Hpre Hlive Hlen Hm. unfold T.poll_io. destruct (Z.ltb_spec (len got) cap); [|by split].
  destruct (T.io u) as [s| |] eqn:He; [|by split; [|rewrite He]..]. unfold text_live in Hlive. rewrite He in Hlive.
  apply (text_loop_live _ _ n src D); [by apply Hm|by apply Hpre|done|apply Hlive..|done].
Qed.
Lemma text_data_live cap n src D u :
  0 < cap → text_inv None n src D u → text_live u → len src = n → live_answer (events (T.io u)) (T.data cap u).
Proof.
  intros Hc Hinv Hlive Hlen. unfold T.data. destruct (Z.eqb_spec cap 0); [lia|]. pose proof Hinv as (Hi & Hp & H0 & Hr & Hio).
  assert (Hnil : pre_data (T.pre u) = [] → ∀ u', u' = u ∨ u' = T.set_pre u None → live_answer (events (T.io u)) (T.poll_io cap [] u')).
  { intros Hpu u' Hu'. assert (T.io u = T.io u') as -> by (by destruct Hu' as [->| ->]).
    assert (Hpu' : pre_data (T.pre u') = []) by (by destruct Hu' as [->| ->]).
    apply (text_poll_live cap n src D); [done| |done|].
    - unfold text_live in *. destruct Hu' as [->| ->]; [done|]. simpl. by destruct (T.io u).
    - intros s Hs. assert (HioE : T.io u = Held s) by (by destruct Hu' as [->| ->]). rewrite HioE in Hio.
      unfold text_mid. rewrite app_nil_r, Hpu'. rewrite Hpu in Hio. by destruct Hu' as [->| ->]. }
  destruct (T.pre u) as [p|] eqn:Hpre; [|by apply Hnil; [|left]]. cbn [read_pre].
  destruct p as [|x p]; [by unfold upto; rewrite take_nil; apply Hnil; [|right]|].
  unfold text_live in Hlive. rewrite Hpre in Hlive. destruct (T.io u) as [s| |] eqn:He; [|done..]. destruct Hlive as [Hs Hrem].
  pose proof (upto_from cap (x :: p)) as Hsplit. set (q := x :: p) in *. set (got := upto cap q) in *.
  assert (Hsum : len got + len (from cap q) + len (script_data (script s)) = T.remaining u).
  { apply (f_equal len) in Hio. change (pre_data (Some q)) with q in Hio. rewrite <- Hsplit, !len_app in Hio. lia. }
  pose proof (len_nonneg (from cap q)). pose proof (len_nonneg (script_data (script s))).
  assert (Hgc : len got < cap → from cap q = []) by (intros Hlt; apply from_all; unfold got in Hlt; rewrite len_upto in Hlt by lia; lia).
  assert (Hgp : 0 < len got) by (unfold got, q; rewrite len_upto, len_cons by lia; pose proof (len_nonneg p); lia).
  clearbody got q. destruct got as [|g got']; [done|].
  unfold T.read_remaining, T.consume. cbn [T.set_pre T.remaining]. destruct (Z.ltb_spec (T.remaining u) (len (g :: got'))); [lia|].
  destruct (Z.eqb_spec (T.remaining u - len (g :: got')) 0) as [Hz|Hz]; cbn [T.io T.set_remaining T.set_pre].
  - rewrite He. destruct Hs as [-> _]. split; [|simpl; lia]. apply len_0_nil. change (len (from cap q) = 0). lia.
  - assert (Hev : events (Held s) = events (T.io (T.set_remaining (T.set_pre u (Some (from cap q))) (T.remaining u - len (g :: got')))))
      by (simpl; by rewrite He). rewrite Hev. apply (text_poll_live cap n src D); [exact Hgc| |done|].
    + unfold text_live. cbn [T.io T.set_remaining T.set_pre]. rewrite He. split; [done|]. simpl. lia.
    + intros s' Hs'. cbn [T.io T.set_remaining T.set_pre] in Hs'. rewrite He in Hs'. injection Hs' as <-.
      split; [done|]. split; [done|]. split; [simpl; lia|]. split; [simpl; rewrite len_app; lia|].
      rewrite Hio. simpl. rewrite <- Hsplit at 1. simpl. by rewrite <- !(assoc_L (++)).
Qed.

Lemma run_live n src polls D u :
  Forall (λ p, 0 < p.1 ∧ p.2 = false) polls → text_inv None n src D u → text_live u → len src = n →
  (Z.to_nat (n - len D) + events (T.io u) < length polls)%nat →
  ∃ u', run polls D (HttpBody.KText u) = (src, Ended, HttpBody.KText u') ∧ T.io u' = Released.
Proof.
  revert D u. induction polls as [|[cap expired] polls IH]; intros D u Hp Hinv Hlive Hlen Hm; [simpl in Hm; lia|].
  inversion_clear Hp as [|?? [Hcap Hexp] Hp']. simpl in Hcap, Hexp. subst expired. cbn [run]. unfold HttpBody.poll_data.
  destruct (Z.eqb_spec cap 0); [lia|]. rewrite (proj2 (Z.ltb_lt 0 cap)) by lia.
  pose proof (text_data_ok None cap n src D u Hcap Hinv) as Ha. pose proof (text_data_live cap n src D u Hcap Hinv Hlive Hlen) as Hl.
  simpl in Hm. destruct (T.data cap u) as [[|[got|e|]] u']; [| |done..].
  - destruct Hl as [Hl Hev]. apply IH; [done..|]. lia.
  - destruct Ha as [Hinv' Hnil], Hl as [Hl Hev]. simpl. case_bool_decide as Hg.
    + subst got. exists u'. specialize (Hnil eq_refl). rewrite app_nil_r in Hinv'. split.
      2: { destruct Hinv' as (_ & _ & _ & Hr & Hx). unfold text_live in Hl. destruct (T.io u') as [s| |]; [|done..]. lia. }
      f_equal. f_equal.
      assert (Hpre : D `prefix_of` src).
      { destruct Hinv' as (_ & _ & _ & _ & Hx). destruct (T.io u') as [s| |]; [rewrite Hx; by apply prefix_app_r| |done].
        destruct Hx as [_ [rest ->]]. by apply prefix_app_r. }
      destruct Hpre as [rest ->]. rewrite len_app in Hlen. assert (Hr : rest = []) by (apply len_0_nil; lia). by rewrite Hr, app_nil_r.
    + apply IH; [done..|]. rewrite len_app. pose proof (proj1 (proj2 (proj2 Hinv'))). destruct Hinv' as (_ & _ & H0 & Hr & _).
      rewrite len_app in Hr. assert (0 < len got) by (destruct got; [done|]; rewrite len_cons; pose proof (len_nonneg got); lia). lia.
Qed.

(** A body with a length gets through: a transport that sends its [n] bytes, in any
    pieces and with any pauses, is read to the end and the end is reported, after at most
    one poll for every byte and every answer of the transport, whatever the sizes of the
    buffers. *)
Theorem content_length_delivered n pre io polls :
  0 < n → len (pre ++ script_data (script io)) = n → sending io →
  Forall (λ p, 0 < p.1 ∧ p.2 = false) polls → (Z.to_nat n + length (script io) < length polls)%nat →
  match HttpBody.new None (BLength n) io pre with
  | (Ok k, _) => ∃ k', run polls [] k = (pre ++ script_data (script io), Ended, k') ∧ HttpBody.drop k' = Released
  | _ => False
  end.
Proof.
  intros Hn Hlen Hs Hp Hm. cbn [HttpBody.new].
  set (io' := set_transport_phase _ _). set (u := T.new n pre io' None _).
  assert (Hpre : pre_data (T.pre u) = pre) by (by destruct pre).
  destruct (run_live n (pre ++ script_data (script io)) polls [] u) as (u' & -> & Hu'); [done| |done|done| |].
  - split; [done|]. split; [apply for_body_ok|]. split; [simpl; lia|]. split; [change (len []) with 0; simpl; lia|].
    change (T.io u) with (Held io'). by rewrite Hpre.
  - change (len []) with 0. rewrite Z.sub_0_r. exact Hm.
  - exists (HttpBody.KText u'). split; [done|]. unfold HttpBody.drop. simpl. by rewrite Hu'.
Qed.

Definition witness_io : StreamData.t :=
  StreamData.mk [IoPending; IoReady (str "cde") true; IoPending; IoReady (str "fg") true] true VHttp1 HttpsOverHttpsProxy PhConnect.
Definition witness_polls : list (Z * bool) := replicate 13 (2, false).
Lemma content_length_delivered_witness :
  ∃ k k', HttpBody.new None (BLength 7) witness_io (str "ab") = (Ok k, Held (set_transport_phase witness_io PhBodyDrainSmall)) ∧
    run witness_polls [] k = (str "abcdefg", Ended, k') ∧ HttpBody.drop k' = Released.
Proof.
  assert (Hs : sending witness_io) by (split; [done|]; by repeat constructor).
  assert (Hp : Forall (λ p, 0 < p.1 ∧ p.2 = false) witness_polls) by (by apply Forall_replicate).
  pose proof (content_length_delivered 7 (str "ab") witness_io witness_polls ltac:(lia) eq_refl Hs Hp ltac:(simpl; lia)) as H.
  simpl in H. destruct H as (k' & Hrun & Hd). eexists _, k'. split; [reflexivity|]. split; [exact Hrun|exact Hd].
Defined.
(** One byte more than announced, a timeout, and a stop in the middle. *)
Lemma content_length_exact_witness :
  let polls := [(2, false); (0, true); (3, false); (3, true)] in
  Forall (λ p : Z * bool, 0 ≤ p.1) polls ∧
  match HttpBody.new None (BLength 6) witness_io (str "ab") with
  | (Ok k, _) => exact_length None 6 (str "abcdefg") VHttp1 (run polls [] k)
  | _ => False
  end.
Proof.
  assert (Hp : Forall (λ p : Z * bool, 0 ≤ p.1) [(2, false); (0, true); (3, false); (3, true)]) by (by repeat constructor).
  split; [exact Hp|]. exact (content_length_exact None 6 (str "ab") witness_io _ ltac:(lia) Hp).
Defined.

(** An interceptor that refuses what was read: the connection is given back with the body
    unread. *)
Lemma intercepted_body_released :
  match HttpBody.new (Some (λ _, false)) (BLength 6) witness_io [] with
  | (Ok k, _) => let '(D, o, k') := run [(3, false); (3, false); (3, false)] [] k in D = [] ∧ o = Failed InterceptorError ∧ HttpBody.drop k' = Released
  | _ => False
  end.
Proof. by vm_compute. Qed.
