(* ===== verification/ChunkDelivery.v ===== *)
(** Chunked bodies of responses are delivered: a chunked body without trailer fields, that a
    transport sends in any pieces and with any pauses, is read by [ChunkData] as the data
    of its chunks, and its end is reported.

    The decoder of a response expects trailers, and looks one byte ahead to find the last
    chunk; what it does in a segment depends on where the segment ends.  [place] says where
    in the grammar of a body it stands. *)
From S2P Require Import Prelude Buffers Headers ChunkBody ChunkDecoder HttpBody HttpBodySafety.
Import StreamData.
#[local] Abbreviation wire := bytes (only parsing).

(** ** Places in a body *)

(** Behind the data of a chunk of [n] bytes and its line end: the next chunks, or the end. *)
Definition after (n : Z) (tl : wire) (data : bytes) : Prop := if n =? 0 then tl = [] ∧ data = [] else chunked tl data.
Definition no_crlf (ext : bytes) : Prop := Forall (λ b, b ≠ 13 ∧ b ≠ 10) ext.

(** In a chunk of [n] bytes, behind its size. *)
Definition in_chunk (n : Z) (d : D.t) : Prop :=
  D.total_size d = n ∧ 0 ≤ n ∧ D.hex_count d = 0 ∧ D.num_flag d = false ∧ D.is_last_chunk d = (n =? 0).
(** In front of a size, of which the digits of [hex_count] are read. *)
Definition in_size (d : D.t) : Prop :=
  D.total_size d = 0 ∧ D.rest_size d = 0 ∧ D.cr_meet d = false ∧ D.is_last_chunk d = false ∧
  0 ≤ D.hex_count d ∧ D.num_flag d = (0 <? D.hex_count d).

(** [place d w data]: the decoder [d] stands in front of the octets [w] of a body, which carry [data]. *)
Definition place (d : D.t) (w : wire) (data : bytes) : Prop :=
  D.is_trailer d = true ∧
  if D.is_chunk_trailer d then
    data = [] ∧
    match D.stage d with
    | Stage.Extension => D.cr_meet d = false ∧ ∃ ext, no_crlf ext ∧ w = ext ++ CRLF ++ CRLF
    | Stage.TrailerCrlf => D.cr_meet d = true ∧ w = 10 :: CRLF
    | Stage.TrailerData => D.cr_meet d = false ∧ D.is_trailer_crlf d = true ∧ w = CRLF
    | Stage.TrailerEndCrlf => D.cr_meet d = true ∧ D.is_last_chunk d = true ∧ w = [10]
    | _ => False
    end
  else
    match D.stage d with
    | Stage.Size =>
        in_size d ∧ ∃ ds ext body tl rest, digits (D.hex_count d) ds (len body) ∧ ext_ok ext ∧ after (len body) tl rest ∧
          w = ds ++ ext ++ CRLF ++ body ++ CRLF ++ tl ∧ data = body ++ rest
    | Stage.Extension =>
        D.cr_meet d = false ∧ ∃ ext body tl rest, in_chunk (len body) d ∧ D.rest_size d = len body ∧ no_crlf ext ∧ after (len body) tl rest ∧
          w = ext ++ CRLF ++ body ++ CRLF ++ tl ∧ data = body ++ rest
    | Stage.SizeEnd =>
        D.cr_meet d = true ∧ ∃ body tl rest, in_chunk (len body) d ∧ D.rest_size d = len body ∧ after (len body) tl rest ∧
          w = 10 :: body ++ CRLF ++ tl ∧ data = body ++ rest
    | Stage.Data =>
        D.cr_meet d = false ∧ ∃ n body tl rest, in_chunk n d ∧ D.rest_size d = len body ∧ (n = 0 → body = []) ∧ after n tl rest ∧
          w = body ++ CRLF ++ tl ∧ data = body ++ rest
    | Stage.DataEnd =>
        D.rest_size d = 0 ∧ ∃ n tl, in_chunk n d ∧ after n tl data ∧ w = (if D.cr_meet d then [10] else CRLF) ++ tl
    | _ => False
    end.
(** Behind the body. *)
Definition done_ (d : D.t) : Prop := D.stage d = Stage.Size ∨ D.stage d = Stage.TrailerEndCrlf.

Lemma place_more d w data : place d w data → w ≠ [].
Proof.
  intros [_ H] ->. destruct (D.is_chunk_trailer d), (D.stage d); try done.
  all: repeat match goal with H : _ ∧ _ |- _ => destruct H | H : ∃ _, _ |- _ => destruct H end; try done.
  all: match goal with H : [] = _ |- _ => apply (f_equal length) in H; rewrite ?length_app in H; cbn [length CRLF] in H; try lia end.
  destruct (D.cr_meet d); cbn [length CRLF] in *; lia.
Qed.

(** What a call on the octets in front of [w'] returns: the decoder stands in front of [w']
    and waits; a chunk has ended; the body has ended. *)
Definition quiet (c : Chunk.t) : Prop :=
  match Chunk.trailer c with
  | Some _ => Chunk.data c = []
  | None => Chunk.size c ≠ 0 ∨ Chunk.state c = ChunkState.MetaSize
  end.
Definition closing (c : Chunk.t) : Prop :=
  Chunk.data c = [] ∧ match Chunk.trailer c with Some _ => True | None => Chunk.size c = 0 ∧ Chunk.state c ≠ ChunkState.MetaSize end.
Inductive stage_out (m : nat) (w' data : bytes) : res HttpError (Chunk.t * bytes) * D.t → Prop :=
| out_wait c d data' :
    place d w' data' → data = Chunk.data c ++ data' → Chunk.is_complete c = false → quiet c ∨ closing c ∧ Chunk.trailer c = None ∧ data' = [] →
    stage_out m w' data (Ok (c, []), d)
| out_chunk c rest d data' :
    data = Chunk.data c ++ data' → Chunk.is_complete c = true → Chunk.trailer c = None → Chunk.size c ≠ 0 →
    D.is_trailer d = true → D.is_chunk_trailer d = false → D.stage d = Stage.Size → in_size d → D.hex_count d = 0 → chunked (rest ++ w') data' → (length rest < m)%nat →
    stage_out m w' data (Ok (c, rest), d)
| out_end c d :
    data = [] → w' = [] → Chunk.is_complete c = true → closing c → D.is_last_chunk d = true → done_ d →
    stage_out m w' data (Ok (c, []), d).

(** ** The stages *)

(** What is left when a segment has become shorter. *)
Ltac shut := first [done | rewrite ?length_app in *; cbn [length] in *; lia].
Ltac unbind := rewrite ?M_bind_eq; unfold mmodify, mstate, D.decode_cr, D.decode_lf.
Definition flags (n : Z) (d : D.t) : Prop := D.is_trailer d = true ∧ D.is_chunk_trailer d = false ∧ in_chunk n d.

Lemma data_end_ok m n body s w' tl rest d :
  (length s ≤ m)%nat → flags n d → D.rest_size d = 0 → after n tl rest → (n = 0 → body = []) → s ++ w' = (if D.cr_meet d then [10] else CRLF) ++ tl →
  stage_out m w' (body ++ rest) (D.skip_last_crlf body s d).
Proof.
  intros Hm (Ht & Hct & Hin) Hr Haft Hb Hw. unfold D.skip_last_crlf. unbind. destruct d as [cn ts rs hc tr cr cf nf il ict it itc st]. unfold in_chunk in *. cbn in *. subst.
  destruct Hin as (-> & Hn & -> & -> & ->).
  assert (Hend : ∀ s : bytes, (length s < m)%nat → s ++ w' = tl → stage_out m w' (body ++ rest)
    (Ok (D.sized_chunk body None n ChunkState.Finish, s), D.mk cn 0 0 0 tr false cf false (n =? 0) false true itc Stage.Size)).
  { intros s0 Hm0 Hs0. destruct (Z.eqb_spec n 0) as [->|Hne].
    - destruct Haft as [-> ->]. apply app_eq_nil in Hs0 as [-> ->]. rewrite (Hb eq_refl). by apply out_end; try done; left.
    - apply out_chunk with rest; try done. unfold after in Haft. rewrite (proj2 (Z.eqb_neq n 0) Hne) in Haft. by rewrite Hs0. }
  assert (Hwait : ∀ cr : bool, w' = (if cr then [10] else CRLF) ++ tl → stage_out m w' (body ++ rest)
    (Ok (D.sized_chunk body None n ChunkState.DataCrlf, []), D.mk cn n 0 0 tr cr cf false (n =? 0) false true itc Stage.DataEnd)).
  { intros cr0 Hw0. apply out_wait with rest; [|done|done|].
    - split; [done|]. simpl. split; [done|]. by exists n, tl.
    - destruct (Z.eqb_spec n 0) as [->|Hne]; [right|by left; left]. destruct Haft as [_ ->]. rewrite (Hb eq_refl). done. }
  destruct s as [|b s]; [exact (Hwait cr Hw)|]. destruct cr; cbn in Hw.
  - injection Hw as -> Hw. cbn. apply Hend; shut.
  - injection Hw as -> Hw. cbn. destruct s as [|b s]; [exact (Hwait true Hw)|]. injection Hw as -> Hw. cbn. apply Hend; shut.
Qed.
(** A segment that ends within the data, or behind it. *)
Lemma wait_ok m n (st : ChunkState.t) d w' data' :
  flags n d → place d w' data' → st ≠ ChunkState.Finish → (n = 0 → data' = []) → st ≠ ChunkState.MetaSize →
  stage_out m w' data' (Ok (D.sized_chunk [] None (D.total_size d) st, []), d).
Proof.
  intros (_ & _ & Hts & _) Hp Hst H0 Hm. apply out_wait with data'; [done|done|by destruct st|].
  destruct (Z.eq_dec n 0) as [->|Hne]; [right|left; left; simpl; congruence]. split; [|by auto]. split; [done|]. simpl. by rewrite Hts.
Qed.
Lemma after_0 body tl rest : after (len body) tl rest → len body = 0 → body ++ rest = [].
Proof. intros Ha H0. unfold after in Ha. rewrite H0 in Ha. destruct Ha as [_ ->]. by rewrite (len_0_nil _ H0). Qed.
Lemma decode_data_ok m n body s w' tl rest d :
  (length s ≤ m)%nat → flags n d → D.rest_size d = len body → D.cr_meet d = false → after n tl rest → (n = 0 → body = []) → s ++ w' = body ++ CRLF ++ tl →
  stage_out m w' (body ++ rest) (D.decode_data s d).
Proof.
  intros Hm Hf Hr Hcr Haft Hb Hw. unfold D.decode_data. unbind. set (d1 := D.set_stage d Stage.Data).
  assert (Hf1 : flags n d1) by exact Hf. destruct s as [|b s0] eqn:Hs; [|rewrite <- Hs in *; clear Hs].
  { cbn in Hw. apply (wait_ok m n); [done| |done| |done].
    - destruct Hf as (Ht & Hct & Hin). split; [done|]. simpl. rewrite Hct. split; [done|]. by exists n, body, tl, rest.
    - intros ->. destruct Haft as [_ ->]. by rewrite (Hb eq_refl). }
  assert (Hd1 : D.rest_size d1 = len body) by done. rewrite Hd1. destruct (Z.leb_spec (len body) (len s)) as [Hle|Hgt].
  - apply app_eq_inv in Hw as [(s2 & -> & Hw)|(k & Hk & Hw)].
    + rewrite upto_app_exact, from_app_exact by done. apply (data_end_ok m n _ _ _ tl); shut.
    + assert (k = []) as -> by (apply len_0_nil; rewrite Hk, len_app in Hle; pose proof (len_nonneg k); lia). rewrite app_nil_r in Hk. 
      subst body. rewrite upto_all, from_all by lia. apply (data_end_ok m n _ _ _ tl); shut.
  - apply app_eq_inv in Hw as [(s2 & Hs2 & Hw)|(k & -> & Hw)].
    { rewrite Hs2, len_app in Hgt. pose proof (len_nonneg s2). lia. }
    rewrite len_app in *. destruct Hf as (Ht & Hct & Hin). assert (Hn0 : n ≠ 0) by (intros H0; apply Hb, app_eq_nil in H0 as [-> ->]; change (len []) with 0 in Hgt; lia).
    apply out_wait with (k ++ rest); [|by rewrite <- (assoc_L (++))|done|].
    + split; [done|]. simpl. rewrite Hct. split; [done|]. exists n, k, tl, rest. split; [done|]. split; [lia|]. by split.
    + left. left. simpl. destruct Hin as [-> _]. done.
Qed.
Lemma skip_crlf_ok m body s w' tl rest d :
  (length s ≤ m)%nat → flags (len body) d → D.rest_size d = len body → D.cr_meet d = true → after (len body) tl rest → s ++ w' = 10 :: body ++ CRLF ++ tl →
  stage_out m w' (body ++ rest) (D.skip_crlf s d).
Proof.
  intros Hm Hf Hr Hcr Haft Hw. unfold D.skip_crlf. unbind. set (d1 := D.set_stage d Stage.SizeEnd). destruct s as [|b s].
  - cbn in Hw. apply (wait_ok m (len body)); [exact Hf| |done|by apply after_0 with tl|done].
    destruct Hf as (Ht & Hct & Hin). split; [done|]. simpl. rewrite Hct. split; [done|]. by exists body, tl, rest.
  - injection Hw as -> Hw. cbn [D.skip_crlf_loop]. change (10 =? 13) with false. change (10 =? 10) with true. cbv iota. rewrite M_bind_eq. unfold D.decode_lf.
    change (D.cr_meet d1) with (D.cr_meet d). rewrite Hcr. cbn [negb]. apply (decode_data_ok m (len body) _ _ _ tl); try shut. by apply len_0_nil.
Qed.
Lemma skip_chunk_ext_ok m ext body s w' tl rest d :
  (length s ≤ m)%nat → flags (len body) d → D.rest_size d = len body → D.cr_meet d = false → D.stage d = Stage.Extension → no_crlf ext → after (len body) tl rest →
  s ++ w' = ext ++ CRLF ++ body ++ CRLF ++ tl → stage_out m w' (body ++ rest) (D.skip_chunk_ext s d).
Proof.
  intros Hm Hf Hr Hcr Hst Hext Haft.
  assert (Hwait : ∀ ext, no_crlf ext → w' = ext ++ CRLF ++ body ++ CRLF ++ tl → stage_out m w' (body ++ rest) (D.skip_chunk_ext [] d)).
  { intros ext0 Hext0 Hw0. apply (wait_ok m (len body)); [exact Hf| |done|by apply after_0 with tl|done].
    destruct Hf as (Ht & Hct & Hin). split; [done|]. rewrite Hct, Hst. split; [done|]. by exists ext0, body, tl, rest. }
  revert s Hm. induction Hext as [|b ext [Hb1 Hb2] Hext IH]; intros [|c s] Hm Hw; [by apply (Hwait []); [constructor|]| |by apply (Hwait (b :: ext)); [constructor|]|].
  - injection Hw as -> Hw. cbn [D.skip_chunk_ext]. change (13 =? 13) with true. cbv iota. rewrite M_bind_eq. unfold D.decode_cr. rewrite Hcr.
    apply (skip_crlf_ok m body _ _ tl); shut.
  - injection Hw as -> Hw. cbn [D.skip_chunk_ext]. rewrite (proj2 (Z.eqb_neq _ _) Hb1), (proj2 (Z.eqb_neq _ _) Hb2). apply IH; shut.
Qed.

(** The last chunk, once it is found. *)
Definition at_last (d : D.t) : Prop := D.is_trailer d = true ∧ D.is_chunk_trailer d = true.
Lemma last_wait_ok m n (st : ChunkState.t) d w' :
  place d w' [] → st ≠ ChunkState.Finish → stage_out m w' [] (Ok (D.sized_chunk [] (Some []) n st, []), d).
Proof. intros Hp Hst. apply out_wait with []; [done|done|by destruct st|by left]. Qed.
Lemma trailer_end_ok m s w' d :
  at_last d → D.cr_meet d = true → D.is_last_chunk d = true → s ++ w' = [10] → stage_out m w' [] (D.skip_trailer_last_crlf [] s d).
Proof.
  intros [Ht Hct] Hcr Hl Hw. unfold D.skip_trailer_last_crlf. unbind. set (d1 := D.set_stage d Stage.TrailerEndCrlf). destruct s as [|b s].
  - cbn in Hw. apply last_wait_ok; [|done]. split; [done|]. simpl. rewrite Hct. done.
  - injection Hw as -> Hw. apply app_eq_nil in Hw as [-> ->]. cbn. unfold D.decode_lf, mstate. rewrite M_bind_eq. cbn. rewrite Hcr. cbn. rewrite Hl.
    by apply out_end; try done; right.
Qed.
Lemma trailer_data_ok m s w' d :
  at_last d → D.cr_meet d = false → D.is_trailer_crlf d = true → s ++ w' = CRLF → stage_out m w' [] (D.decode_trailer_data s d).
Proof.
  intros [Ht Hct] Hcr Hl Hw. unfold D.decode_trailer_data. unbind. set (d1 := D.set_stage d Stage.TrailerData). destruct s as [|b s].
  - cbn in Hw. apply last_wait_ok; [|done]. split; [done|]. simpl. rewrite Hct. done.
  - injection Hw as -> Hw. rewrite M_bind_eq. change (D.is_trailer_crlf d1) with (D.is_trailer_crlf d). rewrite Hl. cbn [andb Z.eqb Pos.eqb].
    cbn [D.decode_trailer_data_loop]. change (13 =? 13) with true. cbv iota. rewrite M_bind_eq. unfold D.decode_cr. cbn. rewrite Hcr. by apply trailer_end_ok.
Qed.
Lemma trailer_crlf_ok m s w' d : at_last d → D.cr_meet d = true → s ++ w' = 10 :: CRLF → stage_out m w' [] (D.skip_trailer_crlf s d).
Proof.
  intros [Ht Hct] Hcr Hw. unfold D.skip_trailer_crlf. unbind. set (d1 := D.set_stage d Stage.TrailerCrlf). destruct s as [|b s].
  - cbn in Hw. apply last_wait_ok; [|done]. split; [done|]. simpl. rewrite Hct. done.
  - injection Hw as -> Hw. cbn [D.skip_trailer_crlf_loop]. change (10 =? 13) with false. change (10 =? 10) with true. cbv iota. rewrite !M_bind_eq. unfold D.decode_lf.
    change (D.cr_meet d1) with (D.cr_meet d). rewrite Hcr. cbn [negb]. rewrite M_bind_eq. unfold mmodify. by apply trailer_data_ok.
Qed.
Lemma trailer_ext_ok m ext s w' d :
  at_last d → D.cr_meet d = false → D.stage d = Stage.Extension → no_crlf ext → s ++ w' = ext ++ CRLF ++ CRLF → stage_out m w' [] (D.skip_trailer_ext s d).
Proof.
  intros Hl Hcr Hst Hext.
  assert (Hwait : ∀ ext, no_crlf ext → w' = ext ++ CRLF ++ CRLF → stage_out m w' [] (D.skip_trailer_ext [] d)).
  { intros ext0 Hext0 Hw0. apply last_wait_ok; [|done]. destruct Hl as [Ht Hct]. split; [done|]. rewrite Hct, Hst. split; [done|]. split; [done|]. by exists ext0. }
  revert s. induction Hext as [|b ext [Hb1 Hb2] Hext IH]; intros [|c s] Hw; [by apply (Hwait []); [constructor|]| |by apply (Hwait (b :: ext)); [constructor|]|].
  - injection Hw as -> Hw. cbn [D.skip_trailer_ext]. change (13 =? 13) with true. cbv iota. rewrite M_bind_eq. unfold D.decode_cr. rewrite Hcr. by apply trailer_crlf_ok.
  - injection Hw as -> Hw. cbn [D.skip_trailer_ext]. rewrite (proj2 (Z.eqb_neq _ _) Hb1), (proj2 (Z.eqb_neq _ _) Hb2). by apply IH.
Qed.

(** The size: a [0] in front of the end of the digits, within a segment, is that of the last
    chunk. *)
Definition sizing (d : D.t) : Prop :=
  D.is_trailer d = true ∧ D.is_chunk_trailer d = false ∧ D.stage d = Stage.Size ∧ in_size d ∧ (D.num_flag d = false → D.chunk_flag d = false).
Lemma special_ok m ext body s w' tl rest d :
  (length s ≤ m)%nat → sizing d → D.hex_count d = len body → ext_ok ext → after (len body) tl rest → s ++ w' = ext ++ CRLF ++ body ++ CRLF ++ tl →
  stage_out m w' (body ++ rest) (D.decode_special_char s d).
Proof.
  intros Hm (Ht & Hct & Hst & (Hts & Hrs & Hcr & Hl & Hh & Hnf) & _) Hlen [Hext _] Haft Hw. unfold D.decode_special_char. rewrite Hct. cbn. rewrite Hlen.
  destruct (Z.eqb_spec (len body) 0) as [H0|Hne]; unfold D.skip_extension; unbind; cbn; rewrite Hct; apply (skip_chunk_ext_ok m ext body _ _ tl); try done.
  all: unfold flags, in_chunk; cbn; pose proof (len_nonneg body).
  - rewrite H0. done.
  - by rewrite H0.
  - rewrite (proj2 (Z.eqb_neq _ _) Hne). done.
Qed.
Lemma size_wait_ok m ds ext body w' tl rest d :
  D.is_trailer d = true → D.is_chunk_trailer d = false → D.stage d = Stage.Size → in_size d → digits (D.hex_count d) ds (len body) → ext_ok ext → after (len body) tl rest → w' = ds ++ ext ++ CRLF ++ body ++ CRLF ++ tl →
  stage_out m w' (body ++ rest) (Ok (D.sized_chunk [] None (D.total_size d) ChunkState.MetaSize, []), d).
Proof.
  intros Ht Hct Hst Hin Hd Hext Haft Hw. apply out_wait with (body ++ rest); [|done|done|by left; right].
  split; [done|]. rewrite Hct, Hst. split; [done|]. by exists ds, ext, body, tl, rest.
Qed.
Lemma add_digit_ok v f d :
  sizing d → 0 ≤ v → D.hex_count d * 16 + v ≤ D.i64_max → f = mret () ∧ v = 0 ∨ f = D.set_flags ∧ 0 < v →
  ∃ d', sizing d' ∧ D.hex_count d' = D.hex_count d * 16 + v ∧ ∀ A (k : M D.t HttpError A), (D.add_digit v;; f;; k) d = k d'.
Proof.
  intros (Ht & Hct & Hst & (Hts & Hrs & Hcr & Hl & Hh & Hnf) & Hcf) Hv Hmax Hf.
  assert (Hadd : D.add_digit v d = (Ok (), D.set_hex_count d (D.hex_count d * 16 + v))).
  { unfold D.add_digit, D.hex_to_decimal. by rewrite !(proj2 (Z.ltb_ge _ _)) by lia. }
  destruct Hf as [[-> ->]|[-> Hv0]].
  - exists (D.set_hex_count d (D.hex_count d * 16 + 0)). split; [|split; [done|intros A k; by rewrite M_bind_eq, Hadd]].
    split; [done|]. split; [done|]. split; [done|]. split; [|done]. unfold in_size. cbn. split_and!; try done; [lia|]. rewrite Hnf.
    destruct (Z.ltb_spec 0 (D.hex_count d)), (Z.ltb_spec 0 (D.hex_count d * 16 + 0)); (done || lia).
  - exists (D.set_num_flag (D.set_chunk_flag (D.set_hex_count d (D.hex_count d * 16 + v)) true) true). split; [|split; [done|intros A k; by rewrite M_bind_eq, Hadd]].
    split; [done|]. split; [done|]. split; [done|]. split; [|done]. unfold in_size. cbn. split_and!; try done; [lia|]. symmetry. apply Z.ltb_lt. lia.
Qed.
Lemma hex_range b v : hex_value b = Some v → 0 ≤ v ∧ (b ≠ 48 → 0 < v) ∧ b ≠ 59 ∧ b ≠ 32 ∧ b ≠ 13.
Proof. unfold hex_value. intros Hb. repeat case_match; simplify_eq; zbool; lia. Qed.
Lemma digit_step b v s d :
  hex_value b = Some v → b ≠ 48 → D.decode_size_loop (b :: s) d = (D.add_digit v;; D.set_flags;; D.decode_size_loop s) d.
Proof.
  unfold hex_value. intros Hb Hn. cbn [D.decode_size_loop]. rewrite (proj2 (Z.eqb_neq b 48) Hn).
  destruct (Z.leb_spec 49 b); [|destruct (Z.leb_spec 48 b), (Z.leb_spec 97 b), (Z.leb_spec 65 b); simplify_eq/=; try lia].
  all: repeat case_match; simplify_eq/=; zbool; try lia; done.
Qed.
Lemma size_loop_ok m acc ds ext body s w' tl rest d :
  (length s ≤ m)%nat → digits acc ds (len body) → D.hex_count d = acc → sizing d → ext_ok ext → after (len body) tl rest → s ++ w' = ds ++ ext ++ CRLF ++ body ++ CRLF ++ tl →
  stage_out m w' (body ++ rest) (D.decode_size_loop s d).
Proof.
  intros Hm Hd Hacc Hsz Hext Haft. remember (len body) as n eqn:Hn. revert s d Hm Hacc Hsz.
  induction Hd as [n|acc b v ds n Hb Hmax Hd IH]; intros s d Hm Hacc Hsz Hw; subst n.
  - destruct s as [|b s]; [apply (size_wait_ok m [] ext body _ tl); try apply Hsz; try done; rewrite Hacc; constructor|].
    assert (Hsp : D.decode_size_loop (b :: s) d = D.decode_special_char (b :: s) d).
    { destruct ext as [|x ext]; injection Hw as -> _; [done|]. by destruct Hext as [_ [->|[->| ->]]]. }
    rewrite Hsp. by apply (special_ok m ext body _ _ tl).
  - destruct (hex_range b v Hb) as (Hv & Hv0 & Hnot). destruct s as [|c s].
    { apply (size_wait_ok m (b :: ds) ext body _ tl); try apply Hsz; try done. rewrite Hacc. by apply digits_cons with v. }
    injection Hw as -> Hw.
    assert (Hgo : ∀ f, f = mret () ∧ v = 0 ∨ f = D.set_flags ∧ 0 < v → stage_out m w' (body ++ rest) ((D.add_digit v;; f;; D.decode_size_loop s) d)).
    { intros f Hf. destruct (add_digit_ok v f d Hsz Hv ltac:(by rewrite Hacc) Hf) as (d' & Hsz' & Hh' & Hk). rewrite Hk. apply IH; solve [shut|by rewrite Hh', Hacc]. }
    destruct (Z.eq_dec b 48) as [->|Hn48]; [|rewrite (digit_step b v) by done; by apply Hgo; right; auto].
    injection Hb as <-. cbn [D.decode_size_loop]. change (48 =? 48) with true. cbv iota.
    assert (Hplain : stage_out m w' (body ++ rest) ((D.add_digit 0;; D.decode_size_loop s) d)) by (rewrite add_then_nothing; apply Hgo; by left).
    destruct s as [|x s]; [exact Hplain|]. destruct (negb (x =? 59) && _ && _) eqn:Hx; [exact Hplain|].
    destruct (D.is_trailer d && negb (D.chunk_flag d) && negb (D.num_flag d)) eqn:Hflag; [|exact Hplain]. zbool.
    assert (Hds : ds = []).
    { destruct ds as [|y ds]; [done|]. inversion_clear Hd as [|? ? ? ? ? Hy _ _]. apply hex_range in Hy. injection Hw as -> _. destruct Hy as (_ & _ & ? & ? & ?).
      by rewrite !(proj2 (Z.eqb_neq _ _)) in Hx. }
    subst ds. inversion Hd as [n0 Hn0|]. destruct Hsz as (Ht & Hct & Hst & (Hts & Hrs & Hcr & Hl & Hh & Hnf) & Hcf).
    assert (Hacc0 : acc = 0) by (match goal with H : D.num_flag d = false |- _ => rewrite Hnf in H; apply Z.ltb_ge in H; lia end).
    assert (Hb0 : len body = 0) by lia. rewrite (after_0 body tl rest Haft Hb0). rewrite Hb0 in Haft. destruct Haft as [-> ->]. apply len_0_nil in Hb0. subst body.
    unfold D.skip_extension. unbind. change (stage_out m w' [] (D.skip_trailer_ext (48 :: x :: s) (D.set_stage (D.set_num_flag (D.set_is_chunk_trailer d true) false) Stage.Extension))).
    apply (trailer_ext_ok m (48 :: ext)); try done; [constructor; [done|apply Hext]|]. cbn [app] in *. by rewrite Hw.
Qed.
Lemma stage_ok s w' data d : place d (s ++ w') data → stage_out (length s) w' data (D.decode_stage s d).
Proof.
  intros [Ht H]. unfold D.decode_stage. destruct (D.is_chunk_trailer d) eqn:Hct.
  - destruct H as [-> H]. destruct (D.stage d) eqn:Hst; try done.
    + destruct H as (Hcr & ext & Hext & Hw). unfold D.skip_extension. unbind. cbn. rewrite Hct. by apply (trailer_ext_ok _ ext).
    + destruct H. by apply trailer_crlf_ok.
    + destruct H as (? & ? & ?). by apply trailer_data_ok.
    + destruct H as (? & ? & ?). by apply trailer_end_ok.
  - destruct (D.stage d) eqn:Hst; try done.
    + destruct H as (Hin & ds & ext & body & tl & rest & Hd & Hext & Haft & Hw & ->). unfold D.decode_size. rewrite M_bind_eq. unfold mmodify.
      rewrite (set_stage_id d Stage.Size Hst). destruct s as [|b s].
      * by apply (size_wait_ok _ ds ext body _ tl).
      * rewrite M_bind_eq. by apply (size_loop_ok _ (D.hex_count d) ds ext body _ _ tl).
    + destruct H as (Hcr & ext & body & tl & rest & Hin & Hr & Hext & Haft & Hw & ->). unfold D.skip_extension. unbind. cbn. rewrite Hct. by apply (skip_chunk_ext_ok _ ext body _ _ tl).
    + destruct H as (Hcr & body & tl & rest & Hin & Hr & Haft & Hw & ->). by apply (skip_crlf_ok _ body _ _ tl).
    + destruct H as (Hcr & n & body & tl & rest & Hin & Hr & Hb & Haft & Hw & ->). by apply (decode_data_ok _ n body _ _ tl).
    + destruct H as (Hr & n & tl & Hin & Haft & Hw). by apply (data_end_ok _ n [] _ _ tl).
Qed.

(** ** Segments *)

#[local] Abbreviation merge := ChunkData.merge_loop.
Lemma merge_quiet c more got :
  quiet c → Chunk.trailer c = None ∨ Chunk.is_complete c = false → merge (c :: more) false got = merge more false (got ++ Chunk.data c).
Proof.
  unfold quiet, Chunk.is_complete. intros Hq Hc. cbn [ChunkData.merge_loop]. destruct (Chunk.trailer c) as [tr|].
  - destruct Hc as [|Hc]; [done|]. rewrite Hc, Hq, app_nil_r. done.
  - destruct Hq as [Hq|Hq]; [by rewrite (proj2 (Z.eqb_neq _ _) Hq)|]. rewrite (bool_decide_true _ Hq), andb_false_r. done.
Qed.
Lemma merge_closing c got :
  closing c → Chunk.trailer c = None ∨ Chunk.is_complete c = true → merge [c] false got = (got, true).
Proof.
  unfold closing, Chunk.is_complete. intros [_ Hq] Hc. cbn [ChunkData.merge_loop]. destruct (Chunk.trailer c) as [tr|].
  - destruct Hc as [|Hc]; [done|]. by rewrite Hc.
  - destruct Hq as [Hq Hm]. rewrite Hq. by rewrite (bool_decide_false _ Hm).
Qed.
(** Results that do not end the body. *)
Definition calm (results : list Chunk.t) (got : bytes) : Prop := ∀ more, merge (results ++ more) false [] = merge more false got.
Lemma calm_snoc results got c :
  calm results got → quiet c → Chunk.trailer c = None ∨ Chunk.is_complete c = false → calm (results ++ [c]) (got ++ Chunk.data c).
Proof. intros Hr Hq Hc more. rewrite <- (assoc_L (++)), Hr. by apply merge_quiet. Qed.

(** The state in which the loop goes on. *)
Definition settled (c : Chunk.t) (rest : bytes) (d : D.t) : D.t :=
  (D.match_decode_result c rest (match Chunk.trailer c with Some tr => D.merge_trailer c tr d | None => d end)).2.
Lemma place_trailer d x w data : place d w data → place (D.set_trailer d x) w data.
Proof. by destruct d. Qed.
Lemma place_num d x w data : place d w data → place (D.set_chunk_num d x) w data.
Proof. by destruct d. Qed.
Lemma settled_place c rest d w data : Chunk.is_complete c = false → place d w data → place (settled c rest d) w data.
Proof.
  intros Hc Hp. unfold settled, D.match_decode_result. rewrite Hc.
  set (d1 := match Chunk.trailer c with Some tr => _ | None => _ end).
  assert (Hp1 : place d1 w data). { unfold d1. destruct (Chunk.trailer c); [|done]. unfold D.merge_trailer. destruct (_ || _); by apply place_trailer. }
  destruct (_ && _); [by apply place_num|done].
Qed.
Lemma settled_stop c d : (D.match_decode_result c [] d).1 = true.
Proof. unfold D.match_decode_result. destruct (Chunk.is_complete c), (D.is_last_chunk d); [done..| |]; by destruct (_ && _). Qed.
Lemma chunked_place d w data :
  chunked w data → D.is_trailer d = true → D.is_chunk_trailer d = false → D.stage d = Stage.Size → in_size d → D.hex_count d = 0 → place d w data.
Proof.
  intros Hw Ht Hct Hst Hin Hh. split; [done|]. rewrite Hct, Hst. split; [done|]. rewrite Hh.
  destruct Hw as [ds ext Hne Hd Hext|ds n ext data w rest Hd Hn Hext Hlen Hw].
  - by exists ds, ext, [], [], [].
  - exists ds, ext, data, w, rest. subst n. split; [done|]. split; [done|]. split; [|done]. unfold after. by rewrite (proj2 (Z.eqb_neq _ _)) by lia.
Qed.
(** What the decoder has found in a segment in front of [w']. *)
Definition segment_ok (w' data got : bytes) (x : option (res HttpError (list Chunk.t * bytes) * D.t)) : Prop :=
  ∃ cs d' got' data' fin, x = Some (Ok (cs, []), d') ∧ merge cs false [] = (got ++ got', fin) ∧ data = got' ++ data' ∧ (fin = true → data' = []) ∧
    (place d' w' data' ∨ done_ d' ∧ w' = [] ∧ data' = [] ∧ fin = true).
Lemma loop_ok fuel results got s w' data d :
  calm results got → place d (s ++ w') data → (length s < fuel)%nat → segment_ok w' data got (D.decode_loop fuel results s d).
Proof.
  revert results got s data d. induction fuel as [|fuel IH]; intros results got s data d Hr Hp Hfuel; [lia|]. cbn [D.decode_loop].
  pose proof (stage_ok s w' data d Hp) as Hout. inversion Hout as [c d1 data' Hp1 Hdata Hc Hq Heq|c rest d1 data' Hdata Hc Htr Hsz Ht1 Hct1 Hst1 Hin1 Hh1 Hch Hlt Heq|c d1 Hdata Hw' Hc Hq Hl Hdone Heq].
  - set (c' := Chunk.set_id c (D.chunk_num d1)). set (d2 := match Chunk.trailer c' with Some tr => _ | None => _ end).
    pose proof (settled_stop c' d2) as Hstop. pose proof (settled_place c' [] d1 w' data' Hc Hp1) as Hp2. change (settled c' [] d1) with (D.match_decode_result c' [] d2).2 in Hp2.
    destruct (D.match_decode_result c' [] d2) as [stop d3]. cbn [fst snd] in Hstop, Hp2. subst stop.
    destruct Hq as [Hq|(Hq & Htr & ->)].
    + exists (results ++ [c']), d3, (Chunk.data c), data', false. split; [done|]. split; [|split; [done|split; [done|by left]]].
      rewrite Hr. apply (merge_quiet c' [] got); [exact Hq|by right].
    + exists (results ++ [c']), d3, [], [], true. split; [done|]. destruct Hq as [Hd0 Hq]. rewrite Hdata, Hd0. split; [|split; [done|split; [done|by left]]].
      rewrite Hr, app_nil_r. apply merge_closing; [by split|by left].
  - set (c' := Chunk.set_id c (D.chunk_num d1)). change (Chunk.trailer c') with (Chunk.trailer c). rewrite Htr. unfold D.match_decode_result.
    change (Chunk.is_complete c') with (Chunk.is_complete c). rewrite Hc. assert (Hl : D.is_last_chunk d1 = false) by apply Hin1. rewrite Hl.
    set (d2 := D.set_chunk_num d1 _). assert (Hp2 : place d2 (rest ++ w') data') by (by apply chunked_place).
    assert (Hr2 : calm (results ++ [c']) (got ++ Chunk.data c)) by (apply (calm_snoc results got c'); [done|unfold quiet; by change (Chunk.trailer c') with (Chunk.trailer c); rewrite Htr; left|by left]).
    destruct rest as [|b rest].
    + exists (results ++ [c']), d2, (Chunk.data c), data', false. split; [done|]. split; [|split; [done|split; [done|by left]]]. rewrite <- (app_nil_r (results ++ [c'])). apply Hr2.
    + destruct (IH (results ++ [c']) (got ++ Chunk.data c) (b :: rest) data' d2 Hr2 Hp2 ltac:(lia)) as (cs & d' & got' & data'' & fin & -> & Hm & -> & Hfin & Hend).
      exists cs, d', (Chunk.data c ++ got'), data'', fin. split; [done|]. rewrite (assoc_L (++)). split; [done|]. split; [by rewrite <- (assoc_L (++))|done].
  - subst data. set (c' := Chunk.set_id c (D.chunk_num d1)). set (d2 := match Chunk.trailer c' with Some tr => _ | None => _ end).
    pose proof (settled_stop c' d2) as Hstop. assert (Hd3 : done_ (D.match_decode_result c' [] d2).2).
    { unfold D.match_decode_result. change (Chunk.is_complete c') with (Chunk.is_complete c). rewrite Hc.
      assert (Hd2 : done_ d2 ∧ D.is_last_chunk d2 = true) by (unfold d2; destruct (Chunk.trailer c'); [|done]; unfold D.merge_trailer; by destruct (_ || _)).
      destruct Hd2 as [Hd2 ->]. exact Hd2. }
    destruct (D.match_decode_result c' [] d2) as [stop d3]. cbn [fst snd] in Hstop, Hd3. subst stop.
    exists (results ++ [c']), d3, [], [], true. split; [done|]. split; [|split; [done|split; [done|by right]]].
    rewrite Hr, app_nil_r. apply merge_closing; [exact Hq|by right].
Qed.

(** ** [ChunkData] *)

Module K := ChunkData.
Lemma merge_ok s w' data c :
  place (K.decoder c) (s ++ w') data →
  ∃ got d' data' fin, K.merge_chunks s c = (Ok (got, fin), K.set_decoder c d') ∧ data = got ++ data' ∧ (fin = true → data' = []) ∧
    (place d' w' data' ∨ done_ d' ∧ w' = [] ∧ data' = [] ∧ fin = true).
Proof.
  intros Hp. unfold K.merge_chunks, D.decode. destruct (loop_ok (D.decode_fuel s) [] [] s w' data (K.decoder c)) as (cs & d' & got & data' & fin & -> & Hm & H).
  - by intros more.
  - done.
  - unfold D.decode_fuel. lia.
  - cbn [app] in Hm. rewrite Hm. rewrite (bool_decide_true ([] = [])) by done. rewrite andb_false_r. by exists got, d', data', fin.
Qed.
Lemma merge_done c : done_ (K.decoder c) → ∃ d', K.merge_chunks [] c = (Ok ([], false), K.set_decoder c d') ∧ done_ d'.
Proof.
  intros Hd. unfold K.merge_chunks. destruct (K.decoder c) as [cn ts rs hc tr cr cf nf il ict it itc st]. unfold done_ in Hd. cbn in Hd. destruct Hd as [-> | ->].
  - exists (D.mk cn ts rs hc tr cr cf nf il ict it itc Stage.Size). split; [|by left].
    assert (Hdec : D.decode [] (D.mk cn ts rs hc tr cr cf nf il ict it itc Stage.Size) =
      Some (Ok ([Chunk.mk cn ChunkState.MetaSize ts [] None], []), D.mk cn ts rs hc tr cr cf nf il ict it itc Stage.Size)) by (by destruct ict).
    rewrite Hdec. cbn. by rewrite andb_false_r.
  - destruct ict; eexists; (split; [vm_compute; reflexivity|by right]).
Qed.

(** The rest of the data is in the bytes that came with the head and in the transport, which
    is held for as long. *)
Definition chunk_live (total D : bytes) (c : K.t) : Prop :=
  K.interceptors c = None ∧ ∃ data, total = D ++ data ∧
  match K.io c with
  | Held s => sending s ∧ place (K.decoder c) (pre_data (K.pre c) ++ script_data (script s)) data
  | Released => data = [] ∧ ((∃ w, place (K.decoder c) (pre_data (K.pre c) ++ w) []) ∨ done_ (K.decoder c) ∧ pre_data (K.pre c) = [])
  | ShutDown => False
  end.
Definition pre_size (c : K.t) : nat := match K.pre c with Some p => S (length p) | None => 0 end.
(** A piece of what came with the head is decoded. *)
Lemma piece_ok total D c s p' :
  chunk_live total D c → pre_data (K.pre c) = s ++ pre_data p' →
  ∃ got fin d', K.merge_chunks s (K.set_pre c p') = (Ok (got, fin), K.set_decoder (K.set_pre c p') d') ∧
    chunk_live total (D ++ got) (if fin then K.set_io (K.set_decoder (K.set_pre c p') d') (match K.io c with Held _ => Released | x => x end) else K.set_decoder (K.set_pre c p') d').
Proof.
  intros (Hi & data & Htot & Hio) Hs. rewrite Hs in Hio. set (c1 := K.set_pre c p').
  destruct (K.io c) as [st| |] eqn:Hc; [| |done].
  - destruct Hio as [Hsend Hp]. rewrite <- (assoc_L (++)) in Hp. destruct (merge_ok s _ data c1 Hp) as (got & d' & data' & fin & Hm & -> & Hfin & Hend).
    exists got, fin, d'. split; [done|]. split; [by destruct fin|]. exists data'. split; [by rewrite Htot, (assoc_L (++))|]. destruct fin; cbn [K.io K.set_io K.set_decoder K.decoder K.pre K.set_pre c1].
    + rewrite (Hfin eq_refl) in *. split; [done|]. destruct Hend as [Hend|(Hd & Hw & _)]; [left; by exists (script_data (script st))|right]. by apply app_eq_nil in Hw as [Hw _].
    + rewrite Hc. split; [done|]. by destruct Hend as [Hend|(_ & _ & _ & ?)].
  - destruct Hio as [-> [[w Hp]|[Hd Hnil]]].
    + rewrite <- (assoc_L (++)) in Hp. destruct (merge_ok s _ [] c1 Hp) as (got & d' & data' & fin & Hm & Hnil & Hfin & Hend).
      symmetry in Hnil. apply app_eq_nil in Hnil as [-> ->]. exists [], fin, d'. split; [done|]. split; [by destruct fin|]. exists []. split; [by rewrite Htot, !app_nil_r|].
      destruct fin; cbn [K.io K.set_io K.set_decoder K.decoder K.pre K.set_pre c1]; rewrite ?Hc; (split; [done|]);
        (destruct Hend as [Hend|(Hd & Hw & _)]; [left; by exists w|right]; by apply app_eq_nil in Hw as [Hw _]).
    + apply app_eq_nil in Hnil as [-> Hp']. destruct (merge_done c1 Hd) as (d' & Hm & Hd'). exists [], false, d'. split; [done|]. split; [done|]. exists [].
      split; [by rewrite Htot, !app_nil_r|]. cbn [K.io K.set_decoder K.decoder K.pre K.set_pre c1]. rewrite Hc. split; [done|]. by right.
Qed.
(** What an answer leaves: an empty one ends the body. *)
Definition chunk_answer (total D : bytes) (e : nat) (x : answer * K.t) : Prop :=
  match x with
  | (Pending, c) => chunk_live total D c ∧ (events (K.io c) < e)%nat
  | (Ready (Ok got), c) => chunk_live total (D ++ got) c ∧ (events (K.io c) ≤ e)%nat ∧ (got = [] → K.io c = Released)
  | _ => False
  end.
Lemma pre_loop_ok fuel cap total D c :
  0 < cap → chunk_live total D c → (pre_size c < fuel)%nat →
  match K.pre_loop fuel cap c with
  | (Some a, c') => chunk_answer total D (events (K.io c)) (a, c')
  | (None, c') => chunk_live total D c' ∧ K.pre c' = None ∧ K.io c' = K.io c
  end.
Proof.
  intros Hcap. revert c. induction fuel as [|fuel IH]; intros c Hl Hf; [lia|]. cbn [K.pre_loop]. unfold pre_size in Hf. destruct (K.pre c) as [p|] eqn:Hp; [|done].
  unfold read_pre. remember (upto cap p) as s eqn:Hsu. set (p' := match s with [] => None | _ => Some (from cap p) end).
  assert (Hs : p = s ++ pre_data p').
  { unfold p'. destruct s as [|b l]; [|cbn [pre_data default]; rewrite Hsu; symmetry; apply upto_from]. apply (f_equal len) in Hsu. rewrite len_upto in Hsu by lia.
    change (len []) with 0 in Hsu. pose proof (len_nonneg p). apply len_0_nil. lia. }
  destruct (piece_ok total D c s p' Hl ltac:(by rewrite Hp)) as (got & fin & d' & Hm & Hlive). fold p'. rewrite Hm.
  destruct fin.
  - change (K.io (K.set_decoder (K.set_pre c p') d')) with (K.io c).
    assert (Hans : chunk_answer total D (events (K.io c)) (Ready (Ok got), K.set_io (K.set_decoder (K.set_pre c p') d') (match K.io c with Held _ => Released | x => x end))).
    { split; [done|]. destruct Hl as (_ & data & _ & Hio). destruct (K.io c) as [st| |]; cbn; [split; [lia|done]|done|done]. }
    by destruct got.
  - destruct got as [|b got]; [|split; [done|split; [cbn; lia|done]]]. rewrite app_nil_r in Hlive. apply (IH _ Hlive).
    unfold pre_size. cbn [K.pre K.set_decoder K.set_pre]. unfold p' in *. destruct s as [|b l]; [lia|]. apply (f_equal length) in Hs. rewrite length_app in Hs. simpl in Hs. lia.
Qed.
Definition weight (s : StreamData.t) : nat := sum_list ((λ ev, S (match ev with IoReady b _ => length b | _ => 0%nat end)) <$> script s).
Lemma poll_read_weight n s : 0 < n → match poll_read n s with (ReadFilled (_ :: _), s') => (weight s' < weight s)%nat | _ => True end.
Proof.
  intros Hn. unfold poll_read, weight. destruct (script s) as [|[|d c|] l]; [done..| |done]. destruct (Z.leb_spec (len d) n) as [Hle|Hgt].
  - destruct d; [done|]. cbn [script set_script]. rewrite !fmap_cons. cbn [sum_list length]. unfold id. lia.
  - destruct (upto n d) as [|b u] eqn:Hu; [done|]. pose proof (upto_from n d) as Hd. apply (f_equal length) in Hd. rewrite length_app, Hu in Hd. cbn [script set_script]. rewrite !fmap_cons. cbn [sum_list length] in *. unfold id. lia.
Qed.
Lemma io_loop_ok fuel cap total D c :
  0 < cap → chunk_live total D c → K.pre c = None → (match K.io c with Held s => weight s | _ => 0 end < fuel)%nat →
  chunk_answer total D (events (K.io c)) (K.io_loop fuel cap c).
Proof.
  intros Hcap. revert c. induction fuel as [|fuel IH]; intros c Hl Hpre Hf; [lia|]. cbn [K.io_loop].
  destruct (K.io c) as [s| |] eqn:Hc; [|by split; [rewrite app_nil_r|split; [rewrite Hc|]]|by destruct Hl as (_ & ? & _ & Hio); rewrite Hc in Hio].
  destruct Hl as (Hi & data & Htot & Hio). rewrite Hc, Hpre in Hio. destruct Hio as [Hsend Hp]. cbn [pre_data default app] in Hp.
  assert (Hne : script_data (script s) ≠ []) by (by eapply place_more).
  pose proof (poll_read_ok cap s Hcap) as [Hok _]. pose proof (poll_read_live cap s Hcap Hsend Hne) as Hlive. pose proof (poll_read_weight cap s Hcap) as Hwt.
  destruct (poll_read cap s) as [[|filled|] s']; [| |done].
  { split; [|by destruct Hlive]. split; [done|]. exists data. split; [done|]. cbn [K.io K.set_io]. split; [by destruct Hlive|]. cbn [K.pre K.set_io K.decoder]. by rewrite Hpre, <- Hok. }
  destruct Hlive as (Hfne & Hsend' & Hev). destruct filled as [|b filled]; [done|]. destruct Hok as [_ Hok]. rewrite Hok in Hp.
  destruct (merge_ok (b :: filled) _ data c Hp) as (got & d' & data' & fin & -> & -> & Hfin & Hend). set (c' := K.set_decoder c d').
  change (K.interceptors c') with (K.interceptors c). rewrite Hi. cbn [intercepted]. destruct fin.
  - split; [|split; [cbn; lia|done]]. split; [done|]. exists data'. split; [by rewrite Htot, (assoc_L (++))|]. cbn [K.io K.set_io]. split; [by apply Hfin|]. cbn [K.pre K.decoder K.set_io K.set_decoder c'].
    rewrite Hpre, (Hfin eq_refl) in *. destruct Hend as [Hend|[Hd _]]; [left; by exists (script_data (script s'))|by right].
  - destruct Hend as [Hend|(_ & _ & _ & ?)]; [|done].
    assert (Hl' : chunk_live total (D ++ got) (K.set_io c' (Held s'))).
    { split; [done|]. exists data'. split; [by rewrite Htot, (assoc_L (++))|]. cbn [K.io K.set_io]. split; [done|]. cbn [K.pre K.decoder K.set_io K.set_decoder c']. by rewrite Hpre. }
    destruct got as [|x got]; [|split; [done|split; [cbn; lia|done]]]. rewrite app_nil_r in Hl'.
    pose proof (IH (K.set_io c' (Held s')) Hl' Hpre ltac:(cbn [K.io K.set_io]; lia)) as Ha. cbn [K.io K.set_io events] in Ha.
    destruct (K.io_loop fuel cap _) as [[|[g|e|]] c2]; [|..|done]; [| |done].
    + destruct Ha. split; [done|]. cbn [events]. lia.
    + destruct Ha as (? & ? & ?). split; [done|]. cbn [events]. split; [lia|done].
Qed.
Lemma chunk_data_ok cap total D c : 0 < cap → chunk_live total D c → chunk_answer total D (events (K.io c)) (K.data cap c).
Proof.
  intros Hcap Hl. unfold K.data. destruct (Z.eqb_spec cap 0); [lia|].
  pose proof (pre_loop_ok (K.pre_fuel c) cap total D c Hcap Hl ltac:(unfold pre_size, K.pre_fuel; destruct (K.pre c); lia)) as Hp.
  destruct (K.pre_loop (K.pre_fuel c) cap c) as [[a|] c']; [done|]. destruct Hp as (Hl' & Hpre & Hio). rewrite <- Hio.
  apply io_loop_ok; [done..|]. unfold K.io_fuel. fold (weight). destruct (K.io c') as [s| |]; [|lia..]. unfold weight. lia.
Qed.

Lemma chunk_run_live total polls D c :
  Forall (λ p, 0 < p.1 ∧ p.2 = false) polls → chunk_live total D c → len total - len D + Z.of_nat (events (K.io c)) < len polls →
  ∃ c', run polls D (HttpBody.KChunk c) = (total, Ended, HttpBody.KChunk c') ∧ K.io c' = Released.
Proof.
  intros Hpolls. revert D c. induction Hpolls as [|[cap expired] polls [Hcap Hexp] _ IH]; intros D c Hl Hlen.
  { destruct Hl as (_ & data & -> & _). change (len []) with 0 in Hlen. rewrite len_app in Hlen. pose proof (len_nonneg data). lia. }
  cbn [fst snd] in Hcap, Hexp. subst expired. cbn [run]. unfold HttpBody.poll_data. destruct (Z.eqb_spec cap 0); [lia|]. rewrite (proj2 (Z.ltb_lt 0 cap)) by lia.
  pose proof (chunk_data_ok cap total D c Hcap Hl) as Ha. rewrite len_cons in Hlen. destruct (K.data cap c) as [[|[got|e|]] c']; [| |done..].
  - destruct Ha as [Hl' Hev]. apply IH; [done|lia].
  - destruct Ha as (Hl' & Hev & Hnil). cbn [andb]. case_bool_decide as Hg.
    + subst got. exists c'. specialize (Hnil eq_refl). rewrite app_nil_r in Hl'. destruct Hl' as (_ & data & -> & Hio). rewrite Hnil in Hio. destruct Hio as [-> _]. by rewrite app_nil_r.
    + apply IH; [done|]. rewrite len_app. destruct got as [|x got]; [done|]. rewrite len_cons. pose proof (len_nonneg got). lia.
Qed.

(** A chunked body gets through: a transport that sends it, in any pieces and with any
    pauses, is read to the end; what is delivered is the data of the chunks, and the end is
    reported after at most one poll for every byte of data and every answer of the
    transport, whatever the sizes of the buffers. *)
Theorem chunked_delivered pre io data polls :
  chunked (pre ++ script_data (script io)) data → sending io →
  Forall (λ p, 0 < p.1 ∧ p.2 = false) polls → (length data + length (script io) < length polls)%nat →
  match HttpBody.new None BChunk io pre with
  | (Ok k, _) => ∃ k', run polls [] k = (data, Ended, k') ∧ HttpBody.drop k' = Released
  | _ => False
  end.
Proof.
  intros Hw Hs Hp Hlen. cbn [HttpBody.new]. set (io' := set_transport_phase _ _). set (c := K.new pre io' None).
  assert (Hpre : pre_data (K.pre c) = pre) by (by destruct pre).
  destruct (chunk_run_live data polls [] c Hp) as (c' & -> & Hc').
  - split; [done|]. exists data. split; [done|]. change (K.io c) with (Held io'). split; [exact Hs|]. rewrite Hpre. by apply chunked_place.
  - change (len []) with 0. unfold len. change (events (K.io c)) with (length (script io)). lia.
  - exists (HttpBody.KChunk c'). split; [done|]. unfold HttpBody.drop. cbn [HttpBody.conn_of]. by rewrite Hc'.
Qed.

(** The end is taken for reached within the line ends of the last chunk, when a segment ends
    behind its [0] and the next one behind its first line end: the connection is given back
    with the rest of the body unread, in front of the next response. *)
Definition split_io : StreamData.t :=
  StreamData.mk [IoReady (str "3" ++ CRLF ++ str "abc" ++ CRLF ++ str "0") true; IoReady CRLF true; IoReady CRLF true] true VHttp1 DirectHttp PhConnect.
Lemma released_with_rest :
  match K.data 64 (K.new [] split_io None) with
  | (Ready (Ok got), c) =>
      got = str "abc" ∧
      match K.data 64 c with
      | (Ready (Ok []), c') => K.io c' = Released ∧ D.stage (K.decoder c') = Stage.Data ∧ D.is_last_chunk (K.decoder c') = true
      | _ => False
      end
  | _ => False
  end.
Proof. by vm_compute. Qed.
