(* ===== verification/H1Conn.v ===== *)
(** One exchange over an HTTP/1 connection
    ([ylong_http_client/src/async_impl/conn/http1.rs]): the head and the body of the
    request are encoded and written, the head of the response is read and decoded, and the
    body of the response is handed out with the connection.

    The transport is the script of what its reads and its writes give.  An [await] that is
    pending goes on with the next answer of the script; at the end of the script the
    exchange waits.  The interceptors, which the application supplies, are an argument.
    The controls of the speed of a connection, which delay and time out, are not in the
    model. *)
From S2P Require Import Prelude Buffers PullEncoder Headers ChunkDecoder Uri Message H1Request H1Response TextBody HttpBody Normalizer Redirect HttpBodySafety ChunkDelivery.

(** * The transport *)

Inductive write_event := WPending | WReady (n : Z) | WError.
Inductive flush_event := FPending | FReady | FError.
Module Raw.
Record t := mk {
  input : StreamData.t;
  writes : list write_event;
  flushes : list flush_event;
  output : bytes;              (* what the peer was sent *)
  is_proxy : bool;
  proxy_auth : option bytes;
  shutdown : bool;             (* [Http1Conn::shutdown] was called: not for another request *)
}.
Definition set_output (r : t) (w : list write_event) (o : bytes) : t := mk (input r) w (flushes r) o (is_proxy r) (proxy_auth r) (shutdown r).
Definition set_flushes (r : t) (f : list flush_event) : t := mk (input r) (writes r) f (output r) (is_proxy r) (proxy_auth r) (shutdown r).
Definition set_input (r : t) (s : StreamData.t) : t := mk s (writes r) (flushes r) (output r) (is_proxy r) (proxy_auth r) (shutdown r).
Definition shut (r : t) (b : bool) : t := mk (input r) (writes r) (flushes r) (output r) (is_proxy r) (proxy_auth r) (shutdown r || b).
End Raw.

(** [InterceptorContext]: what it says to the request, and to the bytes that go out and come
    in; it is shown them and does not change them. *)
Module Interceptors.
Record t := mk { intercept_request : RequestPart.t → bool; intercept_input : interceptor; intercept_output : interceptor }.
Definition none : t := mk (λ _, true) None None.
End Interceptors.

Inductive h1_error := WriteFailed | FlushFailed | Intercepted | EncodeFailed | BodyFailed | TcpClosed | ReadFailed | DecodeFailed (e : H1Error)
                    | LengthFailed (e : client_error) | BodyRefused (e : body_error).
(** [Starved] is the end of the fuel, not of the code. *)
Inductive io (A : Type) := Waits | Starved | Finished (r : res h1_error A).
Arguments Waits {A}.
Arguments Starved {A}.
Arguments Finished {A} r.

Definition TEMP_BUF_SIZE : Z := 16 * 1024.

(** * Writing *)

(** [write_all] of the runtime: all of the buffer, or an error. *)
Fixpoint write_all (evs : list write_event) (buf out : bytes) : io () * list write_event * bytes :=
  match buf, evs with
  | [], _ => (Finished (Ok ()), evs, out)
  | _, [] => (Waits, [], out)
  | _, WPending :: evs => write_all evs buf out
  | _, WError :: evs => (Finished (Err WriteFailed), evs, out)
  | _, WReady n :: evs => if n <=? 0 then (Finished (Err WriteFailed), evs, out) else write_all evs (from n buf) (out ++ upto n buf)
  end.
(** The inner [loop] of [encode_body]. *)
Fixpoint write_loop (evs : list write_event) (buf out : bytes) : io () * list write_event * bytes :=
  match evs with
  | [] => (Waits, [], out)
  | WPending :: evs => write_loop evs buf out
  | WError :: evs => (Finished (Err WriteFailed), evs, out)
  | WReady n :: evs =>
      let out := out ++ upto n buf in
      match from n buf with [] => (Finished (Ok ()), evs, out) | buf => write_loop evs buf out end
  end.

(** [flush().await]. *)
Fixpoint flush (evs : list flush_event) : io () * list flush_event :=
  match evs with
  | [] => (Waits, [])
  | FPending :: evs => flush evs
  | FReady :: evs => (Finished (Ok ()), evs)
  | FError :: evs => (Finished (Err FlushFailed), evs)
  end.

(** The [loop] of [encode_request_part]. *)
Fixpoint head_loop (i : interceptor) (fuel : nat) (e : RequestEncoder.t) (evs : list write_event) (out : bytes) : io () * list write_event * bytes :=
  match fuel with
  | O => (Starved, evs, out)
  | S fuel =>
      match RequestEncoder.encode TEMP_BUF_SIZE e with
      | (Ok [], _) => (Finished (Ok ()), evs, out)
      | (Ok written, e) =>
          if intercepted i written then
            match write_all evs written out with
            | (Finished (Ok _), evs, out) => head_loop i fuel e evs out
            | x => x
            end
          else (Finished (Err Intercepted), evs, out)
      | (Err _, _) => (Finished (Err EncodeFailed), evs, out)
      | (Panic, _) => (Finished Panic, evs, out)
      end
  end.
#[global] Instance protocol_eq_dec : EqDecision Protocol.
Proof. solve_decision. Defined.
(** [part.headers.insert("Proxy-Authorization", ..)] of a plain request through a proxy. *)
Definition through_proxy (part : RequestPart.t) (raw : Raw.t) : bool :=
  Raw.is_proxy raw && bool_decide (Scheme.proto <$> Uri.scheme (RequestPart.uri part) = Some Http).
Definition with_proxy_auth (part : RequestPart.t) (raw : Raw.t) : RequestPart.t :=
  if through_proxy part raw then
    match Raw.proxy_auth raw with
    | Some auth =>
        RequestPart.mk (RequestPart.uri part) (RequestPart.method part) (RequestPart.version part)
          (try_insert (RequestPart.headers part) (str "Proxy-Authorization") (str "Basic " ++ auth))
    | None => part
    end
  else part.
Definition encode_request_part (into_iter : Headers.t → list (bytes * HeaderValue.t)) (i : interceptor) (fuel : nat) (part : RequestPart.t) (raw : Raw.t) :
    io () * Raw.t :=
  match RequestEncoder.new into_iter (with_proxy_auth part raw) with
  | Ok e =>
      let '(r, evs, out) := head_loop i fuel (RequestEncoder.absolute_uri e (through_proxy part raw)) (Raw.writes raw) (Raw.output raw) in
      (r, Raw.set_output raw evs out)
  | Err _ => (Finished (Err EncodeFailed), raw)
  | Panic => (Finished Panic, raw)
  end.

Inductive RequestBodyEncoding := EncNone | EncText | EncChunk.
Definition request_body_encoding (part : RequestPart.t) (body_is_empty : bool) : RequestBodyEncoding :=
  if match Headers.get_lowercase (RequestPart.headers part) (str "transfer-encoding") with
     | Some v => header_value_contains v (str "chunked")
     | None => false
     end then EncChunk
  else if body_is_empty then EncNone
  else EncText.

Section Body.
Context {B E : Type} (data : Z → M B E bytes).
(** The [while] loop of [encode_body]; [buf] is what is in the buffer. *)
Fixpoint encode_body (fuel : nat) (buf : bytes) (b : B) (evs : list write_event) (out : bytes) : io () * list write_event * bytes :=
  match fuel with
  | O => (Starved, evs, out)
  | S fuel =>
      let read :=
        if len buf <? TEMP_BUF_SIZE then
          match data (TEMP_BUF_SIZE - len buf) b with
          | (Ok [], b) => Ok (buf, true, b)
          | (Ok d, b) => Ok (buf ++ d, false, b)
          | (Err _, b) => Err BodyFailed
          | (Panic, b) => Panic
          end
        else Ok (buf, false, b) in
      match read with
      | Ok (buf, end_body, b) =>
          if (len buf =? TEMP_BUF_SIZE) || end_body then
            match write_loop evs buf out with
            | (Finished (Ok _), evs, out) => if end_body : bool then (Finished (Ok ()), evs, out) else encode_body fuel [] b evs out
            | x => x
            end
          else encode_body fuel buf b evs out
      | Err e => (Finished (Err e), evs, out)
      | Panic => (Finished Panic, evs, out)
      end
  end.
End Body.

(** * Reading *)

(** The [loop] around the decoder, with [read_status_line].  A read that is pending is
    tried again while the script of the transport has something. *)
Fixpoint read_head (i : interceptor) (fuel : nat) (d : ResponseDecoder.t) (s : StreamData.t) : io (ResponsePart.t * bytes) * StreamData.t :=
  match fuel with
  | O => (Starved, s)
  | S fuel =>
      match StreamData.poll_read TEMP_BUF_SIZE s with
      | (StreamData.ReadPending, s') =>
          match StreamData.script s with [] => (Waits, s') | _ => read_head i fuel d s' end
      | (StreamData.ReadFilled [], s) => (Finished (Err TcpClosed), s)
      | (StreamData.ReadFilled data, s) =>
          if intercepted i data then
            match ResponseDecoder.decode data d with
            | (Ok None, d) => read_head i fuel d s
            | (Ok (Some (part, rest)), _) => (Finished (Ok (part, rest)), s)
            | (Err e, _) => (Finished (Err (DecodeFailed e)), s)
            | (Panic, _) => (Finished Panic, s)
            end
          else (Finished (Err Intercepted), s)
      | (StreamData.ReadError, s) => (Finished (Err ReadFailed), s)
      end
  end.

(** Whether [decode_response] shuts the connection down, which then is not used again once
    the body has been read. *)
Definition closes (part : ResponsePart.t) : bool :=
  match Headers.get_lowercase (ResponsePart.headers part) (str "connection") with
  | None => bool_decide (ResponsePart.version part = Version.Http10)
  | Some value =>
      if bool_decide (ResponsePart.version part = Version.Http10) then negb (header_value_contains value (str "keep-alive"))
      else header_value_contains value (str "close")
  end.
Record response := mk_response { part : ResponsePart.t; body : HttpBody.Kind }.
Definition decode_response (i : interceptor) (method : Method.t) (part : ResponsePart.t) (pre : bytes) (raw : Raw.t) : io response * Raw.t :=
  let raw := Raw.shut raw (closes part) in
  match BodyLengthParser.parse method part with
  | Ok length =>
      match HttpBody.new i length (Raw.input raw) pre with
      | (Ok body, _) => (Finished (Ok (mk_response part body)), raw)
      | (Err e, c) => (Finished (Err (BodyRefused e)), Raw.shut raw (match c with ShutDown => true | _ => false end))
      | (Panic, _) => (Finished Panic, raw)
      end
  | Err e => (Finished (Err (LengthFailed e)), Raw.shut raw true)
  | Panic => (Finished Panic, raw)
  end.

(** * The exchange *)

(** The next step of [request] behind a [?]. *)
Definition and_then {A C} (x : io A * Raw.t) (k : A → Raw.t → io C * Raw.t) : io C * Raw.t :=
  match x with
  | (Finished (Ok a), raw) => k a raw
  | (Finished (Err e), raw) => (Finished (Err e), raw)
  | (Finished Panic, raw) => (Finished Panic, raw)
  | (Waits, raw) => (Waits, raw)
  | (Starved, raw) => (Starved, raw)
  end.
(** The [CancelGuard]: whatever ends the exchange before the head of the response is read
    shuts the connection down. *)
Definition guarded {A} (x : io A * Raw.t) : io A * Raw.t :=
  match x with
  | (Finished (Ok a), raw) => (Finished (Ok a), raw)
  | (Finished r, raw) => (Finished r, Raw.shut raw true)
  | x => x
  end.
Definition receive (i : interceptor) (fuel : nat) (method : Method.t) (raw : Raw.t) : io response * Raw.t :=
  let '(r, s) := read_head i fuel ResponseDecoder.new (Raw.input raw) in
  and_then (guarded (r, Raw.set_input raw s)) (λ '(part, pre) raw, decode_response i method part pre raw).

Section Request.
(** The body of a request: [ChunkBody::from_async_reader] and [TextBody::from_async_reader]
    make of it a body that is written in chunks or as it is. *)
Context {R BC EC BT ET : Type} (is_empty : R → bool).
Context (chunk_data : Z → M BC EC bytes) (from_chunk : R → BC) (text_data : Z → M BT ET bytes) (from_text : R → BT).
Context (into_iter : Headers.t → list (bytes * HeaderValue.t)).
Definition send_body {B E} (data : Z → M B E bytes) (fuel : nat) (b : B) (raw : Raw.t) : io () * Raw.t :=
  let '(r, evs, out) := encode_body data fuel [] b (Raw.writes raw) (Raw.output raw) in (r, Raw.set_output raw evs out).
Definition encode_various_body (fuel : nat) (part : RequestPart.t) (body : R) (raw : Raw.t) : io () * Raw.t :=
  match request_body_encoding part (is_empty body) with
  | EncNone => (Finished (Ok ()), raw)
  | EncChunk => send_body chunk_data fuel (from_chunk body) raw
  | EncText => send_body text_data fuel (from_text body) raw
  end.
Definition flush_raw (raw : Raw.t) : io () * Raw.t := let '(r, evs) := flush (Raw.flushes raw) in (r, Raw.set_flushes raw evs).
Definition request (i : Interceptors.t) (fuel : nat) (part : RequestPart.t) (body : R) (raw : Raw.t) : io response * Raw.t :=
  if Interceptors.intercept_request i part then
    and_then
      (guarded
        (and_then (encode_request_part into_iter (Interceptors.intercept_input i) fuel part raw) (λ _ raw,
         and_then (encode_various_body fuel part body raw) (λ _ raw, flush_raw raw))))
      (λ _ raw, receive (Interceptors.intercept_output i) fuel (RequestPart.method part) raw)
  else (Finished (Err Intercepted), raw).
End Request.

(** * What is sent *)

(** A body that gives its content piece by piece; an empty piece is its end. *)
Class BodySource {B E : Type} (data : Z → M B E bytes) := {
  content : B → bytes;
  source_ok : B → Prop;
  source_law : ∀ n b, source_ok b → 0 < n →
    ∃ d b', data n b = (Ok d, b') ∧ content b = d ++ content b' ∧ len d ≤ n ∧ (d = [] → content b = []) ∧ source_ok b';
}.
#[export] Program Instance pull_source {B E} (data : Z → M B E bytes) `{!PullEncoder data} : BodySource data :=
  { content := pending; source_ok := pull_ok }.
Next Obligation.
  intros B E data P n b Hb Hn. destruct (pull_law n b Hb Hn) as (b' & Hd & Hb' & Hp). exists (upto n (pending b)), b'.
  split; [done|]. rewrite Hp, upto_from. split; [done|]. split; [rewrite len_upto by lia; lia|]. split; [|done].
  intros Hu. apply len_0_nil. apply (f_equal len) in Hu. rewrite len_upto in Hu by lia. pose proof (len_nonneg (pending b)). change (len []) with 0 in Hu. lia.
Qed.

(** Of [msg], all was put behind [out] when the outcome is a success, and a beginning of
    it otherwise. *)
Definition wrote {A} (out msg : bytes) (r : io A) (out' : bytes) : Prop :=
  match r with
  | Finished (Ok _) => out' = out ++ msg
  | Finished Panic => False
  | _ => ∃ rest, out' ++ rest = out ++ msg
  end.
Lemma wrote_more {A} out a msg (r : io A) out' : wrote (out ++ a) msg r out' → wrote out (a ++ msg) r out'.
Proof. unfold wrote. by rewrite <- (assoc_L (++)). Qed.
Lemma write_all_wrote evs buf out : let '(r, _, out') := write_all evs buf out in wrote out buf r out'.
Proof.
  revert buf out. induction evs as [|[|n|] evs IH]; intros buf out; destruct buf as [|b buf]; simpl; try (by rewrite app_nil_r); try (by eexists).
  - apply IH.
  - destruct (n <=? 0); [by eexists|]. specialize (IH (from n (b :: buf)) (out ++ upto n (b :: buf))).
    destruct (write_all _ _ _) as [[r evs'] out']. apply wrote_more in IH. by rewrite upto_from in IH.
Qed.
Lemma write_loop_wrote evs buf out : let '(r, _, out') := write_loop evs buf out in wrote out buf r out'.
Proof.
  revert buf out. induction evs as [|[|n|] evs IH]; intros buf out; simpl; [by eexists|apply IH| |by eexists].
  pose proof (upto_from n buf) as Hu. destruct (from n buf) as [|x l] eqn:Hf.
  - simpl. by rewrite app_nil_r in Hu; rewrite Hu.
  - specialize (IH (x :: l) (out ++ upto n buf)). destruct (write_loop _ _ _) as [[r evs'] out']. apply wrote_more in IH. by rewrite Hu in IH.
Qed.
Lemma wrote_fails {A B} out msg more (r : io A) (r' : io B) out' :
  wrote out msg r out' → (∀ x, r ≠ Finished (Ok x)) → (∀ x, r' ≠ Finished (Ok x)) → r' ≠ Finished Panic → wrote out (msg ++ more) r' out'.
Proof.
  intros Hw Hr Hr' Hp. assert (Hex : ∃ rest, out' ++ rest = out ++ msg ++ more).
  { destruct r as [| |[x|e|]]; [..|by destruct (Hr x)| |done]; destruct Hw as [rest Hw]; exists (rest ++ more); by rewrite !(assoc_L (++)), Hw. }
  by destruct r' as [| |[x|e|]]; [..|destruct (Hr' x)| |].
Qed.
Lemma head_loop_wrote i fuel e evs out :
  pull_ok (encode := RequestEncoder.encode) e →
  let '(r, _, out') := head_loop i fuel e evs out in wrote out (pending (encode := RequestEncoder.encode) e) r out'.
Proof.
  revert e evs out. induction fuel as [|fuel IH]; intros e evs out He; [by eexists|]. cbn [head_loop].
  destruct (pull_law TEMP_BUF_SIZE e He ltac:(done)) as (e' & -> & He' & Hp). set (p := pending e) in *. pose proof (upto_from TEMP_BUF_SIZE p) as Hu.
  destruct (upto TEMP_BUF_SIZE p) as [|b w] eqn:Hw.
  - simpl. assert (p = []) as ->; [|by rewrite app_nil_r]. apply len_0_nil. apply (f_equal len) in Hw. rewrite len_upto in Hw by done.
    pose proof (len_nonneg p). change (len []) with 0 in Hw. unfold TEMP_BUF_SIZE in Hw. lia.
  - destruct (intercepted i (b :: w)); [|by eexists]. pose proof (write_all_wrote evs (b :: w) out) as Hwr. destruct (write_all evs (b :: w) out) as [[r evs'] out'].
    destruct r as [| |[x|er|]]; [..|done].
    1, 2, 4: rewrite <- Hu; by eapply wrote_fails.
    simpl in Hwr. subst out'. specialize (IH e' evs' (out ++ b :: w) He'). destruct (head_loop i fuel e' evs' _) as [[r' evs''] out''].
    apply wrote_more in IH. by rewrite Hp, Hu in IH.
Qed.

Section Sent.
Context {B E : Type} (data : Z → M B E bytes) `{!BodySource data}.
Lemma encode_body_wrote fuel buf b evs out :
  source_ok b → len buf ≤ TEMP_BUF_SIZE →
  let '(r, _, out') := encode_body data fuel buf b evs out in wrote out (buf ++ content b) r out'.
Proof.
  revert buf b evs out. induction fuel as [|fuel IH]; intros buf b evs out Hb Hlen; [by eexists|]. cbn [encode_body].
  assert (Hread : ∃ buf' (end_body : bool) b', (if len buf <? TEMP_BUF_SIZE then
      match data (TEMP_BUF_SIZE - len buf) b with
      | (Ok [], b) => Ok (buf, true, b) | (Ok d, b) => Ok (buf ++ d, false, b) | (Err _, b) => Err BodyFailed | (Panic, b) => Panic end
      else Ok (buf, false, b)) = Ok (E := h1_error) (buf', end_body, b') ∧
    buf' ++ content b' = buf ++ content b ∧ source_ok b' ∧ len buf' ≤ TEMP_BUF_SIZE ∧ (end_body = true → content b' = [])).
  { destruct (Z.ltb_spec (len buf) TEMP_BUF_SIZE) as [Hlt|Hge]; [|by exists buf, false, b].
    destruct (source_law (TEMP_BUF_SIZE - len buf) b Hb ltac:(lia)) as (d & b' & -> & Hc & Hd & Hnil & Hb').
    destruct d as [|x d].
    - exists buf, true, b'. simpl in Hc. by rewrite <- Hc, Hnil.
    - exists (buf ++ x :: d), false, b'. rewrite Hc, len_app. split; [done|]. split; [by rewrite <- (assoc_L (++))|]. split; [done|]. split; [lia|done]. }
  destruct Hread as (buf' & end_body & b' & -> & Hc & Hb' & Hl & Hend). rewrite <- Hc.
  destruct (_ || end_body).
  - pose proof (write_loop_wrote evs buf' out) as Hw. destruct (write_loop evs buf' out) as [[r evs'] out'].
    destruct r as [| |[x|er|]]; [..|done].
    1, 2, 4: by eapply wrote_fails.
    simpl in Hw. subst out'. destruct end_body; [simpl; by rewrite (Hend eq_refl), app_nil_r|].
    specialize (IH [] b' evs' (out ++ buf') Hb' ltac:(by vm_compute)). destruct (encode_body data fuel [] b' evs' _) as [[r' evs''] out'']. by apply wrote_more in IH.
  - by apply IH.
Qed.

Lemma send_body_wrote fuel b raw :
  source_ok b →
  let '(r, raw') := send_body data fuel b raw in wrote (Raw.output raw) (content b) r (Raw.output raw').
Proof.
  intros Hb. unfold send_body.
  pose proof (encode_body_wrote fuel [] b (Raw.writes raw) (Raw.output raw) Hb ltac:(by vm_compute)) as Hw.
  by destruct (encode_body data fuel [] b _ _) as [[r evs] out].
Qed.
End Sent.

Lemma wrote_then {A C} out a b (x : io A * Raw.t) (k : A → Raw.t → io C * Raw.t) :
  wrote out a x.1 (Raw.output x.2) → (∀ y raw, Raw.output raw = out ++ a → wrote (Raw.output raw) b (k y raw).1 (Raw.output (k y raw).2)) →
  wrote out (a ++ b) (and_then x k).1 (Raw.output (and_then x k).2).
Proof.
  intros Hx Hk. destruct x as [[| |[y|e|]] raw]; simpl in Hx; [..|done].
  1, 2, 4: cbn [and_then fst snd]; destruct Hx as [rest Hx]; exists (rest ++ b); by rewrite !(assoc_L (++)), Hx.
  specialize (Hk y raw Hx). apply wrote_more. by rewrite Hx in Hk.
Qed.
Lemma wrote_guarded {A} out a (x : io A * Raw.t) : wrote out a x.1 (Raw.output x.2) → wrote out a (guarded x).1 (Raw.output (guarded x).2).
Proof. by destruct x as [[| |[y|e|]] raw]. Qed.

Section Exchange.
Context {R BC EC BT ET : Type} (is_empty : R → bool).
Context (chunk_data : Z → M BC EC bytes) (from_chunk : R → BC) (text_data : Z → M BT ET bytes) (from_text : R → BT).
Context `{!BodySource chunk_data, !BodySource text_data}.
Context (into_iter : Headers.t → list (bytes * HeaderValue.t)).
(** The bytes of the body of a request, in the coding its head announces. *)
Definition body_bytes (part : RequestPart.t) (body : R) : bytes :=
  match request_body_encoding part (is_empty body) with
  | EncNone => []
  | EncChunk => content (from_chunk body)
  | EncText => content (from_text body)
  end.
Definition body_ok (part : RequestPart.t) (body : R) : Prop :=
  match request_body_encoding part (is_empty body) with
  | EncNone => True
  | EncChunk => source_ok (from_chunk body)
  | EncText => source_ok (from_text body)
  end.
(** The bytes of a request: its head, in the form for a proxy when there is one, and its body. *)
Definition request_bytes (part : RequestPart.t) (body : R) (raw : Raw.t) : bytes :=
  request_message into_iter (through_proxy part raw) (with_proxy_auth part raw) ++ body_bytes part body.

Lemma encode_head_wrote i fuel part raw :
  let x := encode_request_part into_iter i fuel part raw in
  wrote (Raw.output raw) (request_message into_iter (through_proxy part raw) (with_proxy_auth part raw)) x.1 (Raw.output x.2).
Proof.
  unfold encode_request_part.
  destruct (request_new_pending into_iter (with_proxy_auth part raw) (through_proxy part raw)) as (e & -> & Hok & Hp).
  pose proof (head_loop_wrote i fuel _ (Raw.writes raw) (Raw.output raw) Hok) as Hh.
  change (pending (encode := RequestEncoder.encode) ?x) with (RequestPending.req_pending x) in Hh. rewrite Hp in Hh.
  by destruct (head_loop _ _ _ _ _) as [[r evs] out].
Qed.
Lemma various_body_wrote fuel part body raw :
  body_ok part body →
  let x := encode_various_body is_empty chunk_data from_chunk text_data from_text fuel part body raw in
  wrote (Raw.output raw) (body_bytes part body) x.1 (Raw.output x.2).
Proof.
  unfold body_ok, body_bytes, encode_various_body. destruct (request_body_encoding _ _); intros Hb; [simpl; by rewrite app_nil_r|..].
  - pose proof (send_body_wrote text_data fuel (from_text body) raw Hb). by destruct (send_body _ _ _ _).
  - pose proof (send_body_wrote chunk_data fuel (from_chunk body) raw Hb). by destruct (send_body _ _ _ _).
Qed.
Lemma flush_output raw : Raw.output (flush_raw raw).2 = Raw.output raw.
Proof. unfold flush_raw. by destruct (flush _). Qed.
Lemma flush_returns raw : ∀ p, (flush_raw raw).1 = Finished p → p ≠ Panic.
Proof. unfold flush_raw. induction (Raw.flushes raw) as [|[] l IH]; simpl; [done| |intros p [= <-]; done..]. by destruct (flush l). Qed.
Lemma receive_output i fuel method raw : Raw.output (receive i fuel method raw).2 = Raw.output raw.
Proof.
  unfold receive. destruct (read_head _ _ _ _) as [[| |[[p pre]|e|]] s]; try done. cbn [guarded and_then]. unfold decode_response.
  destruct (BodyLengthParser.parse _ _); [|done..]. by destruct (HttpBody.new _ _ _ _) as [[] ?].
Qed.

End Exchange.

Definition w_part : RequestPart.t :=
  RequestPart.mk (Uri.mk (Some Scheme.HTTP) (Some (Authority.mk (str "a.b") None)) (Some (str "/")) None) Method.Post Version.Http11
    (Headers.append_validated_h1 Headers.new (str "content-length") (str "2")).
Definition w_input : StreamData.t :=
  StreamData.mk [IoPending; IoReady (str "HTTP/1.1 200 OK" ++ [13; 10] ++ str "Content-Le") true; IoReady (str "ngth: 3" ++ [13; 10; 13; 10] ++ str "ab") true;
                 IoPending; IoReady (str "c") true] true VHttp1 DirectHttp PhConnect.
Definition w_raw : Raw.t := Raw.mk w_input [WReady 30; WPending; WReady 100; WReady 1; WReady 5] [FPending; FReady] [] true (Some (str "YTpi")) false.
Definition w_iter (h : Headers.t) : list (bytes * HeaderValue.t) := map_to_list (Headers.map h).
(** A request whose body is text; one in chunks would be written by the same body. *)
Definition w_request (part : RequestPart.t) (body : bytes) : Raw.t → io response * Raw.t :=
  request (λ b : bytes, bool_decide (b = [])) (TextBody.data (E := Empty_set)) TextBody.from_bytes (TextBody.data (E := Empty_set)) TextBody.from_bytes
    w_iter Interceptors.none 100 part body.

(** * What is received *)

#[local] Abbreviation script := StreamData.script.
Lemma read_head_ok i fuel d s p r d' :
  i = None →
  sending s → script_data (script s) ≠ [] → ResponseDecoder.decode (script_data (script s)) d = (Ok (Some (p, r)), d') →
  (length (script s) + length (script_data (script s)) < fuel)%nat →
  ∃ pre s', read_head i fuel d s = (Finished (Ok (p, pre)), s') ∧ pre ++ script_data (script s') = r ∧ sending s' ∧
    (length (script s') ≤ length (script s))%nat.
Proof.
  intros ->. revert d s. induction fuel as [|fuel IH]; intros d s Hs Hne Hdec Hfuel; [lia|]. cbn [read_head intercepted].
  pose proof (poll_read_live TEMP_BUF_SIZE s ltac:(done) Hs Hne) as Hlive. destruct (poll_read_ok TEMP_BUF_SIZE s ltac:(done)) as [Hread _].
  destruct (StreamData.poll_read TEMP_BUF_SIZE s) as [[|data|] s']; [| |done].
  - destruct Hlive as [Hs' Hlt]. destruct (script s) as [|ev l] eqn:Hsc; [simpl in Hlt; lia|]. rewrite <- Hsc in *.
    destruct (IH d s' Hs') as (pre & s2 & H1 & H2 & H3 & H4); [by rewrite <- Hread|by rewrite <- Hread|rewrite <- Hread; lia|].
    exists pre, s2. split; [done|]. split; [done|]. split; [done|lia].
  - destruct Hlive as (Hd & Hs' & Hle). destruct data as [|x data]; [done|]. destruct Hread as [_ Hread].
    rewrite Hread in Hdec. destruct (Phases.decode_cuts _ _ _ _ _ _ Hdec) as [(r0 & Hr0 & ->)|(d1 & Hd1 & H1)].
    + rewrite Hr0. exists r0, s'. split; [done|]. by split.
    + rewrite Hd1. assert (Hne' : script_data (script s') ≠ []).
      { intros Hnil. rewrite Hnil, app_nil_r in Hdec. congruence. }
      destruct (IH d1 s' Hs' Hne' H1) as (pre & s2 & H2 & H3 & H4 & H5); [rewrite Hread, length_app in Hfuel; simpl in Hfuel; lia|].
      exists pre, s2. split; [done|]. split; [done|]. split; [done|lia].
Qed.

(** [framed b w data]: the octets [w] behind a head are a body of the kind [b], with [data] in it. *)
Definition framed (b : BodyLength) (w data : bytes) : Prop :=
  match b with
  | BLength n => n = len w ∧ 0 < n ∧ data = w
  | BChunk => chunked w data
  | BEmpty => w = [] ∧ data = []
  | BUntilClose => False
  end.
Lemma framed_delivered b pre io data polls :
  framed b (pre ++ script_data (script io)) data → sending io →
  Forall (λ p, 0 < p.1 ∧ p.2 = false) polls → (length data + length (script io) < length polls)%nat →
  match HttpBody.new None b io pre with
  | (Ok k, _) => ∃ k', run polls [] k = (data, Ended, k') ∧ HttpBody.drop k' = Released
  | _ => False
  end.
Proof.
  intros Hb Hs Hp Hlen. destruct b as [|n| |]; [by apply chunked_delivered| | |done].
  - destruct Hb as (Hn & Hpos & ->). apply content_length_delivered; [done..|]. rewrite Hn. unfold len at 1. by rewrite Nat2Z.id.
  - destruct Hb as [Hnil ->]. apply app_eq_nil in Hnil as [-> _]. cbn [HttpBody.new]. exists HttpBody.KEmpty. destruct Hp as [|[cap e] polls [Hcap He] _]; [simpl in Hlen; lia|].
    cbn [fst snd] in Hcap, He. subst e. cbn [run]. unfold HttpBody.poll_data. destruct (Z.eqb_spec cap 0); [lia|]. by rewrite (proj2 (Z.ltb_lt 0 cap)).
Qed.

(** The body that RFC 9112, 6.3 has behind the head of a response to [method], but for one
    that ends with the connection. *)
Definition bodiless (method : Method.t) (part : ResponsePart.t) : Prop :=
  let code := StatusCode.code (ResponsePart.status part) in
  100 ≤ code < 200 ∨ code = 204 ∨ code = 304 ∨ method = Method.Head ∨ method = Method.Connect ∧ 200 ≤ code < 300.
Definition announced (method : Method.t) (part : ResponsePart.t) (b : BodyLength) : Prop :=
  bodiless method part ∧ b = BEmpty ∨
  ¬ bodiless method part ∧
  match Headers.map (ResponsePart.headers part) !! str "transfer-encoding" with
  | Some v =>
      ResponsePart.version part = Version.Http11 ∧ b = BChunk ∧
      ∃ ws w, HeaderValue.inner v = ws ++ [w] ∧ (w = str "chunked" ∨ ∃ codings, w = codings ++ str ", chunked")
  | None =>
      ∃ v ds, Headers.map (ResponsePart.headers part) !! str "content-length" = Some v ∧ HeaderValue.inner v = [ds] ∧
        ds ≠ [] ∧ Forall (λ c, 48 ≤ c ≤ 57) ds ∧ decimal 0 ds ≤ U64_MAX ∧
        b = if decimal 0 ds =? 0 then BEmpty else BLength (decimal 0 ds)
  end.
Lemma bodiless_spec method part :
  bodiless method part ↔
  StatusCode.is_informational (ResponsePart.status part) || bool_decide (ResponsePart.status part = BodyLengthParser.NO_CONTENT)
    || bool_decide (ResponsePart.status part = BodyLengthParser.NOT_MODIFIED)
  = true ∨ bool_decide (method = Method.Connect) && StatusCode.is_successful (ResponsePart.status part) || bool_decide (method = Method.Head) = true.
Proof.
  unfold bodiless, StatusCode.is_informational, StatusCode.is_successful, BodyLengthParser.NO_CONTENT, BodyLengthParser.NOT_MODIFIED.
  destruct (ResponsePart.status part) as [c]. cbn [StatusCode.code].
  rewrite !orb_true_iff, !andb_true_iff, !bool_decide_eq_true, !Z.leb_le, !Z.ltb_lt.
  split; [intros [?|[->|[->|[?|?]]]]; tauto|]. intros [[[?|[= ->]]|[= ->]]|[?|?]]; tauto.
Qed.
Lemma chunked_contained v ws w :
  HeaderValue.inner v = ws ++ [w] → (w = str "chunked" ∨ ∃ codings, w = codings ++ str ", chunked") →
  header_value_contains v (str "chunked") = true.
Proof.
  intros Hl Hw. unfold header_value_contains. apply existsb_exists. exists w. split.
  { apply list_elem_of_In. rewrite Hl. apply elem_of_app. right. by apply list_elem_of_singleton. }
  apply bytes_contains_spec. destruct Hw as [->|[c ->]]; [by exists [], []|]. exists (c ++ str ", "), [].
  by rewrite app_nil_r, <- app_assoc.
Qed.
Lemma announced_parse method part b : announced method part b → BodyLengthParser.parse method part = Ok b.
Proof.
  intros Ha. unfold BodyLengthParser.parse, Headers.get_lowercase. pose proof (bodiless_spec method part) as Hs.
  destruct Ha as [[Hb ->]|[Hb Ha]].
  { apply Hs in Hb as [->| ->]; [done|]. by destruct (_ || _). }
  destruct (StatusCode.is_informational _ || _ || _); [tauto|]. destruct (_ || bool_decide (method = Method.Head)); [tauto|].
  destruct (Headers.map _ !! str "transfer-encoding") as [v|].
  - destruct Ha as (-> & -> & ws & w & Hl & Hw). rewrite bool_decide_false by done. by rewrite (chunked_contained v ws w Hl Hw).
  - destruct Ha as (v & ds & -> & Hi & Hne & Hd & Hmax & ->).
    rewrite (proj2 (content_length_value v (decimal 0 ds))) by (by exists ds). by destruct (_ =? 0).
Qed.

(** Whether the head of a response asks for the connection to be closed: a [Connection] field
    in which the word [close] occurs, or, in HTTP/1.0, none in which [keep-alive] does. *)
Definition occurs (word : bytes) (v : HeaderValue.t) : Prop := ∃ w a b, w ∈ HeaderValue.inner v ∧ w = a ++ word ++ b.
Definition asks_close (part : ResponsePart.t) : Prop :=
  let field := Headers.map (ResponsePart.headers part) !! str "connection" in
  if decide (ResponsePart.version part = Version.Http10)
  then ∀ v, field = Some v → ¬ occurs (str "keep-alive") v
  else ∃ v, field = Some v ∧ occurs (str "close") v.
Lemma contains_occurs v word : header_value_contains v word = true ↔ occurs word v.
Proof.
  unfold header_value_contains, occurs. rewrite existsb_exists. split.
  - intros (w & Hw & (a & b & Hc)%bytes_contains_spec). exists w, a, b. split; [by apply list_elem_of_In|done].
  - intros (w & a & b & Hw & Hc). exists w. split; [by apply list_elem_of_In|]. apply bytes_contains_spec. by exists a, b.
Qed.
Lemma closes_spec part : closes part = true ↔ asks_close part.
Proof.
  unfold closes, asks_close, Headers.get_lowercase. destruct (Headers.map _ !! _) as [v|].
  - case_decide as Hv; [rewrite bool_decide_true by done|rewrite bool_decide_false by done].
    + rewrite negb_true_iff, <- not_true_iff_false, contains_occurs. split; [by intros H ? [= <-]|]. intros H. by apply H.
    + rewrite contains_occurs. split; [by exists v|]. by intros (? & [= <-] & ?).
  - case_decide as Hv; rewrite bool_decide_eq_true; [by split|]. split; [done|]. by intros (? & [=] & _).
Qed.


Definition w_lines : list field_line := [mk_line (str "Content-Length") (str " ") (str "3") [] [13; 10]].

(** * What goes wrong *)

(** Behind a redirect that turns a request with a body into a [GET], the body is still
    sent, and nothing in the head tells its length: the server takes it for the beginning
    of the next request. *)
Lemma redirected_body_unframed :
  match Redirect.rewrite_request 303 w_part with
  | Some part => RequestPart.method part = Method.Get ∧ request_body_encoding part false = EncText ∧
      Headers.get_lowercase (RequestPart.headers part) (str "content-length") = None ∧
      Headers.get_lowercase (RequestPart.headers part) (str "transfer-encoding") = None
  | None => False
  end.
Proof. vm_compute. by repeat split. Qed.
(** The options of [Connection] and the codings of [Transfer-Encoding] are compared with
    their case: [Connection: Close] does not close, and a body in chunks announced as
    [Chunked] is handed out with its framing. *)
Lemma options_have_case :
  closes (ResponsePart.mk Version.Http11 (StatusCode.mk 200) (Headers.append_validated_h1 Headers.new (str "Connection") (str "Close"))) = false ∧
  BodyLengthParser.parse Method.Get
    (ResponsePart.mk Version.Http11 (StatusCode.mk 200) (Headers.append_validated_h1 Headers.new (str "Transfer-Encoding") (str "Chunked"))) = Ok BUntilClose.
Proof. by vm_compute. Qed.
