(* ===== verification/H2Exchange.v ===== *)
(** An exchange over HTTP/2 ([ylong_http_client/src/async_impl/conn/http2.rs]): the HEADERS
    of a request, the head of the response, and [TextIo], the transport that its body is
    read from.

    The channel from the manager is a script: a message, nothing yet, or that the sender is
    gone.  A read takes the instants at which it starts and at which it ends, for the limits
    on the speed, and the length of the buffer; what it puts there is returned. *)
From S2P Require Import Prelude Buffers H2Error Headers Parts H2Frame Uri Message H1Request H2Streams RateLimit H2Conn ChunkBody HttpBody Normalizer.

(** * The HEADERS of a request *)

Definition CONNECTION_SPECIFIC_HEADERS : list bytes := str <$> ["connection"; "keep-alive"; "proxy-connection"; "upgrade"; "transfer-encoding"]%string.
Definition remove_connection_specific_headers (headers : Headers.t) : res HttpError Headers.t :=
  let headers := fold_left (λ h name, (Headers.remove h name).2) CONNECTION_SPECIFIC_HEADERS headers in
  match Headers.get_lowercase headers (str "te") with
  | Some te_ref =>
      te ← HeaderValue.to_string te_ref;
      Ok (if bool_decide (te = str "trailers") then headers else (Headers.remove headers (str "te")).2)
  | None => Ok headers
  end.
Definition build_pseudo_headers (part : RequestPart.t) : PseudoHeaders.t * RequestPart.t :=
  let uri := RequestPart.uri part in
  let pseudo := PseudoHeaders.new in
  let pseudo := PseudoHeaders.set_scheme pseudo (Some (Scheme.as_str (default Scheme.HTTP (Uri.scheme uri)))) in
  let pseudo := PseudoHeaders.set_method pseudo (Some (Method.as_str (RequestPart.method part))) in
  let pseudo := PseudoHeaders.set_path pseudo (match Uri.path_and_query uri with Some p => Some p | None => Some (str "/") end) in
  let '(host, headers) := Headers.remove (RequestPart.headers part) (str "host") in
  let host := match host with Some auth => match HeaderValue.to_string auth with Ok s => Some s | _ => None end | None => None end in
  (PseudoHeaders.set_authority pseudo host, RequestPart.mk uri (RequestPart.method part) (RequestPart.version part) headers).
Definition build_headers_payload (part : RequestPart.t) (is_end_stream : bool) : res HttpError (Z * Payload.t) :=
  headers ← remove_connection_specific_headers (RequestPart.headers part);
  let part := RequestPart.mk (RequestPart.uri part) (RequestPart.method part) (RequestPart.version part) headers in
  let '(pseudo, part) := build_pseudo_headers part in
  let header_part := Parts.set_pseudo (Parts.set_header_lines Parts.new (RequestPart.headers part)) pseudo in
  let flag := FrameFlags.set_end_headers FrameFlags.empty true in
  let flag := if is_end_stream then FrameFlags.set_end_stream flag true else flag in
  Ok (flag, Payload.Headers header_part).

(** * The head of a response *)

Inductive exchange_error :=
| RequestHttpError (e : HttpError) | RequestH2Error (e : H2Error) | LengthError (e : client_error) | ResponseSenderClosed | DispatchFailed (e : DispatchErrorKind).
Definition build_client_error (id : Z) (code : ErrorCode) : exchange_error := RequestH2Error (StreamError id code).
(** The parts of the response and the length of its body, which is read from a [TextIo]. *)
Definition frame_2_response (method : Method.t) (headers_frame : Frame.t) : res exchange_error (ResponsePart.t * BodyLength) :=
  part ← (match Frame.payload headers_frame with
          | Payload.Headers headers =>
              match PseudoHeaders.status (Parts.pseudo headers) with
              | Some status =>
                  match StatusCode.from_bytes status with
                  | Ok code => Ok (ResponsePart.mk Version.Http2 code (Parts.map headers))
                  | Err e => Err (RequestHttpError e)
                  | Panic => Panic
                  end
              | None => Err (build_client_error (Frame.id headers_frame) ProtocolError)
              end
          | Payload.RstStream code =>
              Err (build_client_error (Frame.id headers_frame) (match error_code_try_from code with Ok c => c | _ => ProtocolError end))
          | _ => Err (build_client_error (Frame.id headers_frame) ProtocolError)
          end);
  match BodyLengthParser.parse method part with
  | Ok length => Ok (part, length)
  | Err e => Err (LengthError e)
  | Panic => Panic
  end.
Inductive chan_event := CMsg (m : RespMessage) | CWait | CClosed.
(** [request] up to the message to the manager: what it asks the manager to send, with the
    body still to be read, and the parts of the response it makes of the first message. *)
Definition request_headers (part : RequestPart.t) (is_body_empty : bool) : res exchange_error (Z * Payload.t) :=
  let no_length := bool_decide (Headers.get_lowercase (RequestPart.headers part) (str "content-length") = None) in
  match build_headers_payload part (is_body_empty && no_length) with Ok x => Ok x | Err e => Err (RequestHttpError e) | Panic => Panic end.
Definition receive_head (method : Method.t) (ev : chan_event) : option (res exchange_error (ResponsePart.t * BodyLength)) :=
  match ev with
  | CMsg (Output frame) => Some (frame_2_response method frame)
  | CMsg (OutputExit e) => Some (Err (DispatchFailed e))
  | CClosed => Some (Err ResponseSenderClosed)
  | CWait => None
  end.

(** * The transport of a body *)

Inductive textio_error := ReadTimedOut | SpeedError (e : speed_error) | ReadProtocolError | ReadSenderClosed | ReadDispatch (e : DispatchErrorKind).
(** [Poll<std::io::Result<()>>] of a read that does not panic. *)
Inductive io_result := IoOk | IoErr (e : textio_error) | IoWait.
Module TextIo.
Record t := mk { speed_controller : SpeedController.t; receiver : list chan_event; offset : Z; remain : option Frame.t; is_closed : bool }.
Definition new (c : SpeedController.t) (l : list chan_event) : t := mk c l 0 None false.
Definition set_speed (s : t) (c : SpeedController.t) : t := mk c (receiver s) (offset s) (remain s) (is_closed s).
Definition set_receiver (s : t) (l : list chan_event) : t := mk (speed_controller s) l (offset s) (remain s) (is_closed s).
Definition set_remain (s : t) (n : Z) (f : option Frame.t) : t := mk (speed_controller s) (receiver s) n f (is_closed s).
Definition close (s : t) : t := mk (speed_controller s) (receiver s) (offset s) (remain s) true.

Definition end_read (s : t) (end_stream : bool) (data_len : Z) : option io_result * t :=
  let s := set_remain s 0 None in
  if end_stream then (Some IoOk, close s)
  else if data_len =? 0 then (None, s)
  else (Some IoOk, s).
(** With a buffer that has room for [n] bytes; the result comes with the bytes it takes. *)
Definition match_channel_message (frame : Frame.t) (n : Z) (s : t) : option io_result * bytes * t :=
  match Frame.payload frame with
  | Payload.Headers _ => (Some IoOk, [], set_remain s 0 (Some frame))
  | Payload.Data data =>
      let fill_len := Z.min (len data) n in
      if n <? len data then (Some IoOk, upto fill_len data, set_remain s (offset s + fill_len) (Some frame))
      else let '(r, s) := end_read s (FrameFlags.is_end_stream (Frame.flags frame)) (len data) in (r, upto fill_len data, s)
  | Payload.RstStream code => if rst_stream_is_no_error code then (Some IoOk, [], close s) else (Some (IoErr ReadProtocolError), [], s)
  | _ => (Some (IoErr ReadProtocolError), [], s)
  end.
(** [data.len() - text_io.offset] does not go below zero: [offset] is where a read stopped. *)
Definition read_remaining_data (n : Z) (s : t) : option io_result * bytes * t :=
  match remain s with
  | Some frame =>
      match Frame.payload frame with
      | Payload.Headers _ => (Some IoOk, [], s)
      | Payload.Data data =>
          let data_len := len data - offset s in
          let fill_len := Z.min n data_len in
          let piece := slice (offset s) (offset s + fill_len) data in
          if n <? data_len then (Some IoOk, piece, set_remain s (offset s + fill_len) (Some frame))
          else let '(r, s) := end_read s (FrameFlags.is_end_stream (Frame.flags frame)) data_len in (r, piece, s)
      | _ => (Some (IoErr ReadProtocolError), [], s)
      end
  | None => (None, [], s)
  end.
(** [RespReceiver::poll_recv]; a script at its end has nothing yet. *)
Definition poll_recv (s : t) : (io_result + Frame.t) * t :=
  match receiver s with
  | [] => (inl IoWait, s)
  | CWait :: l => (inl IoWait, set_receiver s l)
  | CClosed :: _ => (inl (IoErr ReadSenderClosed), s)
  | CMsg (Output f) :: l => (inr f, set_receiver s l)
  | CMsg (OutputExit e) :: l => (inl (IoErr (ReadDispatch e)), set_receiver s l)
  end.
(** The [while] loop; every turn that goes on takes a message. *)
Fixpoint read_loop (fuel : nat) (n : Z) (got : bytes) (s : t) : io_result * bytes * t :=
  match fuel with
  | O => (IoWait, got, s)
  | S fuel =>
      if n - len got =? 0 then (IoOk, got, s)
      else
        match read_remaining_data (n - len got) s with
        | (Some r, d, s) => (r, got ++ d, s)
        | (None, d, s) =>
            let got := got ++ d in
            match poll_recv s with
            | (inl r, s) => (r, got, s)
            | (inr frame, s) =>
                match match_channel_message frame (n - len got) s with
                | (Some r, d, s) => (r, got ++ d, s)
                | (None, d, s) => read_loop fuel n (got ++ d) s
                end
            end
        end
  end.
Abbreviation m := (M t textio_error).
Definition on_speed {A} (x : M SpeedController.t speed_error A) : m A := λ s,
  match x (speed_controller s) with
  | (Ok a, c) => (Ok a, set_speed s c)
  | (Err e, c) => (Err (SpeedError e), set_speed s c)
  | (Panic, c) => (Panic, set_speed s c)
  end.
Definition speed_modify (f : SpeedController.t → SpeedController.t) : m () := mmodify (λ s, set_speed s (f (speed_controller s))).
(** The limits on the speed behind a read that is [Poll::Ready(Ok(()))]. *)
Definition count (now filled : Z) : m () :=
  _ ← on_speed (SpeedController.min_recv_speed_limit now filled);
  _ ← on_speed (SpeedController.delay_max_recv_speed_limit now filled);
  speed_modify (SpeedController.reset_recv_pending_timeout now).
(** The loop, and the count of what it has read. *)
Definition read_counted (later n : Z) : m (option bytes) := λ s,
  match read_loop (S (length (receiver s))) n [] s with
  | (IoWait, _, s) => (Ok None, s)
  | (IoErr e, _, s) => (Err e, s)
  | (IoOk, got, s) => (_ ← count later (len got); mret (Some got)) s
  end.
Section Timers.
Context (fired : Z → Z → bool).
(** [None] is [Poll::Pending].  The loop that ends because the buffer is full, and not by a
    [return], does not count; the buffer is full before the first turn only when [n] is 0. *)
Definition poll_read (now later n : Z) : m (option bytes) :=
  s ← mget;
  if (n =? 0) || is_closed s then mret (Some [])
  else if SpeedController.poll_recv_pending_timeout fired now (speed_controller s) then mfail ReadTimedOut
  else
    _ ← speed_modify (SpeedController.init_min_recv_if_not_start now);
    ready ← on_speed (SpeedController.poll_max_recv_delay_time fired now);
    if negb ready then mret None
    else
      _ ← speed_modify (SpeedController.init_max_recv_if_not_start now);
      read_counted later n.
End Timers.
(** [StreamData] of a [TextIo]. *)
Definition is_stream_closable (s : t) : bool := is_closed s.
Definition http_version : HttpVersion := VHttp2.
End TextIo.

(** * What a request asks to send *)

Lemma remove_known h name : HeaderName.from_bytes name = Ok name → Headers.map (Headers.remove h name).2 = delete name (Headers.map h).
Proof. intros Hn. unfold Headers.remove. by rewrite Hn. Qed.
(** The fields RFC 9113, 8.2.2 forbids. *)
Definition rfc_connection_fields : list bytes :=
  [str "connection"; str "proxy-connection"; str "keep-alive"; str "transfer-encoding"; str "upgrade"].
(** The fields of RFC 9113, 8.2.2: those of the connection are gone, [te] is there only with
    the value it may have, and [host] has become [:authority]. *)
Definition h2_field (h : Headers.t) (name : bytes) : option HeaderValue.t :=
  if bool_decide (name ∈ str "host" :: rfc_connection_fields) then None
  else
    match Headers.map h !! name with
    | Some v => if bool_decide (name = str "te") && negb (bool_decide (rfc_value v = str "trailers")) then None else Some v
    | None => None
    end.
Lemma fields_rfc name : name ∈ CONNECTION_SPECIFIC_HEADERS ↔ name ∈ rfc_connection_fields.
Proof. unfold CONNECTION_SPECIFIC_HEADERS, rfc_connection_fields. cbn [fmap list_fmap]. rewrite !elem_of_cons. tauto. Qed.
Lemma fields_rfc_host name : bool_decide (name ∈ str "host" :: rfc_connection_fields) = bool_decide (name ∈ str "host" :: CONNECTION_SPECIFIC_HEADERS).
Proof. apply bool_decide_ext. by rewrite !elem_of_cons, fields_rfc. Qed.
Lemma elem_head {A} `{EqDecision A} (x : A) l : bool_decide (x ∈ x :: l) = true.
Proof. apply bool_decide_eq_true_2. left. Qed.
Lemma elem_tail {A} `{EqDecision A} (x y : A) l : x ≠ y → bool_decide (x ∈ y :: l) = bool_decide (x ∈ l).
Proof. intros Hne. apply bool_decide_ext. rewrite elem_of_cons. tauto. Qed.
Lemma specific_removed h name :
  Headers.map (fold_left (λ h name, (Headers.remove h name).2) CONNECTION_SPECIFIC_HEADERS h) !! name =
  if bool_decide (name ∈ CONNECTION_SPECIFIC_HEADERS) then None else Headers.map h !! name.
Proof.
  assert (Hall : Forall (λ n, HeaderName.from_bytes n = Ok n) CONNECTION_SPECIFIC_HEADERS) by (repeat constructor).
  revert h. induction Hall as [|n l Hn Hl IH]; intros h; cbn [fold_left]; [done|].
  rewrite IH, remove_known by done. destruct (decide (name = n)) as [->|Hne].
  - rewrite elem_head. case_bool_decide; [done|]. apply lookup_delete_eq.
  - by rewrite lookup_delete_ne, elem_tail by done.
Qed.
(** Without the fields of the connection, without [te] when [x], and without [host]. *)
Lemma host_removed h h1 x name :
  (∀ name, Headers.map h1 !! name = if bool_decide (name ∈ CONNECTION_SPECIFIC_HEADERS) then None else Headers.map h !! name) →
  Headers.map (Headers.remove (if x : bool then (Headers.remove h1 (str "te")).2 else h1) (str "host")).2 !! name =
  if bool_decide (name ∈ str "host" :: CONNECTION_SPECIFIC_HEADERS) then None else if bool_decide (name = str "te") && x then None else Headers.map h !! name.
Proof.
  intros Hl. rewrite remove_known by done. destruct (decide (name = str "host")) as [->|Hne]; [by rewrite lookup_delete_eq, elem_head|]. rewrite lookup_delete_ne, elem_tail by done.
  destruct x; [|rewrite andb_false_r; apply Hl]. rewrite andb_true_r, remove_known by done. destruct (decide (name = str "te")) as [->|Ht]; [by rewrite lookup_delete_eq|]. rewrite lookup_delete_ne by done.
  rewrite (bool_decide_eq_false_2 (name = _)) by done. apply Hl.
Qed.
Lemma specific_fields h : ∃ h', remove_connection_specific_headers h = Ok h' ∧ Headers.map h' !! str "host" = Headers.map h !! str "host" ∧ ∀ name, Headers.map (Headers.remove h' (str "host")).2 !! name = h2_field h name.
Proof.
  unfold remove_connection_specific_headers. set (h1 := fold_left _ _ h). pose proof (specific_removed h) as Hl. fold h1 in Hl.
  unfold Headers.get_lowercase. destruct (Headers.map h1 !! str "te") as [v|] eqn:Hv; rewrite Hl in Hv; vm_compute (bool_decide _) in Hv.
  - cbn [mbind res_bind HeaderValue.to_string]. set (x := negb (bool_decide (HeaderValue.to_vec v = str "trailers"))). exists (if x then (Headers.remove h1 (str "te")).2 else h1). split; [unfold x, HeaderValue.to_vec; by destruct (bool_decide _)|]. split; [destruct x; [rewrite remove_known, lookup_delete_ne by done|]; by rewrite Hl|].
    intros name. rewrite (host_removed h h1 x name Hl). unfold h2_field. rewrite fields_rfc_host. destruct (bool_decide (name ∈ _)); [done|]. case_bool_decide as Ht; [subst name; rewrite Hv, <- value_rfc; done|]. by destruct (Headers.map h !! name).
  - exists h1. split; [done|]. split; [by rewrite Hl|]. intros name. rewrite (host_removed h h1 false name Hl). unfold h2_field. rewrite fields_rfc_host. destruct (bool_decide (name ∈ _)); [done|]. rewrite andb_false_r. case_bool_decide as Ht; [subst name; by rewrite Hv|]. by destruct (Headers.map h !! name).
Qed.

Lemma path_rfc u : target_ok false u → match Uri.path_and_query u with Some p => Some p | None => Some (str "/") end = Some (rfc_origin u).
Proof.
  intros [Hp Hq]. unfold Uri.path_and_query, Uri.opt_str, rfc_origin, rfc_query. destruct (Uri.path u) as [[|b p]|]; [done| |by rewrite (Hq eq_refl)].
  by destruct (Uri.query u).
Qed.

(** C8: Every request but [CONNECT], whose URI has no query without a path, has a HEADERS
    payload that RFC 9113 allows (8.2.2, 8.3.1): its pseudo headers are the method, the
    scheme, the path and query with [/] for an empty path, and the authority of its [Host]
    field, and no [:status]; none of the five fields of the connection is among the others,
    [te] only as [trailers], and every other field is kept with its value.  The flags say
    that the block is complete, and whether the stream ends with it. *)
Theorem h2_request_headers part e :
  RequestPart.method part ≠ Method.Connect → target_ok false (RequestPart.uri part) →
  ∃ flag p, build_headers_payload part e = Ok (flag, Payload.Headers p) ∧
    flag_view flag = (e, true, false) ∧
    PseudoHeaders.method (Parts.pseudo p) = Some (rfc_method (RequestPart.method part)) ∧
    PseudoHeaders.scheme (Parts.pseudo p) =
      Some (match Scheme.proto <$> Uri.scheme (RequestPart.uri part) with Some Https => str "https" | _ => str "http" end) ∧
    PseudoHeaders.path (Parts.pseudo p) = Some (rfc_origin (RequestPart.uri part)) ∧
    PseudoHeaders.authority (Parts.pseudo p) = rfc_value <$> Headers.map (RequestPart.headers part) !! str "host" ∧
    PseudoHeaders.status (Parts.pseudo p) = None ∧
    ∀ name, Headers.map (Parts.map p) !! name = h2_field (RequestPart.headers part) name.
Proof.
  intros _ Ht. destruct (specific_fields (RequestPart.headers part)) as (h & Hh & Hho & Hf). unfold build_headers_payload. rewrite Hh. cbn [mbind res_bind]. unfold build_pseudo_headers. cbn [RequestPart.headers RequestPart.uri RequestPart.method RequestPart.version].
  destruct (Headers.remove h (str "host")) as [host h2] eqn:Hr. cbn [snd] in Hf. eexists _, _. split; [reflexivity|]. split; [by destruct e|]. cbn.
  split; [by destruct (RequestPart.method part)|]. split; [by destruct (Uri.scheme _) as [[[]]|]|]. split; [by apply path_rfc|].
  split; [|split; [done|intros name; by rewrite <- Hf]]. unfold Headers.remove in Hr. change (HeaderName.from_bytes (str "host")) with (Ok (E:=HttpError) (str "host")) in Hr. injection Hr as <- _. rewrite Hho.
  destruct (Headers.map (RequestPart.headers part) !! str "host") as [v|]; cbn [fmap option_fmap option_map]; [|done]. f_equal. apply value_rfc.
Qed.
Definition w_h2_part (m : Method.t) : RequestPart.t :=
  RequestPart.mk (Uri.mk (Some Scheme.HTTPS) (Some (Authority.mk (str "a.com") None)) None None) m Version.Http2
    (Headers.mk {[ str "host" := HeaderValue.mk [str "a.com"] false; str "upgrade" := HeaderValue.mk [str "x"] false;
                   str "te" := HeaderValue.mk [str "trailers"] false ]}).
Lemma h2_request_headers_witness :
  ∃ flag p, build_headers_payload (w_h2_part Method.Get) true = Ok (flag, Payload.Headers p) ∧
    PseudoHeaders.path (Parts.pseudo p) = Some (str "/") ∧ PseudoHeaders.scheme (Parts.pseudo p) = Some (str "https") ∧
    Headers.map (Parts.map p) !! str "upgrade" = None ∧ Headers.map (Parts.map p) !! str "te" = Some (HeaderValue.mk [str "trailers"] false).
Proof.
  assert (Ht : target_ok false (RequestPart.uri (w_h2_part Method.Get))) by (by split).
  destruct (h2_request_headers (w_h2_part Method.Get) true ltac:(discriminate) Ht) as (flag & p & Hb & _ & _ & Hs & Hp & _ & _ & Hf).
  exists flag, p. split; [exact Hb|]. split; [exact Hp|]. split; [exact Hs|]. rewrite !Hf. split; vm_compute; reflexivity.
Defined.

(** [CONNECT] is sent with [:scheme] and [:path], which RFC 9113, 8.5 forbids. *)
Lemma connect_has_path :
  match build_headers_payload (w_h2_part Method.Connect) true with
  | Ok (_, Payload.Headers p) => PseudoHeaders.path (Parts.pseudo p) = Some (str "/") ∧ PseudoHeaders.scheme (Parts.pseudo p) = Some (str "https")
  | _ => False
  end.
Proof. by vm_compute. Qed.
