(* ===== verification/H2Body.v ===== *)
(** The body of a response over HTTP/2: what the reads of a [TextIo] give, and how fast.

    Without limits, a [TextIo] is the transport whose script are the DATA frames of the
    stream ([h2_body_read]), so that what [HttpBodySafety] shows of bodies over any
    transport holds over HTTP/2; with a limit, it delivers no faster ([h2_body_paced]). *)
From S2P Require Import Prelude Buffers Headers Parts Message H2Frame RateLimit H2Conn HttpBody HttpBodySafety H2Exchange.

Module X := TextIo.

(** * The transport a stream of frames is *)

Definition es (f : Frame.t) : bool := FrameFlags.is_end_stream (Frame.flags f).
(** The script of the messages of a stream.  What ends it (the end of the stream, trailers,
    a sender that is gone) gives the same to every read; [k] is how many there are. *)
Fixpoint io_script (k : nat) (l : list chan_event) : list io_event :=
  match l with
  | [] => []
  | CWait :: l => IoPending :: io_script k l
  | CClosed :: _ => replicate k IoError
  | CMsg (OutputExit _) :: l => IoError :: io_script k l
  | CMsg (Output f) :: l =>
      match Frame.payload f with
      | Payload.Headers _ => replicate k (IoReady [] false)
      | Payload.Data d =>
          if es f then IoReady d true :: replicate k (IoReady [] true)
          else match d with [] => io_script k l | _ => IoReady d false :: io_script k l end
      | Payload.RstStream code => if rst_stream_is_no_error code then replicate k (IoReady [] true) else IoError :: io_script k l
      | _ => IoError :: io_script k l
      end
  end.
(** What is still to come from a [TextIo]. *)
Definition script_of (k : nat) (s : X.t) : list io_event :=
  if X.is_closed s then replicate k (IoReady [] true)
  else
    match X.remain s with
    | Some f =>
        match Frame.payload f with
        | Payload.Data d => IoReady (from (X.offset s) d) (es f) :: (if es f then replicate k (IoReady [] true) else io_script k (X.receiver s))
        | _ => replicate k (IoReady [] false)
        end
    | None => io_script k (X.receiver s)
    end.
Definition textio_ok (s : X.t) : Prop :=
  match X.remain s with
  | Some f => match Frame.payload f with Payload.Data d => 0 ≤ X.offset s < len d | Payload.Headers _ => True | _ => False end
  | None => X.offset s = 0
  end.
(** [st] answers as [s] does, for [k] more reads. *)
Definition sim (k : nat) (s : X.t) (st : StreamData.t) : Prop :=
  textio_ok s ∧ StreamData.is_stream_closable st = X.is_closed s ∧ ∃ j, (k ≤ j)%nat ∧ StreamData.script st = script_of j s.
Definition answers (x : io_result * bytes * X.t) (k : nat) (y : StreamData.read_result * StreamData.t) : Prop :=
  let '(r, d, s) := x in
  sim k s y.2 ∧ y.1 = match r with IoOk => StreamData.ReadFilled d | IoWait => StreamData.ReadPending | IoErr _ => StreamData.ReadError end.
Lemma slice_piece a m (d : bytes) : 0 ≤ a → 0 ≤ m → slice a (a + m) d = upto m (from a d).
Proof. intros. unfold slice, from, upto. rewrite take_drop_commute. do 2 f_equal. lia. Qed.
Lemma sim_intro k j s st : textio_ok s → StreamData.is_stream_closable st = X.is_closed s → (k ≤ j)%nat → StreamData.script st = script_of j s → sim k s st.
Proof. intros. split; [done|]. split; [done|]. by exists j. Qed.
(** The state behind a read of the last bytes of a DATA frame. *)
Lemma end_sim k j s st c : (k ≤ j)%nat → StreamData.is_stream_closable st = c → X.is_closed s = false →
  StreamData.script st = (if c then replicate j (IoReady [] true) else io_script j (X.receiver s)) → sim k (if c then X.close (X.set_remain s 0 None) else X.set_remain s 0 None) st.
Proof. intros Hj Hc Hcl Hs. apply (sim_intro k j); [by destruct c|destruct c; [exact Hc|exact (eq_trans Hc (eq_sym Hcl))]|done|]. rewrite Hs. unfold script_of. destruct c; [done|]. cbn. by rewrite Hcl. Qed.
Lemma end_read_some s b n : n ≠ 0 ∨ b = true → X.end_read s b n = (Some IoOk, if b then X.close (X.set_remain s 0 None) else X.set_remain s 0 None).
Proof. intros Hn. unfold X.end_read. destruct b; [done|]. destruct (Z.eqb_spec n 0); [|done]. by destruct Hn. Qed.
Lemma remaining_sim k n s st f :
  0 < n → X.is_closed s = false → X.remain s = Some f → sim (S k) s st → ∃ r d s', X.read_remaining_data n s = (Some r, d, s') ∧ answers (r, d, s') k (StreamData.poll_read n st).
Proof.
  intros Hn Hcl Hr (Hok & Hst & j & Hj & Hsc). unfold script_of in Hsc. rewrite Hcl, Hr in Hsc. unfold textio_ok in Hok. unfold X.read_remaining_data. rewrite Hr in *. unfold StreamData.poll_read. rewrite Hsc.
  destruct j as [|j]; [lia|]. destruct (Frame.payload f) as [ps|d| | | | | | |] eqn:Hp; try done.
  - eexists _, _, _. split; [reflexivity|]. cbn [replicate]. change (len [] <=? n) with (0 <=? n). rewrite (proj2 (Z.leb_le 0 n)) by lia. split; [|done]. apply (sim_intro _ j); [unfold textio_ok; by rewrite Hr, Hp|by cbn|lia|]. unfold script_of. by rewrite Hcl, Hr, Hp.
  - set (e := from (X.offset s) d) in *. assert (He : len e = len d - X.offset s) by (unfold e; rewrite len_from; lia). rewrite <- He. destruct (Z.ltb_spec n (len e)) as [Hlt|Hge].
    + rewrite (proj2 (Z.leb_gt (len e) n)) by lia. eexists _, _, _. split; [reflexivity|]. rewrite Z.min_l, slice_piece by lia. fold e. split; [|done].
      apply (sim_intro _ (S j)); [|exact Hst|lia|]; [cbn; rewrite Hp; lia|]. unfold script_of. cbn. rewrite Hcl, Hp. by rewrite <- from_from by lia.
    + rewrite (proj2 (Z.leb_le (len e) n)) by lia. rewrite end_read_some by lia. eexists _, _, _. split; [reflexivity|]. rewrite Z.min_r, slice_piece by lia. fold e. rewrite upto_all by lia. split; [|done]. by apply (end_sim k (S j)); [lia|..].
Qed.
Lemma loop_sim fuel k n s st :
  0 < n → (length (X.receiver s) < fuel)%nat → X.is_closed s = false → sim (S k) s st → answers (X.read_loop fuel n [] s) k (StreamData.poll_read n st).
Proof.
  intros Hn. revert s st. induction fuel as [|fuel IH]; intros s st Hf Hcl Hsim; [lia|]. cbn [X.read_loop]. change (len []) with 0. rewrite Z.sub_0_r, (proj2 (Z.eqb_neq n 0)) by lia.
  destruct (X.remain s) as [f|] eqn:Hr; [destruct (remaining_sim k n s st f Hn Hcl Hr Hsim) as (r & d & s' & -> & Ha); exact Ha|].
  unfold X.read_remaining_data. rewrite Hr. destruct Hsim as (Hok & Hst & j & Hj & Hsc). unfold script_of in Hsc. rewrite Hcl, Hr in Hsc. unfold textio_ok in Hok. rewrite Hr in Hok. destruct j as [|j]; [lia|].
  assert (Hkeep : ∀ l st', StreamData.is_stream_closable st' = false → StreamData.script st' = io_script (S j) l → sim k (X.set_receiver s l) st').
  { intros l st' H1 H2. apply (sim_intro _ (S j)); [unfold textio_ok; cbn; by rewrite Hr|cbn; by rewrite Hcl|lia|]. rewrite H2. unfold script_of. cbn. by rewrite Hcl, Hr. }
  rewrite Hcl in Hst. unfold X.poll_recv. destruct (X.receiver s) as [|[[f|e]| |] l] eqn:Hl; cbn [io_script] in Hsc.
  - unfold StreamData.poll_read. rewrite Hsc. split; [|done]. cbn. apply (sim_intro _ (S j)); [unfold textio_ok; by rewrite Hr|by rewrite Hcl|lia|]. rewrite Hsc. unfold script_of. by rewrite Hcl, Hr, Hl.
  - set (s1 := X.set_receiver s l). unfold X.match_channel_message. change (len []) with 0. rewrite Z.sub_0_r. cbn [app].
    destruct (Frame.payload f) as [ps|d| |code| | | | |] eqn:Hp; try (unfold StreamData.poll_read; rewrite Hsc; split; [by apply Hkeep|done]).
    + unfold StreamData.poll_read. rewrite Hsc. cbn [replicate]. change (len [] <=? n) with (0 <=? n). rewrite (proj2 (Z.leb_le 0 n)) by lia. split; [|done]. apply (sim_intro _ j); [unfold textio_ok; cbn; by rewrite Hp|by cbn|lia|]. unfold script_of. cbn. by rewrite Hcl, Hp.
    + destruct (Z.ltb_spec n (len d)) as [Hlt|Hge].
      * unfold StreamData.poll_read. assert (Hs : StreamData.script st = IoReady d (es f) :: (if es f then replicate (S j) (IoReady [] true) else io_script (S j) l)) by (rewrite Hsc; destruct (es f); [done|]; destruct d; [change (len []) with 0 in Hlt; lia|done]).
        rewrite Hs, (proj2 (Z.leb_gt (len d) n)), Z.min_r by lia. split; [|done]. apply (sim_intro _ (S j)); cbn; [rewrite Hp, Hok; lia|by rewrite Hcl|lia|]. unfold script_of. cbn. by rewrite Hcl, Hp, Hok.
      * destruct (decide (len d ≠ 0 ∨ es f = true)) as [Hne|He].
        -- fold (es f). rewrite end_read_some by done. unfold StreamData.poll_read. assert (Hs : StreamData.script st = IoReady d (es f) :: (if es f then replicate (S j) (IoReady [] true) else io_script (S j) l)) by (rewrite Hsc; destruct (es f); [done|]; destruct d; [by destruct Hne|done]).
           rewrite Hs, (proj2 (Z.leb_le (len d) n)), Z.min_l, upto_all by lia. split; [|done]. by apply (end_sim k (S j)); [lia|..].
        -- assert (Hd : d = []) by (apply len_0_nil; lia). assert (Hes : es f = false) by (destruct (es f); [exfalso; auto|done]). subst d. unfold X.end_read. fold (es f). rewrite Hes in Hsc |- *. change (len [] =? 0) with true. cbv iota. unfold upto. rewrite take_nil.
           apply IH; [cbn in *; lia|done|]. apply (sim_intro _ (S j)); [done|by rewrite Hst|lia|]. rewrite Hsc. unfold script_of. cbn. by rewrite Hcl.
    + destruct (rst_stream_is_no_error code); unfold StreamData.poll_read; rewrite Hsc; [|split; [by apply Hkeep|done]]. cbn [replicate]. change (len [] <=? n) with (0 <=? n). rewrite (proj2 (Z.leb_le 0 n)) by lia. split; [|done]. apply (sim_intro _ j); [unfold textio_ok; cbn; by rewrite Hr|by cbn|lia|done].
  - unfold StreamData.poll_read. rewrite Hsc. split; [by apply Hkeep|done].
  - unfold StreamData.poll_read. rewrite Hsc. split; [by apply Hkeep|done].
  - unfold StreamData.poll_read. rewrite Hsc. cbn [replicate]. split; [|done]. apply (sim_intro _ j); [unfold textio_ok; by rewrite Hr|by cbn; rewrite Hst|lia|]. unfold script_of. by rewrite Hcl, Hr, Hl.
Qed.

(** * Reads without limits *)

Definition unlimited (c : SpeedController.t) : Prop := SpeedController.recv_rate_limit c = RateLimit.default.
Lemma loop_speed fuel n got s : X.speed_controller (X.read_loop fuel n got s).2 = X.speed_controller s.
Proof.
  revert got s. induction fuel as [|fuel IH]; intros got s; [done|]. cbn [X.read_loop]. destruct (_ =? 0); [done|].
  assert (Hend : ∀ s b m, X.speed_controller (X.end_read s b m).2 = X.speed_controller s) by (intros s0 b m; unfold X.end_read; destruct b; [done|]; by destruct (m =? 0)).
  assert (Hrem : ∀ m, X.speed_controller (X.read_remaining_data m s).2 = X.speed_controller s).
  { intros m. unfold X.read_remaining_data. destruct (X.remain s) as [f|]; [|done]. destruct (Frame.payload f); try done. destruct (_ <? _); [done|]. match goal with |- context [X.end_read ?a ?b ?c] => pose proof (Hend a b c); destruct (X.end_read a b c) end. done. }
  specialize (Hrem (n - len got)). destruct (X.read_remaining_data _ s) as [[[r|] d] s1]; cbn [snd] in Hrem; [done|].
  assert (Hrecv : X.speed_controller (X.poll_recv s1).2 = X.speed_controller s1) by (unfold X.poll_recv; by destruct (X.receiver s1) as [|[[]| |]]).
  destruct (X.poll_recv s1) as [[r|f] s2]; cbn [snd] in Hrecv |- *; [congruence|].
  assert (Hm : ∀ m, X.speed_controller (X.match_channel_message f m s2).2 = X.speed_controller s2).
  { intros m. unfold X.match_channel_message. destruct (Frame.payload f); try done; [|by destruct (rst_stream_is_no_error _)]. destruct (_ <? _); [done|]. match goal with |- context [X.end_read ?a ?b ?c] => pose proof (Hend a b c); destruct (X.end_read a b c) end. done. }
  specialize (Hm (n - len (got ++ d))). destruct (X.match_channel_message f _ s2) as [[[r|] d'] s3]; cbn [snd] in Hm |- *; [congruence|]. rewrite IH. congruence.
Qed.
Lemma unlimited_read fired now later n s :
  unlimited (X.speed_controller s) → 0 < n → X.is_closed s = false →
  X.poll_read fired now later n s =
  match X.read_loop (S (length (X.receiver s))) n [] s with
  | (IoWait, _, s') => (Ok None, s')
  | (IoErr e, _, s') => (Err e, s')
  | (IoOk, got, s') => (Ok (Some got), s')
  end.
Proof.
  intros Hu Hn Hcl. unfold X.poll_read. rewrite M_bind_eq. cbn [mget]. rewrite Hcl, (proj2 (Z.eqb_neq n 0)) by lia. cbn [orb].
  destruct s as [[sd rc] rx off rem cl]. unfold unlimited in Hu. cbn in Hu, Hcl. subst rc cl. set (s := X.mk _ _ _ _ _). transitivity (X.read_counted later n s); [reflexivity|]. unfold X.read_counted. pose proof (loop_speed (S (length (X.receiver s))) n [] s) as Hs.
  destruct (X.read_loop (S (length (X.receiver s))) n [] s) as [[[|e|] got] s']; [|done|done]. cbn [snd] in Hs. destruct s' as [c' rx' off' rem' cl']. cbn [X.speed_controller s] in Hs. subst c'. reflexivity.
Qed.
Definition as_read (x : res textio_error (option bytes)) : option StreamData.read_result :=
  match x with Ok None => Some StreamData.ReadPending | Ok (Some d) => Some (StreamData.ReadFilled d) | Err _ => Some StreamData.ReadError | Panic => None end.
(** The answers of a [TextIo] and of a transport to reads, with [is_stream_closable] behind
    each; a read of a [TextIo] has the instants at which it starts and ends. *)
Fixpoint textio_reads (fired : Z → Z → bool) (l : list (Z * Z * Z)) (s : X.t) : list (option StreamData.read_result * bool) :=
  match l with
  | [] => []
  | (now, later, n) :: l => let '(x, s) := X.poll_read fired now later n s in (as_read x, X.is_stream_closable s) :: textio_reads fired l s
  end.
Fixpoint stream_reads (l : list Z) (st : StreamData.t) : list (option StreamData.read_result * bool) :=
  match l with
  | [] => []
  | n :: l => let '(x, st) := StreamData.poll_read n st in (Some x, StreamData.is_stream_closable st) :: stream_reads l st
  end.
Lemma read_sim fired now later n k s st :
  unlimited (X.speed_controller s) → 0 < n → sim (S k) s st →
  let '(x, s') := X.poll_read fired now later n s in
  let '(y, st') := StreamData.poll_read n st in as_read x = Some y ∧ sim k s' st' ∧ unlimited (X.speed_controller s').
Proof.
  intros Hu Hn Hsim. destruct (X.is_closed s) eqn:Hcl.
  - unfold X.poll_read. rewrite M_bind_eq. cbn [mget]. rewrite Hcl, orb_true_r. cbn [mret M_ret]. destruct Hsim as (Hok & Hst & j & Hj & Hsc). unfold script_of in Hsc. rewrite Hcl in Hsc. destruct j as [|j]; [lia|].
    unfold StreamData.poll_read. rewrite Hsc. cbn [replicate]. change (len [] <=? n) with (0 <=? n). rewrite (proj2 (Z.leb_le 0 n)) by lia. split; [done|]. split; [|done]. apply (sim_intro _ j); [done|by cbn|lia|]. unfold script_of. by rewrite Hcl.
  - rewrite unlimited_read by done. pose proof (loop_speed (S (length (X.receiver s))) n [] s) as Hsp. pose proof (loop_sim (S (length (X.receiver s))) k n s st Hn ltac:(lia) Hcl Hsim) as Ha.
    destruct (StreamData.poll_read n st) as [y st']. destruct (X.read_loop _ n [] s) as [[[|e|] got] s']; cbn [snd answers fst] in *; destruct Ha as [Ha Hy]; cbn in Ha, Hy; subst y; (split; [done|]); (split; [done|]); by rewrite Hsp.
Qed.
Lemma reads_sim fired reads s st :
  unlimited (X.speed_controller s) → Forall (λ x, 0 < x.2) reads → sim (length reads) s st → textio_reads fired reads s = stream_reads (snd <$> reads) st.
Proof.
  intros Hu Hr. revert s st Hu. induction Hr as [|[[now later] n] reads Hn Hr IH]; intros s st Hu Hsim; [done|]. cbn [textio_reads fmap list_fmap stream_reads snd].
  pose proof (read_sim fired now later n (length reads) s st Hu Hn Hsim) as Hx. destruct (X.poll_read fired now later n s) as [x s']. destruct (StreamData.poll_read n st) as [y st']. destruct Hx as (-> & Hs & Hu'). rewrite (IH s' st') by done. by destruct Hs as (_ & -> & _).
Qed.

(** C6: A body over HTTP/2 is a transport like that of HTTP/1: whatever frames, pauses and
    errors come for the stream, every read of [TextIo] with a buffer that is not empty gives
    what the transport with the script of the DATA frames gives.  No byte of a frame is lost,
    read twice or held back, an empty DATA frame does not look like the end, and the stream is
    closable exactly behind the last byte of the frame with END_STREAM (or after a reset
    without an error), from when on every read gives the end. *)
Theorem h2_body_read fired c l reads st :
  unlimited c → Forall (λ x, 0 < x.2) reads → StreamData.script st = io_script (length reads) l → StreamData.is_stream_closable st = false →
  textio_reads fired reads (X.new c l) = stream_reads (snd <$> reads) st.
Proof. intros Hu Hr Hs Hc. apply reads_sim; [done|done|]. by apply (sim_intro _ (length reads)). Qed.
Definition sample_stream : list chan_event :=
  [CMsg (Output (Frame.mk 1 0 (Payload.Data [1; 2; 3; 4; 5]))); CWait; CMsg (Output (Frame.mk 1 0 (Payload.Data []))); CMsg (Output (Frame.mk 1 1 (Payload.Data [6; 7])))].
Definition sample_reads : list (Z * Z * Z) := [(0, 1, 3); (2, 3, 3); (4, 5, 3); (6, 7, 1); (8, 9, 9); (10, 11, 9)].
Lemma h2_body_read_witness :
  textio_reads Z.leb sample_reads (X.new SpeedController.none sample_stream) =
  [(Some (StreamData.ReadFilled [1; 2; 3]), false); (Some (StreamData.ReadFilled [4; 5]), false); (Some StreamData.ReadPending, false);
   (Some (StreamData.ReadFilled [6]), false); (Some (StreamData.ReadFilled [7]), true); (Some (StreamData.ReadFilled []), true)].
Proof.
  rewrite (h2_body_read Z.leb SpeedController.none sample_stream sample_reads (StreamData.mk (io_script 6 sample_stream) false VHttp2 DirectHttps PhBodyDrain)); [vm_compute; reflexivity|reflexivity|repeat constructor|reflexivity|reflexivity].
Defined.

(** * Reads with a limit on the speed *)

Lemma loop_facts fuel n s :
  0 < n → (length (X.receiver s) < fuel)%nat → X.is_closed s = false → textio_ok s →
  let '(r, d, s') := X.read_loop fuel n [] s in textio_ok s' ∧ (r = IoOk → len d ≤ n).
Proof.
  intros Hn Hf Hcl Hok. set (st := StreamData.mk (script_of 1 s) (X.is_closed s) VHttp2 DirectHttps PhBodyDrain). assert (Hsim : sim 1 s st) by (by apply (sim_intro _ 1)).
  pose proof (loop_sim fuel 0 n s st Hn Hf Hcl Hsim) as Ha. destruct (X.read_loop fuel n [] s) as [[r d] s']. destruct Ha as [(Ho & _) Hr]. split; [done|]. intros ->.
  unfold StreamData.poll_read in Hr. destruct (StreamData.script st) as [|[|e c|] l]; try done. destruct (Z.leb_spec (len e) n); cbn [fst] in Hr; injection Hr as <-; [done|]. rewrite len_upto; lia.
Qed.
(** Since [t0], [total] bytes came through [s], whose limit is [rate]. *)
Definition limited (rate t0 total now : Z) (s : X.t) : Prop :=
  textio_ok s ∧ ∃ m, RateLimit.max_speed (SpeedController.recv_rate_limit (X.speed_controller s)) = Some m ∧ SpeedLimit.rate m = rate ∧ paced t0 total now m.
Lemma limited_later rate t0 total now now' s : now ≤ now' → limited rate t0 total now s → limited rate t0 total now' s.
Proof. intros Hn (Ho & m & Hm & Hr & Hp). split; [done|]. exists m. split; [done|]. split; [done|]. by eapply paced_later. Qed.
Lemma count_ok rate t0 total now n s :
  textio_ok s → 0 ≤ n → (total + n) * 1000 < 2 ^ 64 →
  (∃ m, RateLimit.max_speed (SpeedController.recv_rate_limit (X.speed_controller s)) = Some m ∧ SpeedLimit.rate m = rate ∧ paced t0 total now m ∧ SpeedLimit.delay m = None ∧ is_Some (SpeedLimit.start m)) →
  match X.count now n s with (Ok _, s') => limited rate t0 (total + n) now s' | (Err _, s') => limited rate t0 total now s' | (Panic, _) => True end.
Proof.
  intros Hok Hn Hov (m & Hm & Hr & Hp & Hd & Hst). destruct s as [[sd [mn mx]] rx off rem cl]. cbn in Hm. subst mx. unfold X.count. rewrite M_bind_eq. unfold X.on_speed at 1. cbn [X.speed_controller].
  unfold SpeedController.min_recv_speed_limit, SpeedController.on_recv, RateLimit.min_speed_limit, RateLimit.on_min. cbn [SpeedController.recv_rate_limit RateLimit.min_speed RateLimit.max_speed SpeedController.send_rate_limit].
  assert (Hgo : ∀ mn', match (X.on_speed (SpeedController.delay_max_recv_speed_limit now n) ≫= λ _, X.speed_modify (SpeedController.reset_recv_pending_timeout now)) (X.mk (SpeedController.mk sd (RateLimit.mk mn' (Some m))) rx off rem cl) with
    | (Ok _, s') => limited rate t0 (total + n) now s' | (Err _, s') => limited rate t0 total now s' | (Panic, _) => True end).
  { intros mn'. destruct (paced_took t0 total now m n Hp Hd Hn Hov Hst) as (m' & Hx & Hp' & Hr'). rewrite M_bind_eq. unfold X.on_speed, SpeedController.delay_max_recv_speed_limit, SpeedController.on_recv, RateLimit.delay_max_speed_limit, RateLimit.on_max.
    cbn [X.speed_controller SpeedController.recv_rate_limit RateLimit.max_speed]. rewrite Hx. cbn. split; [done|]. exists m'. split; [done|]. split; [by rewrite Hr'|done]. }
  destruct mn as [mn|]; [|apply Hgo]. destruct (SpeedLimit.limit_min_speed now n mn) as [[[]|e|] mn']; [apply Hgo| |done]. split; [done|]. by exists m.
Qed.
Lemma limited_read fired rate t0 total before now later n s :
  (∀ d x, fired d x = true → d ≤ x) → limited rate t0 total before s → before ≤ now → now ≤ later → 0 ≤ n → (total + n) * 1000 < 2 ^ 64 →
  match X.poll_read fired now later n s with
  | (Ok (Some d), s') => limited rate t0 (total + len d) later s' ∧ len d ≤ n ∧ (d ≠ [] → total * 10 ^ 12 ≤ rate * (1001 * (now - t0) + 10 ^ 12))
  | (Ok None, s') | (Err _, s') => limited rate t0 total later s'
  | (Panic, _) => True
  end.
Proof.
  intros Hf Hl Hb Hnl Hn Hov. apply (limited_later _ _ _ _ now) in Hl; [|done]. pose proof (limited_later _ _ _ _ later _ Hnl Hl) as Hl2. unfold X.poll_read. rewrite M_bind_eq. cbn [mget].
  destruct (Z.eqb_spec n 0) as [->|Hn0]; [cbn; rewrite Z.add_0_r; by split|]. destruct (X.is_closed s) eqn:Hcl; [cbn; rewrite Z.add_0_r; by split|]. cbn [orb].
  destruct (SpeedController.poll_recv_pending_timeout _ _ _); [done|]. destruct Hl as (Hok & m & Hm & Hr & Hp). destruct s as [[sd [mn mx]] rx off rem cl]. cbn in Hm, Hcl. subst mx cl.
  rewrite M_bind_eq. cbn [X.speed_modify mmodify]. set (s1 := X.set_speed _ _). rewrite M_bind_eq. unfold X.on_speed. cbn [X.speed_controller s1 X.set_speed].
  unfold SpeedController.poll_max_recv_delay_time, SpeedController.on_recv, SpeedController.init_min_recv_if_not_start, RateLimit.init_min_limit_if_not_start, RateLimit.poll_limited_delay. cbn [SpeedController.recv_rate_limit SpeedController.send_rate_limit RateLimit.max_speed RateLimit.min_speed].
  pose proof (paced_poll fired t0 total now m Hf Hp) as Hx. destruct (SpeedLimit.poll_max_limited_delay fired now m) as [y m1]. destruct Hx as (Hp1 & Hr1 & Hd1). destruct y; cbn [negb]; [|cbn; split; [done|]; exists m1; split; [done|]; split; [by rewrite Hr1|by eapply paced_later]].
  specialize (Hd1 eq_refl). destruct (paced_init t0 total now m1 Hp1 Hd1) as [Hp2 Hd2]. rewrite M_bind_eq. cbn [X.speed_modify mmodify X.set_speed X.speed_controller]. unfold SpeedController.init_max_recv_if_not_start, RateLimit.init_max_limit_if_not_start. cbn [SpeedController.recv_rate_limit SpeedController.send_rate_limit RateLimit.max_speed RateLimit.min_speed fmap option_fmap option_map].
  set (m2 := SpeedLimit.init_if_not_start now m1) in *. assert (Hst2 : is_Some (SpeedLimit.start m2)) by (unfold m2, SpeedLimit.init_if_not_start; destruct (SpeedLimit.start m1) eqn:Hs; [by rewrite Hs|done]).
  assert (Hr2 : SpeedLimit.rate m2 = rate) by (rewrite <- Hr, <- Hr1; unfold m2, SpeedLimit.init_if_not_start; by destruct (SpeedLimit.start m1)).
  set (s2 := X.mk (SpeedController.mk sd (RateLimit.mk (SpeedLimit.init_if_not_start now <$> mn) (Some m2))) rx off rem false). match goal with |- context [X.read_counted later n ?a] => change a with s2 end. unfold X.read_counted. assert (Hok2 : textio_ok s2) by exact Hok.
  pose proof (loop_facts (S (length (X.receiver s2))) n s2 ltac:(lia) ltac:(lia) eq_refl Hok2) as Hlf. pose proof (loop_speed (S (length (X.receiver s2))) n [] s2) as Hls.
  destruct (X.read_loop (S (length (X.receiver s2))) n [] s2) as [[r d] s3]. destruct Hlf as [Hok3 Hlen]. cbn [snd] in Hls.
  assert (Hm3 : RateLimit.max_speed (SpeedController.recv_rate_limit (X.speed_controller s3)) = Some m2) by (by rewrite Hls).
  assert (Hp3 : paced t0 total later m2) by (by eapply paced_later).
  assert (Hl3 : limited rate t0 total later s3) by (split; [done|]; by exists m2).
  destruct r as [|e|]; [|done|done]. specialize (Hlen eq_refl). rewrite M_bind_eq.
  pose proof (count_ok rate t0 total later (len d) s3 Hok3 (len_nonneg d) ltac:(lia) ltac:(by exists m2)) as Hc. destruct (X.count later (len d) s3) as [[[]|e|] s4]; [|done|done]. cbn. split; [done|]. split; [done|]. intros _. pose proof (paced_bound t0 total now m2 Hp2 Hd2) as Hbd. by rewrite Hr2 in Hbd.
Qed.
(** The bytes the reads deliver, each with the instant at which its read started; a panic
    ends the run, an error does not. *)
Fixpoint deliveries (fired : Z → Z → bool) (l : list (Z * Z * Z)) (s : X.t) : list (Z * bytes) :=
  match l with
  | [] => []
  | (now, later, n) :: l =>
      match X.poll_read fired now later n s with
      | (Ok (Some d), s) => (now, d) :: deliveries fired l s
      | (Ok None, s) | (Err _, s) => deliveries fired l s
      | (Panic, _) => []
      end
  end.
(** Reads one after the other. *)
Fixpoint in_time (before : Z) (l : list (Z * Z * Z)) : Prop :=
  match l with
  | [] => True
  | (now, later, n) :: l => before ≤ now ∧ now ≤ later ∧ 0 ≤ n ∧ in_time later l
  end.
Definition asked (l : list (Z * Z * Z)) : Z := fold_right (λ x n, x.2 + n) 0 l.
Lemma asked_nonneg before l : in_time before l → 0 ≤ asked l.
Proof. revert before. induction l as [|[[now later] n] l IH]; intros before; [done|]. cbn [in_time]. intros (_ & _ & Hn & Hl). specialize (IH _ Hl). change (asked ((now, later, n) :: l)) with (n + asked l). lia. Qed.
Lemma deliveries_paced fired rate t0 reads total before s :
  (∀ d x, fired d x = true → d ≤ x) → limited rate t0 total before s → in_time before reads → 0 ≤ total → (total + asked reads) * 1000 < 2 ^ 64 →
  ∀ pre t d post, deliveries fired reads s = pre ++ (t, d) :: post → d ≠ [] → (total + len (pre ≫= snd)) * 10 ^ 12 ≤ rate * (1001 * (t - t0) + 10 ^ 12).
Proof.
  intros Hf. revert total before s. induction reads as [|[[now later] n] reads IH]; intros total before s Hl Ht H0 Hov pre t d post Hd Hne; cbn [deliveries] in Hd; [by destruct pre|].
  cbn in Ht. destruct Ht as (H1 & H2 & H3 & Ht). pose proof (asked_nonneg _ _ Ht) as Ha. change (asked ((now, later, n) :: reads)) with (n + asked reads) in Hov.
  pose proof (limited_read fired rate t0 total before now later n s Hf Hl H1 H2 H3 ltac:(lia)) as Hx. destruct (X.poll_read fired now later n s) as [[[e|]|e|] s']; [| | |by destruct pre]; [|by apply (IH total later s' Hx Ht H0 ltac:(lia) pre t d post Hd)|by apply (IH total later s' Hx Ht H0 ltac:(lia) pre t d post Hd)].
  destruct Hx as (Hl' & Hlen & Hb). destruct pre as [|[t1 d1] pre]; injection Hd as <- <- Hd.
  - specialize (Hb Hne). cbn [mbind list_bind]. change (len []) with 0. by rewrite Z.add_0_r.
  - pose proof (len_nonneg e). specialize (IH (total + len e) later s' Hl' Ht ltac:(lia) ltac:(lia) pre t d post Hd Hne). cbn [mbind list_bind snd]. rewrite len_app, Z.add_assoc. exact IH.
Qed.
Lemma limits_set t0 config c l rate :
  0 < rate → SpeedConfig.max_recv config = Some rate → SpeedController.set_speed_limit t0 config SpeedController.none = Ok c → limited rate t0 0 t0 (X.new c l).
Proof.
  intros Hr Hm Hc. unfold SpeedController.set_speed_limit in Hc. inv_bind Hc. inv_bind Hc. injection Hc as <-. clear Ha0. unfold SpeedController.set_limits in Ha. rewrite Hm in Ha. inv_bind Ha. unfold RateLimit.set_max_speed in Ha0. inv_bind Ha0. injection Ha0 as <-.
  pose proof (paced_new t0 rate _ Hr Ha1) as Hp. assert (Hrate : SpeedLimit.rate a2 = rate) by (unfold SpeedLimit.new in Ha1; inv_bind Ha1; by injection Ha1 as <-).
  split; [done|]. exists a2. split; [|done]. cbn. destruct (SpeedConfig.min_recv config) as [mn|]; [|by injection Ha as <-]. destruct (SpeedConfig.min_speed_interval config) as [iv|]; [|by injection Ha as <-].
  unfold RateLimit.set_min_speed in Ha. inv_bind Ha. by injection Ha as <-.
Qed.

(** C7: A limit on the speed holds.  With a limit of [rate] bytes a second set at [t0], and
    timers that do not fire early, a read that delivers bytes at the instant [t] finds that
    what was delivered before it is within [rate] for the time since [t0], a second more and a
    thousandth for the rounding to milliseconds; whatever the frames, the buffers, the
    instants and the other limits are. *)
Theorem h2_body_paced fired t0 config c l rate reads :
  (∀ d x, fired d x = true → d ≤ x) → 0 < rate → SpeedConfig.max_recv config = Some rate → SpeedController.set_speed_limit t0 config SpeedController.none = Ok c →
  in_time t0 reads → asked reads * 1000 < 2 ^ 64 →
  ∀ pre t d post, deliveries fired reads (X.new c l) = pre ++ (t, d) :: post → d ≠ [] → len (pre ≫= snd) * 10 ^ 12 ≤ rate * (1001 * (t - t0) + 10 ^ 12).
Proof.
  intros Hf Hr Hm Hc Ht Hov pre t d post Hd Hne. pose proof (limits_set t0 config c l rate Hr Hm Hc) as Hl. exact (deliveries_paced fired rate t0 reads 0 t0 _ Hf Hl Ht ltac:(done) Hov pre t d post Hd Hne).
Qed.
(** Two bytes a second: the third and fourth byte come when the first two have had their
    second. *)
Definition paced_config : SpeedConfig.t := SpeedConfig.set_max_rate SpeedConfig.none 2.
Definition paced_reads : list (Z * Z * Z) := [(0, 1000, 2); (2000, 3000, 2); (1000000000, 1000001000, 2)].
Definition paced_controller : SpeedController.t := match SpeedController.set_speed_limit 0 paced_config SpeedController.none with Ok c => c | _ => SpeedController.none end.
Lemma h2_body_paced_witness :
  deliveries Z.leb paced_reads (X.new paced_controller sample_stream) = [(0, [1; 2]); (1000000000, [3; 4])] ∧
  len ([(0, [1; 2])] ≫= snd) * 10 ^ 12 ≤ 2 * (1001 * (1000000000 - 0) + 10 ^ 12).
Proof.
  assert (Hd : deliveries Z.leb paced_reads (X.new paced_controller sample_stream) = [(0, [1; 2])] ++ (1000000000, [3; 4]) :: []) by (vm_compute; reflexivity).
  split; [exact Hd|]. apply (h2_body_paced Z.leb 0 paced_config paced_controller sample_stream 2 paced_reads) with (d := [3; 4]) (post := []);
    [intros d x Hx; by apply Z.leb_le|lia|reflexivity|vm_compute; reflexivity|repeat split; lia|vm_compute; reflexivity|exact Hd|done].
Defined.

(** A limit of 0 bytes a second is accepted, and the first read that delivers divides by it. *)
Lemma zero_rate_panics : ∃ c,
  SpeedController.set_speed_limit 0 (SpeedConfig.set_max_rate SpeedConfig.none 0) SpeedController.none = Ok c ∧ (X.poll_read Z.leb 0 1 2 (X.new c sample_stream)).1 = Panic.
Proof. eexists. split; [reflexivity|]. by vm_compute. Qed.
(** The END_STREAM flag of the HEADERS of a response is not looked at: a response that ends
    with them and has no [Content-Length] gets a body that is read until the stream closes,
    from a channel in which nothing comes any more and which the manager keeps open. *)
Definition complete_head : Frame.t := Frame.mk 1 5 (Payload.Headers (Parts.mk (PseudoHeaders.set_status PseudoHeaders.new (Some (str "200"))) Headers.new)).
Lemma complete_response_waits :
  es complete_head = true ∧ frame_2_response Method.Get complete_head = Ok (ResponsePart.mk Version.Http2 (StatusCode.mk 200) Headers.new, BUntilClose) ∧
  textio_reads Z.leb sample_reads (X.new SpeedController.none []) = replicate 6 (Some StreamData.ReadPending, false).
Proof. by vm_compute. Qed.
